(* ===== verification/_CoqProject ===== *)
-Q . S2P
Prelude.v
GoStrings.v
ApiFootball.v
Fixture.v
Event.v
Identity.v
Integrity.v
Health.v
Vision.v
Video.v
Selection.v
Auditlog.v
Presentation.v
Plan.v
Jsonb.v
Discovery.v
Store.v
Mutation.v
Commit.v
Guarantees.v
Preserve.v
Events.v
Fixtures.v
Candidates.v
HealthRepo.v
World.v
Planning.v
Activity.v
Reconcile.v
Collect.v
Activation.v
Spawner.v
Search.v
Query.v
Wire.v
Flow.v
Pipeline.v
Drain.v
Custody.v
Pool.v
Clips.v
Producer.v
Searching.v
EventRun.v
Hunt.v
Lineage.v
Media.v
Gallery.v
Placement.v
Reselect.v
Persist.v
MediaLaws.v
Placing.v
Restoring.v
Links.v
Rows.v
Bytes.v
Recovering.v
Votes.v
Effects.v
Scenario.v
Showing.v
Cycle.v
Teams.v
Ingest.v
Coordinate.v
Polling.v
Teardown.v
Daily.v
Rota.v
GoTime.v
Feed.v
Timeline.v
Session.v
Browser.v
Client.v
Lookout.v
