(* ===== verification/Prelude.v ===== *)
(** * A verification development for found-footy

    found-footy follows football fixtures through a provider's API, turns goals
    into events, searches Twitter for clips of each event, and publishes the
    clips that survive download, hashing, clock validation and deduplication.
    The implementation is the Go code under src/internal; this library models the
    parts that decide something, proves what each promises, and leaves aside the
    parts that only move bytes.

    ** The program and its model

    A worker process runs activities and workflows.  Every 30 seconds, by default,
    the active poll (workflow/active_poll.go) has the monitor (activity/monitor) fetch
    the active fixtures, judge the response against the stored facts
    (domain/providerintegrity), and commit what it may to PostgreSQL (infra/pg).  An
    event that becomes stable starts a discovery workflow (workflow/event.go), which
    searches (twitter, activity/discovery), downloads and hashes (activity/video),
    validates (activity/vision, domain/vision), deduplicates and places clips
    (domain/video).

    - Prelude, GoStrings: record update, 64-bit integers, instants, boolean
      reflection, list lemmas; Go's strings and strconv on byte strings.
    - ApiFootball (module apifootball): infra/apifootball, the provider's enums,
      the contract of a fixture response, the batched fetch.
    - Fixture, Event, Presentation, Auditlog, Discovery (modules fixture, event,
      fixturepresentation, auditlog, discoverycontract): the aggregates and the
      contracts of domain/ and contract/.
    - Identity, Planning (modules monitor, planning): which stored row an element
      of the provider's array continues, and the plan of one reconciliation.
    - Integrity, Health (modules providerintegrity, health): the verdict on one
      observation, and the evidence that polls accumulate.
    - Vision, Video, Selection (modules vision, video, selection): the clock read
      from frames and the verdict on a clip; hashes, matching, quality, ranking;
      which accepted variants are public.
    - Plan, Jsonb, Store (modules mutation, jsonb, pg): the guarded commands, the
      JSON values PostgreSQL keeps, the tables with the constraints of
      infra/pg/schema.sql and the statements on them.
    - Mutation (module boundary): the guarded write boundary of infra/pg;
      Commit, Guarantees, Effects (modules commit, guarantees, effects): the
      abstract step relation it refines, and what it promises its callers.
    - Preserve (module preserve), Events, Fixtures, Candidates, HealthRepo (modules
      eventrepo, fixturerepo, candidaterepo, healthrepo): the other repositories,
      and the calculus that shows they keep the invariants of the tables.
    - World (module world): all of them against one database.
    - Activity, Reconcile, Collect, Activation, Spawner (modules activity,
      reconcile, collect, activation, spawner): the activities of the monitor as
      programs over transactions and requests to the workflow service.
    - Search, Query (modules twittersearch, discoveryactivity, alias, discovery):
      the contract of the browser service with its windows, the discovery
      configuration; the tokens of names and the text of a query (domain/alias,
      domain/discovery/query_builder.go).
    - Wire, Flow, Pipeline (modules wire, flow, pipeline): the errors and payloads
      that cross the workflow service; the candidate consumer of the event workflow
      (workflow/event_pipeline*.go and the video child workflow): its state, every
      callback, and the loop that waits for them.
    - Drain, Custody, Pool (modules drain, custody, pool): the consumer ends, it
      settles every candidate once, and it only calls clips duplicates that are;
      Clips (module clips): a concrete run of it.
    - Producer, EventRun (modules producer, eventrun): the search loop of the event
      workflow with its two budgets, its checkpoints and the activity SearchTweets;
      the workflow as a whole (workflow/event.go).  Searching (module searching)
      has the theorems about the loop, Hunt (module hunt) a concrete run.
    - Lineage (module lineage): forests of successor pointers.  Media, Gallery,
      Placement, Reselect (modules media, gallery, placement, reselect): the video
      tables of infra/pg/schema.sql and the statements on them; the repositories and
      the public listing of infra/pg/video_repo.go; the placement transaction
      (video_placement_repo.go, video_validation.go); the snapshot, the application
      and the receipt of a selection (video_selection_*.go,
      video_placement_selection.go).
    - MediaLaws, Placing, Restoring (modules medialaws, placing, restoring): the
      invariant of the video tables, and what placements and selections do to them;
      Links and Votes (modules links, votes) have the theorems, Showing (module
      showing) the concrete runs.
    - Persist (module persist): the activities of activity/video (persist.go,
      selection.go) and activity/retention as programs over transactions and requests
      to the object store.  Rows (module rows) has what transactions do to the rows of
      assets, Bytes (module bytes) a pool of such activities that interleave, fail and
      die, Recovering (module recovering) the state a replacement run is given.
    - Teams, Ingest (modules teams, alias, ingest): the tracked teams and their
      refresh, the team records (domain/team, domain/alias, infra/pg/team_repo.go,
      alias_repo.go), and the activities of the daily ingestion (activity/ingest).
    - Coordinate, Polling, Daily (modules coordinate, polling, daily): the scheduled
      workflows - the active poll, the staging poll and the daily ingestion
      (workflow/active_poll.go, staging_poll.go, provider_health.go, ingest.go).
      Teardown (module teardown) composes the active poll with the reconciliation and
      the transactions below it; Rota (module rota) has the concrete runs.
    - GoTime (module gotime): the parts of Go's time and utf8 packages that the
      browser service uses.  Feed, Timeline, Session, Browser (modules feed, timeline,
      session, browser): the browser service (internal/twitter) - the scan of a search
      page (search_scroll.go, search_extract.go), what it observes of the requests of
      the page (search_accounting.go, search_evidence.go), its state and the cookies
      it shares through a file (service.go, auth.go, cookies_backup.go), and the
      search handler (search.go).  Client (module client): the client of the service
      (infra/twitter/client.go) and the maintenance probe (activity/twittermaintenance,
      workflow/twitter_maintenance.go).  Lookout (module lookout) has a concrete
      search.
    - Scenario, Cycle (modules scenario, cycle): a concrete match day, on which
      the theorems with hypotheses are applied.

    ** How the code is rendered

    A Go function without effects is a function; an error result is a sum or an
    option.  A struct is a record, a map a [gmap] and, where the order Go ranges
    over it could be observed, an argument that gives an order.  [int] and
    [int64] are integers, wrapped where the code adds to a counter; floats are
    the IEEE binary64 values of the Standard Library; times are nanoseconds.

    A transaction is a computation on the tables that fails as a whole or
    commits.  PostgreSQL serializes the transactions of one fixture by the locks
    the code takes, so a transaction is one step, and concurrency is the order of
    transactions: the invariants of World.v hold under every interleaving.  The
    activities of the monitor are programs whose transactions may fail, may commit
    although the caller is told they failed, and have other workers' transactions
    in between ([runs] of Activity.v).

    A workflow is deterministic code between answers.  The consumer of Pipeline.v
    runs against a schedule of entries: each wait takes the next entry that is ready,
    so every order in which downloads, hashes, validations, searches and a
    cancellation can come is a schedule; the answers of the activities are arbitrary
    functions of what was asked.  The producer of Producer.v waits for one activity
    at a time, so its run is a function of the answers.  A scheduled workflow does the
    same (Coordinate.v): an answer may depend on the whole history of commands and answers,
    and a theorem about a run speaks of the commands in that history.

    ** What is proved

    - The write boundary refines an abstract step relation, keeps the schema, is
      idempotent, applies only newer observations, touches one fixture, only adds
      under a restricted policy, and reports exactly what it committed
      (Guarantees, Effects).
    - Every worker keeps the invariants of the tables under every interleaving
      (World, Reconcile); completion, removal and retries are final (Candidates,
      HealthRepo, Fixtures).
    - A plan is exactly the difference between the stored rows and the response;
      identities are assigned completely, optimally and without reuse (Planning,
      Identity).
    - Discovery workflows start only after their registration and are terminated
      only on evidence (Reconcile, Spawner); the staging poll and the health poll
      decide what they say (Activation, Collect).
    - Verdicts rest on evidence (Integrity, Vision), matching is exact (Video),
      selection is total and additive (Selection).
    - A run of the event workflow comes to an end, and its checklist row is only
      marked complete when every candidate it took over or found has its result
      stored, once (EventRun).  The search stays within its budgets, hands a
      candidate on once, checkpoints only what is stored and keeps its window
      (Searching); a query can be read back (Query).
    - The consumer ends under every schedule, settles each candidate once, is silent
      after a cancellation, and a clip it drops is a duplicate by the policy (Drain,
      Custody, Pool).
    - Whatever sequence of placements, selections, removals and reclaims runs, a
      public link leads to a live clip of its event; after a placement a clip's score
      counts the candidates that support it, once each; a selection shows exactly the clips of its plan; a removed event gets no
      clip (Links, Votes).  A public clip has its bytes in the bucket, however the
      activities interleave and fail (Bytes); a replacement run is given exactly the
      live clips, and adopts them (Recovering).
    - A poll cycle reconciles every fetched fixture once under a fresh receipt and
      follows up on exactly what the reconciliations report (Polling); what it tears
      down was removed by a transaction (Teardown).  A daily ingestion stores what it
      fetched, once, and reclaims exactly what the retention planned (Daily); a
      refresh of the tracked teams loses no league it could not reach (Teams).
    - A search that says it reached the floor of its window returned exactly the
      clips of the window, from the page through the service and the client to the
      activity (Client); a scan reads the feed from the top, each tweet once, and
      stops only where it may (Feed); the evidence of a scan is bounded, and its
      records and counts are those of the events the page fired (Timeline).  The service never writes a file it would not trust, and leaves
      the file alone while its browser has the cookies in it (Session); a success of
      the handler says what the page showed (Browser).

    ** Bounds and fuel

    Recursion that is not structural carries fuel computed from its input (the
    chains of Selection.v from the number of nodes, the loops of GoStrings from
    the length of the text, the consumer loop of Pipeline.v from the length of
    its schedule, the search loop of Producer.v from its two budgets), and each use
    has a lemma that the fuel is enough or a theorem that a result is produced.

    ** What is not modelled

    HTTP, browser and S3 transports, ffmpeg, the vision model, PNG and JSON
    decoding, the live feed, the public API, the operator UI, configuration and
    process wiring: they do input and output, and what the modelled code relies on
    enters as an argument or as a hypothesis that says so.  Log lines and
    measurements are dropped.  Timeouts of contexts are answers of the environment.
    Non-ASCII case mapping is not modelled (GoStrings says how it differs).
    The browser process behind the search service and the capture of a manual login,
    the SQL of the discovery progress and the replay store are not modelled; what the
    browser does at an address is an input.  The activities of older histories
    (PromoteAndPersist, SupersedeAssets) are modelled, but no theorem is about them.
    The random identifier of a share, the JSON digests of a selection and the length
    of encoded evidence are parameters.  The retry policies of activities are part of
    their answers. *)
From stdpp Require Export prelude gmap strings list sorting relations.
From Stdlib Require Export ZArith Lia.

#[global] Open Scope Z_scope.

(** ** Functional record update

    Go methods assign single fields of a struct.  [r <| f := v |>] is the value
    [r] with field [f] replaced; the record only has to say how it is rebuilt
    from its own fields ([Eta]). *)

Class Eta (R : Type) := eta_of : R → R.

Class FieldUpdate {R E : Type} (field : R → E) := field_update : (E → E) → R → R.
Arguments field_update {R E} field {_} _ _ /.


Ltac field_update_for R field :=
  let inst := constr:(_ : Eta R) in
  let body := eval hnf in inst in
  lazymatch eval pattern field in body with
  | ?F field =>
      let upd := eval cbv beta in (fun g => F (fun r => g (field r))) in
      exact upd
  end.

#[global] Hint Extern 1 (FieldUpdate (R:=?R) ?field) =>
  field_update_for R field : typeclass_instances.

Declare Scope go_scope.
Delimit Scope go_scope with go.
#[global] Open Scope go_scope.

Notation "r <| field ::= g |>" := (field_update field g r)
  (at level 1, left associativity, field at next level, g at level 99) : go_scope.
Notation "r <| field := v |>" := (field_update field (λ _, v) r)
  (at level 1, left associativity, field at next level, v at level 99) : go_scope.

(** ** Machine integers

    Go's [int] and [int64] are 64-bit two's complement.  A counter that the code
    increments is kept as a [Z] and wrapped where the code adds. *)

Definition int64_min : Z := - 2 ^ 63.
Definition int64_max : Z := 2 ^ 63 - 1.

Definition wrap64 (z : Z) : Z := (z + 2 ^ 63) mod 2 ^ 64 - 2 ^ 63.

Definition fits64 (z : Z) : Prop := int64_min ≤ z ≤ int64_max.

Lemma wrap64_fits z : fits64 (wrap64 z).
Proof.
  unfold fits64, wrap64, int64_min, int64_max.
  pose proof (Z.mod_pos_bound (z + 2 ^ 63) (2 ^ 64)). lia.
Qed.

Lemma wrap64_id z : fits64 z → wrap64 z = z.
Proof.
  unfold fits64, wrap64, int64_min, int64_max; intros Hz.
  rewrite Z.mod_small; lia.
Qed.

(** ** time.Time and time.Duration

    A [time.Time] is an instant: nanoseconds after Go's zero time, so the zero
    value is [0] and [IsZero] tests for it.  [UTC] only changes the attached
    location, never the instant.  [Sub] saturates at the ends of [int64]. *)

Abbreviation Time := Z (only parsing).
Abbreviation Duration := Z (only parsing).

Definition zero_time : Time := 0.
Definition UTC (t : Time) : Time := t.
Definition IsZero (t : Time) : bool := t =? 0.
Definition After (t u : Time) : bool := u <? t.
Definition Before (t u : Time) : bool := t <? u.
Definition time_Sub (t u : Time) : Duration := Z.max int64_min (Z.min int64_max (t - u)).
Definition time_Add (t : Time) (d : Duration) : Time := t + d.

Definition time_Second : Duration := 1000000000.
Definition time_Minute : Duration := 60 * time_Second.
Definition time_Hour : Duration := 60 * time_Minute.

Lemma time_Sub_le t u d : d < int64_max → int64_min ≤ d → (time_Sub t u ≤ d ↔ t - u ≤ d).
Proof. unfold time_Sub, int64_max, int64_min. lia. Qed.

Lemma time_Sub_lt t u d : d ≤ int64_max → int64_min < d → (time_Sub t u < d ↔ t - u < d).
Proof. unfold time_Sub, int64_max, int64_min. lia. Qed.

(** ** Pointers to scalars

    A nullable Go scalar ([*int], [*string], [*time.Time]) is an [option].  The
    code never compares two such pointers by address without a nil check, so a
    value model is exact. *)

Definition is_nil {A} (p : option A) : bool :=
  match p with None => true | Some _ => false end.

Definition not_nil {A} (p : option A) : bool := negb (is_nil p).

Lemma is_nil_true {A} (p : option A) : is_nil p = true ↔ p = None.
Proof. by destruct p. Qed.

Lemma not_nil_true {A} (p : option A) : not_nil p = true ↔ is_Some p.
Proof. destruct p; naive_solver. Qed.

(** ** Boolean conditions

    Guards are written with boolean tests so that they evaluate; [simpl_bools]
    turns every test in the context into the proposition it decides. *)

Create Rewrite HintDb go_bool.

Lemma bool_eq_iff_true (b : bool) (P : Prop) : (b = true ↔ P) → (b = false ↔ ¬ P).
Proof. destruct b; intuition congruence. Qed.

#[export] Hint Rewrite andb_true_iff andb_false_iff orb_true_iff orb_false_iff
  negb_true_iff negb_false_iff Z.eqb_eq Z.eqb_neq Z.leb_le Z.leb_gt Z.ltb_lt Z.ltb_ge
  String.eqb_eq String.eqb_neq Nat.eqb_eq Nat.eqb_neq Nat.leb_le Nat.ltb_lt Nat.leb_gt
  Nat.ltb_ge bool_decide_eq_true bool_decide_eq_false @is_nil_true @not_nil_true
  : go_bool.

Ltac simpl_bools :=
  unfold After, Before, IsZero in *;
  repeat match goal with H : _ |- _ => progress autorewrite with go_bool in H end;
  autorewrite with go_bool.

(** Splits every [if] and [match] of the goal and of the hypotheses. *)
Ltac split_cases := repeat (case_match; simplify_eq/=).

(** [s] is one of the listed case labels of a string switch. *)
Definition one_of (s : string) (cases : list string) : bool :=
  existsb (String.eqb s) cases.

Lemma one_of_true s cases : one_of s cases = true ↔ s ∈ cases.
Proof.
  unfold one_of. rewrite existsb_exists. setoid_rewrite String.eqb_eq.
  setoid_rewrite <-list_elem_of_In. naive_solver.
Qed.

Lemma one_of_false s cases : one_of s cases = false ↔ s ∉ cases.
Proof. apply bool_eq_iff_true, one_of_true. Qed.

Lemma one_of_impl s c1 c2 :
  forallb (λ x, one_of x c2) c1 = true → one_of s c1 = true → one_of s c2 = true.
Proof.
  rewrite forallb_forall, one_of_true. intros H Hs. apply H.
  by apply list_elem_of_In.
Qed.

Lemma one_of_disjoint s c1 c2 :
  forallb (λ x, negb (one_of x c2)) c1 = true → one_of s c1 = true → one_of s c2 = false.
Proof.
  rewrite forallb_forall, one_of_true. intros H Hs.
  apply list_elem_of_In, H in Hs. by apply negb_true_iff in Hs.
Qed.

#[export] Hint Rewrite one_of_true one_of_false : go_bool.

(** ** Filters and maps of lists *)

Lemma filter_all {A} (P : A → Prop) `{∀ x, Decision (P x)} (l : list A) :
  Forall P l → filter P l = l.
Proof. induction 1 as [|x l Hx _ IH]; [done|]. by rewrite filter_cons_True, IH. Qed.

Lemma filter_none {A} (P : A → Prop) `{∀ x, Decision (P x)} (l : list A) :
  Forall (λ x, ¬ P x) l → filter P l = [].
Proof. induction 1 as [|x l Hx _ IH]; [done|]. by rewrite filter_cons_False, IH. Qed.

Lemma NoDup_fmap_inj {A B} (f : A → B) l x y :
  NoDup (f <$> l) → x ∈ l → y ∈ l → f x = f y → x = y.
Proof.
  induction l as [|z l IH]; [by intros _ ?%elem_of_nil|].
  cbn. intros [Hz Hl]%NoDup_cons Hx Hy Hf.
  apply elem_of_cons in Hx as [->|Hx], Hy as [->|Hy]; [done|..|by apply IH].
  - destruct Hz. rewrite Hf. by apply list_elem_of_fmap_2.
  - destruct Hz. rewrite <-Hf. by apply list_elem_of_fmap_2.
Qed.

Lemma omap_fmap {A B C} (f : A → B) (g : B → option C) (l : list A) :
  omap g (f <$> l) = omap (λ x, g (f x)) l.
Proof. induction l as [|x l IH]; [done|]. cbn. by rewrite IH. Qed.

Lemma fmap_omap {A B C} (f : A → option B) (g : B → C) (l : list A) :
  g <$> omap f l = omap (λ x, g <$> f x) l.
Proof. induction l as [|x l IH]; [done|]. cbn. rewrite <-IH. by destruct (f x). Qed.

Lemma NoDup_omap {A B} (f : A → option B) (l : list A) :
  NoDup l → (∀ x y z, x ∈ l → y ∈ l → f x = Some z → f y = Some z → x = y) → NoDup (omap f l).
Proof.
  induction 1 as [|x l Hx Hl IH]; intros Hf; [constructor|]. cbn.
  assert (NoDup (omap f l)) as Hn.
  { apply IH. intros y z w Hy Hz. apply Hf; by right. }
  destruct (f x) as [z|] eqn:E; [|done]. apply NoDup_cons. split; [|done].
  intros (y & Hy & Hz)%list_elem_of_omap. rewrite (Hf x y z) in Hx; [done|by left|by right|done..].
Qed.

Lemma StronglySorted_weaken {A} (R S : A → A → Prop) (l : list A) :
  (∀ x y, R x y → S x y) → StronglySorted R l → StronglySorted S l.
Proof.
  intros H. induction 1 as [|x l Hl IH Hx]; constructor; [done|].
  eapply Forall_impl; [exact Hx|]. auto.
Qed.

(** ** Sorting by a less function

    [sort.Slice] and [sort.SliceStable] receive a [less] function; insertion
    from the right is the stable result. *)

Section sort_by.
Context {A : Type} (less : A → A → bool).

Fixpoint insert_by (x : A) (l : list A) : list A :=
  match l with
  | [] => [x]
  | y :: l' => if less y x then y :: insert_by x l' else x :: y :: l'
  end.

Definition sort_by (l : list A) : list A := foldr insert_by [] l.

Lemma insert_by_perm x l : insert_by x l ≡ₚ x :: l.
Proof.
  induction l as [|y l IH]; simpl; [done|]. case_match; [|done].
  rewrite IH. apply Permutation_swap.
Qed.

Lemma sort_by_perm l : sort_by l ≡ₚ l.
Proof. induction l as [|x l IH]; simpl; [done|]. by rewrite insert_by_perm, IH. Qed.

Lemma elem_of_sort_by x l : x ∈ sort_by l ↔ x ∈ l.
Proof. by rewrite sort_by_perm. Qed.

Lemma length_sort_by l : length (sort_by l) = length l.
Proof. by rewrite sort_by_perm. Qed.

(** [y] may precede [x]: [x] is not less than [y]. *)
Definition not_after (y x : A) : Prop := less x y = false.

Context (less_asym : ∀ x y, less x y = true → less y x = false).
Context (not_after_trans : ∀ x y z, not_after x y → not_after y z → not_after x z).

Lemma insert_by_sorted x l :
  StronglySorted not_after l → StronglySorted not_after (insert_by x l).
Proof.
  induction 1 as [|y l Hl IH Hy]; simpl; [by repeat constructor|].
  destruct (less y x) eqn:E.
  - constructor; [done|]. rewrite insert_by_perm. constructor; [by apply less_asym|done].
  - constructor; [by constructor|]. constructor; [done|].
    eapply Forall_impl; [exact Hy|]. intros z Hz. by eapply not_after_trans.
Qed.

Lemma sort_by_sorted l : StronglySorted not_after (sort_by l).
Proof. induction l; simpl; [constructor|by apply insert_by_sorted]. Qed.
End sort_by.

(** ** Sums over finite maps *)

Section msum.
Context `{Countable K} {V : Type} (f : V → nat).

Definition msum (m : gmap K V) : nat := map_fold (λ _ v n, (f v + n)%nat) 0%nat m.

Lemma msum_empty : msum ∅ = 0%nat.
Proof. done. Qed.

Lemma msum_insert m k v : m !! k = None → msum (<[k := v]> m) = (f v + msum m)%nat.
Proof. intros Hk. unfold msum. rewrite map_fold_insert_L; [done| |done]. intros. lia. Qed.

Lemma msum_delete m k v : m !! k = Some v → msum m = (f v + msum (delete k m))%nat.
Proof.
  intros Hk. rewrite <-(msum_insert (delete k m) k v) by apply lookup_delete_eq.
  by rewrite insert_delete_id.
Qed.

Lemma msum_replace m k v : msum (<[k := v]> m) = (f v + msum (delete k m))%nat.
Proof. rewrite <-insert_delete_eq. apply msum_insert, lookup_delete_eq. Qed.

Lemma msum_delete_le m k : (msum (delete k m) ≤ msum m)%nat.
Proof.
  destruct (m !! k) as [v|] eqn:E; [rewrite (msum_delete m k v E); lia|].
  by rewrite delete_id.
Qed.
End msum.

(** ** Counting occurrences *)

Section cnt.
Context `{EqDecision A}.
Implicit Types (u x : A) (l : list A).

Definition cnt u l : nat := length (filter (eq u) l).
Definition same1 u x : nat := if decide (u = x) then 1 else 0.

Lemma cnt_nil u : cnt u [] = 0%nat.
Proof. done. Qed.

Lemma cnt_cons u x l : cnt u (x :: l) = (same1 u x + cnt u l)%nat.
Proof. unfold cnt, same1. rewrite filter_cons. by case_decide. Qed.

Lemma cnt_app u l k : cnt u (l ++ k) = (cnt u l + cnt u k)%nat.
Proof. unfold cnt. by rewrite filter_app, length_app. Qed.

Lemma same1_self u : same1 u u = 1%nat.
Proof. unfold same1. by rewrite decide_True. Qed.

Lemma same1_other u x : u ≠ x → same1 u x = 0%nat.
Proof. intros. unfold same1. by rewrite decide_False. Qed.

#[global] Instance cnt_proper u : Proper ((≡ₚ) ==> eq) (cnt u).
Proof. intros l k Hlk. unfold cnt. by rewrite Hlk. Qed.

Lemma cnt_pos u l : (0 < cnt u l)%nat ↔ u ∈ l.
Proof.
  unfold cnt. split.
  - intros Hl. destruct (filter (eq u) l) as [|x k] eqn:E; [by cbn in Hl; lia|].
    assert (x ∈ filter (eq u) l) as Hx by (rewrite E; left).
    by apply list_elem_of_filter in Hx as [-> Hx].
  - intros Hu. assert (u ∈ filter (eq u) l) as Hx by by apply list_elem_of_filter.
    destruct (filter _ _); [by apply elem_of_nil in Hx|cbn; lia].
Qed.

Lemma cnt_NoDup l : (∀ u, (cnt u l ≤ 1)%nat) ↔ NoDup l.
Proof.
  split.
  - induction l as [|x l IH]; intros Hl; [constructor|].
    constructor; [|apply IH; intros u; specialize (Hl u); rewrite cnt_cons in Hl; lia].
    intros Hx%cnt_pos. specialize (Hl x). rewrite cnt_cons, same1_self in Hl. lia.
  - intros Hl u. induction Hl as [|x l Hx Hl IH]; [by rewrite cnt_nil; lia|].
    rewrite cnt_cons. destruct (decide (u = x)) as [->|Hne]; [|by rewrite same1_other; [lia|]].
    rewrite same1_self. assert (cnt x l = 0%nat); [|lia].
    destruct (cnt x l) eqn:E; [done|]. exfalso. apply Hx, cnt_pos. lia.
Qed.

Lemma cnt_Permutation l k : (∀ u, cnt u l = cnt u k) → l ≡ₚ k.
Proof.
  revert k. induction l as [|x l IH]; intros k Hk.
  - destruct k as [|y k]; [done|]. specialize (Hk y). rewrite cnt_nil, cnt_cons, same1_self in Hk. lia.
  - assert (x ∈ k) as Hx by (apply cnt_pos; rewrite <-Hk, cnt_cons, same1_self; lia).
    apply elem_of_Permutation in Hx as [k' Hk']. rewrite Hk'. constructor. apply IH.
    intros u. specialize (Hk u). rewrite Hk', !cnt_cons in Hk. lia.
Qed.
End cnt.
#[global] Arguments cnt : simpl never.
#[global] Arguments same1 : simpl never.
