(* ===== verification/GoStrings.v ===== *)
(** The parts of Go's [strings] and [strconv] the program uses, on byte strings.

    Case mapping and trimming are the ASCII rules of the two packages: bytes
    above 127 are left alone, so on non-ASCII input these functions are the
    identity where Go would apply Unicode case mapping.  [Itoa] and [Atoi] are
    exact, with [Atoi] failing outside the 64-bit range. *)
From S2P Require Import Prelude.
From Stdlib Require Export Ascii.
From stdpp Require Export pretty.
#[global] Open Scope Z_scope.

(** ** Bytes *)

Definition is_lower (c : ascii) : bool :=
  let n := Ascii.nat_of_ascii c in (97 <=? n)%nat && (n <=? 122)%nat.
Definition is_upper (c : ascii) : bool :=
  let n := Ascii.nat_of_ascii c in (65 <=? n)%nat && (n <=? 90)%nat.
Definition is_letter (c : ascii) : bool := is_lower c || is_upper c.
Definition is_digit (c : ascii) : bool :=
  let n := Ascii.nat_of_ascii c in (48 <=? n)%nat && (n <=? 57)%nat.
(** Tab, newline, vertical tab, form feed, carriage return and space. *)
Definition is_space (c : ascii) : bool :=
  let n := Ascii.nat_of_ascii c in ((9 <=? n)%nat && (n <=? 13)%nat) || (n =? 32)%nat.

Definition lower (c : ascii) : ascii :=
  if is_upper c then Ascii.ascii_of_nat (Ascii.nat_of_ascii c + 32) else c.
Definition upper (c : ascii) : ascii :=
  if is_lower c then Ascii.ascii_of_nat (Ascii.nat_of_ascii c - 32) else c.

(** Facts about single bytes are decided by running through all 256 of them. *)
Definition all_bytes : list ascii := Ascii.ascii_of_nat <$> seq 0 256.

Lemma for_all_bytes (P : ascii → bool) : forallb P all_bytes = true → ∀ c, P c = true.
Proof.
  rewrite forallb_forall. intros H c. apply H, list_elem_of_In, list_elem_of_fmap.
  exists (Ascii.nat_of_ascii c). split; [by rewrite Ascii.ascii_nat_embedding|].
  apply elem_of_seq. pose proof (Ascii.nat_ascii_bounded c). lia.
Qed.

Ltac by_all_bytes P :=
  match goal with c : ascii |- _ => pose proof (for_all_bytes P eq_refl c) end.

Lemma lower_idemp c : lower (lower c) = lower c.
Proof. by_all_bytes (λ c, Ascii.eqb (lower (lower c)) (lower c)). by apply Ascii.eqb_eq. Qed.

Lemma is_space_lower c : is_space (lower c) = is_space c.
Proof. by_all_bytes (λ c, Bool.eqb (is_space (lower c)) (is_space c)). by apply eqb_prop. Qed.

(** ** strings.ToLower, strings.ToUpper, strings.TrimSpace *)

Fixpoint string_map (f : ascii → ascii) (s : string) : string :=
  match s with
  | EmptyString => EmptyString
  | String c s' => String (f c) (string_map f s')
  end.

Definition ToLower : string → string := string_map lower.
Definition ToUpper : string → string := string_map upper.

(** [strings.EqualFold] on ASCII. *)
Definition EqualFold (s t : string) : bool := (ToLower s =? ToLower t)%string.

Fixpoint trim_left (s : string) : string :=
  match s with
  | String c s' => if is_space c then trim_left s' else s
  | EmptyString => s
  end.

(** The longest prefix that does not end in a space. *)
Fixpoint trim_right (s : string) : string :=
  match s with
  | EmptyString => EmptyString
  | String c s' =>
      match trim_right s' with
      | EmptyString => if is_space c then EmptyString else String c EmptyString
      | r => String c r
      end
  end.

Definition TrimSpace (s : string) : string := trim_right (trim_left s).

Lemma ToLower_idemp s : ToLower (ToLower s) = ToLower s.
Proof. unfold ToLower. induction s as [|c s IH]; simpl; [done|]. by rewrite lower_idemp, IH. Qed.

Lemma trim_left_ToLower s : trim_left (ToLower s) = ToLower (trim_left s).
Proof.
  induction s as [|c s IH]; simpl; [done|]. rewrite is_space_lower.
  destruct (is_space c); [apply IH|done].
Qed.

Lemma trim_right_ToLower s : trim_right (ToLower s) = ToLower (trim_right s).
Proof.
  induction s as [|c s IH]; simpl; [done|].
  unfold ToLower in *. rewrite IH, is_space_lower.
  destruct (trim_right s); simpl; [|done]. by destruct (is_space c).
Qed.

Lemma TrimSpace_ToLower s : TrimSpace (ToLower s) = ToLower (TrimSpace s).
Proof. unfold TrimSpace. by rewrite trim_left_ToLower, trim_right_ToLower. Qed.

Definition starts_with_space (s : string) : bool :=
  match s with String c _ => is_space c | EmptyString => false end.

Lemma trim_left_no_space s : starts_with_space (trim_left s) = false.
Proof. induction s as [|c s IH]; simpl; [done|]. destruct (is_space c) eqn:E; [done|]. done. Qed.

Lemma trim_left_id s : starts_with_space s = false → trim_left s = s.
Proof. destruct s as [|c s]; simpl; [done|]. by intros ->. Qed.

Lemma trim_right_idemp s : trim_right (trim_right s) = trim_right s.
Proof.
  induction s as [|c s IH]; simpl; [done|].
  destruct (trim_right s) as [|d r] eqn:E.
  - destruct (is_space c) eqn:Ec; simpl; [done|]. by rewrite Ec.
  - change (match trim_right (String d r) with
            | "" => if is_space c then "" else String c ""
            | String _ _ as r0 => String c r0 end = String c (String d r))%string.
    by rewrite IH.
Qed.

Lemma trim_right_no_space s :
  starts_with_space s = false → starts_with_space (trim_right s) = false.
Proof.
  destruct s as [|c s]; simpl; [done|]. intros Hc. destruct (trim_right s); simpl; [|done].
  by rewrite Hc; simpl.
Qed.

Lemma TrimSpace_idemp s : TrimSpace (TrimSpace s) = TrimSpace s.
Proof.
  unfold TrimSpace. rewrite trim_left_id; [apply trim_right_idemp|].
  apply trim_right_no_space, trim_left_no_space.
Qed.

(** ** strings.HasPrefix, strings.Contains *)

Definition HasPrefix (s pre : string) : bool := String.prefix pre s.

Fixpoint Contains (s sub : string) : bool :=
  String.prefix sub s ||
  match s with EmptyString => false | String _ s' => Contains s' sub end.

Definition str_len (s : string) : Z := Z.of_nat (String.length s).

(** ** strconv.Itoa and strconv.Atoi *)

Definition Itoa (n : Z) : string := pretty n.

Definition digit_value (c : ascii) : option Z :=
  if is_digit c then Some (Z.of_nat (Ascii.nat_of_ascii c) - 48) else None.

Fixpoint digits_value (acc : Z) (s : string) : option Z :=
  match s with
  | EmptyString => Some acc
  | String c s' => d ← digit_value c; digits_value (10 * acc + d) s'
  end.

(** At least one digit, an optional sign, and a value that fits in an [int]. *)
Definition Atoi (s : string) : option Z :=
  let '(neg, body) :=
    match s with
    | String c s' =>
        if Ascii.eqb c "-"%char then (true, s')
        else if Ascii.eqb c "+"%char then (false, s') else (false, s)
    | EmptyString => (false, s)
    end in
  match body with
  | EmptyString => None
  | _ =>
      v ← digits_value 0 body;
      let v := if neg then - v else v in
      if (int64_min <=? v) && (v <=? int64_max) then Some v else None
  end.

Lemma digits_value_app acc s t :
  digits_value acc (s +:+ t) = (v ← digits_value acc s; digits_value v t).
Proof.
  revert acc. induction s as [|c s IH]; intros acc; simpl; [done|].
  destruct (digit_value c); simpl; [apply IH|done].
Qed.

Lemma digits_value_acc acc s v :
  digits_value 0 s = Some v →
  digits_value acc s = Some (acc * 10 ^ Z.of_nat (String.length s) + v).
Proof.
  assert (∀ a b s v, digits_value a s = Some v →
    digits_value b s = Some (v + (b - a) * 10 ^ Z.of_nat (String.length s))) as H.
  { clear. intros a b s. revert a b. induction s as [|c s IH]; intros a b v; cbn [digits_value].
    { intros [= <-]. f_equal. simpl. lia. }
    destruct (digit_value c) as [d|]; simpl; [|done]. intros Hv.
    rewrite (IH _ (10 * b + d) _ Hv). f_equal.
    rewrite Nat2Z.inj_succ, Z.pow_succ_r by lia. lia. }
  intros Hv. rewrite (H 0 acc s v Hv). f_equal. lia.
Qed.

Lemma digit_value_pretty d :
  (d < 10)%N → digit_value (pretty_N_char d) = Some (Z.of_N d).
Proof.
  intros Hd. assert (d ∈ N.of_nat <$> seq 0 10) as Hin.
  { apply list_elem_of_fmap. exists (N.to_nat d). rewrite elem_of_seq. lia. }
  simpl in Hin. repeat (apply elem_of_cons in Hin as [->|Hin]; [done|]). by apply not_elem_of_nil in Hin.
Qed.

Lemma digits_value_pretty_go x s v :
  digits_value 0 s = Some v →
  digits_value 0 (pretty_N_go x s) = Some (Z.of_N x * 10 ^ Z.of_nat (String.length s) + v).
Proof.
  revert s v. induction (N.lt_wf_0 x) as [x _ IH]; intros s v Hv.
  destruct (decide (x = 0%N)) as [->|Hx].
  { rewrite pretty_N_go_0, Hv. done. }
  rewrite pretty_N_go_step by lia.
  pose proof (N.mod_lt x 10 ltac:(done)) as Hm.
  rewrite (IH (x / 10)%N ltac:(apply N.div_lt; lia)
    (String (pretty_N_char (x mod 10)) s)
    (Z.of_N (x mod 10) * 10 ^ Z.of_nat (String.length s) + v)).
  - f_equal. cbn [String.length]. rewrite Nat2Z.inj_succ, Z.pow_succ_r by lia.
    rewrite N2Z.inj_div, N2Z.inj_mod.
    pose proof (Z.div_mod (Z.of_N x) 10 ltac:(done)). change (Z.of_N 10) with 10. nia.
  - cbn [digits_value]. rewrite digit_value_pretty by done. cbn [mbind option_bind].
    rewrite (digits_value_acc _ s v Hv). done.
Qed.

Lemma digits_value_pretty_N (x : N) : digits_value 0 (pretty x) = Some (Z.of_N x).
Proof.
  unfold pretty, pretty_N. case_decide as Hx; [by rewrite Hx|].
  rewrite (digits_value_pretty_go x "" 0) by done. f_equal; simpl; lia.
Qed.

Lemma pretty_N_not_nil (x : N) : pretty x ≠ ""%string.
Proof.
  intros H. pose proof (digits_value_pretty_N x) as Hv. rewrite H in Hv.
  injection Hv as Hv. destruct x; [|lia]. by vm_compute in H.
Qed.

Lemma in_range_Some v :
  fits64 v → (if (int64_min <=? v) && (v <=? int64_max) then Some v else None) = Some v.
Proof.
  intros [Hl Hu]. by rewrite (proj2 (Z.leb_le _ _) Hl), (proj2 (Z.leb_le _ _) Hu).
Qed.

Lemma Atoi_digits s v :
  digits_value 0 s = Some v → s ≠ ""%string → fits64 v → Atoi s = Some v.
Proof.
  intros Hv Hs Hfit. destruct s as [|c s]; [done|].
  assert (is_digit c = true) as Hc.
  { revert Hv. simpl. unfold digit_value. destruct (is_digit c); [done|]. done. }
  assert (Ascii.eqb c "-"%char = false ∧ Ascii.eqb c "+"%char = false) as [E1 E2].
  { pose proof (for_all_bytes (λ c, negb (is_digit c) ||
      (negb (Ascii.eqb c "-"%char) && negb (Ascii.eqb c "+"%char))) eq_refl c) as H.
    simpl in H. rewrite Hc in H. simpl in H. simpl_bools. done. }
  unfold Atoi. rewrite E1, E2, Hv. exact (in_range_Some _ Hfit).
Qed.

(** Decimal printing and parsing round trip on the whole [int] range. *)
Lemma Atoi_Itoa n : fits64 n → Atoi (Itoa n) = Some n.
Proof.
  intros Hn. unfold Itoa, pretty, pretty_Z. destruct n as [|p|p].
  - by apply Atoi_digits.
  - apply Atoi_digits; [apply digits_value_pretty_N|apply pretty_N_not_nil|done].
  - change (Atoi (String "-"%char (pretty (Npos p))) = Some (Zneg p)).
    unfold Atoi. cbn -[digits_value pretty]. pose proof (digits_value_pretty_N (Npos p)) as Hv.
    destruct (pretty (Npos p)) as [|c s] eqn:E; [by apply pretty_N_not_nil in E|].
    rewrite Hv. exact (in_range_Some _ Hn).
Qed.

Lemma Itoa_inj m n : Itoa m = Itoa n → m = n.
Proof. apply (inj pretty). Qed.

(** ** Separators *)

(** [c] does not occur in [s]. *)
Fixpoint free_of (c : ascii) (s : string) : bool :=
  match s with
  | EmptyString => true
  | String d s' => negb (Ascii.eqb d c) && free_of c s'
  end.

Lemma free_of_app c s t : free_of c (s +:+ t) = free_of c s && free_of c t.
Proof. induction s as [|d s IH]; simpl; [done|]. by rewrite IH, andb_assoc. Qed.

Lemma digits_free_of c s acc v :
  is_digit c = false → digits_value acc s = Some v → free_of c s = true.
Proof.
  intros Hc. revert acc. induction s as [|d s IH]; intros acc; simpl; [done|].
  unfold digit_value. destruct (is_digit d) eqn:Ed; simpl; [|done]. intros Hv.
  rewrite (IH _ Hv), andb_true_r. apply negb_true_iff, Ascii.eqb_neq. congruence.
Qed.

Lemma Itoa_free_of c n : is_digit c = false → c ≠ "-"%char → free_of c (Itoa n) = true.
Proof.
  intros Hc Hm. unfold Itoa, pretty, pretty_Z. destruct n as [|p|p].
  - change (negb (Ascii.eqb "0" c) && true = true). rewrite andb_true_r.
    apply negb_true_iff, Ascii.eqb_neq. by intros <-.
  - eapply digits_free_of; [done|]. apply digits_value_pretty_N.
  - change (free_of c (String "-"%char (pretty (Npos p))) = true). cbn [free_of].
    rewrite (digits_free_of c (pretty (Npos p)) 0 _ Hc (digits_value_pretty_N _)), andb_true_r.
    apply negb_true_iff, Ascii.eqb_neq. congruence.
Qed.

(** A string is cut in one way only at the first occurrence of a separator. *)
Lemma cut_inj c s s' t t' :
  free_of c s = true → free_of c s' = true →
  s +:+ String c t = s' +:+ String c t' → s = s' ∧ t = t'.
Proof.
  revert s'. induction s as [|d s IH]; intros [|d' s']; simpl; intros H H' Heq;
    simplify_eq; try done.
  - rewrite Ascii.eqb_refl in H'. done.
  - rewrite Ascii.eqb_refl in H. done.
  - apply andb_true_iff in H as [_ H], H' as [_ H']. destruct (IH s') as [-> ->]; done.
Qed.

(** [strings.LastIndexByte] and the text after it: [None] when [c] is absent. *)
Fixpoint after_last (c : ascii) (s : string) : option string :=
  match s with
  | EmptyString => None
  | String d s' =>
      match after_last c s' with
      | Some r => Some r
      | None => if Ascii.eqb d c then Some s' else None
      end
  end.

Lemma after_last_free c s : free_of c s = true → after_last c s = None.
Proof.
  induction s as [|d s IH]; simpl; [done|]. intros [Hd Hs]%andb_true_iff. rewrite IH by done.
  by apply negb_true_iff in Hd as ->.
Qed.

Lemma after_last_app c s t : free_of c t = true → after_last c (s +:+ String c t) = Some t.
Proof.
  intros Ht. induction s as [|d s IH]; simpl; [|by rewrite IH].
  by rewrite after_last_free, Ascii.eqb_refl.
Qed.
