(* ===== verification/ApiFootball.v ===== *)
(** internal/infra/apifootball: the provider's enums, its wire types, and the
    contract every by-ID fixture response has to satisfy before it is used. *)
From S2P Require Import Prelude GoStrings.
#[local] Open Scope string_scope.
#[local] Open Scope list_scope.
#[local] Open Scope Z_scope.

Module apifootball.

(** ** Enums (enums.go) *)

Definition APIStatusCode := string.
Definition StatusTBD : APIStatusCode := "tbd".
Definition StatusNotStarted : APIStatusCode := "ns".
Definition StatusFirstHalf : APIStatusCode := "1h".
Definition StatusHalftime : APIStatusCode := "ht".
Definition StatusSecondHalf : APIStatusCode := "2h".
Definition StatusExtraTime : APIStatusCode := "et".
Definition StatusBreakTime : APIStatusCode := "bt".
Definition StatusPenaltyPlay : APIStatusCode := "p".
Definition StatusSuspended : APIStatusCode := "susp".
Definition StatusInterrupted : APIStatusCode := "int".
Definition StatusLive : APIStatusCode := "live".
Definition StatusFullTime : APIStatusCode := "ft".
Definition StatusAfterExtra : APIStatusCode := "aet".
Definition StatusPenaltyDone : APIStatusCode := "pen".
Definition StatusPostponed : APIStatusCode := "pst".
Definition StatusCancelled : APIStatusCode := "canc".
Definition StatusAbandoned : APIStatusCode := "abd".
Definition StatusTechnicalLoss : APIStatusCode := "awd".
Definition StatusWalkover : APIStatusCode := "wo".

(** Every key of the four lookup tables maps to the canonical value that is
    spelled the same way, so a table is kept as its list of entries. *)
Definition knownStatusCodes : list (string * APIStatusCode) :=
  [ ("tbd", StatusTBD); ("ns", StatusNotStarted); ("1h", StatusFirstHalf);
    ("ht", StatusHalftime); ("2h", StatusSecondHalf); ("et", StatusExtraTime);
    ("bt", StatusBreakTime); ("p", StatusPenaltyPlay); ("susp", StatusSuspended);
    ("int", StatusInterrupted); ("live", StatusLive); ("ft", StatusFullTime);
    ("aet", StatusAfterExtra); ("pen", StatusPenaltyDone); ("pst", StatusPostponed);
    ("canc", StatusCancelled); ("abd", StatusAbandoned); ("awd", StatusTechnicalLoss);
    ("wo", StatusWalkover) ].

Definition table_get (table : list (string * string)) (key : string) : option string :=
  snd <$> find (λ e, String.eqb e.1 key) table.

(** The result is (canonical or lowercased value, known); the error is always nil. *)
Definition ParseAPIStatusCode (raw : string) : APIStatusCode * bool :=
  let trimmed := TrimSpace raw in
  if (trimmed =? "")%string then ("", false)
  else
    let lower := ToLower trimmed in
    match table_get knownStatusCodes lower with
    | Some v => (v, true)
    | None => (lower, false)
    end.

Definition APIEventType := string.
Definition EventTypeGoal : APIEventType := "goal".
Definition EventTypeCard : APIEventType := "card".
Definition EventTypeSubst : APIEventType := "subst".
Definition EventTypeVar : APIEventType := "var".

Definition knownEventTypes : list (string * APIEventType) :=
  [ ("goal", EventTypeGoal); ("card", EventTypeCard);
    ("subst", EventTypeSubst); ("var", EventTypeVar) ].

Definition ParseAPIEventType (raw : string) : APIEventType * bool :=
  let trimmed := TrimSpace raw in
  if (trimmed =? "")%string then ("", false)
  else
    let lower := ToLower trimmed in
    match table_get knownEventTypes lower with
    | Some v => (v, true)
    | None => (lower, false)
    end.

Definition APIEventDetail := string.
Definition DetailNormalGoal : APIEventDetail := "normal goal".
Definition DetailOwnGoal : APIEventDetail := "own goal".
Definition DetailPenalty : APIEventDetail := "penalty".
Definition DetailMissedPenalty : APIEventDetail := "missed penalty".
Definition DetailYellowCard : APIEventDetail := "yellow card".
Definition DetailRedCard : APIEventDetail := "red card".
Definition DetailSubstitution : APIEventDetail := "substitution".
Definition DetailGoalCancelled : APIEventDetail := "goal cancelled".
Definition DetailPenaltyConfirmed : APIEventDetail := "penalty confirmed".

Definition knownEventDetails : list (string * APIEventDetail) :=
  [ ("normal goal", DetailNormalGoal); ("own goal", DetailOwnGoal);
    ("penalty", DetailPenalty); ("missed penalty", DetailMissedPenalty);
    ("yellow card", DetailYellowCard); ("red card", DetailRedCard);
    ("goal cancelled", DetailGoalCancelled);
    ("penalty confirmed", DetailPenaltyConfirmed) ].

Definition ParseAPIEventDetail (raw : string) : APIEventDetail * bool :=
  let trimmed := TrimSpace raw in
  if (trimmed =? "")%string then ("", false)
  else
    let lower := ToLower trimmed in
    if HasPrefix lower "substitution" then (DetailSubstitution, true)
    else
      match table_get knownEventDetails lower with
      | Some v => (v, true)
      | None => (lower, false)
      end.

Definition knownCardComments : list (string * string) :=
  [ ("foul", "foul"); ("argument", "argument"); ("roughing", "roughing");
    ("unsportsmanlike conduct", "unsportsmanlike conduct");
    ("serious foul", "serious foul") ].

Definition ParseAPICardComment (raw : string) : string * bool :=
  let trimmed := TrimSpace raw in
  if (trimmed =? "")%string then ("", false)
  else
    let lower := ToLower trimmed in
    match table_get knownCardComments lower with
    | Some v => (v, true)
    | None => (lower, false)
    end.

Definition GoalCommentPenaltyShootout : string := "penalty shootout".

Definition knownGoalComments : list (string * string) :=
  [ ("penalty shootout", GoalCommentPenaltyShootout) ].

Definition ParseAPIGoalComment (raw : string) : string * bool :=
  let trimmed := TrimSpace raw in
  if (trimmed =? "")%string then ("", false)
  else
    let lower := ToLower trimmed in
    match table_get knownGoalComments lower with
    | Some v => (v, true)
    | None => (lower, false)
    end.

Definition HasPenaltyShootoutComment (comments : string) : bool :=
  Contains (ToLower comments) (ToLower GoalCommentPenaltyShootout).

(** ** Wire types (fixtures.go) *)

Inductive fixtureEventsState :=
  | fixtureEventsMissing | fixtureEventsNull | fixtureEventsPresent.

Record APIFixtureStatus := mkAPIFixtureStatus {
  StatusLong : string;
  StatusShort : APIStatusCode;
  StatusElapsed : option Z;
  StatusExtra : option Z }.

(** Referee, time zone, unix timestamp and venue are decoded but never read. *)
Record APIFixtureFixture := mkAPIFixtureFixture {
  FixtureID : Z;
  FixtureDate : Time;
  FixtureStatus : APIFixtureStatus }.

Record APIFixtureLeague := mkAPIFixtureLeague {
  LeagueID : Z;
  LeagueName : string;
  LeagueCountry : string;
  LeagueSeason : Z;
  LeagueRound : string }.

Record APIFixtureTeam := mkAPIFixtureTeam {
  TeamID : Z;
  TeamName : string;
  TeamWinner : option bool }.

Record APIFixtureTeams := mkAPIFixtureTeams {
  TeamsHome : APIFixtureTeam;
  TeamsAway : APIFixtureTeam }.

Record APIFixtureGoals := mkAPIFixtureGoals {
  GoalsHome : option Z;
  GoalsAway : option Z }.

Record APIFixtureScoreLine := mkAPIFixtureScoreLine {
  LineHome : option Z;
  LineAway : option Z }.

Record APIFixtureScore := mkAPIFixtureScore {
  Halftime : APIFixtureScoreLine;
  Fulltime : APIFixtureScoreLine;
  Extratime : APIFixtureScoreLine;
  Penalty : APIFixtureScoreLine }.

Record APIFixturePlayerRef := mkAPIFixturePlayerRef {
  PlayerRefID : option Z;
  PlayerRefName : option string }.

Record APIFixtureEventTime := mkAPIFixtureEventTime {
  TimeElapsed : Z;
  TimeExtra : option Z }.

Record APIFixtureEvent := mkAPIFixtureEvent {
  EventTime : APIFixtureEventTime;
  EventTeam : APIFixtureTeam;
  EventPlayer : APIFixturePlayerRef;
  EventAssist : APIFixturePlayerRef;
  EventType : APIEventType;
  EventDetail : APIEventDetail;
  EventComments : option string }.

Record APIFixture := mkAPIFixture {
  Fixture : APIFixtureFixture;
  League : APIFixtureLeague;
  Teams : APIFixtureTeams;
  Goals : APIFixtureGoals;
  Score : APIFixtureScore;
  Events : list APIFixtureEvent;
  eventsState : fixtureEventsState }.

(** ** The response contract (fixture_contract.go)

    A reason stands for the [FixtureContractError] that carries it; the [Detail]
    string of the error, used for logs only, is left out. *)

Inductive FixtureContractReason :=
  | FixtureContractErrorsMissing | FixtureContractErrorsInvalid
  | FixtureContractErrorsNonEmpty | FixtureContractResultsMissing
  | FixtureContractResultsMismatch | FixtureContractPagingMissing
  | FixtureContractPagingIncomplete | FixtureContractResponseMissing
  | FixtureContractResponseInvalid | FixtureContractFixtureIdentity
  | FixtureContractTeamIdentity | FixtureContractNegativeScore
  | FixtureContractEventsMissing | FixtureContractEventsNull
  | FixtureContractEventTeamInvalid | FixtureContractRequestedDuplicate
  | FixtureContractReturnedDuplicate | FixtureContractReturnedUnrequested
  | FixtureContractRequestedMissing.

#[global] Instance FixtureContractReason_eq_dec : EqDecision FixtureContractReason.
Proof. solve_decision. Defined.

(** How encoding/json sees the [errors] member. *)
Inductive errorsJSON :=
  | errorsAbsent | errorsUndecodable | errorsArray (len : nat) | errorsObject (len : nat)
  | errorsOther.

(** How encoding/json sees the [response] member. *)
Inductive responseJSON :=
  | responseAbsent | responseNull | responseUndecodable | responseFixtures (fs : list APIFixture).

Record fixturePaging := mkfixturePaging { PagingCurrent : Z; PagingTotal : Z }.

Record fixtureEnvelope := mkfixtureEnvelope {
  EnvErrors : errorsJSON;
  EnvResults : option Z;
  EnvPaging : option fixturePaging;
  EnvResponse : responseJSON }.

Definition negativeInt (value : option Z) : bool :=
  match value with Some v => v <? 0 | None => false end.

Definition negativeScoreLine (line : APIFixtureScoreLine) : bool :=
  negativeInt line.(LineHome) || negativeInt line.(LineAway).

Definition validateFixtureErrors (raw : errorsJSON) : option FixtureContractReason :=
  match raw with
  | errorsAbsent => Some FixtureContractErrorsMissing
  | errorsUndecodable => Some FixtureContractErrorsInvalid
  | errorsArray O | errorsObject O => None
  | errorsArray _ | errorsObject _ => Some FixtureContractErrorsNonEmpty
  | errorsOther => Some FixtureContractErrorsInvalid
  end.

(** The loop over [expectedIDs]: the set of ids, or the first duplicate. *)
Fixpoint expectedSet (expected : gset Z) (ids : list Z) : FixtureContractReason + gset Z :=
  match ids with
  | [] => inr expected
  | id :: rest =>
      if decide (id ∈ expected) then inl FixtureContractRequestedDuplicate
      else expectedSet ({[ id ]} ∪ expected) rest
  end.

(** The body of the loop over the fixtures, after the duplicate check. *)
Definition fixtureDefect (expected : gset Z) (requireEvents : bool) (f : APIFixture)
    : option FixtureContractReason :=
  let id := f.(Fixture).(FixtureID) in
  let home := f.(Teams).(TeamsHome).(TeamID) in
  let away := f.(Teams).(TeamsAway).(TeamID) in
  if (0 <? size expected)%nat && negb (bool_decide (id ∈ expected))
  then Some FixtureContractReturnedUnrequested
  else if (home <=? 0) || (away <=? 0) || (home =? away)
  then Some FixtureContractTeamIdentity
  else if negativeInt f.(Goals).(GoalsHome) || negativeInt f.(Goals).(GoalsAway) ||
    negativeScoreLine f.(Score).(Halftime) || negativeScoreLine f.(Score).(Fulltime) ||
    negativeScoreLine f.(Score).(Extratime) || negativeScoreLine f.(Score).(Penalty)
  then Some FixtureContractNegativeScore
  else
    match requireEvents, f.(eventsState) with
    | true, fixtureEventsMissing => Some FixtureContractEventsMissing
    | true, fixtureEventsNull => Some FixtureContractEventsNull
    | _, _ =>
        if forallb (λ e, (e.(EventTeam).(TeamID) =? home) || (e.(EventTeam).(TeamID) =? away))
             f.(Events)
        then None else Some FixtureContractEventTeamInvalid
    end.

Fixpoint validateReturned (expected : gset Z) (requireEvents : bool)
    (returned : gset Z) (fixtures : list APIFixture) : FixtureContractReason + gset Z :=
  match fixtures with
  | [] => inr returned
  | f :: rest =>
      let id := f.(Fixture).(FixtureID) in
      if id <=? 0 then inl FixtureContractFixtureIdentity
      else if decide (id ∈ returned) then inl FixtureContractReturnedDuplicate
      else
        match fixtureDefect expected requireEvents f with
        | Some reason => inl reason
        | None => validateReturned expected requireEvents ({[ id ]} ∪ returned) rest
        end
  end.

Definition validateFixturePayloads (fixtures : list APIFixture) (expectedIDs : list Z)
    (requireEvents : bool) : option FixtureContractReason :=
  match expectedSet ∅ expectedIDs with
  | inl reason => Some reason
  | inr expected =>
      match validateReturned expected requireEvents ∅ fixtures with
      | inl reason => Some reason
      | inr returned =>
          if decide (expected ⊆ returned) then None
          else Some FixtureContractRequestedMissing
      end
  end.

Definition decodeFixtureEnvelope (envelope : fixtureEnvelope) (expectedIDs : list Z)
    (requireEvents : bool) : FixtureContractReason + list APIFixture :=
  match validateFixtureErrors envelope.(EnvErrors) with
  | Some reason => inl reason
  | None =>
    match envelope.(EnvResults), envelope.(EnvPaging) with
    | None, _ => inl FixtureContractResultsMissing
    | Some _, None => inl FixtureContractPagingMissing
    | Some results, Some paging =>
      if negb (paging.(PagingCurrent) =? 1) || negb (paging.(PagingTotal) =? 1)
      then inl FixtureContractPagingIncomplete
      else
        match envelope.(EnvResponse) with
        | responseAbsent => inl FixtureContractResponseMissing
        | responseNull | responseUndecodable => inl FixtureContractResponseInvalid
        | responseFixtures fixtures =>
          if negb (results =? Z.of_nat (length fixtures)) then inl FixtureContractResultsMismatch
          else
            match validateFixturePayloads fixtures expectedIDs requireEvents with
            | Some reason => inl reason
            | None => inr fixtures
            end
        end
    end
  end.

(** ** Batched fetch by id (fixtures.go) *)

Definition IDsBatchLimit : nat := 20.

Inductive FixtureFetchFailureKind := FixtureFetchFailureTransport | FixtureFetchFailureContract.

Record FixtureFetchFailure := mkFixtureFetchFailure {
  FailureIDs : list Z;
  FailureKind : FixtureFetchFailureKind;
  FailureReason : option FixtureContractReason }.

Record FixturesByIDsResult := mkFixturesByIDsResult {
  ResultFixtures : list APIFixture;
  ResultFailures : list FixtureFetchFailure }.

Definition FailedIDs (r : FixturesByIDsResult) : list Z :=
  flat_map FailureIDs r.(ResultFailures).

(** The error of one chunk: transport, or a contract reason. *)
Inductive chunkError := chunkTransport | chunkContract (reason : FixtureContractReason).

Definition fixtureFetchFailure (ids : list Z) (err : chunkError) : FixtureFetchFailure :=
  match err with
  | chunkTransport => mkFixtureFetchFailure ids FixtureFetchFailureTransport None
  | chunkContract reason => mkFixtureFetchFailure ids FixtureFetchFailureContract (Some reason)
  end.

(** The slicing loop; [fuel] bounds the number of slices by the number of ids. *)
Fixpoint chunk_loop (fuel : nat) (ids : list Z) (n : nat) : list (list Z) :=
  match fuel, ids with
  | O, _ | _, [] => []
  | S fuel, _ => take n ids :: chunk_loop fuel (drop n ids) n
  end.

Definition chunkIDs (ids : list Z) (n : nat) : list (list Z) :=
  match ids, n with
  | [], _ | _, O => []
  | _, _ => if (length ids <=? n)%nat then [ids] else chunk_loop (length ids) ids n
  end.

Section ListFixturesByIDs.
(** One HTTP round trip for a chunk: a transport error or a decoded envelope. *)
Variable getJSON : list Z → unit + fixtureEnvelope.

Definition fetchFixturesByIDsChunk (ids : list Z) : chunkError + list APIFixture :=
  match getJSON ids with
  | inl _ => inl chunkTransport
  | inr envelope =>
      match decodeFixtureEnvelope envelope ids true with
      | inl reason => inl (chunkContract reason)
      | inr fixtures => inr fixtures
      end
  end.

(** Flattens one slot into the result: a failure keeps its ids, a success its
    fixtures. *)
Definition collectChunk (acc : FixturesByIDsResult)
    (r : list Z * (chunkError + list APIFixture)) : FixturesByIDsResult :=
  match r.2 with
  | inl err => mkFixturesByIDsResult acc.(ResultFixtures)
      (acc.(ResultFailures) ++ [fixtureFetchFailure r.1 err])
  | inr fs => mkFixturesByIDsResult (acc.(ResultFixtures) ++ fs) acc.(ResultFailures)
  end.

(** Each goroutine writes only its own slot and the slots are read after
    [Wait], in chunk order, so the interleaving of the goroutines is not
    observable.  The boolean is false when the call returns an error:
    the context was cancelled, or every chunk failed. *)
Definition ListFixturesByIDs (cancelled : bool) (ids : list Z) : FixturesByIDsResult * bool :=
  match ids with
  | [] => (mkFixturesByIDsResult [] [], true)
  | _ =>
    let chunks := chunkIDs ids IDsBatchLimit in
    if cancelled then
      (mkFixturesByIDsResult [] [fixtureFetchFailure ids chunkTransport], false)
    else
      let results := (λ c, (c, fetchFixturesByIDsChunk c)) <$> chunks in
      let result := foldl collectChunk (mkFixturesByIDsResult [] []) results in
      (result, existsb (λ r, match r.2 with inr _ => true | inl _ => false end) results)
  end.
End ListFixturesByIDs.

(** ** Normalization *)

Lemma table_get_canonical table key v :
  forallb (λ e, String.eqb e.1 e.2) table = true → table_get table key = Some v → v = key.
Proof.
  rewrite forallb_forall. unfold table_get. intros Ht Hf.
  destruct (find _ table) as [e|] eqn:E; simplify_eq/=.
  apply find_some in E as [Hin He%String.eqb_eq]. by apply Ht, String.eqb_eq in Hin; simplify_eq.
Qed.

Lemma normal_form raw :
  TrimSpace (ToLower (TrimSpace raw)) = ToLower (TrimSpace raw).
Proof. by rewrite TrimSpace_ToLower, TrimSpace_idemp. Qed.

Lemma normal_form_empty raw : ToLower (TrimSpace raw) = ""%string ↔ TrimSpace raw = ""%string.
Proof. by destruct (TrimSpace raw). Qed.

Lemma table_lookup_fst table key :
  forallb (λ e, String.eqb e.1 e.2) table = true →
  (match table_get table key with Some v => (v, true) | None => (key, false) end).1 = key.
Proof. intros Ht. destruct (table_get table key) eqn:E; [|done]. by apply (table_get_canonical table). Qed.

(** Normalizing a provider enum is idempotent: parsing the canonical value
    that a first parse produced gives back the same value and the same
    known/unknown verdict, for each of the five enum families. *)
Theorem parse_idempotent raw :
  ParseAPIStatusCode (ParseAPIStatusCode raw).1 = ParseAPIStatusCode raw ∧
  ParseAPIEventType (ParseAPIEventType raw).1 = ParseAPIEventType raw ∧
  ParseAPIEventDetail (ParseAPIEventDetail raw).1 = ParseAPIEventDetail raw ∧
  ParseAPICardComment (ParseAPICardComment raw).1 = ParseAPICardComment raw ∧
  ParseAPIGoalComment (ParseAPIGoalComment raw).1 = ParseAPIGoalComment raw.
Proof.
  unfold ParseAPIStatusCode, ParseAPIEventType, ParseAPIEventDetail, ParseAPICardComment,
    ParseAPIGoalComment.
  destruct (TrimSpace raw =? "")%string eqn:E; [done|].
  assert ((ToLower (TrimSpace raw) =? "")%string = false) as E'.
  { apply String.eqb_neq. rewrite normal_form_empty. by apply String.eqb_neq. }
  repeat split.
  3: destruct (HasPrefix _ _) eqn:P; [done|].
  all: rewrite !table_lookup_fst, normal_form, ToLower_idemp, E', ?P by done; done.
Qed.

(** ** The contract, declaratively *)

Definition fixture_ids (fs : list APIFixture) : list Z := (λ f, f.(Fixture).(FixtureID)) <$> fs.

Definition score_ok (v : option Z) : Prop := ∀ n, v = Some n → 0 ≤ n.
Definition line_ok (l : APIFixtureScoreLine) : Prop := score_ok l.(LineHome) ∧ score_ok l.(LineAway).

(** What one fixture of an accepted response satisfies by itself. *)
Record fixture_ok (requireEvents : bool) (f : APIFixture) : Prop := {
  ok_id : 0 < f.(Fixture).(FixtureID);
  ok_home : 0 < f.(Teams).(TeamsHome).(TeamID);
  ok_away : 0 < f.(Teams).(TeamsAway).(TeamID);
  ok_teams : f.(Teams).(TeamsHome).(TeamID) ≠ f.(Teams).(TeamsAway).(TeamID);
  ok_goals : score_ok f.(Goals).(GoalsHome) ∧ score_ok f.(Goals).(GoalsAway);
  ok_lines : line_ok f.(Score).(Halftime) ∧ line_ok f.(Score).(Fulltime) ∧
    line_ok f.(Score).(Extratime) ∧ line_ok f.(Score).(Penalty);
  ok_inventory : requireEvents = true → f.(eventsState) = fixtureEventsPresent;
  ok_events : Forall (λ e, e.(EventTeam).(TeamID) = f.(Teams).(TeamsHome).(TeamID) ∨
    e.(EventTeam).(TeamID) = f.(Teams).(TeamsAway).(TeamID)) f.(Events) }.

(** What a whole accepted response satisfies: no id twice, and the ids are
    exactly the requested ones whenever some were requested. *)
Record payload_contract (fs : list APIFixture) (expected : list Z) (requireEvents : bool) : Prop := {
  pc_requested : NoDup expected;
  pc_returned : NoDup (fixture_ids fs);
  pc_fixtures : Forall (fixture_ok requireEvents) fs;
  pc_complete : expected ≠ [] → fixture_ids fs ≡ₚ expected }.

Lemma negativeInt_false v : negativeInt v = false ↔ score_ok v.
Proof.
  destruct v; simpl; simpl_bools; split.
  - intros ? ? [= <-]. done.
  - intros H. by apply H.
  - by intros ? ? [=].
  - done.
Qed.

Lemma negativeScoreLine_false l : negativeScoreLine l = false ↔ line_ok l.
Proof. unfold negativeScoreLine, line_ok. by rewrite orb_false_iff, !negativeInt_false. Qed.

Lemma events_teams_ok home away (es : list APIFixtureEvent) :
  forallb (λ e, (e.(EventTeam).(TeamID) =? home) || (e.(EventTeam).(TeamID) =? away)) es = true ↔
  Forall (λ e, e.(EventTeam).(TeamID) = home ∨ e.(EventTeam).(TeamID) = away) es.
Proof.
  rewrite forallb_forall, Forall_forall. setoid_rewrite list_elem_of_In.
  split; intros H e He; specialize (H e He); simpl_bools; done.
Qed.

Lemma expectedSet_spec ids acc :
  (∃ out, expectedSet acc ids = inr out ∧ out = list_to_set ids ∪ acc ∧
    NoDup ids ∧ (∀ x, x ∈ ids → x ∉ acc)) ∨
  (∃ r, expectedSet acc ids = inl r ∧ ¬ (NoDup ids ∧ (∀ x, x ∈ ids → x ∉ acc))).
Proof.
  revert acc. induction ids as [|i ids IH]; intros acc; simpl.
  { left. exists acc. repeat split; [set_solver|constructor|set_solver]. }
  case_decide as Hi.
  { right. eexists. split; [done|]. intros [_ H]. by apply (H i); [left|]. }
  destruct (IH ({[i]} ∪ acc)) as [(out & -> & -> & Hnd & Hdisj)|(r & -> & Hn)].
  - left. eexists. split; [done|]. split; [set_solver|]. split.
    + constructor; [|done]. intros Hin. apply (Hdisj i); set_solver.
    + intros x [->|Hx]%elem_of_cons; [done|]. specialize (Hdisj x Hx). set_solver.
  - right. eexists. split; [done|]. intros [Hnd Hd]. apply Hn. apply NoDup_cons in Hnd as [??].
    split; [done|]. intros x Hx. specialize (Hd x). set_solver.
Qed.

Lemma size_pos (X : gset Z) : (0 <? size X)%nat = true ↔ X ≠ ∅.
Proof.
  rewrite Nat.ltb_lt. split; [intros Hs ->; rewrite size_empty in Hs; lia|].
  intros Hne. destruct (decide (size X = 0%nat)) as [H0|]; [|lia].
  apply size_empty_inv in H0. set_solver.
Qed.

Lemma fixtureDefect_None expected req f :
  0 < f.(Fixture).(FixtureID) →
  fixtureDefect expected req f = None ↔
  fixture_ok req f ∧ (expected ≠ ∅ → f.(Fixture).(FixtureID) ∈ expected).
Proof.
  intros Hid. unfold fixtureDefect.
  destruct ((0 <? size expected)%nat && _) eqn:E1.
  { apply andb_true_iff in E1 as [E1%size_pos E1'%negb_true_iff%bool_decide_eq_false].
    split; [done|]. intros [_ H]. destruct E1'. by apply H. }
  assert (expected ≠ ∅ → FixtureID (Fixture f) ∈ expected) as Hin.
  { intros Hne%size_pos. rewrite Hne in E1. simpl in E1.
    by apply negb_false_iff, bool_decide_eq_true in E1. }
  destruct (_ || (_ =? _)) eqn:E2.
  { split; [done|]. intros [[] _]. simpl_bools. lia. }
  destruct (_ || _) eqn:E3 in |- *.
  { split; [done|]. intros [[] _]. exfalso. rewrite <-not_false_iff_true in E3. apply E3.
    rewrite !orb_false_iff, !negativeInt_false, !negativeScoreLine_false. tauto. }
  rewrite !orb_false_iff, !negativeInt_false, !negativeScoreLine_false in E3.
  rewrite !orb_false_iff, !Z.leb_gt, Z.eqb_neq in E2.
  destruct (forallb _ _) eqn:E4.
  - apply events_teams_ok in E4.
    destruct req, (eventsState f) eqn:Es;
      (split; [intros H|intros [[] _]; first [done|specialize (ok_inventory0 eq_refl); congruence]]);
      first [done|split; [constructor; (lia || tauto || congruence)|done]].
  - apply not_true_iff_false in E4. rewrite events_teams_ok in E4.
    destruct req, (eventsState f) eqn:Es; (split; [done|intros [[] _]]); done.
Qed.

Lemma validateReturned_spec expected req fs acc :
  (∃ out, validateReturned expected req acc fs = inr out ∧
    out = list_to_set (fixture_ids fs) ∪ acc ∧
    NoDup (fixture_ids fs) ∧ (∀ x, x ∈ fixture_ids fs → x ∉ acc) ∧
    Forall (fixture_ok req) fs ∧ (expected ≠ ∅ → ∀ x, x ∈ fixture_ids fs → x ∈ expected)) ∨
  (∃ r, validateReturned expected req acc fs = inl r ∧
    ¬ (NoDup (fixture_ids fs) ∧ (∀ x, x ∈ fixture_ids fs → x ∉ acc) ∧
       Forall (fixture_ok req) fs ∧ (expected ≠ ∅ → ∀ x, x ∈ fixture_ids fs → x ∈ expected))).
Proof.
  revert acc. induction fs as [|f fs IH]; intros acc; simpl.
  { left. exists acc. repeat split; [set_solver|constructor|set_solver|constructor|set_solver]. }
  set (id := FixtureID (Fixture f)).
  destruct (id <=? 0) eqn:Hid; simpl_bools.
  { right. eexists. split; [done|]. intros (_ & _ & Hok & _).
    apply Forall_cons in Hok as [[] _]. subst id. lia. }
  case_decide as Hin.
  { right. eexists. split; [done|]. intros (_ & H & _). by apply (H id); [left|]. }
  pose proof (fixtureDefect_None expected req f Hid) as Hdef.
  destruct (fixtureDefect expected req f) as [r|].
  { right. eexists. split; [done|]. intros (_ & _ & Hok & Hexp).
    apply Forall_cons in Hok as [Hok _]. enough (Some r = None) by done. apply Hdef.
    split; [done|]. intros Hne. apply Hexp; [done|by left]. }
  destruct (proj1 Hdef eq_refl) as [Hok Hexp].
  destruct (IH ({[id]} ∪ acc)) as [(out & -> & -> & Hnd & Hdisj & Hoks & Hsub)|(r & -> & Hn)].
  - left. eexists. split; [done|]. split; [set_solver|]. split.
    { constructor; [|done]. intros Hx. apply (Hdisj id); set_solver. }
    split. { intros x [->|Hx]%elem_of_cons; [done|]. specialize (Hdisj x Hx). set_solver. }
    split; [by constructor|]. intros Hne x [->|Hx]%elem_of_cons; [by apply Hexp|by apply Hsub].
  - right. eexists. split; [done|]. intros (Hnd & Hd & Hoks & Hsub). apply Hn.
    apply NoDup_cons in Hnd as [Hx Hnd]. apply Forall_cons in Hoks as [_ Hoks].
    split; [done|]. split.
    { intros x Hx'. assert (x ≠ id) by (intros ->; done).
      specialize (Hd x). set_solver. }
    split; [done|]. intros Hne x Hx'. apply Hsub; [done|by right].
Qed.

(** The response validator accepts exactly the responses that satisfy the
    documented contract: no fixture is reported twice, every fixture is
    internally consistent, and, when ids were requested, the returned ids are
    a permutation of the requested ones. *)
Theorem validateFixturePayloads_contract fs expected req :
  validateFixturePayloads fs expected req = None ↔ payload_contract fs expected req.
Proof.
  unfold validateFixturePayloads.
  destruct (expectedSet_spec expected ∅) as [(X & -> & -> & Hnd & _)|(r & -> & Hn)].
  2: { split; [done|]. intros []. exfalso. apply Hn. split; [done|set_solver]. }
  set (X := list_to_set expected ∪ ∅ : gset Z).
  assert (X ≠ ∅ ↔ expected ≠ []) as HX.
  { subst X. destruct expected; simpl; set_solver. }
  destruct (validateReturned_spec X req fs ∅)
    as [(out & -> & -> & Hret & _ & Hok & Hsub)|(r & -> & Hn)].
  - case_decide as Hle; (split; [|done || intros []]); [|done|].
    + intros _. split; [done..|]. intros Hne. apply NoDup_Permutation; [done..|].
      intros x. split; [|set_solver]. intros Hx. apply HX in Hne. specialize (Hsub Hne x Hx).
      subst X. set_solver.
    + exfalso. apply Hle. destruct (decide (expected = [])) as [->|Hne].
      { subst X. set_solver. }
      intros x. subst X. rewrite elem_of_union, elem_of_list_to_set, <-(pc_complete0 Hne).
      set_solver.
  - split; [done|]. intros []. exfalso. apply Hn. split; [done|]. split; [set_solver|].
    split; [done|]. intros Hne x. apply HX in Hne. rewrite (pc_complete0 Hne). subst X. set_solver.
Qed.

(** ** Batching *)

Lemma chunk_loop_concat fuel ids n :
  (0 < n)%nat → (length ids ≤ fuel)%nat → concat (chunk_loop fuel ids n) = ids.
Proof.
  intros Hn. revert ids. induction fuel as [|fuel IH]; intros [|i ids] Hl; simpl in *; try done; try lia.
  rewrite IH; [by rewrite take_drop|]. rewrite length_drop. simpl. lia.
Qed.

Lemma chunk_loop_bound fuel ids n :
  (0 < n)%nat → Forall (λ c, c ≠ [] ∧ (length c ≤ n)%nat) (chunk_loop fuel ids n).
Proof.
  intros Hn. revert ids. induction fuel as [|fuel IH]; intros [|i ids]; simpl; try constructor; [|done].
  split; [destruct n; [lia|done]|]. pose proof (length_take (i :: ids) n) as E. lia.
Qed.

Lemma chunkIDs_concat ids n : (0 < n)%nat → concat (chunkIDs ids n) = ids.
Proof.
  intros Hn. unfold chunkIDs. destruct ids as [|i ids]; [done|]. destruct n as [|n]; [lia|].
  case_match; [apply app_nil_r|]. by apply chunk_loop_concat.
Qed.

Lemma chunkIDs_bound ids n :
  (0 < n)%nat → Forall (λ c, c ≠ [] ∧ (length c ≤ n)%nat) (chunkIDs ids n).
Proof.
  intros Hn. unfold chunkIDs. destruct ids as [|i ids]; [constructor|]. destruct n as [|n]; [lia|].
  destruct (_ <=? _)%nat eqn:E; [|by apply chunk_loop_bound].
  apply Nat.leb_le in E. constructor; [done|constructor].
Qed.

Lemma decode_ok_contract env ids req fs :
  decodeFixtureEnvelope env ids req = inr fs → payload_contract fs ids req.
Proof.
  unfold decodeFixtureEnvelope. intros H. repeat (case_match; simplify_eq/=).
  by apply validateFixturePayloads_contract.
Qed.

Lemma fetch_chunk_ids getJSON c fs :
  c ≠ [] → fetchFixturesByIDsChunk getJSON c = inr fs → fixture_ids fs ≡ₚ c.
Proof.
  unfold fetchFixturesByIDsChunk. intros Hc H. repeat (case_match; simplify_eq/=).
  by eapply pc_complete; [eapply decode_ok_contract|].
Qed.

Lemma collect_accounts getJSON cs acc :
  Forall (λ c : list Z, c ≠ []) cs →
  let r := foldl collectChunk acc ((λ c, (c, fetchFixturesByIDsChunk getJSON c)) <$> cs) in
  FailedIDs r ++ fixture_ids r.(ResultFixtures) ≡ₚ
  (FailedIDs acc ++ fixture_ids acc.(ResultFixtures)) ++ concat cs.
Proof.
  intros Hne. revert acc. induction Hne as [|c cs Hc _ IH]; intros acc;
    cbn [fmap list_fmap foldl concat]; [by rewrite app_nil_r|].
  rewrite IH. unfold collectChunk, FailedIDs, fixture_ids. cbn [fst snd].
  destruct (fetchFixturesByIDsChunk getJSON c) as [e|fs] eqn:E; cbn.
  - rewrite flat_map_app. cbn.
    replace (FailureIDs (fixtureFetchFailure c e)) with c by by destruct e.
    rewrite app_nil_r. solve_Permutation.
  - apply fetch_chunk_ids in E; [|done]. unfold fixture_ids in E.
    rewrite fmap_app, E. solve_Permutation.
Qed.

(** A batched fetch loses no id and invents none, whatever each HTTP call
    answers: the ids reported as failed together with the ids of the returned
    fixtures are a permutation of the requested ids, and no single request
    carries more than [IDsBatchLimit] ids. *)
Theorem ListFixturesByIDs_accounts getJSON cancelled ids :
  let r := (ListFixturesByIDs getJSON cancelled ids).1 in
  FailedIDs r ++ fixture_ids r.(ResultFixtures) ≡ₚ ids ∧
  Forall (λ c, (length c ≤ IDsBatchLimit)%nat) (chunkIDs ids IDsBatchLimit).
Proof.
  pose proof (chunkIDs_bound ids IDsBatchLimit ltac:(unfold IDsBatchLimit; lia)) as Hb.
  split; [|eapply Forall_impl; [exact Hb|by intros ? []]].
  unfold ListFixturesByIDs. destruct ids as [|i ids]; [done|].
  destruct cancelled; [by unfold FailedIDs; simpl; rewrite !app_nil_r|]. cbn [fst].
  rewrite collect_accounts by (eapply Forall_impl; [exact Hb|by intros ? []]).
  by rewrite chunkIDs_concat by (unfold IDsBatchLimit; lia).
Qed.

End apifootball.
