(* ===== verification/Fixture.v ===== *)
(** internal/domain/fixture: the fixture record, its lifecycle
    (staging, active, completed), the effect of a provider poll, and the
    state/timestamp invariant that storage also enforces. *)
From S2P Require Import Prelude GoStrings ApiFootball.
Import apifootball.
#[local] Open Scope string_scope.
#[local] Open Scope list_scope.
#[local] Open Scope Z_scope.

Module fixture.

(** ** Data (fixture.go) *)

Definition State := string.
Definition StateStaging : State := "staging".
Definition StateActive : State := "active".
Definition StateCompleted : State := "completed".

Definition State_Valid (s : State) : bool := one_of s [StateStaging; StateActive; StateCompleted].

Record APIStatus := mkAPIStatus { Short : APIStatusCode; Long : string }.

Definition Terminal (a : APIStatus) : bool :=
  one_of a.(Short) [StatusFullTime; StatusAfterExtra; StatusPenaltyDone; StatusCancelled;
    StatusAbandoned; StatusTechnicalLoss; StatusWalkover].

Definition Live (a : APIStatus) : bool :=
  one_of a.(Short) [StatusFirstHalf; StatusHalftime; StatusSecondHalf; StatusExtraTime;
    StatusBreakTime; StatusPenaltyPlay; StatusLive; StatusSuspended; StatusInterrupted;
    StatusPostponed].

Record Team := mkTeam { tID : Z; tName : string }.
Record League := mkLeague {
  lID : Z; lName : string; lSeason : Z; lCountry : string; lRound : string }.

#[global] Instance APIStatus_eq_dec : EqDecision APIStatus. Proof. solve_decision. Defined.
#[global] Instance Team_eq_dec : EqDecision Team. Proof. solve_decision. Defined.
#[global] Instance League_eq_dec : EqDecision League. Proof. solve_decision. Defined.

Record Fixture := mkFixture {
  fID : Z;
  fState : State;
  fAPIStatus : APIStatus;
  fAPIElapsed : option Z;
  fAPIExtra : option Z;
  fKickoff : Time;
  fHome : Team;
  fAway : Team;
  fLeague : League;
  fHomeScore : option Z;
  fAwayScore : option Z;
  fHomePenalty : option Z;
  fAwayPenalty : option Z;
  fHomeWinner : option bool;
  fAwayWinner : option bool;
  fActivatedAt : option Time;
  fCompletedAt : option Time;
  fTerminalObservedAt : option Time;
  fLastActivityAt : option Time;
  fLastPolledAt : option Time;
  fCreatedAt : Time;
  fUpdatedAt : Time }.

#[global] Instance eta_Fixture : Eta Fixture := λ f,
  mkFixture f.(fID) f.(fState) f.(fAPIStatus) f.(fAPIElapsed) f.(fAPIExtra) f.(fKickoff)
    f.(fHome) f.(fAway) f.(fLeague) f.(fHomeScore) f.(fAwayScore) f.(fHomePenalty)
    f.(fAwayPenalty) f.(fHomeWinner) f.(fAwayWinner) f.(fActivatedAt) f.(fCompletedAt)
    f.(fTerminalObservedAt) f.(fLastActivityAt) f.(fLastPolledAt) f.(fCreatedAt) f.(fUpdatedAt).

#[global] Instance Fixture_eq_dec : EqDecision Fixture. Proof. solve_decision. Defined.

(** [now] is the wall clock the constructor reads. *)
Definition New (now : Time) (id : Z) (status : APIStatus) (kickoff : Time)
    (home away : Team) (league : League) : Fixture :=
  mkFixture id StateStaging status None None kickoff home away league
    None None None None None None None None None None None (UTC now) (UTC now).

Inductive Error :=
  | ErrInvalidStateTransition (from : State)
  | ErrStateTimestampMismatch.

Definition ShouldActivateNow (f : Fixture) (now : Time) (window : Duration) : bool :=
  if negb (f.(fState) =? StateStaging)%string then false
  else negb (After f.(fKickoff) (time_Add now window)).

Definition ValidateInvariants (f : Fixture) : option Error :=
  if (f.(fState) =? StateStaging)%string then
    if not_nil f.(fActivatedAt) || not_nil f.(fCompletedAt) || not_nil f.(fTerminalObservedAt)
    then Some ErrStateTimestampMismatch else None
  else if (f.(fState) =? StateActive)%string then
    if is_nil f.(fActivatedAt) then Some ErrStateTimestampMismatch
    else if not_nil f.(fCompletedAt) then Some ErrStateTimestampMismatch else None
  else if (f.(fState) =? StateCompleted)%string then
    if is_nil f.(fActivatedAt) || is_nil f.(fCompletedAt)
    then Some ErrStateTimestampMismatch else None
  else Some (ErrInvalidStateTransition f.(fState)).

(** ** Transitions (state.go)

    A method with a pointer receiver returns the fixture it leaves behind
    together with its error; on an error path the receiver is unchanged. *)

Definition Activate (f : Fixture) (at_ : Time) : Fixture * option Error :=
  if (f.(fState) =? StateActive)%string then (f, None)
  else if (f.(fState) =? StateStaging)%string then
    let utc := UTC at_ in
    (f <| fState := StateActive |> <| fActivatedAt := Some utc |> <| fUpdatedAt := utc |>, None)
  else (f, Some (ErrInvalidStateTransition f.(fState))).

Definition Complete (f : Fixture) (at_ : Time) : Fixture * option Error :=
  if (f.(fState) =? StateCompleted)%string then (f, None)
  else if (f.(fState) =? StateActive)%string then
    let utc := UTC at_ in
    (f <| fState := StateCompleted |> <| fCompletedAt := Some utc |> <| fUpdatedAt := utc |>, None)
  else (f, Some (ErrInvalidStateTransition f.(fState))).

Definition Reschedule (f : Fixture) (newKickoff at_ : Time) : Fixture * option Error :=
  if negb (f.(fState) =? StateActive)%string
  then (f, Some (ErrInvalidStateTransition f.(fState)))
  else
    (f <| fState := StateStaging |> <| fActivatedAt := None |> <| fTerminalObservedAt := None |>
       <| fKickoff := UTC newKickoff |> <| fUpdatedAt := UTC at_ |>, None).

Definition UpdateFromPoll (f : Fixture) (status : APIStatus) (elapsed extra : option Z)
    (homeScore awayScore : option Z) (at_ : Time) : Fixture :=
  let utc := UTC at_ in
  let f := f <| fAPIStatus := status |> <| fAPIElapsed := elapsed |> <| fAPIExtra := extra |> in
  let f := if not_nil homeScore then f <| fHomeScore := homeScore |> else f in
  let f := if not_nil awayScore then f <| fAwayScore := awayScore |> else f in
  let f := f <| fLastPolledAt := Some utc |> <| fUpdatedAt := utc |> in
  if Terminal status then
    if is_nil f.(fTerminalObservedAt) then f <| fTerminalObservedAt := Some utc |> else f
  else f <| fTerminalObservedAt := None |>.

Definition winnerFromScore (home away : option Z) : option bool * option bool :=
  match home, away with
  | Some h, Some a =>
      if h =? a then (None, None)
      else let homeWon := a <? h in (Some homeWon, Some (negb homeWon))
  | _, _ => (None, None)
  end.

Definition cloneBool (value : option bool) : option bool := value.
Definition cloneInt (value : option Z) : option Z := value.

Definition UpdateResult (f : Fixture) (providerHome providerAway : option bool) : Fixture :=
  let short := f.(fAPIStatus).(Short) in
  if (short =? StatusPenaltyDone)%string then
    let w := winnerFromScore f.(fHomePenalty) f.(fAwayPenalty) in
    f <| fHomeWinner := w.1 |> <| fAwayWinner := w.2 |>
  else if one_of short [StatusCancelled; StatusAbandoned; StatusTechnicalLoss; StatusWalkover] then
    f <| fHomeWinner := cloneBool providerHome |> <| fAwayWinner := cloneBool providerAway |>
  else
    let w := winnerFromScore f.(fHomeScore) f.(fAwayScore) in
    f <| fHomeWinner := w.1 |> <| fAwayWinner := w.2 |>.

Definition UpdatePenalty (f : Fixture) (home away : option Z) : Fixture :=
  f <| fHomePenalty := cloneInt home |> <| fAwayPenalty := cloneInt away |>.

Definition UpdateMetadata (f : Fixture) (kickoff : Time) (home away : Team) (league : League)
    : Fixture :=
  f <| fKickoff := UTC kickoff |> <| fHome := home |> <| fAway := away |> <| fLeague := league |>.

Definition RecordStagingPoll (f : Fixture) (status : APIStatus) (kickoff at_ : Time) : Fixture :=
  let utc := UTC at_ in
  f <| fAPIStatus := status |> <| fKickoff := UTC kickoff |>
    <| fLastPolledAt := Some utc |> <| fUpdatedAt := utc |>.

(** ** The lifecycle as a transition system

    One constructor per mutating method, whatever its arguments: none of them checks
    who calls it when. *)

Inductive step : relation Fixture :=
  | step_activate f at_ : step f (Activate f at_).1
  | step_complete f at_ : step f (Complete f at_).1
  | step_reschedule f kickoff at_ : step f (Reschedule f kickoff at_).1
  | step_poll f status elapsed extra hs aws at_ : step f (UpdateFromPoll f status elapsed extra hs aws at_)
  | step_result f ph pa : step f (UpdateResult f ph pa)
  | step_penalty f h a : step f (UpdatePenalty f h a)
  | step_metadata f k h a l : step f (UpdateMetadata f k h a l)
  | step_staging_poll f status kickoff at_ : step f (RecordStagingPoll f status kickoff at_).

(** The four facts about a fixture that [ValidateInvariants] reads. *)
Definition lifecycle (f : Fixture) : State * bool * bool * bool :=
  (f.(fState), not_nil f.(fActivatedAt), not_nil f.(fCompletedAt), not_nil f.(fTerminalObservedAt)).

(** The combinations storage accepts. *)
Inductive accepted : State * bool * bool * bool → Prop :=
  | accepted_staging : accepted (StateStaging, false, false, false)
  | accepted_active terminal : accepted (StateActive, true, false, terminal)
  | accepted_completed terminal : accepted (StateCompleted, true, true, terminal).

#[local] Hint Constructors accepted : core.

Lemma ValidateInvariants_accepted f : ValidateInvariants f = None ↔ accepted (lifecycle f).
Proof.
  unfold ValidateInvariants, lifecycle. split.
  - destruct (String.eqb_spec (fState f) StateStaging) as [->|].
    { destruct (fActivatedAt f), (fCompletedAt f), (fTerminalObservedAt f); simpl; done || by constructor. }
    destruct (String.eqb_spec (fState f) StateActive) as [->|].
    { destruct (fActivatedAt f), (fCompletedAt f); simpl; done || by constructor. }
    destruct (String.eqb_spec (fState f) StateCompleted) as [->|]; [|done].
    destruct (fActivatedAt f), (fCompletedAt f); simpl; done || by constructor.
  - generalize (fState f), (fActivatedAt f), (fCompletedAt f), (fTerminalObservedAt f).
    intros st [] [] []; simpl; inversion 1; done.
Qed.

(** Operations that refresh data but are not transitions. *)
Lemma lifecycle_result f ph pa : lifecycle (UpdateResult f ph pa) = lifecycle f.
Proof. unfold UpdateResult. by repeat case_match. Qed.

Lemma lifecycle_poll f st el ex hs aws at_ :
  lifecycle (UpdateFromPoll f st el ex hs aws at_) =
  (f.(fState), not_nil f.(fActivatedAt), not_nil f.(fCompletedAt), Terminal st).
Proof.
  unfold UpdateFromPoll, lifecycle. destruct hs, aws, (Terminal st); simpl;
    by destruct (fTerminalObservedAt f) eqn:E; simpl; rewrite ?E.
Qed.

(** A fixture that was seen at its end before it was activated: the one combination
    the methods can reach and storage refuses. *)
Definition early (f : Fixture) : Prop := lifecycle f = (StateStaging, false, false, true).

Lemma early_invalid f : early f → ValidateInvariants f = Some ErrStateTimestampMismatch.
Proof.
  unfold early, lifecycle, ValidateInvariants. intros [= -> _ _ Ht]. rewrite Ht. cbn.
  by rewrite !orb_true_r.
Qed.

Lemma Activate_accepted f at_ : accepted (lifecycle f) → accepted (lifecycle (Activate f at_).1).
Proof.
  unfold Activate. destruct (String.eqb_spec (fState f) StateActive); [done|].
  destruct (String.eqb_spec (fState f) StateStaging) as [E|]; [|done].
  unfold lifecycle. rewrite E. simpl. inversion 1. constructor.
Qed.

Lemma step_reaches f g : step f g → accepted (lifecycle f) ∨ early f → accepted (lifecycle g) ∨ early g.
Proof.
  unfold early. destruct 1.
  - intros [H|H]; [left; by apply Activate_accepted|]. unfold Activate. injection H as E _ Hc Ht.
    rewrite E. cbn. left. unfold lifecycle. cbn. rewrite Hc, Ht. constructor.
  - unfold Complete. destruct (String.eqb_spec (fState f) StateCompleted); [done|].
    destruct (String.eqb_spec (fState f) StateActive) as [E|]; [|done].
    unfold lifecycle. rewrite E. simpl. intros [H|H]; [|discriminate H]. inversion H. left. constructor.
  - unfold Reschedule. destruct (String.eqb_spec (fState f) StateActive) as [E|]; [|done].
    unfold lifecycle. rewrite E. simpl. intros [H|H]; [|discriminate H]. inversion H. left. constructor.
  - rewrite lifecycle_poll. unfold lifecycle. destruct (Terminal status).
    + intros [H|[= -> -> -> _]]; [|by right]. inversion H; simplify_eq; auto.
    + intros [H|[= -> -> -> _]]; [inversion H; simplify_eq|]; auto.
  - by rewrite lifecycle_result.
  - done.
  - done.
  - done.
Qed.

Lemma rtc_step_reaches f g : rtc step f g → accepted (lifecycle f) ∨ early f → accepted (lifecycle g) ∨ early g.
Proof. induction 1; eauto using step_reaches. Qed.

(** The only step out of the accepted combinations is a terminal poll in staging. *)
Lemma step_leaves f g : step f g → accepted (lifecycle f) → ¬ accepted (lifecycle g) →
  f.(fState) = StateStaging ∧ ∃ status elapsed extra hs aws at_, Terminal status = true ∧
    g = UpdateFromPoll f status elapsed extra hs aws at_.
Proof.
  intros Hs Hf Hg. destruct (step_reaches f g Hs (or_introl Hf)) as [|He]; [done|].
  destruct Hs as [f at_|f at_|f kickoff at_|f status elapsed extra hs aws at_| | | |].
  4:{ unfold early in He. rewrite lifecycle_poll in He. injection He as E _ _ Ht.
      split; [done|]. eauto 10. }
  all: exfalso; apply Hg; revert Hf; unfold early, Activate, Complete, Reschedule in *; revert He.
  - destruct (String.eqb_spec (fState f) StateActive); [done|]. by destruct (_ =? _)%string.
  - destruct (String.eqb_spec (fState f) StateCompleted); [done|]. by destruct (_ =? _)%string.
  - destruct (String.eqb_spec (fState f) StateActive) as [E|]; [|done]. unfold lifecycle. cbn. by intros [= ].
  - by rewrite lifecycle_result.
  - done.
  - done.
  - done.
Qed.

(** C40: A fixture keeps the state/timestamp invariant of the schema through any
    sequence of lifecycle methods, polls and refreshes, with one exception: reached
    from a freshly ingested one, it satisfies the invariant, or it is still in staging
    and carries a terminal observation, which the invariant reports.  The only step
    that leads from the first to the second is a poll with a terminal status on a
    staging fixture. *)
Theorem reachable_invariant now id status kickoff home away league f :
  rtc step (New now id status kickoff home away league) f →
  (ValidateInvariants f = None ∨
   early f ∧ ValidateInvariants f = Some ErrStateTimestampMismatch) ∧
  ∀ g, step f g → ValidateInvariants f = None → ValidateInvariants g ≠ None →
    f.(fState) = StateStaging ∧ ∃ status elapsed extra hs aws at_, Terminal status = true ∧
      g = UpdateFromPoll f status elapsed extra hs aws at_.
Proof.
  intros Hr. split.
  - assert (accepted (lifecycle (New now id status kickoff home away league))) as H0 by constructor.
    destruct (rtc_step_reaches _ _ Hr (or_introl H0)) as [H|H]; [left; by apply ValidateInvariants_accepted|].
    right. split; [done|by apply early_invalid].
  - intros g Hs Hf Hg. rewrite !ValidateInvariants_accepted in *. by apply step_leaves.
Qed.

Definition fresh_ : Fixture := New 5 7 (mkAPIStatus StatusNotStarted "") 100 (mkTeam 1 "A") (mkTeam 2 "B")
  (mkLeague 3 "L" 2026 "C" "R").
Definition fullTime (f : Fixture) : Fixture :=
  UpdateFromPoll f (mkAPIStatus StatusFullTime "") (Some 90) None (Some 1) (Some 0) 900.

(** The exception is reached by one poll. *)
Lemma early_reached : rtc step fresh_ (fullTime fresh_) ∧ early (fullTime fresh_).
Proof. split; [apply rtc_once, step_poll|reflexivity]. Qed.

Lemma reachable_invariant_witness : ValidateInvariants (fullTime (Activate fresh_ 50).1) = None.
Proof.
  destruct (reachable_invariant 5 7 (mkAPIStatus StatusNotStarted "") 100 (mkTeam 1 "A") (mkTeam 2 "B")
    (mkLeague 3 "L" 2026 "C" "R") (fullTime (Activate fresh_ 50).1)) as [[H|[H _]] _]; [|exact H|discriminate H].
  eapply rtc_l; [apply step_activate|]. apply rtc_once, step_poll.
Defined.

(** Completed is terminal: no sequence of operations moves a completed fixture
    to another state or changes when it was activated or completed. *)
Theorem completed_terminal f g :
  rtc step f g → f.(fState) = StateCompleted →
  g.(fState) = StateCompleted ∧ g.(fActivatedAt) = f.(fActivatedAt) ∧
  g.(fCompletedAt) = f.(fCompletedAt).
Proof.
  induction 1 as [f|f g h Hs _ IH]; [done|]. intros Hf.
  assert (fState g = StateCompleted ∧ fActivatedAt g = fActivatedAt f ∧
    fCompletedAt g = fCompletedAt f) as (Hg & <- & <-); [|by apply IH].
  destruct Hs; try done.
  - unfold Activate. by rewrite Hf.
  - unfold Complete. by rewrite Hf.
  - unfold Reschedule. by rewrite Hf.
  - unfold UpdateFromPoll. by repeat (case_match; simpl).
  - unfold UpdateResult. by repeat (case_match; simpl).
Qed.

Lemma completed_terminal_witness :
  let f := New 5 7 (mkAPIStatus StatusNotStarted "") 100 (mkTeam 1 "A") (mkTeam 2 "B")
    (mkLeague 3 "L" 2026 "C" "R") in
  let f := (Complete (Activate f 50).1 200).1 in
  fState (Reschedule f 900 300).1 = StateCompleted ∧
  fActivatedAt (Reschedule f 900 300).1 = Some 50 ∧
  fCompletedAt (Reschedule f 900 300).1 = Some 200.
Proof.
  intros f0 f. apply (completed_terminal f (Reschedule f 900 300).1); [|reflexivity].
  apply rtc_once, step_reschedule.
Defined.

(** ** Polls *)

(** The arguments of one [UpdateFromPoll] call. *)
Record Poll := mkPoll {
  pStatus : APIStatus; pElapsed : option Z; pExtra : option Z;
  pHomeScore : option Z; pAwayScore : option Z; pAt : Time }.

Definition apply_poll (f : Fixture) (p : Poll) : Fixture :=
  UpdateFromPoll f p.(pStatus) p.(pElapsed) p.(pExtra) p.(pHomeScore) p.(pAwayScore) p.(pAt).

Definition apply_polls (f : Fixture) (ps : list Poll) : Fixture := foldl apply_poll f ps.

Definition terminal_poll (p : Poll) : Prop := Terminal p.(pStatus) = true.

(** [t] is when the uninterrupted terminal run at the end of [ps] started. *)
Definition terminal_run_start (ps : list Poll) (t : Time) : Prop :=
  ∃ pre p post, ps = pre ++ p :: post ∧ Forall terminal_poll (p :: post) ∧ p.(pAt) = t ∧
    (pre = [] ∨ ∃ pre' q, pre = pre' ++ [q] ∧ ¬ terminal_poll q).

Lemma apply_polls_snoc f ps p : apply_polls f (ps ++ [p]) = apply_poll (apply_polls f ps) p.
Proof. unfold apply_polls. by rewrite foldl_app. Qed.

Lemma apply_poll_terminal f p :
  (apply_poll f p).(fTerminalObservedAt) =
  if Terminal p.(pStatus) then Some (default p.(pAt) f.(fTerminalObservedAt)) else None.
Proof.
  destruct p as [st el ex hs aws at_]. unfold apply_poll, UpdateFromPoll. simpl.
  destruct hs, aws, (Terminal st); simpl; by destruct (fTerminalObservedAt f) eqn:E; simpl; rewrite ?E.
Qed.

(** The sequence is empty or its last poll is not terminal. *)
Definition no_terminal_run (ps : list Poll) : Prop :=
  ps = [] ∨ ∃ ps' q, ps = ps' ++ [q] ∧ ¬ terminal_poll q.

Lemma no_terminal_run_None f ps :
  f.(fTerminalObservedAt) = None →
  (apply_polls f ps).(fTerminalObservedAt) = None ↔ no_terminal_run ps.
Proof.
  intros Hf. unfold no_terminal_run. destruct ps as [|q ps _] using rev_ind.
  { split; [by left|by intros _]. }
  rewrite apply_polls_snoc, apply_poll_terminal. unfold terminal_poll.
  destruct (Terminal (pStatus q)) eqn:E; (split; [try done|]).
  - intros [H|(ps' & q' & H & Hq)]; [by destruct ps|]. apply app_inj_tail in H as [_ ->]. congruence.
  - intros _. right. exists ps, q. by rewrite E.
  - done.
Qed.

(** How one more poll changes the run at the end of the sequence. *)
Lemma terminal_run_snoc ps q t :
  terminal_run_start (ps ++ [q]) t ↔
  terminal_poll q ∧ (terminal_run_start ps t ∨ (no_terminal_run ps ∧ q.(pAt) = t)).
Proof.
  split.
  - intros (pre & p & post & Heq & Hrun & Ht & Hpre).
    destruct post as [|q' post _] using rev_ind.
    + apply app_inj_tail in Heq as [-> ->]. apply Forall_cons in Hrun as [??]. split; [done|by right].
    + rewrite app_comm_cons, app_assoc in Heq. apply app_inj_tail in Heq as [-> ->].
      rewrite app_comm_cons, Forall_app, Forall_singleton in Hrun. destruct Hrun as [Hrun ?].
      split; [done|left]. by exists pre, p, post.
  - intros [Hq [(pre & p & post & -> & Hrun & Ht & Hpre)|[Hn Ht]]].
    + exists pre, p, (post ++ [q]). rewrite <-app_assoc. repeat split; [|done|done].
      rewrite app_comm_cons, Forall_app, Forall_singleton. done.
    + exists ps, q, []. repeat split; [by repeat constructor|done|done].
Qed.

Lemma terminal_run_not_none ps t : no_terminal_run ps → ¬ terminal_run_start ps t.
Proof.
  intros [->|(ps' & q & -> & Hq)].
  - intros ([] & ? & ? & ? & _); done.
  - by intros [? _]%terminal_run_snoc.
Qed.

(** The terminal observation time, which starts the completion grace period,
    is exactly the time of the first poll of the current uninterrupted run of
    terminal polls: a non-terminal poll clears it and later terminal polls of
    the same run do not move it. *)
Theorem terminal_observation_run f ps t :
  f.(fTerminalObservedAt) = None →
  (apply_polls f ps).(fTerminalObservedAt) = Some t ↔ terminal_run_start ps t.
Proof.
  intros Hf. revert t. induction ps as [|q ps IH] using rev_ind; intros t.
  { unfold apply_polls. simpl. rewrite Hf. split; [done|]. intros ([] & ? & ? & ? & _); done. }
  rewrite terminal_run_snoc, apply_polls_snoc, apply_poll_terminal. unfold terminal_poll.
  destruct (Terminal (pStatus q)); [|naive_solver].
  destruct (fTerminalObservedAt (apply_polls f ps)) as [t0|] eqn:E; simpl.
  - rewrite <-IH. pose proof (terminal_run_not_none ps t0). naive_solver.
  - apply no_terminal_run_None in E; [|done].
    pose proof (terminal_run_not_none ps t E). naive_solver.
Qed.

Lemma terminal_observation_run_witness :
  let f := New 5 7 (mkAPIStatus StatusNotStarted "") 100 (mkTeam 1 "A") (mkTeam 2 "B")
    (mkLeague 3 "L" 2026 "C" "R") in
  let poll st at_ := mkPoll (mkAPIStatus st "") (Some 90) None (Some 1) (Some 0) at_ in
  terminal_run_start
    [poll StatusFullTime 10; poll StatusSecondHalf 20; poll StatusFullTime 30; poll StatusFullTime 40]
    30.
Proof.
  intros f poll. apply (terminal_observation_run f); reflexivity.
Defined.

(** ** Results *)

Definition exceptional (status : APIStatusCode) : bool :=
  one_of status [StatusCancelled; StatusAbandoned; StatusTechnicalLoss; StatusWalkover].

(** The score that decides the winner: the shootout for PEN, else the goals. *)
Definition deciding_score (f : Fixture) : option Z * option Z :=
  if (f.(fAPIStatus).(Short) =? StatusPenaltyDone)%string
  then (f.(fHomePenalty), f.(fAwayPenalty)) else (f.(fHomeScore), f.(fAwayScore)).

Lemma winner_pair h a :
  let w := winnerFromScore (Some h) (Some a) in
  (h < a → w.1 = Some false ∧ w.2 = Some true) ∧
  (a < h → w.1 = Some true ∧ w.2 = Some false) ∧
  (h = a → w.1 = None ∧ w.2 = None).
Proof.
  unfold winnerFromScore. destruct (Z.eqb_spec h a), (Z.ltb_spec a h); simpl; repeat split; done || lia.
Qed.

#[local] Arguments winnerFromScore : simpl never.

(** Outside the four exceptional outcomes the winner pair never depends on the
    provider's flags: it is the exact comparison of the deciding score, nil on
    both sides when that score is missing or tied, and the provider's flags are
    copied only for the exceptional outcomes. *)
Theorem UpdateResult_decides f ph pa :
  let g := UpdateResult f ph pa in
  if exceptional f.(fAPIStatus).(Short)
  then g.(fHomeWinner) = ph ∧ g.(fAwayWinner) = pa
  else match deciding_score f with
    | (Some h, Some a) =>
        (h < a → g.(fHomeWinner) = Some false ∧ g.(fAwayWinner) = Some true) ∧
        (a < h → g.(fHomeWinner) = Some true ∧ g.(fAwayWinner) = Some false) ∧
        (h = a → g.(fHomeWinner) = None ∧ g.(fAwayWinner) = None)
    | _ => g.(fHomeWinner) = None ∧ g.(fAwayWinner) = None
    end.
Proof.
  unfold UpdateResult, deciding_score, exceptional.
  destruct (String.eqb_spec (Short (fAPIStatus f)) StatusPenaltyDone) as [->|Hp];
    [change (one_of StatusPenaltyDone _) with false|destruct (one_of _ _); [done|]]; cbn.
  - destruct (fHomePenalty f), (fAwayPenalty f); try done. apply winner_pair.
  - destruct (fHomeScore f), (fAwayScore f); try done. apply winner_pair.
Qed.

End fixture.
