(* ===== verification/Event.v ===== *)
(** internal/domain/event: the event record, its natural key, the classification
    of provider events, and the event-local state transitions. *)
From S2P Require Import Prelude GoStrings ApiFootball.
Import apifootball.
#[local] Open Scope string_scope.
#[local] Open Scope list_scope.
#[local] Open Scope Z_scope.

Module event.

(** ** Data (event.go) *)

Definition Type_ := string.
Definition TypeGoal : Type_ := "goal".
Definition TypeCard : Type_ := "card".
Definition TypeSubst : Type_ := "subst".
Definition TypeVar : Type_ := "var".
Definition TypeMissedPenalty : Type_ := "missed penalty".

Definition Type_Valid (t : Type_) : bool :=
  one_of t [TypeGoal; TypeCard; TypeSubst; TypeVar; TypeMissedPenalty].

(** [None] is the code's ("", false). *)
Definition TrackableEventType (apiType : APIEventType) (apiDetail : APIEventDetail)
    (apiComments : string) : option Type_ :=
  if (apiType =? EventTypeGoal)%string then
    if HasPenaltyShootoutComment apiComments then None
    else if one_of apiDetail [DetailNormalGoal; DetailPenalty; DetailOwnGoal] then Some TypeGoal
    else if (apiDetail =? DetailMissedPenalty)%string then Some TypeMissedPenalty
    else None
  else if (apiType =? EventTypeCard)%string then
    if (apiDetail =? DetailRedCard)%string then Some TypeCard else None
  else None.

Definition RemovalReason := string.
Definition RemovalVAR : RemovalReason := "var".
Definition RemovalPolicy : RemovalReason := "policy".
Definition RemovalAssetGone : RemovalReason := "asset_gone".
Definition RemovalReason_Valid (r : RemovalReason) : bool :=
  one_of r [RemovalVAR; RemovalPolicy; RemovalAssetGone].

Record Team := mkTeam { tID : Z; tName : string }.
Record Player := mkPlayer { pID : option Z; pName : option string }.

Definition Known (p : Player) : bool := not_nil p.(pID) && not_nil p.(pName).

#[global] Instance Team_eq_dec : EqDecision Team. Proof. solve_decision. Defined.
#[global] Instance Player_eq_dec : EqDecision Player. Proof. solve_decision. Defined.

(** A UUID is an opaque name; [Telemetry], free-form JSON, is left out. *)
Abbreviation UUID := positive (only parsing).

Record Event := mkEvent {
  eID : UUID;
  eFixtureID : Z;
  eNaturalKey : string;
  eType : Type_;
  eDetail : APIEventDetail;
  eTeam : Team;
  ePlayer : Player;
  eAssist : Player;
  eMinute : Z;
  eExtra : option Z;
  eFirstSeenAt : Time;
  eDebounceCount : Z;
  eDownstreamTriggered : bool;
  eMonitorComplete : bool;
  eDownloadComplete : bool;
  eRemoved : bool;
  eRemovedReason : option RemovalReason;
  eRemovedAt : option Time;
  eCreatedAt : Time;
  eUpdatedAt : Time }.

#[global] Instance eta_Event : Eta Event := λ e,
  mkEvent e.(eID) e.(eFixtureID) e.(eNaturalKey) e.(eType) e.(eDetail) e.(eTeam) e.(ePlayer)
    e.(eAssist) e.(eMinute) e.(eExtra) e.(eFirstSeenAt) e.(eDebounceCount)
    e.(eDownstreamTriggered) e.(eMonitorComplete) e.(eDownloadComplete) e.(eRemoved)
    e.(eRemovedReason) e.(eRemovedAt) e.(eCreatedAt) e.(eUpdatedAt).

Definition ComposeNaturalKey (teamID : Z) (playerID : option Z) (t : Type_) (seq : Z) : string :=
  let pid := match playerID with Some p => Itoa p | None => "unknown" end in
  Itoa teamID +:+ "_" +:+ pid +:+ "_" +:+ t +:+ "_" +:+ Itoa seq.

(** [id] is the fresh UUID. *)
Definition New (id : UUID) (fixtureID : Z) (team : Team) (player : Player) (eventType : Type_)
    (detail : APIEventDetail) (minute : Z) (extra : option Z) (seq : Z) (at_ : Time) : Event :=
  let utc := UTC at_ in
  mkEvent id fixtureID (ComposeNaturalKey team.(tID) player.(pID) eventType seq) eventType detail
    team player (mkPlayer None None) minute extra utc 0 false false false false None None utc utc.

Definition eqIntPtr (a b : option Z) : bool := bool_decide (a = b).
Definition eqStrPtr (a b : option string) : bool := bool_decide (a = b).

Definition MutableFieldsChanged (e fresh : Event) : bool :=
  negb (eqIntPtr e.(eAssist).(pID) fresh.(eAssist).(pID)) ||
  negb (eqStrPtr e.(eAssist).(pName) fresh.(eAssist).(pName)) ||
  negb (e.(eMinute) =? fresh.(eMinute)) ||
  negb (eqIntPtr e.(eExtra) fresh.(eExtra)) ||
  negb (e.(eDetail) =? fresh.(eDetail))%string.

(** ** Downstream outcomes and phases (outcome.go, phase.go) *)

Definition DownstreamOutcome := string.
Definition OutcomeSuccess : DownstreamOutcome := "success".
Definition OutcomeNoCandidates : DownstreamOutcome := "no_candidates".
Definition OutcomeEventRemoved : DownstreamOutcome := "event_removed".
Definition OutcomeStubOK : DownstreamOutcome := "stub_ok".
Definition DownstreamOutcome_Valid (o : DownstreamOutcome) : bool :=
  one_of o [OutcomeSuccess; OutcomeNoCandidates; OutcomeEventRemoved; OutcomeStubOK].

Inductive Phase := PhaseDetected | PhaseSearching | PhaseComplete | PhaseRemoved.

Definition DerivePhase (removed downstreamTriggered discoveryComplete : bool) : Phase :=
  if removed then PhaseRemoved
  else if discoveryComplete then PhaseComplete
  else if downstreamTriggered then PhaseSearching
  else PhaseDetected.

(** ** Transitions (state.go) *)

Inductive Error :=
  | ErrRemovedEvent | ErrAlreadyRemoved | ErrInvalidRemovalReason
  | ErrStateTimestampMismatch | ErrInvalidType.

Definition MarkMonitorComplete (e : Event) (at_ : Time) : Event * option Error :=
  if e.(eRemoved) then (e, Some ErrRemovedEvent)
  else if e.(eMonitorComplete) then (e, None)
  else (e <| eMonitorComplete := true |> <| eUpdatedAt := UTC at_ |>, None).

Definition MarkDownloadComplete (e : Event) (at_ : Time) : Event * option Error :=
  if e.(eRemoved) then (e, Some ErrRemovedEvent)
  else if e.(eDownloadComplete) then (e, None)
  else (e <| eDownloadComplete := true |> <| eUpdatedAt := UTC at_ |>, None).

Definition Remove (e : Event) (reason : RemovalReason) (at_ : Time) : Event * option Error :=
  if negb (RemovalReason_Valid reason) then (e, Some ErrInvalidRemovalReason)
  else if e.(eRemoved) then
    if bool_decide (e.(eRemovedReason) = Some reason) then (e, None)
    else (e, Some ErrAlreadyRemoved)
  else
    let utc := UTC at_ in
    (e <| eRemoved := true |> <| eRemovedReason := Some reason |> <| eRemovedAt := Some utc |>
       <| eUpdatedAt := utc |>, None).

Definition UpdatePlayer (e : Event) (newPlayer : Player) (at_ : Time) : Event :=
  e <| ePlayer := newPlayer |> <| eUpdatedAt := UTC at_ |>.

Definition UpdateMinute (e : Event) (minute : Z) (extra : option Z) (at_ : Time) : Event :=
  e <| eMinute := minute |> <| eExtra := extra |> <| eUpdatedAt := UTC at_ |>.

Definition ValidateInvariants (e : Event) : option Error :=
  if e.(eRemoved) && (is_nil e.(eRemovedReason) || is_nil e.(eRemovedAt))
  then Some ErrStateTimestampMismatch
  else if negb e.(eRemoved) && (not_nil e.(eRemovedReason) || not_nil e.(eRemovedAt))
  then Some ErrStateTimestampMismatch
  else if negb (Type_Valid e.(eType)) then Some ErrInvalidType
  else None.

(** ** Natural keys *)

Lemma Itoa_no_underscore n : free_of "_" (Itoa n) = true.
Proof. by apply Itoa_free_of. Qed.

Lemma Type_no_underscore t : Type_Valid t = true → free_of "_" t = true.
Proof.
  unfold Type_Valid. rewrite one_of_true. intros Ht.
  by repeat (apply elem_of_cons in Ht as [->|Ht]; [done|]); apply not_elem_of_nil in Ht.
Qed.

Lemma Itoa_not_unknown n : Itoa n ≠ "unknown".
Proof.
  intros H. assert (Atoi (Itoa n) = None) as HN by by rewrite H.
  unfold Itoa, pretty, pretty_Z in H. destruct n as [|p|p]; [done| |done].
  pose proof (digits_value_pretty_N (Npos p)) as Hv.
  change (pretty (Npos p) = "unknown") in H. by rewrite H in Hv.
Qed.

Lemma player_text_inj (p q : option Z) :
  match p with Some p => Itoa p | None => "unknown" end =
  match q with Some q => Itoa q | None => "unknown" end → p = q.
Proof.
  destruct p, q; intros H; [by apply Itoa_inj in H as ->| | |done].
  - by apply Itoa_not_unknown in H.
  - by symmetry in H; apply Itoa_not_unknown in H.
Qed.

Lemma player_text_free (p : option Z) :
  free_of "_" (match p with Some p => Itoa p | None => "unknown" end) = true.
Proof. destruct p; [apply Itoa_no_underscore|done]. Qed.

Lemma natural_key_parts t1 t2 p1 p2 y1 y2 s1 s2 :
  Type_Valid y1 = true → Type_Valid y2 = true →
  ComposeNaturalKey t1 p1 y1 s1 = ComposeNaturalKey t2 p2 y2 s2 →
  t1 = t2 ∧ p1 = p2 ∧ y1 = y2 ∧ s1 = s2.
Proof.
  intros H1%Type_no_underscore H2%Type_no_underscore. unfold ComposeNaturalKey. intros H.
  apply (cut_inj "_") in H as [Ht%Itoa_inj H]; [|apply Itoa_no_underscore..].
  apply (cut_inj "_") in H as [Hp%player_text_inj H]; [|apply player_text_free..].
  apply (cut_inj "_") in H as [Hy Hs%Itoa_inj]; done.
Qed.

(** A natural key identifies its (team, player, type, sequence): two valid
    keys are equal only when all four components are, so an unknown scorer never
    collides with a known one and a new sequence never reuses a key. *)
Theorem ComposeNaturalKey_inj t1 t2 p1 p2 y1 y2 s1 s2 :
  Type_Valid y1 = true → Type_Valid y2 = true →
  ComposeNaturalKey t1 p1 y1 s1 = ComposeNaturalKey t2 p2 y2 s2 →
  t1 = t2 ∧ p1 = p2 ∧ y1 = y2 ∧ s1 = s2.
Proof. apply natural_key_parts. Qed.

Lemma ComposeNaturalKey_inj_witness : 40 = 40 ∧ Some 9 = Some 9 ∧ TypeGoal = TypeGoal ∧ 2 = 2.
Proof. apply (ComposeNaturalKey_inj 40 40 (Some 9) (Some 9) TypeGoal TypeGoal 2 2); reflexivity. Defined.

End event.
