(* ===== verification/Identity.v ===== *)
(** internal/activity/monitor, the identity of provider events: which stored row
    each element of the provider's event array continues (event_identity.go),
    how a provider element becomes an event record (emission.go), and whether
    the reported score proves that the array is incomplete
    (score_consistency.go).

    Match minutes are two or three digit numbers and are added without
    wrap-around, as in the integrity evaluator. *)
From S2P Require Import Prelude GoStrings ApiFootball Event.
#[local] Open Scope string_scope.
#[local] Open Scope list_scope.
#[local] Open Scope Z_scope.
Import apifootball event.

Module monitor.

(** ** Provider elements (emission.go) *)

Definition trackableType (apiEv : APIFixtureEvent) : Type_ :=
  let comments := match apiEv.(EventComments) with Some c => c | None => "" end in
  match TrackableEventType apiEv.(EventType) apiEv.(EventDetail) comments with
  | Some t => t
  | None => ""
  end.

(** The fresh event and its natural key; [id] is the new UUID. *)
Definition buildDomainEvent (id : UUID) (fixtureID : Z) (apiEv : APIFixtureEvent)
    (domainType : Type_) (seq : Z) (now : Time) : option (Event * string) :=
  let teamID := apiEv.(EventTeam).(TeamID) in
  if teamID =? 0 then None
  else
    let player := mkPlayer apiEv.(EventPlayer).(PlayerRefID) apiEv.(EventPlayer).(PlayerRefName) in
    let detail := if (apiEv.(EventDetail) =? "")%string then domainType else apiEv.(EventDetail) in
    let e := New id fixtureID (mkTeam teamID apiEv.(EventTeam).(TeamName)) player domainType detail
      apiEv.(EventTime).(TimeElapsed) apiEv.(EventTime).(TimeExtra) seq now in
    let e := e <| eAssist :=
      mkPlayer apiEv.(EventAssist).(PlayerRefID) apiEv.(EventAssist).(PlayerRefName) |> in
    Some (e, e.(eNaturalKey)).

(** ** Clocks, keys and sequences (event_identity.go) *)

Definition eventIdentityClockTolerance : Z := 5.

Definition eventClockMinute (minute : Z) (extra : option Z) : Z :=
  match extra with Some e => minute + e | None => minute end.

Definition absInt (value : Z) : Z := if value <? 0 then - value else value.

(** [None] is the code's error. *)
Definition sequenceFromNaturalKey (naturalKey : string) : option Z :=
  match after_last "_" naturalKey with
  | None | Some EmptyString => None
  | Some digits =>
      match Atoi digits with
      | Some sequence => if sequence <? 1 then None else Some sequence
      | None => None
      end
  end.

Definition eventIdentityGroupKey (teamID : Z) (playerID : option Z) (domainType : Type_) : string :=
  let player := match playerID with Some p => Itoa p | None => "unknown" end in
  Itoa teamID +:+ "_" +:+ player +:+ "_" +:+ domainType.

Record storedEventSequence := mkStoredEventSequence {
  sqEvent : Event;
  sqSequence : Z }.

(** An element of the provider's array with its index. *)
Abbreviation provider := (nat * APIFixtureEvent)%type (only parsing).

Record eventSequenceGroup := mkEventSequenceGroup {
  providerIndexes : list provider;
  active : list storedEventSequence;
  maxSequence : Z;
  sequences : gset Z;
  groupTeamID : Z;
  groupType : Type_ }.

#[global] Instance eta_eventSequenceGroup : Eta eventSequenceGroup := λ g,
  mkEventSequenceGroup g.(providerIndexes) g.(active) g.(maxSequence) g.(sequences)
    g.(groupTeamID) g.(groupType).

Record eventSequenceMatch := mkEventSequenceMatch {
  emProviderIndex : nat;
  emStored : storedEventSequence }.

Record eventSequenceMatchPlan := mkEventSequenceMatchPlan {
  plMatches : list eventSequenceMatch;
  plTotalDistance : Z;
  plDetailMismatches : Z }.

Definition emptyPlan : eventSequenceMatchPlan := mkEventSequenceMatchPlan [] 0 0.

(** *** The match of one group *)

(** The element-wise comparison of two equally good plans. *)
Fixpoint leftMatchesFirst (ls rs : list eventSequenceMatch) : bool :=
  match ls, rs with
  | l :: ls, r :: rs =>
      if negb (l.(emProviderIndex) =? r.(emProviderIndex))%nat
      then (l.(emProviderIndex) <? r.(emProviderIndex))%nat
      else if negb (l.(emStored).(sqSequence) =? r.(emStored).(sqSequence))
      then l.(emStored).(sqSequence) <? r.(emStored).(sqSequence)
      else leftMatchesFirst ls rs
  | _, _ => true
  end.

Definition betterEventSequencePlan (left right : eventSequenceMatchPlan)
    : eventSequenceMatchPlan :=
  let nl := length left.(plMatches) in
  let nr := length right.(plMatches) in
  if negb (nl =? nr)%nat then (if (nr <? nl)%nat then left else right)
  else if negb (left.(plTotalDistance) =? right.(plTotalDistance))
  then (if left.(plTotalDistance) <? right.(plTotalDistance) then left else right)
  else if negb (left.(plDetailMismatches) =? right.(plDetailMismatches))
  then (if left.(plDetailMismatches) <? right.(plDetailMismatches) then left else right)
  else if leftMatchesFirst left.(plMatches) right.(plMatches) then left else right.

Definition providerClock (p : provider) : Z :=
  eventClockMinute p.2.(EventTime).(TimeElapsed) p.2.(EventTime).(TimeExtra).
Definition storedClock (s : storedEventSequence) : Z :=
  eventClockMinute s.(sqEvent).(eMinute) s.(sqEvent).(eExtra).

Definition clockDistance (p : provider) (s : storedEventSequence) : Z :=
  absInt (providerClock p - storedClock s).

Definition detailDiffers (p : provider) (s : storedEventSequence) : bool :=
  negb (p.2.(EventDetail) =? s.(sqEvent).(eDetail))%string.

(** Pairing the two heads in front of the plan [tail]. *)
Definition pairPlan (p : provider) (s : storedEventSequence) (tail : eventSequenceMatchPlan)
    : eventSequenceMatchPlan :=
  mkEventSequenceMatchPlan (mkEventSequenceMatch p.1 s :: tail.(plMatches))
    (clockDistance p s + tail.(plTotalDistance))
    (if detailDiffers p s then tail.(plDetailMismatches) + 1 else tail.(plDetailMismatches)).

(** [best] on the remaining suffixes of the two sorted slices.  The code keeps
    the plan of each pair of positions in a table, which only avoids computing
    it again. *)
Fixpoint best (clockTolerance : Z) (providers : list provider)
    : list storedEventSequence → eventSequenceMatchPlan :=
  match providers with
  | [] => λ _, emptyPlan
  | p :: providers' =>
      fix best_stored (stored : list storedEventSequence) : eventSequenceMatchPlan :=
        match stored with
        | [] => emptyPlan
        | s :: stored' =>
            let plan := betterEventSequencePlan (best clockTolerance providers' stored)
              (best_stored stored') in
            if clockDistance p s <=? clockTolerance
            then betterEventSequencePlan plan (pairPlan p s (best clockTolerance providers' stored'))
            else plan
        end
  end.

Definition providerLess (l r : provider) : bool :=
  if negb (providerClock l =? providerClock r) then providerClock l <? providerClock r
  else (l.1 <? r.1)%nat.

Definition storedLess (l r : storedEventSequence) : bool :=
  if negb (storedClock l =? storedClock r) then storedClock l <? storedClock r
  else l.(sqSequence) <? r.(sqSequence).

Definition recordMatch (assigned : gmap nat Z) (m : eventSequenceMatch) : gmap nat Z :=
  <[m.(emProviderIndex) := m.(emStored).(sqSequence)]> assigned.

Definition matchEventSequences (indexes : list provider) (stored : list storedEventSequence)
    (clockTolerance : Z) (assigned : gmap nat Z) : gmap nat Z :=
  let providers := filter (λ p, assigned !! p.1 = None) indexes in
  let plan := best clockTolerance (sort_by providerLess providers) (sort_by storedLess stored) in
  foldl recordMatch assigned plan.(plMatches).

(** *** The assignment of a response *)

Definition newGroup (teamID : Z) (domainType : Type_) : eventSequenceGroup :=
  mkEventSequenceGroup [] [] 0 ∅ teamID domainType.

Definition storedKey (e : Event) : string :=
  eventIdentityGroupKey e.(eTeam).(tID) e.(ePlayer).(pID) e.(eType).

Definition providerKey (p : provider) : string :=
  eventIdentityGroupKey p.2.(EventTeam).(TeamID) p.2.(EventPlayer).(PlayerRefID)
    (trackableType p.2).

(** The first loop: stored rows into groups. *)
Fixpoint groupStored (groups : gmap string eventSequenceGroup) (storedEvents : list Event)
    : option (gmap string eventSequenceGroup) :=
  match storedEvents with
  | [] => Some groups
  | stored :: rest =>
      match sequenceFromNaturalKey stored.(eNaturalKey) with
      | None => None
      | Some sequence =>
          let key := storedKey stored in
          let group := default (newGroup stored.(eTeam).(tID) stored.(eType)) (groups !! key) in
          if decide (sequence ∈ group.(sequences)) then None
          else
            let group := group <| sequences ::= λ s, {[sequence]} ∪ s |>
              <| maxSequence ::= λ m, if m <? sequence then sequence else m |> in
            let group := if stored.(eRemoved) then group
              else group <| active ::= λ a, a ++ [mkStoredEventSequence stored sequence] |> in
            groupStored (<[key := group]> groups) rest
      end
  end.

(** The second loop: trackable provider elements into groups. *)
Definition groupProvider (groups : gmap string eventSequenceGroup) (p : provider)
    : gmap string eventSequenceGroup :=
  let domainType := trackableType p.2 in
  if (domainType =? "")%string then groups
  else
    let key := providerKey p in
    let group := default (newGroup p.2.(EventTeam).(TeamID) domainType) (groups !! key) in
    <[key := group <| providerIndexes ::= λ l, l ++ [p] |>]> groups.

(** The elements the match left over get sequences above the group's history. *)
Fixpoint freshSequences (maxSequence : Z) (indexes : list provider) (assigned : gmap nat Z)
    : gmap nat Z :=
  match indexes with
  | [] => assigned
  | p :: indexes =>
      match assigned !! p.1 with
      | Some _ => freshSequences maxSequence indexes assigned
      | None => freshSequences (maxSequence + 1) indexes (<[p.1 := maxSequence + 1]> assigned)
      end
  end.

Definition groupTolerance (incompleteGoalTeams : gset Z) (group : eventSequenceGroup) : Z :=
  if (group.(groupType) =? TypeGoal)%string && bool_decide (group.(groupTeamID) ∈ incompleteGoalTeams)
  then 0 else eventIdentityClockTolerance.

Definition assignGroup (incompleteGoalTeams : gset Z) (assigned : gmap nat Z)
    (group : eventSequenceGroup) : gmap nat Z :=
  let assigned := matchEventSequences group.(providerIndexes) group.(active)
    (groupTolerance incompleteGoalTeams group) assigned in
  freshSequences group.(maxSequence) group.(providerIndexes) assigned.

Definition indexed (apiEvents : list APIFixtureEvent) : list provider := imap pair apiEvents.

Definition eventGroups (apiEvents : list APIFixtureEvent) (storedEvents : list Event)
    : option (gmap string eventSequenceGroup) :=
  match groupStored ∅ storedEvents with
  | None => None
  | Some groups => Some (foldl groupProvider groups (indexed apiEvents))
  end.

(** Go ranges over the groups in an unspecified order; [group_order_irrelevant] below
    shows that the order is not observable. *)
Definition assignEventSequences (apiEvents : list APIFixtureEvent) (storedEvents : list Event)
    (incompleteGoalTeams : gset Z) : option (gmap nat Z) :=
  match eventGroups apiEvents storedEvents with
  | None => None
  | Some groups =>
      Some (foldl (assignGroup incompleteGoalTeams) ∅ (snd <$> map_to_list groups))
  end.

(** ** Score and inventory (score_consistency.go) *)

Record scoreEventInventory := mkScoreEventInventory {
  reportedScore : gmap Z (option Z);
  presentGoals : gmap Z Z }.

Definition goalsOf (goals : gmap Z Z) (teamID : Z) : Z := default 0 (goals !! teamID).

Definition countGoal (goals : gmap Z Z) (e : APIFixtureEvent) : gmap Z Z :=
  if (trackableType e =? TypeGoal)%string
  then <[e.(EventTeam).(TeamID) := goalsOf goals e.(EventTeam).(TeamID) + 1]> goals
  else goals.

(** In a Go map literal with two equal keys the compiler rejects constants only;
    at run time the later entry wins. *)
Definition newScoreEventInventory (f : APIFixture) : scoreEventInventory :=
  mkScoreEventInventory
    (<[f.(Teams).(TeamsAway).(TeamID) := f.(Goals).(GoalsAway)]>
       (<[f.(Teams).(TeamsHome).(TeamID) := f.(Goals).(GoalsHome)]> ∅))
    (foldl countGoal ∅ f.(Events)).

Definition scoreRequiresMissingGoal (i : scoreEventInventory) (teamID : Z) : bool :=
  match i.(reportedScore) !! teamID with
  | Some (Some reported) => goalsOf i.(presentGoals) teamID <? reported
  | _ => false
  end.

Definition scoreEventParity (i : scoreEventInventory) (homeTeamID awayTeamID : Z) : bool :=
  match i.(reportedScore) !! homeTeamID, i.(reportedScore) !! awayTeamID with
  | Some (Some homeScore), Some (Some awayScore) =>
      if negb (homeScore =? goalsOf i.(presentGoals) homeTeamID) ||
        negb (awayScore =? goalsOf i.(presentGoals) awayTeamID)
      then false
      else map_fold (λ _ goals total, total + goals) 0 i.(presentGoals) =? homeScore + awayScore
  | _, _ => false
  end.

Definition terminalProviderScoreEventParity (i : scoreEventInventory) (status : APIStatusCode)
    (homeTeamID awayTeamID : Z) : option bool :=
  if one_of status [StatusFullTime; StatusAfterExtra; StatusPenaltyDone]
  then Some (scoreEventParity i homeTeamID awayTeamID) else None.

(** ** The match of one group is optimal *)

(** A matching as a list of pairs in increasing order on both sides. *)
#[local] Notation pairing := (list (provider * storedEventSequence)).

Record order_preserving (tolerance : Z) (ps : list provider) (ss : list storedEventSequence)
    (m : pairing) : Prop := {
  op_providers : m.*1 `sublist_of` ps;
  op_stored : m.*2 `sublist_of` ss;
  op_close : Forall (λ x, clockDistance x.1 x.2 ≤ tolerance) m }.

Definition total_distance (m : pairing) : Z :=
  foldr Z.add 0 ((λ x, clockDistance x.1 x.2) <$> m).
Definition detail_mismatches (m : pairing) : Z :=
  Z.of_nat (length (filter (λ x, detailDiffers x.1 x.2 = true) m)).

(** [plan] records the matching [m] with its two costs. *)
Definition records (plan : eventSequenceMatchPlan) (m : pairing) : Prop :=
  plan.(plMatches) = (λ x, mkEventSequenceMatch x.1.1 x.2) <$> m ∧
  plan.(plTotalDistance) = total_distance m ∧
  plan.(plDetailMismatches) = detail_mismatches m.

(** More pairs first, then less clock correction, then fewer changed details. *)
Definition at_least (n : nat) (c d : Z) (n' : nat) (c' d' : Z) : Prop :=
  (n' < n)%nat ∨ (n = n' ∧ (c < c' ∨ (c = c' ∧ d ≤ d'))).

Definition as_good (l r : eventSequenceMatchPlan) : Prop :=
  at_least (length l.(plMatches)) l.(plTotalDistance) l.(plDetailMismatches)
    (length r.(plMatches)) r.(plTotalDistance) r.(plDetailMismatches).

Lemma as_good_refl l : as_good l l.
Proof. unfold as_good, at_least. lia. Qed.

Lemma as_good_trans l m r : as_good l m → as_good m r → as_good l r.
Proof. unfold as_good, at_least. lia. Qed.

Lemma better_cases l r :
  betterEventSequencePlan l r = l ∧ as_good l r ∨ betterEventSequencePlan l r = r ∧ as_good r l.
Proof.
  unfold betterEventSequencePlan, as_good, at_least.
  destruct (Nat.eqb_spec (length (plMatches l)) (length (plMatches r))) as [E|N]; simpl.
  2: { destruct (Nat.ltb_spec (length (plMatches r)) (length (plMatches l))); [left|right];
         split; done || lia. }
  destruct (Z.eqb_spec (plTotalDistance l) (plTotalDistance r)); simpl.
  2: { destruct (Z.ltb_spec (plTotalDistance l) (plTotalDistance r)); [left|right];
         split; done || lia. }
  destruct (Z.eqb_spec (plDetailMismatches l) (plDetailMismatches r)); simpl.
  2: { destruct (Z.ltb_spec (plDetailMismatches l) (plDetailMismatches r)); [left|right];
         split; done || lia. }
  destruct (leftMatchesFirst _ _); [left|right]; split; done || lia.
Qed.

Lemma better_as_good l r :
  as_good (betterEventSequencePlan l r) l ∧ as_good (betterEventSequencePlan l r) r.
Proof. destruct (better_cases l r) as [[-> ?]|[-> ?]]; split; done || apply as_good_refl. Qed.

Lemma best_cons tol p ps s ss :
  best tol (p :: ps) (s :: ss) =
  (let plan := betterEventSequencePlan (best tol ps (s :: ss)) (best tol (p :: ps) ss) in
   if clockDistance p s <=? tol
   then betterEventSequencePlan plan (pairPlan p s (best tol ps ss)) else plan).
Proof. reflexivity. Qed.

Lemma best_nil_r tol ps : best tol ps [] = emptyPlan.
Proof. by destruct ps. Qed.

(** Both sides of a step of the dynamic program. *)
Lemma best_ind_lists (P : list provider → list storedEventSequence → Prop) :
  (∀ ss, P [] ss) → (∀ ps, P ps []) →
  (∀ p ps s ss, P ps (s :: ss) → P (p :: ps) ss → P ps ss → P (p :: ps) (s :: ss)) →
  ∀ ps ss, P ps ss.
Proof.
  intros H1 H2 H3 ps. induction ps as [|p ps IHp]; intros ss; [apply H1|].
  induction ss as [|s ss IHs]; [apply H2|]. by apply H3.
Qed.

Lemma detail_mismatches_cons p s m :
  detail_mismatches ((p, s) :: m) =
  if detailDiffers p s then detail_mismatches m + 1 else detail_mismatches m.
Proof.
  unfold detail_mismatches. rewrite filter_cons. cbn [fst snd].
  destruct (detailDiffers p s); [rewrite decide_True by done|rewrite decide_False by done];
    [cbn [length]; lia|done].
Qed.

Lemma total_distance_cons p s m :
  total_distance ((p, s) :: m) = clockDistance p s + total_distance m.
Proof. done. Qed.

Lemma records_pair p s plan m :
  records plan m → records (pairPlan p s plan) ((p, s) :: m).
Proof.
  intros (H1 & H2 & H3). unfold records, pairPlan.
  rewrite detail_mismatches_cons, total_distance_cons. simpl. by rewrite H1, H2, H3.
Qed.

Lemma better_pick (P : eventSequenceMatchPlan → Prop) l r :
  P l → P r → P (betterEventSequencePlan l r).
Proof. by destruct (better_cases l r) as [[-> _]|[-> _]]. Qed.

Lemma order_preserving_weaken tol ps ss ps' ss' m :
  ps `sublist_of` ps' → ss `sublist_of` ss' →
  order_preserving tol ps ss m → order_preserving tol ps' ss' m.
Proof. intros Hp Hs [H1 H2 H3]. split; [by etrans|by etrans|done]. Qed.

Lemma best_sound tol ps ss :
  ∃ m, order_preserving tol ps ss m ∧ records (best tol ps ss) m.
Proof.
  revert ps ss. apply best_ind_lists.
  - intros ss. exists []. split; [split; simpl; by constructor || apply sublist_nil_l|done].
  - intros ps. rewrite best_nil_r. exists [].
    split; [split; simpl; by constructor || apply sublist_nil_l|done].
  - intros p ps s ss (m1 & V1 & R1) (m2 & V2 & R2) (m3 & V3 & R3). rewrite best_cons. cbn zeta.
    assert (∃ m, order_preserving tol (p :: ps) (s :: ss) m ∧
      records (betterEventSequencePlan (best tol ps (s :: ss)) (best tol (p :: ps) ss)) m) as HP.
    { apply (better_pick (λ plan, ∃ m, order_preserving tol (p :: ps) (s :: ss) m ∧ records plan m)).
      - exists m1. split; [|done]. by eapply order_preserving_weaken; [apply sublist_cons| |exact V1].
      - exists m2. split; [|done]. by eapply order_preserving_weaken; [|apply sublist_cons|exact V2]. }
    destruct (Z.leb_spec (clockDistance p s) tol) as [Hd|_]; [|done].
    apply (better_pick (λ plan, ∃ m, order_preserving tol (p :: ps) (s :: ss) m ∧ records plan m));
      [done|].
    exists ((p, s) :: m3). split; [|by apply records_pair].
    destruct V3 as [A B C]. split; simpl; [by apply sublist_skip|by apply sublist_skip|by constructor].
Qed.

(** The plan is as good as the matching [m]. *)
Definition beats (plan : eventSequenceMatchPlan) (m : pairing) : Prop :=
  at_least (length plan.(plMatches)) plan.(plTotalDistance) plan.(plDetailMismatches)
    (length m) (total_distance m) (detail_mismatches m).

Lemma as_good_beats l r m : as_good l r → beats r m → beats l m.
Proof. unfold as_good, beats, at_least. lia. Qed.

Lemma beats_pair p s plan m : beats plan m → beats (pairPlan p s plan) ((p, s) :: m).
Proof.
  unfold beats, at_least, pairPlan. rewrite detail_mismatches_cons, total_distance_cons. simpl.
  destruct (detailDiffers p s); lia.
Qed.

Lemma beats_nil plan ps ss tol m :
  order_preserving tol ps ss m → records plan m → beats plan [].
Proof.
  intros [_ _ _] (H1 & H2 & H3). unfold beats, at_least. rewrite H1, H2, H3, length_fmap.
  destruct m; simpl; [right|left; lia]. unfold detail_mismatches. simpl. lia.
Qed.

Lemma beats_empty : beats emptyPlan [].
Proof. right. split; [done|]. right. by split. Qed.

Lemma best_beats tol ps ss m : order_preserving tol ps ss m → beats (best tol ps ss) m.
Proof.
  revert ps ss m. apply (best_ind_lists (λ ps ss, ∀ m, _ → _)).
  - intros ss m [H _ _]. apply sublist_nil_r in H. destruct m; [|done]. apply beats_empty.
  - intros ps m [_ H _]. apply sublist_nil_r in H. destruct m; [|done]. rewrite best_nil_r.
    apply beats_empty.
  - intros p ps s ss IH1 IH2 IH3 m V.
    assert (as_good (best tol (p :: ps) (s :: ss)) (best tol ps (s :: ss)) ∧
      as_good (best tol (p :: ps) (s :: ss)) (best tol (p :: ps) ss) ∧
      (clockDistance p s ≤ tol →
       as_good (best tol (p :: ps) (s :: ss)) (pairPlan p s (best tol ps ss)))) as (G1 & G2 & G3).
    { rewrite best_cons. cbn zeta.
      pose proof (better_as_good (best tol ps (s :: ss)) (best tol (p :: ps) ss)) as [A B].
      destruct (Z.leb_spec (clockDistance p s) tol); [|split; [done|split; [done|intros; exfalso; lia]]].
      set (plan := betterEventSequencePlan _ _) in *.
      pose proof (better_as_good plan (pairPlan p s (best tol ps ss))) as [C D].
      split; [exact (as_good_trans _ _ _ C A)|split; [exact (as_good_trans _ _ _ C B)|by intros _]]. }
    destruct m as [|[a b] m].
    { destruct (best_sound tol (p :: ps) (s :: ss)) as (m' & V' & R). by eapply beats_nil. }
    destruct V as [V1 V2 V3]. simpl in V1, V2. inversion V1 as [|? ? ? Hp|? ? ? Hp]; simplify_eq.
    2: { eapply as_good_beats; [exact G1|]. by apply IH1. }
    inversion V2 as [|? ? ? Hs|? ? ? Hs]; simplify_eq.
    2: { eapply as_good_beats; [exact G2|]. apply IH2. by split; [apply sublist_skip| |]. }
    apply Forall_cons in V3 as [Hd V3]. eapply as_good_beats; [by apply G3|].
    apply beats_pair, IH3. by split.
Qed.

(** ** The assignment of one group *)

Definition inMatches (ms : list eventSequenceMatch) : list nat := emProviderIndex <$> ms.

Lemma recordMatch_other ms M i :
  i ∉ inMatches ms → foldl recordMatch M ms !! i = M !! i.
Proof.
  revert M. induction ms as [|m ms IH]; intros M Hi; [done|].
  apply not_elem_of_cons in Hi as [Hm Hi]. simpl. rewrite IH by done.
  by apply lookup_insert_ne.
Qed.

Lemma recordMatch_in ms M m :
  NoDup (inMatches ms) → m ∈ ms →
  foldl recordMatch M ms !! m.(emProviderIndex) = Some m.(emStored).(sqSequence).
Proof.
  revert M. induction ms as [|m' ms IH]; intros M; [by intros _ ?%elem_of_nil|].
  intros [Hn Hd]%NoDup_cons [->|Hm]%elem_of_cons; simpl; [|by apply IH].
  rewrite recordMatch_other by done. apply lookup_insert_eq.
Qed.

(** What the fresh sequences of a group look like over the assignment [A]. *)
Lemma freshSequences_old n ps A i v :
  A !! i = Some v → freshSequences n ps A !! i = Some v.
Proof.
  revert n A. induction ps as [|p ps IH]; intros n A H; [done|]. simpl.
  destruct (A !! p.1) eqn:E; [by apply IH|]. apply IH.
  by rewrite lookup_insert_ne by congruence.
Qed.

Lemma freshSequences_other n ps A i :
  i ∉ ps.*1 → freshSequences n ps A !! i = A !! i.
Proof.
  revert n A. induction ps as [|p ps IH]; intros n A Hi; [done|].
  apply not_elem_of_cons in Hi as [Hp Hi]. simpl.
  destruct (A !! p.1); rewrite IH by done; [done|]. by apply lookup_insert_ne.
Qed.

Lemma freshSequences_total n ps A i : i ∈ ps.*1 → is_Some (freshSequences n ps A !! i).
Proof.
  revert n A. induction ps as [|p ps IH]; intros n A; [by intros ?%elem_of_nil|].
  simpl. intros [->|Hi]%elem_of_cons.
  - destruct (A !! p.1) as [v|] eqn:E; [exists v; by apply freshSequences_old|].
    exists (n + 1). apply freshSequences_old, lookup_insert_eq.
  - destruct (A !! p.1); by apply IH.
Qed.

Lemma freshSequences_new n ps A i v :
  freshSequences n ps A !! i = Some v → A !! i = None → n < v.
Proof.
  revert n A. induction ps as [|p ps IH]; intros n A H HA; simpl in H; [congruence|].
  destruct (A !! p.1) as [w|] eqn:E; [by eapply IH|].
  destruct (decide (i = p.1)) as [->|Hi].
  - rewrite (freshSequences_old _ _ _ _ (n + 1)) in H by apply lookup_insert_eq.
    simplify_eq. lia.
  - assert (n + 1 < v); [|lia]. eapply IH; [exact H|]. by rewrite lookup_insert_ne.
Qed.

Lemma freshSequences_inj n ps A i j v :
  freshSequences n ps A !! i = Some v → freshSequences n ps A !! j = Some v →
  A !! i = None → A !! j = None → i = j.
Proof.
  revert n A. induction ps as [|p ps IH]; intros n A Hi Hj HAi HAj; simpl in Hi, Hj; [congruence|].
  destruct (A !! p.1) as [w|] eqn:E; [by eapply IH|].
  assert (∀ k, freshSequences (n + 1) ps (<[p.1:=n + 1]> A) !! k = Some v → A !! k = None →
    k = p.1 ∧ v = n + 1 ∨ k ≠ p.1 ∧ n + 1 < v ∧ <[p.1:=n + 1]> A !! k = None) as Hk.
  { intros k Hv HA. destruct (decide (k = p.1)) as [->|Hn].
    - left. rewrite (freshSequences_old _ _ _ _ (n + 1)) in Hv by apply lookup_insert_eq.
      by simplify_eq.
    - right. rewrite lookup_insert_ne by done. split; [done|]. split; [|done].
      eapply freshSequences_new; [exact Hv|]. by rewrite lookup_insert_ne. }
  destruct (Hk i Hi HAi) as [(-> & ?)|(Hni & ? & HBi)],
    (Hk j Hj HAj) as [(-> & ?)|(Hnj & ? & HBj)]; try done; try lia.
  by apply (IH (n + 1) (<[p.1:=n + 1]> A)).
Qed.

Lemma freshSequences_agree n ps A B :
  (∀ i, i ∈ ps.*1 → A !! i = B !! i) →
  ∀ i, i ∈ ps.*1 → freshSequences n ps A !! i = freshSequences n ps B !! i.
Proof.
  revert n A B. induction ps as [|p ps IH]; intros n A B H i; [by intros ?%elem_of_nil|].
  intros Hi. cbn [freshSequences]. rewrite <-(H p.1) by left.
  destruct (decide (i ∈ ps.*1)) as [Hin|Hout].
  - destruct (A !! p.1); (apply IH; [|done]); intros j Hj; [by apply H; right|].
    destruct (decide (p.1 = j)) as [->|]; [by rewrite !lookup_insert_eq|].
    rewrite !lookup_insert_ne by done. apply H. by right.
  - apply elem_of_cons in Hi as [->|Hi]; [|done].
    pose proof (H p.1 (list_elem_of_here _ _)) as Hp.
    destruct (A !! p.1) as [w|] eqn:E; rewrite !freshSequences_other by done; [congruence|].
    by rewrite !lookup_insert_eq.
Qed.

(** A group whose provider elements are distinct and whose active rows have
    distinct sequences below its history. *)
Record group_wf (g : eventSequenceGroup) : Prop := {
  gw_indexes : NoDup g.(providerIndexes).*1;
  gw_active : NoDup (sqSequence <$> g.(active));
  gw_max : ∀ r, r ∈ g.(active) → r.(sqSequence) ≤ g.(maxSequence) }.

Definition unassigned (M : gmap nat Z) (ps : list provider) : Prop :=
  ∀ i, i ∈ ps.*1 → M !! i = None.

(** The plan the code computes for a group. *)
Definition groupPlan (incomplete : gset Z) (g : eventSequenceGroup) : eventSequenceMatchPlan :=
  best (groupTolerance incomplete g) (sort_by providerLess g.(providerIndexes))
    (sort_by storedLess g.(active)).

Lemma matchEventSequences_unassigned inc g M :
  unassigned M g.(providerIndexes) →
  matchEventSequences g.(providerIndexes) g.(active) (groupTolerance inc g) M =
  foldl recordMatch M (groupPlan inc g).(plMatches).
Proof.
  intros H. unfold matchEventSequences, groupPlan. rewrite filter_all; [done|].
  apply Forall_forall. intros p Hp. by apply H, list_elem_of_fmap_2.
Qed.

(** The pairs behind the matches of a group. *)
Lemma groupPlan_pairs inc g :
  ∃ m, (groupPlan inc g).(plMatches) = (λ x, mkEventSequenceMatch x.1.1 x.2) <$> m ∧
    (∀ p r, (p, r) ∈ m → p ∈ g.(providerIndexes) ∧ r ∈ g.(active) ∧
       clockDistance p r ≤ groupTolerance inc g) ∧
    (group_wf g → NoDup (inMatches (groupPlan inc g).(plMatches)) ∧
       NoDup ((λ m, m.(emStored).(sqSequence)) <$> (groupPlan inc g).(plMatches))).
Proof.
  destruct (best_sound (groupTolerance inc g) (sort_by providerLess g.(providerIndexes))
    (sort_by storedLess g.(active))) as (m & [V1 V2 V3] & R & _).
  fold (groupPlan inc g) in R. exists m. split; [done|]. split.
  - intros p r Hm. split; [|split].
    + apply (elem_of_sort_by providerLess). eapply elem_of_sublist; [|exact V1].
      by apply (list_elem_of_fmap_2 fst m (p, r)).
    + apply (elem_of_sort_by storedLess). eapply elem_of_sublist; [|exact V2].
      by apply (list_elem_of_fmap_2 snd m (p, r)).
    + rewrite Forall_forall in V3. by apply (V3 (p, r)).
  - intros [W1 W2 _]. unfold inMatches. rewrite R, <-!list_fmap_compose. split.
    + change (NoDup (fst ∘ fst <$> m)).
      rewrite (list_fmap_compose fst fst m). eapply sublist_NoDup; [|by apply fmap_sublist].
      by rewrite sort_by_perm.
    + change (NoDup (sqSequence ∘ snd <$> m)).
      rewrite (list_fmap_compose snd sqSequence m). eapply sublist_NoDup; [|by apply fmap_sublist].
      by rewrite sort_by_perm.
Qed.

Lemma NoDup_fst_inj {A B} (l : list (A * B)) x y : NoDup l.*1 → x ∈ l → y ∈ l → x.1 = y.1 → x = y.
Proof. apply (NoDup_fmap_inj fst). Qed.

Section one_group.
Context (inc : gset Z) (g : eventSequenceGroup) (wf : group_wf g).
Context (M : gmap nat Z) (un : unassigned M g.(providerIndexes)).

(** The assignment between the match and the fresh sequences. *)
Let A := foldl recordMatch M (groupPlan inc g).(plMatches).

Lemma assignGroup_unfold :
  assignGroup inc M g = freshSequences g.(maxSequence) g.(providerIndexes) A.
Proof. unfold assignGroup. by rewrite matchEventSequences_unassigned. Qed.

Lemma matched_in i : i ∈ inMatches (groupPlan inc g).(plMatches) → i ∈ g.(providerIndexes).*1.
Proof.
  destruct (groupPlan_pairs inc g) as (m & R & Hm & _). unfold inMatches. rewrite R.
  intros (x & -> & Hx)%list_elem_of_fmap. apply list_elem_of_fmap in Hx as ([p r] & -> & Hx).
  destruct (Hm p r Hx) as (Hp & _). by apply (list_elem_of_fmap_2 fst).
Qed.

(** A matched element carries the sequence of its active row. *)
Lemma matched_lookup i v :
  i ∈ g.(providerIndexes).*1 → A !! i = Some v →
  ∃ p r, p ∈ g.(providerIndexes) ∧ p.1 = i ∧ r ∈ g.(active) ∧ r.(sqSequence) = v ∧
    clockDistance p r ≤ groupTolerance inc g.
Proof.
  intros Hi HA. destruct (groupPlan_pairs inc g) as (m & R & Hm & Hn). destruct (Hn wf) as [Hn1 _].
  destruct (decide (i ∈ inMatches (groupPlan inc g).(plMatches))) as [Hin|Hout].
  - apply list_elem_of_fmap in Hin as (x & -> & Hx). subst A.
    rewrite (recordMatch_in _ _ _ Hn1 Hx) in HA. rewrite R in Hx.
    apply list_elem_of_fmap in Hx as ([p r] & -> & Hx). simpl in *. simplify_eq.
    destruct (Hm p r Hx) as (? & ? & ?). by exists p, r.
  - subst A. rewrite recordMatch_other in HA by done. by rewrite un in HA.
Qed.

Lemma matched_inj i j v :
  i ∈ g.(providerIndexes).*1 → j ∈ g.(providerIndexes).*1 →
  A !! i = Some v → A !! j = Some v → i = j.
Proof.
  intros Hi Hj HAi HAj. destruct (groupPlan_pairs inc g) as (m & R & Hm & Hn).
  destruct (Hn wf) as [Hn1 Hn2].
  assert (∀ k, k ∈ g.(providerIndexes).*1 → A !! k = Some v →
    ∃ x, x ∈ (groupPlan inc g).(plMatches) ∧ x.(emProviderIndex) = k ∧
      x.(emStored).(sqSequence) = v) as Hk.
  { intros k Hk HA. destruct (decide (k ∈ inMatches (groupPlan inc g).(plMatches))) as [Hin|Hout].
    - apply list_elem_of_fmap in Hin as (x & -> & Hx). subst A.
      rewrite (recordMatch_in _ _ _ Hn1 Hx) in HA. simplify_eq. by exists x.
    - subst A. rewrite recordMatch_other in HA by done. by rewrite un in HA. }
  destruct (Hk i Hi HAi) as (x & Hx & <- & Hxv), (Hk j Hj HAj) as (y & Hy & <- & Hyv).
  f_equal. by eapply (NoDup_fmap_inj _ _ _ _ Hn2); [done..|congruence].
Qed.

Lemma assignGroup_other i : i ∉ g.(providerIndexes).*1 → assignGroup inc M g !! i = M !! i.
Proof.
  intros Hi. rewrite assignGroup_unfold, freshSequences_other by done. subst A.
  apply recordMatch_other. by intros ?%matched_in.
Qed.

Lemma assignGroup_total i : i ∈ g.(providerIndexes).*1 → is_Some (assignGroup inc M g !! i).
Proof. rewrite assignGroup_unfold. apply freshSequences_total. Qed.

Lemma assignGroup_value p v :
  p ∈ g.(providerIndexes) → assignGroup inc M g !! p.1 = Some v →
  (∃ r, r ∈ g.(active) ∧ r.(sqSequence) = v ∧ clockDistance p r ≤ groupTolerance inc g) ∨
  g.(maxSequence) < v.
Proof.
  intros Hp Hv. rewrite assignGroup_unfold in Hv. assert (p.1 ∈ g.(providerIndexes).*1) as Hp1
    by by apply (list_elem_of_fmap_2 fst).
  destruct (A !! p.1) as [w|] eqn:E; [left|right; by eapply freshSequences_new].
  rewrite (freshSequences_old _ _ _ _ _ E) in Hv. simplify_eq.
  destruct (matched_lookup _ _ Hp1 E) as (q & r & Hq & Hqp & ? & ? & Hd).
  assert (q = p) as -> by by eapply NoDup_fst_inj; [apply (gw_indexes g wf)| | |].
  by exists r.
Qed.

Lemma assignGroup_inj i j v :
  i ∈ g.(providerIndexes).*1 → j ∈ g.(providerIndexes).*1 →
  assignGroup inc M g !! i = Some v → assignGroup inc M g !! j = Some v → i = j.
Proof.
  intros Hi Hj. rewrite assignGroup_unfold. intros HRi HRj.
  assert (∀ k w, k ∈ g.(providerIndexes).*1 → A !! k = Some w → w ≤ g.(maxSequence)) as Hmax.
  { intros k w Hk HA. destruct (matched_lookup _ _ Hk HA) as (? & r & _ & _ & Hr & <- & _).
    by apply (gw_max g wf). }
  destruct (A !! i) as [wi|] eqn:Ei, (A !! j) as [wj|] eqn:Ej.
  - rewrite (freshSequences_old _ _ _ _ _ Ei) in HRi.
    rewrite (freshSequences_old _ _ _ _ _ Ej) in HRj. simplify_eq. by eapply matched_inj.
  - rewrite (freshSequences_old _ _ _ _ _ Ei) in HRi. simplify_eq.
    pose proof (freshSequences_new _ _ _ _ _ HRj Ej). pose proof (Hmax _ _ Hi Ei). lia.
  - rewrite (freshSequences_old _ _ _ _ _ Ej) in HRj. simplify_eq.
    pose proof (freshSequences_new _ _ _ _ _ HRi Ei). pose proof (Hmax _ _ Hj Ej). lia.
  - by eapply freshSequences_inj.
Qed.
End one_group.

(** The result on the group's own elements does not depend on what was assigned
    before. *)
Lemma assignGroup_local inc g M i :
  group_wf g → unassigned M g.(providerIndexes) → i ∈ g.(providerIndexes).*1 →
  assignGroup inc M g !! i = assignGroup inc ∅ g !! i.
Proof.
  intros wf un Hi. rewrite !assignGroup_unfold by done.
  apply freshSequences_agree; [|done]. intros j Hj.
  destruct (groupPlan_pairs inc g) as (m & R & _ & Hn). destruct (Hn wf) as [Hn1 _].
  destruct (decide (j ∈ inMatches (groupPlan inc g).(plMatches))) as [Hin|Hout].
  - apply list_elem_of_fmap in Hin as (x & -> & Hx). by rewrite !(recordMatch_in _ _ _ Hn1 Hx).
  - rewrite !recordMatch_other by done. by rewrite un.
Qed.

(** ** All groups, in any order *)

(** Every element belongs to the group of its key. *)
Definition owned (own : nat → option string) (kg : string * eventSequenceGroup) : Prop :=
  group_wf kg.2 ∧ ∀ i, i ∈ kg.2.(providerIndexes).*1 → own i = Some kg.1.

Lemma fold_groups_other inc (l : list (string * eventSequenceGroup)) M i own :
  Forall (owned own) l → NoDup l.*1 →
  (∀ kg, kg ∈ l → unassigned M kg.2.(providerIndexes)) →
  (∀ kg, kg ∈ l → i ∉ kg.2.(providerIndexes).*1) →
  foldl (assignGroup inc) M l.*2 !! i = M !! i.
Proof.
  revert M. induction l as [|kg l IH]; intros M HO HN HU Hi; [done|].
  apply Forall_cons in HO as [[wf Hk] HO]. apply NoDup_cons in HN as [HkN HN]. cbn [fmap list_fmap foldl].
  rewrite IH; [|done|done| |].
  - apply assignGroup_other; [by apply HU; left|by apply Hi; left].
  - intros kg' Hkg' j Hj. rewrite assignGroup_other; [by apply (HU kg'); [right|]|by apply HU; left|].
    intros Hj'. rewrite Forall_forall in HO. destruct (HO kg' Hkg') as [_ Hk'].
    apply HkN. pose proof (Hk j Hj'). pose proof (Hk' j Hj).
    assert (kg.1 = kg'.1) as -> by congruence. by apply (list_elem_of_fmap_2 fst).
  - intros kg' Hkg'. apply Hi. by right.
Qed.

Lemma fold_groups_lookup inc (l : list (string * eventSequenceGroup)) M kg i own :
  Forall (owned own) l → NoDup l.*1 →
  (∀ kg, kg ∈ l → unassigned M kg.2.(providerIndexes)) →
  kg ∈ l → i ∈ kg.2.(providerIndexes).*1 →
  foldl (assignGroup inc) M l.*2 !! i = assignGroup inc ∅ kg.2 !! i.
Proof.
  revert M. induction l as [|kg' l IH]; intros M HO HN HU Hkg Hi; [by apply elem_of_nil in Hkg|].
  apply Forall_cons in HO as [[wf Hk] HO]. apply NoDup_cons in HN as [HkN HN].
  cbn [fmap list_fmap foldl].
  assert (∀ kg2, kg2 ∈ l → ∀ j, j ∈ kg'.2.(providerIndexes).*1 →
    j ∉ kg2.2.(providerIndexes).*1) as Hdis.
  { intros kg2 Hkg2 j Hj Hj2. rewrite Forall_forall in HO. destruct (HO kg2 Hkg2) as [_ Hk2].
    apply HkN. pose proof (Hk j Hj). pose proof (Hk2 j Hj2).
    assert (kg'.1 = kg2.1) as -> by congruence. by apply (list_elem_of_fmap_2 fst). }
  assert (∀ kg2, kg2 ∈ l → unassigned (assignGroup inc M kg'.2) kg2.2.(providerIndexes)) as HU'.
  { intros kg2 Hkg2 j Hj. rewrite assignGroup_other; [by apply (HU kg2); [right|]|by apply HU; left|].
    intros Hj'. by eapply Hdis. }
  apply elem_of_cons in Hkg as [->|Hkg]; [|by apply IH].
  rewrite (fold_groups_other inc l _ i own); [|done|done|done|].
  - apply assignGroup_local; [done|by apply HU; left|done].
  - intros kg2 Hkg2. by apply Hdis.
Qed.

(** ** Keys *)

Lemma group_key_inj t1 p1 y1 t2 p2 y2 :
  eventIdentityGroupKey t1 p1 y1 = eventIdentityGroupKey t2 p2 y2 → t1 = t2 ∧ p1 = p2 ∧ y1 = y2.
Proof.
  unfold eventIdentityGroupKey. intros H.
  apply (cut_inj "_") in H as [Ht%Itoa_inj H]; [|apply Itoa_no_underscore..].
  by apply (cut_inj "_") in H as [Hp%player_text_inj Hy]; [|apply player_text_free..].
Qed.

Lemma after_last_prepend c s t r : after_last c t = Some r → after_last c (s +:+ t) = Some r.
Proof.
  intros H. induction s as [|d s IH]; [done|].
  change ((String d s) +:+ t) with (String d (s +:+ t)). simpl. by rewrite IH.
Qed.

Lemma after_last_natural_key t p y s :
  after_last "_" (ComposeNaturalKey t p y s) = Some (Itoa s).
Proof.
  unfold ComposeNaturalKey. do 5 apply after_last_prepend.
  apply (after_last_app "_" "" (Itoa s)), Itoa_no_underscore.
Qed.

Lemma Itoa_not_empty n : Itoa n ≠ "".
Proof.
  unfold Itoa, pretty, pretty_Z. destruct n as [|p|p]; [done| |done].
  apply (pretty_N_not_nil (Npos p)).
Qed.

Lemma sequence_of_natural_key t p y s :
  1 ≤ s → fits64 s → sequenceFromNaturalKey (ComposeNaturalKey t p y s) = Some s.
Proof.
  intros Hs Hf. unfold sequenceFromNaturalKey. rewrite after_last_natural_key.
  pose proof (Itoa_not_empty s). destruct (Itoa s) eqn:E; [done|]. rewrite <-E, Atoi_Itoa by done.
  by rewrite (proj2 (Z.ltb_ge s 1)) by lia.
Qed.

(** ** The groups of stored rows *)

Definition storedSequence (e : Event) : option Z := sequenceFromNaturalKey e.(eNaturalKey).

(** The group of key [k] after the rows [rows]. *)
Record group_of (k : string) (rows : list Event) (g : eventSequenceGroup) : Prop := {
  gf_scope : ∃ pid, k = eventIdentityGroupKey g.(groupTeamID) pid g.(groupType);
  gf_active : ∀ r, r ∈ g.(active) → r.(sqEvent) ∈ rows ∧ r.(sqEvent).(eRemoved) = false ∧
    storedKey r.(sqEvent) = k ∧ storedSequence r.(sqEvent) = Some r.(sqSequence) ∧
    r.(sqSequence) ∈ g.(sequences);
  gf_distinct : NoDup (sqSequence <$> g.(active));
  gf_max : ∀ q, q ∈ g.(sequences) → q ≤ g.(maxSequence);
  gf_rows : ∀ e, e ∈ rows → storedKey e = k →
    ∃ q, storedSequence e = Some q ∧ q ∈ g.(sequences) ∧
      (∀ r, r ∈ g.(active) → r.(sqSequence) = q → r.(sqEvent) = e) }.

Definition groups_of (rows : list Event) (groups : gmap string eventSequenceGroup) : Prop :=
  (∀ k g, groups !! k = Some g → group_of k rows g) ∧
  (∀ e, e ∈ rows → is_Some (groups !! storedKey e)).

Lemma newGroup_of k rows t y :
  (∃ pid, k = eventIdentityGroupKey t pid y) → (∀ e, e ∈ rows → storedKey e ≠ k) →
  group_of k rows (newGroup t y).
Proof.
  intros Hk Hr. split; simpl.
  - done.
  - by intros r ?%elem_of_nil.
  - constructor.
  - intros q Hq. by apply elem_of_empty in Hq.
  - intros e He Hek. by destruct (Hr e He).
Qed.

Lemma default_group_of groups rows k t y :
  groups_of rows groups → (∃ pid, k = eventIdentityGroupKey t pid y) →
  group_of k rows (default (newGroup t y) (groups !! k)).
Proof.
  intros [H1 H2] Hk. destruct (groups !! k) as [g|] eqn:E; [by apply H1|].
  apply newGroup_of; [done|]. intros e He <-. destruct (H2 e He) as [g Hg]. congruence.
Qed.

Lemma group_of_other k rows e g :
  group_of k rows g → storedKey e ≠ k → group_of k (rows ++ [e]) g.
Proof.
  intros [A B C D E] He. split; try done.
  - intros r Hr. destruct (B r Hr) as (? & ? & ? & ? & ?). split; [apply elem_of_app; by left|done].
  - intros e' [He'|He'%list_elem_of_singleton]%elem_of_app Hk; [by apply E|by subst].
Qed.

(** The update of a group by one more row. *)
Definition addStored (e : Event) (q : Z) (g : eventSequenceGroup) : eventSequenceGroup :=
  let g := g <| sequences ::= λ s, {[q]} ∪ s |>
    <| maxSequence ::= λ m, if m <? q then q else m |> in
  if e.(eRemoved) then g
  else g <| active ::= λ a, a ++ [mkStoredEventSequence e q] |>.

Lemma addStored_sequences e q g : (addStored e q g).(sequences) = {[q]} ∪ g.(sequences).
Proof. unfold addStored. by destruct (eRemoved e). Qed.

Lemma addStored_max e q g :
  (addStored e q g).(maxSequence) = if g.(maxSequence) <? q then q else g.(maxSequence).
Proof. unfold addStored. by destruct (eRemoved e). Qed.

Lemma addStored_active e q g :
  (addStored e q g).(active) =
  if e.(eRemoved) then g.(active) else g.(active) ++ [mkStoredEventSequence e q].
Proof. unfold addStored. by destruct (eRemoved e). Qed.

Lemma addStored_other e q g :
  (addStored e q g).(providerIndexes) = g.(providerIndexes) ∧
  (addStored e q g).(groupTeamID) = g.(groupTeamID) ∧ (addStored e q g).(groupType) = g.(groupType).
Proof. unfold addStored. by destruct (eRemoved e). Qed.

Lemma elem_of_addStored_active e q g r :
  r ∈ (addStored e q g).(active) →
  r ∈ g.(active) ∨ (e.(eRemoved) = false ∧ r = mkStoredEventSequence e q).
Proof.
  rewrite addStored_active. destruct (eRemoved e); [by left|].
  intros [H| ->%list_elem_of_singleton]%elem_of_app; [by left|by right].
Qed.

Lemma addStored_of k rows e q g :
  group_of k rows g → storedKey e = k → storedSequence e = Some q → q ∉ g.(sequences) →
  group_of k (rows ++ [e]) (addStored e q g).
Proof.
  intros [A B C D E] Hk Hq Hn. destruct (addStored_other e q g) as (_ & T1 & T2). split.
  - by rewrite T1, T2.
  - intros r [Hr|[Hr ->]]%elem_of_addStored_active; rewrite addStored_sequences, elem_of_app.
    + destruct (B r Hr) as (? & ? & ? & ? & ?). set_solver.
    + simpl. split; [right; by apply list_elem_of_singleton|set_solver].
  - rewrite addStored_active. destruct (eRemoved e); [done|].
    rewrite fmap_app. apply NoDup_app. split; [done|]. split; [|apply NoDup_singleton].
    intros x (r & -> & Hr)%list_elem_of_fmap Hx%list_elem_of_singleton. simpl in Hx.
    destruct (B r Hr) as (_ & _ & _ & _ & Hs). congruence.
  - rewrite addStored_sequences, addStored_max. intros x [->%elem_of_singleton|Hx]%elem_of_union.
    + destruct (Z.ltb_spec (maxSequence g) q); lia.
    + pose proof (D x Hx). destruct (Z.ltb_spec (maxSequence g) q); lia.
  - intros e' [He'|He'%list_elem_of_singleton]%elem_of_app Hk'.
    + destruct (E e' He' Hk') as (q' & Hq' & Hin & Hact). exists q'.
      rewrite addStored_sequences. split; [done|]. split; [set_solver|].
      intros r [Hr|[_ ->]]%elem_of_addStored_active Hrq; [by apply (Hact r)|]. simpl in Hrq. congruence.
    + subst e'. exists q. rewrite addStored_sequences. split; [done|]. split; [set_solver|].
      intros r [Hr|[Hr ->]]%elem_of_addStored_active Hrq; [|done].
      destruct (B r Hr) as (_ & _ & _ & _ & Hs). congruence.
Qed.

Lemma groupStored_of rest rows groups groups' :
  groups_of rows groups → groupStored groups rest = Some groups' →
  groups_of (rows ++ rest) groups'.
Proof.
  revert rows groups. induction rest as [|e rest IH]; intros rows groups HG H; cbn [groupStored] in H.
  { simplify_eq. by rewrite app_nil_r. }
  destruct (sequenceFromNaturalKey (eNaturalKey e)) as [q|] eqn:Eq; [|done].
  set (g := default _ _) in H. cbn zeta in H. destruct (decide (q ∈ sequences g)) as [|Hn]; [done|].
  change (groupStored (<[storedKey e := addStored e q g]> groups) rest = Some groups') in H.
  rewrite (cons_middle e rows rest), app_assoc. eapply IH; [|exact H].
  assert (group_of (storedKey e) rows g) as Hg by (apply default_group_of; [done|by eexists]).
  destruct HG as [H1 H2]. split.
  - intros k g' Hg'. destruct (decide (storedKey e = k)) as [Hk|Hk].
    + rewrite <-Hk in Hg' |- *. rewrite lookup_insert_eq in Hg'. simplify_eq. by apply addStored_of.
    + rewrite lookup_insert_ne in Hg' by done. apply group_of_other; [by apply H1|done].
  - intros e' [He'| ->%list_elem_of_singleton]%elem_of_app.
    + destruct (decide (storedKey e = storedKey e')) as [->|]; [by rewrite lookup_insert_eq|].
      rewrite lookup_insert_ne by done. by apply H2.
    + by rewrite lookup_insert_eq.
Qed.

Lemma groupStored_no_providers rest groups groups' :
  (∀ k g, groups !! k = Some g → g.(providerIndexes) = []) →
  groupStored groups rest = Some groups' →
  ∀ k g, groups' !! k = Some g → g.(providerIndexes) = [].
Proof.
  revert groups. induction rest as [|e rest IH]; intros groups HG H; cbn [groupStored] in H.
  { by simplify_eq. }
  destruct (sequenceFromNaturalKey (eNaturalKey e)) as [q|]; [|done].
  set (g := default _ _) in H. cbn zeta in H. destruct (decide (q ∈ sequences g)); [done|].
  change (groupStored (<[storedKey e := addStored e q g]> groups) rest = Some groups') in H.
  eapply IH; [|exact H]. intros k g' Hg'. destruct (decide (storedKey e = k)) as [<-|Hk].
  - rewrite lookup_insert_eq in Hg'. simplify_eq. destruct (addStored_other e q g) as (-> & _).
    subst g. destruct (groups !! storedKey e) as [g0|] eqn:E; simpl; [by eapply HG|done].
  - rewrite lookup_insert_ne in Hg' by done. by eapply HG.
Qed.

(** ** The elements of each group *)

Definition belongs (k : string) (p : provider) : Prop :=
  trackableType p.2 ≠ "" ∧ providerKey p = k.

#[local] Instance belongs_dec k p : Decision (belongs k p).
Proof. unfold belongs. apply _. Defined.

Definition indexesAt (groups : gmap string eventSequenceGroup) (k : string) : list provider :=
  match groups !! k with Some g => g.(providerIndexes) | None => [] end.

Definition indexes_of (provs : list provider) (groups : gmap string eventSequenceGroup) : Prop :=
  ∀ k, indexesAt groups k = filter (belongs k) provs.

Lemma group_of_indexes k rows g l :
  group_of k rows g → group_of k rows (g <| providerIndexes := l |>).
Proof. intros [A B C D E]. by split. Qed.

Lemma groupProvider_of rows groups p :
  groups_of rows groups → groups_of rows (groupProvider groups p).
Proof.
  intros HG. unfold groupProvider. destruct (trackableType p.2 =? "")%string; [done|].
  assert (group_of (providerKey p) rows
    (default (newGroup (TeamID (EventTeam p.2)) (trackableType p.2)) (groups !! providerKey p))) as Hd.
  { apply default_group_of; [done|]. by eexists. }
  destruct HG as [H1 H2]. split.
  - intros k g Hg. destruct (decide (providerKey p = k)) as [<-|Hk].
    + rewrite lookup_insert_eq in Hg. simplify_eq. by apply group_of_indexes.
    + rewrite lookup_insert_ne in Hg by done. by apply H1.
  - intros e He. destruct (decide (providerKey p = storedKey e)) as [->|].
    + by rewrite lookup_insert_eq.
    + rewrite lookup_insert_ne by done. by apply H2.
Qed.

Lemma groupProvider_indexes provs groups p :
  indexes_of provs groups → indexes_of (provs ++ [p]) (groupProvider groups p).
Proof.
  intros HI k. rewrite filter_app. unfold groupProvider.
  destruct (String.eqb_spec (trackableType p.2) "") as [Ht|Ht].
  { rewrite (filter_none _ [p]), app_nil_r; [apply HI|]. repeat constructor. by intros [? _]. }
  specialize (HI k). unfold indexesAt in *. destruct (decide (providerKey p = k)) as [<-|Hk].
  - rewrite lookup_insert_eq, (filter_all _ [p]) by (by repeat constructor).
    rewrite <-HI. by destruct (groups !! providerKey p).
  - rewrite lookup_insert_ne by done. rewrite (filter_none _ [p]), app_nil_r; [done|].
    repeat constructor. by intros [_ ?].
Qed.

Lemma groupProviders rows provs groups :
  groups_of rows groups → indexes_of [] groups →
  groups_of rows (foldl groupProvider groups provs) ∧
  indexes_of provs (foldl groupProvider groups provs).
Proof.
  intros HG HI. induction provs as [|p provs [IH1 IH2]] using rev_ind; [done|].
  rewrite foldl_app. split; [by apply groupProvider_of|by apply groupProvider_indexes].
Qed.

Lemma eventGroups_ok apiEvents storedEvents groups :
  eventGroups apiEvents storedEvents = Some groups →
  groups_of storedEvents groups ∧ indexes_of (indexed apiEvents) groups.
Proof.
  unfold eventGroups. destruct (groupStored ∅ storedEvents) as [gs|] eqn:E; [|done].
  intros [= <-]. apply groupProviders.
  - change storedEvents with ([] ++ storedEvents). eapply groupStored_of; [|exact E].
    by split; [|intros e He%elem_of_nil].
  - intros k. unfold indexesAt. destruct (gs !! k) as [g|] eqn:Hg; [|done].
    by eapply groupStored_no_providers; [|exact E|exact Hg].
Qed.

Lemma elem_of_indexed apiEvents p : p ∈ indexed apiEvents ↔ apiEvents !! p.1 = Some p.2.
Proof.
  unfold indexed. rewrite list_elem_of_lookup. setoid_rewrite list_lookup_imap.
  destruct p as [i ev]. simpl. split.
  - intros (j & Hj). destruct (apiEvents !! j) eqn:E; simplify_eq/=. done.
  - intros H. exists i. by rewrite H.
Qed.

Lemma indexed_NoDup apiEvents : NoDup (indexed apiEvents).*1.
Proof.
  unfold indexed. rewrite fmap_imap.
  rewrite (imap_ext _ (λ j _, id j)) by done. rewrite imap_seq_0, list_fmap_id. apply NoDup_seq.
Qed.

(** The key of the element at an index. *)
Definition ownerKey (apiEvents : list APIFixtureEvent) (i : nat) : option string :=
  (λ ev, providerKey (i, ev)) <$> apiEvents !! i.

Section assignment.
Context (apiEvents : list APIFixtureEvent) (storedEvents : list Event).
Context (groups : gmap string eventSequenceGroup).
Context (HE : eventGroups apiEvents storedEvents = Some groups).

Lemma group_elements k g p :
  groups !! k = Some g → p ∈ g.(providerIndexes) ↔ p ∈ indexed apiEvents ∧ belongs k p.
Proof.
  intros Hg. destruct (eventGroups_ok _ _ _ HE) as [_ HI]. specialize (HI k).
  unfold indexesAt in HI. rewrite Hg in HI. rewrite HI, list_elem_of_filter. tauto.
Qed.

Lemma group_is_wf k g : groups !! k = Some g → group_wf g.
Proof.
  intros Hg. destruct (eventGroups_ok _ _ _ HE) as [HG HI]. destruct (proj1 HG k g Hg) as [A B C D E].
  split; [|done|].
  - specialize (HI k). unfold indexesAt in HI. rewrite Hg in HI. rewrite HI.
    eapply sublist_NoDup; [apply indexed_NoDup|]. apply fmap_sublist, sublist_filter.
  - intros r Hr. apply D. by destruct (B r Hr) as (_ & _ & _ & _ & ?).
Qed.

Lemma groups_owned : Forall (owned (ownerKey apiEvents)) (map_to_list groups).
Proof.
  apply Forall_forall. intros [k g] Hkg%elem_of_map_to_list. split; [by eapply group_is_wf|].
  intros i (p & -> & Hp)%list_elem_of_fmap. apply (group_elements k g p Hkg) in Hp as [Hp [_ Hk]].
  apply elem_of_indexed in Hp. unfold ownerKey. rewrite Hp. simpl. by destruct p; rewrite <-Hk.
Qed.

(** The group of a trackable element. *)
Lemma element_group i ev :
  apiEvents !! i = Some ev → trackableType ev ≠ "" →
  ∃ g, groups !! providerKey (i, ev) = Some g ∧ (i, ev) ∈ g.(providerIndexes).
Proof.
  intros Hi Ht. destruct (eventGroups_ok _ _ _ HE) as [_ HI].
  specialize (HI (providerKey (i, ev))). unfold indexesAt in HI.
  assert ((i, ev) ∈ filter (belongs (providerKey (i, ev))) (indexed apiEvents)) as Hin.
  { apply list_elem_of_filter. split; [by split|]. by apply elem_of_indexed. }
  destruct (groups !! _) as [g|]; [|by rewrite <-HI in Hin; apply elem_of_nil in Hin].
  exists g. by rewrite HI.
Qed.

(** Any order of the groups gives each element the value its own group computes
    from an empty assignment, and touches nothing else. *)
Lemma assignment_lookup inc l i ev :
  l ≡ₚ map_to_list groups → apiEvents !! i = Some ev → trackableType ev ≠ "" →
  ∃ g, groups !! providerKey (i, ev) = Some g ∧ (i, ev) ∈ g.(providerIndexes) ∧
    foldl (assignGroup inc) ∅ l.*2 !! i = assignGroup inc ∅ g !! i.
Proof.
  intros Hl Hi Ht. destruct (element_group i ev Hi Ht) as (g & Hg & Hin). exists g.
  split; [done|]. split; [done|].
  apply (fold_groups_lookup inc l ∅ (providerKey (i, ev), g) i (ownerKey apiEvents)).
  - rewrite Hl. apply groups_owned.
  - rewrite Hl. apply NoDup_fst_map_to_list.
  - intros kg _ j _. apply lookup_empty.
  - rewrite Hl. by apply elem_of_map_to_list.
  - by apply (list_elem_of_fmap_2 fst _ (i, ev)).
Qed.

Lemma assignment_none inc l i :
  l ≡ₚ map_to_list groups →
  (∀ ev, apiEvents !! i = Some ev → trackableType ev = "") →
  foldl (assignGroup inc) ∅ l.*2 !! i = None.
Proof.
  intros Hl Hi. rewrite (fold_groups_other inc l ∅ i (ownerKey apiEvents)); [apply lookup_empty|..].
  - rewrite Hl. apply groups_owned.
  - rewrite Hl. apply NoDup_fst_map_to_list.
  - intros kg _ j _. apply lookup_empty.
  - intros [k g] Hkg (p & -> & Hp)%list_elem_of_fmap. rewrite Hl in Hkg.
    apply elem_of_map_to_list in Hkg. apply (group_elements k g p Hkg) in Hp as [Hp [Ht _]].
    apply elem_of_indexed in Hp. by apply Ht, Hi.
Qed.

Lemma assignment_order inc l :
  l ≡ₚ map_to_list groups →
  foldl (assignGroup inc) ∅ l.*2 = foldl (assignGroup inc) ∅ (map_to_list groups).*2.
Proof.
  intros Hl. apply map_eq. intros i. destruct (apiEvents !! i) as [ev|] eqn:Hi.
  - destruct (decide (trackableType ev = "")) as [Ht|Ht].
    + rewrite !assignment_none; try done; congruence.
    + destruct (assignment_lookup inc l i ev Hl Hi Ht) as (g & Hg & _ & ->).
      by destruct (assignment_lookup inc (map_to_list groups) i ev (reflexivity _) Hi Ht)
        as (g' & Hg' & _ & ->); simplify_eq.
  - rewrite !assignment_none; try done; congruence.
Qed.
End assignment.

(** ** Properties *)

Lemma trackable_valid ev : trackableType ev ≠ "" → Type_Valid (trackableType ev) = true.
Proof.
  unfold trackableType, TrackableEventType. intros H.
  repeat (case_match; simplify_eq/=; try done).
Qed.

(** The natural key under which an element is stored. *)
Definition naturalKeyOf (ev : APIFixtureEvent) (seq : Z) : string :=
  ComposeNaturalKey ev.(EventTeam).(TeamID) ev.(EventPlayer).(PlayerRefID) (trackableType ev) seq.

(** A row as [New] and the insertion write it. *)
Definition stored_ok (e : Event) : Prop :=
  Type_Valid e.(eType) = true ∧
  ∃ s, 1 ≤ s ∧ fits64 s ∧
    e.(eNaturalKey) = ComposeNaturalKey e.(eTeam).(tID) e.(ePlayer).(pID) e.(eType) s.

Definition toleranceFor (incomplete : gset Z) (ev : APIFixtureEvent) : Z :=
  if (trackableType ev =? TypeGoal)%string && bool_decide (ev.(EventTeam).(TeamID) ∈ incomplete)
  then 0 else eventIdentityClockTolerance.

Lemma assignment_keys apiEvents storedEvents inc assigned :
  Forall stored_ok storedEvents →
  assignEventSequences apiEvents storedEvents inc = Some assigned →
  (∀ i, is_Some (assigned !! i) ↔ ∃ ev, apiEvents !! i = Some ev ∧ trackableType ev ≠ "") ∧
  (∀ i j ev ev' s s', apiEvents !! i = Some ev → apiEvents !! j = Some ev' →
     assigned !! i = Some s → assigned !! j = Some s' →
     naturalKeyOf ev s = naturalKeyOf ev' s' → i = j) ∧
  (∀ i ev s e, apiEvents !! i = Some ev → assigned !! i = Some s → e ∈ storedEvents →
     e.(eNaturalKey) = naturalKeyOf ev s →
     e.(eRemoved) = false ∧
     clockDistance (i, ev) (mkStoredEventSequence e s) ≤ toleranceFor inc ev).
Proof.
  intros Hok HA. unfold assignEventSequences in HA.
  destruct (eventGroups apiEvents storedEvents) as [groups|] eqn:HE; [|done]. injection HA as HA.
  change (snd <$> map_to_list groups) with (map_to_list groups).*2 in HA.
  pose proof (assignment_lookup _ _ _ HE inc (map_to_list groups)) as Hl.
  pose proof (assignment_none _ _ _ HE inc (map_to_list groups)) as Hnone.
  rewrite HA in Hl, Hnone.
  assert (∀ i ev s, apiEvents !! i = Some ev → assigned !! i = Some s → trackableType ev ≠ "")
    as Htr.
  { intros i ev s Hi Hs Ht. rewrite (Hnone i) in Hs; [done|done|]. by intros ? [= <-]%(eq_trans (eq_sym Hi)). }
  split; [|split].
  - intros i. split.
    + intros [s Hs]. destruct (apiEvents !! i) as [ev|] eqn:Hi; [by eauto|].
      rewrite (Hnone i) in Hs; [done|done|]. intros ev Hev. congruence.
    + intros (ev & Hi & Ht). destruct (Hl i ev) as (g & Hg & Hin & ->); [done..|].
      apply assignGroup_total; [by intros j _; apply lookup_empty|].
      by apply (list_elem_of_fmap_2 fst _ (i, ev)).
  - intros i j ev ev' s s' Hi Hj Hs Hs' Hkey.
    pose proof (Htr _ _ _ Hi Hs) as Ht. pose proof (Htr _ _ _ Hj Hs') as Ht'.
    apply natural_key_parts in Hkey as (H1 & H2 & H3 & <-); [|by apply trackable_valid..].
    destruct (Hl i ev) as (g & Hg & Hin & Ei); [done..|].
    destruct (Hl j ev') as (g' & Hg' & Hin' & Ej); [done..|].
    assert (providerKey (j, ev') = providerKey (i, ev)) as Hk.
    { unfold providerKey. simpl. by rewrite H1, H2, H3. }
    rewrite Hk, Hg in Hg'. injection Hg' as <-. rewrite Ei in Hs. rewrite Ej in Hs'.
    apply (list_elem_of_fmap_2 fst) in Hin, Hin'.
    eapply (assignGroup_inj inc g); [by eapply group_is_wf| |done..].
    intros ? _. apply lookup_empty.
  - intros i ev s e Hi Hs He Hkey. pose proof (Htr _ _ _ Hi Hs) as Ht.
    rewrite Forall_forall in Hok. destruct (Hok e He) as (Hv & s0 & Hs0 & Hf & Hke).
    rewrite Hke in Hkey. apply natural_key_parts in Hkey as (H1 & H2 & H3 & ->);
      [|done|by apply trackable_valid].
    destruct (Hl i ev) as (g & Hg & Hin & Ei); [done..|]. rewrite Ei in Hs.
    destruct (eventGroups_ok _ _ _ HE) as [[HG _] _].
    destruct (HG _ _ Hg) as [[pid Hsc] B C D E].
    destruct (E e He) as (q & Hq & Hqin & Hqact); [unfold storedKey; by rewrite H1, H2, H3|].
    unfold storedSequence in Hq. rewrite Hke, sequence_of_natural_key in Hq by done.
    injection Hq as <-. pose proof (D s Hqin) as Hmax.
    destruct (assignGroup_value inc g (group_is_wf _ _ _ HE _ _ Hg) ∅ (λ _ _, lookup_empty _)
      (i, ev) s Hin Hs) as [(r & Hr & <- & Hd)|?]; [|lia].
    rewrite <-(Hqact r Hr eq_refl). destruct (B r Hr) as (_ & Hrem & _). split; [done|].
    assert (groupTolerance inc g = toleranceFor inc ev) as <-; [|by destruct r].
    unfold providerKey in Hsc. simpl in Hsc. apply group_key_inj in Hsc as (T1 & _ & T2).
    unfold groupTolerance, toleranceFor. by rewrite T1, T2.
Qed.

(** C29: Identity assignment is complete and never reuses a dead identity: every
    trackable element of the response, and no other, gets a sequence; two
    elements never get the same natural key; and an element that gets the key of
    a stored row continues a row that is not removed and whose match clock is
    within the tolerance, which is zero for a goal of a team whose score proves
    that the array is incomplete. *)
Theorem assigned_keys apiEvents storedEvents inc assigned :
  Forall stored_ok storedEvents →
  assignEventSequences apiEvents storedEvents inc = Some assigned →
  (∀ i, is_Some (assigned !! i) ↔ ∃ ev, apiEvents !! i = Some ev ∧ trackableType ev ≠ "") ∧
  (∀ i j ev ev' s s', apiEvents !! i = Some ev → apiEvents !! j = Some ev' →
     assigned !! i = Some s → assigned !! j = Some s' →
     naturalKeyOf ev s = naturalKeyOf ev' s' → i = j) ∧
  (∀ i ev s e, apiEvents !! i = Some ev → assigned !! i = Some s → e ∈ storedEvents →
     e.(eNaturalKey) = naturalKeyOf ev s →
     e.(eRemoved) = false ∧
     clockDistance (i, ev) (mkStoredEventSequence e s) ≤ toleranceFor inc ev).
Proof. apply assignment_keys. Qed.

(** The order in which the code ranges over its map of groups is not
    observable: every order gives the same assignment. *)
Theorem group_order_irrelevant apiEvents storedEvents inc groups l :
  eventGroups apiEvents storedEvents = Some groups → l ≡ₚ map_to_list groups →
  assignEventSequences apiEvents storedEvents inc = Some (foldl (assignGroup inc) ∅ l.*2).
Proof.
  intros HE Hl. unfold assignEventSequences. rewrite HE. f_equal.
  symmetry. by eapply assignment_order.
Qed.

(** C31: The match inside a group is optimal: the plan is an order-preserving
    matching within the clock tolerance with its real costs, no such matching
    has more pairs, none with as many pairs has less total clock correction, and
    none with the same correction has fewer changed details. *)
Theorem best_optimal tol ps ss :
  (∃ m, order_preserving tol ps ss m ∧ records (best tol ps ss) m) ∧
  (∀ m, order_preserving tol ps ss m → beats (best tol ps ss) m).
Proof. split; [apply best_sound|apply best_beats]. Qed.

(** *** A response that repeats the stored rows *)

Lemma providerLess_sorted ps : StronglySorted Z.le (providerClock <$> sort_by providerLess ps).
Proof.
  assert (StronglySorted (not_after providerLess) (sort_by providerLess ps)) as H.
  { apply sort_by_sorted.
    - intros x y. unfold providerLess. destruct (Z.eqb_spec (providerClock x) (providerClock y)) as [->|];
        [rewrite Z.eqb_refl|rewrite (proj2 (Z.eqb_neq _ _)) by congruence]; simpl; simpl_bools; lia.
    - intros x y z. unfold not_after, providerLess.
      destruct (Z.eqb_spec (providerClock y) (providerClock x)),
        (Z.eqb_spec (providerClock z) (providerClock y)),
        (Z.eqb_spec (providerClock z) (providerClock x)); simpl; simpl_bools; lia. }
  induction H as [|p l _ IH Hp]; [constructor|]. cbn. constructor; [done|].
  apply Forall_fmap. eapply Forall_impl; [exact Hp|]. intros q. unfold not_after, providerLess. simpl.
  destruct (Z.eqb_spec (providerClock q) (providerClock p)); simpl; simpl_bools; lia.
Qed.

Lemma storedLess_sorted ss : StronglySorted Z.le (storedClock <$> sort_by storedLess ss).
Proof.
  assert (StronglySorted (not_after storedLess) (sort_by storedLess ss)) as H.
  { apply sort_by_sorted.
    - intros x y. unfold storedLess. destruct (Z.eqb_spec (storedClock x) (storedClock y)) as [->|];
        [rewrite Z.eqb_refl|rewrite (proj2 (Z.eqb_neq _ _)) by congruence]; simpl; simpl_bools; lia.
    - intros x y z. unfold not_after, storedLess.
      destruct (Z.eqb_spec (storedClock y) (storedClock x)),
        (Z.eqb_spec (storedClock z) (storedClock y)),
        (Z.eqb_spec (storedClock z) (storedClock x)); simpl; simpl_bools; lia. }
  induction H as [|p l _ IH Hp]; [constructor|]. cbn. constructor; [done|].
  apply Forall_fmap. eapply Forall_impl; [exact Hp|]. intros q. unfold not_after, storedLess. simpl.
  destruct (Z.eqb_spec (storedClock q) (storedClock p)); simpl; simpl_bools; lia.
Qed.

(** Pairing two lists of equal clocks position by position. *)
Lemma zip_order_preserving tol ps ss :
  0 ≤ tol → providerClock <$> ps = storedClock <$> ss → order_preserving tol ps ss (zip ps ss).
Proof.
  intros Ht Heq. assert (length ps = length ss) as HL
    by by rewrite <-(length_fmap providerClock), Heq, length_fmap.
  split.
  - by rewrite fst_zip by lia.
  - by rewrite snd_zip by lia.
  - clear HL. revert ss Heq. induction ps as [|p ps IH]; intros [|s ss] Heq; simplify_eq/=;
      constructor; [|by apply IH].
    simpl. unfold clockDistance, absInt. destruct (Z.ltb_spec (providerClock p - storedClock s) 0); lia.
Qed.

(** A matching that leaves nobody out pairs position by position. *)
Lemma full_matching_is_zip tol ps ss m :
  order_preserving tol ps ss m → (length ps ≤ length m)%nat → (length ss ≤ length m)%nat →
  m = zip ps ss.
Proof.
  intros [H1 H2 _] L1 L2.
  assert (∀ A (l k : list A), l `sublist_of` k → (length k ≤ length l)%nat → l = k) as Hfull.
  { clear. intros A l k. induction 1 as [|x l k H IH|x l k H IH]; cbn [length]; intros HL; [done|f_equal; apply IH; lia|].
    apply sublist_length in H. lia. }
  apply Hfull in H1; [|by rewrite length_fmap]. apply Hfull in H2; [|by rewrite length_fmap].
  rewrite <-H1, <-H2. clear. induction m as [|[p s] m IH]; [done|]. simpl. by f_equal.
Qed.

(** A repeated response keeps every identity, whatever order the provider
    lists it in: when the elements of a group carry exactly the match clocks of
    its active rows, each at a different clock, every element gets the sequence
    of the row with its clock. *)
Theorem repeated_response_keeps_sequences ps ss tol p r :
  0 ≤ tol → NoDup ps.*1 → NoDup (providerClock <$> ps) →
  (providerClock <$> ps) ≡ₚ (storedClock <$> ss) →
  p ∈ ps → r ∈ ss → providerClock p = storedClock r →
  matchEventSequences ps ss tol ∅ !! p.1 = Some r.(sqSequence).
Proof.
  intros Ht HN1 HN Hperm Hp Hr Hclock. unfold matchEventSequences.
  rewrite filter_all by (apply Forall_forall; intros; apply lookup_empty).
  set (P := sort_by providerLess ps). set (Q := sort_by storedLess ss).
  assert (providerClock <$> P = storedClock <$> Q) as Heq.
  { apply (StronglySorted_unique Z.le); [apply providerLess_sorted|apply storedLess_sorted|].
    subst P Q. by rewrite !sort_by_perm. }
  assert (length P = length Q) as HL by by rewrite <-(length_fmap providerClock), Heq, length_fmap.
  destruct (best_sound tol P Q) as (m & Hm & Rm & _).
  assert (m = zip P Q) as ->.
  { pose proof (best_beats tol P Q _ (zip_order_preserving tol P Q Ht Heq)) as Hb.
    assert (length (best tol P Q).(plMatches) = length m) as E by by rewrite Rm, length_fmap.
    assert (length (zip P Q) = length P) as E' by (rewrite <-(length_fmap fst), fst_zip; [done|lia]).
    assert (length (zip P Q) ≤ length m)%nat by (rewrite <-E; destruct Hb as [|[? _]]; lia).
    by eapply full_matching_is_zip; [done|lia..]. }
  apply (elem_of_sort_by providerLess) in Hp as HpP. apply (elem_of_sort_by storedLess) in Hr as HrS.
  fold P in HpP. fold Q in HrS.
  apply list_elem_of_lookup in HpP as [i Hi]. apply list_elem_of_lookup in HrS as [j Hj].
  assert (j = i) as ->.
  { apply (NoDup_lookup (storedClock <$> Q) j i (storedClock r)).
    - rewrite <-Heq. subst P. by rewrite sort_by_perm.
    - by rewrite list_lookup_fmap, Hj.
    - by rewrite <-Heq, list_lookup_fmap, Hi, <-Hclock. }
  change (p.1) with (emProviderIndex (mkEventSequenceMatch p.1 r)). rewrite recordMatch_in; [done| |].
  - unfold inMatches. rewrite Rm, <-list_fmap_compose. change (NoDup (fst ∘ fst <$> zip P Q)).
    rewrite (list_fmap_compose fst fst (zip P Q)), fst_zip by lia. subst P. by rewrite sort_by_perm.
  - rewrite Rm. apply (list_elem_of_fmap_2' _ _ (p, r)); [|done].
    apply (list_elem_of_lookup_2 _ i). by rewrite lookup_zip_with, Hi, Hj.
Qed.

(** The sequence of a stored row is read back from its natural key. *)
Theorem sequence_roundtrip t p y s :
  1 ≤ s → fits64 s → sequenceFromNaturalKey (ComposeNaturalKey t p y s) = Some s.
Proof. apply sequence_of_natural_key. Qed.

(** ** Score and inventory *)

Definition goal_of (team : Z) (e : APIFixtureEvent) : Prop :=
  trackableType e = TypeGoal ∧ e.(EventTeam).(TeamID) = team.
#[local] Instance goal_of_dec team e : Decision (goal_of team e).
Proof. unfold goal_of. apply _. Defined.

(** The goals of a team, and all goals, that the array lists. *)
Definition teamGoals (team : Z) (events : list APIFixtureEvent) : Z :=
  Z.of_nat (length (filter (goal_of team) events)).
Definition allGoals (events : list APIFixtureEvent) : Z :=
  Z.of_nat (length (filter (λ e, trackableType e = TypeGoal) events)).

Lemma teamGoals_snoc team events e :
  teamGoals team (events ++ [e]) = teamGoals team events + (if decide (goal_of team e) then 1 else 0).
Proof.
  unfold teamGoals. rewrite filter_app, length_app, filter_cons.
  destruct (decide (goal_of team e)); simpl; lia.
Qed.

Lemma allGoals_snoc events e :
  allGoals (events ++ [e]) =
  allGoals events + (if decide (trackableType e = TypeGoal) then 1 else 0).
Proof.
  unfold allGoals. rewrite filter_app, length_app, filter_cons.
  destruct (decide (trackableType e = TypeGoal)); simpl; lia.
Qed.

Lemma countGoal_team team events :
  goalsOf (foldl countGoal ∅ events) team = teamGoals team events.
Proof.
  induction events as [|e events IH] using rev_ind; [done|].
  rewrite foldl_app, teamGoals_snoc, <-IH. cbn [foldl]. unfold countGoal, goalsOf, goal_of.
  destruct (String.eqb_spec (trackableType e) TypeGoal) as [Ht|Ht].
  - destruct (decide (TeamID (EventTeam e) = team)) as [<-|Hn].
    + rewrite lookup_insert_eq, decide_True by done. done.
    + rewrite lookup_insert_ne, decide_False by (done || naive_solver). lia.
  - rewrite decide_False by naive_solver. lia.
Qed.

Definition sumGoals (goals : gmap Z Z) : Z := map_fold (λ _ g total, total + g) 0 goals.

Lemma sumGoals_insert goals i x :
  sumGoals (<[i := x]> goals) = sumGoals goals - goalsOf goals i + x.
Proof.
  unfold sumGoals, goalsOf. rewrite <-insert_delete_eq, map_fold_insert_L;
    [|intros; lia|apply lookup_delete_eq].
  destruct (goals !! i) as [y|] eqn:E; simpl.
  - rewrite (map_fold_delete_L _ _ i y goals); [lia|intros; lia|done].
  - rewrite delete_id by done. lia.
Qed.

Lemma sumGoals_count events : sumGoals (foldl countGoal ∅ events) = allGoals events.
Proof.
  induction events as [|e events IH] using rev_ind; [done|].
  rewrite foldl_app, allGoals_snoc, <-IH. cbn [foldl]. unfold countGoal at 1.
  destruct (String.eqb_spec (trackableType e) TypeGoal) as [Ht|Ht].
  - rewrite sumGoals_insert, decide_True by done. lia.
  - rewrite decide_False by done. lia.
Qed.

(** Every goal belongs to one of the two teams, or the count exceeds theirs. *)
Lemma allGoals_split home away events :
  home ≠ away →
  teamGoals home events + teamGoals away events ≤ allGoals events ∧
  (allGoals events = teamGoals home events + teamGoals away events ↔
   ∀ e, e ∈ events → trackableType e = TypeGoal →
     e.(EventTeam).(TeamID) = home ∨ e.(EventTeam).(TeamID) = away).
Proof.
  intros Hne. induction events as [|e events [IH1 IH2]] using rev_ind.
  { split; [done|]. split; [by intros _ e ?%elem_of_nil|done]. }
  rewrite !teamGoals_snoc, allGoals_snoc. unfold goal_of.
  setoid_rewrite elem_of_app. setoid_rewrite list_elem_of_singleton.
  destruct (decide (trackableType e = TypeGoal)) as [Ht|Ht].
  - destruct (decide (TeamID (EventTeam e) = home)) as [Hh|Hh];
      [|destruct (decide (TeamID (EventTeam e) = away)) as [Ha|Ha]].
    + rewrite decide_True, decide_False by naive_solver. split; [lia|]. split.
      * intros H e' [He'| ->] Hg; [apply IH2; [lia|done..]|by left].
      * intros H. rewrite (proj2 IH2); [lia|]. intros e0 He0. apply H. by left.
    + rewrite decide_False, decide_True by naive_solver. split; [lia|]. split.
      * intros H e' [He'| ->] Hg; [apply IH2; [lia|done..]|by right].
      * intros H. rewrite (proj2 IH2); [lia|]. intros e0 He0. apply H. by left.
    + rewrite !decide_False by naive_solver. split; [lia|]. split; [lia|].
      intros H. destruct (H e (or_intror eq_refl) Ht); contradiction.
  - rewrite !decide_False by naive_solver. split; [lia|]. split.
    + intros H e' [He'| ->] Hg; [apply IH2; [lia|done..]|done].
    + intros H. rewrite (proj2 IH2); [lia|]. intros e0 He0. apply H. by left.
Qed.

Lemma missing_goal_spec f team :
  let home := f.(Teams).(TeamsHome).(TeamID) in
  let away := f.(Teams).(TeamsAway).(TeamID) in
  home ≠ away →
  scoreRequiresMissingGoal (newScoreEventInventory f) team = true ↔
    ∃ n, ((team = home ∧ f.(Goals).(GoalsHome) = Some n) ∨
          (team = away ∧ f.(Goals).(GoalsAway) = Some n)) ∧ teamGoals team f.(Events) < n.
Proof.
  intros home away Hne. unfold scoreRequiresMissingGoal. simpl.
  assert (goalsOf (foldl countGoal ∅ f.(Events)) team = teamGoals team f.(Events)) as ->
    by apply countGoal_team.
  fold home away. destruct (decide (team = away)) as [->|Ha].
  { rewrite lookup_insert_eq. destruct (GoalsAway (Goals f)) as [a|]; [rewrite Z.ltb_lt|]; naive_solver. }
  rewrite lookup_insert_ne by done. destruct (decide (team = home)) as [->|Hh].
  { rewrite lookup_insert_eq. destruct (GoalsHome (Goals f)) as [h|]; [rewrite Z.ltb_lt|]; naive_solver. }
  rewrite lookup_insert_ne by done. rewrite lookup_empty. naive_solver.
Qed.

(** What the score proves about the event array: a goal of a team is missing
    exactly when the reported score of that team exceeds the goals the array
    lists for it, and the two agree exactly when both scores are reported, each
    equals the listed goals of its team, and no listed goal belongs to anybody
    else. *)
Theorem score_inventory f :
  let inv := newScoreEventInventory f in
  let home := f.(Teams).(TeamsHome).(TeamID) in
  let away := f.(Teams).(TeamsAway).(TeamID) in
  home ≠ away →
  (scoreRequiresMissingGoal inv home = true ↔
     ∃ h, f.(Goals).(GoalsHome) = Some h ∧ teamGoals home f.(Events) < h) ∧
  (scoreRequiresMissingGoal inv away = true ↔
     ∃ a, f.(Goals).(GoalsAway) = Some a ∧ teamGoals away f.(Events) < a) ∧
  (scoreEventParity inv home away = true ↔
     f.(Goals).(GoalsHome) = Some (teamGoals home f.(Events)) ∧
     f.(Goals).(GoalsAway) = Some (teamGoals away f.(Events)) ∧
     ∀ e, e ∈ f.(Events) → trackableType e = TypeGoal →
       e.(EventTeam).(TeamID) = home ∨ e.(EventTeam).(TeamID) = away).
Proof.
  intros inv home away Hne.
  assert (inv.(reportedScore) !! home = Some f.(Goals).(GoalsHome)) as Hh.
  { simpl. by rewrite lookup_insert_ne, lookup_insert_eq by done. }
  assert (inv.(reportedScore) !! away = Some f.(Goals).(GoalsAway)) as Ha.
  { simpl. by rewrite lookup_insert_eq. }
  assert (∀ t, goalsOf inv.(presentGoals) t = teamGoals t f.(Events)) as Hg
    by (intros; apply countGoal_team).
  unfold scoreRequiresMissingGoal, scoreEventParity. rewrite Hh, Ha, !Hg.
  split; [|split].
  - destruct (GoalsHome (Goals f)) as [h|]; [rewrite Z.ltb_lt|]; naive_solver.
  - destruct (GoalsAway (Goals f)) as [a|]; [rewrite Z.ltb_lt|]; naive_solver.
  - change (map_fold _ 0 (presentGoals inv)) with (sumGoals (foldl countGoal ∅ (Events f))).
    rewrite sumGoals_count.
    destruct (allGoals_split home away (Events f) Hne) as [_ Hall].
    destruct (GoalsHome (Goals f)) as [h|]; [|naive_solver].
    destruct (GoalsAway (Goals f)) as [a|]; [|naive_solver].
    destruct (Z.eqb_spec h (teamGoals home (Events f))) as [->|]; simpl; [|naive_solver].
    destruct (Z.eqb_spec a (teamGoals away (Events f))) as [->|]; simpl; [|naive_solver].
    rewrite Z.eqb_eq, Hall. naive_solver.
Qed.

(** ** The theorems at work: a stored goal at 23 minutes, and a response that lists
    it a minute later in front of a second goal. *)

Definition sampleTeam : APIFixtureTeam := mkAPIFixtureTeam 40 "Home" None.

Definition sampleGoal (minute : Z) : APIFixtureEvent :=
  mkAPIFixtureEvent (mkAPIFixtureEventTime minute None) sampleTeam
    (mkAPIFixturePlayerRef (Some 9) (Some "Scorer")) (mkAPIFixturePlayerRef None None)
    EventTypeGoal DetailNormalGoal None.

Definition sampleStored : Event :=
  New 1%positive 7 (mkTeam 40 "Home") (mkPlayer (Some 9) (Some "Scorer")) TypeGoal DetailNormalGoal
    23 None 1 1000.

Definition sampleFixture : APIFixture :=
  mkAPIFixture (mkAPIFixtureFixture 7 0 (mkAPIFixtureStatus "" "2h" (Some 80) None))
    (mkAPIFixtureLeague 39 "" "" 2026 "")
    (mkAPIFixtureTeams sampleTeam (mkAPIFixtureTeam 50 "Away" None))
    (mkAPIFixtureGoals (Some 2) (Some 0))
    (mkAPIFixtureScore (mkAPIFixtureScoreLine None None) (mkAPIFixtureScoreLine None None)
      (mkAPIFixtureScoreLine None None) (mkAPIFixtureScoreLine None None))
    [sampleGoal 24] fixtureEventsPresent.

Example sample_assigned :
  assignEventSequences [sampleGoal 60; sampleGoal 24] [sampleStored] ∅ =
    Some (<[0%nat := 2]> {[1%nat := 1]}).
Proof. vm_compute. reflexivity. Qed.

Lemma sampleStored_ok : Forall stored_ok [sampleStored].
Proof.
  apply Forall_singleton. split; [done|]. exists 1. unfold fits64, int64_min, int64_max.
  split_and!; [lia..|done].
Qed.

Lemma assigned_keys_witness :
  let api := [sampleGoal 60; sampleGoal 24] in
  let assigned : gmap nat Z := <[0%nat := 2]> {[1%nat := 1]} in
  (∀ i, is_Some (assigned !! i) ↔ ∃ ev, api !! i = Some ev ∧ trackableType ev ≠ "") ∧
  (∀ i j ev ev' s s', api !! i = Some ev → api !! j = Some ev' →
     assigned !! i = Some s → assigned !! j = Some s' →
     naturalKeyOf ev s = naturalKeyOf ev' s' → i = j) ∧
  (∀ i ev s e, api !! i = Some ev → assigned !! i = Some s → e ∈ [sampleStored] →
     e.(eNaturalKey) = naturalKeyOf ev s →
     e.(eRemoved) = false ∧
     clockDistance (i, ev) (mkStoredEventSequence e s) ≤ toleranceFor ∅ ev).
Proof.
  apply (assigned_keys [sampleGoal 60; sampleGoal 24] [sampleStored] ∅ (<[0%nat := 2]> {[1%nat := 1]}));
    [apply sampleStored_ok|vm_compute; reflexivity].
Defined.

Definition sampleGroups : gmap string eventSequenceGroup :=
  default ∅ (eventGroups [sampleGoal 24] [sampleStored]).

Lemma group_order_witness :
  assignEventSequences [sampleGoal 24] [sampleStored] ∅ =
    Some (foldl (assignGroup ∅) ∅ (map_to_list sampleGroups).*2).
Proof.
  apply (group_order_irrelevant [sampleGoal 24] [sampleStored] ∅ sampleGroups);
    [vm_compute; reflexivity|reflexivity].
Defined.

Lemma repeated_response_witness :
  matchEventSequences [(4%nat, sampleGoal 23)] [mkStoredEventSequence sampleStored 1] 5 ∅ !! 4%nat
    = Some 1.
Proof.
  apply (repeated_response_keeps_sequences [(4%nat, sampleGoal 23)]
    [mkStoredEventSequence sampleStored 1] 5 (4%nat, sampleGoal 23) (mkStoredEventSequence sampleStored 1));
    [lia|apply NoDup_singleton|apply NoDup_singleton|reflexivity|left|left|reflexivity].
Defined.

Lemma sequence_roundtrip_witness :
  sequenceFromNaturalKey (ComposeNaturalKey 40 (Some 9) TypeGoal 2) = Some 2.
Proof. apply sequence_roundtrip; unfold fits64, int64_min, int64_max; lia. Defined.

Lemma score_inventory_witness :
  let inv := newScoreEventInventory sampleFixture in
  (scoreRequiresMissingGoal inv 40 = true ↔
     ∃ h, Some 2 = Some h ∧ teamGoals 40 [sampleGoal 24] < h) ∧
  (scoreRequiresMissingGoal inv 50 = true ↔
     ∃ a, Some 0 = Some a ∧ teamGoals 50 [sampleGoal 24] < a) ∧
  (scoreEventParity inv 40 50 = true ↔
     Some 2 = Some (teamGoals 40 [sampleGoal 24]) ∧ Some 0 = Some (teamGoals 50 [sampleGoal 24]) ∧
     ∀ e, e ∈ [sampleGoal 24] → trackableType e = TypeGoal →
       e.(EventTeam).(TeamID) = 40 ∨ e.(EventTeam).(TeamID) = 50).
Proof. apply (score_inventory sampleFixture). discriminate. Defined.

End monitor.
