(* ===== verification/Integrity.v ===== *)
(** internal/domain/providerintegrity, the pure evaluator: mutation policies
    (types.go, health.go, enforcement.go) and the comparison of one fresh provider
    observation with the stored facts of a fixture (evaluate.go). *)
From S2P Require Import Prelude GoStrings.
#[local] Open Scope string_scope.
#[local] Open Scope list_scope.
#[local] Open Scope Z_scope.

Module providerintegrity.

(** ** Policies (types.go) *)

Definition MutationPolicy := string.
Definition PolicyTrusted : MutationPolicy := "trusted".
Definition PolicyPositiveOnly : MutationPolicy := "positive_only".
Definition PolicyRejected : MutationPolicy := "rejected".

Definition Policy_Valid (p : MutationPolicy) : bool :=
  one_of p [PolicyTrusted; PolicyPositiveOnly; PolicyRejected].

Definition Reason := string.
Definition ReasonFixtureIdentityChanged : Reason := "fixture_identity_changed".
Definition ReasonPhaseRegressed : Reason := "phase_regressed".
Definition ReasonTerminalRegressed : Reason := "terminal_regressed".
Definition ReasonClockRegressed : Reason := "clock_regressed".
Definition ReasonScoreDecreased : Reason := "score_decreased".
Definition ReasonPopulatedFieldCleared : Reason := "populated_field_cleared".
Definition ReasonConfirmedEventsMissing : Reason := "confirmed_events_missing".
Definition ReasonMultipleFixtureRegression : Reason := "multiple_fixture_regressions".
Definition ReasonMultipleEventDisappearance : Reason := "multiple_event_disappearances".

Record FixtureFacts := mkFixtureFacts {
  ffFixtureID : Z;
  ffHomeID : Z;
  ffAwayID : Z;
  ffLeagueID : Z;
  ffHomeName : string;
  ffAwayName : string;
  ffLeagueName : string;
  ffStatus : string;
  ffTerminal : bool;
  ffElapsed : option Z;
  ffExtra : option Z;
  ffHomeScore : option Z;
  ffAwayScore : option Z;
  ffHasEvents : bool }.

(** The zero value of the struct. *)
Definition zeroFacts : FixtureFacts :=
  mkFixtureFacts 0 0 0 0 "" "" "" "" false None None None None false.

Record EventFact := mkEventFact {
  efKey : string;
  efTeamID : Z;
  efPlayerID : option Z;
  efType : string;
  efDetail : string;
  efMinute : Z;
  efExtra : option Z;
  efDebounceCount : Z }.

#[global] Instance FixtureFacts_eq_dec : EqDecision FixtureFacts. Proof. solve_decision. Defined.
#[global] Instance EventFact_eq_dec : EqDecision EventFact. Proof. solve_decision. Defined.

Record FixtureComparison := mkFixtureComparison {
  Stored : FixtureFacts;
  Observed : FixtureFacts;
  StoredEvents : list EventFact;
  ConfirmedEvents : list EventFact;
  ObservedEvents : list EventFact }.

#[global] Instance eta_FixtureComparison : Eta FixtureComparison := λ c,
  mkFixtureComparison c.(Stored) c.(Observed) c.(StoredEvents) c.(ConfirmedEvents)
    c.(ObservedEvents).

Record FixtureVerdict := mkFixtureVerdict {
  fvFixtureID : Z;
  fvPolicy : MutationPolicy;
  fvReasons : list Reason;
  fvMissingConfirmedEvents : Z;
  fvSupportedGoalCorrection : bool;
  fvSupportedReplacement : bool }.

Definition Fixture_Anomalous (v : FixtureVerdict) : bool :=
  one_of v.(fvPolicy) [PolicyPositiveOnly; PolicyRejected].

Record BatchVerdict := mkBatchVerdict {
  bvPolicy : MutationPolicy;
  bvReasons : list Reason;
  bvFixtures : list FixtureVerdict;
  bvRegressedFixtures : Z;
  bvMissingConfirmedEvents : Z }.

Definition Batch_Anomalous (v : BatchVerdict) : bool :=
  negb (v.(bvPolicy) =? PolicyTrusted)%string || (0 <? length v.(bvFixtures))%nat.

(** ** Clocks and phases (evaluate.go) *)

Definition materialClockRollbackMinutes : Z := 2.
Definition goalCorrectionWindowMinutes : Z := 10.
Definition globalFixtureTripCount : Z := 2.
Definition globalMissingEventTripCount : Z := 3.

Definition eventClock (minute : Z) (extra : option Z) : Z :=
  match extra with Some e => minute + e | None => minute end.

Definition fixtureClock (facts : FixtureFacts) : Z :=
  match facts.(ffElapsed) with Some m => eventClock m facts.(ffExtra) | None => 0 end.

(** [None] is the code's (0, false). *)
Definition phaseRank (status : string) : option Z :=
  if one_of status ["ns"; "tbd"] then Some 0
  else if (status =? "1h")%string then Some 1
  else if (status =? "ht")%string then Some 2
  else if (status =? "2h")%string then Some 3
  else if one_of status ["et"; "bt"] then Some 4
  else if (status =? "p")%string then Some 5
  else if one_of status ["ft"; "aet"; "pen"; "canc"; "abd"; "awd"; "wo"] then Some 6
  else None.

Definition providerPhaseRegressed (stored observed : string) : bool :=
  match phaseRank stored, phaseRank observed with
  | Some s, Some o => o <? s
  | _, _ => false
  end.

Definition materialClockRegressed (stored observed : FixtureFacts) : bool :=
  if is_nil stored.(ffElapsed) || is_nil observed.(ffElapsed) then false
  else
    let advanced :=
      match phaseRank stored.(ffStatus), phaseRank observed.(ffStatus) with
      | Some s, Some o => s <? o
      | _, _ => false
      end in
    if advanced then false
    else if ((stored.(ffStatus) =? "et")%string && (observed.(ffStatus) =? "bt")%string) ||
      ((stored.(ffStatus) =? "bt")%string && (observed.(ffStatus) =? "et")%string) then false
    else fixtureClock observed + materialClockRollbackMinutes <? fixtureClock stored.

(** ** Scores and event inventories *)

Definition optionalIntDecreased (stored observed : option Z) : bool :=
  match stored, observed with Some s, Some o => o <? s | _, _ => false end.

Definition optionalIntEqual (left right : option Z) : bool := bool_decide (left = right).

Definition scoresEqual (stored observed : FixtureFacts) : bool :=
  optionalIntEqual stored.(ffHomeScore) observed.(ffHomeScore) &&
  optionalIntEqual stored.(ffAwayScore) observed.(ffAwayScore).

Definition providerScoreDecreased (stored observed : FixtureFacts) : bool :=
  optionalIntDecreased stored.(ffHomeScore) observed.(ffHomeScore) ||
  optionalIntDecreased stored.(ffAwayScore) observed.(ffAwayScore).

Definition missingEvents (stored observed : list EventFact) : list EventFact :=
  let present := efKey <$> observed in
  filter (λ e, efKey e ∉ present) stored.

(** [goals[team]] of the counting map. *)
Definition goalCount (team : Z) (events : list EventFact) : Z :=
  Z.of_nat (length (filter (λ e, efType e = "goal" ∧ efTeamID e = team) events)).

Definition observedGoalInventoryMatchesScore (observed : FixtureFacts) (events : list EventFact)
    : bool :=
  match observed.(ffHomeScore), observed.(ffAwayScore) with
  | Some home, Some away =>
      (goalCount observed.(ffHomeID) events =? home) &&
      (goalCount observed.(ffAwayID) events =? away)
  | _, _ => false
  end.

Definition scoreDroppedForTeamByOne (stored observed : FixtureFacts) (teamID : Z) : bool :=
  match stored.(ffHomeScore), stored.(ffAwayScore),
        observed.(ffHomeScore), observed.(ffAwayScore) with
  | Some sh, Some sa, Some oh, Some oa =>
      if teamID =? stored.(ffHomeID) then (sh =? oh + 1) && (sa =? oa)
      else if teamID =? stored.(ffAwayID) then (sa =? oa + 1) && (sh =? oh)
      else false
  | _, _, _, _ => false
  end.

Definition supportedGoalCorrection (c : FixtureComparison) (missing : list EventFact)
    (hasOtherRegression : bool) : bool :=
  match hasOtherRegression, missing with
  | false, [goal] =>
      if negb (efType goal =? "goal")%string then false
      else
        let firstVote := scoreDroppedForTeamByOne c.(Stored) c.(Observed) goal.(efTeamID) in
        let continuingVote := (0 <? goal.(efDebounceCount)) && (goal.(efDebounceCount) <? 3) &&
          scoresEqual c.(Stored) c.(Observed) in
        if (negb firstVote && negb continuingVote) ||
          negb (observedGoalInventoryMatchesScore c.(Observed) c.(ObservedEvents)) then false
        else if is_nil c.(Observed).(ffElapsed) then false
        else
          let distance := fixtureClock c.(Observed) - eventClock goal.(efMinute) goal.(efExtra) in
          (0 <=? distance) && (distance <=? goalCorrectionWindowMinutes)
  | _, _ => false
  end.

Definition supportedEventReplacement (c : FixtureComparison) (missing : list EventFact)
    (hasOtherRegression : bool) : bool :=
  if hasOtherRegression || negb (scoresEqual c.(Stored) c.(Observed)) then false
  else
    let confirmed := efKey <$> c.(ConfirmedEvents) in
    let unmatched := filter (λ e, efKey e ∉ confirmed) c.(ObservedEvents) in
    match missing, unmatched with
    | [old], [new] =>
        (old.(efTeamID) =? new.(efTeamID)) &&
        (old.(efType) =? new.(efType))%string &&
        (old.(efDetail) =? new.(efDetail))%string &&
        match old.(efPlayerID), new.(efPlayerID) with
        | Some p, Some q => negb (p =? q)
        | _, _ => false
        end &&
        (Z.abs (eventClock old.(efMinute) old.(efExtra) -
                eventClock new.(efMinute) new.(efExtra)) <=? 1)
    | _, _ => false
    end.

Definition emptyPostponedScoreboard (c : FixtureComparison) : bool :=
  let idle (f : FixtureFacts) :=
    (f.(ffStatus) =? "pst")%string && negb f.(ffTerminal) && negb f.(ffHasEvents) &&
    is_nil f.(ffElapsed) && is_nil f.(ffExtra) &&
    match f.(ffHomeScore) with Some n => n =? 0 | None => true end &&
    match f.(ffAwayScore) with Some n => n =? 0 | None => true end in
  (length c.(ConfirmedEvents) =? 0)%nat && (length c.(ObservedEvents) =? 0)%nat &&
  idle c.(Stored) && idle c.(Observed).

Definition providerFieldCleared (c : FixtureComparison) : bool :=
  let stored := c.(Stored) in
  let observed := c.(Observed) in
  let cleared (s o : option Z) := not_nil s && is_nil o in
  let blanked (s o : string) := negb (s =? "")%string && (o =? "")%string in
  let scoreCleared := cleared stored.(ffHomeScore) observed.(ffHomeScore) ||
    cleared stored.(ffAwayScore) observed.(ffAwayScore) in
  (scoreCleared && negb (emptyPostponedScoreboard c)) ||
  cleared stored.(ffElapsed) observed.(ffElapsed) ||
  blanked stored.(ffHomeName) observed.(ffHomeName) ||
  blanked stored.(ffAwayName) observed.(ffAwayName) ||
  blanked stored.(ffLeagueName) observed.(ffLeagueName).

Definition identityChanged (stored observed : FixtureFacts) : bool :=
  negb (stored.(ffFixtureID) =? observed.(ffFixtureID)) ||
  negb (stored.(ffHomeID) =? observed.(ffHomeID)) ||
  negb (stored.(ffAwayID) =? observed.(ffAwayID)) ||
  negb (stored.(ffLeagueID) =? observed.(ffLeagueID)).

(** [append]s the reason when the test holds. *)
Definition reason_if (b : bool) (r : Reason) : list Reason := if b then [r] else [].

(** The five regressions that exclude a supported correction. *)
Definition otherRegression (c : FixtureComparison) : bool :=
  let stored := c.(Stored) in
  let observed := c.(Observed) in
  identityChanged stored observed ||
  providerPhaseRegressed stored.(ffStatus) observed.(ffStatus) ||
  (stored.(ffTerminal) && negb observed.(ffTerminal)) ||
  materialClockRegressed stored observed || providerFieldCleared c.

Definition AssessFixture (c : FixtureComparison) : FixtureVerdict :=
  let stored := c.(Stored) in
  let observed := c.(Observed) in
  let idChanged := identityChanged stored observed in
  let missing := missingEvents c.(ConfirmedEvents) c.(ObservedEvents) in
  let missingStored := missingEvents c.(StoredEvents) c.(ObservedEvents) in
  let scoreDecreased := providerScoreDecreased stored observed in
  let correction := supportedGoalCorrection c missingStored (otherRegression c) in
  let replacement := supportedEventReplacement c missing (otherRegression c) in
  let reasons :=
    reason_if idChanged ReasonFixtureIdentityChanged ++
    reason_if (providerPhaseRegressed stored.(ffStatus) observed.(ffStatus)) ReasonPhaseRegressed ++
    reason_if (stored.(ffTerminal) && negb observed.(ffTerminal)) ReasonTerminalRegressed ++
    reason_if (materialClockRegressed stored observed) ReasonClockRegressed ++
    reason_if (providerFieldCleared c) ReasonPopulatedFieldCleared ++
    reason_if (scoreDecreased && negb correction) ReasonScoreDecreased ++
    reason_if ((0 <? length missing)%nat && negb correction && negb replacement)
      ReasonConfirmedEventsMissing in
  let policy :=
    match reasons with
    | [] => PolicyTrusted
    | _ => if idChanged then PolicyRejected else PolicyPositiveOnly
    end in
  mkFixtureVerdict stored.(ffFixtureID) policy reasons (Z.of_nat (length missing))
    correction replacement.

Definition aggregateStep (out : BatchVerdict) (v : FixtureVerdict) : BatchVerdict :=
  if negb (Policy_Valid v.(fvPolicy)) then out
  else if negb (Fixture_Anomalous v) then out
  else mkBatchVerdict out.(bvPolicy) out.(bvReasons) (out.(bvFixtures) ++ [v])
    (out.(bvRegressedFixtures) + 1)
    (out.(bvMissingConfirmedEvents) + v.(fvMissingConfirmedEvents)).

Definition AggregateFixtureVerdicts (verdicts : list FixtureVerdict) : BatchVerdict :=
  let out := foldl aggregateStep (mkBatchVerdict PolicyTrusted [] [] 0 0) verdicts in
  let regressed := globalFixtureTripCount <=? out.(bvRegressedFixtures) in
  let disappeared := globalMissingEventTripCount <=? out.(bvMissingConfirmedEvents) in
  mkBatchVerdict
    (if regressed || disappeared then PolicyPositiveOnly else out.(bvPolicy))
    (out.(bvReasons) ++ reason_if regressed ReasonMultipleFixtureRegression ++
       reason_if disappeared ReasonMultipleEventDisappearance)
    out.(bvFixtures) out.(bvRegressedFixtures) out.(bvMissingConfirmedEvents).

Definition AssessBatch (comparisons : list FixtureComparison) : BatchVerdict :=
  AggregateFixtureVerdicts (AssessFixture <$> comparisons).

(** ** Composition of policies (health.go, enforcement.go) *)

Fixpoint restrict_from (result : MutationPolicy) (policies : list MutationPolicy)
    : MutationPolicy :=
  match policies with
  | [] => result
  | p :: rest =>
      if negb (Policy_Valid p) || (p =? PolicyRejected)%string then PolicyRejected
      else if (p =? PolicyPositiveOnly)%string then restrict_from PolicyPositiveOnly rest
      else restrict_from result rest
  end.

Definition RestrictPolicies (policies : list MutationPolicy) : MutationPolicy :=
  restrict_from PolicyTrusted policies.

Definition EnforcementMode := string.
Definition EnforcementShadow : EnforcementMode := "shadow".
Definition EnforcementEnforce : EnforcementMode := "enforce".
Definition EnforcementMode_Valid (m : EnforcementMode) : bool :=
  one_of m [EnforcementShadow; EnforcementEnforce].

Definition MutationMode := string.
Definition MutationModeActive : MutationMode := "active".
Definition MutationModeStaging : MutationMode := "staging".
Definition MutationModeIngest : MutationMode := "ingest".

(** Event identifiers are opaque names. *)
Record RestrictedOperations := mkRestrictedOperations {
  roFixtureRefreshLimited : bool;
  roEventInserts : list positive;
  roPresenceVotes : list positive;
  roEventCorrectionsLimited : list positive;
  roAbsenceVotes : list positive;
  roPlaceholderDeletes : list positive;
  roCompletionCheck : bool }.

Record MutationDecision := mkMutationDecision {
  mdWriter : MutationMode;
  mdMode : EnforcementMode;
  mdRecommendedPolicy : MutationPolicy;
  mdProviderPolicy : MutationPolicy;
  mdFixturePolicy : MutationPolicy;
  mdLocalPolicy : MutationPolicy;
  mdRestricted : option RestrictedOperations }.

#[global] Instance eta_MutationDecision : Eta MutationDecision := λ d,
  mkMutationDecision d.(mdWriter) d.(mdMode) d.(mdRecommendedPolicy) d.(mdProviderPolicy)
    d.(mdFixturePolicy) d.(mdLocalPolicy) d.(mdRestricted).

(** The writer and the restricted operations are filled in by the store. *)
Definition DecideMutation (mode : EnforcementMode) (provider fixture local : MutationPolicy)
    : MutationDecision * MutationPolicy :=
  let d := mkMutationDecision "" mode (RestrictPolicies [provider; fixture; local])
    provider fixture local None in
  if (mode =? EnforcementShadow)%string then (d, PolicyTrusted)
  else (d, d.(mdRecommendedPolicy)).

(** ** Properties of the evaluator *)

Lemma reason_if_nil b r : reason_if b r = [] ↔ b = false.
Proof. by destruct b. Qed.

Lemma app_nil_iff {A} (l k : list A) : l ++ k = [] ↔ l = [] ∧ k = [].
Proof. destruct l; naive_solver. Qed.

(** The seven tests that must all fail for an observation to raise no reason. *)
Lemma no_reasons c :
  (AssessFixture c).(fvReasons) = [] ↔
  otherRegression c = false ∧
  providerScoreDecreased c.(Stored) c.(Observed) && negb (AssessFixture c).(fvSupportedGoalCorrection) = false ∧
  (0 <? length (missingEvents c.(ConfirmedEvents) c.(ObservedEvents)))%nat &&
    negb (AssessFixture c).(fvSupportedGoalCorrection) &&
    negb (AssessFixture c).(fvSupportedReplacement) = false.
Proof.
  unfold AssessFixture, otherRegression; cbn [fvReasons fvSupportedGoalCorrection fvSupportedReplacement].
  rewrite !app_nil_iff, !reason_if_nil, !orb_false_iff. tauto.
Qed.

(** What the reasons decide about the policy. *)
Lemma AssessFixture_trusted c :
  (AssessFixture c).(fvPolicy) = PolicyTrusted ↔ (AssessFixture c).(fvReasons) = [].
Proof.
  unfold AssessFixture; cbn [fvPolicy fvReasons].
  match goal with |- context [match ?l with [] => _ | _ => _ end] => destruct l end;
    [naive_solver|]. by destruct (identityChanged _ _).
Qed.

(** The policy of an observation is decided by its reasons: trusted exactly
    when no reason was raised, rejected exactly when the fixture's identity
    changed, positive-only for every other regression. *)
Theorem AssessFixture_policy c :
  let v := AssessFixture c in
  (v.(fvPolicy) = PolicyTrusted ↔ v.(fvReasons) = []) ∧
  (v.(fvPolicy) = PolicyRejected ↔ identityChanged c.(Stored) c.(Observed) = true) ∧
  (v.(fvPolicy) = PolicyPositiveOnly ↔
     v.(fvReasons) ≠ [] ∧ identityChanged c.(Stored) c.(Observed) = false).
Proof.
  intros v. subst v. unfold AssessFixture; cbn [fvPolicy fvReasons].
  destruct (identityChanged _ _); cbn [reason_if app]; [naive_solver|].
  match goal with |- context [match ?l with [] => _ | _ => _ end] => destruct l end; naive_solver.
Qed.

(** *** Forward progress *)

Definition option_le (s o : option Z) : Prop :=
  match s with None => True | Some x => ∃ y, o = Some y ∧ x ≤ y end.

(** The observation continues the stored facts: same fixture, no earlier phase,
    a clock and a score that did not go back, no field that disappeared, and
    every confirmed event still listed. *)
Record forward (c : FixtureComparison) : Prop := {
  fwd_identity : c.(Stored).(ffFixtureID) = c.(Observed).(ffFixtureID) ∧
    c.(Stored).(ffHomeID) = c.(Observed).(ffHomeID) ∧
    c.(Stored).(ffAwayID) = c.(Observed).(ffAwayID) ∧
    c.(Stored).(ffLeagueID) = c.(Observed).(ffLeagueID);
  fwd_phase : ∀ s o, phaseRank c.(Stored).(ffStatus) = Some s →
    phaseRank c.(Observed).(ffStatus) = Some o → s ≤ o;
  fwd_terminal : c.(Stored).(ffTerminal) = true → c.(Observed).(ffTerminal) = true;
  fwd_elapsed : is_Some c.(Stored).(ffElapsed) → is_Some c.(Observed).(ffElapsed);
  fwd_clock : fixtureClock c.(Stored) ≤ fixtureClock c.(Observed);
  fwd_scores : option_le c.(Stored).(ffHomeScore) c.(Observed).(ffHomeScore) ∧
    option_le c.(Stored).(ffAwayScore) c.(Observed).(ffAwayScore);
  fwd_names : (c.(Stored).(ffHomeName) ≠ "" → c.(Observed).(ffHomeName) ≠ "") ∧
    (c.(Stored).(ffAwayName) ≠ "" → c.(Observed).(ffAwayName) ≠ "") ∧
    (c.(Stored).(ffLeagueName) ≠ "" → c.(Observed).(ffLeagueName) ≠ "");
  fwd_events : ∀ e, e ∈ c.(ConfirmedEvents) → efKey e ∈ efKey <$> c.(ObservedEvents) }.

Lemma option_le_not_cleared s o : option_le s o → not_nil s && is_nil o = false.
Proof. destruct s as [x|]; [|done]. by intros (y & -> & _). Qed.

Lemma option_le_not_decreased s o : option_le s o → optionalIntDecreased s o = false.
Proof. destruct s as [x|]; [|done]. intros (y & -> & ?). simpl. by apply Z.ltb_ge. Qed.

Lemma forward_no_clock_regression c :
  forward c → materialClockRegressed c.(Stored) c.(Observed) = false.
Proof.
  intros F. pose proof (fwd_clock c F).
  unfold materialClockRegressed, materialClockRollbackMinutes.
  repeat (case_match; try done); apply Z.ltb_ge; lia.
Qed.

Lemma forward_not_cleared c : forward c → providerFieldCleared c = false.
Proof.
  intros [_ _ _ He _ [Hh Ha] (N1 & N2 & N3) _]. unfold providerFieldCleared.
  rewrite (option_le_not_cleared _ _ Hh), (option_le_not_cleared _ _ Ha). simpl.
  assert (∀ s o : string, (s ≠ "" → o ≠ "") → negb (s =? "")%string && (o =? "")%string = false) as Hb.
  { intros s o H. destruct (String.eqb_spec s ""); [done|]. by apply String.eqb_neq, H. }
  rewrite !Hb by done. rewrite !orb_false_r.
  destruct (ffElapsed (Stored c)); [|done]. by destruct (He (mk_is_Some _ _ eq_refl)) as [? ->].
Qed.

Lemma missing_nil stored observed :
  (∀ e, e ∈ stored → efKey e ∈ efKey <$> observed) → missingEvents stored observed = [].
Proof.
  intros H. unfold missingEvents. destruct (filter _ stored) as [|e l] eqn:E; [done|].
  assert (e ∈ filter (λ e, efKey e ∉ efKey <$> observed) stored) as He by (rewrite E; left).
  apply list_elem_of_filter in He as [Hn He]. by destruct Hn; apply H.
Qed.

(** Ordinary forward progress is never restricted: an observation that
    continues the stored facts raises no reason and is trusted, whatever new
    events, later phases or higher scores it reports. *)
Theorem forward_trusted c :
  forward c →
  (AssessFixture c).(fvPolicy) = PolicyTrusted ∧ (AssessFixture c).(fvReasons) = [].
Proof.
  intros F. assert ((AssessFixture c).(fvReasons) = []) as Hr; [|split; [|done]].
  - apply no_reasons. rewrite (missing_nil _ _ (fwd_events c F)). split; [|split].
    + unfold otherRegression.
      rewrite (forward_no_clock_regression c F), (forward_not_cleared c F).
      destruct (fwd_identity c F) as (H1 & H2 & H3 & H4).
      unfold identityChanged. rewrite H1, H2, H3, H4, !Z.eqb_refl. simpl.
      rewrite !orb_false_r. apply orb_false_iff; split.
      * unfold providerPhaseRegressed. pose proof (fwd_phase c F).
        destruct (phaseRank _); [|done]. destruct (phaseRank _); [|done].
        apply Z.ltb_ge. auto.
      * pose proof (fwd_terminal c F) as Ht. destruct (ffTerminal (Stored c)); [|done].
        by rewrite Ht.
    + destruct (fwd_scores c F) as [S1 S2]. unfold providerScoreDecreased.
      by rewrite (option_le_not_decreased _ _ S1), (option_le_not_decreased _ _ S2).
    + done.
  - by apply AssessFixture_trusted.
Qed.

Lemma forward_trusted_witness :
  let facts elapsed home := mkFixtureFacts 7 1 2 3 "A" "B" "L" "2h" false (Some elapsed) None
    (Some home) (Some 0) true in
  let goal key := mkEventFact key 1 (Some 9) "goal" "normal goal" 30 None 3 in
  let c := mkFixtureComparison (facts 60 1) (facts 61 2) [goal "k1"] [goal "k1"]
    [goal "k1"; goal "k2"] in
  (AssessFixture c).(fvPolicy) = PolicyTrusted ∧ (AssessFixture c).(fvReasons) = [].
Proof.
  intros facts goal c. apply forward_trusted. split; simpl; try done.
  - intros s o. vm_compute. by intros [= <-] [= <-].
  - by split; eexists.
  - intros e ->%list_elem_of_singleton. left.
Defined.

(** *** What a trusted observation may take away *)

Lemma supportedGoalCorrection_inv c missing other :
  supportedGoalCorrection c missing other = true →
  other = false ∧ ∃ goal, missing = [goal] ∧ efType goal = "goal" ∧
    (scoreDroppedForTeamByOne c.(Stored) c.(Observed) goal.(efTeamID) = true ∨
     (0 < goal.(efDebounceCount) < 3 ∧ scoresEqual c.(Stored) c.(Observed) = true)) ∧
    observedGoalInventoryMatchesScore c.(Observed) c.(ObservedEvents) = true ∧
    0 ≤ fixtureClock c.(Observed) - eventClock goal.(efMinute) goal.(efExtra) ≤ 10.
Proof.
  unfold supportedGoalCorrection, goalCorrectionWindowMinutes. intros H.
  destruct other; [done|]. destruct missing as [|g [|]]; try done.
  split; [done|]. exists g. split; [done|].
  destruct (String.eqb_spec (efType g) "goal"); [|done]. cbn [negb] in H.
  destruct (observedGoalInventoryMatchesScore _ _); [|by rewrite orb_true_r in H].
  rewrite orb_false_r in H.
  destruct (scoreDroppedForTeamByOne _ _ _), (is_nil _); simpl in H;
    repeat case_match; simplify_eq; simpl_bools; intuition lia.
Qed.

Lemma supportedEventReplacement_inv c missing other :
  supportedEventReplacement c missing other = true →
  other = false ∧ ∃ old new, missing = [old] ∧ new ∈ c.(ObservedEvents) ∧
    old.(efTeamID) = new.(efTeamID) ∧ old.(efType) = new.(efType) ∧
    old.(efDetail) = new.(efDetail).
Proof.
  unfold supportedEventReplacement. intros H. destruct other; [done|]. simpl in H.
  destruct (scoresEqual _ _); [|done]. simpl in H.
  destruct missing as [|old [|]]; try done.
  destruct (filter _ _) as [|new [|]] eqn:E; try done. split; [done|].
  exists old, new. rewrite !andb_true_iff, Z.eqb_eq, !String.eqb_eq in H.
  destruct H as [[[[? ?] ?] _] _]. split_and!; try done.
  assert (new ∈ [new]) as Hn by left. rewrite <-E in Hn.
  by apply list_elem_of_filter in Hn as [_ ?].
Qed.

Lemma missing_sublist_length l k observed :
  l `sublist_of` k →
  (length (missingEvents l observed) ≤ length (missingEvents k observed))%nat.
Proof.
  intros H. apply sublist_length. unfold missingEvents.
  induction H as [|x l k H IH|x l k H IH]; [done| |].
  - rewrite !filter_cons. by destruct (decide _); [apply sublist_skip|].
  - rewrite (filter_cons _ x k). by destruct (decide _); [apply sublist_cons|].
Qed.

(** A trusted observation can hide at most one confirmed event, and only as a
    supported goal correction or as a same-team replacement of that event; two
    or more disappearances are always restricted. *)
Theorem trusted_loses_at_most_one c :
  c.(ConfirmedEvents) `sublist_of` c.(StoredEvents) →
  (AssessFixture c).(fvPolicy) = PolicyTrusted →
  let missing := missingEvents c.(ConfirmedEvents) c.(ObservedEvents) in
  (length missing ≤ 1)%nat ∧
  (missing ≠ [] →
     (AssessFixture c).(fvSupportedGoalCorrection) = true ∨
     (AssessFixture c).(fvSupportedReplacement) = true).
Proof.
  intros Hs HT missing. apply AssessFixture_trusted, no_reasons in HT as (_ & _ & Hm).
  destruct (fvSupportedGoalCorrection (AssessFixture c)) eqn:E1;
    [|destruct (fvSupportedReplacement (AssessFixture c)) eqn:E2].
  - split; [|by left]. unfold AssessFixture in E1; cbn in E1.
    apply supportedGoalCorrection_inv in E1 as (_ & g & E1 & _).
    pose proof (missing_sublist_length _ _ (ObservedEvents c) Hs) as HL.
    rewrite E1 in HL. done.
  - split; [|by right]. unfold AssessFixture in E2; cbn in E2.
    apply supportedEventReplacement_inv in E2 as (_ & o & n & E2 & _).
    unfold missing. by rewrite E2.
  - fold missing in Hm. destruct missing; simpl in Hm; [|done]. split; [simpl; lia|done].
Qed.

Lemma trusted_loses_at_most_one_witness :
  let facts home := mkFixtureFacts 7 1 2 3 "A" "B" "L" "2h" false (Some 32) None
    (Some home) (Some 0) true in
  let goal := mkEventFact "k1" 1 (Some 9) "goal" "normal goal" 30 None 3 in
  let c := mkFixtureComparison (facts 1) (facts 0) [goal] [goal] [] in
  (length (missingEvents c.(ConfirmedEvents) c.(ObservedEvents)) ≤ 1)%nat.
Proof.
  intros facts goal c. apply (trusted_loses_at_most_one c); [apply sublist_skip, sublist_nil|].
  reflexivity.
Defined.

(** C32: a score is only ever lowered on trust as a video-assistant correction:
    exactly one stored event is missing, it is a goal of the team whose score
    dropped by exactly one while the other score stood, the goals still listed
    add up to the reported score, and the goal is at most ten match minutes
    old. *)
Theorem trusted_score_decrease_is_correction c :
  (AssessFixture c).(fvPolicy) = PolicyTrusted →
  providerScoreDecreased c.(Stored) c.(Observed) = true →
  ∃ goal, missingEvents c.(StoredEvents) c.(ObservedEvents) = [goal] ∧
    efType goal = "goal" ∧
    scoreDroppedForTeamByOne c.(Stored) c.(Observed) goal.(efTeamID) = true ∧
    observedGoalInventoryMatchesScore c.(Observed) c.(ObservedEvents) = true ∧
    0 ≤ fixtureClock c.(Observed) - eventClock goal.(efMinute) goal.(efExtra) ≤ 10.
Proof.
  intros HT HD. apply AssessFixture_trusted, no_reasons in HT as (_ & HS & _).
  rewrite HD in HS. apply negb_false_iff in HS. unfold AssessFixture in HS; cbn in HS.
  apply supportedGoalCorrection_inv in HS as (_ & g & Hm & Ht & Hv & Hi & Hd).
  exists g. split_and!; try done; try lia. destruct Hv as [?|[_ He]]; [done|exfalso].
  unfold scoresEqual, optionalIntEqual in He.
  apply andb_true_iff in He as [H1 H2].
  apply bool_decide_eq_true in H1, H2. revert HD.
  unfold providerScoreDecreased. rewrite H1, H2. unfold optionalIntDecreased.
  repeat case_match; rewrite ?Z.ltb_irrefl; done.
Qed.

Lemma trusted_score_decrease_witness :
  let facts home := mkFixtureFacts 7 1 2 3 "A" "B" "L" "2h" false (Some 32) None
    (Some home) (Some 0) true in
  let goal := mkEventFact "k1" 1 (Some 9) "goal" "normal goal" 30 None 3 in
  let c := mkFixtureComparison (facts 1) (facts 0) [goal] [goal] [] in
  ∃ goal, missingEvents c.(StoredEvents) c.(ObservedEvents) = [goal] ∧
    efType goal = "goal" ∧
    scoreDroppedForTeamByOne c.(Stored) c.(Observed) goal.(efTeamID) = true ∧
    observedGoalInventoryMatchesScore c.(Observed) c.(ObservedEvents) = true ∧
    0 ≤ fixtureClock c.(Observed) - eventClock goal.(efMinute) goal.(efExtra) ≤ 10.
Proof.
  intros facts goal c. apply (trusted_score_decrease_is_correction c); reflexivity.
Defined.

(** *** Batches *)

Definition counted (v : FixtureVerdict) : bool :=
  Policy_Valid v.(fvPolicy) && Fixture_Anomalous v.

Lemma aggregate_fold vs out :
  foldl aggregateStep out vs =
  mkBatchVerdict out.(bvPolicy) out.(bvReasons)
    (out.(bvFixtures) ++ filter counted vs)
    (out.(bvRegressedFixtures) + Z.of_nat (length (filter counted vs)))
    (out.(bvMissingConfirmedEvents) +
       foldr Z.add 0 (fvMissingConfirmedEvents <$> filter counted vs)).
Proof.
  revert out. induction vs as [|v vs IH]; intros [po re fi rg mi]; cbn [foldl].
  - simpl. by rewrite app_nil_r, !Z.add_0_r.
  - assert (aggregateStep (mkBatchVerdict po re fi rg mi) v =
      if counted v
      then mkBatchVerdict po re (fi ++ [v]) (rg + 1) (mi + v.(fvMissingConfirmedEvents))
      else mkBatchVerdict po re fi rg mi) as ->.
    { unfold aggregateStep, counted. by destruct (Policy_Valid _), (Fixture_Anomalous _). }
    rewrite IH, filter_cons. destruct (counted v);
      cbn [bvPolicy bvReasons bvFixtures bvRegressedFixtures bvMissingConfirmedEvents];
      [rewrite decide_True by done|rewrite decide_False by (by intros [])]; [|done].
    rewrite <-app_assoc. cbn [fmap list_fmap foldr length app]. f_equal; lia.
Qed.

Lemma Anomalous_valid p : one_of p [PolicyPositiveOnly; PolicyRejected] = true →
  Policy_Valid p = true.
Proof. by apply one_of_impl. Qed.

Lemma counted_anomalous (vs : list FixtureVerdict) : filter counted vs = filter Fixture_Anomalous vs.
Proof.
  apply list_filter_iff. intros v. unfold counted, Fixture_Anomalous.
  destruct (one_of _ _) eqn:E; [|by rewrite andb_false_r].
  by rewrite (Anomalous_valid _ E).
Qed.

(** The batch circuit breaker: a poll is restricted as a whole exactly when
    at least two fixtures regressed or at least three confirmed events
    disappeared over the regressed fixtures; the verdict keeps the anomalous
    fixtures in order, and it never rejects. *)
Theorem AssessBatch_trips comparisons :
  let verdicts := AssessFixture <$> comparisons in
  let bad := filter Fixture_Anomalous verdicts in
  let lost := foldr Z.add 0 (fvMissingConfirmedEvents <$> bad) in
  let out := AssessBatch comparisons in
  out.(bvFixtures) = bad ∧
  out.(bvRegressedFixtures) = Z.of_nat (length bad) ∧
  out.(bvMissingConfirmedEvents) = lost ∧
  (out.(bvPolicy) = PolicyPositiveOnly ↔ (2 ≤ length bad)%nat ∨ 3 ≤ lost) ∧
  (out.(bvPolicy) = PolicyTrusted ↔ (length bad < 2)%nat ∧ lost < 3).
Proof.
  intros verdicts bad lost out. subst out. unfold AssessBatch, AggregateFixtureVerdicts.
  rewrite aggregate_fold, counted_anomalous. fold verdicts bad. cbn.
  change (foldr Z.add 0 _) with lost. unfold globalFixtureTripCount, globalMissingEventTripCount.
  rewrite !Z.add_0_l.
  destruct (Z.leb_spec 2 (Z.of_nat (length bad))), (Z.leb_spec 3 lost); cbn;
    split_and!; try done; split; intros; try done; lia.
Qed.

(** *** Composition of policies *)

Definition severity (p : MutationPolicy) : Z :=
  if (p =? PolicyTrusted)%string then 0 else if (p =? PolicyPositiveOnly)%string then 1 else 2.

Definition policy_of (n : Z) : MutationPolicy :=
  if n <=? 0 then PolicyTrusted else if n =? 1 then PolicyPositiveOnly else PolicyRejected.

Lemma severity_bounds p : 0 ≤ severity p ≤ 2.
Proof. unfold severity. repeat case_match; lia. Qed.

Lemma max_severity_bounds ps : 0 ≤ foldr Z.max 0 (severity <$> ps) ≤ 2.
Proof.
  induction ps as [|p ps]; cbn [fmap list_fmap foldr]; [lia|].
  pose proof (severity_bounds p). lia.
Qed.

Lemma restrict_from_max result ps :
  (result = PolicyTrusted ∨ result = PolicyPositiveOnly) →
  restrict_from result ps = policy_of (Z.max (severity result) (foldr Z.max 0 (severity <$> ps))).
Proof.
  revert result. induction ps as [|p ps IH]; intros r Hr; [by destruct Hr as [->| ->]|].
  pose proof (max_severity_bounds ps) as Hb. cbn [restrict_from fmap list_fmap foldr].
  unfold Policy_Valid, one_of, severity at 2; cbn [existsb].
  destruct (String.eqb_spec p PolicyTrusted) as [->|]; [|destruct (String.eqb_spec p PolicyPositiveOnly) as [->|]].
  - simpl. rewrite IH by done. f_equal. lia.
  - simpl. rewrite IH by auto. f_equal. destruct Hr as [->| ->]; cbn; lia.
  - replace (Z.max (severity r) _) with 2.
    + simpl. by destruct (String.eqb_spec p PolicyRejected).
    + pose proof (severity_bounds r). lia.
Qed.

Lemma RestrictPolicies_max l :
  RestrictPolicies l = policy_of (foldr Z.max 0 (severity <$> l)).
Proof.
  unfold RestrictPolicies. rewrite restrict_from_max by auto.
  f_equal. pose proof (max_severity_bounds l). cbn. lia.
Qed.

(** Policies compose to the most severe of them, whatever their order, and an
    unknown policy counts as rejected: composition fails closed. *)
Theorem RestrictPolicies_most_severe ps :
  RestrictPolicies ps = policy_of (foldr Z.max 0 (severity <$> ps)) ∧
  Policy_Valid (RestrictPolicies ps) = true ∧
  (∀ qs, ps ≡ₚ qs → RestrictPolicies ps = RestrictPolicies qs).
Proof.
  split_and!; [apply RestrictPolicies_max| |].
  - rewrite RestrictPolicies_max. pose proof (max_severity_bounds ps).
    unfold policy_of. by repeat case_match.
  - intros qs Hp. rewrite !RestrictPolicies_max. f_equal.
    induction Hp; cbn [fmap list_fmap foldr] in *; lia.
Qed.

End providerintegrity.
