(* ===== verification/Health.v ===== *)
(** internal/domain/providerintegrity, the durable collector: clock freshness and
    recovery (health.go, health_recovery.go), correlation of incidents
    (health_scope.go), and the fixture and provider evidence that every finalized
    poll advances (collector_types.go, collector_fixture.go,
    collector_provider.go). *)
From S2P Require Import Prelude GoStrings Integrity.
#[local] Open Scope string_scope.
#[local] Open Scope list_scope.
#[local] Open Scope Z_scope.
Import providerintegrity.

Module health.

(** ** Clock freshness (health.go) *)

Definition InteriorStaleAfter : Duration := 3 * time_Minute.
Definition BoundaryStaleAfter : Duration := 10 * time_Minute.
Definition ObservationGapLimit : Duration := 90 * time_Second.

Definition Freshness := string.
Definition FreshnessUnknown : Freshness := "unknown".
Definition FreshnessWithinWindow : Freshness := "within_window".
Definition FreshnessNotClocked : Freshness := "not_clocked".
Definition FreshnessStalled : Freshness := "stalled".
Definition FreshnessBoundaryWarning : Freshness := "boundary_warning".

Record FreshnessEvidence := mkFreshnessEvidence {
  feFacts : FixtureFacts;
  feObservedAt : Time;
  fePreviousUsableAt : Time;
  feContinuousSince : Time;
  feClockProgressAt : Time;
  feUsable : bool }.

Record FreshnessVerdict := mkFreshnessVerdict {
  vState : Freshness;
  vPolicy : MutationPolicy;
  vEvidenceAge : Duration }.

(** The three statuses with a running clock. *)
Definition runningClock (status : string) : bool := one_of status ["1h"; "2h"; "et"].

(** The code dereferences [Elapsed]; both callers have excluded nil. *)
Definition periodBoundary (f : FixtureFacts) : bool :=
  match f.(ffElapsed) with
  | None => false
  | Some e =>
      if (f.(ffStatus) =? "1h")%string then 45 <=? e
      else if (f.(ffStatus) =? "2h")%string then 90 <=? e
      else if (f.(ffStatus) =? "et")%string then (e =? 105) || (120 <=? e)
      else false
  end.

Definition AssessFreshness (e : FreshnessEvidence) : FreshnessVerdict :=
  let out := mkFreshnessVerdict FreshnessUnknown PolicyTrusted 0 in
  if negb e.(feUsable) || IsZero e.(feObservedAt) then out
  else if one_of e.(feFacts).(ffStatus)
    ["ht"; "bt"; "p"; "int"; "susp"; "ns"; "pst"; "tbd"; "ft"; "aet"; "pen"; "canc"; "abd";
     "awd"; "wo"]
  then mkFreshnessVerdict FreshnessNotClocked PolicyTrusted 0
  else if negb (runningClock e.(feFacts).(ffStatus)) then out
  else if match e.(feFacts).(ffElapsed) with None => true | Some m => m <? 0 end ||
    match e.(feFacts).(ffExtra) with None => false | Some m => m <? 0 end then out
  else if IsZero e.(fePreviousUsableAt) || negb (Before e.(fePreviousUsableAt) e.(feObservedAt)) ||
    (ObservationGapLimit <? time_Sub e.(feObservedAt) e.(fePreviousUsableAt)) ||
    IsZero e.(feContinuousSince) || After e.(feContinuousSince) e.(fePreviousUsableAt) ||
    IsZero e.(feClockProgressAt) || After e.(feClockProgressAt) e.(feObservedAt) then out
  else
    let start := if After e.(feContinuousSince) e.(feClockProgressAt)
      then e.(feContinuousSince) else e.(feClockProgressAt) in
    let age := time_Sub e.(feObservedAt) start in
    let boundary := periodBoundary e.(feFacts) in
    let threshold := if boundary then BoundaryStaleAfter else InteriorStaleAfter in
    if age <? threshold then mkFreshnessVerdict FreshnessWithinWindow PolicyTrusted age
    else if boundary then mkFreshnessVerdict FreshnessBoundaryWarning PolicyTrusted age
    else mkFreshnessVerdict FreshnessStalled PolicyPositiveOnly age.

Definition clockValuesValid (f : FixtureFacts) : bool :=
  match f.(ffElapsed) with None => true | Some e => 0 <=? e end &&
  match f.(ffExtra) with None => true | Some e => 0 <=? e end.

Definition forwardPhase (before after : string) : bool :=
  match phaseRank before, phaseRank after with
  | Some l, Some r => l <? r
  | _, _ => false
  end ||
  ((before =? "et")%string && (after =? "bt")%string) ||
  ((before =? "bt")%string && (after =? "et")%string).

Definition ClockProgressed (baseline observed : FixtureFacts) : bool :=
  if negb (baseline.(ffFixtureID) =? observed.(ffFixtureID)) || (baseline.(ffFixtureID) <=? 0) ||
    negb (clockValuesValid baseline) || negb (clockValuesValid observed) then false
  else if forwardPhase baseline.(ffStatus) observed.(ffStatus) then true
  else if negb (baseline.(ffStatus) =? observed.(ffStatus))%string ||
    is_nil observed.(ffElapsed) || is_nil baseline.(ffElapsed) then false
  else if runningClock observed.(ffStatus) then fixtureClock baseline <? fixtureClock observed
  else false.

(** ** Recovery (health_recovery.go) *)

Record FixtureHealthProbe := mkFixtureHealthProbe {
  fpID : string;
  fpAt : Time;
  fpUsable : bool;
  fpFacts : FixtureFacts }.

Record ProviderHealthProbe := mkProviderHealthProbe {
  ppID : string;
  ppAt : Time;
  ppComplete : bool;
  ppNewSystemicAnomaly : bool;
  ppNewAffectedFixture : bool }.

Record observationSequence := mkObservationSequence {
  sqAt : Time;
  sqIds : gset string }.

Definition emptySequence : observationSequence := mkObservationSequence zero_time ∅.

(** [None] is the code's false, which leaves the sequence unchanged. *)
Definition accept (s : observationSequence) (id : string) (at_ : Time)
    : option observationSequence :=
  if (id =? "")%string || IsZero at_ || negb (After at_ s.(sqAt)) then None
  else if decide (id ∈ s.(sqIds)) then None
  else Some (mkObservationSequence at_ ({[id]} ∪ s.(sqIds))).

(** The local variables of [FreshnessRecovered]'s loop. *)
Record recoveryState := mkRecoveryState {
  rcSequence : observationSequence;
  rcLastAdvance : Time;
  rcAdvances : Z;
  rcPhaseSamples : Z;
  rcPhase : string;
  rcHigh : FixtureFacts }.

#[global] Instance eta_recoveryState : Eta recoveryState := λ r,
  mkRecoveryState r.(rcSequence) r.(rcLastAdvance) r.(rcAdvances) r.(rcPhaseSamples)
    r.(rcPhase) r.(rcHigh).

(** The part of an iteration after the evidence was found usable. *)
Definition recoveryAdvance (r : recoveryState) (probe : FixtureHealthProbe) : recoveryState :=
  let facts := probe.(fpFacts) in
  if forwardPhase r.(rcHigh).(ffStatus) facts.(ffStatus) then
    mkRecoveryState r.(rcSequence) probe.(fpAt) 0 1 facts.(ffStatus) facts
  else if negb (facts.(ffStatus) =? r.(rcHigh).(ffStatus))%string ||
    materialClockRegressed r.(rcHigh) facts then
    r <| rcAdvances := 0 |> <| rcPhaseSamples := 0 |> <| rcPhase := "" |>
  else
    let r := if negb (r.(rcPhase) =? "")%string && (r.(rcPhase) =? facts.(ffStatus))%string
      then r <| rcPhaseSamples ::= λ n, n + 1 |> else r in
    if ClockProgressed r.(rcHigh) facts then
      let advances := if (0 <? r.(rcAdvances)) &&
        (time_Sub probe.(fpAt) r.(rcLastAdvance) <=? InteriorStaleAfter) then 2 else 1 in
      r <| rcAdvances := advances |> <| rcLastAdvance := probe.(fpAt) |> <| rcHigh := facts |>
    else r.

Definition probeUsable (baseline : FixtureFacts) (probe : FixtureHealthProbe) : bool :=
  let usable := probe.(fpUsable) &&
    (probe.(fpFacts).(ffFixtureID) =? baseline.(ffFixtureID)) &&
    clockValuesValid probe.(fpFacts) in
  if runningClock probe.(fpFacts).(ffStatus)
  then usable && not_nil probe.(fpFacts).(ffElapsed) else usable.

(** One iteration; [None] is the early [return false]. *)
Definition recoveryStep (baseline : FixtureFacts) (r : recoveryState) (probe : FixtureHealthProbe)
    : option recoveryState :=
  if (probe.(fpID) =? "")%string || IsZero probe.(fpAt) then None
  else
    let previousAt := r.(rcSequence).(sqAt) in
    match accept r.(rcSequence) probe.(fpID) probe.(fpAt) with
    | None => Some r
    | Some sequence =>
        let r := r <| rcSequence := sequence |> in
        let usable := probeUsable baseline probe in
        let broken := negb usable ||
          (negb (IsZero previousAt) &&
           (ObservationGapLimit <? time_Sub probe.(fpAt) previousAt)) in
        let r := if broken then mkRecoveryState r.(rcSequence) zero_time 0 0 "" baseline else r in
        if usable then Some (recoveryAdvance r probe) else Some r
    end.

(** A [for] loop with an early return. *)
Fixpoint fold_until {S A} (step : S → A → option S) (s : S) (l : list A) : option S :=
  match l with
  | [] => Some s
  | x :: l => match step s x with None => None | Some s => fold_until step s l end
  end.

Definition FreshnessRecovered (baseline : FixtureFacts) (probes : list FixtureHealthProbe) : bool :=
  if (baseline.(ffFixtureID) <=? 0) || negb (clockValuesValid baseline) then false
  else
    match fold_until (recoveryStep baseline)
            (mkRecoveryState emptySequence zero_time 0 0 "" baseline) probes with
    | None => false
    | Some r =>
        let since := time_Sub r.(rcSequence).(sqAt) r.(rcLastAdvance) in
        if 3 <=? r.(rcPhaseSamples) then
          if runningClock r.(rcHigh).(ffStatus) then
            if is_nil r.(rcHigh).(ffElapsed) then false
            else since <?
              (if periodBoundary r.(rcHigh) then BoundaryStaleAfter else InteriorStaleAfter)
          else true
        else (2 <=? r.(rcAdvances)) && negb (IsZero r.(rcLastAdvance)) &&
          (since <? InteriorStaleAfter)
    end.

Definition providerRecoveryStep (r : observationSequence * Z) (probe : ProviderHealthProbe)
    : option (observationSequence * Z) :=
  let '(sequence, clean) := r in
  if (probe.(ppID) =? "")%string || IsZero probe.(ppAt) then None
  else
    let previousAt := sequence.(sqAt) in
    match accept sequence probe.(ppID) probe.(ppAt) with
    | None => Some r
    | Some sequence =>
        let clean := if negb (IsZero previousAt) &&
          (ObservationGapLimit <? time_Sub probe.(ppAt) previousAt) then 0 else clean in
        if negb probe.(ppComplete) || probe.(ppNewSystemicAnomaly) || probe.(ppNewAffectedFixture)
        then Some (sequence, 0) else Some (sequence, clean + 1)
    end.

Definition ProviderIntegrityRecovered (probes : list ProviderHealthProbe) : bool :=
  match fold_until providerRecoveryStep (emptySequence, 0) probes with
  | None => false
  | Some (_, clean) => 3 <=? clean
  end.

(** ** Correlation (health_scope.go) *)

Definition CorrelationWindow : Duration := 2 * time_Minute.

Definition HealthCause := string.
Definition CauseClockStalled : HealthCause := "clock_stalled".
Definition CauseBoundaryWarning : HealthCause := "boundary_warning".
Definition CauseIntegrityConflict : HealthCause := "integrity_conflict".
Definition CauseUnavailable : HealthCause := "unavailable".

Record HealthEpisode := mkHealthEpisode {
  hpFixtureID : Z;
  hpCause : HealthCause;
  hpStartedAt : Time;
  hpResolvedAt : Time }.

#[global] Instance HealthEpisode_eq_dec : EqDecision HealthEpisode. Proof. solve_decision. Defined.

Record HealthCorrelation := mkHealthCorrelation {
  hcStalledFixtures : list Z;
  hcConflictFixtures : list Z;
  hcPolicy : MutationPolicy }.

Definition sortedFixtureIDs (ids : gset Z) : list Z := sort_by Z.ltb (elements ids).

(** The episode is open and its onset lies in the window. *)
Definition correlated (at_ : Time) (episode : HealthEpisode) : bool :=
  negb (IsZero at_ || (episode.(hpFixtureID) <=? 0) || IsZero episode.(hpStartedAt) ||
    negb (IsZero episode.(hpResolvedAt)) || After episode.(hpStartedAt) at_ ||
    (CorrelationWindow <? time_Sub at_ episode.(hpStartedAt))).

Definition correlateStep (at_ : Time) (sets : gset Z * gset Z) (episode : HealthEpisode)
    : gset Z * gset Z :=
  let '(stalled, conflicts) := sets in
  if negb (correlated at_ episode) then sets
  else if (episode.(hpCause) =? CauseClockStalled)%string
  then ({[episode.(hpFixtureID)]} ∪ stalled, conflicts)
  else if (episode.(hpCause) =? CauseIntegrityConflict)%string
  then (stalled, {[episode.(hpFixtureID)]} ∪ conflicts)
  else sets.

Definition CorrelateHealth (at_ : Time) (episodes : list HealthEpisode) : HealthCorrelation :=
  let '(stalled, conflicts) := foldl (correlateStep at_) (∅, ∅) episodes in
  let s := if (2 <=? size stalled)%nat then sortedFixtureIDs stalled else [] in
  if (2 <=? size conflicts)%nat
  then mkHealthCorrelation s (sortedFixtureIDs conflicts) PolicyPositiveOnly
  else mkHealthCorrelation s [] PolicyTrusted.

(** ** Fixture evidence (collector_types.go, collector_fixture.go) *)

Definition HealthEvidenceVersion : Z := 1.
Definition maxRecoveryProbes : nat := 32.
Definition MaxHealthFixtures : nat := 1024.
Definition HealthReceiptRetention : Duration := 14 * 24 * time_Hour.

Definition Availability := string.
Definition AvailabilityUsable : Availability := "usable".
Definition AvailabilityTransport : Availability := "transport".
Definition AvailabilityContract : Availability := "contract".
Definition AvailabilityUnobserved : Availability := "unobserved".

Record HealthObservation := mkHealthObservation {
  hoFixtureID : Z;
  hoAvailability : Availability;
  hoFailureReason : string;
  hoInterrupted : bool;
  hoBaselineLastPolled : option Time;
  hoComparison : FixtureComparison }.

Record HealthPoll := mkHealthPoll {
  hlID : string;
  hlAt : Time;
  hlObservations : list HealthObservation }.

(** The loop of [Validate]; [None] is acceptance. *)
Fixpoint validateObservations (seen : gset Z) (os : list HealthObservation) : option string :=
  match os with
  | [] => None
  | o :: os =>
      if (o.(hoFixtureID) <=? 0) || bool_decide (o.(hoFixtureID) ∈ seen) ||
        (100 <? str_len o.(hoFailureReason))
      then Some "invalid provider health fixture coverage"
      else if (o.(hoAvailability) =? AvailabilityUsable)%string then
        if negb (o.(hoComparison).(Stored).(ffFixtureID) =? o.(hoFixtureID)) ||
          negb (o.(hoComparison).(Observed).(ffFixtureID) =? o.(hoFixtureID)) ||
          (256 <? length o.(hoComparison).(StoredEvents))%nat ||
          (256 <? length o.(hoComparison).(ConfirmedEvents))%nat ||
          (256 <? length o.(hoComparison).(ObservedEvents))%nat
        then Some "invalid provider health fixture facts"
        else validateObservations ({[o.(hoFixtureID)]} ∪ seen) os
      else if one_of o.(hoAvailability)
        [AvailabilityTransport; AvailabilityContract; AvailabilityUnobserved]
      then validateObservations ({[o.(hoFixtureID)]} ∪ seen) os
      else Some "invalid provider availability"
  end.

Definition HealthPoll_Validate (p : HealthPoll) : option string :=
  if (p.(hlID) =? "")%string || (200 <? str_len p.(hlID)) || IsZero p.(hlAt) ||
    (length p.(hlObservations) =? 0)%nat || (MaxHealthFixtures <? length p.(hlObservations))%nat
  then Some "invalid provider health poll identity or coverage"
  else validateObservations ∅ p.(hlObservations).

Record HealthIncident := mkHealthIncident {
  hiCause : HealthCause;
  hiStartedAt : Time;
  hiLastCredibleAt : Time;
  hiPolicy : MutationPolicy;
  hiBaseline : FixtureFacts;
  hiStoredEvents : list EventFact;
  hiConfirmedEvents : list EventFact;
  hiProbes : list FixtureHealthProbe }.

#[global] Instance eta_HealthIncident : Eta HealthIncident := λ i,
  mkHealthIncident i.(hiCause) i.(hiStartedAt) i.(hiLastCredibleAt) i.(hiPolicy) i.(hiBaseline)
    i.(hiStoredEvents) i.(hiConfirmedEvents) i.(hiProbes).

Record FixtureHealthEvidence := mkFixtureHealthEvidence {
  xVersion : Z;
  xAvailability : Availability;
  xFailureReason : string;
  xFreshness : Freshness;
  xIncidents : list HealthIncident }.

#[global] Instance eta_FixtureHealthEvidence : Eta FixtureHealthEvidence := λ x,
  mkFixtureHealthEvidence x.(xVersion) x.(xAvailability) x.(xFailureReason) x.(xFreshness)
    x.(xIncidents).

Record FixtureHealth := mkFixtureHealth {
  hFixtureID : Z;
  hLastPollID : string;
  hLastObservedAt : Time;
  hLastUsableAt : Time;
  hContinuousSince : Time;
  hClockProgressAt : Time;
  hPhaseSince : Time;
  hObservedStatus : string;
  hClockStatus : string;
  hClockElapsed : option Z;
  hClockExtra : option Z;
  hEvidence : FixtureHealthEvidence }.

#[global] Instance eta_FixtureHealth : Eta FixtureHealth := λ h,
  mkFixtureHealth h.(hFixtureID) h.(hLastPollID) h.(hLastObservedAt) h.(hLastUsableAt)
    h.(hContinuousSince) h.(hClockProgressAt) h.(hPhaseSince) h.(hObservedStatus)
    h.(hClockStatus) h.(hClockElapsed) h.(hClockExtra) h.(hEvidence).

Record HealthTransition := mkHealthTransition {
  htFixtureID : Z;
  htCause : HealthCause;
  htStartedAt : Time;
  htResolved : bool;
  htLastCredibleAt : Time;
  htAvailability : Availability;
  htMissingEventKeys : list string;
  htBaseline : option FixtureFacts;
  htObserved : option FixtureFacts;
  htFailureReason : string }.

(** A running-clock snapshot without score and names. *)
Definition clockSnapshot (id : Z) (status : string) (elapsed extra : option Z) : FixtureFacts :=
  mkFixtureFacts id 0 0 0 "" "" "" status false elapsed extra None None false.

Definition clockFacts (s : FixtureHealth) : FixtureFacts :=
  clockSnapshot s.(hFixtureID) s.(hClockStatus) s.(hClockElapsed) s.(hClockExtra).

Definition advanceClock (s : FixtureHealth) (at_ : Time) (o : HealthObservation) : FixtureHealth :=
  let facts := o.(hoComparison).(Observed) in
  let s := if negb (s.(hObservedStatus) =? facts.(ffStatus))%string
    then s <| hObservedStatus := facts.(ffStatus) |> <| hContinuousSince := at_ |>
           <| hPhaseSince := at_ |>
    else s in
  let s := if IsZero s.(hLastUsableAt) || IsZero s.(hContinuousSince) ||
      (ObservationGapLimit <? time_Sub at_ s.(hLastUsableAt)) || o.(hoInterrupted)
    then s <| hContinuousSince := at_ |> else s in
  let knownClock := not_nil (phaseRank s.(hClockStatus)) in
  let knownObserved := not_nil (phaseRank facts.(ffStatus)) in
  let s := if (s.(hClockStatus) =? "")%string || (negb knownClock && knownObserved) ||
      ((s.(hClockStatus) =? facts.(ffStatus))%string && is_nil s.(hClockElapsed) &&
       not_nil facts.(ffElapsed)) ||
      ClockProgressed (clockFacts s) facts
    then
      let s := if negb (s.(hClockStatus) =? facts.(ffStatus))%string
        then s <| hContinuousSince := at_ |> else s in
      s <| hClockStatus := facts.(ffStatus) |> <| hClockElapsed := facts.(ffElapsed) |>
        <| hClockExtra := facts.(ffExtra) |> <| hClockProgressAt := at_ |>
    else s in
  if negb (facts.(ffStatus) =? s.(hClockStatus))%string || is_nil facts.(ffElapsed)
  then s <| hContinuousSince := at_ |> else s.

Definition FixtureHealthPolicy (s : FixtureHealth) : MutationPolicy :=
  foldl (λ policy incident, RestrictPolicies [policy; incident.(hiPolicy)]) PolicyTrusted
    s.(hEvidence).(xIncidents).

(** The last [n] elements: [l[len(l)-n:]] when [l] is longer. *)
Definition keep_last {A} (n : nat) (l : list A) : list A :=
  if (n <? length l)%nat then drop (length l - n) l else l.

(** One iteration of the resolution loop: the incident with its probes, and
    whether its own recovery rule resolves it. *)
Definition resolveIncident (poll : HealthPoll) (o : HealthObservation) (usable : bool)
    (incident : HealthIncident) : HealthIncident * bool :=
  if (incident.(hiCause) =? CauseUnavailable)%string then (incident, usable)
  else if one_of incident.(hiCause) [CauseClockStalled; CauseBoundaryWarning] then
    let observed := o.(hoComparison).(Observed) in
    let probe := mkFixtureHealthProbe poll.(hlID) poll.(hlAt) (usable && negb o.(hoInterrupted))
      (clockSnapshot o.(hoFixtureID) observed.(ffStatus) observed.(ffElapsed)
         observed.(ffExtra)) in
    let incident := incident <| hiProbes ::= λ ps, keep_last maxRecoveryProbes (ps ++ [probe]) |> in
    (incident, FreshnessRecovered incident.(hiBaseline) incident.(hiProbes))
  else if usable then
    let comparison := o.(hoComparison) <| Stored := incident.(hiBaseline) |>
      <| ConfirmedEvents := incident.(hiConfirmedEvents) |>
      <| StoredEvents := incident.(hiStoredEvents) |> in
    let verdict := AssessFixture comparison in
    (incident, negb (one_of incident.(hiCause) verdict.(fvReasons)))
  else (incident, false).

Definition resolvedTransition (fixtureID : Z) (incident : HealthIncident) : HealthTransition :=
  mkHealthTransition fixtureID incident.(hiCause) incident.(hiStartedAt) true
    incident.(hiLastCredibleAt) "" [] None None "".

Definition resolveStep (s : FixtureHealth) (poll : HealthPoll) (o : HealthObservation)
    (usable : bool) (acc : list HealthIncident * list HealthTransition)
    (incident : HealthIncident) : list HealthIncident * list HealthTransition :=
  let '(retained, transitions) := acc in
  let '(incident, resolved) := resolveIncident poll o usable incident in
  if resolved then (retained, transitions ++ [resolvedTransition s.(hFixtureID) incident])
  else (retained ++ [incident], transitions).

(** The closure [open]: nothing when the cause is already open.  [previousUsable]
    is the usable time before this poll. *)
Definition openIncident (poll : HealthPoll) (o : HealthObservation) (usable : bool)
    (previousUsable : Time) (cause : HealthCause) (policy : MutationPolicy)
    (baseline : FixtureFacts) (events : list EventFact)
    (st : FixtureHealth * list HealthTransition) : FixtureHealth * list HealthTransition :=
  let '(s, transitions) := st in
  if existsb (λ i, (i.(hiCause) =? cause)%string) s.(hEvidence).(xIncidents) then st
  else
    let credibleAt :=
      if (cause =? CauseUnavailable)%string then previousUsable
      else if one_of cause [CauseClockStalled; CauseBoundaryWarning] then s.(hClockProgressAt)
      else zero_time in
    let incident := mkHealthIncident cause poll.(hlAt) credibleAt policy baseline
      o.(hoComparison).(StoredEvents) events [] in
    let missing := if (cause =? ReasonConfirmedEventsMissing)%string
      then efKey <$> missingEvents events o.(hoComparison).(ObservedEvents) else [] in
    let transition := mkHealthTransition s.(hFixtureID) cause poll.(hlAt) false credibleAt
      o.(hoAvailability) missing
      (if usable then Some baseline else None)
      (if usable then Some o.(hoComparison).(Observed) else None)
      o.(hoFailureReason) in
    (s <| hEvidence ::= λ x, x <| xIncidents ::= λ l, l ++ [incident] |> |>,
     transitions ++ [transition]).

(** The first half of [ObserveFixture]: clock, freshness and poll cursor. *)
Definition observeCursor (s : FixtureHealth) (poll : HealthPoll) (o : HealthObservation)
    : FixtureHealth :=
  let s := if s.(hEvidence).(xVersion) =? 0
    then s <| hEvidence ::= λ x, x <| xVersion := HealthEvidenceVersion |> |> else s in
  let previousUsable := s.(hLastUsableAt) in
  let s :=
    if (o.(hoAvailability) =? AvailabilityUsable)%string then
      let s := advanceClock s poll.(hlAt) o in
      let v := AssessFreshness (mkFreshnessEvidence o.(hoComparison).(Observed) poll.(hlAt)
        previousUsable s.(hContinuousSince) s.(hClockProgressAt) true) in
      s <| hEvidence ::= λ x, x <| xFreshness := v.(vState) |> |>
        <| hLastUsableAt := poll.(hlAt) |>
    else
      s <| hContinuousSince := zero_time |>
        <| hEvidence ::= λ x, x <| xFreshness := FreshnessUnknown |> |> in
  s <| hEvidence ::= λ x, x <| xAvailability := o.(hoAvailability) |>
         <| xFailureReason := o.(hoFailureReason) |> |>
    <| hLastPollID := poll.(hlID) |> <| hLastObservedAt := poll.(hlAt) |>.

Definition reasonPolicy (reason : Reason) : MutationPolicy :=
  if (reason =? ReasonFixtureIdentityChanged)%string then PolicyRejected else PolicyPositiveOnly.

Definition ObserveFixture (s : FixtureHealth) (poll : HealthPoll) (o : HealthObservation)
    : FixtureHealth * list HealthTransition :=
  if negb (After poll.(hlAt) s.(hLastObservedAt)) || (poll.(hlID) =? s.(hLastPollID))%string
  then (s, [])
  else
    let usable := (o.(hoAvailability) =? AvailabilityUsable)%string in
    let previousUsable := s.(hLastUsableAt) in
    let s := observeCursor s poll o in
    let '(retained, transitions) :=
      foldl (resolveStep s poll o usable) ([], []) s.(hEvidence).(xIncidents) in
    let s := s <| hEvidence ::= λ x, x <| xIncidents := retained |> |> in
    let open := openIncident poll o usable previousUsable in
    if negb usable then open CauseUnavailable PolicyRejected zeroFacts [] (s, transitions)
    else
      let st :=
        if (s.(hEvidence).(xFreshness) =? FreshnessStalled)%string
        then open CauseClockStalled PolicyPositiveOnly (clockFacts s) [] (s, transitions)
        else if (s.(hEvidence).(xFreshness) =? FreshnessBoundaryWarning)%string
        then open CauseBoundaryWarning PolicyTrusted (clockFacts s) [] (s, transitions)
        else (s, transitions) in
      foldl (λ st reason, open reason (reasonPolicy reason) o.(hoComparison).(Stored)
               o.(hoComparison).(ConfirmedEvents) st)
        st (AssessFixture o.(hoComparison)).(fvReasons).

(** ** Provider evidence (collector_provider.go) *)

Record ProviderHealthEvidence := mkProviderHealthEvidence {
  pVersion : Z;
  pRecent : list HealthEpisode;
  pIncidentAt : Time;
  pProbes : list ProviderHealthProbe }.

#[global] Instance eta_ProviderHealthEvidence : Eta ProviderHealthEvidence := λ x,
  mkProviderHealthEvidence x.(pVersion) x.(pRecent) x.(pIncidentAt) x.(pProbes).

Record ProviderHealth := mkProviderHealth {
  pLastObservedAt : Time;
  pGeneration : Z;
  pPolicy : MutationPolicy;
  pEvidence : ProviderHealthEvidence }.

#[global] Instance eta_ProviderHealth : Eta ProviderHealth := λ p,
  mkProviderHealth p.(pLastObservedAt) p.(pGeneration) p.(pPolicy) p.(pEvidence).

Record HealthResult := mkHealthResult {
  rObservedAt : Time;
  rGeneration : Z;
  rProviderPolicy : MutationPolicy;
  rRequested : Z;
  rUsable : Z;
  rUnavailableIDs : list Z;
  rRestrictedIDs : list Z;
  rStalledIDs : list Z;
  rBoundaryIDs : list Z;
  rCorrelation : HealthCorrelation;
  rTransitions : list HealthTransition;
  rFailedAttempts : Z;
  rIgnored : bool }.

Definition causeFamily (cause : HealthCause) : HealthCause :=
  if one_of cause [CauseUnavailable; CauseClockStalled; CauseBoundaryWarning] then cause
  else CauseIntegrityConflict.

Definition fixtureHasFamily (fixtures : list FixtureHealth) (id : Z) (family : HealthCause)
    : bool :=
  existsb (λ f, (f.(hFixtureID) =? id) &&
    existsb (λ i, (causeFamily i.(hiCause) =? family)%string) f.(hEvidence).(xIncidents)) fixtures.

(** The earliest onset of the family in the fixture, at most [onset]. *)
Definition familyOnset (fixtures : list FixtureHealth) (id : Z) (family : HealthCause)
    (onset : Time) : Time :=
  foldl (λ onset f,
    if negb (f.(hFixtureID) =? id) then onset
    else foldl (λ onset i,
      if (causeFamily i.(hiCause) =? family)%string && Before i.(hiStartedAt) onset
      then i.(hiStartedAt) else onset) onset f.(hEvidence).(xIncidents)) onset fixtures.

Definition closeEpisode (at_ : Time) (id : Z) (family : HealthCause) (e : HealthEpisode)
    : HealthEpisode :=
  if (e.(hpFixtureID) =? id) && (e.(hpCause) =? family)%string
  then mkHealthEpisode e.(hpFixtureID) e.(hpCause) e.(hpStartedAt) at_ else e.

(** One iteration over the poll's transitions, on [(recent, newConflict)]. *)
Definition episodeStep (at_ : Time) (fixtures : list FixtureHealth)
    (acc : list HealthEpisode * bool) (t : HealthTransition) : list HealthEpisode * bool :=
  let '(recent, newConflict) := acc in
  let family := causeFamily t.(htCause) in
  if one_of family [CauseUnavailable; CauseBoundaryWarning] then acc
  else if t.(htResolved) then
    if fixtureHasFamily fixtures t.(htFixtureID) family then acc
    else (closeEpisode at_ t.(htFixtureID) family <$> recent, newConflict)
  else
    let onset := familyOnset fixtures t.(htFixtureID) family t.(htStartedAt) in
    if negb (onset =? at_) then acc
    else
      let newConflict := newConflict || (family =? CauseIntegrityConflict)%string in
      let episode := mkHealthEpisode t.(htFixtureID) family onset zero_time in
      (if bool_decide (episode ∈ recent) then recent else recent ++ [episode], newConflict).

Definition providerTransition (at_ : Time) (resolved : bool) : HealthTransition :=
  mkHealthTransition 0 CauseIntegrityConflict at_ resolved zero_time "" [] None None "".

Definition stalledOf (cause : HealthCause) (f : FixtureHealth) : list Z :=
  (λ _, f.(hFixtureID)) <$>
    filter (λ i, (i.(hiCause) =? cause)%string) f.(hEvidence).(xIncidents).

(** The tail of [ObserveProvider] under a restrictive policy: record a probe and
    lift the restriction when three clean polls are on record. *)
Definition recoverProvider (s : ProviderHealth) (poll : HealthPoll) (complete newSystemic
    newConflict : bool) (recent : list HealthEpisode) (transitions : list HealthTransition)
    : ProviderHealth * list HealthTransition :=
  let s := s <| pEvidence ::= λ x, x <| pProbes ::= λ ps, keep_last 3 (ps ++
    [mkProviderHealthProbe poll.(hlID) poll.(hlAt) complete newSystemic newConflict]) |> |> in
  if ProviderIntegrityRecovered s.(pEvidence).(pProbes) then
    (s <| pGeneration ::= λ g, wrap64 (g + 1) |> <| pPolicy := PolicyTrusted |>
       <| pEvidence := mkProviderHealthEvidence HealthEvidenceVersion recent zero_time [] |>,
     transitions ++ [providerTransition s.(pEvidence).(pIncidentAt) true])
  else (s, transitions).

Definition ObserveProvider (s : ProviderHealth) (poll : HealthPoll)
    (fixtures : list FixtureHealth) (transitions : list HealthTransition)
    : ProviderHealth * HealthResult :=
  let s := if (s.(pPolicy) =? "")%string then s <| pPolicy := PolicyTrusted |> else s in
  let s := s <| pEvidence ::= λ x, x <| pVersion := HealthEvidenceVersion |> |> in
  let usableObs := filter (λ o, (o.(hoAvailability) =? AvailabilityUsable)%string)
    poll.(hlObservations) in
  let unavailable := hoFixtureID <$>
    filter (λ o, negb (o.(hoAvailability) =? AvailabilityUsable)%string) poll.(hlObservations) in
  let usable := Z.of_nat (length usableObs) in
  let requested := Z.of_nat (length poll.(hlObservations)) in
  let restricted := hFixtureID <$>
    filter (λ f, negb (FixtureHealthPolicy f =? PolicyTrusted)%string) fixtures in
  let stalled := concat (stalledOf CauseClockStalled <$> fixtures) in
  let boundary := concat (stalledOf CauseBoundaryWarning <$> fixtures) in
  let kept := filter (λ e, (time_Sub poll.(hlAt) e.(hpStartedAt) <=? CorrelationWindow))
    s.(pEvidence).(pRecent) in
  let '(recent, newConflict) :=
    foldl (episodeStep poll.(hlAt) fixtures) (kept, false) transitions in
  let s := s <| pEvidence ::= λ x, x <| pRecent := recent |> |> in
  let correlation := CorrelateHealth poll.(hlAt) recent in
  let newSystemic := newConflict && (correlation.(hcPolicy) =? PolicyPositiveOnly)%string in
  let '(s, transitions) :=
    if newSystemic then
      let '(s, transitions) :=
        if negb (s.(pPolicy) =? PolicyPositiveOnly)%string
        then (s <| pGeneration ::= λ g, wrap64 (g + 1) |>
                <| pEvidence ::= λ x, x <| pIncidentAt := poll.(hlAt) |> |>,
              transitions ++ [providerTransition poll.(hlAt) false])
        else (s, transitions) in
      (s <| pPolicy := PolicyPositiveOnly |> <| pEvidence ::= λ x, x <| pProbes := [] |> |>,
       transitions)
    else (s, transitions) in
  let complete := (usable =? requested) &&
    forallb (λ o, negb o.(hoInterrupted)) poll.(hlObservations) in
  let '(s, transitions) :=
    if (s.(pPolicy) =? PolicyPositiveOnly)%string
    then recoverProvider s poll complete newSystemic newConflict recent transitions
    else (s, transitions) in
  let s := s <| pLastObservedAt := poll.(hlAt) |> in
  (s, mkHealthResult poll.(hlAt) s.(pGeneration) s.(pPolicy) requested usable
    (sort_by Z.ltb unavailable) (sort_by Z.ltb restricted) (sort_by Z.ltb stalled)
    (sort_by Z.ltb boundary) correlation transitions 0 false).

(** ** The guard of a provider mutation (mutation.go) *)

Record ObservationGuard := mkObservationGuard {
  ogObservationID : string;
  ogObservedAt : Time;
  ogExpectedGeneration : Z;
  ogRequireHealthReceipt : bool }.

Definition ObservationGuard_Validate (g : ObservationGuard) : option string :=
  if (g.(ogObservationID) =? "")%string || (200 <? str_len g.(ogObservationID)) ||
    IsZero g.(ogObservedAt) || (g.(ogExpectedGeneration) <? 0)
  then Some "invalid provider mutation observation" else None.

#[global] Arguments one_of : simpl never.
#[global] Arguments runningClock : simpl never.
#[global] Arguments periodBoundary : simpl never.
#[global] Arguments phaseRank : simpl never.

(** ** Freshness *)

(** A clock is only called stalled, and a fixture only restricted by its clock,
    on continuous evidence: a usable pair of observations at most ninety seconds
    apart, an uninterrupted regime that started no later than the first of them,
    a running status away from a period boundary, and at least three minutes
    since both the last clock progress and the start of the regime. *)
Theorem AssessFreshness_stalled e :
  let v := AssessFreshness e in
  (v.(vPolicy) = PolicyPositiveOnly ↔ v.(vState) = FreshnessStalled) ∧
  (v.(vState) = FreshnessStalled →
     e.(feUsable) = true ∧ runningClock e.(feFacts).(ffStatus) = true ∧
     periodBoundary e.(feFacts) = false ∧
     0 < e.(feObservedAt) - e.(fePreviousUsableAt) ≤ ObservationGapLimit ∧
     e.(feContinuousSince) ≤ e.(fePreviousUsableAt) ∧
     InteriorStaleAfter ≤ e.(feObservedAt) - e.(feContinuousSince) ∧
     InteriorStaleAfter ≤ e.(feObservedAt) - e.(feClockProgressAt)).
Proof.
  intros v. subst v. unfold AssessFreshness.
  destruct (feUsable e); [|done]. cbn [negb orb].
  destruct (IsZero (feObservedAt e)); [done|]. destruct (one_of _ _); [done|].
  destruct (runningClock _); [|done]. cbn [negb].
  match goal with |- context [if ?c then _ else _] => destruct c end; [done|].
  match goal with |- context [if ?c then _ else _] => destruct c eqn:Hc end; [done|].
  cbn zeta.
  destruct (time_Sub _ _ <? _) eqn:Ha; [done|].
  destruct (periodBoundary _); [done|]. split; [done|]. intros _.
  rewrite !orb_false_iff in Hc. destruct Hc as [[[[[[_ H1] H2] _] H3] _] H4].
  unfold Before, After in *. apply negb_false_iff, Z.ltb_lt in H1.
  apply Z.ltb_ge in H2, H3, H4, Ha.
  change ObservationGapLimit with 90000000000 in *.
  change InteriorStaleAfter with 180000000000 in *.
  unfold time_Sub, int64_min, int64_max in *.
  destruct (_ <? _) eqn:Hs in Ha; [apply Z.ltb_lt in Hs|apply Z.ltb_ge in Hs];
    split_and!; try done; lia.
Qed.

(** *** The retained clock is a high-water mark *)

(** The clock [b] is no earlier than [a]: a later phase, or the same status with
    a clock that did not go back. *)
Definition clock_le (a b : FixtureFacts) : Prop :=
  a = b ∨
  forwardPhase a.(ffStatus) b.(ffStatus) = true ∨
  (a.(ffStatus) = b.(ffStatus) ∧
   (a.(ffElapsed) = None ∨ fixtureClock a < fixtureClock b)).

Lemma ClockProgressed_le a b : ClockProgressed a b = true → clock_le a b.
Proof.
  unfold ClockProgressed. intros H. right.
  destruct (negb _ || _ || _ || _); [done|]. destruct (forwardPhase _ _); [by left|right].
  destruct (_ || _ || _) eqn:E in H; [done|].
  rewrite !orb_false_iff, negb_false_iff, String.eqb_eq in E. destruct E as [[Es _] _].
  split; [done|right]. destruct (runningClock _); [|done]. by apply Z.ltb_lt.
Qed.

Lemma ClockProgressed_irrefl f : ClockProgressed f f = false.
Proof.
  unfold ClockProgressed. destruct (_ || _); [done|].
  assert (forwardPhase (ffStatus f) (ffStatus f) = false) as ->.
  { unfold forwardPhase. rewrite !orb_false_iff. split_and!.
    - destruct (phaseRank _); [apply Z.ltb_irrefl|done].
    - by destruct (String.eqb_spec (ffStatus f) "et") as [->|].
    - by destruct (String.eqb_spec (ffStatus f) "bt") as [->|]. }
  destruct (_ || _ || _); [done|]. destruct (runningClock _); [apply Z.ltb_irrefl|done].
Qed.

Lemma forwardPhase_rank a b x y :
  forwardPhase a b = true → phaseRank a = Some x → phaseRank b = Some y → x ≤ y.
Proof.
  unfold forwardPhase. intros H Ha Hb. rewrite Ha, Hb in H.
  destruct (Z.ltb_spec x y); [lia|].
  destruct (String.eqb_spec a "et"), (String.eqb_spec b "bt"), (String.eqb_spec a "bt"),
    (String.eqb_spec b "et"); subst; try done;
    change (phaseRank "et") with (Some 4) in *; change (phaseRank "bt") with (Some 4) in *;
    simplify_eq; lia.
Qed.

Lemma forwardPhase_known a b : forwardPhase a b = true → is_Some (phaseRank b).
Proof.
  unfold forwardPhase. intros H.
  rewrite !orb_true_iff, !andb_true_iff, !String.eqb_eq in H.
  destruct H as [[H|[_ ->]]|[_ ->]]; [|by eexists..].
  destruct (phaseRank a); [|done]. by destruct (phaseRank b); [eexists|].
Qed.

Definition clock_changed (s s' : FixtureHealth) (at_ : Time) : Prop :=
  (clockFacts s' = clockFacts s ∧ s'.(hClockProgressAt) = s.(hClockProgressAt)) ∨
  (s'.(hClockProgressAt) = at_ ∧
   (phaseRank s.(hClockStatus) = None ∨
    (s.(hClockStatus) = s'.(hClockStatus) ∧ s.(hClockElapsed) = None) ∨
    clock_le (clockFacts s) (clockFacts s'))).

Lemma clock_le_snapshot a id0 f :
  ClockProgressed a f = true →
  clock_le a (clockSnapshot id0 (ffStatus f) (ffElapsed f) (ffExtra f)).
Proof.
  intros HP. destruct (ClockProgressed_le _ _ HP) as [->|[H|[H1 H2]]];
    [by rewrite ClockProgressed_irrefl in HP|..].
  - right. by left.
  - right. right. by split.
Qed.

Lemma advanceClock_changed s at_ o : clock_changed s (advanceClock s at_ o) at_.
Proof.
  unfold advanceClock. set (f := Observed (hoComparison o)).
  set (s1 := if negb _ then _ else _). set (s2 := if _ || _ then _ else s1).
  assert (clockFacts s2 = clockFacts s ∧ hClockProgressAt s2 = hClockProgressAt s ∧
    hClockStatus s2 = hClockStatus s ∧ hClockElapsed s2 = hClockElapsed s) as (E1 & E2 & E3 & E4)
    by (subst s2 s1; by repeat case_match).
  clearbody s2. rewrite E1, E3, E4.
  match goal with |- context [if ?c then _ else s2] => destruct c eqn:Hc end.
  - right. split; [by repeat case_match|].
    rewrite !orb_true_iff in Hc. destruct Hc as [[[H|H]|H]|H].
    + left. by apply String.eqb_eq in H as ->.
    + left. apply andb_true_iff in H as [H _]. unfold not_nil in H.
      rewrite negb_involutive in H. by apply is_nil_true.
    + right. left. rewrite !andb_true_iff, String.eqb_eq, is_nil_true in H.
      destruct H as [[H1 H2] _]. split; [|done]. rewrite H1. by repeat case_match.
    + right. right.
      assert (clock_le (clockFacts s)
        (clockSnapshot (hFixtureID s2) (ffStatus f) (ffElapsed f) (ffExtra f))) as Hle
        by by apply clock_le_snapshot.
      by repeat case_match.
  - left. rewrite <-E1, <-E2. by repeat case_match.
Qed.

(** ** Fixture evidence *)

(** The incident an iteration keeps, and the one it resolves. *)
Definition keptIncident (poll : HealthPoll) (o : HealthObservation) (usable : bool)
    (i : HealthIncident) : option HealthIncident :=
  let '(i, resolved) := resolveIncident poll o usable i in if resolved then None else Some i.

Definition closedIncident (poll : HealthPoll) (o : HealthObservation) (usable : bool)
    (i : HealthIncident) : option HealthIncident :=
  let '(i, resolved) := resolveIncident poll o usable i in if resolved then Some i else None.

Lemma resolve_fold s poll o u l r t :
  foldl (resolveStep s poll o u) (r, t) l =
  (r ++ omap (keptIncident poll o u) l,
   t ++ (resolvedTransition s.(hFixtureID) <$> omap (closedIncident poll o u) l)).
Proof.
  revert r t. induction l as [|i l IH]; intros r t; [by rewrite !app_nil_r|]. cbn [foldl].
  assert (resolveStep s poll o u (r, t) i =
    let '(i', b) := resolveIncident poll o u i in
    if b then (r, t ++ [resolvedTransition s.(hFixtureID) i']) else (r ++ [i'], t)) as ->
    by done.
  cbn [omap list_omap]. unfold keptIncident at 1, closedIncident at 1.
  destruct (resolveIncident poll o u i) as [i' []]; rewrite IH; cbn [fmap list_fmap];
    by rewrite <-app_assoc.
Qed.

(** What the second half asks to open, in order. *)
Definition openRequests (s : FixtureHealth) (o : HealthObservation)
    : list (HealthCause * MutationPolicy * FixtureFacts * list EventFact) :=
  if negb (o.(hoAvailability) =? AvailabilityUsable)%string
  then [(CauseUnavailable, PolicyRejected, zeroFacts, [])]
  else
    (if (s.(hEvidence).(xFreshness) =? FreshnessStalled)%string
     then [(CauseClockStalled, PolicyPositiveOnly, clockFacts s, [])]
     else if (s.(hEvidence).(xFreshness) =? FreshnessBoundaryWarning)%string
     then [(CauseBoundaryWarning, PolicyTrusted, clockFacts s, [])] else []) ++
    ((λ reason, (reason, reasonPolicy reason, o.(hoComparison).(Stored),
        o.(hoComparison).(ConfirmedEvents))) <$> (AssessFixture o.(hoComparison)).(fvReasons)).

Definition openStep (poll : HealthPoll) (o : HealthObservation) (usable : bool)
    (previousUsable : Time) (st : FixtureHealth * list HealthTransition)
    (r : HealthCause * MutationPolicy * FixtureFacts * list EventFact)
    : FixtureHealth * list HealthTransition :=
  let '(cause, policy, baseline, events) := r in
  openIncident poll o usable previousUsable cause policy baseline events st.

Definition staleReceipt (s : FixtureHealth) (poll : HealthPoll) : bool :=
  negb (After poll.(hlAt) s.(hLastObservedAt)) || (poll.(hlID) =? s.(hLastPollID))%string.

Definition usableObservation (o : HealthObservation) : bool :=
  (o.(hoAvailability) =? AvailabilityUsable)%string.

Definition afterResolution (s : FixtureHealth) (poll : HealthPoll) (o : HealthObservation)
    : FixtureHealth :=
  let s1 := observeCursor s poll o in
  s1 <| hEvidence ::= λ x, x <| xIncidents :=
    omap (keptIncident poll o (usableObservation o)) s1.(hEvidence).(xIncidents) |> |>.

Lemma requests_fold poll o prev s tr :
  let open := openIncident poll o (usableObservation o) prev in
  (if negb (usableObservation o)
   then open CauseUnavailable PolicyRejected zeroFacts [] (s, tr)
   else
     foldl (λ st reason, open reason (reasonPolicy reason) o.(hoComparison).(Stored)
               o.(hoComparison).(ConfirmedEvents) st)
       (if (s.(hEvidence).(xFreshness) =? FreshnessStalled)%string
        then open CauseClockStalled PolicyPositiveOnly (clockFacts s) [] (s, tr)
        else if (s.(hEvidence).(xFreshness) =? FreshnessBoundaryWarning)%string
        then open CauseBoundaryWarning PolicyTrusted (clockFacts s) [] (s, tr)
        else (s, tr)) (AssessFixture o.(hoComparison)).(fvReasons)) =
  foldl (openStep poll o (usableObservation o) prev) (s, tr) (openRequests s o).
Proof.
  intros open. unfold openRequests. fold (usableObservation o).
  destruct (usableObservation o); cbn [negb]; [|done].
  rewrite foldl_app, foldl_fmap.
  destruct (_ =? FreshnessStalled)%string; [done|].
  by destruct (_ =? FreshnessBoundaryWarning)%string.
Qed.

(** The handler is: advance the cursor, resolve, then open the requests. *)
Lemma ObserveFixture_fresh s poll o :
  staleReceipt s poll = false →
  let u := usableObservation o in
  ObserveFixture s poll o =
  foldl (openStep poll o u s.(hLastUsableAt))
    (afterResolution s poll o,
     resolvedTransition (observeCursor s poll o).(hFixtureID) <$>
       omap (closedIncident poll o u) (observeCursor s poll o).(hEvidence).(xIncidents))
    (openRequests (afterResolution s poll o) o).
Proof.
  intros Hs u. unfold ObserveFixture. unfold staleReceipt in Hs. rewrite Hs.
  rewrite resolve_fold. exact (requests_fold _ _ _ _ _).
Qed.

Lemma cursor_incidents s poll o :
  (observeCursor s poll o).(hEvidence).(xIncidents) = s.(hEvidence).(xIncidents).
Proof. unfold observeCursor, advanceClock. by repeat case_match. Qed.

Lemma cursor_at s poll o : (observeCursor s poll o).(hLastObservedAt) = poll.(hlAt).
Proof. unfold observeCursor. by repeat case_match. Qed.

Lemma cursor_poll s poll o : (observeCursor s poll o).(hLastPollID) = poll.(hlID).
Proof. unfold observeCursor. by repeat case_match. Qed.

Lemma cursor_fixture s poll o : (observeCursor s poll o).(hFixtureID) = s.(hFixtureID).
Proof. unfold observeCursor, advanceClock. by repeat case_match. Qed.

(** *** Well-formed evidence *)

(** The restriction each cause stands for. *)
Definition causePolicy (cause : HealthCause) : MutationPolicy :=
  if (cause =? CauseUnavailable)%string then PolicyRejected
  else if (cause =? CauseClockStalled)%string then PolicyPositiveOnly
  else if (cause =? CauseBoundaryWarning)%string then PolicyTrusted
  else reasonPolicy cause.

Definition incidents (s : FixtureHealth) : list HealthIncident := s.(hEvidence).(xIncidents).

Record incident_ok (now : Time) (i : HealthIncident) : Prop := {
  io_policy : i.(hiPolicy) = causePolicy i.(hiCause);
  io_probes : (length i.(hiProbes) ≤ maxRecoveryProbes)%nat;
  io_started : i.(hiStartedAt) ≤ now }.

(** One incident per cause, each with the policy of its cause, a bounded probe
    history and an onset that is not in the future. *)
Record evidence_ok (s : FixtureHealth) : Prop := {
  eo_causes : NoDup (hiCause <$> incidents s);
  eo_incidents : Forall (incident_ok s.(hLastObservedAt)) (incidents s) }.

Lemma length_keep_last {A} n (l : list A) : (length (keep_last n l) ≤ n)%nat.
Proof. unfold keep_last. destruct (Nat.ltb_spec n (length l)); [rewrite length_drop|]; lia. Qed.

(** What an iteration may change of an incident: only its probes. *)
Definition same_onset (i j : HealthIncident) : Prop :=
  j.(hiCause) = i.(hiCause) ∧ j.(hiStartedAt) = i.(hiStartedAt) ∧
  j.(hiLastCredibleAt) = i.(hiLastCredibleAt) ∧ j.(hiPolicy) = i.(hiPolicy) ∧
  j.(hiBaseline) = i.(hiBaseline) ∧ j.(hiStoredEvents) = i.(hiStoredEvents) ∧
  j.(hiConfirmedEvents) = i.(hiConfirmedEvents).

Lemma resolveIncident_same poll o u i : same_onset i (resolveIncident poll o u i).1.
Proof. unfold resolveIncident. by repeat case_match. Qed.

Lemma resolveIncident_ok poll o u i t now :
  incident_ok t i → t ≤ now → incident_ok now (resolveIncident poll o u i).1.
Proof.
  intros [H1 H2 H3] Ht. unfold resolveIncident.
  destruct (_ =? _)%string; [constructor; [done..|simpl; lia]|].
  destruct (one_of _ _); [|destruct u; (constructor; [done..|simpl; lia])].
  constructor; cbn; [done|apply length_keep_last|lia].
Qed.

Lemma kept_inv poll o u i j :
  keptIncident poll o u i = Some j → j = (resolveIncident poll o u i).1 ∧
    (resolveIncident poll o u i).2 = false.
Proof. unfold keptIncident. destruct (resolveIncident poll o u i) as [i' []]; naive_solver. Qed.

Lemma closed_inv poll o u i j :
  closedIncident poll o u i = Some j → j = (resolveIncident poll o u i).1 ∧
    (resolveIncident poll o u i).2 = true.
Proof. unfold closedIncident. destruct (resolveIncident poll o u i) as [i' []]; naive_solver. Qed.

Lemma kept_causes_sublist poll o u l :
  hiCause <$> omap (keptIncident poll o u) l `sublist_of` hiCause <$> l.
Proof.
  induction l as [|i l IH]; simpl; [constructor|].
  destruct (keptIncident poll o u i) as [j|] eqn:E; simpl; [|by apply sublist_cons].
  apply kept_inv in E as [-> _]. destruct (resolveIncident_same poll o u i) as [-> _].
  by apply sublist_skip.
Qed.

Lemma after_incidents s poll o :
  incidents (afterResolution s poll o) =
  omap (keptIncident poll o (usableObservation o)) (incidents s).
Proof. unfold incidents. rewrite <-(cursor_incidents s poll o). done. Qed.

Lemma after_at s poll o : (afterResolution s poll o).(hLastObservedAt) = poll.(hlAt).
Proof. exact (cursor_at s poll o). Qed.

Lemma after_poll s poll o : (afterResolution s poll o).(hLastPollID) = poll.(hlID).
Proof. exact (cursor_poll s poll o). Qed.

Lemma afterResolution_ok s poll o :
  evidence_ok s → s.(hLastObservedAt) ≤ poll.(hlAt) → evidence_ok (afterResolution s poll o).
Proof.
  intros [H1 H2] Ht. constructor; rewrite after_incidents.
  - eapply sublist_NoDup; [exact H1|]. apply kept_causes_sublist.
  - rewrite after_at. apply Forall_forall. intros j Hj.
    apply list_elem_of_omap in Hj as (i & Hi & Hk). apply kept_inv in Hk as [-> _].
    rewrite Forall_forall in H2. eapply resolveIncident_ok; [by apply H2|done].
Qed.

Definition openedIncident (poll : HealthPoll) (o : HealthObservation) (credible : Time)
    (r : HealthCause * MutationPolicy * FixtureFacts * list EventFact) : HealthIncident :=
  let '(cause, policy, baseline, events) := r in
  mkHealthIncident cause poll.(hlAt) credible policy baseline o.(hoComparison).(StoredEvents)
    events [].

(** An open request either finds its cause open and does nothing, or appends one
    incident and one transition. *)
Lemma openStep_spec poll o u prev s tr r :
  let c := r.1.1.1 in
  (c ∈ (hiCause <$> incidents s) ∧ openStep poll o u prev (s, tr) r = (s, tr)) ∨
  (c ∉ (hiCause <$> incidents s) ∧ ∃ credible t,
     openStep poll o u prev (s, tr) r =
       (s <| hEvidence ::= λ x, x <| xIncidents ::= λ l, l ++ [openedIncident poll o credible r] |> |>,
        tr ++ [t]) ∧
     t.(htCause) = c ∧ t.(htResolved) = false ∧ t.(htStartedAt) = poll.(hlAt)).
Proof.
  destruct r as [[[c p] b] e]. intros c'. subst c'. cbn [fst openStep].
  unfold openIncident. destruct (existsb _ _) eqn:E.
  - left. split; [|done]. apply existsb_exists in E as (i & Hi & Hc).
    apply String.eqb_eq in Hc as <-. apply list_elem_of_fmap. exists i. split; [done|].
    by apply list_elem_of_In.
  - right. split; [|by do 2 eexists].
    intros (i & -> & Hi)%list_elem_of_fmap. apply list_elem_of_In in Hi.
    assert (existsb (λ j, (hiCause j =? hiCause i)%string) (xIncidents (hEvidence s)) = true)
      as E'; [|congruence].
    apply existsb_exists. exists i. split; [done|]. apply String.eqb_refl.
Qed.

(** An open cause is kept or resolved, never both. *)
Lemma kept_or_closed poll o u l :
  NoDup (hiCause <$> l) →
  ∀ c, c ∈ (hiCause <$> omap (keptIncident poll o u) l) ↔
    c ∈ (hiCause <$> l) ∧ c ∉ (hiCause <$> omap (closedIncident poll o u) l).
Proof.
  intros Hnd c. split.
  - intros (j & -> & Hj)%list_elem_of_fmap. apply list_elem_of_omap in Hj as (i & Hi & Hk).
    apply kept_inv in Hk as [-> Hk]. destruct (resolveIncident_same poll o u i) as [-> _].
    split; [by apply list_elem_of_fmap_2|].
    intros (j' & Hc & Hj')%list_elem_of_fmap. apply list_elem_of_omap in Hj' as (i' & Hi' & Hk').
    apply closed_inv in Hk' as [-> Hk'].
    destruct (resolveIncident_same poll o u i') as [Hc' _]. rewrite Hc' in Hc.
    assert (i = i') as <- by by eapply NoDup_fmap_inj. congruence.
  - intros [(i & -> & Hi)%list_elem_of_fmap Hn]. apply list_elem_of_fmap.
    destruct (resolveIncident_same poll o u i) as [Hc _].
    exists (resolveIncident poll o u i).1. split; [done|]. apply list_elem_of_omap.
    exists i. split; [done|]. unfold keptIncident.
    destruct (resolveIncident poll o u i) as [j []] eqn:E; [|done]. destruct Hn.
    apply list_elem_of_fmap. exists j. split; [by cbn in Hc|]. apply list_elem_of_omap.
    exists i. split; [done|]. unfold closedIncident. by rewrite E.
Qed.

(** What a sequence of open requests adds. *)
Definition opens (poll : HealthPoll) (s s' : FixtureHealth) (tr tr' : list HealthTransition)
    (reqs : list (HealthCause * MutationPolicy * FixtureFacts * list EventFact)) : Prop :=
  ∃ new ts, incidents s' = incidents s ++ new ∧ tr' = tr ++ ts ∧
    (htCause <$> ts) = (hiCause <$> new) ∧ Forall (λ t, htResolved t = false) ts ∧
    NoDup (hiCause <$> new) ∧
    Forall (λ i, hiCause i ∉ (hiCause <$> incidents s)) new ∧
    Forall (λ i, hiStartedAt i = poll.(hlAt) ∧ hiProbes i = [] ∧
      (hiCause i, hiPolicy i) ∈ (λ r, (r.1.1.1, r.1.1.2)) <$> reqs) new ∧
    Forall (λ r, r.1.1.1 ∈ (hiCause <$> incidents s')) reqs ∧
    s'.(hLastObservedAt) = s.(hLastObservedAt) ∧ s'.(hLastPollID) = s.(hLastPollID) ∧
    clockFacts s' = clockFacts s ∧ s'.(hClockProgressAt) = s.(hClockProgressAt).

Lemma opens_fold poll o u prev reqs s tr :
  let st := foldl (openStep poll o u prev) (s, tr) reqs in
  opens poll s st.1 tr st.2 reqs.
Proof.
  revert s tr. induction reqs as [|r reqs IH]; intros s tr st; subst st; cbn [foldl].
  { exists [], []. rewrite !app_nil_r. split_and!; try done; constructor. }
  destruct (openStep_spec poll o u prev s tr r) as [[Hc ->]|(Hc & cr & t & -> & T1 & T2 & T3)].
  - destruct (IH s tr) as (new & ts & E1 & E2 & H1 & H2 & H3 & H4 & H5 & H6 & H7).
    exists new, ts. destruct H7 as (? & ? & ? & ?). split_and!; try done.
    + eapply Forall_impl; [exact H5|]. intros i (? & ? & ?). split_and!; [done..|]. by right.
    + constructor; [|done]. rewrite E1, fmap_app. apply elem_of_app. by left.
  - set (s1 := s <| hEvidence ::= _ |>).
    assert (incidents s1 = incidents s ++ [openedIncident poll o cr r] ∧
      hLastObservedAt s1 = hLastObservedAt s ∧ hLastPollID s1 = hLastPollID s ∧
      clockFacts s1 = clockFacts s ∧ hClockProgressAt s1 = hClockProgressAt s)
      as (S1 & S2 & S3 & S4 & S5) by done.
    clearbody s1.
    destruct (IH s1 (tr ++ [t])) as (new & ts & E1 & E2 & H1 & H2 & H3 & H4 & H5 & H6 & H7).
    rewrite S1 in E1, H4. rewrite S2, S3, S4, S5 in H7.
    exists (openedIncident poll o cr r :: new), (t :: ts).
    assert (hiCause (openedIncident poll o cr r) = r.1.1.1 ∧
      hiPolicy (openedIncident poll o cr r) = r.1.1.2 ∧
      hiStartedAt (openedIncident poll o cr r) = hlAt poll ∧
      hiProbes (openedIncident poll o cr r) = []) as (O1 & O2 & O3 & O4)
      by by destruct r as [[[? ?] ?] ?].
    rewrite fmap_app in H4. cbn [fmap list_fmap] in *. destruct H7 as (? & ? & ? & ?).
    split_and!; try done.
    + by rewrite E1, <-app_assoc.
    + by rewrite E2, <-app_assoc.
    + by rewrite T1, H1, O1.
    + by constructor.
    + constructor; [|done]. rewrite O1. intros (i & Hi & Hin)%list_elem_of_fmap.
      rewrite Forall_forall in H4. apply (H4 i Hin), elem_of_app. right. rewrite <-Hi, O1. left.
    + constructor; [by rewrite O1|]. eapply Forall_impl; [exact H4|].
      intros i Hi Hin. apply Hi, elem_of_app. by left.
    + constructor; [|eapply Forall_impl; [exact H5|]; intros i (? & ? & ?);
        split_and!; [done..|by right]].
      split_and!; [done..|]. rewrite O1, O2. by left.
    + constructor; [|done]. rewrite E1, !fmap_app, <-O1.
      apply elem_of_app; left. apply elem_of_app; right. left.
Qed.

Lemma elem_of_reason_if r b x : r ∈ reason_if b x → r = x.
Proof. destruct b; simpl; [intros ->%list_elem_of_singleton; done|by intros ?%elem_of_nil]. Qed.

Lemma AssessFixture_reasons c r :
  r ∈ (AssessFixture c).(fvReasons) →
  one_of r [CauseUnavailable; CauseClockStalled; CauseBoundaryWarning] = false.
Proof.
  unfold AssessFixture; cbn [fvReasons]. rewrite !elem_of_app.
  intros H. destruct H as [H|[H|[H|[H|[H|[H|H]]]]]]; apply elem_of_reason_if in H; by rewrite H.
Qed.

Lemma causePolicy_reason r :
  one_of r [CauseUnavailable; CauseClockStalled; CauseBoundaryWarning] = false →
  causePolicy r = reasonPolicy r.
Proof.
  unfold one_of, causePolicy. cbn [existsb]. rewrite !orb_false_iff. by intros (-> & -> & -> & _).
Qed.

Lemma openRequests_policy s o : Forall (λ r, r.1.1.2 = causePolicy r.1.1.1) (openRequests s o).
Proof.
  unfold openRequests. destruct (negb _); [by repeat constructor|].
  apply Forall_app. split; [by repeat case_match; repeat constructor|].
  apply Forall_fmap, Forall_forall. intros r Hr. cbn. symmetry.
  by apply causePolicy_reason, (AssessFixture_reasons (hoComparison o)).
Qed.

Lemma fresh_at s poll : staleReceipt s poll = false → s.(hLastObservedAt) < poll.(hlAt).
Proof. unfold staleReceipt, After. rewrite orb_false_iff, negb_false_iff, Z.ltb_lt. by intros []. Qed.

Lemma ObserveFixture_stale s poll o : staleReceipt s poll = true → ObserveFixture s poll o = (s, []).
Proof. intros Hs. unfold ObserveFixture. unfold staleReceipt in Hs. by rewrite Hs. Qed.

(** The shape of a processed poll: the resolved transitions, then what was opened. *)
Lemma ObserveFixture_opens s poll o :
  staleReceipt s poll = false →
  opens poll (afterResolution s poll o) (ObserveFixture s poll o).1
    (resolvedTransition s.(hFixtureID) <$>
       omap (closedIncident poll o (usableObservation o)) (incidents s))
    (ObserveFixture s poll o).2 (openRequests (afterResolution s poll o) o).
Proof.
  intros Hs. rewrite (ObserveFixture_fresh _ _ _ Hs), cursor_fixture, cursor_incidents.
  apply opens_fold.
Qed.

Lemma ObserveFixture_ok s poll o :
  evidence_ok s → evidence_ok (ObserveFixture s poll o).1.
Proof.
  intros Hok. destruct (staleReceipt s poll) eqn:Hs; [by rewrite ObserveFixture_stale|].
  pose proof (fresh_at _ _ Hs) as Hlt.
  destruct (afterResolution_ok s poll o Hok) as [A1 A2]; [lia|].
  destruct (ObserveFixture_opens s poll o Hs)
    as (new & ts & E1 & _ & _ & _ & H3 & H4 & H5 & _ & H7 & _).
  rewrite after_at in *. constructor; rewrite E1.
  - rewrite fmap_app. apply NoDup_app. split_and!; [done| |done].
    intros c Hc (i & -> & Hi)%list_elem_of_fmap. rewrite Forall_forall in H4. by apply (H4 i Hi).
  - rewrite H7. apply Forall_app. split; [done|]. eapply Forall_impl; [exact H5|].
    intros i (Hst & Hpr & Hin). constructor; [|rewrite Hpr; simpl; lia|lia].
    apply list_elem_of_fmap in Hin as (r & Hr & Hin).
    pose proof (openRequests_policy (afterResolution s poll o) o) as HP.
    rewrite Forall_forall in HP. injection Hr as Hc Hp. rewrite Hc, Hp. by apply HP.
Qed.

(** The record a fixture starts from, and the state after a sequence of polls. *)
Definition newFixtureHealth (id : Z) : FixtureHealth :=
  mkFixtureHealth id "" zero_time zero_time zero_time zero_time zero_time "" "" None None
    (mkFixtureHealthEvidence 0 "" "" "" []).

Lemma newFixtureHealth_ok id : evidence_ok (newFixtureHealth id).
Proof. split; constructor. Qed.

Definition observe_run (s : FixtureHealth) (polls : list (HealthPoll * HealthObservation))
    : FixtureHealth :=
  foldl (λ s po, (ObserveFixture s po.1 po.2).1) s polls.

(** The durable evidence of a fixture stays well formed under every sequence
    of polls, whatever their order and however often one is delivered: at most
    one open incident per cause, each with the policy its cause stands for, at
    most thirty-two recovery probes, and no onset later than the last
    observation. *)
Theorem observe_run_ok id polls : evidence_ok (observe_run (newFixtureHealth id) polls).
Proof.
  pose proof (newFixtureHealth_ok id) as H. revert H. generalize (newFixtureHealth id). unfold observe_run.
  induction polls as [|po polls IH]; intros s H; [done|]. by apply IH, ObserveFixture_ok.
Qed.

(** The transition ledger accounts for every change: after a fresh poll a
    cause is open exactly when it was open and was not reported resolved, or was
    reported opened; no cause is reported opened while it stays open, and every
    incident that stays open keeps its onset, its baseline and its policy. *)
Theorem ObserveFixture_ledger s poll o :
  evidence_ok s → staleReceipt s poll = false →
  let '(s', ts) := ObserveFixture s poll o in
  let resolved := htCause <$> filter (λ t, htResolved t = true) ts in
  let opened := htCause <$> filter (λ t, htResolved t = false) ts in
  (∀ c, c ∈ (hiCause <$> incidents s') ↔
     (c ∈ (hiCause <$> incidents s) ∧ c ∉ resolved) ∨ c ∈ opened) ∧
  (∀ c, c ∈ opened → c ∈ (hiCause <$> incidents s) → c ∈ resolved) ∧
  (∀ i, i ∈ incidents s → i.(hiCause) ∉ resolved →
     ∃ j, j ∈ incidents s' ∧ same_onset i j).
Proof.
  intros Hok Hs. pose proof (ObserveFixture_opens s poll o Hs)
    as (new & ts & E1 & E2 & H1 & H2 & H3 & H4 & H5 & H6 & _).
  destruct (ObserveFixture s poll o) as [s' ts']. cbn [fst snd] in *. subst ts'.
  set (closed := omap (closedIncident poll o (usableObservation o)) (incidents s)) in *.
  assert (Forall (λ t, htResolved t = true) (resolvedTransition (hFixtureID s) <$> closed))
    as HC by by apply Forall_fmap, Forall_true.
  rewrite !filter_app, !fmap_app, (filter_all _ _ HC), (filter_all _ _ H2).
  rewrite (filter_none _ ts), (filter_none _ (_ <$> closed)), app_nil_r, app_nil_l, H1,
    <-list_fmap_compose; [|eapply Forall_impl; [eassumption|]; by intros t ->..].
  change (htCause ∘ _) with hiCause.
  rewrite after_incidents in E1, H4. rewrite E1, fmap_app.
  pose proof (kept_or_closed poll o (usableObservation o) (incidents s) (eo_causes s Hok)) as K.
  fold closed in K. split_and!.
  - intros c. rewrite elem_of_app, K. tauto.
  - intros c Hc Hin. destruct (decide (c ∈ (hiCause <$> closed))) as [|Hn]; [done|exfalso].
    apply list_elem_of_fmap in Hc as (i & -> & Hi). rewrite Forall_forall in H4.
    apply (H4 i Hi). by apply K.
  - intros i Hi Hn. exists (resolveIncident poll o (usableObservation o) i).1.
    split; [|apply resolveIncident_same]. apply elem_of_app. left.
    apply list_elem_of_omap. exists i. split; [done|]. unfold keptIncident.
    destruct (resolveIncident poll o (usableObservation o) i) as [j []] eqn:E; [|done].
    destruct Hn. apply list_elem_of_fmap. exists j. split.
    + destruct (resolveIncident_same poll o (usableObservation o) i) as [Hc _].
      by rewrite E in Hc.
    + apply list_elem_of_omap. exists i. split; [done|]. unfold closedIncident. by rewrite E.
Qed.

Lemma ObserveFixture_ledger_witness :
  let s := newFixtureHealth 7 in
  let o := mkHealthObservation 7 AvailabilityTransport "timeout" false None
    (mkFixtureComparison zeroFacts zeroFacts [] [] []) in
  let '(s', ts) := ObserveFixture s (mkHealthPoll "p1" 10 [o]) o in
  (hiCause <$> incidents s') = [CauseUnavailable] ∧
  (CauseUnavailable ∈ (hiCause <$> incidents s') ↔
     (CauseUnavailable ∈ (hiCause <$> incidents s) ∧
      CauseUnavailable ∉ (htCause <$> filter (λ t, htResolved t = true) ts)) ∨
     CauseUnavailable ∈ (htCause <$> filter (λ t, htResolved t = false) ts)).
Proof.
  intros s o.
  pose proof (ObserveFixture_ledger s (mkHealthPoll "p1" 10 [o]) o (newFixtureHealth_ok 7)) as H.
  specialize (H eq_refl). destruct (ObserveFixture _ _ _) as [s' ts] eqn:E.
  vm_compute in E. injection E as <- <-.
  split; [reflexivity|]. apply H.
Defined.

(** *** The policy of a fixture *)

Lemma severity_policy_of n : 0 ≤ n ≤ 2 → severity (policy_of n) = n.
Proof. intros H. assert (n = 0 ∨ n = 1 ∨ n = 2) as [->|[->| ->]] by lia; done. Qed.

Lemma FixtureHealthPolicy_max s :
  FixtureHealthPolicy s = policy_of (foldr Z.max 0 ((severity ∘ hiPolicy) <$> incidents s)).
Proof.
  unfold FixtureHealthPolicy, incidents.
  assert (∀ l n, 0 ≤ n ≤ 2 →
    foldl (λ p i, RestrictPolicies [p; hiPolicy i]) (policy_of n) l =
    policy_of (Z.max n (foldr Z.max 0 ((severity ∘ hiPolicy) <$> l)))) as H.
  { induction l as [|i l IH]; intros n Hn; cbn [foldl fmap list_fmap foldr]; [f_equal; lia|].
    pose proof (severity_bounds (hiPolicy i)).
    rewrite RestrictPolicies_max. cbn [fmap list_fmap foldr]. rewrite severity_policy_of by done.
    rewrite IH by lia. f_equal. cbn [compose]. lia. }
  rewrite (H _ 0) by lia. f_equal. rewrite Z.max_r; [done|].
  induction (xIncidents _); cbn [fmap list_fmap foldr]; lia.
Qed.

Lemma max_ge n l : n ∈ l → n ≤ foldr Z.max 0 l.
Proof. induction 1; simpl; lia. Qed.

Lemma max_le k l : 0 ≤ k → (∀ n, n ∈ l → n ≤ k) → foldr Z.max 0 l ≤ k.
Proof.
  intros Hk. induction l as [|m l IH]; intros H; simpl; [lia|].
  pose proof (H m (list_elem_of_here _ _)). assert (foldr Z.max 0 l ≤ k); [|lia].
  apply IH. intros n Hn. apply H. by right.
Qed.

Lemma cause_severity c :
  severity (causePolicy c) =
  if one_of c [CauseUnavailable; ReasonFixtureIdentityChanged] then 2
  else if (c =? CauseBoundaryWarning)%string then 0 else 1.
Proof.
  unfold causePolicy, reasonPolicy, one_of. cbn [existsb].
  destruct (String.eqb_spec c CauseUnavailable) as [->|]; [done|].
  destruct (String.eqb_spec c CauseClockStalled) as [->|]; [done|].
  destruct (String.eqb_spec c CauseBoundaryWarning) as [->|]; [done|].
  by destruct (String.eqb_spec c ReasonFixtureIdentityChanged).
Qed.

Lemma FixtureHealthPolicy_bounds s :
  evidence_ok s →
  ∃ m, FixtureHealthPolicy s = policy_of m ∧
    (∀ c, c ∈ (hiCause <$> incidents s) → severity (causePolicy c) ≤ m) ∧
    (∀ k, 0 ≤ k → (∀ c, c ∈ (hiCause <$> incidents s) → severity (causePolicy c) ≤ k) → m ≤ k).
Proof.
  intros [_ Hok]. rewrite FixtureHealthPolicy_max. eexists. split; [done|].
  assert ((severity ∘ hiPolicy) <$> incidents s =
    (severity ∘ causePolicy) <$> (hiCause <$> incidents s)) as ->.
  { rewrite <-list_fmap_compose. apply list_fmap_ext. intros ? i Hi.
    rewrite Forall_forall in Hok. unfold compose.
    by rewrite (io_policy _ _ (Hok i (list_elem_of_lookup_2 _ _ _ Hi))). }
  split.
  - intros c Hc. apply max_ge, list_elem_of_fmap. by exists c.
  - intros k Hk H. apply max_le; [done|]. intros n (c & -> & Hc)%list_elem_of_fmap. by apply H.
Qed.

Lemma policy_of_rejected m : policy_of m = PolicyRejected ↔ ¬ m ≤ 1.
Proof.
  unfold policy_of. destruct (Z.leb_spec m 0), (Z.eqb_spec m 1); split; intros; try done; lia.
Qed.

Lemma policy_of_trusted m : policy_of m = PolicyTrusted ↔ m ≤ 0.
Proof.
  unfold policy_of. destruct (Z.leb_spec m 0), (Z.eqb_spec m 1); split; intros; try done; lia.
Qed.

(** The policy of a fixture is the strictest of its open causes: it is
    rejected exactly while the fixture is unavailable or its identity changed,
    and trusted exactly when nothing but boundary warnings is open. *)
Theorem FixtureHealthPolicy_causes s :
  evidence_ok s →
  (FixtureHealthPolicy s = PolicyRejected ↔
     CauseUnavailable ∈ (hiCause <$> incidents s) ∨
     ReasonFixtureIdentityChanged ∈ (hiCause <$> incidents s)) ∧
  (FixtureHealthPolicy s = PolicyTrusted ↔
     ∀ c, c ∈ (hiCause <$> incidents s) → c = CauseBoundaryWarning).
Proof.
  intros (m & -> & Hge & Hle)%FixtureHealthPolicy_bounds.
  rewrite policy_of_rejected, policy_of_trusted.
  set (cs := hiCause <$> incidents s) in *. clearbody cs.
  setoid_rewrite cause_severity in Hge. setoid_rewrite cause_severity in Hle.
  split; split.
  - intros Hm. destruct (decide (CauseUnavailable ∈ cs)); [by left|].
    destruct (decide (ReasonFixtureIdentityChanged ∈ cs)); [by right|]. destruct Hm.
    apply Hle; [lia|]. intros c Hc. destruct (one_of _ _) eqn:E; [|case_match; lia].
    exfalso. apply one_of_true in E. set_solver.
  - intros [H|H] Hm; apply Hge in H; unfold one_of in H; cbn in H; lia.
  - intros Hm c Hc. apply Hge in Hc. revert Hc. destruct (one_of _ _); [lia|].
    destruct (String.eqb_spec c CauseBoundaryWarning); [done|lia].
  - intros H. apply Hle; [lia|]. by intros c ->%H.
Qed.

Lemma FixtureHealthPolicy_causes_witness :
  FixtureHealthPolicy (newFixtureHealth 7) = PolicyTrusted ↔
    ∀ c, c ∈ (hiCause <$> incidents (newFixtureHealth 7)) → c = CauseBoundaryWarning.
Proof. apply FixtureHealthPolicy_causes, newFixtureHealth_ok. Defined.

(** A poll that could not observe a fixture rejects its provider writes at
    once, and the unavailable incident it opened is resolved by the next usable
    observation, whatever that observation reports. *)
Theorem unusable_poll_rejects s poll o poll' o' :
  evidence_ok s → staleReceipt s poll = false → usableObservation o = false →
  let s1 := (ObserveFixture s poll o).1 in
  FixtureHealthPolicy s1 = PolicyRejected ∧
  (staleReceipt s1 poll' = false → usableObservation o' = true →
   CauseUnavailable ∉ (hiCause <$> incidents (ObserveFixture s1 poll' o').1)).
Proof.
  intros Hok Hs Hu s1. split.
  - destruct (ObserveFixture_opens s poll o Hs)
      as (new & ts & _ & _ & _ & _ & _ & _ & _ & H6 & _).
    unfold openRequests in H6. fold (usableObservation o) in H6. rewrite Hu in H6.
    apply Forall_cons in H6 as [H6 _]. cbn in H6. fold s1 in H6.
    destruct (FixtureHealthPolicy_bounds s1 (ObserveFixture_ok s poll o Hok))
      as (m & -> & Hge & _).
    apply policy_of_rejected. apply Hge in H6. cbn in H6. lia.
  - intros Hs' Hu'. destruct (ObserveFixture_opens s1 poll' o' Hs')
      as (new & ts & -> & _ & _ & _ & _ & _ & H5 & _).
    rewrite after_incidents, Hu', fmap_app, elem_of_app. intros [H|H].
    + apply list_elem_of_fmap in H as (j & Hc & Hj).
      apply list_elem_of_omap in Hj as (i & Hi & Hk). apply kept_inv in Hk as [-> Hk].
      destruct (resolveIncident_same poll' o' true i) as [Hc' _]. rewrite Hc' in Hc.
      unfold resolveIncident in Hk. by rewrite <-Hc in Hk.
    + apply list_elem_of_fmap in H as (j & Hc & Hj). rewrite Forall_forall in H5.
      destruct (H5 j Hj) as (_ & _ & Hin). rewrite <-Hc in Hin.
      apply list_elem_of_fmap in Hin as (r & Hr & Hin). injection Hr as Hr _.
      unfold openRequests in Hin. fold (usableObservation o') in Hin. rewrite Hu' in Hin.
      cbn [negb] in Hin. apply elem_of_app in Hin as [Hin|Hin].
      * repeat case_match; try (by apply elem_of_nil in Hin);
          apply list_elem_of_singleton in Hin; by subst r.
      * apply list_elem_of_fmap in Hin as (x & -> & Hx). cbn in Hr. subst x.
        by apply AssessFixture_reasons in Hx.
Qed.

Lemma unusable_poll_rejects_witness :
  let o := mkHealthObservation 7 AvailabilityTransport "timeout" false None
    (mkFixtureComparison zeroFacts zeroFacts [] [] []) in
  let o' := mkHealthObservation 7 AvailabilityUsable "" false None
    (mkFixtureComparison zeroFacts zeroFacts [] [] []) in
  let s1 := (ObserveFixture (newFixtureHealth 7) (mkHealthPoll "p1" 10 [o]) o).1 in
  FixtureHealthPolicy s1 = PolicyRejected ∧
  CauseUnavailable ∉ (hiCause <$> incidents (ObserveFixture s1 (mkHealthPoll "p2" 20 [o']) o').1).
Proof.
  intros o o' s1.
  destruct (unusable_poll_rejects (newFixtureHealth 7) (mkHealthPoll "p1" 10 [o]) o
    (mkHealthPoll "p2" 20 [o']) o' (newFixtureHealth_ok 7) eq_refl eq_refl) as [H1 H2].
  split; [exact H1|]. exact (H2 eq_refl eq_refl).
Defined.

(** *** The clock of a fixture never moves back *)

Lemma cursor_changed s poll o : clock_changed s (observeCursor s poll o) poll.(hlAt).
Proof.
  unfold observeCursor. set (s1 := if _ =? 0 then _ else s).
  assert (clockFacts s1 = clockFacts s ∧ hClockProgressAt s1 = hClockProgressAt s ∧
    hClockStatus s1 = hClockStatus s ∧ hClockElapsed s1 = hClockElapsed s) as (E1 & E2 & E3 & E4)
    by (subst s1; by case_match).
  clearbody s1. destruct (_ =? AvailabilityUsable)%string; [|left; by rewrite <-E1, <-E2].
  pose proof (advanceClock_changed s1 (hlAt poll) o) as H. unfold clock_changed in *.
  rewrite <-E1, <-E2, <-E3, <-E4. exact H.
Qed.

Lemma observe_changed s poll o :
  ObserveFixture s poll o = (s, []) ∨
  (hLastObservedAt s < hlAt poll ∧
   hLastObservedAt (ObserveFixture s poll o).1 = hlAt poll ∧
   clock_changed s (ObserveFixture s poll o).1 (hlAt poll)).
Proof.
  destruct (staleReceipt s poll) eqn:Hs; [left; by apply ObserveFixture_stale|right].
  split; [by apply fresh_at|].
  destruct (ObserveFixture_opens s poll o Hs)
    as (new & ts & _ & _ & _ & _ & _ & _ & _ & _ & H1 & _ & H2 & H3).
  split; [by rewrite H1, after_at|].
  assert (clockFacts (afterResolution s poll o) = clockFacts (observeCursor s poll o)) as E1
    by done.
  assert (hClockProgressAt (afterResolution s poll o) =
    hClockProgressAt (observeCursor s poll o)) as E2 by done.
  rewrite E1 in H2. rewrite E2 in H3.
  assert (hClockStatus (ObserveFixture s poll o).1 = hClockStatus (observeCursor s poll o)) as H4
    by exact (f_equal ffStatus H2).
  pose proof (cursor_changed s poll o) as H. unfold clock_changed in *.
  by rewrite H2, H3, H4.
Qed.

Lemma clock_le_rank a b r :
  clock_le a b → phaseRank a.(ffStatus) = Some r →
  ∃ r', phaseRank b.(ffStatus) = Some r' ∧ r ≤ r'.
Proof.
  intros [->|[H|[H _]]] Hr; [by exists r| |exists r; by rewrite <-H].
  destruct (forwardPhase_known _ _ H) as [r' Hr']. exists r'. split; [done|].
  by eapply forwardPhase_rank.
Qed.

Lemma clock_changed_rank s s' at_ r :
  clock_changed s s' at_ → phaseRank s.(hClockStatus) = Some r →
  ∃ r', phaseRank s'.(hClockStatus) = Some r' ∧ r ≤ r'.
Proof.
  intros [[H _]|[_ [H|[[H _]|H]]]] Hr.
  - apply (f_equal ffStatus) in H. cbn in H. rewrite H. by exists r.
  - congruence.
  - rewrite <-H. by exists r.
  - by apply (clock_le_rank _ _ _ H).
Qed.

(** Over any sequence of polls (delayed, duplicated, rolled back or missing)
    the retained clock is a high-water mark: the observation time and the time
    of the last progress never go back, and a clock in a known phase never
    returns to an earlier phase. *)
Theorem clock_high_water s polls :
  s.(hClockProgressAt) ≤ s.(hLastObservedAt) →
  let s' := observe_run s polls in
  s.(hLastObservedAt) ≤ s'.(hLastObservedAt) ∧
  s.(hClockProgressAt) ≤ s'.(hClockProgressAt) ≤ s'.(hLastObservedAt) ∧
  (∀ r, phaseRank s.(hClockStatus) = Some r →
     ∃ r', phaseRank s'.(hClockStatus) = Some r' ∧ r ≤ r').
Proof.
  unfold observe_run. revert s. induction polls as [|[poll o] polls IH]; intros s Hs; cbn zeta.
  { cbn [foldl]. split; [lia|]. split; [lia|]. intros r Hr. by exists r. }
  cbn [foldl fst snd].
  destruct (observe_changed s poll o) as [->|(Hlt & Hat & Hc)]; [by apply IH|].
  set (s1 := (ObserveFixture s poll o).1) in *. clearbody s1.
  assert (hClockProgressAt s ≤ hClockProgressAt s1 ≤ hLastObservedAt s1) as Hp
    by (destruct Hc as [[_ H]|[H _]]; lia).
  destruct (IH s1) as (H1 & H2 & H3); [lia|]. split; [lia|]. split; [lia|].
  intros r Hr. destruct (clock_changed_rank _ _ _ _ Hc Hr) as (r1 & Hr1 & ?).
  destruct (H3 r1 Hr1) as (r2 & ? & ?). exists r2. split; [done|lia].
Qed.

Lemma clock_high_water_witness :
  let facts status elapsed := clockSnapshot 7 status (Some elapsed) None in
  let o status elapsed := mkHealthObservation 7 AvailabilityUsable "" false None
    (mkFixtureComparison zeroFacts (facts status elapsed) [] [] []) in
  let polls := [(mkHealthPoll "p1" 10 [], o "2h" 50); (mkHealthPoll "p2" 20 [], o "1h" 40)] in
  0 ≤ (observe_run (newFixtureHealth 7) polls).(hClockProgressAt).
Proof.
  intros facts o polls.
  destruct (clock_high_water (newFixtureHealth 7) polls) as (_ & [H _] & _); [|exact H].
  by apply Z.leb_le.
Defined.

(** ** Recovery *)

(** A probe that shows no clock movement against the baseline. *)
Definition frozenProbe (baseline : FixtureFacts) (p : FixtureHealthProbe) : Prop :=
  forwardPhase baseline.(ffStatus) p.(fpFacts).(ffStatus) = false ∧
  ClockProgressed baseline p.(fpFacts) = false.

Lemma recoveryStep_frozen baseline r probe r' :
  frozenProbe baseline probe →
  r.(rcHigh) = baseline ∧ r.(rcAdvances) = 0 ∧ r.(rcPhaseSamples) = 0 ∧ r.(rcPhase) = "" →
  recoveryStep baseline r probe = Some r' →
  r'.(rcHigh) = baseline ∧ r'.(rcAdvances) = 0 ∧ r'.(rcPhaseSamples) = 0 ∧ r'.(rcPhase) = "".
Proof.
  intros [F1 F2] (H1 & H2 & H3 & H4) H. unfold recoveryStep in H.
  destruct (_ || _); [done|]. destruct (accept _ _ _) as [sq|]; [|by simplify_eq].
  cbn zeta in H. set (r1 := if negb (probeUsable _ _) || _ then _ else _) in H.
  assert (rcHigh r1 = baseline ∧ rcAdvances r1 = 0 ∧ rcPhaseSamples r1 = 0 ∧ rcPhase r1 = "")
    as (E1 & E2 & E3 & E4) by (subst r1; by destruct (negb _ || _)).
  clearbody r1. destruct (probeUsable _ _); simplify_eq; [|done].
  unfold recoveryAdvance. rewrite E1, F1.
  destruct (negb (_ =? _)%string || _); [done|]. rewrite E4. cbn [negb andb String.eqb].
  by rewrite E1, F2.
Qed.

(** A clock restriction is never lifted by repetition: however many polls
    arrive and however they are spaced, probes that show neither a forward phase
    nor a clock beyond the retained baseline do not recover freshness. *)
Theorem FreshnessRecovered_needs_progress baseline probes :
  Forall (frozenProbe baseline) probes → FreshnessRecovered baseline probes = false.
Proof.
  intros HF. unfold FreshnessRecovered. destruct (_ || _); [done|].
  destruct (fold_until _ _ _) as [r|] eqn:E; [|done].
  assert (rcHigh r = baseline ∧ rcAdvances r = 0 ∧ rcPhaseSamples r = 0 ∧ rcPhase r = "")
    as (_ & -> & -> & _); [|done].
  revert E. set (r0 := mkRecoveryState _ _ _ _ _ _).
  assert (rcHigh r0 = baseline ∧ rcAdvances r0 = 0 ∧ rcPhaseSamples r0 = 0 ∧ rcPhase r0 = "")
    as H0 by done.
  clearbody r0. revert r0 H0. induction HF as [|p probes Hp _ IH]; intros r0 H0 E.
  { cbn in E. by simplify_eq. }
  cbn [fold_until] in E. destruct (recoveryStep baseline r0 p) as [r1|] eqn:E1; [|done].
  eapply IH; [|exact E]. by eapply recoveryStep_frozen.
Qed.

Lemma FreshnessRecovered_needs_progress_witness :
  let facts := clockSnapshot 7 "2h" (Some 60) None in
  FreshnessRecovered facts
    [mkFixtureHealthProbe "p1" 10 true facts; mkFixtureHealthProbe "p2" 20 true facts] = false.
Proof.
  intros facts. apply FreshnessRecovered_needs_progress. by repeat constructor.
Defined.

(** *** The provider's recovery streak *)

Definition cleanProbe (p : ProviderHealthProbe) : Prop :=
  p.(ppComplete) = true ∧ p.(ppNewSystemicAnomaly) = false ∧ p.(ppNewAffectedFixture) = false.

(** [q] is the newer neighbour of [p] in one uninterrupted streak. *)
Definition follows (q p : ProviderHealthProbe) : Prop :=
  p.(ppAt) < q.(ppAt) ≤ p.(ppAt) + ObservationGapLimit.

(** [run] is the current streak, newest first. *)
Record streak (seen : list ProviderHealthProbe) (sq : observationSequence) (clean : Z)
    (run : list ProviderHealthProbe) : Prop := {
  st_sub : reverse run `sublist_of` seen;
  st_len : Z.of_nat (length run) = clean;
  st_clean : Forall cleanProbe run;
  st_linked : Sorted follows run;
  st_last : ∀ p rest, run = p :: rest → p.(ppAt) = sq.(sqAt);
  st_ids : Forall (λ p, p.(ppID) ∈ sq.(sqIds)) run;
  st_nodup : NoDup (ppID <$> run);
  st_at : 0 ≤ sq.(sqAt);
  st_pos : run ≠ [] → 0 < sq.(sqAt) }.

Lemma accept_inv s id t s' :
  accept s id t = Some s' →
  s.(sqAt) < t ∧ id ∉ s.(sqIds) ∧ s'.(sqAt) = t ∧ s'.(sqIds) = {[id]} ∪ s.(sqIds).
Proof.
  unfold accept, After. destruct (_ || _) eqn:E; [done|]. case_decide; [done|].
  intros [= <-]. rewrite !orb_false_iff, negb_false_iff, Z.ltb_lt in E. naive_solver.
Qed.

Lemma streak_skip seen sq clean run p : streak seen sq clean run → streak (seen ++ [p]) sq clean run.
Proof. intros []. constructor; try done. by apply sublist_inserts_r. Qed.

Lemma streak_reset seen sq : 0 ≤ sq.(sqAt) → streak seen sq 0 [].
Proof. intros. constructor; try done; try constructor. apply sublist_nil_l. Qed.

Lemma streak_clean seen sq clean run p sq' :
  streak seen sq clean run → cleanProbe p →
  accept sq p.(ppID) p.(ppAt) = Some sq' →
  (run = [] ∨ time_Sub p.(ppAt) sq.(sqAt) ≤ ObservationGapLimit) →
  streak (seen ++ [p]) sq' (clean + 1) (p :: run).
Proof.
  intros [] Hp (Ht & Hid & E1 & E2)%accept_inv Hgap. constructor.
  - rewrite reverse_cons. by apply sublist_app.
  - simpl. lia.
  - by constructor.
  - constructor; [done|]. destruct run as [|q run]; constructor. unfold follows.
    rewrite (st_last0 q run) by done. destruct Hgap as [|Hgap]; [done|].
    apply time_Sub_le in Hgap; [lia|done|done].
  - intros ? ? [= <- <-]. done.
  - constructor; [set_solver|]. eapply Forall_impl; [done|]. intros q Hq. set_solver.
  - cbn. constructor; [|done]. intros (q & Hq & Hin)%list_elem_of_fmap.
    rewrite Forall_forall in st_ids0. apply Hid. rewrite Hq. by apply st_ids0.
  - lia.
  - intros _. lia.
Qed.

Lemma streak_step seen sq clean run p sq' clean' :
  streak seen sq clean run → providerRecoveryStep (sq, clean) p = Some (sq', clean') →
  ∃ run', streak (seen ++ [p]) sq' clean' run'.
Proof.
  intros Hst. unfold providerRecoveryStep. destruct (_ || _); [done|].
  destruct (accept _ _ _) as [s1|] eqn:E.
  2:{ intros [= <- <-]. exists run. by apply streak_skip. }
  pose proof (accept_inv _ _ _ _ E) as (Ht & _ & E1 & _). pose proof (st_at _ _ _ _ Hst).
  cbn zeta. destruct (negb _ || _ || _) eqn:Ec.
  { intros [= <- <-]. exists []. apply streak_reset. lia. }
  rewrite !orb_false_iff, negb_false_iff in Ec.
  assert (cleanProbe p) as Hp by by destruct Ec as [[? ?] ?].
  destruct (negb (IsZero _) && _) eqn:Eg; intros [= <- <-].
  - exists [p]. apply (streak_clean seen sq 0 []); [apply streak_reset; lia|done|done|by left].
  - exists (p :: run). eapply streak_clean; [done..|].
    apply andb_false_iff in Eg as [Eg|Eg]; [left|right; by apply Z.ltb_ge].
    apply negb_false_iff, Z.eqb_eq in Eg. destruct run as [|q run]; [done|exfalso].
    pose proof (st_pos _ _ _ _ Hst). assert (0 < sqAt sq) by naive_solver. lia.
Qed.

Lemma streak_run probes seen sq clean run sq' clean' :
  streak seen sq clean run → fold_until providerRecoveryStep (sq, clean) probes = Some (sq', clean') →
  ∃ run', streak (seen ++ probes) sq' clean' run'.
Proof.
  revert seen sq clean run. induction probes as [|p probes IH]; intros seen sq clean run Hst H.
  { cbn in H. simplify_eq. rewrite app_nil_r. by exists run. }
  cbn [fold_until] in H. destruct (providerRecoveryStep (sq, clean) p) as [[s1 c1]|] eqn:E; [|done].
  destruct (streak_step _ _ _ _ _ _ _ Hst E) as [run1 H1].
  destruct (IH _ _ _ _ H1 H) as [run' Hr]. exists run'. by rewrite <-app_assoc in Hr.
Qed.

(** Three clean polls in an uninterrupted row. *)
Definition cleanStreak (p1 p2 p3 : ProviderHealthProbe) : Prop :=
  cleanProbe p1 ∧ cleanProbe p2 ∧ cleanProbe p3 ∧ follows p2 p1 ∧ follows p3 p2 ∧
  NoDup [p1.(ppID); p2.(ppID); p3.(ppID)].

Lemma ProviderIntegrityRecovered_streak probes :
  ProviderIntegrityRecovered probes = true →
  ∃ p1 p2 p3, [p1; p2; p3] `sublist_of` probes ∧ cleanStreak p1 p2 p3.
Proof.
  unfold ProviderIntegrityRecovered. destruct (fold_until _ _ _) as [[sq clean]|] eqn:E; [|done].
  intros Hc%Z.leb_le.
  destruct (streak_run probes [] emptySequence 0 [] sq clean) as [run []]; [|done|].
  { by apply streak_reset. }
  cbn [app] in st_sub0. destruct run as [|p3 [|p2 [|p1 run]]]; simpl in st_len0; try lia.
  exists p1, p2, p3. split.
  - etrans; [|exact st_sub0]. rewrite !reverse_cons, <-!app_assoc. by apply sublist_inserts_l.
  - repeat match goal with
    | H : Forall _ (_ :: _) |- _ => apply Forall_cons in H as [? H]
    | H : Sorted _ (_ :: _) |- _ => apply Sorted_inv in H as [H ?]
    | H : HdRel _ _ (_ :: _) |- _ => apply HdRel_inv in H
    end.
    split_and!; try done. cbn in st_nodup0.
    rewrite !NoDup_cons, !not_elem_of_cons in st_nodup0.
    destruct st_nodup0 as ((? & ? & ?) & (? & ?) & _).
    rewrite !NoDup_cons, !not_elem_of_cons.
    repeat split; auto using not_elem_of_nil, NoDup_nil_2.
Qed.

(** ** The provider's policy *)

(** The evidence of the provider: trusted without recovery probes, or restricted
    with at most three of them. *)
Definition provider_ok (s : ProviderHealth) : Prop :=
  ((s.(pPolicy) = "" ∨ s.(pPolicy) = PolicyTrusted) ∧ s.(pEvidence).(pProbes) = []) ∨
  (s.(pPolicy) = PolicyPositiveOnly ∧ (length s.(pEvidence).(pProbes) ≤ 3)%nat).

Definition currentPolicy (s : ProviderHealth) : MutationPolicy :=
  if (s.(pPolicy) =? "")%string then PolicyTrusted else s.(pPolicy).

(** The evidence of one poll, as [ObserveProvider] computes it. *)
Definition pollConflicts (s : ProviderHealth) (poll : HealthPoll) (fixtures : list FixtureHealth)
    (transitions : list HealthTransition) : list HealthEpisode * bool :=
  foldl (episodeStep poll.(hlAt) fixtures)
    (filter (λ e, time_Sub poll.(hlAt) e.(hpStartedAt) <=? CorrelationWindow)
       s.(pEvidence).(pRecent), false) transitions.

Definition pollSystemic (s : ProviderHealth) (poll : HealthPoll) (fixtures : list FixtureHealth)
    (transitions : list HealthTransition) : bool :=
  let '(recent, newConflict) := pollConflicts s poll fixtures transitions in
  newConflict && ((CorrelateHealth poll.(hlAt) recent).(hcPolicy) =? PolicyPositiveOnly)%string.

Definition pollComplete (poll : HealthPoll) : Prop :=
  Forall (λ o, usableObservation o = true ∧ hoInterrupted o = false) poll.(hlObservations).

Lemma sublist_full {A} (l k : list A) :
  l `sublist_of` k → (length k ≤ length l)%nat → l = k.
Proof.
  induction 1 as [|x l k H IH|x l k H IH]; simpl; intros Hl; [done|f_equal; apply IH; lia|].
  apply sublist_length in H. lia.
Qed.

Lemma keep_last_snoc {A} n (l : list A) x :
  ∃ l', keep_last (S n) (l ++ [x]) = l' ++ [x] ∧ l' `sublist_of` l.
Proof.
  unfold keep_last. destruct (Nat.ltb_spec (S n) (length (l ++ [x]))) as [H|_]; [|by exists l].
  rewrite length_app in H |- *. cbn [length] in *.
  exists (drop (length l + 1 - S n) l). split; [|apply sublist_drop].
  rewrite drop_app_le; [done|lia].
Qed.

Definition pollProbe (poll : HealthPoll) (complete newSystemic newConflict : bool)
    : ProviderHealthProbe :=
  mkProviderHealthProbe poll.(hlID) poll.(hlAt) complete newSystemic newConflict.

Lemma recoverProvider_spec s poll complete sys conf recent ts :
  s.(pPolicy) = PolicyPositiveOnly →
  let s' := (recoverProvider s poll complete sys conf recent ts).1 in
  provider_ok s' ∧ s'.(pLastObservedAt) = s.(pLastObservedAt) ∧
  ((s'.(pPolicy) = PolicyPositiveOnly ∧ s'.(pGeneration) = s.(pGeneration)) ∨
   (s'.(pPolicy) = PolicyTrusted ∧ s'.(pGeneration) = wrap64 (s.(pGeneration) + 1) ∧
    ∃ p1 p2, [p1; p2] `sublist_of` s.(pEvidence).(pProbes) ∧
      cleanStreak p1 p2 (pollProbe poll complete sys conf))).
Proof.
  intros Hp. unfold recoverProvider.
  destruct (ProviderIntegrityRecovered _) eqn:E; cbn.
  - split; [left; split; [by right|done]|]. split; [done|right].
    split; [done|]. split; [done|].
    change (ProviderIntegrityRecovered (keep_last 3 (s.(pEvidence).(pProbes) ++
      [pollProbe poll complete sys conf])) = true) in E.
    apply ProviderIntegrityRecovered_streak in E as (p1 & p2 & p3 & Hsub & Hcl).
    apply sublist_full in Hsub; [|apply length_keep_last].
    destruct (keep_last_snoc 2 (pProbes (pEvidence s)) (pollProbe poll complete sys conf))
      as (l & Hl & Hs). rewrite Hl in Hsub.
    change [p1; p2; p3] with ([p1; p2] ++ [p3]) in Hsub.
    apply app_inj_tail in Hsub as [<- ->]. by exists p1, p2.
  - split; [right; split; [done|apply length_keep_last]|]. split; [done|]. by left.
Qed.

Lemma observations_complete poll :
  (Z.of_nat (length (filter (λ o, (o.(hoAvailability) =? AvailabilityUsable)%string)
     poll.(hlObservations))) =? Z.of_nat (length poll.(hlObservations))) &&
    forallb (λ o, negb o.(hoInterrupted)) poll.(hlObservations) = true →
  pollComplete poll.
Proof.
  rewrite andb_true_iff, Z.eqb_eq, forallb_forall. intros [H1 H2]. apply Forall_forall.
  intros o Ho. split; [|by apply negb_true_iff, H2, list_elem_of_In].
  assert (filter (λ o, (o.(hoAvailability) =? AvailabilityUsable)%string) (hlObservations poll)
    = hlObservations poll) as E by (apply sublist_full; [apply sublist_filter|lia]).
  rewrite <-E in Ho. apply list_elem_of_filter in Ho as [Ho _].
  unfold usableObservation. by destruct (_ =? _)%string.
Qed.

(** The state before the recovery step. *)
Record before_recovery (s s2 : ProviderHealth) (sys : bool) : Prop := {
  br_policy : s2.(pPolicy) = if sys then PolicyPositiveOnly else currentPolicy s;
  br_generation : s2.(pGeneration) =
    if sys && negb (currentPolicy s =? PolicyPositiveOnly)%string
    then wrap64 (s.(pGeneration) + 1) else s.(pGeneration);
  br_probes : s2.(pEvidence).(pProbes) = if sys then [] else s.(pEvidence).(pProbes);
  br_version : s2.(pEvidence).(pVersion) = HealthEvidenceVersion }.

Lemma ObserveProvider_form s poll fixtures transitions :
  let c := pollConflicts s poll fixtures transitions in
  let sys := pollSystemic s poll fixtures transitions in
  ∃ s2 ts2 complete, before_recovery s s2 sys ∧ (complete = true → pollComplete poll) ∧
    (ObserveProvider s poll fixtures transitions).1 =
      (if (s2.(pPolicy) =? PolicyPositiveOnly)%string
       then (recoverProvider s2 poll complete sys c.2 c.1 ts2).1 else s2)
      <| pLastObservedAt := poll.(hlAt) |>.
Proof.
  intros c sys. subst sys. unfold pollSystemic. fold c. unfold ObserveProvider.
  set (s1 := (if (pPolicy s =? "")%string then s <| pPolicy := PolicyTrusted |> else s)
    <| pEvidence ::= _ |>).
  assert (pPolicy s1 = currentPolicy s ∧ pGeneration s1 = pGeneration s ∧
    pRecent (pEvidence s1) = pRecent (pEvidence s) ∧ pProbes (pEvidence s1) = pProbes (pEvidence s) ∧
    pVersion (pEvidence s1) = HealthEvidenceVersion) as (E1 & E2 & E3 & E4 & E5).
  { subst s1. unfold currentPolicy. by destruct (_ =? "")%string. }
  clearbody s1. rewrite E3.
  change (foldl (episodeStep (hlAt poll) fixtures) _ transitions) with c.
  destruct c as [recent conf]. cbn [fst snd].
  set (complete := _ && forallb _ _).
  assert (complete = true → pollComplete poll) as Hc by apply observations_complete.
  clearbody complete.
  set (s1' := s1 <| pEvidence ::= _ |>).
  assert (pPolicy s1' = currentPolicy s ∧ pGeneration s1' = pGeneration s ∧
    pProbes (pEvidence s1') = pProbes (pEvidence s) ∧
    pVersion (pEvidence s1') = HealthEvidenceVersion) as (F1 & F2 & F3 & F4) by done.
  clearbody s1'. rewrite F1. cbn [hcPolicy].
  destruct (conf && _) eqn:Es.
  - set (s2 := if negb (currentPolicy s =? PolicyPositiveOnly)%string
      then s1' <| pGeneration ::= λ g, wrap64 (g + 1) |>
               <| pEvidence ::= λ x, x <| pIncidentAt := hlAt poll |> |> else s1').
    set (ts2 := if negb (currentPolicy s =? PolicyPositiveOnly)%string
      then transitions ++ [providerTransition (hlAt poll) false] else transitions).
    exists (s2 <| pPolicy := PolicyPositiveOnly |> <| pEvidence ::= λ x, x <| pProbes := [] |> |>),
      ts2, complete. split; [|split; [exact Hc|]].
    + constructor; [done| |done|]; subst s2; cbn [andb]; by destruct (negb _); cbn; rewrite ?F2, ?F4.
    + subst s2 ts2. destruct (negb (currentPolicy s =? _)%string); cbn zeta;
        by destruct (recoverProvider _ _ _ _ _ _ _) as [? ?] eqn:Er.
  - exists s1', transitions, complete. split; [|split; [exact Hc|]].
    + by constructor; cbn.
    + rewrite F1. cbn zeta.  destruct (currentPolicy s =? PolicyPositiveOnly)%string; [|done].
      by destruct (recoverProvider _ _ _ _ _ _ _) as [? ?] eqn:Er.
Qed.

Lemma ObserveProvider_answered s poll fixtures transitions :
  (ObserveProvider s poll fixtures transitions).2.(rIgnored) = false.
Proof. unfold ObserveProvider. cbn zeta. by repeat case_match. Qed.

Lemma recoverProvider_version s poll complete sys conf recent ts :
  s.(pEvidence).(pVersion) = HealthEvidenceVersion →
  (recoverProvider s poll complete sys conf recent ts).1.(pEvidence).(pVersion) = HealthEvidenceVersion.
Proof. intros H. unfold recoverProvider. by destruct (ProviderIntegrityRecovered _). Qed.

(** What the stored row needs: a known policy, the current version, and a
    generation that stays or moves by one. *)
Lemma ObserveProvider_ok s poll fixtures transitions :
  provider_ok s →
  let s' := (ObserveProvider s poll fixtures transitions).1 in
  provider_ok s' ∧ s'.(pLastObservedAt) = poll.(hlAt) ∧
  (s'.(pPolicy) = PolicyTrusted ∨ s'.(pPolicy) = PolicyPositiveOnly) ∧
  s'.(pEvidence).(pVersion) = HealthEvidenceVersion ∧
  (s'.(pGeneration) = s.(pGeneration) ∨ s'.(pGeneration) = wrap64 (s.(pGeneration) + 1)).
Proof.
  intros Hok s'. subst s'.
  destruct (ObserveProvider_form s poll fixtures transitions)
    as (s2 & ts2 & complete & [B1 B2 B3 B4] & _ & ->).
  set (sys := pollSystemic _ _ _ _) in *. set (c := pollConflicts _ _ _ _) in *. clearbody sys c.
  destruct (String.eqb_spec (pPolicy s2) PolicyPositiveOnly) as [Hp|Hp].
  - destruct (recoverProvider_spec s2 poll complete sys c.2 c.1 ts2 Hp) as (R1 & _ & R3).
    pose proof (recoverProvider_version s2 poll complete sys c.2 c.1 ts2 B4) as R2.
    set (s3 := (recoverProvider _ _ _ _ _ _ _).1) in *. clearbody s3.
    split; [exact R1|]. split; [done|]. split; [|split; [exact R2|]]; cbn.
    + destruct R3 as [[R3 _]|[R3 _]]; tauto.
    + destruct R3 as [[_ ->]|(_ & -> & p1 & p2 & R5 & _)]; rewrite B2.
      * destruct (_ && _); tauto.
      * destruct sys; [rewrite B3 in R5; by apply sublist_nil_r in R5|by right].
  - destruct sys; [by rewrite B1 in Hp|]. cbn in B2.
    assert (pPolicy s2 = PolicyTrusted ∧ pProbes (pEvidence s2) = []) as [Ht Hpr].
    { rewrite B1, B3. rewrite B1 in Hp. unfold currentPolicy in *.
      destruct Hok as [[[E|E] ?]|[E ?]]; rewrite E in *; done. }
    split; [left; split; [by right|done]|]. split; [done|]. split; [by left|].
    split; [exact B4|]. by left.
Qed.

(** C35: the provider-wide circuit breaker. The policy is trusted or
    positive-only; the generation moves exactly when the policy moves; a trusted
    provider is restricted exactly by a poll with a new conflict that correlates
    with another fixture's; and a restriction is lifted only by a complete poll
    that closes an uninterrupted streak of three clean ones. *)
Theorem ObserveProvider_policy s poll fixtures transitions :
  provider_ok s →
  let s' := (ObserveProvider s poll fixtures transitions).1 in
  provider_ok s' ∧ s'.(pLastObservedAt) = poll.(hlAt) ∧
  s'.(pGeneration) =
    (if (currentPolicy s =? currentPolicy s')%string then s.(pGeneration)
     else wrap64 (s.(pGeneration) + 1)) ∧
  (currentPolicy s = PolicyTrusted →
     (s'.(pPolicy) = PolicyPositiveOnly ↔ pollSystemic s poll fixtures transitions = true)) ∧
  (currentPolicy s = PolicyPositiveOnly → s'.(pPolicy) = PolicyTrusted →
     pollComplete poll ∧ (pollConflicts s poll fixtures transitions).2 = false ∧
     ∃ p1 p2, [p1; p2] `sublist_of` s.(pEvidence).(pProbes) ∧
       cleanStreak p1 p2 (pollProbe poll true false false)).
Proof.
  intros Hok s'. subst s'.
  destruct (ObserveProvider_form s poll fixtures transitions)
    as (s2 & ts2 & complete & [B1 B2 B3 _] & Hc & ->).
  set (sys := pollSystemic _ _ _ _) in *. set (c := pollConflicts _ _ _ _) in *. clearbody sys c.
  assert (currentPolicy s = PolicyTrusted ∧ pProbes (pEvidence s) = [] ∨
    currentPolicy s = PolicyPositiveOnly ∧ (length (pProbes (pEvidence s)) ≤ 3)%nat) as Hcur.
  { unfold currentPolicy. destruct Hok as [[[->| ->] ?]|[-> ?]]; auto. }
  assert (PolicyTrusted ≠ PolicyPositiveOnly) as Hne by done.
  assert (currentPolicy (s2 <| pLastObservedAt := hlAt poll |>) = currentPolicy s2) as E0 by done.
  destruct (String.eqb_spec (pPolicy s2) PolicyPositiveOnly) as [Hp|Hp].
  - destruct (recoverProvider_spec s2 poll complete sys c.2 c.1 ts2 Hp) as (R1 & _ & R3).
    set (s3 := (recoverProvider _ _ _ _ _ _ _).1) in *. clearbody s3.
    split; [exact R1|]. split; [done|]. cbn [pGeneration pPolicy pEvidence pProbes].
    change (currentPolicy (s3 <| pLastObservedAt := hlAt poll |>)) with (currentPolicy s3).
    destruct R3 as [[R3 R4]|(R3 & R4 & p1 & p2 & R5 & R6)];
      assert (currentPolicy s3 = pPolicy s3) as -> by (unfold currentPolicy; by rewrite R3);
      change (pPolicy (s3 <| pLastObservedAt := hlAt poll |>)) with (pPolicy s3);
      rewrite R3.
    + split; [|split].
      * change (pGeneration (s3 <| pLastObservedAt := hlAt poll |>)) with (pGeneration s3).
        rewrite R4, B2. destruct Hcur as [[Hct _]|[Hct _]]; rewrite Hct in *; destruct sys;
          try done. by rewrite Hp in B1.
      * intros Hct. split; [|done]. intros _. destruct sys; [done|]. congruence.
      * done.
    + destruct sys.
      { rewrite B3 in R5. apply sublist_nil_r in R5. done. }
      rewrite Hp in B1. destruct Hcur as [[Hct _]|[Hct _]]; [congruence|].
      rewrite Hct. split; [|split].
      * change (pGeneration (s3 <| pLastObservedAt := hlAt poll |>)) with (pGeneration s3).
        rewrite R4, B2. done.
      * done.
      * intros _ _. rewrite B3 in R5.
        destruct R6 as (? & ? & (H1 & H2 & H3) & ? & ? & ?). cbn in H1, H2, H3.
        split; [by apply Hc|]. split; [done|]. exists p1, p2. split; [done|].
        subst complete. rewrite H3 in *. done.
  - destruct sys; [by rewrite B1 in Hp|]. destruct Hcur as [[Hct Hpr]|[Hct _]]; [|congruence].
    rewrite Hct in *. split; [|split; [done|split; [|split]]].
    + left. split; [right; exact B1|exact (eq_trans B3 Hpr)].
    + change (currentPolicy (s2 <| pLastObservedAt := hlAt poll |>)) with (currentPolicy s2).
      unfold currentPolicy. rewrite B1. exact B2.
    + intros _. split; [|done]. by intros ?%Hp.
    + done.
Qed.

Lemma ObserveProvider_policy_witness :
  let s := mkProviderHealth zero_time 0 "" (mkProviderHealthEvidence 0 [] zero_time []) in
  let s' := (ObserveProvider s (mkHealthPoll "p1" 10 []) [] []).1 in
  provider_ok s' ∧ s'.(pLastObservedAt) = 10.
Proof.
  intros s s'. destruct (ObserveProvider_policy s (mkHealthPoll "p1" 10 []) [] []) as (H1 & H2 & _);
    [|by split].
  left. split; [by left|reflexivity].
Defined.

(** ** Correlation *)

(** An open incident of the cause whose onset lies in the window. *)
Definition onset_of (cause : HealthCause) (at_ : Time) (episodes : list HealthEpisode) (id : Z)
    : Prop :=
  ∃ e, e ∈ episodes ∧ correlated at_ e = true ∧ hpCause e = cause ∧ hpFixtureID e = id.

Lemma correlate_fold at_ episodes A B :
  let '(stalled, conflicts) := foldl (correlateStep at_) (A, B) episodes in
  (∀ x, x ∈ stalled ↔ x ∈ A ∨ onset_of CauseClockStalled at_ episodes x) ∧
  (∀ x, x ∈ conflicts ↔ x ∈ B ∨ onset_of CauseIntegrityConflict at_ episodes x).
Proof.
  assert (∀ c e l x, onset_of c at_ (e :: l) x ↔
    (correlated at_ e = true ∧ hpCause e = c ∧ hpFixtureID e = x) ∨ onset_of c at_ l x) as Ho.
  { intros c e l x. unfold onset_of. setoid_rewrite elem_of_cons. naive_solver. }
  revert A B. induction episodes as [|e episodes IH]; intros A B; cbn [foldl].
  { split; intros x; (split; [by left|]); intros [?|(e & He & _)]; try done;
      by apply elem_of_nil in He. }
  assert (∃ A' B', correlateStep at_ (A, B) e = (A', B') ∧
    (∀ x, x ∈ A' ↔ x ∈ A ∨
       (correlated at_ e = true ∧ hpCause e = CauseClockStalled ∧ hpFixtureID e = x)) ∧
    (∀ x, x ∈ B' ↔ x ∈ B ∨
       (correlated at_ e = true ∧ hpCause e = CauseIntegrityConflict ∧ hpFixtureID e = x)))
    as (A' & B' & -> & HA & HB).
  { unfold correlateStep. destruct (correlated at_ e); cbn [negb];
      [|do 2 eexists; split; [done|]; split; intros x; intuition done].
    destruct (String.eqb_spec (hpCause e) CauseClockStalled) as [->|E1];
      [|destruct (String.eqb_spec (hpCause e) CauseIntegrityConflict) as [->|E2]];
      do 2 eexists; (split; [done|]); split; intros x;
      rewrite ?elem_of_union, ?elem_of_singleton; intuition (try done; eauto). }
  specialize (IH A' B'). destruct (foldl _ _ _). destruct IH as [H1 H2].
  split; intros x; [rewrite H1, HA, Ho|rewrite H2, HB, Ho]; tauto.
Qed.

Lemma size_two (X : gset Z) : (2 ≤ size X)%nat ↔ ∃ x y, x ∈ X ∧ y ∈ X ∧ x ≠ y.
Proof.
  split.
  - intros H. unfold size, set_size in H. cbn in H.
    pose proof (NoDup_elements X) as Hn.
    destruct (elements X) as [|x [|y l]] eqn:E; simpl in H; try lia.
    exists x, y. rewrite <-!elem_of_elements, E. apply NoDup_cons in Hn as [Hn _].
    set_solver.
  - intros (x & y & Hx & Hy & Hxy).
    assert (({[x]} ∪ {[y]} : gset Z) ⊆ X) as Hs by set_solver.
    apply subseteq_size in Hs. rewrite size_union in Hs by set_solver.
    rewrite !size_singleton in Hs. lia.
Qed.

(** The provider-wide restriction needs a shared failure: correlation asks for
    positive-only exactly when two different fixtures have an open integrity
    conflict with an onset inside the two-minute window, names exactly those
    fixtures in increasing order, and clock stalls or warnings alone never
    restrict the provider. *)
Theorem CorrelateHealth_conflicts at_ episodes :
  let c := CorrelateHealth at_ episodes in
  let conflict := onset_of CauseIntegrityConflict at_ episodes in
  (c.(hcPolicy) = PolicyPositiveOnly ↔ ∃ x y, conflict x ∧ conflict y ∧ x ≠ y) ∧
  (c.(hcPolicy) = PolicyTrusted ∨ c.(hcPolicy) = PolicyPositiveOnly) ∧
  (∀ x, x ∈ c.(hcConflictFixtures) ↔ c.(hcPolicy) = PolicyPositiveOnly ∧ conflict x) ∧
  NoDup c.(hcConflictFixtures) ∧
  StronglySorted (λ x y, x ≤ y) c.(hcConflictFixtures).
Proof.
  unfold CorrelateHealth. pose proof (correlate_fold at_ episodes ∅ ∅) as H.
  destruct (foldl _ _ _) as [stalled conflicts]. destruct H as [_ H].
  assert (∀ x, x ∈ conflicts ↔ onset_of CauseIntegrityConflict at_ episodes x) as HC.
  { intros x. rewrite H. set_solver. }
  destruct (Nat.leb_spec 2 (size conflicts)) as [Hs|Hs]; cbn zeta; cbn [hcPolicy hcConflictFixtures].
  - split_and!.
    + split; [|done]. intros _. apply size_two in Hs. setoid_rewrite HC in Hs. exact Hs.
    + by right.
    + intros x. unfold sortedFixtureIDs. rewrite elem_of_sort_by, elem_of_elements, HC. naive_solver.
    + unfold sortedFixtureIDs. rewrite sort_by_perm. apply NoDup_elements.
    + assert (StronglySorted (not_after Z.ltb) (sortedFixtureIDs conflicts)) as Hsrt.
      { apply sort_by_sorted; unfold not_after; intros *; rewrite ?Z.ltb_lt, ?Z.ltb_ge; lia. }
      eapply StronglySorted_weaken; [|exact Hsrt]; cbn beta.
      unfold not_after. intros x y. rewrite Z.ltb_ge. lia.
  - split_and!; try done.
    + split; [done|]. intros (x & y & Hx & Hy & Hxy).
      assert (2 ≤ size conflicts)%nat; [|lia].
      apply size_two. exists x, y. by rewrite !HC.
    + by left.
    + intros x. split; [by intros ?%elem_of_nil|by intros []].
    + constructor.
    + constructor.
Qed.

End health.
