(* ===== verification/Vision.v ===== *)
(** internal/domain/vision: turning the model's per-frame scorebug transcription
    into an absolute match minute (clock.go, period_label.go,
    running_stoppage.go), the clip verdict (evaluate.go) and the validation of
    retained evidence (evidence.go).

    The regular expressions of clock.go are written out as recognisers of the
    strings they accept. *)
From S2P Require Import Prelude GoStrings.
From Stdlib Require Import SpecFloat.
#[local] Open Scope string_scope.
#[local] Open Scope list_scope.
#[local] Open Scope Z_scope.

Module vision.

(** ** Periods *)

Definition Period := string.
Definition PeriodUnknown : Period := "".
Definition PeriodFirstHalf : Period := "1H".
Definition PeriodSecondHalf : Period := "2H".
Definition PeriodExtraFirst : Period := "ET1".
Definition PeriodExtraSecond : Period := "ET2".

Record ClockReading := mkClockReading {
  rFrameIndex : Z;
  rMinute : Z;
  rAlternativeMinutes : list Z;
  rPeriod : Period;
  rPeriodPinned : bool;
  rStoppage : bool;
  rExactMinute : bool;
  rAmbiguous : bool }.

#[global] Instance eta_ClockReading : Eta ClockReading := λ r,
  mkClockReading r.(rFrameIndex) r.(rMinute) r.(rAlternativeMinutes) r.(rPeriod)
    r.(rPeriodPinned) r.(rStoppage) r.(rExactMinute) r.(rAmbiguous).

(** The zero value. *)
Definition zeroReading : ClockReading := mkClockReading 0 0 [] "" false false false false.

Definition periodOf (baseMinute : Z) : Period :=
  if baseMinute <=? 45 then PeriodFirstHalf
  else if baseMinute <=? 90 then PeriodSecondHalf
  else if baseMinute <=? 105 then PeriodExtraFirst
  else PeriodExtraSecond.

Definition isExtraTime (p : Period) : bool := one_of p [PeriodExtraFirst; PeriodExtraSecond].

Definition Period_Valid (p : Period) : bool :=
  one_of p [PeriodFirstHalf; PeriodSecondHalf; PeriodExtraFirst; PeriodExtraSecond].

Definition Period_String (p : Period) : string := if Period_Valid p then p else "unknown".

(** ** Field parsers *)

(** [\s] of the regular expressions: tab, newline, form feed, return, space. *)
Definition re_space (c : ascii) : bool :=
  let n := Ascii.nat_of_ascii c in
  (n =? 9)%nat || (n =? 10)%nat || (n =? 12)%nat || (n =? 13)%nat || (n =? 32)%nat.

(** [\w]. *)
Definition re_word (c : ascii) : bool := is_letter c || is_digit c || Ascii.eqb c "_".

Fixpoint skip_spaces (s : string) : string :=
  match s with
  | String c s' => if re_space c then skip_spaces s' else s
  | EmptyString => EmptyString
  end.

(** The longest run of digits and what follows it. *)
Fixpoint take_digits (s : string) : string * string :=
  match s with
  | String c s' =>
      if is_digit c then let '(ds, rest) := take_digits s' in (String c ds, rest)
      else (EmptyString, s)
  | EmptyString => (EmptyString, EmptyString)
  end.

Definition strip_prefix (pre s : string) : option string :=
  if HasPrefix s pre then Some (String.substring (String.length pre) (String.length s) s) else None.

Fixpoint atoi_from (n : Z) (s : string) : Z :=
  match s with
  | EmptyString => n
  | String c s' => atoi_from (n * 10 + (Z.of_nat (Ascii.nat_of_ascii c) - 48)) s'
  end.

Definition atoi (s : string) : Z := atoi_from 0 s.

Record parsedTimer := mkParsedTimer {
  ptMinute : Z;
  ptSecond : Z;
  ptSecondsKnown : bool }.

Definition noTimer : parsedTimer := mkParsedTimer 0 0 false.

(** [^(\d{1,3}):(\d{2})$]: the two groups. *)
Definition reMMSS (text : string) : option (string * string) :=
  let '(mm, rest) := take_digits text in
  if (1 <=? String.length mm)%nat && (String.length mm <=? 3)%nat then
    match rest with
    | String ":" rest =>
        let '(ss, rest) := take_digits rest in
        if (String.length ss =? 2)%nat && (rest =? "")%string then Some (mm, ss) else None
    | _ => None
    end
  else None.

(** [^(\d{1,3})$]. *)
Definition reBareMinutes (text : string) : bool :=
  let '(mm, rest) := take_digits text in
  (1 <=? String.length mm)%nat && (String.length mm <=? 3)%nat && (rest =? "")%string.

(** U+2032, the prime sign, in UTF-8. *)
Definition prime_sign : string :=
  String (Ascii.ascii_of_nat 226) (String (Ascii.ascii_of_nat 128)
    (String (Ascii.ascii_of_nat 178) EmptyString)).

(** [^\+?\s*(\d{1,2})\s*['′]?$]: the group. *)
Definition reAdded (t : string) : option string :=
  let t := match strip_prefix "+" t with Some rest => rest | None => t end in
  let '(ds, rest) := take_digits (skip_spaces t) in
  let rest := skip_spaces rest in
  if (1 <=? String.length ds)%nat && (String.length ds <=? 2)%nat &&
    one_of rest [""; "'"; prime_sign] then Some ds else None.

(** [^(45|90|105|120)\s*\+\s*(\d{1,2})(?::(\d{2}))?$]: the three groups, the last
    one empty when absent. *)
Definition reCompactStoppage (text : string) : option (string * string * string) :=
  let '(base, rest) := take_digits text in
  if one_of base ["45"; "90"; "105"; "120"] then
    match strip_prefix "+" (skip_spaces rest) with
    | None => None
    | Some rest =>
        let '(added, rest) := take_digits (skip_spaces rest) in
        if (1 <=? String.length added)%nat && (String.length added <=? 2)%nat then
          match rest with
          | EmptyString => Some (base, added, "")
          | String ":" rest =>
              let '(ss, rest) := take_digits rest in
              if (String.length ss =? 2)%nat && (rest =? "")%string then Some (base, added, ss)
              else None
          | _ => None
          end
        else None
    end
  else None.

Definition parseTimer (text : string) (allowBare : bool) : option parsedTimer :=
  match reMMSS text with
  | Some (mm, ss) =>
      if atoi ss <? 60 then Some (mkParsedTimer (atoi mm) (atoi ss) true) else None
  | None =>
      if allowBare && reBareMinutes text then Some (mkParsedTimer (atoi text) 0 false) else None
  end.

(** *** Period hints inside the clock text

    Each alternative of [\b(ET|AET|EXTRA\s*TIME|2H|2ND\s*HALF|1H|1ST\s*HALF)\b] is
    one word, or two words with optional space between. *)

Definition hint := (string * option string)%type.
Definition etHints : list hint := [("ET", None); ("AET", None); ("EXTRA", Some "TIME")].
Definition secondHalfHints : list hint := [("2H", None); ("2ND", Some "HALF")].
Definition firstHalfHints : list hint := [("1H", None); ("1ST", Some "HALF")].
Definition periodHints : list hint := etHints ++ secondHalfHints ++ firstHalfHints.

Definition not_word_start (s : string) : bool :=
  match s with EmptyString => true | String c _ => negb (re_word c) end.

(** The rest of [s] after the hint, when it ends at a word boundary. *)
Definition match_hint (h : hint) (s : string) : option string :=
  match strip_prefix h.1 s with
  | None => None
  | Some rest =>
      let rest := match h.2 with
        | None => Some rest
        | Some word => strip_prefix word (skip_spaces rest)
        end in
      match rest with
      | Some rest => if not_word_start rest then Some rest else None
      | None => None
      end
  end.

(** The length of the first alternative matching here; [wordBefore] tells whether
    the previous byte is a word character, so that no boundary precedes [s]. *)
Fixpoint hint_length (hs : list hint) (wordBefore : bool) (s : string) : option nat :=
  match hs with
  | [] => None
  | h :: hs =>
      if wordBefore then None
      else match match_hint h s with
        | Some rest => Some (String.length s - String.length rest)%nat
        | None => hint_length hs wordBefore s
        end
  end.

(** [MatchString]. *)
Fixpoint has_hint (hs : list hint) (wordBefore : bool) (s : string) : bool :=
  not_nil (hint_length hs wordBefore s) ||
  match s with
  | EmptyString => false
  | String c s' => has_hint hs (re_word c) s'
  end.

(** [ReplaceAllString(text, "")]; [skip] bytes of the current match remain. *)
Fixpoint remove_hints (hs : list hint) (wordBefore : bool) (skip : nat) (s : string) : string :=
  match s with
  | EmptyString => EmptyString
  | String c s' =>
      match skip with
      | S skip => remove_hints hs (re_word c) skip s'
      | O =>
          match hint_length hs wordBefore s with
          | Some (S n) => remove_hints hs (re_word c) n s'
          | _ => String c (remove_hints hs (re_word c) 0 s')
          end
      end
  end.

Definition boolCount (values : list bool) : Z := Z.of_nat (length (filter (λ b, b = true) values)).

Definition embeddedPeriod (hasET has2H has1H : bool) (minute : Z) : Period :=
  if has2H then PeriodSecondHalf
  else if has1H then PeriodFirstHalf
  else if hasET then periodOf minute
  else PeriodUnknown.

(** The part of [parseClockField] after the hints were found. *)
Definition parseCleanClock (r : ClockReading) (hasET has2H has1H : bool) (clean : string)
    : option (ClockReading * parsedTimer) :=
  match reCompactStoppage clean with
  | Some (base, added, seconds) =>
      if negb (seconds =? "")%string && (60 <=? atoi seconds) then None
      else
        let b := atoi base in
        let r := r <| rMinute := b + atoi added |> <| rPeriod := periodOf b |>
          <| rPeriodPinned := true |> <| rStoppage := true |> in
        let hinted := embeddedPeriod hasET has2H has1H r.(rMinute) in
        let r := if Period_Valid hinted && negb (hinted =? r.(rPeriod))%string
          then r <| rPeriod := PeriodUnknown |> <| rAmbiguous := true |> else r in
        Some (r, noTimer)
  | None =>
      match parseTimer clean true with
      | None => None
      | Some timer =>
          let minutes := timer.(ptMinute) in
          let r := r <| rMinute := minutes |> <| rPeriod := periodOf minutes |> in
          let r :=
            if hasET then
              let r := if minutes <=? 30 then r <| rMinute := 90 + minutes |> else r in
              r <| rPeriod := periodOf r.(rMinute) |> <| rPeriodPinned := true |>
            else if has2H then
              let r :=
                if minutes <? 45 then r <| rMinute := 45 + minutes |>
                else if minutes =? 45 then r <| rAlternativeMinutes := [90] |> else r in
              r <| rPeriod := PeriodSecondHalf |> <| rPeriodPinned := true |>
            else if has1H then r <| rPeriod := PeriodFirstHalf |> <| rPeriodPinned := true |>
            else r in
          Some (r, timer)
      end
  end.

Definition parseClockField (raw : string) : option (ClockReading * parsedTimer) :=
  let r := zeroReading <| rExactMinute := true |> in
  let text := ToUpper (TrimSpace raw) in
  if one_of text [""; "NONE"; "HT"; "FT"; "HALF TIME"; "FULL TIME"] then None
  else
    let hasET := has_hint etHints false text in
    let has2H := has_hint secondHalfHints false text in
    let has1H := has_hint firstHalfHints false text in
    let r := if 1 <? boolCount [hasET; has2H; has1H] then r <| rAmbiguous := true |> else r in
    let clean := TrimSpace (remove_hints periodHints false 0 text) in
    parseCleanClock r hasET has2H has1H clean.

Definition parseAddedField (raw : string) : option Z :=
  let t := ToUpper (TrimSpace raw) in
  if one_of t [""; "NONE"; "N/A"] then None
  else match reAdded t with Some ds => Some (atoi ds) | None => None end.

Definition parseStoppageClockField (raw : string) : option Z :=
  let t := TrimSpace raw in
  let t := match strip_prefix "+" t with Some rest => rest | None => t end in
  let t := TrimSpace t in
  if one_of (ToUpper t) [""; "NONE"; "N/A"] then None
  else match parseTimer t false with
    | Some timer => if timer.(ptMinute) <? 100 then Some timer.(ptMinute) else None
    | None => None
    end.

(** ** Period labels (period_label.go) *)

Definition utf8_2 (a b : nat) : string :=
  String (Ascii.ascii_of_nat a) (String (Ascii.ascii_of_nat b) EmptyString).
Definition utf8_3 (a b c : nat) : string :=
  String (Ascii.ascii_of_nat a) (utf8_2 b c).

(** The superscript letters and what the replacer writes for them. *)
Definition superscripts : list (string * ascii) :=
  [(utf8_2 203 162, "s"%char); (utf8_3 225 181 151, "t"%char); (utf8_3 225 181 137, "e"%char);
   (utf8_2 202 179, "r"%char); (utf8_3 225 181 136, "d"%char); (utf8_3 226 129 191, "n"%char)].

Fixpoint find_superscript (table : list (string * ascii)) (s : string) : option (ascii * nat) :=
  match table with
  | [] => None
  | (sup, c) :: table =>
      if HasPrefix s sup then Some (c, String.length sup) else find_superscript table s
  end.

(** [strings.NewReplacer(...).Replace]. *)
Fixpoint replace_superscripts (skip : nat) (s : string) : string :=
  match s with
  | EmptyString => EmptyString
  | String c s' =>
      match skip with
      | S skip => replace_superscripts skip s'
      | O =>
          match find_superscript superscripts s with
          | Some (d, n) => String d (replace_superscripts (n - 1) s')
          | None => String c (replace_superscripts 0 s')
          end
      end
  end.

(** [strings.Join(strings.Fields(s), "")]: every space removed. *)
Fixpoint remove_spaces (s : string) : string :=
  match s with
  | EmptyString => EmptyString
  | String c s' => if is_space c then remove_spaces s' else String c (remove_spaces s')
  end.

(** [None] is the code's (PeriodUnknown, false). *)
Definition PeriodFromLabel (label : string) : option Period :=
  let text := ToUpper (remove_spaces (replace_superscripts 0 label)) in
  if one_of text ["1H"; "H1"; "1ST"; "1RE"; "1ER"; "1P"; "HALF1"; "1STHALF"]
  then Some PeriodFirstHalf
  else if one_of text ["2H"; "H2"; "2ND"; "2E"; "2P"; "HALF2"; "2NDHALF"]
  then Some PeriodSecondHalf
  else if one_of text ["ET1"; "1ET"; "1STEXTRATIME"] then Some PeriodExtraFirst
  else if one_of text ["ET2"; "2ET"; "2NDEXTRATIME"] then Some PeriodExtraSecond
  else None.

(** ** One frame *)

Record FrameObservation := mkFrameObservation {
  foSoccer : bool;
  foScreen : bool;
  foClock : option string;
  foPeriod : option Period;
  foPeriodLabel : option string;
  foAdded : option string;
  foStoppageClock : option string }.

(** The visible period evidence of a frame: none, one period, or a conflict. *)
Inductive periodEvidence :=
  | noEvidence
  | evidence (p : Period)
  | conflictingEvidence.

Definition framePeriodEvidence (frame : FrameObservation) : periodEvidence :=
  match frame.(foPeriodLabel) with
  | Some label =>
      match PeriodFromLabel label, frame.(foPeriod) with
      | None, Some _ => conflictingEvidence
      | Some literal, Some p =>
          if negb (Period_Valid p) || negb (literal =? p)%string then conflictingEvidence
          else evidence literal
      | Some literal, None => evidence literal
      | None, None => noEvidence
      end
  | None =>
      match frame.(foPeriod) with
      | None => noEvidence
      | Some p => if Period_Valid p then evidence p else conflictingEvidence
      end
  end.

Definition normalizeDisplayedMinute (minute : Z) (period : Period) : Z * bool :=
  if (period =? PeriodFirstHalf)%string then (minute, true)
  else if (period =? PeriodSecondHalf)%string then
    if minute <? 45 then (45 + minute, true) else (minute, true)
  else if (period =? PeriodExtraFirst)%string then
    if minute <=? 15 then (90 + minute, true)
    else if 90 <=? minute then (minute, true) else (minute, false)
  else if (period =? PeriodExtraSecond)%string then
    if minute <=? 15 then (105 + minute, true)
    else if minute <=? 30 then (90 + minute, true)
    else if 105 <=? minute then (minute, true) else (minute, false)
  else (minute, false).

Definition boundaryAlternatives (displayed : Z) (period : Period) (primary : Z) : list Z :=
  let alternative (candidate : Z) := if candidate =? primary then [] else [candidate] in
  if (period =? PeriodSecondHalf)%string && (displayed =? 45) then alternative 90
  else if (period =? PeriodExtraSecond)%string && (displayed =? 15) then alternative 105
  else [].

Definition runningStoppageRecognitionMinutes : Z := 15.

Fixpoint runningStoppageLoop (r : ClockReading) (ends : list Z) : ClockReading :=
  match ends with
  | [] => r
  | e :: ends =>
      if (e <? r.(rMinute)) && (r.(rMinute) <? e + runningStoppageRecognitionMinutes)
      then r <| rPeriod := periodOf e |> <| rPeriodPinned := true |> <| rStoppage := true |>
      else runningStoppageLoop r ends
  end.

Definition withRunningStoppage (r : ClockReading) (added : option string) : ClockReading :=
  match added with
  | None => r
  | Some added =>
      if r.(rPeriodPinned) || r.(rAmbiguous) || r.(rStoppage) then r
      else match parseAddedField added with
        | Some allowance =>
            if allowance <=? 0 then r else runningStoppageLoop r [45; 90; 105; 120]
        | None => r
        end
  end.

(** Appends the alternatives that are not in the list yet. *)
Definition possibleMinutes (reading : ClockReading) : list Z :=
  foldl (λ minutes candidate,
    if existsb (Z.eqb candidate) minutes then minutes else minutes ++ [candidate])
    [reading.(rMinute)] reading.(rAlternativeMinutes).

Definition periodEnd (p : Period) : option Z :=
  if (p =? PeriodFirstHalf)%string then Some 45
  else if (p =? PeriodSecondHalf)%string then Some 90
  else if (p =? PeriodExtraFirst)%string then Some 105
  else if (p =? PeriodExtraSecond)%string then Some 120
  else None.

Definition frozenBoundary (r : ClockReading) (timer : parsedTimer) : option Z :=
  if r.(rAmbiguous) || r.(rStoppage) || negb timer.(ptSecondsKnown) ||
    negb (timer.(ptSecond) =? 0) then None
  else match periodEnd r.(rPeriod) with
    | None => None
    | Some e => if existsb (Z.eqb e) (possibleMinutes r) then Some e else None
    end.

(** The merge of the separately observed period into the main timer. *)
Definition applyPeriodEvidence (r : ClockReading) (e : periodEvidence) : ClockReading :=
  match e with
  | conflictingEvidence => r <| rPeriod := PeriodUnknown |> <| rAmbiguous := true |>
  | noEvidence => r
  | evidence hint =>
      if r.(rPeriodPinned) then
        if negb (r.(rPeriod) =? hint)%string
        then r <| rPeriod := PeriodUnknown |> <| rAmbiguous := true |> else r
      else
        let displayed := r.(rMinute) in
        let '(minute, normalizable) := normalizeDisplayedMinute displayed hint in
        let r := r <| rMinute := minute |>
          <| rAlternativeMinutes := boundaryAlternatives displayed hint minute |>
          <| rPeriod := hint |> <| rPeriodPinned := true |> in
        if negb normalizable then r <| rAmbiguous := true |> else r
  end.

Definition parseFrameClock (frameIndex : Z) (f : FrameObservation) : option ClockReading :=
  match f.(foClock) with
  | None => None
  | Some clock =>
      match parseClockField clock with
      | None => None
      | Some (r, timer) =>
          let r := r <| rFrameIndex := frameIndex |> in
          let r := applyPeriodEvidence r (framePeriodEvidence f) in
          let r := withRunningStoppage r f.(foAdded) in
          match frozenBoundary r timer with
          | None => Some r
          | Some boundary =>
              match match f.(foStoppageClock) with
                    | Some raw => parseStoppageClockField raw
                    | None => None
                    end with
              | Some stop =>
                  Some (r <| rMinute := boundary + stop |> <| rAlternativeMinutes := [] |>
                          <| rStoppage := true |>)
              | None =>
                  match match f.(foAdded) with
                        | Some raw => parseAddedField raw
                        | None => None
                        end with
                  | Some _ =>
                      Some (r <| rMinute := boundary |> <| rAlternativeMinutes := [] |>
                              <| rStoppage := true |> <| rExactMinute := false |>)
                  | None => Some r
                  end
              end
          end
      end
  end.

(** ** The verdict (evaluate.go) *)

Definition Outcome := string.
Definition OutcomeVerified : Outcome := "verified".
Definition OutcomeUnverified : Outcome := "unverified".
Definition OutcomeRejected : Outcome := "rejected".

Record Expected := mkExpected { xElapsed : Z; xExtra : Z }.

Record Evaluation := mkEvaluation {
  evOutcome : Outcome;
  evMatchedMinute : option Z;
  evReason : string;
  evSoccerVotes : Z;
  evScreenVotes : Z;
  evFrameCount : Z;
  evDetectedMinute : option Z;
  evDetectedPeriod : string;
  evExpectedMinute : Z;
  evExpectedPeriod : string;
  evClockReadings : list ClockReading }.

#[global] Instance eta_Evaluation : Eta Evaluation := λ e,
  mkEvaluation e.(evOutcome) e.(evMatchedMinute) e.(evReason) e.(evSoccerVotes)
    e.(evScreenVotes) e.(evFrameCount) e.(evDetectedMinute) e.(evDetectedPeriod)
    e.(evExpectedMinute) e.(evExpectedPeriod) e.(evClockReadings).

Definition isPeriodBoundary (minute : Z) : bool :=
  (minute =? 45) || (minute =? 90) || (minute =? 105) || (minute =? 120).

Definition verify (ev : Evaluation) (minute : Z) (reason : string) : Evaluation :=
  ev <| evOutcome := OutcomeVerified |> <| evMatchedMinute := Some minute |>
    <| evReason := reason |>.

(** The flags the loop over the readings accumulates. *)
Record clockFlags := mkClockFlags {
  softKeep : bool;
  unpinned : bool;
  boundaryContradiction : bool;
  hasExact : bool }.

#[global] Instance eta_clockFlags : Eta clockFlags := λ f,
  mkClockFlags f.(softKeep) f.(unpinned) f.(boundaryContradiction) f.(hasExact).

(** Candidate 1: the first possible minute within tolerance. *)
Fixpoint directMatch (expectedMinute tol : Z) (first : bool) (minutes : list Z)
    : option (Z * string) :=
  match minutes with
  | [] => None
  | minute :: minutes =>
      if Z.abs (minute - expectedMinute) <=? tol then
        Some (minute, if first then "clock matches minute+period"
                      else "clock matches minute+period via alternate display convention")
      else directMatch expectedMinute tol false minutes
  end.

(** One iteration: a verified minute ends the loop, otherwise the flags go on. *)
Definition judgeReading (exp : Expected) (tol : Z) (flags : clockFlags) (reading : ClockReading)
    : (Z * string) + clockFlags :=
  let expectedMinute := exp.(xElapsed) + exp.(xExtra) - 1 in
  let expectedPeriod := periodOf exp.(xElapsed) in
  if reading.(rAmbiguous) then inr (flags <| softKeep := true |>)
  else
    let periodPinned := reading.(rPeriodPinned) || reading.(rStoppage) in
    if reading.(rStoppage) && negb reading.(rExactMinute) &&
      (reading.(rPeriod) =? expectedPeriod)%string
    then inr (flags <| unpinned := true |>
      <| boundaryContradiction ::= λ b, b || (expectedMinute + tol <? reading.(rMinute)) |>)
    else
      let flags := flags <| hasExact ::= λ b, b || reading.(rExactMinute) |> in
      let direct :=
        if reading.(rExactMinute) && (reading.(rPeriod) =? expectedPeriod)%string
        then directMatch expectedMinute tol true (possibleMinutes reading) else None in
      match direct with
      | Some found => inl found
      | None =>
          let corrected := exp.(xElapsed) + reading.(rMinute) in
          if (0 <? exp.(xExtra)) && negb reading.(rPeriodPinned) &&
            (Z.abs (corrected - expectedMinute) <=? tol)
          then inl (corrected, "OCR leading-digit rebase")
          else
            let soft := existsb (λ minute,
              (Z.abs (minute - expectedMinute) <=? tol) &&
              negb (reading.(rPeriod) =? expectedPeriod)%string &&
              ((negb periodPinned && isPeriodBoundary minute) ||
               isExtraTime expectedPeriod || isExtraTime reading.(rPeriod)))
              (possibleMinutes reading) in
            inr (if soft then flags <| softKeep := true |> else flags)
      end.

Fixpoint judgeReadings (exp : Expected) (tol : Z) (flags : clockFlags)
    (readings : list ClockReading) : (Z * string) + clockFlags :=
  match readings with
  | [] => inr flags
  | reading :: readings =>
      match judgeReading exp tol flags reading with
      | inl found => inl found
      | inr flags => judgeReadings exp tol flags readings
      end
  end.

(** [parseFrameClock] of every frame with its index, legible ones only. *)
Fixpoint frameReadings (index : Z) (frames : list FrameObservation) : list ClockReading :=
  match frames with
  | [] => []
  | f :: frames =>
      match parseFrameClock index f with
      | Some reading => reading :: frameReadings (index + 1) frames
      | None => frameReadings (index + 1) frames
      end
  end.

Definition votes (test : FrameObservation → bool) (frames : list FrameObservation) : Z :=
  Z.of_nat (length (filter (λ f, test f = true) frames)).

Definition Evaluate (frames : list FrameObservation) (exp : Expected) (tol : Z) : Evaluation :=
  let count := Z.of_nat (length frames) in
  let ev := mkEvaluation "" None "" 0 0 count None "" 0 "" [] in
  if (length frames =? 0)%nat
  then ev <| evOutcome := OutcomeRejected |> <| evReason := "no frames" |>
  else
    let soccerVotes := votes foSoccer frames in
    let screenVotes := votes foScreen frames in
    let ev := ev <| evSoccerVotes := soccerVotes |> <| evScreenVotes := screenVotes |> in
    let majority := count / 2 + 1 in
    if soccerVotes <? majority
    then ev <| evOutcome := OutcomeRejected |>
            <| evReason := "not soccer (minority soccer vote)" |>
    else if majority <=? screenVotes
    then ev <| evOutcome := OutcomeRejected |>
            <| evReason := "screen recording (majority screen vote)" |>
    else if exp.(xElapsed) <=? 0
    then ev <| evOutcome := OutcomeUnverified |> <| evReason := "API minute unavailable" |>
    else
      let readings := frameReadings 0 frames in
      let ev := ev <| evExpectedMinute := exp.(xElapsed) + exp.(xExtra) - 1 |>
        <| evExpectedPeriod := Period_String (periodOf exp.(xElapsed)) |>
        <| evDetectedMinute := rMinute <$> last readings |>
        <| evDetectedPeriod := match last readings with
             | Some r => Period_String r.(rPeriod) | None => "" end |>
        <| evClockReadings := readings |> in
      match judgeReadings exp tol (mkClockFlags false false false false) readings with
      | inl (minute, reason) => verify ev minute reason
      | inr flags =>
          let '(outcome, reason) :=
            if (length readings =? 0)%nat then (OutcomeUnverified, "no clock visible")
            else if flags.(boundaryContradiction)
            then (OutcomeRejected, "frozen period boundary is later than expected window")
            else if flags.(softKeep)
            then (OutcomeUnverified, "clock interpretation ambiguous — kept, not clock-verified")
            else if flags.(unpinned) && negb flags.(hasExact)
            then (OutcomeUnverified, "frozen boundary with no elapsed timer — minute unverified")
            else (OutcomeRejected,
              "clock present but does not match expected (wrong minute or wrong half)") in
          ev <| evOutcome := outcome |> <| evReason := reason |>
      end.

(** ** Retained evidence (evidence.go) *)

Definition MaxEvidenceBytes : Z := 16 * 1024.

Record EvaluationOrigin := mkEvaluationOrigin {
  eoWorkflowID : string;
  eoRunID : string;
  eoActivityID : string;
  eoAttempt : Z }.

(** Identifiers are positive; the nil UUID is [None].  Floats are IEEE values. *)
Record Evidence := mkEvidence {
  vdID : option positive;
  vdEventID : option positive;
  vdFixtureID : Z;
  vdMD5 : string;
  vdVersion : Z;
  vdEvaluatedAt : Time;
  vdEvaluator : string;
  vdModel : string;
  vdPromptSHA256 : string;
  vdSchemaSHA256 : string;
  vdTemperature : option spec_float;
  vdReasoningEffort : string;
  vdOrigin : EvaluationOrigin;
  vdExpected : Expected;
  vdToleranceMinutes : Z;
  vdFramePositions : list spec_float;
  vdFrameQuality : Z;
  vdFrames : list FrameObservation;
  vdEvaluation : Evaluation }.

Definition hex_digit (c : ascii) : bool :=
  let n := Ascii.nat_of_ascii c in
  is_digit c || ((97 <=? n)%nat && (n <=? 102)%nat) || ((65 <=? n)%nat && (n <=? 70)%nat).

Fixpoint all_hex (s : string) : bool :=
  match s with EmptyString => true | String c s' => hex_digit c && all_hex s' end.

(** The number of bytes [hex.DecodeString] returns, [None] on an error. *)
Definition hexBytes (s : string) : option nat :=
  if all_hex s && Nat.even (String.length s) then Some (Nat.div2 (String.length s)) else None.

Definition not_finite (f : spec_float) : bool :=
  match f with S754_nan | S754_infinity _ => true | _ => false end.

Definition float_zero : spec_float := S754_zero false.
Definition float_two : spec_float := S754_finite false 4503599627370496 (-51).

(** Finite, not negative, strictly increasing. *)
Fixpoint positionsBad (previous : option spec_float) (positions : list spec_float) : bool :=
  match positions with
  | [] => false
  | p :: positions =>
      not_finite p || SFltb p float_zero ||
      match previous with Some q => SFleb p q | None => false end ||
      positionsBad (Some p) positions
  end.

Section evidence.
(** The length of [json.Marshal(e)], [None] on an error. *)
Context (marshalledLength : Evidence → option Z).

Definition Evidence_Validate (evidence : option Evidence) : option string :=
  match evidence with
  | None => Some "missing validation identity, version or evaluation time"
  | Some e =>
      if is_nil e.(vdID) || negb (e.(vdVersion) =? 1) || IsZero e.(vdEvaluatedAt) ||
        (e.(vdEvaluator) =? "")%string
      then Some "missing validation identity, version or evaluation time"
      else if is_nil e.(vdEventID) || (e.(vdFixtureID) <=? 0) ||
        negb (bool_decide (hexBytes e.(vdMD5) = Some 16%nat))
      then Some "invalid validation event or exact content identity"
      else if (length e.(vdFrames) =? 0)%nat || (3 <? length e.(vdFrames))%nat ||
        negb (length e.(vdFramePositions) =? 3)%nat ||
        negb (e.(vdEvaluation).(evFrameCount) =? Z.of_nat (length e.(vdFrames))) ||
        (e.(vdToleranceMinutes) <? 0) || (e.(vdExpected).(xExtra) <? 0)
      then Some "invalid validation sampling or clock context"
      else if positionsBad None e.(vdFramePositions)
      then Some "invalid validation sample positions"
      else if (negb (e.(vdEvaluation).(evOutcome) =? OutcomeVerified)%string &&
               negb (e.(vdEvaluation).(evOutcome) =? OutcomeUnverified)%string) ||
        negb (Bool.eqb (e.(vdEvaluation).(evOutcome) =? OutcomeVerified)%string
                (not_nil e.(vdEvaluation).(evMatchedMinute)))
      then Some "validation evidence must describe its own accepted verdict"
      else if negb (forallb (λ d, bool_decide (hexBytes d = Some 32%nat))
        [e.(vdPromptSHA256); e.(vdSchemaSHA256)])
      then Some "invalid validation contract digest"
      else if match e.(vdTemperature) with
        | Some t => not_finite t || SFltb t float_zero || SFltb float_two t
        | None => false
        end
      then Some "invalid validation temperature"
      else if negb (one_of e.(vdReasoningEffort) [""; "none"; "low"; "medium"; "high"])
      then Some "invalid validation reasoning effort"
      else match marshalledLength e with
        | Some n => if MaxEvidenceBytes <? n then Some "validation evidence is not bounded JSON"
                    else None
        | None => Some "validation evidence is not bounded JSON"
        end
  end.
End evidence.

(** ** Concrete readings *)

Definition clockFrame (clock : string) : FrameObservation :=
  mkFrameObservation true false (Some clock) None None None None.

Example compact_stoppage : (rMinute <$> parseFrameClock 0 (clockFrame " 45+2 ")) = Some 47.
Proof. reflexivity. Qed.
Example second_half_hint :
  (λ r, (rMinute r, rPeriod r)) <$> parseFrameClock 0 (clockFrame "2nd half 15:00")
  = Some (60, PeriodSecondHalf).
Proof. reflexivity. Qed.
Example word_boundary : has_hint etHints false "SET 12:00" = false.
Proof. reflexivity. Qed.
Example frozen_with_subtimer :
  (λ r, (rMinute r, rExactMinute r)) <$>
    parseFrameClock 0 (mkFrameObservation true false (Some "90:00") None None (Some "+5") (Some "+1:48"))
  = Some (91, true).
Proof. reflexivity. Qed.

(** ** Properties of the verdict *)

(** What a reading must show for its minute to verify a clip. *)
Definition supports (exp : Expected) (reading : ClockReading) (minute : Z) : Prop :=
  reading.(rAmbiguous) = false ∧
  ((reading.(rExactMinute) = true ∧ reading.(rPeriod) = periodOf exp.(xElapsed) ∧
    minute ∈ possibleMinutes reading) ∨
   (0 < exp.(xExtra) ∧ reading.(rPeriodPinned) = false ∧
    minute = exp.(xElapsed) + reading.(rMinute))).

Lemma directMatch_sound e tol first minutes minute reason :
  directMatch e tol first minutes = Some (minute, reason) →
  minute ∈ minutes ∧ Z.abs (minute - e) ≤ tol.
Proof.
  revert first. induction minutes as [|m minutes IH]; intros first; [done|].
  cbn [directMatch]. destruct (Z.leb_spec (Z.abs (m - e)) tol).
  - intros [= <- _]. split; [left|done].
  - intros [? ?]%IH. split; [by right|done].
Qed.

Lemma directMatch_complete e tol first minutes :
  directMatch e tol first minutes = None → ∀ minute, minute ∈ minutes → tol < Z.abs (minute - e).
Proof.
  revert first. induction minutes as [|m minutes IH]; intros first H minute Hm;
    [by apply elem_of_nil in Hm|].
  cbn [directMatch] in H. destruct (Z.leb_spec (Z.abs (m - e)) tol); [done|].
  apply elem_of_cons in Hm as [->|Hm]; [done|by eapply IH].
Qed.

Lemma judgeReading_sound exp tol flags reading minute reason :
  judgeReading exp tol flags reading = inl (minute, reason) →
  supports exp reading minute ∧ Z.abs (minute - (exp.(xElapsed) + exp.(xExtra) - 1)) ≤ tol.
Proof.
  unfold judgeReading. destruct (rAmbiguous reading) eqn:Ea; [done|].
  destruct (rStoppage reading && _ && _); [done|]. cbn zeta.
  set (e := xElapsed exp + xExtra exp - 1).
  destruct (if rExactMinute reading && (rPeriod reading =? periodOf (xElapsed exp))%string
    then _ else None) as [[m rs]|] eqn:Ed.
  - intros [= -> ->]. destruct (rExactMinute reading) eqn:Ee; [|done].
    destruct (String.eqb_spec (rPeriod reading) (periodOf (xElapsed exp))) as [Ep|]; [|done].
    apply directMatch_sound in Ed as [? ?]. split; [|done]. split; [done|]. by left.
  - destruct ((0 <? xExtra exp) && negb (rPeriodPinned reading) &&
      (Z.abs (xElapsed exp + rMinute reading - e) <=? tol)) eqn:Er; [|done].
    intros [= <- _]. rewrite !andb_true_iff, Z.ltb_lt, negb_true_iff, Z.leb_le in Er.
    destruct Er as [[? ?] ?]. split; [|done]. split; [done|]. by right.
Qed.

Lemma judgeReadings_sound exp tol flags readings minute reason :
  judgeReadings exp tol flags readings = inl (minute, reason) →
  ∃ reading, reading ∈ readings ∧ supports exp reading minute ∧
    Z.abs (minute - (exp.(xElapsed) + exp.(xExtra) - 1)) ≤ tol.
Proof.
  revert flags. induction readings as [|reading readings IH]; intros flags; [done|].
  cbn [judgeReadings]. destruct (judgeReading exp tol flags reading) as [[m r]|fl] eqn:E.
  - intros [= -> ->]. apply judgeReading_sound in E as [? ?]. exists reading.
    split; [left|done].
  - intros (rd & ? & ?)%IH. exists rd. split; [by right|done].
Qed.

(** The gates before the clock check. *)
Definition passesGates (frames : list FrameObservation) (exp : Expected) : Prop :=
  frames ≠ [] ∧
  Z.of_nat (length frames) / 2 + 1 ≤ votes foSoccer frames ∧
  votes foScreen frames < Z.of_nat (length frames) / 2 + 1 ∧
  0 < exp.(xElapsed).

(** The verdict a clip receives after the gates. *)
Lemma Evaluate_gates frames exp tol :
  passesGates frames exp →
  let readings := frameReadings 0 frames in
  match judgeReadings exp tol (mkClockFlags false false false false) readings with
  | inl (minute, reason) =>
      (Evaluate frames exp tol).(evOutcome) = OutcomeVerified ∧
      (Evaluate frames exp tol).(evMatchedMinute) = Some minute
  | inr flags =>
      (Evaluate frames exp tol).(evMatchedMinute) = None ∧
      (Evaluate frames exp tol).(evOutcome) =
        if (length readings =? 0)%nat then OutcomeUnverified
        else if flags.(boundaryContradiction) then OutcomeRejected
        else if flags.(softKeep) then OutcomeUnverified
        else if flags.(unpinned) && negb flags.(hasExact) then OutcomeUnverified
        else OutcomeRejected
  end.
Proof.
  intros (Hne & Hso & Hsc & Hel) readings. unfold Evaluate.
  destruct (Nat.eqb_spec (length frames) 0) as [Hl|_]; [by destruct frames|]. cbn zeta.
  destruct (Z.ltb_spec (votes foSoccer frames) (Z.of_nat (length frames) / 2 + 1)); [lia|].
  destruct (Z.leb_spec (Z.of_nat (length frames) / 2 + 1) (votes foScreen frames)); [lia|].
  destruct (Z.leb_spec (xElapsed exp) 0); [lia|]. fold readings.
  destruct (judgeReadings _ _ _ _) as [[m r]|fl]; [done|].
  destruct (length readings =? 0)%nat; [done|]. destruct (boundaryContradiction fl); [done|].
  destruct (softKeep fl); [done|]. by destruct (unpinned fl && _).
Qed.

Lemma Evaluate_blocked frames exp tol :
  ¬ passesGates frames exp →
  (Evaluate frames exp tol).(evMatchedMinute) = None ∧
  ((Evaluate frames exp tol).(evOutcome) = OutcomeRejected ∨
   (Evaluate frames exp tol).(evOutcome) = OutcomeUnverified).
Proof.
  intros Hn. unfold Evaluate.
  destruct (Nat.eqb_spec (length frames) 0) as [Hl|Hl]; [by split; [|left]|]. cbn zeta.
  destruct (Z.ltb_spec (votes foSoccer frames) (Z.of_nat (length frames) / 2 + 1));
    [by split; [|left]|].
  destruct (Z.leb_spec (Z.of_nat (length frames) / 2 + 1) (votes foScreen frames));
    [by split; [|left]|].
  destruct (Z.leb_spec (xElapsed exp) 0); [by split; [|right]|].
  destruct Hn. split_and!; try done. by intros ->.
Qed.

Lemma passesGates_dec frames exp : passesGates frames exp ∨ ¬ passesGates frames exp.
Proof.
  unfold passesGates. destruct (decide (frames = [])); [naive_solver|].
  destruct (decide (Z.of_nat (length frames) / 2 + 1 ≤ votes foSoccer frames)); [|naive_solver].
  destruct (decide (votes foScreen frames < Z.of_nat (length frames) / 2 + 1)); [|naive_solver].
  destruct (decide (0 < xElapsed exp)); naive_solver.
Qed.

(** C34: a clip is only verified on evidence: a majority of frames shows football,
    no majority shows a filmed screen, the provider reported a minute, and one
    frame carries an unambiguous clock whose minute is within the tolerance of
    the expected one, either exact and in the expected period, or a stoppage
    clock without a period label whose leading digits were dropped. *)
Theorem Evaluate_verified frames exp tol :
  (Evaluate frames exp tol).(evOutcome) = OutcomeVerified →
  passesGates frames exp ∧
  ∃ reading minute, reading ∈ frameReadings 0 frames ∧
    (Evaluate frames exp tol).(evMatchedMinute) = Some minute ∧
    supports exp reading minute ∧
    Z.abs (minute - (exp.(xElapsed) + exp.(xExtra) - 1)) ≤ tol.
Proof.
  intros Hv. destruct (passesGates_dec frames exp) as [Hg|Hg].
  2:{ destruct (Evaluate_blocked frames exp tol Hg) as [_ [H|H]]; rewrite H in Hv; done. }
  split; [done|]. pose proof (Evaluate_gates frames exp tol Hg) as HE. cbn zeta in HE.
  destruct (judgeReadings _ _ _ _) as [[m r]|fl] eqn:E.
  - destruct HE as [_ HM]. apply judgeReadings_sound in E as (rd & H1 & H2 & H3).
    exists rd, m. done.
  - destruct HE as [_ HO]. rewrite HO in Hv. by repeat case_match.
Qed.

Lemma Evaluate_verified_witness :
  let frames := [clockFrame "63:10"; clockFrame "63:20"; clockFrame "63:30"] in
  passesGates frames (mkExpected 64 0) ∧
  ∃ reading minute, reading ∈ frameReadings 0 frames ∧
    (Evaluate frames (mkExpected 64 0) 1).(evMatchedMinute) = Some minute ∧
    supports (mkExpected 64 0) reading minute ∧ Z.abs (minute - (64 + 0 - 1)) ≤ 1.
Proof. intros frames. apply (Evaluate_verified frames (mkExpected 64 0) 1). reflexivity. Defined.

(** Every evaluation is one of the three outcomes and carries a matched minute
    exactly when it is verified, which is the shape retained evidence must
    have. *)
Theorem Evaluate_outcome frames exp tol :
  let ev := Evaluate frames exp tol in
  (ev.(evOutcome) = OutcomeVerified ∧ is_Some ev.(evMatchedMinute)) ∨
  ((ev.(evOutcome) = OutcomeUnverified ∨ ev.(evOutcome) = OutcomeRejected) ∧
   ev.(evMatchedMinute) = None).
Proof.
  cbn zeta. destruct (passesGates_dec frames exp) as [Hg|Hg].
  - pose proof (Evaluate_gates frames exp tol Hg) as HE. cbn zeta in HE.
    destruct (judgeReadings _ _ _ _) as [[m r]|fl].
    + left. destruct HE as [-> ->]. by split; [|eexists].
    + right. destruct HE as [-> ->]. split; [|done]. repeat case_match; auto.
  - right. destruct (Evaluate_blocked frames exp tol Hg) as [-> [->| ->]]; auto.
Qed.

(** A legible clock that is pinned to a regulation period other than the
    expected one. *)
Definition wrongHalf (exp : Expected) (reading : ClockReading) : Prop :=
  reading.(rAmbiguous) = false ∧ reading.(rPeriodPinned) = true ∧
  reading.(rPeriod) ≠ periodOf exp.(xElapsed) ∧ isExtraTime reading.(rPeriod) = false.

Lemma wrongHalf_flags exp tol flags readings :
  isExtraTime (periodOf exp.(xElapsed)) = false →
  Forall (wrongHalf exp) readings →
  ∃ e, judgeReadings exp tol flags readings = inr (flags <| hasExact := e |>).
Proof.
  intros Hx HF. revert flags. induction HF as [|r readings (H1 & H2 & H3 & H4) _ IH]; intros flags.
  { exists (hasExact flags). by destruct flags. }
  cbn [judgeReadings]. unfold judgeReading. rewrite H1, H2, H4, Hx.
  apply String.eqb_neq in H3. rewrite H3, !andb_false_r. cbn zeta. cbn [negb orb andb].
  match goal with |- context [existsb ?f ?l] => assert (existsb f l = false) as -> end.
  { induction (possibleMinutes r) as [|m l IHl]; [done|]. cbn [existsb].
    by rewrite andb_false_r, IHl. }
  destruct (IH (flags <| hasExact ::= λ b, b || rExactMinute r |>)) as [e ->].
  exists e. by destruct flags.
Qed.

(** Past the gates the clock decides cleanly at both ends: with no legible
    clock the clip is kept unverified, and when every legible clock is pinned to
    the wrong regulation half the clip is rejected. *)
Theorem Evaluate_no_clock_or_wrong_half frames exp tol :
  passesGates frames exp →
  (frameReadings 0 frames = [] →
     (Evaluate frames exp tol).(evOutcome) = OutcomeUnverified) ∧
  (frameReadings 0 frames ≠ [] → isExtraTime (periodOf exp.(xElapsed)) = false →
   Forall (wrongHalf exp) (frameReadings 0 frames) →
     (Evaluate frames exp tol).(evOutcome) = OutcomeRejected).
Proof.
  intros Hg. pose proof (Evaluate_gates frames exp tol Hg) as HE. cbn zeta in HE. split.
  - intros Hr. rewrite Hr in HE. by destruct HE as [_ ->].
  - intros Hne Hx HF.
    destruct (wrongHalf_flags exp tol (mkClockFlags false false false false) _ Hx HF) as [e He].
    rewrite He in HE. destruct HE as [_ ->]. by destruct (frameReadings 0 frames).
Qed.

Lemma Evaluate_no_clock_witness :
  let frames := [clockFrame ""; clockFrame "NONE"; clockFrame "HT"] in
  (Evaluate frames (mkExpected 64 0) 1).(evOutcome) = OutcomeUnverified.
Proof.
  intros frames. apply (Evaluate_no_clock_or_wrong_half frames (mkExpected 64 0) 1); [|reflexivity].
  vm_compute. repeat split; done.
Defined.

(** ** Properties of the parsers *)

Definition twoDigits (n : Z) : string := if n <? 10 then String "0" (Itoa n) else Itoa n.

Definition timerText (m s : Z) : string := String.append (Itoa m) (String ":" (twoDigits s)).

Fixpoint all_digits (s : string) : bool :=
  match s with EmptyString => true | String c s' => is_digit c && all_digits s' end.

Lemma take_digits_app a c b :
  all_digits a = true → is_digit c = false →
  take_digits (String.append a (String c b)) = (a, String c b).
Proof.
  intros Ha Hc. induction a as [|d a IH]; [change (String.append "" (String c b)) with (String c b);
    cbn [take_digits]; by rewrite Hc|].
  change (String.append (String d a) (String c b)) with (String d (String.append a (String c b))).
  cbn [take_digits all_digits] in *. destruct (is_digit d); [|done]. by rewrite IH.
Qed.

Lemma take_digits_all a : all_digits a = true → take_digits a = (a, EmptyString).
Proof.
  intros Ha. induction a as [|d a IH]; cbn [take_digits]; [done|].
  cbn in Ha. destruct (is_digit d); [|done]. by rewrite IH.
Qed.

Definition minuteOk (m : Z) : bool :=
  all_digits (Itoa m) && (1 <=? String.length (Itoa m))%nat &&
  (String.length (Itoa m) <=? 3)%nat && (atoi (Itoa m) =? m).

Definition secondOk (s : Z) : bool :=
  all_digits (twoDigits s) && (String.length (twoDigits s) =? 2)%nat && (atoi (twoDigits s) =? s).

Lemma up_to (P : Z → bool) (n : nat) m :
  forallb (λ k, P (Z.of_nat k)) (seq 0 n) = true → 0 ≤ m < Z.of_nat n → P m = true.
Proof.
  rewrite forallb_forall. intros H Hm. rewrite <-(Z2Nat.id m) by lia. apply H, in_seq. lia.
Qed.

Lemma minutes_ok m : 0 ≤ m < 1000 → minuteOk m = true.
Proof. apply (up_to minuteOk 1000). vm_compute. reflexivity. Qed.

Lemma seconds_ok s : 0 ≤ s < 60 → secondOk s = true.
Proof. apply (up_to secondOk 60). vm_compute. reflexivity. Qed.

(** The main timer is read back exactly: every displayed MM:SS with up to
    three minute digits and seconds below sixty parses to its minute and second
    with the seconds known, and sixty or more seconds are refused. *)
Theorem parseTimer_text m s bare :
  0 ≤ m < 1000 →
  (0 ≤ s < 60 → parseTimer (timerText m s) bare = Some (mkParsedTimer m s true)) ∧
  (60 ≤ s < 100 → parseTimer (timerText m s) bare = None).
Proof.
  intros Hm. pose proof (minutes_ok m Hm) as HM. unfold minuteOk in HM.
  rewrite !andb_true_iff, Z.eqb_eq in HM. destruct HM as [[[M1 M2] M3] M4].
  assert (∀ s, all_digits (twoDigits s) = true → (String.length (twoDigits s) =? 2)%nat = true →
    reMMSS (timerText m s) = Some (Itoa m, twoDigits s)) as Hre.
  { intros s' S1 S2. unfold reMMSS, timerText. rewrite take_digits_app by done.
    rewrite M2, M3. cbn [andb]. rewrite take_digits_all by done. by rewrite S2. }
  split; intros Hs; unfold parseTimer.
  - pose proof (seconds_ok s Hs) as HS. unfold secondOk in HS.
    rewrite !andb_true_iff, Z.eqb_eq in HS. destruct HS as [[S1 S2] S3].
    rewrite Hre, M4, S3 by done. by destruct (Z.ltb_spec s 60); [|lia].
  - assert (all_digits (twoDigits s) && (String.length (twoDigits s) =? 2)%nat &&
      (60 <=? atoi (twoDigits s)) = true) as HS.
    { set (P k := all_digits (twoDigits (k + 60)) && (String.length (twoDigits (k + 60)) =? 2)%nat &&
        (60 <=? atoi (twoDigits (k + 60)))).
      replace s with ((s - 60) + 60) by lia. apply (up_to P 40); [by vm_compute|lia]. }
    rewrite !andb_true_iff, Z.leb_le in HS. destruct HS as [[S1 S2] S3].
    rewrite Hre by done. by destruct (Z.ltb_spec (atoi (twoDigits s)) 60); [lia|].
Qed.

Lemma parseTimer_text_witness :
  parseTimer (timerText 97 5) false = Some (mkParsedTimer 97 5 true) ∧
  parseTimer (timerText 97 75) true = None.
Proof. split; apply parseTimer_text; lia. Defined.

(** *** Stoppage evidence *)

Lemma periodOf_end e : e ∈ [45; 90; 105; 120] → periodEnd (periodOf e) = Some e.
Proof. rewrite !elem_of_cons. intros [->|[->|[->|[->|H]]]]; [done..|]. by apply elem_of_nil in H. Qed.

Lemma frozenBoundary_end r timer b :
  frozenBoundary r timer = Some b → periodEnd r.(rPeriod) = Some b ∧ rAmbiguous r = false.
Proof.
  unfold frozenBoundary. destruct (rAmbiguous r); [done|]. destruct (_ || _); [done|].
  destruct (periodEnd _) as [e|]; [|done]. destruct (existsb _ _); [|done]. by intros [= ->].
Qed.

Lemma parseCleanClock_exact r a b c text r' t :
  r.(rExactMinute) = true → parseCleanClock r a b c text = Some (r', t) → r'.(rExactMinute) = true.
Proof.
  intros Hr. unfold parseCleanClock. destruct (reCompactStoppage text) as [[[b1 b2] b3]|].
  - destruct (negb _ && _); [done|]. cbn zeta. destruct (_ && negb _); intros [= <- _]; done.
  - destruct (parseTimer text true); [|done]. cbn zeta. intros [= <- _].
    destruct a; [by destruct (_ <=? 30)|].
    destruct b; [by destruct (_ <? 45); [|destruct (_ =? 45)]|]. by destruct c.
Qed.

Lemma parseClockField_exact raw r t : parseClockField raw = Some (r, t) → r.(rExactMinute) = true.
Proof.
  unfold parseClockField. destruct (one_of _ _); [done|]. cbn zeta.
  apply parseCleanClock_exact. by destruct (1 <? _).
Qed.

Lemma applyPeriodEvidence_exact r e : (applyPeriodEvidence r e).(rExactMinute) = r.(rExactMinute).
Proof.
  destruct e; cbn; [done| |done]. destruct (rPeriodPinned r); [by destruct (negb _)|].
  destruct (normalizeDisplayedMinute _ _) as [m []]; done.
Qed.

Lemma withRunningStoppage_exact r a : (withRunningStoppage r a).(rExactMinute) = r.(rExactMinute).
Proof.
  unfold withRunningStoppage. destruct a; [|done]. destruct (_ || _); [done|].
  destruct (parseAddedField _); [|done]. destruct (_ <=? 0); [done|].
  cbn [runningStoppageLoop]. by repeat destruct (_ && _).
Qed.

(** An announced allowance is never read as elapsed time: a reading without an
    exact minute comes from a frozen period end with an announced allowance and
    no running sub-timer, and its minute is that period's end, 45, 90, 105 or
    120. *)
Theorem inexact_reading_is_boundary i f r :
  parseFrameClock i f = Some r → r.(rExactMinute) = false →
  periodEnd r.(rPeriod) = Some r.(rMinute) ∧ r.(rStoppage) = true ∧ r.(rAmbiguous) = false ∧
  r.(rAlternativeMinutes) = [] ∧
  (∃ added n, f.(foAdded) = Some added ∧ parseAddedField added = Some n) ∧
  match f.(foStoppageClock) with Some raw => parseStoppageClockField raw = None | None => True end.
Proof.
  unfold parseFrameClock. destruct (foClock f) as [clock|]; [|done].
  destruct (parseClockField clock) as [[r0 timer]|] eqn:E; [|done].
  apply parseClockField_exact in E. cbn zeta.
  set (r1 := withRunningStoppage _ _).
  assert (rExactMinute r1 = true) as H1
    by (subst r1; by rewrite withRunningStoppage_exact, applyPeriodEvidence_exact).
  clearbody r1. destruct (frozenBoundary r1 timer) as [b|] eqn:Eb; [|intros [= <-]; congruence].
  apply frozenBoundary_end in Eb as [Eb Ea].
  destruct (match foStoppageClock f with Some _ => _ | None => _ end) as [stop|] eqn:Es;
    [intros [= <-]; cbn; congruence|].
  destruct (match foAdded f with Some _ => _ | None => _ end) as [n|] eqn:En;
    [|intros [= <-]; congruence].
  intros [= <-] _. cbn. split_and!; try done.
  - destruct (foAdded f) as [added|]; [|done]. by exists added, n.
  - by destruct (foStoppageClock f).
Qed.

Lemma inexact_reading_is_boundary_witness :
  let f := mkFrameObservation true false (Some "90:00") None None (Some "+5") None in
  let r := mkClockReading 0 90 [] PeriodSecondHalf false true false false in
  periodEnd r.(rPeriod) = Some r.(rMinute).
Proof.
  intros f r. apply (inexact_reading_is_boundary 0 f r); reflexivity.
Defined.

End vision.
