(* ===== verification/Video.v ===== *)
(** internal/domain/video: accepted media variants and their public shares
    (video.go), the perceptual frame hash (hash.go), the gap-tolerant sequence
    match (match.go), the metadata gates (filter.go, prefilter.go), the quality
    comparison (quality.go) and the public order of shares (rank.go).

    Floating-point numbers are IEEE binary64 values of the Standard Library's
    [SpecFloat], so every threshold comparison is the one the code makes. *)
From S2P Require Import Prelude GoStrings Vision.
From Stdlib Require Import SpecFloat.
#[local] Open Scope string_scope.
#[local] Open Scope list_scope.
#[local] Open Scope Z_scope.

Module video.

Abbreviation UUID := positive (only parsing).

(** ** float64 *)

Abbreviation float64 := spec_float (only parsing).

(** [float64(n)], rounded to nearest even. *)
Definition float_of_int (n : Z) : float64 := binary_normalize 53 1024 n 0 false.
Definition float_mul : float64 → float64 → float64 := SFmul 53 1024.
Definition float_div : float64 → float64 → float64 := SFdiv 53 1024.
Definition float_sub : float64 → float64 → float64 := SFsub 53 1024.
(** [math.Max] on numbers that are neither NaN nor signed zeros. *)
Definition float_max (x y : float64) : float64 := if SFltb x y then y else x.

Definition float_0 : float64 := S754_zero false.

(** ** Assets and shares (video.go) *)

Definition ShareState := string.
Definition ShareStateActive : ShareState := "active".
Definition ShareStateRemoved : ShareState := "removed".
Definition ShareStateSuperseded : ShareState := "superseded".
Definition ShareState_Valid (s : ShareState) : bool :=
  one_of s [ShareStateActive; ShareStateRemoved; ShareStateSuperseded].

Definition RemovalReason := string.
Definition RemovalVAR : RemovalReason := "var".
Definition RemovalPolicy : RemovalReason := "policy".
Definition RemovalAssetGone : RemovalReason := "asset_gone".
Definition RemovalReason_Valid (r : RemovalReason) : bool :=
  one_of r [RemovalVAR; RemovalPolicy; RemovalAssetGone].

Definition FrameHashVersion := string.
Definition LegacyFrameHashVersion : FrameHashVersion := "dhash-v1-unversioned".
Definition frameHashV2Prefix : string := "dhash-v2-gray640-equalized-area9x8".

Definition NormalizeFrameHashVersion (v : FrameHashVersion) : FrameHashVersion :=
  if (v =? "")%string then LegacyFrameHashVersion else v.

Definition CompatibleFrameHashVersions (a b : FrameHashVersion) : bool :=
  (NormalizeFrameHashVersion a =? NormalizeFrameHashVersion b)%string.

Definition MediaFingerprintVersion : string := "media-v1".
Definition MediaFingerprintUnknownDurationVersion : string := "media-v2".

(** [AspectRatio] is a column the schema generates and is left out; the nil UUID
    is [None]. *)
Record Asset := mkAsset {
  aID : option UUID;
  aEventID : option UUID;
  aFixtureID : Z;
  aS3Bucket : string;
  aS3Key : string;
  aObjectReclaimedAt : option Time;
  aMD5 : list Byte.byte;
  aMediaFingerprint : string;
  aFrameHashVersion : FrameHashVersion;
  aFrameHashes : list Z;
  aWidth : Z;
  aHeight : Z;
  aDurationMS : Z;
  aFileSizeBytes : Z;
  aBitrate : option Z;
  aFrameRate : option float64;
  aPopularity : Z;
  aSupersededBy : option UUID;
  aFirstSeenAt : Time }.

#[global] Instance eta_Asset : Eta Asset := λ a,
  mkAsset a.(aID) a.(aEventID) a.(aFixtureID) a.(aS3Bucket) a.(aS3Key) a.(aObjectReclaimedAt)
    a.(aMD5) a.(aMediaFingerprint) a.(aFrameHashVersion) a.(aFrameHashes) a.(aWidth) a.(aHeight)
    a.(aDurationMS) a.(aFileSizeBytes) a.(aBitrate) a.(aFrameRate) a.(aPopularity)
    a.(aSupersededBy) a.(aFirstSeenAt).

(** [uuid.New()] is the argument [id]. *)
Definition NewAsset (id : UUID) (eventID : option UUID) (fixtureID : Z) (s3Bucket s3Key : string)
    (md5 : list Byte.byte) (frameHashVersion : FrameHashVersion) (frameHashes : list Z)
    (width height durationMS fileSize : Z) (at_ : Time) : Asset :=
  mkAsset (Some id) eventID fixtureID s3Bucket s3Key None md5 ""
    (NormalizeFrameHashVersion frameHashVersion) frameHashes width height durationMS fileSize
    None None 1 None (UTC at_).

Definition BumpPopularity (a : Asset) : Asset := a <| aPopularity ::= λ n, wrap64 (n + 1) |>.

Definition SupersededBySet (a : Asset) (successorID : UUID) : Asset :=
  a <| aSupersededBy := Some successorID |>.

(** The string before the first [c] and the one after it ([strings.Cut]). *)
Fixpoint cut (c : ascii) (s : string) : option (string * string) :=
  match s with
  | EmptyString => None
  | String d s' =>
      if Ascii.eqb d c then Some (EmptyString, s')
      else match cut c s' with Some (l, r) => Some (String d l, r) | None => None end
  end.

Definition fingerprintInvalid (f : string) : bool :=
  match cut ":" f with
  | None => true
  | Some (version, digest) =>
      (negb (version =? MediaFingerprintVersion)%string &&
       negb (version =? MediaFingerprintUnknownDurationVersion)%string) ||
      negb (String.length digest =? 64)%nat || is_nil (vision.hexBytes digest)
  end.

Definition Asset_ValidateInvariants (a : Asset) : option string :=
  if is_nil a.(aID) || is_nil a.(aEventID) || (a.(aFixtureID) <=? 0)
  then Some "incomplete asset, event, or fixture identity"
  else if (a.(aS3Bucket) =? "")%string || (a.(aS3Key) =? "")%string
  then Some "storage location is empty"
  else if negb (length a.(aMD5) =? 16)%nat then Some "md5 must be 16 bytes"
  else if negb (a.(aMediaFingerprint) =? "")%string && fingerprintInvalid a.(aMediaFingerprint)
  then Some "invalid media fingerprint"
  else if (NormalizeFrameHashVersion a.(aFrameHashVersion) =? "")%string ||
    (length a.(aFrameHashes) =? 0)%nat
  then Some "frame-hash contract is empty"
  else if (a.(aWidth) <=? 0) || (a.(aHeight) <=? 0) || (a.(aDurationMS) <=? 0) ||
    (a.(aFileSizeBytes) <=? 0)
  then Some "non-positive media shape"
  else if match a.(aBitrate) with Some b => b <=? 0 | None => false end
  then Some "bitrate must be positive when present"
  else if match a.(aFrameRate) with Some f => SFleb f float_0 | None => false end
  then Some "frame rate must be positive when present"
  else if a.(aPopularity) <? 1 then Some "popularity must be >= 1"
  else if not_nil a.(aSupersededBy) && bool_decide (a.(aSupersededBy) = a.(aID))
  then Some "asset cannot supersede itself"
  else if match a.(aObjectReclaimedAt) with Some t => Before t a.(aFirstSeenAt) | None => false end
  then Some "object reclaimed before first observation"
  else None.

Record Share := mkShare {
  sID : string;
  sAssetID : option UUID;
  sEventID : option UUID;
  sTimestampVerified : bool;
  sExtractedMinute : option Z;
  sState : ShareState;
  sRemovedReason : option RemovalReason;
  sRemovedAt : option Time;
  sRank : Z;
  sCreatedAt : Time }.

#[global] Instance eta_Share : Eta Share := λ s,
  mkShare s.(sID) s.(sAssetID) s.(sEventID) s.(sTimestampVerified) s.(sExtractedMinute)
    s.(sState) s.(sRemovedReason) s.(sRemovedAt) s.(sRank) s.(sCreatedAt).

(** [generateShareID] over the six random bytes, [None] when the reader failed. *)
Definition hex_nibble (n : Z) : ascii :=
  Ascii.ascii_of_nat (Z.to_nat (if n <? 10 then 48 + n else 87 + n)).
Fixpoint EncodeToString (bytes : list Byte.byte) : string :=
  match bytes with
  | [] => EmptyString
  | b :: bytes =>
      let n := Z.of_N (Byte.to_N b) in
      String (hex_nibble (n / 16)) (String (hex_nibble (n mod 16)) (EncodeToString bytes))
  end.
Definition generateShareID (random : option (list Byte.byte)) : option string :=
  match random with Some b => Some (String "s" (String "_" (EncodeToString b))) | None => None end.

Definition NewShare (random : option (list Byte.byte)) (assetID eventID : option UUID)
    (timestampVerified : bool) (extractedMinute : option Z) (rank : Z) (at_ : Time)
    : Share + string :=
  match generateShareID random with
  | None => inr "video.NewShare: generate id"
  | Some id =>
      if rank <? 1 then inr "video.NewShare: rank must be >= 1"
      else inl (mkShare id assetID eventID timestampVerified extractedMinute ShareStateActive
        None None rank (UTC at_))
  end.

Definition Remove (s : Share) (reason : RemovalReason) (at_ : Time) : Share * option string :=
  if negb (RemovalReason_Valid reason) then (s, Some "video: unknown removal reason")
  else if (s.(sState) =? ShareStateRemoved)%string then
    match s.(sRemovedReason) with
    | Some r =>
        if (r =? reason)%string then (s, None)
        else (s, Some "video: share already removed")
    (* the error message dereferences the nil reason: the code panics here *)
    | None => (s, Some "panic: nil pointer dereference")
    end
  else
    (s <| sState := ShareStateRemoved |> <| sRemovedReason := Some reason |>
       <| sRemovedAt := Some (UTC at_) |>, None).

Definition Share_ValidateInvariants (s : Share) : option string :=
  if s.(sRank) <? 1 then Some "rank must be >= 1"
  else if one_of s.(sState) [ShareStateActive; ShareStateSuperseded] then
    if not_nil s.(sRemovedReason) || not_nil s.(sRemovedAt)
    then Some "live/superseded with RemovedReason/At set" else None
  else if (s.(sState) =? ShareStateRemoved)%string then
    if is_nil s.(sRemovedReason) || is_nil s.(sRemovedAt)
    then Some "removed requires RemovedReason + RemovedAt" else None
  else Some "invalid State".

(** ** The metadata gates (filter.go, prefilter.go) *)

Record FilterThresholds := mkFilterThresholds {
  MinDurationSecs : float64;
  MaxDurationSecs : float64;
  MinAspectRatio : float64;
  MaxAspectRatio : float64;
  MinShortEdge : Z;
  MinFrameRate : float64 }.

(** The rejection slug without the formatted number; [None] is a pass. *)
Definition aspectReason (width height : Z) (t : FilterThresholds) : option string :=
  let aspect := float_div (float_of_int width) (float_of_int height) in
  if SFltb aspect t.(MinAspectRatio) then Some "aspect_too_narrow"
  else if SFltb t.(MaxAspectRatio) aspect then Some "aspect_too_wide"
  else None.

Definition durationReason (durationSecs : float64) (t : FilterThresholds) : option string :=
  if SFltb durationSecs t.(MinDurationSecs) then Some "duration_too_short"
  else if SFltb t.(MaxDurationSecs) durationSecs then Some "duration_too_long"
  else None.

Definition HardFilter (width height : Z) (durationSecs frameRate : float64)
    (t : FilterThresholds) : option string :=
  if (width <=? 0) || (height <=? 0) then Some "invalid_dimensions"
  else match durationReason durationSecs t with
    | Some r => Some r
    | None =>
        match aspectReason width height t with
        | Some r => Some r
        | None =>
            if SFltb frameRate t.(MinFrameRate) then Some "framerate_too_low"
            else
              let shortEdge := if width <? height then width else height in
              if shortEdge <? t.(MinShortEdge) then Some "short_edge_too_small" else None
        end
    end.

Definition PreFilter (width height : Z) (durationSecs : float64) (t : FilterThresholds)
    : option string :=
  if (width <=? 0) || (height <=? 0) then None
  else
    let duration := if SFltb float_0 durationSecs then durationReason durationSecs t else None in
    match duration with
    | Some r => Some r
    | None => aspectReason width height t
    end.

(** ** Quality (quality.go) *)

Definition durationCapMS : Z := 60000.
(** The float64 constants 0.15 and 1.10. *)
Definition durationBand : float64 := S754_finite false 5404319552844595 (-55).
Definition densityMargin : float64 := S754_finite false 4953959590107546 (-52).

Record ClipQuality := mkClipQuality {
  qDurationMS : Z;
  qBitrate : option Z;
  qWidth : Z;
  qHeight : Z }.

Definition spatialBitrateDensity (q : ClipQuality) : float64 :=
  match q.(qBitrate) with
  | None => float_0
  | Some b =>
      if (b <=? 0) || (q.(qWidth) <=? 0) || (q.(qHeight) <=? 0) then float_0
      else float_div (float_of_int b) (float_of_int (wrap64 (q.(qWidth) * q.(qHeight))))
  end.

Definition pixels (q : ClipQuality) : Z := wrap64 (q.(qWidth) * q.(qHeight)).

Definition cappedDurationMS (q : ClipQuality) : Z :=
  if durationCapMS <? q.(qDurationMS) then durationCapMS else q.(qDurationMS).

Definition IsUpgrade (challenger incumbent : ClipQuality) : bool :=
  let cd := float_of_int (cappedDurationMS challenger) in
  let id := float_of_int (cappedDurationMS incumbent) in
  let hi := float_max cd id in
  if SFltb float_0 hi && SFltb durationBand (float_div (SFabs (float_sub cd id)) hi)
  then SFltb id cd
  else
    let cDensity := spatialBitrateDensity challenger in
    let iDensity := spatialBitrateDensity incumbent in
    let known := SFltb float_0 cDensity && SFltb float_0 iDensity in
    if known && SFleb (float_mul iDensity densityMargin) cDensity then true
    else if known && SFleb (float_mul cDensity densityMargin) iDensity then false
    else pixels incumbent <? pixels challenger.

Example longer_clip_upgrades :
  IsUpgrade (mkClipQuality 20000 None 100 100) (mkClipQuality 10000 None 1920 1080) = true.
Proof. vm_compute. reflexivity. Qed.
Example past_the_cap_is_equal :
  IsUpgrade (mkClipQuality 90000 None 100 100) (mkClipQuality 60000 None 1920 1080) = false.
Proof. vm_compute. reflexivity. Qed.
Example denser_clip_upgrades :
  IsUpgrade (mkClipQuality 20000 (Some 1200) 100 100) (mkClipQuality 19000 (Some 1000) 100 100)
  = true.
Proof. vm_compute. reflexivity. Qed.

(** ** Public order (rank.go) *)

Fixpoint str_lt (s t : string) : bool :=
  match s, t with
  | EmptyString, String _ _ => true
  | _, EmptyString => false
  | String c s, String d t =>
      let m := Ascii.nat_of_ascii c in
      let n := Ascii.nat_of_ascii d in
      (m <? n)%nat || ((m =? n)%nat && str_lt s t)
  end.

Definition CompareShares (a b : Share) (aAsset bAsset : Asset) : Z :=
  if negb (Bool.eqb a.(sTimestampVerified) b.(sTimestampVerified)) then
    if a.(sTimestampVerified) then -1 else 1
  else if negb (aAsset.(aPopularity) =? bAsset.(aPopularity)) then
    if bAsset.(aPopularity) <? aAsset.(aPopularity) then -1 else 1
  else if negb (aAsset.(aFileSizeBytes) =? bAsset.(aFileSizeBytes)) then
    if bAsset.(aFileSizeBytes) <? aAsset.(aFileSizeBytes) then -1 else 1
  else if Before a.(sCreatedAt) b.(sCreatedAt) then -1
  else if After a.(sCreatedAt) b.(sCreatedAt) then 1
  else if str_lt a.(sID) b.(sID) then -1
  else if str_lt b.(sID) a.(sID) then 1
  else 0.

(** ** Sequence match (match.go) *)

Definition OnesCount64 (x : Z) : Z :=
  Z.of_nat (length (filter (λ k, Z.testbit x (Z.of_nat k) = true) (seq 0 64))).

Definition Hamming (a b : Z) : Z := OnesCount64 (Z.lxor a b).

Record AlignmentEvidence := mkAlignmentEvidence {
  LeftStart : Z;
  RightStart : Z;
  Frames : Z;
  Gaps : Z }.

Definition noAlignment : AlignmentEvidence := mkAlignmentEvidence 0 0 0 0.

Definition strongerAlignment (candidate incumbent : AlignmentEvidence) : bool :=
  if negb (candidate.(Frames) =? incumbent.(Frames)) then
    incumbent.(Frames) <? candidate.(Frames)
  else if negb (candidate.(Gaps) =? incumbent.(Gaps)) then candidate.(Gaps) <? incumbent.(Gaps)
  else if negb (candidate.(LeftStart) + candidate.(RightStart) =?
                incumbent.(LeftStart) + incumbent.(RightStart)) then
    candidate.(LeftStart) + candidate.(RightStart) <?
      incumbent.(LeftStart) + incumbent.(RightStart)
  else if negb (candidate.(LeftStart) =? incumbent.(LeftStart)) then
    candidate.(LeftStart) <? incumbent.(LeftStart)
  else candidate.(RightStart) <? incumbent.(RightStart).

(** The element at an index the code has checked to be in range. *)
Definition at_index (l : list Z) (i : Z) : Z := nth (Z.to_nat i) l 0.

Section align.
Context (a b : list Z) (maxHamming : Z) (maxGaps : nat).

(** [Hamming(a[leftIndex], b[leftIndex+d]) > maxHamming]. *)
Definition far (d leftIndex : Z) : bool :=
  maxHamming <? Hamming (at_index a leftIndex) (at_index b (leftIndex + d)).

(** The miss at position [k] of the diagonal that starts at [leftStart]. *)
Definition miss (d leftStart : Z) (k : nat) : bool := far d (leftStart + Z.of_nat k).

(** The inner loop [for misses > maxGaps]; [fuel] bounds the window. *)
Fixpoint shrink (m : nat → bool) (fuel lo misses : nat) : nat * nat :=
  if (misses <=? maxGaps)%nat then (lo, misses)
  else match fuel with
    | O => (lo, misses)
    | S fuel => shrink m fuel (S lo) (if m lo then misses - 1 else misses)%nat
    end.

(** The loop over [hi] from [hi] with [n] positions left. *)
Fixpoint scan (d leftStart : Z) (n hi lo misses : nat) (best : AlignmentEvidence)
    : AlignmentEvidence :=
  match n with
  | O => best
  | S n =>
      let m := miss d leftStart in
      let misses := if m hi then S misses else misses in
      let '(lo, misses) := shrink m (S hi - lo) lo misses in
      let candidate := mkAlignmentEvidence (leftStart + Z.of_nat lo)
        (leftStart + Z.of_nat lo + d) (Z.of_nat (S hi - lo)) (Z.of_nat misses) in
      scan d leftStart n (S hi) lo misses
        (if strongerAlignment candidate best then candidate else best)
  end.

Definition diagonalStart (d : Z) : Z := Z.max 0 (- d).
Definition diagonalLength (d : Z) : nat :=
  Z.to_nat (Z.min (Z.of_nat (length a)) (Z.of_nat (length b) - d) - diagonalStart d).

Definition scanDiagonal (best : AlignmentEvidence) (d : Z) : AlignmentEvidence :=
  scan d (diagonalStart d) (diagonalLength d) 0 0 0 best.

(** [d] from [-(len(a)-1)] to [len(b)-1]. *)
Definition diagonals : list Z :=
  (λ k, Z.of_nat k - (Z.of_nat (length a) - 1)) <$> seq 0 (length a + length b - 1).
End align.

Definition BestAlignment (a b : list Z) (maxHamming maxGaps : Z) : AlignmentEvidence :=
  if (length a =? 0)%nat || (length b =? 0)%nat then noAlignment
  else foldl (scanDiagonal a b maxHamming (Z.to_nat (Z.max 0 maxGaps))) noAlignment
         (diagonals a b).

Definition Match (a b : list Z) (maxHamming minRun maxGaps : Z) : bool :=
  let minRun := if minRun <=? 0 then 1 else minRun in
  if (Z.of_nat (length a) <? minRun) || (Z.of_nat (length b) <? minRun) then false
  else minRun <=? (BestAlignment a b maxHamming maxGaps).(Frames).

Example shifted_sequences :
  BestAlignment [1; 2; 3; 4] [9; 1; 2; 3] 0 0 = mkAlignmentEvidence 0 1 3 0.
Proof. vm_compute. reflexivity. Qed.
Example one_gap_tolerated :
  (Match [1; 2; 255; 4] [1; 2; 3; 4] 1 4 1, Match [1; 2; 255; 4] [1; 2; 3; 4] 1 4 0) = (true, false).
Proof. vm_compute. reflexivity. Qed.

(** ** Frame hash (hash.go) *)

Definition dhashW : nat := 9.
Definition dhashH : nat := 8.
Definition FrameHashWorkingWidth : Z := 640.

(** An 8-bit grayscale buffer, row-major. *)
Record grayImg := mkGrayImg { pix : list Z; imgW : nat; imgH : nat }.

(** [hist[p]++] for every pixel: the number of pixels of value [i]. *)
Definition hist (pixs : list Z) (i : nat) : Z :=
  Z.of_nat (length (filter (λ p, p = Z.of_nat i) pixs)).

(** The running sums [cdf]. *)
Fixpoint cdf_from (pixs : list Z) (sum : Z) (levels : list nat) : list Z :=
  match levels with
  | [] => []
  | i :: levels => let sum := sum + hist pixs i in sum :: cdf_from pixs sum levels
  end.

Definition cdf (pixs : list Z) : list Z := cdf_from pixs 0 (seq 0 256).

(** The first non-zero entry. *)
Fixpoint first_nonzero (l : list Z) : Z :=
  match l with [] => 0 | x :: l => if x =? 0 then first_nonzero l else x end.

(** [uint8(v)]. *)
Definition uint8 (v : Z) : Z := v mod 256.

Definition equalizeLut (pixs : list Z) (i : Z) : Z :=
  let c := cdf pixs in
  let cdfMin := first_nonzero c in
  let denom := Z.of_nat (length pixs) - cdfMin in
  let v := Z.quot ((at_index c i - cdfMin) * 255) denom in
  uint8 (if v <? 0 then 0 else v).

Definition equalize (g : grayImg) : grayImg :=
  let denom := Z.of_nat (length g.(pix)) - first_nonzero (cdf g.(pix)) in
  if denom <=? 0 then g
  else mkGrayImg (equalizeLut g.(pix) <$> g.(pix)) g.(imgW) g.(imgH).

(** The cell bounds along one axis: [t*n/k], widened to at least one. *)
Definition cellBounds (t n k : nat) : nat * nat :=
  let lo := (t * n / k)%nat in
  let hi := (S t * n / k)%nat in
  (lo, if (hi <=? lo)%nat then S lo else hi).

(** The source pixels of one output cell. *)
Definition cellPixels (g : grayImg) (tx ty tw th : nat) : list Z :=
  let '(y0, y1) := cellBounds ty g.(imgH) th in
  let '(x0, x1) := cellBounds tx g.(imgW) tw in
  concat ((λ yy, (λ xx, at_index g.(pix) (Z.of_nat (yy * g.(imgW) + xx))) <$>
            filter (λ xx, (xx < g.(imgW))%nat) (seq x0 (x1 - x0))) <$>
          filter (λ yy, (yy < g.(imgH))%nat) (seq y0 (y1 - y0))).

Definition cellAverage (g : grayImg) (tx ty tw th : nat) : Z :=
  let ps := cellPixels g tx ty tw th in
  let n := Z.of_nat (length ps) in
  uint8 (foldr Z.add 0 ps / (if n =? 0 then 1 else n)).

Definition downscale (g : grayImg) (tw th : nat) : list Z :=
  (λ i, cellAverage g (i mod tw) (i / tw) tw th) <$> seq 0 (tw * th).

(** Bit [k], counted from the most significant: a cell below its right neighbour. *)
Definition cellBit (cells : list Z) (k : nat) : bool :=
  let row := (k / (dhashW - 1))%nat in
  let col := (k mod (dhashW - 1))%nat in
  nth (row * dhashW + col) cells 0 <? nth (row * dhashW + col + 1) cells 0.

Definition cellsHash (cells : list Z) : Z :=
  foldl (λ hash k, if cellBit cells k then Z.lor hash (Z.shiftl 1 (63 - Z.of_nat k)) else hash) 0
    (seq 0 ((dhashW - 1) * dhashH)).

(** [DHash] of an already grayscale working frame. *)
Definition DHashGray (g : grayImg) : Z := cellsHash (downscale (equalize g) dhashW dhashH).

(** ITU-R 601 luma of 16-bit channels, as [toGray] computes it per pixel. *)
Definition luma (r g b : Z) : Z :=
  uint8 ((299 * Z.shiftr r 8 + 587 * Z.shiftr g 8 + 114 * Z.shiftr b 8) / 1000).

(** [toGray] of a colour image given by its row-major 16-bit pixels. *)
Definition toGray (w h : nat) (rgb : list (Z * Z * Z)) : grayImg :=
  mkGrayImg ((λ '(r, g, b), luma r g b) <$> rgb) w h.

Definition DHash (w h : nat) (rgb : list (Z * Z * Z)) : Z := DHashGray (toGray w h rgb).

(** ** Windows of the two sequences *)

(** The misses of the aligned window of [n] frames at [ls] and [rs]. *)
Definition windowGaps (a b : list Z) (maxHamming ls rs : Z) (n : nat) : nat :=
  length (filter (λ k, maxHamming < Hamming (at_index a (ls + Z.of_nat k))
                                            (at_index b (rs + Z.of_nat k))) (seq 0 n)).

(** The window lies inside both sequences and has at most [maxGaps] misses. *)
Definition alignedWindow (a b : list Z) (maxHamming : Z) (maxGaps : nat) (ls rs : Z) (n : nat)
    : Prop :=
  0 ≤ ls ∧ 0 ≤ rs ∧ (1 ≤ n)%nat ∧ ls + Z.of_nat n ≤ Z.of_nat (length a) ∧
  rs + Z.of_nat n ≤ Z.of_nat (length b) ∧ (windowGaps a b maxHamming ls rs n ≤ maxGaps)%nat.

Section two_pointer.
Context (m : nat → bool) (G : nat).

(** The misses among the [n] positions from [lo]. *)
Definition cnt (lo n : nat) : nat := length (filter (λ k, m k = true) (seq lo n)).

Lemma cnt_S lo n : cnt lo (S n) = (cnt lo n + (if m (lo + n)%nat then 1 else 0))%nat.
Proof.
  unfold cnt. rewrite seq_S, filter_app, length_app. f_equal.
  rewrite filter_cons. by destruct (m (lo + n)); [rewrite decide_True|rewrite decide_False].
Qed.

Lemma cnt_head lo n : cnt lo (S n) = ((if m lo then 1 else 0) + cnt (S lo) n)%nat.
Proof.
  unfold cnt. cbn [seq]. rewrite filter_cons.
  by destruct (m lo); [rewrite decide_True|rewrite decide_False].
Qed.

(** [shrink] moves [lo] to the first start whose window ends before [e] and is
    within the limit, and reports that window's misses. *)
Lemma shrink_spec fuel lo misses e lo' misses' :
  (lo ≤ e)%nat → fuel = (e - lo)%nat → misses = cnt lo (e - lo) →
  (∀ j, (j < lo)%nat → (G < cnt j (e - j))%nat) →
  shrink G m fuel lo misses = (lo', misses') →
  (lo ≤ lo' ≤ e)%nat ∧ misses' = cnt lo' (e - lo') ∧ (misses' ≤ G)%nat ∧
  (∀ j, (j < lo')%nat → (G < cnt j (e - j))%nat).
Proof.
  revert lo misses. induction fuel as [|fuel IH]; intros lo misses Hlo Hf Hm Hj H;
    cbn [shrink] in H; destruct (Nat.leb_spec misses G) as [Hle|Hgt].
  - simplify_eq. split_and!; [lia..|done].
  - assert (e - lo = 0)%nat as E by lia. rewrite E in Hm. cbn in Hm. lia.
  - simplify_eq. split_and!; [lia..|done].
  - assert (e - lo = S (e - S lo))%nat as E by lia.
    assert (misses = (if m lo then 1 else 0) + cnt (S lo) (e - S lo))%nat as Hm'
      by (rewrite Hm, E; apply cnt_head).
    apply IH in H; [|lia|lia| |].
    + destruct H as ([? ?] & ? & ? & ?). split_and!; [lia|lia|done..].
    + destruct (m lo); lia.
    + intros j Hjl. destruct (decide (j = lo)) as [->|]; [lia|apply Hj; lia].
Qed.
End two_pointer.

Lemma strongerAlignment_frames c i :
  if strongerAlignment c i then i.(Frames) ≤ c.(Frames) else c.(Frames) ≤ i.(Frames).
Proof.
  unfold strongerAlignment. destruct (Z.eqb_spec (Frames c) (Frames i)) as [E|E]; cbn [negb].
  - rewrite E. by repeat case_match.
  - destruct (Z.ltb_spec (Frames i) (Frames c)); lia.
Qed.

Lemma windowGaps_S a b h ls rs n :
  windowGaps a b h ls rs (S n) =
  (windowGaps a b h ls rs n +
   (if (h <? Hamming (at_index a (ls + Z.of_nat n)) (at_index b (rs + Z.of_nat n)))%Z then 1 else 0))%nat.
Proof.
  unfold windowGaps. rewrite seq_S, filter_app, length_app. f_equal. cbn [plus].
  rewrite filter_cons. destruct (Z.ltb_spec h (Hamming (at_index a (ls + Z.of_nat n))
    (at_index b (rs + Z.of_nat n)))); [by rewrite decide_True|by rewrite decide_False by lia].
Qed.

Lemma cnt_windowGaps a b h d ls lo n :
  cnt (miss a b h d ls) lo n =
  windowGaps a b h (ls + Z.of_nat lo) (ls + Z.of_nat lo + d) n.
Proof.
  induction n as [|n IH]; [done|]. rewrite cnt_S, windowGaps_S, IH. f_equal.
  unfold miss, far.
  replace (ls + Z.of_nat (lo + n)) with (ls + Z.of_nat lo + Z.of_nat n) by lia.
  by replace (ls + Z.of_nat lo + Z.of_nat n + d) with (ls + Z.of_nat lo + d + Z.of_nat n) by lia.
Qed.

(** The reported evidence is an aligned window with its number of gaps. *)
Definition soundAlignment (a b : list Z) (h : Z) (G : nat) (e : AlignmentEvidence) : Prop :=
  0 ≤ e.(Frames) ∧
  (0 < e.(Frames) →
   alignedWindow a b h G e.(LeftStart) e.(RightStart) (Z.to_nat e.(Frames)) ∧
   e.(Gaps) = Z.of_nat (windowGaps a b h e.(LeftStart) e.(RightStart) (Z.to_nat e.(Frames)))).

Section scan_correct.
Context (a b : list Z) (h : Z) (G : nat) (d : Z).
Let ls := diagonalStart d.
Let L := diagonalLength a b d.
Let m := miss a b h d ls.

Lemma diagonal_bounds k : (k < L)%nat →
  0 ≤ ls ∧ 0 ≤ ls + d ∧ ls + Z.of_nat L ≤ Z.of_nat (length a) ∧
  ls + d + Z.of_nat L ≤ Z.of_nat (length b).
Proof. unfold L, diagonalLength, ls, diagonalStart. lia. Qed.

Lemma diagonal_window lo n :
  (1 ≤ n)%nat → (lo + n ≤ L)%nat → (cnt m lo n ≤ G)%nat →
  alignedWindow a b h G (ls + Z.of_nat lo) (ls + Z.of_nat lo + d) n.
Proof.
  intros Hn Hl Hc. destruct (diagonal_bounds lo) as (? & ? & ? & ?); [lia|].
  unfold alignedWindow. rewrite <-cnt_windowGaps. split_and!; try lia. exact Hc.
Qed.

Lemma scan_spec n hi lo misses best :
  (hi + n = L)%nat → (lo ≤ hi)%nat → misses = cnt m lo (hi - lo) → (misses ≤ G)%nat →
  (∀ j, (j < lo)%nat → (G < cnt m j (hi - j))%nat) →
  soundAlignment a b h G best →
  let r := scan a b h G d ls n hi lo misses best in
  soundAlignment a b h G r ∧ best.(Frames) ≤ r.(Frames) ∧
  (∀ j len, (1 ≤ len)%nat → (hi < j + len ≤ L)%nat → (cnt m j len ≤ G)%nat →
     Z.of_nat len ≤ r.(Frames)).
Proof.
  revert hi lo misses best. induction n as [|n IH]; intros hi lo misses best Hn Hlo Hm HG Hj Hb;
    cbn [scan]; fold ls m.
  { split_and!; [done|done|lia]. }
  set (ms := if m hi then S misses else misses).
  destruct (shrink G m (S hi - lo) lo ms) as [lo' misses'] eqn:Es.
  apply (shrink_spec m G (S hi - lo) lo ms (S hi)) in Es as (Hlo' & Hm' & HG' & Hj');
    [|lia|lia| |].
  2:{ subst ms. replace (S hi - lo)%nat with (S (hi - lo)) by lia. rewrite cnt_S.
      replace (lo + (hi - lo))%nat with hi by lia. destruct (m hi); lia. }
  2:{ intros j Hjl. replace (S hi - j)%nat with (S (hi - j)) by lia. rewrite cnt_S.
      pose proof (Hj j Hjl). lia. }
  set (cand := mkAlignmentEvidence _ _ _ _).
  assert (soundAlignment a b h G cand) as Hc.
  { split; [cbn; lia|]. intros Hf. cbn in Hf.
    assert (alignedWindow a b h G (ls + Z.of_nat lo') (ls + Z.of_nat lo' + d) (S hi - lo')) as Hw.
    { apply diagonal_window; [lia|lia|]. by rewrite <-Hm'. }
    subst cand. cbn [LeftStart RightStart Frames Gaps]. rewrite Nat2Z.id. split; [exact Hw|].
    by rewrite <-cnt_windowGaps, Hm'. }
  set (best' := if strongerAlignment cand best then cand else best).
  assert (soundAlignment a b h G best' ∧ Frames best ≤ Frames best' ∧ Frames cand ≤ Frames best')
    as (B1 & B2 & B3).
  { subst best'. pose proof (strongerAlignment_frames cand best).
    destruct (strongerAlignment cand best); split_and!; try done; lia. }
  destruct (IH (S hi) lo' misses' best') as (R1 & R2 & R3); [lia|lia|done|done|done|done|].
  fold ls m in R1, R2, R3. split_and!; [done|lia|].
  intros j len Hl1 Hl2 Hcnt. destruct (decide (j + len = S hi)%nat) as [E|E].
  - assert (lo' ≤ j)%nat as Hlj.
    { destruct (decide (lo' ≤ j)%nat); [done|exfalso].
      assert (G < cnt m j (S hi - j))%nat as Hlt by (apply Hj'; lia).
      replace (S hi - j)%nat with len in Hlt by lia. lia. }
    assert (Z.of_nat len ≤ Frames cand) by (subst cand; cbn; lia). lia.
  - apply (R3 j len); [done|lia|done].
Qed.

Lemma scanDiagonal_spec best :
  soundAlignment a b h G best →
  let r := scanDiagonal a b h G best d in
  soundAlignment a b h G r ∧ best.(Frames) ≤ r.(Frames) ∧
  (∀ lo n, alignedWindow a b h G lo (lo + d) n → Z.of_nat n ≤ r.(Frames)).
Proof.
  intros Hb. unfold scanDiagonal. fold ls L.
  destruct (scan_spec L 0 0 0 best) as (R1 & R2 & R3); [lia|lia|done|lia|lia|done|].
  fold ls in R1, R2, R3. split_and!; [done|done|].
  intros lo n (H1 & H2 & H3 & H4 & H5 & H6).
  assert (ls ≤ lo) by (unfold ls, diagonalStart; lia).
  apply (R3 (Z.to_nat (lo - ls)) n); [done| |].
  - unfold L, diagonalLength. fold ls. lia.
  - unfold m. rewrite cnt_windowGaps. by replace (ls + Z.of_nat (Z.to_nat (lo - ls))) with lo by lia.
Qed.
End scan_correct.

Lemma BestAlignment_fold a b h G ds best :
  soundAlignment a b h G best →
  let r := foldl (scanDiagonal a b h G) best ds in
  soundAlignment a b h G r ∧ best.(Frames) ≤ r.(Frames) ∧
  (∀ d lo n, d ∈ ds → alignedWindow a b h G lo (lo + d) n → Z.of_nat n ≤ r.(Frames)).
Proof.
  revert best. induction ds as [|d ds IH]; intros best Hb; cbn [foldl].
  { split_and!; [done|done|]. intros d lo n Hd. by apply elem_of_nil in Hd. }
  destruct (scanDiagonal_spec a b h G d best Hb) as (S1 & S2 & S3).
  destruct (IH _ S1) as (R1 & R2 & R3). split_and!; [done|lia|].
  intros d' lo n Hd Hw. apply elem_of_cons in Hd as [->|Hd]; [|by eapply R3].
  specialize (S3 _ _ Hw). lia.
Qed.

Lemma window_diagonal a b h G ls rs n :
  alignedWindow a b h G ls rs n → rs - ls ∈ diagonals a b.
Proof.
  intros (? & ? & ? & ? & ? & _). apply list_elem_of_fmap.
  exists (Z.to_nat (rs - ls + (Z.of_nat (length a) - 1))). split; [lia|].
  apply elem_of_seq. lia.
Qed.

Lemma BestAlignment_correct a b h g :
  let G := Z.to_nat (Z.max 0 g) in
  let best := BestAlignment a b h g in
  soundAlignment a b h G best ∧
  (∀ ls rs n, alignedWindow a b h G ls rs n → Z.of_nat n ≤ best.(Frames)).
Proof.
  intros G best. subst best. unfold BestAlignment.
  assert (soundAlignment a b h G noAlignment) as H0 by (split; cbn; lia).
  destruct (_ || _) eqn:E.
  - split; [done|]. intros ls rs n (? & ? & ? & ? & ? & _). exfalso.
    apply orb_true_iff in E as [E|E]; apply Nat.eqb_eq in E; lia.
  - destruct (BestAlignment_fold a b h G (diagonals a b) noAlignment H0) as (R1 & _ & R3).
    split; [done|]. intros ls rs n Hw. apply (R3 (rs - ls) ls n).
    + by eapply window_diagonal.
    + by replace (ls + (rs - ls)) with rs by lia.
Qed.

(** The two-pointer scan is exact: the evidence it returns is an aligned
    window of the two frame-hash sequences with at most the tolerated gaps and
    exactly the gaps it reports, and no aligned window of the two sequences, at
    any offset, is longer. *)
Theorem BestAlignment_longest a b h g :
  let G := Z.to_nat (Z.max 0 g) in
  let best := BestAlignment a b h g in
  (0 < best.(Frames) →
     alignedWindow a b h G best.(LeftStart) best.(RightStart) (Z.to_nat best.(Frames)) ∧
     best.(Gaps) =
       Z.of_nat (windowGaps a b h best.(LeftStart) best.(RightStart) (Z.to_nat best.(Frames)))) ∧
  (∀ ls rs n, alignedWindow a b h G ls rs n → Z.of_nat n ≤ best.(Frames)).
Proof.
  intros G best. destruct (BestAlignment_correct a b h g) as [[_ H1] H2]. by split.
Qed.

Lemma Match_windows a b h minRun g :
  Match a b h minRun g = true ↔
  ∃ ls rs n, alignedWindow a b h (Z.to_nat (Z.max 0 g)) ls rs n ∧ minRun ≤ Z.of_nat n.
Proof.
  destruct (BestAlignment_correct a b h g) as [[H0 H1] H2]. unfold Match. cbn zeta.
  set (run := if minRun <=? 0 then 1 else minRun).
  assert (0 < run ∧ minRun ≤ run ∧ (∀ n, 1 ≤ n → minRun ≤ n → run ≤ n)) as (Hp & Hr & Hn).
  { subst run. destruct (Z.leb_spec minRun 0); split_and!; intros; lia. }
  clearbody run.
  destruct (_ || _) eqn:E.
  - split; [done|]. intros (ls & rs & n & (? & ? & ? & ? & ? & _) & Hm). exfalso.
    pose proof (Hn (Z.of_nat n)).
    apply orb_true_iff in E as [E|E]; apply Z.ltb_lt in E; lia.
  - rewrite Z.leb_le. split.
    + intros Hf. destruct H1 as [Hw _]; [lia|]. do 3 eexists. split; [exact Hw|lia].
    + intros (ls & rs & n & Hw & Hm). specialize (H2 _ _ _ Hw).
      destruct Hw as (_ & _ & ? & _). pose proof (Hn (Z.of_nat n)). lia.
Qed.

Lemma windowGaps_sym a b h ls rs n : windowGaps a b h ls rs n = windowGaps b a h rs ls n.
Proof.
  induction n as [|n IH]; [done|]. rewrite !windowGaps_S, IH. f_equal.
  unfold Hamming. by rewrite Z.lxor_comm.
Qed.

Lemma alignedWindow_sym a b h G ls rs n :
  alignedWindow a b h G ls rs n → alignedWindow b a h G rs ls n.
Proof. intros (? & ? & ? & ? & ? & ?). unfold alignedWindow. rewrite windowGaps_sym. by split_and!. Qed.

Lemma Match_sym a b h n g : Match a b h n g = Match b a h n g.
Proof.
  apply eq_true_iff_eq. rewrite !Match_windows.
  split; intros (ls & rs & k & Hw & Hk); exists rs, ls, k; split; try done;
    by apply alignedWindow_sym.
Qed.

Lemma OnesCount64_zero : OnesCount64 0 = 0.
Proof. by vm_compute. Qed.

(** Two clips match exactly when some aligned window of at least the required
    number of frames stays within the gap tolerance; the relation does not
    depend on the order of the clips, and a clip with enough frames matches
    itself at every threshold. *)
Theorem Match_spec a b h minRun g :
  (Match a b h minRun g = true ↔
     ∃ ls rs n, alignedWindow a b h (Z.to_nat (Z.max 0 g)) ls rs n ∧ minRun ≤ Z.of_nat n) ∧
  Match a b h minRun g = Match b a h minRun g ∧
  (0 ≤ h → (1 ≤ length a)%nat → minRun ≤ Z.of_nat (length a) → Match a a h minRun g = true).
Proof.
  split; [apply Match_windows|]. split; [apply Match_sym|]. intros Hh Hl Hm.
  apply Match_windows. exists 0, 0, (length a). split; [|done].
  unfold alignedWindow. split_and!; try lia.
  assert (∀ n, windowGaps a a h 0 0 n = 0%nat) as ->; [|lia].
  induction n as [|n IH]; [done|]. rewrite windowGaps_S, IH. unfold Hamming.
  rewrite Z.lxor_nilpotent, OnesCount64_zero. by destruct (Z.ltb_spec h 0); [lia|].
Qed.

(** ** The gates agree *)

(** The pre-download gate never rejects a clip the hard filter would accept on
    the same metadata, and with a known duration it gives the same reason; a clip
    that passes the hard filter passes the pre-download gate. *)
Theorem PreFilter_sound w h duration rate t :
  (∀ r, PreFilter w h duration t = Some r → HardFilter w h duration rate t ≠ None) ∧
  (∀ r, PreFilter w h duration t = Some r → SFltb float_0 duration = true →
     HardFilter w h duration rate t = Some r) ∧
  (HardFilter w h duration rate t = None → PreFilter w h duration t = None).
Proof.
  unfold PreFilter, HardFilter. destruct ((w <=? 0) || (h <=? 0)); [done|]. cbn zeta.
  destruct (SFltb float_0 duration), (durationReason duration t), (aspectReason w h t);
    split_and!; try done; by intros ? [= <-].
Qed.

(** ** Shares *)

Lemma Remove_inv s reason at_ s' :
  Remove s reason at_ = (s', None) →
  s'.(sState) = ShareStateRemoved ∧ s'.(sRemovedReason) = Some reason ∧
  (s.(sState) = ShareStateRemoved → s' = s) ∧ s'.(sID) = s.(sID) ∧ s'.(sRank) = s.(sRank) ∧
  (s.(sState) ≠ ShareStateRemoved → s'.(sRemovedAt) = Some at_).
Proof.
  unfold Remove. destruct (RemovalReason_Valid reason); [|done]. cbn [negb].
  destruct (String.eqb_spec (sState s) ShareStateRemoved) as [E|E].
  - destruct (sRemovedReason s) as [r|] eqn:Er; [|done].
    destruct (String.eqb_spec r reason) as [->|]; [|done]. by intros [= <-].
  - intros [= <-]. done.
Qed.

(** Removal is the terminal transition of a share: it succeeds exactly for a
    known reason that does not contradict an earlier removal, keeps the share
    valid, and a removed share never changes again. *)
Theorem Share_Remove s reason at_ :
  Share_ValidateInvariants s = None →
  let '(s', err) := Remove s reason at_ in
  (err = None ↔ RemovalReason_Valid reason = true ∧
     (s.(sState) = ShareStateRemoved → s.(sRemovedReason) = Some reason)) ∧
  Share_ValidateInvariants s' = None ∧
  (err = None → s'.(sState) = ShareStateRemoved ∧ s'.(sRemovedReason) = Some reason) ∧
  (err ≠ None ∨ s.(sState) = ShareStateRemoved → s' = s).
Proof.
  intros Hv. unfold Remove. destruct (RemovalReason_Valid reason); cbn [negb].
  2:{ split; [split; [done|by intros []]|]. by split_and!. }
  destruct (String.eqb_spec (sState s) ShareStateRemoved) as [E|E].
  - assert (∃ r, sRemovedReason s = Some r) as [r Hr].
    { unfold Share_ValidateInvariants in Hv. rewrite E in Hv.
      destruct (sRank s <? 1); [done|]. cbn in Hv.
      destruct (sRemovedReason s) as [r|]; [by exists r|done]. }
    rewrite Hr. destruct (String.eqb_spec r reason) as [->|Hn].
    + by split_and!.
    + split; [|by split_and!]. split; [done|]. intros [_ H]. specialize (H E). congruence.
  - split; [|split; [|split; [done|]]].
    + split; [|done]. intros _. split; [done|]. intros H. by destruct (E H).
    + unfold Share_ValidateInvariants in *. cbn. by destruct (sRank s <? 1).
    + intros [H|H]; [by destruct H|by destruct (E H)].
Qed.

Lemma Share_Remove_witness :
  let s := mkShare "s_0" (Some 1%positive) (Some 2%positive) true None ShareStateActive None None 1 5 in
  let '(s', err) := Remove s RemovalVAR 9 in
  err = None ∧ Share_ValidateInvariants s' = None.
Proof.
  intros s. pose proof (Share_Remove s RemovalVAR 9 eq_refl) as H.
  split; [reflexivity|exact (proj1 (proj2 H))].
Defined.

(** *** The order of shares *)

Lemma str_lt_irrefl s : str_lt s s = false.
Proof.
  induction s as [|c s IH]; [done|]. cbn [str_lt]. rewrite IH, andb_false_r, orb_false_r.
  apply Nat.ltb_irrefl.
Qed.

Lemma str_lt_trans s t u : str_lt s t = true → str_lt t u = true → str_lt s u = true.
Proof.
  revert t u. induction s as [|c s IH]; intros [|d t] [|e u]; cbn [str_lt]; try done.
  rewrite !orb_true_iff, !andb_true_iff, !Nat.ltb_lt, !Nat.eqb_eq.
  intros [H1|[H1 H2]] [H3|[H3 H4]]; [left; lia..|].
  right. split; [lia|by eapply IH].
Qed.

Lemma str_lt_total s t : str_lt s t = false → str_lt t s = false → s = t.
Proof.
  revert t. induction s as [|c s IH]; intros [|d t]; cbn [str_lt]; try done.
  rewrite !orb_false_iff, !andb_false_iff, !Nat.ltb_ge, !Nat.eqb_neq.
  intros [H1 H2] [H3 H4]. assert (Ascii.nat_of_ascii c = Ascii.nat_of_ascii d) as E by lia.
  assert (c = d) as <-.
  { rewrite <-(Ascii.ascii_nat_embedding c), <-(Ascii.ascii_nat_embedding d). by rewrite E. }
  f_equal. apply IH; naive_solver.
Qed.

Lemma str_lt_asym s t : str_lt s t = true → str_lt t s = false.
Proof.
  intros H. destruct (str_lt t s) eqn:E; [|done].
  pose proof (str_lt_trans _ _ _ H E) as H'. by rewrite str_lt_irrefl in H'.
Qed.

(** The ranking key of a share, better keys first. *)
Definition ranks_before (a b : Share * Asset) : Prop :=
  let ka := (a.1.(sTimestampVerified), a.2.(aPopularity), a.2.(aFileSizeBytes)) in
  let kb := (b.1.(sTimestampVerified), b.2.(aPopularity), b.2.(aFileSizeBytes)) in
  (a.1.(sTimestampVerified) = true ∧ b.1.(sTimestampVerified) = false) ∨
  (a.1.(sTimestampVerified) = b.1.(sTimestampVerified) ∧
   (b.2.(aPopularity) < a.2.(aPopularity) ∨
    (a.2.(aPopularity) = b.2.(aPopularity) ∧
     (b.2.(aFileSizeBytes) < a.2.(aFileSizeBytes) ∨
      (a.2.(aFileSizeBytes) = b.2.(aFileSizeBytes) ∧
       (a.1.(sCreatedAt) < b.1.(sCreatedAt) ∨
        (a.1.(sCreatedAt) = b.1.(sCreatedAt) ∧ str_lt a.1.(sID) b.1.(sID) = true))))))).

Lemma ranks_before_trans a b c : ranks_before a b → ranks_before b c → ranks_before a c.
Proof.
  unfold ranks_before. cbn zeta.
  intros [[A1 A2]|[A1 A]] [[B1 B2]|[B1 B]]; [congruence|left; split; congruence..|].
  right. split; [congruence|].
  destruct A as [A|[A2 A]], B as [B|[B2 B]]; [left; lia..|]. right. split; [lia|].
  destruct A as [A|[A3 A]], B as [B|[B3 B]]; [left; lia..|]. right. split; [lia|].
  destruct A as [A|[A4 A]], B as [B|[B4 B]]; [left; lia..|]. right. split; [lia|].
  by eapply str_lt_trans.
Qed.

Lemma ranks_before_irrefl a : ¬ ranks_before a a.
Proof.
  unfold ranks_before. cbn zeta. rewrite str_lt_irrefl.
  intros [[H1 H2]|[_ [H|[_ [H|[_ [H|[_ H]]]]]]]]; [congruence|lia..|done].
Qed.

(** The whole ranking key agrees. *)
Definition same_key (a b : Share * Asset) : Prop :=
  a.1.(sTimestampVerified) = b.1.(sTimestampVerified) ∧ a.2.(aPopularity) = b.2.(aPopularity) ∧
  a.2.(aFileSizeBytes) = b.2.(aFileSizeBytes) ∧ a.1.(sCreatedAt) = b.1.(sCreatedAt) ∧
  a.1.(sID) = b.1.(sID).

Lemma CompareShares_cases a b :
  (CompareShares a.1 b.1 a.2 b.2 = -1 ∧ ranks_before a b) ∨
  (CompareShares a.1 b.1 a.2 b.2 = 1 ∧ ranks_before b a) ∨
  (CompareShares a.1 b.1 a.2 b.2 = 0 ∧ same_key a b).
Proof.
  unfold CompareShares, ranks_before, same_key. cbn zeta. destruct a as [a aa], b as [b ba]; cbn [fst snd].
  destruct (sTimestampVerified a) eqn:E1, (sTimestampVerified b) eqn:E2; cbn [negb Bool.eqb];
    try (left; by split; [|left]); try (right; left; by split; [|left]).
  all: destruct (Z.eqb_spec (aPopularity aa) (aPopularity ba)) as [P|P]; cbn [negb];
    [|destruct (Z.ltb_spec (aPopularity ba) (aPopularity aa));
      [left; split; [done|]; right; split; [done|]; by left
      |right; left; split; [done|]; right; split; [done|]; left; lia]].
  all: destruct (Z.eqb_spec (aFileSizeBytes aa) (aFileSizeBytes ba)) as [F|F]; cbn [negb];
    [|destruct (Z.ltb_spec (aFileSizeBytes ba) (aFileSizeBytes aa));
      [left; split; [done|]; right; split; [done|]; right; split; [done|]; by left
      |right; left; split; [done|]; right; split; [done|]; right; split; [done|]; left; lia]].
  all: unfold Before, After.
  all: destruct (Z.ltb_spec (sCreatedAt a) (sCreatedAt b));
    [left; split; [done|]; right; split; [done|]; right; split; [done|]; right; split; [done|];
       by left|].
  all: destruct (Z.ltb_spec (sCreatedAt b) (sCreatedAt a));
    [right; left; split; [done|]; right; split; [done|]; right; split; [done|]; right; split;
       [done|]; by left|].
  all: assert (sCreatedAt a = sCreatedAt b) as C by lia.
  all: destruct (str_lt (sID a) (sID b)) eqn:S1;
    [left; split; [done|]; right; split; [done|]; right; split; [done|]; right; split; [done|];
       right; done|].
  all: destruct (str_lt (sID b) (sID a)) eqn:S2;
    [right; left; split; [done|]; right; split; [done|]; right; split; [done|]; right; split;
       [done|]; right; done|].
  all: right; right; split; [done|]. all: split_and!; try done; by apply str_lt_total.
Qed.

Lemma same_key_not_before a b : same_key a b → ¬ ranks_before a b ∧ ¬ ranks_before b a.
Proof.
  unfold same_key, ranks_before. cbn zeta. intros (E1 & E2 & E3 & E4 & E5).
  rewrite E1, E2, E3, E4, E5, str_lt_irrefl.
  split; intros [[H1 H2]|[_ [H|[_ [H|[_ [H|[_ H]]]]]]]]; try congruence; lia.
Qed.

Lemma CompareShares_better a b : CompareShares a.1 b.1 a.2 b.2 = -1 ↔ ranks_before a b.
Proof.
  split; intros H.
  - destruct (CompareShares_cases a b) as [[_ ?]|[[E _]|[E _]]]; [done|congruence..].
  - destruct (CompareShares_cases a b) as [[E _]|[[_ E]|[_ E]]]; [done|exfalso..].
    + apply (ranks_before_irrefl a). by eapply ranks_before_trans.
    + by destruct (same_key_not_before a b E).
Qed.

Lemma CompareShares_worse a b : CompareShares a.1 b.1 a.2 b.2 = 1 ↔ ranks_before b a.
Proof.
  split; intros H.
  - destruct (CompareShares_cases a b) as [[E _]|[[_ ?]|[E _]]]; [congruence|done|congruence].
  - destruct (CompareShares_cases a b) as [[_ E]|[[E _]|[_ E]]]; [exfalso|done|exfalso].
    + apply (ranks_before_irrefl a). by eapply ranks_before_trans.
    + by destruct (same_key_not_before a b E).
Qed.

(** The public order of shares is a strict total order over shares with
    distinct identifiers: comparing the other way round flips the sign, better
    than is transitive, two shares tie only when they are the same share, and
    verification outranks popularity, which outranks file size. *)
Theorem CompareShares_total_order (a b c : Share * Asset) :
  let cmp x y := CompareShares x.1 y.1 x.2 y.2 in
  cmp a b = - cmp b a ∧
  (cmp a b = -1 → cmp b c = -1 → cmp a c = -1) ∧
  (cmp a b = 0 → a.1.(sID) = b.1.(sID)) ∧
  (a.1.(sTimestampVerified) = true → b.1.(sTimestampVerified) = false → cmp a b = -1) ∧
  (a.1.(sTimestampVerified) = b.1.(sTimestampVerified) → b.2.(aPopularity) < a.2.(aPopularity) →
     cmp a b = -1).
Proof.
  intros cmp.
  assert (∀ x y, cmp x y = -1 ↔ ranks_before x y) as Hb by apply CompareShares_better.
  assert (∀ x y, cmp x y = 1 ↔ ranks_before y x) as Hw by apply CompareShares_worse.
  split_and!.
  - destruct (CompareShares_cases a b) as [[E H]|[[E H]|[E H]]]; unfold cmp at 1; rewrite E.
    + apply Hw in H. lia.
    + apply Hb in H. lia.
    + destruct (CompareShares_cases b a) as [[E' H']|[[E' H']|[E' _]]]; unfold cmp; rewrite E'.
      * by destruct (same_key_not_before a b H).
      * by destruct (same_key_not_before a b H).
      * done.
  - rewrite !Hb. apply ranks_before_trans.
  - intros E. destruct (CompareShares_cases a b) as [[E' _]|[[E' _]|[_ H]]];
      unfold cmp in E; [congruence..|apply H].
  - intros H1 H2. apply Hb. by left.
  - intros H1 H2. apply Hb. right. split; [done|]. by left.
Qed.

(** ** The frame hash *)

Lemma hash_fold_bits cells ks hash i :
  (∀ k, k ∈ ks → (k < 64)%nat) → 0 ≤ i →
  Z.testbit (foldl (λ hash k,
    if cellBit cells k then Z.lor hash (Z.shiftl 1 (63 - Z.of_nat k)) else hash) hash ks) i =
  Z.testbit hash i || existsb (λ k, cellBit cells k && (i =? 63 - Z.of_nat k)) ks.
Proof.
  revert hash. induction ks as [|k ks IH]; intros hash Hk Hi; cbn [foldl existsb];
    [by rewrite orb_false_r|].
  rewrite IH by (try done; intros; apply Hk; by right).
  assert (k < 64)%nat by (apply Hk; left).
  destruct (cellBit cells k); cbn [andb orb]; [|done].
  rewrite Z.lor_spec, Z.shiftl_spec by done. rewrite <-orb_assoc. f_equal. f_equal.
  destruct (Z.eqb_spec i (63 - Z.of_nat k)) as [->|Hne].
  - by rewrite Z.sub_diag.
  - destruct (decide (i < 63 - Z.of_nat k)); [by rewrite Z.testbit_neg_r by lia|].
    apply (Z.bits_above_log2 1); cbn; lia.
Qed.

Lemma cellsHash_bits cells i :
  0 ≤ i →
  Z.testbit (cellsHash cells) i =
    (i <? 64) && cellBit cells (Z.to_nat (63 - i)).
Proof.
  intros Hi. unfold cellsHash. rewrite hash_fold_bits; [|intros k Hk%elem_of_seq; cbn in Hk; lia|done].
  rewrite Z.bits_0. cbn [orb]. change ((dhashW - 1) * dhashH)%nat with 64%nat.
  destruct (Z.ltb_spec i 64) as [Hl|Hl]; cbn [andb].
  - destruct (cellBit cells (Z.to_nat (63 - i))) eqn:E.
    + apply existsb_exists. exists (Z.to_nat (63 - i)). split; [apply in_seq; lia|].
      rewrite E. cbn. apply Z.eqb_eq. lia.
    + apply not_true_is_false. rewrite existsb_exists. intros (k & Hk & Hb).
      apply andb_true_iff in Hb as [Hb1 Hb2%Z.eqb_eq]. apply in_seq in Hk.
      replace (Z.to_nat (63 - i)) with k in E by lia. congruence.
  - apply not_true_is_false. rewrite existsb_exists. intros (k & Hk & Hb).
    apply andb_true_iff in Hb as [_ Hb%Z.eqb_eq]. apply in_seq in Hk. lia.
Qed.

(** A frame hash is the 64-bit number whose bits, most significant first, say
    for every row of the equalized nine-by-eight reduction whether a cell is
    darker than its right neighbour; so two frames are at Hamming distance zero
    exactly when all sixty-four comparisons agree. *)
Theorem DHash_bits w h rgb w' h' rgb' :
  let cells := downscale (equalize (toGray w h rgb)) dhashW dhashH in
  let cells' := downscale (equalize (toGray w' h' rgb')) dhashW dhashH in
  0 ≤ DHash w h rgb < 2 ^ 64 ∧
  (∀ row col, (row < 8)%nat → (col < 8)%nat →
     Z.testbit (DHash w h rgb) (63 - Z.of_nat (8 * row + col)) =
       (nth (row * 9 + col) cells 0 <? nth (row * 9 + col + 1) cells 0)) ∧
  ((∀ k, (k < 64)%nat → cellBit cells k = cellBit cells' k) ↔ DHash w h rgb = DHash w' h' rgb').
Proof.
  intros cells cells'. unfold DHash, DHashGray. fold cells cells'.
  assert (∀ c, 0 ≤ cellsHash c) as Hpos.
  { intros c. unfold cellsHash. generalize (seq 0 ((dhashW - 1) * dhashH)).
    assert (∀ ks acc, 0 ≤ acc → 0 ≤ foldl (λ hash k,
      if cellBit c k then Z.lor hash (Z.shiftl 1 (63 - Z.of_nat k)) else hash) acc ks) as H;
      [|intros ks; by apply H].
    induction ks as [|k ks IH]; intros acc Ha; cbn [foldl]; [done|]. apply IH.
    destruct (cellBit c k); [|done]. apply Z.lor_nonneg. split; [done|].
    apply Z.shiftl_nonneg. lia. }
  split_and!; [apply Hpos| | |].
  - destruct (decide (cellsHash cells = 0)) as [->|Hnz]; [done|].
    pose proof (Hpos cells). apply Z.log2_lt_pow2; [lia|].
    apply Z.nle_gt. intros Hl.
    assert (Z.testbit (cellsHash cells) (Z.log2 (cellsHash cells)) = true) as Hb
      by (apply Z.bit_log2; lia).
    rewrite cellsHash_bits in Hb by lia. apply andb_true_iff in Hb as [Hb%Z.ltb_lt _]. lia.
  - intros row col Hr Hc. rewrite cellsHash_bits by lia.
    destruct (Z.ltb_spec (63 - Z.of_nat (8 * row + col)) 64); [|lia]. cbn [andb].
    unfold cellBit. change (dhashW - 1)%nat with 8%nat. change dhashW with 9%nat.
    replace (Z.to_nat (63 - (63 - Z.of_nat (8 * row + col)))) with (col + row * 8)%nat by lia.
    rewrite Nat.div_add, Nat.Div0.mod_add, Nat.div_small, Nat.mod_small by lia.
    by rewrite Nat.add_0_l.
  - split.
    + intros Hk. apply Z.bits_inj'. intros i Hi. rewrite !cellsHash_bits by done.
      destruct (Z.ltb_spec i 64); [|done]. cbn [andb]. apply Hk. lia.
    + intros E k Hk. assert (∀ c, cellBit c k = Z.testbit (cellsHash c) (63 - Z.of_nat k)) as Hb.
      { intros c. rewrite cellsHash_bits by lia.
        destruct (Z.ltb_spec (63 - Z.of_nat k) 64); [|lia]. cbn [andb]. f_equal. lia. }
      by rewrite !Hb, E.
Qed.

End video.
