(* ===== verification/Selection.v ===== *)
(** internal/domain/video, reversible selection (selection.go,
    selection_graph.go): which accepted variants of an event's clips are public,
    who owns the hidden ones, and how many accepted sources support each clip. *)
From S2P Require Import Prelude GoStrings Vision Video.
#[local] Open Scope string_scope.
#[local] Open Scope list_scope.
#[local] Open Scope Z_scope.
Import vision video.

Module selection.

(** ** Results with an error *)

Definition Result (A : Type) : Type := A + string.
Definition result_bind {A B} (r : Result A) (k : A → Result B) : Result B :=
  match r with inl a => k a | inr e => inr e end.
#[local] Notation "'let*' x ':=' r 'in' k" := (result_bind r (λ x, k))
  (at level 200, x name, right associativity).

(** ** Inputs (selection.go) *)

Definition SelectionVersion : string := "direct-restoration-support-v2".

Definition ErrSelectionRemoved : string := "video: selection event removed".
Definition ErrSelectionCredits : string :=
  "video: incomplete or inconsistent source attribution".
Definition ErrSelectionMedia : string := "video: selected media not prepared".

Record SelectionPolicy := mkSelectionPolicy {
  MaxHamming : Z; MinRun : Z; MaxGaps : Z;
  LongMaxHamming : Z; LongMinRun : Z; LongMaxGaps : Z }.

Definition SelectionPolicy_Validate (p : SelectionPolicy) : option string :=
  let valid (h n g : Z) := (0 <=? h) && (h <=? 64) && (0 <? n) && (0 <=? g) && (g <? n) in
  if negb (valid p.(MaxHamming) p.(MinRun) p.(MaxGaps)) ||
    (negb (p.(LongMinRun) =? 0) &&
     negb (valid p.(LongMaxHamming) p.(LongMinRun) p.(LongMaxGaps))) ||
    ((p.(LongMinRun) =? 0) &&
     (negb (p.(LongMaxHamming) =? 0) || negb (p.(LongMaxGaps) =? 0)))
  then Some "invalid selection matcher policy" else None.

Record SelectionNode := mkSelectionNode {
  snAsset : option Asset;
  snShare : option Share;
  snValidation : option Evidence }.

Record SelectionSource := mkSelectionSource {
  ssID : option UUID;
  ssObservedAssetID : option UUID;
  ssCreditedAssetID : option UUID }.

Record SelectionSnapshot := mkSelectionSnapshot {
  spEventID : option UUID;
  spFixtureID : Z;
  spRemoved : bool;
  spNodes : list SelectionNode;
  spSources : list SelectionSource }.

Record SelectionOwner := mkSelectionOwner {
  soAssetID : option UUID;
  soKeeperID : option UUID;
  soDirect : bool }.

Record SelectedClip := mkSelectedClip {
  scAssetID : option UUID;
  scPopularity : Z;
  scVerified : bool;
  scExtractedMinute : option Z }.

Record SelectionPlan := mkSelectionPlan {
  slVersion : string;
  slOwners : list SelectionOwner;
  slSelected : list SelectedClip;
  slRestored : list (option UUID);
  slIneligible : list (option UUID) }.

(** A node whose asset is not nil. *)
Record graphNode := mkGraphNode {
  gnAsset : Asset;
  gnShare : option Share;
  gnValidation : option Evidence }.

Definition selectionQuality (n : graphNode) : ClipQuality :=
  mkClipQuality n.(gnAsset).(aDurationMS) n.(gnAsset).(aBitrate) n.(gnAsset).(aWidth)
    n.(gnAsset).(aHeight).

(** (known, verified, extracted minute). *)
Definition selectionAcceptance (n : graphNode) : bool * bool * option Z :=
  match n.(gnShare), n.(gnValidation) with
  | Some s, _ =>
      (negb (s.(sState) =? ShareStateRemoved)%string, s.(sTimestampVerified), s.(sExtractedMinute))
  | None, Some v =>
      (true, (v.(vdEvaluation).(evOutcome) =? OutcomeVerified)%string,
       v.(vdEvaluation).(evMatchedMinute))
  | None, None => (false, false, None)
  end.

(** ** The graph (selection_graph.go) *)

Record selectionGraph := mkSelectionGraph {
  nodes : list graphNode;
  index : gmap positive nat;
  roots : list nat;
  eligible : list bool;
  selected : list nat;
  policy : SelectionPolicy }.

(** The uuid's string order is its numeric order. *)
Definition uuid_lt (a b : option UUID) : bool :=
  match a, b with
  | None, Some _ => true
  | Some a, Some b => (a <? b)%positive
  | _, None => false
  end.

Definition nodeLess (a b : graphNode) : bool :=
  if negb (a.(gnAsset).(aFirstSeenAt) =? b.(gnAsset).(aFirstSeenAt))
  then Before a.(gnAsset).(aFirstSeenAt) b.(gnAsset).(aFirstSeenAt)
  else uuid_lt a.(gnAsset).(aID) b.(gnAsset).(aID).

Fixpoint requireAssets (ns : list SelectionNode) : Result (list graphNode) :=
  match ns with
  | [] => inl []
  | n :: ns =>
      match n.(snAsset) with
      | None => inr "nil selection asset"
      | Some a =>
          let* rest := requireAssets ns in
          inl (mkGraphNode a n.(snShare) n.(snValidation) :: rest)
      end
  end.

Section graph.
Context (marshalledLength : Evidence → option Z).

Definition shareMismatch (s : SelectionSnapshot) (a : Asset) (share : option Share) : bool :=
  match share with
  | None => false
  | Some sh =>
      negb (bool_decide (sh.(sAssetID) = a.(aID))) ||
      negb (bool_decide (sh.(sEventID) = s.(spEventID))) || negb (ShareState_Valid sh.(sState))
  end.

Definition validationError (s : SelectionSnapshot) (md5 : string) (v : option Evidence)
    : option string :=
  match v with
  | None => None
  | Some e =>
      match Evidence_Validate marshalledLength v with
      | Some err => Some err
      | None =>
          if negb (bool_decide (e.(vdEventID) = s.(spEventID))) ||
            negb (e.(vdFixtureID) =? s.(spFixtureID)) || negb (e.(vdMD5) =? md5)%string
          then Some "selection validation scope mismatch" else None
      end
  end.

(** The first loop over the sorted nodes: the identity index. *)
Fixpoint indexNodes (s : SelectionSnapshot) (i : nat) (md5s : gset string)
    (ix : gmap positive nat) (ns : list graphNode) : Result (gmap positive nat) :=
  match ns with
  | [] => inl ix
  | n :: ns =>
      let a := n.(gnAsset) in
      match Asset_ValidateInvariants a, a.(aID) with
      | Some err, _ => inr err
      | None, None => inr "incomplete asset, event, or fixture identity"
      | None, Some id =>
          if negb (bool_decide (a.(aEventID) = s.(spEventID))) ||
            negb (a.(aFixtureID) =? s.(spFixtureID))
          then inr "selection asset scope mismatch"
          else if not_nil (ix !! id) then inr "duplicate selection asset"
          else
            let md5 := EncodeToString a.(aMD5) in
            if decide (md5 ∈ md5s) then inr "duplicate selection MD5"
            else if shareMismatch s a n.(gnShare)
            then inr "selection share scope or state mismatch"
            else match validationError s md5 n.(gnValidation) with
              | Some err => inr err
              | None => indexNodes s (S i) ({[md5]} ∪ md5s) (<[id := i]> ix) ns
              end
      end
  end.

Fixpoint readySet (ix : gmap positive nat) (prepared : list (option UUID))
    : Result (gset positive) :=
  match prepared with
  | [] => inl ∅
  | id :: prepared =>
      match id with
      | Some u =>
          if is_nil (ix !! u) then inr "prepared asset outside selection snapshot"
          else let* ready := readySet ix prepared in inl ({[u]} ∪ ready)
      | None => inr "prepared asset outside selection snapshot"
      end
  end.

(** The walk along [SupersededBy]; every visited node is in [seen], so the
    number of nodes bounds it. *)
Fixpoint root (ns : list graphNode) (ix : gmap positive nat) (fuel : nat) (seen : gset nat)
    (i : nat) : Result nat :=
  match ns !! i with
  | None => inr "index out of range"
  | Some n =>
      match n.(gnAsset).(aSupersededBy) with
      | None => inl i
      | Some next =>
          if decide (i ∈ seen) then inr "selection lineage cycle"
          else match ix !! next with
            | None => inr "selection lineage outside event"
            | Some j =>
                match fuel with
                | O => inr "out of fuel"
                | S fuel => root ns ix fuel ({[i]} ∪ seen) j
                end
            end
      end
  end.

Definition nodeEligible (ready : gset positive) (n : graphNode) : bool :=
  (selectionAcceptance n).1.1 &&
  match n.(gnAsset).(aID) with Some id => bool_decide (id ∈ ready) | None => false end &&
  is_nil n.(gnAsset).(aObjectReclaimedAt).

Definition activeShare (n : graphNode) : bool :=
  match n.(gnShare) with Some sh => (sh.(sState) =? ShareStateActive)%string | None => false end.

(** The second loop: (roots, eligible, selected) of the nodes from [i]. *)
Fixpoint classifyNodes (ns : list graphNode) (ix : gmap positive nat) (ready : gset positive)
    (i : nat) (rest : list graphNode) : Result (list nat * list bool * list nat) :=
  match rest with
  | [] => inl ([], [], [])
  | n :: rest =>
      let e := nodeEligible ready n in
      let isRoot := is_nil n.(gnAsset).(aSupersededBy) in
      if isRoot && (negb (activeShare n) || negb e) then inr ErrSelectionMedia
      else if negb isRoot && activeShare n then inr "hidden asset has active share"
      else
        let* r := root ns ix (length ns) ∅ i in
        let* out := classifyNodes ns ix ready (S i) rest in
        let '(rs, es, ss) := out in
        inl (r :: rs, e :: es, if isRoot then i :: ss else ss)
  end.

(** Go's map read: a missing or nil key. *)
Definition lookupID (ix : gmap positive nat) (id : option UUID) : option nat :=
  match id with Some u => ix !! u | None => None end.

Fixpoint creditsLoop (ix : gmap positive nat) (rs : list nat) (seen : gset positive)
    (observed : list nat) (sources : list SelectionSource) : Result (list nat) :=
  match sources with
  | [] => inl observed
  | src :: sources =>
      match src.(ssID), lookupID ix src.(ssObservedAssetID),
            lookupID ix src.(ssCreditedAssetID) with
      | Some id, Some i, Some owner =>
          if decide (id ∈ seen) then inr ErrSelectionCredits
          else if negb (bool_decide (rs !! i = Some owner)) then inr ErrSelectionCredits
          else creditsLoop ix rs ({[id]} ∪ seen) (i :: observed) sources
      | _, _, _ => inr ErrSelectionCredits
      end
  end.

(** Every node was observed by some source ([observed] lists the observations). *)
Definition validateCredits (ix : gmap positive nat) (rs : list nat) (n : nat)
    (sources : list SelectionSource) : Result unit :=
  let* observed := creditsLoop ix rs ∅ [] sources in
  if forallb (λ i, bool_decide (i ∈ observed)) (seq 0 n) then inl tt
  else inr ErrSelectionCredits.

Definition newSelectionGraph (s : SelectionSnapshot) (p : SelectionPolicy)
    (prepared : list (option UUID)) : Result selectionGraph :=
  if is_nil s.(spEventID) || (s.(spFixtureID) <=? 0) then inr "invalid selection scope"
  else
    let* ns := requireAssets s.(spNodes) in
    let ns := sort_by nodeLess ns in
    let* ix := indexNodes s 0 ∅ ∅ ns in
    let* ready := readySet ix prepared in
    let* out := classifyNodes ns ix ready 0 ns in
    let '(rs, es, ss) := out in
    let* _ := validateCredits ix rs (length ns) s.(spSources) in
    inl (mkSelectionGraph ns ix rs es ss p).

(** *** Direct matches *)

(** The comparison that [matches] computes and caches for a pair. *)
Definition directMatch (p : SelectionPolicy) (a b : graphNode) : bool :=
  let '(ak, av, _) := selectionAcceptance a in
  let '(bk, bv, _) := selectionAcceptance b in
  let ha := a.(gnAsset).(aFrameHashes) in
  let hb := b.(gnAsset).(aFrameHashes) in
  if ak && bk && Bool.eqb av bv &&
    (NormalizeFrameHashVersion a.(gnAsset).(aFrameHashVersion) =?
     NormalizeFrameHashVersion b.(gnAsset).(aFrameHashVersion))%string
  then Match ha hb p.(MaxHamming) p.(MinRun) p.(MaxGaps) ||
    ((0 <? p.(LongMinRun)) &&
     Match ha hb p.(LongMaxHamming) p.(LongMinRun) p.(LongMaxGaps))
  else false.

Definition matches (g : selectionGraph) (i j : nat) : bool :=
  if (i =? j)%nat then true
  else match g.(nodes) !! i, g.(nodes) !! j with
    | Some a, Some b => directMatch g.(policy) a b
    | _, _ => false
    end.

(** [matches] with its cache: the key is the unordered pair, the first call
    stores its answer. *)
Definition matches_cached (g : selectionGraph) (cache : gmap (nat * nat) bool) (i j : nat)
    : bool * gmap (nat * nat) bool :=
  if (i =? j)%nat then (true, cache)
  else
    let key := (Nat.min i j, Nat.max i j) in
    match cache !! key with
    | Some m => (m, cache)
    | None => let m := matches g i j in (m, <[key := m]> cache)
    end.

Definition supported (g : selectionGraph) (observed : nat) (sel : list nat) : bool :=
  existsb (λ keeper, matches g observed keeper) sel.

(** *** The plan (selection.go) *)

Definition assetID (g : selectionGraph) (i : nat) : option UUID :=
  match g.(nodes) !! i with Some n => n.(gnAsset).(aID) | None => None end.

Definition isEligible (g : selectionGraph) (i : nat) : bool :=
  match g.(eligible) !! i with Some b => b | None => false end.

(** The restoration loop over the node indices: (selected, restored, ineligible). *)
Fixpoint restoreLoop (g : selectionGraph) (ixs : list nat) (sel restored ineligible : list nat)
    : list nat * list nat * list nat :=
  match ixs with
  | [] => (sel, restored, ineligible)
  | i :: ixs =>
      if negb (isEligible g i) then restoreLoop g ixs sel restored (ineligible ++ [i])
      else if negb (supported g i sel)
      then restoreLoop g ixs (sel ++ [i]) (restored ++ [i]) ineligible
      else restoreLoop g ixs sel restored ineligible
  end.

(** The best selected match of [i]: a later one only by upgrade. *)
Definition bestOwner (g : selectionGraph) (i : nat) (sel : list nat) : option nat :=
  foldl (λ owner candidate,
    if matches g i candidate then
      match owner with
      | None => Some candidate
      | Some o =>
          match g.(nodes) !! candidate, g.(nodes) !! o with
          | Some c, Some n =>
              if IsUpgrade (selectionQuality c) (selectionQuality n) then Some candidate
              else owner
          | _, _ => owner
          end
      end
    else owner) None sel.

Definition ownerOf (g : selectionGraph) (sel : list nat) (i : nat) : option nat :=
  let owner := match g.(roots) !! i with Some r => r | None => 0%nat end in
  if bool_decide (i ∈ sel) then Some i
  else if negb (isEligible g i) then Some owner
  else if bool_decide (owner ∈ sel) && matches g i owner then Some owner
  else bestOwner g i sel.

Fixpoint planOwners (g : selectionGraph) (sel ixs : list nat) : Result (list SelectionOwner) :=
  match ixs with
  | [] => inl []
  | i :: ixs =>
      match ownerOf g sel i with
      | None => inr "no selected owner"
      | Some owner =>
          let* rest := planOwners g sel ixs in
          inl (mkSelectionOwner (assetID g i) (assetID g owner)
            (negb (i =? owner)%nat && isEligible g i && matches g i owner) :: rest)
      end
  end.

(** [exact[i]]: the sources that observed node [i]; an unknown identity reads
    index 0, as the map does. *)
Definition exactCount (g : selectionGraph) (sources : list SelectionSource) (i : nat) : Z :=
  Z.of_nat (length (filter (λ src,
    match lookupID g.(index) src.(ssObservedAssetID) with Some j => j | None => 0%nat end = i)
    sources)).

Definition popularity (g : selectionGraph) (sources : list SelectionSource) (i : nat) : Z :=
  foldr Z.add 0 ((λ observed, if matches g observed i then exactCount g sources observed else 0)
    <$> seq 0 (length g.(nodes))).

Fixpoint planSelected (g : selectionGraph) (sources : list SelectionSource) (sel : list nat)
    : Result (list SelectedClip) :=
  match sel with
  | [] => inl []
  | i :: sel =>
      let count := popularity g sources i in
      if count <? 1 then inr ErrSelectionCredits
      else
        let '(_, verified, minute) :=
          match g.(nodes) !! i with
          | Some n => selectionAcceptance n | None => (false, false, None) end in
        let* rest := planSelected g sources sel in
        inl (mkSelectedClip (assetID g i) count verified minute :: rest)
  end.

Definition PlanSelection (s : SelectionSnapshot) (p : SelectionPolicy)
    (prepared : list (option UUID)) : Result SelectionPlan :=
  if s.(spRemoved) then inr ErrSelectionRemoved
  else match SelectionPolicy_Validate p with
    | Some err => inr err
    | None =>
        let* g := newSelectionGraph s p prepared in
        let all := seq 0 (length g.(nodes)) in
        let '(sel, restored, ineligible) := restoreLoop g all g.(selected) [] [] in
        let* owners := planOwners g sel all in
        let* clips := planSelected g s.(spSources) sel in
        inl (mkSelectionPlan SelectionVersion owners clips (assetID g <$> restored)
          (assetID g <$> ineligible))
    end.
End graph.

(** ** The cache *)

Lemma directMatch_sym p a b : directMatch p a b = directMatch p b a.
Proof.
  unfold directMatch. destruct (selectionAcceptance a) as [[ak av] ?],
    (selectionAcceptance b) as [[bk bv] ?].
  rewrite (andb_comm ak bk), (Match_sym (aFrameHashes (gnAsset a))),
    (Match_sym (aFrameHashes (gnAsset a)) _ (LongMaxHamming p)).
  assert (Bool.eqb av bv = Bool.eqb bv av) as -> by by destruct av, bv.
  by rewrite String.eqb_sym.
Qed.

Lemma matches_sym g i j : matches g i j = matches g j i.
Proof.
  unfold matches. rewrite Nat.eqb_sym. destruct (j =? i)%nat; [done|].
  destruct (nodes g !! i), (nodes g !! j); [apply directMatch_sym|done..].
Qed.

Lemma matches_refl g i : matches g i i = true.
Proof. unfold matches. by rewrite Nat.eqb_refl. Qed.

(** Every stored answer is the direct comparison of its pair. *)
Definition cache_ok (g : selectionGraph) (cache : gmap (nat * nat) bool) : Prop :=
  ∀ i j m, cache !! (i, j) = Some m → m = matches g i j.

(** The cached comparisons of a sequence of queries. *)
Definition matches_all (g : selectionGraph) (queries : list (nat * nat))
    : list bool * gmap (nat * nat) bool :=
  foldl (λ st q, let '(m, cache) := matches_cached g st.2 q.1 q.2 in (st.1 ++ [m], cache))
    ([], ∅) queries.

Lemma matches_cached_ok g cache i j :
  cache_ok g cache →
  (matches_cached g cache i j).1 = matches g i j ∧ cache_ok g (matches_cached g cache i j).2.
Proof.
  intros Hc. unfold matches_cached. destruct (Nat.eqb_spec i j) as [->|Hn].
  { split; [by rewrite matches_refl|done]. }
  assert (matches g (Nat.min i j) (Nat.max i j) = matches g i j) as Hk.
  { destruct (Nat.le_ge_cases i j).
    - by rewrite Nat.min_l, Nat.max_r.
    - rewrite Nat.min_r, Nat.max_l by done. apply matches_sym. }
  destruct (cache !! _) as [m|] eqn:E; cbn [fst snd].
  - split; [|done]. rewrite (Hc _ _ _ E). done.
  - split; [done|]. intros i' j' m. rewrite lookup_insert_Some.
    intros [[[= <- <-] <-]|[_ H]]; [done|by apply Hc].
Qed.

(** The pair cache is transparent: whatever comparisons were asked before and
    in whichever order, every cached answer is the direct comparison of the two
    clips, because the sequence match does not depend on their order. *)
Theorem cache_transparent g queries :
  (matches_all g queries).1 = (λ q, matches g q.1 q.2) <$> queries ∧
  cache_ok g (matches_all g queries).2.
Proof.
  unfold matches_all.
  assert (∀ st, cache_ok g st.2 →
    let r := foldl (λ st q, let '(m, cache) := matches_cached g st.2 q.1 q.2 in
      (st.1 ++ [m], cache)) st queries in
    r.1 = st.1 ++ ((λ q, matches g q.1 q.2) <$> queries) ∧ cache_ok g r.2) as H.
  { induction queries as [|q queries IH]; intros st Hst; cbn [foldl].
    - by rewrite app_nil_r.
    - destruct (matches_cached_ok g st.2 q.1 q.2 Hst) as [H1 H2].
      destruct (matches_cached g st.2 q.1 q.2) as [m cache]. cbn [fst snd] in H1, H2.
      destruct (IH (st.1 ++ [m], cache) H2) as [E ?]. split; [|done].
      rewrite E. cbn [fst]. rewrite <-app_assoc, H1. done. }
  apply (H ([], ∅)). intros i j m Hm. cbn [snd] in Hm. by rewrite lookup_empty in Hm.
Qed.

(** ** The graph *)

Lemma bind_inl {A B} (r : Result A) (k : A → Result B) b :
  result_bind r k = inl b → ∃ a, r = inl a ∧ k a = inl b.
Proof. destruct r; [by eexists|done]. Qed.

Definition isRootNode (ns : list graphNode) (i : nat) : Prop :=
  ∃ n, ns !! i = Some n ∧ n.(gnAsset).(aSupersededBy) = None.

Lemma root_sound ns ix fuel seen i r : root ns ix fuel seen i = inl r → isRootNode ns r.
Proof.
  revert seen i. induction fuel as [|fuel IH]; intros seen i; cbn [root];
    (destruct (ns !! i) as [n|] eqn:E; [|done]);
    (destruct (aSupersededBy (gnAsset n)) as [next|] eqn:Es; [|intros [= <-]; by exists n]);
    (case_decide; [done|]); (destruct (ix !! next) as [j|]; [|done]); [done|apply IH].
Qed.

(** The walk is bounded: an index that points inside the graph never runs out of
    fuel, it finds a root or reports a cycle or a successor outside the event. *)
Lemma root_terminates ns ix fuel seen i :
  (∀ u j, ix !! u = Some j → (j < length ns)%nat) →
  (i < length ns)%nat → seen ⊆ set_seq 0 (length ns) → (length ns ≤ size seen + fuel)%nat →
  (∃ r, root ns ix fuel seen i = inl r) ∨
  root ns ix fuel seen i = inr "selection lineage cycle" ∨
  root ns ix fuel seen i = inr "selection lineage outside event".
Proof.
  intros Hix. revert seen i. induction fuel as [|fuel IH]; intros seen i Hi Hs Hf; cbn [root];
    (destruct (lookup_lt_is_Some_2 ns i Hi) as [n ->]);
    (destruct (aSupersededBy (gnAsset n)) as [next|]; [|left; by eexists]);
    (case_decide as Hin; [by right; left|]);
    (destruct (ix !! next) as [j|] eqn:Ej; [|by right; right]).
  - exfalso. assert (size ({[i]} ∪ seen) ≤ length ns)%nat as Hsz.
    { rewrite <-(size_set_seq (C:=gset nat) 0 (length ns)). apply subseteq_size.
      intros x Hx. apply elem_of_union in Hx as [->%elem_of_singleton|Hx]; [|by apply Hs].
      apply elem_of_set_seq. lia. }
    rewrite size_union, size_singleton in Hsz by set_solver. lia.
  - apply IH; [by eapply Hix| |].
    + intros x Hx. apply elem_of_union in Hx as [->%elem_of_singleton|Hx]; [|by apply Hs].
      apply elem_of_set_seq. lia.
    + rewrite size_union, size_singleton by set_solver. lia.
Qed.

(** What a validated graph guarantees. *)
Record graph_ok (g : selectionGraph) (sources : list SelectionSource) : Prop := {
  go_roots : ∀ i, (i < length g.(nodes))%nat →
    ∃ r, g.(roots) !! i = Some r ∧ isRootNode g.(nodes) r;
  go_selected : ∀ i, i ∈ g.(selected) ↔ isRootNode g.(nodes) i;
  go_eligible : ∀ i, i ∈ g.(selected) → isEligible g i = true;
  go_nodup : NoDup g.(selected);
  go_observed : ∀ i, (i < length g.(nodes))%nat → 1 ≤ exactCount g sources i;
  go_sources : ∀ src, src ∈ sources → ∃ i, lookupID g.(index) src.(ssObservedAssetID) = Some i ∧
    (i < length g.(nodes))%nat }.

Lemma classifyNodes_spec ns ix ready i rest rs es ss :
  drop i ns = rest → classifyNodes ns ix ready i rest = inl (rs, es, ss) →
  length rs = length rest ∧ length es = length rest ∧
  Forall (isRootNode ns) rs ∧
  (∀ j, j ∈ ss ↔ (i ≤ j)%nat ∧ isRootNode ns j) ∧ NoDup ss ∧
  (∀ j, j ∈ ss → es !! (j - i)%nat = Some true).
Proof.
  revert i rs es ss. induction rest as [|n rest IH]; intros i rs es ss Hd; cbn [classifyNodes].
  { intros [= <- <- <-]. split; [done|]. split; [done|]. split; [constructor|].
    split; [|split; [constructor|]].
    - intros j. split; [by intros ?%elem_of_nil|]. intros [Hj (n & Hn & _)]. exfalso.
      apply lookup_lt_Some in Hn. apply (f_equal length) in Hd. rewrite length_drop in Hd.
      cbn in Hd. lia.
    - intros j Hj. by apply elem_of_nil in Hj. }
  assert (ns !! i = Some n) as Hn.
  { rewrite <-(Nat.add_0_r i), <-lookup_drop, Hd. done. }
  assert (drop (S i) ns = rest) as Hd' by (rewrite <-Nat.add_1_r, <-drop_drop, Hd; done).
  set (e := nodeEligible ready n).
  destruct (is_nil (aSupersededBy (gnAsset n))) eqn:Er; cbn [andb negb].
  - destruct (negb (activeShare n) || negb e) eqn:Ea; [done|].
    intros (r & Hr & Hk)%bind_inl. apply bind_inl in Hk as ([[rs' es'] ss'] & Hc & Hk).
    injection Hk as <- <- <-. destruct (IH (S i) _ _ _ Hd' Hc) as (L1 & L2 & HF & Hss & Hnd & He).
    apply is_nil_true in Er. split; [cbn; lia|]. split; [cbn; lia|].
    split; [|split; [|split]].
    + constructor; [by eapply root_sound|done].
    + intros j. rewrite elem_of_cons, Hss. split.
      * intros [->|[? ?]]; [split; [done|by exists n]|split; [lia|done]].
      * intros [Hj Hroot]. destruct (decide (j = i)) as [->|]; [by left|right; split; [lia|done]].
    + constructor; [|done]. intros [Hi _]%Hss. lia.
    + intros j [->|Hj]%elem_of_cons.
      * rewrite Nat.sub_diag. cbn. f_equal. apply orb_false_iff in Ea as [_ Ea].
        by apply negb_false_iff.
      * pose proof (He j Hj) as H. apply Hss in Hj as [Hj _].
        replace (j - i)%nat with (S (j - S i)) by lia. done.
  - destruct (activeShare n); [done|].
    intros (r & Hr & Hk)%bind_inl. apply bind_inl in Hk as ([[rs' es'] ss'] & Hc & Hk).
    injection Hk as <- <- <-. destruct (IH (S i) _ _ _ Hd' Hc) as (L1 & L2 & HF & Hss & Hnd & He).
    split; [cbn; lia|]. split; [cbn; lia|]. split; [|split; [|split; [done|]]].
    + constructor; [by eapply root_sound|done].
    + intros j. rewrite Hss. split; [intros [? ?]; split; [lia|done]|].
      intros [Hj Hroot]. split; [|done]. destruct (decide (j = i)) as [->|]; [exfalso|lia].
      destruct Hroot as (n' & Hn' & Hs). rewrite Hn in Hn'. injection Hn' as <-.
      by rewrite Hs in Er.
    + intros j Hj. pose proof (He j Hj) as H. apply Hss in Hj as [Hj _].
      replace (j - i)%nat with (S (j - S i)) by lia. done.
Qed.

Lemma creditsLoop_spec ix rs seen observed sources out :
  creditsLoop ix rs seen observed sources = inl out →
  (∀ i, i ∈ out → i ∈ observed ∨
     ∃ src, src ∈ sources ∧ lookupID ix src.(ssObservedAssetID) = Some i) ∧
  (∀ src, src ∈ sources → ∃ i, lookupID ix src.(ssObservedAssetID) = Some i ∧
     is_Some (rs !! i)).
Proof.
  revert seen observed. induction sources as [|src sources IH]; intros seen observed;
    cbn [creditsLoop].
  { intros [= <-]. split; [by left|]. intros src Hs. by apply elem_of_nil in Hs. }
  destruct (ssID src) as [id|]; [|done].
  destruct (lookupID ix (ssObservedAssetID src)) as [i|] eqn:Ei; [|done].
  destruct (lookupID ix (ssCreditedAssetID src)) as [owner|]; [|done].
  case_decide; [done|]. destruct (bool_decide _) eqn:Eb; [|done]. cbn [negb].
  apply bool_decide_eq_true in Eb. intros [H1 H2]%IH. split.
  - intros j [Hj|(src' & Hs & Hj)]%H1; [|right; exists src'; split; [by right|done]].
    apply elem_of_cons in Hj as [->|Hj]; [|by left]. right. exists src. split; [left|done].
  - intros src' [->|Hs]%elem_of_cons; [|by apply H2]. exists i. by rewrite Eb.
Qed.

Lemma exactCount_pos g sources src i :
  src ∈ sources → lookupID g.(index) src.(ssObservedAssetID) = Some i → 1 ≤ exactCount g sources i.
Proof.
  intros Hs Hi. unfold exactCount.
  assert (src ∈ filter (λ src, match lookupID (index g) (ssObservedAssetID src) with
    Some j => j | None => 0%nat end = i) sources) as Hin.
  { apply list_elem_of_filter. by rewrite Hi. }
  destruct (filter _ sources); [by apply elem_of_nil in Hin|cbn; lia].
Qed.

Lemma newSelectionGraph_ok ml s p prepared g :
  newSelectionGraph ml s p prepared = inl g → graph_ok g s.(spSources) ∧ g.(policy) = p.
Proof.
  unfold newSelectionGraph. destruct (_ || _); [done|].
  intros (ns0 & _ & H)%bind_inl. apply bind_inl in H as (ix & _ & H).
  apply bind_inl in H as (ready & _ & H). apply bind_inl in H as ([[rs es] ss] & Hc & H).
  apply bind_inl in H as ([] & Hv & H). injection H as <-. split; [|done].
  set (ns := sort_by nodeLess ns0) in *. clearbody ns.
  apply classifyNodes_spec in Hc as (L1 & L2 & HF & Hss & Hnd & He); [|done].
  unfold validateCredits in Hv. apply bind_inl in Hv as (observed & Hcr & Hv).
  destruct (forallb _ _) eqn:Ef; [|done]. rewrite forallb_forall in Ef.
  apply creditsLoop_spec in Hcr as [C1 C2].
  constructor; cbn [nodes index roots eligible selected].
  - intros i Hi. destruct (lookup_lt_is_Some_2 rs i) as [r Hr]; [lia|]. exists r. split; [done|].
    rewrite Forall_forall in HF. by apply HF, (list_elem_of_lookup_2 _ i).
  - intros i. rewrite Hss. split; [by intros []|]. intros Hr. split; [lia|done].
  - intros i Hi. unfold isEligible. cbn. apply He in Hi. by rewrite Nat.sub_0_r in Hi; rewrite Hi.
  - done.
  - intros i Hi. specialize (Ef i). rewrite in_seq, bool_decide_eq_true in Ef.
    destruct (C1 i) as [Hn|(src & Hs & Hl)]; [apply Ef; lia|by apply elem_of_nil in Hn|].
    by eapply exactCount_pos.
  - intros src Hs. destruct (C2 src Hs) as (i & Hl & [r Hr]). exists i. split; [done|].
    apply lookup_lt_Some in Hr. lia.
Qed.

(** ** Restoration *)

Lemma supported_true g i sel :
  supported g i sel = true ↔ ∃ j, j ∈ sel ∧ matches g i j = true.
Proof.
  unfold supported. rewrite existsb_exists. by setoid_rewrite list_elem_of_In.
Qed.

Lemma supported_mono g i sel k : supported g i sel = true → supported g i (sel ++ k) = true.
Proof.
  rewrite !supported_true. intros (j & Hj & Hm). exists j. split; [|done].
  apply elem_of_app. by left.
Qed.

(** The restored nodes: eligible, unsupported by everything selected before. *)
Record restoration (g : selectionGraph) (sel new : list nat) (ixs : list nat) : Prop := {
  rs_sub : new `sublist_of` ixs;
  rs_eligible : Forall (λ i, isEligible g i = true) new;
  rs_needed : ∀ l1 i l2, new = l1 ++ i :: l2 → supported g i (sel ++ l1) = false;
  rs_cover : ∀ i, i ∈ ixs → isEligible g i = true → supported g i (sel ++ new) = true }.

Lemma restoreLoop_spec g ixs sel r ine sel' r' ine' :
  restoreLoop g ixs sel r ine = (sel', r', ine') →
  ∃ new, sel' = sel ++ new ∧ r' = r ++ new ∧ restoration g sel new ixs.
Proof.
  revert sel r ine. induction ixs as [|i ixs IH]; intros sel r ine; cbn [restoreLoop].
  { intros [= <- <- <-]. exists []. rewrite !app_nil_r. split; [done|]. split; [done|].
    constructor; [done|done| |].
    - intros l1 i l2 H. by destruct l1.
    - intros i Hi. by apply elem_of_nil in Hi. }
  destruct (isEligible g i) eqn:Ee; cbn [negb].
  - destruct (supported g i sel) eqn:Es; cbn [negb].
    + intros (new & -> & -> & [R1 R2 R3 R4])%IH. exists new. split; [done|]. split; [done|].
      constructor; [by apply sublist_cons|done|done|].
      intros j [->|Hj]%elem_of_cons Hej; [by apply supported_mono|by apply R4].
    + intros (new & -> & -> & [R1 R2 R3 R4])%IH. exists (i :: new).
      rewrite <-!app_assoc. split; [done|]. split; [done|].
      constructor; [by apply sublist_skip|by constructor| |].
      * intros l1 j l2 H. destruct l1 as [|x l1]; cbn in H; injection H as <- H.
        { by rewrite app_nil_r. }
        change (sel ++ i :: l1) with (sel ++ [i] ++ l1). rewrite app_assoc. by eapply R3.
      * intros j [->|Hj]%elem_of_cons Hej.
        { apply supported_true. exists i. split; [set_solver|apply matches_refl]. }
        change (sel ++ i :: new) with (sel ++ [i] ++ new). rewrite app_assoc. by apply R4.
  - intros (new & -> & -> & [R1 R2 R3 R4])%IH. exists new. split; [done|]. split; [done|].
    constructor; [by apply sublist_cons|done|done|].
    intros j [->|Hj]%elem_of_cons Hej; [congruence|by apply R4].
Qed.

(** ** Owners *)

Lemma bestOwner_spec g i sel :
  match bestOwner g i sel with
  | Some o => o ∈ sel ∧ matches g i o = true
  | None => supported g i sel = false
  end.
Proof.
  unfold bestOwner.
  assert (∀ pre init, (match init with Some o => o ∈ pre ∧ matches g i o = true
      | None => supported g i pre = false end) →
    match foldl (λ owner candidate,
      if matches g i candidate then
        match owner with
        | None => Some candidate
        | Some o =>
            match nodes g !! candidate, nodes g !! o with
            | Some c, Some n =>
                if IsUpgrade (selectionQuality c) (selectionQuality n) then Some candidate
                else owner
            | _, _ => owner
            end
        end
      else owner) init sel with
    | Some o => o ∈ pre ++ sel ∧ matches g i o = true
    | None => supported g i (pre ++ sel) = false
    end) as H; [|by apply (H [] None)].
  induction sel as [|c sel IH]; intros pre init Hi; cbn [foldl]; [by rewrite app_nil_r|].
  change (pre ++ c :: sel) with (pre ++ [c] ++ sel). rewrite app_assoc. apply IH.
  destruct (matches g i c) eqn:Em.
  - destruct init as [o|]; [|split; [set_solver|done]].
    destruct Hi as [Ho Hm].
    destruct (nodes g !! c), (nodes g !! o); try (split; [set_solver|done]).
    destruct (IsUpgrade _ _); split; try done; set_solver.
  - destruct init as [o|]; [destruct Hi; split; [set_solver|done]|].
    unfold supported in *. rewrite existsb_app, Hi. cbn. by rewrite Em.
Qed.

(** A node's keeper is selected; an eligible node is kept by a clip it matches. *)
Lemma ownerOf_spec g sources sel i :
  graph_ok g sources → g.(selected) ⊆ sel → (i < length g.(nodes))%nat →
  (isEligible g i = true → supported g i sel = true) →
  ∃ o, ownerOf g sel i = Some o ∧ o ∈ sel ∧ (isEligible g i = true → matches g i o = true).
Proof.
  intros Hg Hsub Hi Hsup. unfold ownerOf.
  destruct (bool_decide (i ∈ sel)) eqn:Eb.
  { apply bool_decide_eq_true in Eb. exists i. split_and!; [done..|]. intros _. apply matches_refl. }
  destruct (go_roots g sources Hg i Hi) as (r & -> & Hr).
  assert (r ∈ sel) as Hrs by (apply Hsub, (go_selected g sources Hg); done).
  destruct (isEligible g i); cbn [negb]; [|by exists r].
  rewrite bool_decide_true by done. cbn [andb].
  destruct (matches g i r) eqn:Em; [by exists r|].
  pose proof (bestOwner_spec g i sel) as HB. specialize (Hsup eq_refl).
  destruct (bestOwner g i sel) as [o|]; [|congruence]. destruct HB. by exists o.
Qed.

Lemma planOwners_spec g sources sel ixs :
  graph_ok g sources → g.(selected) ⊆ sel →
  Forall (λ i, (i < length g.(nodes))%nat ∧ (isEligible g i = true → supported g i sel = true)) ixs →
  ∃ owners, planOwners g sel ixs = inl owners ∧
    Forall2 (λ i o, soAssetID o = assetID g i ∧
      ∃ j, ownerOf g sel i = Some j ∧ j ∈ sel ∧ soKeeperID o = assetID g j ∧
        (isEligible g i = true → matches g i j = true)) ixs owners.
Proof.
  intros Hg Hsub. induction 1 as [|i ixs [Hi Hs] _ (owners & Ho & HF)]; [by exists []|].
  cbn [planOwners]. destruct (ownerOf_spec g sources sel i Hg Hsub Hi Hs) as (j & E & Hj & Hm).
  rewrite E, Ho. eexists. split; [done|]. constructor; [|done]. split; [done|].
  exists j. by rewrite E.
Qed.

(** ** Popularity *)

Lemma popularity_ge g sources i o :
  (o < length g.(nodes))%nat → matches g o i = true →
  exactCount g sources o ≤ popularity g sources i.
Proof.
  intros Ho Hm. unfold popularity.
  assert (o ∈ seq 0 (length (nodes g))) as Hin by (apply elem_of_seq; lia).
  assert (∀ o, 0 ≤ exactCount g sources o) as Hp by (intros; unfold exactCount; lia).
  induction (seq 0 (length (nodes g))) as [|x l IH]; [by apply elem_of_nil in Hin|].
  cbn [fmap list_fmap foldr].
  assert (0 ≤ foldr Z.add 0 ((λ observed, if matches g observed i then exactCount g sources observed
    else 0) <$> l)) as Hl.
  { clear -Hp. induction l as [|y l IH]; cbn [fmap list_fmap foldr]; [lia|].
    pose proof (Hp y). destruct (matches g y i); lia. }
  apply elem_of_cons in Hin as [<-|Hin]; [rewrite Hm; lia|].
  pose proof (Hp x). specialize (IH Hin). destruct (matches g x i); lia.
Qed.

Lemma planSelected_spec g sources sel :
  Forall (λ i, 1 ≤ popularity g sources i) sel →
  ∃ clips, planSelected g sources sel = inl clips ∧
    Forall2 (λ i c, scAssetID c = assetID g i ∧ scPopularity c = popularity g sources i) sel clips.
Proof.
  induction 1 as [|i sel Hi _ (clips & Hc & HF)]; [by exists []|].
  cbn [planSelected]. destruct (Z.ltb_spec (popularity g sources i) 1); [lia|].
  destruct (match nodes g !! i with Some _ => _ | None => _ end) as [[k v] m].
  rewrite Hc. eexists. split; [done|]. by constructor.
Qed.

(** The index a source counts for. *)
Definition observedIndex (g : selectionGraph) (src : SelectionSource) : nat :=
  match lookupID g.(index) src.(ssObservedAssetID) with Some j => j | None => 0%nat end.

Lemma sum_single (f : nat → Z) (j : nat) (l : list nat) :
  NoDup l → j ∈ l → (∀ o, o ∈ l → o ≠ j → f o = 0) → foldr Z.add 0 (f <$> l) = f j.
Proof.
  induction 1 as [|x l Hx Hl IH]; intros Hj Hf; [by apply elem_of_nil in Hj|].
  cbn [fmap list_fmap foldr]. apply elem_of_cons in Hj as [<-|Hj].
  - assert (foldr Z.add 0 (f <$> l) = 0) as ->; [|lia].
    assert (∀ o, o ∈ l → f o = 0) as Hz by (intros o Ho; apply Hf; [by right|by intros ->]).
    clear -Hz. induction l as [|y l IH]; cbn [fmap list_fmap foldr]; [done|].
    rewrite (Hz y) by left. rewrite IH; [done|]. intros; apply Hz; by right.
  - rewrite (Hf x); [|left|by intros ->]. rewrite IH; [lia|done|].
    intros o Ho. apply Hf. by right.
Qed.

Lemma sum_add (f h : nat → Z) l :
  foldr Z.add 0 ((λ o, f o + h o) <$> l) = foldr Z.add 0 (f <$> l) + foldr Z.add 0 (h <$> l).
Proof. induction l as [|x l IH]; cbn [fmap list_fmap foldr]; [done|]. rewrite IH. lia. Qed.

(** Counting node by node is counting the supporting sources once each. *)
Lemma popularity_sources g sources i :
  Forall (λ src, (observedIndex g src < length g.(nodes))%nat) sources →
  popularity g sources i =
  Z.of_nat (length (filter (λ src, matches g (observedIndex g src) i = true) sources)).
Proof.
  unfold popularity. induction 1 as [|src sources Hs _ IH].
  { cbn. induction (seq 0 (length (nodes g))) as [|x l IHl]; cbn [fmap list_fmap foldr]; [done|].
    rewrite IHl. by destruct (matches g x i). }
  set (j := observedIndex g src) in *.
  assert (∀ o, exactCount g (src :: sources) o =
    (if decide (j = o) then 1 else 0) + exactCount g sources o) as He.
  { intros o. unfold exactCount. rewrite filter_cons. unfold j, observedIndex.
    destruct (decide _); cbn [length]; lia. }
  assert (((λ o, if matches g o i then exactCount g (src :: sources) o else 0) <$>
      seq 0 (length (nodes g))) =
    ((λ o, (if matches g o i then (if decide (j = o) then 1 else 0) else 0) +
      (if matches g o i then exactCount g sources o else 0)) <$> seq 0 (length (nodes g)))) as ->.
  { apply list_fmap_ext. intros _ o _. rewrite He. by destruct (matches g o i). }
  rewrite sum_add, IH, (sum_single _ j); [|apply NoDup_seq|apply elem_of_seq; lia|].
  - rewrite filter_cons. fold j. rewrite (decide_True (P:=j = j)) by done.
    destruct (matches g j i); [rewrite decide_True by done; cbn [length]; lia|].
    rewrite decide_False by done. lia.
  - intros o _ Ho. destruct (matches g o i); [|done]. by rewrite decide_False.
Qed.

(** ** The plan *)

(** What a plan for a validated snapshot consists of: the incumbents, the
    restored nodes after them, one owner per node and one clip per selected
    node. *)
Record plan_of (s : SelectionSnapshot) (g : selectionGraph) (new : list nat)
    (plan : SelectionPlan) : Prop := {
  po_restoration : restoration g g.(selected) new (seq 0 (length g.(nodes)));
  po_restored : plan.(slRestored) = assetID g <$> new;
  po_selected : Forall2 (λ i c, scAssetID c = assetID g i ∧
      scPopularity c = popularity g s.(spSources) i ∧ 1 ≤ scPopularity c)
    (g.(selected) ++ new) plan.(slSelected);
  po_owners : Forall2 (λ i o, soAssetID o = assetID g i ∧
      ∃ j, ownerOf g (g.(selected) ++ new) i = Some j ∧ j ∈ g.(selected) ++ new ∧
        soKeeperID o = assetID g j ∧ (isEligible g i = true → matches g i j = true))
    (seq 0 (length g.(nodes))) plan.(slOwners) }.

Lemma PlanSelection_form ml s p prepared g :
  s.(spRemoved) = false → SelectionPolicy_Validate p = None →
  newSelectionGraph ml s p prepared = inl g →
  ∃ new plan, PlanSelection ml s p prepared = inl plan ∧ plan_of s g new plan.
Proof.
  intros Hr Hp Hg. unfold PlanSelection. rewrite Hr, Hp, Hg. cbn [result_bind].
  destruct (newSelectionGraph_ok _ _ _ _ _ Hg) as [Hok _].
  destruct (restoreLoop g _ (selected g) [] []) as [[sel r] ine] eqn:Er.
  destruct (restoreLoop_spec _ _ _ _ _ _ _ _ Er) as (new & -> & -> & HR). cbn [app].
  assert (selected g ⊆ selected g ++ new) as Hsub by set_solver.
  destruct (planOwners_spec g (spSources s) (selected g ++ new) (seq 0 (length (nodes g))) Hok Hsub)
    as (owners & Ho & HFo).
  { apply Forall_forall. intros i Hi. split; [by apply elem_of_seq in Hi; lia|].
    by apply (rs_cover _ _ _ _ HR). }
  rewrite Ho. cbn [result_bind].
  assert (Forall (λ i, 1 ≤ popularity g (spSources s) i) (selected g ++ new)) as Hpop.
  { apply Forall_forall. intros i Hi.
    assert (i < length (nodes g))%nat as Hlt.
    { apply elem_of_app in Hi as [Hi|Hi].
      - apply (go_selected _ _ Hok) in Hi as (n & Hn & _). by eapply lookup_lt_Some.
      - pose proof (sublist_subseteq _ _ (rs_sub _ _ _ _ HR)) as Hss.
        apply Hss, elem_of_seq in Hi. lia. }
    pose proof (go_observed _ _ Hok i Hlt).
    pose proof (popularity_ge g (spSources s) i i Hlt (matches_refl g i)). lia. }
  destruct (planSelected_spec g (spSources s) (selected g ++ new) Hpop) as (clips & Hc & HFc).
  rewrite Hc. cbn [result_bind]. exists new. eexists. split; [done|].
  constructor; cbn; [done|done| |done].
  clear -HFc Hpop. induction HFc as [|i c l k [H1 H2] _ IH]; [constructor|].
  apply Forall_cons in Hpop as [Hi Hl]. constructor; [|by apply IH]. split_and!; [done..|lia].
Qed.

(** A snapshot with one public clip, seen by one source. *)
Definition oneAsset : Asset :=
  mkAsset (Some 1%positive) (Some 2%positive) 7 "bucket" "key" None (replicate 16 Byte.x00) ""
    LegacyFrameHashVersion [5] 1280 720 8000 1000000 None None 1 None 10.
Definition oneShare : Share :=
  mkShare "s_0" (Some 1%positive) (Some 2%positive) true (Some 30) ShareStateActive None None 1 10.
Definition oneSnapshot : SelectionSnapshot :=
  mkSelectionSnapshot (Some 2%positive) 7 false
    [mkSelectionNode (Some oneAsset) (Some oneShare) None]
    [mkSelectionSource (Some 3%positive) (Some 1%positive) (Some 1%positive)].
Definition onePolicy : SelectionPolicy := mkSelectionPolicy 10 5 1 0 0 0.
Definition oneGraph : selectionGraph :=
  mkSelectionGraph [mkGraphNode oneAsset (Some oneShare) None] {[1%positive := 0%nat]} [0%nat] [true]
    [0%nat] onePolicy.

Lemma oneGraph_ok ml : newSelectionGraph ml oneSnapshot onePolicy [Some 1%positive] = inl oneGraph.
Proof. reflexivity. Qed.

Definition onePlan : SelectionPlan :=
  mkSelectionPlan SelectionVersion [mkSelectionOwner (Some 1%positive) (Some 1%positive) false]
    [mkSelectedClip (Some 1%positive) 1 true (Some 30)] [] [].

Lemma onePlan_ok ml : PlanSelection ml oneSnapshot onePolicy [Some 1%positive] = inl onePlan.
Proof. reflexivity. Qed.

(** C33: selection is total and additive: for a valid policy and a snapshot whose
    graph validates, a plan exists (no missing owner, no missing credit); it
    keeps every incumbent, restores only eligible variants that nothing already
    selected matches, and afterwards every eligible variant is matched directly
    by a selected clip. *)
Theorem PlanSelection_covers ml s p prepared g :
  s.(spRemoved) = false → SelectionPolicy_Validate p = None →
  newSelectionGraph ml s p prepared = inl g →
  ∃ new plan, PlanSelection ml s p prepared = inl plan ∧
    slRestored plan = assetID g <$> new ∧
    (scAssetID <$> slSelected plan) = assetID g <$> (g.(selected) ++ new) ∧
    (∀ i n, g.(nodes) !! i = Some n → n.(gnAsset).(aSupersededBy) = None → i ∈ g.(selected)) ∧
    (∀ i, i ∈ new → isEligible g i = true ∧ i ∉ g.(selected)) ∧
    (∀ l1 i l2, new = l1 ++ i :: l2 →
       ∀ j, j ∈ g.(selected) ++ l1 → matches g i j = false) ∧
    (∀ i, (i < length g.(nodes))%nat → isEligible g i = true →
       ∃ j, j ∈ g.(selected) ++ new ∧ matches g i j = true).
Proof.
  intros Hr Hp Hg. destruct (PlanSelection_form ml s p prepared g Hr Hp Hg)
    as (new & plan & HP & [R1 R2 R3 R4]).
  destruct (newSelectionGraph_ok _ _ _ _ _ Hg) as [Hok _].
  assert (∀ l1 i l2, new = l1 ++ i :: l2 →
    ∀ j, j ∈ g.(selected) ++ l1 → matches g i j = false) as Hneed.
  { intros l1 i l2 E j Hj. destruct (matches g i j) eqn:Em; [|done].
    pose proof (rs_needed _ _ _ _ R1 _ _ _ E) as Hf.
    assert (supported g i (selected g ++ l1) = true) as Ht
      by (apply supported_true; by exists j). congruence. }
  exists new, plan. split; [done|]. split; [done|]. split; [|split; [|split; [|split; [done|]]]].
  - clear -R3. induction R3 as [|i c l k [H1 _] _ IH]; [done|].
    cbn [fmap list_fmap]. by rewrite H1, IH.
  - intros i n Hn Hs. apply (go_selected _ _ Hok). by exists n.
  - intros i Hi. split.
    + pose proof (rs_eligible _ _ _ _ R1) as HF. rewrite Forall_forall in HF. by apply HF.
    + intros Hs. apply list_elem_of_split in Hi as (l1 & l2 & E).
      assert (matches g i i = false) as Hf; [|by rewrite matches_refl in Hf].
      apply (Hneed _ _ _ E). apply elem_of_app. by left.
  - intros i Hi He. apply supported_true, (rs_cover _ _ _ _ R1); [apply elem_of_seq; lia|done].
Qed.

Lemma PlanSelection_covers_witness :
  ∃ new plan,
    PlanSelection (λ _, Some 0) oneSnapshot onePolicy [Some 1%positive] = inl plan ∧
    slRestored plan = assetID oneGraph <$> new.
Proof.
  destruct (PlanSelection_covers (λ _, Some 0) oneSnapshot onePolicy [Some 1%positive] oneGraph)
    as (new & plan & H1 & H2 & _); [reflexivity|reflexivity|apply oneGraph_ok|].
  by exists new, plan.
Defined.

(** Ownership is complete and never points at a hidden clip: every variant of
    the event gets exactly one owner entry, its keeper is a selected clip, an
    eligible variant is kept by a clip that matches it directly, and a selected
    clip keeps itself. *)
Theorem PlanSelection_owners ml s p prepared g plan :
  newSelectionGraph ml s p prepared = inl g → PlanSelection ml s p prepared = inl plan →
  (soAssetID <$> slOwners plan) = assetID g <$> seq 0 (length g.(nodes)) ∧
  Forall (λ o, soKeeperID o ∈ (scAssetID <$> slSelected plan)) (slOwners plan) ∧
  (∀ i o, slOwners plan !! i = Some o → isEligible g i = true →
     ∃ j, soKeeperID o = assetID g j ∧ matches g i j = true).
Proof.
  intros Hg HP. assert (s.(spRemoved) = false ∧ SelectionPolicy_Validate p = None) as [Hr Hp].
  { unfold PlanSelection in HP. destruct (spRemoved s); [done|].
    by destruct (SelectionPolicy_Validate p). }
  destruct (PlanSelection_form ml s p prepared g Hr Hp Hg) as (new & plan' & HP' & [R1 R2 R3 R4]).
  rewrite HP in HP'. injection HP' as <-.
  assert ((scAssetID <$> slSelected plan) = assetID g <$> (selected g ++ new)) as Hsel.
  { clear -R3. induction R3 as [|i c l k [H1 _] _ IH]; [done|].
    cbn [fmap list_fmap]. by rewrite H1, IH. }
  split_and!.
  - clear -R4. induction R4 as [|i o l k [H1 _] _ IH]; [done|].
    cbn [fmap list_fmap]. by rewrite H1, IH.
  - rewrite Hsel. clear -R4. induction R4 as [|i o l k (_ & j & _ & Hj & E & _) _ IH];
      [constructor|]. constructor; [|done]. rewrite E. by apply list_elem_of_fmap_2.
  - intros i o Ho He.
    destruct (Forall2_lookup_r _ _ _ _ _ R4 Ho) as (i' & Hi' & _ & j & _ & _ & E & Hm).
    apply lookup_seq in Hi' as [-> _]. exists j. split; [done|by apply Hm].
Qed.

Lemma PlanSelection_owners_witness :
  (soAssetID <$> slOwners onePlan) = [Some 1%positive] ∧
  Forall (λ o, soKeeperID o ∈ (scAssetID <$> slSelected onePlan)) (slOwners onePlan).
Proof.
  destruct (PlanSelection_owners (λ _, Some 0) oneSnapshot onePolicy [Some 1%positive] oneGraph onePlan)
    as (H1 & H2 & _); [apply oneGraph_ok|apply onePlan_ok|]. by split.
Defined.

(** Popularity is direct source support: the score of a selected clip is the
    number of accepted sources whose own observed variant matches the clip, each
    counted once, so it is at least one and at most the number of sources. *)
Theorem PlanSelection_popularity ml s p prepared g plan :
  newSelectionGraph ml s p prepared = inl g → PlanSelection ml s p prepared = inl plan →
  ∃ sel, Forall2 (λ i c, scAssetID c = assetID g i ∧
    scPopularity c = Z.of_nat (length
      (filter (λ src, matches g (observedIndex g src) i = true) s.(spSources))) ∧
    1 ≤ scPopularity c ≤ Z.of_nat (length s.(spSources))) sel (slSelected plan).
Proof.
  intros Hg HP. assert (s.(spRemoved) = false ∧ SelectionPolicy_Validate p = None) as [Hr Hp].
  { unfold PlanSelection in HP. destruct (spRemoved s); [done|].
    by destruct (SelectionPolicy_Validate p). }
  destruct (PlanSelection_form ml s p prepared g Hr Hp Hg) as (new & plan' & HP' & [R1 R2 R3 R4]).
  rewrite HP in HP'. injection HP' as <-. exists (selected g ++ new).
  destruct (newSelectionGraph_ok _ _ _ _ _ Hg) as [Hok _].
  assert (Forall (λ src, (observedIndex g src < length g.(nodes))%nat) (spSources s)) as HF.
  { apply Forall_forall. intros src Hs. destruct (go_sources _ _ Hok src Hs) as (i & Hi & ?).
    unfold observedIndex. by rewrite Hi. }
  eapply Forall2_impl; [exact R3|]. intros i c (H1 & H2 & H3).
  rewrite (popularity_sources g _ i HF) in H2. split_and!; [done..|].
  rewrite H2. pose proof (sublist_length _ _ (sublist_filter
    (λ src, matches g (observedIndex g src) i = true) (spSources s))). lia.
Qed.

Lemma PlanSelection_popularity_witness :
  ∃ sel, Forall2 (λ i c, scAssetID c = assetID oneGraph i ∧
    scPopularity c = Z.of_nat (length
      (filter (λ src, matches oneGraph (observedIndex oneGraph src) i = true)
         oneSnapshot.(spSources))) ∧
    1 ≤ scPopularity c ≤ 1) sel (slSelected onePlan).
Proof.
  apply (PlanSelection_popularity (λ _, Some 0) oneSnapshot onePolicy [Some 1%positive]);
    [apply oneGraph_ok|apply onePlan_ok].
Defined.

End selection.
