(* ===== verification/Auditlog.v ===== *)
(** internal/contract/auditlog: the semantic-transition records that are committed
    beside the state changes they describe. *)
From S2P Require Import Prelude GoStrings.
#[local] Open Scope string_scope.
#[local] Open Scope list_scope.
#[local] Open Scope Z_scope.

Module auditlog.

(** ** Kinds (kind.go) *)

Definition Kind := string.
Definition KindFixtureActivated : Kind := "fixture.activated".
Definition KindFixtureCompleted : Kind := "fixture.completed".
Definition KindEventDetected : Kind := "event.detected".
Definition KindEventStable : Kind := "event.stable".
Definition KindEventRemoved : Kind := "event.removed".

Definition Kind_Valid (k : Kind) : bool :=
  one_of k [KindFixtureActivated; KindFixtureCompleted; KindEventDetected; KindEventStable;
    KindEventRemoved].

Definition EventScoped (k : Kind) : bool :=
  one_of k [KindEventDetected; KindEventStable; KindEventRemoved].

(** ** Payloads (payloads.go) *)

Record FixtureActivatedPayload := mkFixtureActivatedPayload {
  apFixtureID : Z; apActivatedAt : Time; apReason : string }.

Record FixtureCompletedPayload := mkFixtureCompletedPayload {
  cpFixtureID : Z;
  cpTerminalObservedAt : Time;
  cpCompletedAt : Time;
  cpGraceSeconds : Z;
  cpProviderScoreEventParity : option bool;
  cpDurableScoreEventParity : option bool;
  cpPenaltyResultDecided : option bool }.

Record EventDetectedPayload := mkEventDetectedPayload {
  dpEventID : option positive; dpFixtureID : Z; dpEventType : string; dpDetail : string;
  dpMinute : Z; dpExtra : option Z; dpPlayerName : string; dpTeamID : Z; dpTeamName : string;
  dpCounter : Z }.

Record EventStablePayload := mkEventStablePayload {
  spEventID : option positive; spFixtureID : Z; spEventType : string; spDetail : string;
  spMinute : Z; spExtra : option Z; spPlayerName : string; spTeamID : Z; spTeamName : string }.

Record EventRemovedPayload := mkEventRemovedPayload {
  rpEventID : option positive; rpFixtureID : Z; rpRemovedAt : Time; rpReason : string }.

(** The encoded payload: the structs always encode, so it is kept decoded.
    [noPayload] is the nil payload of a record nobody built. *)
Inductive Payload :=
  | noPayload
  | fixtureActivated (p : FixtureActivatedPayload)
  | fixtureCompleted (p : FixtureCompletedPayload)
  | eventDetected (p : EventDetectedPayload)
  | eventStable (p : EventStablePayload)
  | eventRemoved (p : EventRemovedPayload).

(** ** Records (record.go) *)

Record Record_ := mkRecord {
  rKind : Kind;
  rEventID : option positive;
  rFixtureID : Z;
  rPayload : Payload }.

Definition json_valid (p : Payload) : bool := match p with noPayload => false | _ => true end.

(** [None] is the code's error. *)
Definition New (kind : Kind) (eventID : option positive) (fixtureID : Z) (payload : Payload)
    : option Record_ :=
  if negb (Kind_Valid kind) then None
  else if fixtureID =? 0 then None
  else if EventScoped kind && is_nil eventID then None
  else if negb (EventScoped kind) && not_nil eventID then None
  else Some (mkRecord kind eventID fixtureID payload).

Definition Valid (r : Record_) : bool :=
  if negb (Kind_Valid r.(rKind)) || (r.(rFixtureID) =? 0) || negb (json_valid r.(rPayload))
  then false
  else if EventScoped r.(rKind) then not_nil r.(rEventID) else is_nil r.(rEventID).

(** A record that [New] built with a payload is one [Valid] accepts. *)
Lemma New_Valid kind eventID fixtureID payload r :
  New kind eventID fixtureID payload = Some r → json_valid payload = true → Valid r = true.
Proof.
  unfold New, Valid. intros H Hp.
  destruct (Kind_Valid kind) eqn:E1; [|done]. destruct (fixtureID =? 0) eqn:E2; [done|].
  destruct (EventScoped kind) eqn:E3, eventID; simplify_eq/=; by rewrite E1, E2, E3, Hp.
Qed.

End auditlog.
