(* ===== verification/Presentation.v ===== *)
(** internal/contract/fixturepresentation: the consumer-facing projection of a
    fixture's status. *)
From S2P Require Import Prelude GoStrings ApiFootball Fixture.
#[local] Open Scope string_scope.
#[local] Open Scope list_scope.
#[local] Open Scope Z_scope.
Import apifootball.

Module fixturepresentation.

Definition State := string.
Definition StatePlaying : State := "playing".
Definition StateFinished : State := "finished".
Definition StateUpcoming : State := "upcoming".
Definition StateDeferred : State := "deferred".

Definition Display := string.
Definition DisplayClock : Display := "clock".
Definition DisplayStatus : Display := "status".

Record Clock := mkClock { ckMinute : option Z; ckExtra : option Z }.
Record Status := mkStatus { stShort : string; stLong : string }.
Record Projection := mkProjection {
  prPresentationState : State; prClock : Clock; prStatus : Status; prDisplay : Display }.

#[global] Instance Clock_eq_dec : EqDecision Clock. Proof. solve_decision. Defined.
#[global] Instance Status_eq_dec : EqDecision Status. Proof. solve_decision. Defined.
#[global] Instance Projection_eq_dec : EqDecision Projection. Proof. solve_decision. Defined.

Definition presentationState (status : APIStatusCode) : State :=
  if one_of status [StatusFirstHalf; StatusHalftime; StatusSecondHalf; StatusExtraTime;
    StatusBreakTime; StatusPenaltyPlay; StatusLive] then StatePlaying
  else if one_of status [StatusFullTime; StatusAfterExtra; StatusPenaltyDone; StatusTechnicalLoss;
    StatusWalkover] then StateFinished
  else if one_of status [StatusNotStarted; StatusTBD] then StateUpcoming
  else StateDeferred.

Definition statusUsesClock (status : APIStatusCode) : bool :=
  one_of status [StatusFirstHalf; StatusSecondHalf; StatusExtraTime; StatusLive].

Definition From_ (status : fixture.APIStatus) (elapsed extra : option Z) : Projection :=
  let short := status.(fixture.Short) in
  mkProjection (presentationState short) (mkClock elapsed extra)
    (mkStatus (ToUpper short) status.(fixture.Long))
    (if not_nil elapsed && statusUsesClock short then DisplayClock else DisplayStatus).

Definition intPtrEqual (l r : option Z) : bool := bool_decide (l = r).

Definition Equal (p other : Projection) : bool :=
  (p.(prPresentationState) =? other.(prPresentationState))%string &&
  bool_decide (p.(prStatus) = other.(prStatus)) &&
  (p.(prDisplay) =? other.(prDisplay))%string &&
  intPtrEqual p.(prClock).(ckMinute) other.(prClock).(ckMinute) &&
  intPtrEqual p.(prClock).(ckExtra) other.(prClock).(ckExtra).

Lemma Equal_true p q : Equal p q = true ↔ p = q.
Proof.
  unfold Equal, intPtrEqual. rewrite !andb_true_iff, !String.eqb_eq, !bool_decide_eq_true.
  destruct p as [? [] ? ?], q as [? [] ? ?]; simpl. naive_solver.
Qed.

End fixturepresentation.
