(* ===== verification/Plan.v ===== *)
(** internal/domain/providerintegrity/mutation.go: the guarded write commands and
    the result that is both the activity's answer and the durable receipt. *)
From S2P Require Import Prelude GoStrings Fixture Event Integrity Health Auditlog.
#[local] Open Scope string_scope.
#[local] Open Scope list_scope.
#[local] Open Scope Z_scope.
Import providerintegrity health.

Module mutation.

Abbreviation UUID := positive (only parsing).

Record PlannedEventInsert := mkPlannedEventInsert {
  piEvent : option event.Event;
  piAudit : option auditlog.Record_ }.

Record PlannedEventPresence := mkPlannedEventPresence {
  ppEventID : UUID;
  ppAudit : auditlog.Record_ }.

Record PlannedEventUpdate := mkPlannedEventUpdate {
  puEventID : UUID;
  puFresh : option event.Event }.

Record PlannedEventAbsence := mkPlannedEventAbsence {
  paEventID : UUID;
  paAudit : auditlog.Record_ }.

Record CompletionPlan := mkCompletionPlan {
  cnTerminalBefore : Time;
  cnCompletedAt : Time;
  cnGraceSeconds : Z;
  cnProviderScoreEventParity : option bool }.

Record ActiveMutationPlan := mkActiveMutationPlan {
  apGuard : ObservationGuard;
  apFixture : option fixture.Fixture;
  apBaselineExists : bool;
  apBaselineLastPolled : option Time;
  apLocalPolicy : MutationPolicy;
  apWorkflowID : string;
  apInserts : list PlannedEventInsert;
  apPresences : list PlannedEventPresence;
  apUpdates : list PlannedEventUpdate;
  apAbsences : list PlannedEventAbsence;
  apUnknownDeletes : list UUID;
  apCompletion : CompletionPlan }.

#[global] Instance eta_ActiveMutationPlan : Eta ActiveMutationPlan := λ p,
  mkActiveMutationPlan p.(apGuard) p.(apFixture) p.(apBaselineExists) p.(apBaselineLastPolled)
    p.(apLocalPolicy) p.(apWorkflowID) p.(apInserts) p.(apPresences) p.(apUpdates)
    p.(apAbsences) p.(apUnknownDeletes) p.(apCompletion).

Record FixtureMutationPlan := mkFixtureMutationPlan {
  fpGuard : ObservationGuard;
  fpMode : MutationMode;
  fpFixture : option fixture.Fixture;
  fpBaselineExists : bool;
  fpBaselineLastPolled : option Time;
  fpLocalPolicy : MutationPolicy;
  fpActivate : bool;
  fpActivationAudit : option auditlog.Record_ }.

#[global] Instance eta_FixtureMutationPlan : Eta FixtureMutationPlan := λ p,
  mkFixtureMutationPlan p.(fpGuard) p.(fpMode) p.(fpFixture) p.(fpBaselineExists)
    p.(fpBaselineLastPolled) p.(fpLocalPolicy) p.(fpActivate) p.(fpActivationAudit).

Record MutationResult := mkMutationResult {
  mrApplied : bool;
  mrStale : bool;
  mrPolicy : MutationPolicy;
  mrDecision : option MutationDecision;
  mrFixture : option fixture.Fixture;
  mrFixtureChanged : bool;
  mrFixtureStructuralChanged : bool;
  mrFixturePresentationChanged : bool;
  mrEventChanged : bool;
  mrInsertedEventIDs : list UUID;
  mrNewNamedEventIDs : list UUID;
  mrStableEventIDs : list UUID;
  mrRemovedEventIDs : list UUID;
  mrUnknownDropped : Z;
  mrCompleted : bool }.

#[global] Instance eta_MutationResult : Eta MutationResult := λ r,
  mkMutationResult r.(mrApplied) r.(mrStale) r.(mrPolicy) r.(mrDecision) r.(mrFixture)
    r.(mrFixtureChanged) r.(mrFixtureStructuralChanged) r.(mrFixturePresentationChanged)
    r.(mrEventChanged) r.(mrInsertedEventIDs) r.(mrNewNamedEventIDs) r.(mrStableEventIDs)
    r.(mrRemovedEventIDs) r.(mrUnknownDropped) r.(mrCompleted).

Definition emptyResult : MutationResult :=
  mkMutationResult false false "" None None false false false false [] [] [] [] 0 false.

End mutation.
