(* ===== verification/Jsonb.v ===== *)
(** PostgreSQL's jsonb values, as far as the statements of the program use them:
    objects with one value per key, the [||] operator, [?], and equality. *)
From S2P Require Import Prelude GoStrings.
#[local] Open Scope string_scope.
#[local] Open Scope list_scope.
#[local] Open Scope Z_scope.

Module jsonb.

(** A number is kept as its text.  The fields of an object are in the order of
    their keys, which [put] maintains, so that equal objects are equal terms. *)
Inductive Json :=
  | jNull
  | jBool (b : bool)
  | jNumber (text : string)
  | jString (s : string)
  | jArray (items : list Json)
  | jObject (fields : list (string * Json)).

Fixpoint lookupField (k : string) (fields : list (string * Json)) : option Json :=
  match fields with
  | [] => None
  | (k', v) :: fields => if (k =? k')%string then Some v else lookupField k fields
  end.

Fixpoint put (k : string) (v : Json) (fields : list (string * Json)) : list (string * Json) :=
  match fields with
  | [] => [(k, v)]
  | (k', v') :: rest =>
      if (k =? k')%string then (k, v) :: rest
      else if String.ltb k k' then (k, v) :: fields
      else (k', v') :: put k v rest
  end.

(** [json ? key]: a top-level key, or a string of an array, or the string itself. *)
Definition hasKey (k : string) (j : Json) : bool :=
  match j with
  | jObject fields => not_nil (lookupField k fields)
  | jArray l => existsb (λ x, match x with jString s => (s =? k)%string | _ => false end) l
  | jString s => (s =? k)%string
  | _ => false
  end.

(** [json -> key]. *)
Definition getKey (k : string) (j : Json) : option Json :=
  match j with jObject fields => lookupField k fields | _ => None end.

(** [jsonb_build_object(key, value)]: an SQL NULL becomes a JSON null. *)
Definition buildObject (k : string) (v : option Json) : Json :=
  jObject [(k, default jNull v)].

Definition items (j : Json) : list Json := match j with jArray l => l | _ => [j] end.

(** [left || right]: the union of two objects, where the right one wins; anything
    else is concatenated as arrays. *)
Definition concat (left right : Json) : Json :=
  match left, right with
  | jObject l, jObject r => jObject (foldl (λ acc kv, put kv.1 kv.2 acc) l r)
  | _, _ => jArray (items left ++ items right)
  end.

Definition isObject (j : Json) : bool := match j with jObject _ => true | _ => false end.

(** Induction through the lists. *)
Lemma Json_nested_ind (P : Json → Prop) :
  P jNull → (∀ b, P (jBool b)) → (∀ n, P (jNumber n)) → (∀ s, P (jString s)) →
  (∀ l, Forall P l → P (jArray l)) → (∀ fs, Forall (λ kv, P kv.2) fs → P (jObject fs)) →
  ∀ j, P j.
Proof.
  intros Hn Hb Hm Hs Ha Ho. fix IH 1. intros [|b|n|s|l|fs]; [done..| |].
  - apply Ha. induction l as [|x l IHl]; constructor; [apply IH|done].
  - apply Ho. induction fs as [|[k x] fs IHl]; constructor; [apply IH|done].
Qed.

#[global] Instance Json_eq_dec : EqDecision Json.
Proof.
  refine (fix go (a b : Json) {struct a} : Decision (a = b) :=
    let _ : EqDecision Json := go in
    match a, b with
    | jNull, jNull => left eq_refl
    | jBool x, jBool y => cast_if (decide (x = y))
    | jNumber x, jNumber y => cast_if (decide (x = y))
    | jString x, jString y => cast_if (decide (x = y))
    | jArray x, jArray y => cast_if (decide (x = y))
    | jObject x, jObject y => cast_if (decide (x = y))
    | _, _ => right _
    end); abstract congruence.
Defined.

(** *** Objects keep one value per key *)

Lemma lookup_put k v k' fields :
  lookupField k' (put k v fields) = if (k' =? k)%string then Some v else lookupField k' fields.
Proof.
  induction fields as [|[i x] fields IH]; cbn; [done|].
  destruct (String.eqb_spec k i) as [<-|Hn]; cbn; [by destruct (k' =? k)%string|].
  destruct (String.ltb k i); cbn; [done|].
  destruct (String.eqb_spec k' i) as [->|]; [|done].
  by destruct (String.eqb_spec i k) as [->|].
Qed.

Lemma lookup_union k l r :
  NoDup r.*1 →
  lookupField k (foldl (λ acc kv, put kv.1 kv.2 acc) l r) =
  match lookupField k r with Some v => Some v | None => lookupField k l end.
Proof.
  revert l. induction r as [|[i x] r IH]; intros l; cbn; [done|]. intros [Hni Hnd]%NoDup_cons.
  rewrite IH by done. rewrite lookup_put. destruct (String.eqb_spec k i) as [->|]; [|done].
  assert (lookupField i r = None) as ->; [|done].
  clear -Hni. induction r as [|[j y] r IH]; cbn in *; [done|].
  destruct (String.eqb_spec i j) as [->|]; [|apply IH; set_solver]. by destruct Hni; left.
Qed.

End jsonb.
