(* ===== verification/Discovery.v ===== *)
(** internal/contract/discovery: the contracts shared by the discovery workflow,
    its activities and their persistence. *)
From S2P Require Import Prelude GoStrings.
From Stdlib Require Import SpecFloat.
#[local] Open Scope string_scope.
#[local] Open Scope list_scope.
#[local] Open Scope Z_scope.

Module discoverycontract.

(** ** types.go *)

Definition CandidateOutcome := string.
Definition OutcomePromoted : CandidateOutcome := "promoted".
Definition OutcomeDuplicate : CandidateOutcome := "duplicate".
Definition OutcomeSuperseded : CandidateOutcome := "superseded".
Definition OutcomeRejected : CandidateOutcome := "rejected".
Definition OutcomeFailed : CandidateOutcome := "failed".
Definition RejectReasonEventRemoved : string := "event_removed".

Definition Terminal (o : CandidateOutcome) : bool :=
  one_of o [OutcomePromoted; OutcomeDuplicate; OutcomeSuperseded; OutcomeRejected; OutcomeFailed].

Definition Credited (o : CandidateOutcome) : bool :=
  one_of o [OutcomePromoted; OutcomeDuplicate; OutcomeSuperseded].

Record EventWorkflowInput := mkEventWorkflowInput {
  wiEventID : positive;
  wiFixtureID : Z;
  wiPlayerName : string;
  wiTeamName : string;
  wiTeamID : Z;
  wiMinute : Z;
  wiExtra : option Z;
  wiFirstSeenAt : Time }.

(** Floats are IEEE binary64 values. *)
Record CandidateEvidence := mkCandidateEvidence {
  ceEventID : positive;
  ceFixtureID : Z;
  ceSearchAttempt : Z;
  ceQuery : string;
  ceTweetURL : string;
  ceTweetText : string;
  ceVideoPageURL : string;
  ceDurationSeconds : spec_float;
  ceUsername : string;
  ceAgeMinutesAtDiscovery : spec_float }.

(** ** queue.go *)

Definition VisionTaskQueue (base : string) : string := base +:+ "-vision".

End discoverycontract.
