(* ===== verification/Store.v ===== *)
(** internal/infra/pg, the tables the reconciliation writes and the statements
    that write them.

    A transaction is a state-passing computation on the tables that either
    fails, and is then rolled back as a whole, or yields a value and the new
    tables.  A statement fails on a violated constraint of schema.sql (primary
    key, foreign key, unique, check).  Connection failures abort a transaction
    like any other failure and are not represented.  Row locks and advisory
    locks serialize the transactions of one fixture, so a transaction is one
    step.  [now] is the transaction's NOW(). *)
From S2P Require Import Prelude GoStrings ApiFootball Fixture Event Integrity Health Auditlog Plan Jsonb Discovery.
From Stdlib Require Import SpecFloat.
#[local] Open Scope string_scope.
#[local] Open Scope list_scope.
#[local] Open Scope Z_scope.
Import apifootball providerintegrity health mutation jsonb discoverycontract.

Module pg.

(** ** Tables (schema.sql) *)

Record Downstream := mkDownstream {
  dsCompletedAt : option Time;
  dsOutcomeClass : option string }.

Record Candidate := mkCandidate {
  cdFixtureID : Z;
  cdSearchAttempt : Z;
  cdQuery : string;
  cdTweetText : string;
  cdVideoPageURL : string;
  cdDurationSeconds : spec_float;
  cdUsername : string;
  cdAgeMinutesAtDiscovery : option spec_float;
  cdDiscoveredAt : Time;
  cdOutcomeClass : string;
  cdRejectReason : option string;
  cdOutcomeDetail : option Json;
  cdOutcomeAt : option Time;
  cdObservedAssetID : option UUID;
  cdRawMD5 : option string;
  cdCreditedAssetID : option UUID }.

#[global] Instance eta_Candidate : Eta Candidate := λ c,
  mkCandidate c.(cdFixtureID) c.(cdSearchAttempt) c.(cdQuery) c.(cdTweetText)
    c.(cdVideoPageURL) c.(cdDurationSeconds) c.(cdUsername) c.(cdAgeMinutesAtDiscovery)
    c.(cdDiscoveredAt) c.(cdOutcomeClass) c.(cdRejectReason) c.(cdOutcomeDetail)
    c.(cdOutcomeAt) c.(cdObservedAssetID) c.(cdRawMD5) c.(cdCreditedAssetID).

(** A poll's receipt: failed fetch attempts under their number, and the final
    result once there is one. *)
Record PollRow := mkPollRow {
  prObservedAt : Time;
  prFailedAttempts : gmap string (list HealthObservation);
  prResult : option HealthResult }.

#[global] Instance eta_PollRow : Eta PollRow := λ p,
  mkPollRow p.(prObservedAt) p.(prFailedAttempts) p.(prResult).

Record Receipt := mkReceipt {
  rcObservedAt : Time;
  rcHealthGeneration : Z;
  rcResult : MutationResult }.

(** Keys: fixtures and health by fixture id, events by id, votes by (event,
    workflow), downstream rows by (event, type, workflow), candidates by (event,
    tweet), receipts by (observation, fixture), download attempts by (event,
    workflow) with their outcome class, polls by id.  A NULL time of the health
    rows is the zero time. *)
Record DB := mkDB {
  dbFixtures : gmap Z fixture.Fixture;
  dbEvents : gmap UUID event.Event;
  dbMonitorVotes : gset (UUID * string);
  dbDropVotes : gset (UUID * string);
  dbDownstream : gmap (UUID * string * string) Downstream;
  dbCandidates : gmap (UUID * string) Candidate;
  dbEventLog : list auditlog.Record_;
  dbProvider : ProviderHealth;
  dbFixtureHealth : gmap Z FixtureHealth;
  dbReceipts : gmap (string * Z) Receipt;
  dbDownloads : gmap (UUID * string) string;
  dbPolls : gmap string PollRow }.

#[global] Instance eta_DB : Eta DB := λ d,
  mkDB d.(dbFixtures) d.(dbEvents) d.(dbMonitorVotes) d.(dbDropVotes) d.(dbDownstream)
    d.(dbCandidates) d.(dbEventLog) d.(dbProvider) d.(dbFixtureHealth) d.(dbReceipts)
    d.(dbDownloads) d.(dbPolls).

(** *** Checks *)

Definition fixtures_state_check (f : fixture.Fixture) : bool :=
  ((f.(fixture.fState) =? fixture.StateStaging)%string &&
     is_nil f.(fixture.fActivatedAt) && is_nil f.(fixture.fCompletedAt)) ||
  ((f.(fixture.fState) =? fixture.StateActive)%string &&
     not_nil f.(fixture.fActivatedAt) && is_nil f.(fixture.fCompletedAt)) ||
  ((f.(fixture.fState) =? fixture.StateCompleted)%string &&
     not_nil f.(fixture.fActivatedAt) && not_nil f.(fixture.fCompletedAt)).

Definition fixtures_terminal_observation_state (f : fixture.Fixture) : bool :=
  is_nil f.(fixture.fTerminalObservedAt) ||
  one_of f.(fixture.fState) [fixture.StateActive; fixture.StateCompleted].

Definition fixtures_check (f : fixture.Fixture) : bool :=
  fixtures_state_check f && fixtures_terminal_observation_state f.

Definition events_debounce_check (e : event.Event) : bool :=
  (0 <=? e.(event.eDebounceCount)) && (e.(event.eDebounceCount) <=? 3).

Definition events_removed_state (e : event.Event) : bool :=
  (negb e.(event.eRemoved) && is_nil e.(event.eRemovedReason) && is_nil e.(event.eRemovedAt)) ||
  (e.(event.eRemoved) && not_nil e.(event.eRemovedReason) && not_nil e.(event.eRemovedAt)).

Definition events_check (e : event.Event) : bool :=
  event.Type_Valid e.(event.eType) && events_debounce_check e && events_removed_state e.

(** ** Transactions *)

Definition Tx (A : Type) : Type := DB → string + (A * DB).

#[global] Instance Tx_ret : MRet Tx := λ A a db, inr (a, db).
#[global] Instance Tx_bind : MBind Tx := λ A B k m db,
  match m db with inl err => inl err | inr (a, db') => k a db' end.

Definition fail {A} (err : string) : Tx A := λ _, inl err.
Definition query {A} (q : DB → A) : Tx A := λ db, inr (q db, db).
Definition modify (f : DB → DB) : Tx unit := λ db, inr (tt, f db).
Definition require (b : bool) (err : string) : Tx unit := if b then mret tt else fail err.

(** A loop over planned operations that accumulates the result. *)
Fixpoint each {A R} (body : R → A → Tx R) (out : R) (ops : list A) : Tx R :=
  match ops with
  | [] => mret out
  | op :: ops => out ← body out op; each body out ops
  end.

(** *** Row writes *)

Definition setFixture (id : Z) (f : fixture.Fixture) (db : DB) : DB :=
  db <| dbFixtures ::= λ t, <[id := f]> t |>.
Definition setEvent (id : UUID) (e : event.Event) (db : DB) : DB :=
  db <| dbEvents ::= λ t, <[id := e]> t |>.
Definition addMonitorVote (id : UUID) (w : string) (db : DB) : DB :=
  db <| dbMonitorVotes ::= λ v, {[(id, w)]} ∪ v |>.
Definition addDropVote (id : UUID) (w : string) (db : DB) : DB :=
  db <| dbDropVotes ::= λ v, {[(id, w)]} ∪ v |>.
Definition addDownstream (id : UUID) (t w : string) (db : DB) : DB :=
  db <| dbDownstream ::= λ x, <[(id, t, w) := mkDownstream None None]> x |>.
Definition closeRows (now : Time) (id : UUID) (outcome : string) (db : DB) : DB :=
  db <| dbDownstream ::= map_imap (λ k d,
    Some (if bool_decide (k.1.1 = id) && is_nil d.(dsCompletedAt)
          then mkDownstream (Some now) (Some outcome) else d)) |>.
Definition appendLog (r : auditlog.Record_) (db : DB) : DB :=
  db <| dbEventLog ::= λ l, l ++ [r] |>.
Definition addReceipt (key : string * Z) (r : Receipt) (db : DB) : DB :=
  db <| dbReceipts ::= λ t, <[key := r]> t |>.
Definition deleteReceipts (keys : list (string * Z)) (db : DB) : DB :=
  db <| dbReceipts ::= λ t, foldr delete t keys |>.

Definition stampEvent (now : Time) (e : event.Event) : event.Event :=
  e <| event.eUpdatedAt := now |>.
Definition stampFixture (now : Time) (f : fixture.Fixture) : fixture.Fixture :=
  f <| fixture.fUpdatedAt := now |>.
Definition createEvent (now : Time) (e : event.Event) : event.Event :=
  e <| event.eCreatedAt := now |> <| event.eUpdatedAt := now |>.

(** TIMESTAMPTZ columns hold microseconds: the driver drops the rest. *)
Definition time_Microsecond : Duration := 1000.
Definition Truncate (t : Time) (d : Duration) : Time := t - t mod d.
Definition timestamptz (t : Time) : Time := Truncate t time_Microsecond.

(** ** Statements on single tables *)

Definition selectFixture (id : Z) : Tx (option fixture.Fixture) := query (λ db, dbFixtures db !! id).
Definition selectEvent (id : UUID) : Tx (option event.Event) := query (λ db, dbEvents db !! id).

(** [UPDATE fixtures SET .. WHERE id = .. AND ..]: the trigger stamps
    updated_at, the checks are evaluated on the new row. *)
Definition updateFixture (now : Time) (id : Z) (where_ : fixture.Fixture → bool)
    (set_ : fixture.Fixture → fixture.Fixture) : Tx unit :=
  f ← selectFixture id;
  match f with
  | Some f =>
      if where_ f then
        let f' := stampFixture now (set_ f) in
        _ ← require (fixtures_check f') "fixtures check";
        modify (setFixture id f')
      else mret tt
  | None => mret tt
  end.

(** [UPDATE events SET .. WHERE id = .. AND .. RETURNING ..]: the updated row,
    nothing when no row qualified. *)
Definition updateEvent (now : Time) (id : UUID) (where_ : event.Event → bool)
    (set_ : event.Event → event.Event) : Tx (option event.Event) :=
  e ← selectEvent id;
  match e with
  | Some e =>
      if where_ e then
        let e' := stampEvent now (set_ e) in
        _ ← require (events_check e') "events check";
        _ ← modify (setEvent id e');
        mret (Some e')
      else mret None
  | None => mret None
  end.

(** [INSERT INTO events]: both creation times default to NOW(). *)
Definition insertEvent (now : Time) (e : event.Event) : Tx unit :=
  let e := createEvent now e in
  events ← query dbEvents;
  fixtures ← query dbFixtures;
  _ ← require (not_nil (fixtures !! e.(event.eFixtureID))) "events_fixture_id_fkey";
  _ ← require (is_nil (events !! e.(event.eID))) "events_pkey";
  _ ← require (bool_decide (map_Forall (λ _ x,
        ¬ (event.eFixtureID x = event.eFixtureID e ∧ event.eNaturalKey x = event.eNaturalKey e))
      events)) "events_fixture_id_natural_key_key";
  _ ← require (events_check e) "events check";
  modify (setEvent e.(event.eID) e).

(** The row and, by cascade, everything that refers to it. *)
Definition cascadeEvent (id : UUID) (db : DB) : DB :=
  db <| dbEvents ::= delete id |>
     <| dbMonitorVotes ::= filter (λ v, v.1 ≠ id) |>
     <| dbDropVotes ::= filter (λ v, v.1 ≠ id) |>
     <| dbDownstream ::= filter (λ kd, kd.1.1.1 ≠ id) |>
     <| dbCandidates ::= filter (λ kc, kc.1.1 ≠ id) |>
     <| dbDownloads ::= filter (λ kd, kd.1.1 ≠ id) |>.

(** [INSERT .. ON CONFLICT DO NOTHING RETURNING true] on the two vote tables:
    whether the vote is new. *)
Definition insertMonitorVote (id : UUID) (workflowID : string) : Tx bool :=
  e ← selectEvent id;
  votes ← query dbMonitorVotes;
  if decide ((id, workflowID) ∈ votes) then mret false
  else
    _ ← require (not_nil e) "event_monitor_workflows_event_id_fkey";
    _ ← modify (addMonitorVote id workflowID);
    mret true.

Definition insertDropVote (id : UUID) (workflowID : string) : Tx bool :=
  e ← selectEvent id;
  votes ← query dbDropVotes;
  if decide ((id, workflowID) ∈ votes) then mret false
  else
    _ ← require (not_nil e) "event_drop_workflows_event_id_fkey";
    _ ← modify (addDropVote id workflowID);
    mret true.

(** [INSERT .. 'discovery' .. ON CONFLICT DO NOTHING]. *)
Definition insertDownstream (id : UUID) (workflowType workflowID : string) : Tx unit :=
  e ← selectEvent id;
  rows ← query dbDownstream;
  match rows !! (id, workflowType, workflowID) with
  | Some _ => mret tt
  | None =>
      _ ← require (not_nil e) "event_downstream_workflows_event_id_fkey";
      modify (addDownstream id workflowType workflowID)
  end.

(** [UPDATE event_downstream_workflows .. WHERE event_id = .. AND completed_at IS
    NULL]. *)
Definition closeDownstream (now : Time) (id : UUID) (outcome : string) : Tx unit :=
  modify (closeRows now id outcome).

(** ** Selecting rows

    [SELECT .. WHERE .. ORDER BY ..].  A key list is compared lexicographically;
    rows that tie come in an unspecified order, here that of the table. *)

Definition ordering (A : Type) : Type := list (A → A → comparison).
Definition asc {A} (f : A → Z) : A → A → comparison := λ x y, f x ?= f y.
Definition desc {A} (f : A → Z) : A → A → comparison := λ x y, f y ?= f x.
Definition nullsFirst {A} (f : A → option Z) : A → A → comparison := λ x y,
  match f x, f y with
  | None, None => Eq | None, Some _ => Lt | Some _, None => Gt | Some m, Some n => m ?= n
  end.

Fixpoint lexLess {A} (keys : ordering A) (x y : A) : bool :=
  match keys with
  | [] => false
  | c :: keys => match c x y with Lt => true | Gt => false | Eq => lexLess keys x y end
  end.

Definition orderBy {A} (keys : ordering A) (rows : list A) : list A := sort_by (lexLess keys) rows.

(** A key compares by a preorder. *)
Class Ordered {A} (c : A → A → comparison) : Prop := {
  ordered_sym x y : c y x = CompOpp (c x y);
  ordered_eq x y z : c x y = Eq → c x z = c y z;
  ordered_lt x y z : c x y = Lt → c y z = Lt → c x z = Lt }.

#[global] Instance asc_ordered {A} (f : A → Z) : Ordered (asc f).
Proof.
  unfold asc. split; intros *; rewrite ?Z.compare_eq_iff, ?Z.compare_lt_iff.
  - apply Z.compare_antisym.
  - by intros ->.
  - lia.
Qed.

#[global] Instance desc_ordered {A} (f : A → Z) : Ordered (desc f).
Proof.
  unfold desc. split; intros *; rewrite ?Z.compare_eq_iff, ?Z.compare_lt_iff.
  - apply Z.compare_antisym.
  - by intros ->.
  - lia.
Qed.

#[global] Instance nullsFirst_ordered {A} (f : A → option Z) : Ordered (nullsFirst f).
Proof.
  unfold nullsFirst. split; intros *; destruct (f x), (f y); try (destruct (f z)); try done;
    rewrite ?Z.compare_eq_iff, ?Z.compare_lt_iff.
  - apply Z.compare_antisym.
  - by intros ->.
  - lia.
Qed.

Definition keysOrdered {A} (keys : ordering A) : Prop := Forall Ordered keys.
Existing Class keysOrdered.

#[global] Instance keysOrdered_nil {A} : keysOrdered (A:=A) [].
Proof. constructor. Qed.
#[global] Instance keysOrdered_cons {A} (c : A → A → comparison) keys :
  Ordered c → keysOrdered keys → keysOrdered (c :: keys).
Proof. by constructor. Qed.

Lemma lexLess_asym {A} keys (x y : A) :
  keysOrdered keys → lexLess keys x y = true → lexLess keys y x = false.
Proof.
  induction 1 as [|c keys Hc _ IH]; [done|]. cbn. rewrite (ordered_sym x y).
  by destruct (c x y); cbn.
Qed.

Lemma lexLess_trans {A} keys (x y z : A) :
  keysOrdered keys → not_after (lexLess keys) x y → not_after (lexLess keys) y z →
  not_after (lexLess keys) x z.
Proof.
  unfold not_after. induction 1 as [|c keys Hc _ IH]; [done|]. cbn.
  rewrite (ordered_sym x y), (ordered_sym y z), (ordered_sym x z).
  destruct (c x y) eqn:E1, (c y z) eqn:E2; cbn; try done.
  - rewrite (ordered_eq _ _ z E1), E2. exact IH.
  - by rewrite (ordered_eq _ _ z E1), E2.
  - assert (c z y = Eq) as E3 by (by rewrite (ordered_sym y z), E2).
    pose proof (ordered_eq _ _ x E3) as E4. rewrite (ordered_sym x z), (ordered_sym x y), E1 in E4.
    by destruct (c x z).
  - by rewrite (ordered_lt _ _ _ E1 E2).
Qed.

(** The listing is in the order of its keys. *)
Lemma orderBy_sorted {A} keys (rows : list A) :
  keysOrdered keys → StronglySorted (not_after (lexLess keys)) (orderBy keys rows).
Proof.
  intros Hk. apply sort_by_sorted; intros; [by apply lexLess_asym|by eapply lexLess_trans].
Qed.

Lemma elem_of_orderBy {A} keys (rows : list A) x : x ∈ orderBy keys rows ↔ x ∈ rows.
Proof. apply elem_of_sort_by. Qed.

Definition eventsWhere (where_ : DB → event.Event → bool) (keys : ordering event.Event)
    : Tx (list event.Event) :=
  query (λ db, orderBy keys (filter (λ e, where_ db e = true) (map_to_list (dbEvents db)).*2)).

Definition fixturesWhere (where_ : DB → fixture.Fixture → bool) (keys : ordering fixture.Fixture)
    : Tx (list fixture.Fixture) :=
  query (λ db, orderBy keys (filter (λ f, where_ db f = true) (map_to_list (dbFixtures db)).*2)).

(** A row of another table that satisfies a condition exists. *)
Definition anyRow {K V} `{Countable K} (p : K → V → bool) (rows : gmap K V) : bool :=
  existsb (λ kv, p kv.1 kv.2) (map_to_list rows).

Lemma anyRow_true {K V} `{Countable K} (p : K → V → bool) (rows : gmap K V) :
  anyRow p rows = true ↔ ∃ k v, rows !! k = Some v ∧ p k v = true.
Proof.
  unfold anyRow. rewrite existsb_exists. split.
  - intros ([k v] & Hin & Hp). exists k, v. split; [|done].
    by apply elem_of_map_to_list, list_elem_of_In.
  - intros (k & v & Hk & Hp). exists (k, v). split; [|done].
    by apply list_elem_of_In, elem_of_map_to_list.
Qed.

Lemma elem_of_rows {K V} `{Countable K} (p : V → bool) keys (t : gmap K V) x :
  x ∈ orderBy keys (filter (λ y, p y = true) (map_to_list t).*2) ↔
  p x = true ∧ ∃ k, t !! k = Some x.
Proof.
  rewrite elem_of_orderBy, list_elem_of_filter, list_elem_of_fmap. split.
  - intros (Hw & [k y] & -> & Hin). split; [done|]. exists k. by apply elem_of_map_to_list.
  - intros (Hw & k & Hk). split; [done|]. exists (k, x). split; [done|].
    by apply elem_of_map_to_list.
Qed.

Lemma elem_of_eventsWhere where_ keys db rows db' e :
  eventsWhere where_ keys db = inr (rows, db') →
  db' = db ∧ (e ∈ rows ↔ where_ db e = true ∧ ∃ id, dbEvents db !! id = Some e).
Proof. unfold eventsWhere, query. intros [= <- <-]. split; [done|]. apply elem_of_rows. Qed.

(** ** Retention

    [DELETE .. WHERE key IN (SELECT key .. WHERE observed_at < $1 ORDER BY
    observed_at LIMIT n)]: the oldest rows before a time, at most [n]. *)

Section retention.
Context {K V : Type} `{Countable K} (at_ : V → Time).
Implicit Types (rows : gmap K V) (k : K) (v : V).

Definition expiredRows (n : nat) (before : Time) (rows : gmap K V) : list K :=
  let old := filter (λ kv, Before (at_ kv.2) before = true) (map_to_list rows) in
  (take n (sort_by (λ a b, at_ a.2 <? at_ b.2) old)).*1.

Lemma expiredRows_old n before rows k :
  k ∈ expiredRows n before rows → ∃ v, rows !! k = Some v ∧ at_ v < before.
Proof.
  unfold expiredRows. intros ([k' v] & -> & Hk)%list_elem_of_fmap.
  assert ((k', v) ∈ filter (λ kv : K * V, Before (at_ kv.2) before = true) (map_to_list rows)) as Hin.
  { rewrite <-(elem_of_sort_by (λ a b : K * V, at_ a.2 <? at_ b.2)).
    eapply elem_of_take in Hk as (i & Hi & _). by eapply list_elem_of_lookup_2. }
  apply list_elem_of_filter in Hin as [Hb Hin%elem_of_map_to_list].
  exists v. split; [done|]. by apply Z.ltb_lt.
Qed.

Lemma lookup_foldr_delete_not_in keys rows k : k ∉ keys → foldr delete rows keys !! k = rows !! k.
Proof.
  induction keys as [|k' keys IH]; cbn; [done|]. intros [Hne Hk]%not_elem_of_cons.
  rewrite lookup_delete_ne by done. by apply IH.
Qed.

Lemma lookup_foldr_delete_Some keys rows k v :
  foldr delete rows keys !! k = Some v → rows !! k = Some v.
Proof. induction keys as [|k' keys IH]; cbn; [done|]. intros [_ Hk]%lookup_delete_Some. auto. Qed.
End retention.

(** ** Audit rows (audit_log.go) *)

Definition insertAuditLog (record : auditlog.Record_) : Tx unit :=
  if negb (auditlog.Valid record) then fail "invalid audit record"
  else modify (appendLog record).

(** ** Candidates of a removed event (candidate_repo.go) *)

(** A pending row of the event; an empty url stands for all of them. *)
Definition pendingOf (eventID : UUID) (tweetURL : string) (k : UUID * string) (c : Candidate)
    : bool :=
  bool_decide (k.1 = eventID) && (c.(cdOutcomeClass) =? "pending")%string &&
  ((tweetURL =? "")%string || (k.2 =? tweetURL)%string).

(** The detail keeps what it was and names the reason. *)
Definition removedDetail (detail : option Json) : Json :=
  concat match detail with
         | None => jObject []
         | Some d => if isObject d then d else buildObject "previous_detail" (Some d)
         end (buildObject "reason" (Some (jString RejectReasonEventRemoved))).

Definition closeRemoved (at_ : Time) (c : Candidate) : Candidate :=
  c <| cdOutcomeClass := OutcomeRejected |> <| cdRejectReason := Some RejectReasonEventRemoved |>
    <| cdOutcomeDetail ::= λ d, Some (removedDetail d) |> <| cdOutcomeAt := Some at_ |>
    <| cdCreditedAssetID := None |>.

Definition rejectPending (eventID : UUID) (tweetURL : string) (at_ : Time) (db : DB) : DB :=
  db <| dbCandidates ::= map_imap (λ k c,
    Some (if pendingOf eventID tweetURL k c then closeRemoved at_ c else c)) |>.

(** Returns the number of rows closed; [clock] is time.Now(), used for a zero
    [at_]. *)
Definition terminalizePendingCandidatesForRemovedEvent (clock : Time) (eventID : UUID)
    (tweetURL : string) (at_ : Time) : Tx Z :=
  let at_ := if IsZero at_ then UTC clock else at_ in
  rows ← query dbCandidates;
  _ ← modify (rejectPending eventID tweetURL (timestamptz at_));
  mret (Z.of_nat (size (filter (λ kc, pendingOf eventID tweetURL kc.1 kc.2 = true) rows))).

(** ** Inverting a committed transaction *)

Section inversion.
Context {A B : Type}.
Implicit Types (db : DB) (a : A) (b : B).

Lemma bind_inv (m : Tx A) (k : A → Tx B) db b db2 :
  (m ≫= k) db = inr (b, db2) → ∃ a db1, m db = inr (a, db1) ∧ k a db1 = inr (b, db2).
Proof. unfold mbind, Tx_bind. destruct (m db) as [|[a db1]]; naive_solver. Qed.

Lemma ret_inv a a' db db' : (mret a : Tx A) db = inr (a', db') → a' = a ∧ db' = db.
Proof. unfold mret, Tx_ret. naive_solver. Qed.

Lemma query_inv (q : DB → A) a db db' : query q db = inr (a, db') → a = q db ∧ db' = db.
Proof. unfold query. naive_solver. Qed.

Lemma modify_inv f u db db' : modify f db = inr (u, db') → db' = f db.
Proof. unfold modify. naive_solver. Qed.

Lemma require_inv c err u db db' : require c err db = inr (u, db') → c = true ∧ db' = db.
Proof. unfold require, fail, mret, Tx_ret. destruct c; naive_solver. Qed.
End inversion.

(** Takes a committed computation apart, statement by statement, down to the
    conditionals. *)
Ltac tx_inv :=
  repeat match goal with
  | H : (_ ≫= _) _ = inr _ |- _ => apply bind_inv in H as (?&?&?&?)
  | H : mret _ _ = inr (_, _) |- _ => apply ret_inv in H as [??]; subst
  | H : query _ _ = inr (_, _) |- _ => apply query_inv in H as [??]; subst
  | H : selectFixture _ _ = inr (_, _) |- _ => apply query_inv in H as [??]; subst
  | H : selectEvent _ _ = inr (_, _) |- _ => apply query_inv in H as [??]; subst
  | H : modify _ _ = inr (_, _) |- _ => apply modify_inv in H; subst
  | H : require _ _ _ = inr (_, _) |- _ => apply require_inv in H as [??]; subst
  | H : fail _ _ = inr _ |- _ => discriminate H
  end.

(** What the statements did. *)

Lemma updateFixture_inv now id where_ set_ u db db' :
  updateFixture now id where_ set_ db = inr (u, db') →
  db' = db ∧ (∀ f, dbFixtures db !! id = Some f → where_ f = false) ∨
  ∃ f, let f' := stampFixture now (set_ f) in
    dbFixtures db !! id = Some f ∧ where_ f = true ∧ fixtures_check f' = true ∧
    db' = setFixture id f' db.
Proof.
  unfold updateFixture. intros H. tx_inv.
  destruct (dbFixtures db !! id) as [f|] eqn:E; tx_inv; [|left; naive_solver].
  destruct (where_ f) eqn:Ew; tx_inv; [right; by exists f|left; naive_solver].
Qed.

Lemma updateEvent_inv now id where_ set_ r db db' :
  updateEvent now id where_ set_ db = inr (r, db') →
  r = None ∧ db' = db ∧ (∀ e, dbEvents db !! id = Some e → where_ e = false) ∨
  ∃ e, let e' := stampEvent now (set_ e) in
    dbEvents db !! id = Some e ∧ where_ e = true ∧ events_check e' = true ∧ r = Some e' ∧
    db' = setEvent id e' db.
Proof.
  unfold updateEvent. intros H. tx_inv.
  destruct (dbEvents db !! id) as [e|] eqn:E; tx_inv; [|left; naive_solver].
  destruct (where_ e) eqn:Ew; tx_inv; [right; by exists e|left; naive_solver].
Qed.

Lemma insertEvent_inv now e u db db' :
  insertEvent now e db = inr (u, db') →
  let e' := createEvent now e in
  is_Some (dbFixtures db !! event.eFixtureID e) ∧ dbEvents db !! event.eID e = None ∧
  (∀ id x, dbEvents db !! id = Some x → event.eFixtureID x = event.eFixtureID e →
     event.eNaturalKey x ≠ event.eNaturalKey e) ∧
  events_check e' = true ∧ db' = setEvent (event.eID e) e' db.
Proof.
  unfold insertEvent. intros H. tx_inv.
  split_and!; [by apply not_nil_true|by apply is_nil_true| |done|done].
  intros id x Hx Hf Hk.
  match goal with H : bool_decide (map_Forall _ _) = true |- _ =>
    apply bool_decide_eq_true in H; apply (H _ _ Hx) end. done.
Qed.

Lemma insertMonitorVote_inv id w r db db' :
  insertMonitorVote id w db = inr (r, db') →
  r = false ∧ db' = db ∧ (id, w) ∈ dbMonitorVotes db ∨
  r = true ∧ (id, w) ∉ dbMonitorVotes db ∧ is_Some (dbEvents db !! id) ∧
    db' = addMonitorVote id w db.
Proof.
  unfold insertMonitorVote. intros H. tx_inv. destruct (decide _); tx_inv; [by left|].
  right. split_and!; [done|done|by apply not_nil_true|done].
Qed.

Lemma insertDropVote_inv id w r db db' :
  insertDropVote id w db = inr (r, db') →
  r = false ∧ db' = db ∧ (id, w) ∈ dbDropVotes db ∨
  r = true ∧ (id, w) ∉ dbDropVotes db ∧ is_Some (dbEvents db !! id) ∧
    db' = addDropVote id w db.
Proof.
  unfold insertDropVote. intros H. tx_inv. destruct (decide _); tx_inv; [by left|].
  right. split_and!; [done|done|by apply not_nil_true|done].
Qed.

Lemma insertDownstream_inv id t w u db db' :
  insertDownstream id t w db = inr (u, db') →
  db' = db ∧ is_Some (dbDownstream db !! (id, t, w)) ∨
  dbDownstream db !! (id, t, w) = None ∧ is_Some (dbEvents db !! id) ∧
    db' = addDownstream id t w db.
Proof.
  unfold insertDownstream. intros H. tx_inv. destruct (_ !! (id, t, w)) eqn:E; tx_inv; [by left; eauto|].
  right. split_and!; [done|by apply not_nil_true|done].
Qed.

Lemma insertAuditLog_inv r u db db' :
  insertAuditLog r db = inr (u, db') →
  auditlog.Valid r = true ∧ db' = appendLog r db.
Proof. unfold insertAuditLog. destruct (auditlog.Valid r); simpl; intros H; tx_inv; done. Qed.

Lemma each_inv {A R} (body : R → A → Tx R) (I : R → DB → Prop) ops :
  (∀ out op db out' db', op ∈ ops → I out db → body out op db = inr (out', db') → I out' db') →
  ∀ out db out' db', I out db → each body out ops db = inr (out', db') → I out' db'.
Proof.
  induction ops as [|op ops IH]; intros Hb out db out' db' HI H; cbn in H; tx_inv; [done|].
  eapply IH; [|by eapply Hb; [left| |]|done]. intros. by eapply Hb; [right| |].
Qed.

(** ** Running a transaction forward *)

Lemma bind_run {A B} (m : Tx A) (k : A → Tx B) db a db1 :
  m db = inr (a, db1) → (m ≫= k) db = k a db1.
Proof. unfold mbind, Tx_bind. by intros ->. Qed.

Lemma require_run c err db : c = true → require c err db = inr (tt, db).
Proof. by intros ->. Qed.

Lemma insertMonitorVote_run id w db e :
  dbEvents db !! id = Some e → (id, w) ∉ dbMonitorVotes db →
  insertMonitorVote id w db = inr (true, addMonitorVote id w db).
Proof.
  intros He Hn. unfold insertMonitorVote, selectEvent, query, require, modify, mbind, Tx_bind.
  rewrite He. by destruct (decide _).
Qed.

Lemma updateEvent_run now id where_ set_ db e :
  dbEvents db !! id = Some e → where_ e = true → events_check (stampEvent now (set_ e)) = true →
  updateEvent now id where_ set_ db =
    inr (Some (stampEvent now (set_ e)), setEvent id (stampEvent now (set_ e)) db).
Proof.
  intros He Hw Hc. unfold updateEvent, selectEvent, query, require, modify, mbind, Tx_bind.
  by rewrite He, Hw, Hc.
Qed.

Lemma insertAuditLog_run r db :
  auditlog.Valid r = true → insertAuditLog r db = inr (tt, appendLog r db).
Proof. unfold insertAuditLog. by intros ->. Qed.

Lemma insertDownstream_run id t w db e :
  dbEvents db !! id = Some e → ∃ db', insertDownstream id t w db = inr (tt, db') ∧
    db' = db <| dbDownstream := dbDownstream db' |>.
Proof.
  intros He. unfold insertDownstream, selectEvent, query, require, modify, mbind, mret, Tx_bind, Tx_ret.
  rewrite He. destruct (dbDownstream db !! _).
  - exists db. split; [done|by destruct db].
  - exists (addDownstream id t w db). by split.
Qed.

End pg.
