(* ===== verification/Mutation.v ===== *)
(** internal/infra/pg, the guarded write boundary: ProviderMutationRepo
    (provider_mutation_repo.go, provider_mutation_evidence.go) as transactions on
    the tables of Store.v, and what one committed observation may change. *)
From S2P Require Import Prelude GoStrings ApiFootball Fixture Event Integrity Health Auditlog Presentation Plan Store.
#[local] Open Scope string_scope.
#[local] Open Scope list_scope.
#[local] Open Scope Z_scope.
Import apifootball providerintegrity health mutation pg.

Module boundary.

(** ** Validation and normalization *)

Definition normalizedTimeCopy (value : option Time) : option Time :=
  (λ t, Truncate (UTC t) time_Microsecond) <$> value.

Definition normalizeGuard (g : ObservationGuard) : ObservationGuard :=
  mkObservationGuard g.(ogObservationID) (Truncate (UTC g.(ogObservedAt)) time_Microsecond)
    g.(ogExpectedGeneration) g.(ogRequireHealthReceipt).

Definition normalizeFixture (f : fixture.Fixture) : fixture.Fixture :=
  f <| fixture.fLastPolledAt ::= normalizedTimeCopy |>.

Definition normalizeActiveMutationPlan (plan : ActiveMutationPlan) : ActiveMutationPlan :=
  plan <| apGuard ::= normalizeGuard |> <| apBaselineLastPolled ::= normalizedTimeCopy |>
       <| apFixture ::= fmap normalizeFixture |>.

Definition normalizeFixtureMutationPlan (plan : FixtureMutationPlan) : FixtureMutationPlan :=
  plan <| fpGuard ::= normalizeGuard |> <| fpBaselineLastPolled ::= normalizedTimeCopy |>
       <| fpFixture ::= fmap normalizeFixture |>.

Definition validateObserved (f : fixture.Fixture) (g : ObservationGuard) : option string :=
  if negb (bool_decide (f.(fixture.fLastPolledAt) = Some g.(ogObservedAt)))
  then Some "fixture observation does not match guard"
  else if not_nil (fixture.ValidateInvariants f) then Some "fixture invariants" else None.

(** The plan's fixture, or the error. *)
Definition validateActiveMutationPlan (plan : ActiveMutationPlan) : string + fixture.Fixture :=
  match ObservationGuard_Validate plan.(apGuard), plan.(apFixture) with
  | Some err, _ => inl err
  | None, None => inl "invalid guarded active mutation plan"
  | None, Some f =>
      if (f.(fixture.fID) <=? 0) || (plan.(apWorkflowID) =? "")%string ||
        negb (Policy_Valid plan.(apLocalPolicy)) || negb plan.(apGuard).(ogRequireHealthReceipt)
      then inl "invalid guarded active mutation plan"
      else match validateObserved f plan.(apGuard) with Some err => inl err | None => inr f end
  end.

Definition validateFixtureMutationPlan (plan : FixtureMutationPlan) : string + fixture.Fixture :=
  match ObservationGuard_Validate plan.(fpGuard), plan.(fpFixture) with
  | Some err, _ => inl err
  | None, None => inl "invalid guarded fixture mutation plan"
  | None, Some f =>
      if (f.(fixture.fID) <=? 0) || negb (Policy_Valid plan.(fpLocalPolicy)) ||
        plan.(fpGuard).(ogRequireHealthReceipt)
      then inl "invalid guarded fixture mutation plan"
      else if negb (plan.(fpMode) =? MutationModeIngest)%string &&
        negb (plan.(fpMode) =? MutationModeStaging)%string
      then inl "invalid fixture mutation mode"
      else match validateObserved f plan.(fpGuard) with Some err => inl err | None => inr f end
  end.

Definition newerObservation (observedAt : Time) (baseline : option Time) : bool :=
  match baseline with None => true | Some b => After observedAt b end.

Definition sameOptionalTime (left right : option Time) : bool := bool_decide (left = right).

(** ** Merging an observation that is only trusted to add *)

Definition monotonicInt (current observed : option Z) : option Z :=
  match observed, current with
  | None, _ => current
  | Some o, Some c => if o <? c then current else observed
  | Some _, None => observed
  end.

Definition fillBool (current observed : option bool) : option bool :=
  if not_nil current || is_nil observed then current else observed.

Definition fixtureMutationFacts (f : fixture.Fixture) : FixtureFacts :=
  mkFixtureFacts f.(fixture.fID) f.(fixture.fHome).(fixture.tID) f.(fixture.fAway).(fixture.tID)
    f.(fixture.fLeague).(fixture.lID) f.(fixture.fHome).(fixture.tName)
    f.(fixture.fAway).(fixture.tName) f.(fixture.fLeague).(fixture.lName)
    f.(fixture.fAPIStatus).(fixture.Short) (fixture.Terminal f.(fixture.fAPIStatus))
    f.(fixture.fAPIElapsed) f.(fixture.fAPIExtra) f.(fixture.fHomeScore) f.(fixture.fAwayScore)
    false.

(** Keeps the stored team but fills an empty name. *)
Definition fillTeam (current observed : fixture.Team) : fixture.Team :=
  if (current.(fixture.tID) =? observed.(fixture.tID)) && (current.(fixture.tName) =? "")%string
  then fixture.mkTeam current.(fixture.tID) observed.(fixture.tName) else current.

Definition fillString (current observed : string) : string :=
  if (current =? "")%string then observed else current.

Definition fillLeague (current observed : fixture.League) : fixture.League :=
  if current.(fixture.lID) =? observed.(fixture.lID)
  then fixture.mkLeague current.(fixture.lID)
    (fillString current.(fixture.lName) observed.(fixture.lName)) current.(fixture.lSeason)
    (fillString current.(fixture.lCountry) observed.(fixture.lCountry))
    (fillString current.(fixture.lRound) observed.(fixture.lRound))
  else current.

Definition blocksClock (current observed : fixture.Fixture) : bool :=
  let comparison := AssessFixture (mkFixtureComparison (fixtureMutationFacts current)
    (fixtureMutationFacts observed) [] [] []) in
  existsb (λ r, one_of r [ReasonPhaseRegressed; ReasonTerminalRegressed; ReasonClockRegressed])
    comparison.(fvReasons).

Definition mergePositiveFixture (current observed : fixture.Fixture) : fixture.Fixture :=
  let out := current <| fixture.fLastPolledAt := observed.(fixture.fLastPolledAt) |> in
  let out :=
    if blocksClock current observed then out
    else
      let status := observed.(fixture.fAPIStatus) in
      let status :=
        if (status.(fixture.Long) =? "")%string &&
          (status.(fixture.Short) =? current.(fixture.fAPIStatus).(fixture.Short))%string
        then fixture.mkAPIStatus status.(fixture.Short) current.(fixture.fAPIStatus).(fixture.Long)
        else status in
      let out := out <| fixture.fAPIStatus := status |> in
      if not_nil observed.(fixture.fAPIElapsed)
      then out <| fixture.fAPIElapsed := observed.(fixture.fAPIElapsed) |>
               <| fixture.fAPIExtra := observed.(fixture.fAPIExtra) |>
      else out in
  let out := out
    <| fixture.fHomeScore := monotonicInt current.(fixture.fHomeScore) observed.(fixture.fHomeScore) |>
    <| fixture.fAwayScore := monotonicInt current.(fixture.fAwayScore) observed.(fixture.fAwayScore) |>
    <| fixture.fHomePenalty := monotonicInt current.(fixture.fHomePenalty) observed.(fixture.fHomePenalty) |>
    <| fixture.fAwayPenalty := monotonicInt current.(fixture.fAwayPenalty) observed.(fixture.fAwayPenalty) |> in
  let out := fixture.UpdateResult out
    (fillBool current.(fixture.fHomeWinner) observed.(fixture.fHomeWinner))
    (fillBool current.(fixture.fAwayWinner) observed.(fixture.fAwayWinner)) in
  out <| fixture.fHome := fillTeam current.(fixture.fHome) observed.(fixture.fHome) |>
      <| fixture.fAway := fillTeam current.(fixture.fAway) observed.(fixture.fAway) |>
      <| fixture.fLeague := fillLeague current.(fixture.fLeague) observed.(fixture.fLeague) |>
      <| fixture.fTerminalObservedAt := current.(fixture.fTerminalObservedAt) |>.

(** ** What a commit changed *)

Definition fixturePubliclyChanged (before after : option fixture.Fixture) : bool :=
  match before, after with
  | Some l, Some r =>
      let blank f := f <| fixture.fLastPolledAt := None |> <| fixture.fUpdatedAt := zero_time |> in
      negb (bool_decide (blank l = blank r))
  | None, None => false
  | _, _ => true
  end.

(** A fixture without its clock, status and recency. *)
Definition structure_of (f : fixture.Fixture) : fixture.Fixture :=
  f <| fixture.fAPIStatus := fixture.mkAPIStatus "" "" |> <| fixture.fAPIElapsed := None |>
    <| fixture.fAPIExtra := None |> <| fixture.fLastPolledAt := None |>
    <| fixture.fUpdatedAt := zero_time |>.

Definition projection (f : fixture.Fixture) : fixturepresentation.Projection :=
  fixturepresentation.From_ f.(fixture.fAPIStatus) f.(fixture.fAPIElapsed) f.(fixture.fAPIExtra).

Definition classifyMutationFixtureChanges (out : MutationResult)
    (before : option fixture.Fixture) : MutationResult :=
  match out.(mrFixture) with
  | None => out
  | Some after =>
      let out := out <| mrFixtureChanged := fixturePubliclyChanged before (Some after) |> in
      match before with
      | None => out <| mrFixtureStructuralChanged := true |>
      | Some before =>
          let previous := projection before in
          let current := projection after in
          out <| mrFixturePresentationChanged := negb (fixturepresentation.Equal previous current) |>
              <| mrFixtureStructuralChanged :=
                   negb (previous.(fixturepresentation.prPresentationState) =?
                     current.(fixturepresentation.prPresentationState))%string ||
                   negb (bool_decide (structure_of before = structure_of after)) |>
      end
  end.

(** ** Evidence of the operations a policy limited *)

Definition restrictedActiveOperations (plan : ActiveMutationPlan) (f : fixture.Fixture)
    (policy : MutationPolicy) : option RestrictedOperations :=
  if (policy =? PolicyTrusted)%string then None
  else
    let rejected := (policy =? PolicyRejected)%string in
    let completion := plan.(apCompletion) in
    Some (mkRestrictedOperations true
      (if rejected
       then omap (λ op, event.eID <$> op.(piEvent)) plan.(apInserts) else [])
      (if rejected then ppEventID <$> plan.(apPresences) else [])
      (puEventID <$> plan.(apUpdates))
      (paEventID <$> plan.(apAbsences))
      plan.(apUnknownDeletes)
      (fixture.Terminal f.(fixture.fAPIStatus) &&
       match f.(fixture.fTerminalObservedAt) with
       | None => false
       | Some at_ =>
           negb (IsZero completion.(cnTerminalBefore)) && negb (IsZero completion.(cnCompletedAt)) &&
           (0 <? completion.(cnGraceSeconds)) && negb (After at_ completion.(cnTerminalBefore))
       end)).

Definition restrictedFixtureOperations (plan : FixtureMutationPlan) (policy : MutationPolicy)
    : option RestrictedOperations :=
  if (policy =? PolicyTrusted)%string ||
    ((policy =? PolicyPositiveOnly)%string && negb plan.(fpBaselineExists)) then None
  else Some (mkRestrictedOperations true [] [] [] [] [] false).

(** ** The transaction

    [now] is NOW(), [clock] time.Now(), [uuid_String] the text of an event id, and
    [mode] the rollout mode the worker runs with. *)

Section transaction.
Context (now clock : Time) (uuid_String : UUID → string) (mode : EnforcementMode).

Definition lift {A} (r : string + A) : Tx A :=
  match r with inl err => fail err | inr a => mret a end.

Definition lockProviderMutationPolicy : Tx (Time * Z * MutationPolicy) :=
  p ← query dbProvider;
  _ ← require (Policy_Valid p.(pPolicy)) "invalid stored provider mutation policy";
  mret (UTC p.(pLastObservedAt), p.(pGeneration), p.(pPolicy)).

Definition ErrNotFound : string := "fixture: not found".

Definition lockedFixture (id : Z) : Tx fixture.Fixture :=
  f ← selectFixture id;
  match f with Some f => mret f | None => fail ErrNotFound end.

Definition loadFixtureHealth (id : Z) : Tx FixtureHealth :=
  rows ← query dbFixtureHealth;
  match rows !! id with
  | None => mret (newFixtureHealth id)
  | Some s =>
      _ ← require (s.(hEvidence).(xVersion) =? HealthEvidenceVersion)
        "unsupported fixture health evidence version";
      mret s
  end.

Definition loadMutationReceipt (guard : ObservationGuard) (fixtureID : Z)
    : Tx (option MutationResult) :=
  rows ← query dbReceipts;
  match rows !! (guard.(ogObservationID), fixtureID) with
  | None => mret None
  | Some r =>
      _ ← require (r.(rcObservedAt) =? guard.(ogObservedAt))
        "provider mutation observation ID reused with another time";
      mret (Some r.(rcResult))
  end.

(** The oldest rows past the retention, at most 128. *)
Definition expiredReceipts (before : Time) (rows : gmap (string * Z) Receipt)
    : list (string * Z) := expiredRows rcObservedAt 128 before rows.

Definition commitMutationResult (guard : ObservationGuard) (fixtureID generation : Z)
    (out : MutationResult) : Tx MutationResult :=
  let fixtureID :=
    match out.(mrFixture) with
    | Some f => if fixtureID <=? 0 then f.(fixture.fID) else fixtureID
    | None => fixtureID
    end in
  if fixtureID <=? 0 then fail "provider mutation receipt requires fixture"
  else
    let key := (guard.(ogObservationID), fixtureID) in
    rows ← query dbReceipts;
    owner ← selectFixture fixtureID;
    _ ← (if is_nil (rows !! key) then
           _ ← require (not_nil owner) "provider_mutation_receipts_fixture_id_fkey";
           _ ← require (0 <=? generation) "provider_mutation_receipts_health_generation_check";
           modify (addReceipt key (mkReceipt (timestamptz guard.(ogObservedAt)) generation out))
         else mret tt);
    receipts ← query dbReceipts;
    _ ← modify (deleteReceipts (expiredReceipts
      (time_Add guard.(ogObservedAt) (- HealthReceiptRetention)) receipts));
    mret out.

Definition commitStaleReceipt (guard : ObservationGuard) (fixtureID : Z)
    (current : option fixture.Fixture) (generation : Z) : Tx MutationResult :=
  commitMutationResult guard fixtureID generation
    (emptyResult <| mrStale := true |> <| mrFixture := current |>).

(** *** Fixture rows *)

Definition activeColumns (f r : fixture.Fixture) : fixture.Fixture :=
  r <| fixture.fAPIStatus := f.(fixture.fAPIStatus) |> <| fixture.fAPIElapsed := f.(fixture.fAPIElapsed) |>
    <| fixture.fAPIExtra := f.(fixture.fAPIExtra) |>
    <| fixture.fKickoff := timestamptz f.(fixture.fKickoff) |>
    <| fixture.fHome := f.(fixture.fHome) |> <| fixture.fAway := f.(fixture.fAway) |>
    <| fixture.fLeague := f.(fixture.fLeague) |>
    <| fixture.fHomeScore := f.(fixture.fHomeScore) |> <| fixture.fAwayScore := f.(fixture.fAwayScore) |>
    <| fixture.fHomeWinner := f.(fixture.fHomeWinner) |> <| fixture.fAwayWinner := f.(fixture.fAwayWinner) |>
    <| fixture.fTerminalObservedAt := timestamptz <$> f.(fixture.fTerminalObservedAt) |>
    <| fixture.fLastPolledAt := timestamptz <$> f.(fixture.fLastPolledAt) |>
    <| fixture.fHomePenalty := f.(fixture.fHomePenalty) |>
    <| fixture.fAwayPenalty := f.(fixture.fAwayPenalty) |>.

Definition isActive (r : fixture.Fixture) : bool :=
  (r.(fixture.fState) =? fixture.StateActive)%string.

Definition updateActiveFixtureTx (f : fixture.Fixture) : Tx unit :=
  updateFixture now f.(fixture.fID) isActive (activeColumns f).

Definition ingestColumns (f r : fixture.Fixture) : fixture.Fixture :=
  r <| fixture.fAPIStatus := f.(fixture.fAPIStatus) |> <| fixture.fAPIElapsed := f.(fixture.fAPIElapsed) |>
    <| fixture.fAPIExtra := f.(fixture.fAPIExtra) |>
    <| fixture.fKickoff := timestamptz f.(fixture.fKickoff) |>
    <| fixture.fHome := f.(fixture.fHome) |> <| fixture.fAway := f.(fixture.fAway) |>
    <| fixture.fLeague := f.(fixture.fLeague) |>
    <| fixture.fHomeScore := f.(fixture.fHomeScore) |> <| fixture.fAwayScore := f.(fixture.fAwayScore) |>
    <| fixture.fHomeWinner := f.(fixture.fHomeWinner) |> <| fixture.fAwayWinner := f.(fixture.fAwayWinner) |>
    <| fixture.fLastPolledAt := timestamptz <$> f.(fixture.fLastPolledAt) |>
    <| fixture.fHomePenalty := f.(fixture.fHomePenalty) |>
    <| fixture.fAwayPenalty := f.(fixture.fAwayPenalty) |>.

Definition updateIngestFixtureTx (f : fixture.Fixture) : Tx unit :=
  updateFixture now f.(fixture.fID) (λ _, true) (ingestColumns f).

(** The columns a staging row takes from an observation. *)
Definition stagingColumns (f r : fixture.Fixture) : fixture.Fixture :=
  r <| fixture.fAPIStatus := f.(fixture.fAPIStatus) |>
    <| fixture.fKickoff := timestamptz f.(fixture.fKickoff) |>
    <| fixture.fHome := f.(fixture.fHome) |> <| fixture.fAway := f.(fixture.fAway) |>
    <| fixture.fLeague := f.(fixture.fLeague) |>
    <| fixture.fLastPolledAt := timestamptz <$> f.(fixture.fLastPolledAt) |>.

Definition isStaging (r : fixture.Fixture) : bool :=
  (r.(fixture.fState) =? fixture.StateStaging)%string.

Definition updateStagingFixtureTx (f : fixture.Fixture) : Tx unit :=
  updateFixture now f.(fixture.fID) isStaging (stagingColumns f).

Definition activationColumns (f r : fixture.Fixture) : fixture.Fixture :=
  stagingColumns f r <| fixture.fState := fixture.StateActive |>
    <| fixture.fActivatedAt := timestamptz <$> f.(fixture.fActivatedAt) |>.

Definition activateStagingFixtureTx (f : fixture.Fixture) (record : auditlog.Record_) : Tx unit :=
  if negb (f.(fixture.fState) =? fixture.StateActive)%string || is_nil f.(fixture.fActivatedAt) ||
    negb (record.(auditlog.rKind) =? auditlog.KindFixtureActivated)%string ||
    negb (record.(auditlog.rFixtureID) =? f.(fixture.fID))
  then fail "invalid guarded fixture activation"
  else
    _ ← updateFixture now f.(fixture.fID) isStaging (activationColumns f);
    insertAuditLog record.

(** [INSERT INTO fixtures]: the columns of fixtureArgs. *)
Definition newRow (f : fixture.Fixture) : fixture.Fixture :=
  f <| fixture.fKickoff ::= timestamptz |> <| fixture.fActivatedAt ::= fmap timestamptz |>
    <| fixture.fCompletedAt ::= fmap timestamptz |>
    <| fixture.fTerminalObservedAt ::= fmap timestamptz |>
    <| fixture.fLastActivityAt ::= fmap timestamptz |>
    <| fixture.fLastPolledAt ::= fmap timestamptz |>
    <| fixture.fCreatedAt := now |> <| fixture.fUpdatedAt := now |>.

Definition insertFixture (f : fixture.Fixture) : Tx unit :=
  if not_nil (fixture.ValidateInvariants f) then fail "fixture invariants"
  else
    let row := newRow f in
    old ← selectFixture f.(fixture.fID);
    _ ← require (is_nil old) "fixtures_pkey";
    _ ← require (fixtures_check row) "fixtures check";
    modify (setFixture f.(fixture.fID) row).

(** *** Event rows: the assignments of the statements *)

Definition insertedRow (initial : Z) (e : event.Event) : event.Event :=
  e <| event.eDebounceCount := initial |> <| event.eDownstreamTriggered := false |>
    <| event.eFirstSeenAt ::= timestamptz |> <| event.eRemovedAt ::= fmap timestamptz |>.

Definition voteUp (e : event.Event) : event.Event :=
  e <| event.eDebounceCount := Z.min (e.(event.eDebounceCount) + 1) 3 |>.

Definition voteDown (e : event.Event) : event.Event :=
  e <| event.eDebounceCount := Z.max (e.(event.eDebounceCount) - 1) 0 |>.

Definition trigger (e : event.Event) : event.Event := e <| event.eDownstreamTriggered := true |>.

Definition removeVAR (e : event.Event) : event.Event :=
  e <| event.eRemoved := true |> <| event.eRemovedReason := Some event.RemovalVAR |>
    <| event.eRemovedAt := Some now |>.

Definition correctFields (fresh e : event.Event) : event.Event :=
  e <| event.eAssist := fresh.(event.eAssist) |> <| event.eMinute := fresh.(event.eMinute) |>
    <| event.eExtra := fresh.(event.eExtra) |> <| event.eDetail := fresh.(event.eDetail) |>.

Definition coalesce {A} (stored fresh : option A) : option A :=
  if not_nil stored then stored else fresh.

Definition fillAssist (assist : event.Player) (e : event.Event) : event.Event :=
  e <| event.eAssist := event.mkPlayer (coalesce e.(event.eAssist).(event.pID) assist.(event.pID))
    (coalesce e.(event.eAssist).(event.pName) assist.(event.pName)) |>.

(** An assist column is empty and the observation fills it. *)
Definition assistMissing (assist : event.Player) (e : event.Event) : bool :=
  (is_nil e.(event.eAssist).(event.pID) && not_nil assist.(event.pID)) ||
  (is_nil e.(event.eAssist).(event.pName) && not_nil assist.(event.pName)).

Definition insertScope (fixtureID : Z) (op : PlannedEventInsert) : bool :=
  match op.(piEvent) with
  | None => false
  | Some e =>
      (e.(event.eFixtureID) =? fixtureID) &&
      match op.(piAudit) with
      | None => true
      | Some a => (a.(auditlog.rFixtureID) =? fixtureID) &&
          bool_decide (a.(auditlog.rEventID) = Some e.(event.eID))
      end
  end.

Definition auditScope (fixtureID : Z) (id : UUID) (a : auditlog.Record_) : bool :=
  (a.(auditlog.rFixtureID) =? fixtureID) && bool_decide (a.(auditlog.rEventID) = Some id).

Definition updateScope (fixtureID : Z) (op : PlannedEventUpdate) : bool :=
  match op.(puFresh) with None => false | Some e => e.(event.eFixtureID) =? fixtureID end.

(** [updateKeys]: a later update of the same event overwrites an earlier one. *)
Definition updateKeys (ops : list PlannedEventUpdate) : gmap UUID string :=
  foldl (λ m op, match op.(puFresh) with
    | Some e => <[op.(puEventID) := e.(event.eNaturalKey)]> m | None => m end) ∅ ops.

Definition addID (ids : list UUID) (id : UUID) : list UUID :=
  if bool_decide (id ∈ ids) then ids else ids ++ [id].

Definition checkScope (fixtureID : Z) (keys : gmap UUID string) (id : UUID) : Tx unit :=
  e ← selectEvent id;
  match e with
  | None => fail "lock planned event"
  | Some e =>
      _ ← require (e.(event.eFixtureID) =? fixtureID) "planned event belongs to another fixture";
      require (match keys !! id with
               | Some k => (k =? e.(event.eNaturalKey))%string | None => true end)
        "planned event identity changed"
  end.

Definition validateActiveEventScope (fixtureID : Z) (plan : ActiveMutationPlan)
    (policy : MutationPolicy) : Tx unit :=
  let trusted := (policy =? PolicyTrusted)%string in
  _ ← require (forallb (insertScope fixtureID) plan.(apInserts)) "planned event insert";
  _ ← require (forallb (λ op, auditScope fixtureID op.(ppEventID) op.(ppAudit)) plan.(apPresences))
    "planned event presence audit";
  _ ← require (forallb (updateScope fixtureID) plan.(apUpdates)) "planned event update";
  _ ← require (negb trusted ||
      forallb (λ op, auditScope fixtureID op.(paEventID) op.(paAudit)) plan.(apAbsences))
    "planned event absence audit";
  let ids := foldl addID [] ((ppEventID <$> plan.(apPresences)) ++ (puEventID <$> plan.(apUpdates)) ++
    (if trusted then (paEventID <$> plan.(apAbsences)) ++ plan.(apUnknownDeletes) else [])) in
  each (λ _, checkScope fixtureID (updateKeys plan.(apUpdates))) tt ids.

Definition insertPlannedEvent (workflowID : string) (op : PlannedEventInsert) : Tx unit :=
  match op.(piEvent) with
  | None => fail "invalid planned event insert"
  | Some e =>
      if (e.(event.eFixtureID) <=? 0) || (workflowID =? "")%string
      then fail "invalid planned event insert"
      else if not_nil (event.ValidateInvariants e) then fail "event invariants"
      else
        let initial := if event.Known e.(event.ePlayer) then 1 else 0 in
        _ ← insertEvent now (insertedRow initial e);
        _ ← (if 0 <? initial then
               isNew ← insertMonitorVote e.(event.eID) workflowID;
               require isNew "event_monitor_workflows_pkey"
             else mret tt);
        match op.(piAudit) with
        | None => mret tt
        | Some a =>
            if (initial =? 0) || negb (auditlog.Valid a) ||
              negb (a.(auditlog.rKind) =? auditlog.KindEventDetected)%string ||
              negb (bool_decide (a.(auditlog.rEventID) = Some e.(event.eID)))
            then fail "invalid event detected audit"
            else insertAuditLog a
        end
  end.

(** The audit of a transition of event [id]. *)
Definition auditFor (kind : auditlog.Kind) (id : UUID) (a : auditlog.Record_) : bool :=
  auditlog.Valid a && (a.(auditlog.rKind) =? kind)%string &&
  bool_decide (a.(auditlog.rEventID) = Some id).

(** Whether this vote triggered the downstream search. *)
Definition registerPresenceTx (workflowID : string) (op : PlannedEventPresence) : Tx bool :=
  let id := op.(ppEventID) in
  inserted ← insertMonitorVote id workflowID;
  if negb inserted then mret false
  else
    e ← updateEvent now id (λ e, negb e.(event.eRemoved)) voteUp;
    match e with
    | None => fail "no rows in result set"
    | Some e =>
        if negb (e.(event.eDebounceCount) =? 3) || e.(event.eDownstreamTriggered) then mret false
        else
          flipped ← updateEvent now id (λ e, negb e.(event.eDownstreamTriggered)) trigger;
          _ ← require (not_nil flipped) "no rows in result set";
          _ ← require (auditFor auditlog.KindEventStable id op.(ppAudit)) "invalid event stable audit";
          _ ← insertAuditLog op.(ppAudit);
          _ ← insertDownstream id "discovery" ("event-" +:+ uuid_String id);
          mret true
    end.

(** Whether a row changed. *)
Definition updateEventFieldsTx (op : PlannedEventUpdate) (policy : MutationPolicy) : Tx bool :=
  match op.(puFresh) with
  | None => fail "nil event update"
  | Some fresh =>
      let assist := fresh.(event.eAssist) in
      if (policy =? PolicyTrusted)%string then
        e ← updateEvent now op.(puEventID) (λ e, event.MutableFieldsChanged e fresh)
          (correctFields fresh);
        mret (not_nil e)
      else
        e ← updateEvent now op.(puEventID) (assistMissing assist) (fillAssist assist);
        mret (not_nil e)
  end.

(** Whether this vote removed the event. *)
Definition registerAbsenceTx (workflowID : string) (op : PlannedEventAbsence) : Tx bool :=
  let id := op.(paEventID) in
  inserted ← insertDropVote id workflowID;
  if negb inserted then mret false
  else
    e ← updateEvent now id (λ _, true) voteDown;
    match e with
    | None => fail "no rows in result set"
    | Some e =>
        if negb (e.(event.eDebounceCount) =? 0) || e.(event.eRemoved) then mret false
        else
          _ ← updateEvent now id (λ e, negb e.(event.eRemoved)) removeVAR;
          _ ← terminalizePendingCandidatesForRemovedEvent clock id "" (UTC clock);
          _ ← closeDownstream now id event.OutcomeEventRemoved;
          _ ← require (auditFor auditlog.KindEventRemoved id op.(paAudit)) "invalid event removal audit";
          _ ← insertAuditLog op.(paAudit);
          mret true
    end.

(** [DELETE FROM events WHERE id = .. AND fixture_id = .. AND debounce_count = 0]:
    whether the row was there. *)
Definition deletePlaceholder (fixtureID : Z) (id : UUID) : Tx bool :=
  e ← selectEvent id;
  match e with
  | Some e =>
      if (e.(event.eFixtureID) =? fixtureID) && (e.(event.eDebounceCount) =? 0)
      then _ ← modify (cascadeEvent id); mret true
      else mret false
  | None => mret false
  end.

(** *** Completion *)

Definition terminalStatuses : list string := ["ft"; "aet"; "pen"; "canc"; "abd"; "wo"; "awd"].

(** An event that may still be confirmed. *)
Definition unsettled (fixtureID : Z) (e : event.Event) : bool :=
  (e.(event.eFixtureID) =? fixtureID) && negb e.(event.eRemoved) &&
  negb e.(event.eDownstreamTriggered) && (0 <? e.(event.eDebounceCount)).

(** A checklist row of the fixture's events that is still open. *)
Definition openRow (fixtureID : Z) (events : gmap UUID event.Event)
    (kd : (UUID * string * string) * Downstream) : bool :=
  is_nil kd.2.(dsCompletedAt) &&
  match events !! kd.1.1.1 with Some e => e.(event.eFixtureID) =? fixtureID | None => false end.

Definition completionReady (f : fixture.Fixture) (terminalBefore : Time)
    (events : gmap UUID event.Event) (rows : gmap (UUID * string * string) Downstream) : bool :=
  (f.(fixture.fState) =? fixture.StateActive)%string &&
  one_of f.(fixture.fAPIStatus).(fixture.Short) terminalStatuses &&
  match f.(fixture.fTerminalObservedAt) with
  | None => false
  | Some at_ => at_ <=? timestamptz terminalBefore
  end &&
  negb (existsb (λ ke, unsettled f.(fixture.fID) ke.2) (map_to_list events)) &&
  negb (existsb (openRow f.(fixture.fID) events) (map_to_list rows)).

(** [COUNT( * )] of the goals of a team that stand. *)
Definition countGoals (fixtureID team : Z) (events : gmap UUID event.Event) : Z :=
  Z.of_nat (length (filter (λ ke : UUID * event.Event,
    (ke.2.(event.eFixtureID) =? fixtureID) && (ke.2.(event.eType) =? event.TypeGoal)%string &&
    (ke.2.(event.eTeam).(event.tID) =? team) && negb ke.2.(event.eRemoved) = true)
    (map_to_list events))).

Definition scoreParity (f : fixture.Fixture) (events : gmap UUID event.Event) : option bool :=
  if one_of f.(fixture.fAPIStatus).(fixture.Short) ["canc"; "abd"; "wo"; "awd"] then None
  else
    let counts (score : option Z) (team : fixture.Team) :=
      match score with
      | None => false
      | Some n => n =? countGoals f.(fixture.fID) team.(fixture.tID) events
      end in
    Some (counts f.(fixture.fHomeScore) f.(fixture.fHome) &&
          counts f.(fixture.fAwayScore) f.(fixture.fAway)).

Definition penaltyDecided (f : fixture.Fixture) : option bool :=
  if (f.(fixture.fAPIStatus).(fixture.Short) =? StatusPenaltyDone)%string then
    Some match f.(fixture.fHomePenalty), f.(fixture.fAwayPenalty) with
         | Some h, Some a => negb (h =? a) | _, _ => false end
  else None.

Definition completeRow (at_ : Time) (r : fixture.Fixture) : fixture.Fixture :=
  r <| fixture.fState := fixture.StateCompleted |>
    <| fixture.fCompletedAt := Some (timestamptz at_) |>.

(** Whether the fixture completed. *)
Definition completeFixtureIfReadyTx (f : fixture.Fixture) (plan : CompletionPlan) : Tx bool :=
  if IsZero plan.(cnTerminalBefore) || IsZero plan.(cnCompletedAt) || (plan.(cnGraceSeconds) <=? 0)
  then mret false
  else
    row ← lockedFixture f.(fixture.fID);
    events ← query dbEvents;
    rows ← query dbDownstream;
    if negb (completionReady row plan.(cnTerminalBefore) events rows) then mret false
    else
      match f.(fixture.fTerminalObservedAt) with
      | None => fail "completion-ready fixture lacks terminal observation"
      | Some terminalAt =>
          record ← lift (match auditlog.New auditlog.KindFixtureCompleted None f.(fixture.fID)
              (auditlog.fixtureCompleted (auditlog.mkFixtureCompletedPayload f.(fixture.fID)
                terminalAt plan.(cnCompletedAt) plan.(cnGraceSeconds)
                plan.(cnProviderScoreEventParity) (scoreParity row events) (penaltyDecided f)))
            with Some r => inr r | None => inl "audit record" end);
          _ ← updateFixture now f.(fixture.fID) isActive (completeRow plan.(cnCompletedAt));
          _ ← insertAuditLog record;
          mret true
      end.

(** ** ApplyActive *)

Definition applyInsert (workflowID : string) (out : MutationResult) (op : PlannedEventInsert)
    : Tx MutationResult :=
  _ ← insertPlannedEvent workflowID op;
  match op.(piEvent) with
  | None => mret out
  | Some e =>
      let out := out <| mrInsertedEventIDs ::= λ l, l ++ [e.(event.eID)] |> in
      let out := if event.Known e.(event.ePlayer)
        then out <| mrNewNamedEventIDs ::= λ l, l ++ [e.(event.eID)] |> else out in
      mret (out <| mrEventChanged := true |>)
  end.

Definition applyPresence (workflowID : string) (out : MutationResult) (op : PlannedEventPresence)
    : Tx MutationResult :=
  triggered ← registerPresenceTx workflowID op;
  mret (if triggered : bool
        then out <| mrStableEventIDs ::= λ l, l ++ [op.(ppEventID)] |> <| mrEventChanged := true |>
        else out).

Definition applyUpdate (policy : MutationPolicy) (out : MutationResult) (op : PlannedEventUpdate)
    : Tx MutationResult :=
  changed ← updateEventFieldsTx op policy;
  mret (out <| mrEventChanged ::= λ b, b || changed |>).

Definition applyDelete (fixtureID : Z) (out : MutationResult) (id : UUID) : Tx MutationResult :=
  deleted ← deletePlaceholder fixtureID id;
  mret (if deleted : bool
        then out <| mrUnknownDropped ::= λ n, n + 1 |> <| mrEventChanged := true |> else out).

Definition applyAbsence (workflowID : string) (out : MutationResult) (op : PlannedEventAbsence)
    : Tx MutationResult :=
  removed ← registerAbsenceTx workflowID op;
  mret (if removed : bool
        then out <| mrRemovedEventIDs ::= λ l, l ++ [op.(paEventID)] |> <| mrEventChanged := true |>
        else out).

(** The writes an accepted plan may make, given the locked row. *)
Definition applyActiveWrites (plan : ActiveMutationPlan) (f current : fixture.Fixture)
    (policy : MutationPolicy) (out : MutationResult) : Tx MutationResult :=
  _ ← validateActiveEventScope current.(fixture.fID) plan policy;
  let target := if (policy =? PolicyPositiveOnly)%string then mergePositiveFixture current f else f in
  _ ← updateActiveFixtureTx target;
  let out := out <| mrApplied := true |>
    <| mrFixtureChanged := fixturePubliclyChanged (Some current) (Some target) |> in
  out ← each (applyInsert plan.(apWorkflowID)) out plan.(apInserts);
  out ← each (applyPresence plan.(apWorkflowID)) out plan.(apPresences);
  out ← each (applyUpdate policy) out plan.(apUpdates);
  out ← (if (policy =? PolicyTrusted)%string then
           out ← each (applyDelete current.(fixture.fID)) out plan.(apUnknownDeletes);
           out ← each (applyAbsence plan.(apWorkflowID)) out plan.(apAbsences);
           completed ← completeFixtureIfReadyTx target plan.(apCompletion);
           mret (out <| mrCompleted := completed |> <| mrFixtureChanged ::= λ b, b || completed |>)
         else mret out);
  after ← lockedFixture current.(fixture.fID);
  mret (classifyMutationFixtureChanges (out <| mrFixture := Some after |>) (Some current)).

(** The plan no longer describes the row it was built from. *)
Definition activeStale (plan : ActiveMutationPlan) (current : fixture.Fixture)
    (providerAt : Time) (generation : Z) : bool :=
  negb plan.(apBaselineExists) || negb (current.(fixture.fState) =? fixture.StateActive)%string ||
  negb (sameOptionalTime current.(fixture.fLastPolledAt) plan.(apBaselineLastPolled)) ||
  negb (newerObservation plan.(apGuard).(ogObservedAt) current.(fixture.fLastPolledAt)) ||
  negb (providerAt =? plan.(apGuard).(ogObservedAt)) ||
  negb (generation =? plan.(apGuard).(ogExpectedGeneration)).

Definition healthReceiptMissing (plan : ActiveMutationPlan) (health : FixtureHealth) : bool :=
  plan.(apGuard).(ogRequireHealthReceipt) &&
  (negb (health.(hLastPollID) =? plan.(apGuard).(ogObservationID))%string ||
   negb (health.(hLastObservedAt) =? plan.(apGuard).(ogObservedAt))).

Definition ApplyActive (plan : ActiveMutationPlan) : Tx MutationResult :=
  if negb (EnforcementMode_Valid mode) then fail "invalid provider enforcement mode"
  else
    let plan := normalizeActiveMutationPlan plan in
    let guard := plan.(apGuard) in
    f ← lift (validateActiveMutationPlan plan);
    '(providerAt, generation, providerPolicy) ← lockProviderMutationPolicy;
    receipt ← loadMutationReceipt guard f.(fixture.fID);
    match receipt with
    | Some receipt => mret receipt
    | None =>
        current ← lockedFixture f.(fixture.fID);
        if activeStale plan current providerAt generation
        then commitStaleReceipt guard current.(fixture.fID) (Some current) generation
        else
          health ← loadFixtureHealth current.(fixture.fID);
          if healthReceiptMissing plan health
          then commitStaleReceipt guard current.(fixture.fID) (Some current) generation
          else
            let '(decision, policy) := DecideMutation mode providerPolicy
              (FixtureHealthPolicy health) plan.(apLocalPolicy) in
            let decision := decision <| mdWriter := MutationModeActive |>
              <| mdRestricted := restrictedActiveOperations plan f decision.(mdRecommendedPolicy) |> in
            let out := emptyResult <| mrDecision := Some decision |> <| mrPolicy := policy |> in
            out ← (if (policy =? PolicyRejected)%string
                   then mret (out <| mrFixture := Some current |>)
                   else applyActiveWrites plan f current policy out);
            commitMutationResult guard current.(fixture.fID) generation out
    end.

(** ** ApplyFixture *)

Definition fixtureStale (plan : FixtureMutationPlan) (current : option fixture.Fixture) : bool :=
  negb (Bool.eqb plan.(fpBaselineExists) (not_nil current)) ||
  match current with
  | None => false
  | Some c => negb (sameOptionalTime c.(fixture.fLastPolledAt) plan.(fpBaselineLastPolled)) ||
      negb (newerObservation plan.(fpGuard).(ogObservedAt) c.(fixture.fLastPolledAt))
  end.

(** The row an accepted observation proposes for an existing fixture. *)
Definition fixtureTarget (plan : FixtureMutationPlan) (f current : fixture.Fixture)
    (policy : MutationPolicy) : fixture.Fixture :=
  if (policy =? PolicyPositiveOnly)%string then
    let target := mergePositiveFixture current f in
    if (plan.(fpMode) =? MutationModeStaging)%string && plan.(fpActivate)
    then target <| fixture.fState := f.(fixture.fState) |>
                <| fixture.fActivatedAt := f.(fixture.fActivatedAt) |>
    else target
  else f.

(** [None]: the row left staging, the plan is stale. *)
Definition updateExistingFixture (plan : FixtureMutationPlan) (target current : fixture.Fixture)
    : Tx (option unit) :=
  if (plan.(fpMode) =? MutationModeIngest)%string then
    _ ← updateIngestFixtureTx (target <| fixture.fState := current.(fixture.fState) |>
      <| fixture.fActivatedAt := current.(fixture.fActivatedAt) |>
      <| fixture.fCompletedAt := current.(fixture.fCompletedAt) |>
      <| fixture.fTerminalObservedAt := current.(fixture.fTerminalObservedAt) |>);
    mret (Some tt)
  else if (plan.(fpMode) =? MutationModeStaging)%string then
    if negb (current.(fixture.fState) =? fixture.StateStaging)%string then mret None
    else if plan.(fpActivate) then
      match plan.(fpActivationAudit) with
      | None => fail "activation audit is required"
      | Some record =>
          _ ← require (auditlog.Valid record) "activation audit is required";
          _ ← activateStagingFixtureTx target record;
          mret (Some tt)
      end
    else
      _ ← updateStagingFixtureTx target;
      mret (Some tt)
  else fail "unsupported fixture mutation mode".

(** The writes of an accepted plan: [None] when it turned out stale. *)
Definition applyFixtureWrites (plan : FixtureMutationPlan) (f : fixture.Fixture)
    (current : option fixture.Fixture) (policy : MutationPolicy) (out : MutationResult)
    : Tx (option MutationResult) :=
  applied ←
    match current with
    | None => _ ← insertFixture f; mret (Some tt)
    | Some c => updateExistingFixture plan (fixtureTarget plan f c policy) c
    end;
  match applied with
  | None => mret None
  | Some _ =>
      after ← lockedFixture f.(fixture.fID);
      mret (Some (classifyMutationFixtureChanges
        (out <| mrApplied := true |> <| mrFixture := Some after |>) current))
  end.

Definition ApplyFixture (plan : FixtureMutationPlan) : Tx MutationResult :=
  if negb (EnforcementMode_Valid mode) then fail "invalid provider enforcement mode"
  else
    let plan := normalizeFixtureMutationPlan plan in
    let guard := plan.(fpGuard) in
    f ← lift (validateFixtureMutationPlan plan);
    '(_, generation, providerPolicy) ← lockProviderMutationPolicy;
    receipt ← loadMutationReceipt guard f.(fixture.fID);
    match receipt with
    | Some receipt => mret receipt
    | None =>
        current ← selectFixture f.(fixture.fID);
        if fixtureStale plan current
        then commitStaleReceipt guard f.(fixture.fID) current generation
        else
          fixturePolicy ← match current with
            | None => mret PolicyTrusted
            | Some c => health ← loadFixtureHealth c.(fixture.fID); mret (FixtureHealthPolicy health)
            end;
          let '(decision, policy) := DecideMutation mode providerPolicy fixturePolicy
            plan.(fpLocalPolicy) in
          let decision := decision <| mdWriter := plan.(fpMode) |>
            <| mdRestricted := restrictedFixtureOperations plan decision.(mdRecommendedPolicy) |> in
          let out := emptyResult <| mrDecision := Some decision |> <| mrPolicy := policy |> in
          if (policy =? PolicyRejected)%string
          then commitMutationResult guard f.(fixture.fID) generation (out <| mrFixture := current |>)
          else
            applied ← applyFixtureWrites plan f current policy out;
            match applied with
            | None => commitStaleReceipt guard f.(fixture.fID) current generation
            | Some out => commitMutationResult guard f.(fixture.fID) generation out
            end
    end.

End transaction.

End boundary.
