(* ===== verification/Commit.v ===== *)
(** What one commit of the guarded write boundary may do to the tables, as a step
    relation ([write]), the proof that both transactions of Mutation.v refine it,
    and the guarantees that follow for one commit and for any interleaving of
    commits. *)
From S2P Require Import Prelude GoStrings ApiFootball Fixture Event Integrity Health Auditlog Presentation Plan Store Mutation.
#[local] Open Scope string_scope.
#[local] Open Scope list_scope.
#[local] Open Scope Z_scope.
Import apifootball providerintegrity health mutation pg boundary.

Module commit.

(** ** Rows *)

(** [r'] repeats or extends what [r] knows: no score is lost, no identity
    changes, a name is only filled in, and the completion clock stands. *)
Definition team_grows (t t' : fixture.Team) : Prop :=
  t'.(fixture.tID) = t.(fixture.tID) ∧
  (t.(fixture.tName) ≠ "" → t'.(fixture.tName) = t.(fixture.tName)).

Record fixture_grows (r r' : fixture.Fixture) : Prop := {
  fg_home_score : option_le r.(fixture.fHomeScore) r'.(fixture.fHomeScore);
  fg_away_score : option_le r.(fixture.fAwayScore) r'.(fixture.fAwayScore);
  fg_home_penalty : option_le r.(fixture.fHomePenalty) r'.(fixture.fHomePenalty);
  fg_away_penalty : option_le r.(fixture.fAwayPenalty) r'.(fixture.fAwayPenalty);
  fg_home : team_grows r.(fixture.fHome) r'.(fixture.fHome);
  fg_away : team_grows r.(fixture.fAway) r'.(fixture.fAway);
  fg_league : r'.(fixture.fLeague).(fixture.lID) = r.(fixture.fLeague).(fixture.lID);
  fg_terminal : timestamptz <$> r'.(fixture.fTerminalObservedAt) =
    timestamptz <$> r.(fixture.fTerminalObservedAt) }.

(** The lifecycle columns that a refresh leaves alone; the completion clock only
    moves while the fixture is active. *)
Record same_lifecycle (r r' : fixture.Fixture) : Prop := {
  sl_id : r'.(fixture.fID) = r.(fixture.fID);
  sl_state : r'.(fixture.fState) = r.(fixture.fState);
  sl_activated : r'.(fixture.fActivatedAt) = r.(fixture.fActivatedAt);
  sl_completed : r'.(fixture.fCompletedAt) = r.(fixture.fCompletedAt);
  sl_terminal : r.(fixture.fState) ≠ fixture.StateActive →
    r'.(fixture.fTerminalObservedAt) = r.(fixture.fTerminalObservedAt) }.

Inductive fixture_write (trusted : bool) : relation fixture.Fixture :=
  | fw_refresh r r' :
      same_lifecycle r r' → (trusted = false → fixture_grows r r') →
      fixture_write trusted r r'
  | fw_activate r r' :
      r.(fixture.fState) = fixture.StateStaging → r'.(fixture.fState) = fixture.StateActive →
      r'.(fixture.fID) = r.(fixture.fID) → (trusted = false → fixture_grows r r') →
      fixture_write trusted r r'
  | fw_complete r r' :
      trusted = true → r.(fixture.fState) = fixture.StateActive →
      r'.(fixture.fState) = fixture.StateCompleted → r'.(fixture.fID) = r.(fixture.fID) →
      r'.(fixture.fActivatedAt) = r.(fixture.fActivatedAt) → is_Some r.(fixture.fTerminalObservedAt) → fixture_write trusted r r'.

(** [p'] keeps what [p] says of an assisting player. *)
Definition fills (p p' : event.Player) : Prop :=
  (is_Some p.(event.pID) → p'.(event.pID) = p.(event.pID)) ∧
  (is_Some p.(event.pName) → p'.(event.pName) = p.(event.pName)).

Inductive event_write (trusted : bool) (now : Time) : relation event.Event :=
  | ew_vote e :
      e.(event.eRemoved) = false → event_write trusted now e (stampEvent now (voteUp e))
  | ew_trigger e :
      e.(event.eRemoved) = false → e.(event.eDownstreamTriggered) = false →
      e.(event.eDebounceCount) = 3 → event_write trusted now e (stampEvent now (trigger e))
  | ew_assist e assist : event_write trusted now e (stampEvent now (fillAssist assist e))
  | ew_correct e fresh :
      trusted = true → event_write trusted now e (stampEvent now (correctFields fresh e))
  | ew_drop e : trusted = true → event_write trusted now e (stampEvent now (voteDown e))
  | ew_remove e :
      trusted = true → e.(event.eDebounceCount) = 0 → e.(event.eRemoved) = false →
      event_write trusted now e (stampEvent now (removeVAR now e)).

(** ** Tables *)

(** Every row [id] names, if it is there, belongs to fixture [F]. *)
Definition owned (F : Z) (id : UUID) (db : DB) : Prop :=
  ∀ e, dbEvents db !! id = Some e → e.(event.eFixtureID) = F.

(** One statement of a commit for fixture [F] under a trusted or a restricted
    policy. *)
Inductive write (F : Z) (trusted : bool) (now : Time) : relation DB :=
  | w_insert_fixture db r :
      dbFixtures db !! F = None → r.(fixture.fID) = F → fixtures_check r = true →
      write F trusted now db (setFixture F r db)
  | w_fixture db r r' :
      dbFixtures db !! F = Some r → fixture_write trusted r r' → fixtures_check r' = true →
      write F trusted now db (setFixture F r' db)
  | w_insert_event db e :
      is_Some (dbFixtures db !! F) → dbEvents db !! e.(event.eID) = None →
      e.(event.eFixtureID) = F → events_check e = true →
      (∀ id x, dbEvents db !! id = Some x → x.(event.eFixtureID) = F →
         x.(event.eNaturalKey) ≠ e.(event.eNaturalKey)) →
      write F trusted now db (setEvent e.(event.eID) e db)
  | w_event db id e e' :
      dbEvents db !! id = Some e → e.(event.eFixtureID) = F → event_write trusted now e e' →
      events_check e' = true → write F trusted now db (setEvent id e' db)
  | w_delete db id e :
      trusted = true → dbEvents db !! id = Some e → e.(event.eFixtureID) = F →
      e.(event.eDebounceCount) = 0 → write F trusted now db (cascadeEvent id db)
  | w_vote db id w e :
      dbEvents db !! id = Some e → e.(event.eFixtureID) = F →
      write F trusted now db (addMonitorVote id w db)
  | w_drop_vote db id w e :
      trusted = true → dbEvents db !! id = Some e → e.(event.eFixtureID) = F →
      write F trusted now db (addDropVote id w db)
  | w_downstream db id t w e :
      dbEvents db !! id = Some e → e.(event.eFixtureID) = F →
      dbDownstream db !! (id, t, w) = None → write F trusted now db (addDownstream id t w db)
  | w_close db id outcome e :
      trusted = true → dbEvents db !! id = Some e → e.(event.eFixtureID) = F →
      write F trusted now db (closeRows now id outcome db)
  | w_terminalize db id at_ e :
      trusted = true → dbEvents db !! id = Some e → e.(event.eFixtureID) = F →
      write F trusted now db (rejectPending id "" at_ db)
  | w_log db r :
      auditlog.Valid r = true → r.(auditlog.rFixtureID) = F →
      write F trusted now db (appendLog r db).

(** The bookkeeping that ends every call: its receipt, and the expiry of old
    ones. *)
Inductive settle (F : Z) : relation DB :=
  | st_receipt db obs r :
      is_Some (dbFixtures db !! F) → dbReceipts db !! (obs, F) = None →
      0 ≤ r.(rcHealthGeneration) → settle F db (addReceipt (obs, F) r db)
  | st_expire db keys : settle F db (deleteReceipts keys db).

(** Keys, checks, references and uniqueness, as schema.sql declares them. *)
Record db_ok (db : DB) : Prop := {
  ok_fixture i f : dbFixtures db !! i = Some f → f.(fixture.fID) = i ∧ fixtures_check f = true;
  ok_event id e : dbEvents db !! id = Some e →
    e.(event.eID) = id ∧ events_check e = true ∧ is_Some (dbFixtures db !! e.(event.eFixtureID));
  ok_natural_key i1 i2 e1 e2 : dbEvents db !! i1 = Some e1 → dbEvents db !! i2 = Some e2 →
    e1.(event.eFixtureID) = e2.(event.eFixtureID) →
    e1.(event.eNaturalKey) = e2.(event.eNaturalKey) → i1 = i2;
  ok_monitor id w : (id, w) ∈ dbMonitorVotes db → is_Some (dbEvents db !! id);
  ok_drop id w : (id, w) ∈ dbDropVotes db → is_Some (dbEvents db !! id);
  ok_downstream k d : dbDownstream db !! k = Some d → is_Some (dbEvents db !! k.1.1);
  ok_candidate k c : dbCandidates db !! k = Some c →
    ∃ e, dbEvents db !! k.1 = Some e ∧ e.(event.eFixtureID) = c.(cdFixtureID);
  ok_download k o : dbDownloads db !! k = Some o → is_Some (dbEvents db !! k.1);
  ok_receipt o i r : dbReceipts db !! (o, i) = Some r →
    is_Some (dbFixtures db !! i) ∧ 0 ≤ r.(rcHealthGeneration) }.

(** ** What a vote does *)

Section votes.
Context (now clock : Time) (uuid_String : UUID → string) (wf : string) (id : UUID)
  (audit : auditlog.Record_).

Definition downstreamName : string := "event-" +:+ uuid_String id.

Definition ensureDownstream (db : DB) : DB :=
  match dbDownstream db !! (id, "discovery", downstreamName) with
  | Some _ => db
  | None => addDownstream id "discovery" downstreamName db
  end.

Lemma insertDownstream_ensure u db db' :
  insertDownstream id "discovery" downstreamName db = inr (u, db') → db' = ensureDownstream db.
Proof.
  unfold ensureDownstream. intros [(-> & [? ->])|(-> & _ & ->)]%insertDownstream_inv; done.
Qed.

(** A presence vote repeats, counts, or counts and triggers the search. *)
Inductive presence_outcome (db : DB) : bool → DB → Prop :=
  | po_repeat : (id, wf) ∈ dbMonitorVotes db → presence_outcome db false db
  | po_vote e :
      (id, wf) ∉ dbMonitorVotes db → dbEvents db !! id = Some e → e.(event.eRemoved) = false →
      events_check (stampEvent now (voteUp e)) = true →
      (voteUp e).(event.eDebounceCount) ≠ 3 ∨ e.(event.eDownstreamTriggered) = true →
      presence_outcome db false
        (setEvent id (stampEvent now (voteUp e)) (addMonitorVote id wf db))
  | po_trigger e :
      (id, wf) ∉ dbMonitorVotes db → dbEvents db !! id = Some e → e.(event.eRemoved) = false →
      events_check (stampEvent now (voteUp e)) = true →
      (voteUp e).(event.eDebounceCount) = 3 → e.(event.eDownstreamTriggered) = false →
      auditFor auditlog.KindEventStable id audit = true →
      presence_outcome db true (ensureDownstream (appendLog audit
        (setEvent id (stampEvent now (trigger (stampEvent now (voteUp e))))
          (setEvent id (stampEvent now (voteUp e)) (addMonitorVote id wf db))))).

Lemma registerPresenceTx_outcome b db db' :
  registerPresenceTx now uuid_String wf (mkPlannedEventPresence id audit) db = inr (b, db') →
  presence_outcome db b db'.
Proof.
  unfold registerPresenceTx. cbn [ppEventID ppAudit]. intros H. tx_inv.
  match goal with H : insertMonitorVote _ _ _ = _ |- _ =>
    apply insertMonitorVote_inv in H as [(-> & -> & Hin)|(-> & Hnin & _ & ->)] end;
    cbn [negb] in *; tx_inv; [by constructor|].
  match goal with H : updateEvent _ _ _ _ _ = _ |- _ =>
    apply updateEvent_inv in H as [(-> & _)|(e & He & Hr & Hc & -> & ->)] end; tx_inv.
  apply negb_true_iff in Hr. cbn in He.
  destruct (negb _ || _) eqn:E; tx_inv.
  - apply po_vote; try done. simpl_bools. naive_solver.
  - apply orb_false_iff in E as [E1 E2]. apply negb_false_iff, Z.eqb_eq in E1.
    match goal with H : updateEvent _ _ _ _ _ = _ |- _ =>
      apply updateEvent_inv in H as [(-> & _ & _)|(e2 & He2 & _ & _ & -> & ->)] end; [done|].
    cbn in He2. rewrite lookup_insert_eq in He2. injection He2 as <-.
    match goal with H : insertAuditLog _ _ = _ |- _ => apply insertAuditLog_inv in H as [_ ->] end.
    match goal with H : insertDownstream _ _ _ _ = _ |- _ =>
      apply insertDownstream_ensure in H as -> end.
    by apply po_trigger.
Qed.

(** An absence vote repeats, counts, or counts and removes the event. *)
Inductive absence_outcome (db : DB) : bool → DB → Prop :=
  | ao_repeat : (id, wf) ∈ dbDropVotes db → absence_outcome db false db
  | ao_vote e :
      (id, wf) ∉ dbDropVotes db → dbEvents db !! id = Some e →
      events_check (stampEvent now (voteDown e)) = true →
      (voteDown e).(event.eDebounceCount) ≠ 0 ∨ e.(event.eRemoved) = true →
      absence_outcome db false
        (setEvent id (stampEvent now (voteDown e)) (addDropVote id wf db))
  | ao_remove e at_ :
      (id, wf) ∉ dbDropVotes db → dbEvents db !! id = Some e →
      events_check (stampEvent now (voteDown e)) = true →
      (voteDown e).(event.eDebounceCount) = 0 → e.(event.eRemoved) = false →
      auditFor auditlog.KindEventRemoved id audit = true →
      events_check (stampEvent now (removeVAR now (stampEvent now (voteDown e)))) = true →
      absence_outcome db true (appendLog audit (closeRows now id event.OutcomeEventRemoved
        (rejectPending id "" at_
          (setEvent id (stampEvent now (removeVAR now (stampEvent now (voteDown e))))
            (setEvent id (stampEvent now (voteDown e)) (addDropVote id wf db)))))).

Lemma registerAbsenceTx_outcome b db db' :
  registerAbsenceTx now clock wf (mkPlannedEventAbsence id audit) db = inr (b, db') →
  absence_outcome db b db'.
Proof.
  unfold registerAbsenceTx, terminalizePendingCandidatesForRemovedEvent, closeDownstream.
  cbn [paEventID paAudit]. intros H. tx_inv.
  match goal with H : insertDropVote _ _ _ = _ |- _ =>
    apply insertDropVote_inv in H as [(-> & -> & Hin)|(-> & Hnin & _ & ->)] end;
    cbn [negb] in *; tx_inv; [by constructor|].
  match goal with H : updateEvent _ _ _ _ _ = _ |- _ =>
    apply updateEvent_inv in H as [(-> & _)|(e & He & _ & Hc & -> & ->)] end; tx_inv.
  cbn in He. destruct (negb _ || _) eqn:E; tx_inv.
  - apply ao_vote; try done. simpl_bools. naive_solver.
  - apply orb_false_iff in E as [E1 E2]. apply negb_false_iff, Z.eqb_eq in E1.
    match goal with H : updateEvent _ _ _ _ _ = _ |- _ =>
      apply updateEvent_inv in H as [(_ & _ & Hw)|(e2 & He2 & _ & Hc2 & _ & ->)] end.
    { exfalso. specialize (Hw (stampEvent now (voteDown e))). cbn in Hw, E2.
      rewrite lookup_insert_eq, E2 in Hw. by specialize (Hw eq_refl). }
    cbn in He2. rewrite lookup_insert_eq in He2. injection He2 as <-.
    match goal with H : insertAuditLog _ _ = _ |- _ => apply insertAuditLog_inv in H as [_ ->] end.
    by apply ao_remove.
Qed.

End votes.

(** ** The merged observation *)

Lemma UpdateResult_winners f ph pa :
  ∃ h a, fixture.UpdateResult f ph pa = f <| fixture.fHomeWinner := h |> <| fixture.fAwayWinner := a |>.
Proof. unfold fixture.UpdateResult. repeat case_match; by eexists _, _. Qed.

Lemma monotonicInt_le c o : option_le c (monotonicInt c o).
Proof.
  unfold monotonicInt, option_le. destruct c as [m|]; [|done].
  destruct o as [n|]; [destruct (Z.ltb_spec n m)|]; eexists; (split; [done|lia]).
Qed.

Lemma fillTeam_grows c o : team_grows c (fillTeam c o).
Proof.
  unfold fillTeam, team_grows. destruct (_ && _) eqn:E; [|done].
  apply andb_true_iff in E as [_ E%String.eqb_eq]. by simpl.
Qed.

(** What a merge keeps of the stored row. *)
Record merge_keeps (c m : fixture.Fixture) : Prop := {
  mk_id : m.(fixture.fID) = c.(fixture.fID);
  mk_state : m.(fixture.fState) = c.(fixture.fState);
  mk_activated : m.(fixture.fActivatedAt) = c.(fixture.fActivatedAt);
  mk_completed : m.(fixture.fCompletedAt) = c.(fixture.fCompletedAt);
  mk_terminal : m.(fixture.fTerminalObservedAt) = c.(fixture.fTerminalObservedAt);
  mk_grows : fixture_grows c m }.

Lemma merge_kept c o : merge_keeps c (mergePositiveFixture c o).
Proof.
  unfold mergePositiveFixture. destruct (blocksClock c o).
  - match goal with |- context [fixture.UpdateResult ?f ?x ?y] =>
      destruct (UpdateResult_winners f x y) as (h & a & ->) end.
    split; try done. split; cbn; auto using monotonicInt_le, fillTeam_grows.
    unfold fillLeague. by case_match.
  - match goal with |- context [fixture.UpdateResult ?f ?x ?y] =>
      destruct (UpdateResult_winners f x y) as (h & a & ->) end.
    destruct (not_nil _).
    all: split; try done; split; cbn; auto using monotonicInt_le, fillTeam_grows.
    all: unfold fillLeague; by case_match.
Qed.

Lemma timestamptz_idemp t : timestamptz (timestamptz t) = timestamptz t.
Proof. unfold timestamptz, Truncate, time_Microsecond. pose proof (Z.div_mod t 1000).
  replace (t - t mod 1000) with (t / 1000 * 1000) by lia. rewrite Z.mod_mul by lia. lia. Qed.

Lemma timestamptz_fmap_idemp (t : option Time) :
  timestamptz <$> (timestamptz <$> t) = timestamptz <$> t.
Proof. destruct t; simpl; [|done]. f_equal. apply timestamptz_idemp. Qed.

Lemma team_grows_refl t : team_grows t t.
Proof. done. Qed.

Lemma option_le_refl s : option_le s s.
Proof. destruct s; [|done]. eexists. by split. Qed.

(** The rows the three updates write from a merged observation. *)
Lemma active_grows now c m :
  merge_keeps c m → fixture_grows c (stampFixture now (activeColumns m c)).
Proof.
  intros [_ _ _ _ Ht []]. split; try done. cbn. by rewrite Ht, timestamptz_fmap_idemp.
Qed.

Lemma ingest_grows now c m :
  fixture_grows c m → fixture_grows c (stampFixture now (ingestColumns m c)).
Proof. by intros []; split. Qed.

Lemma staging_grows c m r :
  fixture_grows c m → r.(fixture.fHomeScore) = c.(fixture.fHomeScore) →
  r.(fixture.fAwayScore) = c.(fixture.fAwayScore) →
  r.(fixture.fHomePenalty) = c.(fixture.fHomePenalty) →
  r.(fixture.fAwayPenalty) = c.(fixture.fAwayPenalty) →
  r.(fixture.fTerminalObservedAt) = c.(fixture.fTerminalObservedAt) →
  r.(fixture.fHome) = m.(fixture.fHome) → r.(fixture.fAway) = m.(fixture.fAway) →
  r.(fixture.fLeague) = m.(fixture.fLeague) → fixture_grows c r.
Proof.
  intros [] E1 E2 E3 E4 E5 E6 E7 E8. split; rewrite ?E1, ?E2, ?E3, ?E4, ?E5, ?E6, ?E7, ?E8;
    auto using option_le_refl.
Qed.

(** ** What completion does *)

Record completion (now : Time) (f : fixture.Fixture) (plan : CompletionPlan) (db db' : DB)
    (row : fixture.Fixture) (record : auditlog.Record_) : Prop := {
  co_row : dbFixtures db !! f.(fixture.fID) = Some row;
  co_ready : completionReady row plan.(cnTerminalBefore) (dbEvents db) (dbDownstream db) = true;
  co_check : fixtures_check (stampFixture now (completeRow plan.(cnCompletedAt) row)) = true;
  co_kind : record.(auditlog.rKind) = auditlog.KindFixtureCompleted;
  co_fixture : record.(auditlog.rFixtureID) = f.(fixture.fID);
  co_valid : auditlog.Valid record = true;
  co_db : db' = appendLog record (setFixture f.(fixture.fID)
    (stampFixture now (completeRow plan.(cnCompletedAt) row)) db) }.

Lemma completionReady_active row before events rows :
  completionReady row before events rows = true →
  row.(fixture.fState) = fixture.StateActive ∧
  (∃ at_, row.(fixture.fTerminalObservedAt) = Some at_ ∧ at_ ≤ timestamptz before) ∧
  one_of row.(fixture.fAPIStatus).(fixture.Short) terminalStatuses = true ∧
  (∀ id e, events !! id = Some e → unsettled row.(fixture.fID) e = false) ∧
  (∀ k d, rows !! k = Some d → openRow row.(fixture.fID) events (k, d) = false).
Proof.
  unfold completionReady. rewrite !andb_true_iff, !negb_true_iff.
  intros ((((H1%String.eqb_eq & H2) & H3) & H4) & H5). split_and!; [done| |done|..].
  - destruct (fixture.fTerminalObservedAt row); [|done]. eexists. split; [done|].
    by apply Z.leb_le.
  - intros id e He. apply not_true_iff_false. intros Hu. revert H4. apply not_false_iff_true.
    apply existsb_exists. exists (id, e). split; [|done].
    by apply list_elem_of_In, elem_of_map_to_list.
  - intros k d Hd. apply not_true_iff_false. intros Hu. revert H5. apply not_false_iff_true.
    apply existsb_exists. exists (k, d). split; [|done].
    by apply list_elem_of_In, elem_of_map_to_list.
Qed.

Lemma New_inv kind id fixtureID payload r :
  auditlog.New kind id fixtureID payload = Some r → r = auditlog.mkRecord kind id fixtureID payload.
Proof. unfold auditlog.New. repeat case_match; naive_solver. Qed.

Lemma completeFixtureIfReadyTx_inv now f plan b db db' :
  completeFixtureIfReadyTx now f plan db = inr (b, db') →
  b = false ∧ db' = db ∨ b = true ∧ ∃ row record, completion now f plan db db' row record.
Proof.
  unfold completeFixtureIfReadyTx, lockedFixture. intros H.
  destruct (_ || _); tx_inv; [by left|].
  destruct (dbFixtures db !! _) as [row|] eqn:Hrow; tx_inv.
  destruct (negb _) eqn:Hready; tx_inv; [by left|]. apply negb_false_iff in Hready.
  destruct (fixture.fTerminalObservedAt f) as [terminalAt|]; tx_inv.
  destruct (auditlog.New _ _ _ _) as [record|] eqn:Hr; tx_inv; cbn [lift] in *; tx_inv.
  apply New_inv in Hr. right. split; [done|]. exists row, record.
  match goal with H : insertAuditLog _ _ = _ |- _ => apply insertAuditLog_inv in H as [Hv ->] end.
  pose proof (completionReady_active _ _ _ _ Hready) as (Hact & _).
  match goal with H : updateFixture _ _ _ _ _ = _ |- _ =>
    apply updateFixture_inv in H as [(-> & Hn)|(r & Hr2 & _ & Hc & ->)] end.
  { exfalso. specialize (Hn _ Hrow). unfold isActive in Hn. by rewrite Hact in Hn. }
  rewrite Hrow in Hr2. injection Hr2 as <-. subst record. by split.
Qed.

(** ** Refinement: every statement of the transactions is a [write] *)

Lemma auditFor_valid kind id a : auditFor kind id a = true → auditlog.Valid a = true.
Proof. unfold auditFor. by intros [[??]%andb_true_iff _]%andb_true_iff. Qed.

Section refine.
Context (F : Z) (trusted : bool) (now : Time).
#[local] Abbreviation writes := (rtc (write F trusted now)).

Lemma event_write_keys e e' :
  event_write trusted now e e' →
  e'.(event.eID) = e.(event.eID) ∧ e'.(event.eFixtureID) = e.(event.eFixtureID) ∧
  e'.(event.eNaturalKey) = e.(event.eNaturalKey).
Proof. by destruct 1. Qed.

(** Events never change their fixture, so a checked scope stays checked. *)
Lemma write_owned id db db' : write F trusted now db db' → owned F id db → owned F id db'.
Proof.
  unfold owned. intros H Hid e. destruct H as
    [| |db e1 _ _ HF|db i e1 e2 He HF Hw|db i e1| | | | | |]; cbn; try by apply Hid.
  - rewrite lookup_insert. case_decide; naive_solver.
  - rewrite lookup_insert. case_decide; [|by apply Hid]. intros [= <-].
    apply event_write_keys in Hw as (_ & -> & _). done.
  - rewrite lookup_delete. case_decide; naive_solver.
Qed.

Lemma writes_owned id db db' : writes db db' → owned F id db → owned F id db'.
Proof. induction 1; eauto using write_owned. Qed.

Lemma ensureDownstream_writes uuid_String id db e :
  dbEvents db !! id = Some e → e.(event.eFixtureID) = F →
  writes db (ensureDownstream uuid_String id db).
Proof.
  unfold ensureDownstream. intros He HF. case_match eqn:E; [apply rtc_refl|].
  apply rtc_once. by eapply w_downstream.
Qed.

Lemma presence_writes uuid_String wf id audit db b db' :
  presence_outcome now uuid_String wf id audit db b db' →
  owned F id db → audit.(auditlog.rFixtureID) = F → writes db db'.
Proof.
  intros H Hid HF. destruct H as [|e _ He Hr Hc _|e _ He Hr Hc H3 Ht Ha]; [apply rtc_refl|..].
  all: pose proof (Hid _ He) as HeF.
  all: apply (rtc_l _ _ _ _ (w_vote F trusted now db id wf e He HeF)).
  all: eapply rtc_l; [by apply (w_event _ _ _ _ id e); [| |apply ew_vote|]|].
  { apply rtc_refl. }
  eapply rtc_l; [by eapply w_event; [apply lookup_insert_eq| |apply ew_trigger|]|].
  eapply rtc_l; [apply w_log; [by eapply auditFor_valid|done]|].
  eapply ensureDownstream_writes; [by apply lookup_insert_eq|done].
Qed.

Lemma absence_writes wf id audit db b db' :
  trusted = true → absence_outcome now wf id audit db b db' →
  owned F id db → audit.(auditlog.rFixtureID) = F → writes db db'.
Proof.
  intros Htr H Hid HF. destruct H as [|e _ He Hc _|e at_ _ He Hc H0 Hr Ha Hc2]; [apply rtc_refl|..].
  all: pose proof (Hid _ He) as HeF.
  all: apply (rtc_l _ _ _ _ (w_drop_vote F trusted now db id wf e Htr He HeF)).
  all: eapply rtc_l; [by apply (w_event _ _ _ _ id e); [| |apply ew_drop|]|].
  { apply rtc_refl. }
  eapply rtc_l; [by eapply w_event; [apply lookup_insert_eq| |apply ew_remove|]|].
  eapply rtc_l; [eapply w_terminalize; [done|by apply lookup_insert_eq|done]|].
  eapply rtc_l; [eapply w_close; [done|by apply lookup_insert_eq|done]|].
  apply rtc_once, w_log; [by eapply auditFor_valid|done].
Qed.

Lemma updateEventFieldsTx_writes op policy b db db' :
  updateEventFieldsTx now op policy db = inr (b, db') → owned F op.(puEventID) db →
  ((policy =? PolicyTrusted)%string = true → trusted = true) → writes db db'.
Proof.
  unfold updateEventFieldsTx. intros H Hid Hp. destruct (puFresh op); tx_inv.
  cbv zeta in H. destruct (policy =? PolicyTrusted)%string; tx_inv;
    match goal with H : updateEvent _ _ _ _ _ = _ |- _ =>
      apply updateEvent_inv in H as [(_ & -> & _)|(old & He & _ & Hc & _ & ->)] end;
    try apply rtc_refl; apply rtc_once; (eapply w_event; [exact He|by apply Hid| |done]).
  - by apply ew_correct, Hp.
  - apply ew_assist.
Qed.

Lemma deletePlaceholder_writes id b db db' :
  trusted = true → deletePlaceholder F id db = inr (b, db') → writes db db'.
Proof.
  unfold deletePlaceholder. intros Htr H. tx_inv.
  destruct (dbEvents db !! id) eqn:E; tx_inv; [|apply rtc_refl].
  destruct (_ && _) eqn:E2; tx_inv; [|apply rtc_refl].
  apply andb_true_iff in E2 as [E2%Z.eqb_eq E3%Z.eqb_eq].
  apply rtc_once. by eapply w_delete.
Qed.

Lemma insertPlannedEvent_writes wf op u db db' :
  insertPlannedEvent now wf op db = inr (u, db') → insertScope F op = true → writes db db'.
Proof.
  unfold insertPlannedEvent, insertScope. destruct op as [[e|] audit]; [|done].
  cbn [piEvent piAudit]. intros H [HF%Z.eqb_eq Ha]%andb_true_iff.
  destruct (_ || _); tx_inv. destruct (not_nil _); tx_inv.
  match goal with H : insertEvent _ _ _ = _ |- _ =>
    apply insertEvent_inv in H as (Hf & Hnew & Hu & Hc & ->) end.
  cbn in Hf, Hnew. rewrite HF in Hf.
  eapply rtc_l. { eapply (w_insert_event _ _ _ _ (createEvent now (insertedRow _ e))); try done.
    intros i y Hy HyF. apply (Hu _ _ Hy). by cbn; congruence. }
  match goal with H : (match audit with _ => _ end) ?mid = _ |- _ => trans mid end.
  - destruct (0 <? _); tx_inv; [|apply rtc_refl].
    match goal with H : insertMonitorVote _ _ _ = _ |- _ =>
      apply insertMonitorVote_inv in H as [(? & _)|(_ & _ & _ & ->)] end; [done|].
    apply rtc_once. by eapply w_vote; [apply lookup_insert_eq|].
  - destruct audit as [a|]; tx_inv; [|apply rtc_refl].
    apply andb_true_iff in Ha as [HaF%Z.eqb_eq _].
    destruct (_ || _); tx_inv.
    match goal with H : insertAuditLog _ _ = _ |- _ => apply insertAuditLog_inv in H as [Hv ->] end.
    by apply rtc_once, w_log.
Qed.

(** *** The checked scope *)

Lemma elem_of_addIDs ids acc id : id ∈ foldl addID acc ids ↔ id ∈ acc ∨ id ∈ ids.
Proof.
  revert acc. induction ids as [|i ids IH]; intros acc; cbn.
  { rewrite elem_of_nil. tauto. }
  rewrite IH, elem_of_cons. unfold addID. case_bool_decide; [naive_solver|].
  rewrite elem_of_app, list_elem_of_singleton. tauto.
Qed.

Lemma checkScopes_inv keys ids u db db' :
  each (λ _, checkScope F keys) u ids db = inr (tt, db') →
  db' = db ∧ ∀ id, id ∈ ids → owned F id db.
Proof.
  revert u db. induction ids as [|i ids IH]; intros u db H; cbn in H; tx_inv.
  { split; [done|]. by intros ? ?%elem_of_nil. }
  match goal with H : checkScope _ _ _ _ = _ |- _ => rename H into Hc end.
  unfold checkScope in Hc. tx_inv. destruct (dbEvents db !! i) as [e|] eqn:E; tx_inv.
  match goal with H : each _ _ _ _ = _ |- _ => apply IH in H as [-> Hids] end.
  split; [done|]. intros id [->|Hid]%elem_of_cons; [|by apply Hids].
  intros e' He'. rewrite E in He'. injection He' as <-. by apply Z.eqb_eq.
Qed.

Record scope_ok (plan : ActiveMutationPlan) (policy : MutationPolicy) (db : DB) : Prop := {
  so_inserts op : op ∈ plan.(apInserts) → insertScope F op = true;
  so_presences op : op ∈ plan.(apPresences) →
    op.(ppAudit).(auditlog.rFixtureID) = F ∧ owned F op.(ppEventID) db;
  so_updates op : op ∈ plan.(apUpdates) → owned F op.(puEventID) db;
  so_absences op : policy = PolicyTrusted → op ∈ plan.(apAbsences) →
    op.(paAudit).(auditlog.rFixtureID) = F ∧ owned F op.(paEventID) db }.

Lemma forallb_elem {A} (f : A → bool) l x : forallb f l = true → x ∈ l → f x = true.
Proof. rewrite forallb_forall. intros H Hx. by apply H, list_elem_of_In. Qed.

Lemma validateActiveEventScope_inv plan policy u db db' :
  validateActiveEventScope F plan policy db = inr (u, db') → db' = db ∧ scope_ok plan policy db.
Proof.
  unfold validateActiveEventScope. destruct u. intros H. tx_inv.
  match goal with H : each _ _ _ _ = _ |- _ => apply checkScopes_inv in H as [-> Hids] end.
  setoid_rewrite elem_of_addIDs in Hids. split; [done|].
  assert (∀ id, id ∈ (ppEventID <$> apPresences plan) ++ (puEventID <$> apUpdates plan) ++
    (if (policy =? PolicyTrusted)%string
     then (paEventID <$> apAbsences plan) ++ apUnknownDeletes plan else []) → owned F id db) as Hin
    by auto.
  split.
  - intros op Hop. by eapply forallb_elem.
  - intros op Hop. split.
    + match goal with H : forallb _ (apPresences _) = true |- _ =>
        pose proof (forallb_elem _ _ _ H Hop) as Ha end.
      unfold auditScope in Ha. by apply andb_true_iff in Ha as [?%Z.eqb_eq _].
    + apply Hin, elem_of_app. left. by apply list_elem_of_fmap_2.
  - intros op Hop. apply Hin, elem_of_app. right. apply elem_of_app. left.
    by apply list_elem_of_fmap_2.
  - intros op -> Hop. split.
    + match goal with H : negb _ || forallb _ (apAbsences _) = true |- _ =>
        pose proof (forallb_elem _ _ _ H Hop) as Ha end.
      unfold auditScope in Ha. by apply andb_true_iff in Ha as [?%Z.eqb_eq _].
    + apply Hin, elem_of_app. right. apply elem_of_app. right. apply elem_of_app. left.
      by apply list_elem_of_fmap_2.
Qed.

(** *** The whole of ApplyActive *)

Lemma each_writes {A R} (body : R → A → Tx R) ops out db out' db' :
  (∀ out op db1 out' db1', op ∈ ops → writes db db1 → body out op db1 = inr (out', db1') →
     writes db1 db1') →
  each body out ops db = inr (out', db') → writes db db'.
Proof.
  intros Hb H. apply (each_inv body (λ _, writes db) ops) in H; [done| |apply rtc_refl].
  intros o op d o' d' Hop Hw Hd. trans d; [done|]. by eapply Hb.
Qed.

Lemma completion_writes f plan db db' row record :
  trusted = true → f.(fixture.fID) = F → completion now f plan db db' row record → writes db db'.
Proof.
  intros Htr HF [Hrow Hready Hc _ Hrf Hv ->]. rewrite HF in *.
  pose proof (completionReady_active _ _ _ _ Hready) as (Hact & (at_ & Hat & _) & _).
  eapply rtc_l; [eapply w_fixture; [exact Hrow| |exact Hc]|].
  { by apply fw_complete. }
  by apply rtc_once, w_log.
Qed.

Lemma updateActiveFixtureTx_writes target current u db db' :
  updateActiveFixtureTx now target db = inr (u, db') → target.(fixture.fID) = F →
  dbFixtures db !! F = Some current →
  (trusted = false → fixture_grows current (stampFixture now (activeColumns target current))) →
  writes db db'.
Proof.
  unfold updateActiveFixtureTx. intros H HF Hrow Hg. rewrite HF in H.
  apply updateFixture_inv in H as [(-> & _)|(r & Hr & Hact & Hc & ->)]; [apply rtc_refl|].
  rewrite Hrow in Hr. injection Hr as <-. apply rtc_once.
  eapply w_fixture; [exact Hrow| |exact Hc]. apply fw_refresh; [|done].
  split; try done. unfold isActive in Hact. apply String.eqb_eq in Hact. by rewrite Hact.
Qed.

End refine.

(** *** Composition *)

Section compose.
Context (now clock : Time) (uuid_String : UUID → string) (mode : EnforcementMode).

(** *** The loops *)

Section loops.
Context (F : Z) (trusted : bool).
#[local] Abbreviation writes := (rtc (write F trusted now)).

(** A loop continues a run of writes when every operation does. *)
Lemma loop_writes {A R} (body : R → A → Tx R) ops out db0 db out' db' :
  (∀ out op db1 out' db1', op ∈ ops → writes db0 db1 → body out op db1 = inr (out', db1') →
     writes db1 db1') →
  writes db0 db → each body out ops db = inr (out', db') → writes db0 db'.
Proof.
  intros Hb H0 H. apply (each_inv body (λ _, writes db0) ops) in H; [done| |done].
  intros o op d o' d' Hop Hw Hd. trans d; [done|]. by eapply Hb.
Qed.

Lemma inserts_writes wf ops out db0 db out' db' :
  (∀ op, op ∈ ops → insertScope F op = true) → writes db0 db →
  each (applyInsert now wf) out ops db = inr (out', db') → writes db0 db'.
Proof.
  intros Hs. apply loop_writes. intros o op d o' d' Hop _ Hd. unfold applyInsert in Hd. tx_inv.
  match goal with H : insertPlannedEvent _ _ _ _ = _ |- _ =>
    eapply insertPlannedEvent_writes in H; [|by apply Hs] end.
  by destruct (piEvent op); tx_inv.
Qed.

Lemma presences_writes wf ops out db0 db out' db' :
  (∀ op, op ∈ ops → op.(ppAudit).(auditlog.rFixtureID) = F ∧ owned F op.(ppEventID) db0) →
  writes db0 db → each (applyPresence now uuid_String wf) out ops db = inr (out', db') →
  writes db0 db'.
Proof.
  intros Hs. apply loop_writes. intros o [id a] d o' d' Hop Hw Hd. unfold applyPresence in Hd.
  tx_inv. apply Hs in Hop as [Ha Hid]. cbn in Ha, Hid.
  match goal with H : registerPresenceTx _ _ _ _ _ = _ |- _ =>
    apply registerPresenceTx_outcome in H end.
  eapply presence_writes; [done| |done]. by eapply writes_owned.
Qed.

Lemma updates_writes policy ops out db0 db out' db' :
  (∀ op, op ∈ ops → owned F op.(puEventID) db0) →
  ((policy =? PolicyTrusted)%string = true → trusted = true) →
  writes db0 db → each (applyUpdate now policy) out ops db = inr (out', db') → writes db0 db'.
Proof.
  intros Hs Ht. apply loop_writes. intros o op d o' d' Hop Hw Hd. unfold applyUpdate in Hd. tx_inv.
  eapply updateEventFieldsTx_writes; [eassumption| |exact Ht].
  apply (writes_owned F trusted now _ _ d Hw). by apply Hs.
Qed.

Lemma deletes_writes ops out db0 db out' db' :
  trusted = true → writes db0 db → each (applyDelete F) out ops db = inr (out', db') →
  writes db0 db'.
Proof.
  intros Ht. apply loop_writes. intros o op d o' d' _ _ Hd. unfold applyDelete in Hd. tx_inv.
  by eapply deletePlaceholder_writes.
Qed.

Lemma absences_writes wf ops out db0 db out' db' :
  trusted = true →
  (∀ op, op ∈ ops → op.(paAudit).(auditlog.rFixtureID) = F ∧ owned F op.(paEventID) db0) →
  writes db0 db → each (applyAbsence now clock wf) out ops db = inr (out', db') →
  writes db0 db'.
Proof.
  intros Ht Hs. apply loop_writes. intros o [id a] d o' d' Hop Hw Hd. unfold applyAbsence in Hd.
  tx_inv. apply Hs in Hop as [Ha Hid]. cbn in Ha, Hid.
  match goal with H : registerAbsenceTx _ _ _ _ _ = _ |- _ =>
    apply registerAbsenceTx_outcome in H end.
  eapply absence_writes; [done|done| |done]. by eapply writes_owned.
Qed.

End loops.

(** The effective policy is one of the three. *)
Lemma restrict_values ps r :
  one_of r [PolicyTrusted; PolicyPositiveOnly] = true →
  one_of (restrict_from r ps) [PolicyTrusted; PolicyPositiveOnly; PolicyRejected] = true.
Proof.
  revert r. induction ps as [|p ps IH]; intros r Hr; cbn [restrict_from].
  { by eapply one_of_impl; [|exact Hr]. }
  destruct (_ || _); [done|]. destruct (_ =? _)%string; by apply IH.
Qed.

Lemma DecideMutation_values p f l :
  (DecideMutation mode p f l).2 = PolicyTrusted ∨
  (DecideMutation mode p f l).2 = PolicyPositiveOnly ∨
  (DecideMutation mode p f l).2 = PolicyRejected.
Proof.
  unfold DecideMutation. destruct (_ =? _)%string; cbn; [by left|].
  pose proof (restrict_values [p; f; l] PolicyTrusted eq_refl) as H.
  apply one_of_true in H. unfold RestrictPolicies. set_solver.
Qed.

(** *** Receipts *)

Lemma commitMutationResult_inv guard F generation out r db db' :
  0 < F → commitMutationResult guard F generation out db = inr (r, db') →
  r = out ∧ ∃ keys,
    is_Some (dbReceipts db !! (guard.(ogObservationID), F)) ∧ db' = deleteReceipts keys db ∨
    dbReceipts db !! (guard.(ogObservationID), F) = None ∧ is_Some (dbFixtures db !! F) ∧
    0 ≤ generation ∧
    db' = deleteReceipts keys (addReceipt (guard.(ogObservationID), F)
      (mkReceipt (timestamptz guard.(ogObservedAt)) generation out) db).
Proof.
  intros HF. unfold commitMutationResult.
  assert (match mrFixture out with
    | Some f => if F <=? 0 then fixture.fID f else F | None => F end = F) as ->.
  { destruct (mrFixture out); [|done]. by rewrite (proj2 (Z.leb_gt _ _) HF). }
  rewrite (proj2 (Z.leb_gt _ _) HF). intros H. tx_inv. split; [done|].
  destruct (dbReceipts db !! _) eqn:E; cbn [is_nil] in *; tx_inv; eexists; [left; by eauto|right].
  split_and!; [done|by apply not_nil_true|by apply Z.leb_le|done].
Qed.

(** A receipt recent enough survives the retention of the commit that wrote it. *)
Lemma commit_receipt guard F generation out r db db' :
  0 < F → timestamptz guard.(ogObservedAt) = guard.(ogObservedAt) →
  dbReceipts db !! (guard.(ogObservationID), F) = None →
  commitMutationResult guard F generation out db = inr (r, db') →
  dbReceipts db' !! (guard.(ogObservationID), F) =
    Some (mkReceipt guard.(ogObservedAt) generation out).
Proof.
  intros HF Ht Hn. unfold commitMutationResult.
  assert (match mrFixture out with
    | Some f => if F <=? 0 then fixture.fID f else F | None => F end = F) as ->.
  { destruct (mrFixture out); [|done]. by rewrite (proj2 (Z.leb_gt _ _) HF). }
  rewrite (proj2 (Z.leb_gt _ _) HF). intros H. tx_inv. rewrite Hn in *. cbn [is_nil] in *. tx_inv.
  match goal with |- context [deleteReceipts ?ks _] => assert ((ogObservationID guard, F) ∉ ks) as Hk end.
  { intros (rc & Hrc & Hlt)%expiredRows_old. cbn in Hrc. rewrite lookup_insert_eq in Hrc.
    injection Hrc as <-. cbn in Hlt. rewrite Ht in Hlt.
    unfold time_Add, HealthReceiptRetention, time_Hour, time_Minute, time_Second in Hlt. lia. }
  cbn [deleteReceipts dbReceipts]. cbn. rewrite lookup_foldr_delete_not_in by done.
  cbn. rewrite lookup_insert_eq. by rewrite Ht.
Qed.

Lemma commit_settles F guard generation out r db db' :
  0 < F → commitMutationResult guard F generation out db = inr (r, db') →
  rtc (settle F) db db'.
Proof.
  intros HF (_ & keys & [(_ & ->)|(Hn & Hf & Hg & ->)])%commitMutationResult_inv; [| |done].
  - apply rtc_once, st_expire.
  - eapply rtc_r; [|apply st_expire]. by apply rtc_once, st_receipt.
Qed.

Lemma lockedFixture_inv id f db db' :
  lockedFixture id db = inr (f, db') → dbFixtures db !! id = Some f ∧ db' = db.
Proof. unfold lockedFixture. intros H. tx_inv. by destruct (_ !! _); tx_inv. Qed.

(** *** ApplyActive *)

Lemma applyActiveWrites_writes plan f current policy out out' db db' :
  policy = PolicyTrusted ∨ policy = PolicyPositiveOnly →
  dbFixtures db !! current.(fixture.fID) = Some current →
  f.(fixture.fID) = current.(fixture.fID) →
  applyActiveWrites now clock uuid_String plan f current policy out db = inr (out', db') →
  rtc (write current.(fixture.fID) (String.eqb policy PolicyTrusted) now) db db'.
Proof.
  intros Hpol Hrow Hf. unfold applyActiveWrites. intros H. tx_inv.
  match goal with H : validateActiveEventScope _ _ _ _ = _ |- _ =>
    apply validateActiveEventScope_inv in H as [-> [Hi Hp Hu Ha]] end.
  match goal with H : updateActiveFixtureTx _ ?t _ = inr (_, _) |- _ => set (target := t) in * end.
  assert (merge_keeps current (mergePositiveFixture current f)) as Hm by apply merge_kept.
  assert (target.(fixture.fID) = current.(fixture.fID)) as Ht.
  { unfold target. destruct (_ =? PolicyPositiveOnly)%string; [apply Hm|done]. }
  match goal with H : updateActiveFixtureTx _ _ _ = _ |- _ =>
    apply (updateActiveFixtureTx_writes current.(fixture.fID) (String.eqb policy PolicyTrusted) _ _ current) in H; [|done..|] end.
  2: { destruct Hpol as [-> | ->]; [done|]. intros _. by apply active_grows. }
  match goal with H : each (applyInsert _ _) _ _ _ = _ |- _ =>
    eapply inserts_writes in H; [|exact Hi|eassumption] end.
  match goal with H : each (applyPresence _ _ _) _ _ _ = _ |- _ =>
    eapply presences_writes in H; [|exact Hp|eassumption] end.
  match goal with H : each (applyUpdate _ _) _ _ _ = _ |- _ =>
    eapply updates_writes in H; [|exact Hu| |eassumption]; [|done] end.
  match goal with H : lockedFixture _ _ = _ |- _ => apply lockedFixture_inv in H as [_ ->] end.
  destruct Hpol as [-> | ->]; cbn in *; tx_inv; [|done].
  match goal with H : each (applyDelete _) _ _ _ = _ |- _ =>
    eapply deletes_writes in H; [|done|eassumption] end.
  match goal with H : each (applyAbsence _ _ _) _ _ _ = _ |- _ =>
    eapply absences_writes in H; [|done|by intros; apply Ha|eassumption] end.
  match goal with H : completeFixtureIfReadyTx _ _ _ _ = _ |- _ =>
    apply completeFixtureIfReadyTx_inv in H as [(_ & ->)|(_ & row & rec & Hc)] end; [done|].
  etrans; [eassumption|]. by eapply completion_writes.
Qed.

(** How a call can end: with the committed receipt, with nothing applied, or with
    the writes of an accepted plan. *)
Inductive outcome (guard : ObservationGuard) (F : Z)
    (writes_of : MutationPolicy → DB → MutationResult → DB → Prop) (db : DB)
    : MutationResult → DB → Prop :=
  | out_receipt rc :
      dbReceipts db !! (guard.(ogObservationID), F) = Some rc →
      rc.(rcObservedAt) = guard.(ogObservedAt) → outcome guard F writes_of db rc.(rcResult) db
  | out_unapplied r db' :
      dbReceipts db !! (guard.(ogObservationID), F) = None → r.(mrApplied) = false →
      r.(mrCompleted) = false → r.(mrRemovedEventIDs) = [] → r.(mrStableEventIDs) = [] →
      commitMutationResult guard F db.(dbProvider).(pGeneration) r db = inr (r, db') →
      outcome guard F writes_of db r db'
  | out_applied policy r db1 db' :
      dbReceipts db !! (guard.(ogObservationID), F) = None →
      policy = PolicyTrusted ∨ policy = PolicyPositiveOnly →
      r.(mrPolicy) = policy → r.(mrApplied) = true → writes_of policy db r db1 →
      commitMutationResult guard F db.(dbProvider).(pGeneration) r db1 = inr (r, db') →
      outcome guard F writes_of db r db'.

Lemma commit_result guard F generation out r db db' :
  0 < F → commitMutationResult guard F generation out db = inr (r, db') → r = out.
Proof. by intros HF [? _]%commitMutationResult_inv. Qed.

Lemma stale_outcome guard F writes_of current r db db' :
  0 < F → dbReceipts db !! (guard.(ogObservationID), F) = None →
  commitStaleReceipt guard F current db.(dbProvider).(pGeneration) db = inr (r, db') →
  outcome guard F writes_of db r db'.
Proof.
  intros HF Hn H. unfold commitStaleReceipt in H. pose proof (commit_result _ _ _ _ _ _ _ HF H).
  subst r. by apply out_unapplied.
Qed.

Lemma lift_inv {A} (m : string + A) a db db' : lift m db = inr (a, db') → m = inr a ∧ db' = db.
Proof. destruct m; cbn; intros H; tx_inv; done. Qed.

Lemma lockPolicy_inv at_ g p db db' :
  lockProviderMutationPolicy db = inr (at_, g, p, db') →
  db' = db ∧ at_ = db.(dbProvider).(pLastObservedAt) ∧ g = db.(dbProvider).(pGeneration) ∧
  p = db.(dbProvider).(pPolicy) ∧ Policy_Valid p = true.
Proof.
  unfold lockProviderMutationPolicy. intros H. tx_inv.
  match goal with H : (_, _, _) = (_, _, _) |- _ => injection H as -> -> -> end. done.
Qed.

Lemma loadReceipt_inv guard F o db db' :
  loadMutationReceipt guard F db = inr (o, db') →
  db' = db ∧ match o with
    | None => dbReceipts db !! (guard.(ogObservationID), F) = None
    | Some r => ∃ rc, dbReceipts db !! (guard.(ogObservationID), F) = Some rc ∧
        rc.(rcObservedAt) = guard.(ogObservedAt) ∧ r = rc.(rcResult)
    end.
Proof.
  unfold loadMutationReceipt. intros H. tx_inv. destruct (_ !! _) as [rc|] eqn:E; tx_inv; [|done].
  split; [done|]. eexists. split_and!; [done|by apply Z.eqb_eq|done].
Qed.

Lemma loadHealth_inv id h db db' : loadFixtureHealth id db = inr (h, db') → db' = db.
Proof. unfold loadFixtureHealth. intros H. tx_inv. by destruct (_ !! _); tx_inv. Qed.

Lemma validateActive_id plan f :
  validateActiveMutationPlan plan = inr f →
  0 < f.(fixture.fID) ∧ plan.(apFixture) = Some f ∧ fixture.ValidateInvariants f = None.
Proof.
  unfold validateActiveMutationPlan, validateObserved. intros H.
  destruct (ObservationGuard_Validate _), (apFixture plan) as [g|]; try done.
  destruct (_ || _) eqn:E; [done|]. apply orb_false_iff in E as [[[E%Z.leb_gt _]%orb_false_iff _]%orb_false_iff _].
  destruct (negb _); [done|]. destruct (not_nil _) eqn:E2; [done|]. injection H as <-.
  split_and!; [done|done|]. by destruct (fixture.ValidateInvariants g).
Qed.

(** The writes keep the policy and mark the result as applied. *)
Lemma each_result {A R} (body : R → A → Tx R) (I : R → Prop) ops out db out' db' :
  (∀ out op db out' db', I out → body out op db = inr (out', db') → I out') →
  I out → each body out ops db = inr (out', db') → I out'.
Proof.
  intros Hb H0 H. apply (each_inv body (λ o _, I o) ops) in H; [done| |done].
  intros o op d o' d' _. apply Hb.
Qed.

Lemma classify_result out before :
  (classifyMutationFixtureChanges out before).(mrPolicy) = out.(mrPolicy) ∧
  (classifyMutationFixtureChanges out before).(mrApplied) = out.(mrApplied).
Proof. unfold classifyMutationFixtureChanges. by repeat case_match. Qed.

Definition keeps (p : MutationPolicy) (o : MutationResult) : Prop :=
  o.(mrPolicy) = p ∧ o.(mrApplied) = true.

Ltac keeps_step op :=
  unfold op; intros ????? [? ?] ?; tx_inv; repeat (case_match; tx_inv); by split.

Lemma applyActiveWrites_result plan f current policy out out' db db' :
  applyActiveWrites now clock uuid_String plan f current policy out db = inr (out', db') →
  out'.(mrPolicy) = out.(mrPolicy) ∧ out'.(mrApplied) = true.
Proof.
  unfold applyActiveWrites. intros H. tx_inv.
  destruct (classify_result (x9 <| mrFixture := Some x11 |>) (Some current)) as [-> ->].
  change (keeps out.(mrPolicy) x9).
  match goal with H : each (applyInsert _ _) _ _ _ = _ |- _ =>
    apply (each_result _ (keeps out.(mrPolicy))) in H; [|keeps_step applyInsert|done] end.
  match goal with H : each (applyPresence _ _ _) _ _ _ = _ |- _ =>
    apply (each_result _ (keeps out.(mrPolicy))) in H; [|keeps_step applyPresence|done] end.
  match goal with H : each (applyUpdate _ _) _ _ _ = _ |- _ =>
    apply (each_result _ (keeps out.(mrPolicy))) in H; [|keeps_step applyUpdate|done] end.
  destruct (policy =? PolicyTrusted)%string; tx_inv; [|done].
  match goal with H : each (applyDelete _) _ _ _ = _ |- _ =>
    apply (each_result _ (keeps out.(mrPolicy))) in H; [|keeps_step applyDelete|done] end.
  match goal with H : each (applyAbsence _ _ _) _ _ _ = _ |- _ =>
    apply (each_result _ (keeps out.(mrPolicy))) in H; [by destruct H; split|keeps_step applyAbsence|done] end.
Qed.

(** Where the writes of an active plan come from: the locked row is the one the
    plan was built from, and its last observation is older. *)
Definition activeWrites (plan : ActiveMutationPlan) (f : fixture.Fixture) (policy : MutationPolicy)
    (db : DB) (r : MutationResult) (db1 : DB) : Prop :=
  ∃ current out, dbFixtures db !! f.(fixture.fID) = Some current ∧
    current.(fixture.fID) = f.(fixture.fID) ∧
    activeStale plan current db.(dbProvider).(pLastObservedAt) db.(dbProvider).(pGeneration) = false ∧
    (∃ d, out = emptyResult <| mrDecision := d |> <| mrPolicy := policy |>) ∧
    applyActiveWrites now clock uuid_String plan f current policy out db = inr (r, db1).

Lemma ApplyActive_outcome plan r db db' :
  db_ok db → ApplyActive now clock uuid_String mode plan db = inr (r, db') →
  let p := normalizeActiveMutationPlan plan in
  ∃ f, validateActiveMutationPlan p = inr f ∧ 0 < f.(fixture.fID) ∧
    outcome p.(apGuard) f.(fixture.fID) (activeWrites p f) db r db'.
Proof.
  intros Hok. unfold ApplyActive. destruct (negb _); [done|]. cbv zeta.
  set (p := normalizeActiveMutationPlan plan). intros H. tx_inv.
  match goal with H : lift _ _ = _ |- _ => apply lift_inv in H as [Hf ->] end.
  match goal with H : validateActiveMutationPlan _ = inr ?g |- _ => rename g into f end.
  exists f. split; [done|]. destruct (validateActive_id _ _ Hf) as (HF & _). split; [done|].
  match goal with H : lockProviderMutationPolicy _ = inr (?q, _) |- _ =>
    destruct q as [[at_ g] pol]; apply lockPolicy_inv in H as (-> & -> & -> & -> & _) end. tx_inv.
  match goal with H : loadMutationReceipt _ _ _ = _ |- _ => apply loadReceipt_inv in H as [-> Hr] end.
  match type of Hr with match ?o with _ => _ end => destruct o as [rc|] end; tx_inv.
  { destruct Hr as (rc' & Hrc & Hat & ->). by apply out_receipt. }
  match goal with H : lockedFixture _ _ = _ |- _ => apply lockedFixture_inv in H as [Hcur ->] end.
  pose proof (ok_fixture _ Hok _ _ Hcur) as [Hid _]. rewrite Hid in *.
  destruct (activeStale _ _ _ _) eqn:Hstale; [by eapply stale_outcome|]. tx_inv.
  match goal with H : loadFixtureHealth _ _ = _ |- _ => apply loadHealth_inv in H as -> end.
  destruct (healthReceiptMissing _ _); [by eapply stale_outcome|].
  match goal with H : context [DecideMutation ?m ?a ?b ?c] |- _ =>
    pose proof (DecideMutation_values a b c) as Hv;
    destruct (DecideMutation m a b c) as [d pol] end. cbn [snd] in Hv. tx_inv.
  match goal with H : commitMutationResult _ _ _ ?o _ = inr (?r, _) |- _ =>
    pose proof (commit_result _ _ _ _ _ _ _ HF H) as Hro; subst o end.
  destruct Hv as [Hv|[Hv|Hv]].
  3: { subst pol. cbn in *. tx_inv. by apply out_unapplied. }
  all: assert (pol ≠ PolicyRejected) as Hne by by subst pol.
  all: apply String.eqb_neq in Hne; rewrite Hne in *.
  all: match goal with H : applyActiveWrites _ _ _ _ _ _ _ _ _ = _ |- _ =>
    pose proof (applyActiveWrites_result _ _ _ _ _ _ _ _ H) as [Hp Ha]; rename H into Hw end.
  all: eapply (out_applied _ _ _ _ pol); eauto; eexists _, _; split_and!; eauto.
Qed.

(** *** ApplyFixture *)

Lemma target_id plan f c policy :
  f.(fixture.fID) = c.(fixture.fID) → (fixtureTarget plan f c policy).(fixture.fID) = c.(fixture.fID).
Proof.
  intros Hf. pose proof (mk_id _ _ (merge_kept c f)) as Hm. unfold fixtureTarget.
  revert Hm. generalize (mergePositiveFixture c f). intros m Hm.
  destruct (policy =? _)%string; [|done]. by destruct (_ && _).
Qed.

(** Under a restricted policy the target only adds to the row. *)
Lemma target_grows plan f c : fixture_grows c (fixtureTarget plan f c PolicyPositiveOnly).
Proof.
  pose proof (mk_grows _ _ (merge_kept c f)) as Hm. unfold fixtureTarget.
  revert Hm. generalize (mergePositiveFixture c f). intros m [].
  rewrite String.eqb_refl. destruct (_ && _); by split.
Qed.

Lemma staging_row_grows c m r :
  fixture_grows c m → r = stagingColumns m c ∨ r = activationColumns m c →
  fixture_grows c (stampFixture now r).
Proof. intros Hg [-> | ->]; by apply (staging_grows c m). Qed.

Lemma ingest_row_grows c m st a co :
  fixture_grows c m →
  fixture_grows c (stampFixture now (ingestColumns (m <| fixture.fState := st |>
    <| fixture.fActivatedAt := a |> <| fixture.fCompletedAt := co |>
    <| fixture.fTerminalObservedAt := c.(fixture.fTerminalObservedAt) |>) c)).
Proof. by intros []; split. Qed.

(** An update of the plan's row is one write, whichever columns it sets. *)
Lemma updateFixture_writes trusted c where_ set_ u db db' :
  updateFixture now c.(fixture.fID) where_ set_ db = inr (u, db') →
  dbFixtures db !! c.(fixture.fID) = Some c →
  (where_ c = true → fixtures_check (stampFixture now (set_ c)) = true →
     fixture_write trusted c (stampFixture now (set_ c))) →
  rtc (write c.(fixture.fID) trusted now) db db'.
Proof.
  intros [(-> & _)|(r & Hr & Hw & Hc & ->)]%updateFixture_inv Hrow Hset; [apply rtc_refl|].
  rewrite Hrow in Hr. injection Hr as <-. apply rtc_once. eapply w_fixture; eauto.
Qed.

Lemma updateExistingFixture_writes plan f c policy o db db' :
  policy = PolicyTrusted ∨ policy = PolicyPositiveOnly →
  f.(fixture.fID) = c.(fixture.fID) → dbFixtures db !! c.(fixture.fID) = Some c →
  updateExistingFixture now plan (fixtureTarget plan f c policy) c db = inr (o, db') →
  rtc (write c.(fixture.fID) (String.eqb policy PolicyTrusted) now) db db' ∧ (o = None → db' = db).
Proof.
  intros Hpol Hf Hrow. unfold updateExistingFixture. pose proof (target_id plan f c policy Hf) as Ht.
  assert (String.eqb policy PolicyTrusted = false → fixture_grows c (fixtureTarget plan f c policy))
    as Hg by (intros; destruct Hpol as [-> | ->]; [done|apply target_grows]).
  set (target := fixtureTarget plan f c policy) in *. clearbody target.
  intros H. destruct (fpMode plan =? MutationModeIngest)%string.
  { tx_inv. split; [|done]. match goal with H : updateIngestFixtureTx _ _ _ = _ |- _ =>
      unfold updateIngestFixtureTx in H;
      pose proof (H : updateFixture now (fixture.fID target) _ _ _ = _) as H' end.
    rewrite Ht in H'. eapply updateFixture_writes; [exact H'|done|].
    intros _ _. apply fw_refresh; [by split|]. intros Hp. by apply ingest_row_grows, Hg. }
  destruct (fpMode plan =? MutationModeStaging)%string; tx_inv.
  destruct (negb _) eqn:Hst; tx_inv; [by split; [apply rtc_refl|]|].
  apply negb_false_iff, String.eqb_eq in Hst.
  destruct (fpActivate plan); tx_inv; [destruct (fpActivationAudit plan) as [rec|]; tx_inv|].
  - match goal with H : activateStagingFixtureTx _ _ _ _ = _ |- _ =>
      unfold activateStagingFixtureTx in H; destruct (_ || _) eqn:E in H; tx_inv end.
    rewrite !orb_false_iff, !negb_false_iff in E. destruct E as [_ E%Z.eqb_eq].
    match goal with H : insertAuditLog _ _ = _ |- _ => apply insertAuditLog_inv in H as [Hv ->] end.
    split; [|done]. eapply rtc_r; [|apply w_log; [done|congruence]].
    rewrite Ht in *. eapply updateFixture_writes; [eassumption|done|].
    intros _ _. apply fw_activate; try done. intros Hp.
    apply (staging_row_grows c target); [by apply Hg|by right].
  - split; [|done]. match goal with H : updateStagingFixtureTx _ _ _ = _ |- _ =>
      unfold updateStagingFixtureTx in H; rewrite Ht in H end.
    eapply updateFixture_writes; [eassumption|done|].
    intros _ _. apply fw_refresh; [by split|]. intros Hp.
    apply (staging_row_grows c target); [by apply Hg|by left].
Qed.

Lemma insertFixture_writes trusted f u db db' :
  insertFixture now f db = inr (u, db') → rtc (write f.(fixture.fID) trusted now) db db'.
Proof.
  unfold insertFixture. destruct (not_nil _); [done|]. cbv zeta. intros H. tx_inv.
  apply rtc_once, w_insert_fixture; [by apply is_nil_true|done|done].
Qed.

(** The row the plan starts from is the plan's fixture. *)
Definition current_ok (F : Z) (db : DB) (current : option fixture.Fixture) : Prop :=
  dbFixtures db !! F = current ∧ ∀ c, current = Some c → c.(fixture.fID) = F.

Lemma applyFixtureWrites_writes plan f current policy out o db db' :
  policy = PolicyTrusted ∨ policy = PolicyPositiveOnly →
  current_ok f.(fixture.fID) db current →
  applyFixtureWrites now plan f current policy out db = inr (o, db') →
  rtc (write f.(fixture.fID) (String.eqb policy PolicyTrusted) now) db db' ∧
  match o with
  | None => db' = db
  | Some r => r.(mrPolicy) = out.(mrPolicy) ∧ r.(mrApplied) = true
  end.
Proof.
  intros Hpol [Hrow Hid] H. unfold applyFixtureWrites in H. tx_inv.
  match goal with H : (match current with _ => _ end) _ = inr (?a, ?d) |- _ =>
    assert (rtc (write f.(fixture.fID) (String.eqb policy PolicyTrusted) now) db d ∧
      (a = None → d = db)) as [Hw Hn] end.
  { destruct current as [c|]; tx_inv.
    - specialize (Hid _ eq_refl). rewrite <-Hid in *. by eapply updateExistingFixture_writes.
    - split; [|done]. by eapply insertFixture_writes. }
  match goal with H : (match ?a with _ => _ end) _ = inr (o, _) |- _ => destruct a end; tx_inv.
  - match goal with H : lockedFixture _ _ = _ |- _ => apply lockedFixture_inv in H as [_ ->] end.
    split; [done|]. match goal with |- context [classifyMutationFixtureChanges ?a ?b] =>
      destruct (classify_result a b) as [-> ->] end. done.
  - split; [done|]. by apply Hn.
Qed.

Definition fixtureWrites (plan : FixtureMutationPlan) (f : fixture.Fixture) (policy : MutationPolicy)
    (db : DB) (r : MutationResult) (db1 : DB) : Prop :=
  ∃ current out, current_ok f.(fixture.fID) db current ∧ fixtureStale plan current = false ∧
    (∃ d, out = emptyResult <| mrDecision := d |> <| mrPolicy := policy |>) ∧
    applyFixtureWrites now plan f current policy out db = inr (Some r, db1).

Lemma validateFixture_id plan f :
  validateFixtureMutationPlan plan = inr f → 0 < f.(fixture.fID).
Proof.
  unfold validateFixtureMutationPlan. intros H.
  destruct (ObservationGuard_Validate _), (fpFixture plan) as [g|]; try done.
  destruct (_ || _) eqn:E; [done|].
  apply orb_false_iff in E as [[E%Z.leb_gt _]%orb_false_iff _].
  destruct (_ && _); [done|]. destruct (validateObserved _ _); [done|]. by injection H as <-.
Qed.

Lemma fixturePolicy_inv current pol db db' :
  (match current with
   | None => mret PolicyTrusted
   | Some c => health ← loadFixtureHealth c.(fixture.fID); mret (FixtureHealthPolicy health)
   end : Tx MutationPolicy) db = inr (pol, db') → db' = db.
Proof.
  destruct current; intros H; tx_inv; [|done].
  by match goal with H : loadFixtureHealth _ _ = _ |- _ => apply loadHealth_inv in H end.
Qed.

Lemma ApplyFixture_outcome plan r db db' :
  db_ok db → ApplyFixture now mode plan db = inr (r, db') →
  let p := normalizeFixtureMutationPlan plan in
  ∃ f, validateFixtureMutationPlan p = inr f ∧ 0 < f.(fixture.fID) ∧
    outcome p.(fpGuard) f.(fixture.fID) (fixtureWrites p f) db r db'.
Proof.
  intros Hok. unfold ApplyFixture. destruct (negb _); [done|]. cbv zeta.
  set (p := normalizeFixtureMutationPlan plan). intros H. tx_inv.
  match goal with H : lift _ _ = _ |- _ => apply lift_inv in H as [Hf ->] end.
  match goal with H : validateFixtureMutationPlan _ = inr ?g |- _ => rename g into f end.
  exists f. split; [done|]. pose proof (validateFixture_id _ _ Hf) as HF. split; [done|].
  match goal with H : lockProviderMutationPolicy _ = inr (?q, _) |- _ =>
    destruct q as [[at_ g] pol]; apply lockPolicy_inv in H as (-> & -> & -> & -> & _) end. tx_inv.
  match goal with H : loadMutationReceipt _ _ _ = _ |- _ => apply loadReceipt_inv in H as [-> Hr] end.
  match type of Hr with match ?o with _ => _ end => destruct o as [rc|] end; tx_inv.
  { destruct Hr as (rc' & Hrc & Hat & ->). by apply out_receipt. }
  destruct (fixtureStale _ _) eqn:Hstale; [by eapply stale_outcome|]. tx_inv.
  match goal with H : (match _ with None => _ | Some _ => _ end) _ = inr _ |- _ =>
    apply fixturePolicy_inv in H as -> end.
  match goal with H : context [DecideMutation ?m ?a ?b ?c] |- _ =>
    pose proof (DecideMutation_values a b c) as Hv;
    destruct (DecideMutation m a b c) as [d pol] end. cbn [snd] in Hv.
  destruct Hv as [Hv|[Hv|Hv]].
  3: { subst pol. rewrite String.eqb_refl in *.
    match goal with H : commitMutationResult _ _ _ _ _ = inr (?r, _) |- _ =>
      pose proof (commit_result _ _ _ _ _ _ _ HF H) as Hro; subst r end. by apply out_unapplied. }
  all: assert (pol = PolicyTrusted ∨ pol = PolicyPositiveOnly) as Hpol
    by (first [by left|by right]).
  all: assert (pol ≠ PolicyRejected) as Hne by by subst pol.
  all: apply String.eqb_neq in Hne; rewrite Hne in *; tx_inv.
  all: assert (current_ok f.(fixture.fID) db (dbFixtures db !! f.(fixture.fID))) as Hcur
    by (split; [done|]; intros c Hc; by apply (ok_fixture _ Hok) in Hc as [? _]).
  all: match goal with H : applyFixtureWrites _ _ _ _ _ _ _ = inr (?o, _) |- _ =>
    pose proof (applyFixtureWrites_writes _ _ _ _ _ _ _ _ Hpol Hcur H) as [_ Ho];
    rename H into Hw; destruct o as [out|] end.
  2, 4: rewrite Ho in *; by eapply stale_outcome.
  all: match goal with H : commitMutationResult _ _ _ ?o _ = inr (?r, _) |- _ =>
    pose proof (commit_result _ _ _ _ _ _ _ HF H) as Hro; subst o end.
  all: destruct Ho as [Hp Ha]; eapply (out_applied _ _ _ _ pol); [done..| |eassumption].
  all: eexists _, _; split; [exact Hcur|split; [exact Hstale|split; [by eexists|exact Hw]]].
Qed.

End compose.

End commit.
