(* ===== verification/Guarantees.v ===== *)
(** What the guarded write boundary promises to everything above it: the schema's
    invariants survive every call, a call touches one fixture only, a restricted
    policy only adds, a lifecycle only moves forward under any interleaving of
    calls, a retry repeats its answer, and the reported effects are the committed
    ones. *)
From S2P Require Import Prelude GoStrings ApiFootball Fixture Event Integrity Health Auditlog Presentation Plan Store Mutation Commit.
#[local] Open Scope string_scope.
#[local] Open Scope list_scope.
#[local] Open Scope Z_scope.
Import apifootball providerintegrity health mutation pg boundary commit.

Module guarantees.

(** ** Calls *)

Inductive call :=
  | callActive (plan : ActiveMutationPlan)
  | callFixture (plan : FixtureMutationPlan).

Definition planned (c : call) : option fixture.Fixture :=
  match c with callActive p => p.(apFixture) | callFixture p => p.(fpFixture) end.

Definition guardOf (c : call) : ObservationGuard :=
  normalizeGuard match c with callActive p => p.(apGuard) | callFixture p => p.(fpGuard) end.

(** The fixture a call is about. *)
Definition fixtureOf (c : call) : Z :=
  match planned c with Some f => f.(fixture.fID) | None => 0 end.

(** The environment of one call: the transaction's NOW(), the worker's clock, the
    text of an event id, and the rollout mode. *)
Record env := mkEnv {
  eNow : Time; eClock : Time; eText : UUID → string; eMode : EnforcementMode }.

Definition run (v : env) (c : call) : Tx MutationResult :=
  match c with
  | callActive p => ApplyActive v.(eNow) v.(eClock) v.(eText) v.(eMode) p
  | callFixture p => ApplyFixture v.(eNow) v.(eMode) p
  end.

(** ** The shape of a call *)

Definition callWrites (v : env) (c : call) (f : fixture.Fixture) :=
  match c with
  | callActive p => activeWrites v.(eNow) v.(eClock) v.(eText) (normalizeActiveMutationPlan p) f
  | callFixture p => fixtureWrites v.(eNow) (normalizeFixtureMutationPlan p) f
  end.

(** [f] is the fixture of a plan that passed validation. *)
Definition validated (c : call) (f : fixture.Fixture) : Prop :=
  match c with
  | callActive p => validateActiveMutationPlan (normalizeActiveMutationPlan p) = inr f
  | callFixture p => validateFixtureMutationPlan (normalizeFixtureMutationPlan p) = inr f
  end.

Lemma active_fixtureOf p f :
  validateActiveMutationPlan (normalizeActiveMutationPlan p) = inr f →
  f.(fixture.fID) = fixtureOf (callActive p).
Proof.
  intros (_ & Hp & _)%validateActive_id. cbn in Hp. unfold fixtureOf, planned.
  destruct (apFixture p); [|done]. by injection Hp as <-.
Qed.

Lemma fixture_fixtureOf p f :
  validateFixtureMutationPlan (normalizeFixtureMutationPlan p) = inr f →
  f.(fixture.fID) = fixtureOf (callFixture p).
Proof.
  intros Hf. assert (fpFixture (normalizeFixtureMutationPlan p) = Some f) as Hp.
  { revert Hf. unfold validateFixtureMutationPlan. repeat case_match; congruence. }
  cbn in Hp. unfold fixtureOf, planned. destruct (fpFixture p); [|done]. by injection Hp as <-.
Qed.

Lemma validated_id c f : validated c f → f.(fixture.fID) = fixtureOf c.
Proof. destruct c; [apply active_fixtureOf|apply fixture_fixtureOf]. Qed.

Lemma run_outcome v c r db db' :
  db_ok db → run v c db = inr (r, db') →
  ∃ f, validated c f ∧ 0 < fixtureOf c ∧ f.(fixture.fID) = fixtureOf c ∧
    outcome (guardOf c) (fixtureOf c) (callWrites v c f) db r db'.
Proof.
  intros Hok H. destruct c as [p|p]; cbn [run] in H.
  - apply ApplyActive_outcome in H as (f & Hf & HF & Ho); [|done]. exists f.
    by rewrite <-(validated_id (callActive p) f Hf).
  - apply ApplyFixture_outcome in H as (f & Hf & HF & Ho); [|done]. exists f.
    by rewrite <-(validated_id (callFixture p) f Hf).
Qed.

Lemma callWrites_writes v c f policy db r db1 :
  policy = PolicyTrusted ∨ policy = PolicyPositiveOnly → f.(fixture.fID) = fixtureOf c →
  callWrites v c f policy db r db1 →
  rtc (write (fixtureOf c) (String.eqb policy PolicyTrusted) v.(eNow)) db db1.
Proof.
  intros Hpol Hf H. destruct c as [p|p]; cbn [callWrites] in H.
  - destruct H as (current & out & Hcur & Hid & _ & _ & H). rewrite Hf in Hcur, Hid.
    rewrite <-Hid in *. eapply applyActiveWrites_writes; eauto; congruence.
  - destruct H as (current & out & Hcur & _ & _ & H). rewrite Hf in Hcur.
    rewrite <-Hf in *. by eapply applyFixtureWrites_writes in H as [H _].
Qed.

Lemma run_writes v c r db db' :
  db_ok db → run v c db = inr (r, db') →
  ∃ db1, rtc (write (fixtureOf c) (String.eqb r.(mrPolicy) PolicyTrusted) v.(eNow)) db db1 ∧
    rtc (settle (fixtureOf c)) db1 db' ∧ (r.(mrApplied) = false → db1 = db).
Proof.
  intros Hok (f & _ & HF & Hf & Ho)%run_outcome; [|done].
  destruct Ho as [rc _ _|r db' _ _ _ _ _ Hc|policy r db1 db' _ Hpol Hp Ha Hw Hc].
  - exists db. split_and!; [apply rtc_refl..|done].
  - exists db. split_and!; [apply rtc_refl|by eapply commit_settles|done].
  - exists db1. rewrite Hp. split_and!; [by eapply callWrites_writes|by eapply commit_settles|].
    intros; congruence.
Qed.

(** C2: Refinement: a successful call of the write boundary is a run of the
    [write] steps of its own fixture, under the policy it reports, followed by
    the bookkeeping of its receipt; nothing is written when nothing was applied. *)
Theorem run_refines v c r db db' :
  db_ok db → run v c db = inr (r, db') →
  ∃ db1, rtc (write (fixtureOf c) (String.eqb r.(mrPolicy) PolicyTrusted) v.(eNow)) db db1 ∧
    rtc (settle (fixtureOf c)) db1 db' ∧ (r.(mrApplied) = false → db1 = db).
Proof. apply run_writes. Qed.

(** ** The schema's invariants *)

Lemma event_write_check_keys trusted now e e' :
  event_write trusted now e e' → e'.(event.eID) = e.(event.eID) ∧
  e'.(event.eFixtureID) = e.(event.eFixtureID) ∧ e'.(event.eNaturalKey) = e.(event.eNaturalKey).
Proof. apply event_write_keys. Qed.

(** Replacing or adding one event row keeps every reference to it. *)
Lemma setEvent_keeps id e db i : is_Some (dbEvents db !! i) → is_Some (dbEvents (setEvent id e db) !! i).
Proof. intros H. cbn. rewrite lookup_insert. by case_decide. Qed.

Lemma setFixture_keeps id f db i :
  is_Some (dbFixtures db !! i) → is_Some (dbFixtures (setFixture id f db) !! i).
Proof. intros H. cbn. rewrite lookup_insert. by case_decide. Qed.

Lemma setFixture_ok F r db :
  db_ok db → r.(fixture.fID) = F → fixtures_check r = true → db_ok (setFixture F r db).
Proof.
  intros [] Hid Hc. split; try done.
  - intros i f. cbn. rewrite lookup_insert. case_decide; [|by auto]. intros [= <-]. by subst.
  - intros id e He. destruct (ok_event0 id e He) as (? & ? & ?).
    split_and!; [done|done|by apply setFixture_keeps].
  - intros o i rc Hr. destruct (ok_receipt0 o i rc Hr). split; [by apply setFixture_keeps|done].
Qed.

(** A new row under a free key, or a row that keeps its keys. *)
Lemma setEvent_ok id e db :
  db_ok db → e.(event.eID) = id → events_check e = true →
  is_Some (dbFixtures db !! e.(event.eFixtureID)) →
  (∀ x, dbEvents db !! id = Some x → x.(event.eFixtureID) = e.(event.eFixtureID)) →
  (∀ i x, i ≠ id → dbEvents db !! i = Some x → x.(event.eFixtureID) = e.(event.eFixtureID) →
     x.(event.eNaturalKey) ≠ e.(event.eNaturalKey)) →
  db_ok (setEvent id e db).
Proof.
  intros [] Hid Hc Hf Hfx Hu. split; try done.
  - intros i x. cbn. rewrite lookup_insert. case_decide; [|by auto]. intros [= <-]. by subst.
  - intros i1 i2 e1 e2. cbn. rewrite !lookup_insert.
    repeat case_decide; simplify_eq; try done; intros H1 H2 HF HK; simplify_eq.
    + by destruct (Hu i2 e2).
    + by destruct (Hu i1 e1).
    + by eapply ok_natural_key0.
  - intros i w Hi. by eapply setEvent_keeps, ok_monitor0.
  - intros i w Hi. by eapply setEvent_keeps, ok_drop0.
  - intros k d Hk. by eapply setEvent_keeps, ok_downstream0.
  - intros k d Hk. destruct (ok_candidate0 k d Hk) as (x & Hx & Hxf). cbn. rewrite lookup_insert.
    case_decide as Hd; [|by eauto]. exists e. split; [done|]. rewrite <-(Hfx x); [done|by rewrite Hd].
  - intros k d Hk. by eapply setEvent_keeps, ok_download0.
Qed.

Lemma cascadeEvent_ok id db : db_ok db → db_ok (cascadeEvent id db).
Proof.
  intros []. assert (∀ i, i ≠ id → is_Some (dbEvents db !! i) →
    is_Some (dbEvents (cascadeEvent id db) !! i)) as Hk.
  { intros i Hi. cbn. by rewrite lookup_delete_ne. }
  split; try done.
  - intros i e H. cbn in H. apply lookup_delete_Some in H as [_ H]. by apply ok_event0.
  - intros i1 i2 e1 e2 H1 H2. cbn in H1, H2. apply lookup_delete_Some in H1 as [_ H1], H2 as [_ H2].
    by eapply ok_natural_key0.
  - intros i w H. cbn in H. apply elem_of_filter in H as [Hi Hw]. by eapply Hk, ok_monitor0.
  - intros i w H. cbn in H. apply elem_of_filter in H as [Hi Hw]. by eapply Hk, ok_drop0.
  - intros k d H. cbn in H. apply map_lookup_filter_Some in H as [Hd Hi].
    by eapply Hk, ok_downstream0.
  - intros k d H. cbn in H. apply map_lookup_filter_Some in H as [Hd Hi].
    destruct (ok_candidate0 k d Hd) as (x & Hx & Hxf). exists x. cbn. by rewrite lookup_delete_ne.
  - intros k d H. cbn in H. apply map_lookup_filter_Some in H as [Hd Hi].
    by eapply Hk, ok_download0.
Qed.

Lemma fixture_write_keeps_id trusted r r' : fixture_write trusted r r' → r'.(fixture.fID) = r.(fixture.fID).
Proof. destruct 1 as [r r' []| |]; done. Qed.

Lemma write_db_ok F trusted now db db' : write F trusted now db db' → db_ok db → db_ok db'.
Proof.
  intros H Hok. pose proof Hok as Hok'. destruct Hok'. destruct H as
    [db r Hn Hid Hc|db r r' Hr Hw Hc|db e Hf Hn HF Hc Hu|db id e e' He HF Hw Hc|db id e|db id w e He
    |db id w e _ He|db id t w e He _ Hn|db id outcome e|db id at_ e|db r].
  - by apply setFixture_ok.
  - apply setFixture_ok; [done| |done]. rewrite (fixture_write_keeps_id _ _ _ Hw).
    by destruct (ok_fixture0 _ _ Hr).
  - apply setEvent_ok; try done; [by rewrite HF|intros x; by rewrite Hn|]. intros i x _ Hx Hxf. apply (Hu _ _ Hx). congruence.
  - destruct (event_write_check_keys _ _ _ _ Hw) as (Hi & Hf & Hk).
    destruct (ok_event0 _ _ He) as (Hid & _ & Hfix).
    apply setEvent_ok; [done|congruence|done|by rewrite Hf| |].
    { intros x Hx. rewrite He in Hx. injection Hx as <-. by rewrite Hf. }
    intros i x Hne Hx Hxf Hxk. apply Hne. eapply ok_natural_key0; [exact Hx|exact He|congruence..].
  - by apply cascadeEvent_ok.
  - split; try done. intros i w'. cbn. intros [[= -> ->]%elem_of_singleton|Hv]%elem_of_union; eauto.
  - split; try done. intros i w'. cbn. intros [[= -> ->]%elem_of_singleton|Hv]%elem_of_union; eauto.
  - split; try done. intros k d. cbn. rewrite lookup_insert. case_decide; [subst k; by eauto|].
    apply ok_downstream0.
  - split; try done. intros k d. cbn. rewrite map_lookup_imap.
    destruct (dbDownstream db !! k) eqn:E; [|done]. intros _. by eapply ok_downstream0.
  - split; try done. intros k d. cbn. rewrite map_lookup_imap.
    destruct (dbCandidates db !! k) as [c|] eqn:E; [|done]. intros [= <-].
    destruct (ok_candidate0 _ _ E) as (x & Hx & Hxf). exists x. split; [done|]. rewrite Hxf.
    by case_match.
  - by split.
Qed.

Lemma settle_db_ok F db db' : settle F db db' → db_ok db → db_ok db'.
Proof.
  intros H []. destruct H as [db obs r Hf Hn Hg|db keys]; split; try done; intros o i rc H; cbn in H.
  - rewrite lookup_insert in H. case_decide; [|by eapply ok_receipt0]. simplify_eq. done.
  - apply lookup_foldr_delete_Some in H. by eapply ok_receipt0.
Qed.

Lemma writes_db_ok F trusted now db db' : rtc (write F trusted now) db db' → db_ok db → db_ok db'.
Proof. induction 1; eauto using write_db_ok. Qed.

Lemma settles_db_ok F db db' : rtc (settle F) db db' → db_ok db → db_ok db'.
Proof. induction 1; eauto using settle_db_ok. Qed.

(** The bookkeeping touches the receipts only. *)
Lemma settles_receipts F db db' : rtc (settle F) db db' → ∃ t, db' = db <| dbReceipts := t |>.
Proof.
  induction 1 as [db|db db1 db2 H _ (t & ->)]; [exists (dbReceipts db); by destruct db|].
  exists t. by destruct H.
Qed.

Lemma run_db_ok v c r db db' : db_ok db → run v c db = inr (r, db') → db_ok db'.
Proof.
  intros Hok H. destruct (run_writes _ _ _ _ _ Hok H) as (db1 & Hw & Hs & _).
  eapply settles_db_ok; [done|]. by eapply writes_db_ok.
Qed.

(** Every successful call preserves what schema.sql declares: rows sit under
    their keys and pass their checks, every event, vote, checklist row, candidate
    and receipt refers to an existing row, and no two events of a fixture share a
    natural key. *)
Theorem run_preserves_schema v c r db db' :
  db_ok db → run v c db = inr (r, db') → db_ok db'.
Proof. apply run_db_ok. Qed.

(** ** Scope *)

(** What belongs to other fixtures than [F] is what it was. *)
Record others_untouched (F : Z) (db db' : DB) : Prop := {
  ot_fixture i : i ≠ F → dbFixtures db' !! i = dbFixtures db !! i;
  ot_event id e : e.(event.eFixtureID) ≠ F → dbEvents db !! id = Some e ↔ dbEvents db' !! id = Some e }.

Lemma write_others F trusted now db db' : write F trusted now db db' → others_untouched F db db'.
Proof.
  intros H. split.
  - intros i Hi. destruct H; cbn; try done; by rewrite lookup_insert_ne.
  - intros id x Hx. destruct H as
      [db r|db r r'|db e Hf Hn HF Hc Hu|db i e e' He HF Hw Hc|db i e _ He HF| | | | | |]; cbn; try done.
    + rewrite lookup_insert. case_decide as Hd; [|done]. subst id. rewrite Hn. split; intros [= ->]; done.
    + rewrite lookup_insert. case_decide as Hd; [|done]. subst i. rewrite He.
      apply event_write_check_keys in Hw as (_ & Hw & _). split; intros [= <-]; congruence.
    + rewrite lookup_delete. case_decide as Hd; [|done]. subst i. rewrite He.
      split; [intros [= <-]|]; congruence.
Qed.

Lemma others_trans F db1 db2 db3 :
  others_untouched F db1 db2 → others_untouched F db2 db3 → others_untouched F db1 db3.
Proof.
  intros [A1 A2] [B1 B2]. split.
  - intros i Hi. by rewrite B1, A1.
  - intros id e He. by rewrite A2, B2.
Qed.

(** Isolation: whatever event ids a plan names, a successful call for one
    fixture leaves the row of every other fixture and every event of every other
    fixture exactly as it was. *)
Theorem run_isolated v c r db db' :
  db_ok db → run v c db = inr (r, db') → others_untouched (fixtureOf c) db db'.
Proof.
  intros Hok H. destruct (run_writes v c r db db' Hok H) as (db1 & Hw & [t ->]%settles_receipts & _).
  clear H Hok. induction Hw; [done|]. eapply others_trans; [by eapply write_others|done].
Qed.

(** ** Restricted policies *)

(** What an observation says of an event and what decides whether it stands. *)
Definition observedFacts (e : event.Event) :=
  (e.(event.eType), e.(event.eDetail), e.(event.eTeam), e.(event.ePlayer), e.(event.eMinute),
   e.(event.eExtra), e.(event.eRemoved), e.(event.eRemovedReason), e.(event.eRemovedAt)).

Record event_adds (e e' : event.Event) : Prop := {
  ea_facts : observedFacts e' = observedFacts e;
  ea_votes : e.(event.eDebounceCount) ≤ e'.(event.eDebounceCount);
  ea_triggered : e.(event.eDownstreamTriggered) = true → e'.(event.eDownstreamTriggered) = true;
  ea_assist : fills e.(event.eAssist) e'.(event.eAssist) }.

Record adds (db db' : DB) : Prop := {
  ad_fixture i r : dbFixtures db !! i = Some r →
    ∃ r', dbFixtures db' !! i = Some r' ∧ fixture_grows r r';
  ad_event id e : dbEvents db !! id = Some e →
    ∃ e', dbEvents db' !! id = Some e' ∧ event_adds e e';
  ad_drop : dbDropVotes db' = dbDropVotes db;
  ad_candidates : dbCandidates db' = dbCandidates db;
  ad_votes : dbMonitorVotes db ⊆ dbMonitorVotes db';
  ad_downstream k d : dbDownstream db !! k = Some d → dbDownstream db' !! k = Some d }.

Lemma team_grows_trans t1 t2 t3 : team_grows t1 t2 → team_grows t2 t3 → team_grows t1 t3.
Proof.
  intros [A1 A2] [B1 B2]. split; [congruence|]. intros Hn. rewrite B2; [by apply A2|]. by rewrite A2.
Qed.

Lemma option_le_trans a b c : option_le a b → option_le b c → option_le a c.
Proof.
  unfold option_le. destruct a as [x|]; [|done]. intros (y & -> & Hy) (z & -> & Hz).
  exists z. split; [done|lia].
Qed.

#[global] Instance fixture_grows_preorder : PreOrder fixture_grows.
Proof.
  split.
  - intros r. split; auto using option_le_refl, team_grows_refl.
  - intros a b c [A1 A2 A3 A4 A5 A6 A7 A8] [B1 B2 B3 B4 B5 B6 B7 B8]. split.
    + exact (option_le_trans _ _ _ A1 B1).
    + exact (option_le_trans _ _ _ A2 B2).
    + exact (option_le_trans _ _ _ A3 B3).
    + exact (option_le_trans _ _ _ A4 B4).
    + exact (team_grows_trans _ _ _ A5 B5).
    + exact (team_grows_trans _ _ _ A6 B6).
    + by rewrite B7.
    + by rewrite B8.
Qed.

Lemma fills_trans p q r : fills p q → fills q r → fills p r.
Proof.
  intros [A1 A2] [B1 B2]. split; intros H.
  - rewrite B1; [by apply A1|]. by rewrite A1.
  - rewrite B2; [by apply A2|]. by rewrite A2.
Qed.

#[global] Instance event_adds_preorder : PreOrder event_adds.
Proof.
  split.
  - by split.
  - intros a b c [A1 A2 A3 A4] [B1 B2 B3 B4].
    split; [by rewrite B1|lia|auto|exact (fills_trans _ _ _ A4 B4)].
Qed.

#[global] Instance adds_preorder : PreOrder adds.
Proof.
  split.
  - split; try done; eauto.
    + intros i r Hr. exists r. by split.
    + intros id e He. exists e. by split.
  - intros a b c [A1 A2 A3 A4 A5 A6] [B1 B2 B3 B4 B5 B6]. split.
    + intros i r (r1 & (r2 & H2 & G2)%B1 & G1)%A1. exists r2. split; [done|by trans r1].
    + intros i r (r1 & (r2 & H2 & G2)%B2 & G1)%A2. exists r2. split; [done|by trans r1].
    + by rewrite B3.
    + by rewrite B4.
    + by trans (dbMonitorVotes b).
    + auto.
Qed.

Lemma event_write_adds now e e' :
  events_check e = true → event_write false now e e' → event_adds e e'.
Proof.
  intros Hc H. inversion H; subst; try done; split; try done; cbn.
  - unfold events_check, events_debounce_check in Hc. rewrite !andb_true_iff in Hc.
    destruct Hc as [[_ [_ Hle%Z.leb_le]] _]. lia.
  - unfold fills, coalesce. split; cbn; intros [? Hs]; by rewrite Hs.
Qed.

Lemma fixture_write_grows r r' : fixture_write false r r' → fixture_grows r r'.
Proof. destruct 1; [auto..|done]. Qed.

Lemma insert_adds {V} `{Countable K} (R : relation V) `{!Reflexive R} (m : gmap K V) k v :
  (∀ v0, m !! k = Some v0 → R v0 v) →
  ∀ i x, m !! i = Some x → ∃ y, <[k := v]> m !! i = Some y ∧ R x y.
Proof.
  intros HR i x Hx. destruct (decide (k = i)) as [->|Hne].
  - exists v. rewrite lookup_insert_eq. auto.
  - exists x. by rewrite lookup_insert_ne.
Qed.

Lemma write_adds F now db db' : db_ok db → write F false now db db' → adds db db'.
Proof.
  intros Hok H. pose proof (reflexivity db : adds db db) as [R1 R2 R3 R4 R5 R6].
  destruct H as
    [db r Hn Hid Hc|db r r' Hr Hw Hc|db e Hf Hn HF Hc Hu|db id e e' He HF Hw Hc|db id e|db id w e He
    |db id w e|db id t w e He _ Hn|db id outcome e|db id at_ e|db r]; try done.
  - split; try done. cbn. apply insert_adds; [apply _|]. congruence.
  - split; try done. cbn. apply insert_adds; [apply _|]. intros v0 Hv.
    rewrite Hr in Hv. injection Hv as <-. by apply fixture_write_grows.
  - split; try done. cbn. apply insert_adds; [apply _|]. congruence.
  - split; try done. cbn. apply insert_adds; [apply _|]. intros v0 Hv.
    rewrite He in Hv. injection Hv as <-. eapply event_write_adds; [|done].
    by destruct (ok_event _ Hok _ _ He) as (_ & ? & _).
  - split; try done. cbn. set_solver.
  - split; try done. intros k d Hk. cbn. rewrite lookup_insert_ne; [done|]. congruence.
Qed.

(** C17: Safety of a restricted policy: a call that reports any policy but
    [trusted] deletes nothing, removes no event, casts no absence vote, lowers no
    score and no vote, rewrites no recorded fact of an event, fills in an assist
    or a name only where none was stored, and leaves the completion clock. *)
Theorem restricted_only_adds v c r db db' :
  db_ok db → run v c db = inr (r, db') → r.(mrPolicy) ≠ PolicyTrusted → adds db db'.
Proof.
  intros Hok H Hp. destruct (run_writes v c r db db' Hok H) as (db1 & Hw & [t ->]%settles_receipts & _).
  clear H. apply String.eqb_neq in Hp. rewrite Hp in Hw. trans db1; [|by destruct (reflexivity db1 : adds db1 db1); split].
  induction Hw; [done|]. etrans; [by eapply write_adds|]. apply IHHw. by eapply write_db_ok.
Qed.

(** A call that applied nothing - stale, rejected, or answered from a receipt -
    leaves every table but the receipts as it was. *)
Theorem unapplied_changes_only_receipts v c r db db' :
  db_ok db → run v c db = inr (r, db') → r.(mrApplied) = false →
  ∃ receipts, db' = db <| dbReceipts := receipts |>.
Proof.
  intros Hok H Ha. destruct (run_writes v c r db db' Hok H) as (db1 & _ & Hs & H1).
  rewrite (H1 Ha) in Hs. by apply settles_receipts in Hs.
Qed.

(** ** Retries *)

(** The call passes the checks that come before the transaction. *)
Definition wellFormed (v : env) (c : call) : Prop :=
  EnforcementMode_Valid v.(eMode) = true ∧ ∃ f, validated c f.

Definition receiptKey (c : call) : string * Z := ((guardOf c).(ogObservationID), fixtureOf c).

Lemma lockPolicy_run db :
  Policy_Valid db.(dbProvider).(pPolicy) = true →
  lockProviderMutationPolicy db = inr (db.(dbProvider).(pLastObservedAt),
    db.(dbProvider).(pGeneration), db.(dbProvider).(pPolicy), db).
Proof.
  intros Hp. unfold lockProviderMutationPolicy, query, require, mbind, Tx_bind. by rewrite Hp.
Qed.

Lemma loadReceipt_run guard F db rc :
  dbReceipts db !! (guard.(ogObservationID), F) = Some rc →
  rc.(rcObservedAt) = guard.(ogObservedAt) →
  loadMutationReceipt guard F db = inr (Some rc.(rcResult), db).
Proof.
  intros Hr Ht. unfold loadMutationReceipt, query, require, mbind, Tx_bind.
  by rewrite Hr, Ht, Z.eqb_refl.
Qed.

Lemma run_receipt v c db rc :
  wellFormed v c → Policy_Valid db.(dbProvider).(pPolicy) = true →
  dbReceipts db !! receiptKey c = Some rc → rc.(rcObservedAt) = (guardOf c).(ogObservedAt) →
  run v c db = inr (rc.(rcResult), db).
Proof.
  intros [Hm Hc] Hp Hr Ht. unfold receiptKey in Hr. destruct Hc as [f Hf].
  destruct c as [p|p]; cbn [run validated] in *.
  - pose proof (active_fixtureOf _ _ Hf) as HF. unfold ApplyActive. rewrite Hm. cbn [negb]. cbv zeta.
    rewrite Hf. unfold mbind, Tx_bind. cbn [lift]. unfold mret, Tx_ret.
    rewrite lockPolicy_run by done. by rewrite HF, (loadReceipt_run _ _ _ rc).
  - pose proof (fixture_fixtureOf _ _ Hf) as HF. unfold ApplyFixture. rewrite Hm. cbn [negb]. cbv zeta.
    rewrite Hf. unfold mbind, Tx_bind. cbn [lift]. unfold mret, Tx_ret.
    rewrite lockPolicy_run by done. by rewrite HF, (loadReceipt_run _ _ _ rc).
Qed.

Lemma normalized_observedAt c : timestamptz (guardOf c).(ogObservedAt) = (guardOf c).(ogObservedAt).
Proof. apply timestamptz_idemp. Qed.

Lemma writes_receipts F trusted now db db' :
  rtc (write F trusted now) db db' → dbReceipts db' = dbReceipts db.
Proof. induction 1 as [|db db1 db2 H _ ->]; [done|]. by destruct H. Qed.

(** The answer of a call is its receipt. *)
Lemma run_leaves_receipt v c r db db' :
  db_ok db → run v c db = inr (r, db') →
  ∃ rc, dbReceipts db' !! receiptKey c = Some rc ∧ rc.(rcObservedAt) = (guardOf c).(ogObservedAt) ∧
    rc.(rcResult) = r.
Proof.
  intros Hok (f & _ & HF & Hf & Ho)%run_outcome; [|done].
  destruct Ho as [rc Hrc Ht|r db' Hn _ _ _ _ Hc|policy r db1 db' Hn Hpol _ _ Hw Hc].
  - by exists rc.
  - eapply commit_receipt in Hc; [|done|apply normalized_observedAt|done]. by eexists.
  - eapply commit_receipt in Hc; [by eexists|done|apply normalized_observedAt|].
    apply callWrites_writes in Hw; [|done..]. by rewrite (writes_receipts _ _ _ _ _ Hw).
Qed.

(** Idempotence: once a call has returned, every later call that carries the
    same observation of the same fixture - whatever it plans, whatever the mode,
    whatever was committed in between, as long as the receipt is still stored -
    returns the same answer and changes nothing. *)
Theorem retry_repeats v c r db db' v2 c2 db2 :
  db_ok db → run v c db = inr (r, db') →
  wellFormed v2 c2 → receiptKey c2 = receiptKey c →
  (guardOf c2).(ogObservedAt) = (guardOf c).(ogObservedAt) →
  Policy_Valid db2.(dbProvider).(pPolicy) = true →
  dbReceipts db2 !! receiptKey c = dbReceipts db' !! receiptKey c →
  run v2 c2 db2 = inr (r, db2).
Proof.
  intros Hok H Hwf Hk Ht Hp Hr. destruct (run_leaves_receipt _ _ _ _ _ Hok H) as (rc & Hrc & Hat & <-).
  apply run_receipt; [done|done| |congruence]. by rewrite Hk, Hr.
Qed.

(** ** Lifecycles under any interleaving *)

(** One successful call of any worker, at any time, in any mode. *)
Inductive committed : relation DB :=
  | committed_call v c r db db' : run v c db = inr (r, db') → committed db db'.

(** A fixture never goes back, and what a state has fixed stays fixed. *)
Record fixture_forward (f f' : fixture.Fixture) : Prop := {
  ff_id : f'.(fixture.fID) = f.(fixture.fID);
  ff_active : f.(fixture.fState) = fixture.StateActive →
    (f'.(fixture.fState) = fixture.StateActive ∨ f'.(fixture.fState) = fixture.StateCompleted) ∧
    f'.(fixture.fActivatedAt) = f.(fixture.fActivatedAt);
  ff_completed : f.(fixture.fState) = fixture.StateCompleted →
    f'.(fixture.fState) = fixture.StateCompleted ∧
    f'.(fixture.fActivatedAt) = f.(fixture.fActivatedAt) ∧
    f'.(fixture.fCompletedAt) = f.(fixture.fCompletedAt) ∧
    f'.(fixture.fTerminalObservedAt) = f.(fixture.fTerminalObservedAt) }.

#[global] Instance fixture_forward_preorder : PreOrder fixture_forward.
Proof.
  split; [by split; auto|]. intros a b c [A1 A2 A3] [B1 B2 B3]. split.
  - congruence.
  - intros H. destruct (A2 H) as [[Hb|Hb] Ha].
    + destruct (B2 Hb) as [Hc Hca]. split; [done|congruence].
    + destruct (B3 Hb) as (Hc & Hca & _). split; [by right|congruence].
  - intros H. destruct (A3 H) as (Hb & Ha1 & Ha2 & Ha3). destruct (B3 Hb) as (Hc & Hb1 & Hb2 & Hb3).
    split_and!; [done|congruence..].
Qed.

Lemma fixture_write_forward trusted r r' : fixture_write trusted r r' → fixture_forward r r'.
Proof.
  destruct 1 as [r r' [Hi Hs Ha Hc Ht] _|r r' Hs _ Hi _|r r' _ Hs Hs' Hi Ha _]; split; try done;
    rewrite ?Hs; try done.
  - intros H. split; [by left|done].
  - intros H. split_and!; [done..|]. apply Ht. by rewrite H.
  - intros _. split; [by right|done].
Qed.

(** Every fixture is still there, further along. *)
Definition forward_db (db db' : DB) : Prop :=
  ∀ i f, dbFixtures db !! i = Some f → ∃ f', dbFixtures db' !! i = Some f' ∧ fixture_forward f f'.

#[global] Instance forward_db_preorder : PreOrder forward_db.
Proof.
  split.
  - intros db i f Hf. by exists f.
  - intros a b c A B i f (g & (h & Hh & Gh)%B & Gg)%A. exists h. split; [done|by trans g].
Qed.

Lemma write_forward F trusted now db db' : write F trusted now db db' → forward_db db db'.
Proof.
  destruct 1 as [db r Hn|db r r' Hr Hw| | | | | | | | |]; try (intros i f Hf; by exists f).
  - unfold forward_db. cbn. apply (insert_adds fixture_forward). congruence.
  - unfold forward_db. cbn. apply (insert_adds fixture_forward).
    intros v0 Hv. rewrite Hr in Hv. injection Hv as <-. by eapply fixture_write_forward.
Qed.

Lemma run_forward v c r db db' : db_ok db → run v c db = inr (r, db') → forward_db db db'.
Proof.
  intros Hok H. destruct (run_writes v c r db db' Hok H) as (db1 & Hw & [t ->]%settles_receipts & _).
  assert (forward_db db db1) as Hf.
  { clear H Hok. induction Hw; [done|]. etrans; [by eapply write_forward|done]. }
  exact Hf.
Qed.

(** Lifecycle: under any interleaving of successful calls a fixture keeps its
    row; an active one stays active or completes and keeps its activation time; a
    completed one stays completed for ever, with the same activation, completion
    and terminal times. *)
Theorem lifecycle_forward db db' : db_ok db → rtc committed db db' → forward_db db db'.
Proof.
  intros Hok H. revert Hok. induction H as [|x y z [v c r db1 db2 Hrun] _ IH]; [done|].
  intros Hok. trans db2; [by eapply run_forward|]. by eapply IH, run_db_ok.
Qed.

(** ** The schema and the aggregate agree *)

(** The checks of schema.sql on a fixture row are exactly the aggregate's
    ValidateInvariants: storage accepts a row if and only if the domain does. *)
Theorem fixtures_check_is_ValidateInvariants f :
  fixtures_check f = true ↔ fixture.ValidateInvariants f = None.
Proof.
  unfold fixtures_check, fixtures_state_check, fixtures_terminal_observation_state,
    fixture.ValidateInvariants. unfold one_of. cbn [existsb].
  destruct (String.eqb_spec (fixture.fState f) fixture.StateStaging) as [E|H1];
    [rewrite E|destruct (String.eqb_spec (fixture.fState f) fixture.StateActive) as [E|H2];
      [rewrite E|destruct (String.eqb_spec (fixture.fState f) fixture.StateCompleted) as [E|H3]]];
    by destruct (fixture.fActivatedAt f), (fixture.fCompletedAt f), (fixture.fTerminalObservedAt f).
Qed.

(** ** Fixtures that are not stored *)

(** Error behaviour: a receipt refers to a stored fixture, so a call for a
    fixture that is not stored either inserts it or fails; it never returns the
    stale or the rejected result its plan would have had. *)
Theorem absent_fixture_never_reports v c r db db' :
  db_ok db → dbFixtures db !! fixtureOf c = None → run v c db = inr (r, db') →
  r.(mrApplied) = true.
Proof.
  intros Hok Hn (f & _ & HF & Hf & Ho)%run_outcome; [|done].
  destruct Ho as [rc Hrc _|r db' Hr _ _ _ _ Hc|]; [exfalso..|done].
  - apply (ok_receipt _ Hok) in Hrc as [[? Hs] _]. congruence.
  - apply commitMutationResult_inv in Hc as (_ & keys & [([? Hs] & _)|(_ & [? Hs] & _)]); [congruence..|done].
Qed.

End guarantees.
