(* ===== verification/Preserve.v ===== *)
(** Invariants of the tables: a calculus of invariant-preserving transactions
    ([keeps]), and the two invariants every repository maintains - the declared
    schema ([db_ok]), and that a removed event has no pending candidate
    ([removed_closed]). *)
From S2P Require Import Prelude GoStrings ApiFootball Fixture Event Integrity Health Auditlog Presentation Plan Jsonb Discovery Store Mutation Commit Guarantees.
#[local] Open Scope string_scope.
#[local] Open Scope list_scope.
#[local] Open Scope Z_scope.
Import health mutation discoverycontract pg boundary commit guarantees.

Module preserve.

(** ** The calculus *)

(** A committed [m] leads from tables that satisfy [I] to tables that do. *)
Definition keeps (I : DB → Prop) {A} (m : Tx A) : Prop :=
  ∀ db a db', I db → m db = inr (a, db') → I db'.

(** The rules for the control structure of a transaction. *)
Create HintDb keeps.

Section rules.
Context (I : DB → Prop).

Lemma tx_keeps_ret {A} (a : A) : keeps I (mret a : Tx A).
Proof. intros db x db' Hi H. by apply ret_inv in H as [_ ->]. Qed.

Lemma keeps_fail {A} err : keeps I (fail err : Tx A).
Proof. intros db x db' Hi H. done. Qed.

Lemma keeps_query {A} (q : DB → A) : keeps I (query q).
Proof. intros db x db' Hi H. by apply query_inv in H as [_ ->]. Qed.

Lemma keeps_require c err : keeps I (require c err).
Proof. intros db x db' Hi H. by apply require_inv in H as [_ ->]. Qed.

Lemma tx_keeps_bind {A B} (m : Tx A) (k : A → Tx B) :
  keeps I m → (∀ a, keeps I (k a)) → keeps I (m ≫= k).
Proof. intros Hm Hk db b db' Hi (a & db1 & H1 & H2)%bind_inv. eapply Hk; [|exact H2]. by eapply Hm. Qed.

(** The continuation may use what the first computation returned. *)
Lemma keeps_bind_val {A B} (m : Tx A) (k : A → Tx B) (P : A → Prop) :
  keeps I m → (∀ db a db', I db → m db = inr (a, db') → P a) → (∀ a, P a → keeps I (k a)) →
  keeps I (m ≫= k).
Proof.
  intros Hm HP Hk db b db' Hi (a & db1 & H1 & H2)%bind_inv.
  eapply Hk; [|by eapply Hm|exact H2]. by eapply HP.
Qed.

Lemma keeps_each {A R} (body : R → A → Tx R) ops :
  (∀ out op, op ∈ ops → keeps I (body out op)) → ∀ out, keeps I (each body out ops).
Proof.
  induction ops as [|op ops IH]; intros Hb out; cbn; [apply tx_keeps_ret|].
  apply tx_keeps_bind; [apply Hb; by left|]. intros. apply IH. intros. apply Hb. by right.
Qed.

Lemma tx_keeps_modify f : (∀ db, I db → I (f db)) → keeps I (modify f).
Proof. intros Hf db x db' Hi H. apply modify_inv in H as ->. by apply Hf. Qed.
End rules.

Lemma keeps_and (I J : DB → Prop) {A} (m : Tx A) :
  keeps I m → (∀ db a db', I db → J db → m db = inr (a, db') → J db') → keeps (λ db, I db ∧ J db) m.
Proof. intros HI HJ db a db' [Hi Hj] H. split; [by eapply HI|by eapply HJ]. Qed.

(** Walks through a transaction; what is left are the statements. *)
Ltac keeps_step :=
  match goal with
  | |- keeps _ (mret _) => apply tx_keeps_ret
  | |- keeps _ (fail _) => apply keeps_fail
  | |- keeps _ (query _) => apply keeps_query
  | |- keeps _ (selectEvent _) => apply keeps_query
  | |- keeps _ (selectFixture _) => apply keeps_query
  | |- keeps _ (require _ _) => apply keeps_require
  | |- keeps _ (eventsWhere _ _) => apply keeps_query
  | |- keeps _ (fixturesWhere _ _) => apply keeps_query
  | |- keeps _ (each _ _ _) => apply keeps_each; intros
  | |- keeps _ (_ ≫= _) => apply tx_keeps_bind; [|intros]
  | |- keeps _ (match ?x with _ => _ end) => destruct x eqn:?
  | |- keeps _ _ => solve [auto with keeps nocore]
  end.
Ltac solve_keeps := repeat keeps_step.

(** An operation for its effect only. *)
Definition discard {A} (m : Tx A) : Tx unit := _ ← m; mret tt.

(** ** The schema *)

(** A row update keeps the keys of an event, or of a fixture. *)
Definition keepsKeys (set_ : event.Event → event.Event) : Prop := ∀ e,
  (set_ e).(event.eID) = e.(event.eID) ∧ (set_ e).(event.eFixtureID) = e.(event.eFixtureID) ∧
  (set_ e).(event.eNaturalKey) = e.(event.eNaturalKey).

Section schema.
Context (now clock : Time).

Lemma updateEvent_ok id where_ set_ :
  keepsKeys set_ → keeps db_ok (updateEvent now id where_ set_).
Proof.
  intros Hk db r db' Hok [(_ & -> & _)|(e & He & _ & Hc & _ & ->)]%updateEvent_inv; [done|].
  destruct (ok_event _ Hok _ _ He) as (Hid & _ & Hf). destruct (Hk e) as (K1 & K2 & K3).
  apply setEvent_ok; cbn.
  - done.
  - by rewrite K1.
  - done.
  - by rewrite K2.
  - intros x Hx. rewrite He in Hx. injection Hx as <-. by rewrite K2.
  - intros i x Hne Hx Hxf Hxk. apply Hne. rewrite K2 in Hxf. rewrite K3 in Hxk.
    by eapply (ok_natural_key _ Hok i id x e).
Qed.

Lemma updateFixture_ok id where_ set_ :
  (∀ f, (set_ f).(fixture.fID) = f.(fixture.fID)) → keeps db_ok (updateFixture now id where_ set_).
Proof.
  intros Hk db r db' Hok [[-> _]|(f & Hf & _ & Hc & ->)]%updateFixture_inv; [done|].
  apply setFixture_ok; [done| |done]. cbn. rewrite Hk. by destruct (ok_fixture _ Hok _ _ Hf).
Qed.

Lemma insertEvent_ok e : keeps db_ok (insertEvent now e).
Proof.
  intros db r db' Hok (Hf & Hn & Hu & Hc & ->)%insertEvent_inv.
  apply setEvent_ok; [done..|intros x; by rewrite Hn|]. intros i x _ Hx Hxf. by apply (Hu i x Hx).
Qed.

Lemma insertMonitorVote_ok id w : keeps db_ok (insertMonitorVote id w).
Proof.
  intros db r db' Hok [(_ & -> & _)|(_ & _ & Hs & ->)]%insertMonitorVote_inv; [done|].
  destruct Hok. split; try done. intros i w'. cbn.
  intros [[= -> ->]%elem_of_singleton|Hv]%elem_of_union; eauto.
Qed.

Lemma insertDropVote_ok id w : keeps db_ok (insertDropVote id w).
Proof.
  intros db r db' Hok [(_ & -> & _)|(_ & _ & Hs & ->)]%insertDropVote_inv; [done|].
  destruct Hok. split; try done. intros i w'. cbn.
  intros [[= -> ->]%elem_of_singleton|Hv]%elem_of_union; eauto.
Qed.

Lemma insertDownstream_ok id t w : keeps db_ok (insertDownstream id t w).
Proof.
  intros db r db' Hok [[-> _]|(_ & Hs & ->)]%insertDownstream_inv; [done|].
  destruct Hok. split; try done. intros k d. cbn. rewrite lookup_insert.
  case_decide; [subst k; by eauto|]. apply ok_downstream0.
Qed.

Lemma insertAuditLog_ok r : keeps db_ok (insertAuditLog r).
Proof. intros db u db' Hok [_ ->]%insertAuditLog_inv. by destruct Hok; split. Qed.

(** Rewriting the rows of a table in place. *)
Lemma closeDownstream_ok id o : keeps db_ok (closeDownstream now id o).
Proof.
  apply tx_keeps_modify. intros db []. split; try done. intros k d. cbn. rewrite map_lookup_imap.
  destruct (dbDownstream db !! k) eqn:E; [|done]. intros _. by eapply ok_downstream0.
Qed.

Lemma rejectPending_ok id url at_ db : db_ok db → db_ok (rejectPending id url at_ db).
Proof.
  intros []. split; try done. intros k d. cbn. rewrite map_lookup_imap.
  destruct (dbCandidates db !! k) as [c|] eqn:E; [|done]. intros [= <-].
  destruct (ok_candidate0 _ _ E) as (x & Hx & Hxf). exists x. split; [done|]. rewrite Hxf.
  by case_match.
Qed.

Lemma terminalize_ok id url at_ :
  keeps db_ok (terminalizePendingCandidatesForRemovedEvent clock id url at_).
Proof.
  unfold terminalizePendingCandidatesForRemovedEvent. solve_keeps.
  apply tx_keeps_modify. intros db. apply rejectPending_ok.
Qed.

Lemma cascade_ok id : keeps db_ok (modify (cascadeEvent id)).
Proof. apply tx_keeps_modify. intros db. apply cascadeEvent_ok. Qed.

Lemma insertFixture_ok f : keeps db_ok (insertFixture now f).
Proof.
  intros db u db' Hok H. unfold insertFixture in H.
  destruct (not_nil _); tx_inv. by apply setFixture_ok.
Qed.
End schema.

#[export] Hint Resolve updateEvent_ok updateFixture_ok insertEvent_ok insertMonitorVote_ok
  insertDropVote_ok insertDownstream_ok insertAuditLog_ok closeDownstream_ok terminalize_ok
  cascade_ok insertFixture_ok : keeps.

(** Column assignments of the repositories keep the keys. *)
Lemma voteUp_keys : keepsKeys voteUp. Proof. by intros e. Qed.
Lemma voteDown_keys : keepsKeys voteDown. Proof. by intros e. Qed.
Lemma trigger_keys : keepsKeys trigger. Proof. by intros e. Qed.
Lemma removeVAR_keys now : keepsKeys (removeVAR now). Proof. by intros e. Qed.
Lemma correctFields_keys fresh : keepsKeys (correctFields fresh). Proof. by intros e. Qed.
#[export] Hint Resolve voteUp_keys voteDown_keys trigger_keys removeVAR_keys correctFields_keys : keeps.

(** ** Removed events have no pending candidate *)

Definition removed_closed (db : DB) : Prop := ∀ k c e,
  dbCandidates db !! k = Some c → dbEvents db !! k.1 = Some e →
  e.(event.eRemoved) = true → c.(cdOutcomeClass) ≠ "pending".

(** Statements that leave the candidates and what is removed alone. *)
Lemma closed_same db db' :
  dbCandidates db' = dbCandidates db → dbEvents db' = dbEvents db →
  removed_closed db → removed_closed db'.
Proof. unfold removed_closed. by intros -> ->. Qed.

Lemma closed_setEvent db id e :
  removed_closed db →
  (e.(event.eRemoved) = true → (∃ x, dbEvents db !! id = Some x ∧ x.(event.eRemoved) = true) ∨
     ∀ k c, dbCandidates db !! k = Some c → k.1 = id → c.(cdOutcomeClass) ≠ "pending") →
  removed_closed (setEvent id e db).
Proof.
  intros Hr He k c x. cbn. rewrite lookup_insert. case_decide as Hd; [|apply Hr].
  intros Hc [= <-] Hx. destruct (He Hx) as [(y & Hy & Hyr)|Hn]; [|by eapply Hn].
  eapply Hr; [done| |done]. by rewrite <-Hd.
Qed.

Lemma rejected_not_pending at_ c : cdOutcomeClass (closeRemoved at_ c) ≠ "pending".
Proof. done. Qed.

Lemma closed_rejectPending db id url at_ :
  removed_closed db → removed_closed (rejectPending id url at_ db).
Proof.
  intros Hr k c e. cbn. rewrite map_lookup_imap.
  destruct (dbCandidates db !! k) as [x|] eqn:E; [|done]. cbn. intros [= <-] He Hx.
  destruct (pendingOf id url k x); [done|]. by eapply Hr.
Qed.

(** After closing all its rows an event has none pending. *)
Lemma rejectPending_none db id at_ k c :
  dbCandidates (rejectPending id "" at_ db) !! k = Some c → k.1 = id →
  c.(cdOutcomeClass) ≠ "pending".
Proof.
  cbn. rewrite map_lookup_imap. destruct (dbCandidates db !! k) as [x|]; [|done]. cbn.
  intros [= <-] Hk. unfold pendingOf. rewrite bool_decide_eq_true_2 by done. cbn.
  destruct (String.eqb_spec (cdOutcomeClass x) "pending"); done.
Qed.

(** Both invariants of the tables. *)
Definition store_ok (db : DB) : Prop := db_ok db ∧ removed_closed db.

(** A row update that does not decide whether the event stands. *)
Definition keepsRow (set_ : event.Event → event.Event) : Prop :=
  keepsKeys set_ ∧ ∀ e, (set_ e).(event.eRemoved) = e.(event.eRemoved).

Lemma voteUp_row : keepsRow voteUp. Proof. by split. Qed.
Lemma voteDown_row : keepsRow voteDown. Proof. by split. Qed.
Lemma trigger_row : keepsRow trigger. Proof. by split. Qed.
Lemma correctFields_row fresh : keepsRow (correctFields fresh). Proof. by split. Qed.
#[export] Hint Resolve voteUp_row voteDown_row trigger_row correctFields_row : keeps.

(** What the schema allows and leaves the candidates and the removals alone. *)
Lemma store_same {A} (m : Tx A) :
  keeps db_ok m →
  (∀ db a db', m db = inr (a, db') →
     dbCandidates db' = dbCandidates db ∧ dbEvents db' = dbEvents db) →
  keeps store_ok m.
Proof.
  intros Hm Hs. apply keeps_and; [done|]. intros db a db' _ Hr H.
  destruct (Hs _ _ _ H). by eapply closed_same.
Qed.

Section store.
Context (now clock : Time).

Lemma updateEvent_store id where_ set_ :
  keepsRow set_ → keeps store_ok (updateEvent now id where_ set_).
Proof.
  intros [Hk Hrm]. apply keeps_and; [auto with keeps|].
  intros db r db' _ Hr [(_ & -> & _)|(e & He & _ & _ & _ & ->)]%updateEvent_inv; [done|].
  apply closed_setEvent; [done|]. cbn. rewrite Hrm. intros. left. by eauto.
Qed.

Lemma insertEvent_store e : keeps store_ok (insertEvent now e).
Proof.
  apply keeps_and; [auto with keeps|].
  intros db r db' Hok Hr (Hf & Hn & _ & _ & ->)%insertEvent_inv.
  apply closed_setEvent; [done|]. intros _. right. intros k c Hc Hk.
  destruct (ok_candidate _ Hok _ _ Hc) as (x & Hx & _). rewrite Hk, Hn in Hx. done.
Qed.

Lemma insertMonitorVote_store id w : keeps store_ok (insertMonitorVote id w).
Proof.
  apply store_same; [auto with keeps|].
  by intros db r db' [(_ & -> & _)|(_ & _ & _ & ->)]%insertMonitorVote_inv.
Qed.

Lemma insertDropVote_store id w : keeps store_ok (insertDropVote id w).
Proof.
  apply store_same; [auto with keeps|].
  by intros db r db' [(_ & -> & _)|(_ & _ & _ & ->)]%insertDropVote_inv.
Qed.

Lemma insertDownstream_store id t w : keeps store_ok (insertDownstream id t w).
Proof.
  apply store_same; [auto with keeps|].
  by intros db r db' [[-> _]|(_ & _ & ->)]%insertDownstream_inv.
Qed.

Lemma insertAuditLog_store r : keeps store_ok (insertAuditLog r).
Proof.
  apply store_same; [auto with keeps|]. by intros db u db' [_ ->]%insertAuditLog_inv.
Qed.

Lemma closeDownstream_store id o : keeps store_ok (closeDownstream now id o).
Proof.
  apply store_same; [auto with keeps|]. by intros db u db' ->%modify_inv.
Qed.

Lemma terminalize_store id url at_ :
  keeps store_ok (terminalizePendingCandidatesForRemovedEvent clock id url at_).
Proof.
  apply keeps_and; [auto with keeps|]. intros db n db' _ Hr H.
  unfold terminalizePendingCandidatesForRemovedEvent in H. tx_inv. by apply closed_rejectPending.
Qed.

Lemma cascade_store id : keeps store_ok (modify (cascadeEvent id)).
Proof.
  apply keeps_and; [auto with keeps|]. intros db u db' _ Hr ->%modify_inv k c e. cbn.
  intros [Hc Hk]%map_lookup_filter_Some. rewrite lookup_delete_ne by done. by apply Hr.
Qed.

Lemma updateFixture_store id where_ set_ :
  (∀ f, (set_ f).(fixture.fID) = f.(fixture.fID)) → keeps store_ok (updateFixture now id where_ set_).
Proof.
  intros Hk. apply store_same; [auto with keeps|].
  by intros db r db' [[-> _]|(f & _ & _ & _ & ->)]%updateFixture_inv.
Qed.

Lemma insertFixture_store f : keeps store_ok (insertFixture now f).
Proof.
  apply store_same; [auto with keeps|]. intros db u db' H. unfold insertFixture in H.
  by destruct (not_nil _); tx_inv.
Qed.

Lemma terminalize_inv id url at_ n db db' :
  terminalizePendingCandidatesForRemovedEvent clock id url at_ db = inr (n, db') →
  ∃ t, db' = rejectPending id url t db.
Proof. unfold terminalizePendingCandidatesForRemovedEvent. intros H. tx_inv. by eexists. Qed.

(** Removing an event and closing its candidates is one change. *)
Lemma remove_and_close_store {A} id where_ set_ at_ (k : Tx A) :
  keepsKeys set_ → keeps store_ok k →
  ∀ db db1 db2 e a db', store_ok db → updateEvent now id where_ set_ db = inr (Some e, db1) →
    db2 = rejectPending id "" at_ db1 → k db2 = inr (a, db') → store_ok db'.
Proof.
  intros Hs Hk db db1 db2 e a db' [Hok Hr] Hu -> Hk2. eapply Hk; [|exact Hk2].
  assert (db_ok db1) as Hok1 by by eapply (updateEvent_ok now id where_ set_ Hs).
  split; [by apply rejectPending_ok|].
  apply updateEvent_inv in Hu as [(? & _)|(x & Hx & _ & _ & _ & ->)]; [done|].
  intros i c y Hc Hy Hry. destruct (decide (i.1 = id)) as [Hi|Hi]; [by eapply rejectPending_none|].
  cbn in Hy. rewrite lookup_insert_ne in Hy by done. cbn in Hc. rewrite map_lookup_imap in Hc.
  destruct (dbCandidates db !! i) as [c0|] eqn:E; [|done]. cbn in Hc. injection Hc as <-.
  destruct (pendingOf id "" i c0); [done|]. by eapply Hr.
Qed.
End store.

#[export] Hint Resolve updateEvent_store insertEvent_store insertMonitorVote_store
  insertDropVote_store insertDownstream_store insertAuditLog_store closeDownstream_store
  terminalize_store cascade_store updateFixture_store insertFixture_store : keeps.

(** ** Fixtures only move forward *)

(** Statements that leave the fixtures alone. *)
Lemma forward_same {A} db0 (m : Tx A) :
  (∀ db a db', m db = inr (a, db') → dbFixtures db' = dbFixtures db) → keeps (forward_db db0) m.
Proof.
  intros Hs db a db' Hf H. apply Hs in H. unfold forward_db in *. by rewrite H.
Qed.

Section forward.
Context (now clock : Time) (db0 : DB).

Lemma updateFixture_forward id where_ set_ :
  (∀ f, where_ f = true → fixture_forward f (stampFixture now (set_ f))) →
  keeps (forward_db db0) (updateFixture now id where_ set_).
Proof.
  intros Hw db u db' Hf [[-> _]|(f & He & Ht & _ & ->)]%updateFixture_inv; [done|].
  trans db; [done|]. intros i g Hg. cbn. rewrite lookup_insert. case_decide; [|by exists g].
  subst i. rewrite He in Hg. injection Hg as <-. eexists. split; [done|]. by apply Hw.
Qed.

Lemma insertFixture_forward f : keeps (forward_db db0) (insertFixture now f).
Proof.
  intros db u db' Hf H. unfold insertFixture in H. destruct (not_nil _); tx_inv.
  trans db; [done|]. intros i g Hg. cbn. rewrite lookup_insert. case_decide; [|by exists g].
  subst i. match goal with H : is_nil _ = true |- _ => apply is_nil_true in H; by rewrite H in Hg end.
Qed.

Lemma updateEvent_forward id where_ set_ : keeps (forward_db db0) (updateEvent now id where_ set_).
Proof.
  apply forward_same. by intros db r db' [(_ & -> & _)|(? & _ & _ & _ & _ & ->)]%updateEvent_inv.
Qed.
Lemma insertEvent_forward e : keeps (forward_db db0) (insertEvent now e).
Proof. apply forward_same. by intros db r db' (_ & _ & _ & _ & ->)%insertEvent_inv. Qed.
Lemma insertMonitorVote_forward id w : keeps (forward_db db0) (insertMonitorVote id w).
Proof.
  apply forward_same. by intros db r db' [(_ & -> & _)|(_ & _ & _ & ->)]%insertMonitorVote_inv.
Qed.
Lemma insertDropVote_forward id w : keeps (forward_db db0) (insertDropVote id w).
Proof.
  apply forward_same. by intros db r db' [(_ & -> & _)|(_ & _ & _ & ->)]%insertDropVote_inv.
Qed.
Lemma insertDownstream_forward id t w : keeps (forward_db db0) (insertDownstream id t w).
Proof. apply forward_same. by intros db r db' [[-> _]|(_ & _ & ->)]%insertDownstream_inv. Qed.
Lemma insertAuditLog_forward r : keeps (forward_db db0) (insertAuditLog r).
Proof. apply forward_same. by intros db u db' [_ ->]%insertAuditLog_inv. Qed.
Lemma closeDownstream_forward id o : keeps (forward_db db0) (closeDownstream now id o).
Proof. apply forward_same. by intros db u db' ->%modify_inv. Qed.
Lemma cascade_forward id : keeps (forward_db db0) (modify (cascadeEvent id)).
Proof. apply forward_same. by intros db u db' ->%modify_inv. Qed.
Lemma terminalize_forward id url at_ :
  keeps (forward_db db0) (terminalizePendingCandidatesForRemovedEvent clock id url at_).
Proof. apply forward_same. by intros db n db' [? ->]%terminalize_inv. Qed.
End forward.

#[export] Hint Resolve insertFixture_forward updateEvent_forward insertEvent_forward
  insertMonitorVote_forward insertDropVote_forward insertDownstream_forward
  insertAuditLog_forward closeDownstream_forward cascade_forward terminalize_forward : keeps.

(** ** The repositories other than the health one leave the evidence alone *)

Definition evidence (db : DB) : ProviderHealth * gmap Z FixtureHealth :=
  (dbProvider db, dbFixtureHealth db).

Lemma evidence_same {A} x (m : Tx A) :
  (∀ db a db', m db = inr (a, db') → evidence db' = evidence db) → keeps (λ db, evidence db = x) m.
Proof. intros Hs db a db' Hx H. by rewrite (Hs _ _ _ H). Qed.

Section evidence.
Context (now clock : Time) (x : ProviderHealth * gmap Z FixtureHealth).

Lemma updateFixture_evidence id where_ set_ :
  keeps (λ db, evidence db = x) (updateFixture now id where_ set_).
Proof. apply evidence_same. by intros db u db' [[-> _]|(f & _ & _ & _ & ->)]%updateFixture_inv. Qed.
Lemma insertFixture_evidence f : keeps (λ db, evidence db = x) (insertFixture now f).
Proof.
  apply evidence_same. intros db u db' H. unfold insertFixture in H. by destruct (not_nil _); tx_inv.
Qed.
Lemma updateEvent_evidence id where_ set_ :
  keeps (λ db, evidence db = x) (updateEvent now id where_ set_).
Proof.
  apply evidence_same. by intros db r db' [(_ & -> & _)|(? & _ & _ & _ & _ & ->)]%updateEvent_inv.
Qed.
Lemma insertEvent_evidence e : keeps (λ db, evidence db = x) (insertEvent now e).
Proof. apply evidence_same. by intros db r db' (_ & _ & _ & _ & ->)%insertEvent_inv. Qed.
Lemma insertMonitorVote_evidence id w : keeps (λ db, evidence db = x) (insertMonitorVote id w).
Proof.
  apply evidence_same. by intros db r db' [(_ & -> & _)|(_ & _ & _ & ->)]%insertMonitorVote_inv.
Qed.
Lemma insertDropVote_evidence id w : keeps (λ db, evidence db = x) (insertDropVote id w).
Proof.
  apply evidence_same. by intros db r db' [(_ & -> & _)|(_ & _ & _ & ->)]%insertDropVote_inv.
Qed.
Lemma insertDownstream_evidence id t w : keeps (λ db, evidence db = x) (insertDownstream id t w).
Proof. apply evidence_same. by intros db r db' [[-> _]|(_ & _ & ->)]%insertDownstream_inv. Qed.
Lemma insertAuditLog_evidence r : keeps (λ db, evidence db = x) (insertAuditLog r).
Proof. apply evidence_same. by intros db u db' [_ ->]%insertAuditLog_inv. Qed.
Lemma closeDownstream_evidence id o : keeps (λ db, evidence db = x) (closeDownstream now id o).
Proof. apply evidence_same. by intros db u db' ->%modify_inv. Qed.
Lemma cascade_evidence id : keeps (λ db, evidence db = x) (modify (cascadeEvent id)).
Proof. apply evidence_same. by intros db u db' ->%modify_inv. Qed.
Lemma terminalize_evidence id url at_ : keeps (λ db, evidence db = x)
  (terminalizePendingCandidatesForRemovedEvent clock id url at_).
Proof. apply evidence_same. by intros db n db' [? ->]%terminalize_inv. Qed.
End evidence.

#[export] Hint Resolve updateFixture_evidence insertFixture_evidence updateEvent_evidence
  insertEvent_evidence insertMonitorVote_evidence insertDropVote_evidence
  insertDownstream_evidence insertAuditLog_evidence closeDownstream_evidence cascade_evidence
  terminalize_evidence : keeps.

End preserve.
