(* ===== verification/Events.v ===== *)
(** internal/infra/pg, the event repository: creation, debounce votes, the
    downstream checklist and the queries of EventRepo (event_repo.go,
    event_repo_write.go, event_repo_debounce.go, event_repo_tracking.go,
    event_repo_queries.go). *)
From S2P Require Import Prelude GoStrings ApiFootball Fixture Event Integrity Health Auditlog Presentation Plan Jsonb Discovery Store Mutation Commit Guarantees Preserve.
#[local] Open Scope string_scope.
#[local] Open Scope list_scope.
#[local] Open Scope Z_scope.
Import mutation discoverycontract pg boundary commit guarantees preserve.

Module eventrepo.

(** ** Reads *)

Definition ErrNotFound : string := "event: not found".

Definition Get (id : UUID) : Tx event.Event :=
  e ← selectEvent id;
  match e with Some e => mret e | None => fail ErrNotFound end.

(** The natural key is unique inside a fixture: at most one row qualifies. *)
Definition GetByNaturalKey (fixtureID : Z) (naturalKey : string) : Tx event.Event :=
  rows ← eventsWhere (λ _ e, (e.(event.eFixtureID) =? fixtureID) &&
    (e.(event.eNaturalKey) =? naturalKey)%string) [];
  match rows with e :: _ => mret e | [] => fail ErrNotFound end.

(** The first occurrences: [array_position] of the caller's list. *)
Definition GetByIDs (ids : list UUID) : Tx (list event.Event) :=
  query (λ db, omap (λ id, dbEvents db !! id) (foldl addID [] ids)).

Definition seenAt (e : event.Event) : Z := e.(event.eFirstSeenAt).
Definition rowID (e : event.Event) : Z := Z.pos e.(event.eID).

(** Match minute, stoppage minute, first observation, identity. *)
Definition matchClock : ordering event.Event :=
  [asc event.eMinute; nullsFirst event.eExtra; asc seenAt; asc rowID].

Definition position (ids : list Z) (id : Z) : Z :=
  match list_find (λ x, x = id) ids with Some (i, _) => Z.of_nat i | None => 0 end.

Definition ListByFixtures (fixtureIDs : list Z) : Tx (list event.Event) :=
  if (length fixtureIDs =? 0)%nat then mret []
  else eventsWhere (λ _ e, bool_decide (e.(event.eFixtureID) ∈ fixtureIDs) && negb e.(event.eRemoved))
    (asc (λ e, position fixtureIDs e.(event.eFixtureID)) :: matchClock).

Definition ListPending (fixtureID : Z) : Tx (list event.Event) :=
  eventsWhere (λ _ e, (e.(event.eFixtureID) =? fixtureID) && negb e.(event.eRemoved) &&
    (negb e.(event.eMonitorComplete) || negb e.(event.eDownloadComplete))) [asc seenAt].

Definition ListByFixture (fixtureID : Z) : Tx (list event.Event) :=
  eventsWhere (λ _ e, (e.(event.eFixtureID) =? fixtureID) && negb e.(event.eRemoved)) matchClock.

Definition ListAllByFixture (fixtureID : Z) : Tx (list event.Event) :=
  eventsWhere (λ _ e, e.(event.eFixtureID) =? fixtureID) [asc seenAt; asc rowID].

(** A checklist row of the event of type [t]. *)
Definition downstreamRow (id : UUID) (t : string) (p : Downstream → bool) (db : DB) : bool :=
  anyRow (λ k d, bool_decide (k.1.1 = id) && (k.1.2 =? t)%string && p d) (dbDownstream db).

Definition discoveryDone (db : DB) (id : UUID) : bool :=
  downstreamRow id "discovery" (λ d, not_nil d.(dsCompletedAt)) db.

Definition EventsAwaitingDiscovery (fixtureID : Z) : Tx (list event.Event) :=
  eventsWhere (λ db e, (e.(event.eFixtureID) =? fixtureID) && e.(event.eDownstreamTriggered) &&
    negb e.(event.eRemoved) && negb (discoveryDone db e.(event.eID))) [asc seenAt].

(** Who owns a browser: before its discovery is registered, a voted event of an
    active fixture; afterwards, an event with an open checklist row. *)
Definition ownsBrowser (db : DB) (e : event.Event) : bool :=
  match dbFixtures db !! e.(event.eFixtureID) with
  | None => false
  | Some f =>
      negb e.(event.eRemoved) &&
      ((isActive f && (0 <? e.(event.eDebounceCount)) &&
        negb (downstreamRow e.(event.eID) "discovery" (λ _, true) db)) ||
       anyRow (λ k d, bool_decide (k.1.1 = e.(event.eID)) && is_nil d.(dsCompletedAt)) (dbDownstream db))
  end.

Definition ListLiveFleetEventIDs : Tx (list UUID) :=
  rows ← eventsWhere ownsBrowser [];
  mret (event.eID <$> rows).

Definition DiscoveryComplete (eventIDs : list UUID) : Tx (gset UUID) :=
  query (λ db, list_to_set (filter (λ id, discoveryDone db id = true) eventIDs)).

Section statements.
Context (now clock : Time).

(** ** Creation and row updates *)

(** The audit of InsertWithAudit must name the event. *)
Definition insertAuditOK (e : event.Event) (r : auditlog.Record_) : bool :=
  auditFor auditlog.KindEventDetected e.(event.eID) r &&
  (r.(auditlog.rFixtureID) =? e.(event.eFixtureID)).

(** The caller's struct afterwards. *)
Definition insert (e : event.Event) (workflowID : string) (record : option auditlog.Record_)
    : Tx event.Event :=
  if not_nil (event.ValidateInvariants e) then fail "event invariants"
  else
    let initialCount := if event.Known e.(event.ePlayer) then 1 else 0 in
    _ ← insertEvent now (insertedRow initialCount e);
    _ ← (if 0 <? initialCount then
           isNew ← insertMonitorVote e.(event.eID) workflowID;
           require isNew "event_monitor_workflows_pkey"
         else mret tt);
    _ ← match record with
        | None => mret tt
        | Some r =>
            if initialCount =? 0 then fail "placeholder event cannot emit detected audit"
            else insertAuditLog r
        end;
    mret (e <| event.eDebounceCount := initialCount |> <| event.eDownstreamTriggered := false |>).

Definition Insert (e : event.Event) (workflowID : string) : Tx event.Event :=
  insert e workflowID None.

Definition InsertWithAudit (e : event.Event) (workflowID : string) (record : auditlog.Record_)
    : Tx event.Event :=
  if insertAuditOK e record then insert e workflowID (Some record)
  else fail "audit identity does not match detected event".

Definition UpdateMutableFields (id : UUID) (fresh : event.Event) : Tx unit :=
  _ ← updateEvent now id (λ _, true) (correctFields fresh); mret tt.

Definition DeleteUnknownEvent (id : UUID) : Tx unit :=
  e ← selectEvent id;
  match e with
  | Some e => if e.(event.eDebounceCount) =? 0 then modify (cascadeEvent id) else fail ErrNotFound
  | None => fail ErrNotFound
  end.

Definition stateColumns (e r : event.Event) : event.Event :=
  r <| event.eMonitorComplete := e.(event.eMonitorComplete) |>
    <| event.eDownloadComplete := e.(event.eDownloadComplete) |>
    <| event.eRemoved := e.(event.eRemoved) |> <| event.eRemovedReason := e.(event.eRemovedReason) |>
    <| event.eRemovedAt := timestamptz <$> e.(event.eRemovedAt) |>.

Definition Upsert (e : event.Event) : Tx unit :=
  if not_nil (event.ValidateInvariants e) then fail "event invariants"
  else _ ← updateEvent now e.(event.eID) (λ _, true) (stateColumns e); mret tt.

(** ** Votes *)

(** The row after the vote: changed when the vote is new, read otherwise. *)
Definition countVote (id : UUID) (voteWasNew : bool) (set_ : event.Event → event.Event)
    : Tx event.Event :=
  e ← (if voteWasNew then updateEvent now id (λ _, true) set_ else selectEvent id);
  match e with Some e => mret e | None => fail "no rows in result set" end.

Definition auditFixture (record : option auditlog.Record_) (e : event.Event) : bool :=
  match record with None => true | Some r => r.(auditlog.rFixtureID) =? e.(event.eFixtureID) end.

Definition logTransition (happened : bool) (record : option auditlog.Record_) : Tx unit :=
  match record with Some r => if happened then insertAuditLog r else mret tt | None => mret tt end.

(** The count, and whether this call triggered the search. *)
Definition registerEventPresence (id : UUID) (workflowID : string)
    (record : option auditlog.Record_) : Tx (Z * bool) :=
  voteWasNew ← insertMonitorVote id workflowID;
  e ← countVote id voteWasNew voteUp;
  _ ← require (auditFixture record e) "audit fixture does not match event";
  flipped ← (if (e.(event.eDebounceCount) =? 3) && negb e.(event.eDownstreamTriggered)
             then updateEvent now id (λ e, negb e.(event.eDownstreamTriggered)) trigger
             else mret None);
  let justTriggered := not_nil flipped in
  _ ← logTransition justTriggered record;
  mret (e.(event.eDebounceCount), justTriggered).

Definition RegisterEventPresence (id : UUID) (workflowID : string) : Tx (Z * bool) :=
  registerEventPresence id workflowID None.

Definition RegisterEventPresenceWithAudit (id : UUID) (workflowID : string)
    (record : auditlog.Record_) : Tx (Z * bool) :=
  if auditFor auditlog.KindEventStable id record
  then registerEventPresence id workflowID (Some record)
  else fail "audit identity does not match event".

(** The count, and whether this call removed the event. *)
Definition registerEventAbsence (id : UUID) (workflowID : string)
    (record : option auditlog.Record_) : Tx (Z * bool) :=
  voteWasNew ← insertDropVote id workflowID;
  e ← countVote id voteWasNew voteDown;
  _ ← require (auditFixture record e) "audit fixture does not match event";
  flipped ← (if (e.(event.eDebounceCount) =? 0) && negb e.(event.eRemoved)
             then updateEvent now id (λ e, negb e.(event.eRemoved)) (removeVAR now)
             else mret None);
  let hitZero := not_nil flipped in
  _ ← (if hitZero then
         _ ← terminalizePendingCandidatesForRemovedEvent clock id "" (UTC clock);
         _ ← closeDownstream now id event.OutcomeEventRemoved;
         logTransition true record
       else mret tt);
  mret (e.(event.eDebounceCount), hitZero).

Definition RegisterEventAbsence (id : UUID) (workflowID : string) : Tx (Z * bool) :=
  registerEventAbsence id workflowID None.

Definition RegisterEventAbsenceWithAudit (id : UUID) (workflowID : string)
    (record : auditlog.Record_) : Tx (Z * bool) :=
  if auditFor auditlog.KindEventRemoved id record
  then registerEventAbsence id workflowID (Some record)
  else fail "audit identity does not match event".

(** ** The downstream checklist (event_repo_tracking.go, downstream.go) *)

Definition RegisterDownstreamWorkflow (id : UUID) (workflowType workflowID : string) : Tx unit :=
  insertDownstream id workflowType workflowID.

Definition DownstreamCompletionState := string.
Definition DownstreamCompletedNow : DownstreamCompletionState := "completed_now".
Definition DownstreamAlreadyCompleted : DownstreamCompletionState := "already_completed".

Record DownstreamCompletion := mkDownstreamCompletion {
  dcState : DownstreamCompletionState;
  dcOutcomeClass : string;
  dcCompletedAt : Time }.

Definition ErrDownstreamWorkflowNotFound : string := "event: downstream workflow not found".

Definition closeRow (k : UUID * string * string) (d : Downstream) (db : DB) : DB :=
  db <| dbDownstream ::= λ t, <[k := d]> t |>.

Definition CompleteDownstreamWorkflow (id : UUID) (workflowType workflowID outcomeClass : string)
    : Tx DownstreamCompletion :=
  rows ← query dbDownstream;
  match rows !! (id, workflowType, workflowID) with
  | None => fail ErrDownstreamWorkflowNotFound
  | Some d =>
      match d.(dsCompletedAt) with
      | Some at_ => mret (mkDownstreamCompletion DownstreamAlreadyCompleted
          (default "" d.(dsOutcomeClass)) (UTC at_))
      | None =>
          _ ← modify (closeRow (id, workflowType, workflowID)
            (mkDownstream (Some now) (Some outcomeClass)));
          mret (mkDownstreamCompletion DownstreamCompletedNow outcomeClass (UTC now))
      end
  end.

Definition addDownload (k : UUID * string) (outcomeClass : string) (db : DB) : DB :=
  db <| dbDownloads ::= λ t, <[k := outcomeClass]> t |>.

(** The number of attempts registered for the event. *)
Definition RegisterVideoValidationWorkflow (id : UUID) (workflowID outcomeClass : string) : Tx Z :=
  e ← selectEvent id;
  rows ← query dbDownloads;
  _ ← match rows !! (id, workflowID) with
      | Some _ => mret tt
      | None =>
          _ ← require (not_nil e) "event_download_workflows_event_id_fkey";
          modify (addDownload (id, workflowID) outcomeClass)
      end;
  rows ← query dbDownloads;
  mret (Z.of_nat (size (filter (λ kd, kd.1.1 = id) rows))).

(** ** The mutations as one type *)

Inductive op :=
  | opInsert (e : event.Event) (workflowID : string)
  | opInsertWithAudit (e : event.Event) (workflowID : string) (record : auditlog.Record_)
  | opUpdateMutableFields (id : UUID) (fresh : event.Event)
  | opDeleteUnknownEvent (id : UUID)
  | opUpsert (e : event.Event)
  | opPresence (id : UUID) (workflowID : string)
  | opPresenceWithAudit (id : UUID) (workflowID : string) (record : auditlog.Record_)
  | opAbsence (id : UUID) (workflowID : string)
  | opAbsenceWithAudit (id : UUID) (workflowID : string) (record : auditlog.Record_)
  | opRegisterDownstream (id : UUID) (workflowType workflowID : string)
  | opCompleteDownstream (id : UUID) (workflowType workflowID outcomeClass : string)
  | opRegisterVideoValidation (id : UUID) (workflowID outcomeClass : string).

Definition exec (o : op) : Tx unit :=
  match o with
  | opInsert e w => discard (Insert e w)
  | opInsertWithAudit e w r => discard (InsertWithAudit e w r)
  | opUpdateMutableFields id fresh => UpdateMutableFields id fresh
  | opDeleteUnknownEvent id => DeleteUnknownEvent id
  | opUpsert e => Upsert e
  | opPresence id w => discard (RegisterEventPresence id w)
  | opPresenceWithAudit id w r => discard (RegisterEventPresenceWithAudit id w r)
  | opAbsence id w => discard (RegisterEventAbsence id w)
  | opAbsenceWithAudit id w r => discard (RegisterEventAbsenceWithAudit id w r)
  | opRegisterDownstream id t w => RegisterDownstreamWorkflow id t w
  | opCompleteDownstream id t w o => discard (CompleteDownstreamWorkflow id t w o)
  | opRegisterVideoValidation id w o => discard (RegisterVideoValidationWorkflow id w o)
  end.

(** ** The schema survives every mutation *)

Lemma stateColumns_keys e : keepsKeys (stateColumns e).
Proof. by intros r. Qed.
#[local] Hint Resolve stateColumns_keys : keeps.

Lemma insert_ok e w r : keeps db_ok (insert e w r).
Proof. unfold insert. solve_keeps. Qed.

Lemma countVote_ok id new set_ : keepsKeys set_ → keeps db_ok (countVote id new set_).
Proof. intros Hs. unfold countVote. solve_keeps. Qed.
#[local] Hint Resolve insert_ok countVote_ok : keeps.

Lemma presence_ok id w r : keeps db_ok (registerEventPresence id w r).
Proof. unfold registerEventPresence, logTransition. solve_keeps. Qed.

Lemma absence_ok id w r : keeps db_ok (registerEventAbsence id w r).
Proof. unfold registerEventAbsence, logTransition. solve_keeps. Qed.
#[local] Hint Resolve presence_ok absence_ok : keeps.

Lemma completeDownstream_ok id t w o : keeps db_ok (CompleteDownstreamWorkflow id t w o).
Proof.
  unfold CompleteDownstreamWorkflow. intros db r db' Hok H. tx_inv.
  destruct (dbDownstream db !! _) as [d|] eqn:E; tx_inv.
  destruct (dsCompletedAt d); tx_inv; [done|]. destruct Hok. split; try done.
  intros k y. cbn. rewrite lookup_insert. case_decide; [subst k; intros _; by eapply (ok_downstream0 _ _ E)|].
  apply ok_downstream0.
Qed.

Lemma download_ok id w o : keeps db_ok (RegisterVideoValidationWorkflow id w o).
Proof.
  unfold RegisterVideoValidationWorkflow. intros db r db' Hok H. tx_inv.
  destruct (dbDownloads db !! _) as [d|] eqn:E; tx_inv; [done|].
  destruct Hok. split; try done. intros k y. cbn. rewrite lookup_insert.
  case_decide; [subst k; intros _; by apply not_nil_true|]. apply ok_download0.
Qed.
#[local] Hint Resolve completeDownstream_ok download_ok : keeps.

Lemma event_exec_ok o : keeps db_ok (exec o).
Proof.
  destruct o; unfold exec, discard, Insert, InsertWithAudit, UpdateMutableFields,
    DeleteUnknownEvent, Upsert, RegisterEventPresence, RegisterEventPresenceWithAudit,
    RegisterEventAbsence, RegisterEventAbsenceWithAudit, RegisterDownstreamWorkflow; solve_keeps.
Qed.

(** ** A removed event has no pending candidate *)

Lemma insert_store e w r : keeps store_ok (insert e w r).
Proof. unfold insert. solve_keeps. Qed.

Lemma countVote_store id new set_ : keepsRow set_ → keeps store_ok (countVote id new set_).
Proof. intros Hs. unfold countVote. solve_keeps. Qed.
#[local] Hint Resolve insert_store countVote_store : keeps.

Lemma presence_store id w r : keeps store_ok (registerEventPresence id w r).
Proof. unfold registerEventPresence, logTransition. solve_keeps. Qed.

Lemma absence_store id w r : keeps store_ok (registerEventAbsence id w r).
Proof.
  unfold registerEventAbsence. apply tx_keeps_bind; [auto with keeps|]. intros new.
  apply tx_keeps_bind; [auto with keeps|]. intros e. apply tx_keeps_bind; [apply keeps_require|].
  intros _ db x db' Hok H. destruct (_ && _) eqn:E.
  - apply bind_inv in H as ([f|] & db1 & Hu & H).
    + cbn [not_nil is_nil negb] in H. apply bind_inv in H as (? & db2 & H & [-> ->]%ret_inv).
      apply bind_inv in H as (n & db3 & Ht & H). apply terminalize_inv in Ht as [? ->].
      eapply (remove_and_close_store now id); [apply removeVAR_keys| |exact Hok|exact Hu|done|exact H].
      unfold logTransition. solve_keeps.
    + apply updateEvent_inv in Hu as [(_ & -> & _)|(? & _ & _ & _ & ? & _)]; [|done].
      cbn [not_nil is_nil negb] in H. tx_inv. done.
  - tx_inv. cbn [not_nil is_nil negb] in *. tx_inv. done.
Qed.
#[local] Hint Resolve presence_store absence_store : keeps.

Lemma completeDownstream_store id t w o : keeps store_ok (CompleteDownstreamWorkflow id t w o).
Proof.
  apply store_same; [auto with keeps|]. intros db r db' H.
  unfold CompleteDownstreamWorkflow in H. tx_inv. by repeat (case_match; tx_inv).
Qed.

Lemma download_store id w o : keeps store_ok (RegisterVideoValidationWorkflow id w o).
Proof.
  apply store_same; [auto with keeps|]. intros db r db' H.
  unfold RegisterVideoValidationWorkflow in H. tx_inv. by repeat (case_match; tx_inv).
Qed.
#[local] Hint Resolve completeDownstream_store download_store : keeps.

(** Upsert may write a removal of its own accord; no production caller does. *)
Definition plainUpsert (o : op) : Prop :=
  match o with opUpsert e => e.(event.eRemoved) = false | _ => True end.

Lemma upsert_store e : e.(event.eRemoved) = false → keeps store_ok (Upsert e).
Proof.
  intros He. unfold Upsert. apply keeps_and; [solve_keeps|]. intros db u db' Hok Hr H.
  destruct (not_nil _); tx_inv.
  match goal with H : updateEvent _ _ _ _ _ = _ |- _ =>
    apply updateEvent_inv in H as [(_ & -> & _)|(y & Hy & _ & _ & _ & ->)] end; [done|].
  apply closed_setEvent; [done|]. cbn. by rewrite He.
Qed.

Lemma event_exec_store o : plainUpsert o → keeps store_ok (exec o).
Proof.
  destruct o; cbn [plainUpsert]; intros Ho; unfold exec, discard, Insert, InsertWithAudit,
    UpdateMutableFields, DeleteUnknownEvent, RegisterEventPresence,
    RegisterEventPresenceWithAudit, RegisterEventAbsence, RegisterEventAbsenceWithAudit,
    RegisterDownstreamWorkflow; try by apply upsert_store. all: solve_keeps.
Qed.

(** ** No fixture goes back *)

Lemma completeDownstream_forward db0 id t w o :
  keeps (forward_db db0) (CompleteDownstreamWorkflow id t w o).
Proof.
  apply forward_same. intros db r db' H. unfold CompleteDownstreamWorkflow in H. tx_inv.
  by repeat (case_match; tx_inv).
Qed.

Lemma download_forward db0 id w o : keeps (forward_db db0) (RegisterVideoValidationWorkflow id w o).
Proof.
  apply forward_same. intros db r db' H. unfold RegisterVideoValidationWorkflow in H. tx_inv.
  by repeat (case_match; tx_inv).
Qed.
#[local] Hint Resolve completeDownstream_forward download_forward : keeps.

Lemma event_exec_forward db0 o : keeps (forward_db db0) (exec o).
Proof.
  destruct o; unfold exec, discard, Insert, InsertWithAudit, insert, UpdateMutableFields,
    DeleteUnknownEvent, Upsert, RegisterEventPresence, RegisterEventPresenceWithAudit,
    registerEventPresence, RegisterEventAbsence, RegisterEventAbsenceWithAudit,
    registerEventAbsence, countVote, logTransition, RegisterDownstreamWorkflow; solve_keeps.
Qed.

Lemma completeDownstream_evidence x id t w o :
  keeps (λ db, evidence db = x) (CompleteDownstreamWorkflow id t w o).
Proof.
  apply evidence_same. intros db r db' H. unfold CompleteDownstreamWorkflow in H. tx_inv.
  by repeat (case_match; tx_inv).
Qed.

Lemma download_evidence x id w o :
  keeps (λ db, evidence db = x) (RegisterVideoValidationWorkflow id w o).
Proof.
  apply evidence_same. intros db r db' H. unfold RegisterVideoValidationWorkflow in H. tx_inv.
  by repeat (case_match; tx_inv).
Qed.
#[local] Hint Resolve completeDownstream_evidence download_evidence : keeps.

Lemma event_exec_evidence x o : keeps (λ db, evidence db = x) (exec o).
Proof.
  destruct o; unfold exec, discard, Insert, InsertWithAudit, insert, UpdateMutableFields,
    DeleteUnknownEvent, Upsert, RegisterEventPresence, RegisterEventPresenceWithAudit,
    registerEventPresence, RegisterEventAbsence, RegisterEventAbsenceWithAudit,
    registerEventAbsence, countVote, logTransition, RegisterDownstreamWorkflow; solve_keeps.
Qed.

(** ** The repository's votes and the boundary's *)

Lemma countVote_run id set_ db e :
  dbEvents db !! id = Some e → events_check (stampEvent now (set_ e)) = true →
  countVote id true set_ db =
    inr (stampEvent now (set_ e), setEvent id (stampEvent now (set_ e)) db).
Proof.
  intros He Hc. unfold countVote.
  erewrite bind_run by (by apply updateEvent_run). done.
Qed.

(** The same vote through the repository and through the write boundary: the
    same tables, except that the boundary also puts the search it triggers on
    the event's checklist. *)
Theorem presence_agrees text id w r db e :
  dbEvents db !! id = Some e → e.(event.eRemoved) = false → events_check e = true →
  (id, w) ∉ dbMonitorVotes db → auditFor auditlog.KindEventStable id r = true →
  r.(auditlog.rFixtureID) = e.(event.eFixtureID) →
  ∃ n b db1, RegisterEventPresenceWithAudit id w r db = inr ((n, b), db1) ∧
    registerPresenceTx now text w (mkPlannedEventPresence id r) db =
      inr (b, if b then ensureDownstream text id db1 else db1) ∧
    n = Z.min (e.(event.eDebounceCount) + 1) 3 ∧
    b = (n =? 3) && negb e.(event.eDownstreamTriggered).
Proof.
  intros He Hr Hc Hv Ha Hf.
  assert (events_check (stampEvent now (voteUp e)) = true) as Hc1.
  { revert Hc. unfold events_check, events_debounce_check, events_removed_state. cbn.
    rewrite !andb_true_iff, !Z.leb_le. intros [[? [? ?]] ?]. split_and!; [done|lia|lia|done]. }
  set (e1 := stampEvent now (voteUp e)) in *.
  set (db1 := setEvent id e1 (addMonitorVote id w db)).
  assert (dbEvents db1 !! id = Some e1) as He1 by apply lookup_insert_eq.
  unfold RegisterEventPresenceWithAudit, registerEventPresence, registerPresenceTx.
  rewrite Ha. cbn [ppEventID ppAudit].
  do 2 (erewrite (bind_run (insertMonitorVote id w)) by (by eapply insertMonitorVote_run)). cbn [negb].
  erewrite bind_run by (apply (countVote_run id voteUp (addMonitorVote id w db) e); done).
  erewrite (bind_run (updateEvent now id _ voteUp))
    by (apply (updateEvent_run now id _ voteUp (addMonitorVote id w db) e); [done|by rewrite Hr|done]).
  fold e1. fold db1. erewrite bind_run by (apply require_run; cbn; by rewrite Hf, Z.eqb_refl).
  change (event.eDebounceCount e1) with (Z.min (event.eDebounceCount e + 1) 3).
  change (event.eDownstreamTriggered e1) with (event.eDownstreamTriggered e).
  exists (Z.min (event.eDebounceCount e + 1) 3).
  destruct (_ =? 3) eqn:E3; cbn [negb andb orb]; [|by eexists false, _; split_and!].
  destruct (event.eDownstreamTriggered e) eqn:Et; cbn [negb andb orb];
    [by eexists false, _; split_and!|].
  assert (updateEvent now id (λ e, negb e.(event.eDownstreamTriggered)) trigger db1 =
    inr (Some (stampEvent now (trigger e1)), setEvent id (stampEvent now (trigger e1)) db1)) as Hu
    by (apply updateEvent_run; [done|by cbn; rewrite Et|done]).
  assert (auditlog.Valid r = true) as Hval by by eapply auditFor_valid.
  do 2 (erewrite (bind_run (updateEvent now id _ trigger)) by exact Hu).
  cbn [not_nil is_nil negb logTransition].
  erewrite bind_run by (by apply insertAuditLog_run).
  eexists true, _. split_and!; [done| |done|done].
  erewrite bind_run by (by apply require_run).
  erewrite bind_run by (by apply require_run).
  erewrite bind_run by (by apply insertAuditLog_run).
  destruct (insertDownstream_run id "discovery" (downstreamName text id)
    (appendLog r (setEvent id (stampEvent now (trigger e1)) db1)) (stampEvent now (trigger e1)))
    as (db2 & H2 & _); [apply lookup_insert_eq|].
  erewrite bind_run by exact H2. apply insertDownstream_ensure in H2 as ->. done.
Qed.

End statements.

(** The first outcome of a checklist row stands: every later completion, whatever
    it reports and whenever it comes, is told the first outcome and its time and
    changes nothing. *)
Theorem first_completion_stands now id t w o db c db1 :
  CompleteDownstreamWorkflow now id t w o db = inr (c, db1) →
  ∀ now' o', CompleteDownstreamWorkflow now' id t w o' db1 =
    inr (mkDownstreamCompletion DownstreamAlreadyCompleted c.(dcOutcomeClass) c.(dcCompletedAt), db1).
Proof.
  unfold CompleteDownstreamWorkflow. intros H now' o'. tx_inv.
  destruct (dbDownstream db !! _) as [d|] eqn:E; tx_inv.
  destruct (dsCompletedAt d) as [at_|] eqn:Ed; tx_inv.
  - erewrite bind_run by done. rewrite E, Ed. done.
  - erewrite bind_run by done. cbn. by rewrite lookup_insert_eq.
Qed.

End eventrepo.
