(* ===== verification/Fixtures.v ===== *)
(** internal/infra/pg, the fixture repository (fixture_repo.go): provider
    refreshes, lifecycle transitions with their audit, the completion check, the
    public window and the free-text search. *)
From S2P Require Import Prelude GoStrings ApiFootball Fixture Event Integrity Health Auditlog Presentation Plan Jsonb Discovery Store Mutation Commit Guarantees Preserve.
#[local] Open Scope string_scope.
#[local] Open Scope list_scope.
#[local] Open Scope Z_scope.
Import mutation discoverycontract pg boundary commit guarantees preserve.

Module fixturerepo.

(** ** Reads *)

Definition Get (id : Z) : Tx fixture.Fixture := lockedFixture id.

Definition updatedDesc : ordering fixture.Fixture := [desc fixture.fUpdatedAt].

Definition ListByState (state : fixture.State) : Tx (list fixture.Fixture) :=
  fixturesWhere (λ _ f, (f.(fixture.fState) =? state)%string) updatedDesc.

Definition GetByIDs (ids : list Z) : Tx (list fixture.Fixture) :=
  query (λ db, omap (λ id, dbFixtures db !! id)
    (foldl (λ seen id, if bool_decide (id ∈ seen) then seen else seen ++ [id]) [] ids)).

Definition ListActiveIDs : Tx (list Z) :=
  rows ← fixturesWhere (λ _ f, isActive f) [asc fixture.fID];
  mret (fixture.fID <$> rows).

Definition ListStagingBeforeKickoff (threshold : Time) : Tx (list fixture.Fixture) :=
  fixturesWhere (λ _ f, isStaging f && (f.(fixture.fKickoff) <=? timestamptz (UTC threshold)))
    [asc fixture.fKickoff].

(** ** The public window *)

Definition day : Duration := 24 * time_Hour.

(** [(kickoff AT TIME ZONE 'UTC')::date]; the zero time is a midnight. *)
Definition utcDate (t : Time) : Z := t / day.

Definition isCompleted (f : fixture.Fixture) : bool :=
  (f.(fixture.fState) =? fixture.StateCompleted)%string.

(** The distinct kickoff dates of the completed fixtures, newest first. *)
Definition completedDates (db : DB) : list Z :=
  sort_by (λ x y, y <? x) (elements (list_to_set (C := gset Z)
    ((λ f, utcDate f.(fixture.fKickoff)) <$>
      filter (λ f, isCompleted f = true) (map_to_list (dbFixtures db)).*2))).

(** [min(fixture_date)] of the newest [n] dates, as a midnight; NULL when there
    are none. *)
Definition publicCutoff (n : nat) (db : DB) : option Time :=
  (λ d, d * day) <$> last (take n (completedDates db)).

Definition PublicCompletedCutoff (completedFixtureDates : Z) : Tx (option Time) :=
  if completedFixtureDates <=? 0 then fail "completed fixture dates must be > 0"
  else query (publicCutoff (Z.to_nat completedFixtureDates)).

Definition inPublicWindow (cutoff : option Time) (f : fixture.Fixture) : bool :=
  negb (isCompleted f) ||
  match cutoff with Some c => c <=? f.(fixture.fKickoff) | None => false end.

Definition stateRank (f : fixture.Fixture) : Z :=
  if isStaging f then 0 else if isActive f then 1 else 2.

Definition ListPublicWindow (completedFixtureDates : Z) : Tx (list fixture.Fixture) :=
  if completedFixtureDates <=? 0 then fail "completed fixture dates must be > 0"
  else fixturesWhere (λ db, inPublicWindow (publicCutoff (Z.to_nat completedFixtureDates) db))
    [asc stateRank; desc fixture.fUpdatedAt].

(** ** Free-text search *)

Fixpoint escapeLike (s : string) : string :=
  match s with
  | EmptyString => ""
  | String c rest =>
      if Ascii.eqb c "\" || Ascii.eqb c "%" || Ascii.eqb c "_"
      then String "\" (String c (escapeLike rest)) else String c (escapeLike rest)
  end.

(** [text LIKE pattern]: [%] any run, [_] any character, backslash the next
    character itself.  A pattern that ends in a lone backslash matches nothing
    (PostgreSQL reports an error). *)
Fixpoint like (pattern : string) : string → bool :=
  match pattern with
  | EmptyString => λ text, (text =? "")%string
  | String c rest =>
      if Ascii.eqb c "%" then
        fix run (text : string) :=
          like rest text || match text with EmptyString => false | String _ text => run text end
      else if Ascii.eqb c "_" then
        λ text, match text with EmptyString => false | String _ text => like rest text end
      else if Ascii.eqb c "\" then
        match rest with
        | EmptyString => λ _, false
        | String c rest => λ text,
            match text with EmptyString => false | String x text => Ascii.eqb x c && like rest text end
        end
      else λ text,
        match text with EmptyString => false | String x text => Ascii.eqb x c && like rest text end
  end.

Definition ilike (text pattern : string) : bool := like (ToLower pattern) (ToLower text).

Record SearchEventMatch := mkSearchEventMatch { smEventID : UUID; smPlayer : bool; smAssist : bool }.

Record SearchMatch := mkSearchMatch {
  smCompetition : bool; smHomeTeam : bool; smAwayTeam : bool; smEvents : list SearchEventMatch }.

Section search.
(** The unaccent extension's dictionary. *)
Context (unaccent : string → string).

Definition searchPattern (q : string) : string := unaccent ("%" +:+ escapeLike q +:+ "%").

Definition folded (pattern text : string) : bool := ilike (unaccent text) pattern.

Definition foldedOpt (pattern : string) (text : option string) : bool :=
  match text with Some t => folded pattern t | None => false end.

Definition eventMatches (pattern : string) (fixtureID : Z) (db : DB) : list SearchEventMatch :=
  (λ e, mkSearchEventMatch e.(event.eID) (foldedOpt pattern e.(event.ePlayer).(event.pName))
     (foldedOpt pattern e.(event.eAssist).(event.pName))) <$>
  orderBy [asc event.eMinute; nullsFirst event.eExtra; asc (λ e, Z.pos e.(event.eID))]
    (filter (λ e, (e.(event.eFixtureID) =? fixtureID) && negb e.(event.eRemoved) &&
      (foldedOpt pattern e.(event.ePlayer).(event.pName) ||
       foldedOpt pattern e.(event.eAssist).(event.pName)) = true) (map_to_list (dbEvents db)).*2).

Definition matchOf (pattern : string) (db : DB) (f : fixture.Fixture) : SearchMatch :=
  mkSearchMatch (folded pattern f.(fixture.fLeague).(fixture.lName))
    (folded pattern f.(fixture.fHome).(fixture.tName))
    (folded pattern f.(fixture.fAway).(fixture.tName)) (eventMatches pattern f.(fixture.fID) db).

Definition found (m : SearchMatch) : bool :=
  m.(smCompetition) || m.(smHomeTeam) || m.(smAwayTeam) || (0 <? length m.(smEvents))%nat.

Definition SearchPublicFixtures (q : string) (limit completedFixtureDates : Z)
    : Tx (list (fixture.Fixture * SearchMatch)) :=
  if completedFixtureDates <=? 0 then fail "completed fixture dates must be > 0"
  else if limit <? 0 then fail "LIMIT must not be negative"
  else
    let pattern := searchPattern q in
    query (λ db,
      let cutoff := publicCutoff (Z.to_nat completedFixtureDates) db in
      (λ f, (f, matchOf pattern db f)) <$>
      take (Z.to_nat limit) (orderBy [desc fixture.fKickoff]
        (filter (λ f, inPublicWindow cutoff f && found (matchOf pattern db f) = true)
          (map_to_list (dbFixtures db)).*2))).
End search.

(** ** Completion *)

Record CompletionAssessment := mkCompletionAssessment {
  caReady : bool; caDurableScoreEventParity : option bool }.

Definition AssessCompletion (id : Z) (terminalBefore : Time) : Tx CompletionAssessment :=
  f ← lockedFixture id;
  events ← query dbEvents;
  rows ← query dbDownstream;
  mret (mkCompletionAssessment (completionReady f (UTC terminalBefore) events rows)
    (scoreParity f events)).

Section statements.
Context (now : Time).

(** ** Provider refreshes *)

Definition Insert (f : fixture.Fixture) : Tx unit := insertFixture now f.

(** [EXCLUDED.last_polled_at IS NOT NULL AND (.. IS NULL OR .. > ..)]. *)
Definition newerPoll (f r : fixture.Fixture) : bool :=
  match timestamptz <$> f.(fixture.fLastPolledAt), r.(fixture.fLastPolledAt) with
  | None, _ => false
  | Some _, None => true
  | Some new, Some old => old <? new
  end.

(** The stored state after the write. *)
Definition StoreFromIngest (f : fixture.Fixture) : Tx fixture.State :=
  if not_nil (fixture.ValidateInvariants f) then fail "fixture invariants"
  else
    old ← selectFixture f.(fixture.fID);
    match old with
    | None => _ ← insertFixture now f; mret f.(fixture.fState)
    | Some r =>
        _ ← updateFixture now f.(fixture.fID) (newerPoll f) (ingestColumns f);
        mret r.(fixture.fState)
    end.

(** [last_polled_at IS NULL OR $n >= last_polled_at]. *)
Definition notOlder (f r : fixture.Fixture) : bool :=
  match r.(fixture.fLastPolledAt), timestamptz <$> f.(fixture.fLastPolledAt) with
  | None, _ => true
  | Some _, None => false
  | Some old, Some new => old <=? new
  end.

(** Whether a row was updated. *)
Definition refreshWhere (id : Z) (where_ : fixture.Fixture → bool)
    (set_ : fixture.Fixture → fixture.Fixture) : Tx bool :=
  old ← selectFixture id;
  _ ← updateFixture now id where_ set_;
  mret match old with Some r => where_ r | None => false end.

Definition RefreshActivePoll (f : fixture.Fixture) : Tx bool :=
  if negb (isActive f) then fail "fixture is not active"
  else if not_nil (fixture.ValidateInvariants f) then fail "fixture invariants"
  else refreshWhere f.(fixture.fID) (λ r, isActive r && notOlder f r) (activeColumns f).

Definition RefreshStagingPoll (f : fixture.Fixture) : Tx bool :=
  if negb (isStaging f) then fail "fixture is not staging"
  else if not_nil (fixture.ValidateInvariants f) then fail "fixture invariants"
  else refreshWhere f.(fixture.fID) (λ r, isStaging r && notOlder f r) (stagingColumns f).

(** ** Lifecycle transitions *)

(** The state a transition starts from, by the kind of its audit. *)
Definition expectedState (f : fixture.Fixture) (kind : auditlog.Kind) : string + fixture.State :=
  if (kind =? auditlog.KindFixtureActivated)%string then
    if negb (f.(fixture.fState) =? fixture.StateActive)%string
    then inl "activation audit requires active fixture" else inr fixture.StateStaging
  else if (kind =? auditlog.KindFixtureCompleted)%string then
    if negb (f.(fixture.fState) =? fixture.StateCompleted)%string
    then inl "completion audit requires completed fixture" else inr fixture.StateActive
  else inl "invalid fixture audit kind".

(** The stored snapshot is newer than the one the transition was decided on. *)
Definition outdated (f r : fixture.Fixture) : bool :=
  match r.(fixture.fLastPolledAt), f.(fixture.fLastPolledAt) with
  | None, _ => false
  | Some _, None => true
  | Some old, Some seen => Before seen old
  end.

Definition completionColumns (f r : fixture.Fixture) : fixture.Fixture :=
  r <| fixture.fState := fixture.StateCompleted |>
    <| fixture.fCompletedAt := timestamptz <$> f.(fixture.fCompletedAt) |>.

Definition TransitionWithAudit (f : fixture.Fixture) (record : auditlog.Record_) : Tx bool :=
  if negb (auditlog.Valid record) then fail "invalid audit record"
  else if negb (record.(auditlog.rFixtureID) =? f.(fixture.fID)) then fail "audit does not match fixture"
  else if not_nil (fixture.ValidateInvariants f) then fail "fixture invariants"
  else
    expected ← lift (expectedState f record.(auditlog.rKind));
    row ← selectFixture f.(fixture.fID);
    match row with
    | None => fail "no rows in result set"
    | Some r =>
        if (r.(fixture.fState) =? f.(fixture.fState))%string then mret false
        else if negb (r.(fixture.fState) =? expected)%string then fail "transition is not allowed"
        else if outdated f r then mret false
        else
          _ ← (if (record.(auditlog.rKind) =? auditlog.KindFixtureActivated)%string
               then updateFixture now f.(fixture.fID) isStaging (activationColumns f)
               else updateFixture now f.(fixture.fID) isActive (completionColumns f));
          _ ← insertAuditLog record;
          mret true
    end.

End statements.

(** ** The search matches exactly what contains the query *)

Definition special (c : ascii) : bool := Ascii.eqb c "\" || Ascii.eqb c "%" || Ascii.eqb c "_".

Lemma special_lower c : special (lower c) = special c ∧ (special c = true → lower c = c).
Proof.
  revert c. assert (∀ c, eqb (special (lower c)) (special c) &&
    (negb (special c) || Ascii.eqb (lower c) c) = true) as H.
  { apply for_all_bytes. vm_compute. reflexivity. }
  intros c. specialize (H c). apply andb_prop in H as [H1%eqb_prop H2]. split; [done|].
  intros Hs. rewrite Hs in H2. by apply Ascii.eqb_eq.
Qed.

Lemma append_cons c s t : String c s +:+ t = String c (s +:+ t).
Proof. done. Qed.

Lemma append_nil s : "" +:+ s = s.
Proof. done. Qed.

Lemma ToLower_app s t : ToLower (s +:+ t) = ToLower s +:+ ToLower t.
Proof. unfold ToLower. induction s as [|c s IH]; [done|].
  rewrite append_cons. cbn. by rewrite IH, append_cons.
Qed.

Lemma ToLower_escapeLike q : ToLower (escapeLike q) = escapeLike (ToLower q).
Proof.
  unfold ToLower. induction q as [|c q IH]; [done|]. cbn [escapeLike string_map].
  destruct (special_lower c) as [H1 H2]. fold (special c). fold (special (lower c)). rewrite H1.
  destruct (special c) eqn:E; cbn [string_map]; rewrite IH; [by rewrite H2|done].
Qed.

Lemma like_any text : like "%" text = true.
Proof. induction text as [|x text IH]; [done|]. cbn. exact IH. Qed.

(** An escaped query is matched literally. *)
Lemma like_escaped q rest text :
  like (escapeLike q +:+ rest) text = true ↔ ∃ tail, text = q +:+ tail ∧ like rest tail = true.
Proof.
  revert text. induction q as [|c q IH]; intros text.
  { cbn [escapeLike]. rewrite append_nil. split; [by exists text|]. by intros (? & -> & ?). }
  assert (like (escapeLike (String c q) +:+ rest) text =
    match text with EmptyString => false
    | String x text => Ascii.eqb x c && like (escapeLike q +:+ rest) text end) as ->.
  { cbn [escapeLike]. destruct (_ || _) eqn:E; rewrite ?append_cons.
    - done.
    - apply orb_false_elim in E as [[E1 E2]%orb_false_elim E3].
      cbn [like]. by rewrite E1, E2, E3. }
  destruct text as [|x text].
  { split; [done|]. by intros (? & ? & _). }
  rewrite andb_true_iff, Ascii.eqb_eq, IH. split.
  - intros (-> & tail & -> & H). by exists tail.
  - intros (tail & [= -> ->] & H). eauto.
Qed.

Lemma like_run rest text :
  like (String "%" rest) text = true ↔ ∃ pre tail, text = pre +:+ tail ∧ like rest tail = true.
Proof.
  induction text as [|x text IH].
  - change (like (String "%" rest) "") with (like rest "" || false). rewrite orb_false_r.
    split; [by exists "", ""|]. by intros ([] & [] & ? & ?).
  - change (like (String "%" rest) (String x text))
      with (like rest (String x text) || like (String "%" rest) text).
    rewrite orb_true_iff, IH. split.
    + intros [H|(pre & tail & -> & H)]; [by exists "", (String x text)|by exists (String x pre), tail].
    + intros ([|y pre] & tail & Ht & H); [rewrite append_nil in Ht; subst; by left|].
      rewrite append_cons in Ht. injection Ht as -> ->. right. by exists pre, tail.
Qed.

Lemma HasPrefix_app s pre : HasPrefix s pre = true ↔ ∃ tail, s = pre +:+ tail.
Proof.
  unfold HasPrefix. revert s. induction pre as [|c pre IH]; intros s.
  - split; [by exists s|by destruct s].
  - destruct s as [|x s]; [split; [done|by intros []]|].
    change (String.prefix (String c pre) (String x s))
      with (if ascii_dec c x then String.prefix pre s else false).
    destruct (ascii_dec c x) as [->|Hn].
    + rewrite IH. setoid_rewrite append_cons. split; intros [tail H]; exists tail; [by rewrite H|by injection H].
    + split; [done|]. setoid_rewrite append_cons. by intros [tail [= -> _]].
Qed.

Lemma Contains_app s sub : Contains s sub = true ↔ ∃ pre tail, s = pre +:+ sub +:+ tail.
Proof.
  induction s as [|x s IH]; cbn [Contains]; rewrite orb_true_iff;
    [rewrite (HasPrefix_app "" sub)|rewrite (HasPrefix_app (String x s) sub)].
  - split; [intros [[tail H]|H]; [by exists "", tail|done]|].
    intros ([|y pre] & tail & H); [|done]. left. by exists tail.
  - rewrite IH. split.
    + intros [[tail H]|(pre & tail & ->)]; [by exists "", tail|by exists (String x pre), tail].
    + intros ([|y pre] & tail & H); [left; by exists tail|right].
      rewrite append_cons in H. injection H as -> ->. by exists pre, tail.
Qed.

Lemma like_contains q text : like ("%" +:+ escapeLike q +:+ "%") text = Contains text q.
Proof.
  apply eq_iff_eq_true. rewrite Contains_app, append_cons, append_nil, like_run.
  setoid_rewrite like_escaped. setoid_rewrite like_any. naive_solver.
Qed.

Lemma ilike_contains q text :
  ilike text ("%" +:+ escapeLike q +:+ "%") = Contains (ToLower text) (ToLower q).
Proof.
  unfold ilike. rewrite !ToLower_app, ToLower_escapeLike. apply like_contains.
Qed.


Fixpoint ascii_only (s : string) : bool :=
  match s with
  | EmptyString => true
  | String c s => (nat_of_ascii c <? 128)%nat && ascii_only s
  end.

Section search_result.
Context (unaccent : string → string).
(** The dictionary only replaces characters beyond ASCII. *)
Context (unaccent_ascii : ∀ s, ascii_only s = true → unaccent s = s).

Definition occurs (q text : string) : bool := Contains (ToLower (unaccent text)) (ToLower q).

Definition occursOpt (q : string) (text : option string) : bool :=
  match text with Some t => occurs q t | None => false end.

Lemma ascii_only_app s t : ascii_only (s +:+ t) = ascii_only s && ascii_only t.
Proof.
  induction s as [|c s IH]; [done|]. rewrite append_cons. cbn [ascii_only].
  by rewrite IH, andb_assoc.
Qed.

Lemma escapeLike_ascii q : ascii_only q = true → ascii_only (escapeLike q) = true.
Proof.
  induction q as [|c q IH]; [done|]. cbn [escapeLike ascii_only].
  intros [Hc Hq]%andb_prop. specialize (IH Hq).
  destruct (_ || _); cbn [ascii_only]; rewrite Hc, IH; done.
Qed.

Lemma folded_occurs q text :
  ascii_only q = true → folded unaccent (searchPattern unaccent q) text = occurs q text.
Proof.
  intros Hq. unfold folded, searchPattern, occurs. rewrite (unaccent_ascii ("%" +:+ _));
    [apply ilike_contains|]. by rewrite !ascii_only_app, escapeLike_ascii.
Qed.

Lemma foldedOpt_occurs q text :
  ascii_only q = true → foldedOpt unaccent (searchPattern unaccent q) text = occursOpt q text.
Proof. intros Hq. destruct text; [by apply folded_occurs|done]. Qed.

(** A standing event of the fixture whose scorer or assist contains the query. *)
Definition creditedIn (q : string) (db : DB) (F : Z) (e : event.Event) : Prop :=
  (∃ id, dbEvents db !! id = Some e) ∧ e.(event.eFixtureID) = F ∧ e.(event.eRemoved) = false ∧
  occursOpt q e.(event.ePlayer).(event.pName) || occursOpt q e.(event.eAssist).(event.pName) = true.

Lemma eventMatches_spec q F db m :
  ascii_only q = true →
  m ∈ eventMatches unaccent (searchPattern unaccent q) F db ↔
  ∃ e, creditedIn q db F e ∧ m = mkSearchEventMatch e.(event.eID)
    (occursOpt q e.(event.ePlayer).(event.pName)) (occursOpt q e.(event.eAssist).(event.pName)).
Proof.
  intros Hq. unfold eventMatches. rewrite list_elem_of_fmap. setoid_rewrite elem_of_orderBy.
  setoid_rewrite list_elem_of_filter. setoid_rewrite list_elem_of_fmap.
  setoid_rewrite (foldedOpt_occurs q _ Hq). unfold creditedIn. split.
  - intros (e & -> & Hc & [id x] & -> & Hin%elem_of_map_to_list). exists x. cbn in *.
    simpl_bools. naive_solver.
  - intros (e & ((id & Hid) & Hf & Hr & Hc) & ->). exists e. split; [done|].
    rewrite Hc. rewrite Hr. split; [by rewrite (proj2 (Z.eqb_eq _ _) Hf)|]. exists (id, e). split; [done|].
    by apply elem_of_map_to_list.
Qed.

(** What the query finds in a fixture. *)
Definition relevant (q : string) (db : DB) (f : fixture.Fixture) : Prop :=
  occurs q f.(fixture.fLeague).(fixture.lName) || occurs q f.(fixture.fHome).(fixture.tName) ||
  occurs q f.(fixture.fAway).(fixture.tName) = true ∨ ∃ e, creditedIn q db f.(fixture.fID) e.

Lemma found_relevant q db f :
  ascii_only q = true →
  found (matchOf unaccent (searchPattern unaccent q) db f) = true ↔ relevant q db f.
Proof.
  intros Hq. unfold found, matchOf, relevant.
  cbn [smCompetition smHomeTeam smAwayTeam smEvents]. rewrite !(folded_occurs q _ Hq).
  rewrite orb_true_iff. apply or_iff_compat_l. rewrite Nat.ltb_lt. split.
  - destruct (eventMatches _ _ _ _) as [|m l] eqn:E; cbn; [lia|]. intros _.
    destruct (proj1 (eventMatches_spec q (fixture.fID f) db m Hq)) as (e & He & _);
      [rewrite E; by left|by exists e].
  - intros (e & He). pose proof (proj2 (eventMatches_spec q (fixture.fID f) db _ Hq)
      (ex_intro _ e (conj He eq_refl))) as Hin.
    destruct (eventMatches _ _ _ _); [by apply elem_of_nil in Hin|cbn; lia].
Qed.
End search_result.

(** ** The public window *)

(** The kickoff dates of the completed fixtures. *)
Definition datesOf (db : DB) : gset Z :=
  list_to_set ((λ f, utcDate f.(fixture.fKickoff)) <$>
    filter (λ f, isCompleted f = true) (map_to_list (dbFixtures db)).*2).

Lemma last_take_cons {A} n (x : A) l :
  last (take (S n) (x :: l)) = Some (default x (last (take n l))).
Proof.
  cbn [take]. destruct (take n l) as [|y l'] eqn:E; [done|].
  rewrite last_cons_cons. by destruct (last_is_Some (y :: l')) as [_ [z ->]].
Qed.

(** In a descending list the n-th element bounds those with fewer than n before
    them. *)
Lemma nth_bound (l : list Z) n d :
  StronglySorted (λ x y, y < x) l → d ∈ l →
  (∃ c, last (take n l) = Some c ∧ c ≤ d) ↔ (length (filter (λ x, (d < x)%Z) l) < n)%nat.
Proof.
  intros Hs. revert n. induction Hs as [|x l Hs IH Hx]; intros n Hd; [by apply elem_of_nil in Hd|].
  rewrite Forall_forall in Hx.
  destruct n as [|n]; [cbn [take]; split; [naive_solver|lia]|]. rewrite last_take_cons.
  apply elem_of_cons in Hd as [->|Hd].
  - rewrite filter_cons_False, filter_none by (try lia; apply Forall_forall; intros y Hy; specialize (Hx y Hy); lia).
    cbn. split; [lia|]. intros _. eexists. split; [done|].
    destruct (last (take n l)) as [c|] eqn:E; [|done]. cbn. apply Z.lt_le_incl, Hx.
    apply last_Some in E as [l' E]. rewrite <-(take_drop n l), E, !elem_of_app, list_elem_of_singleton.
    tauto.
  - assert (d < x) as Hdx by by apply Hx. rewrite filter_cons_True by done. cbn [length].
    specialize (IH n Hd). split.
    + intros (c & [= <-] & Hc). destruct (last (take n l)) as [c|]; cbn in Hc; [|lia].
      enough (length (filter (λ x, (d < x)%Z) l) < n)%nat by lia. apply IH. by exists c.
    + intros Hlt. destruct (proj2 IH) as (c & -> & Hc); [lia|]. by exists c.
Qed.

Lemma completedDates_perm db : completedDates db ≡ₚ elements (datesOf db).
Proof. apply sort_by_perm. Qed.

Lemma completedDates_sorted db : StronglySorted (λ x y, y < x) (completedDates db).
Proof.
  assert (StronglySorted (not_after (λ x y : Z, y <? x)) (completedDates db)) as Hs.
  { apply sort_by_sorted; unfold not_after; intros; simpl_bools; lia. }
  assert (NoDup (completedDates db)) as Hd by (rewrite completedDates_perm; apply NoDup_elements).
  revert Hd. induction Hs as [|x l Hs IH Hx]; intros Hd; [constructor|].
  apply NoDup_cons in Hd as [Hn Hd]. constructor; [by apply IH|].
  rewrite Forall_forall in *. intros y Hy. specialize (Hx y Hy). unfold not_after in Hx.
  simpl_bools. assert (x ≠ y) by by intros ->. lia.
Qed.

Lemma elem_of_datesOf db f id :
  dbFixtures db !! id = Some f → isCompleted f = true →
  utcDate f.(fixture.fKickoff) ∈ datesOf db.
Proof.
  intros Hf Hc. unfold datesOf. rewrite elem_of_list_to_set, list_elem_of_fmap. exists f.
  split; [done|]. rewrite list_elem_of_filter, list_elem_of_fmap. split; [done|].
  exists (id, f). split; [done|]. by apply elem_of_map_to_list.
Qed.

(** A completed fixture is public as long as fewer than n distinct dates with
    completed fixtures are newer than its own. *)
Lemma window_spec n db id f :
  dbFixtures db !! id = Some f →
  inPublicWindow (publicCutoff n db) f = true ↔
  (isCompleted f = true →
     (size (filter (λ d, (utcDate f.(fixture.fKickoff) < d)%Z) (datesOf db)) < n)%nat).
Proof.
  intros Hf. unfold inPublicWindow. destruct (isCompleted f) eqn:Hc; cbn; [|done].
  pose proof (elem_of_datesOf db f id Hf Hc) as Hin.
  assert (length (filter (λ x, (utcDate f.(fixture.fKickoff) < x)%Z) (completedDates db)) =
    size (filter (λ d, (utcDate f.(fixture.fKickoff) < d)%Z) (datesOf db))) as <-.
  { unfold size, set_size. cbn. apply Permutation_length.
    rewrite completedDates_perm. symmetry. apply NoDup_Permutation; [apply NoDup_elements| |].
    - apply NoDup_filter, NoDup_elements.
    - intros x. rewrite elem_of_elements, elem_of_filter, list_elem_of_filter, elem_of_elements. done. }
  rewrite <-(nth_bound _ n _ (completedDates_sorted db))
    by (by rewrite completedDates_perm, elem_of_elements).
  unfold publicCutoff, utcDate, day. destruct (last _) as [c|]; cbn; [|naive_solver].
  rewrite Z.leb_le. split.
  - intros H _. exists c. split; [done|]. apply Z.div_le_lower_bound; [done|lia].
  - intros H. destruct (H eq_refl) as (? & [= <-] & Hle).
    pose proof (Z.mul_div_le f.(fixture.fKickoff) (24 * time_Hour)). unfold time_Hour, time_Minute, time_Second in *. nia.
Qed.

(** Public listing: the window holds every staging and active fixture and the
    completed ones of the newest n dates that have any, and nothing else; it is
    ordered by state (staging, active, completed), newest update first, and the
    read changes nothing. *)
Theorem public_window n db :
  0 < n → ∃ rows, ListPublicWindow n db = inr (rows, db) ∧
    StronglySorted (λ x y, stateRank x < stateRank y ∨ stateRank x = stateRank y ∧
      y.(fixture.fUpdatedAt) ≤ x.(fixture.fUpdatedAt)) rows ∧
    ∀ f, f ∈ rows ↔ (∃ id, dbFixtures db !! id = Some f) ∧
      (isCompleted f = true →
        (size (filter (λ d, (utcDate f.(fixture.fKickoff) < d)%Z) (datesOf db)) < Z.to_nat n)%nat).
Proof.
  intros Hn. unfold ListPublicWindow. rewrite (proj2 (Z.leb_gt n 0)) by done.
  eexists. split; [reflexivity|]. split.
  - eapply StronglySorted_weaken; [|apply orderBy_sorted, _].
    intros x y. unfold not_after. cbn. unfold asc, desc.
    destruct (Z.compare_spec (stateRank y) (stateRank x)); try done; [|by left].
    destruct (Z.compare_spec (fixture.fUpdatedAt x) (fixture.fUpdatedAt y)); try done; right; lia.
  - intros f. rewrite elem_of_rows. split.
    + intros (Hw & id & Hf). split; [by exists id|]. by apply (window_spec _ _ id).
    + intros ((id & Hf) & Hw). split; [|by exists id]. by apply (window_spec _ _ id).
Qed.

Lemma search_rows unaccent q limit n db :
  0 < n → 0 ≤ limit → SearchPublicFixtures unaccent q limit n db =
    inr ((λ f, (f, matchOf unaccent (searchPattern unaccent q) db f)) <$>
      take (Z.to_nat limit) (orderBy [desc fixture.fKickoff]
        (filter (λ f, inPublicWindow (publicCutoff (Z.to_nat n) db) f &&
           found (matchOf unaccent (searchPattern unaccent q) db f) = true)
          (map_to_list (dbFixtures db)).*2)), db).
Proof.
  intros Hn Hl. unfold SearchPublicFixtures.
  by rewrite (proj2 (Z.leb_gt n 0)), (proj2 (Z.ltb_ge limit 0)) by done.
Qed.

(** Search: for an ASCII query (the only assumption on the unaccent dictionary
    is that it leaves ASCII alone) the result lists at most [limit] public
    fixtures, each of which literally contains the query - case and accents
    folded, wildcards of the query taken as themselves - in its league, a team
    name or the scorer or assist of one of its standing events; below the limit
    it lists all of them; the flags say where the query was found. *)
Theorem search_exact unaccent q limit n db :
  (∀ s, ascii_only s = true → unaccent s = s) → ascii_only q = true → 0 < n → 0 ≤ limit →
  ∃ rows, SearchPublicFixtures unaccent q limit n db = inr (rows, db) ∧
    Z.of_nat (length rows) ≤ limit ∧
    (∀ f m, (f, m) ∈ rows →
       inPublicWindow (publicCutoff (Z.to_nat n) db) f = true ∧ relevant unaccent q db f ∧
       m.(smHomeTeam) = occurs unaccent q f.(fixture.fHome).(fixture.tName) ∧
       m.(smAwayTeam) = occurs unaccent q f.(fixture.fAway).(fixture.tName) ∧
       ∀ x, x ∈ m.(smEvents) ↔ ∃ e, creditedIn unaccent q db f.(fixture.fID) e ∧
         x = mkSearchEventMatch e.(event.eID)
           (occursOpt unaccent q e.(event.ePlayer).(event.pName))
           (occursOpt unaccent q e.(event.eAssist).(event.pName))) ∧
    (Z.of_nat (length rows) < limit → ∀ id f, dbFixtures db !! id = Some f →
       inPublicWindow (publicCutoff (Z.to_nat n) db) f = true → relevant unaccent q db f →
       f ∈ rows.*1).
Proof.
  intros Hu Hq Hn Hl. rewrite search_rows by done. eexists. split; [reflexivity|].
  set (l := orderBy _ _). rewrite length_fmap, length_take. split; [lia|]. split.
  - intros f m (x & [= -> ->] & Hin)%list_elem_of_fmap. apply elem_of_take in Hin as (i & Hi & _).
    apply list_elem_of_lookup_2, elem_of_orderBy, list_elem_of_filter in Hi as [[Hw Hf]%andb_prop _].
    split_and!; [done|by apply (found_relevant unaccent Hu)| | |]; cbn.
    + by apply folded_occurs.
    + by apply folded_occurs.
    + intros y. by apply (eventMatches_spec unaccent Hu).
  - intros Hlen id f Hf Hw Hr. rewrite <-list_fmap_compose.
    rewrite take_ge by lia. apply list_elem_of_fmap. exists f. split; [done|].
    apply elem_of_orderBy, list_elem_of_filter. split.
    + rewrite Hw. by apply (found_relevant unaccent Hu).
    + apply list_elem_of_fmap. exists (id, f). split; [done|]. by apply elem_of_map_to_list.
Qed.

(** ** Lifecycle transitions *)

Section transitions.
Context (now : Time).

Lemma completionColumns_id f r : (completionColumns f r).(fixture.fID) = r.(fixture.fID).
Proof. done. Qed.

Lemma TransitionWithAudit_inv f record b db db' :
  TransitionWithAudit now f record db = inr (b, db') →
  b = false ∧ db' = db ∧ (∃ r, dbFixtures db !! f.(fixture.fID) = Some r) ∨
  b = true ∧ ∃ r set_ expected,
    dbFixtures db !! f.(fixture.fID) = Some r ∧
    expectedState f record.(auditlog.rKind) = inr expected ∧
    r.(fixture.fState) = expected ∧ r.(fixture.fState) ≠ f.(fixture.fState) ∧ outdated f r = false ∧
    set_ = (if (record.(auditlog.rKind) =? auditlog.KindFixtureActivated)%string
            then activationColumns f else completionColumns f) ∧
    fixtures_check (stampFixture now (set_ r)) = true ∧
    auditlog.Valid record = true ∧ record.(auditlog.rFixtureID) = f.(fixture.fID) ∧
    db' = appendLog record (setFixture f.(fixture.fID) (stampFixture now (set_ r)) db).
Proof.
  unfold TransitionWithAudit. destruct (auditlog.Valid record) eqn:Hv; cbn [negb]; [|done].
  destruct (Z.eqb_spec (auditlog.rFixtureID record) (fixture.fID f)) as [Hid|]; cbn [negb]; [|done].
  destruct (not_nil _); [done|]. intros H.
  apply bind_inv in H as (expected & db1 & Hl & H). apply lift_inv in Hl as [He ->].
  apply bind_inv in H as (row & db1 & Hs & H). apply query_inv in Hs as [-> ->].
  destruct (dbFixtures db !! fixture.fID f) as [r|] eqn:Hr; [|done].
  destruct (String.eqb_spec (fixture.fState r) (fixture.fState f)) as [|Hne];
    [apply ret_inv in H as [-> ->]; left; eauto|].
  destruct (String.eqb_spec (fixture.fState r) expected) as [Hex|]; cbn [negb] in H; [|done].
  destruct (outdated f r) eqn:Ho; [apply ret_inv in H as [-> ->]; left; eauto|].
  apply bind_inv in H as ([] & db1 & Hu & H). apply bind_inv in H as ([] & db2 & Ha & H).
  apply ret_inv in H as [-> ->]. apply insertAuditLog_inv in Ha as [_ ->].
  right. split; [done|].
  exists r, (if (record.(auditlog.rKind) =? auditlog.KindFixtureActivated)%string
             then activationColumns f else completionColumns f), expected.
  pose proof He as He0. unfold expectedState in He.
  destruct (auditlog.rKind record =? auditlog.KindFixtureActivated)%string eqn:Hk.
  - destruct (negb _); [done|]. injection He as <-.
    apply updateFixture_inv in Hu as [[_ Hn]|(x & Hx & _ & Hc & ->)].
    { specialize (Hn _ Hr). unfold isStaging in Hn. by rewrite Hex in Hn. }
    rewrite Hr in Hx. injection Hx as <-. by split_and!.
  - destruct (_ =? auditlog.KindFixtureCompleted)%string; [|done].
    destruct (negb _); [done|]. injection He as <-.
    apply updateFixture_inv in Hu as [[_ Hn]|(x & Hx & _ & Hc & ->)].
    { specialize (Hn _ Hr). unfold isActive in Hn. by rewrite Hex in Hn. }
    rewrite Hr in Hx. injection Hx as <-. by split_and!.
Qed.
End transitions.

Lemma expected_target f kind expected :
  expectedState f kind = inr expected →
  f.(fixture.fState) = (if (kind =? auditlog.KindFixtureActivated)%string
                        then fixture.StateActive else fixture.StateCompleted).
Proof.
  unfold expectedState. destruct (kind =? auditlog.KindFixtureActivated)%string.
  - by destruct (String.eqb_spec (fixture.fState f) fixture.StateActive).
  - destruct (kind =? _)%string; [|done].
    by destruct (String.eqb_spec (fixture.fState f) fixture.StateCompleted).
Qed.

(** Transitions: a lifecycle transition that takes effect moves the row from
    the state its audit names to the requested one, leaves every other row and
    table alone and writes that one audit record; from then on the same request,
    repeated by anyone at any time with whatever snapshot, succeeds without
    changing anything, so the transition is logged once. *)
Theorem transition_once now f record db db' :
  TransitionWithAudit now f record db = inr (true, db') →
  (∃ r r' expected, dbFixtures db !! f.(fixture.fID) = Some r ∧
     expectedState f record.(auditlog.rKind) = inr expected ∧
     r.(fixture.fState) = expected ∧ r'.(fixture.fState) = f.(fixture.fState) ∧
     r'.(fixture.fID) = r.(fixture.fID) ∧
     db' = appendLog record (setFixture f.(fixture.fID) r' db)) ∧
  ∀ now' f' record', f'.(fixture.fID) = f.(fixture.fID) → f'.(fixture.fState) = f.(fixture.fState) →
    fixture.ValidateInvariants f' = None → auditlog.Valid record' = true →
    record'.(auditlog.rFixtureID) = f.(fixture.fID) →
    record'.(auditlog.rKind) = record.(auditlog.rKind) →
    TransitionWithAudit now' f' record' db' = inr (false, db').
Proof.
  intros H. apply TransitionWithAudit_inv in H as
    [(? & _)|(_ & r & set_ & expected & Hr & He & Hs & Hne & Ho & Hset & Hc & Hv & Hid & ->)]; [done|].
  pose proof (expected_target _ _ _ He) as Ht.
  assert ((set_ r).(fixture.fState) = f.(fixture.fState)) as Hst.
  { subst set_. rewrite Ht. by destruct (_ =? auditlog.KindFixtureActivated)%string. }
  split.
  - exists r, (stampFixture now (set_ r)), expected. split_and!; try done.
    subst set_. by destruct (_ =? auditlog.KindFixtureActivated)%string.
  - intros now' f' record' Hi' Hs' Hval Hv' Hid' Hk'. unfold TransitionWithAudit.
    rewrite Hv', Hid', Hi', Z.eqb_refl, Hval. cbn [negb not_nil is_nil].
    assert (expectedState f' record'.(auditlog.rKind) = inr expected) as He'.
    { revert He. unfold expectedState. by rewrite Hk', Hs'. }
    erewrite bind_run by (by rewrite He'). cbn [dbFixtures].
    erewrite bind_run by done. cbn. rewrite lookup_insert_eq. cbn.
    by rewrite Hst, Hs', String.eqb_refl.
Qed.

(** ** The mutations as one type *)

Inductive op :=
  | opInsert (f : fixture.Fixture)
  | opStoreFromIngest (f : fixture.Fixture)
  | opRefreshActive (f : fixture.Fixture)
  | opRefreshStaging (f : fixture.Fixture)
  | opTransition (f : fixture.Fixture) (record : auditlog.Record_).

Definition exec (now : Time) (o : op) : Tx unit :=
  match o with
  | opInsert f => Insert now f
  | opStoreFromIngest f => discard (StoreFromIngest now f)
  | opRefreshActive f => discard (RefreshActivePoll now f)
  | opRefreshStaging f => discard (RefreshStagingPoll now f)
  | opTransition f record => discard (TransitionWithAudit now f record)
  end.

Section invariants.
Context (now : Time).

Lemma lift_keeps {A} I (m : string + A) : keeps I (lift m).
Proof. intros db a db' Hi H. by apply lift_inv in H as [_ ->]. Qed.
#[local] Hint Resolve lift_keeps : keeps.

Lemma fixture_exec_store o : keeps store_ok (exec now o).
Proof.
  destruct o; unfold exec, discard, Insert, StoreFromIngest, RefreshActivePoll,
    RefreshStagingPoll, refreshWhere, TransitionWithAudit; solve_keeps; by apply updateFixture_store.
Qed.

(** Writing provider fields of a row keeps its lifecycle. *)
Lemma forward_ingest f r : fixture_forward r (stampFixture now (ingestColumns f r)).
Proof. split; [done|by intros H; split; [left|]|done]. Qed.

Lemma forward_active f r : isActive r = true → fixture_forward r (stampFixture now (activeColumns f r)).
Proof.
  unfold isActive. intros Ha%String.eqb_eq. split; [done|by intros H; split; [left|]|].
  by rewrite Ha.
Qed.

Lemma forward_staging f r : fixture_forward r (stampFixture now (stagingColumns f r)).
Proof. split; [done|by intros H; split; [left|]|done]. Qed.

Lemma forward_activation f r :
  isStaging r = true → fixture_forward r (stampFixture now (activationColumns f r)).
Proof. unfold isStaging. intros Ha%String.eqb_eq. by split; rewrite ?Ha. Qed.

Lemma forward_completion f r :
  isActive r = true → fixture_forward r (stampFixture now (completionColumns f r)).
Proof.
  unfold isActive. intros Ha%String.eqb_eq. split; rewrite ?Ha; [done|by split; [right|]|done].
Qed.

Lemma fixture_exec_forward db0 o : keeps (forward_db db0) (exec now o).
Proof.
  destruct o; unfold exec, discard, Insert, StoreFromIngest, RefreshActivePoll,
    RefreshStagingPoll, refreshWhere, TransitionWithAudit; solve_keeps;
    apply updateFixture_forward; intros r Hr.
  - apply forward_ingest.
  - apply andb_prop in Hr as [Hr _]. by apply forward_active.
  - apply forward_staging.
  - by apply forward_activation.
  - by apply forward_completion.
Qed.

Lemma fixture_exec_evidence x o : keeps (λ db, evidence db = x) (exec now o).
Proof.
  destruct o; unfold exec, discard, Insert, StoreFromIngest, RefreshActivePoll,
    RefreshStagingPoll, refreshWhere, TransitionWithAudit; solve_keeps.
Qed.
End invariants.

End fixturerepo.
