(* ===== verification/Candidates.v ===== *)
(** internal/infra/pg, the candidate repository (candidate_repo.go): observation
    and completion of search candidates, serialized with the removal of their
    event by the event row's lock. *)
From S2P Require Import Prelude GoStrings ApiFootball Fixture Event Integrity Health Auditlog Presentation Plan Jsonb Discovery Store Mutation Commit Guarantees Preserve.
From Stdlib Require Import SpecFloat.
#[local] Open Scope string_scope.
#[local] Open Scope list_scope.
#[local] Open Scope Z_scope.
Import mutation jsonb discoverycontract pg boundary commit guarantees preserve.

Module candidaterepo.

(** [x >= 0] on DOUBLE PRECISION, where NaN is the greatest value. *)
Definition nonnegative (x : spec_float) : bool :=
  match x with S754_infinity s | S754_finite s _ _ => negb s | S754_zero _ | S754_nan => true end.

Definition candidates_check (c : Candidate) : bool :=
  (1 <=? c.(cdSearchAttempt)) && (c.(cdSearchAttempt) <=? 20) &&
  one_of c.(cdOutcomeClass) ["pending"; OutcomePromoted; OutcomeDuplicate; OutcomeSuperseded;
    OutcomeRejected; OutcomeFailed] &&
  match c.(cdRawMD5) with Some md5 => str_len md5 =? 16 | None => true end &&
  nonnegative c.(cdDurationSeconds) &&
  match c.(cdAgeMinutesAtDiscovery) with Some age => nonnegative age | None => true end.

Definition setCandidate (k : UUID * string) (c : Candidate) (db : DB) : DB :=
  db <| dbCandidates ::= λ t, <[k := c]> t |>.

(** Whether the event is removed.  A fixture id of zero or less selects by event
    alone. *)
Definition lockCandidateEvent (eventID : UUID) (fixtureID : Z) : Tx bool :=
  e ← selectEvent eventID;
  match e with
  | Some e =>
      if (0 <? fixtureID) && negb (e.(event.eFixtureID) =? fixtureID)
      then fail "event/fixture identity not found" else mret e.(event.eRemoved)
  | None => fail "event/fixture identity not found"
  end.

Section statements.
Context (now clock : Time).

Definition observedCandidate (evidence : CandidateEvidence) : Candidate :=
  mkCandidate evidence.(ceFixtureID) evidence.(ceSearchAttempt) evidence.(ceQuery)
    evidence.(ceTweetText) evidence.(ceVideoPageURL) evidence.(ceDurationSeconds)
    evidence.(ceUsername)
    (if SFltb (S754_zero false) evidence.(ceAgeMinutesAtDiscovery)
     then Some evidence.(ceAgeMinutesAtDiscovery) else None)
    now "pending" None None None None None None.

(** The checks come before the conflict, the foreign key after it. *)
Definition insertCandidateObservation (evidence : CandidateEvidence) : Tx bool :=
  let row := observedCandidate evidence in
  let key := (evidence.(ceEventID), evidence.(ceTweetURL)) in
  _ ← require (candidates_check row) "event_search_candidates check";
  rows ← query dbCandidates;
  match rows !! key with
  | Some _ => mret false
  | None =>
      e ← selectEvent evidence.(ceEventID);
      _ ← require match e with
            | Some e => e.(event.eFixtureID) =? evidence.(ceFixtureID) | None => false end
          "event_search_candidates_event_fixture_fkey";
      _ ← modify (setCandidate key row);
      mret true
  end.

(** The replay metadata of a historical repair survives the new detail. *)
Definition mergedDetail (old detail : option Json) : option Json :=
  match old with
  | Some o =>
      if hasKey "replay" o
      then Some (concat (match detail with None | Some jNull => jObject [] | Some d => d end)
                   (buildObject "replay" (getKey "replay" o)))
      else detail
  | None => detail
  end.

Definition terminalColumns (outcome : CandidateOutcome) (rejectReason : string)
    (detail : option Json) (c : Candidate) : Candidate :=
  let reason := if (rejectReason =? "")%string then None else Some rejectReason in
  let merged := mergedDetail c.(cdOutcomeDetail) detail in
  let repeated := (c.(cdOutcomeClass) =? outcome)%string &&
    bool_decide (c.(cdRejectReason) = reason) && bool_decide (c.(cdOutcomeDetail) = merged) in
  c <| cdOutcomeClass := outcome |> <| cdRejectReason := reason |> <| cdOutcomeDetail := merged |>
    <| cdOutcomeAt := Some (if repeated then default now c.(cdOutcomeAt) else now) |>.

(** Whether the row exists. *)
Definition updateCandidateTerminalOutcome (eventID : UUID) (tweetURL : string)
    (outcome : CandidateOutcome) (rejectReason : string) (detail : option Json) : Tx bool :=
  rows ← query dbCandidates;
  match rows !! (eventID, tweetURL) with
  | None => mret false
  | Some c =>
      let c' := terminalColumns outcome rejectReason detail c in
      _ ← require (candidates_check c') "event_search_candidates check";
      _ ← modify (setCandidate (eventID, tweetURL) c');
      mret true
  end.

Definition Observe (evidence : CandidateEvidence) : Tx bool :=
  removed ← lockCandidateEvent evidence.(ceEventID) evidence.(ceFixtureID);
  inserted ← insertCandidateObservation evidence;
  _ ← (if removed : bool then
         discard (terminalizePendingCandidatesForRemovedEvent clock evidence.(ceEventID)
           evidence.(ceTweetURL) (UTC clock))
       else mret tt);
  mret inserted.

Definition Complete (evidence : CandidateEvidence) (outcome : CandidateOutcome)
    (rejectReason : string) (detail : option Json) : Tx unit :=
  removed ← lockCandidateEvent evidence.(ceEventID) evidence.(ceFixtureID);
  _ ← insertCandidateObservation evidence;
  if removed : bool then
    discard (terminalizePendingCandidatesForRemovedEvent clock evidence.(ceEventID)
      evidence.(ceTweetURL) (UTC clock))
  else
    updated ← updateCandidateTerminalOutcome evidence.(ceEventID) evidence.(ceTweetURL) outcome
      rejectReason detail;
    require updated "candidate is missing".

Definition CompleteLegacy (eventID : UUID) (tweetURL : string) (outcome : CandidateOutcome)
    (rejectReason : string) (detail : option Json) : Tx unit :=
  removed ← lockCandidateEvent eventID 0;
  if removed : bool then
    discard (terminalizePendingCandidatesForRemovedEvent clock eventID tweetURL (UTC clock))
  else discard (updateCandidateTerminalOutcome eventID tweetURL outcome rejectReason detail).

Inductive op :=
  | opObserve (evidence : CandidateEvidence)
  | opComplete (evidence : CandidateEvidence) (outcome : CandidateOutcome) (rejectReason : string)
      (detail : option Json)
  | opCompleteLegacy (eventID : UUID) (tweetURL : string) (outcome : CandidateOutcome)
      (rejectReason : string) (detail : option Json).

Definition exec (o : op) : Tx unit :=
  match o with
  | opObserve ev => discard (Observe ev)
  | opComplete ev outcome reason detail => Complete ev outcome reason detail
  | opCompleteLegacy id url outcome reason detail => CompleteLegacy id url outcome reason detail
  end.

(** ** What the statements did *)

Lemma lockCandidateEvent_inv id F b db db' :
  lockCandidateEvent id F db = inr (b, db') →
  db' = db ∧ ∃ e, dbEvents db !! id = Some e ∧ e.(event.eRemoved) = b ∧
    (0 < F → e.(event.eFixtureID) = F).
Proof.
  unfold lockCandidateEvent. intros H. tx_inv.
  destruct (dbEvents db !! id) as [e|]; [|done]. destruct (_ && _) eqn:E; tx_inv.
  split; [done|]. exists e. split_and!; [done..|]. intros Hf.
  apply andb_false_iff in E as [E|E]; simpl_bools; [lia|done].
Qed.

Lemma insertObservation_inv ev b db db' :
  insertCandidateObservation ev db = inr (b, db') →
  let key := (ev.(ceEventID), ev.(ceTweetURL)) in
  (b = false ∧ db' = db ∧ is_Some (dbCandidates db !! key)) ∨
  (b = true ∧ dbCandidates db !! key = None ∧
   (∃ e, dbEvents db !! ev.(ceEventID) = Some e ∧ e.(event.eFixtureID) = ev.(ceFixtureID)) ∧
   db' = setCandidate key (observedCandidate ev) db).
Proof.
  unfold insertCandidateObservation. cbn zeta. intros H. tx_inv.
  destruct (dbCandidates db !! _) eqn:E; tx_inv; [by left; eauto|right].
  split_and!; [done..| |done].
  destruct (dbEvents db !! _) as [e|]; [|done]. exists e. split; [done|]. by apply Z.eqb_eq.
Qed.

Lemma updateOutcome_inv id url outcome reason detail b db db' :
  updateCandidateTerminalOutcome id url outcome reason detail db = inr (b, db') →
  b = false ∧ db' = db ∧ dbCandidates db !! (id, url) = None ∨
  b = true ∧ ∃ c, dbCandidates db !! (id, url) = Some c ∧
    candidates_check (terminalColumns outcome reason detail c) = true ∧
    db' = setCandidate (id, url) (terminalColumns outcome reason detail c) db.
Proof.
  unfold updateCandidateTerminalOutcome. intros H. tx_inv.
  destruct (dbCandidates db !! _) eqn:E; tx_inv; [|by left].
  right. split; [done|]. eexists. by split_and!.
Qed.

Lemma discard_inv {A} (m : Tx A) u db db' :
  discard m db = inr (u, db') → ∃ a, m db = inr (a, db').
Proof. unfold discard. intros H. tx_inv. by eexists. Qed.

(** ** The invariants of the tables *)

Lemma setCandidate_ok k c db :
  (∃ e, dbEvents db !! k.1 = Some e ∧ e.(event.eFixtureID) = c.(cdFixtureID)) →
  db_ok db → db_ok (setCandidate k c db).
Proof.
  intros He []. split; try done. intros k' c'. cbn. rewrite lookup_insert.
  case_decide; [subst k'; by intros [= <-]|]. apply ok_candidate0.
Qed.

Lemma insertObservation_ok ev : keeps db_ok (insertCandidateObservation ev).
Proof.
  intros db b db' Hok [(_ & -> & _)|(_ & _ & He & ->)]%insertObservation_inv; [done|].
  by apply setCandidate_ok.
Qed.

Lemma updateOutcome_ok id url outcome reason detail :
  keeps db_ok (updateCandidateTerminalOutcome id url outcome reason detail).
Proof.
  intros db b db' Hok [(_ & -> & _)|(_ & c & Hc & _ & ->)]%updateOutcome_inv; [done|].
  apply setCandidate_ok; [|done]. by apply (ok_candidate _ Hok _ _ Hc).
Qed.

Lemma lock_keeps I id F : keeps I (lockCandidateEvent id F).
Proof. by intros db b db' Hi [-> _]%lockCandidateEvent_inv. Qed.
#[local] Hint Resolve insertObservation_ok updateOutcome_ok lock_keeps : keeps.

Lemma candidate_exec_ok o : keeps db_ok (exec o).
Proof. destruct o; unfold exec, discard, Observe, Complete, CompleteLegacy, discard; solve_keeps. Qed.

(** Closed, except perhaps one row. *)
Definition closed_but (k : UUID * string) (db : DB) : Prop := ∀ k' c e,
  k' ≠ k → dbCandidates db !! k' = Some c → dbEvents db !! k'.1 = Some e →
  e.(event.eRemoved) = true → c.(cdOutcomeClass) ≠ "pending".

Lemma closed_but_set k c db : removed_closed db → closed_but k (setCandidate k c db).
Proof. intros Hr k' c' e Hne. cbn. rewrite lookup_insert_ne by done. apply Hr. Qed.

Lemma closed_but_weaken k db : removed_closed db → closed_but k db.
Proof. intros Hr k' c e _. apply Hr. Qed.

Lemma rejectPending_closes id url t db :
  closed_but (id, url) db → removed_closed (rejectPending id url t db).
Proof.
  intros Hr k c e. cbn. rewrite map_lookup_imap.
  destruct (dbCandidates db !! k) as [x|] eqn:E; [|done]. cbn. intros [= <-] He Hx.
  destruct (pendingOf id url k x) eqn:Hp; [done|].
  destruct (decide (k = (id, url))) as [->|Hk]; [|by eapply Hr].
  unfold pendingOf in Hp. rewrite bool_decide_eq_true_2, String.eqb_refl, orb_true_r, andb_true_r in Hp by done.
  by apply String.eqb_neq in Hp.
Qed.

Lemma closed_setCandidate k c db e :
  removed_closed db → dbEvents db !! k.1 = Some e → e.(event.eRemoved) = false →
  removed_closed (setCandidate k c db).
Proof.
  intros Hr He Hf k' c' e'. cbn. rewrite lookup_insert.
  case_decide; [subst k'; intros _ He'; congruence|apply Hr].
Qed.

(** Observing under a removed event, and then closing what is pending. *)
Lemma observe_and_close ev b n db db1 db2 :
  removed_closed db → insertCandidateObservation ev db = inr (b, db1) →
  terminalizePendingCandidatesForRemovedEvent clock ev.(ceEventID) ev.(ceTweetURL) (UTC clock) db1 =
    inr (n, db2) → removed_closed db2.
Proof.
  intros Hr Hi [t ->]%terminalize_inv. apply rejectPending_closes.
  apply insertObservation_inv in Hi as [(_ & -> & _)|(_ & _ & _ & ->)];
    [by apply closed_but_weaken|by apply closed_but_set].
Qed.

Lemma observation_closed ev b db db1 e :
  removed_closed db → dbEvents db !! ev.(ceEventID) = Some e → e.(event.eRemoved) = false →
  insertCandidateObservation ev db = inr (b, db1) →
  removed_closed db1 ∧ dbEvents db1 = dbEvents db.
Proof.
  intros Hr He Hf [(_ & -> & _)|(_ & _ & _ & ->)]%insertObservation_inv; [done|].
  split; [by eapply closed_setCandidate|done].
Qed.

Lemma update_closed id url outcome reason detail b db db1 e :
  removed_closed db → dbEvents db !! id = Some e → e.(event.eRemoved) = false →
  updateCandidateTerminalOutcome id url outcome reason detail db = inr (b, db1) → removed_closed db1.
Proof.
  intros Hr He Hf [(_ & -> & _)|(_ & c & _ & _ & ->)]%updateOutcome_inv; [done|].
  by eapply closed_setCandidate.
Qed.

Lemma candidate_exec_store o : keeps store_ok (exec o).
Proof.
  apply keeps_and; [apply candidate_exec_ok|]. intros db [] db' _ Hr H.
  destruct o as [ev|ev outcome reason detail|id url outcome reason detail]; unfold exec in H.
  - apply discard_inv in H as [b H]. unfold Observe in H.
    apply bind_inv in H as (r & db1 & Hl & H). apply lockCandidateEvent_inv in Hl as (-> & e & He & Hre & _).
    apply bind_inv in H as (b1 & db1 & Hi & H). apply bind_inv in H as ([] & db2 & Ht & [-> ->]%ret_inv).
    destruct r; [apply discard_inv in Ht as [n Ht]; by eapply observe_and_close|].
    apply ret_inv in Ht as [_ ->]. by eapply observation_closed.
  - unfold Complete in H.
    apply bind_inv in H as (r & db1 & Hl & H). apply lockCandidateEvent_inv in Hl as (-> & e & He & Hre & _).
    apply bind_inv in H as (b1 & db1 & Hi & H).
    destruct r; [apply discard_inv in H as [n Ht]; by eapply observe_and_close|].
    apply bind_inv in H as (b2 & db2 & Hu & [_ ->]%require_inv).
    destruct (observation_closed _ _ _ _ _ Hr He Hre Hi) as [Hr1 Hev].
    eapply update_closed; [done|by rewrite Hev|done|done].
  - unfold CompleteLegacy in H.
    apply bind_inv in H as (r & db1 & Hl & H). apply lockCandidateEvent_inv in Hl as (-> & e & He & Hre & _).
    destruct r; apply discard_inv in H as [n H]; [|by eapply update_closed].
    apply terminalize_inv in H as [t ->]. by apply closed_rejectPending.
Qed.

Lemma insertObservation_forward db0 ev : keeps (forward_db db0) (insertCandidateObservation ev).
Proof.
  apply forward_same.
  by intros db b db' [(_ & -> & _)|(_ & _ & _ & ->)]%insertObservation_inv.
Qed.

Lemma updateOutcome_forward db0 id url outcome reason detail :
  keeps (forward_db db0) (updateCandidateTerminalOutcome id url outcome reason detail).
Proof.
  apply forward_same. by intros db b db' [(_ & -> & _)|(_ & c & _ & _ & ->)]%updateOutcome_inv.
Qed.
#[local] Hint Resolve insertObservation_forward updateOutcome_forward : keeps.

Lemma candidate_exec_forward db0 o : keeps (forward_db db0) (exec o).
Proof. destruct o; unfold exec, discard, Observe, Complete, CompleteLegacy, discard; solve_keeps. Qed.

Lemma insertObservation_evidence x ev :
  keeps (λ db, evidence db = x) (insertCandidateObservation ev).
Proof.
  apply evidence_same. by intros db b db' [(_ & -> & _)|(_ & _ & _ & ->)]%insertObservation_inv.
Qed.

Lemma updateOutcome_evidence x id url outcome reason detail :
  keeps (λ db, evidence db = x) (updateCandidateTerminalOutcome id url outcome reason detail).
Proof.
  apply evidence_same. by intros db b db' [(_ & -> & _)|(_ & c & _ & _ & ->)]%updateOutcome_inv.
Qed.
#[local] Hint Resolve insertObservation_evidence updateOutcome_evidence : keeps.

Lemma candidate_exec_evidence x o : keeps (λ db, evidence db = x) (exec o).
Proof. destruct o; unfold exec, discard, Observe, Complete, CompleteLegacy, discard; solve_keeps. Qed.

(** ** Removal wins *)

(** The row is closed as belonging to a removed event. *)
Definition closedByRemoval (c : Candidate) : Prop :=
  c.(cdOutcomeClass) = OutcomeRejected ∧ c.(cdRejectReason) = Some RejectReasonEventRemoved ∧
  c.(cdCreditedAssetID) = None ∧ is_Some c.(cdOutcomeAt) ∧
  ∃ d, c.(cdOutcomeDetail) = Some d ∧ getKey "reason" d = Some (jString RejectReasonEventRemoved).

Lemma rejectPending_idle id url t db :
  (∀ k c, dbCandidates db !! k = Some c → pendingOf id url k c = false) →
  rejectPending id url t db = db.
Proof.
  intros Hn. unfold rejectPending. destruct db; cbn in *. f_equal. apply map_eq. intros k.
  rewrite map_lookup_imap. destruct (_ !! k) eqn:E; [|done]. cbn. by rewrite (Hn _ _ E).
Qed.

Lemma pendingOf_false id url k c :
  (k.1 = id → c.(cdOutcomeClass) ≠ "pending") → pendingOf id url k c = false.
Proof.
  unfold pendingOf. intros H. case_bool_decide as Hk; cbn; [|done].
  by rewrite (proj2 (String.eqb_neq _ _) (H Hk)).
Qed.

(** Removal wins: completing a candidate of a removed event, with whatever
    outcome, changes no row that is there; a candidate seen for the first time is
    kept, closed at once as rejected because the event was removed, uncredited,
    with the reason in its detail. *)
Theorem removal_wins ev outcome reason detail db db' e :
  removed_closed db → dbEvents db !! ev.(ceEventID) = Some e → e.(event.eRemoved) = true →
  Complete ev outcome reason detail db = inr (tt, db') →
  let key := (ev.(ceEventID), ev.(ceTweetURL)) in
  (∀ k c, dbCandidates db !! k = Some c → dbCandidates db' !! k = Some c) ∧
  (∀ k, k ≠ key → dbCandidates db' !! k = dbCandidates db !! k) ∧
  (dbCandidates db !! key = None → ∃ c, dbCandidates db' !! key = Some c ∧ closedByRemoval c).
Proof.
  intros Hr He Hrm H. cbn zeta. unfold Complete in H.
  apply bind_inv in H as (r & db1 & Hl & H).
  apply lockCandidateEvent_inv in Hl as (-> & e' & He' & Hre & _).
  rewrite He in He'. injection He' as <-. rewrite Hrm in Hre. subst r.
  apply bind_inv in H as (b & db1 & Hi & H). apply discard_inv in H as [n H].
  apply terminalize_inv in H as [t ->].
  apply insertObservation_inv in Hi as [(_ & -> & Hs)|(_ & Hn & _ & ->)].
  - rewrite rejectPending_idle; [split_and!; [done..|intros Hn; rewrite Hn in Hs; by destruct Hs]|].
    intros k c Hc. apply pendingOf_false. intros Hk. eapply Hr; [done|by rewrite Hk|done].
  - assert (∀ k c, k ≠ (ceEventID ev, ceTweetURL ev) → dbCandidates db !! k = Some c →
      pendingOf (ceEventID ev) (ceTweetURL ev) k c = false) as Hidle.
    { intros k c _ Hc. apply pendingOf_false. intros Hk. eapply Hr; [done|by rewrite Hk|done]. }
    assert (∀ k, k ≠ (ceEventID ev, ceTweetURL ev) →
      dbCandidates (rejectPending (ceEventID ev) (ceTweetURL ev) t
        (setCandidate (ceEventID ev, ceTweetURL ev) (observedCandidate ev) db)) !! k =
      dbCandidates db !! k) as Hother.
    { intros k Hk. cbn. rewrite map_lookup_imap, lookup_insert_ne by done.
      destruct (dbCandidates db !! k) eqn:E; [|done]. cbn. by rewrite (Hidle k). }
    split_and!; [|exact Hother|].
    + intros k c Hc. rewrite Hother; [done|]. intros ->. congruence.
    + intros _. eexists. split.
      * cbn. rewrite map_lookup_imap, lookup_insert_eq. cbn. unfold pendingOf.
        by rewrite bool_decide_eq_true_2, !String.eqb_refl, orb_true_r by done.
      * split_and!; try done. by eexists.
Qed.

(** ** Retries and repairs *)

(** No detail, or an object that leaves the replay metadata alone. *)
Definition plainDetail (detail : option Json) : Prop :=
  match detail with
  | None | Some jNull => True
  | Some (jObject fields) => lookupField "replay" fields = None
  | Some _ => False
  end.

Lemma merged_replay o detail v :
  plainDetail detail → getKey "replay" o = Some v →
  ∃ o', mergedDetail (Some o) detail = Some o' ∧ getKey "replay" o' = Some v.
Proof.
  intros Hp Hv. destruct o as [| | | | |fields]; try done. cbn in Hv |- *. rewrite Hv. cbn.
  destruct detail as [[| | | | |fs]|]; try done; cbn;
    (eexists; split; [done|]); cbn; by rewrite ?lookup_put.
Qed.

Lemma merged_repeat old detail :
  plainDetail detail → mergedDetail (mergedDetail old detail) detail = mergedDetail old detail.
Proof.
  intros Hp. assert (mergedDetail detail detail = detail) as Hd.
  { destruct detail as [[| | | | |fs]|]; try done. cbn in *. by rewrite Hp. }
  destruct old as [o|]; [|exact Hd]. cbn. destruct (hasKey "replay" o); [|exact Hd].
  destruct detail as [[| | | | |fs]|]; try done. cbn. by rewrite !lookup_put.
Qed.

(** The replay metadata on record for one row. *)
Definition replayOf (k : UUID * string) (v : Json) (db : DB) : Prop := ∃ c o,
  dbCandidates db !! k = Some c ∧ c.(cdOutcomeDetail) = Some o ∧ getKey "replay" o = Some v.

Lemma replay_setCandidate k v k' c' db :
  replayOf k v db → (k' = k → ∃ o, c'.(cdOutcomeDetail) = Some o ∧ getKey "replay" o = Some v) →
  replayOf k v (setCandidate k' c' db).
Proof.
  intros (c & o & Hc & Ho & Hv) Hk. destruct (decide (k' = k)) as [->|Hn].
  - destruct (Hk eq_refl) as (o' & Ho' & Hv'). exists c', o'. split_and!; [apply lookup_insert_eq|done..].
  - exists c, o. split_and!; [|done..]. cbn. by rewrite lookup_insert_ne.
Qed.

Lemma removed_replay o v :
  getKey "replay" o = Some v → getKey "replay" (removedDetail (Some o)) = Some v.
Proof. destruct o as [| | | | |fields]; try done. cbn. by rewrite lookup_put. Qed.

Lemma replay_rejectPending k v id url t db :
  replayOf k v db → replayOf k v (rejectPending id url t db).
Proof.
  intros (c & o & Hc & Ho & Hv). unfold replayOf. cbn. rewrite map_lookup_imap, Hc. cbn.
  destruct (pendingOf id url k c); [|by exists c, o].
  eexists _, _. split_and!; [done|cbn; by rewrite Ho|by apply removed_replay].
Qed.

Lemma observation_replay k v ev : keeps (replayOf k v) (insertCandidateObservation ev).
Proof.
  intros db b db' Hk [(_ & -> & _)|(_ & Hn & _ & ->)]%insertObservation_inv; [done|].
  apply replay_setCandidate; [done|]. intros <-. destruct Hk as (c & o & Hc & _). congruence.
Qed.

Lemma update_replay k v id url outcome reason detail :
  plainDetail detail →
  keeps (replayOf k v) (updateCandidateTerminalOutcome id url outcome reason detail).
Proof.
  intros Hp db b db' Hk [(_ & -> & _)|(_ & c & Hc & _ & ->)]%updateOutcome_inv; [done|].
  apply replay_setCandidate; [done|]. intros <-. destruct Hk as (c' & o & Hc' & Ho & Hv).
  rewrite Hc in Hc'. injection Hc' as <-. cbn. rewrite Ho. by apply merged_replay.
Qed.

Lemma terminalize_replay k v id url at_ :
  keeps (replayOf k v) (terminalizePendingCandidatesForRemovedEvent clock id url at_).
Proof. intros db n db' Hk [t ->]%terminalize_inv. by apply replay_rejectPending. Qed.
#[local] Hint Resolve observation_replay update_replay terminalize_replay : keeps.

(** The repository's callers pass outcome objects of their own. *)
Definition plainOp (o : op) : Prop :=
  match o with
  | opObserve _ => True
  | opComplete _ _ _ detail | opCompleteLegacy _ _ _ _ detail => plainDetail detail
  end.

(** The replay metadata a historical repair has put on a candidate survives
    every later observation, completion and removal. *)
Theorem replay_survives k v o db db' :
  plainOp o → replayOf k v db → exec o db = inr (tt, db') → replayOf k v db'.
Proof.
  intros Hp Hk H. eapply (λ K, K : keeps (replayOf k v) (exec o)); [|done..].
  destruct o; cbn in Hp; unfold exec, discard, Observe, Complete, CompleteLegacy, discard; solve_keeps.
Qed.

End statements.

(** ** Retries *)

Lemma check_observed now now' ev :
  candidates_check (observedCandidate now ev) = candidates_check (observedCandidate now' ev).
Proof. done. Qed.

Lemma terminalColumns_repeat now now' outcome reason detail c :
  plainDetail detail →
  terminalColumns now' outcome reason detail (terminalColumns now outcome reason detail c) =
  terminalColumns now outcome reason detail c.
Proof.
  intros Hp. unfold terminalColumns. cbn. rewrite merged_repeat, String.eqb_refl by done.
  by rewrite !bool_decide_eq_true_2 by done.
Qed.

Lemma setCandidate_idle k c db : dbCandidates db !! k = Some c → setCandidate k c db = db.
Proof. intros Hc. unfold setCandidate. destruct db; cbn in *. f_equal. by apply insert_id. Qed.

Lemma lock_run id F r db db' :
  dbEvents db' = dbEvents db → lockCandidateEvent id F db = inr (r, db) →
  lockCandidateEvent id F db' = inr (r, db').
Proof.
  unfold lockCandidateEvent, selectEvent, query, mbind, Tx_bind, mret, Tx_ret, fail. intros ->.
  destruct (dbEvents db !! id); [|done]. destruct (_ && _); [done|]. by intros [= ->].
Qed.

Lemma observation_run now ev db :
  candidates_check (observedCandidate now ev) = true →
  is_Some (dbCandidates db !! (ev.(ceEventID), ev.(ceTweetURL))) →
  insertCandidateObservation now ev db = inr (false, db).
Proof.
  intros Hc [c Hk]. unfold insertCandidateObservation.
  erewrite bind_run by (by apply require_run). erewrite bind_run by done. by rewrite Hk.
Qed.

Lemma terminalize_idle clock id url at_ db :
  removed_closed db → (∃ e, dbEvents db !! id = Some e ∧ e.(event.eRemoved) = true) →
  ∃ n, terminalizePendingCandidatesForRemovedEvent clock id url at_ db = inr (n, db).
Proof.
  intros Hr (e & He & Hre). unfold terminalizePendingCandidatesForRemovedEvent.
  eexists. erewrite bind_run by done. erewrite bind_run by done.
  rewrite rejectPending_idle; [done|]. intros k c Hc. apply pendingOf_false. intros Hk.
  eapply Hr; [done|by rewrite Hk|done].
Qed.

(** A completion that is delivered again, at any later time, changes nothing:
    neither the outcome nor when it was recorded. *)
Theorem completion_repeats now clock now' clock' ev outcome reason detail db db' :
  plainDetail detail → store_ok db →
  Complete now clock ev outcome reason detail db = inr (tt, db') →
  Complete now' clock' ev outcome reason detail db' = inr (tt, db').
Proof.
  intros Hp Hok H.
  assert (store_ok db') as [_ Hr']
    by (eapply (candidate_exec_store now clock (opComplete ev outcome reason detail)); [exact Hok|exact H]).
  unfold Complete in H |- *.
  apply bind_inv in H as (r & db1 & Hl & H). pose proof Hl as Hl0.
  apply lockCandidateEvent_inv in Hl0 as (-> & e & He & Hre & _).
  apply bind_inv in H as (b & db1 & Hi & H).
  assert (candidates_check (observedCandidate now' ev) = true) as Hc.
  { unfold insertCandidateObservation in Hi. by tx_inv. }
  assert (dbEvents db1 = dbEvents db ∧ is_Some (dbCandidates db1 !! (ceEventID ev, ceTweetURL ev)))
    as [Hev Hs].
  { apply insertObservation_inv in Hi as [(_ & -> & Hs)|(_ & _ & _ & ->)]; [done|].
    split; [done|]. cbn. rewrite lookup_insert_eq. by eexists. }
  destruct r.
  - apply discard_inv in H as [n Ht]. apply terminalize_inv in Ht as [t ->].
    erewrite bind_run by (by apply (lock_run _ _ true db)).
    erewrite bind_run.
    2:{ apply observation_run; [done|]. destruct Hs as [c Hs]. cbn. rewrite map_lookup_imap, Hs.
        by eexists. }
    destruct (terminalize_idle clock' (ceEventID ev) (ceTweetURL ev) (UTC clock')
      (rejectPending (ceEventID ev) (ceTweetURL ev) t db1) Hr') as [m Hm].
    { exists e. split; [|done]. cbn. by rewrite Hev. }
    unfold discard. by erewrite bind_run.
  - apply bind_inv in H as (u & db2 & Hu & [-> ->]%require_inv).
    apply updateOutcome_inv in Hu as [(? & _)|(_ & c & Hcd & Hcc & ->)]; [done|].
    set (c' := terminalColumns now outcome reason detail c) in *.
    assert (dbCandidates (setCandidate (ceEventID ev, ceTweetURL ev) c' db1) !!
      (ceEventID ev, ceTweetURL ev) = Some c') as Hk by apply lookup_insert_eq.
    erewrite bind_run by (by apply (lock_run _ _ false db)).
    erewrite bind_run by (by apply observation_run).
    assert (terminalColumns now' outcome reason detail c' = c') as Hrep by by apply terminalColumns_repeat.
    erewrite (bind_run _ _ _ true); [reflexivity|].
    unfold updateCandidateTerminalOutcome. erewrite bind_run by done. rewrite Hk, Hrep.
    erewrite bind_run by (by apply require_run). erewrite bind_run by done.
    by rewrite (setCandidate_idle _ c').
Qed.
End candidaterepo.
