(* ===== verification/HealthRepo.v ===== *)
(** internal/infra/pg, the provider health repository (provider_health_repo.go,
    provider_fixture_health.go): the receipts of logical polls and the evidence
    the collectors of Health.v advance. *)
From S2P Require Import Prelude GoStrings ApiFootball Fixture Event Integrity Health Auditlog Presentation Plan Jsonb Discovery Store Mutation Commit Guarantees Preserve.
#[local] Open Scope string_scope.
#[local] Open Scope list_scope.
#[local] Open Scope Z_scope.
Import providerintegrity health mutation pg boundary commit guarantees preserve.

Module healthrepo.

(** ** Checks (schema.sql) *)

Definition countNonNegative (v : option Z) : bool :=
  match v with Some n => 0 <=? n | None => true end.

(** NULL, or not after the given bound; a missing time is the zero time. *)
Definition notAfterUsable (usable t : Time) : bool :=
  IsZero t || (negb (IsZero usable) && (t <=? usable)).

Definition provider_fixture_health_times_check (s : FixtureHealth) : bool :=
  (IsZero s.(hLastUsableAt) || (s.(hLastUsableAt) <=? s.(hLastObservedAt))) &&
  notAfterUsable s.(hLastUsableAt) s.(hContinuousSince) &&
  notAfterUsable s.(hLastUsableAt) s.(hClockProgressAt) &&
  notAfterUsable s.(hLastUsableAt) s.(hPhaseSince).

Definition provider_fixture_health_evidence_check (x : FixtureHealthEvidence) : bool :=
  (x.(xVersion) =? 1) &&
  one_of x.(xAvailability)
    [AvailabilityUsable; AvailabilityTransport; AvailabilityContract; AvailabilityUnobserved] &&
  one_of x.(xFreshness) [FreshnessUnknown; FreshnessWithinWindow; FreshnessNotClocked;
    FreshnessStalled; FreshnessBoundaryWarning] &&
  (length x.(xIncidents) <=? 10)%nat.

(** Ids are ASCII, so that [length] counts bytes. *)
Definition pollIDFits (id : string) : bool := (1 <=? str_len id) && (str_len id <=? 200).

Definition provider_fixture_health_check (s : FixtureHealth) : bool :=
  pollIDFits s.(hLastPollID) && countNonNegative s.(hClockElapsed) &&
  countNonNegative s.(hClockExtra) && provider_fixture_health_evidence_check s.(hEvidence) &&
  provider_fixture_health_times_check s.

Definition provider_health_check (s : ProviderHealth) : bool :=
  (0 <=? s.(pGeneration)) && one_of s.(pPolicy) [PolicyTrusted; PolicyPositiveOnly] &&
  (s.(pEvidence).(pVersion) =? 1).

(** ** Data *)

Record FetchFailureEvidence := mkFetchFailureEvidence {
  ffPollID : string;
  ffObservedAt : Time;
  ffAttempt : Z;
  ffFailures : list HealthObservation }.

Definition setPoll (id : string) (r : PollRow) (db : DB) : DB :=
  db <| dbPolls ::= λ t, <[id := r]> t |>.
Definition setHealth (id : Z) (s : FixtureHealth) (db : DB) : DB :=
  db <| dbFixtureHealth ::= λ t, <[id := s]> t |>.
Definition setProvider (s : ProviderHealth) (db : DB) : DB := db <| dbProvider := s |>.
Definition deletePolls (keys : list string) (db : DB) : DB :=
  db <| dbPolls ::= λ t, foldr delete t keys |>.

(** The poll of [Observe]: its time in the precision of the store. *)
Definition storedPoll (poll : HealthPoll) : HealthPoll :=
  mkHealthPoll poll.(hlID) (timestamptz (UTC poll.(hlAt))) poll.(hlObservations).

(** A fixture with a failed attempt under the poll was not observed continuously. *)
Definition markInterrupted (interrupted : gset Z) (o : HealthObservation) : HealthObservation :=
  mkHealthObservation o.(hoFixtureID) o.(hoAvailability) o.(hoFailureReason)
    (o.(hoInterrupted) || bool_decide (o.(hoFixtureID) ∈ interrupted)) o.(hoBaselineLastPolled)
    o.(hoComparison).

Definition interruptedFixtures (attempts : gmap string (list HealthObservation)) : gset Z :=
  list_to_set (hoFixtureID <$> concat (map_to_list attempts).*2).

(** The oldest rows past the retention, at most 256. *)
Definition expiredPolls (before : Time) (rows : gmap string PollRow) : list string :=
  expiredRows prObservedAt 256 before rows.

(** The result of a poll that is not newer than the evidence. *)
Definition ignoredResult (at_ : Time) (state : ProviderHealth) : HealthResult :=
  mkHealthResult at_ state.(pGeneration) state.(pPolicy) 0 0 [] [] [] [] (mkHealthCorrelation [] [] "")
    [] 0 true.

Section statements.
(** Whether the JSON text of a row is within the size its table allows. *)
Context (pollFits : PollRow → bool) (fixtureFits : FixtureHealthEvidence → bool)
  (providerFits : ProviderHealthEvidence → bool).

(** ** Statements *)

Definition writePoll (id : string) (r : PollRow) : Tx unit :=
  _ ← require (pollIDFits id && pollFits r) "provider_health_polls check";
  modify (setPoll id r).

Definition lockProviderHealth : Tx ProviderHealth :=
  s ← query dbProvider;
  _ ← require (s.(pEvidence).(pVersion) =? HealthEvidenceVersion)
    "unsupported provider health evidence version";
  mret s.

Definition storeProviderHealth (s : ProviderHealth) : Tx unit :=
  _ ← require (provider_health_check s && providerFits s.(pEvidence)) "provider_health check";
  modify (setProvider s).

Definition storeFixtureHealth (s : FixtureHealth) : Tx unit :=
  _ ← require (provider_fixture_health_check s && fixtureFits s.(hEvidence))
    "provider_fixture_health check";
  f ← selectFixture s.(hFixtureID);
  _ ← require (not_nil f) "provider_fixture_health_fixture_id_fkey";
  modify (setHealth s.(hFixtureID) s).

Definition verifyHealthBaselines (poll : HealthPoll) : Tx unit :=
  each (λ _ o,
    if negb (o.(hoAvailability) =? AvailabilityUsable)%string then mret tt
    else
      f ← selectFixture o.(hoFixtureID);
      match f with
      | None => fail "verify provider health fixture baseline"
      | Some f => require (sameOptionalTime f.(fixture.fLastPolledAt) o.(hoBaselineLastPolled))
          "stale provider mutation plan"
      end) tt poll.(hlObservations).

(** ** RecordFetchFailure *)

Definition RecordFetchFailure (failure : FetchFailureEvidence) : Tx unit :=
  if not_nil (HealthPoll_Validate (mkHealthPoll failure.(ffPollID) failure.(ffObservedAt)
       failure.(ffFailures))) then fail "invalid provider health poll"
  else if (failure.(ffAttempt) <=? 0) || (10 <? failure.(ffAttempt))
  then fail "invalid provider fetch attempt"
  else if existsb (λ o, (o.(hoAvailability) =? AvailabilityUsable)%string) failure.(ffFailures)
  then fail "failure receipt contains usable data"
  else
    let id := failure.(ffPollID) in
    let attempt := Itoa failure.(ffAttempt) in
    let at_ := timestamptz failure.(ffObservedAt) in
    rows ← query dbPolls;
    match rows !! id with
    | None => writePoll id (mkPollRow at_ {[attempt := failure.(ffFailures)]} None)
    | Some r =>
        if is_nil r.(prResult) && (r.(prObservedAt) =? at_) &&
           is_nil (r.(prFailedAttempts) !! attempt)
        then writePoll id (r <| prFailedAttempts ::= insert attempt failure.(ffFailures) |>)
        else mret tt
    end.

(** ** Observe *)

(** One observation: load, observe, store. *)
Definition observeOne (poll : HealthPoll) (acc : list FixtureHealth * list HealthTransition)
    (o : HealthObservation) : Tx (list FixtureHealth * list HealthTransition) :=
  s ← loadFixtureHealth o.(hoFixtureID);
  let '(s, ts) := ObserveFixture s poll o in
  _ ← storeFixtureHealth s;
  mret (acc.1 ++ [s], acc.2 ++ ts).

Definition observePoll (poll : HealthPoll) (attempts : gmap string (list HealthObservation))
    (state : ProviderHealth) : Tx (ProviderHealth * HealthResult) :=
  _ ← verifyHealthBaselines poll;
  let poll := mkHealthPoll poll.(hlID) poll.(hlAt)
    (markInterrupted (interruptedFixtures attempts) <$> poll.(hlObservations)) in
  '(states, transitions) ← each (observeOne poll) ([], []) poll.(hlObservations);
  let '(state, out) := ObserveProvider state poll states transitions in
  let out := mkHealthResult out.(rObservedAt) out.(rGeneration) out.(rProviderPolicy)
    out.(rRequested) out.(rUsable) out.(rUnavailableIDs) out.(rRestrictedIDs) out.(rStalledIDs)
    out.(rBoundaryIDs) out.(rCorrelation) out.(rTransitions) (Z.of_nat (size attempts))
    out.(rIgnored) in
  _ ← storeProviderHealth state;
  mret (state, out).

(** The first write of the poll's row. *)
Definition registerPoll (poll : HealthPoll) : Tx PollRow :=
  rows ← query dbPolls;
  match rows !! poll.(hlID) with
  | Some r => mret r
  | None =>
      let r := mkPollRow poll.(hlAt) ∅ None in
      _ ← writePoll poll.(hlID) r;
      mret r
  end.

Definition finishPoll (poll : HealthPoll) (row : PollRow) (state : ProviderHealth)
    : Tx HealthResult :=
  '(state, out) ← (if negb (After poll.(hlAt) state.(pLastObservedAt))
                   then mret (state, ignoredResult poll.(hlAt) state)
                   else observePoll poll row.(prFailedAttempts) state);
  _ ← writePoll poll.(hlID) (row <| prResult := Some out |>);
  rows ← query dbPolls;
  _ ← modify (deletePolls (expiredPolls
    (time_Add state.(pLastObservedAt) (- HealthReceiptRetention)) rows));
  mret out.

Definition Observe (poll : HealthPoll) : Tx HealthResult :=
  let poll := storedPoll poll in
  if not_nil (HealthPoll_Validate poll) then fail "invalid provider health poll"
  else
    state ← lockProviderHealth;
    row ← registerPoll poll;
    _ ← require (row.(prObservedAt) =? timestamptz poll.(hlAt))
      "provider health poll ID reused with another time";
    match row.(prResult) with
    | Some out => mret out
    | None => finishPoll poll row state
    end.

Inductive op :=
  | opRecordFetchFailure (failure : FetchFailureEvidence)
  | opObserve (poll : HealthPoll).

Definition exec (o : op) : Tx unit :=
  match o with
  | opRecordFetchFailure failure => RecordFetchFailure failure
  | opObserve poll => discard (Observe poll)
  end.

End statements.

(** ** What the collector writes fits the schema *)

(** The ten causes: three of the clock and the provider, and the seven reasons a
    single fixture can give. *)
Definition fixtureCauses : list HealthCause :=
  [CauseUnavailable; CauseClockStalled; CauseBoundaryWarning; ReasonFixtureIdentityChanged;
   ReasonPhaseRegressed; ReasonTerminalRegressed; ReasonClockRegressed; ReasonScoreDecreased;
   ReasonPopulatedFieldCleared; ReasonConfirmedEventsMissing].

(** An evidence row as the collector leaves it. *)
Record row_fits (s : FixtureHealth) : Prop := {
  rf_evidence : evidence_ok s;
  rf_causes : Forall (λ i, hiCause i ∈ fixtureCauses) (incidents s);
  rf_times : provider_fixture_health_times_check s = true;
  rf_clock : countNonNegative s.(hClockElapsed) && countNonNegative s.(hClockExtra) = true;
  rf_version : s.(hEvidence).(xVersion) = 0 ∨ s.(hEvidence).(xVersion) = 1 }.

Lemma new_row_fits id : row_fits (newFixtureHealth id).
Proof. split; [apply newFixtureHealth_ok|constructor|done|done|by left]. Qed.

Lemma AssessFixture_causes c r : r ∈ (AssessFixture c).(fvReasons) → r ∈ fixtureCauses.
Proof.
  unfold AssessFixture; cbn [fvReasons]. rewrite !elem_of_app.
  intros H. destruct H as [H|[H|[H|[H|[H|[H|H]]]]]]; apply elem_of_reason_if in H as ->;
    unfold fixtureCauses; repeat (left + right).
Qed.

Lemma openRequests_causes s o : Forall (λ r, r.1.1.1 ∈ fixtureCauses) (openRequests s o).
Proof.
  unfold openRequests. destruct (negb _); [repeat constructor|]. apply Forall_app. split.
  - repeat case_match; repeat constructor.
  - apply Forall_fmap, Forall_forall. intros r Hr. by apply (AssessFixture_causes (hoComparison o)).
Qed.

(** Opening incidents changes nothing else. *)
Lemma open_only poll o u prev reqs s tr :
  ∃ l, (foldl (openStep poll o u prev) (s, tr) reqs).1 =
    s <| hEvidence ::= λ x, x <| xIncidents := l |> |>.
Proof.
  revert s tr. induction reqs as [|r reqs IH]; intros s tr; cbn [foldl].
  { exists s.(hEvidence).(xIncidents). by destruct s as [? ? ? ? ? ? ? ? ? ? ? []]. }
  destruct r as [[[cause policy] baseline] events]. cbn [openStep]. unfold openIncident.
  destruct (existsb _ _); [apply IH|].
  match goal with |- context [foldl _ (?a, ?b) reqs] => destruct (IH a b) as [l ->] end.
  exists l. done.
Qed.

Lemma ObserveFixture_cursor s poll o :
  staleReceipt s poll = false → ∃ l, (ObserveFixture s poll o).1 =
    (observeCursor s poll o) <| hEvidence ::= λ x, x <| xIncidents := l |> |>.
Proof.
  intros Hs. rewrite (ObserveFixture_fresh _ _ _ Hs).
  destruct (open_only poll o (usableObservation o) (hLastUsableAt s)
    (openRequests (afterResolution s poll o) o) (afterResolution s poll o)
    (resolvedTransition (hFixtureID (observeCursor s poll o)) <$>
      omap (closedIncident poll o (usableObservation o))
        (xIncidents (hEvidence (observeCursor s poll o))))) as [l ->].
  by exists l.
Qed.

(** The clock after a usable observation: every time is an old one or now. *)
Lemma advanceClock_fields s at_ o :
  let s' := advanceClock s at_ o in
  (s'.(hContinuousSince) = at_ ∨ s'.(hContinuousSince) = s.(hContinuousSince)) ∧
  (s'.(hClockProgressAt) = at_ ∨ s'.(hClockProgressAt) = s.(hClockProgressAt)) ∧
  (s'.(hPhaseSince) = at_ ∨ s'.(hPhaseSince) = s.(hPhaseSince)) ∧
  ((s'.(hClockElapsed) = s.(hClockElapsed) ∧ s'.(hClockExtra) = s.(hClockExtra)) ∨
   (s'.(hClockElapsed) = o.(hoComparison).(Observed).(ffElapsed) ∧
    s'.(hClockExtra) = o.(hoComparison).(Observed).(ffExtra))) ∧
  s'.(hEvidence) = s.(hEvidence) ∧ s'.(hLastUsableAt) = s.(hLastUsableAt).
Proof.
  unfold advanceClock. cbn zeta. repeat case_match; cbn; tauto.
Qed.

Lemma AssessFreshness_state e :
  one_of (AssessFreshness e).(vState) [FreshnessUnknown; FreshnessWithinWindow; FreshnessNotClocked;
    FreshnessStalled; FreshnessBoundaryWarning] = true.
Proof.
  unfold AssessFreshness. cbn zeta.
  repeat match goal with |- context [if ?c then _ else _] => destruct c; [done|] end.
  by repeat case_match.
Qed.

(** The times of a row at most the usable one. *)
Lemma times_check_spec s :
  provider_fixture_health_times_check s = true ↔
  (s.(hLastUsableAt) = 0 ∨ s.(hLastUsableAt) ≤ s.(hLastObservedAt)) ∧
  Forall (λ t, t = 0 ∨ s.(hLastUsableAt) ≠ 0 ∧ t ≤ s.(hLastUsableAt))
    [s.(hContinuousSince); s.(hClockProgressAt); s.(hPhaseSince)].
Proof.
  unfold provider_fixture_health_times_check, notAfterUsable, IsZero.
  rewrite !Forall_cons, Forall_nil, !andb_true_iff, !orb_true_iff, !andb_true_iff, !negb_true_iff.
  rewrite !Z.eqb_eq, !Z.eqb_neq, !Z.leb_le. tauto.
Qed.

Lemma cursor_times s poll o :
  provider_fixture_health_times_check s = true → s.(hLastObservedAt) < poll.(hlAt) →
  poll.(hlAt) ≠ 0 → provider_fixture_health_times_check (observeCursor s poll o) = true.
Proof.
  rewrite !times_check_spec. intros [Hu Ht] Hlt Hz. unfold observeCursor.
  set (s0 := if xVersion (hEvidence s) =? 0 then _ else s).
  assert (s0.(hLastUsableAt) = s.(hLastUsableAt) ∧ s0.(hContinuousSince) = s.(hContinuousSince) ∧
    s0.(hClockProgressAt) = s.(hClockProgressAt) ∧ s0.(hPhaseSince) = s.(hPhaseSince))
    as (E1 & E2 & E3 & E4) by (subst s0; by destruct (_ =? 0)).
  clearbody s0. destruct (_ =? AvailabilityUsable)%string; cbn.
  - pose proof (advanceClock_fields s0 poll.(hlAt) o) as (A1 & A2 & A3 & _).
    split; [by right|]. rewrite !Forall_cons, Forall_nil in *.
    destruct Ht as (T1 & T2 & T3 & _). rewrite E2 in A1. rewrite E3 in A2. rewrite E4 in A3.
    split_and!; [..|done].
    + destruct A1 as [->| ->]; [by right|]. destruct T1 as [|[]]; [by left|right; lia].
    + destruct A2 as [->| ->]; [by right|]. destruct T2 as [|[]]; [by left|right; lia].
    + destruct A3 as [->| ->]; [by right|]. destruct T3 as [|[]]; [by left|right; lia].
  - rewrite E1, E3, E4. split; [destruct Hu; [by left|right; lia]|].
    rewrite !Forall_cons, Forall_nil in *. destruct Ht as (T1 & T2 & T3 & _).
    split_and!; [by left|done..].
Qed.

Lemma cursor_clock s poll o :
  countNonNegative s.(hClockElapsed) && countNonNegative s.(hClockExtra) = true →
  (usableObservation o = true → clockValuesValid o.(hoComparison).(Observed) = true) →
  countNonNegative (observeCursor s poll o).(hClockElapsed) &&
    countNonNegative (observeCursor s poll o).(hClockExtra) = true.
Proof.
  intros Hs Ho. unfold observeCursor.
  set (s0 := if xVersion (hEvidence s) =? 0 then _ else s).
  assert (s0.(hClockElapsed) = s.(hClockElapsed) ∧ s0.(hClockExtra) = s.(hClockExtra)) as [E1 E2]
    by (subst s0; by destruct (_ =? 0)).
  clearbody s0. unfold usableObservation in Ho.
  destruct (_ =? AvailabilityUsable)%string; cbn; [|by rewrite E1, E2].
  pose proof (advanceClock_fields s0 poll.(hlAt) o) as (_ & _ & _ & A4 & _).
  destruct A4 as [[-> ->]|[-> ->]]; [by rewrite E1, E2|]. by apply Ho.
Qed.

Lemma cursor_evidence s poll o :
  s.(hEvidence).(xVersion) = 0 ∨ s.(hEvidence).(xVersion) = 1 →
  (observeCursor s poll o).(hEvidence).(xVersion) = 1 ∧
  (observeCursor s poll o).(hEvidence).(xAvailability) = o.(hoAvailability) ∧
  one_of (observeCursor s poll o).(hEvidence).(xFreshness) [FreshnessUnknown; FreshnessWithinWindow;
    FreshnessNotClocked; FreshnessStalled; FreshnessBoundaryWarning] = true.
Proof.
  intros Hv. unfold observeCursor.
  set (s0 := if xVersion (hEvidence s) =? 0 then _ else s).
  assert (s0.(hEvidence).(xVersion) = 1) as E by (subst s0; by destruct Hv as [E|E]; rewrite E).
  clearbody s0. destruct (_ =? AvailabilityUsable)%string; cbn.
  - pose proof (advanceClock_fields s0 poll.(hlAt) o) as (_ & _ & _ & _ & -> & _).
    split_and!; [done|done|apply AssessFreshness_state].
  - by split_and!.
Qed.

(** A poll that validates. *)
Lemma Validate_poll poll :
  HealthPoll_Validate poll = None →
  pollIDFits poll.(hlID) = true ∧ poll.(hlAt) ≠ 0 ∧
  Forall (λ o, one_of o.(hoAvailability)
    [AvailabilityUsable; AvailabilityTransport; AvailabilityContract; AvailabilityUnobserved] = true)
    poll.(hlObservations) ∧ NoDup (hoFixtureID <$> poll.(hlObservations)).
Proof.
  unfold HealthPoll_Validate. destruct (_ || _) eqn:E; [done|]. intros Hv.
  rewrite !orb_false_iff in E. destruct E as [[[[E1 E2] E3] E4] E5]. split_and!.
  - unfold pollIDFits. unfold str_len in *. destruct (hlID poll); [done|]. simpl_bools. cbn in *. lia.
  - by apply Z.eqb_neq in E3.
  - revert Hv. generalize (∅ : gset Z) as seen. clear.
    induction (hlObservations poll) as [|o os IH]; intros seen; [constructor|]. cbn.
    destruct (_ || _); [done|]. destruct (String.eqb_spec (hoAvailability o) AvailabilityUsable) as [E|].
    + destruct (_ || _); [done|]. intros H. constructor; [by rewrite E|by eapply IH].
    + destruct (one_of _ _) eqn:E; [|done]. intros H. constructor; [|by eapply IH].
      eapply one_of_impl; [|exact E]. done.
  - assert (∀ seen, validateObservations seen poll.(hlObservations) = None →
      NoDup (hoFixtureID <$> poll.(hlObservations)) ∧
      ∀ o, o ∈ poll.(hlObservations) → o.(hoFixtureID) ∉ seen) as H; [|by eapply H].
    clear. induction (hlObservations poll) as [|o os IH]; intros seen.
    { split; [constructor|]. by intros o ?%elem_of_nil. }
    cbn. destruct (_ || _) eqn:E; [done|]. intros H.
    rewrite !orb_false_iff in E. destruct E as [[_ E] _]. apply bool_decide_eq_false in E.
    assert (validateObservations ({[hoFixtureID o]} ∪ seen) os = None) as Hv
      by (by repeat (case_match; try done)).
    apply IH in Hv as [Hn Hs]. split.
    + apply NoDup_cons. split; [|done]. intros (o' & Ho & Hin)%list_elem_of_fmap.
      apply (Hs o' Hin). set_solver.
    + intros o' [->|Hin]%elem_of_cons; [done|]. specialize (Hs o' Hin). set_solver.
Qed.

Lemma causes_after s poll o :
  Forall (λ i, hiCause i ∈ fixtureCauses) (incidents s) → staleReceipt s poll = false →
  Forall (λ i, hiCause i ∈ fixtureCauses) (incidents (ObserveFixture s poll o).1).
Proof.
  intros Hc Hs. destruct (ObserveFixture_opens s poll o Hs) as (new & ts & E1 & _ & _ & _ & _ & _ & H5 & _).
  rewrite E1, after_incidents. apply Forall_app. split.
  - rewrite Forall_forall in *. intros j (i & Hi & Hk)%list_elem_of_omap.
    apply kept_inv in Hk as [-> _]. destruct (resolveIncident_same poll o (usableObservation o) i) as [-> _].
    by apply Hc.
  - eapply Forall_impl; [exact H5|]. intros i (_ & _ & Hin).
    apply list_elem_of_fmap in Hin as (r & Hr & Hin). injection Hr as -> _.
    pose proof (openRequests_causes (afterResolution s poll o) o) as HP. rewrite Forall_forall in HP.
    by apply HP.
Qed.

Lemma row_fits_count s : row_fits s → (length (incidents s) ≤ 10)%nat.
Proof.
  intros [[Hn _] Hc _ _ _]. change 10%nat with (length fixtureCauses).
  rewrite <-(length_fmap hiCause). apply submseteq_length, NoDup_submseteq; [done|].
  intros c (i & -> & Hi)%list_elem_of_fmap. rewrite Forall_forall in Hc. by apply Hc.
Qed.

Lemma ObserveFixture_fits_row s poll o :
  row_fits s → HealthPoll_Validate poll = None →
  (usableObservation o = true → clockValuesValid o.(hoComparison).(Observed) = true) →
  staleReceipt s poll = false → row_fits (ObserveFixture s poll o).1.
Proof.
  intros [He Hc Ht Hk Hv] Hval Hclk Hs. destruct (Validate_poll poll Hval) as (_ & Hz & _).
  pose proof (ObserveFixture_ok s poll o He) as He'. pose proof (causes_after s poll o Hc Hs) as Hc'.
  destruct (ObserveFixture_cursor s poll o Hs) as [l E]. rewrite E in *. split; [done|done| | |].
  - apply (cursor_times s poll o Ht); [by apply fresh_at|done].
  - apply (cursor_clock s poll o Hk Hclk).
  - right. by destruct (cursor_evidence s poll o Hv).
Qed.

Lemma collector_check s poll o :
  row_fits s → HealthPoll_Validate poll = None → o ∈ poll.(hlObservations) →
  (usableObservation o = true → clockValuesValid o.(hoComparison).(Observed) = true) →
  staleReceipt s poll = false →
  provider_fixture_health_check (ObserveFixture s poll o).1 = true.
Proof.
  intros Hf Hval Ho Hclk Hs. pose proof (ObserveFixture_fits_row s poll o Hf Hval Hclk Hs) as Hf'.
  destruct (Validate_poll poll Hval) as (Hid & Hz & Hav & _).
  rewrite Forall_forall in Hav. specialize (Hav o Ho).
  pose proof (row_fits_count _ Hf') as Hlen.
  destruct (ObserveFixture_cursor s poll o Hs) as [l E]. rewrite E in Hlen |- *.
  destruct (cursor_evidence s poll o (rf_version _ Hf)) as (V1 & V2 & V3).
  unfold provider_fixture_health_check, provider_fixture_health_evidence_check.
  cbn -[observeCursor pollIDFits].
  rewrite cursor_poll, Hid, V1, V2, V3, Hav.
  pose proof (cursor_clock s poll o (rf_clock _ Hf) Hclk) as [-> ->]%andb_prop.
  change (length l ≤ 10)%nat in Hlen. rewrite (proj2 (Nat.leb_le _ _) Hlen). cbn [andb Z.eqb].
  apply (cursor_times s poll o); [apply (rf_times _ Hf)|by apply fresh_at|done].
Qed.

(** Bounds: a row the collector has advanced is always accepted by the table:
    at most ten incidents (one per cause, and there are ten causes), a known
    availability and freshness, every time no later than the last usable one, and
    no negative clock, for every valid poll with non-negative clock values. *)
Theorem collector_fits_schema s poll o :
  row_fits s → HealthPoll_Validate poll = None → o ∈ poll.(hlObservations) →
  (usableObservation o = true → clockValuesValid o.(hoComparison).(Observed) = true) →
  staleReceipt s poll = false →
  provider_fixture_health_check (ObserveFixture s poll o).1 = true ∧
  row_fits (ObserveFixture s poll o).1.
Proof.
  intros. split; [by apply collector_check|by apply ObserveFixture_fits_row].
Qed.


(** ** Transactions *)

Section transactions.
Context (pollFits : PollRow → bool) (fixtureFits : FixtureHealthEvidence → bool)
  (providerFits : ProviderHealthEvidence → bool).

Lemma writePoll_inv id r u db db' :
  writePoll pollFits id r db = inr (u, db') → db' = setPoll id r db.
Proof. unfold writePoll. intros H. by tx_inv. Qed.

Lemma storeFixtureHealth_inv s u db db' :
  storeFixtureHealth fixtureFits s db = inr (u, db') →
  provider_fixture_health_check s = true ∧ is_Some (dbFixtures db !! s.(hFixtureID)) ∧
  db' = setHealth s.(hFixtureID) s db.
Proof.
  unfold storeFixtureHealth. intros H. tx_inv. split_and!; [|by apply not_nil_true|done].
  by match goal with H : _ && _ = true |- _ => apply andb_prop in H as [H _] end.
Qed.

Lemma storeProviderHealth_inv s u db db' :
  storeProviderHealth providerFits s db = inr (u, db') →
  provider_health_check s = true ∧ db' = setProvider s db.
Proof.
  unfold storeProviderHealth. intros H. tx_inv. split; [|done].
  by match goal with H : _ && _ = true |- _ => apply andb_prop in H as [H _] end.
Qed.

(** *** Only health tables *)

(** The two databases differ at most in the three health tables. *)
Definition shadow (db0 db : DB) : Prop := ∃ p h t,
  db = db0 <| dbProvider := p |> <| dbFixtureHealth := h |> <| dbPolls := t |>.

Lemma shadow_refl db : shadow db db.
Proof. exists (dbProvider db), (dbFixtureHealth db), (dbPolls db). by destruct db. Qed.

Lemma writePoll_shadow db0 id r : keeps (shadow db0) (writePoll pollFits id r).
Proof. intros db u db' (p & h & t & ->) ->%writePoll_inv. by eexists _, _, _. Qed.
Lemma storeFixture_shadow db0 s : keeps (shadow db0) (storeFixtureHealth fixtureFits s).
Proof. intros db u db' (p & h & t & ->) (_ & _ & ->)%storeFixtureHealth_inv. by eexists _, _, _. Qed.
Lemma storeProvider_shadow db0 s : keeps (shadow db0) (storeProviderHealth providerFits s).
Proof. intros db u db' (p & h & t & ->) (_ & ->)%storeProviderHealth_inv. by eexists _, _, _. Qed.
Lemma deletePolls_shadow db0 keys : keeps (shadow db0) (modify (deletePolls keys)).
Proof. intros db u db' (p & h & t & ->) ->%modify_inv. by eexists _, _, _. Qed.
#[local] Hint Resolve writePoll_shadow storeFixture_shadow storeProvider_shadow deletePolls_shadow : keeps.

Lemma exec_shadow db0 o : keeps (shadow db0) (exec pollFits fixtureFits providerFits o).
Proof.
  destruct o; unfold exec, discard, RecordFetchFailure, Observe, lockProviderHealth, registerPoll,
    finishPoll, observePoll, verifyHealthBaselines, observeOne, loadFixtureHealth; solve_keeps.
Qed.

Lemma shadow_store db0 db : shadow db0 db → store_ok db0 → store_ok db.
Proof.
  intros (p & h & t & ->) [[] Hr]. split; [by split|exact Hr].
Qed.

Lemma health_exec_store o : keeps store_ok (exec pollFits fixtureFits providerFits o).
Proof.
  intros db u db' Hok H. eapply shadow_store; [|exact Hok].
  eapply exec_shadow; [apply shadow_refl|exact H].
Qed.

Lemma health_exec_forward db0 o : keeps (forward_db db0) (exec pollFits fixtureFits providerFits o).
Proof.
  apply forward_same. intros db u db' H.
  destruct (exec_shadow db o db u db' (shadow_refl db) H) as (p & h & t & ->). done.
Qed.

(** *** The evidence on record *)

(** Every evidence row is one the collector may leave, observed no later than
    [T]. *)
Definition rows_fit (T : Time) (db : DB) : Prop := ∀ i s, dbFixtureHealth db !! i = Some s →
  s.(hFixtureID) = i ∧ row_fits s ∧ provider_fixture_health_check s = true ∧ s.(hLastObservedAt) ≤ T.

Record health_ok (db : DB) : Prop := {
  hk_provider : provider_health_check db.(dbProvider) = true;
  hk_recovery : provider_ok db.(dbProvider);
  hk_time : 0 ≤ db.(dbProvider).(pLastObservedAt);
  hk_rows : rows_fit db.(dbProvider).(pLastObservedAt) db }.

Lemma check_row s :
  provider_fixture_health_check s = true → evidence_ok s →
  Forall (λ i, hiCause i ∈ fixtureCauses) (incidents s) →
  row_fits s ∧ s.(hEvidence).(xVersion) = 1.
Proof.
  unfold provider_fixture_health_check, provider_fixture_health_evidence_check.
  rewrite !andb_true_iff, Z.eqb_eq. intros ((((_ & H1) & H2) & ((H3 & _) & _) & _) & H4) He Hc.
  split; [|done]. split; [done..| |by right]. by rewrite H1, H2.
Qed.

Lemma loadFixtureHealth_inv id s db db' T :
  rows_fit T db → 0 ≤ T → loadFixtureHealth id db = inr (s, db') →
  db' = db ∧ s.(hFixtureID) = id ∧ row_fits s ∧ s.(hLastObservedAt) ≤ T.
Proof.
  intros Hr HT. unfold loadFixtureHealth. intros H. tx_inv.
  destruct (dbFixtureHealth db !! id) as [x|] eqn:E; tx_inv.
  - destruct (Hr _ _ E) as (? & ? & _ & ?). done.
  - split_and!; [done|done|apply new_row_fits|done].
Qed.

Lemma ObserveFixture_id s poll o : (ObserveFixture s poll o).1.(hFixtureID) = s.(hFixtureID).
Proof.
  destruct (staleReceipt s poll) eqn:Hs; [by rewrite ObserveFixture_stale|].
  destruct (ObserveFixture_cursor s poll o Hs) as [l ->]. cbn. apply cursor_fixture.
Qed.

Lemma ObserveFixture_at s poll o T :
  s.(hLastObservedAt) ≤ T → poll.(hlAt) ≤ T → (ObserveFixture s poll o).1.(hLastObservedAt) ≤ T.
Proof.
  intros H1 H2. destruct (staleReceipt s poll) eqn:Hs; [by rewrite ObserveFixture_stale|].
  destruct (ObserveFixture_cursor s poll o Hs) as [l ->]. cbn -[observeCursor].
  change ((observeCursor s poll o).(hLastObservedAt) ≤ T). by rewrite cursor_at.
Qed.

Lemma observeOne_rows poll acc o :
  0 ≤ poll.(hlAt) → keeps (rows_fit poll.(hlAt)) (observeOne fixtureFits poll acc o).
Proof.
  intros H0 db r db' Hr H. unfold observeOne in H.
  apply bind_inv in H as (s & db1 & Hl & H).
  apply (loadFixtureHealth_inv _ _ _ _ _ Hr H0) in Hl as (-> & Hid & Hf & Hle).
  destruct (ObserveFixture s poll o) as [s' ts] eqn:E.
  apply bind_inv in H as ([] & db1 & Hst & [_ ->]%ret_inv).
  apply storeFixtureHealth_inv in Hst as (Hc & _ & ->).
  assert (s' = (ObserveFixture s poll o).1) as Es by by rewrite E.
  assert (evidence_ok s') as He by (rewrite Es; by apply ObserveFixture_ok, rf_evidence).
  assert (Forall (λ i, hiCause i ∈ fixtureCauses) (incidents s')) as Hcs.
  { rewrite Es. destruct (staleReceipt s poll) eqn:Hs; [rewrite ObserveFixture_stale by done|
      apply causes_after; [|done]]; apply (rf_causes _ Hf). }
  destruct (check_row s' Hc He Hcs) as [Hf' Hv].
  intros i x. cbn. rewrite lookup_insert. case_decide as Hi; [intros [= <-]|apply Hr].
  split_and!; [done..|]. rewrite Es. by apply ObserveFixture_at.
Qed.

Lemma health_same db db' :
  dbProvider db' = dbProvider db → dbFixtureHealth db' = dbFixtureHealth db →
  health_ok db → health_ok db'.
Proof. intros E1 E2 []. split; rewrite ?E1; [done..|]. unfold rows_fit in *. by rewrite E2. Qed.

(** The read-only and the poll-table statements. *)
Lemma verify_same poll u db db' : verifyHealthBaselines poll db = inr (u, db') → db' = db.
Proof.
  intros H. eapply (λ K : keeps (λ d, d = db) (verifyHealthBaselines poll), K db u db' eq_refl H).
  unfold verifyHealthBaselines. solve_keeps.
Qed.

Lemma registerPoll_inv poll r db db' :
  registerPoll pollFits poll db = inr (r, db') →
  dbPolls db' !! poll.(hlID) = Some r ∧ dbProvider db' = dbProvider db ∧
  dbFixtureHealth db' = dbFixtureHealth db ∧ dbFixtures db' = dbFixtures db ∧
  (dbPolls db !! poll.(hlID) = Some r ∧ db' = db ∨
   dbPolls db !! poll.(hlID) = None ∧ r = mkPollRow poll.(hlAt) ∅ None).
Proof.
  unfold registerPoll. intros H. apply bind_inv in H as (rows & db1 & [-> ->]%query_inv & H).
  destruct (dbPolls db !! hlID poll) as [x|] eqn:E.
  - apply ret_inv in H as [-> ->]. split_and!; auto.
  - apply bind_inv in H as ([] & db1 & ->%writePoll_inv & [-> ->]%ret_inv).
    split_and!; [apply lookup_insert_eq|done..|by right].
Qed.

Lemma each_same {A R} (body : R → A → Tx R) ops (P : DB → Prop) out :
  (∀ out op, op ∈ ops → keeps P (body out op)) → keeps P (each body out ops).
Proof. intros H. by apply keeps_each. Qed.

(** A newer poll: the provider row it leaves and the evidence it rests on. *)
Lemma observePoll_inv poll attempts state s out db db' :
  observePoll fixtureFits providerFits poll attempts state db = inr ((s, out), db') →
  provider_ok state → rows_fit poll.(hlAt) db → 0 ≤ poll.(hlAt) →
  dbProvider db' = s ∧ provider_health_check s = true ∧ provider_ok s ∧
  s.(pLastObservedAt) = poll.(hlAt) ∧ rows_fit poll.(hlAt) db' ∧ dbPolls db' = dbPolls db ∧
  out.(rIgnored) = false.
Proof.
  unfold observePoll. intros H Hok Hr H0.
  apply bind_inv in H as (? & db1 & ->%verify_same & H).
  set (poll' := mkHealthPoll _ _ _) in H.
  apply bind_inv in H as ([states transitions] & db1 & He & H).
  destruct (ObserveProvider_ok state poll' states transitions Hok) as (P1 & P2 & _).
  destruct (ObserveProvider state poll' states transitions) as [s1 out1] eqn:Eo. cbn in P1, P2.
  apply bind_inv in H as ([] & db2 & (Hc & ->)%storeProviderHealth_inv & H).
  apply ret_inv in H as [[= -> ->] ->].
  assert (rows_fit poll.(hlAt) db1 ∧ dbPolls db1 = dbPolls db) as [Hr1 Hp1].
  { split.
    - eapply (λ K : keeps (rows_fit poll'.(hlAt)) _, K db _ db1 Hr He).
      apply keeps_each. intros. by apply observeOne_rows.
    - eapply (λ K : keeps (λ d, dbPolls d = dbPolls db) _, K db _ db1 eq_refl He).
      apply keeps_each. intros out' o _ d r d' Hd Hone. unfold observeOne, loadFixtureHealth in Hone.
      tx_inv. repeat (case_match; tx_inv); try done;
      match goal with H : storeFixtureHealth _ _ _ = _ |- _ =>
        apply storeFixtureHealth_inv in H as (_ & _ & ->) end; done. }
  split_and!; try done.
  cbn. assert (out1 = (ObserveProvider state poll' states transitions).2) as -> by by rewrite Eo.
  apply ObserveProvider_answered.
Qed.

(** What [Observe] does: it repeats a recorded result, records that a poll is
    late, or advances the evidence. *)
Lemma Observe_inv poll out db db' :
  let poll' := storedPoll poll in
  Observe pollFits fixtureFits providerFits poll db = inr (out, db') →
  provider_ok db.(dbProvider) → 0 ≤ db.(dbProvider).(pLastObservedAt) →
  rows_fit db.(dbProvider).(pLastObservedAt) db →
  HealthPoll_Validate poll' = None ∧
  db.(dbProvider).(pEvidence).(pVersion) = HealthEvidenceVersion ∧
  ((∃ r, dbPolls db !! poll.(hlID) = Some r ∧ r.(prResult) = Some out ∧
      r.(prObservedAt) = poll'.(hlAt) ∧ db' = db) ∨
   (∃ r, let last := Z.max db.(dbProvider).(pLastObservedAt) poll'.(hlAt) in
      r.(prResult) = Some out ∧ r.(prObservedAt) = poll'.(hlAt) ∧
      (∃ t, t !! poll.(hlID) = Some r ∧
         dbPolls db' = foldr delete t (expiredPolls (time_Add last (- HealthReceiptRetention)) t)) ∧
      if out.(rIgnored)
      then poll'.(hlAt) ≤ db.(dbProvider).(pLastObservedAt) ∧
        dbProvider db' = dbProvider db ∧ dbFixtureHealth db' = dbFixtureHealth db
      else db.(dbProvider).(pLastObservedAt) < poll'.(hlAt) ∧
        (dbProvider db').(pLastObservedAt) = poll'.(hlAt) ∧
        provider_health_check (dbProvider db') = true ∧ provider_ok (dbProvider db') ∧
        rows_fit poll'.(hlAt) db')).
Proof.
  intros poll' H Hok H0 Hr. unfold Observe in H. fold poll' in H.
  assert (timestamptz poll'.(hlAt) = poll'.(hlAt)) as Ht by apply timestamptz_idemp.
  destruct (HealthPoll_Validate poll') eqn:Hv; cbn [not_nil is_nil negb] in H; [done|].
  split; [done|]. apply bind_inv in H as (state & db1 & Hl & H). unfold lockProviderHealth in Hl.
  apply bind_inv in Hl as (s0 & db2 & [-> ->]%query_inv & Hl).
  apply bind_inv in Hl as ([] & db2 & [Hver ->]%require_inv & [-> ->]%ret_inv).
  split; [by apply Z.eqb_eq|].
  apply bind_inv in H as (row & db1 & Hreg & H).
  apply registerPoll_inv in Hreg as (Hrow & Hpr & Hfh & _ & Hcase).
  apply bind_inv in H as ([] & db2 & [Hat ->]%require_inv & H). apply Z.eqb_eq in Hat. rewrite Ht in Hat.
  destruct (prResult row) as [o|] eqn:Eres.
  { apply ret_inv in H as [-> ->]. destruct Hcase as [[Hd ->]|[_ ->]]; [|done].
    left. by exists row. }
  right. exists (row <| prResult := Some out |>). unfold finishPoll in H.
  apply bind_inv in H as ([state out'] & db2 & Hp & H).
  apply bind_inv in H as ([] & db3 & ->%writePoll_inv & H).
  apply bind_inv in H as (rows & db3 & [-> ->]%query_inv & H).
  apply bind_inv in H as ([] & db3 & ->%modify_inv & H). apply ret_inv in H as [-> ->].
  assert (rows_fit (pLastObservedAt (dbProvider db)) db1) as Hr1
    by (unfold rows_fit; rewrite Hfh; exact Hr).
  destruct (After poll'.(hlAt) (pLastObservedAt (dbProvider db))) eqn:Ea; cbn [negb] in Hp.
  - unfold After in Ea. apply Z.ltb_lt in Ea.
    apply observePoll_inv in Hp as (P1 & P2 & P3 & P4 & P5 & P6 & P7); [|done| |lia].
    2:{ intros i s Hs. destruct (Hr1 i s Hs) as (? & ? & ? & ?). split_and!; [done..|lia]. }
    split_and!; [done|done| |rewrite P7; split_and!].
    + exists (<[poll.(hlID) := row <| prResult := Some out' |>]> (dbPolls db2)).
      split; [apply lookup_insert_eq|]. by rewrite P4, Z.max_r by lia.
    + done.
    + cbn. rewrite P1. exact P4.
    + cbn. by rewrite P1.
    + cbn. by rewrite P1.
    + exact P5.
  - unfold After in Ea. apply Z.ltb_ge in Ea. apply ret_inv in Hp as [[= -> ->] ->].
    split_and!; [done|done| |cbn; split_and!; [done|exact Hpr|exact Hfh]].
    exists (<[poll.(hlID) := row <| prResult := Some (ignoredResult (hlAt poll') (dbProvider db)) |>]> (dbPolls db1)).
    split; [apply lookup_insert_eq|]. by rewrite Z.max_l by lia.
Qed.

Lemma RecordFetchFailure_inv failure u db db' :
  RecordFetchFailure pollFits failure db = inr (u, db') →
  ∃ t, db' = db <| dbPolls := t |>.
Proof.
  unfold RecordFetchFailure. intros H.
  destruct (not_nil _); [done|]. destruct (_ || _); [done|]. destruct (existsb _ _); [done|].
  apply bind_inv in H as (rows & db1 & [-> ->]%query_inv & H).
  assert (∃ t, db = db <| dbPolls := t |>) as Hid by (exists (dbPolls db); by destruct db).
  destruct (dbPolls db !! _); [destruct (_ && _)|]; try (apply ret_inv in H as [_ ->]; exact Hid);
    apply writePoll_inv in H as ->; by eexists.
Qed.

(** Every poll, late, repeated or failed, whatever it observed, leaves
    evidence the collector can go on from: the provider row is valid and
    consistent with its recovery probes, every fixture row is one the schema
    accepts, none is newer than the provider's, and the provider's time never
    goes back. *)
Lemma exec_health o u db db' :
  health_ok db → exec pollFits fixtureFits providerFits o db = inr (u, db') →
  health_ok db' ∧ db.(dbProvider).(pLastObservedAt) ≤ db'.(dbProvider).(pLastObservedAt).
Proof.
  intros Hok H. destruct o as [failure|poll]; cbn in H.
  - apply RecordFetchFailure_inv in H as [t ->]. split; [by apply (health_same db)|done].
  - unfold discard in H. apply bind_inv in H as (out & db1 & H & [_ ->]%ret_inv).
    destruct (Hok). apply Observe_inv in H as (_ & _ & [(r & _ & _ & _ & ->)|(r & _ & _ & _ & Hc)]);
      [done| |done..].
    destruct (rIgnored out).
    + destruct Hc as (_ & E1 & E2). split; [by apply (health_same db)|]. by rewrite E1.
    + destruct Hc as (Hlt & E1 & E2 & E3 & E4). split; [|lia]. split; rewrite ?E1; [done|done|lia|done].
Qed.


(** Retries: once a poll has advanced the evidence its result is final: any
    later delivery of a valid poll under the same id and time, whatever it
    carries and whatever happened in between, is answered with that result and
    changes nothing. *)
Theorem observe_once poll out db db' :
  health_ok db → Observe pollFits fixtureFits providerFits poll db = inr (out, db') →
  out.(rIgnored) = false → 
  ∀ poll2 db2, poll2.(hlID) = poll.(hlID) → poll2.(hlAt) = poll.(hlAt) →
    HealthPoll_Validate (storedPoll poll2) = None →
    dbPolls db2 !! poll.(hlID) = dbPolls db' !! poll.(hlID) →
    db2.(dbProvider).(pEvidence).(pVersion) = HealthEvidenceVersion →
    Observe pollFits fixtureFits providerFits poll2 db2 = inr (out, db2).
Proof.
  intros [Hk1 Hk2 Hk3 Hk4] H Hig poll2 db2 Hid Hat Hv Hrow Hver.
  apply Observe_inv in H as (_ & _ & Hcase); [|done..].
  assert (∃ r, dbPolls db2 !! poll.(hlID) = Some r ∧ prResult r = Some out ∧
    prObservedAt r = hlAt (storedPoll poll)) as (r & Hr & Hres & Hro).
  { destruct Hcase as [(r & Hr & Hres & Hro & ->)|(r & Hres & Hro & (t & Ht & Hp) & Hc)].
    - exists r. by rewrite Hrow.
    - rewrite Hig in Hc. destruct Hc as (Hlast & _). exists r. rewrite Hrow, Hp. split; [|done]. rewrite lookup_foldr_delete_not_in; [done|].
      intros (v & Hv' & Hlt)%expiredRows_old. rewrite Ht in Hv'. injection Hv' as <-.
      rewrite Hro in Hlt. unfold time_Add, HealthReceiptRetention, time_Hour, time_Minute, time_Second in Hlt. lia. }
  unfold Observe. rewrite Hv. cbn [not_nil is_nil negb].
  erewrite bind_run.
  2:{ unfold lockProviderHealth. erewrite bind_run by done.
      erewrite bind_run by (apply require_run; by apply Z.eqb_eq). done. }
  erewrite bind_run.
  2:{ unfold registerPoll. erewrite bind_run by done. cbn [storedPoll hlID]. by rewrite Hid, Hr. }
  erewrite bind_run.
  2:{ apply require_run. rewrite Hro. cbn. rewrite Hat. apply Z.eqb_eq. symmetry. apply timestamptz_idemp. }
  by rewrite Hres.
Qed.

(** *** A poll that can be recorded is recorded *)

Lemma each_run {A R} (I : DB → Prop) (body : R → A → Tx R) ops :
  (∀ out op db, op ∈ ops → I db → ∃ out' db', body out op db = inr (out', db') ∧ I db') →
  ∀ out db, I db → ∃ out' db', each body out ops db = inr (out', db') ∧ I db'.
Proof.
  induction ops as [|op ops IH]; intros Hb out db Hi; cbn; [by eexists _, _|].
  destruct (Hb out op db) as (out' & db1 & H1 & Hi1); [by left|done|].
  edestruct IH as (out2 & db2 & H2 & Hi2); [intros; apply Hb; [by right|done]|exact Hi1|].
  exists out2, db2. split; [|done]. by erewrite bind_run.
Qed.

Lemma loadFixtureHealth_run id T db :
  rows_fit T db → 0 ≤ T → ∃ s, loadFixtureHealth id db = inr (s, db) ∧ s.(hFixtureID) = id ∧
    row_fits s ∧ s.(hLastObservedAt) ≤ T ∧
    (s = newFixtureHealth id ∨ provider_fixture_health_check s = true).
Proof.
  intros Hr HT. unfold loadFixtureHealth. destruct (dbFixtureHealth db !! id) as [x|] eqn:E.
  - destruct (Hr _ _ E) as (H1 & H2 & H3 & H4). exists x. split; [|by auto].
    erewrite bind_run by done. rewrite E. erewrite bind_run; [done|]. apply require_run.
    destruct (check_row x H3 (rf_evidence _ H2) (rf_causes _ H2)) as [_ ->]. done.
  - eexists. split; [erewrite bind_run by done; by rewrite E|].
    split_and!; [done|apply new_row_fits|done|by left].
Qed.

Lemma storeFixtureHealth_run s db :
  provider_fixture_health_check s && fixtureFits s.(hEvidence) = true →
  is_Some (dbFixtures db !! s.(hFixtureID)) →
  storeFixtureHealth fixtureFits s db = inr (tt, setHealth s.(hFixtureID) s db).
Proof.
  intros Hc Hf. unfold storeFixtureHealth. erewrite bind_run by (by apply require_run).
  erewrite bind_run by done. erewrite bind_run by (apply require_run; by apply not_nil_true). done.
Qed.

Lemma observeOne_run poll acc o db :
  (∀ x, fixtureFits x = true) → HealthPoll_Validate poll = None → 0 < poll.(hlAt) →
  o ∈ poll.(hlObservations) →
  (usableObservation o = true → clockValuesValid o.(hoComparison).(Observed) = true) →
  rows_fit poll.(hlAt) db → is_Some (dbFixtures db !! o.(hoFixtureID)) →
  ∃ acc' db', observeOne fixtureFits poll acc o db = inr (acc', db') ∧ dbFixtures db' = dbFixtures db.
Proof.
  intros Hfits Hv H0 Hin Hclk Hr Hf. unfold observeOne.
  destruct (loadFixtureHealth_run o.(hoFixtureID) poll.(hlAt) db Hr) as (s & Hl & Hid & Hrf & Hle & Hnew);
    [lia|].
  erewrite bind_run by exact Hl. destruct (ObserveFixture s poll o) as [s' ts] eqn:E.
  assert (s' = (ObserveFixture s poll o).1) as Es by by rewrite E.
  assert (s'.(hFixtureID) = o.(hoFixtureID)) as Hid' by (by rewrite Es, ObserveFixture_id).
  assert (provider_fixture_health_check s' = true) as Hc.
  { destruct (staleReceipt s poll) eqn:Hs; [|rewrite Es; by apply collector_check].
    rewrite Es, ObserveFixture_stale by done. destruct Hnew as [->|?]; [|done]. exfalso.
    destruct (Validate_poll poll Hv) as (Hp & _). unfold staleReceipt, After in Hs. cbn in Hs.
    rewrite (proj2 (Z.ltb_lt zero_time _)) in Hs by done. cbn in Hs. apply String.eqb_eq in Hs.
    by rewrite Hs in Hp. }
  eexists _, _. split.
  - erewrite bind_run by (apply storeFixtureHealth_run; [by rewrite Hc, Hfits|by rewrite Hid']). done.
  - done.
Qed.

Lemma validate_marked X seen os :
  validateObservations seen (markInterrupted X <$> os) = validateObservations seen os.
Proof.
  revert seen. induction os as [|o os IH]; intros seen; [done|]. cbn. by rewrite !IH.
Qed.

Lemma Validate_marked X poll :
  HealthPoll_Validate (mkHealthPoll poll.(hlID) poll.(hlAt)
    (markInterrupted X <$> poll.(hlObservations))) = HealthPoll_Validate poll.
Proof. unfold HealthPoll_Validate. cbn. by rewrite length_fmap, validate_marked. Qed.

(** The poll can be recorded: it is valid, its id is not in use for another time,
    and if it is newer than the evidence its fixtures are stored, the usable ones
    as the collector read them, with non-negative clocks. *)
Record recordable (poll : HealthPoll) (db : DB) : Prop := {
  rc_valid : HealthPoll_Validate (storedPoll poll) = None;
  rc_id r : dbPolls db !! poll.(hlID) = Some r → r.(prObservedAt) = (storedPoll poll).(hlAt);
  rc_fixtures : db.(dbProvider).(pLastObservedAt) < (storedPoll poll).(hlAt) →
    ∀ o, o ∈ poll.(hlObservations) → ∃ f, dbFixtures db !! o.(hoFixtureID) = Some f ∧
      (usableObservation o = true →
         f.(fixture.fLastPolledAt) = o.(hoBaselineLastPolled) ∧
         clockValuesValid o.(hoComparison).(Observed) = true);
  rc_generation : db.(dbProvider).(pGeneration) < int64_max }.

Lemma verify_run poll db :
  (∀ o, o ∈ poll.(hlObservations) → ∃ f, dbFixtures db !! o.(hoFixtureID) = Some f ∧
     (usableObservation o = true → f.(fixture.fLastPolledAt) = o.(hoBaselineLastPolled))) →
  verifyHealthBaselines poll db = inr (tt, db).
Proof.
  unfold verifyHealthBaselines. generalize (hlObservations poll) as os. intros os Hos.
  destruct (each_run (λ d, d = db) (λ (_ : unit) o,
    if negb (o.(hoAvailability) =? AvailabilityUsable)%string then mret tt
    else f ← selectFixture o.(hoFixtureID);
      match f with
      | None => fail "verify provider health fixture baseline"
      | Some f => require (sameOptionalTime f.(fixture.fLastPolledAt) o.(hoBaselineLastPolled))
          "stale provider mutation plan" end) os) with (out := tt) (db := db) as ([] & db' & H & ->);
    [|done|exact H].
  intros [] o d Hin ->. destruct (Hos o Hin) as (f & Hf & Hu). unfold usableObservation in Hu.
  destruct (_ =? AvailabilityUsable)%string; cbn [negb]; [|by exists tt, db].
  exists tt, db. split; [|done]. erewrite bind_run by done. rewrite Hf. apply require_run.
  by apply bool_decide_eq_true, Hu.
Qed.

Lemma observePoll_run poll attempts db :
  (∀ x, fixtureFits x = true) → (∀ x, providerFits x = true) →
  HealthPoll_Validate poll = None → provider_ok db.(dbProvider) →
  0 ≤ db.(dbProvider).(pGeneration) < int64_max → 0 < poll.(hlAt) → rows_fit poll.(hlAt) db →
  (∀ o, o ∈ poll.(hlObservations) → ∃ f, dbFixtures db !! o.(hoFixtureID) = Some f ∧
     (usableObservation o = true → f.(fixture.fLastPolledAt) = o.(hoBaselineLastPolled) ∧
        clockValuesValid o.(hoComparison).(Observed) = true)) →
  ∃ r db', observePoll fixtureFits providerFits poll attempts db.(dbProvider) db = inr (r, db').
Proof.
  intros Hff Hpf Hv Hok Hg H0 Hr Hos. unfold observePoll.
  erewrite bind_run by (apply verify_run; intros o Ho; destruct (Hos o Ho) as (f & Hf & Hu);
    exists f; split; [done|intros Huo; by apply Hu]).
  set (poll' := mkHealthPoll _ _ _).
  assert (HealthPoll_Validate poll' = None) as Hv' by (unfold poll'; by rewrite Validate_marked).
  destruct (each_run (λ d, rows_fit poll'.(hlAt) d ∧ dbFixtures d = dbFixtures db)
    (observeOne fixtureFits poll') (hlObservations poll')) with (out := ([], []) : list FixtureHealth * list HealthTransition)
    (db := db) as ([states transitions] & db1 & He & _); [|done|].
  { intros acc o d Hin [Hrd Hfd]. pose proof Hin as (o0 & Ho & Hin0)%list_elem_of_fmap.
    destruct (Hos o0 Hin0) as (f & Hf & Hu).
    destruct (observeOne_run poll' acc o d) as (acc' & d' & Hone & Hd'); try done.
    - intros Huo. rewrite Ho in Huo |- *. by apply Hu.
    - rewrite Ho. cbn. rewrite Hfd, Hf. by eexists.
    - exists acc', d'. split; [done|]. split; [|by rewrite Hd'].
      eapply observeOne_rows; [cbn; lia|exact Hrd|exact Hone]. }
  erewrite bind_run by exact He. cbn beta iota.
  destruct (ObserveProvider_ok db.(dbProvider) poll' states transitions Hok) as (_ & _ & Hp & Hver & Hgen).
  destruct (ObserveProvider db.(dbProvider) poll' states transitions) as [s1 out1]. cbn in Hp, Hver, Hgen.
  eexists _, _. erewrite bind_run; [reflexivity|]. unfold storeProviderHealth.
  erewrite bind_run; [reflexivity|]. apply require_run. rewrite Hpf, andb_true_r.
  unfold provider_health_check. rewrite Hver. rewrite !andb_true_r. apply andb_true_intro. split.
  - apply Z.leb_le. destruct Hgen as [->| ->]; [lia|]. rewrite wrap64_id; [lia|].
    unfold fits64, int64_min, int64_max in *. lia.
  - by destruct Hp as [->| ->].
Qed.

(** Availability: on sound evidence a poll that can be recorded is recorded: if
    the encodings stay within the size limits no constraint of the schema, and
    nothing else, makes the transaction fail. *)
Theorem observe_succeeds poll db :
  (∀ r, pollFits r = true) → (∀ x, fixtureFits x = true) → (∀ x, providerFits x = true) →
  health_ok db → recordable poll db →
  ∃ out db', Observe pollFits fixtureFits providerFits poll db = inr (out, db').
Proof.
  intros Hpo Hff Hpf [Hk1 Hk2 Hk3 Hk4] [Hv Hid Hfx Hgen].
  assert (0 ≤ pGeneration (dbProvider db) ∧ pVersion (pEvidence (dbProvider db)) = 1) as [Hg Hver].
  { unfold provider_health_check in Hk1. rewrite !andb_true_iff, Z.leb_le, Z.eqb_eq in Hk1. tauto. }
  destruct (Validate_poll _ Hv) as (Hfit & Hz & _). unfold Observe. rewrite Hv. cbn [not_nil is_nil negb].
  erewrite bind_run.
  2:{ unfold lockProviderHealth. erewrite bind_run by done.
      erewrite bind_run by (apply require_run; by rewrite Hver). done. }
  assert (∃ r db1, registerPoll pollFits (storedPoll poll) db = inr (r, db1) ∧
    prObservedAt r = hlAt (storedPoll poll) ∧ dbProvider db1 = dbProvider db ∧
    dbFixtureHealth db1 = dbFixtureHealth db ∧ dbFixtures db1 = dbFixtures db)
    as (r & db1 & Hreg & Hat & E1 & E2 & E3).
  { unfold registerPoll. change (hlID (storedPoll poll)) with (hlID poll) in *.
    destruct (dbPolls db !! hlID poll) as [r|] eqn:E.
    - exists r, db. split; [erewrite bind_run by done; by rewrite E|]. split_and!; [by apply Hid|done..].
    - eexists _, _. split; [erewrite bind_run by done; rewrite E; erewrite bind_run; [reflexivity|]|].
      { unfold writePoll. erewrite bind_run; [reflexivity|]. apply require_run. by rewrite Hfit, Hpo. }
      done. }
  erewrite bind_run by exact Hreg.
  erewrite bind_run by (apply require_run; rewrite Hat; apply Z.eqb_eq; symmetry; apply timestamptz_idemp).
  destruct (prResult r) as [out|]; [by eexists _, _|]. unfold finishPoll.
  assert (∃ q db2, (if negb (After (hlAt (storedPoll poll)) (pLastObservedAt (dbProvider db)))
    then mret (dbProvider db, ignoredResult (hlAt (storedPoll poll)) (dbProvider db))
    else observePoll fixtureFits providerFits (storedPoll poll) (prFailedAttempts r) (dbProvider db)) db1 =
    inr (q, db2)) as ([s out] & db2 & Hq).
  { destruct (After _ _) eqn:Ea; cbn [negb]; [|by eexists _, _].
    unfold After in Ea. apply Z.ltb_lt in Ea. rewrite <-E1.
    apply observePoll_run; rewrite ?E1; [done..|lia| |].
    - unfold rows_fit. rewrite E2. intros i x Hx. destruct (Hk4 i x Hx) as (? & ? & ? & ?).
      split_and!; [done..|lia].
    - rewrite E3. by apply Hfx. }
  erewrite bind_run by exact Hq. cbn beta iota. eexists _, _.
  erewrite bind_run; [erewrite bind_run by done; erewrite bind_run by done; reflexivity|].
  unfold writePoll. erewrite bind_run; [reflexivity|]. apply require_run. by rewrite Hfit, Hpo.
Qed.

End transactions.

End healthrepo.
