(* ===== verification/World.v ===== *)
(** The repositories together: the worker calls of the write boundary, of the
    event, fixture and candidate repositories and of the health repository run
    against one database, in any order, by any worker, at any time.  What holds of
    the tables under every such interleaving. *)
From S2P Require Import Prelude GoStrings ApiFootball Fixture Event Integrity Health Auditlog Presentation Plan Jsonb Discovery Store Mutation Commit Guarantees Preserve Events Fixtures Candidates HealthRepo.
#[local] Open Scope string_scope.
#[local] Open Scope list_scope.
#[local] Open Scope Z_scope.
Import providerintegrity health mutation discoverycontract pg boundary commit guarantees preserve healthrepo.

Module world.

(** ** The boundary keeps what the repositories keep *)

Section boundary.
Context (now clock : Time) (text : UUID → string) (mode : EnforcementMode).

Lemma deleteReceipts_ok keys : keeps db_ok (modify (deleteReceipts keys)).
Proof.
  apply tx_keeps_modify. intros db []. split; try done. intros o i r H. cbn in H.
  apply lookup_foldr_delete_Some in H. by eapply ok_receipt0.
Qed.

Lemma commitMutationResult_ok guard F g out : keeps db_ok (commitMutationResult guard F g out).
Proof.
  intros db r db' Hok H. unfold commitMutationResult in H. cbn zeta in H.
  set (F' := match mrFixture out with Some f => _ | None => F end) in H.
  destruct (F' <=? 0); [done|].
  apply bind_inv in H as (rows & db1 & [-> ->]%query_inv & H).
  apply bind_inv in H as (owner & db1 & [-> ->]%query_inv & H).
  apply bind_inv in H as ([] & db1 & Ha & H).
  apply bind_inv in H as (rows & db2 & [-> ->]%query_inv & H).
  apply bind_inv in H as ([] & db2 & Hd & [_ ->]%ret_inv).
  eapply deleteReceipts_ok; [|exact Hd].
  destruct (is_nil _); [|by apply ret_inv in Ha as [_ ->]].
  apply bind_inv in Ha as ([] & db3 & [Ho ->]%require_inv & Ha).
  apply bind_inv in Ha as ([] & db3 & [Hg ->]%require_inv & Ha).
  apply modify_inv in Ha as ->. destruct Hok. split; try done.
  intros o i rc. cbn. rewrite lookup_insert. case_decide as Hk; [|apply ok_receipt0].
  intros [= <-]. injection Hk as <- <-. split; [by apply not_nil_true|by apply Z.leb_le].
Qed.

Lemma commitMutationResult_store guard F g out :
  keeps store_ok (commitMutationResult guard F g out).
Proof.
  apply store_same; [apply commitMutationResult_ok|]. intros db a db' H.
  unfold commitMutationResult in H. tx_inv. by repeat (case_match; tx_inv).
Qed.

Lemma commitMutationResult_evidence x guard F g out :
  keeps (λ db, evidence db = x) (commitMutationResult guard F g out).
Proof.
  apply evidence_same. intros db a db' H.
  unfold commitMutationResult in H. tx_inv. by repeat (case_match; tx_inv).
Qed.

Lemma lift_keeps_any {A} I (m : string + A) : keeps I (lift m).
Proof. intros db a db' Hi H. by apply lift_inv in H as [_ ->]. Qed.

Lemma lockedFixture_keeps I id : keeps I (lockedFixture id).
Proof. unfold lockedFixture. solve_keeps. Qed.

Lemma loadFixtureHealth_keeps I id : keeps I (loadFixtureHealth id).
Proof. unfold loadFixtureHealth. solve_keeps. Qed.

Lemma fillAssist_row assist : keepsRow (fillAssist assist).
Proof. by split. Qed.

#[local] Hint Resolve commitMutationResult_store commitMutationResult_evidence lift_keeps_any
  lockedFixture_keeps loadFixtureHealth_keeps fillAssist_row : keeps.

Lemma registerAbsenceTx_store wf op : keeps store_ok (registerAbsenceTx now clock wf op).
Proof.
  unfold registerAbsenceTx. apply tx_keeps_bind; [auto with keeps|]. intros [].
  2:{ apply tx_keeps_ret. }
  cbn [negb]. apply tx_keeps_bind; [auto with keeps|]. intros [e|]; [|apply keeps_fail].
  destruct (_ || _); [apply tx_keeps_ret|]. intros db b db' Hok H.
  apply bind_inv in H as (f & db1 & Hu & H). apply bind_inv in H as (n & db2 & Ht & H).
  destruct f as [f|].
  - apply terminalize_inv in Ht as [t ->].
    eapply (remove_and_close_store now (paEventID op)); [apply removeVAR_keys| |exact Hok|exact Hu|done|exact H].
    solve_keeps.
  - apply updateEvent_inv in Hu as [(_ & -> & _)|(? & _ & _ & _ & ? & _)]; [|done].
    assert (store_ok db2) as Hok2 by by eapply terminalize_store.
    revert H. apply (λ K : keeps store_ok _, K db2 b db' Hok2). solve_keeps.
Qed.
#[local] Hint Resolve registerAbsenceTx_store : keeps.

Lemma ApplyActive_store plan : keeps store_ok (ApplyActive now clock text mode plan).
Proof.
  unfold ApplyActive, lockProviderMutationPolicy, loadMutationReceipt, commitStaleReceipt,
    applyActiveWrites, validateActiveEventScope, checkScope, updateActiveFixtureTx, applyInsert,
    insertPlannedEvent, applyPresence, registerPresenceTx, applyUpdate, updateEventFieldsTx,
    applyDelete, deletePlaceholder, applyAbsence, completeFixtureIfReadyTx.
  solve_keeps; by apply updateFixture_store.
Qed.

Lemma ApplyFixture_store plan : keeps store_ok (ApplyFixture now mode plan).
Proof.
  unfold ApplyFixture, lockProviderMutationPolicy, loadMutationReceipt, commitStaleReceipt,
    applyFixtureWrites, updateExistingFixture, updateIngestFixtureTx, updateStagingFixtureTx,
    activateStagingFixtureTx.
  solve_keeps; by apply updateFixture_store.
Qed.

Lemma ApplyActive_evidence x plan :
  keeps (λ db, evidence db = x) (ApplyActive now clock text mode plan).
Proof.
  unfold ApplyActive, lockProviderMutationPolicy, loadMutationReceipt, commitStaleReceipt,
    applyActiveWrites, validateActiveEventScope, checkScope, updateActiveFixtureTx, applyInsert,
    insertPlannedEvent, applyPresence, registerPresenceTx, applyUpdate, updateEventFieldsTx,
    applyDelete, deletePlaceholder, applyAbsence, registerAbsenceTx, completeFixtureIfReadyTx.
  solve_keeps.
Qed.

Lemma ApplyFixture_evidence x plan : keeps (λ db, evidence db = x) (ApplyFixture now mode plan).
Proof.
  unfold ApplyFixture, lockProviderMutationPolicy, loadMutationReceipt, commitStaleReceipt,
    applyFixtureWrites, updateExistingFixture, updateIngestFixtureTx, updateStagingFixtureTx,
    activateStagingFixtureTx.
  solve_keeps.
Qed.
End boundary.

(** ** Actions *)

Inductive action :=
  | boundaryCall (c : call)
  | eventOp (o : eventrepo.op)
  | fixtureOp (o : fixturerepo.op)
  | candidateOp (o : candidaterepo.op)
  | healthOp (o : healthrepo.op).

(** The size limits of the JSON encodings of the health tables. *)
Record limits := mkLimits {
  liPoll : PollRow → bool;
  liFixture : FixtureHealthEvidence → bool;
  liProvider : ProviderHealthEvidence → bool }.

Definition perform (l : limits) (v : env) (a : action) : Tx unit :=
  match a with
  | boundaryCall c => discard (run v c)
  | eventOp o => eventrepo.exec v.(eNow) v.(eClock) o
  | fixtureOp o => fixturerepo.exec v.(eNow) o
  | candidateOp o => candidaterepo.exec v.(eNow) v.(eClock) o
  | healthOp o => healthrepo.exec l.(liPoll) l.(liFixture) l.(liProvider) o
  end.

(** No production caller upserts an event as removed. *)
Definition proper (a : action) : Prop :=
  match a with eventOp o => eventrepo.plainUpsert o | _ => True end.

(** One successful action of some worker; a failed one leaves no trace. *)
Inductive happens (l : limits) : relation DB :=
  | happens_action v a u db db' : proper a → perform l v a db = inr (u, db') → happens l db db'.

Record world_ok (db : DB) : Prop := {
  wo_store : store_ok db;
  wo_health : health_ok db }.

Lemma perform_store l v a : proper a → keeps store_ok (perform l v a).
Proof.
  destruct a as [c|o|o|o|o]; cbn; intros Hp.
  - unfold discard. apply tx_keeps_bind; [|intros; apply tx_keeps_ret].
    destruct c; [apply ApplyActive_store|apply ApplyFixture_store].
  - by apply eventrepo.event_exec_store.
  - apply fixturerepo.fixture_exec_store.
  - apply candidaterepo.candidate_exec_store.
  - apply healthrepo.health_exec_store.
Qed.

Lemma perform_forward l v a db u db' :
  store_ok db → perform l v a db = inr (u, db') → forward_db db db'.
Proof.
  intros Hok H. destruct a as [c|o|o|o|o]; cbn in H.
  - unfold discard in H. apply bind_inv in H as (r & db1 & H & [_ ->]%ret_inv).
    apply (run_forward v c r); [apply Hok|exact H].
  - by eapply eventrepo.event_exec_forward.
  - by eapply fixturerepo.fixture_exec_forward.
  - by eapply candidaterepo.candidate_exec_forward.
  - by eapply healthrepo.health_exec_forward.
Qed.

Lemma perform_evidence l v a x :
  match a with healthOp _ => False | _ => True end →
  keeps (λ db, evidence db = x) (perform l v a).
Proof.
  destruct a as [c|o|o|o|o]; cbn; intros Ha; [| | | |done].
  - unfold discard. apply tx_keeps_bind; [|intros; apply tx_keeps_ret].
    destruct c; [apply ApplyActive_evidence|apply ApplyFixture_evidence].
  - apply eventrepo.event_exec_evidence.
  - apply fixturerepo.fixture_exec_evidence.
  - apply candidaterepo.candidate_exec_evidence.
Qed.

(** The evidence stays sound and its time does not go back. *)
Lemma perform_health l v a db u db' :
  health_ok db → perform l v a db = inr (u, db') →
  health_ok db' ∧ db.(dbProvider).(pLastObservedAt) ≤ db'.(dbProvider).(pLastObservedAt).
Proof.
  intros Hok H.
  assert (match a with healthOp _ => False | _ => True end →
    health_ok db' ∧ db.(dbProvider).(pLastObservedAt) ≤ db'.(dbProvider).(pLastObservedAt)) as Hsame.
  { intros Ha. pose proof (perform_evidence l v a (evidence db) Ha db u db' eq_refl H) as He.
    injection He as E1 E2. split; [by apply (health_same db)|by rewrite E1]. }
  destruct a; try (by apply Hsame). by eapply healthrepo.exec_health.
Qed.

Lemma world_steps l db db' :
  world_ok db → rtc (happens l) db db' →
  world_ok db' ∧ forward_db db db' ∧
  db.(dbProvider).(pLastObservedAt) ≤ db'.(dbProvider).(pLastObservedAt).
Proof.
  intros Hok H. revert Hok. induction H as [db|db db1 db2 [v a u d d' Hp Ha] _ IH]; [done|].
  intros [Hs Hh]. destruct (perform_health _ _ _ _ _ _ Hh Ha) as [Hh1 Hle].
  destruct IH as (Hok2 & Hf & Hle2); [split; [by eapply perform_store|done]|].
  split_and!; [done| |lia]. trans d'; [by eapply perform_forward|done].
Qed.

(** C3: The system: whatever interleaving of provider cycles, monitor votes, lifecycle
    transitions, candidate results and health polls the workers commit, at
    whatever times, the tables satisfy the schema, no removed event has a pending
    candidate, the health evidence is sound, no fixture has gone back in its
    life, and the evidence time has not gone back. *)
Theorem world_invariant l db db' :
  world_ok db → rtc (happens l) db db' →
  world_ok db' ∧ forward_db db db' ∧
  db.(dbProvider).(pLastObservedAt) ≤ db'.(dbProvider).(pLastObservedAt).
Proof. apply world_steps. Qed.

End world.
