(* ===== verification/Planning.v ===== *)
(** internal/activity/monitor, the pure part of a reconciliation: the facts of an
    observation (provider_observation.go), the audit records (emission.go), the
    feed route (signals.go), and the plan of one guarded reconciliation
    (reconcile_guarded.go, reconcile.go). *)
From S2P Require Import Prelude GoStrings ApiFootball Fixture Event Identity Integrity Health Auditlog Presentation Plan.
#[local] Open Scope string_scope.
#[local] Open Scope list_scope.
#[local] Open Scope Z_scope.
Import apifootball providerintegrity health mutation monitor.

Module planning.

(** ** Facts (provider_observation.go) *)

Definition providerFixtureFacts (stored : fixture.Fixture) : FixtureFacts :=
  mkFixtureFacts stored.(fixture.fID) stored.(fixture.fHome).(fixture.tID)
    stored.(fixture.fAway).(fixture.tID) stored.(fixture.fLeague).(fixture.lID)
    stored.(fixture.fHome).(fixture.tName) stored.(fixture.fAway).(fixture.tName)
    stored.(fixture.fLeague).(fixture.lName) stored.(fixture.fAPIStatus).(fixture.Short)
    (fixture.Terminal stored.(fixture.fAPIStatus)) stored.(fixture.fAPIElapsed)
    stored.(fixture.fAPIExtra) stored.(fixture.fHomeScore) stored.(fixture.fAwayScore) false.

Definition providerEventFact (key : string) (teamID : Z) (playerID : option Z)
    (eventType : event.Type_) (detail : APIEventDetail) (minute : Z) (extra : option Z)
    (debounceCount : Z) : EventFact :=
  mkEventFact key teamID playerID eventType detail minute extra debounceCount.

Definition apiStatus (observed : APIFixture) : fixture.APIStatus :=
  fixture.mkAPIStatus observed.(Fixture).(FixtureStatus).(StatusShort)
    observed.(Fixture).(FixtureStatus).(StatusLong).

Definition observedFacts (observed : APIFixture) : FixtureFacts :=
  mkFixtureFacts observed.(Fixture).(FixtureID) observed.(Teams).(TeamsHome).(TeamID)
    observed.(Teams).(TeamsAway).(TeamID) observed.(League).(LeagueID)
    observed.(Teams).(TeamsHome).(TeamName) observed.(Teams).(TeamsAway).(TeamName)
    observed.(League).(LeagueName) observed.(Fixture).(FixtureStatus).(StatusShort)
    (fixture.Terminal (apiStatus observed)) observed.(Fixture).(FixtureStatus).(StatusElapsed)
    observed.(Fixture).(FixtureStatus).(StatusExtra) observed.(Goals).(GoalsHome)
    observed.(Goals).(GoalsAway) (0 <? length observed.(Events))%nat.

Definition storedEventFact (e : event.Event) : EventFact :=
  providerEventFact e.(event.eNaturalKey) e.(event.eTeam).(event.tID)
    e.(event.ePlayer).(event.pID) e.(event.eType) e.(event.eDetail) e.(event.eMinute)
    e.(event.eExtra) e.(event.eDebounceCount).

Definition observedEventFact (sequences : gmap nat Z) (p : nat * APIFixtureEvent)
    : option EventFact :=
  let '(index, observedEvent) := p in
  let domainType := trackableType observedEvent in
  if (domainType =? "")%string then None
  else match sequences !! index with
       | None => None
       | Some sequence => Some (providerEventFact
           (event.ComposeNaturalKey observedEvent.(EventTeam).(TeamID)
              observedEvent.(EventPlayer).(PlayerRefID) domainType sequence)
           observedEvent.(EventTeam).(TeamID) observedEvent.(EventPlayer).(PlayerRefID) domainType
           observedEvent.(EventDetail) observedEvent.(EventTime).(TimeElapsed)
           observedEvent.(EventTime).(TimeExtra) 0)
       end.

Definition providerFixtureComparison (stored : fixture.Fixture) (storedEvents : list event.Event)
    (observed : APIFixture) (sequences : gmap nat Z) : FixtureComparison :=
  let s := providerFixtureFacts stored in
  let active := filter (λ e, negb e.(event.eRemoved) = true) storedEvents in
  mkFixtureComparison
    (mkFixtureFacts s.(ffFixtureID) s.(ffHomeID) s.(ffAwayID) s.(ffLeagueID) s.(ffHomeName)
       s.(ffAwayName) s.(ffLeagueName) s.(ffStatus) s.(ffTerminal) s.(ffElapsed) s.(ffExtra)
       s.(ffHomeScore) s.(ffAwayScore) (0 <? length storedEvents)%nat)
    (observedFacts observed)
    (storedEventFact <$> active)
    (storedEventFact <$> filter (λ e, e.(event.eDownstreamTriggered) = true) active)
    (omap (observedEventFact sequences) (indexed observed.(Events))).

(** ** The refreshed fixture (reconcile.go) *)

(** Zero-valued subobjects do not erase what is known; the zero date is the zero
    time. *)
Definition updateFixtureMetadataFromAPI (f : fixture.Fixture) (apiFix : APIFixture)
    : fixture.Fixture :=
  let kickoff := if IsZero apiFix.(Fixture).(FixtureDate) then f.(fixture.fKickoff)
    else apiFix.(Fixture).(FixtureDate) in
  let team (t : APIFixtureTeam) (current : fixture.Team) :=
    if t.(TeamID) =? 0 then current else fixture.mkTeam t.(TeamID) t.(TeamName) in
  let league := if apiFix.(League).(LeagueID) =? 0 then f.(fixture.fLeague)
    else fixture.mkLeague apiFix.(League).(LeagueID) apiFix.(League).(LeagueName)
      apiFix.(League).(LeagueSeason) apiFix.(League).(LeagueCountry) apiFix.(League).(LeagueRound) in
  fixture.UpdateMetadata f kickoff (team apiFix.(Teams).(TeamsHome) f.(fixture.fHome))
    (team apiFix.(Teams).(TeamsAway) f.(fixture.fAway)) league.

(** The stored fixture after the poll, the metadata, the shootout and the result. *)
Definition observedFixture (stored : fixture.Fixture) (api : APIFixture) (observedAt : Time)
    : fixture.Fixture :=
  let f := fixture.UpdateFromPoll stored (apiStatus api)
    api.(Fixture).(FixtureStatus).(StatusElapsed) api.(Fixture).(FixtureStatus).(StatusExtra)
    api.(Goals).(GoalsHome) api.(Goals).(GoalsAway) observedAt in
  let f := updateFixtureMetadataFromAPI f api in
  let f := fixture.UpdatePenalty f api.(Score).(Penalty).(LineHome) api.(Score).(Penalty).(LineAway) in
  fixture.UpdateResult f api.(Teams).(TeamsHome).(TeamWinner) api.(Teams).(TeamsAway).(TeamWinner).

(** The keys of Go's map that hold true. *)
Definition incompleteGoalTeams (api : APIFixture) : gset Z :=
  let inventory := newScoreEventInventory api in
  list_to_set (filter (λ t, scoreRequiresMissingGoal inventory t = true)
    [api.(Teams).(TeamsHome).(TeamID); api.(Teams).(TeamsAway).(TeamID)]).

(** ** Audit records (emission.go) *)

Definition playerName (p : event.Player) : string := default "" p.(event.pName).

Definition eventDetectedAudit (evID : UUID) (fixtureID : Z) (e : event.Event)
    : option auditlog.Record_ :=
  auditlog.New auditlog.KindEventDetected (Some evID) fixtureID
    (auditlog.eventDetected (auditlog.mkEventDetectedPayload (Some evID) fixtureID e.(event.eType)
       e.(event.eDetail) e.(event.eMinute) e.(event.eExtra) (playerName e.(event.ePlayer))
       e.(event.eTeam).(event.tID) e.(event.eTeam).(event.tName) 1)).

Definition eventStableAudit (evID : UUID) (fixtureID : Z) (e : event.Event)
    : option auditlog.Record_ :=
  auditlog.New auditlog.KindEventStable (Some evID) fixtureID
    (auditlog.eventStable (auditlog.mkEventStablePayload (Some evID) fixtureID e.(event.eType)
       e.(event.eDetail) e.(event.eMinute) e.(event.eExtra) (playerName e.(event.ePlayer))
       e.(event.eTeam).(event.tID) e.(event.eTeam).(event.tName))).

Definition fixtureActivatedAudit (fixtureID : Z) (activatedAt : Time) (reason : string)
    : option auditlog.Record_ :=
  auditlog.New auditlog.KindFixtureActivated None fixtureID
    (auditlog.fixtureActivated (auditlog.mkFixtureActivatedPayload fixtureID activatedAt reason)).

Definition eventRemovedAudit (evID : UUID) (fixtureID : Z) (removedAt : Time)
    : option auditlog.Record_ :=
  auditlog.New auditlog.KindEventRemoved (Some evID) fixtureID
    (auditlog.eventRemoved (auditlog.mkEventRemovedPayload (Some evID) fixtureID removedAt
       "debounce_zero")).

Definition penaltyResultDecided (f : fixture.Fixture) : option bool :=
  if negb (f.(fixture.fAPIStatus).(fixture.Short) =? StatusPenaltyDone)%string then None
  else Some match f.(fixture.fHomePenalty), f.(fixture.fAwayPenalty) with
            | Some h, Some a => negb (h =? a) | _, _ => false end.

Definition graceSeconds (terminalGracePeriod : Duration) : Z := Z.quot terminalGracePeriod time_Second.

Definition fixtureCompletedAudit (terminalGracePeriod : Duration) (f : fixture.Fixture)
    (completedAt : Time) (durableParity providerParity : option bool)
    : string + auditlog.Record_ :=
  match f.(fixture.fTerminalObservedAt) with
  | None => inl "fixture completed without terminal observation"
  | Some terminalAt =>
      match auditlog.New auditlog.KindFixtureCompleted None f.(fixture.fID)
        (auditlog.fixtureCompleted (auditlog.mkFixtureCompletedPayload f.(fixture.fID) terminalAt
           completedAt (graceSeconds terminalGracePeriod) providerParity durableParity
           (penaltyResultDecided f))) with
      | Some r => inr r
      | None => inl "invalid audit record"
      end
  end.

(** ** Feed routing (signals.go) *)

Definition FixtureFeedAction := string.
Definition FixtureFeedNone : FixtureFeedAction := "".
Definition FixtureFeedStatus : FixtureFeedAction := "status".
Definition FixtureFeedUpdate : FixtureFeedAction := "update".

Definition intPtrChanged (a b : option Z) : bool := negb (bool_decide (a = b)).
Definition boolPtrChanged (a b : option bool) : bool := negb (bool_decide (a = b)).
Definition timePtrChanged (a b : option Time) : bool := negb (bool_decide (a = b)).

(** ** The activity's input and output (reconcile.go) *)

Record ReconcileFixtureInput := mkReconcileFixtureInput {
  riAPIFixture : APIFixture;
  riWorkflowID : string;
  riObservedAt : Time;
  riPollID : string;
  riHealthGeneration : Z;
  riLegacyUnprotected : bool }.

Record ReconcileFixtureOutput := mkReconcileFixtureOutput {
  oFixtureID : Z;
  oNewEventsDetected : Z;
  oEventsBecameStable : list string;
  oNewNamedEventIDs : list UUID;
  oEventsRemoved : list string;
  oEventsRemovedIDs : list UUID;
  oGoalAbsencesHeld : list string;
  oUnknownDropped : Z;
  oCompleted : bool;
  oErrors : list string;
  oProviderIntegrity : FixtureVerdict;
  oMutationPolicy : MutationPolicy;
  oMutationDecision : option MutationDecision;
  oMutationApplied : bool;
  oMutationStale : bool;
  oFeedAction : FixtureFeedAction;
  oPresentation : fixturepresentation.Projection }.

#[global] Instance eta_ReconcileFixtureOutput : Eta ReconcileFixtureOutput := λ o,
  mkReconcileFixtureOutput o.(oFixtureID) o.(oNewEventsDetected) o.(oEventsBecameStable)
    o.(oNewNamedEventIDs) o.(oEventsRemoved) o.(oEventsRemovedIDs) o.(oGoalAbsencesHeld)
    o.(oUnknownDropped) o.(oCompleted) o.(oErrors) o.(oProviderIntegrity) o.(oMutationPolicy)
    o.(oMutationDecision) o.(oMutationApplied) o.(oMutationStale) o.(oFeedAction)
    o.(oPresentation).

Definition emptyOutput (fixtureID : Z) : ReconcileFixtureOutput :=
  mkReconcileFixtureOutput fixtureID 0 [] [] [] [] [] 0 false []
    (mkFixtureVerdict 0 "" [] 0 false false) "" None false false FixtureFeedNone
    (fixturepresentation.mkProjection "" (fixturepresentation.mkClock None None)
       (fixturepresentation.mkStatus "" "") "").

Definition markStatus (out : ReconcileFixtureOutput) : ReconcileFixtureOutput :=
  if negb (out.(oFeedAction) =? FixtureFeedUpdate)%string
  then out <| oFeedAction := FixtureFeedStatus |> else out.

Definition markUpdate (out : ReconcileFixtureOutput) : ReconcileFixtureOutput :=
  out <| oFeedAction := FixtureFeedUpdate |>.

Definition addError (err : string) (out : ReconcileFixtureOutput) : ReconcileFixtureOutput :=
  out <| oErrors ::= λ l, l ++ [err] |>.

Definition classifyGuardedFeed (out : ReconcileFixtureOutput) (result : MutationResult)
    : ReconcileFixtureOutput :=
  match result.(mrFixture) with
  | None => out
  | Some f =>
      let out := out <| oPresentation := fixturepresentation.From_ f.(fixture.fAPIStatus)
        f.(fixture.fAPIElapsed) f.(fixture.fAPIExtra) |> in
      if result.(mrEventChanged) || result.(mrCompleted) || result.(mrFixtureStructuralChanged)
      then markUpdate out
      else if result.(mrFixturePresentationChanged) then markStatus out else out
  end.

Definition cloneOptionalTime (value : option Time) : option Time := value.

(** ** The plan (reconcile_guarded.go) *)

(** The stored rows that are not removed, by natural key. *)
Definition activeByKey (allEvents : list event.Event) : gmap string event.Event :=
  foldl (λ m e, if e.(event.eRemoved) then m else <[e.(event.eNaturalKey) := e]> m) ∅ allEvents.

Definition storedByID (allEvents : list event.Event) : gmap UUID event.Event :=
  foldl (λ m e, <[e.(event.eID) := e]> m) ∅ allEvents.

(** What one element of the response asks for. *)
Inductive elementAction :=
  | elementIgnored
  | elementReported (key : option string) (err : string)
  | elementPlaceholder (key : string)
  | elementPresent (key : string) (existing fresh : event.Event) (vote : PlannedEventPresence)
      (correction : option PlannedEventUpdate)
  | elementInserted (key : string) (op : PlannedEventInsert) (fresh : event.Event).

(** What a stored row that is not removed and not in the response asks for. *)
Inductive absenceAction :=
  | absenceDeleted (id : UUID)
  | absenceHeld (key : string)
  | absenceReported (err : string)
  | absenceVoted (vote : PlannedEventAbsence).

(** The plan under construction, with the keys of the response and the events the
    activity has at hand. *)
Record planning := mkPlanning {
  pnOut : ReconcileFixtureOutput;
  pnPlan : ActiveMutationPlan;
  pnKeys : gset string;
  pnByID : gmap UUID event.Event }.

#[global] Instance eta_planning : Eta planning := λ p,
  mkPlanning p.(pnOut) p.(pnPlan) p.(pnKeys) p.(pnByID).

Section plan.
Context (candidateID : Z) (now : Time) (fresh : nat → UUID).

Definition elementOf (pgByKey : gmap string event.Event) (sequences : gmap nat Z)
    (p : nat * APIFixtureEvent) : elementAction :=
  let '(apiIndex, apiEvent) := p in
  let domainType := trackableType apiEvent in
  if (domainType =? "")%string then elementIgnored
  else match sequences !! apiIndex with
  | None => elementReported None "event identity missing"
  | Some sequence =>
      match buildDomainEvent (fresh apiIndex) candidateID apiEvent domainType sequence now with
      | None => elementReported None "build event"
      | Some (e, key) =>
          match pgByKey !! key with
          | Some existing =>
              if negb (event.Known e.(event.ePlayer)) then elementPlaceholder key
              else match eventStableAudit existing.(event.eID) candidateID e with
                   | None => elementReported (Some key) "build stable audit"
                   | Some audit =>
                       elementPresent key existing e (mkPlannedEventPresence existing.(event.eID) audit)
                         (if event.MutableFieldsChanged existing e
                          then Some (mkPlannedEventUpdate existing.(event.eID) (Some e)) else None)
                   end
          | None =>
              if event.Known e.(event.ePlayer) then
                match eventDetectedAudit e.(event.eID) candidateID e with
                | None => elementReported (Some key) "build detected audit"
                | Some audit => elementInserted key (mkPlannedEventInsert (Some e) (Some audit)) e
                end
              else elementInserted key (mkPlannedEventInsert (Some e) None) e
          end
      end
  end.

Definition planElement (pgByKey : gmap string event.Event) (sequences : gmap nat Z) (st : planning)
    (p : nat * APIFixtureEvent) : planning :=
  match elementOf pgByKey sequences p with
  | elementIgnored => st
  | elementReported None err => st <| pnOut ::= addError err |>
  | elementReported (Some key) err =>
      st <| pnKeys ::= union {[key]} |> <| pnOut ::= addError err |>
  | elementPlaceholder key => st <| pnKeys ::= union {[key]} |>
  | elementPresent key _ _ vote None =>
      st <| pnKeys ::= union {[key]} |>
         <| pnPlan ::= λ plan, plan <| apPresences ::= λ l, l ++ [vote] |> |>
  | elementPresent key _ _ vote (Some correction) =>
      st <| pnKeys ::= union {[key]} |>
         <| pnPlan ::= λ plan, plan <| apPresences ::= λ l, l ++ [vote] |>
              <| apUpdates ::= λ l, l ++ [correction] |> |>
  | elementInserted key op e =>
      st <| pnKeys ::= union {[key]} |>
         <| pnPlan ::= λ plan, plan <| apInserts ::= λ l, l ++ [op] |> |>
         <| pnByID ::= <[e.(event.eID) := e]> |>
  end.

Definition absenceOf (inventory : scoreEventInventory) (key : string) (storedEvent : event.Event)
    : absenceAction :=
  if negb (event.Known storedEvent.(event.ePlayer)) then absenceDeleted storedEvent.(event.eID)
  else if (storedEvent.(event.eType) =? event.TypeGoal)%string &&
    scoreRequiresMissingGoal inventory storedEvent.(event.eTeam).(event.tID) then absenceHeld key
  else match eventRemovedAudit storedEvent.(event.eID) candidateID now with
       | None => absenceReported "build removal audit"
       | Some audit => absenceVoted (mkPlannedEventAbsence storedEvent.(event.eID) audit)
       end.

Definition planAbsence (inventory : scoreEventInventory) (st : planning)
    (row : string * event.Event) : planning :=
  if bool_decide (row.1 ∈ st.(pnKeys)) then st
  else match absenceOf inventory row.1 row.2 with
       | absenceDeleted id =>
           st <| pnPlan ::= λ plan, plan <| apUnknownDeletes ::= λ l, l ++ [id] |> |>
       | absenceHeld key => st <| pnOut ::= λ out, out <| oGoalAbsencesHeld ::= λ l, l ++ [key] |> |>
       | absenceReported err => st <| pnOut ::= addError err |>
       | absenceVoted vote =>
           st <| pnPlan ::= λ plan, plan <| apAbsences ::= λ l, l ++ [vote] |> |>
       end.
End plan.

Section guarded.
Context (terminalGracePeriod : Duration) (now : Time) (fresh : nat → UUID).

Definition guardOf (inp : ReconcileFixtureInput) : ObservationGuard :=
  mkObservationGuard inp.(riPollID) inp.(riObservedAt) inp.(riHealthGeneration) true.

Definition completionPlan (api : APIFixture) : CompletionPlan :=
  mkCompletionPlan (time_Add now (- terminalGracePeriod)) now (graceSeconds terminalGracePeriod)
    (terminalProviderScoreEventParity (newScoreEventInventory api)
       api.(Fixture).(FixtureStatus).(StatusShort) api.(Teams).(TeamsHome).(TeamID)
       api.(Teams).(TeamsAway).(TeamID)).

Definition assignedSequences (api : APIFixture) (allEvents : list event.Event)
    : option (gmap nat Z) :=
  assignEventSequences api.(Events) allEvents (incompleteGoalTeams api).

(** Before the loops: the verdict against the stored history and the empty plan. *)
Definition planStart (inp : ReconcileFixtureInput) (stored : fixture.Fixture)
    (allEvents : list event.Event) (sequences : gmap nat Z) : planning :=
  let api := inp.(riAPIFixture) in
  let verdict := AssessFixture (providerFixtureComparison stored allEvents api sequences) in
  mkPlanning
    ((emptyOutput api.(Fixture).(FixtureID)) <| oProviderIntegrity := verdict |>)
    (mkActiveMutationPlan (guardOf inp)
       (Some (observedFixture stored api inp.(riObservedAt))) true
       (cloneOptionalTime stored.(fixture.fLastPolledAt)) verdict.(fvPolicy) inp.(riWorkflowID)
       [] [] [] [] [] (completionPlan api))
    ∅ (storedByID allEvents).

(** [order] is the order in which Go iterates over [pgByKey]. *)
Definition planOf (inp : ReconcileFixtureInput) (stored : fixture.Fixture)
    (allEvents : list event.Event) (sequences : gmap nat Z) (order : list (string * event.Event))
    : planning :=
  let api := inp.(riAPIFixture) in
  let candidate := observedFixture stored api inp.(riObservedAt) in
  let elements := foldl (planElement candidate.(fixture.fID) now fresh (activeByKey allEvents) sequences)
    (planStart inp stored allEvents sequences) (indexed api.(Events)) in
  foldl (planAbsence candidate.(fixture.fID) now (newScoreEventInventory api)) elements order.
End guarded.

(** ** What the plan should say

    Stated on the response and the rows alone. *)

(** The response lists, under [key], an element whose player is known or not. *)
Definition inResponse (api : APIFixture) (sequences : gmap nat Z) (key : string) (known : bool)
    : Prop :=
  ∃ i ev s, api.(Events) !! i = Some ev ∧ trackableType ev ≠ "" ∧ ev.(EventTeam).(TeamID) ≠ 0 ∧
    sequences !! i = Some s ∧ naturalKeyOf ev s = key ∧
    event.Known (event.mkPlayer ev.(EventPlayer).(PlayerRefID) ev.(EventPlayer).(PlayerRefName))
      = known.

Definition missing (api : APIFixture) (sequences : gmap nat Z) (e : event.Event) : Prop :=
  ∀ known, ¬ inResponse api sequences e.(event.eNaturalKey) known.

Definition live (allEvents : list event.Event) (e : event.Event) : Prop :=
  e ∈ allEvents ∧ e.(event.eRemoved) = false.

(** The reported score of the goal's team exceeds the goals the response lists. *)
Definition scoreHolds (api : APIFixture) (e : event.Event) : Prop :=
  e.(event.eType) = event.TypeGoal ∧
  ∃ n, ((e.(event.eTeam).(event.tID) = api.(Teams).(TeamsHome).(TeamID) ∧
           api.(Goals).(GoalsHome) = Some n) ∨
        (e.(event.eTeam).(event.tID) = api.(Teams).(TeamsAway).(TeamID) ∧
           api.(Goals).(GoalsAway) = Some n)) ∧
    teamGoals e.(event.eTeam).(event.tID) api.(Events) < n.

(** ** The loops in closed form *)

Definition actKey (a : elementAction) : option string :=
  match a with
  | elementIgnored => None
  | elementReported key _ => key
  | elementPlaceholder key | elementPresent key _ _ _ _ | elementInserted key _ _ => Some key
  end.

Definition actVote (a : elementAction) : option PlannedEventPresence :=
  match a with elementPresent _ _ _ vote _ => Some vote | _ => None end.

Definition actCorrection (a : elementAction) : option PlannedEventUpdate :=
  match a with elementPresent _ _ _ _ correction => correction | _ => None end.

Definition actInsert (a : elementAction) : option PlannedEventInsert :=
  match a with elementInserted _ op _ => Some op | _ => None end.

Lemma planElements_fold F now fresh live_ seqs ps st :
  let st' := foldl (planElement F now fresh live_ seqs) st ps in
  let acts := elementOf F now fresh live_ seqs <$> ps in
  st'.(pnPlan) = st.(pnPlan) <| apInserts ::= λ l, l ++ omap actInsert acts |>
    <| apPresences ::= λ l, l ++ omap actVote acts |>
    <| apUpdates ::= λ l, l ++ omap actCorrection acts |> ∧
  st'.(pnKeys) = list_to_set (omap actKey acts) ∪ st.(pnKeys) ∧
  st'.(pnOut).(oGoalAbsencesHeld) = st.(pnOut).(oGoalAbsencesHeld).
Proof.
  cbn zeta. revert st. induction ps as [|p ps IH]; intros st.
  { cbn. rewrite !app_nil_r. split; [by destruct st as [? []]|]. split; [set_solver|done]. }
  rewrite fmap_cons. cbn [foldl]. destruct (IH (planElement F now fresh live_ seqs st p)) as (-> & -> & ->).
  unfold planElement. destruct (elementOf F now fresh live_ seqs p) as [|[k|] err|k|k x y v [c|]|k op e]; cbn;
    rewrite <-?app_assoc; cbn; (split; [done|]); (split; [set_solver|done]).
Qed.

Lemma planAbsences_fold F now inv rows st :
  let st' := foldl (planAbsence F now inv) st rows in
  let acts := (λ row, absenceOf F now inv row.1 row.2) <$> filter (λ row, row.1 ∉ st.(pnKeys)) rows in
  st'.(pnPlan) = st.(pnPlan)
    <| apAbsences ::= λ l, l ++ omap (λ a, match a with absenceVoted v => Some v | _ => None end) acts |>
    <| apUnknownDeletes ::= λ l, l ++ omap (λ a, match a with absenceDeleted id => Some id | _ => None end) acts |> ∧
  st'.(pnKeys) = st.(pnKeys) ∧
  st'.(pnOut).(oGoalAbsencesHeld) = st.(pnOut).(oGoalAbsencesHeld) ++
    omap (λ a, match a with absenceHeld k => Some k | _ => None end) acts.
Proof.
  cbn zeta. revert st. induction rows as [|row rows IH]; intros st.
  { cbn. rewrite !app_nil_r. split; [by destruct st as [? []]|done]. }
  cbn [foldl]. destruct (IH (planAbsence F now inv st row)) as (-> & -> & ->).
  assert ((planAbsence F now inv st row).(pnKeys) = st.(pnKeys)) as ->
    by (unfold planAbsence; repeat case_match; done).
  unfold planAbsence. case_bool_decide as Hin.
  { by rewrite filter_cons_False by tauto. }
  rewrite filter_cons_True by done. rewrite fmap_cons.
  destruct (absenceOf F now inv row.1 row.2); cbn; by rewrite <-?app_assoc.
Qed.

(** Nothing is reported of what only a commit does. *)
Record uncommitted (out : ReconcileFixtureOutput) : Prop := {
  uc_detected : out.(oNewEventsDetected) = 0;
  uc_stable : out.(oEventsBecameStable) = [];
  uc_named : out.(oNewNamedEventIDs) = [];
  uc_removed : out.(oEventsRemoved) = [];
  uc_removedIDs : out.(oEventsRemovedIDs) = [];
  uc_dropped : out.(oUnknownDropped) = 0;
  uc_completed : out.(oCompleted) = false;
  uc_commit : out.(oMutationPolicy) = "" ∧ out.(oMutationDecision) = None ∧
    out.(oMutationApplied) = false ∧ out.(oMutationStale) = false;
  uc_feed : out.(oFeedAction) = FixtureFeedNone }.

Lemma planOf_uncommitted grace now fresh inp stored rows sequences order :
  uncommitted (planOf grace now fresh inp stored rows sequences order).(pnOut).
Proof.
  unfold planOf. set (st := foldl (planElement _ _ _ _ _) _ _).
  assert (uncommitted st.(pnOut)) as Hst.
  { unfold st. generalize (indexed (Events (riAPIFixture inp))). intros ps.
    assert (uncommitted (planStart grace now inp stored rows sequences).(pnOut)) as H by done.
    revert H. generalize (planStart grace now inp stored rows sequences).
    induction ps as [|p ps IH]; intros s Hs; [done|]. apply IH.
    destruct Hs. unfold planElement. by destruct (elementOf _ _ _ _ _ _) as [|[k|] err|k|k x y v [c|]|k op e]. }
  revert Hst. generalize st. induction order as [|row order IH]; intros s Hs; [done|]. apply IH.
  unfold planAbsence. case_bool_decide; [done|]. destruct Hs. by destruct (absenceOf _ _ _ _ _).
Qed.

(** ** Rows and elements *)

Lemma activeByKey_snoc rows e :
  activeByKey (rows ++ [e]) = if e.(event.eRemoved) then activeByKey rows
    else <[e.(event.eNaturalKey) := e]> (activeByKey rows).
Proof. unfold activeByKey. by rewrite foldl_app. Qed.

Lemma activeByKey_live rows k e :
  NoDup (event.eNaturalKey <$> rows) →
  activeByKey rows !! k = Some e ↔ live rows e ∧ e.(event.eNaturalKey) = k.
Proof.
  unfold live. induction rows as [|r rows IH] using rev_ind; intros Hn.
  { split; [done|]. intros [[[]%elem_of_nil _] _]. }
  rewrite fmap_app, NoDup_app in Hn. destruct Hn as (Hn & Hr & _). specialize (IH Hn).
  assert (∀ x, x ∈ rows → x.(event.eNaturalKey) ≠ r.(event.eNaturalKey)) as Hne.
  { intros x Hx Hk. apply (Hr r.(event.eNaturalKey)); [|by left].
    rewrite <-Hk. by apply list_elem_of_fmap_2. }
  rewrite activeByKey_snoc, elem_of_app, list_elem_of_singleton. destruct (event.eRemoved r) eqn:Er.
  - rewrite IH. split; [intros [[? ?] ?]; by repeat split; [left|..]|].
    intros [[[?| ->] ?] ?]; [done|congruence].
  - rewrite lookup_insert. case_decide as Hk.
    2:{ rewrite IH. split; [intros [[? ?] ?]; by repeat split; [left|..]|].
        by intros [[[?| ->] ?] ?]. }
    split; [intros [= <-]; repeat split; [by right|done..]|]. intros [[[He| ->] _] Hek]; [|done].
    destruct (Hne e He). congruence.
Qed.

Lemma New_event_scoped kind id F payload :
  F ≠ 0 → auditlog.EventScoped kind = true →
  auditlog.New kind (Some id) F payload = Some (auditlog.mkRecord kind (Some id) F payload).
Proof.
  intros HF Hk. unfold auditlog.New. rewrite Hk.
  assert (auditlog.Kind_Valid kind = true) as ->.
  { revert Hk. by apply one_of_impl. }
  by destruct (Z.eqb_spec F 0).
Qed.

Section elements.
Context (F : Z) (now : Time) (fresh : nat → UUID) (HF : F ≠ 0).
Context (rows : gmap string event.Event) (sequences : gmap nat Z).
Context (i : nat) (ev : APIFixtureEvent).

Definition elementPlayer : event.Player :=
  event.mkPlayer ev.(EventPlayer).(PlayerRefID) ev.(EventPlayer).(PlayerRefName).

(** The event an element describes, under its [s]th key. *)
Definition rendered (s : Z) : event.Event :=
  event.mkEvent (fresh i) F (naturalKeyOf ev s) (trackableType ev)
    (if (ev.(EventDetail) =? "")%string then trackableType ev else ev.(EventDetail))
    (event.mkTeam ev.(EventTeam).(TeamID) ev.(EventTeam).(TeamName)) elementPlayer
    (event.mkPlayer ev.(EventAssist).(PlayerRefID) ev.(EventAssist).(PlayerRefName))
    ev.(EventTime).(TimeElapsed) ev.(EventTime).(TimeExtra) (UTC now) 0 false false false false None None
    (UTC now) (UTC now).

Lemma buildDomainEvent_rendered s :
  ev.(EventTeam).(TeamID) ≠ 0 →
  buildDomainEvent (fresh i) F ev (trackableType ev) s now = Some (rendered s, naturalKeyOf ev s).
Proof. intros Ht. unfold buildDomainEvent. by destruct (Z.eqb_spec ev.(EventTeam).(TeamID) 0). Qed.

(** Outside the plan: untrackable elements, and elements without a team. *)
Lemma elementOf_outside :
  trackableType ev = "" ∨ ev.(EventTeam).(TeamID) = 0 →
  let a := elementOf F now fresh rows sequences (i, ev) in
  actKey a = None ∧ actVote a = None ∧ actCorrection a = None ∧ actInsert a = None.
Proof.
  unfold elementOf. intros H. destruct (String.eqb_spec (trackableType ev) ""); [done|].
  destruct H as [?|H]; [done|]. destruct (sequences !! i); [|done].
  unfold buildDomainEvent. by rewrite H.
Qed.

(** Inside it, an element is either a vote for the live row with its key, or a
    placeholder that stays, or a new row. *)
Lemma elementOf_inside s :
  trackableType ev ≠ "" → ev.(EventTeam).(TeamID) ≠ 0 → sequences !! i = Some s →
  let a := elementOf F now fresh rows sequences (i, ev) in
  actKey a = Some (naturalKeyOf ev s) ∧
    match rows !! naturalKeyOf ev s with
    | Some row => actInsert a = None ∧
        if event.Known elementPlayer then
          ∃ audit, actVote a = Some (mkPlannedEventPresence row.(event.eID) audit) ∧
            eventStableAudit row.(event.eID) F (rendered s) = Some audit ∧
            actCorrection a = (if event.MutableFieldsChanged row (rendered s)
              then Some (mkPlannedEventUpdate row.(event.eID) (Some (rendered s))) else None)
        else actVote a = None ∧ actCorrection a = None
    | None => actVote a = None ∧ actCorrection a = None ∧
        actInsert a = Some (mkPlannedEventInsert (Some (rendered s))
          (if event.Known elementPlayer then eventDetectedAudit (fresh i) F (rendered s) else None))
    end.
Proof.
  intros Hty Ht Hs. cbn zeta. unfold elementOf.
  destruct (String.eqb_spec (trackableType ev) ""); [done|]. rewrite Hs, (buildDomainEvent_rendered s Ht).
  change (event.ePlayer (rendered s)) with elementPlayer. split.
  - destruct (rows !! naturalKeyOf ev s); destruct (event.Known elementPlayer); cbn; try done;
      repeat case_match; done.
  - destruct (rows !! naturalKeyOf ev s) as [row|].
    + destruct (event.Known elementPlayer); [|done]. unfold eventStableAudit.
      rewrite New_event_scoped by done. cbn. eauto 10.
    + destruct (event.Known elementPlayer); [|done]. cbn [negb]. unfold eventDetectedAudit.
      change (event.eID (rendered s)) with (fresh i). rewrite New_event_scoped by done. done.
Qed.
End elements.

(** ** The plan of a reconciliation *)

(** What a plan is computed from: rows with distinct ids and keys, as the tables
    keep them, the sequences of the response, and any iteration order of the map. *)
Record planned (stored : fixture.Fixture) (allEvents : list event.Event) (api : APIFixture)
    (sequences : gmap nat Z) (order : list (string * event.Event)) : Prop := {
  pd_fixture : stored.(fixture.fID) ≠ 0;
  pd_teams : api.(Teams).(TeamsHome).(TeamID) ≠ api.(Teams).(TeamsAway).(TeamID);
  pd_rows : Forall stored_ok allEvents;
  pd_ids : NoDup (event.eID <$> allEvents);
  pd_keys : NoDup (event.eNaturalKey <$> allEvents);
  pd_sequences : assignedSequences api allEvents = Some sequences;
  pd_order : order ≡ₚ map_to_list (activeByKey allEvents) }.

(** The observation keeps the row's id and lifecycle and is what a guard expects. *)
Lemma observedFixture_keeps stored api at_ :
  let f := observedFixture stored api at_ in
  f.(fixture.fID) = stored.(fixture.fID) ∧ f.(fixture.fState) = stored.(fixture.fState) ∧
  f.(fixture.fLastPolledAt) = Some at_ ∧
  fixture.lifecycle f = (stored.(fixture.fState), not_nil stored.(fixture.fActivatedAt),
    not_nil stored.(fixture.fCompletedAt), fixture.Terminal (apiStatus api)).
Proof.
  cbn zeta. unfold observedFixture.
  set (p := fixture.UpdateFromPoll _ _ _ _ _ _ _).
  assert (p.(fixture.fID) = stored.(fixture.fID) ∧ p.(fixture.fState) = stored.(fixture.fState) ∧
    p.(fixture.fLastPolledAt) = Some at_) as (H1 & H2 & H3).
  { unfold p, fixture.UpdateFromPoll. destruct (GoalsHome _), (GoalsAway _), (fixture.Terminal _); simpl;
      try done; by destruct (fixture.fTerminalObservedAt stored). }
  set (q := fixture.UpdatePenalty _ _ _).
  assert (∀ x y, fixture.fID (fixture.UpdateResult q x y) = fixture.fID q ∧
    fixture.fState (fixture.UpdateResult q x y) = fixture.fState q ∧
    fixture.fLastPolledAt (fixture.UpdateResult q x y) = fixture.fLastPolledAt q) as Hq.
  { intros x y. unfold fixture.UpdateResult. destruct (_ =? _)%string; [done|]. by destruct (one_of _ _). }
  destruct (Hq (TeamWinner (TeamsHome (Teams api))) (TeamWinner (TeamsAway (Teams api)))) as (-> & -> & ->).
  repeat (split; [done|]). rewrite fixture.lifecycle_result.
  change (fixture.lifecycle q) with (fixture.lifecycle p). apply fixture.lifecycle_poll.
Qed.

Section spec.
Context (grace : Duration) (now : Time) (fresh : nat → UUID) (inp : ReconcileFixtureInput).
Context (stored : fixture.Fixture) (allEvents : list event.Event) (sequences : gmap nat Z).
Context (order : list (string * event.Event)).
Let api := inp.(riAPIFixture).
Context (Hin : planned stored allEvents api sequences order).
Let result := planOf grace now fresh inp stored allEvents sequences order.
Let plan := result.(pnPlan).
Let F := (observedFixture stored api inp.(riObservedAt)).(fixture.fID).
Let acts := elementOf F now fresh (activeByKey allEvents) sequences <$> indexed api.(Events).
Let keys : gset string := list_to_set (omap actKey acts).
Let gone := (λ row, absenceOf F now (newScoreEventInventory api) row.1 row.2) <$>
  filter (λ row, row.1 ∉ keys) order.

Lemma observedFixture_id at_ : (observedFixture stored api at_).(fixture.fID) = stored.(fixture.fID).
Proof. apply observedFixture_keeps. Qed.

Lemma planOf_lists :
  plan.(apInserts) = omap actInsert acts ∧ plan.(apPresences) = omap actVote acts ∧
  plan.(apUpdates) = omap actCorrection acts ∧
  plan.(apAbsences) = omap (λ a, match a with absenceVoted v => Some v | _ => None end) gone ∧
  plan.(apUnknownDeletes) = omap (λ a, match a with absenceDeleted id => Some id | _ => None end) gone ∧
  result.(pnOut).(oGoalAbsencesHeld) = omap (λ a, match a with absenceHeld k => Some k | _ => None end) gone.
Proof.
  unfold plan, result, planOf. fold api F.
  destruct (planElements_fold F now fresh (activeByKey allEvents) sequences
    (indexed api.(Events)) (planStart grace now inp stored allEvents sequences)) as (Hp & Hk & Hh).
  fold acts in Hp, Hk. set (st := foldl (planElement _ _ _ _ _) _ _) in *.
  destruct (planAbsences_fold F now (newScoreEventInventory api) order st) as (-> & _ & ->).
  assert (st.(pnKeys) = keys) as Hkeys by (rewrite Hk; unfold keys, planStart; simpl; set_solver).
  rewrite Hp, Hh, Hkeys. fold gone. done.
Qed.

Lemma F_nonzero : F ≠ 0.
Proof. unfold F. rewrite observedFixture_id. by destruct Hin. Qed.

Lemma elem_of_acts a :
  a ∈ acts ↔ ∃ i ev, api.(Events) !! i = Some ev ∧
    a = elementOf F now fresh (activeByKey allEvents) sequences (i, ev).
Proof.
  unfold acts. rewrite list_elem_of_fmap. split.
  - intros ([i ev] & -> & H). exists i, ev. by apply elem_of_indexed in H.
  - intros (i & ev & Hi & ->). exists (i, ev). split; [done|]. by apply elem_of_indexed.
Qed.

(** Every element the plan considers has a sequence. *)
Lemma sequence_of i ev :
  api.(Events) !! i = Some ev → trackableType ev ≠ "" → ∃ s, sequences !! i = Some s.
Proof.
  intros Hi Ht. destruct Hin as [_ _ Hr _ _ Hs _].
  destruct (assignment_keys _ _ _ _ Hr Hs) as (H & _). by apply H; eauto.
Qed.

Lemma same_key i j ev ev' s s' :
  api.(Events) !! i = Some ev → api.(Events) !! j = Some ev' →
  sequences !! i = Some s → sequences !! j = Some s' →
  naturalKeyOf ev s = naturalKeyOf ev' s' → i = j.
Proof.
  destruct Hin as [_ _ Hr _ _ Hs _]. destruct (assignment_keys _ _ _ _ Hr Hs) as (_ & H & _).
  apply H.
Qed.

Lemma live_row k e : activeByKey allEvents !! k = Some e ↔ live allEvents e ∧ e.(event.eNaturalKey) = k.
Proof. apply activeByKey_live. by destruct Hin. Qed.

(** The considered elements, with what the plan does for each. *)
Lemma acts_inside a :
  a ∈ acts →
  (actKey a = None ∧ actVote a = None ∧ actCorrection a = None ∧ actInsert a = None) ∨
  ∃ i ev s, api.(Events) !! i = Some ev ∧ trackableType ev ≠ "" ∧ ev.(EventTeam).(TeamID) ≠ 0 ∧
    sequences !! i = Some s ∧ a = elementOf F now fresh (activeByKey allEvents) sequences (i, ev).
Proof.
  intros (i & ev & Hi & ->)%elem_of_acts.
  destruct (decide (trackableType ev = "")) as [?|Hty]; [left; apply elementOf_outside; by left|].
  destruct (decide (ev.(EventTeam).(TeamID) = 0)) as [?|Ht]; [left; apply elementOf_outside; by right|].
  right. destruct (sequence_of i ev Hi Hty) as [s Hs]. by exists i, ev, s.
Qed.

Lemma in_keys k : k ∈ keys ↔ ∃ known, inResponse api sequences k known.
Proof.
  unfold keys. rewrite elem_of_list_to_set, list_elem_of_omap. split.
  - intros (a & Ha & Hk). destruct (acts_inside a Ha) as [(H & _)|(i & ev & s & Hi & Hty & Ht & Hs & ->)];
      [congruence|].
    destruct (elementOf_inside F now fresh F_nonzero (activeByKey allEvents) sequences i ev s)
      as (He & _); [done..|]. eexists _, i, ev, s. by simplify_eq.
  - intros (known & i & ev & s & Hi & Hty & Ht & Hs & <- & _).
    destruct (elementOf_inside F now fresh F_nonzero (activeByKey allEvents) sequences i ev s)
      as (He & _); [done..|]. eexists. split; [|exact He]. apply elem_of_acts. by exists i, ev.
Qed.

Lemma elem_of_gone a :
  a ∈ gone ↔ ∃ e, live allEvents e ∧ missing api sequences e ∧
    a = absenceOf F now (newScoreEventInventory api) e.(event.eNaturalKey) e.
Proof.
  unfold gone. rewrite list_elem_of_fmap. destruct Hin as [_ _ _ _ _ _ Ho].
  split.
  - intros ([k e] & -> & [Hk He]%list_elem_of_filter). simpl in *.
    rewrite Ho in He. apply elem_of_map_to_list, live_row in He as [He <-].
    exists e. split; [done|]. split; [|done]. intros known Hkn. apply Hk, in_keys. by exists known.
  - intros (e & He & Hm & ->). exists (e.(event.eNaturalKey), e). split; [done|].
    apply list_elem_of_filter. split; [intros [known Hk]%in_keys; by apply (Hm known)|].
    rewrite Ho. by apply elem_of_map_to_list, live_row.
Qed.

Lemma in_gone e :
  live allEvents e → missing api sequences e →
  absenceOf F now (newScoreEventInventory api) e.(event.eNaturalKey) e ∈ gone.
Proof. intros Hl Hm. apply elem_of_gone. by exists e. Qed.

(** What a missing row gets. *)
Lemma absence_cases e :
  let a := absenceOf F now (newScoreEventInventory api) e.(event.eNaturalKey) e in
  (event.Known e.(event.ePlayer) = false ∧ a = absenceDeleted e.(event.eID)) ∨
  (event.Known e.(event.ePlayer) = true ∧ scoreHolds api e ∧ a = absenceHeld e.(event.eNaturalKey)) ∨
  (event.Known e.(event.ePlayer) = true ∧ ¬ scoreHolds api e ∧ ∃ audit,
     a = absenceVoted (mkPlannedEventAbsence e.(event.eID) audit) ∧
     eventRemovedAudit e.(event.eID) F now = Some audit).
Proof.
  cbn zeta. unfold absenceOf. destruct (event.Known _); simpl; [|by left]. right.
  assert ((event.eType e =? event.TypeGoal)%string &&
    scoreRequiresMissingGoal (newScoreEventInventory api) (event.tID (event.eTeam e)) = true ↔
    scoreHolds api e) as Hs.
  { rewrite andb_true_iff, String.eqb_eq. unfold scoreHolds.
    rewrite missing_goal_spec; [done|]. by destruct Hin. }
  destruct (_ && _).
  - left. split; [done|]. split; [by apply Hs|done].
  - right. split; [done|]. split; [by intros ?%Hs|]. unfold eventRemovedAudit.
    rewrite New_event_scoped by (done || apply F_nonzero). by eexists.
Qed.

(** The rows voted present. *)
Lemma in_presences id :
  id ∈ ppEventID <$> plan.(apPresences) ↔
  ∃ e, live allEvents e ∧ e.(event.eID) = id ∧ inResponse api sequences e.(event.eNaturalKey) true.
Proof.
  destruct planOf_lists as (_ & -> & _). rewrite list_elem_of_fmap. setoid_rewrite list_elem_of_omap.
  split.
  - intros (v & -> & a & Ha & Hv).
    destruct (acts_inside a Ha) as [(_ & H & _)|(i & ev & s & Hi & Hty & Ht & Hs & ->)]; [congruence|].
    destruct (elementOf_inside F now fresh F_nonzero (activeByKey allEvents) sequences i ev s)
      as (_ & H); [done..|].
    destruct (activeByKey allEvents !! _) as [row|] eqn:Hrow; [|destruct H; congruence].
    apply live_row in Hrow as [Hl Hk]. destruct H as [_ H].
    destruct (event.Known _) eqn:Hkn; [|destruct H; congruence].
    destruct H as (audit & H & _). exists row. split; [done|].
    rewrite Hv in H. injection H as ->. split; [done|]. rewrite Hk. by exists i, ev, s.
  - intros (e & Hl & <- & i & ev & s & Hi & Hty & Ht & Hs & Hk & Hkn).
    destruct (elementOf_inside F now fresh F_nonzero (activeByKey allEvents) sequences i ev s)
      as (_ & H); [done..|].
    assert (activeByKey allEvents !! naturalKeyOf ev s = Some e) as Hrow by by apply live_row.
    rewrite Hrow in H. unfold elementPlayer in H. rewrite Hkn in H.
    destruct H as (_ & audit & H & _).
    eexists. split; [|eexists; split; [|exact H]; apply elem_of_acts; by exists i, ev]. done.
Qed.

Lemma in_absences id :
  id ∈ paEventID <$> plan.(apAbsences) ↔
  ∃ e, live allEvents e ∧ e.(event.eID) = id ∧ missing api sequences e ∧
    event.Known e.(event.ePlayer) = true ∧ ¬ scoreHolds api e.
Proof.
  destruct planOf_lists as (_ & _ & _ & -> & _). rewrite list_elem_of_fmap. setoid_rewrite list_elem_of_omap.
  split.
  - intros (v & -> & a & (e & Hl & Hm & ->)%elem_of_gone & Hv).
    destruct (absence_cases e) as [[_ H]|[(_ & _ & H)|(Hkn & Hns & audit & H & _)]];
      rewrite H in Hv; simplify_eq. by exists e.
  - intros (e & Hl & <- & Hm & Hkn & Hns).
    destruct (absence_cases e) as [[? _]|[(_ & ? & _)|(_ & _ & audit & H & _)]]; [congruence|done|].
    pose proof (in_gone e Hl Hm) as Hg. rewrite H in Hg. by eexists (mkPlannedEventAbsence _ _); eauto.
Qed.

Lemma in_deletes id :
  id ∈ plan.(apUnknownDeletes) ↔
  ∃ e, live allEvents e ∧ e.(event.eID) = id ∧ missing api sequences e ∧
    event.Known e.(event.ePlayer) = false.
Proof.
  destruct planOf_lists as (_ & _ & _ & _ & -> & _). setoid_rewrite list_elem_of_omap. split.
  - intros (a & (e & Hl & Hm & ->)%elem_of_gone & Hv).
    destruct (absence_cases e) as [[Hk H]|[(_ & _ & H)|(_ & _ & audit & H & _)]];
      rewrite H in Hv; simplify_eq. by exists e.
  - intros (e & Hl & <- & Hm & Hkn).
    destruct (absence_cases e) as [[_ H]|[(? & _)|(? & _)]]; [|congruence..].
    pose proof (in_gone e Hl Hm) as Hg. rewrite H in Hg. by eexists.
Qed.

Lemma in_held k :
  k ∈ result.(pnOut).(oGoalAbsencesHeld) ↔
  ∃ e, live allEvents e ∧ e.(event.eNaturalKey) = k ∧ missing api sequences e ∧
    event.Known e.(event.ePlayer) = true ∧ scoreHolds api e.
Proof.
  destruct planOf_lists as (_ & _ & _ & _ & _ & ->). setoid_rewrite list_elem_of_omap. split.
  - intros (a & (e & Hl & Hm & ->)%elem_of_gone & Hv).
    destruct (absence_cases e) as [[Hk H]|[(Hk & Hs & H)|(_ & _ & audit & H & _)]];
      rewrite H in Hv; simplify_eq. by exists e.
  - intros (e & Hl & <- & Hm & Hkn & Hs).
    destruct (absence_cases e) as [[? _]|[(_ & _ & H)|(_ & ? & _)]]; [congruence| |done].
    pose proof (in_gone e Hl Hm) as Hg. rewrite H in Hg. by eexists.
Qed.

(** The elements the plan considers, under their keys. *)
Definition listed (i : nat) (ev : APIFixtureEvent) (s : Z) : Prop :=
  api.(Events) !! i = Some ev ∧ trackableType ev ≠ "" ∧ ev.(EventTeam).(TeamID) ≠ 0 ∧
  sequences !! i = Some s.

Definition knownPlayer (ev : APIFixtureEvent) : bool := event.Known (elementPlayer ev).

Lemma act_cases a :
  a ∈ acts →
  (actVote a = None ∧ actCorrection a = None ∧ actInsert a = None) ∨
  ∃ i ev s, listed i ev s ∧ a = elementOf F now fresh (activeByKey allEvents) sequences (i, ev).
Proof.
  intros Ha. destruct (acts_inside a Ha) as [(_ & H)|(i & ev & s & H1 & H2 & H3 & H4 & H5)]; [by left|right].
  exists i, ev, s. done.
Qed.

Lemma listed_act i ev s :
  listed i ev s → elementOf F now fresh (activeByKey allEvents) sequences (i, ev) ∈ acts.
Proof. intros (Hi & _). apply elem_of_acts. by exists i, ev. Qed.

Lemma no_live_row k : activeByKey allEvents !! k = None ↔ ∀ e, live allEvents e → e.(event.eNaturalKey) ≠ k.
Proof.
  split.
  - intros Hn e Hl Hk. enough (activeByKey allEvents !! k = Some e) by congruence. by apply live_row.
  - intros Hno. destruct (activeByKey allEvents !! k) as [row|] eqn:Hrow; [|done].
    apply live_row in Hrow as [Hl Hk]. by destruct (Hno row Hl).
Qed.

(** The new rows: the elements whose key no live row has, as they are listed. *)
Lemma in_inserts op :
  op ∈ plan.(apInserts) ↔
  ∃ i ev s, listed i ev s ∧ (∀ e, live allEvents e → e.(event.eNaturalKey) ≠ naturalKeyOf ev s) ∧
    op = mkPlannedEventInsert (Some (rendered F now fresh i ev s))
      (if knownPlayer ev then eventDetectedAudit (fresh i) F (rendered F now fresh i ev s) else None).
Proof.
  destruct planOf_lists as (-> & _). rewrite list_elem_of_omap. setoid_rewrite <-no_live_row. split.
  - intros (a & Ha & Hv). destruct (act_cases a Ha) as [(_ & _ & H)|(i & ev & s & Hl & ->)]; [congruence|].
    pose proof Hl as (Hi & Hty & Ht & Hs).
    destruct (elementOf_inside F now fresh F_nonzero (activeByKey allEvents) sequences i ev s) as (_ & H); [done..|].
    exists i, ev, s. split; [done|]. destruct (activeByKey allEvents !! _) as [row|]; [destruct H; congruence|].
    split; [done|]. destruct H as (_ & _ & H). rewrite Hv in H. by injection H.
  - intros (i & ev & s & Hl & Hn & ->). eexists. split; [by eapply listed_act|].
    pose proof Hl as (Hi & Hty & Ht & Hs).
    destruct (elementOf_inside F now fresh F_nonzero (activeByKey allEvents) sequences i ev s) as (_ & H); [done..|].
    rewrite Hn in H. apply H.
Qed.

(** What a listed row may differ in, and is corrected. *)
Definition differs (row e : event.Event) : Prop :=
  ¬ (row.(event.eAssist) = e.(event.eAssist) ∧ row.(event.eMinute) = e.(event.eMinute) ∧
     row.(event.eExtra) = e.(event.eExtra) ∧ row.(event.eDetail) = e.(event.eDetail)).

Lemma MutableFieldsChanged_differs row e : event.MutableFieldsChanged row e = true ↔ differs row e.
Proof.
  rewrite <-not_false_iff_true. unfold differs. apply not_iff_compat. unfold event.MutableFieldsChanged.
  rewrite !orb_false_iff, !negb_false_iff, Z.eqb_eq, String.eqb_eq.
  unfold event.eqIntPtr, event.eqStrPtr. rewrite !bool_decide_eq_true.
  destruct (event.eAssist row), (event.eAssist e). cbn. naive_solver.
Qed.

(** The vote and the correction of a row that is listed with a known player. *)
Lemma in_voted row i ev s :
  live allEvents row → listed i ev s → naturalKeyOf ev s = row.(event.eNaturalKey) → knownPlayer ev = true →
  let a := elementOf F now fresh (activeByKey allEvents) sequences (i, ev) in
  a ∈ acts ∧ ∃ audit, eventStableAudit row.(event.eID) F (rendered F now fresh i ev s) = Some audit ∧
    actVote a = Some (mkPlannedEventPresence row.(event.eID) audit) ∧
    actCorrection a = if event.MutableFieldsChanged row (rendered F now fresh i ev s)
      then Some (mkPlannedEventUpdate row.(event.eID) (Some (rendered F now fresh i ev s))) else None.
Proof.
  intros Hrow Hl Hk Hkn a. split; [by eapply listed_act|]. pose proof Hl as (Hi & Hty & Ht & Hs).
  destruct (elementOf_inside F now fresh F_nonzero (activeByKey allEvents) sequences i ev s) as (_ & H); [done..|].
  rewrite (proj2 (live_row _ row)) in H by done. unfold knownPlayer in Hkn. rewrite Hkn in H.
  destruct H as (_ & audit & H1 & H2 & H3). by exists audit.
Qed.

(** Conversely, votes and corrections come from such elements. *)
Lemma voted_from a :
  a ∈ acts → actVote a ≠ None ∨ actCorrection a ≠ None →
  ∃ row i ev s, live allEvents row ∧ listed i ev s ∧ naturalKeyOf ev s = row.(event.eNaturalKey) ∧
    knownPlayer ev = true ∧ a = elementOf F now fresh (activeByKey allEvents) sequences (i, ev).
Proof.
  intros Ha Hv. destruct (act_cases a Ha) as [(H1 & H2 & _)|(i & ev & s & Hl & ->)]; [by destruct Hv|].
  pose proof Hl as (Hi & Hty & Ht & Hs).
  destruct (elementOf_inside F now fresh F_nonzero (activeByKey allEvents) sequences i ev s) as (_ & H); [done..|].
  destruct (activeByKey allEvents !! _) as [row|] eqn:Hrow; [|destruct H as (H1 & H2 & _); by destruct Hv].
  apply live_row in Hrow as [Hlive Hk]. destruct H as [_ H]. fold (knownPlayer ev) in H.
  destruct (knownPlayer ev) eqn:Hkn; [|destruct H as [H1 H2]; by destruct Hv]. by exists row, i, ev, s.
Qed.

Lemma in_votes v :
  v ∈ plan.(apPresences) ↔
  ∃ row i ev s, live allEvents row ∧ listed i ev s ∧ naturalKeyOf ev s = row.(event.eNaturalKey) ∧
    knownPlayer ev = true ∧ v.(ppEventID) = row.(event.eID) ∧
    eventStableAudit row.(event.eID) F (rendered F now fresh i ev s) = Some v.(ppAudit).
Proof.
  destruct planOf_lists as (_ & -> & _). rewrite list_elem_of_omap. split.
  - intros (a & Ha & Hv). destruct (voted_from a Ha) as (row & i & ev & s & Hr & Hl & Hk & Hkn & ->); [left; congruence|].
    destruct (in_voted row i ev s Hr Hl Hk Hkn) as (_ & audit & Hau & Hv' & _). rewrite Hv in Hv'. injection Hv' as ->.
    by exists row, i, ev, s.
  - intros (row & i & ev & s & Hr & Hl & Hk & Hkn & Hid & Hau).
    destruct (in_voted row i ev s Hr Hl Hk Hkn) as (Hin' & audit & Hau' & Hv & _). eexists. split; [done|].
    rewrite Hv. destruct v. cbn in *. congruence.
Qed.

Lemma in_updates u :
  u ∈ plan.(apUpdates) ↔
  ∃ row i ev s, live allEvents row ∧ listed i ev s ∧ naturalKeyOf ev s = row.(event.eNaturalKey) ∧
    knownPlayer ev = true ∧ differs row (rendered F now fresh i ev s) ∧
    u = mkPlannedEventUpdate row.(event.eID) (Some (rendered F now fresh i ev s)).
Proof.
  destruct planOf_lists as (_ & _ & -> & _). rewrite list_elem_of_omap.
  setoid_rewrite <-MutableFieldsChanged_differs. split.
  - intros (a & Ha & Hv). destruct (voted_from a Ha) as (row & i & ev & s & Hr & Hl & Hk & Hkn & ->); [right; congruence|].
    destruct (in_voted row i ev s Hr Hl Hk Hkn) as (_ & audit & _ & _ & Hc). rewrite Hv in Hc.
    destruct (event.MutableFieldsChanged _ _) eqn:Hm; [|done]. injection Hc as ->. by exists row, i, ev, s.
  - intros (row & i & ev & s & Hr & Hl & Hk & Hkn & Hm & ->).
    destruct (in_voted row i ev s Hr Hl Hk Hkn) as (Hin' & audit & _ & _ & Hc). eexists. split; [done|].
    by rewrite Hc, Hm.
Qed.

(** The rows voted absent. *)
Lemma in_missed v :
  v ∈ plan.(apAbsences) ↔
  ∃ e, live allEvents e ∧ missing api sequences e ∧ event.Known e.(event.ePlayer) = true ∧
    ¬ scoreHolds api e ∧ v.(paEventID) = e.(event.eID) ∧ eventRemovedAudit e.(event.eID) F now = Some v.(paAudit).
Proof.
  destruct planOf_lists as (_ & _ & _ & -> & _). setoid_rewrite list_elem_of_omap. split.
  - intros (a & (e & Hl & Hm & ->)%elem_of_gone & Hv).
    destruct (absence_cases e) as [[_ H]|[(_ & _ & H)|(Hkn & Hns & audit & H & Hau)]];
      rewrite H in Hv; simplify_eq. exists e. by rewrite Hau.
  - intros (e & Hl & Hm & Hkn & Hns & Hid & Hau).
    destruct (absence_cases e) as [[? _]|[(_ & ? & _)|(_ & _ & audit & H & Hau')]]; [congruence|done|].
    pose proof (in_gone e Hl Hm) as Hg. rewrite H in Hg. eexists. split; [exact Hg|]. cbn. destruct v. cbn in *. congruence.
Qed.

(** ** Nobody is voted on twice *)

Lemma live_id_inj e e' :
  live allEvents e → live allEvents e' → e.(event.eID) = e'.(event.eID) → e = e'.
Proof. intros [H _] [H' _]. apply (NoDup_fmap_inj event.eID allEvents); [by destruct Hin|done..]. Qed.

Lemma presences_NoDup : NoDup (ppEventID <$> plan.(apPresences)).
Proof.
  destruct planOf_lists as (_ & -> & _). unfold acts. rewrite omap_fmap, fmap_omap.
  apply NoDup_omap; [by eapply NoDup_fmap_1, indexed_NoDup|].
  assert (∀ p id, p ∈ indexed api.(Events) →
    ppEventID <$> actVote (elementOf F now fresh (activeByKey allEvents) sequences p) = Some id →
    ∃ s e, trackableType p.2 ≠ "" ∧ api.(Events) !! p.1 = Some p.2 ∧ sequences !! p.1 = Some s ∧
      live allEvents e ∧ e.(event.eNaturalKey) = naturalKeyOf p.2 s ∧ e.(event.eID) = id) as H.
  { intros [i ev] id Hp%elem_of_indexed Hv. cbn [fst snd] in *.
    destruct (decide (trackableType ev = "")) as [Hty|Hty].
    { destruct (elementOf_outside F now fresh (activeByKey allEvents) sequences i ev (or_introl Hty))
        as (_ & H & _). cbn zeta in H. by rewrite H in Hv. }
    destruct (decide (ev.(EventTeam).(TeamID) = 0)) as [Ht|Ht].
    { destruct (elementOf_outside F now fresh (activeByKey allEvents) sequences i ev (or_intror Ht))
        as (_ & H & _). cbn zeta in H. by rewrite H in Hv. }
    destruct (sequence_of i ev Hp Hty) as [s Hs]. exists s.
    destruct (elementOf_inside F now fresh F_nonzero (activeByKey allEvents) sequences i ev s)
      as (_ & H); [done..|].
    destruct (activeByKey allEvents !! _) as [row|] eqn:Hrow; [|destruct H as [H _]; by rewrite H in Hv].
    apply live_row in Hrow as [Hl Hk]. exists row.
    destruct H as [_ H], (event.Known _); [|destruct H as [H _]; by rewrite H in Hv].
    destruct H as (audit & H & _). rewrite H in Hv. by simplify_eq/=. }
  intros [i ev] [j ev'] id Hi Hj Hvi Hvj.
  destruct (H _ _ Hi Hvi) as (s & e & _ & Hpi & Hsi & Hl & Hk & He).
  destruct (H _ _ Hj Hvj) as (s' & e' & _ & Hpj & Hsj & Hl' & Hk' & He'). simpl in *.
  assert (e = e') as <- by (apply live_id_inj; congruence).
  assert (i = j) as <- by (eapply same_key; [done..|congruence]). congruence.
Qed.

Lemma order_live p : p ∈ order → live allEvents p.2 ∧ p.2.(event.eNaturalKey) = p.1.
Proof.
  destruct p as [k e]. destruct Hin as [_ _ _ _ _ _ Ho]. rewrite Ho.
  intros H%elem_of_map_to_list. by apply live_row.
Qed.

(** A selection of the missing rows by their ids has no duplicates. *)
Lemma gone_NoDup {B} (select : absenceAction → option B) (id : B → UUID) :
  (∀ k e b, select (absenceOf F now (newScoreEventInventory api) k e) = Some b → id b = e.(event.eID)) →
  NoDup (id <$> omap select gone).
Proof.
  intros Hs. unfold gone. rewrite omap_fmap, fmap_omap. apply NoDup_omap.
  - apply NoDup_filter. destruct Hin as [_ _ _ _ _ _ Ho]. rewrite Ho. apply NoDup_map_to_list.
  - intros x y z [_ [Hx Hkx]%order_live]%list_elem_of_filter [_ [Hy Hky]%order_live]%list_elem_of_filter.
    intros (b & Hbx & ->)%fmap_Some (b' & Hby & Hz)%fmap_Some.
    assert (x.2 = y.2) as He.
    { apply live_id_inj; [done..|]. rewrite <-(Hs _ _ _ Hbx), <-(Hs _ _ _ Hby). done. }
    destruct x, y; simpl in *; congruence.
Qed.

Lemma decided_once :
  NoDup ((ppEventID <$> plan.(apPresences)) ++ (paEventID <$> plan.(apAbsences)) ++
    plan.(apUnknownDeletes)).
Proof.
  apply NoDup_app. split; [apply presences_NoDup|]. split.
  { intros id (e & Hl & <- & Hk)%in_presences [H|H]%elem_of_app.
    - apply in_absences in H as (e' & Hl' & He & Hm & _).
      rewrite (live_id_inj e' e) in Hm by done. by apply (Hm true).
    - apply in_deletes in H as (e' & Hl' & He & Hm & _).
      rewrite (live_id_inj e' e) in Hm by done. by apply (Hm true). }
  destruct planOf_lists as (_ & _ & _ & Ha & Hd & _).
  apply NoDup_app. split; [|split].
  - rewrite Ha. apply gone_NoDup. intros k e b. unfold absenceOf.
    destruct (negb _); [done|]. destruct (_ && _); [done|].
    unfold eventRemovedAudit. rewrite New_event_scoped by (done || apply F_nonzero). by intros [= <-].
  - intros id (e & Hl & <- & _ & Hk & _)%in_absences (e' & Hl' & He & _ & Hk')%in_deletes.
    rewrite (live_id_inj e' e) in Hk' by done. congruence.
  - rewrite Hd, <-(list_fmap_id (omap _ gone)). apply gone_NoDup. intros k e b. unfold absenceOf.
    destruct (negb _); [by intros [= <-]|]. destruct (_ && _); [done|]. by destruct (eventRemovedAudit _ _ _).
Qed.

(** A correction goes with the vote of its row. *)
Lemma corrections_sublist (l : list (nat * APIFixtureEvent)) :
  let f := elementOf F now fresh (activeByKey allEvents) sequences in
  (puEventID <$> omap actCorrection (f <$> l)) `sublist_of` (ppEventID <$> omap actVote (f <$> l)).
Proof.
  cbn zeta. induction l as [|[i ev] l IH]; [done|]. cbn [fmap list_fmap omap list_omap].
  set (a := elementOf _ _ _ _ _ (i, ev)).
  assert (match actCorrection a with
    | Some u => ∃ v, actVote a = Some v ∧ ppEventID v = puEventID u | None => True end) as Ha.
  { unfold a, elementOf. repeat case_match; try done; cbn; try done; simplify_eq/=; eauto;
      repeat case_match; simplify_eq/=; eauto. }
  destruct (actCorrection a) as [u|].
  - destruct Ha as (v & -> & Hv). cbn. rewrite Hv. by apply sublist_skip.
  - destruct (actVote a); [by apply sublist_cons|done].
Qed.

Lemma updates_NoDup : NoDup (puEventID <$> plan.(apUpdates)).
Proof.
  pose proof presences_NoDup as Hn. destruct planOf_lists as (_ & Hv & -> & _). rewrite Hv in Hn.
  eapply sublist_NoDup; [exact Hn|]. apply corrections_sublist.
Qed.

Definition insertKey (op : PlannedEventInsert) : option string := event.eNaturalKey <$> op.(piEvent).

Lemma inserts_NoDup : NoDup (insertKey <$> plan.(apInserts)).
Proof.
  destruct planOf_lists as (-> & _). unfold acts. rewrite omap_fmap, fmap_omap.
  apply NoDup_omap; [by eapply NoDup_fmap_1, indexed_NoDup|].
  assert (∀ p k, p ∈ indexed api.(Events) →
    insertKey <$> actInsert (elementOf F now fresh (activeByKey allEvents) sequences p) = Some k →
    ∃ s, listed p.1 p.2 s ∧ k = Some (naturalKeyOf p.2 s)) as H.
  { intros [i ev] k Hp%elem_of_indexed Hv. cbn [fst snd] in *.
    destruct (act_cases (elementOf F now fresh (activeByKey allEvents) sequences (i, ev))) as
      [(_ & _ & H)|_]; [apply elem_of_acts; by exists i, ev|by rewrite H in Hv|].
    destruct (decide (trackableType ev = "")) as [Hty|Hty].
    { destruct (elementOf_outside F now fresh (activeByKey allEvents) sequences i ev (or_introl Hty))
        as (_ & _ & _ & H). cbn zeta in H. by rewrite H in Hv. }
    destruct (decide (ev.(EventTeam).(TeamID) = 0)) as [Ht|Ht].
    { destruct (elementOf_outside F now fresh (activeByKey allEvents) sequences i ev (or_intror Ht))
        as (_ & _ & _ & H). cbn zeta in H. by rewrite H in Hv. }
    destruct (sequence_of i ev Hp Hty) as [s Hs]. exists s. split; [done|].
    destruct (elementOf_inside F now fresh F_nonzero (activeByKey allEvents) sequences i ev s) as (_ & H); [done..|].
    destruct (activeByKey allEvents !! _); [destruct H as [H _]; by rewrite H in Hv|].
    destruct H as (_ & _ & H). rewrite H in Hv. by injection Hv as <-. }
  intros [i ev] [j ev'] k Hi Hj Hvi Hvj.
  destruct (H _ _ Hi Hvi) as (s & (Hpi & _ & _ & Hsi) & ->), (H _ _ Hj Hvj) as (s' & (Hpj & _ & _ & Hsj) & Hk).
  injection Hk as Hk. cbn [fst snd] in *. assert (i = j) as <- by (by eapply same_key). congruence.
Qed.

(** What a plan carries besides its lists. *)
Lemma planOf_frame :
  plan.(apGuard) = guardOf inp ∧ plan.(apFixture) = Some (observedFixture stored api inp.(riObservedAt)) ∧
  plan.(apBaselineExists) = true ∧ plan.(apBaselineLastPolled) = stored.(fixture.fLastPolledAt) ∧
  plan.(apLocalPolicy) =
    (AssessFixture (providerFixtureComparison stored allEvents api sequences)).(fvPolicy) ∧
  plan.(apWorkflowID) = inp.(riWorkflowID) ∧ plan.(apCompletion) = completionPlan grace now api.
Proof.
  unfold plan, result, planOf. fold api F.
  destruct (planElements_fold F now fresh (activeByKey allEvents) sequences
    (indexed api.(Events)) (planStart grace now inp stored allEvents sequences)) as (Hp & _).
  set (st := foldl (planElement _ _ _ _ _) _ _) in *.
  destruct (planAbsences_fold F now (newScoreEventInventory api) order st) as (-> & _ & _).
  rewrite Hp. done.
Qed.
End spec.

(** The response and the rows, and what the plan makes of the difference.  The first
    group says which rows and keys a plan is about, the second that each entry of it is
    the whole consequence of one row or one element, and the last what it carries. *)
Record planDifference (grace : Duration) (now : Time) (fresh : nat → UUID) (inp : ReconcileFixtureInput)
    (stored : fixture.Fixture) (allEvents : list event.Event) (sequences : gmap nat Z)
    (result : planning) : Prop := {
  df_present id : id ∈ ppEventID <$> result.(pnPlan).(apPresences) ↔
    ∃ e, live allEvents e ∧ e.(event.eID) = id ∧
      inResponse inp.(riAPIFixture) sequences e.(event.eNaturalKey) true;
  df_absent id : id ∈ paEventID <$> result.(pnPlan).(apAbsences) ↔
    ∃ e, live allEvents e ∧ e.(event.eID) = id ∧ missing inp.(riAPIFixture) sequences e ∧
      event.Known e.(event.ePlayer) = true ∧ ¬ scoreHolds inp.(riAPIFixture) e;
  df_deleted id : id ∈ result.(pnPlan).(apUnknownDeletes) ↔
    ∃ e, live allEvents e ∧ e.(event.eID) = id ∧ missing inp.(riAPIFixture) sequences e ∧
      event.Known e.(event.ePlayer) = false;
  df_held k : k ∈ result.(pnOut).(oGoalAbsencesHeld) ↔
    ∃ e, live allEvents e ∧ e.(event.eNaturalKey) = k ∧ missing inp.(riAPIFixture) sequences e ∧
      event.Known e.(event.ePlayer) = true ∧ scoreHolds inp.(riAPIFixture) e;
  df_inserted op : op ∈ result.(pnPlan).(apInserts) ↔
    ∃ i ev s, listed inp sequences i ev s ∧
      (∀ e, live allEvents e → e.(event.eNaturalKey) ≠ naturalKeyOf ev s) ∧
      op = mkPlannedEventInsert (Some (rendered stored.(fixture.fID) now fresh i ev s))
        (if knownPlayer ev
         then eventDetectedAudit (fresh i) stored.(fixture.fID) (rendered stored.(fixture.fID) now fresh i ev s)
         else None);
  df_corrected u : u ∈ result.(pnPlan).(apUpdates) ↔
    ∃ row i ev s, live allEvents row ∧ listed inp sequences i ev s ∧
      naturalKeyOf ev s = row.(event.eNaturalKey) ∧ knownPlayer ev = true ∧
      differs row (rendered stored.(fixture.fID) now fresh i ev s) ∧
      u = mkPlannedEventUpdate row.(event.eID) (Some (rendered stored.(fixture.fID) now fresh i ev s));
  df_votes v : v ∈ result.(pnPlan).(apPresences) ↔
    ∃ row i ev s, live allEvents row ∧ listed inp sequences i ev s ∧
      naturalKeyOf ev s = row.(event.eNaturalKey) ∧ knownPlayer ev = true ∧
      v.(ppEventID) = row.(event.eID) ∧
      eventStableAudit row.(event.eID) stored.(fixture.fID) (rendered stored.(fixture.fID) now fresh i ev s) =
        Some v.(ppAudit);
  df_misses v : v ∈ result.(pnPlan).(apAbsences) ↔
    ∃ e, live allEvents e ∧ missing inp.(riAPIFixture) sequences e ∧ event.Known e.(event.ePlayer) = true ∧
      ¬ scoreHolds inp.(riAPIFixture) e ∧ v.(paEventID) = e.(event.eID) ∧
      eventRemovedAudit e.(event.eID) stored.(fixture.fID) now = Some v.(paAudit);
  df_once : NoDup ((ppEventID <$> result.(pnPlan).(apPresences)) ++
    (paEventID <$> result.(pnPlan).(apAbsences)) ++ result.(pnPlan).(apUnknownDeletes));
  df_corrected_once : NoDup (puEventID <$> result.(pnPlan).(apUpdates));
  df_inserted_once : NoDup (insertKey <$> result.(pnPlan).(apInserts));
  df_frame : result.(pnPlan).(apGuard) = guardOf inp ∧
    result.(pnPlan).(apFixture) = Some (observedFixture stored inp.(riAPIFixture) inp.(riObservedAt)) ∧
    result.(pnPlan).(apBaselineExists) = true ∧
    result.(pnPlan).(apBaselineLastPolled) = stored.(fixture.fLastPolledAt) ∧
    result.(pnPlan).(apLocalPolicy) =
      (AssessFixture (providerFixtureComparison stored allEvents inp.(riAPIFixture) sequences)).(fvPolicy) ∧
    result.(pnPlan).(apWorkflowID) = inp.(riWorkflowID) ∧
    result.(pnPlan).(apCompletion) = completionPlan grace now inp.(riAPIFixture) }.

(** C9: The plan of a reconciliation is exactly the difference between the live rows
    and the response.  A live row is voted present when the response lists its key
    with a known player, and then corrected exactly when its assist, minute, extra or
    detail differ from what is listed; a live row whose key the response does not list
    is deleted when it is a placeholder, held when it is a goal of a team whose
    reported score exceeds the goals the response lists, and voted absent otherwise; a
    new row, as the response describes it, is planned for each listed key that no live
    row has.  Each of the five lists contains exactly these entries, with their audit
    records, and no row is decided on or corrected twice and no key inserted twice.  The
    rest of the plan is the observed fixture, what was known when it was read, the local
    verdict's policy, and the completion check.  No order in which the code's map is
    visited makes a difference to this. *)
Theorem plan_refines_response grace now fresh inp stored allEvents sequences order :
  planned stored allEvents inp.(riAPIFixture) sequences order →
  planDifference grace now fresh inp stored allEvents sequences
    (planOf grace now fresh inp stored allEvents sequences order).
Proof.
  intros Hin. pose proof (observedFixture_id inp stored inp.(riObservedAt)) as HF. split.
  - by apply in_presences.
  - by apply in_absences.
  - by apply in_deletes.
  - by apply in_held.
  - rewrite <-HF. by apply in_inserts.
  - rewrite <-HF. by apply in_updates.
  - rewrite <-HF. by apply in_votes.
  - rewrite <-HF. by apply in_missed.
  - by apply decided_once.
  - by eapply updates_NoDup.
  - by eapply inserts_NoDup.
  - apply planOf_frame.
Qed.
End planning.
