(* ===== verification/Activity.v ===== *)
(** An activity of a worker: transactions against the tables and requests to the
    workflow service, with other workers' transactions in between.

    The code of an activity is a value of [act]; what a run of it may do is the
    relation [runs], and [exec] runs it alone.  A transaction may fail for any
    reason, and may commit although the activity is told that it failed. *)
From S2P Require Import Prelude GoStrings Fixture Event Integrity Health Auditlog Plan Discovery Store Mutation Commit Guarantees Preserve Events Fixtures World.
#[local] Open Scope string_scope.
#[local] Open Scope list_scope.
#[local] Open Scope Z_scope.
Import providerintegrity health mutation discoverycontract pg boundary commit guarantees preserve world.

Module activity.

(** ** Programs *)

Inductive act (A : Type) : Type :=
  | answer (a : A)
  | transact {R : Type} (tx : env → Tx R) (k : string + R → act A)
  | spawn (workflowID : string) (input : EventWorkflowInput) (k : option string → act A).
Arguments answer {A} a.
Arguments transact {A R} tx k.
Arguments spawn {A} workflowID input k.

#[global] Instance act_ret : MRet act := λ A a, answer a.
#[global] Instance act_bind : MBind act := λ A B f,
  fix bind p := match p with
    | answer a => f a
    | transact tx k => transact tx (λ r, bind (k r))
    | spawn w i k => spawn w i (λ e, bind (k e))
    end.

(** One transaction, with its error as a value. *)
Definition call {R : Type} (tx : env → Tx R) : act (string + R) := transact tx answer.

Definition start (workflowID : string) (input : EventWorkflowInput) : act (option string) :=
  spawn workflowID input answer.

Fixpoint loop {S X : Type} (body : S → X → act S) (s : S) (xs : list X) : act S :=
  match xs with
  | [] => mret s
  | x :: xs => s ← body s x; loop body s xs
  end.

(** ** Runs *)

(** What an activity did, in order: a transaction, with the tables before and
    after it, or a request to start a workflow, with its error. *)
Inductive label :=
  | tried (before after : DB)
  | spawned (workflowID : string) (input : EventWorkflowInput) (err : option string).

(** The answer the activity gets and the tables it leaves. *)
Definition outcome {R : Type} (tx : env → Tx R) (db : DB) (res : string + R) (db' : DB) : Prop :=
  (∃ v r, tx v db = inr (r, db') ∧ (res = inr r ∨ ∃ err, res = inl err)) ∨
  (db' = db ∧ ∃ err, res = inl err).

Section runs.
Context (interferes : relation DB).

Fixpoint runs {A : Type} (p : act A) (db : DB) (trace : list label) (a : A) (db' : DB) : Prop :=
  ∃ db0, rtc interferes db db0 ∧
    match p with
    | answer x => trace = [] ∧ a = x ∧ db' = db0
    | transact tx k => ∃ res db1 trace', outcome tx db0 res db1 ∧
        trace = tried db0 db1 :: trace' ∧ runs (k res) db1 trace' a db'
    | spawn w i k => ∃ err trace', trace = spawned w i err :: trace' ∧ runs (k err) db0 trace' a db'
    end.

Lemma runs_bind {A B} (p : act A) (f : A → act B) db trace b db' :
  runs (p ≫= f) db trace b db' →
  ∃ a db1 t1 t2, runs p db t1 a db1 ∧ runs (f a) db1 t2 b db' ∧ trace = t1 ++ t2.
Proof.
  revert db trace. induction p as [a|R tx k IH|w i k IH]; intros db trace.
  - intros H. exists a, db, [], trace. split; [by exists db|done].
  - intros (db0 & H0 & res & db1 & trace' & Ho & -> & H).
    apply IH in H as (a & dbm & t1 & t2 & H1 & H2 & ->).
    exists a, dbm, (tried db0 db1 :: t1), t2. split; [|done].
    exists db0. split; [done|]. by exists res, db1, t1.
  - intros (db0 & H0 & err & trace' & -> & H).
    apply IH in H as (a & dbm & t1 & t2 & H1 & H2 & ->).
    exists a, dbm, (spawned w i err :: t1), t2. split; [|done].
    exists db0. split; [done|]. by exists err, t1.
Qed.

Lemma runs_ret {A} (x : A) db trace a db' :
  runs (mret x) db trace a db' → trace = [] ∧ a = x ∧ rtc interferes db db'.
Proof. by intros (db0 & H0 & -> & -> & ->). Qed.

Lemma runs_call {R} (tx : env → Tx R) db trace res db' :
  runs (call tx) db trace res db' →
  ∃ db0 db1, rtc interferes db db0 ∧ outcome tx db0 res db1 ∧ trace = [tried db0 db1] ∧
    rtc interferes db1 db'.
Proof.
  intros (db0 & H0 & r & db1 & t & Ho & -> & (db2 & H2 & -> & -> & ->)). by exists db0, db1.
Qed.

Lemma runs_start w i db trace err db' :
  runs (start w i) db trace err db' → trace = [spawned w i err] ∧ rtc interferes db db'.
Proof.
  intros (db0 & H0 & e & t & -> & (db2 & H2 & -> & -> & ->)). split; [done|by trans db0].
Qed.

(** ** A property of every run's trace *)

Definition always {A} (Q : list label → Prop) (p : act A) : Prop :=
  ∀ db trace a db', runs p db trace a db' → Q trace.

Lemma always_bind {A B} Q (p : act A) (f : A → act B) :
  (∀ t1 t2, Q t1 → Q t2 → Q (t1 ++ t2)) →
  always Q p → (∀ a, always Q (f a)) → always Q (p ≫= f).
Proof.
  intros HQ Hp Hf db trace b db' (a & db1 & t1 & t2 & H1 & H2 & ->)%runs_bind.
  apply HQ; [by eapply Hp|by eapply Hf].
Qed.

Lemma always_ret {A} Q (x : A) : Q [] → always Q (mret x).
Proof. by intros HQ db trace a db' (-> & _)%runs_ret. Qed.

Lemma always_loop {S X} Q (body : S → X → act S) s xs :
  Q [] → (∀ t1 t2, Q t1 → Q t2 → Q (t1 ++ t2)) → (∀ s x, always Q (body s x)) →
  always Q (loop body s xs).
Proof.
  intros H0 HQ Hb. revert s. induction xs as [|x xs IH]; intros s; [by apply always_ret|].
  by apply always_bind.
Qed.

(** ** A property of every run's result *)

Definition returns {A} (I : A → Prop) (p : act A) : Prop :=
  ∀ db trace a db', runs p db trace a db' → I a.

Lemma returns_bind {A B} (I : B → Prop) (p : act A) (f : A → act B) :
  (∀ a, returns I (f a)) → returns I (p ≫= f).
Proof. intros Hf db trace b db' (a & db1 & t1 & t2 & _ & H & _)%runs_bind. by eapply Hf. Qed.

Lemma returns_after {A B} (I : A → Prop) (J : B → Prop) (p : act A) (f : A → act B) :
  returns I p → (∀ a, I a → returns J (f a)) → returns J (p ≫= f).
Proof.
  intros Hp Hf db trace b db' (a & db1 & t1 & t2 & H1 & H & _)%runs_bind.
  eapply Hf; [by eapply Hp|exact H].
Qed.

Lemma returns_ret {A} (I : A → Prop) (x : A) : I x → returns I (mret x).
Proof. by intros HI db trace a db' (_ & -> & _)%runs_ret. Qed.

Lemma returns_loop {S X} (I : S → Prop) (body : S → X → act S) s xs :
  I s → (∀ s x, I s → returns I (body s x)) → returns I (loop body s xs).
Proof.
  intros Hs Hb. revert s Hs. induction xs as [|x xs IH]; intros s Hs; [by apply returns_ret|].
  by apply (returns_after I); [apply Hb|].
Qed.
End runs.

(** ** Workers *)

(** Every transaction only reads, or is an action of the system. *)
Fixpoint worker {A : Type} (l : limits) (p : act A) : Prop :=
  match p with
  | answer _ => True
  | transact tx k =>
      (∀ v db r db', tx v db = inr (r, db') → db' = db ∨ happens l db db') ∧
      ∀ res, worker l (k res)
  | spawn _ _ k => ∀ err, worker l (k err)
  end.

Lemma worker_bind {A B} l (p : act A) (f : A → act B) :
  worker l p → (∀ a, worker l (f a)) → worker l (p ≫= f).
Proof.
  intros Hp Hf. induction p as [a|R tx k IH|w i k IH]; [apply Hf|..].
  - destruct Hp as [Ht Hk]. split; [done|]. intros res. by apply IH.
  - intros err. by apply IH.
Qed.

Lemma worker_loop {S X} l (body : S → X → act S) s xs :
  (∀ s x, worker l (body s x)) → worker l (loop body s xs).
Proof.
  intros Hb. revert s. induction xs as [|x xs IH]; intros s; [done|]. by apply worker_bind.
Qed.

Lemma worker_call {R} l (tx : env → Tx R) :
  (∀ v db r db', tx v db = inr (r, db') → db' = db ∨ happens l db db') → worker l (call tx).
Proof. by split. Qed.

(** A run among workers is a history of the system. *)
Lemma worker_runs {A} l (p : act A) db trace a db' :
  worker l p → runs (happens l) p db trace a db' → rtc (happens l) db db'.
Proof.
  revert db trace. induction p as [x|R tx k IH|w i k IH]; intros db trace Hw.
  - by intros (db0 & H0 & _ & _ & ->).
  - destruct Hw as [Ht Hk]. intros (db0 & H0 & res & db1 & t & Ho & _ & H).
    trans db0; [done|]. trans db1; [|by eapply IH].
    destruct Ho as [(v & r & Hr & _)|[-> _]]; [|done].
    destruct (Ht _ _ _ _ Hr) as [->|?]; [done|by apply rtc_once].
  - intros (db0 & H0 & err & t & _ & H). trans db0; [done|]. by eapply IH.
Qed.

(** ** Reads and actions *)

Definition reads {R} (tx : Tx R) : Prop := ∀ db r db', tx db = inr (r, db') → db' = db.

Lemma reads_worker {R} l (tx : Tx R) : reads tx → worker l (call (λ _, tx)).
Proof. intros H. apply worker_call. intros v db r db' Hr. left. by eapply H. Qed.

(** A transaction that is, up to its answer, an action of the system. *)
Lemma action_worker {R} l (tx : env → Tx R) :
  (∀ v, ∃ w act, proper act ∧ ∀ db r db', tx v db = inr (r, db') →
     ∃ u, perform l w act db = inr (u, db')) →
  worker l (call tx).
Proof.
  intros H. apply worker_call. intros v db r db' Hr. right.
  destruct (H v) as (w & act & Hp & Ha). destruct (Ha _ _ _ Hr) as [u Hu]. by econstructor.
Qed.

Lemma discard_of {R} (tx : Tx R) db r db' : tx db = inr (r, db') → discard tx db = inr (tt, db').
Proof. intros H. unfold discard. by rewrite (bind_run _ _ _ _ _ H). Qed.

(** [w] is the action's environment and [o] the action. *)
Ltac acts w o :=
  let Hr := fresh "Hr" in
  apply action_worker; intros v; exists w, o; (split; [done|]); intros db r db' Hr;
  exists tt; cbn; first [by apply (discard_of _ _ r)|by destruct r].

Lemma Get_reads id : reads (fixturerepo.Get id).
Proof. intros db r db' H. unfold fixturerepo.Get in H. by apply lockedFixture_inv in H as [? ->]. Qed.

Lemma eventsWhere_reads p ord : reads (eventsWhere p ord).
Proof. intros db r db' H. unfold eventsWhere in H. tx_inv. done. Qed.

Lemma eventGet_reads id : reads (eventrepo.Get id).
Proof. intros db r db' H. unfold eventrepo.Get in H. tx_inv. by case_match; tx_inv. Qed.

Lemma Assess_reads id t : reads (fixturerepo.AssessCompletion id t).
Proof.
  intros db r db' H. unfold fixturerepo.AssessCompletion in H.
  apply bind_inv in H as (f & db1 & Hf & H). apply Get_reads in Hf as ->. by tx_inv.
Qed.

Lemma fixturesWhere_reads p ord : reads (fixturesWhere p ord).
Proof. intros db r db' H. unfold fixturesWhere in H. tx_inv. done. Qed.

(** ** Running alone *)

(** [v] is the environment of the transactions, [reply] the workflow service. *)
Fixpoint exec {A : Type} (v : env) (reply : string → option string) (p : act A) (db : DB)
    : A * DB * list label :=
  match p with
  | answer a => (a, db, [])
  | transact tx k =>
      let '(res, db1) := match tx v db with inl err => (inl err, db) | inr (r, db1) => (inr r, db1) end in
      let '(a, db', t) := exec v reply (k res) db1 in (a, db', tried db db1 :: t)
  | spawn w i k =>
      let '(a, db', t) := exec v reply (k (reply w)) db in (a, db', spawned w i (reply w) :: t)
  end.

(** Running alone is one of the runs. *)
Lemma exec_runs {A} interferes v reply (p : act A) db :
  runs interferes p db (exec v reply p db).2 (exec v reply p db).1.1 (exec v reply p db).1.2.
Proof.
  revert db. induction p as [x|R tx k IH|w i k IH]; intros db; cbn.
  - by exists db.
  - exists db. split; [done|]. destruct (tx v db) as [err|[r db1]] eqn:Ht.
    + exists (inl err), db. specialize (IH (inl err) db). destruct (exec v reply (k (inl err)) db) as [[a db'] t].
      exists t. split; [right; by eauto|]. by split.
    + exists (inr r), db1. specialize (IH (inr r) db1). destruct (exec v reply (k (inr r)) db1) as [[a db'] t].
      exists t. split; [left; by eauto 6|]. by split.
  - exists db. split; [done|]. exists (reply w). specialize (IH (reply w) db).
    destruct (exec v reply (k (reply w)) db) as [[a db'] t]. exists t. by split.
Qed.
End activity.
