(* ===== verification/Reconcile.v ===== *)
(** internal/activity/monitor, the reconciliation activities: ReconcileFixture with
    its guarded and its legacy path, the registration and start of the discovery
    workflow (emission.go), the health collection (provider_health.go) and the
    fetch (reconcile.go).

    Error values keep the code's prefix; the formatted arguments are left out.
    The repositories carry the audited methods, as they do in production, so the
    interface assertions of emission.go cannot fail. *)
From S2P Require Import Prelude GoStrings ApiFootball Fixture Event Identity Integrity Health Auditlog Presentation Plan Discovery Store Mutation Commit Guarantees Preserve Events Fixtures HealthRepo World Planning Activity.
#[local] Open Scope string_scope.
#[local] Open Scope list_scope.
#[local] Open Scope Z_scope.
Import apifootball providerintegrity health mutation discoverycontract pg boundary commit guarantees preserve world monitor planning activity.

Module reconcile.

(** The dependencies the activities are built with, as far as the code branches on
    them. *)
Record Activities := mkActivities {
  aProviderMutations : bool;
  aSpawner : bool;
  aTerminalGracePeriod : Duration }.

(** [text] renders a UUID, [fresh] draws the ids of new events, [iterate] is the
    order in which Go visits a map. *)
Section activities.
Context (a : Activities) (text : UUID → string) (fresh : nat → UUID).
Context (iterate : gmap string event.Event → list (string * event.Event)).

(** ** emission.go *)

Definition registerAndSpawnEvent (existing domainEv : event.Event) (fixtureID : Z)
    : act (option string) :=
  if negb a.(aSpawner) then mret None
  else if negb (event.Known domainEv.(event.ePlayer)) then mret None
  else
    let workflowID := "event-" +:+ text existing.(event.eID) in
    registered ← call (λ _, eventrepo.RegisterDownstreamWorkflow existing.(event.eID) "discovery" workflowID);
    match registered with
    | inl _ => mret (Some "register downstream")
    | inr _ =>
        err ← start workflowID (mkEventWorkflowInput existing.(event.eID) fixtureID
          (playerName domainEv.(event.ePlayer)) domainEv.(event.eTeam).(event.tName)
          domainEv.(event.eTeam).(event.tID) domainEv.(event.eMinute) domainEv.(event.eExtra)
          existing.(event.eFirstSeenAt));
        mret (match err with Some _ => Some "spawn downstream" | None => None end)
    end.

Definition addErrorIf (prefix : string) (err : option string) (out : ReconcileFixtureOutput)
    : ReconcileFixtureOutput :=
  match err with Some _ => addError prefix out | None => out end.

(** Registers and starts again for every event still waiting for its discovery. *)
Definition recoverAwaiting (fixtureID : Z) (out : ReconcileFixtureOutput) : act ReconcileFixtureOutput :=
  awaiting ← call (λ _, eventrepo.EventsAwaitingDiscovery fixtureID);
  match awaiting with
  | inl _ => mret (addError "awaiting-discovery" out)
  | inr events =>
      loop (λ out ev,
        err ← registerAndSpawnEvent ev ev fixtureID;
        mret (addErrorIf "recover event" err out)) out events
  end.

(** ** reconcile_guarded.go *)

(** [loadErr] is the [err] of the enclosing function: a failed load leaves it set
    for the iterations after it. *)
Definition spawnStable (fixtureID : Z) (byID : gmap UUID event.Event)
    (st : ReconcileFixtureOutput * option string) (id : UUID)
    : act (ReconcileFixtureOutput * option string) :=
  let '(out, loadErr) := st in
  found ← match byID !! id with
          | Some ev => mret (Some ev, loadErr)
          | None =>
              loaded ← call (λ _, eventrepo.Get id);
              mret (match loaded with inl err => (None, Some err) | inr ev => (Some ev, None) end)
          end;
  match found with
  | (Some ev, None) =>
      let out := out <| oEventsBecameStable ::= λ l, l ++ [ev.(event.eNaturalKey)] |> in
      err ← registerAndSpawnEvent ev ev fixtureID;
      mret (addErrorIf "spawn event" err out, None)
  | (_, loadErr) => mret (addError "load stable event" out, loadErr)
  end.

(** The keys of the events that are at hand. *)
Definition keysOf (byID : gmap UUID event.Event) (ids : list UUID) : list string :=
  omap (λ id, event.eNaturalKey <$> byID !! id) ids.

Definition reportCommit (result : MutationResult) (out : ReconcileFixtureOutput)
    : ReconcileFixtureOutput :=
  out <| oMutationPolicy := result.(mrPolicy) |> <| oMutationDecision := result.(mrDecision) |>
      <| oMutationApplied := result.(mrApplied) |> <| oMutationStale := result.(mrStale) |>.

Definition reportEffects (result : MutationResult) (out : ReconcileFixtureOutput)
    : ReconcileFixtureOutput :=
  out <| oNewEventsDetected := Z.of_nat (length result.(mrInsertedEventIDs)) |>
      <| oNewNamedEventIDs := result.(mrNewNamedEventIDs) |>
      <| oEventsRemovedIDs := result.(mrRemovedEventIDs) |>
      <| oUnknownDropped := result.(mrUnknownDropped) |>
      <| oCompleted := result.(mrCompleted) |>.

(** After a commit that was not stale. *)
Definition followCommit (fixtureID : Z) (byID : gmap UUID event.Event) (result : MutationResult)
    (out : ReconcileFixtureOutput) : act ReconcileFixtureOutput :=
  st ← loop (spawnStable fixtureID byID) (reportEffects result out, None) result.(mrStableEventIDs);
  let out := st.1 <| oEventsRemoved := keysOf byID result.(mrRemovedEventIDs) |> in
  out ← recoverAwaiting fixtureID out;
  mret (classifyGuardedFeed out result).

Definition reconcileGuarded (inp : ReconcileFixtureInput) (now : Time)
    : act (ReconcileFixtureOutput * option string) :=
  let api := inp.(riAPIFixture) in
  let out := emptyOutput api.(Fixture).(FixtureID) in
  if (inp.(riPollID) =? "")%string || IsZero inp.(riObservedAt)
  then mret (out, Some "guarded observation token is required")
  else
    stored ← call (λ _, fixturerepo.Get api.(Fixture).(FixtureID));
    match stored with
    | inl _ => mret (out, Some "get fixture")
    | inr stored =>
        allEvents ← call (λ _, eventrepo.ListAllByFixture stored.(fixture.fID));
        match allEvents with
        | inl _ => mret (out, Some "list fixture event history")
        | inr allEvents =>
            match assignedSequences api allEvents with
            | None => mret (out, Some "assign event identities")
            | Some sequences =>
                let planned := planOf a.(aTerminalGracePeriod) now fresh inp stored allEvents sequences
                  (iterate (activeByKey allEvents)) in
                result ← call (λ v, ApplyActive v.(eNow) v.(eClock) text v.(eMode) planned.(pnPlan));
                match result with
                | inl _ => mret (planned.(pnOut), Some "guarded commit")
                | inr result =>
                    let out := reportCommit result planned.(pnOut) in
                    if result.(mrStale) then mret (out, None)
                    else
                      out ← followCommit stored.(fixture.fID) planned.(pnByID) result out;
                      mret (out, None)
                end
            end
        end
    end.

(** ** reconcile.go *)

(** Which feed route the refreshed fixture asks for. *)
Definition classifyRefresh (before f : fixture.Fixture) (out : ReconcileFixtureOutput)
    : ReconcileFixtureOutput :=
  let previous := fixturepresentation.From_ before.(fixture.fAPIStatus) before.(fixture.fAPIElapsed)
    before.(fixture.fAPIExtra) in
  let out := out <| oPresentation := fixturepresentation.From_ f.(fixture.fAPIStatus)
    f.(fixture.fAPIElapsed) f.(fixture.fAPIExtra) |> in
  let out := if negb (fixturepresentation.Equal previous out.(oPresentation)) then
      if (previous.(fixturepresentation.prPresentationState) =?
          out.(oPresentation).(fixturepresentation.prPresentationState))%string
      then markStatus out else markUpdate out
    else out in
  if timePtrChanged before.(fixture.fTerminalObservedAt) f.(fixture.fTerminalObservedAt) ||
    negb (before.(fixture.fKickoff) =? f.(fixture.fKickoff)) ||
    negb (bool_decide (before.(fixture.fHome) = f.(fixture.fHome))) ||
    negb (bool_decide (before.(fixture.fAway) = f.(fixture.fAway))) ||
    negb (bool_decide (before.(fixture.fLeague) = f.(fixture.fLeague))) ||
    intPtrChanged before.(fixture.fHomeScore) f.(fixture.fHomeScore) ||
    intPtrChanged before.(fixture.fAwayScore) f.(fixture.fAwayScore) ||
    intPtrChanged before.(fixture.fHomePenalty) f.(fixture.fHomePenalty) ||
    intPtrChanged before.(fixture.fAwayPenalty) f.(fixture.fAwayPenalty) ||
    boolPtrChanged before.(fixture.fHomeWinner) f.(fixture.fHomeWinner) ||
    boolPtrChanged before.(fixture.fAwayWinner) f.(fixture.fAwayWinner)
  then markUpdate out else out.

(** A stored event listed again: the vote, the start of its discovery when the vote
    triggered it, and the correction of its mutable fields. *)
Definition voteElement (fixtureID : Z) (workflowID : string) (key : string)
    (existing fresh : event.Event) (vote : PlannedEventPresence)
    (correction : option PlannedEventUpdate) (out : ReconcileFixtureOutput)
    : act ReconcileFixtureOutput :=
  voted ← call (λ v, eventrepo.RegisterEventPresenceWithAudit v.(eNow) vote.(ppEventID) workflowID
    vote.(ppAudit));
  match voted with
  | inl _ => mret (addError "presence event" out)
  | inr (_, justTriggered) =>
      out ← (if justTriggered : bool then
               err ← registerAndSpawnEvent existing fresh fixtureID;
               mret (addErrorIf "spawn event" err
                 (markUpdate (out <| oEventsBecameStable ::= λ l, l ++ [key] |>)))
             else mret out);
      match correction with
      | None => mret out
      | Some _ =>
          updated ← call (λ v, eventrepo.UpdateMutableFields v.(eNow) existing.(event.eID) fresh);
          mret (match updated with
                | inl _ => addError "update mutable event" out | inr _ => markUpdate out end)
      end
  end.

(** A listed event without a live row. *)
Definition insertElement (workflowID : string) (op : PlannedEventInsert) (fresh : event.Event)
    (out : ReconcileFixtureOutput) : act ReconcileFixtureOutput :=
  inserted ← call (λ v, match op.(piAudit) with
                        | Some audit => eventrepo.InsertWithAudit v.(eNow) fresh workflowID audit
                        | None => eventrepo.Insert v.(eNow) fresh workflowID end);
  mret (match inserted with
        | inl _ => addError "insert event" out
        | inr _ =>
            let out := markUpdate (out <| oNewEventsDetected ::= λ n, n + 1 |>) in
            if event.Known fresh.(event.ePlayer)
            then out <| oNewNamedEventIDs ::= λ l, l ++ [fresh.(event.eID)] |> else out
        end).

Definition legacyElement (fixtureID : Z) (workflowID : string) (now : Time)
    (pgByKey : gmap string event.Event) (sequences : gmap nat Z)
    (st : ReconcileFixtureOutput * gset string) (p : nat * APIFixtureEvent)
    : act (ReconcileFixtureOutput * gset string) :=
  let '(out, apiKeys) := st in
  match elementOf fixtureID now fresh pgByKey sequences p with
  | elementIgnored => mret st
  | elementReported None err => mret (addError err out, apiKeys)
  | elementReported (Some key) err => mret (addError err out, {[key]} ∪ apiKeys)
  | elementPlaceholder key => mret (out, {[key]} ∪ apiKeys)
  | elementPresent key existing domainEv vote correction =>
      out ← voteElement fixtureID workflowID key existing domainEv vote correction out;
      mret (out, {[key]} ∪ apiKeys)
  | elementInserted key op domainEv =>
      out ← insertElement workflowID op domainEv out;
      mret (out, {[key]} ∪ apiKeys)
  end.

Definition legacyAbsence (fixtureID : Z) (workflowID : string) (now : Time)
    (inventory : scoreEventInventory) (apiKeys : gset string) (out : ReconcileFixtureOutput)
    (row : string * event.Event) : act ReconcileFixtureOutput :=
  if bool_decide (row.1 ∈ apiKeys) then mret out
  else match absenceOf fixtureID now inventory row.1 row.2 with
       | absenceDeleted id =>
           deleted ← call (λ _, eventrepo.DeleteUnknownEvent id);
           mret (match deleted with
                 | inl _ => addError "delete unknown event" out
                 | inr _ => markUpdate (out <| oUnknownDropped ::= λ n, n + 1 |>) end)
       | absenceHeld key => mret (out <| oGoalAbsencesHeld ::= λ l, l ++ [key] |>)
       | absenceReported err => mret (addError err out)
       | absenceVoted vote =>
           voted ← call (λ v, eventrepo.RegisterEventAbsenceWithAudit v.(eNow) v.(eClock)
             vote.(paEventID) workflowID vote.(paAudit));
           mret (match voted with
                 | inl _ => addError "absence event" out
                 | inr (_, hitZero) =>
                     if hitZero : bool then
                       markUpdate (out <| oEventsRemoved ::= λ l, l ++ [row.1] |>
                         <| oEventsRemovedIDs ::= λ l, l ++ [vote.(paEventID)] |>)
                     else out end)
       end.

(** The completion check at the end of a pass. *)
Definition legacyComplete (f : fixture.Fixture) (now : Time) (providerParity : option bool)
    (out : ReconcileFixtureOutput) : act ReconcileFixtureOutput :=
  assessed ← call (λ _, fixturerepo.AssessCompletion f.(fixture.fID)
    (time_Add now (- a.(aTerminalGracePeriod))));
  match assessed with
  | inl _ => mret (addError "completion check" out)
  | inr assessment =>
      if negb assessment.(fixturerepo.caReady) then mret out
      else match fixture.Complete f now with
           | (_, Some _) => mret (addError "complete transition" out)
           | (f, None) =>
               match fixtureCompletedAudit a.(aTerminalGracePeriod) f now
                 assessment.(fixturerepo.caDurableScoreEventParity) providerParity with
               | inl _ => mret (addError "build completion audit" out)
               | inr audit =>
                   transitioned ← call (λ v, fixturerepo.TransitionWithAudit v.(eNow) f audit);
                   mret (match transitioned with
                         | inl _ => addError "transition completed fixture" out
                         | inr false => out
                         | inr true => markUpdate (out <| oCompleted := true |>) end)
               end
           end
  end.

Definition reconcileLegacy (inp : ReconcileFixtureInput) (now : Time)
    : act (ReconcileFixtureOutput * option string) :=
  let api := inp.(riAPIFixture) in
  let out := emptyOutput api.(Fixture).(FixtureID) in
  let observedAt := if IsZero inp.(riObservedAt) then now else inp.(riObservedAt) in
  stored ← call (λ _, fixturerepo.Get api.(Fixture).(FixtureID));
  match stored with
  | inl _ => mret (out, Some "get fixture")
  | inr stored =>
      let inventory := newScoreEventInventory api in
      let providerParity := terminalProviderScoreEventParity inventory
        api.(Fixture).(FixtureStatus).(StatusShort) api.(Teams).(TeamsHome).(TeamID)
        api.(Teams).(TeamsAway).(TeamID) in
      let f := observedFixture stored api observedAt in
      let out := classifyRefresh stored f out in
      refreshed ← call (λ v, fixturerepo.RefreshActivePoll v.(eNow) f);
      match refreshed with
      | inl _ => mret (out, Some "refresh active fixture")
      | inr false => mret (emptyOutput f.(fixture.fID), None)
      | inr true =>
          allEvents ← call (λ _, eventrepo.ListAllByFixture f.(fixture.fID));
          match allEvents with
          | inl _ => mret (out, Some "list fixture event history")
          | inr allEvents =>
              match assignedSequences api allEvents with
              | None => mret (out, Some "assign event identities")
              | Some sequences =>
                  let pgByKey := activeByKey allEvents in
                  let out := out <| oProviderIntegrity := AssessFixture
                    (providerFixtureComparison stored allEvents api sequences) |> in
                  st ← loop (legacyElement f.(fixture.fID) inp.(riWorkflowID) now pgByKey sequences)
                    (out, ∅) (indexed api.(Events));
                  out ← loop (legacyAbsence f.(fixture.fID) inp.(riWorkflowID) now inventory st.2)
                    st.1 (iterate pgByKey);
                  out ← recoverAwaiting f.(fixture.fID) out;
                  out ← legacyComplete f now providerParity out;
                  mret (out, None)
              end
          end
      end
  end.

Definition ReconcileFixture (inp : ReconcileFixtureInput) (now : Time)
    : act (ReconcileFixtureOutput * option string) :=
  if a.(aProviderMutations) && negb inp.(riLegacyUnprotected)
  then reconcileGuarded inp now else reconcileLegacy inp now.
End activities.

(** ** Every transaction of a reconciliation is an action of the system *)

Section worker.
Context (l : limits) (a : Activities) (text : UUID → string) (fresh : nat → UUID).
Context (iterate : gmap string event.Event → list (string * event.Event)).

Lemma registerAndSpawn_worker e d F : worker l (registerAndSpawnEvent a text e d F).
Proof.
  unfold registerAndSpawnEvent. destruct (negb _); [done|]. destruct (negb _); [done|].
  apply worker_bind; [|by intros []].
  acts (mkEnv 0 0 text "")
    (eventOp (eventrepo.opRegisterDownstream e.(event.eID) "discovery" ("event-" +:+ text e.(event.eID)))).
Qed.

Lemma recoverAwaiting_worker F out : worker l (recoverAwaiting a text F out).
Proof.
  unfold recoverAwaiting. apply worker_bind; [by apply reads_worker, eventsWhere_reads|].
  intros [|events]; [done|]. apply worker_loop. intros o e.
  apply worker_bind; [apply registerAndSpawn_worker|done].
Qed.

Lemma spawnStable_worker F byID st id : worker l (spawnStable a text F byID st id).
Proof.
  unfold spawnStable. destruct st as [out err]. apply worker_bind.
  - destruct (byID !! id); [done|]. apply worker_bind; [by apply reads_worker, eventGet_reads|done].
  - intros [[ev|] [err'|]]; try done. apply worker_bind; [apply registerAndSpawn_worker|done].
Qed.

Lemma followCommit_worker F byID result out : worker l (followCommit a text F byID result out).
Proof.
  unfold followCommit. apply worker_bind; [apply worker_loop; intros; apply spawnStable_worker|].
  intros st. apply worker_bind; [apply recoverAwaiting_worker|done].
Qed.

Lemma guarded_worker inp now : worker l (reconcileGuarded a text fresh iterate inp now).
Proof.
  unfold reconcileGuarded. destruct (_ || _); [done|].
  apply worker_bind; [by apply reads_worker, Get_reads|]. intros [|stored]; [done|].
  apply worker_bind; [by apply reads_worker, eventsWhere_reads|]. intros [|events]; [done|].
  destruct (assignedSequences _ _); [|done].
  apply worker_bind.
  - set (plan := pnPlan _).
    apply action_worker. intros v. exists (mkEnv v.(eNow) v.(eClock) text v.(eMode)), (boundaryCall (callActive plan)).
    split; [done|]. intros db r db' H. exists tt. cbn. by apply (discard_of _ _ r).
  - intros [|result]; [done|]. destruct (mrStale result); [done|].
    apply worker_bind; [apply followCommit_worker|done].
Qed.

Lemma voteElement_worker F w key e d vote c out :
  worker l (voteElement a text F w key e d vote c out).
Proof.
  unfold voteElement. apply worker_bind; [acts v (eventOp (eventrepo.opPresenceWithAudit vote.(ppEventID) w vote.(ppAudit)))|].
  intros [|[n t]]; [done|]. apply worker_bind.
  - destruct t; [|done]. apply worker_bind; [apply registerAndSpawn_worker|done].
  - intros o. destruct c; [|done]. apply worker_bind; [|done].
    acts v (eventOp (eventrepo.opUpdateMutableFields e.(event.eID) d)).
Qed.

Lemma insertElement_worker w op d out : worker l (insertElement w op d out).
Proof.
  unfold insertElement. apply worker_bind; [|done]. destruct (piAudit op) as [audit|].
  - acts v (eventOp (eventrepo.opInsertWithAudit d w audit)).
  - acts v (eventOp (eventrepo.opInsert d w)).
Qed.

Lemma legacyAbsence_worker F w now inv keys out row : worker l (legacyAbsence F w now inv keys out row).
Proof.
  unfold legacyAbsence. case_bool_decide; [done|]. destruct (absenceOf _ _ _ _ _) as [id|k|err|vote]; try done.
  - apply worker_bind; [|done]. acts v (eventOp (eventrepo.opDeleteUnknownEvent id)).
  - apply worker_bind; [|done].
    acts v (eventOp (eventrepo.opAbsenceWithAudit vote.(paEventID) w vote.(paAudit))).
Qed.

Lemma legacyComplete_worker f now parity out : worker l (legacyComplete a f now parity out).
Proof.
  unfold legacyComplete. apply worker_bind; [by apply reads_worker, Assess_reads|].
  intros [|x]; [done|]. destruct (negb _); [done|]. destruct (fixture.Complete f now) as [g [?|]]; [done|].
  destruct (fixtureCompletedAudit _ _ _ _ _) as [|audit]; [done|]. apply worker_bind; [|done].
  acts v (fixtureOp (fixturerepo.opTransition g audit)).
Qed.

Lemma legacy_worker inp now : worker l (reconcileLegacy a text fresh iterate inp now).
Proof.
  unfold reconcileLegacy. apply worker_bind; [by apply reads_worker, Get_reads|].
  intros [|stored]; [done|]. apply worker_bind.
  { acts v (fixtureOp (fixturerepo.opRefreshActive (observedFixture stored (riAPIFixture inp)
      (if IsZero (riObservedAt inp) then now else riObservedAt inp)))). }
  intros [|[]]; [done| |done]. apply worker_bind; [by apply reads_worker, eventsWhere_reads|].
  intros [|events]; [done|]. destruct (assignedSequences _ _); [|done].
  apply worker_bind.
  { apply worker_loop. intros [out keys] p. unfold legacyElement.
    destruct (elementOf _ _ _ _ _ _) as [|[k|] err|k|k x y v c|k op e]; try done.
    - apply worker_bind; [apply voteElement_worker|done].
    - apply worker_bind; [apply insertElement_worker|done]. }
  intros st. apply worker_bind; [apply worker_loop; intros; apply legacyAbsence_worker|].
  intros out. apply worker_bind; [apply recoverAwaiting_worker|].
  intros o. apply worker_bind; [apply legacyComplete_worker|done].
Qed.

Lemma reconcile_worker inp now : worker l (ReconcileFixture a text fresh iterate inp now).
Proof. unfold ReconcileFixture. destruct (_ && _); [apply guarded_worker|apply legacy_worker]. Qed.
End worker.

(** ** A workflow is started only behind its checklist row *)

Section order.
Context (interferes : relation DB) (a : Activities) (text : UUID → string) (fresh : nat → UUID).
Context (iterate : gmap string event.Event → list (string * event.Event)).

(** The step before each start is the commit that left the checklist row. *)
Definition registeredFirst (trace : list label) : Prop :=
  ∀ t1 w i err t2, trace = t1 ++ spawned w i err :: t2 →
    w = "event-" +:+ text i.(wiEventID) ∧
    ∃ t0 before after, t1 = t0 ++ [tried before after] ∧
      is_Some (dbDownstream after !! (i.(wiEventID), "discovery", w)).

Lemma registeredFirst_nil : registeredFirst [].
Proof. intros [] w i err t2; discriminate. Qed.

Lemma registeredFirst_app t1 t2 :
  registeredFirst t1 → registeredFirst t2 → registeredFirst (t1 ++ t2).
Proof.
  intros H1 H2 u w i err v H. apply app_eq_inv in H as [(k & -> & H)|(k & -> & H)].
  - destruct k as [|x k]; simpl in H.
    + destruct (H2 [] w i err v) as (_ & t0 & ? & ? & ? & _); [done|by destruct t0].
    + injection H as <- ->. by eapply (H1 u).
  - destruct (H2 _ _ _ _ _ H) as (Hw & t0 & b & c & -> & Hc). split; [done|].
    exists (t1 ++ t0), b, c. by rewrite app_assoc.
Qed.

(** No start, no obligation. *)
Lemma registeredFirst_tried b c : registeredFirst [tried b c].
Proof. intros [|? []] w i err t2; discriminate. Qed.

Abbreviation ordered p := (always interferes registeredFirst p).

Lemma ordered_call {R} (tx : env → Tx R) : ordered (call tx).
Proof. intros db trace res db' (db0 & db1 & _ & _ & -> & _)%runs_call. apply registeredFirst_tried. Qed.

Lemma ordered_ret {A} (x : A) : ordered (mret x).
Proof. apply always_ret, registeredFirst_nil. Qed.

Lemma ordered_bind {A B} (p : act A) (f : A → act B) : ordered p → (∀ x, ordered (f x)) → ordered (p ≫= f).
Proof. apply always_bind, registeredFirst_app. Qed.

Lemma ordered_loop {S X} (body : S → X → act S) s xs : (∀ s x, ordered (body s x)) → ordered (loop body s xs).
Proof. apply always_loop; [apply registeredFirst_nil|apply registeredFirst_app]. Qed.

Lemma registered_row id w db r db' :
  eventrepo.RegisterDownstreamWorkflow id "discovery" w db = inr (r, db') →
  is_Some (dbDownstream db' !! (id, "discovery", w)).
Proof.
  intros H. apply insertDownstream_inv in H as [(-> & H)|(_ & _ & ->)]; [done|].
  cbn. rewrite lookup_insert_eq. by eexists.
Qed.

Lemma registerAndSpawn_ordered e d F : ordered (registerAndSpawnEvent a text e d F).
Proof.
  unfold registerAndSpawnEvent. destruct (negb _); [apply ordered_ret|].
  destruct (negb _); [apply ordered_ret|].
  intros db trace res db' (reg & db1 & t1 & t2 & H1 & H2 & ->)%runs_bind.
  apply runs_call in H1 as (dba & dbb & _ & Ho & -> & _).
  destruct reg as [err|[]].
  { apply runs_ret in H2 as (-> & _). apply registeredFirst_tried. }
  destruct Ho as [(v & r & Hr & _)|(_ & err & ?)]; [|done]. apply registered_row in Hr.
  apply runs_bind in H2 as (err & db2 & t3 & t4 & [-> _]%runs_start & (-> & _)%runs_ret & ->).
  intros u w i e' t'. destruct u as [|x [|y u]]; [discriminate| |].
  - intros [= <- <- <- <- <-]. cbn. split; [done|]. by exists [], dba, dbb.
  - intros [= _ _ H]. by destruct u.
Qed.

#[local] Hint Resolve ordered_call ordered_ret registerAndSpawn_ordered : ordered.

Ltac order :=
  repeat first
    [ progress intros
    | apply ordered_bind
    | apply ordered_loop
    | progress auto with ordered
    | progress case_match ].

Lemma recoverAwaiting_ordered F out : ordered (recoverAwaiting a text F out).
Proof. unfold recoverAwaiting. order. Qed.

Lemma spawnStable_ordered F byID st id : ordered (spawnStable a text F byID st id).
Proof. unfold spawnStable. order. Qed.

Lemma voteElement_ordered F w key e d vote c out : ordered (voteElement a text F w key e d vote c out).
Proof. unfold voteElement. order. Qed.

Lemma reconcile_ordered inp now : ordered (ReconcileFixture a text fresh iterate inp now).
Proof.
  pose proof recoverAwaiting_ordered. pose proof spawnStable_ordered. pose proof voteElement_ordered.
  unfold ReconcileFixture, reconcileGuarded, reconcileLegacy, followCommit, legacyElement,
    insertElement, legacyAbsence, legacyComplete. order.
Qed.
End order.

(** ** What a guarded reconciliation reports *)

(** The fields that report what was committed. *)
Definition effects (out : ReconcileFixtureOutput) :=
  (out.(oNewEventsDetected), out.(oNewNamedEventIDs), out.(oEventsRemovedIDs), out.(oUnknownDropped),
   out.(oCompleted), (out.(oMutationPolicy), out.(oMutationDecision), out.(oMutationApplied),
   out.(oMutationStale)), out.(oGoalAbsencesHeld), out.(oProviderIntegrity)).

Section report.
Context (interferes : relation DB) (a : Activities) (text : UUID → string) (fresh : nat → UUID).
Context (iterate : gmap string event.Event → list (string * event.Event)).

Lemma effects_addErrorIf prefix err out : effects (addErrorIf prefix err out) = effects out.
Proof. by destruct err. Qed.

Lemma recoverAwaiting_effects F out :
  returns interferes (λ out', effects out' = effects out ∧ out'.(oEventsRemoved) = out.(oEventsRemoved) ∧
    out'.(oEventsBecameStable) = out.(oEventsBecameStable)) (recoverAwaiting a text F out).
Proof.
  unfold recoverAwaiting. apply returns_bind. intros [err|events]; [by apply returns_ret|].
  apply returns_loop; [done|]. intros o e Ho. apply returns_bind. intros err.
  apply returns_ret. by destruct err.
Qed.

Lemma spawnStable_effects F byID st id :
  returns interferes (λ st', effects st'.1 = effects st.1) (spawnStable a text F byID st id).
Proof.
  unfold spawnStable. destruct st as [out err]. apply returns_bind.
  intros [[ev|] [err'|]]; try by apply returns_ret.
  apply returns_bind. intros err'. apply returns_ret. by destruct err'.
Qed.

(** The stable events the activity has at hand are reported, each once. *)
Lemma spawnStables_stable F byID ids : ∀ out,
  Forall (λ id, is_Some (byID !! id)) ids →
  returns interferes (λ st, st.2 = None ∧
    st.1.(oEventsBecameStable) = out.(oEventsBecameStable) ++ keysOf byID ids)
    (loop (spawnStable a text F byID) (out, None) ids).
Proof.
  induction ids as [|id ids IH]; intros out Hids; cbn [loop].
  { apply returns_ret. cbn. by rewrite app_nil_r. }
  apply Forall_cons in Hids as [[ev Hev] Hids].
  apply (returns_after _ (λ st, ∃ out', st = (out', None) ∧
    out'.(oEventsBecameStable) = out.(oEventsBecameStable) ++ [ev.(event.eNaturalKey)])).
  { unfold spawnStable. rewrite Hev. cbn. apply returns_bind. intros err. apply returns_ret.
    eexists. split; [done|]. by destruct err. }
  intros st (out' & -> & Ho). intros db trace st db' H. destruct (IH out' Hids _ _ _ _ H) as [H1 H2].
  split; [done|]. rewrite H2, Ho, <-app_assoc. unfold keysOf. cbn. by rewrite Hev.
Qed.

Lemma classifyGuardedFeed_effects out result : effects (classifyGuardedFeed out result) = effects out ∧
  (classifyGuardedFeed out result).(oEventsRemoved) = out.(oEventsRemoved) ∧
  (classifyGuardedFeed out result).(oEventsBecameStable) = out.(oEventsBecameStable).
Proof.
  unfold classifyGuardedFeed, markUpdate, markStatus. destruct (mrFixture result); [|done].
  destruct (_ || _); [done|]. destruct (mrFixturePresentationChanged result); [|done]. by destruct (negb _).
Qed.

Lemma followCommit_effects F byID result out :
  returns interferes (λ out', effects out' = effects (reportEffects result out) ∧
    out'.(oEventsRemoved) = keysOf byID result.(mrRemovedEventIDs) ∧
    (Forall (λ id, is_Some (byID !! id)) result.(mrStableEventIDs) →
       out'.(oEventsBecameStable) = out.(oEventsBecameStable) ++ keysOf byID result.(mrStableEventIDs)))
    (followCommit a text F byID result out).
Proof.
  unfold followCommit.
  apply (returns_after _ (λ st, effects st.1 = effects (reportEffects result out) ∧
    (Forall (λ id, is_Some (byID !! id)) result.(mrStableEventIDs) →
       st.1.(oEventsBecameStable) = out.(oEventsBecameStable) ++ keysOf byID result.(mrStableEventIDs)))).
  { intros db trace st db' H. split.
    - revert db trace st db' H. apply returns_loop; [done|]. intros st id Hst db trace st' db' H.
      by rewrite (spawnStable_effects _ _ _ _ _ _ _ _ H).
    - intros Hat. by destruct (spawnStables_stable _ _ _ _ Hat _ _ _ _ H) as [_ ?]. }
  intros st [Hst Hstable]. cbn zeta.
  eapply returns_after; [apply recoverAwaiting_effects|]. intros out' (He & Hr & Hs).
  apply returns_ret. destruct (classifyGuardedFeed_effects out' result) as (-> & -> & ->).
  rewrite He, Hr, Hs. split; [exact Hst|]. split; [done|exact Hstable].
Qed.

(** No workflow was started. *)
Definition startsNothing (trace : list label) : Prop := ∀ w i err, spawned w i err ∉ trace.

Lemma startsNothing_tried b c : startsNothing [tried b c].
Proof. intros w i err. by intros ?%list_elem_of_singleton. Qed.

Lemma startsNothing_app t1 t2 : startsNothing t1 → startsNothing t2 → startsNothing (t1 ++ t2).
Proof. intros H1 H2 w i err [H|H]%elem_of_app; [by eapply H1|by eapply H2]. Qed.

(** What the activity says about the commit [result] of [planned]. *)
Definition reports (planned : planning) (result : MutationResult) (out : ReconcileFixtureOutput) : Prop :=
  effects out = effects (reportEffects result (reportCommit result planned.(pnOut))) ∧
  out.(oEventsRemoved) = keysOf planned.(pnByID) result.(mrRemovedEventIDs) ∧
  (Forall (λ id, is_Some (planned.(pnByID) !! id)) result.(mrStableEventIDs) →
     out.(oEventsBecameStable) = keysOf planned.(pnByID) result.(mrStableEventIDs)).

Lemma emptyOutput_uncommitted F : uncommitted (emptyOutput F).
Proof. by split. Qed.

(** A call that is answered is a transaction that committed. *)
Lemma runs_answered {R} (tx : env → Tx R) db trace r db' :
  runs interferes (call tx) db trace (inr r) db' →
  ∃ v before after, tx v before = inr (r, after) ∧ trace = [tried before after].
Proof.
  intros (before & after & _ & Ho & -> & _)%runs_call.
  destruct Ho as [(v & r' & Hv & [[= <-]|[? ?]])|[_ [? ?]]]; [by exists v, before, after|done..].
Qed.

Lemma runs_call_quiet {R} (tx : env → Tx R) db trace res db' :
  runs interferes (call tx) db trace res db' → startsNothing trace.
Proof. intros (x & y & _ & _ & -> & _)%runs_call. apply startsNothing_tried. Qed.

Lemma guarded_report inp now db trace out err db' :
  runs interferes (reconcileGuarded a text fresh iterate inp now) db trace (out, err) db' →
  match err with
  | Some _ => startsNothing trace ∧ uncommitted out
  | None => ∃ v stored rows sequences db1 db2 before result after rest,
      let planned := planOf a.(aTerminalGracePeriod) now fresh inp stored rows sequences
        (iterate (activeByKey rows)) in
      trace = [tried db1 db1; tried db2 db2; tried before after] ++ rest ∧
      fixturerepo.Get inp.(riAPIFixture).(Fixture).(FixtureID) db1 = inr (stored, db1) ∧
      eventrepo.ListAllByFixture stored.(fixture.fID) db2 = inr (rows, db2) ∧
      assignedSequences inp.(riAPIFixture) rows = Some sequences ∧
      ApplyActive v.(eNow) v.(eClock) text v.(eMode) planned.(pnPlan) before = inr (result, after) ∧
      if result.(mrStale) then rest = [] ∧ out = reportCommit result planned.(pnOut)
      else reports planned result out
  end.
Proof.
  unfold reconcileGuarded. destruct (_ || _).
  { intros (-> & [= -> ->] & _)%runs_ret. split; [by intros ? ? ? ?%elem_of_nil|apply emptyOutput_uncommitted]. }
  intros (stored & d1 & t1 & t2 & H1 & H & ->)%runs_bind. pose proof (runs_call_quiet _ _ _ _ _ H1) as Q1.
  destruct stored as [e|stored].
  { apply runs_ret in H as (-> & [= -> ->] & _). rewrite app_nil_r. split; [done|apply emptyOutput_uncommitted]. }
  apply runs_answered in H1 as (_ & db1 & db1' & H1 & ->). pose proof (Get_reads _ _ _ _ H1) as ->.
  apply runs_bind in H as (rows & d2 & t3 & t4 & H2 & H & ->). pose proof (runs_call_quiet _ _ _ _ _ H2) as Q2.
  destruct rows as [e|rows].
  { apply runs_ret in H as (-> & [= -> ->] & _). rewrite app_nil_r.
    split; [by apply startsNothing_app|apply emptyOutput_uncommitted]. }
  apply runs_answered in H2 as (_ & db2 & db2' & H2 & ->). pose proof (eventsWhere_reads _ _ _ _ _ H2) as ->.
  destruct (assignedSequences _ _) as [sequences|] eqn:Hs.
  2:{ apply runs_ret in H as (-> & [= -> ->] & _). rewrite app_nil_r.
      split; [by apply startsNothing_app|apply emptyOutput_uncommitted]. }
  cbv zeta in H. set (planned := planOf _ _ _ _ _ _ _ _) in H.
  pose proof (planOf_uncommitted (aTerminalGracePeriod a) now fresh inp stored rows sequences
    (iterate (activeByKey rows))) as Huc. fold planned in Huc.
  apply runs_bind in H as (result & d3 & t5 & t6 & H3 & H & ->). pose proof (runs_call_quiet _ _ _ _ _ H3) as Q3.
  destruct result as [e|result].
  { apply runs_ret in H as (-> & [= -> ->] & _). rewrite app_nil_r.
    split; [apply startsNothing_app; [done|by apply startsNothing_app]|done]. }
  apply runs_answered in H3 as (v & before & after & H3 & ->).
  assert (err = None ∧ if mrStale result
    then t6 = [] ∧ out = reportCommit result (pnOut planned)
    else reports planned result out) as [-> Hr].
  { destruct (mrStale result).
    - by apply runs_ret in H as (-> & [= -> ->] & _).
    - apply runs_bind in H as (o & d4 & t7 & t8 & H4 & (_ & [= -> ->] & _)%runs_ret & _).
      split; [done|]. apply followCommit_effects in H4 as (E1 & E2 & E3). split; [done|]. split; [done|].
      intros Hat. rewrite (E3 Hat). cbn. by rewrite (uc_stable _ Huc). }
  by exists v, stored, rows, sequences, db1, db2, before, result, after, t6.
Qed.
End report.

(** ** A failed load of one stable event *)

(** The error variable is not reset for the events at hand: after a failed load
    every later stable event of the commit is skipped and reported as unloadable,
    until a load succeeds. *)
Lemma load_error_sticks a text F (byID : gmap UUID event.Event) e ids out :
  Forall (λ id, is_Some (byID !! id)) ids →
  loop (spawnStable a text F byID) (out, Some e) ids =
  mret (out <| oErrors ::= λ l, l ++ replicate (length ids) "load stable event" |>, Some e).
Proof.
  intros Hids. revert out. induction Hids as [|id ids [ev Hev] _ IH]; intros out.
  { cbn. rewrite app_nil_r. by destruct out. }
  assert (spawnStable a text F byID (out, Some e) id = mret (addError "load stable event" out, Some e))
    as Hone by (unfold spawnStable; by rewrite Hev).
  cbn [loop]. rewrite Hone. cbn. rewrite IH. cbn. by rewrite <-app_assoc.
Qed.

(** ** The properties *)

(** C14: Whatever other workers commit in between and whatever fails, each discovery
    workflow a reconciliation starts, on the guarded and on the legacy path, is
    started immediately after a commit of its own that left the event's checklist
    row in the tables, under the same workflow id: no untracked workflow. *)
Theorem start_follows_registration interferes a text fresh iterate inp now db trace res db' :
  runs interferes (ReconcileFixture a text fresh iterate inp now) db trace res db' →
  ∀ t1 w i err t2, trace = t1 ++ spawned w i err :: t2 →
    w = "event-" +:+ text i.(wiEventID) ∧
    ∃ t0 before after, t1 = t0 ++ [tried before after] ∧
      is_Some (dbDownstream after !! (i.(wiEventID), "discovery", w)).
Proof. apply reconcile_ordered. Qed.

(** A reconciliation is a worker of the system: run among any other workers, with
    any failures and lost answers, it takes tables that satisfy the invariants to
    tables that satisfy them, and no fixture goes back in its life. *)
Theorem reconcile_keeps_world l a text fresh iterate inp now db trace res db' :
  world_ok db →
  runs (happens l) (ReconcileFixture a text fresh iterate inp now) db trace res db' →
  rtc (happens l) db db' ∧ world_ok db' ∧ forward_db db db'.
Proof.
  intros Hok H. apply worker_runs in H; [|apply reconcile_worker]. split; [done|].
  by destruct (world_steps l db db' Hok H) as (? & ? & _).
Qed.

(** C15: A guarded reconciliation reports what it committed and nothing else.  An
    error means that it reports no effect at all - no event detected, named, stable,
    removed or dropped, no completion, no commit and no feed - and started no workflow.
    Otherwise its first transactions are the read of the fixture, the read of its
    events, and the commit, at the write boundary, of the plan made from exactly those
    rows; a stale commit is reported as stale and is the end of the run, and any other
    is reported with exactly its inserted, named, removed and dropped events, its
    completion, its policy and its decision, and with its stable events when they are
    among the rows read or planned. *)
Theorem guarded_reports_commit interferes a text fresh iterate inp now db trace out err db' :
  runs interferes (reconcileGuarded a text fresh iterate inp now) db trace (out, err) db' →
  match err with
  | Some _ => startsNothing trace ∧ uncommitted out
  | None => ∃ v stored rows sequences db1 db2 before result after rest,
      let planned := planOf a.(aTerminalGracePeriod) now fresh inp stored rows sequences
        (iterate (activeByKey rows)) in
      trace = [tried db1 db1; tried db2 db2; tried before after] ++ rest ∧
      fixturerepo.Get inp.(riAPIFixture).(Fixture).(FixtureID) db1 = inr (stored, db1) ∧
      eventrepo.ListAllByFixture stored.(fixture.fID) db2 = inr (rows, db2) ∧
      assignedSequences inp.(riAPIFixture) rows = Some sequences ∧
      ApplyActive v.(eNow) v.(eClock) text v.(eMode) planned.(pnPlan) before = inr (result, after) ∧
      if result.(mrStale) then rest = [] ∧ out = reportCommit result planned.(pnOut)
      else reports planned result out
  end.
Proof. apply guarded_report. Qed.

(** A load that fails is charged to the events after it: once loading one stable
    event has failed, every further stable event the activity has at hand is
    reported as unloadable, is not reported stable and is not started. *)
Theorem load_failure_charged_to_later_events a text F (byID : gmap UUID event.Event) e ids out :
  Forall (λ id, is_Some (byID !! id)) ids →
  loop (spawnStable a text F byID) (out, Some e) ids =
  mret (out <| oErrors ::= λ l, l ++ replicate (length ids) "load stable event" |>, Some e).
Proof. apply load_error_sticks. Qed.
End reconcile.
