(* ===== verification/Collect.v ===== *)
(** internal/activity/monitor, in front of a reconciliation: the fetch with its
    failure evidence (FetchLiveFixtures in reconcile.go) and the health collection
    (provider_health.go).  The vendor's answer is an argument. *)
From S2P Require Import Prelude GoStrings ApiFootball Fixture Event Identity Integrity Health Auditlog Presentation Plan Discovery Store Mutation Commit Guarantees Preserve Events Fixtures HealthRepo World Planning Activity.
#[local] Open Scope string_scope.
#[local] Open Scope list_scope.
#[local] Open Scope Z_scope.
Import apifootball providerintegrity health mutation discoverycontract pg boundary guarantees world monitor planning activity.

Module collect.

(** ** The fetch (reconcile.go) *)

Record FetchLiveFixturesInput := mkFetchLiveFixturesInput {
  fiIDs : list Z;
  fiPollID : string;
  fiObservedAt : Time }.

Definition ProviderFetchFailureKind := string.
Definition ProviderFetchFailureTransport : ProviderFetchFailureKind := "transport".
Definition ProviderFetchFailureContract : ProviderFetchFailureKind := "contract".

Record ProviderFetchFailure := mkProviderFetchFailure {
  pfIDs : list Z;
  pfKind : ProviderFetchFailureKind;
  pfContractReason : string }.

Record FetchLiveFixturesOutput := mkFetchLiveFixturesOutput {
  foFixtures : list APIFixture;
  foFailedIDs : list Z;
  foFailures : list ProviderFetchFailure }.

Definition emptyFetch : FetchLiveFixturesOutput := mkFetchLiveFixturesOutput [] [] [].

(** The two forms of the activity's error: plain, or the application error that
    carries the output. *)
Inductive fetchError :=
  | fetchWrapped
  | ProviderFixtureFetchFailure (details : FetchLiveFixturesOutput).

Definition reasonText (r : FixtureContractReason) : string :=
  match r with
  | FixtureContractErrorsMissing => "errors_missing"
  | FixtureContractErrorsInvalid => "errors_invalid"
  | FixtureContractErrorsNonEmpty => "errors_nonempty"
  | FixtureContractResultsMissing => "results_missing"
  | FixtureContractResultsMismatch => "results_mismatch"
  | FixtureContractPagingMissing => "paging_missing"
  | FixtureContractPagingIncomplete => "paging_incomplete"
  | FixtureContractResponseMissing => "response_missing"
  | FixtureContractResponseInvalid => "response_invalid"
  | FixtureContractFixtureIdentity => "fixture_identity_invalid"
  | FixtureContractTeamIdentity => "team_identity_invalid"
  | FixtureContractNegativeScore => "negative_score"
  | FixtureContractEventsMissing => "events_missing"
  | FixtureContractEventsNull => "events_null"
  | FixtureContractEventTeamInvalid => "event_team_invalid"
  | FixtureContractRequestedDuplicate => "requested_id_duplicate"
  | FixtureContractReturnedDuplicate => "returned_id_duplicate"
  | FixtureContractReturnedUnrequested => "returned_id_unrequested"
  | FixtureContractRequestedMissing => "requested_id_missing"
  end.

Definition providerFetchFailures (failures : list FixtureFetchFailure) : list ProviderFetchFailure :=
  (λ failure, mkProviderFetchFailure failure.(FailureIDs)
     (match failure.(FailureKind) with
      | FixtureFetchFailureContract => ProviderFetchFailureContract
      | FixtureFetchFailureTransport => ProviderFetchFailureTransport end)
     (match failure.(FailureReason) with Some r => reasonText r | None => "" end)) <$> failures.

(** ** Failed coverage (provider_health.go) *)

Definition zeroComparison : FixtureComparison := mkFixtureComparison zeroFacts zeroFacts [] [] [].

(** An observation without facts. *)
Definition unusable (id : Z) (availability : Availability) (reason : string) : HealthObservation :=
  mkHealthObservation id availability reason false None zeroComparison.

Definition chunkAvailability (kind : ProviderFetchFailureKind) : Availability :=
  if (kind =? ProviderFetchFailureContract)%string then AvailabilityContract
  else AvailabilityTransport.

(** Adds an entry unless the id has one. *)
Definition addMissing (o : HealthObservation) (failed : gmap Z HealthObservation)
    : gmap Z HealthObservation :=
  match failed !! o.(hoFixtureID) with Some _ => failed | None => <[o.(hoFixtureID) := o]> failed end.

Definition coverChunk (failed : gmap Z HealthObservation) (chunk : ProviderFetchFailure)
    : gmap Z HealthObservation :=
  foldl (λ failed id,
      <[id := unusable id (chunkAvailability chunk.(pfKind)) chunk.(pfContractReason)]> failed)
    failed chunk.(pfIDs).

Definition failedCoverage (ids : list Z) (out : FetchLiveFixturesOutput) (catastrophic : bool)
    : gmap Z HealthObservation :=
  let failed := foldl coverChunk ∅ out.(foFailures) in
  let failed := foldl (λ failed id, addMissing (unusable id AvailabilityTransport "") failed)
    failed out.(foFailedIDs) in
  if catastrophic then
    let returned : gset Z := list_to_set ((λ f, f.(Fixture).(FixtureID)) <$> out.(foFixtures)) in
    foldl (λ failed id, if bool_decide (id ∈ returned) then failed
      else addMissing (unusable id AvailabilityUnobserved "fetch_failed_unclassified") failed) failed ids
  else failed.

Definition healthFetchFailures (ids : list Z) (out : FetchLiveFixturesOutput) (catastrophic : bool)
    : list HealthObservation :=
  omap (λ id, failedCoverage ids out catastrophic !! id) ids.

Definition byFixture (m : gmap Z HealthObservation) (failures : list HealthObservation)
    : gmap Z HealthObservation :=
  foldl (λ m failure, <[failure.(hoFixtureID) := failure]> m) m failures.

(** ** The activities *)

Section activities.
Context (healthStore : bool).
Context (pollFits : PollRow → bool) (fixtureFits : FixtureHealthEvidence → bool)
  (providerFits : ProviderHealthEvidence → bool).

(** [result] is what the client returned, with false for an error; [attempt] the
    activity's attempt number, [cancelled] its context after the call. *)
Definition FetchLiveFixtures (result : FixturesByIDsResult * bool) (attempt : Z) (cancelled : bool)
    (inp : FetchLiveFixturesInput) : act (FetchLiveFixturesOutput * option fetchError) :=
  if is_nil (head inp.(fiIDs)) then mret (emptyFetch, None)
  else
    let '(fetched, ok) := result in
    let out := mkFetchLiveFixturesOutput fetched.(ResultFixtures) (FailedIDs fetched)
      (providerFetchFailures fetched.(ResultFailures)) in
    let failures := healthFetchFailures inp.(fiIDs) out (negb ok) in
    _ ← (if negb (inp.(fiPollID) =? "")%string && (negb ok || not_nil (head out.(foFailedIDs))) &&
            healthStore && not_nil (head failures) then
           _ ← call (λ _, healthrepo.RecordFetchFailure pollFits
             (healthrepo.mkFetchFailureEvidence inp.(fiPollID) inp.(fiObservedAt) attempt failures));
           mret tt
         else mret tt);
    mret (if ok : bool then (out, None)
          else if cancelled : bool then (out, Some fetchWrapped)
          else (emptyFetch, Some (ProviderFixtureFetchFailure out))).

(** One returned fixture against the stored snapshot. *)
Definition healthComparison (f : APIFixture) (observedAt : Time) : act HealthObservation :=
  let id := f.(Fixture).(FixtureID) in
  stored ← call (λ _, fixturerepo.Get id);
  match stored with
  | inl _ => mret (unusable id AvailabilityUnobserved "fixture_read_failed")
  | inr stored =>
      if match stored.(fixture.fLastPolledAt) with Some t => After t observedAt | None => false end
      then mret (unusable id AvailabilityUnobserved "newer_canonical_snapshot")
      else
        let baseline := cloneOptionalTime stored.(fixture.fLastPolledAt) in
        events ← call (λ _, eventrepo.ListAllByFixture id);
        match events with
        | inl _ => mret (mkHealthObservation id AvailabilityUnobserved "event_history_read_failed" false
            baseline zeroComparison)
        | inr events =>
            match assignedSequences f events with
            | None => mret (mkHealthObservation id AvailabilityUnobserved "event_matching_failed" false
                baseline zeroComparison)
            | Some sequences => mret (mkHealthObservation id AvailabilityUsable "" false baseline
                (providerFixtureComparison stored events f sequences))
            end
        end
  end.

Record CollectProviderHealthInput := mkCollectProviderHealthInput {
  ciPollID : string;
  ciObservedAt : Time;
  ciRequestedIDs : list Z;
  ciFetch : FetchLiveFixturesOutput;
  ciFetchFailed : bool }.

(** The returned fixtures by id; [None] when an id occurs twice. *)
Definition returnedByID (fixtures : list APIFixture) : option (gmap Z APIFixture) :=
  foldl (λ m f, byID ← m;
    match byID !! f.(Fixture).(FixtureID) with
    | Some _ => None | None => Some (<[f.(Fixture).(FixtureID) := f]> byID) end) (Some ∅) fixtures.

Definition observationFor (failures : gmap Z HealthObservation) (byID : gmap Z APIFixture)
    (observedAt : Time) (id : Z) : act HealthObservation :=
  match failures !! id with
  | Some failure => mret failure
  | None =>
      match byID !! id with
      | Some f => healthComparison f observedAt
      | None => mret (unusable id AvailabilityUnobserved "missing_fetch_result")
      end
  end.

Definition CollectProviderHealth (inp : CollectProviderHealthInput) : act (string + HealthResult) :=
  if negb healthStore then mret (inl "provider health store is required")
  else match returnedByID inp.(ciFetch).(foFixtures) with
  | None => mret (inl "duplicate fixture in health input")
  | Some byID =>
      let failures := byFixture ∅
        (healthFetchFailures inp.(ciRequestedIDs) inp.(ciFetch) inp.(ciFetchFailed)) in
      observations ← loop (λ acc id, o ← observationFor failures byID inp.(ciObservedAt) id;
        mret (acc ++ [o])) [] inp.(ciRequestedIDs);
      call (λ _, healthrepo.Observe pollFits fixtureFits providerFits
        (mkHealthPoll inp.(ciPollID) inp.(ciObservedAt) observations))
  end.
End activities.

(** ** What the coverage says *)

(** The provider failed to deliver the fixture. *)
Definition providerFailed (out : FetchLiveFixturesOutput) (id : Z) : Prop :=
  (∃ chunk, chunk ∈ out.(foFailures) ∧ id ∈ chunk.(pfIDs)) ∨ id ∈ out.(foFailedIDs).

Definition blames (o : HealthObservation) : Prop :=
  o.(hoAvailability) = AvailabilityTransport ∨ o.(hoAvailability) = AvailabilityContract.

(** The entries blame the provider exactly for the ids of [failed]. *)
Record coverage (m : gmap Z HealthObservation) (failed : Z → Prop) : Prop := {
  cv_id id o : m !! id = Some o → o.(hoFixtureID) = id ∧ o.(hoAvailability) ≠ AvailabilityUsable;
  cv_blamed id : failed id ↔ ∃ o, m !! id = Some o ∧ blames o }.

Lemma coverage_ext m P Q : (∀ id, P id ↔ Q id) → coverage m P → coverage m Q.
Proof. intros H [A B]. split; [done|]. intros id. by rewrite <-H. Qed.

Lemma coverage_insert m P id availability reason :
  availability = AvailabilityTransport ∨ availability = AvailabilityContract →
  coverage m P → coverage (<[id := unusable id availability reason]> m) (λ i, P i ∨ i = id).
Proof.
  intros Ha [A B]. split.
  - intros i o. rewrite lookup_insert. case_decide; [intros [= <-]|apply A].
    subst. split; [done|]. by destruct Ha as [-> | ->].
  - intros i. rewrite lookup_insert. case_decide as Hi.
    + subst. split; [|by right]. intros _. eexists. split; [done|]. exact Ha.
    + rewrite B. naive_solver.
Qed.

Lemma coverage_missing m P id : coverage m P → coverage (addMissing (unusable id AvailabilityTransport "") m)
    (λ i, P i ∨ i = id ∧ ∀ o, m !! id = Some o → blames o).
Proof.
  intros H. unfold addMissing. cbn. destruct (m !! id) as [o|] eqn:Hm.
  - destruct H as [A B]. split; [done|]. intros i. rewrite B. split; [|naive_solver].
    intros [?|[-> Ho]]; [done|]. exists o. auto.
  - eapply coverage_ext; [|apply coverage_insert; [by left|exact H]]. naive_solver.
Qed.

Lemma coverage_unobserved m P id reason :
  coverage m P → coverage (addMissing (unusable id AvailabilityUnobserved reason) m) P.
Proof.
  intros [A B]. unfold addMissing. cbn. destruct (m !! id) as [o|] eqn:Hm; [done|]. split.
  - intros i o. rewrite lookup_insert. case_decide; [by intros [= <-]|apply A].
  - intros i. rewrite B, lookup_insert. case_decide as Hi; [|done]. subst.
    rewrite Hm. split; [naive_solver|]. intros (o & [= <-] & [?|?]); discriminate.
Qed.

Lemma coverage_chunk m P chunk :
  coverage m P →
  coverage (coverChunk m chunk) (λ i, P i ∨ i ∈ chunk.(pfIDs)).
Proof.
  unfold coverChunk. generalize (pfIDs chunk). intros ids. revert m P. induction ids as [|id ids IH]; intros m P H.
  { cbn. eapply coverage_ext; [|exact H]. set_solver. }
  cbn. eapply coverage_ext; [|apply IH, coverage_insert; [|exact H]].
  - set_solver.
  - unfold chunkAvailability. case_match; auto.
Qed.

Lemma coverage_chunks m P chunks :
  coverage m P →
  coverage (foldl coverChunk m chunks) (λ i, P i ∨ ∃ c, c ∈ chunks ∧ i ∈ c.(pfIDs)).
Proof.
  revert m P. induction chunks as [|c chunks IH]; intros m P H.
  { cbn. eapply coverage_ext; [|exact H]. set_solver. }
  cbn. eapply coverage_ext; [|apply IH, coverage_chunk, H]. set_solver.
Qed.

(** While every entry blames the provider, a missing id is blamed too. *)
Lemma coverage_failed m P ids :
  coverage m P → (∀ i o, m !! i = Some o → blames o) →
  coverage (foldl (λ failed id, addMissing (unusable id AvailabilityTransport "") failed) m ids)
    (λ i, P i ∨ i ∈ ids).
Proof.
  revert m P. induction ids as [|id ids IH]; intros m P H Hall.
  { cbn. eapply coverage_ext; [|exact H]. set_solver. }
  cbn. eapply coverage_ext; [|apply IH; [apply coverage_missing, H|]].
  - intros i. cbn. split; [|set_solver].
    intros [[?|[-> _]]|?]; [by left|right; by left|right; by right].
  - intros i o. unfold addMissing. cbn. destruct (m !! id); [apply Hall|].
    rewrite lookup_insert. case_decide; [intros [= <-]; by left|apply Hall].
Qed.

Lemma chunks_blame chunks m :
  (∀ i o, m !! i = Some o → blames o) →
  ∀ i o, foldl coverChunk m chunks !! i = Some o → blames o.
Proof.
  revert m. induction chunks as [|c chunks IH]; intros m Hm; [done|]. apply IH. clear IH.
  unfold coverChunk. generalize (pfIDs c). intros ids. revert m Hm. induction ids as [|id ids IH]; intros m Hm; [done|].
  apply IH. intros i o. rewrite lookup_insert. case_decide; [|apply Hm]. intros [= <-].
  unfold blames, chunkAvailability. cbn. case_match; auto.
Qed.

Lemma failedCoverage_ok ids out c : coverage (failedCoverage ids out c) (providerFailed out).
Proof.
  unfold failedCoverage.
  set (m := foldl (λ failed id, addMissing (unusable id AvailabilityTransport "") failed) _ _).
  assert (coverage m (providerFailed out)) as Hm.
  { unfold m. eapply coverage_ext; [|apply coverage_failed; [apply (coverage_chunks ∅ (λ _, False))|]].
    - intros i. unfold providerFailed. cbn. naive_solver.
    - split; [done|]. intros i. split; [done|]. by intros (o & ? & _).
    - apply chunks_blame. by intros i o ?. }
  destruct c; [|done]. generalize (list_to_set (C:=gset Z) ((λ f, FixtureID (Fixture f)) <$> foFixtures out)).
  intros returned. revert Hm. generalize m. clear m. induction ids as [|id ids IH]; intros m Hm; [done|].
  apply IH. case_bool_decide; [done|]. by apply coverage_unobserved.
Qed.

(** ** The poll that is handed over *)

Lemma failures_lookup (m acc : gmap Z HealthObservation) ids id :
  (∀ i o, m !! i = Some o → o.(hoFixtureID) = i) →
  byFixture acc (omap (λ i, m !! i) ids) !! id =
  match m !! id with Some o => if bool_decide (id ∈ ids) then Some o else acc !! id | None => acc !! id end.
Proof.
  intros Hm. revert acc. induction ids as [|i ids IH]; intros acc.
  { cbn. by destruct (m !! id). }
  cbn. destruct (m !! i) as [o|] eqn:Hi; cbn.
  - rewrite IH, (Hm i o Hi). destruct (decide (i = id)) as [->|Hne].
    + rewrite Hi, lookup_insert_eq, (bool_decide_eq_true_2 (id ∈ id :: ids)) by (by left). by case_bool_decide.
    + rewrite lookup_insert_ne by done. destruct (m !! id); [|done].
      rewrite (bool_decide_ext (id ∈ i :: ids) (id ∈ ids)); [done|]. set_solver.
  - rewrite IH. destruct (m !! id) eqn:Hid; [|done].
    rewrite (bool_decide_ext (id ∈ i :: ids) (id ∈ ids)); [done|].
    rewrite elem_of_cons. split; [intros [->|?]; [congruence|done]|by right].
Qed.

Lemma returnedByID_lookup fixtures byID id f :
  returnedByID fixtures = Some byID → byID !! id = Some f → f ∈ fixtures ∧ f.(Fixture).(FixtureID) = id.
Proof.
  unfold returnedByID.
  revert byID. induction fixtures as [|g fixtures IH] using rev_ind; intros byID; [by intros [= <-]|].
  rewrite foldl_app. cbn. intros H. apply bind_Some in H as (m & Hm & H).
  destruct (m !! FixtureID (Fixture g)); [done|]. injection H as <-. rewrite lookup_insert.
  case_decide as Hid; [intros [= <-]; split; [set_solver|done]|].
  intros Hf. destruct (IH _ Hm Hf). split; [set_solver|done].
Qed.

(** What an observation of the poll may claim. *)
Record fair (fetch : FetchLiveFixturesOutput) (id : Z) (o : HealthObservation) : Prop := {
  fr_id : o.(hoFixtureID) = id;
  fr_blame : blames o ↔ providerFailed fetch id;
  fr_usable : o.(hoAvailability) = AvailabilityUsable → ∃ f stored rows sequences,
    f ∈ fetch.(foFixtures) ∧ f.(Fixture).(FixtureID) = id ∧
    assignedSequences f rows = Some sequences ∧
    o.(hoBaselineLastPolled) = stored.(fixture.fLastPolledAt) ∧
    o.(hoComparison) = providerFixtureComparison stored rows f sequences }.

Section collection.
Context (interferes : relation DB).

Lemma unobserved_fair fetch id reason :
  ¬ providerFailed fetch id → fair fetch id (unusable id AvailabilityUnobserved reason).
Proof. intros H. split; [done| |done]. split; [|done]. by intros [?|?]. Qed.

Lemma healthComparison_fair fetch f at_ :
  f ∈ fetch.(foFixtures) → ¬ providerFailed fetch f.(Fixture).(FixtureID) →
  returns interferes (fair fetch f.(Fixture).(FixtureID)) (healthComparison f at_).
Proof.
  intros Hf Hn. unfold healthComparison. apply returns_bind.
  intros [err|stored]; [by apply returns_ret, unobserved_fair|].
  destruct (match fixture.fLastPolledAt stored with Some t => _ | None => _ end);
    [by apply returns_ret, unobserved_fair|].
  apply returns_bind. intros [err|rows].
  { apply returns_ret. split; [done| |done]. split; [by intros [?|?]|done]. }
  destruct (assignedSequences f rows) as [sequences|] eqn:Hs; apply returns_ret.
  - split; [done| |]. { split; [by intros [?|?]|done]. }
    intros _. by exists f, stored, rows, sequences.
  - split; [done| |done]. split; [by intros [?|?]|done].
Qed.

Lemma observationFor_fair inp byID id :
  returnedByID inp.(ciFetch).(foFixtures) = Some byID → id ∈ inp.(ciRequestedIDs) →
  returns interferes (fair inp.(ciFetch) id)
    (observationFor (byFixture ∅
      (healthFetchFailures inp.(ciRequestedIDs) inp.(ciFetch) inp.(ciFetchFailed))) byID
      inp.(ciObservedAt) id).
Proof.
  intros Hby Hid. unfold observationFor, healthFetchFailures.
  destruct (failedCoverage_ok (ciRequestedIDs inp) (ciFetch inp) (ciFetchFailed inp)) as [A B].
  rewrite failures_lookup by (intros i o Ho; by apply A in Ho as []).
  rewrite (bool_decide_eq_true_2 _ Hid). rewrite lookup_empty.
  destruct (failedCoverage _ _ _ !! id) as [o|] eqn:Hf.
  - apply returns_ret. destruct (A _ _ Hf) as [Ho Hu]. split; [done| |done].
    rewrite B, Hf. naive_solver.
  - assert (¬ providerFailed (ciFetch inp) id) as Hn by (rewrite B, Hf; naive_solver).
    destruct (byID !! id) as [f|] eqn:Hg; [|by apply returns_ret, unobserved_fair].
    destruct (returnedByID_lookup _ _ _ _ Hby Hg) as [Hin <-]. by apply healthComparison_fair.
Qed.
End collection.

(** The health poll of a cycle covers exactly the requested fixtures, in order,
    and blames only who is to blame: an observation says transport or contract
    failure exactly when the fetch lists the fixture as failed, local read and
    matching failures and missing results are never charged to the provider, and
    an observation with facts compares a fixture the provider returned with rows
    read from the tables. *)
Theorem collection_is_fair interferes pollFits fixtureFits providerFits inp byID db trace res db' :
  returnedByID inp.(ciFetch).(foFixtures) = Some byID →
  runs interferes (CollectProviderHealth true pollFits fixtureFits providerFits inp) db trace res db' →
  ∃ observations before after,
    Forall2 (fair inp.(ciFetch)) inp.(ciRequestedIDs) observations ∧
    outcome (λ _, healthrepo.Observe pollFits fixtureFits providerFits
      (mkHealthPoll inp.(ciPollID) inp.(ciObservedAt) observations)) before res after.
Proof.
  intros Hby. unfold CollectProviderHealth. cbn [negb]. rewrite Hby. cbv zeta.
  intros (obs & d1 & t1 & t2 & H1 & H & ->)%runs_bind.
  apply runs_call in H as (before & after & _ & Ho & _ & _).
  exists obs, before, after. split; [|done].
  pose proof (λ id, observationFor_fair interferes inp byID id Hby) as Hfair.
  set (failures := byFixture _ _) in *.
  enough (∀ ids pre acc d t d', (∀ id, id ∈ ids → id ∈ ciRequestedIDs inp) →
    Forall2 (fair (ciFetch inp)) pre acc →
    runs interferes (loop (λ acc id, o ← observationFor failures byID (ciObservedAt inp) id;
      mret (acc ++ [o])) acc ids) d t obs d' → Forall2 (fair (ciFetch inp)) (pre ++ ids) obs) as Hloop.
  { by eapply (Hloop _ [] []); [|constructor|exact H1]. }
  clear H1 Ho. induction ids as [|id ids IH]; intros pre acc d t d' Hids Hacc H1.
  { apply runs_ret in H1 as (_ & -> & _). by rewrite app_nil_r. }
  cbn in H1. apply runs_bind in H1 as (acc' & d2 & t3 & t4 & H2 & H3 & _).
  apply runs_bind in H2 as (o & d3 & t5 & t6 & H4 & (_ & -> & _)%runs_ret & _).
  change (id :: ids) with ([id] ++ ids). rewrite app_assoc. eapply IH; [|..|exact H3].
  - intros i Hi. apply Hids. by right.
  - apply Forall2_app; [done|]. constructor; [|done]. eapply Hfair; [|exact H4]. apply Hids. by left.
Qed.
End collect.
