(* ===== verification/Activation.v ===== *)
(** internal/activity/monitor/activation.go: promoting staging fixtures whose
    kickoff is near, and the staging poll that refreshes them and activates the
    ones that already started or were moved into the window. *)
From S2P Require Import Prelude GoStrings ApiFootball Fixture Event Identity Integrity Health Auditlog Presentation Plan Discovery Store Mutation Commit Guarantees Preserve Events Fixtures HealthRepo World Planning Activity.
#[local] Open Scope string_scope.
#[local] Open Scope list_scope.
#[local] Open Scope Z_scope.
Import apifootball providerintegrity health mutation discoverycontract pg boundary commit guarantees preserve world monitor planning activity.

Module activation.

(** ** ActivateUpcoming *)

Record ActivateUpcomingOutput := mkActivateUpcomingOutput {
  auConsidered : Z;
  auActivated : Z;
  auErrors : list string }.

#[global] Instance eta_ActivateUpcomingOutput : Eta ActivateUpcomingOutput := λ o,
  mkActivateUpcomingOutput o.(auConsidered) o.(auActivated) o.(auErrors).

Definition activateOne (now : Time) (lookahead : Duration) (out : ActivateUpcomingOutput)
    (f : fixture.Fixture) : act ActivateUpcomingOutput :=
  let failed err := out <| auErrors ::= λ l, l ++ [err] |> in
  if negb (fixture.ShouldActivateNow f now lookahead) then mret out
  else match fixture.Activate f now with
       | (_, Some _) => mret (failed "activate fixture")
       | (f, None) =>
           match fixtureActivatedAudit f.(fixture.fID) now "kickoff_soon" with
           | None => mret (failed "build activation audit")
           | Some audit =>
               transitioned ← call (λ v, fixturerepo.TransitionWithAudit v.(eNow) f audit);
               mret (match transitioned with
                     | inl _ => failed "activate fixture"
                     | inr true => out <| auActivated ::= λ n, n + 1 |>
                     | inr false => out end)
           end
       end.

Definition ActivateUpcoming (now : Time) (lookahead : Duration)
    : act (ActivateUpcomingOutput * option string) :=
  candidates ← call (λ _, fixturerepo.ListStagingBeforeKickoff (time_Add now lookahead));
  match candidates with
  | inl _ => mret (mkActivateUpcomingOutput 0 0 [], Some "list")
  | inr candidates =>
      out ← loop (activateOne now lookahead)
        (mkActivateUpcomingOutput (Z.of_nat (length candidates)) 0 []) candidates;
      mret (out, None)
  end.

(** ** PollStagingFixtures *)

Record PollStagingFixturesInput := mkPollStagingFixturesInput {
  psActivationWindow : Duration;
  psObservationID : string;
  psObservedAt : Time;
  psLegacyUnprotected : bool }.

Record PollStagingFixturesOutput := mkPollStagingFixturesOutput {
  poConsidered : Z;
  poPolled : Z;
  poMissedIDs : Z;
  poEmergencyActivated : Z;
  poKickoffActivated : Z;
  poErrors : list string }.

#[global] Instance eta_PollStagingFixturesOutput : Eta PollStagingFixturesOutput := λ o,
  mkPollStagingFixturesOutput o.(poConsidered) o.(poPolled) o.(poMissedIDs)
    o.(poEmergencyActivated) o.(poKickoffActivated) o.(poErrors).

Section polling.
Context (providerMutations : bool) (now : Time) (inp : PollStagingFixturesInput).

Definition observedAtOf : Time :=
  if IsZero inp.(psObservedAt) then now else inp.(psObservedAt).

(** The refreshed fixture with the reason for which it is activated, if any, or the
    error of the transition. *)
Definition stagingUpdate (f : fixture.Fixture) (af : APIFixture)
    : string + (fixture.Fixture * string) :=
  let newStatus := apiStatus af in
  let f := fixture.RecordStagingPoll (updateFixtureMetadataFromAPI f af) newStatus
    af.(Fixture).(FixtureDate) observedAtOf in
  if fixture.Live newStatus then
    match fixture.Activate f now with
    | (_, Some _) => inl "emergency activate fixture"
    | (f, None) => inr (f, "already_started")
    end
  else if fixture.ShouldActivateNow f now inp.(psActivationWindow) then
    match fixture.Activate f now with
    | (_, Some _) => inl "kickoff activate fixture"
    | (f, None) => inr (f, "kickoff_correction")
    end
  else inr (f, "").

Definition stagingPlan (baseline f : fixture.Fixture) (activate : bool)
    (audit : option auditlog.Record_) : FixtureMutationPlan :=
  mkFixtureMutationPlan (mkObservationGuard inp.(psObservationID) observedAtOf 0 false)
    MutationModeStaging (Some f) true (cloneOptionalTime baseline.(fixture.fLastPolledAt))
    (AssessFixture (mkFixtureComparison (providerFixtureFacts baseline) (providerFixtureFacts f)
       [] [] [])).(fvPolicy) activate audit.

(** Guarded, audited or plain: the row as the poll leaves it; true when it was
    applied. *)
Definition persistStaging (baseline f : fixture.Fixture) (reason : string)
    (audit : option auditlog.Record_) : act (string + bool) :=
  if providerMutations && negb inp.(psLegacyUnprotected) then
    result ← call (λ v, ApplyFixture v.(eNow) v.(eMode)
      (stagingPlan baseline f (negb (reason =? "")%string) audit));
    mret (match result with
          | inl err => inl err
          | inr r => inr (r.(mrApplied) && negb r.(mrStale)) end)
  else match audit with
       | Some audit => call (λ v, fixturerepo.TransitionWithAudit v.(eNow) f audit)
       | None => call (λ v, fixturerepo.RefreshStagingPoll v.(eNow) f)
       end.

Definition countPolled (reason : string) (out : PollStagingFixturesOutput) : PollStagingFixturesOutput :=
  let out := if (reason =? "already_started")%string then out <| poEmergencyActivated ::= λ n, n + 1 |>
    else if (reason =? "kickoff_correction")%string then out <| poKickoffActivated ::= λ n, n + 1 |>
    else out in
  out <| poPolled ::= λ n, n + 1 |>.

(** One candidate; the error, when there is one, ends the activity. *)
Definition pollOne (apiByID : gmap Z APIFixture) (st : PollStagingFixturesOutput * option string)
    (f : fixture.Fixture) : act (PollStagingFixturesOutput * option string) :=
  let '(out, err) := st in
  let failed err := (out <| poErrors ::= λ l, l ++ [err] |>, None) in
  if not_nil err then mret st
  else match apiByID !! f.(fixture.fID) with
  | None => mret st
  | Some af =>
      match stagingUpdate f af with
      | inl err => mret (failed err)
      | inr (updated, reason) =>
          let audit := if (reason =? "")%string then Some None
            else Some <$> fixtureActivatedAudit updated.(fixture.fID) now reason in
          match audit with
          | None => mret (failed "build activation audit")
          | Some audit =>
              if providerMutations && negb inp.(psLegacyUnprotected) &&
                (inp.(psObservationID) =? "")%string
              then mret (out, Some "guarded observation ID is required")
              else
                applied ← persistStaging f updated reason audit;
                mret (match applied with
                      | inl _ => failed "persist fixture"
                      | inr true => (countPolled reason out, None)
                      | inr false => (out, None) end)
          end
      end
  end.

(** [fetch] is the vendor's answer for the ids, with false for an error. *)
Definition PollStagingFixtures (fetch : list Z → FixturesByIDsResult * bool)
    : act (PollStagingFixturesOutput * option string) :=
  let out := mkPollStagingFixturesOutput 0 0 0 0 0 [] in
  candidates ← call (λ _, fixturerepo.ListByState fixture.StateStaging);
  match candidates with
  | inl _ => mret (out, Some "list")
  | inr [] => mret (out, None)
  | inr candidates =>
      let '(result, ok) := fetch (fixture.fID <$> candidates) in
      let out := out <| poConsidered := Z.of_nat (length candidates) |>
        <| poMissedIDs := Z.of_nat (length (FailedIDs result)) |> in
      if negb ok then mret (out, Some "fetch")
      else
        let apiByID := foldl (λ m af, <[af.(Fixture).(FixtureID) := af]> m) (∅ : gmap Z APIFixture)
          result.(ResultFixtures) in
        loop (pollOne apiByID) (out, None) candidates
  end.
End polling.

(** ** The staging poll as a worker *)

Section worker.
Context (l : limits) (providerMutations : bool) (now : Time) (inp : PollStagingFixturesInput).

Lemma activateOne_worker lookahead out f : worker l (activateOne now lookahead out f).
Proof.
  unfold activateOne. destruct (negb _); [done|].
  destruct (fixture.Activate f now) as [g [?|]]; [done|].
  destruct (fixtureActivatedAudit _ _ _) as [audit|]; [|done].
  apply worker_bind; [acts v (fixtureOp (fixturerepo.opTransition g audit))|done].
Qed.

Lemma persistStaging_worker baseline f reason audit :
  worker l (persistStaging providerMutations now inp baseline f reason audit).
Proof.
  unfold persistStaging. destruct (_ && _).
  - apply worker_bind; [|by intros []].
    acts v (boundaryCall (callFixture
      (stagingPlan now inp baseline f (negb (reason =? "")%string) audit))).
  - destruct audit as [audit|].
    + acts v (fixtureOp (fixturerepo.opTransition f audit)).
    + acts v (fixtureOp (fixturerepo.opRefreshStaging f)).
Qed.

Lemma pollOne_worker apiByID st f : worker l (pollOne providerMutations now inp apiByID st f).
Proof.
  unfold pollOne. destruct st as [out err]. destruct (not_nil err); [done|].
  destruct (apiByID !! _) as [af|]; [|done].
  destruct (stagingUpdate now inp f af) as [|[updated reason]]; [done|].
  destruct (if (reason =? "")%string then _ else _) as [audit|]; [|done].
  destruct (_ && _ && _); [done|].
  apply worker_bind; [apply persistStaging_worker|done].
Qed.

Lemma ActivateUpcoming_worker lookahead : worker l (ActivateUpcoming now lookahead).
Proof.
  unfold ActivateUpcoming. apply worker_bind; [by apply reads_worker, fixturesWhere_reads|].
  intros [|candidates]; [done|]. apply worker_bind; [|done].
  apply worker_loop. intros. apply activateOne_worker.
Qed.

Lemma PollStagingFixtures_worker fetch : worker l (PollStagingFixtures providerMutations now inp fetch).
Proof.
  unfold PollStagingFixtures. apply worker_bind; [by apply reads_worker, fixturesWhere_reads|].
  intros [|[|f fs]]; [done..|]. destruct (fetch _) as [result ok]. destruct (negb ok); [done|].
  apply worker_loop. intros. apply pollOne_worker.
Qed.
End worker.

(** Activation by the clock and the staging poll are workers of the system too: run
    among any others, with any failures, they keep the invariants of the tables and
    no fixture goes back in its life. *)
Theorem staging_keeps_world l providerMutations now inp fetch lookahead db :
  world_ok db →
  (∀ trace res db', runs (happens l) (ActivateUpcoming now lookahead) db trace res db' →
     world_ok db' ∧ forward_db db db') ∧
  (∀ trace res db', runs (happens l) (PollStagingFixtures providerMutations now inp fetch) db trace res db' →
     world_ok db' ∧ forward_db db db').
Proof.
  intros Hok. split; intros trace res db' H; apply worker_runs in H.
  - by destruct (world_steps l db db' Hok H) as (? & ? & _).
  - apply ActivateUpcoming_worker.
  - by destruct (world_steps l db db' Hok H) as (? & ? & _).
  - apply PollStagingFixtures_worker.
Qed.

(** ** What a staging observation decides *)

(** Which of the three reasons holds. *)
Ltac decide_reasons :=
  first [ done
        | split; intros; first [ done | split; first [done | lia] | destruct_and?; first [done | lia] ] ].

Lemma metadata_keeps f af :
  let g := updateFixtureMetadataFromAPI f af in
  fixture.lifecycle g = fixture.lifecycle f ∧ g.(fixture.fID) = f.(fixture.fID).
Proof. done. Qed.

(** The staging poll decides completely.  A staging fixture is refreshed with the
    reported status and kickoff at the observation time and never fails; it is
    activated as already started exactly when the reported status is live,
    activated for a corrected kickoff exactly when it is not live and the reported
    kickoff is no later than the end of the window, and otherwise stays in staging;
    in every case the row satisfies the fixture invariants. *)
Theorem staging_poll_decides now inp f af :
  f.(fixture.fState) = fixture.StateStaging → fixture.ValidateInvariants f = None →
  ∃ g reason, stagingUpdate now inp f af = inr (g, reason) ∧
    g.(fixture.fID) = f.(fixture.fID) ∧ g.(fixture.fLastPolledAt) = Some (observedAtOf now inp) ∧
    g.(fixture.fKickoff) = af.(Fixture).(FixtureDate) ∧ g.(fixture.fAPIStatus) = apiStatus af ∧
    fixture.ValidateInvariants g = None ∧
    let live := fixture.Live (apiStatus af) = true in
    let near := af.(Fixture).(FixtureDate) ≤ now + inp.(psActivationWindow) in
    (reason = "already_started" ↔ live) ∧ (reason = "kickoff_correction" ↔ ¬ live ∧ near) ∧
    (reason = "" ↔ ¬ live ∧ ¬ near) ∧
    g.(fixture.fState) = (if (reason =? "")%string then fixture.StateStaging else fixture.StateActive) ∧
    g.(fixture.fActivatedAt) = (if (reason =? "")%string then None else Some now).
Proof.
  intros Hst Hinv%fixture.ValidateInvariants_accepted.
  assert (f.(fixture.fActivatedAt) = None) as Hnone.
  { unfold fixture.lifecycle in Hinv. rewrite Hst in Hinv. inversion Hinv as [H| |].
    by destruct (fixture.fActivatedAt f). }
  unfold stagingUpdate. set (r := fixture.RecordStagingPoll _ _ _ _).
  assert (r.(fixture.fState) = fixture.StateStaging) as Hr by exact Hst.
  assert (r.(fixture.fActivatedAt) = None) as Ha by exact Hnone.
  change (fixture.lifecycle f) with (fixture.lifecycle r) in Hinv.
  pose proof (fixture.Activate_accepted r now Hinv) as Hact.
  assert (fixture.Activate r now = (r <| fixture.fState := fixture.StateActive |>
    <| fixture.fActivatedAt := Some now |> <| fixture.fUpdatedAt := now |>, None)) as Heq
    by (unfold fixture.Activate; by rewrite Hr).
  destruct (fixture.Live (apiStatus af)) eqn:Hlive.
  { rewrite Heq in Hact |- *. eexists _, "already_started". split; [done|].
    repeat (split; [done|]). split; [by apply fixture.ValidateInvariants_accepted|].
    cbv zeta; do 4 (split; [decide_reasons|]); decide_reasons. }
  assert (fixture.ShouldActivateNow r now (psActivationWindow inp) =
    negb (now + psActivationWindow inp <? FixtureDate (Fixture af))) as ->
    by (unfold fixture.ShouldActivateNow; by rewrite Hr).
  destruct (Z.ltb_spec (now + psActivationWindow inp) (FixtureDate (Fixture af))) as [Hlt|Hle].
  - eexists r, "". split; [done|]. repeat (split; [done|]).
    split; [by apply fixture.ValidateInvariants_accepted|].
    cbv zeta; do 4 (split; [decide_reasons|]); decide_reasons.
  - cbn [negb]. rewrite Heq in Hact |- *. eexists _, "kickoff_correction". split; [done|].
    repeat (split; [done|]). split; [by apply fixture.ValidateInvariants_accepted|].
    cbv zeta; do 4 (split; [decide_reasons|]); decide_reasons.
Qed.

(** A response without a kickoff date activates a staging fixture: the poll
    replaces the known kickoff by the zero time, although the metadata refresh
    takes care to keep it, and the zero time is inside every window. *)
Theorem missing_date_activates now inp f af :
  f.(fixture.fState) = fixture.StateStaging → IsZero af.(Fixture).(FixtureDate) = true →
  fixture.Live (apiStatus af) = false → 0 ≤ now + inp.(psActivationWindow) →
  (updateFixtureMetadataFromAPI f af).(fixture.fKickoff) = f.(fixture.fKickoff) ∧
  ∃ g, stagingUpdate now inp f af = inr (g, "kickoff_correction") ∧
    g.(fixture.fState) = fixture.StateActive ∧ g.(fixture.fKickoff) = zero_time.
Proof.
  intros Hst Hz Hlive Hw. split.
  { unfold updateFixtureMetadataFromAPI. by rewrite Hz. }
  unfold stagingUpdate. rewrite Hlive. set (r := fixture.RecordStagingPoll _ _ _ _).
  assert (r.(fixture.fState) = fixture.StateStaging) as Hr by exact Hst.
  assert (r.(fixture.fKickoff) = zero_time) as Hk by (apply Z.eqb_eq in Hz; exact Hz).
  unfold fixture.ShouldActivateNow, fixture.Activate. rewrite Hr, Hk. cbn.
  unfold After, time_Add, zero_time.
  destruct (Z.ltb_spec (now + psActivationWindow inp) 0); [lia|]. cbn. by eexists.
Qed.
End activation.
