(* ===== verification/Spawner.v ===== *)
(** internal/activity/monitor/spawner.go: starting the discovery workflow of an
    event, and the recovery of a running workflow that stopped making progress.
    The workflow service is not modelled: its answers are arguments of the call. *)
From S2P Require Import Prelude GoStrings Discovery.
#[local] Open Scope string_scope.
#[local] Open Scope list_scope.
#[local] Open Scope Z_scope.
Import discoverycontract.

Module spawner.

(** ** State and answers *)

Record workflowObservation := mkWorkflowObservation {
  woRunID : string;
  woHistoryLength : Z;
  woStateTransitionCount : Z;
  woProgressAt : Time }.

#[global] Instance eta_workflowObservation : Eta workflowObservation := λ o,
  mkWorkflowObservation o.(woRunID) o.(woHistoryLength) o.(woStateTransitionCount) o.(woProgressAt).

(** The fields of a description that the code reads; [None] is a missing message. *)
Record executionInfo := mkExecutionInfo {
  eiRunning : bool;
  eiRunID : option string;
  eiStartTime : option Time;
  eiHistoryLength : Z;
  eiStateTransitionCount : Z }.

Record description := mkDescription {
  deInfo : option executionInfo;
  dePendingHeartbeats : list (option Time) }.

Inductive startAnswer :=
  | startAccepted
  | startAlreadyStarted
  | startError (err : string).

(** What the service answers to the requests of one call, and the clock's reading. *)
Record answers := mkAnswers {
  anStart : startAnswer;
  anDescribe : string + description;
  anTerminate : option string;
  anRestart : startAnswer;
  anNow : Time }.

Inductive request :=
  | StartWorkflow (workflowID : string) (input : EventWorkflowInput)
  | DescribeWorkflowExecution (workflowID : string)
  | TerminateWorkflow (workflowID runID : string).

Definition defaultEventWorkflowStaleAfter : Duration := 30 * time_Minute.

(** The constructor's defaults. *)
Definition staleAfterOf (staleAfter : Duration) : Duration :=
  if staleAfter <=? 0 then defaultEventWorkflowStaleAfter else staleAfter.

Definition ConservativeEventStaleAfter (attemptSpacing queryTimeout : Duration) : Duration :=
  let staleAfter := defaultEventWorkflowStaleAfter in
  let timerBound := wrap64 (2 * attemptSpacing) in
  let staleAfter := if staleAfter <? timerBound then timerBound else staleAfter in
  let searchBound := wrap64 (wrap64 (4 * queryTimeout) + 5 * time_Minute) in
  if staleAfter <? searchBound then searchBound else staleAfter.

(** ** The spawner *)

Abbreviation observations := (gmap string workflowObservation) (only parsing).

Section spawner.
Context (StaleAfter : Duration).

Definition forget (workflowID : string) (obs : observations) : observations := delete workflowID obs.

Definition pruneLocked (now : Time) (currentWorkflowID : string) (obs : observations) : observations :=
  let retention := wrap64 (4 * StaleAfter) in
  filter (λ p, p.1 = currentWorkflowID ∨ retention <? time_Sub now p.2.(woProgressAt) = false) obs.

(** The latest heartbeat that is not in the future, or the recorded progress. *)
Definition latestProgress (now progressAt : Time) (heartbeats : list (option Time)) : Time :=
  foldl (λ progressAt heartbeat, match heartbeat with
    | Some heartbeatAt =>
        if After heartbeatAt progressAt && negb (After heartbeatAt now) then heartbeatAt else progressAt
    | None => progressAt end) progressAt heartbeats.

(** The snapshot of a description, with the run's start; [None] where the code
    returns before it records anything. *)
Definition snapshot (now : Time) (desc : description) : option (workflowObservation * Time) :=
  match desc.(deInfo) with
  | None => None
  | Some info =>
      match info.(eiRunID), info.(eiStartTime) with
      | Some runID, Some start =>
          if (runID =? "")%string then None
          else if Before now start then None
          else Some (mkWorkflowObservation runID info.(eiHistoryLength) info.(eiStateTransitionCount) now,
                     start)
      | _, _ => None
      end
  end.

Definition sameCounters (l r : workflowObservation) : bool :=
  (l.(woRunID) =? r.(woRunID))%string && (l.(woHistoryLength) =? r.(woHistoryLength)) &&
  (l.(woStateTransitionCount) =? r.(woStateTransitionCount)).

Definition provenStale (workflowID : string) (now : Time) (desc : description) (obs : observations)
    : bool * observations :=
  match snapshot now desc with
  | None => (false, obs)
  | Some (current, start) =>
      let obs := pruneLocked now workflowID obs in
      match obs !! workflowID with
      | None => (false, <[workflowID := current]> obs)
      | Some previous =>
          if negb (sameCounters previous current) then (false, <[workflowID := current]> obs)
          else
            let progressAt := latestProgress now previous.(woProgressAt) desc.(dePendingHeartbeats) in
            let obs := if After progressAt previous.(woProgressAt)
              then <[workflowID := previous <| woProgressAt := progressAt |>]> obs else obs in
            ((StaleAfter <=? time_Sub now start) && (StaleAfter <=? time_Sub now progressAt), obs)
      end
  end.

(** One call: the error if any, the requests in order, the observations. *)
Definition SpawnEvent (workflowID : string) (input : EventWorkflowInput) (an : answers)
    (obs : observations) : option string * list request * observations :=
  let start := StartWorkflow workflowID input in
  match an.(anStart) with
  | startAccepted => (None, [start], forget workflowID obs)
  | startError err => (Some err, [start], obs)
  | startAlreadyStarted =>
      let asked := [start; DescribeWorkflowExecution workflowID] in
      match an.(anDescribe) with
      | inl err => (Some err, asked, obs)
      | inr desc =>
          match desc.(deInfo) with
          | None => (None, asked, forget workflowID obs)
          | Some info =>
              if negb info.(eiRunning) then (None, asked, forget workflowID obs)
              else
                let '(stale, obs) := provenStale workflowID an.(anNow) desc obs in
                if negb stale then (None, asked, obs)
                else
                  let terminate := TerminateWorkflow workflowID (default "" info.(eiRunID)) in
                  match an.(anTerminate) with
                  | Some err => (Some err, asked ++ [terminate], obs)
                  | None =>
                      let done_ := asked ++ [terminate; start] in
                      match an.(anRestart) with
                      | startAccepted | startAlreadyStarted => (None, done_, forget workflowID obs)
                      | startError err => (Some err, done_, forget workflowID obs)
                      end
                  end
          end
      end
  end.
End spawner.

(** ** Histories of calls *)

Record call := mkCall { cWorkflow : string; cInput : EventWorkflowInput; cAnswers : answers }.

(** The observations after the calls, newest first, from an empty map. *)
Definition after (StaleAfter : Duration) (calls : list call) : observations :=
  foldr (λ c obs, (SpawnEvent StaleAfter c.(cWorkflow) c.(cInput) c.(cAnswers) obs).2) ∅ calls.

(** The running execution a duplicate start was answered with. *)
Definition described (an : answers) : option description :=
  match an.(anStart), an.(anDescribe) with
  | startAlreadyStarted, inr desc =>
      match desc.(deInfo) with
      | Some info => if info.(eiRunning) then Some desc else None
      | None => None
      end
  | _, _ => None
  end.

(** What a call saw of the execution, when it saw enough to record it. *)
Definition seen (an : answers) : option (workflowObservation * Time) :=
  match described an with Some desc => snapshot an.(anNow) desc | None => None end.

(** The heartbeats of the description are no later than [t], future ones aside. *)
Definition beats_before (an : answers) (t : Time) : Prop :=
  ∀ desc h, described an = Some desc → Some h ∈ desc.(dePendingHeartbeats) → h ≤ an.(anNow) → h ≤ t.

(** The call saw the same run with the same counters and no heartbeat after [t],
    and did not start a new execution. *)
Definition quiet (o : workflowObservation) (t : Time) (an : answers) : Prop :=
  an.(anStart) ≠ startAccepted ∧
  ∀ o1 start, seen an = Some (o1, start) → sameCounters o o1 = true ∧ beats_before an t.

(** [o] was first recorded by a call to [w], and every call to [w] since was quiet. *)
Definition quiet_since (calls : list call) (w : string) (o : workflowObservation) (t : Time) : Prop :=
  ∃ later c0 earlier o0 start0,
    calls = later ++ c0 :: earlier ∧ c0.(cWorkflow) = w ∧
    seen c0.(cAnswers) = Some (o0, start0) ∧ sameCounters o o0 = true ∧
    c0.(cAnswers).(anNow) ≤ t ∧
    ∀ c, c ∈ later → c.(cWorkflow) = w → quiet o t c.(cAnswers).

(** ** Progress *)

Lemma sameCounters_spec l r :
  sameCounters l r = true ↔ l.(woRunID) = r.(woRunID) ∧ l.(woHistoryLength) = r.(woHistoryLength) ∧
    l.(woStateTransitionCount) = r.(woStateTransitionCount).
Proof. unfold sameCounters. rewrite !andb_true_iff, String.eqb_eq, !Z.eqb_eq. naive_solver. Qed.

Lemma latestProgress_ge now p hs : p ≤ latestProgress now p hs.
Proof.
  revert p. induction hs as [|[h|] hs IH]; intros p; [done| |apply IH]. simpl.
  etrans; [|apply IH]. destruct (_ && _) eqn:E; [|done]. simpl_bools. lia.
Qed.

Lemma latestProgress_beats now p hs h : Some h ∈ hs → h ≤ now → h ≤ latestProgress now p hs.
Proof.
  revert p. induction hs as [|x hs IH]; intros p Hh Hn; [by apply elem_of_nil in Hh|].
  apply elem_of_cons in Hh as [<-|Hh]; [|by apply IH]. simpl.
  etrans; [|apply latestProgress_ge]. destruct (_ && _) eqn:E; [done|]. simpl_bools. lia.
Qed.

Lemma stale_enough S t u : 0 < S ≤ int64_max → (S <=? time_Sub t u) = true ↔ u ≤ t - S.
Proof. unfold time_Sub, int64_max, int64_min. rewrite Z.leb_le. lia. Qed.

Section history.
Context (StaleAfter : Duration) (HS : 0 < StaleAfter ≤ int64_max).

Lemma prune_lookup now w obs i o : pruneLocked StaleAfter now w obs !! i = Some o → obs !! i = Some o.
Proof. unfold pruneLocked. by intros [? _]%map_lookup_filter_Some. Qed.

Lemma prune_keeps now w obs : pruneLocked StaleAfter now w obs !! w = obs !! w.
Proof.
  unfold pruneLocked. rewrite map_lookup_filter. destruct (obs !! w) as [o|]; [|done].
  cbn. by rewrite option_guard_True by (by left).
Qed.

(** The recorded observation is as old as its last evidence of progress. *)
Definition recorded (calls : list call) (obs : observations) : Prop :=
  ∀ w o, obs !! w = Some o → quiet_since calls w o o.(woProgressAt).

Lemma quiet_since_other calls c w o t :
  quiet_since calls w o t → (c.(cWorkflow) = w → quiet o t c.(cAnswers)) →
  quiet_since (c :: calls) w o t.
Proof.
  intros (later & c0 & earlier & o0 & start0 & -> & Hw & Hs & Hc & Ht & Hq) Hn.
  exists (c :: later), c0, earlier, o0, start0. repeat (split; [done|]).
  intros c' [->|Hc']%elem_of_cons; [done|by apply Hq].
Qed.

Lemma quiet_weaken o t t' an : t ≤ t' → quiet o t an → quiet o t' an.
Proof.
  intros Ht [Hs Hq]. split; [done|]. intros o1 start Ho. destruct (Hq _ _ Ho) as [Hc Hb].
  split; [done|]. intros desc h Hd Hh Hn. etrans; [by eapply Hb|done].
Qed.

Lemma quiet_since_weaken calls w o o' t t' :
  t ≤ t' → o'.(woRunID) = o.(woRunID) → o'.(woHistoryLength) = o.(woHistoryLength) →
  o'.(woStateTransitionCount) = o.(woStateTransitionCount) →
  quiet_since calls w o t → quiet_since calls w o' t'.
Proof.
  intros Ht H1 H2 H3 (later & c0 & earlier & o0 & start0 & -> & Hw & Hs & Hc & Hle & Hq).
  exists later, c0, earlier, o0, start0.
  assert (∀ x, sameCounters o x = true → sameCounters o' x = true) as Hsame
    by (intros x; rewrite !sameCounters_spec, H1, H2, H3; done).
  repeat (split; [by auto||lia|]). intros c Hc1 Hcw.
  apply (quiet_weaken _ t); [done|]. destruct (Hq c Hc1 Hcw) as [Ha Hb]. split; [done|].
  intros o1 start Ho. destruct (Hb _ _ Ho). by auto.
Qed.

(** The call does not leave the observations of other workflows fresher. *)
Lemma SpawnEvent_others w input an obs i o :
  i ≠ w → (SpawnEvent StaleAfter w input an obs).2 !! i = Some o → obs !! i = Some o.
Proof.
  intros Hi. unfold SpawnEvent, forget, provenStale.
  repeat (case_match; simplify_eq/=); rewrite ?lookup_delete_ne, ?lookup_insert_ne by done;
    try done; apply prune_lookup.
Qed.

Lemma provenStale_own w now desc obs :
  match snapshot now desc with
  | None => provenStale StaleAfter w now desc obs = (false, obs)
  | Some (current, start) =>
      let r := provenStale StaleAfter w now desc obs in
      (r.1 = false ∧ r.2 !! w = Some current) ∨
      ∃ previous, obs !! w = Some previous ∧ sameCounters previous current = true ∧
        let p := latestProgress now previous.(woProgressAt) desc.(dePendingHeartbeats) in
        r.2 !! w = Some (previous <| woProgressAt := p |>) ∧
        (r.1 = true → start ≤ now - StaleAfter ∧ p ≤ now - StaleAfter)
  end.
Proof.
  unfold provenStale. destruct (snapshot now desc) as [[current start]|] eqn:Hs; [|done].
  rewrite prune_keeps. destruct (obs !! w) as [previous|] eqn:Hw.
  2:{ left. split; [done|]. cbn [snd]. by rewrite lookup_insert_eq. }
  destruct (sameCounters previous current) eqn:Hc; cbn [negb].
  2:{ left. split; [done|]. cbn [snd]. by rewrite lookup_insert_eq. }
  right. exists previous. split; [done|]. split; [done|].
  pose proof (latestProgress_ge now (woProgressAt previous) (dePendingHeartbeats desc)) as Hge.
  set (p := latestProgress _ _ _) in *. split.
  - unfold After. destruct (woProgressAt previous <? p) eqn:Hp; cbn [snd]; [by rewrite lookup_insert_eq|].
    rewrite prune_keeps, Hw. f_equal. destruct previous. simpl in *. f_equal. apply Z.ltb_ge in Hp. lia.
  - cbn [fst]. intros [H1 H2]%andb_true_iff. split; by apply stale_enough.
Qed.

(** The ways an observation of the called workflow survives or arises. *)
Lemma SpawnEvent_own w input an obs o :
  (SpawnEvent StaleAfter w input an obs).2 !! w = Some o →
  (obs !! w = Some o ∧ seen an = None ∧ an.(anStart) ≠ startAccepted) ∨
  (∃ start, seen an = Some (o, start)) ∨
  ∃ previous current start desc, obs !! w = Some previous ∧ described an = Some desc ∧
    seen an = Some (current, start) ∧ sameCounters previous current = true ∧
    o = previous <| woProgressAt := latestProgress an.(anNow) previous.(woProgressAt)
          desc.(dePendingHeartbeats) |>.
Proof.
  unfold SpawnEvent, seen, described, forget.
  destruct (anStart an) eqn:Ha; simpl; [by rewrite lookup_delete_eq| |by left].
  destruct (anDescribe an) as [err|desc] eqn:Hd; [by left|].
  destruct (deInfo desc) as [info|] eqn:Hi; simpl; [|by rewrite lookup_delete_eq].
  destruct (eiRunning info); simpl; [|by rewrite lookup_delete_eq].
  pose proof (provenStale_own w (anNow an) desc obs) as H.
  destruct (provenStale StaleAfter w (anNow an) desc obs) as [stale obs'].
  destruct (snapshot (anNow an) desc) as [[current start]|] eqn:Hs.
  - assert (∀ x, (if negb stale then obs' else x) !! w = Some o → x !! w = None ∨ x = obs' →
      obs' !! w = Some o) as Hx.
    { intros x Hx [Hn| ->]; destruct stale; simpl in Hx; congruence. }
    intros Ho. assert (obs' !! w = Some o) as Ho'.
    { destruct stale; simpl in Ho; [|done]. destruct (anTerminate an); [done|].
      destruct (anRestart an); simpl in Ho; by rewrite lookup_delete_eq in Ho. }
    right. simpl in H. destruct H as [[_ H]|(previous & Hp & Hc & H & _)].
    + left. exists start. congruence.
    + right. exists previous, current, start, desc. rewrite Ho' in H. by simplify_eq.
  - injection H as -> ->. by left.
Qed.

Lemma after_recorded calls : recorded calls (after StaleAfter calls).
Proof.
  induction calls as [|c calls IH]; [done|]. intros w o Ho. cbn [after foldr] in Ho.
  fold (after StaleAfter calls) in Ho. set (obs := after StaleAfter calls) in *.
  destruct (decide (c.(cWorkflow) = w)) as [<-|Hne].
  2:{ apply SpawnEvent_others in Ho; [|done..]. apply quiet_since_other; [by apply IH|done]. }
  apply SpawnEvent_own in Ho as [(Ho & Hs & Ha)|[(start & Hs)|H]].
  - apply quiet_since_other; [by apply IH|]. intros _. split; [done|]. congruence.
  - exists [], c, calls, o, start. repeat (split; [done|]).
    split; [by apply sameCounters_spec|]. split; [|by intros ? ?%elem_of_nil].
    unfold seen in Hs. destruct (described _) as [desc|]; [|done]. unfold snapshot in Hs.
    by repeat (case_match; simplify_eq/=).
  - destruct H as (previous & current & start & desc & Hp & Hd & Hs & Hc & ->). simpl.
    apply quiet_since_other.
    + apply (quiet_since_weaken _ _ previous _ previous.(woProgressAt));
        [apply latestProgress_ge|done..|by apply IH].
    + intros _. split; [unfold described in Hd; by repeat (case_match; try done)|].
      intros o1 start1 Ho1. rewrite Hs in Ho1. injection Ho1 as <- <-.
      split; [by apply sameCounters_spec in Hc; apply sameCounters_spec|].
      intros desc' h Hd' Hh Hn. rewrite Hd in Hd'. injection Hd' as <-. by apply latestProgress_beats.
Qed.

(** A termination request has the evidence behind it. *)
Lemma terminate_seen w input an obs wf run :
  TerminateWorkflow wf run ∈ (SpawnEvent StaleAfter w input an obs).1.2 →
  wf = w ∧ ∃ previous current start desc, obs !! w = Some previous ∧ described an = Some desc ∧
    seen an = Some (current, start) ∧ sameCounters previous current = true ∧
    current.(woRunID) = run ∧ start ≤ an.(anNow) - StaleAfter ∧
    latestProgress an.(anNow) previous.(woProgressAt) desc.(dePendingHeartbeats)
      ≤ an.(anNow) - StaleAfter.
Proof.
  unfold SpawnEvent, seen, described.
  destruct (anStart an); simpl; [set_solver| |set_solver].
  destruct (anDescribe an) as [err|desc]; simpl; [set_solver|].
  destruct (deInfo desc) as [info|] eqn:Hi; simpl; [|set_solver].
  destruct (eiRunning info) eqn:Hr; simpl; [|set_solver].
  pose proof (provenStale_own w (anNow an) desc obs) as H.
  destruct (provenStale StaleAfter w (anNow an) desc obs) as [stale obs'].
  destruct stale; simpl; [|set_solver]. intros Hin.
  assert (wf = w ∧ run = default "" (eiRunID info)) as [-> ->].
  { destruct (anTerminate an); [set_solver|]. destruct (anRestart an); set_solver. }
  split; [done|].
  destruct (snapshot (anNow an) desc) as [[current start]|] eqn:Hs; [|done].
  destruct H as [[? _]|(previous & Hp & Hc & _ & H)]; [done|]. simpl in H.
  exists previous, current, start, desc. repeat (split; [done|]).
  split; [|by apply H]. unfold snapshot in Hs. rewrite Hi in Hs.
  by repeat (case_match; simplify_eq/=).
Qed.
End history.

(** C30: A discovery run is terminated only on evidence: the run described now is
    the one that is terminated, it is running and started at least [StaleAfter]
    ago; an earlier call, at least [StaleAfter] ago, saw the same run with the
    same history length and transition count; every call for that workflow since
    saw it unchanged or nothing and none started it anew; and no heartbeat that
    any of them saw, or this one sees, is within the last [StaleAfter]. *)
Theorem termination_is_proven StaleAfter calls w input an wf run :
  0 < StaleAfter ≤ int64_max →
  TerminateWorkflow wf run ∈ (SpawnEvent StaleAfter w input an (after StaleAfter calls)).1.2 →
  wf = w ∧ ∃ o start, seen an = Some (o, start) ∧ o.(woRunID) = run ∧
    start ≤ an.(anNow) - StaleAfter ∧
    quiet_since calls w o (an.(anNow) - StaleAfter) ∧ beats_before an (an.(anNow) - StaleAfter).
Proof.
  intros HS H. apply terminate_seen in H
    as (-> & previous & o & start & desc & Hp & Hd & Hs & Hc & Hrun & Hst & Hle); [|done].
  split; [done|]. exists o, start. repeat (split; [done|]). split.
  - apply sameCounters_spec in Hc as (H1 & H2 & H3).
    apply (quiet_since_weaken _ _ previous _ previous.(woProgressAt));
      [|by symmetry..|by apply (after_recorded _ HS)].
    etrans; [apply latestProgress_ge|done].
  - intros desc' h Hd' Hh Hn. rewrite Hd in Hd'. injection Hd' as <-.
    etrans; [|exact Hle]. by apply latestProgress_beats.
Qed.

(** The bound on a quiet workflow covers every legitimate wait: thirty minutes,
    twice the spacing of the search attempts, and the retry chain of a search, and
    it is no longer than the longest of them. *)
Theorem stale_bound_covers spacing query :
  0 ≤ spacing ≤ int64_max / 2 → 0 ≤ query ≤ int64_max / 4 - 5 * time_Minute →
  let bound := ConservativeEventStaleAfter spacing query in
  bound = Z.max (30 * time_Minute) (Z.max (2 * spacing) (4 * query + 5 * time_Minute)) ∧
  0 < bound ≤ int64_max ∧ staleAfterOf bound = bound.
Proof.
  unfold ConservativeEventStaleAfter, staleAfterOf, defaultEventWorkflowStaleAfter, time_Minute,
    time_Second. change (int64_max / 2) with 4611686018427387903.
  change (int64_max / 4) with 2305843009213693951. intros H1 H2.
  assert (∀ z, - 2 ^ 63 ≤ z ≤ 2 ^ 63 - 1 → wrap64 z = z) as Hw by (intros; by apply wrap64_id).
  rewrite (Hw (2 * spacing)), (Hw (4 * query)), (Hw (4 * query + _)) by lia.
  cbn zeta. unfold int64_max. repeat case_match; simpl_bools; repeat split; lia.
Qed.
End spawner.
