(* ===== verification/Search.v ===== *)
(** internal/contract/twittersearch (types.go, accounting.go, window.go): the
    contract between the browser service, its client and the discovery activities;
    and the types and the configuration of the discovery activities
    (internal/activity/discovery/activities.go, candidates.go, completion.go).

    Floats are IEEE binary64 values; durations and instants are nanoseconds. *)
From S2P Require Import Prelude GoStrings Event Discovery.
From Stdlib Require Import SpecFloat.
#[local] Open Scope string_scope.
#[local] Open Scope list_scope.
#[local] Open Scope Z_scope.
Import discoverycontract.

Module twittersearch.

(** ** types.go *)

Definition ResultState := string.
Definition ResultRendered : ResultState := "rendered".
Definition ResultExplicitEmpty : ResultState := "explicit_empty".
Definition ResultLogin : ResultState := "login".
Definition ResultUpstreamError : ResultState := "upstream_error".
Definition ResultUnknownTimeout : ResultState := "unknown_timeout".

Definition ResultState_Usable (s : ResultState) : bool :=
  (s =? ResultRendered)%string || (s =? ResultExplicitEmpty)%string.

Definition ResultState_Known (s : ResultState) : bool :=
  one_of s [ResultRendered; ResultExplicitEmpty; ResultLogin; ResultUpstreamError;
    ResultUnknownTimeout].

(** ** accounting.go *)

Definition MaxTimelineRecords : Z := 64.

Record TimelineRequestRecord := mkTimelineRequestRecord {
  trSequence : Z;
  trStartedMS : Z;
  trResponseMS : option Z;
  trEndedMS : option Z;
  trStatus : Z;
  trFailed : bool;
  trRateLimitLimit : option Z;
  trRateLimitRemain : option Z;
  trRateLimitReset : option Z }.

Record TimelineAccounting := mkTimelineAccounting {
  taScanID : string;
  taStartedAt : Time;
  taObservedAt : Time;
  taRequests : Z;
  taResponses : Z;
  taFinished : Z;
  taFailed : Z;
  taRateLimited : Z;
  taServerErrors : Z;
  taDroppedRecords : Z;
  taUnmatchedEvents : Z;
  taRecords : list TimelineRequestRecord }.

Record SearchEvidence := mkSearchEvidence {
  seFinalURL : string;
  sePageTitle : string;
  seAppShell : bool;
  seEmptyState : bool;
  seErrorState : bool;
  seTimelineSeen : bool;
  seTimelineStatus : Z;
  seTimelineFailure : string;
  seRateLimitLimit : string;
  seRateLimitRemain : string;
  seRateLimitReset : string;
  seTimeline : option TimelineAccounting }.

#[global] Instance eta_SearchEvidence : Eta SearchEvidence := λ e,
  mkSearchEvidence e.(seFinalURL) e.(sePageTitle) e.(seAppShell) e.(seEmptyState)
    e.(seErrorState) e.(seTimelineSeen) e.(seTimelineStatus) e.(seTimelineFailure)
    e.(seRateLimitLimit) e.(seRateLimitRemain) e.(seRateLimitReset) e.(seTimeline).

Definition noSearchEvidence : SearchEvidence :=
  mkSearchEvidence "" "" false false false false 0 "" "" "" "" None.

Record VideoRef := mkVideoRef {
  vrTweetURL : string;
  vrTweetText : string;
  vrVideoPageURL : string;
  vrDurationSeconds : spec_float;
  vrUsername : string;
  vrAgeMinutes : spec_float }.

(** ** window.go *)

Record SearchWindow := mkSearchWindow {
  EarliestTweetAt : Time;
  AllowSeenStop : bool }.

#[global] Instance eta_SearchWindow : Eta SearchWindow := λ w,
  mkSearchWindow w.(EarliestTweetAt) w.(AllowSeenStop).

Record SearchRequest := mkSearchRequest {
  rqQuery : string;
  rqExcludeURLs : list string;
  rqMaxAgeMinutes : Z;
  rqWindow : option SearchWindow }.

Record SearchResponse := mkSearchResponse {
  rsStatus : string;
  rsResultState : ResultState;
  rsEvidence : SearchEvidence;
  rsVideos : list VideoRef;
  rsCount : Z;
  rsQuery : string;
  rsStopReason : string;
  rsScrolls : Z;
  rsInitialArticles : Z;
  rsTweetsParsed : Z;
  rsVideoTweets : Z;
  rsElapsed : string;
  rsWindow : option SearchWindow }.

(** [true]: the window is accepted. *)
Definition SearchWindow_Validate (w : SearchWindow) : bool := negb (IsZero w.(EarliestTweetAt)).

Definition SearchWindow_Equal (w other : SearchWindow) : bool :=
  (w.(EarliestTweetAt) =? other.(EarliestTweetAt)) &&
  Bool.eqb w.(AllowSeenStop) other.(AllowSeenStop).

Definition SearchWindow_After (w : SearchWindow) (state : ResultState) (stopReason : string)
  : SearchWindow :=
  w <| AllowSeenStop := (state =? ResultRendered)%string &&
    ((stopReason =? "age")%string ||
     ((stopReason =? "consecutive_seen")%string && w.(AllowSeenStop))) |>.

Definition SearchRequest_ValidateWindow (r : SearchRequest) : bool :=
  match r.(rqWindow) with
  | None => true
  | Some w => (r.(rqMaxAgeMinutes) =? 0) && SearchWindow_Validate w
  end.

End twittersearch.

Module discoveryactivity.
Import twittersearch.

(** ** activities.go *)

(** The fields of Activities that hold configuration. *)
Record Activities := mkActivities {
  aMaxAttempts : Z;
  aMaxUnavailableAttempts : Z;
  aAttemptSpacing : Duration;
  aMaxAgeMinutes : Z;
  aQueryTimeout : Duration;
  aMaxHamming : Z;
  aMinRunFrames : Z;
  aMaxGapFrames : Z;
  aLongMaxHamming : Z;
  aLongMinRunFrames : Z;
  aLongMaxGapFrames : Z;
  aFleetEnabled : bool }.

Record GetDiscoveryConfigOutput := mkGetDiscoveryConfigOutput {
  MaxAttempts : Z;
  MaxUnavailableAttempts : Z;
  AttemptSpacing : Duration;
  MaxAgeMinutes : Z;
  QueryTimeout : Duration;
  MaxHamming : Z;
  MinRunFrames : Z;
  MaxGapFrames : Z;
  LongMaxHamming : Z;
  LongMinRunFrames : Z;
  LongMaxGapFrames : Z;
  FleetEnabled : bool }.

Definition fallbackMaxAttempts : Z := 10.
Definition fallbackAttemptSpacing : Duration := 60 * time_Second.
Definition fallbackMaxAgeMinutes : Z := 3.
Definition fallbackQueryTimeout : Duration := 2 * time_Minute.
Definition fallbackMaxHamming : Z := 12.
Definition fallbackMinRunFrames : Z := 30.
Definition fallbackMaxGapFrames : Z := 3.
Definition fallbackLongMaxHamming : Z := 16.
Definition fallbackLongMinRunFrames : Z := 50.
Definition fallbackLongMaxGapFrames : Z := 5.

Definition orElse (value fallback : Z) : Z := if value =? 0 then fallback else value.

Definition GetDiscoveryConfig (a : Activities) : GetDiscoveryConfigOutput :=
  let maxAttempts := orElse a.(aMaxAttempts) fallbackMaxAttempts in
  mkGetDiscoveryConfigOutput maxAttempts
    (orElse a.(aMaxUnavailableAttempts) maxAttempts)
    (orElse a.(aAttemptSpacing) fallbackAttemptSpacing)
    (orElse a.(aMaxAgeMinutes) fallbackMaxAgeMinutes)
    (orElse a.(aQueryTimeout) fallbackQueryTimeout)
    (orElse a.(aMaxHamming) fallbackMaxHamming)
    (orElse a.(aMinRunFrames) fallbackMinRunFrames)
    (orElse a.(aMaxGapFrames) fallbackMaxGapFrames)
    (orElse a.(aLongMaxHamming) fallbackLongMaxHamming)
    (orElse a.(aLongMinRunFrames) fallbackLongMinRunFrames)
    (orElse a.(aLongMaxGapFrames) fallbackLongMaxGapFrames)
    a.(aFleetEnabled).

Record FetchTeamAliasesOutput := mkFetchTeamAliasesOutput {
  faCanonicalName : string;
  faAliases : list string;
  faFound : bool }.

Record SearchTweetsInput := mkSearchTweetsInput {
  stEventID : event.UUID;
  stFixtureID : Z;
  stQuery : string;
  stExcludeURLs : list string;
  stMaxAgeMinutes : Z;
  stWindow : option SearchWindow;
  stInstanceAddr : string }.

Record SearchTweetsOutput := mkSearchTweetsOutput {
  soVideos : list VideoRef;
  soCount : Z;
  soResultState : ResultState;
  soEvidence : SearchEvidence;
  soStopReason : string;
  soScrolls : Z;
  soInitialArticles : Z;
  soTweetsParsed : Z;
  soVideoTweets : Z }.

#[global] Instance eta_SearchTweetsOutput : Eta SearchTweetsOutput := λ o,
  mkSearchTweetsOutput o.(soVideos) o.(soCount) o.(soResultState) o.(soEvidence)
    o.(soStopReason) o.(soScrolls) o.(soInitialArticles) o.(soTweetsParsed) o.(soVideoTweets).

Definition noSearchOutput : SearchTweetsOutput :=
  mkSearchTweetsOutput [] 0 "" noSearchEvidence "" 0 0 0 0.

Definition SearchUnavailableErrorType : string := "twitter_search_unavailable".

(** ** candidates.go *)

Record StoreCandidateOutput := mkStoreCandidateOutput { scInserted : bool }.

Record RecoveryCandidate := mkRecoveryCandidate {
  rcEvidence : CandidateEvidence;
  rcState : string;
  rcTweetURL : string;
  rcPending : bool }.

Record LoadEventRecoveryStateInput := mkLoadEventRecoveryStateInput {
  liEventID : event.UUID;
  liWorkflowType : string;
  liWorkflowID : string;
  liSearchLookbackMinutes : Z }.

Record LoadEventRecoveryStateOutput := mkLoadEventRecoveryStateOutput {
  loAttemptsCompleted : Z;
  loUnavailableAttempts : Z;
  loLastSearchState : ResultState;
  loLastSearchEvidence : SearchEvidence;
  loCandidates : list RecoveryCandidate;
  loWindow : option SearchWindow }.

Definition noRecovery : LoadEventRecoveryStateOutput :=
  mkLoadEventRecoveryStateOutput 0 0 "" noSearchEvidence [] None.

Record RecordDiscoveryProgressInput := mkRecordDiscoveryProgressInput {
  rpEventID : event.UUID;
  rpWorkflowType : string;
  rpWorkflowID : string;
  rpAttempt : Z;
  rpUnavailableAttempts : Z;
  rpLastSearchState : ResultState;
  rpLastSearchEvidence : option SearchEvidence;
  rpWindow : option SearchWindow }.

(** ** completion.go *)

Record MarkDownstreamCompleteInput := mkMarkDownstreamCompleteInput {
  mcEventID : event.UUID;
  mcWorkflowType : string;
  mcWorkflowID : string;
  mcOutcomeClass : string }.

End discoveryactivity.
