(* ===== verification/Query.v ===== *)
(** internal/domain/alias (text.go, skiplist.go) and internal/domain/discovery
    (query_builder.go): from the names of a player and a team to the text of a
    Twitter search.

    Transliteration is the library the code calls, github.com/gosimple/unidecode:
    [Unidecode] is any function.  The code applies it before it looks at
    characters, so what follows it is ASCII; the operations below follow the
    ASCII rules of [strings] and [unicode] (GoStrings). *)
From S2P Require Import Prelude GoStrings.
#[local] Open Scope string_scope.
#[local] Open Scope list_scope.
#[local] Open Scope Z_scope.

(** ** strings.FieldsFunc, strings.Trim of one character, strings.Join *)

Fixpoint fields_go (f : ascii → bool) (word s : string) : list string :=
  let flush := if (word =? "")%string then [] else [word] in
  match s with
  | EmptyString => flush
  | String c s =>
      if f c then flush ++ fields_go f "" s else fields_go f (word +:+ String c "") s
  end.
Definition FieldsFunc (f : ascii → bool) (s : string) : list string := fields_go f "" s.
Definition Fields : string → list string := FieldsFunc is_space.

Fixpoint keep_bytes (f : ascii → bool) (s : string) : string :=
  match s with
  | EmptyString => EmptyString
  | String c s => if f c then String c (keep_bytes f s) else keep_bytes f s
  end.

Fixpoint trim_left_byte (c : ascii) (s : string) : string :=
  match s with
  | EmptyString => EmptyString
  | String d s' => if Ascii.eqb c d then trim_left_byte c s' else s
  end.
Fixpoint trim_right_byte (c : ascii) (s : string) : string :=
  match s with
  | EmptyString => EmptyString
  | String d s =>
      match trim_right_byte c s with
      | EmptyString => if Ascii.eqb c d then EmptyString else String d EmptyString
      | s => String d s
      end
  end.
Definition Trim (s : string) (c : ascii) : string := trim_right_byte c (trim_left_byte c s).

Fixpoint Join (l : list string) (sep : string) : string :=
  match l with
  | [] => ""
  | [s] => s
  | s :: l => s +:+ sep +:+ Join l sep
  end.

Definition quote : ascii := Ascii.ascii_of_nat 34.
Fixpoint every_byte (f : ascii → bool) (s : string) : bool :=
  match s with
  | EmptyString => true
  | String c s => f c && every_byte f s
  end.
Definition byteAt (s : string) (i : nat) : ascii := default "000"%char (String.get i s).

Module alias.

(** ** skiplist.go *)

Definition skipList : list string := [
  "fc"; "ac"; "sc"; "cf";
  "football"; "futbol"; "futebol"; "calcio"; "fussball"; "soccer"; "club"; "clube"; "klub";
  "association"; "associazione"; "sociedade"; "society"; "sad"; "sport"; "sports"; "deportivo";
  "nazionale"; "nationalmannschaft"; "selection"; "selectionnee"; "national"; "team"; "equipe";
  "reprezentacja"; "reprezentanca"; "reprezentacije"; "reprezentacji"; "nogometna"; "nogometne";
  "futbolowa"; "futbolista"; "voetbal"; "voetbalelftal"; "nacional"; "seleccion"; "seleccio";
  "selecc";
  "the"; "los"; "las"; "la"; "le"; "les"; "el"; "il"; "das"; "der"; "die"; "den"; "de"; "del";
  "du"; "di"; "da"; "do"; "dos"; "and"; "of"; "van"; "en"; "y";
  "casa"; "royal"; "company"; "mecanica"; "mens";
  "holanda"; "holandesa"; "croacia"; "croata"; "alemana"; "alemania"; "germania"; "inglaterra";
  "inglesa"; "belga"; "belgica"; "belgische"; "belghe"; "espanola"; "francesa"; "francia";
  "mexic"; "mexicana"; "estados"; "unidos"; "baixos"; "paises"; "occidental"].

Definition isSkipped (tok : string) : bool := one_of tok skipList.

(** ** text.go *)

(** The dashes that are not ASCII do not occur after transliteration. *)
Definition isSeparator (c : ascii) : bool :=
  is_space c || Ascii.eqb c "-" || Ascii.eqb c "/".
Definition splitWords (s : string) : list string := FieldsFunc isSeparator s.

Definition isPunct (c : ascii) : bool :=
  Ascii.eqb c "." || Ascii.eqb c "," || Ascii.eqb c "'".
Definition stripPunct (w : string) : string := keep_bytes (λ c, negb (isPunct c)) w.

Definition isCamelConcat (w : string) : bool :=
  if str_len w <? 4 then false
  else existsb (λ i,
    let prev := byteAt w (i - 1) in
    let curr := byteAt w i in
    (is_lower prev && is_upper curr) ||
    ((3 <=? i)%nat && is_upper prev && is_lower curr &&
     is_upper (byteAt w (i - 2)) && is_upper (byteAt w (i - 3))))
    (seq 1 (String.length w - 1)).

Definition isAllDigit (w : string) : bool :=
  negb (w =? "")%string && every_byte is_digit w.

(** The token of one word, if it yields one. *)
Definition tokenOf (w : string) : option string :=
  let w := stripPunct w in
  if (w =? "")%string || isCamelConcat w then None
  else
    let low := ToLower w in
    if (str_len low <=? 2) || isAllDigit low then None else Some low.

(** [seen] and the result, over the tokens that are not skipped. *)
Fixpoint dedupTokens (seen : list string) (tokens : list string) : list string :=
  match tokens with
  | [] => []
  | tok :: tokens =>
      if isSkipped tok || one_of tok seen then dedupTokens seen tokens
      else tok :: dedupTokens (tok :: seen) tokens
  end.

Section unidecode.
Context (Unidecode : string → string).

Definition tokenize (phrase : string) : list string :=
  if (phrase =? "")%string then [] else omap tokenOf (splitWords (Unidecode phrase)).

Definition TokenizePlayerName (name : string) : list string := dedupTokens [] (tokenize name).
End unidecode.

Definition knownOrgSuffixes : list string := ["fc"; "ac"; "sc"; "cf"].

Definition stripKnownOrgSuffix (tok : string) : option string :=
  if str_len tok <? 5 then None
  else
    let n := (String.length tok - 2)%nat in
    if one_of (String.substring n 2 tok) knownOrgSuffixes then
      if 3 <=? Z.of_nat n then Some (String.substring 0 n tok) else None
    else None.

(** ** What the tokens are *)

Lemma every_byte_app f s t : every_byte f (s +:+ t) = every_byte f s && every_byte f t.
Proof. induction s as [|c s IH]; [done|]. simpl. by rewrite IH, andb_assoc. Qed.

Lemma every_byte_impl (f g : ascii → bool) s :
  (∀ c, f c = true → g c = true) → every_byte f s = true → every_byte g s = true.
Proof.
  intros Hfg. induction s as [|c s IH]; [done|]. simpl. rewrite !andb_true_iff.
  intros [? ?]. split; [by apply Hfg|by apply IH].
Qed.

Lemma every_byte_keep f g s : every_byte g s = true → every_byte g (keep_bytes f s) = true.
Proof.
  induction s as [|c s IH]; [done|]. simpl. rewrite andb_true_iff. intros [Hc Hs].
  case_match; [|by apply IH]. simpl. by rewrite Hc, IH.
Qed.

Lemma every_byte_kept f s : every_byte f (keep_bytes f s) = true.
Proof. induction s as [|c s IH]; [done|]. simpl. case_match eqn:E; [|done]. simpl. by rewrite E, IH. Qed.

Lemma every_byte_map f (g : ascii → ascii) s :
  (∀ c, f c = true → f (g c) = true) → every_byte f s = true → every_byte f (string_map g s) = true.
Proof.
  intros Hg. induction s as [|c s IH]; [done|]. simpl. rewrite !andb_true_iff. intros [? ?].
  split; [by apply Hg|by apply IH].
Qed.

Lemma every_byte_free f c s : f c = false → every_byte f s = true → free_of c s = true.
Proof.
  intros Hc. induction s as [|d s IH]; [done|]. simpl. rewrite !andb_true_iff. intros [Hd Hs].
  split; [|by apply IH]. apply negb_true_iff, Ascii.eqb_neq. congruence.
Qed.

(** A word of FieldsFunc consists of bytes of the text that do not separate. *)
Lemma fields_bytes f g s word :
  every_byte (λ c, g c && negb (f c)) word = true → every_byte g s = true →
  Forall (λ w, every_byte (λ c, g c && negb (f c)) w = true) (fields_go f word s).
Proof.
  assert (∀ w, every_byte (λ c, g c && negb (f c)) w = true →
    Forall (λ w, every_byte (λ c, g c && negb (f c)) w = true)
      (if (w =? "")%string then [] else [w])) as Hflush.
  { intros w Hw. case_match; [done|]. by apply Forall_singleton. }
  revert word. induction s as [|c s IH]; intros word Hw; simpl; [intros _; by apply Hflush|].
  rewrite andb_true_iff. intros [Hc Hs]. case_match eqn:Ef.
  - apply Forall_app. split; [by apply Hflush|by apply IH].
  - apply IH; [|done]. rewrite every_byte_app, Hw. simpl. by rewrite Hc, Ef.
Qed.

Definition tokenByte (c : ascii) : bool :=
  negb (is_upper c) && negb (isSeparator c) && negb (isPunct c).

Lemma lower_not_upper c : is_upper (lower c) = false.
Proof. by_all_bytes (λ c, negb (is_upper (lower c))). by apply negb_true_iff. Qed.

Lemma lower_other c :
  isSeparator (lower c) = isSeparator c ∧ isPunct (lower c) = isPunct c ∧
  Ascii.eqb (lower c) quote = Ascii.eqb c quote.
Proof.
  by_all_bytes (λ c, Bool.eqb (isSeparator (lower c)) (isSeparator c) &&
    Bool.eqb (isPunct (lower c)) (isPunct c) &&
    Bool.eqb (Ascii.eqb (lower c) quote) (Ascii.eqb c quote)).
  rewrite !andb_true_iff in *. naive_solver eauto using eqb_prop.
Qed.

Lemma lower_fixed s : every_byte tokenByte s = true → ToLower s = s.
Proof.
  induction s as [|c s IH]; [done|]. simpl. rewrite andb_true_iff. intros [Hc Hs].
  change (String (lower c) (ToLower s) = String c s). rewrite IH by done. f_equal. unfold tokenByte in Hc.
  rewrite !andb_true_iff, !negb_true_iff in Hc. destruct Hc as [[Hu _] _]. unfold lower. by rewrite Hu.
Qed.

(** A token: longer than two bytes, in lower case, no number, without separators and
    punctuation. *)
Definition token_ok (t : string) : Prop :=
  2 < str_len t ∧ isAllDigit t = false ∧ every_byte tokenByte t = true.

Lemma tokenOf_ok w t :
  every_byte (λ c, negb (isSeparator c)) w = true → tokenOf w = Some t → token_ok t.
Proof.
  unfold tokenOf. intros Hw. case_match; [done|]. case_match eqn:E; [done|]. intros [= <-].
  apply orb_false_iff in E as [Hl Hd]. apply Z.leb_gt in Hl. split; [done|]. split; [done|].
  clear -Hw. revert Hw. unfold ToLower, stripPunct. induction w as [|c w IH]; [done|].
  simpl. rewrite andb_true_iff. intros [Hc Hw]. destruct (isPunct c) eqn:Ep; simpl; [by apply IH|].
  rewrite IH by done. unfold tokenByte. destruct (lower_other c) as (->&->&_).
  by rewrite lower_not_upper, Hc, Ep.
Qed.

Lemma tokenOf_free w t : free_of quote w = true → tokenOf w = Some t → free_of quote t = true.
Proof.
  unfold tokenOf. intros Hw. case_match; [done|]. case_match; [done|]. intros [= <-].
  clear -Hw. revert Hw. unfold ToLower, stripPunct. induction w as [|c w IH]; [done|].
  simpl. rewrite andb_true_iff. intros [Hc Hw]. destruct (isPunct c); simpl; [by apply IH|].
  rewrite IH by done. destruct (lower_other c) as (_&_&->). by rewrite Hc.
Qed.

Lemma dedupTokens_elem seen l t :
  t ∈ dedupTokens seen l ↔ t ∈ l ∧ isSkipped t = false ∧ t ∉ seen.
Proof.
  revert seen. induction l as [|u l IH]; intros seen; simpl; [set_solver|].
  destruct (isSkipped u) eqn:Eu; simpl.
  { rewrite IH. split; [set_solver|]. intros ([->|Ht]%elem_of_cons & ? & ?); [congruence|done]. }
  destruct (one_of u seen) eqn:Es.
  - apply one_of_true in Es. rewrite IH. split; [set_solver|].
    intros ([->|Ht]%elem_of_cons & ? & ?); [done|done].
  - apply one_of_false in Es. rewrite elem_of_cons, IH. split.
    + intros [->|(?&?&?)]; set_solver.
    + intros ([->|Ht]%elem_of_cons & ? & ?); [by left|]. destruct (decide (t = u)) as [->|]; set_solver.
Qed.

Lemma dedupTokens_NoDup seen l : NoDup (dedupTokens seen l).
Proof.
  revert seen. induction l as [|u l IH]; intros seen; simpl; [constructor|]. case_match; [done|].
  constructor; [|done]. rewrite dedupTokens_elem. set_solver.
Qed.

Section tokens.
Context (Unidecode : string → string).

Lemma TokenizePlayerName_ok name t :
  t ∈ TokenizePlayerName Unidecode name → token_ok t ∧ isSkipped t = false.
Proof.
  unfold TokenizePlayerName, tokenize. rewrite dedupTokens_elem. intros (Ht & Hs & _).
  split; [|done]. case_match; [by apply elem_of_nil in Ht|].
  apply list_elem_of_omap in Ht as (w & Hw & Ht). eapply tokenOf_ok; [|exact Ht].
  pose proof (fields_bytes isSeparator (λ _, true) (Unidecode name) "" eq_refl) as Hall.
  rewrite Forall_forall in Hall. apply Hall in Hw; [done|]. clear.
  induction (Unidecode name) as [|c s IH]; [done|]. exact IH.
Qed.

Lemma TokenizePlayerName_free name t :
  free_of quote (Unidecode name) = true → t ∈ TokenizePlayerName Unidecode name →
  free_of quote t = true.
Proof.
  unfold TokenizePlayerName, tokenize. rewrite dedupTokens_elem. intros Hq (Ht & _).
  case_match; [by apply elem_of_nil in Ht|].
  apply list_elem_of_omap in Ht as (w & Hw & Ht). eapply tokenOf_free; [|exact Ht].
  pose proof (fields_bytes isSeparator (λ c, negb (Ascii.eqb c quote)) (Unidecode name) "" eq_refl) as Hall.
  rewrite Forall_forall in Hall. apply Hall in Hw.
  - eapply every_byte_free; [|exact Hw]. done.
  - revert Hq. clear. induction (Unidecode name) as [|c s IH]; [done|]. simpl.
    rewrite !andb_true_iff. intros [? ?]. split; [done|by apply IH].
Qed.

Lemma TokenizePlayerName_NoDup name : NoDup (TokenizePlayerName Unidecode name).
Proof. apply dedupTokens_NoDup. Qed.
End tokens.

End alias.

Module discovery.
Import alias.

(** ** query_builder.go *)

Record QueryInput := mkQueryInput {
  PlayerName : string;
  TeamCanonicalName : string;
  TeamCode : string;
  TeamAliases : list string;
  VideoOnly : bool }.

Definition QueryLengthWarnThreshold : Z := 400.

Inductive queryError := ErrEmptyQuery | ErrEmptyPlayerName.

Definition queryGenerics : list string := [
  "united"; "city"; "real"; "red"; "new"; "york"; "inter"; "union"; "sporting"; "racing";
  "athletic"; "blues"; "orange"; "county"; "town"; "rovers"; "olympique"; "foot"; "mls"; "afc";
  "fcb"; "sportiva"; "societa"; "unione"; "verein"; "fussballclub"].

Definition isQueryGeneric (tok : string) : bool := one_of (ToLower tok) queryGenerics.

Definition lettersOnly (s : string) : string := keep_bytes is_letter s.

Definition isOrgToken (letters : string) : bool :=
  if str_len letters <? 2 then false else every_byte is_upper letters.

(** What one word of the name adds to the abbreviation. *)
Definition abbrevPart (word : string) : string :=
  let letters := lettersOnly word in
  if (letters =? "")%string then ""
  else if isOrgToken letters then letters else String.substring 0 1 letters.

Definition genSuffixes : list string := ["junior"; "jr"; "jnr"].

(** Trailing suffixes are dropped while another token is left: of the tokens after
    the first one. *)
Fixpoint dropSuffixes (toks : list string) : list string :=
  match toks with
  | [] => []
  | tok :: toks =>
      match dropSuffixes toks with
      | [] => if one_of tok genSuffixes then [] else [tok]
      | toks => tok :: toks
      end
  end.
Definition stripGenSuffix (toks : list string) : list string :=
  match toks with
  | [] => []
  | tok :: toks => tok :: dropSuffixes toks
  end.

Definition quoteTerm (s : string) : string :=
  if free_of " " s then s else String quote (s +:+ String quote "").

(** The key by which a term counts as repeated. *)
Definition termKey (term : string) : string := ToLower (Trim term quote).

(** [take] and the append that follows it: the keys seen and the terms so far. *)
Definition take (st : list string * list string) (term : string) : list string * list string :=
  let '(seen, terms) := st in
  if (term =? "")%string || one_of (termKey term) seen then st
  else (termKey term :: seen, terms ++ [term]).

Section unidecode.
Context (Unidecode : string → string).

Definition deriveAbbrev (canonical : string) : string :=
  let abbr := ToUpper (foldr (λ f acc, abbrevPart f +:+ acc) "" (Fields (Unidecode canonical))) in
  if str_len abbr <? 3 then "" else abbr.

Definition canonTokens (canon : string) : list string :=
  ToLower <$> TokenizePlayerName Unidecode canon.

Definition takePlayer (name : string) : list string * list string :=
  foldl take ([], []) (stripGenSuffix (TokenizePlayerName Unidecode name)).

Definition takeTeam (seen : list string) (canon : string) : list string * list string :=
  if (canon =? "")%string then (seen, [])
  else take (take (seen, []) (quoteTerm canon)) (deriveAbbrev canon).

Definition takeAliases (known : list string) (st : list string * list string)
    (aliases : list string) : list string * list string :=
  foldl (λ st a, if isQueryGeneric a || one_of (ToLower a) known then st
                 else take st (quoteTerm a)) st aliases.

Definition QueryTerms (i : QueryInput) : list string * list string :=
  let '(seen, player) := takePlayer i.(PlayerName) in
  let canon := TrimSpace i.(TeamCanonicalName) in
  let known := if (canon =? "")%string then [] else canonTokens canon in
  (player, (takeAliases known (takeTeam seen canon) i.(TeamAliases)).2).

Definition BuildTwitterQuery (i : QueryInput) : queryError + string :=
  if (TrimSpace i.(PlayerName) =? "")%string then inl ErrEmptyPlayerName
  else
    let '(player, team) := QueryTerms i in
    match player ++ team with
    | [] => inl ErrEmptyQuery
    | terms =>
        inr ("(" +:+ Join terms " OR " +:+ ")" +:+ if i.(VideoOnly) then " filter:videos" else "")
    end.

Definition Build (playerName teamCanonicalName : string) (teamAliases : list string)
  : queryError + string :=
  BuildTwitterQuery (mkQueryInput playerName teamCanonicalName "" teamAliases true).
End unidecode.

Definition LengthWarn (query : string) : bool := QueryLengthWarnThreshold <? str_len query.

(** ** The terms *)

Lemma trim_left_free c s : free_of c s = true → trim_left_byte c s = s.
Proof.
  destruct s as [|d s]; [done|]. simpl. rewrite andb_true_iff, negb_true_iff, Ascii.eqb_sym.
  by intros [-> _].
Qed.

Lemma trim_right_free c s : free_of c s = true → trim_right_byte c s = s.
Proof.
  induction s as [|d s IH]; [done|]. simpl. rewrite andb_true_iff, negb_true_iff, Ascii.eqb_sym.
  intros [Hd Hs]. rewrite (IH Hs), Hd. by destruct s.
Qed.

Lemma termKey_token t :
  every_byte tokenByte t = true → free_of quote t = true → termKey t = t.
Proof.
  intros Ht Hq. unfold termKey, Trim. rewrite trim_left_free, trim_right_free by done.
  by apply lower_fixed.
Qed.

(** Every term was new when it was taken. *)
Definition taken (pre : list string) (st : list string * list string) : Prop :=
  NoDup (termKey <$> pre ++ st.2) ∧ ∀ k, k ∈ st.1 ↔ k ∈ termKey <$> pre ++ st.2.

Lemma take_taken pre st term : taken pre st → taken pre (take st term).
Proof.
  destruct st as [seen terms]. intros [Hn Hs]. unfold take. case_match eqn:E; [done|].
  apply orb_false_iff in E as [_ Hk%one_of_false]. cbn in *.
  split; cbn; [|intros k; rewrite elem_of_cons, Hs]; rewrite app_assoc, (fmap_app _ _ [term]).
  - apply NoDup_app. split; [done|]. split; [|apply NoDup_singleton].
    intros k Hin ->%list_elem_of_singleton. by apply Hk, Hs.
  - change (termKey <$> [term]) with [termKey term]. set_solver.
Qed.

Lemma foldl_invariant {A B} (P : A → Prop) (f : A → B → A) (l : list B) a :
  P a → (∀ a b, b ∈ l → P a → P (f a b)) → P (foldl f a l).
Proof.
  revert a. induction l as [|b l IH]; intros a Ha Hf; [done|]. apply IH; [|set_solver].
  apply Hf; [set_solver|done].
Qed.

(** A term is taken, or its key is known already. *)
Lemma take_key st term : term ≠ "" → termKey term ∈ (take st term).1.
Proof.
  destruct st as [seen terms]. intros Hne. unfold take.
  rewrite (proj2 (String.eqb_neq term "") Hne). simpl. case_match eqn:E; [|cbn; set_solver].
  by apply one_of_true in E.
Qed.

Lemma take_grows st term : st.1 ⊆ (take st term).1.
Proof. destruct st. unfold take. case_match; set_solver. Qed.

Lemma take_terms (P : string → Prop) st term :
  (term ≠ "" → P term) → Forall P st.2 → Forall P (take st term).2.
Proof.
  destruct st as [seen terms]. intros Ht Hs. unfold take. case_match eqn:E; [done|].
  apply orb_false_iff in E as [E%String.eqb_neq _]. apply Forall_app. split; [done|].
  apply Forall_singleton. auto.
Qed.

Lemma foldl_take_new seen terms l :
  NoDup (termKey <$> l) → Forall (λ t, t ≠ "" ∧ termKey t ∉ seen) l →
  (foldl take (seen, terms) l).2 = terms ++ l.
Proof.
  revert seen terms. induction l as [|t l IH]; intros seen terms; cbn [fmap list_fmap foldl];
    [by rewrite app_nil_r|].
  rewrite NoDup_cons, Forall_cons. intros [Ht Hn] [[Hne Hs] Hl].
  assert (take (seen, terms) t = (termKey t :: seen, terms ++ [t])) as ->.
  { unfold take. rewrite (proj2 (String.eqb_neq t "") Hne), (proj2 (one_of_false _ _) Hs). done. }
  rewrite IH; [by rewrite <-app_assoc|done|]. rewrite Forall_forall in Hl |- *. intros u Hu.
  destruct (Hl u Hu) as [? ?]. split; [done|]. rewrite not_elem_of_cons. split; [|done].
  intros Heq. apply Ht. rewrite <-Heq. by apply list_elem_of_fmap_2.
Qed.

Lemma dropSuffixes_prefix l : dropSuffixes l `prefix_of` l.
Proof.
  induction l as [|t l [k Hk]]; [done|]. cbn. destruct (dropSuffixes l) as [|u r] eqn:E.
  - case_match; [apply prefix_nil|]. by exists l.
  - exists k. cbn. by rewrite Hk.
Qed.

Lemma stripGenSuffix_prefix l : stripGenSuffix l `prefix_of` l.
Proof.
  destruct l as [|t l]; [done|]. cbn. destruct (dropSuffixes_prefix l) as [k Hk].
  exists k. cbn. by rewrite <-Hk.
Qed.

(** ** Reading a query back *)

(** The text before the suffix [suf]. *)
Fixpoint before_suffix (suf s : string) : option string :=
  if (s =? suf)%string then Some ""
  else match s with
  | EmptyString => None
  | String c s => String c <$> before_suffix suf s
  end.

(** The terms between the operators; within quotes nothing is an operator. *)
Fixpoint splitOr (quoted : bool) (skip : nat) (acc s : string) : list string :=
  match s with
  | EmptyString => [acc]
  | String c s' =>
      match skip with
      | S skip => splitOr quoted skip acc s'
      | O =>
          if negb quoted && HasPrefix s " OR " then acc :: splitOr false 3 "" s'
          else splitOr (xorb quoted (Ascii.eqb c quote)) 0 (acc +:+ String c "") s'
      end
  end.

Definition readQuery (q : string) : option (list string * bool) :=
  match q with
  | String "(" s =>
      match before_suffix ") filter:videos" s with
      | Some body => Some (splitOr false 0 "" body, true)
      | None => (λ body, (splitOr false 0 "" body, false)) <$> before_suffix ")" s
      end
  | _ => None
  end.

(** One word without quotes, or a quoted text. *)
Inductive term_ok : string → Prop :=
  | word_ok t : t ≠ "" → free_of " " t = true → free_of quote t = true → term_ok t
  | quoted_ok t : free_of quote t = true → term_ok (String quote (t +:+ String quote "")).

Lemma app_string_cons c s t : String c s +:+ t = String c (s +:+ t).
Proof. done. Qed.

Lemma app_string_nil s : s +:+ "" = s.
Proof. induction s as [|c s IH]; [done|]. by rewrite app_string_cons, IH. Qed.

Lemma app_string_assoc s t u : (s +:+ t) +:+ u = s +:+ (t +:+ u).
Proof. induction s as [|c s IH]; [done|]. by rewrite !app_string_cons, IH. Qed.

Lemma length_app_string s t : String.length (s +:+ t) = (String.length s + String.length t)%nat.
Proof. induction s as [|c s IH]; [done|]. rewrite app_string_cons. simpl. by rewrite IH. Qed.

Lemma before_suffix_app suf t : before_suffix suf (t +:+ suf) = Some t.
Proof.
  induction t as [|c t IH].
  - change ("" +:+ suf) with suf. destruct suf; [done|]. cbn [before_suffix]. by rewrite String.eqb_refl.
  - rewrite app_string_cons. cbn [before_suffix]. destruct (_ =? suf)%string eqn:E; [|by rewrite IH].
    apply String.eqb_eq, (f_equal String.length) in E. simpl in E.
    rewrite length_app_string in E. lia.
Qed.

Lemma before_suffix_inv suf s t : before_suffix suf s = Some t → s = t +:+ suf.
Proof.
  revert t. induction s as [|c s IH]; intros t; cbn [before_suffix]; case_match eqn:E.
  - apply String.eqb_eq in E as <-. by intros [= <-].
  - done.
  - apply String.eqb_eq in E as <-. by intros [= <-].
  - intros (u & Hu & ->)%fmap_Some. by rewrite (IH u Hu).
Qed.

Lemma no_video_suffix s : before_suffix ") filter:videos" (s +:+ ")") = None.
Proof.
  destruct (before_suffix _ _) as [t|] eqn:E; [|done]. exfalso. apply before_suffix_inv in E.
  assert (free_of ")" "s" = true) as Hs by done.
  pose proof (after_last_app ")" s "" eq_refl) as H1.
  pose proof (after_last_app ")" t " filter:videos" eq_refl) as H2.
  change (String ")" "") with ")" in H1. rewrite E in H1.
  change (String ")" " filter:videos") with ") filter:videos" in H2. congruence.
Qed.

Lemma splitOr_word t acc rest :
  free_of " " t = true → free_of quote t = true →
  splitOr false 0 acc (t +:+ rest) = splitOr false 0 (acc +:+ t) rest.
Proof.
  revert acc. induction t as [|c t IH]; intros acc Hs Hq; [by rewrite app_string_nil|].
  rewrite app_string_cons. cbn [splitOr].
  simpl in Hs, Hq. apply andb_true_iff in Hs as [Hc Hs], Hq as [Hc' Hq].
  assert (HasPrefix (String c (t +:+ rest)) " OR " = false) as Hp.
  { unfold HasPrefix. cbn [String.prefix]. rewrite negb_true_iff in Hc. apply Ascii.eqb_neq in Hc.
    destruct (ascii_dec " " c) as [He|]; [by rewrite He in Hc|done]. }
  rewrite Hp. apply negb_true_iff in Hc' as ->. cbn [negb andb xorb].
  rewrite IH by done. by rewrite app_string_assoc.
Qed.

Lemma splitOr_quoted t acc rest :
  free_of quote t = true →
  splitOr true 0 acc (t +:+ rest) = splitOr true 0 (acc +:+ t) rest.
Proof.
  revert acc. induction t as [|c t IH]; intros acc Hq; [by rewrite app_string_nil|].
  rewrite app_string_cons. cbn [splitOr].
  simpl in Hq. apply andb_true_iff in Hq as [Hc' Hq]. apply negb_true_iff in Hc' as ->. cbn [negb andb xorb].
  rewrite IH by done. by rewrite app_string_assoc.
Qed.

Lemma splitOr_term t rest :
  term_ok t → splitOr false 0 "" (t +:+ rest) = splitOr false 0 t rest.
Proof.
  intros [u Hne Hs Hq|u Hq]; [by rewrite splitOr_word|].
  change (splitOr true 0 (String quote "") ((u +:+ String quote "") +:+ rest) =
    splitOr false 0 (String quote (u +:+ String quote "")) rest).
  by rewrite app_string_assoc, splitOr_quoted.
Qed.

Lemma splitOr_operator acc rest :
  splitOr false 0 acc (" OR " +:+ rest) = acc :: splitOr false 0 "" rest.
Proof. by destruct rest. Qed.

Lemma splitOr_Join t l :
  Forall term_ok (t :: l) → splitOr false 0 "" (Join (t :: l) " OR ") = t :: l.
Proof.
  revert t. induction l as [|u l IH]; intros t [Ht Hl]%Forall_cons.
  - cbn [Join]. rewrite <-(app_string_nil t) at 1. by rewrite splitOr_term.
  - change (Join (t :: u :: l) " OR ") with (t +:+ " OR " +:+ Join (u :: l) " OR ").
    by rewrite splitOr_term, splitOr_operator, IH.
Qed.

Section queries.
Context (Unidecode : string → string).
Abbreviation tokens := (TokenizePlayerName Unidecode).

Lemma takePlayer_taken name : taken [] (takePlayer Unidecode name).
Proof.
  apply (foldl_invariant (taken [])); [|intros; by apply take_taken].
  split; [constructor|cbn; set_solver].
Qed.

Lemma takePlayer_terms name :
  free_of quote (Unidecode name) = true →
  (takePlayer Unidecode name).2 = stripGenSuffix (tokens name).
Proof.
  intros Hq. pose proof (stripGenSuffix_prefix (tokens name)) as [k Hk].
  assert (∀ t, t ∈ stripGenSuffix (tokens name) → t ≠ "" ∧ termKey t = t) as Hkey.
  { intros t Ht. assert (t ∈ tokens name) as Hin by (rewrite Hk; set_solver).
    pose proof (TokenizePlayerName_ok Unidecode _ _ Hin) as [(Hl & _ & Hb) _].
    split; [by intros ->|]. apply termKey_token; [done|]. by eapply TokenizePlayerName_free. }
  unfold takePlayer. rewrite foldl_take_new; [done| |].
  - rewrite (list_fmap_ext termKey id).
    + rewrite list_fmap_id. pose proof (TokenizePlayerName_NoDup Unidecode name) as Hn.
      rewrite Hk in Hn. by apply NoDup_app in Hn as [Hn _].
    + intros j t Ht%list_elem_of_lookup_2. by apply Hkey.
  - apply Forall_forall. intros t Ht. split; [by apply Hkey|set_solver].
Qed.

Lemma takeTeam_taken player seen canon :
  taken player (seen, []) → taken player (takeTeam Unidecode seen canon).
Proof. intros H. unfold takeTeam. case_match; [done|]. by do 2 apply take_taken. Qed.

Lemma takeAliases_taken player known st l : taken player st → taken player (takeAliases known st l).
Proof.
  intros H. apply (foldl_invariant (taken player)); [done|]. intros st' a _ H'. case_match; [done|by apply take_taken].
Qed.

Lemma takeAliases_grows known st l : st.1 ⊆ (takeAliases known st l).1.
Proof.
  revert st. induction l as [|a l IH]; intros st; [done|]. cbn.
  case_match; [by apply IH|]. etrans; [|apply IH]. apply take_grows.
Qed.

Lemma quoteTerm_not_nil s : s ≠ "" → quoteTerm s ≠ "".
Proof. unfold quoteTerm. by case_match. Qed.

(** The terms of a query. *)
Lemma QueryTerms_spec i player team :
  QueryTerms Unidecode i = (player, team) →
  player = (takePlayer Unidecode (PlayerName i)).2 ∧
  NoDup (termKey <$> player ++ team) ∧
  (TrimSpace (TeamCanonicalName i) ≠ "" →
    termKey (quoteTerm (TrimSpace (TeamCanonicalName i))) ∈ termKey <$> player ++ team).
Proof.
  unfold QueryTerms. pose proof (takePlayer_taken (PlayerName i)) as Hp.
  destruct (takePlayer _ _) as [seen terms]. cbn in Hp.
  set (canon := TrimSpace _). set (known := if (canon =? "")%string then _ else _). intros [= <- <-].
  assert (taken terms (seen, [])) as H0.
  { destruct Hp as [Hn Hs]. split; cbn; by rewrite ?app_nil_r. }
  pose proof (takeAliases_taken terms known _ (TeamAliases i) (takeTeam_taken terms seen canon H0)) as [Hn Hs].
  split; [done|]. split; [done|]. intros Hne. apply Hs, takeAliases_grows.
  unfold takeTeam. rewrite (proj2 (String.eqb_neq canon "") Hne). apply take_grows.
  by apply take_key, quoteTerm_not_nil.
Qed.

Lemma BuildTwitterQuery_inr i q :
  BuildTwitterQuery Unidecode i = inr q → ∃ player team,
    QueryTerms Unidecode i = (player, team) ∧ player ++ team ≠ [] ∧
    q = "(" +:+ Join (player ++ team) " OR " +:+ ")" +:+
      if VideoOnly i then " filter:videos" else "".
Proof.
  unfold BuildTwitterQuery. case_match; [done|]. destruct (QueryTerms _ _) as [player team].
  intros Hq. exists player, team. split; [done|]. destruct (player ++ team); [done|].
  split; [done|]. by injection Hq.
Qed.

(** ** Its terms are words and quoted texts *)

Lemma quoteTerm_ok s : s ≠ "" → free_of quote s = true → term_ok (quoteTerm s).
Proof. intros Hne Hq. unfold quoteTerm. case_match; [by apply word_ok|by apply quoted_ok]. Qed.

Lemma token_term_ok t : token_ok t → free_of quote t = true → term_ok t.
Proof.
  intros (Hl & _ & Hb) Hq. apply word_ok; [by intros ->| |done].
  by apply (every_byte_free tokenByte).
Qed.

Lemma letters_bytes s : every_byte is_letter (abbrevPart s) = true.
Proof.
  unfold abbrevPart. pose proof (every_byte_kept is_letter s) as H. unfold lettersOnly.
  destruct (keep_bytes is_letter s) as [|c r]; [done|]. cbn [String.eqb].
  case_match; [done|]. cbn in H |- *. apply andb_true_iff in H as [-> _].
  by destruct r.
Qed.

Lemma upper_letter c : is_letter c = true → is_letter (upper c) = true.
Proof.
  intros Hc. by_all_bytes (λ c, negb (is_letter c) || is_letter (upper c)).
  cbv beta in *. apply orb_true_iff in H as [H|H]; [|done]. by rewrite Hc in H.
Qed.

Lemma deriveAbbrev_ok canon : deriveAbbrev Unidecode canon ≠ "" → term_ok (deriveAbbrev Unidecode canon).
Proof.
  intros Hne. assert (every_byte is_letter (deriveAbbrev Unidecode canon) = true) as Hb.
  { unfold deriveAbbrev. case_match; [done|]. apply every_byte_map; [apply upper_letter|].
    clear. induction (Fields (Unidecode canon)) as [|w l IH]; [done|]. simpl.
    by rewrite every_byte_app, letters_bytes, IH. }
  apply word_ok; [done| |]; by apply (every_byte_free is_letter).
Qed.

Lemma QueryTerms_ok i :
  free_of quote (Unidecode (PlayerName i)) = true →
  Forall (λ s, free_of quote s = true) (TrimSpace (TeamCanonicalName i) :: TeamAliases i) →
  Forall term_ok ((QueryTerms Unidecode i).1 ++ (QueryTerms Unidecode i).2).
Proof.
  rewrite Forall_cons. intros Hp [Hc Ha]. pose proof (takePlayer_terms (PlayerName i) Hp) as Hplayer.
  unfold QueryTerms. destruct (takePlayer _ _) as [seen player]. cbn [fst snd] in *. subst player.
  set (canon := TrimSpace _) in *. set (known := if (canon =? "")%string then _ else _).
  apply Forall_app. split.
  - apply Forall_forall. intros t Ht.
    assert (t ∈ tokens (PlayerName i)) as Hin.
    { destruct (stripGenSuffix_prefix (tokens (PlayerName i))) as [k ->]. set_solver. }
    apply token_term_ok; [apply (TokenizePlayerName_ok Unidecode _ _ Hin)|by apply (TokenizePlayerName_free Unidecode (PlayerName i))].
  - apply (foldl_invariant (λ st, Forall term_ok st.2)).
    + unfold takeTeam. case_match eqn:E; [by constructor|]. apply String.eqb_neq in E.
      apply take_terms; [apply deriveAbbrev_ok|]. apply take_terms; [|constructor].
      intros _. by apply quoteTerm_ok.
    + intros st a Hin Hst. case_match; [done|]. apply take_terms; [|done]. intros Hne.
      rewrite Forall_forall in Ha. apply quoteTerm_ok; [|by apply Ha]. by intros ->.
Qed.

(** C37: Nothing in a query is lost or runs into an operator: as long as neither the
    player's name as transliterated, nor the team's name, nor an alias contains a double quote, the terms and the restriction to videos can be read back from the
    text that is searched for. *)
Theorem query_roundtrip i q :
  free_of quote (Unidecode (PlayerName i)) = true →
  Forall (λ s, free_of quote s = true) (TrimSpace (TeamCanonicalName i) :: TeamAliases i) →
  BuildTwitterQuery Unidecode i = inr q →
  readQuery q = Some ((QueryTerms Unidecode i).1 ++ (QueryTerms Unidecode i).2, VideoOnly i).
Proof.
  intros Hp Hc (player & team & Hterms & Hne & ->)%BuildTwitterQuery_inr.
  pose proof (QueryTerms_ok i Hp Hc) as Hok. rewrite Hterms in Hok |- *. cbn [fst snd] in *.
  destruct (player ++ team) as [|t l]; [done|]. rewrite app_string_cons. cbn [readQuery].
  change ("" +:+ ?s) with s. destruct (VideoOnly i).
  - by rewrite before_suffix_app, splitOr_Join.
  - rewrite app_string_nil, no_video_suffix, before_suffix_app.
    unfold fmap, option_fmap, option_map. by rewrite splitOr_Join.
Qed.

(** Which terms are searched for.  The player contributes every token of the name but
    trailing generational suffixes, each longer than two bytes, in lower case, no
    number and not in the skip list; the team's full name is always searched for; no
    term is repeated.  There is no query exactly when the player has no name, or
    neither the names nor the aliases leave a term. *)
Theorem Build_searches name canon aliases :
  free_of quote (Unidecode name) = true →
  match Build Unidecode name canon aliases with
  | inl ErrEmptyPlayerName => TrimSpace name = ""
  | inl ErrEmptyQuery => TrimSpace name ≠ "" ∧ tokens name = [] ∧ TrimSpace canon = ""
  | inr q =>
      TrimSpace name ≠ "" ∧
      ∃ team, let terms := stripGenSuffix (tokens name) ++ team in
        q = "(" +:+ Join terms " OR " +:+ ") filter:videos" ∧ terms ≠ [] ∧
        NoDup (termKey <$> terms) ∧
        Forall (λ t, token_ok t ∧ isSkipped t = false) (stripGenSuffix (tokens name)) ∧
        (TrimSpace canon = "" ∨ termKey (quoteTerm (TrimSpace canon)) ∈ termKey <$> terms)
  end.
Proof.
  intros Hq. unfold Build. set (i := mkQueryInput _ _ _ _ _).
  pose proof (BuildTwitterQuery_inr i) as Hinr. unfold BuildTwitterQuery in Hinr |- *.
  change (PlayerName i) with name in *.
  destruct (TrimSpace name =? "")%string eqn:En; [by apply String.eqb_eq|].
  apply String.eqb_neq in En. destruct (QueryTerms Unidecode i) as [player team] eqn:Ht.
  destruct (QueryTerms_spec i player team Ht) as (Hp & Hn & Hc).
  rewrite takePlayer_terms in Hp by done. cbn in Hp, Hc. subst player.
  destruct (stripGenSuffix (tokens name) ++ team) as [|t l] eqn:Hterms.
  - split; [done|]. split; [|destruct (decide (TrimSpace canon = "")) as [|Hne]; [done|]].
    + by destruct (tokens name).
    + apply Hc in Hne. by apply elem_of_nil in Hne.
  - split; [done|]. exists team. cbn zeta. rewrite Hterms. split; [done|]. split; [done|].
    split; [done|]. split.
    + apply Forall_forall. intros u Hu. apply (TokenizePlayerName_ok Unidecode name).
      destruct (stripGenSuffix_prefix (tokens name)) as [k ->]. set_solver.
    + destruct (decide (TrimSpace canon = "")); [by left|right; auto].
Qed.
End queries.

Lemma query_roundtrip_witness :
  readQuery ("(salah OR " +:+ String quote "Los Angeles FC" +:+ String quote " OR LAFC) filter:videos") =
  Some (["salah"; String quote "Los Angeles FC" +:+ String quote ""; "LAFC"], true).
Proof.
  apply (query_roundtrip id (mkQueryInput "M. Salah" "Los Angeles FC" "" [] true)).
  - vm_compute. reflexivity.
  - apply Forall_singleton. vm_compute. reflexivity.
  - vm_compute. reflexivity.
Defined.

Lemma Build_searches_witness :
  ∃ team, Build id "Jan von der Berg" "Real Madrid" [] =
    inr ("(" +:+ Join (["jan"; "von"; "berg"] ++ team) " OR " +:+ ") filter:videos").
Proof.
  destruct (Build_searches id "Jan von der Berg" "Real Madrid" [] eq_refl) as (_ & team & Hq & _).
  exists team. exact (f_equal inr Hq).
Defined.

End discovery.
