(* ===== verification/Wire.v ===== *)
(** What the event workflow exchanges with its activities
    (internal/activity/video/types.go, persist.go and selection.go,
    internal/activity/vision/types.go and failure.go), the error chains the
    workflow service returns, and the failure evidence the workflow extracts from
    them (internal/workflow/event_pipeline_intake.go, event_vision_failure.go).

    The nil UUID is [None].  A duration or a size is the integer the code has. *)
From S2P Require Import Prelude GoStrings Event Vision Video Selection Jsonb Discovery Collect Search.
From Stdlib Require Import SpecFloat.
#[local] Open Scope string_scope.
#[local] Open Scope list_scope.
#[local] Open Scope Z_scope.
Import discoverycontract jsonb video discoveryactivity.

Abbreviation UUID := event.UUID (only parsing).
Abbreviation RawMessage := (option Json) (only parsing).

Module wire.

(** ** activity/video/types.go *)

Definition OutcomePassed : string := "passed".
Definition OutcomeRejected : string := "rejected".
Definition RejectInsufficientHashFrames : string := "insufficient_hash_frames".
Definition DownloadFailureErrorType : string := "video_download_failure".

Definition DownloadFailureStage := string.
Definition DownloadFailureActivity : DownloadFailureStage := "activity".
Definition DownloadFailureClass := string.
Definition DownloadFailureTimeout : DownloadFailureClass := "timeout".
Definition DownloadFailureUnknown : DownloadFailureClass := "unknown".

Record DownloadFailureDetail := mkDownloadFailureDetail {
  dfStage : DownloadFailureStage;
  dfClass : DownloadFailureClass }.

Definition DownloadFailureDetail_Valid (d : DownloadFailureDetail) : bool :=
  one_of d.(dfStage) ["resolve"; "scratch"; "cdn_download"; "probe"; "staging_upload";
    DownloadFailureActivity] &&
  one_of d.(dfClass) ["forbidden"; "rate_limited"; DownloadFailureTimeout; "transport";
    "invalid_response"; "stream"; "filesystem"; "binary_missing"; "input_missing"; "probe_failed";
    "concurrency"; "storage"; DownloadFailureUnknown].

Record DownloadAndStageOutput := mkDownloadAndStageOutput {
  doOutcome : string;
  doRejectReason : string;
  doMD5 : string;
  doMediaFingerprint : string;
  doStagingKey : string;
  doWidth : Z;
  doHeight : Z;
  doDurationMS : Z;
  doBitrate : Z;
  doFrameRate : spec_float;
  doSizeBytes : Z }.

Record HashVideoOutput := mkHashVideoOutput {
  hvOutcome : string;
  hvRejectReason : string;
  hvHashVersion : FrameHashVersion;
  hvFrameHashes : list Z }.

(** ** activity/vision *)

(** infra/llm/response_info.go. *)
Record ResponseInfo := mkResponseInfo {
  riRequestID : string;
  riStatusCode : Z;
  riErrorCode : string;
  riRetryAfter : Duration }.

Definition publicToken (value : string) (limit : Z) : string :=
  if limit <? str_len value then ""
  else if forallb (λ c, is_letter c || is_digit c || (c =? "_")%char || (c =? "-")%char ||
    (c =? ".")%char) (String.list_ascii_of_string value) then value else "".

Definition ResponseInfo_Valid (i : ResponseInfo) : bool :=
  (publicToken i.(riRequestID) 128 =? i.(riRequestID))%string &&
  (publicToken i.(riErrorCode) 64 =? i.(riErrorCode))%string &&
  ((i.(riStatusCode) =? 0) || ((100 <=? i.(riStatusCode)) && (i.(riStatusCode) <=? 599))) &&
  (0 <=? i.(riRetryAfter)).

Definition FailureErrorType : string := "vision_failure".
Definition PermanentLLMErrorType : string := "vision_llm_permanent".

Definition FailureStage := string.
Definition FailureActivity : FailureStage := "activity".
Definition FailureClass := string.
Definition FailureTimeout : FailureClass := "timeout".
Definition FailureUnknown : FailureClass := "unknown".
Definition FailureTimeoutType := string.
Definition TimeoutStartToClose : FailureTimeoutType := "start_to_close".
Definition TimeoutScheduleToStart : FailureTimeoutType := "schedule_to_start".
Definition TimeoutScheduleToClose : FailureTimeoutType := "schedule_to_close".
Definition TimeoutHeartbeat : FailureTimeoutType := "heartbeat".
Definition TimeoutUnknown : FailureTimeoutType := "unknown".

Record FailureDetail := mkFailureDetail {
  fdStage : FailureStage;
  fdClass : FailureClass;
  fdTimeoutType : FailureTimeoutType;
  fdModelResponse : option ResponseInfo }.

Definition FailureDetail_Valid (d : FailureDetail) : bool :=
  match d.(fdModelResponse) with Some info => ResponseInfo_Valid info | None => true end &&
  one_of d.(fdStage) ["scratch"; "staging_fetch"; "probe"; "frame_extract"; "model_admission";
    "model_request"; "response_parse"; FailureActivity] &&
  one_of d.(fdClass) [FailureTimeout; "canceled"; "filesystem"; "storage"; "binary_missing";
    "input_missing"; "input_corrupted"; "concurrency"; "probe_failed"; "extract_failed";
    "rate_limited"; "capacity"; "unavailable"; "transport"; "invalid_json"; "model_not_found";
    "invalid_request"; "auth"; FailureUnknown] &&
  ((d.(fdTimeoutType) =? "")%string ||
   ((d.(fdStage) =? FailureActivity)%string && (d.(fdClass) =? FailureTimeout)%string &&
    one_of d.(fdTimeoutType) [TimeoutStartToClose; TimeoutScheduleToStart; TimeoutScheduleToClose;
      TimeoutHeartbeat; TimeoutUnknown])).

Record ValidateClipInput := mkValidateClipInput {
  viEventID : UUID;
  viFixtureID : Z;
  viStagingKey : string;
  viAPIElapsed : Z;
  viAPIExtra : Z;
  viCaptureEvidence : bool;
  viMD5 : string }.

(** The observations of the frames and the readings are kept as the JSON they are
    stored as. *)
Record ValidateClipOutput := mkValidateClipOutput {
  voEvaluator : string;
  voOutcome : string;
  voMatchedMinute : option Z;
  voReason : string;
  voSoccerVotes : Z;
  voScreenVotes : Z;
  voDetectedMinute : option Z;
  voDetectedPeriod : string;
  voExpectedMinute : Z;
  voExpectedPeriod : string;
  voFrames : option (list Json);
  voClockReadings : option (list Json);
  voEvidence : option vision.Evidence }.

(** ** activity/video/persist.go and selection.go *)

Record PlacementCandidateInput := mkPlacementCandidateInput {
  pcEvidence : CandidateEvidence;
  pcOutcome : CandidateOutcome;
  pcDetail : RawMessage;
  pcRawMD5 : string }.

Record PlacementSelectionInput := mkPlacementSelectionInput {
  psID : UUID;
  psPolicy : selection.SelectionPolicy }.

Record CommitClipPlacementInput := mkCommitClipPlacementInput {
  cpEventID : UUID;
  cpFixtureID : Z;
  cpCaptureVariant : bool;
  cpNewWinner : bool;
  cpWinnerAssetID : option UUID;
  cpLoserAssetIDs : list (option UUID);
  cpCandidates : list PlacementCandidateInput;
  cpStagingKey : string;
  cpMD5 : string;
  cpMediaFingerprint : string;
  cpReuseObservedAssetID : option UUID;
  cpHashVersion : FrameHashVersion;
  cpFrameHashes : list Z;
  cpWidth : Z;
  cpHeight : Z;
  cpDurationMS : Z;
  cpFileSizeBytes : Z;
  cpBitrate : option Z;
  cpFrameRate : option spec_float;
  cpVerified : bool;
  cpExtractedMinute : option Z;
  cpValidation : option vision.Evidence;
  cpSelection : option PlacementSelectionInput }.

Record RestoredEventAsset := mkRestoredEventAsset {
  raAssetID : option UUID;
  raMD5 : string;
  raMediaFingerprint : string;
  raHashVersion : FrameHashVersion;
  raFrameHashes : list Z;
  raWidth : Z;
  raHeight : Z;
  raDurationMS : Z;
  raFileSizeBytes : Z;
  raBitrate : option Z;
  raFrameRate : option spec_float;
  raPopularity : Z;
  raVerified : bool }.

Record RestoredExactAlias := mkRestoredExactAlias {
  rxMD5 : string;
  rxMediaFingerprint : string;
  rxAssetID : option UUID;
  rxObservedAssetID : option UUID }.

Record LoadEventAssetsOutput := mkLoadEventAssetsOutput {
  laAssets : list RestoredEventAsset;
  laExactAliases : list RestoredExactAlias }.

Record PlacementSelectionOutput := mkPlacementSelectionOutput {
  poState : LoadEventAssetsOutput;
  poRestored : list (option UUID);
  poSkipped : string }.

Record CommitClipPlacementOutput := mkCommitClipPlacementOutput {
  coWinnerAssetID : option UUID;
  coShareID : string;
  coWinnerCreated : bool;
  coObservedAssetCreated : bool;
  coAnnounce : bool;
  coEventRemoved : bool;
  coSelection : option PlacementSelectionOutput }.

#[global] Instance eta_CommitClipPlacementOutput : Eta CommitClipPlacementOutput := λ o,
  mkCommitClipPlacementOutput o.(coWinnerAssetID) o.(coShareID) o.(coWinnerCreated)
    o.(coObservedAssetCreated) o.(coAnnounce) o.(coEventRemoved) o.(coSelection).

Record PromoteAndPersistInput := mkPromoteAndPersistInput {
  ppEventID : UUID;
  ppFixtureID : Z;
  ppStagingKey : string;
  ppMD5 : string;
  ppHashVersion : FrameHashVersion;
  ppFrameHashes : list Z;
  ppWidth : Z;
  ppHeight : Z;
  ppDurationMS : Z;
  ppFileSizeBytes : Z;
  ppBitrate : option Z;
  ppFrameRate : option spec_float;
  ppPopularity : Z;
  ppVerified : bool;
  ppExtractedMinute : option Z }.

Record PromoteAndPersistOutput := mkPromoteAndPersistOutput {
  prAssetID : option UUID;
  prShareID : string;
  prS3Key : string;
  prInserted : bool;
  prMinted : bool }.

(** ** Errors of activities *)

Inductive TimeoutType := StartToClose | ScheduleToStart | ScheduleToClose | Heartbeat | OtherTimeout.

(** The details of an application error, decoded. *)
Inductive errorDetails :=
  | detailsDownload (d : DownloadFailureDetail)
  | detailsVision (d : FailureDetail)
  | detailsSearch (o : SearchTweetsOutput)
  | detailsFetch (o : collect.FetchLiveFixturesOutput)
  | detailsOther.

Inductive errorLink :=
  | CanceledError
  | TimeoutError (t : TimeoutType)
  | ApplicationError (type : string) (details : option errorDetails)
  | plainError.

(** An error is the chain that Unwrap goes through, the outermost link first. *)
Definition activityError := list errorLink.

Definition IsCanceledError (err : activityError) : bool :=
  existsb (λ l, match l with CanceledError => true | _ => false end) err.

(** errors.As: the first link of the wanted kind. *)
Definition asTimeout (err : activityError) : option TimeoutType :=
  head (omap (λ l, match l with TimeoutError t => Some t | _ => None end) err).

Definition asApplication (err : activityError) : option (string * option errorDetails) :=
  head (omap (λ l, match l with ApplicationError type details => Some (type, details) | _ => None end)
    err).

Definition downloadFailureDetail (err : activityError) : DownloadFailureDetail :=
  let decoded :=
    match asApplication err with
    | Some (type, Some (detailsDownload detail)) =>
        if (type =? DownloadFailureErrorType)%string && DownloadFailureDetail_Valid detail
        then Some detail else None
    | _ => None
    end in
  match decoded with
  | Some detail => detail
  | None =>
      match asTimeout err with
      | Some _ => mkDownloadFailureDetail DownloadFailureActivity DownloadFailureTimeout
      | None => mkDownloadFailureDetail DownloadFailureActivity DownloadFailureUnknown
      end
  end.

Definition visionFailureDetail (err : activityError) : FailureDetail :=
  match asTimeout err with
  | Some t =>
      let subtype := match t with
        | StartToClose => TimeoutStartToClose
        | ScheduleToStart => TimeoutScheduleToStart
        | ScheduleToClose => TimeoutScheduleToClose
        | Heartbeat => TimeoutHeartbeat
        | OtherTimeout => TimeoutUnknown end in
      mkFailureDetail FailureActivity FailureTimeout subtype None
  | None =>
      match asApplication err with
      | Some (type, Some (detailsVision detail)) =>
          if one_of type [FailureErrorType; PermanentLLMErrorType] && FailureDetail_Valid detail
          then detail else mkFailureDetail FailureActivity FailureUnknown "" None
      | _ => mkFailureDetail FailureActivity FailureUnknown "" None
      end
  end.

(** The evidence persisted for a failed download or validation is always one of
    the registered values, whatever error the service returns. *)
Lemma failure_details_valid err :
  DownloadFailureDetail_Valid (downloadFailureDetail err) = true ∧
  FailureDetail_Valid (visionFailureDetail err) = true.
Proof.
  unfold downloadFailureDetail, visionFailureDetail. split.
  - destruct (asApplication err) as [[type [[d|d|d|d|]|]]|]; try (by destruct (asTimeout err)).
    destruct (_ && _) eqn:E; [by apply andb_true_iff in E as [_ ->]|by destruct (asTimeout err)].
  - destruct (asTimeout err) as [[]|]; try done.
    destruct (asApplication err) as [[type [[d|d|d|d|]|]]|]; try done.
    destruct (_ && _) eqn:E; [by apply andb_true_iff in E as [_ ->]|done].
Qed.

(** ** Details of outcomes *)

(** json.Marshal of a map: the keys in order. *)
Definition jsonDetail (m : list (string * Json)) : RawMessage :=
  Some (jObject (foldl (λ acc kv, put kv.1 kv.2 acc) [] m)).

Definition jInt (n : Z) : Json := jNumber (Itoa n).
Definition jList (l : option (list Json)) : Json :=
  match l with Some l => jArray l | None => jNull end.

Definition downloadFailureJSON (d : DownloadFailureDetail) : Json :=
  jObject [("class", jString d.(dfClass)); ("stage", jString d.(dfStage))].

(** Empty fields of the response are left out. *)
Definition responseInfoJSON (i : ResponseInfo) : Json :=
  jObject (
    (if (i.(riErrorCode) =? "")%string then [] else [("error_code", jString i.(riErrorCode))]) ++
    (if (i.(riRequestID) =? "")%string then [] else [("request_id", jString i.(riRequestID))]) ++
    (if i.(riRetryAfter) =? 0 then [] else [("retry_after_ns", jInt i.(riRetryAfter))]) ++
    (if i.(riStatusCode) =? 0 then [] else [("status_code", jInt i.(riStatusCode))])).

Definition visionFailureJSON (d : FailureDetail) : Json :=
  jObject (
    [("class", jString d.(fdClass))] ++
    match d.(fdModelResponse) with Some i => [("model_response", responseInfoJSON i)] | None => [] end ++
    [("stage", jString d.(fdStage))] ++
    (if (d.(fdTimeoutType) =? "")%string then [] else [("timeout_type", jString d.(fdTimeoutType))])).

End wire.
