(* ===== verification/Flow.v ===== *)
(** Code that changes a state step by step and waits for others, as a
    state-passing computation: the small monad the workflow files are written in,
    and the weakest preconditions their invariants are proved with. *)
From S2P Require Import Prelude.
#[local] Open Scope list_scope.
#[local] Open Scope Z_scope.

Module flow.

Section computations.
Context {E : Type}.

Definition M (A : Type) : Type := E → A * E.

#[global] Instance M_ret : MRet M := λ A a e, (a, e).
#[global] Instance M_bind : MBind M := λ A B k m e, let '(a, e') := m e in k a e'.
Definition gets {A} (f : E → A) : M A := λ e, (f e, e).
Definition modify (f : E → E) : M unit := λ e, (tt, f e).
Definition when (c : bool) (m : M unit) : M unit := if c then m else mret tt.

Fixpoint for_ {A} (l : list A) (body : A → M unit) : M unit :=
  match l with
  | [] => mret tt
  | x :: l => body x;; for_ l body
  end.

(** ** What a computation ensures *)

Definition ensures {A} (m : M A) (e : E) (Q : A → E → Prop) : Prop := Q (m e).1 (m e).2.

Lemma ensures_ret {A} (a : A) e (Q : A → E → Prop) : Q a e → ensures (mret a) e Q.
Proof. done. Qed.

Lemma ensures_bind {A B} (m : M A) (k : A → M B) e Q :
  ensures m e (λ a e', ensures (k a) e' Q) → ensures (m ≫= k) e Q.
Proof. unfold ensures, mbind, M_bind. by destruct (m e). Qed.

Lemma ensures_gets {A} (f : E → A) e (Q : A → E → Prop) : Q (f e) e → ensures (gets f) e Q.
Proof. done. Qed.

Lemma ensures_modify f e (Q : unit → E → Prop) : Q tt (f e) → ensures (modify f) e Q.
Proof. done. Qed.

Lemma ensures_mono {A} (m : M A) e (P Q : A → E → Prop) :
  ensures m e P → (∀ a e', P a e' → Q a e') → ensures m e Q.
Proof. unfold ensures. auto. Qed.

Lemma ensures_and {A} (m : M A) e (P Q : A → E → Prop) :
  ensures m e P → ensures m e Q → ensures m e (λ a e', P a e' ∧ Q a e').
Proof. by unfold ensures. Qed.

Lemma ensures_when (c : bool) m e (Q : unit → E → Prop) :
  (c = true → ensures m e Q) → (c = false → Q tt e) → ensures (when c m) e Q.
Proof. destruct c; unfold when, ensures; auto. Qed.

(** The invariant of a loop speaks of the elements that are left. *)
Lemma ensures_for {A} (I : list A → E → Prop) (l : list A) (body : A → M unit) e :
  I l e →
  (∀ x l' e, I (x :: l') e → ensures (body x) e (λ _ e', I l' e')) →
  ensures (for_ l body) e (λ _ e', I [] e').
Proof.
  intros He Hstep. revert e He. induction l as [|x l IH]; intros e He; [done|].
  cbn. apply ensures_bind. eapply ensures_mono; [by apply Hstep|]. intros ? e' He'.
  by apply IH.
Qed.

(** [m] keeps the preorder [R] between the states. *)
Definition keeps (R : E → E → Prop) {A} (m : M A) : Prop := ∀ e, ensures m e (λ _ e', R e e').

Section preorder.
Context (R : E → E → Prop) `{!PreOrder R}.

Lemma keeps_ret {A} (a : A) : keeps R (mret a).
Proof. intros e. unfold ensures. cbn. reflexivity. Qed.

Lemma keeps_gets {A} (f : E → A) : keeps R (gets f).
Proof. intros e. unfold ensures. cbn. reflexivity. Qed.

Lemma keeps_bind {A B} (m : M A) (k : A → M B) :
  keeps R m → (∀ a, keeps R (k a)) → keeps R (m ≫= k).
Proof.
  intros Hm Hk e. apply ensures_bind. eapply ensures_mono; [apply Hm|]. intros a e1 H1.
  eapply ensures_mono; [apply Hk|]. intros b e2 H2. by transitivity e1.
Qed.

Lemma keeps_when (c : bool) m : keeps R m → keeps R (when c m).
Proof. intros Hm. destruct c; [done|apply keeps_ret]. Qed.

Lemma keeps_modify f : (∀ e, R e (f e)) → keeps R (modify f).
Proof. intros Hf e. apply Hf. Qed.

Lemma keeps_for {A} (l : list A) body : (∀ x, keeps R (body x)) → keeps R (for_ l body).
Proof.
  intros Hb. induction l as [|x l IH]; [apply keeps_ret|]. cbn. apply keeps_bind; [apply Hb|].
  intros ?. apply IH.
Qed.
End preorder.
End computations.

#[global] Arguments M : clear implicits.
#[global] Arguments ensures : simpl never.
#[global] Arguments keeps : simpl never.

(** Takes the first operation of a computation apart. *)
Ltac flow_step :=
  lazymatch goal with
  | |- ensures (_ ≫= _) _ _ => apply ensures_bind
  | |- ensures (mret _) _ _ => apply ensures_ret; cbn beta iota
  | |- ensures (gets _) _ _ => apply ensures_gets; cbn beta iota
  | |- ensures (modify _) _ _ => apply ensures_modify; cbn beta iota
  | |- ensures (if ?b then _ else _) _ _ => let H := fresh "Hif" in destruct b eqn:H
  | |- ensures (match ?x with _ => _ end) _ _ => destruct x eqn:?
  end.
Ltac flow_steps := repeat flow_step.

End flow.
