(* ===== verification/Pipeline.v ===== *)
(** internal/workflow, the consumer of the event workflow (event_pipeline.go,
    event_pipeline_intake.go, event_pipeline_validation.go,
    event_pipeline_placement.go, event_pipeline_selection.go,
    event_pipeline_effects.go): every candidate the search finds is downloaded,
    claims its exact media, is hashed, validated, compared with the clips kept so
    far and placed.

    A callback runs to completion, but waits for activities on its way; whatever
    the producer does meanwhile (a candidate spawned, the search finished, the
    context canceled) happens at those waits.  A [schedule] answers activities and
    chooses the interleaving; the theorems hold for every schedule.  Measurements
    and log lines are left out.  The counters are integers: they count candidates
    of one event. *)
From S2P Require Import Prelude GoStrings Event Vision Video Selection Jsonb Discovery Wire Flow.
From Stdlib Require Import SpecFloat.
#[local] Open Scope string_scope.
#[local] Open Scope list_scope.
#[local] Open Scope Z_scope.
Import discoverycontract jsonb video wire flow.

Module pipeline.

(** ** State (event_pipeline.go) *)

Definition CandidateState := string.
Definition CandidateObserved : CandidateState := "observed".
Definition CandidateInFlight : CandidateState := "in_flight".
Definition CandidateTerminal : CandidateState := "terminal".

Record clip := mkClip {
  tweetURL : string;
  md5 : string;
  mediaFingerprint : string;
  reuseObservedAssetID : option UUID;
  hashVersion : FrameHashVersion;
  frameHashes : list Z;
  stagingKey : string;
  width : Z;
  height : Z;
  durationMS : Z;
  fileSizeBytes : Z;
  bitrate : option Z;
  frameRate : option spec_float;
  popularity : Z;
  exactFollowers : list string;
  verified : bool;
  assetID : option UUID }.

#[global] Instance eta_clip : Eta clip := λ c,
  mkClip c.(tweetURL) c.(md5) c.(mediaFingerprint) c.(reuseObservedAssetID) c.(hashVersion)
    c.(frameHashes) c.(stagingKey) c.(width) c.(height) c.(durationMS) c.(fileSizeBytes)
    c.(bitrate) c.(frameRate) c.(popularity) c.(exactFollowers) c.(verified) c.(assetID).

Definition exactKey (c : clip) : string :=
  if (c.(mediaFingerprint) =? "")%string then c.(md5) else c.(mediaFingerprint).

Record hashClaim := mkHashClaim {
  primary : clip;
  waiting : list clip }.

Record candidateOwnership := mkCandidateOwnership {
  evidence : CandidateEvidence;
  state : CandidateState;
  rawMD5 : string }.

#[global] Instance eta_candidateOwnership : Eta candidateOwnership := λ o,
  mkCandidateOwnership o.(evidence) o.(state) o.(rawMD5).

(** The version flags of the run, after the conjunctions of EventWorkflow; the
    flags of the task queue and of the measurements are left out. *)
Record pipelineConfig := mkPipelineConfig {
  maxHamming : Z; minRun : Z; maxGaps : Z;
  longMaxHamming : Z; longMinRun : Z; longMaxGaps : Z;
  terminalVideoFailures : bool;
  preHashMD5Claim : bool;
  durableCandidates : bool;
  durableDownloadFailures : bool;
  durableVisionFailures : bool;
  deferExactFollowerOutcomes : bool;
  atomicPlacement : bool;
  canonicalExactAliases : bool;
  cadenceMetadata : bool;
  variantEvidence : bool;
  preserveIncumbentsOnLoss : bool;
  durableValidation : bool;
  reversibleSelection : bool;
  eventUpdateContract : bool;
  mediaIdentity : bool }.

(** What a future of the selector stands for; it carries what its callback
    captured. *)
Inductive future :=
  | downloading (url : string)
  | childVideo (url : string)
  | hashing_ (identity : string)
  | validating (c : clip).

Inductive pipelineError :=
  | canceledError
  | activityFailed (e : activityError)
  | observationFailed (url : string) (e : activityError)
  | evidenceMissing (url : string)
  | placementEvidenceMissing (url : string)
  | persistFailed (url : string) (e : activityError)
  | commitFailed (url : string) (e : activityError)
  | popularityMismatch (popularity urls : Z)
  | representativeMissing (winner : option UUID)
  | validationMissing
  | selectionMissing
  | selectionInvalid (reason : string)
  | nonTerminal (url : string) (s : CandidateState).

Record pipeline := mkPipeline {
  input : EventWorkflowInput;
  cfg : pipelineConfig;
  selector : list future;
  assets : list clip;
  exactRoots : gmap string UUID;
  mediaObserved : gmap string (option UUID);
  pending : list clip;
  hashing : gmap string hashClaim;
  inFlight : Z;
  searchDone : bool;
  searchErr : option pipelineError;
  terminalErr : option pipelineError;
  childSeq : Z;
  candidates : gmap string candidateOwnership;
  ctxDone : bool;
  nSpawned : Z; nPassed : Z; nRejected : Z; nDuplicates : Z;
  nVerified : Z; nUnverified : Z; nSuperseded : Z; nFailed : Z }.

#[global] Instance eta_pipeline : Eta pipeline := λ p,
  mkPipeline p.(input) p.(cfg) p.(selector) p.(assets) p.(exactRoots) p.(mediaObserved)
    p.(pending) p.(hashing) p.(inFlight) p.(searchDone) p.(searchErr) p.(terminalErr)
    p.(childSeq) p.(candidates) p.(ctxDone) p.(nSpawned) p.(nPassed) p.(nRejected)
    p.(nDuplicates) p.(nVerified) p.(nUnverified) p.(nSuperseded) p.(nFailed).

Definition newPipeline (i : EventWorkflowInput) (c : pipelineConfig) : pipeline :=
  mkPipeline i c [] [] ∅ ∅ [] ∅ 0 false None None 0 ∅ false 0 0 0 0 0 0 0 0.

(** ** The child workflow of old histories (video.go) *)

Definition VideoOutcomePassed : string := "passed".
Definition VideoOutcomeRejected : string := "rejected".
Definition VideoOutcomeFailed : string := "failed".
Definition VideoFailureDownload : string := "download_error".
Definition VideoFailureHash : string := "hash_error".
Definition VideoFailureUnexpectedChild : string := "video_workflow_error".
Definition VideoFailureInvalidChildOutput : string := "video_workflow_invalid_outcome".

Record VideoWorkflowOutput := mkVideoWorkflowOutput {
  vwTweetURL : string;
  vwOutcome : string;
  vwRejectReason : string;
  vwFailureReason : string;
  vwMD5 : string;
  vwStagingKey : string;
  vwHashVersion : FrameHashVersion;
  vwFrameHashes : list Z;
  vwWidth : Z;
  vwHeight : Z;
  vwDurationMS : Z;
  vwBitrate : Z;
  vwFrameRate : spec_float;
  vwSizeBytes : Z }.

#[global] Instance eta_VideoWorkflowOutput : Eta VideoWorkflowOutput := λ o,
  mkVideoWorkflowOutput o.(vwTweetURL) o.(vwOutcome) o.(vwRejectReason) o.(vwFailureReason)
    o.(vwMD5) o.(vwStagingKey) o.(vwHashVersion) o.(vwFrameHashes) o.(vwWidth) o.(vwHeight)
    o.(vwDurationMS) o.(vwBitrate) o.(vwFrameRate) o.(vwSizeBytes).

(** [download] and [hash] are what the two activities return once their retries
    are exhausted. *)
Definition VideoWorkflow (terminalFailures : bool) (url : string)
    (download : activityError + DownloadAndStageOutput)
    (hash : string → activityError + HashVideoOutput) : activityError + VideoWorkflowOutput :=
  let out := mkVideoWorkflowOutput url "" "" "" "" "" "" [] 0 0 0 0 float_0 0 in
  match download with
  | inl err =>
      if IsCanceledError err || negb terminalFailures then inl err
      else inr (out <| vwOutcome := VideoOutcomeFailed |>
        <| vwFailureReason := VideoFailureDownload |>)
  | inr dl =>
      let out := out <| vwWidth := dl.(doWidth) |> <| vwHeight := dl.(doHeight) |>
        <| vwDurationMS := dl.(doDurationMS) |> <| vwBitrate := dl.(doBitrate) |>
        <| vwFrameRate := dl.(doFrameRate) |> <| vwSizeBytes := dl.(doSizeBytes) |>
        <| vwMD5 := dl.(doMD5) |> in
      if (dl.(doOutcome) =? OutcomeRejected)%string then
        inr (out <| vwOutcome := VideoOutcomeRejected |> <| vwRejectReason := dl.(doRejectReason) |>)
      else
        let out := out <| vwStagingKey := dl.(doStagingKey) |> in
        match hash dl.(doStagingKey) with
        | inl err =>
            if IsCanceledError err || negb terminalFailures then inl err
            else inr (out <| vwOutcome := VideoOutcomeFailed |>
              <| vwFailureReason := VideoFailureHash |>)
        | inr hv =>
            if (hv.(hvOutcome) =? OutcomeRejected)%string then
              inr (out <| vwOutcome := VideoOutcomeRejected |>
                <| vwRejectReason := hv.(hvRejectReason) |>)
            else if negb (hv.(hvOutcome) =? "")%string &&
              negb (hv.(hvOutcome) =? OutcomePassed)%string then
              inr (out <| vwOutcome := VideoOutcomeFailed |>
                <| vwFailureReason := VideoFailureHash |>)
            else
              inr (out <| vwOutcome := VideoOutcomePassed |>
                <| vwHashVersion := NormalizeFrameHashVersion hv.(hvHashVersion) |>
                <| vwFrameHashes := hv.(hvFrameHashes) |>)
        end
  end.

(** ** Activities and the schedule *)

(** What is started without waiting for it. *)
Inductive request :=
  | reqDownload (eventID : UUID) (fixtureID : Z) (url : string) (computeMediaFingerprint : bool)
  | reqVideo (workflowID : string) (eventID : UUID) (fixtureID : Z) (url : string)
  | reqHash (key : string)
  | reqValidate (i : ValidateClipInput).

(** What a callback waits for. *)
Inductive command :=
  | DeleteStaging (key : string)
  | UpsertCandidateOutcome (e : CandidateEvidence) (o : CandidateOutcome) (reason : string)
      (detail : RawMessage)
  | RecordCandidateOutcome (eventID : UUID) (url : string) (o : CandidateOutcome)
      (reason : string) (detail : RawMessage)
  | CommitClipPlacement (i : CommitClipPlacementInput)
  | PromoteAndPersist (i : PromoteAndPersistInput)
  | BumpAssetPopularity (id : option UUID) (n : Z)
  | SupersedeAssets (eventID : UUID) (winner : option UUID) (losers : list (option UUID))
  | PublishEventUpdate (eventID : UUID) (fixtureID : Z)
  | PublishEventVideo (eventID : UUID) (fixtureID : Z).

Definition response (c : command) : Type :=
  match c with
  | CommitClipPlacement _ => CommitClipPlacementOutput
  | PromoteAndPersist _ => PromoteAndPersistOutput
  | _ => unit
  end.

Definition result (f : future) : Type :=
  match f with
  | downloading _ => activityError + DownloadAndStageOutput
  | childVideo _ => activityError + VideoWorkflowOutput
  | hashing_ _ => activityError + HashVideoOutput
  | validating _ => activityError + ValidateClipOutput
  end.

(** What the producer and the service do to the consumer from outside. *)
Inductive event :=
  | spawn (e : CandidateEvidence)
  | searchFinished (err : option pipelineError)
  | cancel.

Inductive entry :=
  | Started (r : request)
  | Issued (c : command)
  | Called (c : command) (r : activityError + response c)
  | Completed (f : future) (r : result f)
  | Yielded
  | Canceled.

(** The state of a run: the events still to come, and what happened so far, the
    latest entry first. *)
Record env := mkEnv {
  pl : pipeline;
  coming : list event;
  history : list entry }.

#[global] Instance eta_env : Eta env := λ e, mkEnv e.(pl) e.(coming) e.(history).

(** The service and the scheduler, which may depend on everything that happened:
    the answer to a command, the result of a future, which ready future the
    selector takes ([None] when none is ready), and how many of the coming events
    arrive during a wait. *)
Record schedule := mkSchedule {
  answer : list entry → ∀ c : command, activityError + response c;
  outcome : list entry → ∀ f : future, result f;
  ready : list entry → option nat;
  arrivals : list entry → nat }.

(** What the consumer takes from outside: uuid.UUID.String, uuid.NewSHA1 in the
    OID name space, the run of the workflow, the order in which the code ranges over
    two of its maps, and the schedule. *)
Class Platform := {
  text : option UUID → string;
  sha1 : string → UUID;
  runID : string;
  rangeHashing : gmap string hashClaim → list (string * hashClaim);
  rangeCandidates : gmap string candidateOwnership → list (string * candidateOwnership);
  world : schedule }.

(** Ranging over a map meets every entry once. *)
Class PlatformLaws `{Platform} : Prop := {
  rangeHashing_all m : rangeHashing m ≡ₚ map_to_list m;
  rangeCandidates_all m : rangeCandidates m ≡ₚ map_to_list m }.

Section consumer.
Context `{Platform}.

Abbreviation run_ A := (M env A).

Definition peek {A} (f : pipeline → A) : run_ A := gets (λ e, f (pl e)).
Definition update (f : pipeline → pipeline) : run_ unit := modify (λ e, e <| pl ::= f |>).
Definition record (x : entry) : run_ unit := modify (λ e, e <| history ::= cons x |>).

(** p.canceled. *)
Definition canceled : run_ bool := peek ctxDone.

(** ** Intake (event_pipeline_intake.go) *)

Definition addFuture (f : future) (p : pipeline) : pipeline :=
  p <| inFlight ::= Z.add 1 |> <| selector ::= λ l, l ++ [f] |>.

Definition spawnCandidate (e : CandidateEvidence) : run_ unit :=
  p ← peek id;
  let url := e.(ceTweetURL) in
  if p.(ctxDone) || (url =? "")%string then mret tt
  else
    when (p.(cfg).(durableCandidates))
      (update (λ p, p <| candidates ::= <[url := mkCandidateOwnership e CandidateInFlight ""]> |>)) ;;
    update (λ p, p <| nSpawned ::= Z.add 1 |>) ;;
    let i := p.(input) in
    if p.(cfg).(preHashMD5Claim) then
      record (Started (reqDownload i.(wiEventID) i.(wiFixtureID) url p.(cfg).(mediaIdentity))) ;;
      update (addFuture (downloading url))
    else
      update (λ p, p <| childSeq ::= Z.add 1 |>) ;;
      n ← peek childSeq;
      record (Started (reqVideo
        ("video-" +:+ text (Some i.(wiEventID)) +:+ "-" +:+ Itoa n)
        i.(wiEventID) i.(wiFixtureID) url)) ;;
      update (addFuture (childVideo url)).

Definition finishSearch (err : option pipelineError) : run_ unit :=
  update (λ p, p <| searchErr := err |> <| searchDone := true |>).

Definition happen (x : event) : run_ unit :=
  match x with
  | spawn e => spawnCandidate e
  | searchFinished err => finishSearch err
  | cancel => record Canceled ;; update (λ p, p <| ctxDone := true |>)
  end.

(** The consumer waits: the next [n] of the coming events happen. *)
Definition yield (n : nat) : run_ unit :=
  xs ← gets (λ e, take n (coming e));
  modify (λ e, e <| coming := drop n (coming e) |>) ;;
  for_ xs happen.

(** Get on the future of an activity that was just started. *)
Definition call (c : command) : run_ (activityError + response c) :=
  n ← gets (λ e, arrivals world (history e));
  record (Issued c) ;;
  yield n ;;
  r ← gets (λ e, answer world (history e) c);
  record (Called c r) ;;
  mret r.

(** ** Effects (event_pipeline_effects.go) *)

(** The first failure is kept. *)
Definition setTerminalError (err : pipelineError) : run_ unit :=
  update (λ p, if is_nil p.(terminalErr) then p <| terminalErr := Some err |> else p).

Definition deleteStaging (key : string) : run_ unit :=
  c ← canceled;
  if (key =? "")%string || c then mret tt
  else call (DeleteStaging key) ;; mret tt.

(** The entry written back is the one that was read before the wait. *)
Definition storeTerminal (url : string) (read : candidateOwnership) : run_ unit :=
  update (λ p, p <| candidates ::= <[url := read <| state := CandidateTerminal |>]> |>).

Definition recordOutcome (url : string) (o : CandidateOutcome) (reason : string)
    (detail : RawMessage) : run_ unit :=
  c ← canceled;
  if (url =? "")%string || c then mret tt
  else
    p ← peek id;
    if p.(cfg).(durableCandidates) then
      match p.(candidates) !! url with
      | None => setTerminalError (evidenceMissing url)
      | Some candidate =>
          r ← call (UpsertCandidateOutcome candidate.(evidence) o reason detail);
          match r with
          | inl err => setTerminalError (persistFailed url err)
          | inr _ => storeTerminal url candidate
          end
      end
    else
      call (RecordCandidateOutcome p.(input).(wiEventID) url o reason detail) ;; mret tt.

Definition publishEventUpdate : run_ unit :=
  c ← canceled;
  if (c : bool) then mret tt
  else
    p ← peek id;
    let i := p.(input) in
    if p.(cfg).(eventUpdateContract)
    then call (PublishEventUpdate i.(wiEventID) i.(wiFixtureID)) ;; mret tt
    else call (PublishEventVideo i.(wiEventID) i.(wiFixtureID)) ;; mret tt.

(** rejectExactCluster, failExactCluster, duplicateExactCluster: the counter, then
    the representative and its followers. *)
Definition closeCluster (c : clip) (o : CandidateOutcome) (reason : string) (detail : RawMessage)
    : run_ unit :=
  recordOutcome c.(tweetURL) o reason detail ;;
  for_ c.(exactFollowers) (λ url, recordOutcome url o reason detail).

Definition clusterSize (c : clip) : Z := 1 + Z.of_nat (length c.(exactFollowers)).

Definition rejectExactCluster (c : clip) (reason : string) (detail : RawMessage) : run_ unit :=
  update (λ p, p <| nRejected ::= Z.add (clusterSize c) |>) ;;
  closeCluster c OutcomeRejected reason detail.

Definition failExactCluster (c : clip) (reason : string) (detail : RawMessage) : run_ unit :=
  update (λ p, p <| nFailed ::= Z.add (clusterSize c) |>) ;;
  closeCluster c OutcomeFailed reason detail.

Definition winnerDetail (winner : option UUID) : RawMessage :=
  jsonDetail [("winner_asset_id", jString (text winner))].

Definition duplicateExactCluster (c : clip) (winner : option UUID) : run_ unit :=
  update (λ p, p <| nDuplicates ::= Z.add (clusterSize c) |>) ;;
  d ← peek (λ p, if p.(cfg).(deferExactFollowerOutcomes) then winnerDetail winner else None);
  closeCluster c OutcomeDuplicate "" d.

Definition bumpPopularity (id : option UUID) (n : Z) : run_ unit :=
  c ← canceled;
  if is_nil id || (n <? 1) || c then mret tt
  else call (BumpAssetPopularity id n) ;; mret tt.

(** ** Roots of exact media (event_pipeline.go) *)

Definition rememberExactRoot (key : string) (root : option UUID) (p : pipeline) : pipeline :=
  if negb p.(cfg).(canonicalExactAliases) || (key =? "")%string then p
  else match root with
       | None => p
       | Some root => p <| exactRoots ::= <[key := root]> |>
       end.

Definition redirectExactRoots (losers : list (option UUID)) (winner : option UUID) (p : pipeline)
    : pipeline :=
  if negb p.(cfg).(canonicalExactAliases) then p
  else match winner, losers with
       | None, _ | _, [] => p
       | Some winner, _ =>
           p <| exactRoots ::= fmap (λ root, if decide (Some root ∈ losers) then winner else root) |>
       end.

Definition restoredClip (a : RestoredEventAsset) : clip :=
  let popularity := if a.(raPopularity) <? 1 then 1 else a.(raPopularity) in
  mkClip "" a.(raMD5) a.(raMediaFingerprint) None
    (NormalizeFrameHashVersion a.(raHashVersion)) a.(raFrameHashes) ""
    a.(raWidth) a.(raHeight) a.(raDurationMS) a.(raFileSizeBytes) a.(raBitrate) a.(raFrameRate)
    popularity [] a.(raVerified) a.(raAssetID).

Definition restoreAsset (p : pipeline) (a : RestoredEventAsset) : pipeline :=
  let p := p <| assets ::= λ l, l ++ [restoredClip a] |> in
  let p := rememberExactRoot a.(raMD5) a.(raAssetID) p in
  let p := rememberExactRoot a.(raMediaFingerprint) a.(raAssetID) p in
  if (a.(raMediaFingerprint) =? "")%string then p
  else p <| mediaObserved ::= <[a.(raMediaFingerprint) := a.(raAssetID)]> |>.

Definition restoreAlias (p : pipeline) (a : RestoredExactAlias) : pipeline :=
  let p := rememberExactRoot a.(rxMD5) a.(rxAssetID) p in
  let p := rememberExactRoot a.(rxMediaFingerprint) a.(rxAssetID) p in
  if (a.(rxMediaFingerprint) =? "")%string || is_nil a.(rxObservedAssetID) then p
  else p <| mediaObserved ::= <[a.(rxMediaFingerprint) := a.(rxObservedAssetID)]> |>.

Definition restoreAssets (restored : list RestoredEventAsset) (aliases : list RestoredExactAlias)
    (p : pipeline) : pipeline :=
  foldl restoreAlias (foldl restoreAsset p restored) aliases.

(** ** Dense hashes (event_pipeline_intake.go) *)

Definition fireHash (identity : string) : run_ unit :=
  c ← canceled;
  if (c : bool) then mret tt
  else
    claim ← peek (λ p, p.(hashing) !! identity);
    match claim with
    | None => mret tt
    | Some claim =>
        record (Started (reqHash claim.(primary).(stagingKey))) ;;
        update (addFuture (hashing_ identity))
    end.

Definition closeClaim (counter : pipeline → pipeline) (o : CandidateOutcome)
    (identity reason : string) (claim : hashClaim) : run_ unit :=
  for_ (claim.(primary) :: claim.(waiting)) (λ c,
    update counter ;;
    recordOutcome c.(tweetURL) o reason None ;;
    deleteStaging c.(stagingKey)) ;;
  update (λ p, p <| hashing ::= delete identity |>).

Definition rejectHashClaim : string → string → hashClaim → run_ unit :=
  closeClaim (λ p, p <| nRejected ::= Z.add 1 |>) OutcomeRejected.

Definition failHashClaim : string → string → hashClaim → run_ unit :=
  closeClaim (λ p, p <| nFailed ::= Z.add 1 |>) OutcomeFailed.

Definition clipFromDownload (url : string) (out : DownloadAndStageOutput) : clip :=
  mkClip url out.(doMD5) out.(doMediaFingerprint) None "" [] out.(doStagingKey)
    out.(doWidth) out.(doHeight) out.(doDurationMS) out.(doSizeBytes)
    (if out.(doBitrate) =? 0 then None else Some out.(doBitrate))
    (if SFltb float_0 out.(doFrameRate) then Some out.(doFrameRate) else None)
    1 [] false None.

(** ** Exact matches (event_pipeline_validation.go) *)

Definition sameExact (c a : clip) : bool :=
  (a.(md5) =? c.(md5))%string ||
  (negb (c.(mediaFingerprint) =? "")%string && (a.(mediaFingerprint) =? c.(mediaFingerprint))%string).

Definition findIndex {A} (f : A → bool) (l : list A) : option nat :=
  fst <$> list_find (λ x, f x = true) l.

Inductive exactMatch := matchedAsset (i : nat) | matchedPending (i : nat) | noMatch.

Definition matchExact (p : pipeline) (c : clip) : exactMatch :=
  match findIndex (sameExact c) p.(assets) with
  | Some i => matchedAsset i
  | None =>
      let rootID :=
        if p.(cfg).(canonicalExactAliases) then
          match p.(exactRoots) !! exactKey c with
          | Some root => Some root
          | None => p.(exactRoots) !! c.(md5)
          end
        else None in
      let byRoot :=
        match rootID with
        | Some root => findIndex (λ a, bool_decide (a.(assetID) = Some root)) p.(assets)
        | None => None
        end in
      match byRoot with
      | Some i => matchedAsset i
      | None =>
          match findIndex (sameExact c) p.(pending) with
          | Some i => matchedPending i
          | None => noMatch
          end
      end
  end.

Definition quality (c : clip) : ClipQuality :=
  mkClipQuality c.(durationMS) c.(bitrate) c.(width) c.(height).

Definition comparable (c a : clip) : bool :=
  Bool.eqb a.(verified) c.(verified) && CompatibleFrameHashVersions c.(hashVersion) a.(hashVersion).

Definition sameFootage (g : pipelineConfig) (c a : clip) : bool :=
  Match c.(frameHashes) a.(frameHashes) g.(maxHamming) g.(minRun) g.(maxGaps) ||
  ((0 <? g.(longMinRun)) &&
   Match c.(frameHashes) a.(frameHashes) g.(longMaxHamming) g.(longMinRun) g.(longMaxGaps)).

Definition matchAssets (p : pipeline) (c : clip) : list nat :=
  omap (λ ia, if comparable c ia.2 && sameFootage p.(cfg) c ia.2 then Some ia.1 else None)
    (imap pair p.(assets)).

(** The better of the matched incumbents; a tie keeps the earlier one. *)
Definition bestOf (assets : list clip) (first : nat) (rest : list nat) : nat :=
  foldl (λ best i,
    match assets !! i, assets !! best with
    | Some a, Some b => if IsUpgrade (quality a) (quality b) then i else best
    | _, _ => best
    end) first rest.

Definition assetIDsAt (p : pipeline) (ixs : list nat) : list (option UUID) :=
  omap (λ i, assetID <$> p.(assets) !! i) ixs.

(** ** The committed selection (event_pipeline_selection.go) *)

Fixpoint indexSelection (l : list RestoredEventAsset) (md5s : gset string)
    (m : gmap (option UUID) RestoredEventAsset) : string + gmap (option UUID) RestoredEventAsset :=
  match l with
  | [] => inr m
  | a :: l =>
      if is_nil a.(raAssetID) || (a.(raMD5) =? "")%string || (a.(raPopularity) <? 1) ||
        bool_decide (a.(raMD5) ∈ md5s)
      then inl "invalid committed selection asset"
      else match m !! a.(raAssetID) with
           | Some _ => inl "repeated committed selection asset"
           | None => indexSelection l ({[a.(raMD5)]} ∪ md5s) (<[a.(raAssetID) := a]> m)
           end
  end.

(** appendID over a list of ids. *)
Fixpoint takeInOrder (ids : list (option UUID)) (m : gmap (option UUID) RestoredEventAsset)
    : list RestoredEventAsset :=
  match ids with
  | [] => []
  | id :: ids =>
      match m !! id with
      | Some a => a :: takeInOrder ids (delete id m)
      | None => takeInOrder ids m
      end
  end.

Definition replaceSelection (out : PlacementSelectionOutput) (incoming : option UUID)
    (p : pipeline) : string + pipeline :=
  let selected := out.(poState) in
  match indexSelection selected.(laAssets) ∅ ∅ with
  | inl err => inl err
  | inr m =>
      if existsb (λ a, is_nil (m !! a.(rxAssetID)) || (a.(rxMD5) =? "")%string)
        selected.(laExactAliases)
      then inl "invalid committed selection alias"
      else
        let ids := (assetID <$> p.(assets)) ++ [incoming] ++ out.(poRestored) ++
          (raAssetID <$> selected.(laAssets)) in
        inr (restoreAssets (takeInOrder ids m) selected.(laExactAliases)
          (p <| assets := [] |> <| exactRoots := ∅ |> <| mediaObserved := ∅ |>))
  end.

Definition countKept (c : clip) (p : pipeline) : pipeline :=
  if c.(verified) then p <| nVerified ::= Z.add 1 |> else p <| nUnverified ::= Z.add 1 |>.

Definition followers (c : clip) : Z := Z.of_nat (length c.(exactFollowers)).

Definition recordSelectedPlacement (c : clip) (newWinner : bool) (losers : Z) (p : pipeline)
    : pipeline :=
  let p := p <| nDuplicates ::= Z.add (followers c) |> <| nSuperseded ::= Z.add losers |> in
  if negb newWinner then p <| nDuplicates ::= Z.add 1 |> else countKept c p.

(** ** Atomic placement (event_pipeline_placement.go) *)

Definition persistedFrameRate (p : pipeline) (c : clip) : option spec_float :=
  if p.(cfg).(cadenceMetadata) then c.(frameRate) else None.

(** The asset a new winner gets. *)
Definition newAssetID (p : pipeline) (c : clip) : UUID :=
  sha1 (text (Some p.(input).(wiEventID)) +:+ ":" +:+ c.(md5)).

(** The candidates of the cluster, or the error; [i] counts from the
    representative. *)
Fixpoint placementList (p : pipeline) (c : clip) (newWinner : bool) (winner : option UUID)
    (first : bool) (urls : list string) : pipelineError + list PlacementCandidateInput :=
  match urls with
  | [] => inr []
  | url :: urls =>
      match p.(candidates) !! url with
      | None => inl (placementEvidenceMissing url)
      | Some o =>
          let x :=
            if newWinner && first
            then mkPlacementCandidateInput o.(evidence) OutcomePromoted
              (jsonDetail [("asset_id", jString (text winner)); ("verified", jBool c.(verified))])
              o.(rawMD5)
            else mkPlacementCandidateInput o.(evidence) OutcomeDuplicate (winnerDetail winner)
              o.(rawMD5) in
          match placementList p c newWinner winner false urls with
          | inl err => inl err
          | inr xs => inr (x :: xs)
          end
      end
  end.

Definition placementCandidates (p : pipeline) (c : clip) (newWinner : bool)
    (winner : option UUID) : pipelineError + list PlacementCandidateInput :=
  let urls := c.(tweetURL) :: c.(exactFollowers) in
  if negb (c.(popularity) =? Z.of_nat (length urls))
  then inl (popularityMismatch c.(popularity) (Z.of_nat (length urls)))
  else placementList p c newWinner (if newWinner then Some (newAssetID p c) else winner) true urls.

Definition selectionInput (p : pipeline) (c : clip) : option PlacementSelectionInput :=
  if p.(cfg).(reversibleSelection) then
    let g := p.(cfg) in
    Some (mkPlacementSelectionInput (sha1 ("selection:" +:+ runID +:+ ":" +:+ c.(tweetURL)))
      (selection.mkSelectionPolicy g.(maxHamming) g.(minRun) g.(maxGaps)
        g.(longMaxHamming) g.(longMinRun) g.(longMaxGaps)))
  else None.

Definition placementInput (p : pipeline) (c : clip) (vout : ValidateClipOutput)
    (newWinner : bool) (winner : option UUID) (losers : list (option UUID))
    (candidates : list PlacementCandidateInput) : CommitClipPlacementInput :=
  let i := p.(input) in
  mkCommitClipPlacementInput i.(wiEventID) i.(wiFixtureID) p.(cfg).(variantEvidence) newWinner
    winner losers candidates c.(stagingKey) c.(md5) c.(mediaFingerprint)
    c.(reuseObservedAssetID) c.(hashVersion) c.(frameHashes) c.(width) c.(height)
    c.(durationMS) c.(fileSizeBytes) c.(bitrate) (persistedFrameRate p c) c.(verified)
    vout.(voMatchedMinute) (if p.(cfg).(durableValidation) then vout.(voEvidence) else None)
    (selectionInput p c).

Definition noEvidence : CandidateEvidence :=
  mkCandidateEvidence 1 0 0 "" "" "" "" float_0 "" float_0.

(** A missing entry reads as the zero value. *)
Definition settle (x : PlacementCandidateInput) (p : pipeline) : pipeline :=
  let url := x.(pcEvidence).(ceTweetURL) in
  let o := default (mkCandidateOwnership noEvidence "" "") (p.(candidates) !! url) in
  p <| candidates ::= <[url := o <| state := CandidateTerminal |>]> |>.

(** What the answer of the placement says about the pool of kept clips. *)
Definition adoptPlacement (c : clip) (losers : list (option UUID))
    (out : CommitClipPlacementOutput) : run_ bool :=
  p ← peek id;
  if p.(cfg).(reversibleSelection) then
    match out.(coSelection) with
    | None => setTerminalError selectionMissing ;; mret false
    | Some s =>
        match replaceSelection s out.(coWinnerAssetID) p with
        | inl err => setTerminalError (selectionInvalid err) ;; mret false
        | inr p => update (λ _, p) ;; mret true
        end
    end
  else
    update (rememberExactRoot c.(md5) out.(coWinnerAssetID)) ;;
    update (rememberExactRoot c.(mediaFingerprint) out.(coWinnerAssetID)) ;;
    when (negb (c.(mediaFingerprint) =? "")%string && is_nil c.(reuseObservedAssetID))
      (update (λ p, p <| mediaObserved ::= <[c.(mediaFingerprint) := Some (newAssetID p c)]> |>)) ;;
    update (redirectExactRoots losers out.(coWinnerAssetID)) ;;
    mret true.

Definition commitClipPlacement (c : clip) (vout : ValidateClipOutput) (newWinner : bool)
    (winner : option UUID) (losers : list (option UUID))
    : run_ (option CommitClipPlacementOutput) :=
  p ← peek id;
  if p.(ctxDone) then mret None
  else match placementCandidates p c newWinner winner with
  | inl err => setTerminalError err ;; mret None
  | inr xs =>
      r ← call (CommitClipPlacement (placementInput p c vout newWinner winner losers xs));
      match r with
      | inl err =>
          when (negb (IsCanceledError err)) (setTerminalError (commitFailed c.(tweetURL) err)) ;;
          mret None
      | inr out =>
          for_ xs (λ x, update (settle x)) ;;
          if out.(coEventRemoved) then
            when (p.(cfg).(reversibleSelection))
              (update (λ p, p <| assets := [] |> <| exactRoots := ∅ |> <| mediaObserved := ∅ |>)) ;;
            mret None
          else
            ok ← adoptPlacement c losers out;
            if (ok : bool) then
              when out.(coAnnounce) publishEventUpdate ;; mret (Some out)
            else mret None
      end
  end.

Definition dropAssets (ids : list (option UUID)) (p : pipeline) : pipeline :=
  p <| assets ::= filter (λ a, a.(assetID) ∉ ids) |>.

Definition popularityAt (p : pipeline) (ixs : list nat) : Z :=
  foldr Z.add 0 (omap (λ i, popularity <$> p.(assets) !! i) ixs).

(** A kept clip enters the pool, with what it supersedes. *)
Definition keepWinner (c : clip) (winner : option UUID) (matched : list nat)
    (losers : list (option UUID)) (p : pipeline) : pipeline :=
  let c := c <| popularity ::= Z.add (popularityAt p matched) |> <| assetID := winner |> in
  let p := dropAssets losers p in
  countKept c (p <| assets ::= λ l, l ++ [c] |>
    <| nDuplicates ::= Z.add (followers c) |>
    <| nSuperseded ::= Z.add (Z.of_nat (length losers)) |>).

(** A clip that loses leaves its sightings, and those of the incumbents retired
    with it, to the winner. *)
Definition keepIncumbent (c : clip) (best : nat) (retired : list nat)
    (losers : list (option UUID)) (p : pipeline) : pipeline :=
  let votes := clusterSize c + popularityAt p retired in
  dropAssets losers (p <| assets ::= alter (λ a, a <| popularity ::= Z.add votes |>) best |>)
    <| nDuplicates ::= Z.add (clusterSize c) |>
    <| nSuperseded ::= Z.add (Z.of_nat (length losers)) |>.

Definition idAt (p : pipeline) (i : nat) : option UUID :=
  match p.(assets) !! i with Some a => a.(assetID) | None => None end.

Definition winsOver (p : pipeline) (c : clip) (best : nat) : bool :=
  match p.(assets) !! best with
  | Some a => IsUpgrade (quality c) (quality a)
  | None => false
  end.

Definition dedupAndCommit (c : clip) (vout : ValidateClipOutput) : run_ unit :=
  p ← peek id;
  let settleWith newWinner (losers : list (option UUID)) (legacy : option UUID → pipeline → pipeline)
      (r : option CommitClipPlacementOutput) :=
    match r with
    | None => mret tt
    | Some out =>
        update (if p.(cfg).(reversibleSelection)
          then recordSelectedPlacement c newWinner (Z.of_nat (length losers))
          else legacy out.(coWinnerAssetID))
    end in
  match matchAssets p c with
  | [] =>
      r ← commitClipPlacement c vout true None [];
      settleWith true [] (λ winner, keepWinner c winner [] []) r
  | first :: rest =>
      let best := bestOf p.(assets) first rest in
      if winsOver p c best then
        let losers := assetIDsAt p (first :: rest) in
        r ← commitClipPlacement c vout true None losers;
        settleWith true losers (λ winner, keepWinner c winner (first :: rest) losers) r
      else
        let retired :=
          if p.(cfg).(preserveIncumbentsOnLoss) then []
          else filter (λ i, i ≠ best) (first :: rest) in
        let losers := assetIDsAt p retired in
        r ← commitClipPlacement c vout false (idAt p best) losers;
        settleWith false losers (λ _, keepIncumbent c best retired losers) r
  end.

(** ** Promotion before atomic placement (event_pipeline_effects.go) *)

Definition promoteInput (p : pipeline) (c : clip) (vout : ValidateClipOutput)
    : PromoteAndPersistInput :=
  let i := p.(input) in
  mkPromoteAndPersistInput i.(wiEventID) i.(wiFixtureID) c.(stagingKey) c.(md5) c.(hashVersion)
    c.(frameHashes) c.(width) c.(height) c.(durationMS) c.(fileSizeBytes) c.(bitrate)
    (persistedFrameRate p c) c.(popularity) c.(verified) vout.(voMatchedMinute).

Definition promote (c : clip) (vout : ValidateClipOutput) : run_ (option (option UUID)) :=
  p ← peek id;
  if p.(ctxDone) then mret None
  else
    r ← call (PromoteAndPersist (promoteInput p c vout));
    match r with
    | inl err =>
        when (negb (IsCanceledError err)) (failExactCluster c "promote_error" None) ;;
        mret None
    | inr out =>
        let c := c <| assetID := out.(prAssetID) |> in
        update (λ p, countKept c
          (rememberExactRoot c.(md5) c.(assetID) (p <| assets ::= λ l, l ++ [c] |>))) ;;
        recordOutcome c.(tweetURL) OutcomePromoted ""
          (jsonDetail [("asset_id", jString (text c.(assetID))); ("verified", jBool c.(verified))]) ;;
        update (λ p, p <| nDuplicates ::= Z.add (followers c) |>) ;;
        for_ c.(exactFollowers) (λ url,
          recordOutcome url OutcomeDuplicate "" (winnerDetail c.(assetID))) ;;
        when out.(prMinted) publishEventUpdate ;;
        mret (Some c.(assetID))
    end.

Definition supersede (winner : option UUID) (losers : list (option UUID)) : run_ unit :=
  c ← canceled;
  match losers with
  | [] => mret tt
  | _ =>
      if (c : bool) then mret tt
      else
        i ← peek input;
        r ← call (SupersedeAssets i.(wiEventID) winner losers);
        match r with
        | inl _ => mret tt
        | inr _ =>
            update (λ p, p <| nSuperseded ::= Z.add (Z.of_nat (length losers)) |>) ;;
            update (redirectExactRoots losers winner) ;;
            publishEventUpdate ;;
            gone ← peek (λ p, filter (λ a, a.(assetID) ∈ losers) p.(assets));
            for_ gone (λ a,
              recordOutcome a.(tweetURL) OutcomeSuperseded "" (winnerDetail winner)) ;;
            update (λ p, p <| assets ::= filter (λ a, a.(assetID) ∉ losers) |>)
        end
  end.

Definition dedupAndPromote (c : clip) (vout : ValidateClipOutput) : run_ unit :=
  p ← peek id;
  if p.(cfg).(atomicPlacement) then dedupAndCommit c vout
  else match matchAssets p c with
  | [] => promote c vout ;; mret tt
  | first :: rest =>
      let best := bestOf p.(assets) first rest in
      if winsOver p c best then
        let losers := assetIDsAt p (first :: rest) in
        w ← promote c vout;
        match w with
        | None => mret tt
        | Some winner => supersede winner losers
        end
      else
        let winner := idAt p best in
        update (rememberExactRoot c.(md5) winner) ;;
        duplicateExactCluster c winner ;;
        losers ← peek (λ p,
          if p.(cfg).(preserveIncumbentsOnLoss) then []
          else assetIDsAt p (filter (λ i, i ≠ best) (first :: rest)));
        bumpPopularity winner c.(popularity) ;;
        deleteStaging c.(stagingKey) ;;
        supersede winner losers
  end.

(** ** Exact followers and validation (event_pipeline_validation.go) *)

Definition zeroValidation : ValidateClipOutput :=
  mkValidateClipOutput "" "" None "" 0 0 None "" 0 "" None None None.

Definition collapseOntoAsset (loser : clip) (i : nat) (a : clip) (p : pipeline) : run_ unit :=
  let winner := a.(assetID) in
  let loser :=
    if not_nil (p.(exactRoots) !! loser.(md5)) || (loser.(md5) =? a.(md5))%string
    then loser <| mediaFingerprint := "" |> else loser in
  let loser :=
    if negb (loser.(mediaFingerprint) =? "")%string && negb (loser.(md5) =? a.(md5))%string then
      match default None (p.(mediaObserved) !! loser.(mediaFingerprint)) with
      | Some observed => loser <| reuseObservedAssetID := Some observed |>
      | None => loser
      end
    else loser in
  if negb (loser.(mediaFingerprint) =? "")%string && negb (loser.(md5) =? a.(md5))%string &&
    is_nil loser.(reuseObservedAssetID) &&
    (loser.(mediaFingerprint) =? a.(mediaFingerprint))%string
  then setTerminalError (representativeMissing winner)
  else if p.(cfg).(atomicPlacement) then
    r ← commitClipPlacement loser zeroValidation false winner [];
    match r with
    | None => mret tt
    | Some _ =>
        when (negb p.(cfg).(reversibleSelection))
          (update (λ p, p <| assets ::= alter (λ a, a <| popularity ::= Z.add (clusterSize loser) |>) i |>)) ;;
        update (λ p, p <| nDuplicates ::= Z.add (clusterSize loser) |>)
    end
  else
    bumpPopularity winner loser.(popularity) ;;
    duplicateExactCluster loser winner ;;
    deleteStaging loser.(stagingKey).

(** A follower of a pending clip waits for its result. *)
Definition follow (loser : clip) (c : clip) : clip :=
  c <| popularity ::= Z.add loser.(popularity) |>
    <| exactFollowers ::= λ l, l ++ [loser.(tweetURL)] |>.

Definition collapseOntoPending (loser : clip) (i : nat) (p : pipeline) : run_ unit :=
  (if p.(cfg).(deferExactFollowerOutcomes) then
    update (λ p, p <| pending ::= alter (follow loser) i |>)
  else
    update (λ p, p <| pending ::= alter (λ c, c <| popularity ::= Z.add loser.(popularity) |>) i |>
      <| nDuplicates ::= Z.add 1 |>) ;;
    recordOutcome loser.(tweetURL) OutcomeDuplicate "" None) ;;
  deleteStaging loser.(stagingKey).

Definition collapseAsset (loser : clip) (i : nat) : run_ unit :=
  p ← peek id;
  if p.(ctxDone) then mret tt
  else match p.(assets) !! i with
  | Some a => collapseOntoAsset loser i a p
  | None => mret tt
  end.

Definition collapsePending (loser : clip) (i : nat) : run_ unit :=
  p ← peek id;
  if p.(ctxDone) then mret tt else collapseOntoPending loser i p.

Definition validateInput (p : pipeline) (c : clip) : ValidateClipInput :=
  let i := p.(input) in
  mkValidateClipInput i.(wiEventID) i.(wiFixtureID) c.(stagingKey) i.(wiMinute)
    (default 0 i.(wiExtra)) p.(cfg).(durableValidation)
    (if p.(cfg).(durableValidation) then c.(md5) else "").

Definition fireVision (c : clip) : run_ unit :=
  p ← peek id;
  if p.(ctxDone) then mret tt
  else
    record (Started (reqValidate (validateInput p c))) ;;
    update (addFuture (validating c)).

Definition removePending (key : string) (p : pipeline) : option (clip * pipeline) :=
  match list_find (λ c, c.(stagingKey) = key) p.(pending) with
  | Some (i, c) => Some (c, p <| pending ::= delete i |>)
  | None => None
  end.

(** The clip as it is pending now: sightings may have joined it since. *)
Definition takePending (c : clip) : run_ clip :=
  p ← peek id;
  match removePending c.(stagingKey) p with
  | Some (now, p) =>
      update (λ _, p) ;;
      mret (c <| popularity := now.(popularity) |> <| exactFollowers := now.(exactFollowers) |>)
  | None => mret c
  end.

Definition rejectDetail (v : ValidateClipOutput) : RawMessage :=
  jsonDetail (
    [("soccer_votes", jInt v.(voSoccerVotes)); ("screen_votes", jInt v.(voScreenVotes));
     ("frame_count", jInt (Z.of_nat (length (default [] v.(voFrames)))));
     ("frame_observations", jList v.(voFrames)); ("clock_readings", jList v.(voClockReadings))] ++
    (if (v.(voEvaluator) =? "")%string then [] else [("evaluator", jString v.(voEvaluator))]) ++
    match v.(voDetectedMinute) with
    | Some m =>
        [("detected_minute", jInt m); ("detected_period", jString v.(voDetectedPeriod));
         ("expected_minute", jInt v.(voExpectedMinute));
         ("expected_period", jString v.(voExpectedPeriod))]
    | None => []
    end).

Definition dropCluster (close : run_ unit) (c : clip) : run_ unit :=
  close ;; deleteStaging c.(stagingKey).

Definition onVisionDone (c : clip) (r : activityError + ValidateClipOutput) : run_ unit :=
  update (λ p, p <| inFlight ::= λ n, n - 1 |>) ;;
  done ← canceled;
  if (done : bool) then mret tt
  else
    c ← takePending c;
    g ← peek cfg;
    match r with
    | inl err =>
        dropCluster (failExactCluster c "vision_error"
          (if g.(durableVisionFailures)
           then jsonDetail [("failure", visionFailureJSON (visionFailureDetail err))] else None)) c
    | inr v =>
        if one_of v.(voOutcome) [vision.OutcomeVerified; vision.OutcomeUnverified] then
          if g.(durableValidation) && is_nil v.(voEvidence) then setTerminalError validationMissing
          else dedupAndPromote
            (c <| verified := (v.(voOutcome) =? vision.OutcomeVerified)%string |>) v
        else dropCluster (rejectExactCluster c v.(voReason) (rejectDetail v)) c
    end.

(** ** Callbacks of the other futures *)

Definition fail1 (url reason : string) (detail : RawMessage) : run_ unit :=
  update (λ p, p <| nFailed ::= Z.add 1 |>) ;; recordOutcome url OutcomeFailed reason detail.

Definition reject1 (url reason : string) : run_ unit :=
  update (λ p, p <| nRejected ::= Z.add 1 |>) ;; recordOutcome url OutcomeRejected reason None.

(** The claim a downloaded clip joins: one whose primary has the same bytes, else
    the one of its own identity. *)
Definition claimOf (p : pipeline) (c : clip) : option (string * hashClaim) :=
  match list_find (λ kv, (kv.2).(primary).(md5) = c.(md5)) (rangeHashing p.(hashing)) with
  | Some (_, kv) => Some kv
  | None => pair (exactKey c) <$> p.(hashing) !! exactKey c
  end.

Definition claimOrJoin (c : clip) : run_ unit :=
  p ← peek id;
  match claimOf p c with
  | Some (k, claim) =>
      update (λ p, p <| hashing ::=
        <[k := mkHashClaim claim.(primary) (claim.(waiting) ++ [c])]> |>)
  | None =>
      update (λ p, p <| hashing ::= <[exactKey c := mkHashClaim c []]> |>) ;;
      fireHash (exactKey c)
  end.

Definition admit_ (url : string) (out : DownloadAndStageOutput) : run_ unit :=
  let c := clipFromDownload url out in
  update (λ p, p <| candidates ::= alter (λ o, o <| rawMD5 := c.(md5) |>) url |>) ;;
  m ← peek (λ p, matchExact p c);
  match m with
  | matchedAsset i => collapseAsset c i
  | matchedPending i => collapsePending c i
  | noMatch => claimOrJoin c
  end.

Definition onDownloadDone (url : string) (r : activityError + DownloadAndStageOutput) : run_ unit :=
  update (λ p, p <| inFlight ::= λ n, n - 1 |>) ;;
  done ← canceled;
  if (done : bool) then mret tt
  else
    g ← peek cfg;
    match r with
    | inl err =>
        fail1 url VideoFailureDownload
          (if g.(durableDownloadFailures)
           then jsonDetail [("failure", downloadFailureJSON (downloadFailureDetail err))] else None)
    | inr out =>
        if (out.(doOutcome) =? OutcomeRejected)%string then reject1 url out.(doRejectReason)
        else if negb (out.(doOutcome) =? OutcomePassed)%string || (out.(doMD5) =? "")%string ||
          (out.(doStagingKey) =? "")%string
        then
          fail1 url VideoFailureInvalidChildOutput
            (jsonDetail [("outcome", jString out.(doOutcome));
              ("md5_present", jBool (negb (out.(doMD5) =? "")%string));
              ("staging_present", jBool (negb (out.(doStagingKey) =? "")%string))]) ;;
          deleteStaging out.(doStagingKey)
        else admit_ url out
    end.

(** The next waiting clip takes the claim over. *)
Definition passClaimOn (identity : string) (claim : hashClaim) : run_ unit :=
  match claim.(waiting) with
  | [] => update (λ p, p <| hashing ::= delete identity |>)
  | c :: rest =>
      update (λ p, p <| hashing ::= <[identity := mkHashClaim c rest]> |>) ;;
      fireHash identity
  end.

Definition sumPopularity (l : list clip) : Z := foldr (λ c, Z.add c.(popularity)) 0 l.

Definition hashedWinner (g : pipelineConfig) (claim : hashClaim) (out : HashVideoOutput) : clip :=
  claim.(primary) <| hashVersion := NormalizeFrameHashVersion out.(hvHashVersion) |>
    <| frameHashes := out.(hvFrameHashes) |>
    <| popularity ::= Z.add (sumPopularity claim.(waiting)) |>
    <| exactFollowers ::= λ l,
         if g.(deferExactFollowerOutcomes) then l ++ (tweetURL <$> claim.(waiting)) else l |>.

Definition winClaim (identity : string) (claim : hashClaim) (out : HashVideoOutput) : run_ unit :=
  g ← peek cfg;
  let winner := hashedWinner g claim out in
  update (λ p, p <| nPassed ::= Z.add 1 |>) ;;
  for_ claim.(waiting) (λ d,
    when (negb g.(deferExactFollowerOutcomes))
      (update (λ p, p <| nDuplicates ::= Z.add 1 |>) ;;
       recordOutcome d.(tweetURL) OutcomeDuplicate "" None) ;;
    deleteStaging d.(stagingKey)) ;;
  update (λ p, p <| hashing ::= delete identity |> <| pending ::= λ l, l ++ [winner] |>) ;;
  fireVision winner.

Definition onHashDone (identity : string) (r : activityError + HashVideoOutput) : run_ unit :=
  update (λ p, p <| inFlight ::= λ n, n - 1 |>) ;;
  p ← peek id;
  if p.(ctxDone) then mret tt
  else match p.(hashing) !! identity with
  | None => mret tt
  | Some claim =>
      match r with
      | inl _ =>
          fail1 claim.(primary).(tweetURL) VideoFailureHash None ;;
          deleteStaging claim.(primary).(stagingKey) ;;
          passClaimOn identity claim
      | inr out =>
          if (out.(hvOutcome) =? OutcomeRejected)%string
          then rejectHashClaim identity out.(hvRejectReason) claim
          else if negb (out.(hvOutcome) =? "")%string && negb (out.(hvOutcome) =? OutcomePassed)%string
          then failHashClaim identity VideoFailureInvalidChildOutput claim
          else if (out.(hvOutcome) =? OutcomePassed)%string &&
            (Z.of_nat (length out.(hvFrameHashes)) <? p.(cfg).(minRun))
          then rejectHashClaim identity RejectInsufficientHashFrames claim
          else winClaim identity claim out
      end
  end.

Definition clipFromVideo (url : string) (out : VideoWorkflowOutput) : clip :=
  mkClip url out.(vwMD5) "" None (NormalizeFrameHashVersion out.(vwHashVersion))
    out.(vwFrameHashes) out.(vwStagingKey) out.(vwWidth) out.(vwHeight) out.(vwDurationMS)
    out.(vwSizeBytes)
    (if out.(vwBitrate) =? 0 then None else Some out.(vwBitrate))
    (if SFltb float_0 out.(vwFrameRate) then Some out.(vwFrameRate) else None)
    1 [] false None.

Definition reserve (c : clip) : run_ unit :=
  update (λ p, p <| pending ::= λ l, l ++ [c] |>) ;; fireVision c.

Definition onVideoDone (fallback : string) (r : activityError + VideoWorkflowOutput) : run_ unit :=
  update (λ p, p <| inFlight ::= λ n, n - 1 |>) ;;
  done ← canceled;
  if (done : bool) then mret tt
  else
    g ← peek cfg;
    match r with
    | inl _ =>
        update (λ p, p <| nFailed ::= Z.add 1 |>) ;;
        when g.(terminalVideoFailures)
          (recordOutcome fallback OutcomeFailed VideoFailureUnexpectedChild None)
    | inr out =>
        let url := if (out.(vwTweetURL) =? "")%string then fallback else out.(vwTweetURL) in
        if (out.(vwOutcome) =? VideoOutcomeRejected)%string then reject1 url out.(vwRejectReason)
        else if (out.(vwOutcome) =? VideoOutcomeFailed)%string then
          fail1 url (if (out.(vwFailureReason) =? "")%string then VideoFailureInvalidChildOutput
                     else out.(vwFailureReason)) None ;;
          deleteStaging out.(vwStagingKey)
        else if (out.(vwOutcome) =? VideoOutcomePassed)%string then
          update (λ p, p <| nPassed ::= Z.add 1 |>) ;;
          let c := clipFromVideo url out in
          m ← peek (λ p, matchExact p c);
          match m with
          | matchedAsset i => collapseAsset c i
          | matchedPending i => collapsePending c i
          | noMatch => reserve c
          end
        else
          fail1 url VideoFailureInvalidChildOutput
            (jsonDetail [("outcome", jString out.(vwOutcome))]) ;;
          deleteStaging out.(vwStagingKey)
    end.

Definition callback (f : future) : result f → run_ unit :=
  match f with
  | downloading url => onDownloadDone url
  | childVideo url => onVideoDone url
  | hashing_ identity => onHashDone identity
  | validating c => onVisionDone c
  end.

(** ** The consumer loop (event_pipeline_intake.go) *)

(** One ready future is taken from the selector and its callback runs. *)
Definition select (i : nat) (f : future) : run_ unit :=
  r ← gets (λ e, outcome world (history e) f);
  record (Completed f r) ;;
  update (λ p, p <| selector ::= delete i |>) ;;
  callback f r.

(** Nothing is ready: at least one of the coming events happens. *)
Definition await : run_ unit :=
  n ← gets (λ e, arrivals world (history e));
  record Yielded ;;
  yield (S n).

Definition verdict (p : pipeline) : option pipelineError :=
  match p.(terminalErr) with
  | Some err => Some err
  | None =>
      if p.(cfg).(durableCandidates) then
        match list_find (λ kv, (kv.2).(state) ≠ CandidateTerminal) (rangeCandidates p.(candidates)) with
        | Some (_, (url, o)) => Some (nonTerminal url o.(state))
        | None => p.(searchErr)
        end
      else p.(searchErr)
  end.

Definition finished (p : pipeline) : bool := p.(searchDone) && (p.(inFlight) =? 0).

(** The future the selector takes, if one is ready.  When nothing else can happen
    any more, the service eventually answers one of them. *)
Definition choose (e : env) : option (nat * future) :=
  match (pl e).(selector) with
  | [] => None
  | f :: fs =>
      match ready world (history e) with
      | Some n =>
          let i := (n mod S (length fs))%nat in
          pair i <$> (f :: fs) !! i
      | None =>
          match coming e with
          | [] => if (pl e).(ctxDone) then None else Some (0%nat, f)
          | _ => None
          end
      end
  end.

(** [None]: the loop goes on. *)
Definition turn : run_ (option (option pipelineError)) :=
  p ← peek id;
  if finished p then mret (Some (verdict p))
  else
    x ← gets choose;
    match x with
    | Some (i, f) => select i f ;; mret None
    | None => if p.(ctxDone) then mret (Some (Some canceledError)) else await ;; mret None
    end.

Fixpoint run (fuel : nat) : run_ (option (option pipelineError)) :=
  match fuel with
  | O => mret None
  | S fuel =>
      r ← turn;
      match r with
      | Some err => mret (Some err)
      | None => run fuel
      end
  end.

End consumer.

(** ** The primitive operations *)

Lemma ensures_peek {A} (f : pipeline → A) e (Q : A → env → Prop) :
  Q (f (pl e)) e → ensures (peek f) e Q.
Proof. done. Qed.

Lemma ensures_update f e (Q : unit → env → Prop) :
  Q tt (e <| pl ::= f |>) → ensures (update f) e Q.
Proof. done. Qed.

Lemma ensures_record x e (Q : unit → env → Prop) :
  Q tt (e <| history ::= cons x |>) → ensures (record x) e Q.
Proof. done. Qed.

Ltac pipe_step :=
  lazymatch goal with
  | |- ensures (peek _) _ _ => apply ensures_peek; cbv beta
  | |- ensures canceled _ _ => apply ensures_peek; cbv beta
  | |- ensures (update _) _ _ => apply ensures_update
  | |- ensures (record _) _ _ => apply ensures_record
  | |- _ => flow_step
  end.

(** The first operation ensures [H]. *)
Ltac pipe_use H :=
  pipe_step; eapply ensures_mono; [apply H|].

End pipeline.
