(* ===== verification/Drain.v ===== *)
(** The consumer of Pipeline.v comes to an end, and starts nothing once it is
    canceled: two facts that hold for every version of the workflow, whatever the
    activities answer. *)
From S2P Require Import Prelude GoStrings Event Vision Video Selection Jsonb Discovery Wire Flow Pipeline.
#[local] Open Scope string_scope.
#[local] Open Scope list_scope.
#[local] Open Scope Z_scope.
Import discoverycontract wire flow pipeline.

Module drain.

Section drain.
Context `{Platform}.

(** ** Silence *)

(** Something is started or asked for. *)
Definition isStart (x : entry) : bool :=
  match x with Started _ | Issued _ => true | _ => false end.

Definition isCanceled (x : entry) : bool := match x with Canceled => true | _ => false end.

(** In a history, the latest entry first, nothing was started after the
    cancellation. *)
Fixpoint silentHistory (h : list entry) : bool :=
  match h with
  | [] => true
  | x :: h => silentHistory h && (negb (isStart x) || negb (existsb isCanceled h))
  end.

Lemma silentHistory_spec h h1 h2 :
  silentHistory h = true → h = h1 ++ Canceled :: h2 → Forall (λ x, isStart x = false) h1.
Proof.
  revert h. induction h1 as [|x h1 IH]; intros h Hs ->; [constructor|]. cbn in Hs.
  apply andb_true_iff in Hs as [Hs Hx]. constructor; [|by eapply IH].
  rewrite existsb_app in Hx. cbn in Hx. rewrite orb_true_r in Hx. by destruct (isStart x).
Qed.

Definition S_ (e : env) : Prop :=
  silentHistory (history e) = true ∧
  (existsb isCanceled (history e) = true → ctxDone (pl e) = true).

Definition silent (e e' : env) : Prop := S_ e → S_ e'.

#[local] Instance silent_preorder : PreOrder silent.
Proof. split; [by intros ??|]. intros e1 e2 e3 H1 H2 Hs. auto. Qed.

Lemma silent_intro {A} (m : M env A) :
  (∀ e, S_ e → ensures m e (λ _, S_)) → keeps silent m.
Proof. intros Hm e Hs. by apply Hm. Qed.

Lemma silent_use {A} (m : M env A) e : keeps silent m → S_ e → ensures m e (λ _, S_).
Proof. intros Hm Hs. by apply Hm. Qed.

Lemma silent_update f :
  (∀ p, ctxDone p = true → ctxDone (f p) = true) → keeps silent (update f).
Proof. intros Hf. apply keeps_modify. intros e [Hs Hc]. split; [done|]. intros Hx. by apply Hf, Hc. Qed.

Lemma silent_record x : isStart x = false → isCanceled x = false → keeps silent (record x).
Proof.
  intros Hx Hx'. apply keeps_modify. intros e [Hs Hc]. split; cbn; [by rewrite Hs, Hx|].
  by rewrite Hx'.
Qed.

(** Starting is allowed while the context is open. *)
Lemma silent_start x e :
  ctxDone (pl e) = false → isStart x = true → S_ e → S_ (e <| history ::= cons x |>).
Proof.
  intros Hopen Hx [Hs Hc].
  assert (existsb isCanceled (history e) = false) as Hn.
  { destruct (existsb _ _); [rewrite Hc in Hopen; done|done]. }
  split; cbn; [by rewrite Hs, Hn, orb_true_r|]. intros Hcx.
  destruct x; try done; cbn in Hcx; by rewrite Hn in Hcx.
Qed.

Lemma silent_peek {A} (f : pipeline → A) : keeps silent (peek f).
Proof. apply keeps_gets, _. Qed.

Lemma silent_spawn e : keeps silent (spawnCandidate e).
Proof.
  apply silent_intro. intros s Hs. unfold spawnCandidate. pipe_step. pipe_step. cbv [id].
  destruct (ctxDone (pl s)) eqn:Hc; [exact Hs|]. cbn [orb]. destruct (_ =? _)%string; [exact Hs|].
  assert (∀ p, ensures (when (durableCandidates (cfg p)) (update (λ p, p <| candidates ::=
    <[e.(ceTweetURL) := mkCandidateOwnership e CandidateInFlight ""]> |>))) s
    (λ _ s', S_ s' ∧ ctxDone (pl s') = false)) as Hw.
  { intros p. by apply ensures_when. }
  pipe_step. eapply ensures_mono; [apply Hw|]. intros ? s' [Hs' Hc'].
  pipe_step. pipe_step. case_match; repeat pipe_step; by apply (silent_start _ s').
Qed.

Lemma silent_yield n : keeps silent (yield n).
Proof.
  unfold yield. apply (keeps_bind _); [apply (keeps_gets _)|intros xs].
  apply (keeps_bind _); [apply keeps_modify; intros e He; exact He|intros _].
  apply (keeps_for _). intros [e|err|]; [apply silent_spawn|by apply silent_update|].
  apply silent_intro. intros e [Hs Hc]. unfold happen. repeat pipe_step.
  split; cbn; [by rewrite Hs|done].
Qed.

(** A call whose wait sees the context open. *)
Lemma silent_call c e : ctxDone (pl e) = false → S_ e → ensures (call c) e (λ _, S_).
Proof.
  intros Hc Hs. unfold call. pipe_step. pipe_step. pipe_step. pipe_step. pipe_step.
  eapply ensures_mono; [apply silent_use; [apply silent_yield|by apply silent_start]|].
  intros ? e2 [Hs2 Hc2]. repeat pipe_step. split; cbn; [by rewrite Hs2|done].
Qed.

Lemma silent_call_then {A} c (k : activityError + response c → M env A) e :
  ctxDone (pl e) = false → (∀ r, keeps silent (k r)) → S_ e →
  ensures (call c ≫= k) e (λ _, S_).
Proof.
  intros Hc Hk Hs. pipe_step. eapply ensures_mono; [by apply silent_call|].
  intros r e' He'. by apply silent_use.
Qed.

Lemma silent_terminal err : keeps silent (setTerminalError err).
Proof. apply silent_update. intros p Hc. cbn. by case_match. Qed.

Lemma silent_remember k r p : ctxDone p = true → ctxDone (rememberExactRoot k r p) = true.
Proof. unfold rememberExactRoot. by repeat case_match. Qed.

Lemma ctxDone_foldl {A} (f : pipeline → A → pipeline) (l : list A) p :
  (∀ p x, ctxDone p = true → ctxDone (f p x) = true) → ctxDone p = true →
  ctxDone (foldl f p l) = true.
Proof. intros Hf. revert p. induction l as [|x l IH]; cbn; auto. Qed.

Lemma silent_replace s w p p' :
  replaceSelection s w p = inr p' → ctxDone p = true → ctxDone p' = true.
Proof.
  unfold replaceSelection, restoreAssets. intros Hr Hc.
  repeat case_match; simplify_eq. apply ctxDone_foldl; [|apply ctxDone_foldl; [|done]].
  - intros q x Hq. unfold restoreAlias. case_match; cbn; by repeat apply silent_remember.
  - intros q x Hq. unfold restoreAsset. case_match; cbn; by repeat apply silent_remember.
Qed.

(** The callbacks call the guarded operations only. *)
Create HintDb silent.
#[local] Hint Resolve silent_terminal : silent.

Ltac silent_all := repeat first
  [ solve [auto with silent nocore] | apply (keeps_ret _) | apply silent_peek
  | apply (keeps_bind _); [|intros ?] | apply (keeps_when _) | apply (keeps_for _); intros ?
  | apply silent_update; intros ? ?; cbn;
    unfold keepWinner, keepIncumbent, recordSelectedPlacement, countKept, dropAssets,
      rememberExactRoot, redirectExactRoots; cbn; by repeat case_match
  | progress case_match ].


(** An operation that first asks whether the context is done. *)
Ltac silent_open :=
  let Hs := fresh "Hs" in let Hc := fresh "Hc" in
  apply silent_intro; intros ? Hs; pipe_step; pipe_step; cbv [id];
  match goal with |- context [ctxDone (pl ?e)] => destruct (ctxDone (pl e)) eqn:Hc end;
  rewrite ?orb_true_r, ?orb_false_r; [exact Hs|]; cbv match.
Ltac silent_calls :=
  repeat case_match; first [done |
    lazymatch goal with
    | |- ensures (call ?c ≫= ?k) _ _ =>
        refine (silent_call_then c k _ _ _ _); [done| |done]; intros ?; silent_all
    end].

Lemma silent_deleteStaging key : keeps silent (deleteStaging key).
Proof. unfold deleteStaging. silent_open. silent_calls. Qed.
Lemma silent_bump id n : keeps silent (bumpPopularity id n).
Proof. unfold bumpPopularity. silent_open. silent_calls. Qed.
Lemma silent_publish : keeps silent publishEventUpdate.
Proof. unfold publishEventUpdate. silent_open. pipe_step. pipe_step. silent_calls. Qed.
Lemma silent_recordOutcome url o reason d : keeps silent (recordOutcome url o reason d).
Proof.
  unfold recordOutcome. silent_open. case_match; [done|]. pipe_step. pipe_step. cbv [id].
  case_match; [case_match|]; [|by apply silent_terminal|]; silent_calls.
Qed.
#[local] Hint Resolve silent_deleteStaging silent_bump silent_publish silent_recordOutcome : silent.

Lemma silent_closeCluster c o reason d : keeps silent (closeCluster c o reason d).
Proof. unfold closeCluster. silent_all. Qed.
#[local] Hint Resolve silent_closeCluster : silent.

Lemma silent_fireHash k : keeps silent (fireHash k).
Proof.
  unfold fireHash. silent_open. pipe_step. pipe_step. case_match; [|exact Hs].
  repeat pipe_step. by apply (silent_start _ _ Hc).
Qed.

Lemma silent_fireVision c : keeps silent (fireVision c).
Proof. unfold fireVision. silent_open. repeat pipe_step. by apply (silent_start _ _ Hc). Qed.

Lemma silent_supersede w l : keeps silent (supersede w l).
Proof.
  unfold supersede. apply silent_intro. intros e Hs. pipe_step. pipe_step.
  case_match; [exact Hs|]. destruct (ctxDone (pl e)) eqn:Hc; [exact Hs|].
  pipe_step. pipe_step. silent_calls.
Qed.

Lemma silent_promote c v : keeps silent (promote c v).
Proof. unfold promote, failExactCluster. silent_open. silent_calls. Qed.
#[local] Hint Resolve silent_fireHash silent_fireVision silent_supersede silent_promote : silent.

Lemma silent_adopt c l out : keeps silent (adoptPlacement c l out).
Proof.
  unfold adoptPlacement. apply silent_intro. intros e [Hs Hc]. pipe_step. pipe_step.
  destruct (reversibleSelection _); [|apply silent_use; [|done]; silent_all].
  destruct (coSelection out) as [sel|]; [|apply silent_use; [|done]; silent_all].
  destruct (replaceSelection _ _ _) as [|p'] eqn:Hr; [apply silent_use; [|done]; silent_all|].
  repeat pipe_step. split; cbn; [done|]. intros Hx. by eapply silent_replace, Hc.
Qed.
#[local] Hint Resolve silent_adopt : silent.

Lemma silent_commit c v w i l : keeps silent (commitClipPlacement c v w i l).
Proof.
  unfold commitClipPlacement. silent_open.
  case_match; [apply silent_use; [silent_all|done]|silent_calls].
Qed.
#[local] Hint Resolve silent_commit : silent.

Lemma silent_commitDedup c v : keeps silent (dedupAndCommit c v).
Proof. unfold dedupAndCommit. apply (keeps_bind _); [apply silent_peek|intros p]. cbv zeta. silent_all. Qed.
#[local] Hint Resolve silent_commitDedup : silent.

Lemma silent_dedup c v : keeps silent (dedupAndPromote c v).
Proof. unfold dedupAndPromote, duplicateExactCluster. silent_all. Qed.

Lemma silent_collapseAsset c i : keeps silent (collapseAsset c i).
Proof. unfold collapseAsset, collapseOntoAsset, duplicateExactCluster. silent_all. Qed.

Lemma silent_collapsePending c i : keeps silent (collapsePending c i).
Proof. unfold collapsePending, collapseOntoPending. silent_all. Qed.

Lemma silent_takePending c : keeps silent (takePending c).
Proof.
  apply silent_intro. intros e Hc. unfold takePending, ensures, mbind, M_bind, peek, gets, update, modify. cbn.
  unfold removePending. by repeat (case_match; simplify_eq/=).
Qed.
#[local] Hint Resolve silent_dedup silent_collapseAsset silent_collapsePending silent_takePending
  : silent.

Lemma silent_callback f (r : result f) : keeps silent (callback f r).
Proof.
  destruct f; cbn [callback] in *;
    unfold onDownloadDone, onVideoDone, onHashDone, onVisionDone, admit_, claimOrJoin, winClaim,
      passClaimOn, rejectHashClaim, failHashClaim, closeClaim, fail1, reject1, reserve, dropCluster,
      failExactCluster, rejectExactCluster; silent_all.
Qed.

Lemma silent_turn : keeps silent turn.
Proof.
  unfold turn. apply (keeps_bind _); [apply silent_peek|intros p].
  case_match; [apply (keeps_ret _)|].
  apply (keeps_bind _); [apply (keeps_gets _)|intros [[i f]|]].
  - apply (keeps_bind _); [|intros ?; apply (keeps_ret _)]. unfold select.
    apply (keeps_bind _); [apply (keeps_gets _)|intros r].
    apply (keeps_bind _); [by apply silent_record|intros ?].
    apply (keeps_bind _); [by apply silent_update|intros ?]. apply silent_callback.
  - case_match; [apply (keeps_ret _)|].
    apply (keeps_bind _); [|intros ?; apply (keeps_ret _)]. unfold await.
    apply (keeps_bind _); [apply (keeps_gets _)|intros r].
    apply (keeps_bind _); [by apply silent_record|intros ?]. apply silent_yield.
Qed.

Lemma silent_run fuel : keeps silent (run fuel).
Proof.
  induction fuel as [|fuel IH]; [apply (keeps_ret _)|]. cbn [run].
  apply (keeps_bind _); [apply silent_turn|intros [err|]]; [apply (keeps_ret _)|done].
Qed.

(** C27: Cancellation is final: in any run of the consumer, of any version of the
    workflow and whatever the activities answer, no activity and no child workflow
    is started after the context was canceled - not even by the callback that was
    waiting when it happened. *)
Theorem canceled_is_silent fuel p coming h1 h2 :
  history (run fuel (mkEnv p coming [])).2 = h1 ++ Canceled :: h2 →
  Forall (λ x, isStart x = false) h1.
Proof.
  intros Hh. assert (S_ (mkEnv p coming [])) as Hs by done.
  destruct (silent_run fuel (mkEnv p coming []) Hs) as [Hsilent _].
  by eapply silentHistory_spec.
Qed.

(** ** Work left *)

Definition weight (f : future) : nat :=
  match f with downloading _ | childVideo _ => 5 | hashing_ _ | validating _ => 1 end.

Definition members (claim : hashClaim) : nat := 3 * S (length claim.(waiting)).

(** Every callback leaves less work than it found; an event that is still to come
    may bring a download. *)
Definition work (p : pipeline) : nat :=
  sum_list_with weight p.(selector) + msum members p.(hashing).

Definition total (e : env) : nat := work (pl e) + 6 * length (coming e).

Definition ends (e : env) : Prop :=
  (∃ err, searchFinished err ∈ coming e) ∨ searchDone (pl e) = true.

Definition gap (e : env) : Z := inFlight (pl e) - Z.of_nat (length (selector (pl e))).

(** What the operations that only wait do to the work. *)
Record drains (e e' : env) : Prop := {
  d_total : (total e' ≤ total e)%nat;
  d_gap : gap e' = gap e;
  d_ends : ends e → ends e';
  d_hashing : hashing (pl e') = hashing (pl e) }.

#[local] Instance drains_preorder : PreOrder drains.
Proof.
  split; [by split|]. intros e1 e2 e3 [] []. split; [lia|congruence|auto|congruence].
Qed.

(** The fields that count. *)
Definition frame (p p' : pipeline) : Prop :=
  selector p' = selector p ∧ inFlight p' = inFlight p ∧ hashing p' = hashing p ∧
  searchDone p' = searchDone p.

Lemma drains_update f : (∀ p, frame p (f p)) → keeps drains (update f).
Proof.
  intros Hf. apply keeps_modify. intros e. destruct (Hf (pl e)) as (Hs&Hi&Hh&Hd).
  split; unfold total, work, gap, ends; cbn; by rewrite ?Hs, ?Hi, ?Hh, ?Hd.
Qed.

Lemma drains_record x : keeps drains (record x).
Proof. apply keeps_modify. by split. Qed.

Lemma drains_peek {A} (f : pipeline → A) : keeps drains (peek f).
Proof. apply keeps_gets, _. Qed.

(** An event that happens: a spawn adds one download. *)
Record happened (n : nat) (e e' : env) : Prop := {
  h_work : (work (pl e') ≤ work (pl e) + n)%nat;
  h_gap : gap e' = gap e;
  h_done : searchDone (pl e) = true → searchDone (pl e') = true;
  h_hashing : hashing (pl e') = hashing (pl e);
  h_coming : coming e' = coming e }.

Lemma happen_spec x e :
  ensures (happen x) e (λ _ e', happened 5 e e' ∧
    ((∃ err, x = searchFinished err) → searchDone (pl e') = true)).
Proof.
  assert (∀ e0 e1 : env, pl e1 = pl e0 → coming e1 = coming e0 → happened 5 e0 e1) as Hsame.
  { intros e0 e1 Hp Hc. split; unfold gap; rewrite ?Hp; auto; lia. }
  destruct x as [c|err|]; unfold happen.
  - unfold spawnCandidate. pipe_step. pipe_step. cbv [id].
    case_match; [split; [by apply Hsame|naive_solver]|].
    pipe_step. apply ensures_when; intros _; repeat pipe_step; split; try naive_solver;
      split; unfold gap, work; cbn; rewrite ?sum_list_with_app, ?length_app; cbn; auto; lia.
  - repeat pipe_step. by split; [split; unfold gap; cbn; auto; unfold work; cbn; lia|].
  - repeat pipe_step. split; [|naive_solver]. by split; unfold gap, work; cbn; auto; lia.
Qed.

Lemma happen_all xs e :
  ensures (for_ xs happen) e (λ _ e', happened (5 * length xs) e e' ∧
    ((∃ err, searchFinished err ∈ xs) → searchDone (pl e') = true)).
Proof.
  revert e. induction xs as [|x xs IH]; intros e.
  { split; [split; [cbn; lia|done..]|]. by intros [? ?%elem_of_nil]. }
  cbn [for_]. pipe_use happen_spec. intros ? e1 [[Hw Hg Hd Hh Hc] Hf].
  eapply ensures_mono; [apply IH|]. intros ? e2 [[Hw2 Hg2 Hd2 Hh2 Hc2] Hf2]. split.
  - split; [cbn [length]; lia|congruence|auto|congruence..].
  - intros [err [<-|Hin]%elem_of_cons]; [|by eauto]. apply Hd2, Hf. by exists err.
Qed.

(** Waiting for [n] events uses up [n] of them. *)
Lemma yield_spec n e :
  ensures (yield n) e (λ _ e', drains e e' ∧
    (total e' + Nat.min n (length (coming e)) ≤ total e)%nat).
Proof.
  unfold yield. pipe_step. pipe_step. pipe_step. pipe_step.
  eapply ensures_mono; [apply happen_all|]. intros ? e' [[Hw Hg Hd Hh Hc] Hf]. cbn in *.
  assert (total e' + Nat.min n (length (coming e)) ≤ total e)%nat as Ht.
  { unfold total. rewrite Hc. cbn. rewrite length_drop.
    rewrite length_take in Hw. lia. }
  split; [|done]. split; [lia|done| |done].
  intros [[err Hin]|Hdone]; [|right; by apply Hd].
  rewrite <-(take_drop n) in Hin. apply elem_of_app in Hin as [Hin|Hin].
  - right. apply Hf. by exists err.
  - left. exists err. by rewrite Hc.
Qed.

Lemma drains_yield n : keeps drains (yield n).
Proof. intros e. eapply ensures_mono; [apply yield_spec|]. by intros ? ? [? _]. Qed.

Lemma drains_call c : keeps drains (call c).
Proof.
  unfold call. apply (keeps_bind _); [apply (keeps_gets _)|intros n].
  apply (keeps_bind _); [apply drains_record|intros ?].
  apply (keeps_bind _); [apply drains_yield|intros ?].
  apply (keeps_bind _); [apply (keeps_gets _)|intros ?].
  apply (keeps_bind _); [apply drains_record|intros ?]. apply (keeps_ret _).
Qed.

Lemma frame_trans p q r : frame p q → frame q r → frame p r.
Proof. unfold frame. intuition congruence. Qed.

Lemma frame_remember k r p : frame p (rememberExactRoot k r p).
Proof. unfold rememberExactRoot. by repeat case_match. Qed.

Lemma frame_foldl {A} (f : pipeline → A → pipeline) (l : list A) p :
  (∀ p x, frame p (f p x)) → frame p (foldl f p l).
Proof.
  intros Hf. revert p. induction l as [|x l IH]; intros p; [done|].
  cbn. by eapply frame_trans.
Qed.

Lemma frame_restore l a p : frame p (restoreAssets l a p).
Proof.
  unfold restoreAssets.
  apply (frame_trans _ (foldl restoreAsset p l)); apply frame_foldl; intros q x.
  - unfold restoreAsset. set (q1 := q <| assets ::= _ |>). assert (frame q q1) as H1 by done.
    pose proof (frame_remember x.(raMD5) x.(raAssetID) q1) as H2.
    set (q2 := rememberExactRoot _ _ q1) in *.
    pose proof (frame_remember x.(raMediaFingerprint) x.(raAssetID) q2) as H3.
    set (q3 := rememberExactRoot _ _ q2) in *.
    assert (frame q q3) by (do 2 (eapply frame_trans; [|done]); done). by case_match.
  - unfold restoreAlias. pose proof (frame_remember x.(rxMD5) x.(rxAssetID) q) as H2.
    set (q2 := rememberExactRoot _ _ q) in *.
    pose proof (frame_remember x.(rxMediaFingerprint) x.(rxAssetID) q2) as H3.
    set (q3 := rememberExactRoot _ _ q2) in *.
    assert (frame q q3) by (eapply frame_trans; done). by case_match.
Qed.

Lemma frame_replace s w p p' : replaceSelection s w p = inr p' → frame p p'.
Proof.
  unfold replaceSelection. intros Hr. repeat case_match; simplify_eq.
  eapply frame_trans; [|apply frame_restore]. done.
Qed.

Create HintDb drains.
#[local] Hint Resolve drains_call drains_yield drains_record drains_peek : drains.

Ltac drains_all := repeat first
  [ solve [auto with drains nocore] | apply (keeps_ret _) | apply (keeps_gets _)
  | apply (keeps_bind _); [|intros ?] | apply (keeps_when _) | apply (keeps_for _); intros ?
  | apply drains_update; intros ?;
    unfold keepWinner, keepIncumbent, recordSelectedPlacement, countKept, dropAssets,
      rememberExactRoot, redirectExactRoots; cbn; by repeat case_match
  | progress case_match ].

Lemma drains_terminal err : keeps drains (setTerminalError err).
Proof. unfold setTerminalError. drains_all. Qed.
Lemma drains_deleteStaging key : keeps drains (deleteStaging key).
Proof. unfold deleteStaging, canceled. drains_all. Qed.
#[local] Hint Resolve drains_terminal drains_deleteStaging : drains.
Lemma drains_recordOutcome url o reason d : keeps drains (recordOutcome url o reason d).
Proof. unfold recordOutcome, canceled, storeTerminal. drains_all. Qed.
Lemma drains_publish : keeps drains publishEventUpdate.
Proof. unfold publishEventUpdate, canceled. drains_all. Qed.
Lemma drains_bump id n : keeps drains (bumpPopularity id n).
Proof. unfold bumpPopularity, canceled. drains_all. Qed.
#[local] Hint Resolve drains_recordOutcome drains_publish drains_bump : drains.
Lemma drains_closeCluster c o reason d : keeps drains (closeCluster c o reason d).
Proof. unfold closeCluster. drains_all. Qed.
#[local] Hint Resolve drains_closeCluster : drains.

Lemma drains_adopt c l out : keeps drains (adoptPlacement c l out).
Proof.
  unfold adoptPlacement. intros e. pipe_step. pipe_step.
  destruct (reversibleSelection _); [|revert e; drains_all].
  destruct (coSelection out) as [sel|]; [|revert e; drains_all].
  destruct (replaceSelection _ _ _) as [|p'] eqn:Hr; [revert e Hr; intros e _; revert e; drains_all|].
  apply frame_replace in Hr as (Hs&Hi&Hh&Hd).
  repeat pipe_step. split; unfold total, work, gap, ends; cbn; by rewrite ?Hs, ?Hi, ?Hh, ?Hd.
Qed.
#[local] Hint Resolve drains_adopt : drains.

Lemma drains_commit c v w i l : keeps drains (commitClipPlacement c v w i l).
Proof. unfold commitClipPlacement, settle. drains_all. Qed.
Lemma drains_promote c v : keeps drains (promote c v).
Proof. unfold promote, failExactCluster. drains_all. Qed.
Lemma drains_supersede w l : keeps drains (supersede w l).
Proof. unfold supersede, canceled. drains_all. Qed.
#[local] Hint Resolve drains_commit drains_promote drains_supersede : drains.

Lemma drains_dedup c v : keeps drains (dedupAndPromote c v).
Proof.
  unfold dedupAndPromote, dedupAndCommit, duplicateExactCluster.
  apply (keeps_bind _); [apply drains_peek|intros p]. case_match; [|drains_all].
  apply (keeps_bind _); [apply drains_peek|intros q]. cbv zeta. drains_all.
Qed.

Lemma drains_collapseAsset c i : keeps drains (collapseAsset c i).
Proof. unfold collapseAsset, collapseOntoAsset, duplicateExactCluster. drains_all. Qed.

Lemma drains_collapsePending c i : keeps drains (collapsePending c i).
Proof. unfold collapsePending, collapseOntoPending. drains_all. Qed.

Lemma drains_takePending c : keeps drains (takePending c).
Proof.
  intros e. unfold takePending. pipe_step. pipe_step. unfold removePending. cbv [id].
  destruct (list_find _ _) as [[i c']|]; repeat pipe_step; by split.
Qed.
#[local] Hint Resolve drains_dedup drains_collapseAsset drains_collapsePending drains_takePending
  : drains.

(** At most [n] more work than before. *)
Record leaves (n : nat) (e e' : env) : Prop := {
  l_total : (total e' ≤ total e + n)%nat;
  l_gap : gap e' = gap e;
  l_ends : ends e → ends e' }.

Lemma leaves_trans a b n e1 e2 e3 :
  leaves a e1 e2 → leaves b e2 e3 → (a + b ≤ n)%nat → leaves n e1 e3.
Proof. intros [] [] ?. split; [lia|congruence|auto]. Qed.

Lemma drains_leaves e e' : drains e e' → leaves 0 e e'.
Proof. intros []. split; [lia|done..]. Qed.

(** A computation that only waits, then one that leaves [n]. *)
Lemma leaves_after {A B} (m : M env A) (k : A → M env B) n e :
  keeps drains m →
  (∀ a e', drains e e' → ensures (k a) e' (λ _, leaves n e')) →
  ensures (m ≫= k) e (λ _, leaves n e).
Proof.
  intros Hm Hk. pipe_use Hm. intros a e1 H1. eapply ensures_mono; [by apply Hk|].
  intros b e2 H2. by apply (leaves_trans 0 n _ _ e1); [apply drains_leaves| |].
Qed.

Lemma leaves_drains {A} (m : M env A) n e : keeps drains m → ensures m e (λ _, leaves n e).
Proof.
  intros Hm. eapply ensures_mono; [apply Hm|]. intros ? e' He.
  apply (leaves_trans 0 0 _ _ e'); [by apply drains_leaves|by apply drains_leaves|lia].
Qed.

Lemma leaves_fire f e :
  (weight f ≤ 1)%nat → leaves 1 e (e <| pl ::= addFuture f |>).
Proof.
  intros Hf. split; unfold total, work, gap, ends; cbn;
    rewrite ?sum_list_with_app, ?length_app; cbn; [lia..|done].
Qed.

Lemma leaves_fireHash k e : ensures (fireHash k) e (λ _, leaves 1 e).
Proof.
  unfold fireHash. pipe_step. pipe_step. case_match; [by apply (leaves_drains (mret tt)), keeps_ret, _|].
  pipe_step. pipe_step. case_match; [|by apply (leaves_drains (mret tt)), keeps_ret, _].
  repeat pipe_step. set (x := Started _). apply (leaves_trans 0 1 _ _ (e <| history ::= cons x |>));
    [apply drains_leaves, (drains_record x e)|by apply leaves_fire|lia].
Qed.

Lemma leaves_fireVision c e : ensures (fireVision c) e (λ _, leaves 1 e).
Proof.
  unfold fireVision. pipe_step. pipe_step. case_match; [by apply (leaves_drains (mret tt)), keeps_ret, _|].
  repeat pipe_step. set (x := Started _).
  apply (leaves_trans 0 1 _ _ (e <| history ::= cons x |>));
    [apply drains_leaves, (drains_record x e)|by apply leaves_fire|lia].
Qed.

(** The claims are replaced by [m]. *)
Lemma leaves_hashing m n e :
  (msum members m ≤ msum members (hashing (pl e)) + n)%nat →
  leaves n e (e <| pl ::= λ p, p <| hashing := m |> |>).
Proof. intros Hm. split; unfold total, work, gap, ends; cbn; [lia|done..]. Qed.

Lemma claimOf_in `{!PlatformLaws} p c k claim :
  claimOf p c = Some (k, claim) → p.(hashing) !! k = Some claim.
Proof.
  unfold claimOf. intros Hc. case_match eqn:Hf.
  - destruct p0 as [i kv]. simplify_eq. apply list_find_Some in Hf as (Hi & _ & _).
    apply list_elem_of_lookup_2 in Hi. rewrite (rangeHashing_all p.(hashing)) in Hi.
    by apply elem_of_map_to_list in Hi.
  - destruct (hashing p !! exactKey c) as [cl|] eqn:Hk; [|done]. by simplify_eq/=.
Qed.

Lemma leaves_claimOrJoin `{!PlatformLaws} c e : ensures (claimOrJoin c) e (λ _, leaves 4 e).
Proof.
  unfold claimOrJoin. pipe_step. pipe_step. cbv [id].
  destruct (claimOf (pl e) c) as [[k claim]|] eqn:Hc.
  - apply claimOf_in in Hc. pipe_step. apply leaves_hashing.
    rewrite msum_replace, (msum_delete _ _ _ _ Hc). unfold members. cbn. rewrite length_app. cbn. lia.
  - assert (hashing (pl e) !! exactKey c = None) as Hn.
    { unfold claimOf in Hc. case_match; [by destruct p|].
      by destruct (hashing (pl e) !! exactKey c). }
    pipe_step. pipe_step. eapply ensures_mono; [apply leaves_fireHash|]. intros ? e' He'.
    eapply (leaves_trans 3 1); [|apply He'|lia]. apply leaves_hashing.
    rewrite msum_insert by done. unfold members. cbn. lia.
Qed.

(** Closing a claim takes it out of the work; what happens before leaves the
    claims alone. *)
Lemma closeClaim_leaves counter o k reason claim e :
  (∀ p, frame p (counter p)) → hashing (pl e) !! k = Some claim →
  ensures (closeClaim counter o k reason claim) e (λ _, leaves 0 e).
Proof.
  intros Hf Hk. unfold closeClaim. apply leaves_after.
  - apply (keeps_for _). intros c. apply (keeps_bind _); [by apply drains_update|intros ?]. drains_all.
  - intros ? e' [_ _ _ Hh]. pipe_step. apply leaves_hashing. pose proof (msum_delete_le members (hashing (pl e')) k). lia.
Qed.

Lemma passClaimOn_leaves k claim e :
  hashing (pl e) !! k = Some claim →
  ensures (passClaimOn k claim) e (λ _, leaves 0 e).
Proof.
  intros Hk. unfold passClaimOn. destruct (waiting claim) as [|c rest] eqn:Hw.
  - pipe_step. apply leaves_hashing. pose proof (msum_delete_le members (hashing (pl e)) k). lia.
  - pipe_step. pipe_step. eapply ensures_mono; [apply leaves_fireHash|]. intros ? e' [Ht Hg He].
    assert (total (e <| pl ::= λ p, p <| hashing ::= <[k := mkHashClaim c rest]> |> |>) + 3 ≤ total e)%nat
      as Hless.
    { unfold total, work. cbn. rewrite msum_replace, (msum_delete _ _ _ _ Hk). unfold members.
      rewrite Hw. cbn. lia. }
    split; [lia|done..].
Qed.

Lemma winClaim_leaves k claim out e :
  hashing (pl e) !! k = Some claim →
  ensures (winClaim k claim out) e (λ _, leaves 0 e).
Proof.
  intros Hk. unfold winClaim. apply leaves_after; [apply drains_peek|]. intros g e1 D1.
  apply leaves_after; [by apply drains_update|]. intros ? e2 D2.
  apply leaves_after; [drains_all|]. intros ? e3 D3. pipe_step. pipe_step.
  eapply ensures_mono; [apply leaves_fireVision|]. intros ? e' [Ht Hg He].
  set (e4 := e3 <| pl ::= _ |>) in *.
  assert (hashing (pl e3) !! k = Some claim) as Hk3.
  { by rewrite (d_hashing _ _ D3), (d_hashing _ _ D2), (d_hashing _ _ D1). }
  assert (total e4 + 3 ≤ total e3)%nat as Hless.
  { unfold e4, total, work. cbn. rewrite (msum_delete _ _ _ _ Hk3). unfold members. cbn. lia. }
  split; [lia|done..].
Qed.

Definition gain (f : future) : nat :=
  match f with downloading _ => 4 | childVideo _ => 1 | hashing_ _ | validating _ => 0 end.

(** Every callback counts its future down and leaves less work than the future
    was. *)
Definition counted (n : nat) (e e' : env) : Prop :=
  (total e' ≤ total e + n)%nat ∧ gap e' = gap e - 1 ∧ (ends e → ends e').

Lemma counted_then {A} (k : M env A) n e :
  (∀ e, ensures k e (λ _, leaves n e)) →
  ensures (update (λ p, p <| inFlight ::= λ n, n - 1 |>);; k) e (λ _, counted n e).
Proof.
  intros Hk. pipe_step. pipe_step. eapply ensures_mono; [apply Hk|]. intros ? e' [Ht Hg He].
  split; [done|]. split; [|done]. rewrite Hg. unfold gap. cbn. lia.
Qed.

Lemma counted_callback `{!PlatformLaws} f (r : result f) e :
  ensures (callback f r) e (λ _, counted (gain f) e).
Proof.
  destruct f as [url|url|k|c]; cbn [callback gain] in *.
  - unfold onDownloadDone. apply counted_then. intros e'. apply leaves_after; [apply drains_peek|].
    intros b e1 _. destruct b; [apply (leaves_drains (mret tt)), keeps_ret, _|].
    apply leaves_after; [apply drains_peek|]. intros g e2 _.
    destruct r as [err|out]; [apply leaves_drains; unfold fail1; drains_all|].
    case_match; [apply leaves_drains; unfold reject1; drains_all|].
    case_match; [apply leaves_drains; unfold fail1; drains_all|].
    unfold admit_. apply leaves_after; [by apply drains_update|]. intros ? e3 _.
    apply leaves_after; [apply drains_peek|]. intros m e4 _.
    destruct m; [apply leaves_drains; drains_all..|apply leaves_claimOrJoin].
  - unfold onVideoDone. apply counted_then. intros e'. apply leaves_after; [apply drains_peek|].
    intros b e1 _. destruct b; [apply (leaves_drains (mret tt)), keeps_ret, _|].
    apply leaves_after; [apply drains_peek|]. intros g e2 _.
    destruct r as [err|out]; [apply leaves_drains; drains_all|].
    case_match; [apply leaves_drains; unfold reject1; drains_all|].
    case_match; [apply leaves_drains; unfold fail1; drains_all|].
    case_match; [|apply leaves_drains; unfold fail1; drains_all].
    apply leaves_after; [by apply drains_update|]. intros ? e3 _.
    apply leaves_after; [apply drains_peek|]. intros m e4 _.
    destruct m; [apply leaves_drains; drains_all..|]. unfold reserve.
    apply leaves_after; [by apply drains_update|]. intros ? e5 _. apply leaves_fireVision.
  - unfold onHashDone. apply counted_then. intros e'. pipe_step. pipe_step. cbv [id].
    case_match; [apply (leaves_drains (mret tt)), keeps_ret, _|].
    destruct (hashing (pl e') !! k) as [claim|] eqn:Hk;
      [|apply (leaves_drains (mret tt)), keeps_ret, _].
    destruct r as [err|out].
    + apply leaves_after; [unfold fail1; drains_all|]. intros ? e1 D1.
      apply leaves_after; [drains_all|]. intros ? e2 D2. apply passClaimOn_leaves.
      by rewrite (d_hashing _ _ D2), (d_hashing _ _ D1).
    + repeat case_match; try by apply closeClaim_leaves.
      by apply winClaim_leaves.
  - unfold onVisionDone. apply counted_then. intros e'. apply leaves_drains.
    apply (keeps_bind _); [apply drains_peek|intros b].
    unfold dropCluster, failExactCluster, rejectExactCluster. drains_all.
Qed.

Lemma gain_lt f : (gain f < weight f)%nat.
Proof. destruct f; cbn; lia. Qed.

Lemma sum_delete (l : list future) i f :
  l !! i = Some f → sum_list_with weight l = (weight f + sum_list_with weight (delete i l))%nat.
Proof.
  intros Hi. apply delete_Permutation in Hi. rewrite Hi at 1. done.
Qed.

Lemma choose_in e i f : choose e = Some (i, f) → (pl e).(selector) !! i = Some f.
Proof.
  unfold choose. destruct (selector (pl e)) as [|g gs]; [done|].
  destruct (ready _ _) as [n|]; [|by repeat case_match; intros; simplify_eq].
  set (j := (n mod S (length gs))%nat). destruct ((g :: gs) !! j) as [h|] eqn:E; [|done].
  cbn. by intros [= <- <-].
Qed.

Definition runs (e : env) : Prop := gap e = 0 ∧ ends e.

(** A turn of the loop either returns or leaves less to do. *)
Lemma turn_progress `{!PlatformLaws} e :
  runs e → ensures turn e (λ r e', r = None → runs e' ∧ (total e' < total e)%nat).
Proof.
  intros [Hg He]. unfold turn. pipe_step. pipe_step. cbv [id].
  destruct (finished (pl e)) eqn:Hfin; [by pipe_step|]. pipe_step. pipe_step.
  destruct (choose e) as [[i f]|] eqn:Hch.
  - apply choose_in in Hch. unfold select. do 7 pipe_step.
    match goal with |- ensures _ ?x _ => set (e1 := x) end.
    assert (total e1 + weight f = total e)%nat as Ht1.
    { unfold total, work, e1. cbn. rewrite (sum_delete _ _ _ Hch). lia. }
    assert (gap e1 = 1) as Hg1.
    { unfold gap, e1 in *. cbn. rewrite length_delete by done.
      apply lookup_lt_Some in Hch. lia. }
    eapply ensures_mono; [apply counted_callback|].
    intros ? e2 (Ht & Hg2 & He2). pipe_step. intros _. pose proof (gain_lt f). split; [|lia].
    split; [lia|]. by apply He2.
  - destruct (ctxDone (pl e)) eqn:Hctx; [by pipe_step|]. pipe_step. unfold await.
    do 4 pipe_step. eapply ensures_mono; [apply yield_spec|].
    intros ? e2 [[Ht Hg2 He2 _] Hless]. pipe_step. intros _.
    assert (gap e2 = gap e) as Hg3 by exact Hg2.
    assert (total e2 + Nat.min (S (arrivals world (history e))) (length (coming e)) ≤ total e)%nat
      as Hl by exact Hless.
    assert (total e2 < total e)%nat; [|split; [split; [lia|by apply He2]|done]].
    assert (coming e ≠ []) as Hne.
    { intros Hnil. unfold choose in Hch. rewrite Hnil in Hch.
      destruct (selector (pl e)) as [|g gs] eqn:Hs.
      - destruct He as [[err Hin]|Hdone]; [by rewrite Hnil in Hin; apply elem_of_nil in Hin|].
        unfold gap in Hg. rewrite Hs in Hg. cbn in Hg. unfold finished in Hfin.
        rewrite Hdone in Hfin. cbn in Hfin. lia.
      - destruct (ready _ _); [|by rewrite Hctx in Hch].
        destruct (_ !! _) eqn:E; [done|]. apply lookup_ge_None in E. cbn in E.
        pose proof (Nat.mod_upper_bound n (S (length gs))). lia. }
    destruct (coming e) as [|x xs]; [done|]. cbn in Hl. lia.
Qed.

(** C8: Termination: once the search finishes, however it interleaves, however many
    candidates it brings, and whatever the activities answer, the consumer loop
    comes to an end after at most [total] turns: six for every event still to come,
    five for every download that runs, three for every clip that waits for a hash,
    one for every hash and every validation that runs.  No retry, hand-over of a
    claim or wait keeps it going, and it never waits with nothing in flight. *)
Theorem consumer_terminates `{!PlatformLaws} e fuel :
  inFlight (pl e) = Z.of_nat (length (selector (pl e))) →
  (∃ err, searchFinished err ∈ coming e) ∨ searchDone (pl e) = true →
  (total e < fuel)%nat →
  is_Some (run fuel e).1.
Proof.
  intros Hflight Hends. assert (runs e) as Hr by (split; [unfold gap; lia|done]).
  clear Hflight Hends. revert e Hr. induction fuel as [|fuel IH]; intros e Hr Hf; [lia|].
  pose proof (turn_progress e Hr) as Ht. unfold ensures in Ht. cbn [run].
  unfold mbind, M_bind. destruct (turn e) as [[err|] e']; cbn in *; [by eexists|].
  destruct Ht as [Hr' Hlt]; [done|]. apply IH; [done|lia].
Qed.

End drain.
End drain.
