(* ===== verification/Custody.v ===== *)
(** What the consumer of Pipeline.v owes every candidate: whatever the activities
    answer and however the producer interleaves, a candidate that was taken over
    is in the hands of exactly one stage until its result is stored, and its
    result is stored once.  The current version of the workflow. *)
From S2P Require Import Prelude GoStrings Event Vision Video Selection Jsonb Discovery Wire Flow Pipeline Drain.
#[local] Open Scope string_scope.
#[local] Open Scope list_scope.
#[local] Open Scope Z_scope.
Import discoverycontract wire flow pipeline.

Module custody.

(** ** What a history says *)

Definition succeeded {A} (r : activityError + A) : bool :=
  match r with inl _ => false | inr _ => true end.

(** The candidates whose result a command stores. *)
Definition settledBy (c : command) : list string :=
  match c with
  | UpsertCandidateOutcome e _ _ _ => [e.(ceTweetURL)]
  | CommitClipPlacement i => (λ x, x.(pcEvidence).(ceTweetURL)) <$> i.(cpCandidates)
  | _ => []
  end.

Definition reportedIn (x : entry) : list string :=
  match x with Called c r => if succeeded r then settledBy c else [] | _ => [] end.
Definition reported (h : list entry) : list string := h ≫= reportedIn.

Definition downloadIn (x : entry) : list string :=
  match x with Started (reqDownload _ _ url _) => [url] | _ => [] end.
Definition downloads (h : list entry) : list string := h ≫= downloadIn.

(** The candidates still to be spawned. *)
Definition spawns (x : event) : list string :=
  match x with
  | spawn e => if (e.(ceTweetURL) =? "")%string then [] else [e.(ceTweetURL)]
  | _ => []
  end.
Definition toCome (xs : list event) : list string := xs ≫= spawns.

(** ** Who holds a candidate *)

Definition flying (f : future) : list string :=
  match f with downloading url => [url] | validating c => [c.(tweetURL)] | _ => [] end.

Definition claimURLs (claim : hashClaim) : list string :=
  tweetURL <$> claim.(primary) :: claim.(waiting).

(** The claims, without the one a callback is working on. *)
Definition claims (busy : option string) (p : pipeline) : gmap string hashClaim :=
  match busy with Some k => delete k p.(hashing) | None => p.(hashing) end.

Definition owned (busy : option string) (p : pipeline) (u : string) : nat :=
  cnt u (p.(selector) ≫= flying) + msum (λ c, cnt u (claimURLs c)) (claims busy p) +
  cnt u (p.(pending) ≫= exactFollowers).

Definition validatedKey (f : future) : option string :=
  match f with validating c => Some c.(stagingKey) | _ => None end.

Definition single (c : clip) : Prop := c.(popularity) = 1 ∧ c.(exactFollowers) = [].

(** The current version: the candidates are durable, a clip claims its media before
    hashing, followers wait, placement is atomic. *)
Definition current (g : pipelineConfig) : Prop :=
  preHashMD5Claim g = true ∧ durableCandidates g = true ∧
  deferExactFollowerOutcomes g = true ∧ atomicPlacement g = true.

(** The failures that only the storage or an activity can cause. *)
Definition external (err : option pipelineError) : Prop :=
  match err with
  | Some (evidenceMissing _ | placementEvidenceMissing _ | popularityMismatch _ _ |
      nonTerminal _ _) => False
  | _ => True
  end.

Section custody.
Context `{PlatformLaws}.
(** The candidates the producer spawns during the run, and how its search ends. *)
Context (all : list string) (outcome0 : option pipelineError).

(** [held]: the candidates the running callback holds; [busy]: the claim it works
    on. *)
Record Inv (busy : option string) (held : list string) (p : pipeline) (xs : list event)
    (h : list entry) : Prop := {
  i_cfg : current p.(cfg);
  i_open : p.(ctxDone) = false;
  i_quiet : cancel ∉ xs;
  i_kinds : ∀ url, childVideo url ∉ p.(selector);
  i_claims : ∀ k claim, claims busy p !! k = Some claim →
    hashing_ k ∈ p.(selector) ∧ Forall single (claim.(primary) :: claim.(waiting));
  i_pending : Forall (λ c, c.(popularity) = clusterSize c) p.(pending);
  i_keys : stagingKey <$> p.(pending) ≡ₚ omap validatedKey p.(selector);
  i_evidence : ∀ u o, p.(candidates) !! u = Some o → o.(evidence).(ceTweetURL) = u ∧ u ≠ "";
  i_once : ∀ u, (owned busy p u + cnt u held + cnt u (reported h) + cnt u (toCome xs) ≤ 1)%nat;
  i_known : ∀ u, (0 < owned busy p u + cnt u held + cnt u (reported h))%nat →
    is_Some (p.(candidates) !! u);
  i_owed : ∀ u o, p.(candidates) !! u = Some o → o.(state) ≠ CandidateTerminal →
    p.(terminalErr) = None → (0 < owned busy p u + cnt u held)%nat;
  i_stored : ∀ u o, p.(candidates) !! u = Some o → o.(state) = CandidateTerminal →
    u ∈ reported h;
  i_started : ∀ u, u ∈ downloads h ↔ is_Some (p.(candidates) !! u);
  i_fresh : ∀ u, (cnt u (downloads h) + cnt u (toCome xs) ≤ 1)%nat;
  i_all : ∀ u, (cnt u (downloads h) + cnt u (toCome xs))%nat = cnt u all;
  i_tail : ∀ ys err zs, xs = ys ++ searchFinished err :: zs → err = outcome0 ∧ toCome zs = [];
  i_last : p.(searchDone) = true → p.(searchErr) = outcome0 ∧ toCome xs = [];
  i_errors : external p.(terminalErr) }.

Definition I (busy : option string) (held : list string) (e : env) : Prop :=
  Inv busy held (pl e) (coming e) (history e).

(** The fields the invariant speaks of. *)
Definition same (p p' : pipeline) : Prop :=
  cfg p' = cfg p ∧ ctxDone p' = ctxDone p ∧ selector p' = selector p ∧
  hashing p' = hashing p ∧ pending p' = pending p ∧ candidates p' = candidates p ∧
  terminalErr p' = terminalErr p ∧ searchDone p' = searchDone p ∧ searchErr p' = searchErr p.

Lemma Inv_same b held p p' xs h : same p p' → Inv b held p xs h → Inv b held p' xs h.
Proof.
  intros (Ec&Ed&Es&Eh&Ep&Ea&Et&El&Er) [].
  assert (∀ b, claims b p' = claims b p) as Ecl by (intros []; cbn; by rewrite Eh).
  assert (∀ b u, owned b p' u = owned b p u) as Eo by (intros; unfold owned; by rewrite Es, Ecl, Ep).
  split; rewrite ?Ec, ?Ed, ?Es, ?Ecl, ?Ep, ?Ea, ?Et, ?El, ?Er; auto; setoid_rewrite Eo; done.
Qed.

(** What is held counts only by its number. *)
Lemma Inv_held b held held' p xs h :
  (∀ u, cnt u held = cnt u held') → Inv b held p xs h → Inv b held' p xs h.
Proof.
  intros Hh []. split; try done; intros u *; rewrite <-Hh; [apply i_once0|apply i_known0|apply i_owed0].
Qed.

Lemma Inv_history b held p xs h h' :
  (∀ u, cnt u (reported h') = cnt u (reported h)) → (∀ u, u ∈ downloads h' ↔ u ∈ downloads h) →
  (∀ u, cnt u (downloads h') = cnt u (downloads h)) →
  Inv b held p xs h → Inv b held p xs h'.
Proof.
  intros Hr Hd Hd' []. split; try done; try (intros u; rewrite ?Hr, ?Hd, ?Hd'; auto).
  intros o Ho Ht. apply cnt_pos. rewrite Hr. apply cnt_pos. eauto.
Qed.

Lemma I_record b held e x :
  reportedIn x = [] → downloadIn x = [] → I b held e → I b held (e <| history ::= cons x |>).
Proof.
  intros Hr Hd. apply Inv_history; intros u; cbn; unfold reported, downloads; cbn;
    by rewrite ?Hr, ?Hd.
Qed.

(** Once a failure is recorded nothing more is owed. *)
Lemma Inv_failed b held held' p err xs h :
  external (Some err) → Inv b (held ++ held') p xs h →
  Inv b held' (if is_nil (terminalErr p) then p <| terminalErr := Some err |> else p) xs h.
Proof.
  intros Herr Hi.
  assert (Inv b (held ++ held') (if is_nil (terminalErr p) then p <| terminalErr := Some err |> else p)
    xs h ∧ terminalErr (if is_nil (terminalErr p) then p <| terminalErr := Some err |> else p) ≠ None)
    as [Hi' Hne].
  { destruct (terminalErr p) as [err'|] eqn:E; cbn.
    - split; [done|by rewrite E].
    - split; [|done]. destruct Hi. by split. }
  clear Hi. destruct Hi'. split; try done.
  - intros u. specialize (i_once0 u). rewrite cnt_app in i_once0. lia.
  - intros u Hu. apply i_known0. rewrite cnt_app. lia.
Qed.

(** ** What happens meanwhile *)

(** Known candidates are left alone. *)
Definition keepsKnown (e e' : env) : Prop :=
  ∀ u o, (pl e).(candidates) !! u = Some o → (pl e').(candidates) !! u = Some o.

Lemma Inv_drop b held p x xs h : spawns x = [] → Inv b held p (x :: xs) h → Inv b held p xs h.
Proof.
  intros Hx []. unfold toCome in *. split; try done.
  - intros Hc. apply i_quiet0. by right.
  - intros u. specialize (i_once0 u). cbn in i_once0. by rewrite Hx in i_once0.
  - intros u. specialize (i_fresh0 u). cbn in i_fresh0. by rewrite Hx in i_fresh0.
  - intros u. specialize (i_all0 u). cbn in i_all0. by rewrite Hx in i_all0.
  - intros ys err zs ->. by apply (i_tail0 (x :: ys) err).
  - intros Hd. destruct (i_last0 Hd) as [? Hl]. cbn in Hl. by rewrite Hx in Hl.
Qed.

Lemma owned_addFuture b f p u :
  owned b (addFuture f p) u = (owned b p u + cnt u (flying f))%nat.
Proof.
  unfold owned. cbn. rewrite bind_app, cnt_app. cbn. rewrite app_nil_r.
  assert (claims b (addFuture f p) = claims b p) as -> by by destruct b. lia.
Qed.

Definition spawned (c : CandidateEvidence) (p : pipeline) : pipeline :=
  addFuture (downloading c.(ceTweetURL))
    (p <| candidates ::= <[c.(ceTweetURL) := mkCandidateOwnership c CandidateInFlight ""]> |>).

Lemma Inv_spawned b held p c i f g xs h :
  c.(ceTweetURL) ≠ "" → Inv b held p (spawn c :: xs) h →
  Inv b held (spawned c p) xs (Started (reqDownload i f c.(ceTweetURL) g) :: h) ∧
  p.(candidates) !! c.(ceTweetURL) = None.
Proof.
  intros Hu []. set (url := c.(ceTweetURL)) in *.
  assert (∀ u, cnt u (toCome (spawn c :: xs)) = (same1 u url + cnt u (toCome xs))%nat) as Hcome.
  { intros u. unfold toCome. cbn. fold url. destruct (url =? "")%string eqn:E; [by apply String.eqb_eq in E|].
    cbn. by rewrite cnt_cons. }
  assert (p.(candidates) !! url = None) as Hnew.
  { destruct (candidates p !! url) eqn:E; [|done]. exfalso.
    assert (url ∈ downloads h) as Hd by (apply i_started0; by eexists).
    apply cnt_pos in Hd. specialize (i_fresh0 url). rewrite Hcome, same1_self in i_fresh0. lia. }
  split; [|done].
  assert (∀ u, owned b (spawned c p) u = (owned b p u + same1 u url)%nat) as Ho.
  { intros u. unfold spawned. rewrite owned_addFuture. cbn [flying]. fold url.
    rewrite cnt_cons, cnt_nil. unfold owned. cbn. by destruct b; cbn; lia. }
  assert (∀ u, (0 < same1 u url)%nat → u = url) as Hsame.
  { intros u. unfold same1. case_decide; [done|lia]. }
  split; unfold spawned; cbn -[owned]; try done.
  - intros Hc. apply i_quiet0. by right.
  - intros u [Hin|Hin%list_elem_of_singleton]%elem_of_app; [by eapply i_kinds0|done].
  - intros k claim Hk. assert (claims b p !! k = Some claim) as Hk' by by destruct b.
    destruct (i_claims0 k claim Hk') as [Hin Hs]. split; [|done]. apply elem_of_app. by left.
  - rewrite omap_app. cbn. by rewrite app_nil_r.
  - intros u o. destruct (decide (u = url)) as [->|Hne].
    + rewrite lookup_insert_eq. by intros [= <-].
    + rewrite lookup_insert_ne by done. apply i_evidence0.
  - intros u. change (owned b _ u) with (owned b (spawned c p) u). rewrite Ho.
    specialize (i_once0 u). rewrite Hcome in i_once0. unfold reported. cbn. unfold reported in i_once0. lia.
  - intros u. change (owned b _ u) with (owned b (spawned c p) u). rewrite Ho. intros Hpos.
    destruct (decide (u = url)) as [->|Hne]; [rewrite lookup_insert_eq; by eexists|].
    rewrite lookup_insert_ne by done. apply i_known0.
    rewrite (same1_other u url Hne) in Hpos. unfold reported in *. cbn in Hpos. lia.
  - intros u o. change (owned b _ u) with (owned b (spawned c p) u). rewrite Ho.
    destruct (decide (u = url)) as [->|Hne]; [intros _ _ _; rewrite same1_self; lia|].
    rewrite lookup_insert_ne by done. intros Hl Hs Ht. specialize (i_owed0 u o Hl Hs Ht). lia.
  - intros u o. destruct (decide (u = url)) as [->|Hne].
    + rewrite lookup_insert_eq. by intros [= <-].
    + rewrite lookup_insert_ne by done. apply i_stored0.
  - intros u. unfold downloads. cbn. fold (downloads h). rewrite elem_of_cons, i_started0.
    destruct (decide (u = url)) as [->|Hne]; [rewrite lookup_insert_eq; naive_solver|].
    rewrite lookup_insert_ne by done. naive_solver.
  - intros u. unfold downloads. cbn. fold (downloads h). rewrite cnt_cons.
    specialize (i_fresh0 u). rewrite Hcome in i_fresh0. fold url. lia.
  - intros u. unfold downloads. cbn. fold (downloads h). rewrite cnt_cons.
    specialize (i_all0 u). rewrite Hcome in i_all0. fold url. lia.
  - intros ys err zs ->. by apply (i_tail0 (spawn c :: ys) err).
  - intros Hd. destruct (i_last0 Hd) as [_ Hl]. specialize (Hcome url).
    rewrite Hl, cnt_nil, same1_self in Hcome. lia.
Qed.

Lemma happen_ok x l b held e :
  Inv b held (pl e) (x :: l ++ coming e) (history e) →
  ensures (happen x) e (λ _ e', Inv b held (pl e') (l ++ coming e') (history e') ∧ keepsKnown e e').
Proof.
  intros Hi. destruct x as [c|err|]; unfold happen.
  - unfold spawnCandidate. pipe_step. pipe_step. cbv [id]. rewrite (i_open _ _ _ _ _ Hi). cbn [orb].
    destruct (_ =? _)%string eqn:Hu.
    { pipe_step. split; [|by intros ??]. eapply Inv_drop, Hi. cbn. by rewrite Hu. }
    apply String.eqb_neq in Hu. destruct (i_cfg _ _ _ _ _ Hi) as (-> & -> & _). cbn [when].
    repeat pipe_step. eapply Inv_spawned in Hi as [Hi Hnew]; [|done]. split.
    + eapply Inv_same, Hi. done.
    + intros u o Hl. cbn. rewrite lookup_insert_ne; [done|]. intros <-. by rewrite Hnew in Hl.
  - repeat pipe_step. split; [|by intros ??].
    pose proof (i_tail _ _ _ _ _ Hi [] err _ eq_refl) as [<- Hlast].
    eapply Inv_drop in Hi; [|done]. destruct Hi. by split.
  - destruct (i_quiet _ _ _ _ _ Hi). by left.
Qed.

Lemma keepsKnown_trans e1 e2 e3 : keepsKnown e1 e2 → keepsKnown e2 e3 → keepsKnown e1 e3.
Proof. unfold keepsKnown. auto. Qed.

Lemma yield_ok n b held e :
  I b held e → ensures (yield n) e (λ _ e', I b held e' ∧ keepsKnown e e').
Proof.
  intros Hi. unfold yield. pipe_step. pipe_step. pipe_step. pipe_step.
  set (J := λ l e', Inv b held (pl e') (l ++ coming e') (history e') ∧ keepsKnown e e').
  apply (ensures_for J).
  - split; [|by intros ??]. cbn. by rewrite take_drop.
  - intros x l e' [Hi' Hk]. eapply ensures_mono; [by apply happen_ok|].
    intros ? e2 [Hi2 Hk2]. split; [done|]. by eapply keepsKnown_trans.
Qed.

(** The wait of a command, and its answer. *)
Lemma call_ok c b held e (Q : activityError + response c → env → Prop) :
  I b held e →
  (∀ e1, I b held e1 → keepsKnown e e1 →
    let r := answer world (history e1) c in Q r (e1 <| history ::= cons (Called c r) |>)) →
  ensures (call c) e Q.
Proof.
  intros Hi HQ. unfold call. pipe_step. pipe_step. pipe_step. pipe_step. pipe_step.
  eapply ensures_mono; [apply yield_ok; by apply I_record|]. intros ? e1 [Hi1 Hk1].
  repeat pipe_step. by apply HQ.
Qed.

Lemma call_other c b held e :
  settledBy c = [] → I b held e → ensures (call c) e (λ _, I b held).
Proof.
  intros Hc Hi. eapply call_ok; [done|]. intros e1 Hi1 _. cbn. apply I_record; [|done|done].
  cbn. rewrite Hc. by case_match.
Qed.

(** ** Operations that store nothing *)

Lemma I_update f b held e :
  (∀ p, same p (f p)) → I b held e → ensures (update f) e (λ _, I b held).
Proof. intros Hf Hi. pipe_step. eapply Inv_same, Hi. apply Hf. Qed.

Lemma I_open b held e : I b held e → ctxDone (pl e) = false.
Proof. by intros []. Qed.

(** [m] keeps the invariant, whoever holds what. *)
Definition idle {A} (m : M env A) : Prop := ∀ b held e, I b held e → ensures m e (λ _, I b held).

Lemma idle_use {A} (m : M env A) b held e : idle m → I b held e → ensures m e (λ _, I b held).
Proof. intros Hm Hi. by apply Hm. Qed.
Lemma idle_ret {A} (a : A) : idle (mret a).
Proof. by intros b held e Hi. Qed.
Lemma idle_peek {A} (f : pipeline → A) : idle (peek f).
Proof. by intros b held e Hi. Qed.
Lemma idle_bind {A B} (m : M env A) (k : A → M env B) :
  idle m → (∀ a, idle (k a)) → idle (m ≫= k).
Proof.
  intros Hm Hk b held e Hi. pipe_step. eapply ensures_mono; [by apply Hm|].
  intros a e' Hi'. by apply Hk.
Qed.
Lemma idle_when (c : bool) m : idle m → idle (when c m).
Proof. intros Hm. destruct c; [done|apply idle_ret]. Qed.
Lemma idle_update f : (∀ p, same p (f p)) → idle (update f).
Proof. intros Hf b held e. by apply I_update. Qed.
Lemma idle_call c : settledBy c = [] → idle (call c).
Proof. intros Hc b held e. by apply call_other. Qed.
Lemma idle_terminal err : external (Some err) → idle (setTerminalError err).
Proof. intros He b held e Hi. unfold setTerminalError. pipe_step. by apply (Inv_failed b [] held). Qed.

Ltac idle_all := repeat first
  [ apply idle_ret | apply idle_peek | apply idle_call; done | apply idle_bind; [|intros ?]
  | apply idle_when
  | apply idle_update; intros ?; by repeat case_match
  | progress case_match ].

Lemma idle_deleteStaging key : idle (deleteStaging key).
Proof. unfold deleteStaging, canceled. idle_all. Qed.
Lemma idle_publish : idle publishEventUpdate.
Proof. unfold publishEventUpdate, canceled. idle_all. Qed.

(** A failure drops what is held. *)
Lemma terminal_ok err b l held e :
  external (Some err) → I b (l ++ held) e → ensures (setTerminalError err) e (λ _, I b held).
Proof. intros He Hi. unfold setTerminalError. pipe_step. by eapply Inv_failed. Qed.

(** ** Storing a result *)

(** The results of [urls] were stored by the command [x] records. *)
Definition settled (urls : list string) (p : pipeline) : pipeline :=
  p <| candidates ::= map_imap (λ u o,
    Some (if decide (u ∈ urls) then o <| state := CandidateTerminal |> else o)) |>.

Lemma settled_lookup urls p u :
  (settled urls p).(candidates) !! u =
    (λ o, if decide (u ∈ urls) then o <| state := CandidateTerminal |> else o) <$> p.(candidates) !! u.
Proof. cbn. rewrite map_lookup_imap. by destruct (candidates p !! u). Qed.

Lemma owned_settled b urls p u : owned b (settled urls p) u = owned b p u.
Proof. by destruct b. Qed.

Lemma Inv_settled b urls held p xs h x :
  reportedIn x = urls → downloadIn x = [] → Inv b (urls ++ held) p xs h →
  Inv b held (settled urls p) xs (x :: h).
Proof.
  intros Hr Hd [].
  assert (∀ u, cnt u (reported (x :: h)) = (cnt u urls + cnt u (reported h))%nat) as Hrep.
  { intros u. unfold reported. cbn. by rewrite Hr, cnt_app. }
  split; try done.
  - intros u o. rewrite settled_lookup. intros (o' & Ho' & ->)%fmap_Some.
    destruct (i_evidence0 u o' Ho') as [He Hne]. case_decide; done.
  - intros u. rewrite owned_settled, Hrep. specialize (i_once0 u). rewrite cnt_app in i_once0. lia.
  - intros u. rewrite owned_settled, Hrep, settled_lookup, fmap_is_Some. intros Hu.
    apply i_known0. rewrite cnt_app. lia.
  - intros u o. rewrite owned_settled, settled_lookup. intros (o' & Ho' & ->)%fmap_Some Hs Ht.
    case_decide as Hin; [by destruct Hs|]. specialize (i_owed0 u o' Ho' Hs Ht).
    rewrite cnt_app in i_owed0. destruct (cnt u urls) eqn:E; [lia|].
    destruct Hin. apply cnt_pos. lia.
  - intros u o. rewrite settled_lookup. intros (o' & Ho' & ->)%fmap_Some Hs.
    apply cnt_pos. rewrite Hrep. case_decide as Hin.
    + apply cnt_pos in Hin. lia.
    + specialize (i_stored0 u o' Ho' Hs). apply cnt_pos in i_stored0. lia.
  - intros u. rewrite settled_lookup, fmap_is_Some, <-i_started0. unfold downloads. cbn. by rewrite Hd.
  - intros u. unfold downloads. cbn. rewrite Hd. apply i_fresh0.
  - intros u. unfold downloads. cbn. rewrite Hd. apply i_all0.
Qed.

Lemma storeTerminal_settled url o p :
  p.(candidates) !! url = Some o →
  p <| candidates ::= <[url := o <| state := CandidateTerminal |>]> |> = settled [url] p.
Proof.
  intros Hl. unfold settled. cbn.
  match goal with |- mkPipeline _ _ _ _ _ _ _ _ _ _ _ _ _ ?x _ _ _ _ _ _ _ _ _ =
    mkPipeline _ _ _ _ _ _ _ _ _ _ _ _ _ ?y _ _ _ _ _ _ _ _ _ => assert (x = y) as -> end; [|done].
  apply map_eq. intros u. rewrite map_lookup_imap.
  destruct (decide (u = url)) as [->|Hne].
  - rewrite lookup_insert_eq, Hl. cbn. by rewrite decide_True by set_solver.
  - rewrite lookup_insert_ne by done. destruct (candidates p !! u) as [o'|]; [|done]. cbn.
    by rewrite decide_False by set_solver.
Qed.

Lemma recordOutcome_ok url o reason d b held e :
  I b (url :: held) e → ensures (recordOutcome url o reason d) e (λ _, I b held).
Proof.
  intros Hi. unfold recordOutcome. pipe_step. pipe_step. rewrite (I_open _ _ _ Hi), orb_false_r.
  destruct (i_known _ _ _ _ _ Hi url) as [candidate Hc].
  { rewrite cnt_cons, same1_self. lia. }
  destruct (i_evidence _ _ _ _ _ Hi _ _ Hc) as [He Hne].
  destruct (_ =? _)%string eqn:Hu; [by apply String.eqb_eq in Hu|]. pipe_step. pipe_step. cbv [id].
  destruct (i_cfg _ _ _ _ _ Hi) as (_ & -> & _). rewrite Hc. pipe_step.
  eapply call_ok; [done|]. intros e1 Hi1 Hk. cbv zeta. set (r := answer _ _ _).
  destruct r as [err|[]].
  - apply (terminal_ok _ _ [url]); [done|]. by apply I_record.
  - unfold storeTerminal. pipe_step. unfold I. set (c := UpsertCandidateOutcome _ _ _ _) in *.
    change (Inv b held ((pl e1) <| candidates ::= <[url := candidate <| state := CandidateTerminal |>]> |>)
      (coming e1) (Called c (inr tt) :: history e1)).
    rewrite (storeTerminal_settled url candidate (pl e1) (Hk _ _ Hc)).
    apply Inv_settled; cbn; [by rewrite He|done|done].
Qed.

Lemma recordAll_ok urls o reason d b held e :
  I b (urls ++ held) e →
  ensures (for_ urls (λ url, recordOutcome url o reason d)) e (λ _, I b held).
Proof.
  intros Hi. apply (ensures_for (λ l, I b (l ++ held))); [done|]. intros url l e' Hi'.
  by apply recordOutcome_ok.
Qed.

Lemma closeCluster_ok c o reason d b held e :
  I b (c.(tweetURL) :: c.(exactFollowers) ++ held) e →
  ensures (closeCluster c o reason d) e (λ _, I b held).
Proof.
  intros Hi. unfold closeCluster. pipe_step. eapply ensures_mono; [by apply recordOutcome_ok|].
  intros ? e' Hi'. by apply recordAll_ok.
Qed.

(** ** Placement *)

(** While the context is open, no placement is answered as canceled. *)
Definition uncanceled : Prop :=
  ∀ h i err, answer world h (CommitClipPlacement i) = inl err → IsCanceledError err = false.

Lemma placementList_known p c new winner first urls :
  (∀ u, u ∈ urls → ∃ o, p.(candidates) !! u = Some o ∧ o.(evidence).(ceTweetURL) = u) →
  ∃ xs, placementList p c new winner first urls = inr xs ∧
    (λ x, x.(pcEvidence).(ceTweetURL)) <$> xs = urls.
Proof.
  revert first. induction urls as [|u urls IH]; intros first Hu; [by exists []|].
  destruct (Hu u ltac:(by left)) as (o & Ho & He).
  destruct (IH false ltac:(intros v Hv; apply Hu; by right)) as (xs & Hxs & Hfst).
  cbn. rewrite Ho, Hxs. case_match; eexists; split; try done; cbn; by rewrite He, Hfst.
Qed.

Lemma settled_settled k l p : settled l (settled k p) = settled (k ++ l) p.
Proof.
  unfold settled. cbn.
  match goal with |- mkPipeline _ _ _ _ _ _ _ _ _ _ _ _ _ ?x _ _ _ _ _ _ _ _ _ =
    mkPipeline _ _ _ _ _ _ _ _ _ _ _ _ _ ?y _ _ _ _ _ _ _ _ _ => assert (x = y) as -> end; [|done].
  apply map_eq. intros u. rewrite !map_lookup_imap.
  destruct (candidates p !! u) as [o|]; [|done]. cbn. f_equal.
  repeat case_decide; try done; set_solver.
Qed.

Lemma settled_nil p : settled [] p = p.
Proof.
  unfold settled. destruct p. cbn. f_equal. apply map_eq. intros u. rewrite map_lookup_imap.
  destruct (_ !! u); [|done]. cbn. by rewrite decide_False by by apply not_elem_of_nil.
Qed.

Lemma settle_settled x p :
  is_Some (p.(candidates) !! x.(pcEvidence).(ceTweetURL)) →
  settle x p = settled [x.(pcEvidence).(ceTweetURL)] p.
Proof. intros [o Ho]. unfold settle. rewrite Ho. by apply storeTerminal_settled. Qed.

Lemma settleAll_ok xs e (Q : unit → env → Prop) :
  (∀ u, u ∈ (λ x, x.(pcEvidence).(ceTweetURL)) <$> xs → is_Some ((pl e).(candidates) !! u)) →
  Q tt (e <| pl ::= settled ((λ x, x.(pcEvidence).(ceTweetURL)) <$> xs) |>) →
  ensures (for_ xs (λ x, update (settle x))) e Q.
Proof.
  revert e. induction xs as [|x xs IH]; intros e Hk HQ.
  { cbn. pipe_step. cbn in HQ. rewrite settled_nil in HQ. by destruct e. }
  assert (settle x (pl e) = settled [x.(pcEvidence).(ceTweetURL)] (pl e)) as Hx
    by (apply settle_settled, Hk; left).
  cbn [for_]. pipe_step. pipe_step.
  assert (e <| pl ::= settle x |> = e <| pl := settled [x.(pcEvidence).(ceTweetURL)] (pl e) |>) as ->
    by (rewrite <-Hx; by destruct e).
  apply IH.
  - intros u Hu.
    change (is_Some ((settled [x.(pcEvidence).(ceTweetURL)] (pl e)).(candidates) !! u)).
    rewrite settled_lookup, fmap_is_Some. apply Hk. by right.
  - match goal with |- Q tt ?e' =>
      assert (e' = e <| pl ::= settled ((λ x, x.(pcEvidence).(ceTweetURL)) <$> x :: xs) |>) as -> end.
    { cbn. f_equal. apply settled_settled. }
    exact HQ.
Qed.

Lemma same_trans p q r : same p q → same q r → same p r.
Proof. unfold same. intuition congruence. Qed.

Lemma same_remember k r p : same p (rememberExactRoot k r p).
Proof. unfold rememberExactRoot. by repeat case_match. Qed.

Lemma same_foldl {A} (f : pipeline → A → pipeline) (l : list A) p :
  (∀ p x, same p (f p x)) → same p (foldl f p l).
Proof.
  intros Hf. revert p. induction l as [|x l IH]; intros p; [done|].
  cbn. by eapply same_trans.
Qed.

Lemma same_restore l a p : same p (restoreAssets l a p).
Proof.
  unfold restoreAssets. apply (same_trans _ (foldl restoreAsset p l)); apply same_foldl; intros q x.
  - unfold restoreAsset. set (q1 := q <| assets ::= _ |>). assert (same q q1) as H1 by done.
    pose proof (same_remember x.(raMD5) x.(raAssetID) q1) as H2.
    set (q2 := rememberExactRoot _ _ q1) in *.
    pose proof (same_remember x.(raMediaFingerprint) x.(raAssetID) q2) as H3.
    set (q3 := rememberExactRoot _ _ q2) in *.
    assert (same q q3) by (do 2 (eapply same_trans; [|done]); done). by case_match.
  - unfold restoreAlias. pose proof (same_remember x.(rxMD5) x.(rxAssetID) q) as H2.
    set (q2 := rememberExactRoot _ _ q) in *.
    pose proof (same_remember x.(rxMediaFingerprint) x.(rxAssetID) q2) as H3.
    set (q3 := rememberExactRoot _ _ q2) in *.
    assert (same q q3) by (eapply same_trans; done). by case_match.
Qed.

Lemma idle_adopt c l out : idle (adoptPlacement c l out).
Proof.
  intros b held e Hi. unfold adoptPlacement. pipe_step. pipe_step. cbv [id].
  destruct (reversibleSelection _).
  - destruct (coSelection out) as [sel|].
    + destruct (replaceSelection _ _ _) as [err|p'] eqn:Hr.
      * apply idle_bind; [by apply idle_terminal|intros ?; apply idle_ret|done].
      * repeat pipe_step. eapply Inv_same; [|exact Hi]. unfold replaceSelection in Hr.
        repeat case_match; simplify_eq. eapply same_trans; [|apply same_restore]. done.
    + apply idle_bind; [by apply idle_terminal|intros ?; apply idle_ret|done].
  - apply idle_use; [|exact Hi].
    repeat (apply idle_bind; [|intros ?]); try apply idle_ret; try apply idle_when;
      apply idle_update; intros p; unfold redirectExactRoots; try apply same_remember;
      by repeat case_match.
Qed.

Lemma commit_ok c v new winner losers b held e :
  uncanceled → I b (c.(tweetURL) :: c.(exactFollowers) ++ held) e →
  c.(popularity) = clusterSize c →
  ensures (commitClipPlacement c v new winner losers) e (λ _, I b held).
Proof.
  intros Hun Hi Hpop. unfold commitClipPlacement. pipe_step. pipe_step. cbv [id].
  rewrite (I_open _ _ _ Hi). unfold placementCandidates. rewrite Hpop.
  assert (clusterSize c =? Z.of_nat (length (tweetURL c :: exactFollowers c)) = true) as ->.
  { apply Z.eqb_eq. unfold clusterSize. cbn. lia. }
  cbn [negb]. set (urls := tweetURL c :: exactFollowers c) in *.
  assert (∀ e1, I b (urls ++ held) e1 → ∀ u, u ∈ urls →
    ∃ o, (pl e1).(candidates) !! u = Some o ∧ o.(evidence).(ceTweetURL) = u) as Hknown.
  { intros e1 Hi1 u Hu. destruct (i_known _ _ _ _ _ Hi1 u) as [o Ho].
    { rewrite cnt_app. apply cnt_pos in Hu. lia. }
    exists o. split; [done|]. by destruct (i_evidence _ _ _ _ _ Hi1 u o Ho). }
  destruct (placementList_known (pl e) c new (if new then Some (newAssetID (pl e) c) else winner)
    true urls (Hknown e Hi)) as (xs & -> & Hxs).
  pipe_step. eapply (call_ok (CommitClipPlacement _)); [exact Hi|]. intros e1 Hi1 _. cbv zeta.
  destruct (answer _ _ _) as [err|out] eqn:Ha.
  - rewrite (Hun _ _ _ Ha). cbn [negb when]. pipe_step.
    eapply ensures_mono; [eapply (terminal_ok _ b urls held); [done|]|]; [by apply I_record|].
    intros ? e2 Hi2. by pipe_step.
  - pipe_step. apply settleAll_ok.
    { intros u. rewrite Hxs. intros Hu. destruct (Hknown e1 Hi1 u Hu) as (o & Ho & _).
      exists o. exact Ho. }
    rewrite Hxs. set (e2 := e1 <| history ::= _ |> <| pl ::= _ |>).
    assert (I b held e2) as Hi2.
    { apply Inv_settled; [cbn; exact Hxs|done|exact Hi1]. }
    clearbody e2. case_match.
    + pipe_step. eapply ensures_mono; [apply idle_when; [by apply idle_update|done]|].
      intros ? e3 Hi3. by pipe_step.
    + pipe_step. eapply ensures_mono; [by apply idle_adopt|]. intros [] e3 Hi3; [|by pipe_step].
      pipe_step. eapply ensures_mono; [apply idle_when; [apply idle_publish|done]|].
      intros ? e4 Hi4. by pipe_step.
Qed.

(** ** Handing a candidate from one stage to the next *)

Record shape (busy : option string) (p : pipeline) : Prop := {
  s_kinds : ∀ url, childVideo url ∉ p.(selector);
  s_claims : ∀ k claim, claims busy p !! k = Some claim →
    hashing_ k ∈ p.(selector) ∧ Forall single (claim.(primary) :: claim.(waiting));
  s_pending : Forall (λ c, c.(popularity) = clusterSize c) p.(pending);
  s_keys : stagingKey <$> p.(pending) ≡ₚ omap validatedKey p.(selector) }.

Lemma Inv_shape b held p xs h : Inv b held p xs h → shape b p.
Proof. by intros []. Qed.

(** Candidates move between the stages and the callback; none is lost and none
    appears. *)
Lemma Inv_move b held p b' held' p' xs h h' :
  Inv b held p xs h → shape b' p' →
  cfg p' = cfg p ∧ ctxDone p' = ctxDone p ∧ candidates p' = candidates p ∧
    terminalErr p' = terminalErr p ∧ searchDone p' = searchDone p ∧ searchErr p' = searchErr p →
  (∀ u, (owned b' p' u + cnt u held' = owned b p u + cnt u held)%nat) →
  reported h' = reported h → downloads h' = downloads h →
  Inv b' held' p' xs h'.
Proof.
  intros [] [] (Ec&Ed&Ea&Et&El&Er) Hu Hr Hd.
  split; rewrite ?Ec, ?Ed, ?Ea, ?Et, ?El, ?Er, ?Hr, ?Hd; try done; intros u *.
  - specialize (i_once0 u). specialize (Hu u). lia.
  - intros Hp. apply i_known0. specialize (Hu u). lia.
  - intros Hc Hs Ht. specialize (i_owed0 u _ Hc Hs Ht). specialize (Hu u). lia.
Qed.

(** *** To a placement *)

Lemma same_count c p : same p (countKept c p).
Proof. unfold countKept. by case_match. Qed.

Lemma dedup_ok c v b held e :
  uncanceled → I b (c.(tweetURL) :: c.(exactFollowers) ++ held) e →
  c.(popularity) = clusterSize c →
  ensures (dedupAndPromote c v) e (λ _, I b held).
Proof.
  intros Hun Hi Hpop. unfold dedupAndPromote. pipe_step. pipe_step. cbv [id].
  destruct (i_cfg _ _ _ _ _ Hi) as (_ & _ & _ & ->).
  unfold dedupAndCommit. pipe_step. pipe_step. cbv [id]. cbv zeta.
  case_match; [|case_match]; pipe_step;
    (eapply ensures_mono; [by apply commit_ok|]; intros [out|] e' Hi'; [|exact Hi']);
    (apply I_update; [|done]); intros p; case_match;
    unfold recordSelectedPlacement, keepWinner, keepIncumbent; try done;
    try (cbn [negb]; eapply same_trans; [|apply same_count]; done).
Qed.

Lemma findIndex_Some {A} (f : A → bool) l i : findIndex f l = Some i → is_Some (l !! i).
Proof.
  unfold findIndex. intros Hf. apply fmap_Some in Hf as ([j x] & Hf & ->).
  apply list_find_Some in Hf as (Hf & _). by eexists.
Qed.

Lemma matchExact_valid p c :
  match matchExact p c with
  | matchedAsset i => is_Some (p.(assets) !! i)
  | matchedPending i => is_Some (p.(pending) !! i)
  | noMatch => True
  end.
Proof.
  unfold matchExact. destruct (findIndex (sameExact c) (assets p)) as [i|] eqn:E.
  { by apply findIndex_Some in E. }
  match goal with |- context [match ?x with Some i => matchedAsset i | None => _ end] =>
    assert (∀ i, x = Some i → is_Some (assets p !! i)) as Hr; [|destruct x as [i|] eqn:E2] end.
  { intros i Hx. repeat case_match; try done; by apply findIndex_Some in Hx. }
  - by apply Hr.
  - destruct (findIndex (sameExact c) (pending p)) as [i|] eqn:E3; [|done].
    by apply findIndex_Some in E3.
Qed.

Lemma single_cluster c : single c → c.(popularity) = clusterSize c.
Proof. intros [-> Hf]. unfold clusterSize. by rewrite Hf. Qed.

Lemma collapseAsset_ok c i b held e :
  uncanceled → single c → is_Some ((pl e).(assets) !! i) → I b (c.(tweetURL) :: held) e →
  ensures (collapseAsset c i) e (λ _, I b held).
Proof.
  intros Hun [Hp Hf] [a Ha] Hi. unfold collapseAsset. pipe_step. pipe_step. cbv [id].
  rewrite (I_open _ _ _ Hi), Ha. unfold collapseOntoAsset. cbv zeta.
  set (c1 := if _ || _ then _ else c).
  assert (tweetURL c1 = tweetURL c ∧ single c1) as [Ht1 Hs1].
  { unfold c1. case_match; by split. }
  clearbody c1. set (c2 := if negb _ && _ then _ else c1).
  assert (tweetURL c2 = tweetURL c ∧ single c2) as [Ht2 Hs2].
  { unfold c2. repeat case_match; by split. }
  clearbody c2. case_match; [by apply (terminal_ok _ b [tweetURL c] held)|].
  destruct (i_cfg _ _ _ _ _ Hi) as (_ & _ & _ & ->). pipe_step.
  eapply ensures_mono; [apply (commit_ok c2 _ _ _ _ b held); [done| |by apply single_cluster]|].
  { destruct Hs2 as [_ ->]. by rewrite Ht2. }
  intros [out|] e' Hi'; [|done]. pipe_step.
  eapply ensures_mono; [apply (idle_use _ b held); [|done]|].
  { apply idle_when, idle_update. done. }
  intros ? e2 Hi2. by apply I_update.
Qed.

(** *** To a pending clip *)

Lemma follow_followers d i (l : list clip) c u :
  l !! i = Some c →
  cnt u (alter (follow d) i l ≫= exactFollowers) =
    (cnt u (l ≫= exactFollowers) + same1 u d.(tweetURL))%nat.
Proof.
  revert i. induction l as [|x l IH]; intros [|i] Hl; try done; cbn in *.
  - simplify_eq. rewrite !cnt_app, cnt_cons, cnt_nil. lia.
  - rewrite !cnt_app, (IH i Hl). lia.
Qed.

Lemma follow_keys d i (l : list clip) : stagingKey <$> alter (follow d) i l = stagingKey <$> l.
Proof. revert i. induction l as [|x l IH]; intros [|i]; try done; cbn. by rewrite IH. Qed.

Lemma collapsePending_ok c i b held e :
  single c → is_Some ((pl e).(pending) !! i) → I b (c.(tweetURL) :: held) e →
  ensures (collapsePending c i) e (λ _, I b held).
Proof.
  intros [Hp Hf] [d Hd] Hi. unfold collapsePending. pipe_step. pipe_step. cbv [id].
  rewrite (I_open _ _ _ Hi). unfold collapseOntoPending.
  destruct (i_cfg _ _ _ _ _ Hi) as (_ & _ & -> & _). pipe_step. pipe_step.
  apply idle_deleteStaging.
  eapply Inv_move; [exact Hi| |done| |done|done].
  - destruct (Inv_shape _ _ _ _ _ Hi) as [Hk Hc Hpe Hkeys]. split; [done| | |].
    + intros k claim Hcl. apply Hc. by destruct b.
    + cbn. apply Forall_alter; [done|]. intros x Hx Hpop. unfold clusterSize in *. cbn.
      rewrite length_app. cbn. lia.
    + cbn. by rewrite follow_keys.
  - intros u. unfold owned. cbn. rewrite (follow_followers _ _ _ _ _ Hd), cnt_cons. destruct b; cbn; lia.
Qed.

(** *** To a claim *)

Lemma fireHash_ok k claim held e :
  hashing (pl e) !! k = Some claim → Forall single (claim.(primary) :: claim.(waiting)) →
  I (Some k) (claimURLs claim ++ held) e →
  ensures (fireHash k) e (λ _, I None held).
Proof.
  intros Hk Hs Hi. unfold fireHash. pipe_step. pipe_step. rewrite (I_open _ _ _ Hi).
  pipe_step. pipe_step. rewrite Hk. repeat pipe_step.
  eapply Inv_move; [exact Hi| |done| |done|done].
  - destruct (Inv_shape _ _ _ _ _ Hi) as [Hkd Hc Hpe Hkeys]. split; cbn.
    + intros url [Hin|Hin%list_elem_of_singleton]%elem_of_app; [by eapply Hkd|done].
    + intros k' claim' Hk'. destruct (decide (k' = k)) as [->|Hne].
      * simplify_eq. split; [|done]. apply elem_of_app. right. by left.
      * destruct (Hc k' claim') as [Hin ?]; [cbn; by rewrite lookup_delete_ne|].
        split; [|done]. apply elem_of_app. by left.
    + done.
    + rewrite omap_app. cbn. by rewrite app_nil_r.
  - intros u. change (owned None (addFuture (hashing_ k) (pl e)) u + cnt u held =
      owned (Some k) (pl e) u + cnt u (claimURLs claim ++ held))%nat. rewrite owned_addFuture.
    unfold owned. cbn [claims flying]. rewrite (msum_delete _ _ _ _ Hk), cnt_nil, cnt_app. lia.
Qed.

Lemma claimOrJoin_ok c held e :
  single c → I None (c.(tweetURL) :: held) e → ensures (claimOrJoin c) e (λ _, I None held).
Proof.
  intros Hs Hi. unfold claimOrJoin. pipe_step. pipe_step. cbv [id].
  destruct (claimOf (pl e) c) as [[k claim]|] eqn:Hc.
  - apply drain.claimOf_in in Hc. pipe_step.
    eapply Inv_move; [exact Hi| |done| |done|done].
    + destruct (Inv_shape _ _ _ _ _ Hi) as [Hkd Hcl Hpe Hkeys]. split; try done. cbn.
      intros k' claim'. destruct (decide (k' = k)) as [->|Hne].
      * rewrite lookup_insert_eq. intros [= <-]. destruct (Hcl k claim Hc) as [Hin Hf].
        split; [done|]. cbn. apply Forall_cons in Hf as [Hf1 Hf2]. constructor; [done|].
        by apply Forall_app_2; [|constructor].
      * rewrite lookup_insert_ne by done. apply Hcl.
    + intros u. unfold owned. cbn. rewrite msum_replace, (msum_delete _ _ _ _ Hc).
      unfold claimURLs. cbn. rewrite fmap_app, !cnt_cons, cnt_app. cbn.
      rewrite cnt_cons, cnt_nil. lia.
  - assert (hashing (pl e) !! exactKey c = None) as Hn.
    { unfold claimOf in Hc. case_match; [by destruct p|].
      by destruct (hashing (pl e) !! exactKey c). }
    pipe_step. pipe_step. apply (fireHash_ok _ (mkHashClaim c [])); cbn; [by rewrite lookup_insert_eq| |].
    + by constructor.
    + eapply Inv_move; [exact Hi| |done| |done|done].
      * destruct (Inv_shape _ _ _ _ _ Hi) as [Hkd Hcl Hpe Hkeys]. split; try done.
        intros k claim. cbn. rewrite delete_insert_eq, delete_id by done. apply Hcl.
      * intros u. unfold owned. cbn. rewrite delete_insert_eq, delete_id by done. rewrite !cnt_cons. lia.
Qed.

(** *** Out of a claim *)

(** The claim is forgotten. *)
Lemma forget_ok k held e :
  I (Some k) held e →
  I None held (e <| pl ::= λ p, p <| hashing ::= delete k |> |>).
Proof.
  intros Hi. eapply Inv_move; [exact Hi| |done| |done|done].
  - destruct (Inv_shape _ _ _ _ _ Hi). by split.
  - done.
Qed.

Lemma closeClaim_ok counter o k reason claim held e :
  (∀ p, same p (counter p)) → I (Some k) (claimURLs claim ++ held) e →
  ensures (closeClaim counter o k reason claim) e (λ _, I None held).
Proof.
  intros Hc Hi. unfold closeClaim. pipe_step.
  eapply ensures_mono; [apply (ensures_for (λ l, I (Some k) ((tweetURL <$> l) ++ held))); [exact Hi|]|].
  - intros c l e' Hi'. pipe_step. eapply ensures_mono; [by apply I_update|]. intros ? e1 Hi1.
    pipe_step. eapply ensures_mono;
      [apply (recordOutcome_ok _ _ _ _ (Some k) ((tweetURL <$> l) ++ held)); exact Hi1|].
    intros ? e2 Hi2. by apply idle_deleteStaging.
  - intros ? e' Hi'. pipe_step. by apply forget_ok.
Qed.

Lemma passClaimOn_ok k claim held e :
  Forall single claim.(waiting) → I (Some k) ((tweetURL <$> claim.(waiting)) ++ held) e →
  ensures (passClaimOn k claim) e (λ _, I None held).
Proof.
  intros Hs Hi. unfold passClaimOn. destruct (waiting claim) as [|c rest].
  - pipe_step. by apply forget_ok.
  - pipe_step. pipe_step. apply (fireHash_ok _ (mkHashClaim c rest)); cbn; [by rewrite lookup_insert_eq|done|].
    eapply Inv_move; [exact Hi| |done| |done|done].
    + destruct (Inv_shape _ _ _ _ _ Hi) as [Hkd Hcl Hpe Hkeys]. split; try done.
      intros k' claim'. cbn. rewrite delete_insert_eq. apply Hcl.
    + intros u. unfold owned. cbn. by rewrite delete_insert_eq.
Qed.

Lemma sumPopularity_single l : Forall single l → sumPopularity l = Z.of_nat (length l).
Proof.
  induction 1 as [|c l [Hp _] _ IH]; [done|]. cbn [sumPopularity foldr length].
  fold (sumPopularity l). rewrite Hp, IH. lia.
Qed.

Lemma winClaim_ok k claim out held e :
  Forall single (claim.(primary) :: claim.(waiting)) → I (Some k) (claimURLs claim ++ held) e →
  ensures (winClaim k claim out) e (λ _, I None held).
Proof.
  intros [[Hp Hf] Hs]%Forall_cons Hi. unfold winClaim. pipe_step. pipe_step. cbv zeta.
  destruct (i_cfg _ _ _ _ _ Hi) as (_ & _ & Hdefer & _). rewrite Hdefer. cbn [negb when].
  pipe_step. eapply ensures_mono; [by apply I_update|]. intros ? e1 Hi1.
  pipe_step. eapply ensures_mono.
  { apply (ensures_for (λ _, I (Some k) (claimURLs claim ++ held))); [exact Hi1|].
    intros d l e' Hi'. pipe_step. pipe_step. by apply idle_deleteStaging. }
  intros ? e2 Hi2. pipe_step. pipe_step. unfold fireVision. pipe_step. pipe_step. cbv [id].
  match goal with |- ensures (if ?b then _ else _) _ _ => assert (b = false) as -> end.
  { apply (I_open _ _ _ Hi2). }
  repeat pipe_step. set (winner := hashedWinner (cfg (pl e)) claim out).
  assert (exactFollowers winner = tweetURL <$> waiting claim) as Hwf.
  { unfold winner, hashedWinner. cbn. by rewrite Hdefer, Hf. }
  assert (tweetURL winner = tweetURL (primary claim)) as Hwt by done.
  assert (popularity winner = clusterSize winner) as Hwp.
  { unfold clusterSize. rewrite Hwf, length_fmap. unfold winner, hashedWinner. cbn.
    rewrite Hp, (sumPopularity_single _ Hs). lia. }
  clearbody winner.
  eapply Inv_move; [exact Hi2| |done| |done|done].
  - destruct (Inv_shape _ _ _ _ _ Hi2) as [Hkd Hcl Hpe Hkeys]. split; cbn.
    + intros url [Hin|Hin%list_elem_of_singleton]%elem_of_app; [by eapply Hkd|done].
    + intros k' claim' Hk'. destruct (Hcl k' claim' Hk') as [Hin ?]. split; [|done].
      apply elem_of_app. by left.
    + by apply Forall_app_2; [|constructor].
    + rewrite fmap_app, omap_app. cbn. by rewrite Hkeys.
  - intros u. unfold owned. cbn. rewrite !bind_app, !cnt_app. cbn. rewrite !app_nil_r.
    rewrite Hwt, Hwf. unfold claimURLs. cbn. rewrite !cnt_cons, cnt_app, cnt_nil. lia.
Qed.

(** ** The callbacks *)

(** [p'] is [p] without its [i]-th future. *)
Definition less (i : nat) (p p' : pipeline) : Prop :=
  cfg p' = cfg p ∧ ctxDone p' = ctxDone p ∧ selector p' = delete i (selector p) ∧
  hashing p' = hashing p ∧ pending p' = pending p ∧ candidates p' = candidates p ∧
  terminalErr p' = terminalErr p ∧ searchDone p' = searchDone p ∧ searchErr p' = searchErr p.

Lemma less_flying i f p p' u :
  less i p p' → p.(selector) !! i = Some f →
  cnt u (p.(selector) ≫= flying) = (cnt u (flying f) + cnt u (p'.(selector) ≫= flying))%nat.
Proof.
  intros (_&_&->&_) Hf. apply delete_Permutation in Hf. rewrite Hf at 1. cbn. by rewrite cnt_app.
Qed.

Lemma less_in i f g p p' :
  less i p p' → p.(selector) !! i = Some f → g ≠ f → g ∈ p.(selector) → g ∈ p'.(selector).
Proof.
  intros (_&_&->&_) Hf Hne. apply delete_Permutation in Hf. rewrite Hf at 1.
  by intros [?|?]%elem_of_cons.
Qed.

Lemma less_sub i g p p' : less i p p' → g ∈ p'.(selector) → g ∈ p.(selector).
Proof.
  intros (_&_&->&_) Hg. eapply elem_of_submseteq; [exact Hg|apply sublist_submseteq, sublist_delete].
Qed.

Lemma less_keys i f p p' :
  less i p p' → p.(selector) !! i = Some f → validatedKey f = None →
  omap validatedKey p'.(selector) ≡ₚ omap validatedKey p.(selector).
Proof.
  intros (_&_&->&_) Hf Hv. apply delete_Permutation in Hf. rewrite Hf at 2. cbn. by rewrite Hv.
Qed.

Lemma take_download i url p p' xs h :
  less i p p' → p.(selector) !! i = Some (downloading url) → Inv None [] p xs h →
  Inv None [url] p' xs h.
Proof.
  intros Hl Hf Hi. pose proof Hl as (Ec&Ed&_&Eh&Ep&Ea&Et&El&Er).
  eapply Inv_move; [exact Hi| |done| |done|done].
  - destruct (Inv_shape _ _ _ _ _ Hi) as [Hkd Hcl Hpe Hkeys]. split.
    + intros u Hu. eapply Hkd, less_sub, Hu. done.
    + intros k claim. cbn. rewrite Eh. intros Hk. destruct (Hcl k claim Hk) as [Hin ?].
      split; [|done]. by eapply less_in.
    + by rewrite Ep.
    + rewrite Ep, Hkeys. symmetry. by eapply less_keys.
  - intros u. unfold owned. cbn [claims]. rewrite Eh, Ep, (less_flying _ _ _ _ u Hl Hf). cbn [flying].
    rewrite cnt_nil. lia.
Qed.

Lemma take_hash i k p p' xs h :
  less i p p' → p.(selector) !! i = Some (hashing_ k) → Inv None [] p xs h →
  match p'.(hashing) !! k with
  | Some claim => Inv (Some k) (claimURLs claim) p' xs h ∧
      Forall single (claim.(primary) :: claim.(waiting))
  | None => Inv None [] p' xs h
  end.
Proof.
  intros Hl Hf Hi. pose proof Hl as (Ec&Ed&_&Eh&Ep&Ea&Et&El&Er). rewrite Eh.
  destruct (Inv_shape _ _ _ _ _ Hi) as [Hkd Hcl Hpe Hkeys].
  destruct (hashing p !! k) as [claim|] eqn:Hk.
  - split; [|by apply (Hcl k claim Hk)]. eapply Inv_move; [exact Hi| |done| |done|done].
    + split.
      * intros u Hu. eapply Hkd, less_sub, Hu. done.
      * intros k' claim'. cbn. rewrite Eh. intros [Hne Hk']%lookup_delete_Some.
        destruct (Hcl k' claim' Hk') as [Hin ?]. split; [|done].
        eapply less_in; [done|done| |done]. congruence.
      * by rewrite Ep.
      * rewrite Ep, Hkeys. symmetry. by eapply less_keys.
    + intros u. unfold owned. cbn [claims]. rewrite Eh, Ep, (less_flying _ _ _ _ u Hl Hf).
      cbn [flying]. rewrite (msum_delete _ _ _ _ Hk), !cnt_nil. lia.
  - eapply Inv_move; [exact Hi| |done| |done|done].
    + split.
      * intros u Hu. eapply Hkd, less_sub, Hu. done.
      * intros k' claim'. cbn. rewrite Eh. intros Hk'. destruct (Hcl k' claim' Hk') as [Hin ?].
        split; [|done]. eapply less_in; [done|done| |done]. congruence.
      * by rewrite Ep.
      * rewrite Ep, Hkeys. symmetry. by eapply less_keys.
    + intros u. unfold owned. cbn [claims]. rewrite Eh, Ep, (less_flying _ _ _ _ u Hl Hf).
      cbn [flying]. rewrite cnt_nil. lia.
Qed.

(** The clip whose validation ended is pending. *)
Lemma takePending_ok i c p e :
  less i p (pl e) → p.(selector) !! i = Some (validating c) →
  Inv None [] p (coming e) (history e) →
  ensures (takePending c) e (λ c' e',
    I None (c'.(tweetURL) :: c'.(exactFollowers)) e' ∧ c'.(popularity) = clusterSize c').
Proof.
  intros Hl Hf Hi. pose proof Hl as (Ec&Ed&Es&Eh&Ep&Ea&Et&El&Er).
  destruct (Inv_shape _ _ _ _ _ Hi) as [Hkd Hcl Hpe Hkeys].
  assert (omap validatedKey p.(selector) ≡ₚ stagingKey c :: omap validatedKey (pl e).(selector)) as Hkeys2.
  { rewrite Es. apply delete_Permutation in Hf. rewrite Hf at 1. done. }
  rewrite Hkeys2 in Hkeys.
  unfold takePending. pipe_step. pipe_step. unfold removePending. cbv [id].
  destruct (list_find (λ c', stagingKey c' = stagingKey c) (pending (pl e))) as [[j now]|] eqn:Hfind.
  - apply list_find_Some in Hfind as (Hj & Hkey & _). rewrite Ep in Hj.
    pose proof (delete_Permutation _ _ _ Hj) as Hperm.
    assert (popularity now = clusterSize now) as Hpop.
    { rewrite Forall_lookup in Hpe. by eapply Hpe. }
    repeat pipe_step. split; [|exact Hpop]. cbn [tweetURL exactFollowers].
    eapply (Inv_move None [] p); [exact Hi| |done| |done|done].
    + split; cbn.
      * intros u Hu. eapply Hkd, less_sub, Hu. done.
      * intros k claim. rewrite Eh. intros Hk. destruct (Hcl k claim Hk) as [Hin ?].
        split; [|done]. by eapply less_in.
      * rewrite Ep. apply Forall_delete, Hpe.
      * rewrite Ep. apply (fmap_Permutation stagingKey) in Hperm. rewrite Hperm in Hkeys.
        cbn in Hkeys. rewrite Hkey in Hkeys. by apply Permutation_cons_inv in Hkeys.
    + intros u. unfold owned. cbn. rewrite Eh, Ep, (less_flying _ _ _ _ u Hl Hf). cbn [flying].
      assert (cnt u (pending p ≫= exactFollowers) =
        (cnt u (exactFollowers now) + cnt u (delete j (pending p) ≫= exactFollowers))%nat) as ->.
      { rewrite Hperm at 1. cbn. by rewrite cnt_app. }
      rewrite !cnt_cons, !cnt_nil. lia.
  - apply list_find_None in Hfind. exfalso.
    assert (stagingKey c ∈ stagingKey <$> pending p) as Hin by (rewrite Hkeys; left).
    apply list_elem_of_fmap in Hin as (d & Hd & Hin). rewrite Ep, Forall_forall in Hfind.
    by apply (Hfind d Hin).
Qed.

Lemma fail1_ok url reason d b held e :
  I b (url :: held) e → ensures (fail1 url reason d) e (λ _, I b held).
Proof.
  intros Hi. unfold fail1. pipe_step. eapply ensures_mono; [by apply I_update|].
  intros ? e' Hi'. by apply recordOutcome_ok.
Qed.

Lemma reject1_ok url reason b held e :
  I b (url :: held) e → ensures (reject1 url reason) e (λ _, I b held).
Proof.
  intros Hi. unfold reject1. pipe_step. eapply ensures_mono; [by apply I_update|].
  intros ? e' Hi'. by apply recordOutcome_ok.
Qed.

(** The context is open when a callback begins. *)
Ltac begin_callback Hi :=
  pipe_step; eapply ensures_mono; [apply I_update; [|exact Hi]; done|];
  let e1 := fresh "e" in let Hi1 := fresh "Hi" in intros ? e1 Hi1;
  pipe_step; pipe_step; rewrite (I_open _ _ _ Hi1); cbv match; pipe_step; pipe_step.

Lemma onDownload_ok url r e :
  uncanceled → I None [url] e → ensures (onDownloadDone url r) e (λ _, I None []).
Proof.
  intros Hun Hi. unfold onDownloadDone. begin_callback Hi.
  destruct r as [err|out]; [by apply fail1_ok|].
  case_match; [by apply reject1_ok|].
  case_match.
  { pipe_step. eapply ensures_mono; [apply fail1_ok; exact Hi0|]. intros ? e1 Hi1.
    by apply idle_deleteStaging. }
  unfold admit_. cbv zeta. set (c := clipFromDownload url out).
  assert (single c) as Hs by done. assert (tweetURL c = url) as Hu by done. clearbody c.
  pipe_step. pipe_step. set (e1 := e0 <| pl ::= _ |>).
  assert (I None (tweetURL c :: []) e1) as Hi1.
  { rewrite Hu. destruct Hi0. split; try done.
    - intros u o. cbn. intros Ho. apply lookup_alter_Some in Ho as [(<- & o' & Ho' & ->)|[_ Ho']];
        [by apply (i_evidence0 _ o')|by apply i_evidence0].
    - intros u Hk. cbn. rewrite lookup_alter_is_Some. by apply i_known0.
    - intros u o. cbn. intros Ho. apply lookup_alter_Some in Ho as [(<- & o' & Ho' & ->)|[_ Ho']];
        [by apply (i_owed0 _ o')|by apply (i_owed0 _ o)].
    - intros u o. cbn. intros Ho. apply lookup_alter_Some in Ho as [(<- & o' & Ho' & ->)|[_ Ho']];
        [by apply (i_stored0 _ o')|by apply (i_stored0 _ o)].
    - intros u. cbn. rewrite lookup_alter_is_Some. apply i_started0. }
  clearbody e1. pipe_step. pipe_step. pose proof (matchExact_valid (pl e1) c) as Hm.
  destruct (matchExact (pl e1) c) as [i|i|].
  - by apply collapseAsset_ok.
  - by apply collapsePending_ok.
  - by apply claimOrJoin_ok.
Qed.

Lemma onHash_ok k r e :
  match hashing (pl e) !! k with
  | Some claim => I (Some k) (claimURLs claim) e ∧ Forall single (claim.(primary) :: claim.(waiting))
  | None => I None [] e
  end → ensures (onHashDone k r) e (λ _, I None []).
Proof.
  intros Hi. unfold onHashDone. pipe_step. pipe_step. pipe_step. pipe_step. cbv [id].
  set (e1 := e <| pl ::= _ |>).
  assert (hashing (pl e1) = hashing (pl e)) as Hh by done. rewrite Hh.
  destruct (hashing (pl e) !! k) as [claim|] eqn:Hk.
  - destruct Hi as [Hi Hs]. assert (I (Some k) (claimURLs claim) e1) as Hi1 by by eapply Inv_same, Hi.
    clearbody e1. rewrite (I_open _ _ _ Hi1). destruct r as [err|out].
    + pipe_step. eapply ensures_mono;
        [apply (fail1_ok _ _ _ (Some k) (tweetURL <$> claim.(waiting))); exact Hi1|]. intros ? e2 Hi2.
      pipe_step. eapply ensures_mono; [apply idle_deleteStaging; exact Hi2|]. intros ? e3 Hi3.
      apply passClaimOn_ok; [by apply Forall_cons in Hs as [_ Hs]|]. by rewrite app_nil_r.
    + assert (I (Some k) (claimURLs claim ++ []) e1) as Hi2 by by rewrite app_nil_r.
      repeat case_match; first [by apply closeClaim_ok|by apply winClaim_ok].
  - assert (I None [] e1) as Hi1 by by eapply Inv_same, Hi.
    clearbody e1. by rewrite (I_open _ _ _ Hi1).
Qed.

Lemma onVision_ok i c r p e :
  uncanceled → less i p (pl e) → p.(selector) !! i = Some (validating c) →
  Inv None [] p (coming e) (history e) →
  ensures (onVisionDone c r) e (λ _, I None []).
Proof.
  intros Hun Hl Hf Hi. unfold onVisionDone. pipe_step. pipe_step. pipe_step. pipe_step.
  set (e1 := e <| pl ::= _ |>). assert (less i p (pl e1)) as Hl1 by done.
  assert (ctxDone (pl e1) = false) as ->.
  { destruct Hl as (_ & Hd & _). cbn. rewrite Hd. by apply (i_open _ _ _ _ _ Hi). }
  pipe_step. eapply ensures_mono; [by eapply (takePending_ok i c p e1)|].
  intros c' e2 [Hi2 Hpop]. pipe_step. pipe_step.
  assert (I None (tweetURL c' :: exactFollowers c' ++ []) e2) as Hi3 by by rewrite app_nil_r.
  assert (∀ (counter : pipeline → pipeline) o reason d,
    (∀ q, same q (counter q)) →
    ensures (dropCluster (update counter;; closeCluster c' o reason d) c') e2 (λ _, I None [])) as Hdrop.
  { intros counter o reason d Hc. unfold dropCluster. pipe_step. pipe_step.
    eapply ensures_mono; [apply I_update; [exact Hc|exact Hi3]|]. intros ? e3 Hi4.
    eapply ensures_mono; [apply (closeCluster_ok _ _ _ _ None []); exact Hi4|].
    intros ? e4 Hi5. by apply idle_deleteStaging. }
  destruct r as [err|v]; [by apply Hdrop|].
  case_match; [|by apply Hdrop]. case_match; [|by apply dedup_ok].
  eapply (terminal_ok _ None (tweetURL c' :: exactFollowers c') []); [done|]. exact Hi3.
Qed.

(** ** The loop *)

Lemma turn_ok e : uncanceled → I None [] e → ensures turn e (λ _, I None []).
Proof.
  intros Hun Hi. unfold turn. pipe_step. pipe_step. cbv [id].
  destruct (finished (pl e)); [by pipe_step|]. pipe_step. pipe_step.
  destruct (choose e) as [[i f]|] eqn:Hch.
  - apply drain.choose_in in Hch. unfold select. do 7 pipe_step.
    match goal with |- ensures _ ?x _ => set (e1 := x) end.
    assert (less i (pl e) (pl e1)) as Hl by done.
    assert (Inv None [] (pl e) (coming e1) (history e1)) as Hi1.
    { eapply (I_record None []); [done|done|exact Hi]. }
    assert (∀ r, ensures (callback f r) e1 (λ _, I None [])) as Hcb.
    { clearbody e1. intros r. destruct f as [url|url|k|c]; cbn [callback].
      - apply onDownload_ok; [done|]. by eapply take_download.
      - destruct (i_kinds _ _ _ _ _ Hi url). by apply list_elem_of_lookup_2 in Hch.
      - apply onHash_ok. by eapply take_hash.
      - by eapply onVision_ok. }
    eapply ensures_mono; [apply Hcb|]. intros ? e2 Hi2. by pipe_step.
  - rewrite (I_open _ _ _ Hi). pipe_step. unfold await. do 4 pipe_step.
    eapply ensures_mono; [apply yield_ok, I_record; [done|done|exact Hi]|].
    intros ? e2 [Hi2 _]. by pipe_step.
Qed.

(** When the loop stops nothing is under way, so every candidate is settled. *)
Lemma finished_settled e :
  drain.gap e = 0 → I None [] e → finished (pl e) = true →
  NoDup (reported (history e)) ∧
  match terminalErr (pl e) with
  | None => reported (history e) ≡ₚ all ∧ verdict (pl e) = outcome0
  | Some err => verdict (pl e) = Some err ∧ external (Some err)
  end.
Proof.
  intros Hgap [] [Hdone Hzero]%andb_true_iff.
  assert (selector (pl e) = []) as Hsel.
  { unfold drain.gap in Hgap. destruct (selector (pl e)); [done|]. cbn in Hgap. lia. }
  rewrite Hsel in i_keys0. cbn in i_keys0. apply Permutation_nil_r, fmap_nil_inv in i_keys0 as Hpend.
  assert (hashing (pl e) = ∅) as Hhash.
  { apply map_eq. intros k. rewrite lookup_empty. destruct (hashing (pl e) !! k) as [claim|] eqn:E; [|done].
    destruct (i_claims0 k claim E) as [Hin _]. rewrite Hsel in Hin. by apply elem_of_nil in Hin. }
  assert (∀ u, owned None (pl e) u = 0%nat) as Hown.
  { intros u. unfold owned. cbn. by rewrite Hsel, Hhash, Hpend. }
  destruct (i_last0 Hdone) as [Hres Hlast]. split.
  { apply cnt_NoDup. intros u. specialize (i_once0 u). lia. }
  unfold verdict. destruct (terminalErr (pl e)) as [err|] eqn:Herr; [by split|].
  assert (∀ u o, candidates (pl e) !! u = Some o → state o = CandidateTerminal) as Hterm.
  { intros u o Ho. destruct (decide (state o = CandidateTerminal)) as [|Hs]; [done|].
    specialize (i_owed0 u o Ho Hs eq_refl). rewrite Hown, cnt_nil in i_owed0. lia. }
  split.
  - apply cnt_Permutation. intros u. specialize (i_all0 u). specialize (i_fresh0 u).
    specialize (i_once0 u). rewrite Hlast, cnt_nil in *.
    destruct (decide (u ∈ downloads (history e))) as [Hin|Hin].
    + pose proof Hin as Hcnt. apply cnt_pos in Hcnt. apply i_started0 in Hin as [o Ho].
      specialize (i_stored0 u o Ho (Hterm u o Ho)). apply cnt_pos in i_stored0. lia.
    + assert (¬ (0 < cnt u (downloads (history e)))%nat) as Hd by by rewrite cnt_pos.
      assert (¬ (0 < cnt u (reported (history e)))%nat); [|lia].
      intros Hr. apply Hin, i_started0, i_known0. lia.
  - destruct (i_cfg0) as (_ & -> & _).
    destruct (list_find _ _) as [[j [u o]]|] eqn:Hfind; [|done].
    apply list_find_Some in Hfind as (Hj & Hs & _). apply list_elem_of_lookup_2 in Hj.
    rewrite rangeCandidates_all in Hj. apply elem_of_map_to_list in Hj.
    by apply Hterm in Hj.
Qed.

(** Whatever the loop returns. *)
Lemma run_settled fuel e :
  uncanceled → drain.runs e → I None [] e → (drain.total e < fuel)%nat →
  ∃ err e', run fuel e = (Some err, e') ∧
    NoDup (reported (history e')) ∧
    match terminalErr (pl e') with
    | None => reported (history e') ≡ₚ all ∧ err = outcome0
    | Some t => err = Some t ∧ external (Some t)
    end.
Proof.
  intros Hun. revert e. induction fuel as [|fuel IH]; intros e Hr Hi Hf; [lia|].
  pose proof (drain.turn_progress e Hr) as Hp. pose proof (turn_ok e Hun Hi) as Hok.
  unfold ensures in Hp, Hok. cbn [run]. unfold mbind, M_bind.
  destruct (turn e) as [[err|] e'] eqn:Ht; cbn in *.
  - exists err, e'. split; [done|]. unfold turn, mbind, M_bind, peek, gets in Ht.
    cbn in Ht. destruct (finished (pl e)) eqn:Hfin.
    + unfold mret, M_ret in Ht. simplify_eq. destruct Hr as [Hg _].
      destruct (finished_settled e' Hg Hi Hfin) as [Hn Hs]. split; [done|].
      by destruct (terminalErr (pl e')).
    + rewrite (I_open _ _ _ Hi) in Ht. destruct (choose e) as [[i f]|].
      * destruct (select i f e). by simplify_eq.
      * destruct (await e). by simplify_eq.
  - destruct Hp as [Hr' Hlt]; [done|]. apply IH; [done|done|lia].
Qed.

Lemma start_ok i g l a cs :
  current g → NoDup (ceTweetURL <$> cs) → Forall (λ c, c.(ceTweetURL) ≠ "") cs →
  all = ceTweetURL <$> cs →
  I None [] (mkEnv (restoreAssets l a (newPipeline i g))
    ((spawn <$> cs) ++ [searchFinished outcome0]) []).
Proof.
  intros Hg Hn Hne Hall. unfold I. cbn. eapply Inv_same; [apply same_restore|].
  assert (∀ cs', Forall (λ c, c.(ceTweetURL) ≠ "") cs' →
    toCome ((spawn <$> cs') ++ [searchFinished outcome0]) = ceTweetURL <$> cs') as Hcome.
  { unfold toCome. induction 1 as [|c cs' Hc _ IH]; [done|]. cbn.
    apply String.eqb_neq in Hc. rewrite Hc. cbn. by rewrite IH. }
  split; try done.
  - intros Hin. apply elem_of_app in Hin as [Hin|Hin%list_elem_of_singleton]; [|done].
    apply list_elem_of_fmap in Hin as (c & ? & _). done.
  - intros u. apply not_elem_of_nil.
  - intros u. rewrite Hcome by done. change (0 + 0 + 0 + cnt u (ceTweetURL <$> cs) ≤ 1)%nat.
    apply cnt_NoDup with (u := u) in Hn. lia.
  - intros u. unfold owned. cbn. rewrite msum_empty, !cnt_nil. lia.
  - intros u. cbn. rewrite lookup_empty. split; [by intros ?%elem_of_nil|by intros [? ?]].
  - intros u. rewrite Hcome by done. cbn. rewrite cnt_nil. apply cnt_NoDup with (u := u) in Hn. lia.
  - intros u. rewrite Hcome by done. cbn. rewrite cnt_nil, Hall. lia.
  - intros ys err zs Hsplit. destruct zs as [|z zs _] using rev_ind.
    + apply app_inj_tail in Hsplit as [_ [= <-]]. done.
    + exfalso. rewrite app_comm_cons, app_assoc in Hsplit. apply app_inj_tail in Hsplit as [Hsplit _].
      assert (searchFinished err ∈ spawn <$> cs) as Hin by (rewrite Hsplit; set_solver).
      by apply list_elem_of_fmap in Hin as (c & ? & _).
Qed.
End custody.


End custody.
