(* ===== verification/Pool.v ===== *)
(** The pool of kept clips of Pipeline.v: what a committed selection makes of it,
    and which placements the deduplication of a validated clip asks for. *)
From S2P Require Import Prelude GoStrings Event Vision Video Selection Jsonb Discovery Wire Flow Pipeline Drain.
#[local] Open Scope string_scope.
#[local] Open Scope list_scope.
#[local] Open Scope Z_scope.
Import discoverycontract video wire flow pipeline.

Module pool.

Lemma filter_ext_in {A} (P Q : A → Prop) `{∀ x, Decision (P x)} `{∀ x, Decision (Q x)} (l : list A) :
  (∀ x, x ∈ l → P x ↔ Q x) → filter P l = filter Q l.
Proof.
  induction l as [|x l IH]; intros Hl; [done|]. rewrite !filter_cons.
  rewrite IH by (intros y Hy; apply Hl; by right). specialize (Hl x ltac:(by left)).
  repeat case_decide; naive_solver.
Qed.

(** ** The committed selection *)

Definition validAsset (a : RestoredEventAsset) : Prop :=
  is_Some a.(raAssetID) ∧ a.(raMD5) ≠ "" ∧ 1 ≤ a.(raPopularity).

Record validSelection (l : list RestoredEventAsset) (aliases : list RestoredExactAlias) : Prop := {
  vs_assets : Forall validAsset l;
  vs_ids : NoDup (raAssetID <$> l);
  vs_md5s : NoDup (raMD5 <$> l);
  vs_aliases : Forall (λ a, a.(rxAssetID) ∈ raAssetID <$> l ∧ a.(rxMD5) ≠ "") aliases }.

Lemma indexSelection_spec l md5s m :
  match indexSelection l md5s m with
  | inl _ => ¬ (Forall validAsset l ∧ NoDup (raAssetID <$> l) ∧ NoDup (raMD5 <$> l) ∧
      (∀ a, a ∈ l → m !! a.(raAssetID) = None ∧ a.(raMD5) ∉ md5s))
  | inr m' => Forall validAsset l ∧ NoDup (raAssetID <$> l) ∧ NoDup (raMD5 <$> l) ∧
      (∀ a, a ∈ l → m !! a.(raAssetID) = None ∧ a.(raMD5) ∉ md5s) ∧
      ∀ id a, m' !! id = Some a ↔ m !! id = Some a ∨ (a ∈ l ∧ id = a.(raAssetID))
  end.
Proof.
  revert md5s m. induction l as [|a l IH]; intros md5s m; cbn.
  { repeat split; try constructor; intros; set_solver. }
  destruct (is_nil (raAssetID a)) eqn:E1; cbn [orb].
  { apply is_nil_true in E1. intros (Hv & _). apply Forall_cons in Hv as [([? Hs] & _) _]. congruence. }
  destruct (_ =? "")%string eqn:E2; cbn [orb].
  { apply String.eqb_eq in E2. intros (Hv & _). by apply Forall_cons in Hv as [(_ & ? & _) _]. }
  destruct (_ <? 1) eqn:E3; cbn [orb].
  { apply Z.ltb_lt in E3. intros (Hv & _). apply Forall_cons in Hv as [(_ & _ & ?) _]. lia. }
  destruct (bool_decide _) eqn:E4.
  { apply bool_decide_eq_true in E4. intros (_ & _ & _ & Ha). by destruct (Ha a ltac:(by left)). }
  apply bool_decide_eq_false in E4. apply String.eqb_neq in E2. apply Z.ltb_ge in E3.
  destruct (m !! raAssetID a) as [b|] eqn:E5.
  { intros (_ & _ & _ & Ha). destruct (Ha a ltac:(by left)) as [Hn _]. congruence. }
  assert (validAsset a) as Hva.
  { repeat split; [|done|lia]. destruct (raAssetID a); [by eexists|done]. }
  specialize (IH ({[raMD5 a]} ∪ md5s) (<[raAssetID a := a]> m)).
  assert (∀ b, (<[raAssetID a := a]> m !! raAssetID b = None ∧ raMD5 b ∉ {[raMD5 a]} ∪ md5s) ↔
    (m !! raAssetID b = None ∧ raMD5 b ∉ md5s) ∧ raAssetID b ≠ raAssetID a ∧ raMD5 b ≠ raMD5 a) as Hb.
  { intros b. rewrite lookup_insert_None, not_elem_of_union, not_elem_of_singleton.
    naive_solver. }
  destruct (indexSelection l _ _) as [err|m'].
  - intros (Hv & Hids & Hmd5 & Ha). apply IH. apply Forall_cons in Hv as [_ Hv].
    apply NoDup_cons in Hids as [Hid Hids], Hmd5 as [Hm Hmd5]. split; [done|].
    split; [done|]. split; [done|]. intros b Hin. apply Hb. split; [apply Ha; by right|]. split.
    + intros Hx. apply Hid. rewrite <-Hx. by apply list_elem_of_fmap_2.
    + intros Hx. apply Hm. rewrite <-Hx. by apply list_elem_of_fmap_2.
  - destruct IH as (Hv & Hids & Hmd5 & Ha & Hm').
    split; [by constructor|]. split.
    { constructor; [|done]. intros (b & Hx & Hin)%list_elem_of_fmap. apply (Ha b), Hb in Hin. naive_solver. }
    split.
    { constructor; [|done]. intros (b & Hx & Hin)%list_elem_of_fmap. apply (Ha b), Hb in Hin. naive_solver. }
    split.
    { intros b [->|Hin]%elem_of_cons; [done|]. by apply Hb, Ha. }
    intros id b. rewrite Hm', elem_of_cons. destruct (decide (id = raAssetID a)) as [->|Hne].
    + rewrite lookup_insert_eq. naive_solver.
    + rewrite lookup_insert_ne by done. naive_solver.
Qed.

(** Every entry of the index whose id is listed, once, in the order of the ids. *)
Lemma takeInOrder_elem ids m a :
  (∀ id a, m !! id = Some a → a.(raAssetID) = id) →
  a ∈ takeInOrder ids m ↔ a.(raAssetID) ∈ ids ∧ m !! a.(raAssetID) = Some a.
Proof.
  revert m. induction ids as [|id ids IH]; intros m Hm; cbn; [set_solver|].
  destruct (m !! id) as [b|] eqn:E.
  - pose proof (Hm id b E) as Hb. rewrite !elem_of_cons, IH.
    + destruct (decide (raAssetID a = id)) as [Heq|Hne].
      * rewrite Heq, lookup_delete_eq. naive_solver.
      * rewrite lookup_delete_ne by done. naive_solver.
    + intros id' a' [_ Ha']%lookup_delete_Some. by apply Hm.
  - rewrite IH, elem_of_cons by done. naive_solver.
Qed.

Lemma takeInOrder_NoDup ids m :
  (∀ id a, m !! id = Some a → a.(raAssetID) = id) →
  NoDup (raAssetID <$> takeInOrder ids m).
Proof.
  revert m. induction ids as [|id ids IH]; intros m Hm; cbn; [constructor|].
  destruct (m !! id) as [b|] eqn:E; [|by apply IH].
  assert (∀ id' a', delete id m !! id' = Some a' → raAssetID a' = id') as Hm'.
  { intros id' a' [_ Ha']%lookup_delete_Some. by apply Hm. }
  cbn. constructor; [|by apply IH]. intros (a & Heq & Hin)%list_elem_of_fmap.
  apply takeInOrder_elem in Hin as [_ Hin]; [|done]. rewrite <-Heq, (Hm id b E) in Hin.
  by rewrite lookup_delete_eq in Hin.
Qed.

Lemma takeInOrder_prefix ids rest m :
  NoDup ids → (∀ id a, m !! id = Some a → a.(raAssetID) = id) →
  filter (λ id, is_Some (m !! id)) ids `prefix_of` (raAssetID <$> takeInOrder (ids ++ rest) m).
Proof.
  intros Hn. revert m. induction Hn as [|id ids Hid Hn IH]; intros m Hm; [apply prefix_nil|].
  cbn [app takeInOrder].
  destruct (m !! id) as [b|] eqn:E.
  - rewrite filter_cons_True by (rewrite E; by eexists). rewrite fmap_cons, (Hm id b E). apply prefix_cons.
    assert (filter (λ id', is_Some (m !! id')) ids = filter (λ id', is_Some (delete id m !! id')) ids) as ->.
    { apply filter_ext_in. intros id' Hin. rewrite lookup_delete_ne; [done|]. by intros ->. }
    apply IH. intros id' a' [_ Ha']%lookup_delete_Some. by apply Hm.
  - rewrite filter_cons_False by (rewrite E; by intros [? ?]). by apply IH.
Qed.

(** The roots lead to [ids]. *)
Definition rooted (ids : list (option UUID)) (p : pipeline) : Prop :=
  ∀ k root, p.(exactRoots) !! k = Some root → Some root ∈ ids.

Lemma rooted_remember ids k r p : r ∈ ids → rooted ids p → rooted ids (rememberExactRoot k r p).
Proof.
  intros Hr Hp. unfold rememberExactRoot. case_match; [done|]. destruct r as [r|]; [|done].
  intros k' root. cbn. intros [[_ <-]|[_ Hk]]%lookup_insert_Some; [done|]. by eapply Hp.
Qed.

Lemma rooted_restore ids l aliases p :
  Forall (λ a, a.(raAssetID) ∈ ids) l → Forall (λ a, a.(rxAssetID) ∈ ids) aliases →
  rooted ids p → rooted ids (restoreAssets l aliases p).
Proof.
  intros Hl Ha Hp. unfold restoreAssets.
  assert (rooted ids (foldl restoreAsset p l)) as Hp1.
  { clear Ha. revert p Hp. induction Hl as [|a l Hin _ IH]; intros p Hp; [done|]. cbn. apply IH.
    unfold restoreAsset. cbv zeta. case_match; intros k root; cbn; by apply rooted_remember, rooted_remember. }
  clear Hl Hp. revert Hp1. generalize (foldl restoreAsset p l) as q. clear p.
  induction Ha as [|a aliases Hin _ IH]; intros q Hq; [done|]. cbn. apply IH.
  unfold restoreAlias. cbv zeta. case_match; intros k root; cbn; by apply rooted_remember, rooted_remember.
Qed.

Lemma assets_remember k r p : assets (rememberExactRoot k r p) = assets p.
Proof. unfold rememberExactRoot. by repeat case_match. Qed.

Lemma assets_restore l aliases p :
  assets (restoreAssets l aliases p) = assets p ++ (restoredClip <$> l).
Proof.
  unfold restoreAssets.
  assert (∀ q, assets (foldl restoreAlias q aliases) = assets q) as ->.
  { induction aliases as [|a aliases IH]; intros q; [done|]. cbn. rewrite IH. unfold restoreAlias.
    cbv zeta. case_match; cbn; by rewrite !assets_remember. }
  revert p. induction l as [|a l IH]; intros p; cbn; [by rewrite app_nil_r|].
  rewrite IH. rewrite cons_middle, app_assoc. f_equal. unfold restoreAsset. cbv zeta.
  case_match; cbn; by rewrite !assets_remember.
Qed.

(** The pool follows the committed selection: an answer is adopted exactly when its
    assets are distinct, complete and counted and its aliases name them; then the
    pool holds those assets, each once, the survivors of the former pool first and in
    their order, and no known media leads to a clip that is not kept any more. *)
Theorem replaceSelection_adopts s winner p :
  let l := laAssets (poState s) in
  let aliases := laExactAliases (poState s) in
  NoDup (assetID <$> assets p) →
  match replaceSelection s winner p with
  | inl _ => ¬ validSelection l aliases
  | inr p' =>
      validSelection l aliases ∧ assets p' ≡ₚ restoredClip <$> l ∧
      filter (λ id, id ∈ raAssetID <$> l) (assetID <$> assets p) `prefix_of` (assetID <$> assets p') ∧
      rooted (assetID <$> assets p') p'
  end.
Proof.
  intros l aliases Hn. unfold replaceSelection. fold l. fold aliases.
  pose proof (indexSelection_spec l ∅ ∅) as Hix.
  destruct (indexSelection l ∅ ∅) as [err|m].
  { intros []. apply Hix. split; [done|]. split; [done|]. split; [done|]. intros a _.
    split; [apply lookup_empty|set_solver]. }
  destruct Hix as (Hv & Hids & Hmd5 & _ & Hm).
  assert (∀ id a, m !! id = Some a → raAssetID a = id) as Hkey.
  { intros id a Hid. apply Hm in Hid as [Hid|[_ ->]]; [by rewrite lookup_empty in Hid|done]. }
  assert (∀ id, is_Some (m !! id) ↔ id ∈ raAssetID <$> l) as Hdom.
  { intros id. rewrite list_elem_of_fmap. split.
    - intros [a Ha]. pose proof (Hkey _ _ Ha). apply Hm in Ha as [Ha|[Ha _]];
        [by rewrite lookup_empty in Ha|by exists a].
    - intros (a & -> & Ha). exists a. apply Hm. by right. }
  destruct (existsb _ _) eqn:Hal.
  { intros [_ _ _ Hva]. apply existsb_exists in Hal as (a & Hin & Ha).
    apply list_elem_of_In in Hin. rewrite Forall_forall in Hva. destruct (Hva a Hin) as [Hid Hne].
    apply orb_true_iff in Ha as [Ha%is_nil_true|Ha%String.eqb_eq]; [|done].
    apply Hdom in Hid as [? Hid]. unfold is_nil in Ha. congruence. }
  set (ids := _ ++ _). set (ordered := takeInOrder ids m).
  assert (ordered ≡ₚ l) as Hperm.
  { apply NoDup_Permutation.
    - eapply NoDup_fmap_1, takeInOrder_NoDup, Hkey.
    - by eapply NoDup_fmap_1.
    - intros a. unfold ordered. rewrite takeInOrder_elem by done. split.
      + intros [_ Ha]. apply Hm in Ha as [Ha|[Ha _]]; [by rewrite lookup_empty in Ha|done].
      + intros Ha. split; [|apply Hm; by right]. unfold ids. rewrite !elem_of_app. do 3 right.
        by apply list_elem_of_fmap_2. }
  assert (assetID <$> assets (restoreAssets ordered aliases
    (p <| assets := [] |> <| exactRoots := ∅ |> <| mediaObserved := ∅ |>)) = raAssetID <$> ordered) as Hpool.
  { rewrite assets_restore. cbn. rewrite <-list_fmap_compose. done. }
  split; [|split; [|split]].
  - split; try done. apply Forall_forall. intros a Ha.
    assert (∀ x, x ∈ aliases → is_nil (m !! rxAssetID x) || (rxMD5 x =? "")%string = false) as Hall.
    { intros x Hx. destruct (_ || _) eqn:E; [|done]. rewrite <-Hal. symmetry. apply existsb_exists.
      exists x. split; [by apply list_elem_of_In|done]. }
    apply Hall in Ha. apply orb_false_iff in Ha as [Ha1 Ha2]. apply String.eqb_neq in Ha2.
    split; [|done]. apply Hdom. destruct (m !! rxAssetID a); [by eexists|done].
  - rewrite assets_restore. cbn. by rewrite Hperm.
  - rewrite Hpool. rewrite <-(filter_ext_in (λ id, is_Some (m !! id)) (λ id, id ∈ raAssetID <$> l)) by (intros; apply Hdom).
    by apply takeInOrder_prefix.
  - rewrite Hpool. apply rooted_restore; [| |intros k root; cbn; by rewrite lookup_empty].
    + apply Forall_forall. intros a Ha. by apply list_elem_of_fmap_2.
    + apply Forall_forall. intros a Ha.
      assert (is_nil (m !! rxAssetID a) = false) as Hnil.
      { destruct (is_nil _) eqn:E; [|done]. rewrite <-Hal. symmetry. apply existsb_exists.
        exists a. split; [by apply list_elem_of_In|by rewrite E]. }
      rewrite Hperm. apply Hdom. destruct (m !! rxAssetID a); [by eexists|done].
Qed.


(** ** Which placements are asked for *)

Section placements.
Context `{Platform}.

(** The kept clips that [c] itself matches: of its own category, hashed in a
    comparable way, and aligned with it under one of the two policies. *)
Definition rivals (p : pipeline) (c a : clip) : Prop :=
  let g := cfg p in
  let aligned hamming run gaps := Match (frameHashes c) (frameHashes a) hamming run gaps = true in
  a ∈ assets p ∧ verified a = verified c ∧
  CompatibleFrameHashVersions (hashVersion c) (hashVersion a) = true ∧
  (aligned (maxHamming g) (minRun g) (maxGaps g) ∨
   0 < longMinRun g ∧ aligned (longMaxHamming g) (longMinRun g) (longMaxGaps g)).

(** What a placement may claim about the pool [p] it was decided on. *)
Definition justified (p : pipeline) (c : clip) (i : CommitClipPlacementInput) : Prop :=
  (∀ id, id ∈ cpLoserAssetIDs i → ∃ a, rivals p c a ∧ assetID a = id) ∧
  (if cpNewWinner i then
     (∀ a, rivals p c a → assetID a ∈ cpLoserAssetIDs i) ∧
     (cpLoserAssetIDs i ≠ [] → ∃ a, rivals p c a ∧ IsUpgrade (quality c) (quality a) = true)
   else
     (∃ a, rivals p c a ∧ assetID a = cpWinnerAssetID i ∧ IsUpgrade (quality c) (quality a) = false) ∧
     (if preserveIncumbentsOnLoss (cfg p) then cpLoserAssetIDs i = []
      else (∀ a, rivals p c a → assetID a = cpWinnerAssetID i ∨ assetID a ∈ cpLoserAssetIDs i) ∧
        (NoDup (assetID <$> assets p) → cpWinnerAssetID i ∉ cpLoserAssetIDs i))).

Lemma matchAssets_rivals p c j :
  j ∈ matchAssets p c ↔ ∃ a, assets p !! j = Some a ∧ comparable c a = true ∧ sameFootage (cfg p) c a = true.
Proof.
  unfold matchAssets. rewrite list_elem_of_omap. split.
  - intros ([k a] & Hin & Hx). cbn in Hx. destruct (_ && _) eqn:E; [|done].
    apply andb_true_iff in E as [? ?]. simplify_eq. exists a. split; [|done].
    apply list_elem_of_lookup in Hin as [k Hk]. rewrite list_lookup_imap in Hk.
    apply fmap_Some in Hk as (b & Hb & [= -> ->]). done.
  - intros (a & Ha & Hc & Hf). exists (j, a). cbn. rewrite Hc, Hf. split; [|done].
    apply list_elem_of_lookup. exists j. rewrite list_lookup_imap, Ha. done.
Qed.

Lemma rivals_index p c a : rivals p c a ↔ ∃ j, j ∈ matchAssets p c ∧ assets p !! j = Some a.
Proof.
  assert (rivals p c a ↔ a ∈ assets p ∧ comparable c a = true ∧ sameFootage (cfg p) c a = true) as ->.
  { unfold rivals, comparable, sameFootage.
    rewrite orb_true_iff, !andb_true_iff, Bool.eqb_true_iff, Z.ltb_lt. tauto. }
  setoid_rewrite matchAssets_rivals. rewrite list_elem_of_lookup. naive_solver.
Qed.

Lemma assetIDsAt_elem p ixs id :
  id ∈ assetIDsAt p ixs ↔ ∃ j a, j ∈ ixs ∧ assets p !! j = Some a ∧ assetID a = id.
Proof.
  unfold assetIDsAt. rewrite list_elem_of_omap. split.
  - intros (j & Hj & (a & Ha & ->)%fmap_Some). eauto.
  - intros (j & a & Hj & Ha & <-). exists j. by rewrite Ha.
Qed.

Lemma bestOf_in assets first rest : bestOf assets first rest ∈ first :: rest.
Proof.
  unfold bestOf. revert first. induction rest as [|j rest IH]; intros first; cbn; [set_solver|].
  match goal with |- foldl _ ?x _ ∈ _ => assert (x = first ∨ x = j) as [-> | ->] by (repeat case_match; auto) end.
  - specialize (IH first). set_solver.
  - specialize (IH j). set_solver.
Qed.

(** No placement is asked for. *)
Definition places (h : list entry) : list CommitClipPlacementInput :=
  omap (λ x, match x with Issued (CommitClipPlacement i) => Some i | _ => None end) h.

Definition quiet (e e' : env) : Prop := places (history e') = places (history e).

#[local] Instance quiet_preorder : PreOrder quiet.
Proof. split; [by intros ?|]. unfold quiet. intros e1 e2 e3 ? ?. congruence. Qed.

Lemma quiet_update f : keeps quiet (update f).
Proof. by apply keeps_modify. Qed.
Lemma quiet_record x : places [x] = [] → keeps quiet (record x).
Proof. intros Hx. apply keeps_modify. intros e. unfold quiet, places in *. cbn in *. by case_match. Qed.
Lemma quiet_peek {A} (f : pipeline → A) : keeps quiet (peek f).
Proof. apply keeps_gets, _. Qed.

Ltac quiet_all := repeat first
  [ apply (keeps_ret _) | apply quiet_peek | apply (keeps_gets _) | apply quiet_update
  | apply quiet_record; reflexivity
  | apply (keeps_bind _); [|intros ?] | apply (keeps_when _) | apply (keeps_for _); intros ?
  | progress case_match ].

Lemma quiet_happen x : keeps quiet (happen x).
Proof. destruct x; unfold happen, spawnCandidate, finishSearch; quiet_all. Qed.

Lemma quiet_yield n : keeps quiet (yield n).
Proof.
  unfold yield. apply (keeps_bind _); [apply (keeps_gets _)|intros xs].
  apply (keeps_bind _); [by apply keeps_modify|intros ?]. apply (keeps_for _), quiet_happen.
Qed.

Lemma call_places c e :
  ensures (call c) e (λ _ e', places (history e') = places [Issued c] ++ places (history e)).
Proof.
  unfold call. do 5 pipe_step. eapply ensures_mono; [apply quiet_yield|].
  intros ? e1 Hq. repeat pipe_step. unfold quiet in Hq.
  change (places (history e1) = places [Issued c] ++ places (history e)). rewrite Hq.
  unfold places. cbn. by destruct c.
Qed.

Lemma quiet_call c : places [Issued c] = [] → keeps quiet (call c).
Proof. intros Hc e. eapply ensures_mono; [apply call_places|]. intros ? e' He. unfold quiet. by rewrite He, Hc. Qed.

Lemma quiet_publish : keeps quiet publishEventUpdate.
Proof.
  unfold publishEventUpdate, canceled. apply (keeps_bind _); [apply quiet_peek|intros b].
  destruct b; [apply (keeps_ret _)|]. apply (keeps_bind _); [apply quiet_peek|intros p].
  case_match; (apply (keeps_bind _); [by apply quiet_call|intros ?; apply (keeps_ret _)]).
Qed.

Lemma quiet_adopt c l out : keeps quiet (adoptPlacement c l out).
Proof. unfold adoptPlacement, setTerminalError. quiet_all. Qed.

(** At most one placement, with the arguments it was given. *)
Lemma commit_places c v new winner losers e :
  ensures (commitClipPlacement c v new winner losers) e (λ _ e',
    places (history e') = places (history e) ∨
    ∃ i, places (history e') = i :: places (history e) ∧
      cpNewWinner i = new ∧ cpWinnerAssetID i = winner ∧ cpLoserAssetIDs i = losers).
Proof.
  unfold commitClipPlacement. pipe_step. pipe_step. cbv [id].
  case_match; [pipe_step; by left|]. destruct (placementCandidates _ _ _ _) as [err|xs].
  { pipe_step. eapply ensures_mono; [apply quiet_update|]. intros ? e' Hq. pipe_step. by left. }
  set (i := placementInput _ _ _ _ _ _ _). pipe_step.
  eapply ensures_mono; [apply (call_places (CommitClipPlacement i))|]. intros r e1 Hp.
  assert (∀ k : M env (option CommitClipPlacementOutput), keeps quiet k → ensures k e1 (λ _ e',
    places (history e') = places (history e) ∨
    ∃ i, places (history e') = i :: places (history e) ∧
      cpNewWinner i = new ∧ cpWinnerAssetID i = winner ∧ cpLoserAssetIDs i = losers)) as Hk.
  { intros k Hk. eapply ensures_mono; [apply Hk|]. intros ? e2 Hq. right. exists i.
    unfold quiet in Hq. by rewrite Hq, Hp. }
  destruct r as [err|out]; apply Hk.
  - unfold setTerminalError. quiet_all.
  - apply (keeps_bind _); [quiet_all|intros ?]. case_match; [quiet_all|].
    apply (keeps_bind _); [apply quiet_adopt|intros ok]. destruct ok; [|apply (keeps_ret _)].
    apply (keeps_bind _); [|intros ?; apply (keeps_ret _)]. apply (keeps_when _), quiet_publish.
Qed.

(** C24: Deduplication is by category and direct: the placement asked for a validated
    clip - one at most - retires only kept clips of the clip's own category (verified
    or not) and comparable hash version whose footage the clip itself matches.  A clip
    becomes a new asset only if it matches no kept clip, or if it is an upgrade over
    one of its matches, and then it replaces all of them; otherwise it is credited to
    a match it is no upgrade over.  What happens to its other matches then depends on
    the history: under the current version (incumbents are preserved on a loss) no clip
    is retired; a run recorded before it retires all of them, and keeps the winner. *)
Theorem dedup_is_justified c v e :
  ensures (dedupAndCommit c v) e (λ _ e',
    places (history e') = places (history e) ∨
    ∃ i, places (history e') = i :: places (history e) ∧ justified (pl e) c i).
Proof.
  unfold dedupAndCommit. pipe_step. pipe_step. cbv [id]. cbv zeta.
  assert (∀ (k : option CommitClipPlacementOutput → M env unit) new winner losers,
    (∀ r, keeps quiet (k r)) →
    (∀ i, cpNewWinner i = new → cpWinnerAssetID i = winner → cpLoserAssetIDs i = losers →
      justified (pl e) c i) →
    ensures (r ← commitClipPlacement c v new winner losers; k r) e (λ _ e',
      places (history e') = places (history e) ∨
      ∃ i, places (history e') = i :: places (history e) ∧ justified (pl e) c i)) as Hcommit.
  { intros k new winner losers Hk Hj. pipe_step. eapply ensures_mono; [apply commit_places|].
    intros r e1 He1. eapply ensures_mono; [apply Hk|]. intros ? e2 Hq. unfold quiet in Hq. rewrite Hq.
    destruct He1 as [He1|(i & He1 & Hi)]; [by left|]. right. exists i. split; [done|]. naive_solver. }
  destruct (matchAssets (pl e) c) as [|first rest] eqn:Hm.
  - apply Hcommit; [intros []; quiet_all|]. intros i Hn Hw Hl. unfold justified. rewrite Hn, Hl.
    split; [intros id Hid; by apply elem_of_nil in Hid|]. split; [|done].
    intros a (j & Hj & _)%rivals_index. rewrite Hm in Hj. by apply elem_of_nil in Hj.
  - set (best := bestOf _ _ _).
    assert (best ∈ matchAssets (pl e) c) as Hbest by (rewrite Hm; apply bestOf_in).
    pose proof Hbest as (b & Hb & _)%matchAssets_rivals.
    assert (rivals (pl e) c b) as Hriv by (apply rivals_index; eauto).
    rewrite <-Hm. unfold winsOver, idAt. rewrite Hb. destruct (IsUpgrade (quality c) (quality b)) eqn:Hup.
    + apply Hcommit; [intros []; quiet_all|]. intros i Hn Hw Hl. unfold justified. rewrite Hn, Hl.
      split; [|split; [|by eauto]].
      * intros id (j & a & Hj & Ha & <-)%assetIDsAt_elem. exists a. split; [|done].
        apply rivals_index. eauto.
      * intros a (j & Hj & Ha)%rivals_index. apply assetIDsAt_elem. eauto.
    + apply Hcommit; [intros []; quiet_all|]. intros i Hn Hw Hl. unfold justified. rewrite Hn, Hl, Hw.
      split; [|split; [by eauto|]].
      * intros id (j & a & Hj & Ha & <-)%assetIDsAt_elem. exists a. split; [|done].
        apply rivals_index. exists j. split; [|done]. case_match; [by apply elem_of_nil in Hj|].
        by apply list_elem_of_filter in Hj as [_ Hj].
      * destruct (preserveIncumbentsOnLoss (cfg (pl e))); [done|]. split.
        -- intros a (j & Hj & Ha)%rivals_index. destruct (decide (j = best)) as [->|Hne]; [left; congruence|].
           right. apply assetIDsAt_elem. exists j, a. split; [|done]. by apply list_elem_of_filter.
        -- intros Hnd (j & a & [Hne _]%list_elem_of_filter & Ha & Hid)%assetIDsAt_elem. apply Hne.
           apply (NoDup_lookup (assetID <$> assets (pl e)) j best (assetID b)); [done|..];
             rewrite list_lookup_fmap; [rewrite Ha|rewrite Hb]; cbn; congruence.
Qed.
End placements.

End pool.
