(* ===== verification/Clips.v ===== *)
(** A concrete event: three candidates, two of them with the same bytes, one whose
    download fails, and a search that ends.  The theorems about the consumer are
    applied to it. *)
From S2P Require Import Prelude GoStrings Event Vision Video Selection Jsonb Discovery Wire Flow Pipeline Drain Custody Pool.
From Stdlib Require Import SpecFloat.
#[local] Open Scope string_scope.
#[local] Open Scope list_scope.
#[local] Open Scope Z_scope.
Import discoverycontract video wire flow pipeline.

Module clips.

Definition goal : EventWorkflowInput := mkEventWorkflowInput 4 77 "Player" "Team" 9 12 None 0.

(** The current version. *)
Definition policy : pipelineConfig :=
  mkPipelineConfig 10 3 1 0 0 0 true true true true true true true true true true true true true
    true true.

Definition candidate (url : string) : CandidateEvidence :=
  mkCandidateEvidence 4 77 1 "query" url "goal" "" float_0 "user" float_0.

Definition urls : list string := ["a"; "b"; "c"].

Definition downloaded (url md5 : string) : DownloadAndStageOutput :=
  mkDownloadAndStageOutput OutcomePassed "" md5 ("media-v1:" +:+ md5) ("staging/" +:+ url)
    1280 720 9000 0 float_0 1000.

Definition stored : RestoredEventAsset :=
  mkRestoredEventAsset (Some 7%positive) "m1" "media-v1:m1" "" [1; 2; 3] 1280 720 9000 1000 None None
    2 true.

Definition placed : CommitClipPlacementOutput :=
  mkCommitClipPlacementOutput (Some 7%positive) "s_07" true true true false
    (Some (mkPlacementSelectionOutput (mkLoadEventAssetsOutput [stored] []) [] "")).

Definition proof_ : vision.Evidence :=
  vision.mkEvidence (Some 5%positive) (Some 4%positive) 77 "m1" 1 0 "" "" "" "" None ""
    (vision.mkEvaluationOrigin "" "" "" 1) (vision.mkExpected 12 0) 1 [] 0 []
    (vision.mkEvaluation vision.OutcomeVerified (Some 12) "" 3 0 3 None "" 12 "" []).

Definition verdictOf : ValidateClipOutput :=
  mkValidateClipOutput "" vision.OutcomeVerified (Some 12) "" 3 0 None "" 0 "" None None (Some proof_).

(** The service: a download of "c" times out, everything else works. *)
Definition answerOf (h : list entry) (c : command) : activityError + response c :=
  match c with
  | CommitClipPlacement _ => inr placed
  | PromoteAndPersist _ => inr (mkPromoteAndPersistOutput None "" "" false false)
  | _ => inr tt
  end.

Definition outcomeOf (h : list entry) (f : future) : result f :=
  match f with
  | downloading url =>
      if (url =? "c")%string then inl [TimeoutError StartToClose] else inr (downloaded url "m1")
  | childVideo _ => inl []
  | hashing_ _ => inr (mkHashVideoOutput OutcomePassed "" "" [1; 2; 3])
  | validating _ => inr verdictOf
  end.

Definition service : schedule :=
  mkSchedule answerOf outcomeOf (λ h, if (length h mod 3 =? 0)%nat then None else Some (length h))
    (λ h, (length h mod 2)%nat).

#[local] Instance platform : Platform := {
  text := λ _, "id";
  sha1 := λ s, Pos.of_succ_nat (String.length s);
  runID := "run";
  rangeHashing := map_to_list;
  rangeCandidates := map_to_list;
  world := service }.

#[local] Instance platform_laws : PlatformLaws.
Proof. by split. Qed.

Lemma service_uncanceled : custody.uncanceled.
Proof. by intros h i err. Qed.

Definition start : env :=
  mkEnv (restoreAssets [] [] (newPipeline goal policy))
    ((spawn <$> (candidate <$> urls)) ++ [searchFinished None]) [].

Definition finish : option (option pipelineError) * env := run (S (drain.total start)) start.

(** All three results are stored: "a" placed with its follower, "c" failed. *)
Example all_settled :
  (finish.1, custody.reported (history finish.2), (nVerified (pl finish.2), nDuplicates (pl finish.2), nFailed (pl finish.2)))
  = (Some None, ["c"; "b"; "a"], (1, 1, 1)).
Proof. vm_compute. reflexivity. Qed.


(** A download is running, a clip waits for its hash. *)
Definition busy : env :=
  mkEnv ((pl start) <| selector := [downloading "a"; hashing_ "k"] |> <| inFlight := 2 |>
    <| hashing := {["k" := mkHashClaim (restoredClip stored) []]} |>)
    [spawn (candidate "b"); searchFinished None] [].

Lemma consumer_terminates_witness : is_Some (run (S (drain.total busy)) busy).1.
Proof.
  apply (drain.consumer_terminates busy).
  - reflexivity.
  - left. exists None. right. left.
  - apply Nat.lt_succ_diag_r.
Defined.

(** The event is removed while the first callback waits. *)
Definition removal : list event := [spawn (candidate "c"); spawn (candidate "a"); cancel].
Definition removed : list entry := history (run 30 (mkEnv (pl start) removal [])).2.

Lemma removed_shape :
  history (run 30 (mkEnv (pl start) removal [])).2 = take 1 removed ++ Canceled :: drop 2 removed.
Proof. vm_compute. reflexivity. Qed.

Lemma canceled_is_silent_witness : Forall (λ x, drain.isStart x = false) (take 1 removed).
Proof. exact (drain.canceled_is_silent 30 (pl start) removal (take 1 removed) (drop 2 removed) removed_shape). Defined.

Lemma replaceSelection_adopts_witness :
  let p := (pl start) <| assets := [restoredClip stored] |> in
  match replaceSelection (mkPlacementSelectionOutput (mkLoadEventAssetsOutput [stored] []) [] "") None p with
  | inl _ => ¬ pool.validSelection [stored] []
  | inr p' =>
      pool.validSelection [stored] [] ∧ assets p' ≡ₚ restoredClip <$> [stored] ∧
      filter (λ id, id ∈ raAssetID <$> [stored]) (assetID <$> assets p) `prefix_of` (assetID <$> assets p') ∧
      pool.rooted (assetID <$> assets p') p'
  end.
Proof.
  exact (pool.replaceSelection_adopts (mkPlacementSelectionOutput (mkLoadEventAssetsOutput [stored] []) [] "")
    None ((pl start) <| assets := [restoredClip stored] |>) (NoDup_singleton _)).
Defined.

End clips.
