(* ===== verification/Producer.v ===== *)
(** internal/workflow/event.go, the producer of the event workflow: the search loop
    of one event, with its two budgets (usable attempts and unavailable probes), the
    search window, the checkpoints of its progress, and the candidates it hands to
    the consumer (Pipeline.v); and the activity SearchTweets
    (internal/activity/discovery/activities.go).

    The producer waits for one activity at a time; a [Service] answers them, and may
    depend on everything that happened before.  Spawning a candidate is an event for
    the consumer, so the producer only lists them.  Measurements and log lines are
    left out. *)
From S2P Require Import Prelude GoStrings Event Discovery Search Query Wire Flow Pipeline.
From Stdlib Require Import SpecFloat.
#[local] Open Scope string_scope.
#[local] Open Scope list_scope.
#[local] Open Scope Z_scope.
Import discoverycontract twittersearch discoveryactivity wire flow.
Import pipeline(pipelineError, activityFailed, observationFailed).

Module producer.

(** ** The activity SearchTweets and the errors it returns *)

(** What the HTTP client returns instead of a response: a SearchError with the state
    and the evidence of the page, or something else. *)
Inductive clientError :=
  | SearchError (state : ResultState) (evidence : SearchEvidence)
  | otherError (err : activityError).

Definition searchRequest (i : SearchTweetsInput) : SearchRequest :=
  mkSearchRequest i.(stQuery) i.(stExcludeURLs)
    (if (i.(stMaxAgeMinutes) =? 0) && is_nil i.(stWindow) then fallbackMaxAgeMinutes
     else i.(stMaxAgeMinutes)) i.(stWindow).

Definition classifiedError (state : ResultState) (evidence : SearchEvidence) : activityError :=
  [ApplicationError SearchUnavailableErrorType
     (Some (detailsSearch (mkSearchTweetsOutput [] 0 state evidence "" 0 0 0 0)));
   plainError].

(** [client] is the wired twitter client, if there is one. *)
Definition SearchTweets (client : option (string → SearchRequest → clientError + SearchResponse))
    (i : SearchTweetsInput) : activityError + SearchTweetsOutput :=
  match client with
  | None => inl [plainError]
  | Some search =>
      if (i.(stQuery) =? "")%string then inl [plainError]
      else
        let req := searchRequest i in
        if negb (SearchRequest_ValidateWindow req) then inl [plainError]
        else
          match search i.(stInstanceAddr) req with
          | inl (SearchError state evidence) =>
              if ResultState_Known state then inl (classifiedError state evidence)
              else inl [plainError]
          | inl (otherError err) => inl (plainError :: err)
          | inr resp =>
              inr (mkSearchTweetsOutput resp.(rsVideos) resp.(rsCount) resp.(rsResultState)
                resp.(rsEvidence) resp.(rsStopReason) resp.(rsScrolls) resp.(rsInitialArticles)
                resp.(rsTweetsParsed) resp.(rsVideoTweets))
          end
  end.

Definition classifiedSearchFailure (err : activityError) : option SearchTweetsOutput :=
  match asApplication err with
  | Some (type, Some (detailsSearch out)) =>
      if (type =? SearchUnavailableErrorType)%string && ResultState_Known out.(soResultState)
      then Some out else None
  | _ => None
  end.

(** ** The state of the producer *)

Record EventWorkflowOutput := mkEventWorkflowOutput {
  woEventID : UUID;
  woCompleted : bool;
  woAttemptsRun : Z;
  woCandidatesFound : Z;
  woAssetsKept : Z;
  woOutcomeClass : string;
  woUnavailableAttempts : Z;
  woSearchOutageExhausted : bool;
  woLastSearchState : ResultState }.

#[global] Instance eta_EventWorkflowOutput : Eta EventWorkflowOutput := λ o,
  mkEventWorkflowOutput o.(woEventID) o.(woCompleted) o.(woAttemptsRun) o.(woCandidatesFound)
    o.(woAssetsKept) o.(woOutcomeClass) o.(woUnavailableAttempts) o.(woSearchOutageExhausted)
    o.(woLastSearchState).

(** What happened, the latest first. *)
Inductive probe :=
  | Searched (i : SearchTweetsInput) (r : activityError + SearchTweetsOutput)
  | Spawned (e : CandidateEvidence)
  | Stored (e : CandidateEvidence) (r : activityError + StoreCandidateOutput)
  | Checkpointed (i : RecordDiscoveryProgressInput) (r : activityError + unit)
  | Slept (r : activityError + unit).

(** The candidates handed to the consumer, the latest first. *)
Definition spawnedIn (x : probe) : list CandidateEvidence :=
  match x with Spawned e => [e] | _ => [] end.
Definition spawned (h : list probe) : list CandidateEvidence := h ≫= spawnedIn.

Record search := mkSearch {
  output : EventWorkflowOutput;
  seenTweetIDs : gset string;
  excludeURLs : list string;
  searchWindow : option SearchWindow;
  attempt : Z;
  unavailableAttempts : Z;
  trail : list probe }.

#[global] Instance eta_search : Eta search := λ s,
  mkSearch s.(output) s.(seenTweetIDs) s.(excludeURLs) s.(searchWindow) s.(attempt)
    s.(unavailableAttempts) s.(trail).

(** What the loop reads and never writes: its input, the configuration, the query,
    the instance, the identifier of the workflow, and the version flags of its
    history. *)
Record searchConfig := mkSearchConfig {
  input : EventWorkflowInput;
  config : GetDiscoveryConfigOutput;
  query : string;
  instanceAddr : string;
  workflowID : string;
  recoveryEnabled : bool;
  availabilityAware : bool;
  durable : bool }.

(** The answers of the activities. *)
Class Service := {
  searched : list probe → SearchTweetsInput → activityError + SearchTweetsOutput;
  stored : list probe → CandidateEvidence → activityError + StoreCandidateOutput;
  checkpointed : list probe → RecordDiscoveryProgressInput → activityError + unit;
  slept : list probe → activityError + unit }.

Section producer.
Context `{Service} (c : searchConfig).

Abbreviation run_ A := (M search A).
Definition update (f : search → search) : run_ unit := modify f.
Definition happened (x : probe) : run_ unit := modify (λ s, s <| trail ::= cons x |>).

Definition maxUnavailableAttempts : Z :=
  if c.(config).(MaxUnavailableAttempts) <=? 0 then c.(config).(MaxAttempts)
  else c.(config).(MaxUnavailableAttempts).

(** ** One probe *)

Definition searchInput (s : search) : SearchTweetsInput :=
  mkSearchTweetsInput c.(input).(wiEventID) c.(input).(wiFixtureID) c.(query) s.(excludeURLs)
    (if is_nil s.(searchWindow) then c.(config).(MaxAgeMinutes) else 0) s.(searchWindow)
    c.(instanceAddr).

Definition searchTweets : run_ (activityError + SearchTweetsOutput) :=
  i ← gets searchInput;
  r ← gets (λ s, searched (trail s) i);
  happened (Searched i r) ;;
  mret r.

(** What the workflow makes of the answer. *)
Record observation := mkObservation {
  obOutput : SearchTweetsOutput;
  obState : ResultState;
  obUsable : bool }.

Definition observe (r : activityError + SearchTweetsOutput) : observation :=
  if c.(availabilityAware) then
    match r with
    | inl err =>
        let out := default noSearchOutput (classifiedSearchFailure err) in
        if ResultState_Known out.(soResultState) then mkObservation out out.(soResultState) false
        else mkObservation
          (out <| soEvidence ::= λ e, e <| seTimelineFailure := "activity_error" |> |>)
          ResultUnknownTimeout false
    | inr out =>
        if (out.(soResultState) =? "")%string then
          if (out.(soStopReason) =? "feed_timeout")%string
          then mkObservation out ResultUnknownTimeout false
          else mkObservation out ResultRendered true
        else mkObservation out out.(soResultState) (ResultState_Usable out.(soResultState))
    end
  else
    match r with
    | inl _ => mkObservation noSearchOutput noSearchOutput.(soResultState) false
    | inr out => mkObservation out out.(soResultState) true
    end.

Definition nextWindow (o : observation) (w : SearchWindow) : SearchWindow :=
  SearchWindow_After w (if o.(obUsable) then o.(obState) else ResultUnknownTimeout)
    o.(obOutput).(soStopReason).

Definition sleep : run_ (activityError + unit) :=
  r ← gets (λ s, slept (trail s));
  happened (Slept r) ;;
  mret r.

Definition recordProgress (completed unavailable : Z) (state : ResultState)
    (evidence : option SearchEvidence) : run_ (activityError + unit) :=
  i ← gets (λ s, mkRecordDiscoveryProgressInput c.(input).(wiEventID) "discovery" c.(workflowID)
    completed unavailable state evidence s.(searchWindow));
  r ← gets (λ s, checkpointed (trail s) i);
  happened (Checkpointed i r) ;;
  mret r.

(** ** The candidates of one probe *)

Definition evidenceOf (s : search) (v : VideoRef) : CandidateEvidence :=
  mkCandidateEvidence c.(input).(wiEventID) c.(input).(wiFixtureID) s.(attempt) c.(query)
    v.(vrTweetURL) v.(vrTweetText) v.(vrVideoPageURL) v.(vrDurationSeconds) v.(vrUsername)
    v.(vrAgeMinutes).

Definition see (url : string) (s : search) : search :=
  s <| seenTweetIDs ::= union {[url]} |> <| excludeURLs ::= λ l, l ++ [url] |>.

Definition countFound (s : search) : search :=
  s <| output ::= λ o, o <| woCandidatesFound ::= Z.add 1 |> |>.

Definition isNew (s : search) (v : VideoRef) : bool :=
  negb (v.(vrTweetURL) =? "")%string && negb (bool_decide (v.(vrTweetURL) ∈ s.(seenTweetIDs))).

Definition spawnCandidate (e : CandidateEvidence) : run_ unit := happened (Spawned e).

Definition storeCandidate (e : CandidateEvidence) : run_ (activityError + StoreCandidateOutput) :=
  r ← gets (λ s, stored (trail s) e);
  happened (Stored e r) ;;
  mret r.

(** Without durable candidates: each new one is stored, then spawned. *)
Fixpoint storeAndSpawn (videos : list VideoRef) : run_ (option pipelineError) :=
  match videos with
  | [] => mret None
  | v :: videos =>
      s ← gets id;
      if negb (isNew s v) then storeAndSpawn videos
      else
        update (see v.(vrTweetURL)) ;;
        let e := evidenceOf s v in
        r ← storeCandidate e;
        match r with
        | inl err =>
            if IsCanceledError err then mret (Some (activityFailed err))
            else spawnCandidate e ;; storeAndSpawn videos
        | inr out =>
            when out.(scInserted) (update countFound) ;;
            spawnCandidate e ;; storeAndSpawn videos
        end
  end.

(** With durable candidates: the new ones are gathered first. *)
Fixpoint gather (videos : list VideoRef) : run_ (list CandidateEvidence) :=
  match videos with
  | [] => mret []
  | v :: videos =>
      s ← gets id;
      if negb (isNew s v) then gather videos
      else
        update (see v.(vrTweetURL)) ;;
        update countFound ;;
        rest ← gather videos;
        mret (evidenceOf s v :: rest)
  end.

(** [inl]: canceled; [inr]: the first other failure. *)
Fixpoint storeObserved (l : list CandidateEvidence) (failed : option pipelineError)
  : run_ (pipelineError + option pipelineError) :=
  match l with
  | [] => mret (inr failed)
  | e :: l =>
      r ← storeCandidate e;
      match r with
      | inl err =>
          if IsCanceledError err then mret (inl (activityFailed err))
          else storeObserved l
            (if is_nil failed then Some (observationFailed e.(ceTweetURL) err) else failed)
      | inr _ => storeObserved l failed
      end
  end.

Definition spawnAndStore (videos : list VideoRef) : run_ (option pipelineError) :=
  l ← gather videos;
  for_ l spawnCandidate ;;
  r ← storeObserved l None;
  mret (match r with inl err => Some err | inr failed => failed end).

Definition takeVideos (videos : list VideoRef) : run_ (option pipelineError) :=
  if c.(durable) then spawnAndStore videos else storeAndSpawn videos.

(** ** The loop *)

(** [None]: the loop goes on; [Some err]: it ended, with the error of the producer. *)
Abbreviation outcome := (option (option pipelineError)).

Definition checkpoint (completed unavailable : Z) (state : ResultState)
    (evidence : option SearchEvidence) (next : run_ outcome) : run_ outcome :=
  if c.(recoveryEnabled) then
    r ← recordProgress completed unavailable state evidence;
    match r with inl err => mret (Some (Some (activityFailed err))) | inr _ => next end
  else next.

Definition pause : run_ outcome :=
  r ← sleep;
  mret (match r with inl err => Some (Some (activityFailed err)) | inr _ => None end).

(** An unavailable probe leaves the attempt where it is. *)
Definition unavailable (o : observation) : run_ outcome :=
  update (λ s, s <| unavailableAttempts ::= Z.add 1 |>) ;;
  update (λ s, s <| output ::= λ w, w <| woUnavailableAttempts := s.(unavailableAttempts) |> |>) ;;
  s ← gets id;
  checkpoint (s.(attempt) - 1) s.(unavailableAttempts) o.(obState) (Some o.(obOutput).(soEvidence))
    (if maxUnavailableAttempts <=? s.(unavailableAttempts) then
       update (λ s, s <| output ::= λ w, w <| woSearchOutageExhausted := true |> |>) ;;
       mret (Some None)
     else pause).

Definition completeAttempt (o : observation) : run_ outcome :=
  s ← gets id;
  let aware := c.(availabilityAware) in
  checkpoint s.(attempt) (if aware then s.(unavailableAttempts) else 0)
    (if aware then o.(obState) else "")
    (if aware then Some o.(obOutput).(soEvidence) else None)
    (update (λ s, s <| output ::= λ w, w <| woAttemptsRun := s.(attempt) |> |>
       <| attempt ::= Z.add 1 |>) ;;
     n ← gets attempt;
     if n <=? c.(config).(MaxAttempts) then pause else mret None).

Definition canceledBy (r : activityError + SearchTweetsOutput) : option activityError :=
  match r with
  | inl err => if IsCanceledError err then Some err else None
  | inr _ => None
  end.

Definition searchTurn : run_ outcome :=
  r ← searchTweets;
  let o := observe r in
  update (λ s, s <| output ::= λ w,
    if c.(availabilityAware) then w <| woLastSearchState := o.(obState) |> else w |>
    <| searchWindow ::= fmap (nextWindow o) |>) ;;
  match canceledBy r with
  | Some err => mret (Some (Some (activityFailed err)))
  | None =>
      if c.(availabilityAware) && negb o.(obUsable) then unavailable o
      else
        match r with
        | inl _ => completeAttempt o
        | inr out =>
            failed ← takeVideos out.(soVideos);
            match failed with
            | Some err => mret (Some (Some err))
            | None => completeAttempt o
            end
        end
  end.

Definition goesOn (s : search) : bool :=
  (s.(attempt) <=? c.(config).(MaxAttempts)) &&
  (negb c.(availabilityAware) || (s.(unavailableAttempts) <? maxUnavailableAttempts)).

(** The outer [None]: out of fuel. *)
Fixpoint searchLoop (fuel : nat) : run_ outcome :=
  match fuel with
  | O => mret None
  | S fuel =>
      s ← gets id;
      if goesOn s then
        r ← searchTurn;
        match r with
        | Some err => mret (Some err)
        | None => searchLoop fuel
        end
      else mret (Some None)
  end.

(** As many probes as both budgets allow. *)
Definition budget (s : search) : nat :=
  Z.to_nat (c.(config).(MaxAttempts) + 1 - s.(attempt)) +
  Z.to_nat (maxUnavailableAttempts - s.(unavailableAttempts)).

End producer.
End producer.
