(* ===== verification/Searching.v ===== *)
(** What the search loop of the event workflow (Producer.v) promises: it ends within
    its two budgets and pauses between probes; the candidates it hands on are new and
    distinct; a checkpoint covers only candidates that are stored; the search window
    never moves and the scan shortcut is earned. *)
From S2P Require Import Prelude GoStrings Event Discovery Search Query Wire Flow Pipeline Producer.
#[local] Open Scope string_scope.
#[local] Open Scope list_scope.
#[local] Open Scope Z_scope.
Import discoverycontract twittersearch discoveryactivity wire flow producer.
Import pipeline(pipelineError, activityFailed, observationFailed).

Module searching.

Ltac step :=
  lazymatch goal with
  | |- ensures (update _) _ _ => apply ensures_modify; cbv beta
  | |- ensures (happened _) _ _ => apply ensures_modify; cbv beta
  | |- ensures (spawnCandidate _) _ _ => apply ensures_modify; cbv beta
  | |- _ => flow_step
  end.

(** ** Reading the trail *)

Definition searchedIn (x : probe) : list SearchTweetsInput :=
  match x with Searched i _ => [i] | _ => [] end.
Definition searches (h : list probe) : list SearchTweetsInput := h ≫= searchedIn.

Definition storedOK (x : probe) : list CandidateEvidence :=
  match x with Stored e (inr _) => [e] | _ => [] end.

(** The entries of one batch of candidates. *)
Definition ofCandidates (x : probe) : bool :=
  match x with Spawned _ | Stored _ _ => true | _ => false end.
Definition ofProgress (x : probe) : bool :=
  match x with Checkpointed _ _ | Slept _ => true | _ => false end.

Lemma spawned_app h k : spawned (h ++ k) = spawned h ++ spawned k.
Proof. apply bind_app. Qed.

Lemma searches_app h k : searches (h ++ k) = searches h ++ searches k.
Proof. apply bind_app. Qed.

Lemma quiet_spawned h : Forall (λ x, ofProgress x = true) h → spawned h = [] ∧ searches h = [].
Proof.
  induction 1 as [|x h Hx _ [IH1 IH2]]; [done|]. unfold spawned, searches in *.
  rewrite !bind_cons, IH1, IH2. by destruct x.
Qed.

Lemma candidates_quiet h : Forall (λ x, ofCandidates x = true) h → searches h = [].
Proof.
  induction 1 as [|x h Hx _ IH]; [done|]. unfold searches in *. rewrite bind_cons, IH. by destruct x.
Qed.

Section producer.
Context `{Service} (c : searchConfig).

(** ** One batch of candidates *)

(** What the batch leaves alone. *)
Definition apart (s s' : search) : Prop :=
  attempt s' = attempt s ∧ unavailableAttempts s' = unavailableAttempts s ∧
  searchWindow s' = searchWindow s.

Record gathered (videos : list VideoRef) (s : search) (l : list CandidateEvidence) (s' : search)
  : Prop := {
  g_trail : trail s' = trail s;
  g_apart : apart s s';
  g_new : Forall (λ u, u ≠ "" ∧ u ∉ seenTweetIDs s ∧ u ∈ vrTweetURL <$> videos) (ceTweetURL <$> l);
  g_once : NoDup (ceTweetURL <$> l);
  g_seen : seenTweetIDs s' = seenTweetIDs s ∪ list_to_set (ceTweetURL <$> l);
  g_all : Forall (λ v, v.(vrTweetURL) = "" ∨ v.(vrTweetURL) ∈ seenTweetIDs s') videos;
  g_exclude : excludeURLs s' = excludeURLs s ++ (ceTweetURL <$> l);
  g_attempt : Forall (λ e, e.(ceSearchAttempt) = attempt s) l }.

Lemma isNew_spec s v :
  isNew s v = true ↔ vrTweetURL v ≠ "" ∧ vrTweetURL v ∉ seenTweetIDs s.
Proof.
  unfold isNew. rewrite andb_true_iff, !negb_true_iff, String.eqb_neq, bool_decide_eq_false. done.
Qed.

Lemma gather_spec videos s : ensures (gather c videos) s (gathered videos s).
Proof.
  revert s. induction videos as [|v videos IH]; intros s; cbn [gather].
  { step. split; try done; cbn; [constructor|set_solver|by rewrite app_nil_r]. }
  do 2 step. cbv [id]. step; [apply negb_true_iff in Hif|apply negb_false_iff, isNew_spec in Hif as [Hne Hnew]].
  - eapply ensures_mono; [apply IH|]. intros l s' []. split; try done.
    + eapply Forall_impl; [exact g_new0|]. cbn. intros u (?&?&?). split_and!; [done..|set_solver].
    + constructor; [|done]. rewrite <-not_true_iff_false, isNew_spec in Hif.
      destruct (decide (vrTweetURL v = "")); [by left|]. right. rewrite g_seen0.
      destruct (decide (vrTweetURL v ∈ seenTweetIDs s)); [set_solver|tauto].
  - do 5 step. eapply ensures_mono; [apply IH|]. intros l s' []. cbn in *. step. split; cbn; try done.
    + constructor; [split_and!; [done..|set_solver]|]. eapply Forall_impl; [exact g_new0|].
      cbn. intros u (?&?&?). split_and!; [done|set_solver..].
    + constructor; [|done]. intros Hin. rewrite Forall_forall in g_new0.
      destruct (g_new0 _ Hin) as (_ & Hn & _). set_solver.
    + rewrite g_seen0. set_solver.
    + constructor; [|done]. right. rewrite g_seen0. set_solver.
    + rewrite g_exclude0. by rewrite <-app_assoc.
    + by constructor.
Qed.

Record batch (videos : list VideoRef) (s : search) (failed : option pipelineError) (s' : search)
    (body : list probe) : Prop := {
  b_trail : trail s' = body ++ trail s;
  b_kind : Forall (λ x, ofCandidates x = true) body;
  b_apart : apart s s';
  b_new : Forall (λ u, u ≠ "" ∧ u ∉ seenTweetIDs s ∧ u ∈ vrTweetURL <$> videos)
    (ceTweetURL <$> spawned body);
  b_once : NoDup (ceTweetURL <$> spawned body);
  b_grows : seenTweetIDs s ⊆ seenTweetIDs s';
  b_seen : Forall (λ u, u ∈ seenTweetIDs s') (ceTweetURL <$> spawned body);
  b_exclude : ∃ l, excludeURLs s' = excludeURLs s ++ l ∧ ∀ u, u ∈ seenTweetIDs s' ↔ u ∈ seenTweetIDs s ∨ u ∈ l;
  b_attempt : Forall (λ e, e.(ceSearchAttempt) = attempt s) (spawned body);
  b_stored : durable c = true → failed = None → ∀ e, e ∈ spawned body → e ∈ body ≫= storedOK;
  b_handed : durable c = true →
    ∀ u, u ∈ seenTweetIDs s' → u ∈ seenTweetIDs s ∨ u ∈ ceTweetURL <$> spawned body;
  b_all : failed = None →
    Forall (λ v, v.(vrTweetURL) = "" ∨ v.(vrTweetURL) ∈ seenTweetIDs s') videos }.

Lemma spawnAll_spec l s :
  ensures (for_ l spawnCandidate) s (λ _ s', s' = s <| trail ::= app (reverse (Spawned <$> l)) |>).
Proof.
  revert s. induction l as [|e l IH]; intros s; cbn [for_]; [by step; destruct s|].
  do 2 step. eapply ensures_mono; [apply IH|]. intros _ s' ->. destruct s. cbn. f_equal.
  change (rev_append (Spawned <$> l) [Spawned e]) with (reverse (Spawned e :: (Spawned <$> l))).
  by rewrite reverse_cons, <-app_assoc.
Qed.

Lemma spawned_all l : spawned (reverse (Spawned <$> l)) ≡ₚ l.
Proof.
  unfold spawned. rewrite reverse_Permutation. induction l as [|e l IH]; [done|]. cbn.
  by rewrite IH.
Qed.

Lemma storeObserved_spec l failed s :
  ensures (storeObserved l failed) s (λ r s', ∃ k, s' = s <| trail ::= app k |> ∧
    Forall (λ x, ofCandidates x = true) k ∧ spawned k = [] ∧
    (r = inr None → failed = None ∧ ∀ e, e ∈ l → e ∈ k ≫= storedOK)).
Proof.
  revert failed s. induction l as [|e l IH]; intros failed s; cbn [storeObserved].
  { step. exists []. split_and!; [by destruct s|done|done|]. intros [= ->]. split; [done|set_solver]. }
  step. unfold storeCandidate. do 5 step.
  destruct (stored _ _) as [err|out] eqn:Hr.
  - step.
    { step. exists [Stored e (inl err)]. split_and!; [done|by constructor|done|done]. }
    eapply ensures_mono; [apply IH|]. intros r s' (k & -> & Hk & Hs & Hall).
    exists (k ++ [Stored e (inl err)]). split_and!.
    + destruct s. cbn. by rewrite <-app_assoc.
    + apply Forall_app. split; [done|by constructor].
    + by rewrite spawned_app, Hs.
    + intros Hn. destruct (Hall Hn) as [Hf _]. by destruct failed.
  - eapply ensures_mono; [apply IH|]. intros r s' (k & -> & Hk & Hs & Hall).
    exists (k ++ [Stored e (inr out)]). split_and!.
    + destruct s. cbn. by rewrite <-app_assoc.
    + apply Forall_app. split; [done|by constructor].
    + by rewrite spawned_app, Hs.
    + intros Hn. destruct (Hall Hn) as [Hf Hl]. split; [done|]. intros e' He'.
      rewrite bind_app. apply elem_of_app. apply elem_of_cons in He' as [->|He'];
        [by right; apply elem_of_cons; left|left; auto].
Qed.

Lemma spawnAndStore_spec videos s :
  durable c = true →
  ensures (spawnAndStore c videos) s (λ failed s', ∃ body, batch videos s failed s' body).
Proof.
  intros Hd. unfold spawnAndStore. step. eapply ensures_mono; [apply gather_spec|].
  intros l s1 []. step. eapply ensures_mono; [apply spawnAll_spec|]. intros _ s2 ->.
  step. eapply ensures_mono; [apply storeObserved_spec|].
  intros r s' (k & -> & Hk & Hs & Hall). step.
  assert (spawned (k ++ reverse (Spawned <$> l)) ≡ₚ l) as Hl
    by (rewrite spawned_app, Hs; apply spawned_all).
  exists (k ++ reverse (Spawned <$> l)). split; cbn; try done.
  - rewrite g_trail0. by rewrite app_assoc.
  - apply Forall_app. split; [done|]. apply Forall_reverse, Forall_fmap, Forall_forall. done.
  - by rewrite Hl.
  - by rewrite Hl.
  - set_solver.
  - rewrite Hl, g_seen0. apply Forall_forall. set_solver.
  - exists (ceTweetURL <$> l). split; [done|]. intros u. rewrite g_seen0. set_solver.
  - by rewrite Hl.
  - intros _ Hf e. rewrite Hl, bind_app. intros He. destruct r as [|failed]; [done|]. subst failed.
    destruct (Hall eq_refl) as [_ Hst]. set_solver.
  - intros _ u. rewrite Hl, g_seen0. set_solver.
Qed.

(** A candidate that is stored and spawned on its own, with its entry [x]. *)
Lemma batch_cons v videos s s' s1 failed body x :
  vrTweetURL v ≠ "" → vrTweetURL v ∉ seenTweetIDs s →
  durable c = false → ofCandidates x = true → spawnedIn x = [] →
  s1 = see (vrTweetURL v) s <| output := output s1 |>
    <| trail ::= app [Spawned (evidenceOf c s v); x] |> →
  batch videos s1 failed s' body →
  batch (v :: videos) s failed s' (body ++ [Spawned (evidenceOf c s v); x]).
Proof.
  intros Hne Hnew Hd Hx Hs Hs1 []. rewrite Hs1 in *. cbn in *.
  assert (spawned (body ++ [Spawned (evidenceOf c s v); x]) = spawned body ++ [evidenceOf c s v]) as Hsp.
  { rewrite spawned_app. unfold spawned at 2. cbn. by rewrite Hs. }
  split; rewrite ?Hsp, ?fmap_app; cbn; try done.
  - rewrite b_trail0. by rewrite <-app_assoc.
  - apply Forall_app. split; [done|by repeat constructor].
  - apply Forall_app. split; [|apply Forall_singleton; split_and!; [done..|set_solver]].
    eapply Forall_impl; [exact b_new0|]. cbn. intros u (?&?&?). split_and!; [done|set_solver..].
  - apply NoDup_app. split; [done|]. split; [|apply NoDup_singleton].
    intros u Hu ->%list_elem_of_singleton. rewrite Forall_forall in b_new0.
    destruct (b_new0 _ Hu) as (_ & Hn & _). set_solver.
  - set_solver.
  - apply Forall_app. split; [done|]. apply Forall_singleton. set_solver.
  - destruct b_exclude0 as (l & -> & Hl). exists (vrTweetURL v :: l). split; [by rewrite <-app_assoc|].
    intros u. rewrite Hl, elem_of_cons. set_solver.
  - apply Forall_app. split; [done|by apply Forall_singleton].
  - by rewrite Hd.
  - by rewrite Hd.
  - intros Hf. constructor; [right; set_solver|auto].
Qed.

Lemma batch_skip v videos s s' failed body :
  isNew s v = false → batch videos s failed s' body → batch (v :: videos) s failed s' body.
Proof.
  intros Hnew []. split; try done.
  - eapply Forall_impl; [exact b_new0|]. cbn. intros u (?&?&?). split_and!; [done..|set_solver].
  - intros Hf. constructor; [|auto]. rewrite <-not_true_iff_false, isNew_spec in Hnew.
    destruct (decide (vrTweetURL v = "")); [by left|]. right. apply b_grows0.
    destruct (decide (vrTweetURL v ∈ seenTweetIDs s)); [done|tauto].
Qed.

Lemma batch_nil s : batch [] s None s [].
Proof.
  split; try done; cbn; [apply NoDup_nil_2| |by left]. exists []. rewrite app_nil_r. set_solver.
Qed.

Lemma batch_canceled v videos s err fail :
  durable c = false →
  batch (v :: videos) s (Some fail)
    (see (vrTweetURL v) s <| trail ::= cons (Stored (evidenceOf c s v) (inl err)) |>)
    [Stored (evidenceOf c s v) (inl err)].
Proof.
  intros Hd. split; cbn; try done; try (by repeat constructor); [set_solver| |by rewrite Hd..].
  exists [vrTweetURL v]. set_solver.
Qed.

Lemma storeAndSpawn_spec videos s :
  durable c = false →
  ensures (storeAndSpawn c videos) s (λ failed s', ∃ body, batch videos s failed s' body).
Proof.
  intros Hd. revert s. induction videos as [|v videos IH]; intros s; cbn [storeAndSpawn].
  { step. exists []. apply batch_nil. }
  do 2 step. cbv [id]. step; [apply negb_true_iff in Hif|apply negb_false_iff, isNew_spec in Hif as [Hne Hnew]].
  { eapply ensures_mono; [apply IH|]. intros failed s' [body Hb]. exists body. by apply batch_skip. }
  do 2 step. cbv zeta. step. unfold storeCandidate. do 5 step.
  destruct (stored _ _) as [err|out] eqn:Hr.
  - step.
    { step. eexists. exact (batch_canceled v videos s err _ Hd). }
    do 2 step. eapply ensures_mono; [apply IH|]. intros failed s' [body Hb].
    exists (body ++ [Spawned (evidenceOf c s v); Stored (evidenceOf c s v) (inl err)]).
    eapply batch_cons; [done|done|done|done|done| |exact Hb]. by destruct s.
  - step. apply ensures_when; intros Hins; repeat step;
      (eapply ensures_mono; [apply IH|]); intros failed s' [body Hb];
      exists (body ++ [Spawned (evidenceOf c s v); Stored (evidenceOf c s v) (inr out)]);
      (eapply batch_cons; [done|done|done|done|done| |exact Hb]); by destruct s.
Qed.

Lemma takeVideos_spec videos s :
  ensures (takeVideos c videos) s (λ failed s', ∃ body, batch videos s failed s' body).
Proof.
  unfold takeVideos. destruct (durable c) eqn:Hd; [by apply spawnAndStore_spec|].
  by apply storeAndSpawn_spec.
Qed.

(** ** One probe *)

Abbreviation answer s := (searched (trail s) (searchInput c s)).
Abbreviation seenBy s := (observe c (answer s)).

(** A checkpoint of this turn: either the attempt is complete - then, with durable
    candidates, all of the candidates it found are stored - or one more probe was
    unavailable, and found none. *)
Definition checkpointOK (s s' : search) (body : list probe) (i : RecordDiscoveryProgressInput) : Prop :=
  rpWindow i = searchWindow s' ∧
  ((rpAttempt i = attempt s ∧
    rpUnavailableAttempts i = (if availabilityAware c then unavailableAttempts s else 0) ∧
    (availabilityAware c = true → obUsable (seenBy s) = true) ∧
    (durable c = true → ∀ e, e ∈ spawned body → e ∈ body ≫= storedOK)) ∨
   (rpAttempt i = attempt s - 1 ∧ rpUnavailableAttempts i = unavailableAttempts s + 1 ∧ body = [] ∧
    availabilityAware c = true ∧ obUsable (seenBy s) = false)).

Record turned (s : search) (body tail : list probe) (res : option (option pipelineError))
    (s' : search) : Prop := {
  t_trail : trail s' = tail ++ body ++ Searched (searchInput c s) (answer s) :: trail s;
  t_kind : Forall (λ x, ofCandidates x = true) body;
  t_after : Forall (λ x, ofProgress x = true) tail;
  t_window : searchWindow s' = nextWindow (seenBy s) <$> searchWindow s;
  t_new : Forall (λ u, u ≠ "" ∧ u ∉ seenTweetIDs s) (ceTweetURL <$> spawned body);
  t_found : ∀ e, e ∈ spawned body → ∃ out, answer s = inr out ∧
    e.(ceTweetURL) ∈ vrTweetURL <$> soVideos out ∧ (availabilityAware c = true → obUsable (seenBy s) = true);
  t_once : NoDup (ceTweetURL <$> spawned body);
  t_grows : seenTweetIDs s ⊆ seenTweetIDs s';
  t_seen : Forall (λ u, u ∈ seenTweetIDs s') (ceTweetURL <$> spawned body);
  t_exclude : ∃ l, excludeURLs s' = excludeURLs s ++ l ∧
    ∀ u, u ∈ seenTweetIDs s' ↔ u ∈ seenTweetIDs s ∨ u ∈ l;
  t_attempt : Forall (λ e, e.(ceSearchAttempt) = attempt s) (spawned body);
  t_handed : durable c = true → ∀ u, u ∈ seenTweetIDs s' →
    u ∈ seenTweetIDs s ∨ u ∈ ceTweetURL <$> spawned body;
  t_progress :
    (attempt s' = attempt s + 1 ∧ unavailableAttempts s' = unavailableAttempts s ∧
     (availabilityAware c = true → obUsable (seenBy s) = true)) ∨
    (attempt s' = attempt s ∧ unavailableAttempts s' = unavailableAttempts s + 1 ∧
     availabilityAware c = true ∧ obUsable (seenBy s) = false) ∨
    (attempt s' = attempt s ∧ unavailableAttempts s' = unavailableAttempts s ∧
     ∃ err, res = Some (Some err));
  t_stored : durable c = true → res = None → ∀ e, e ∈ spawned body → e ∈ body ≫= storedOK;
  t_pause : res = None → (∃ q t, tail = Slept q :: t) ∨ attempt s' > MaxAttempts (config c);
  t_checkpoint : ∀ k i q h, tail = k ++ Checkpointed i q :: h → h = [] ∧ checkpointOK s s' body i }.

(** The state after the answer was read. *)
Definition probed (s : search) : search :=
  s <| trail ::= cons (Searched (searchInput c s) (answer s)) |>
    <| output ::= λ w,
       if availabilityAware c then w <| woLastSearchState := obState (seenBy s) |> else w |>
    <| searchWindow ::= fmap (nextWindow (seenBy s)) |>.

(** What is left of a turn: the checkpoint and the pause. *)
Record settled (s1 : search) (tail : list probe) (s' : search) : Prop := {
  s_trail : trail s' = tail ++ trail s1;
  s_after : Forall (λ x, ofProgress x = true) tail;
  s_window : searchWindow s' = searchWindow s1;
  s_seen : seenTweetIDs s' = seenTweetIDs s1;
  s_exclude : excludeURLs s' = excludeURLs s1 }.

Lemma sleep_spec s :
  ensures sleep s (λ r s', s' = s <| trail ::= cons (Slept r) |>).
Proof. unfold sleep. by repeat step. Qed.

Lemma recordProgress_spec n m state evidence s :
  ensures (recordProgress c n m state evidence) s (λ r s',
    ∃ i, s' = s <| trail ::= cons (Checkpointed i r) |> ∧ rpAttempt i = n ∧
      rpUnavailableAttempts i = m ∧ rpWindow i = searchWindow s).
Proof. unfold recordProgress. repeat step. by eexists. Qed.

Lemma pause_spec s :
  ensures pause s (λ res s', ∃ r, s' = s <| trail ::= cons (Slept r) |>).
Proof.
  unfold pause. step. eapply ensures_mono; [apply sleep_spec|]. intros r s' ->. step. by exists r.
Qed.

(** A checkpoint of this turn comes first and stores these numbers. *)
Definition marks (s1 : search) (n m : Z) (tail : list probe) : Prop :=
  ∀ k i q h, tail = k ++ Checkpointed i q :: h → h = [] ∧
    rpWindow i = searchWindow s1 ∧ rpAttempt i = n ∧ rpUnavailableAttempts i = m.

(** The two ways a turn ends: one more probe was unavailable, or the attempt is
    complete. *)
Definition stalled (s1 : search) (res : option (option pipelineError)) (s' : search) : Prop :=
  ∃ tail, settled s1 tail s' ∧
    attempt s' = attempt s1 ∧ unavailableAttempts s' = unavailableAttempts s1 + 1 ∧
    (res = None → ∃ q t, tail = Slept q :: t) ∧
    marks s1 (attempt s1 - 1) (unavailableAttempts s1 + 1) tail.

Definition advanced (s1 : search) (res : option (option pipelineError)) (s' : search) : Prop :=
  ∃ tail, settled s1 tail s' ∧
    unavailableAttempts s' = unavailableAttempts s1 ∧
    (attempt s' = attempt s1 + 1 ∨ attempt s' = attempt s1 ∧ ∃ err, res = Some (Some err)) ∧
    (res = None → (∃ q t, tail = Slept q :: t) ∨ attempt s' > MaxAttempts (config c)) ∧
    marks s1 (attempt s1) (if availabilityAware c then unavailableAttempts s1 else 0) tail.

Lemma marks_one s1 n m i r :
  rpWindow i = searchWindow s1 → rpAttempt i = n → rpUnavailableAttempts i = m →
  marks s1 n m [Checkpointed i r].
Proof. intros Hw Hn Hm [|y k] i' q h Heq; simplify_eq/=; [done|by destruct k]. Qed.

Lemma marks_slept s1 n m r tail : marks s1 n m tail → marks s1 n m (Slept r :: tail).
Proof. intros Hm [|y k] i q h Heq; simplify_eq/=. by eapply Hm. Qed.

Lemma marks_nil s1 n m : marks s1 n m [].
Proof. intros [] ? ? ? [=]. Qed.

Lemma settled_one s1 x s' :
  ofProgress x = true → s' = s1 <| trail ::= cons x |> → settled s1 [x] s'.
Proof. intros Hx ->. split; try done. by constructor. Qed.

Lemma settled_slept s1 tail s3 r :
  settled s1 tail s3 → settled s1 (Slept r :: tail) (s3 <| trail ::= cons (Slept r) |>).
Proof. intros []. split; cbn; try done; [by rewrite s_trail0|by constructor]. Qed.

Lemma unavailable_spec o s1 : ensures (unavailable c o) s1 (stalled s1).
Proof.
  unfold unavailable. do 6 step. cbv [id]. set (s2 := _ <| output ::= _ |>).
  assert (settled s1 [] s2) as H2 by by split.
  assert (∀ tail0 s3, settled s1 tail0 s3 → attempt s3 = attempt s1 →
    unavailableAttempts s3 = unavailableAttempts s1 + 1 →
    marks s1 (attempt s1 - 1) (unavailableAttempts s1 + 1) tail0 →
    ensures (if maxUnavailableAttempts c <=? unavailableAttempts s2 then
       update (λ s, s <| output ::= λ w, w <| woSearchOutageExhausted := true |> |>) ;;
       mret (Some None) else pause) s3 (stalled s1)) as Hend.
  { intros tail0 s3 Hs Ha Hu Hm. step.
    - do 3 step. exists tail0. destruct Hs. by split_and!.
    - eapply ensures_mono; [apply pause_spec|]. intros res s' [r ->]. exists (Slept r :: tail0).
      split_and!; [by apply settled_slept|done|done| |by apply marks_slept]. intros _. by eexists _, _. }
  unfold checkpoint. step; [|apply (Hend []); [done|cbn; lia..|apply marks_nil]].
  step. eapply ensures_mono; [apply recordProgress_spec|]. intros r s3 (i & -> & Hn & Hm & Hw).
  assert (marks s1 (attempt s1 - 1) (unavailableAttempts s1 + 1) [Checkpointed i r]) as Hone.
  { apply marks_one; [done|done|]. cbn in Hm. lia. }
  assert (settled s1 [Checkpointed i r] (s2 <| trail ::= cons (Checkpointed i r) |>)) as H3.
  { split; cbn; try done. by constructor. }
  destruct r as [err|u]; [|apply (Hend [Checkpointed i (inr u)]); [done|cbn; lia..|done]].
  step. exists [Checkpointed i (inl err)]. split_and!; [done|cbn; lia..|done|done].
Qed.

Lemma completeAttempt_spec o s1 : ensures (completeAttempt c o) s1 (advanced s1).
Proof.
  unfold completeAttempt. do 2 step. cbv [id]. cbv zeta.
  assert (∀ tail0 s3, settled s1 tail0 s3 →
    attempt s3 = attempt s1 → unavailableAttempts s3 = unavailableAttempts s1 →
    marks s1 (attempt s1) (if availabilityAware c then unavailableAttempts s1 else 0) tail0 →
    ensures (update (λ s, s <| output ::= λ w, w <| woAttemptsRun := s.(attempt) |> |>
       <| attempt ::= Z.add 1 |>) ;;
       n ← gets attempt;
       if n <=? MaxAttempts (config c) then pause else mret None) s3 (advanced s1)) as Hend.
  { intros tail0 s3 Hs Ha Hu Hm. do 4 step.
    set (s4 := _ <| attempt ::= _ |>). assert (settled s1 tail0 s4) as H4 by by destruct Hs.
    step.
    - eapply ensures_mono; [apply pause_spec|]. intros res s' [r ->]. exists (Slept r :: tail0).
      split_and!; [by apply settled_slept|done|left; cbn; lia| |by apply marks_slept].
      intros _. left. by eexists _, _.
    - step. exists tail0. split_and!; [done|done|left; cbn; lia|intros _; right; cbn in *; lia|done]. }
  unfold checkpoint. step; [|apply (Hend []); [by split|done..|apply marks_nil]].
  step. eapply ensures_mono; [apply recordProgress_spec|]. intros r s3 (i & -> & Hn & Hm & Hw).
  assert (marks s1 (attempt s1) (if availabilityAware c then unavailableAttempts s1 else 0)
    [Checkpointed i r]) as Hone by by apply marks_one.
  assert (settled s1 [Checkpointed i r] (s1 <| trail ::= cons (Checkpointed i r) |>)) as H3
    by by apply settled_one.
  destruct r as [err|u]; [|by apply (Hend [Checkpointed i (inr u)])].
  step. exists [Checkpointed i (inl err)]. split_and!; [done|done| |done|done].
  right. split; [done|by eexists].
Qed.

(** A turn that found candidates, or none ([batch [] ...]). *)
Lemma turn_advanced s videos s1 body res s' :
  batch videos (probed s) None s1 body →
  (videos = [] ∨ ∃ out, answer s = inr out ∧ soVideos out = videos) →
  (availabilityAware c = true → obUsable (seenBy s) = true) →
  advanced s1 res s' → ∃ tail, turned s body tail res s'.
Proof.
  intros [] Hv Hok (tail & [] & Hu & Ha & Hp & Hm). cbn in *.
  destruct b_apart0 as (Ea & Eu & Ew). cbn in Ea, Eu, Ew. rewrite Ea, Eu in *.
  exists tail. split; rewrite ?s_seen0, ?s_exclude0; try done.
  - by rewrite s_trail0, b_trail0.
  - by rewrite s_window0, Ew.
  - eapply Forall_impl; [exact b_new0|]. cbn. tauto.
  - intros e He. rewrite Forall_forall in b_new0.
    destruct (b_new0 (ceTweetURL e)) as (_ & _ & Hin); [by apply list_elem_of_fmap_2|].
    destruct Hv as [->|(out & Ho & <-)]; [by apply elem_of_nil in Hin|by eexists].
  - destruct Ha as [Ha|Ha]; [left; split_and!; [lia|lia|done]|]. right. right. split; [tauto|]. split; [lia|tauto].
  - intros Hd _. by apply b_stored0.
  - intros k i q h Hi. destruct (Hm k i q h Hi) as (-> & Hw & Hn & Hn'). split; [done|].
    split; [by rewrite s_window0|].
    left. split_and!; [done|done|done|]. intros Hd. by apply b_stored0.
Qed.

Lemma turn_stalled s res s' :
  availabilityAware c = true → obUsable (seenBy s) = false →
  stalled (probed s) res s' → ∃ tail, turned s [] tail res s'.
Proof.
  intros Haw Hno (tail & [] & Ha & Hu & Hp & Hm). cbn in *.
  exists tail. split; rewrite ?s_seen0, ?s_exclude0; cbn; try done.
  - intros e []%elem_of_nil.
  - apply NoDup_nil_2.
  - exists []. rewrite app_nil_r. split; [done|]. set_solver.
  - intros _ u Hu'. by left.
  - right. left. by split_and!.
  - intros Hr. left. by apply Hp.
  - intros k i q h Hi. destruct (Hm k i q h Hi) as (-> & Hw & Hn & Hn'). split; [done|].
    split; [by rewrite s_window0|].
    right. by split_and!.
Qed.

Lemma turn_failed s videos failed s1 body :
  batch videos (probed s) (Some failed) s1 body →
  (∃ out, answer s = inr out ∧ soVideos out = videos) →
  (availabilityAware c = true → obUsable (seenBy s) = true) →
  turned s body [] (Some (Some failed)) s1.
Proof.
  intros [] (out & Ho & <-) Hok. cbn in *. destruct b_apart0 as (Ea & Eu & Ew). cbn in Ea, Eu, Ew.
  split; try done.
  - eapply Forall_impl; [exact b_new0|]. cbn. tauto.
  - intros e He. exists out. split_and!; [done| |done]. rewrite Forall_forall in b_new0.
    apply (b_new0 (ceTweetURL e)). by apply list_elem_of_fmap_2.
  - right. right. split_and!; [done|done|by eexists].
  - intros [] ? ? ? [=].
Qed.

Lemma turn_canceled s err : turned s [] [] (Some (Some err)) (probed s).
Proof.
  split; cbn; try done.
  - intros e []%elem_of_nil.
  - apply NoDup_nil_2.
  - exists []. rewrite app_nil_r. split; [done|]. set_solver.
  - intros _ u Hu'. by left.
  - right. right. split_and!; [done|done|by eexists].
  - intros [] ? ? ? [=].
Qed.

(** One turn of the loop. *)
Lemma searchTurn_spec s :
  ensures (searchTurn c) s (λ res s', ∃ body tail, turned s body tail res s').
Proof.
  unfold searchTurn. step. unfold searchTweets. do 5 step. step. cbv zeta. do 3 step.
  match goal with |- ensures ?m _ ?Q => change (ensures m (probed s) Q) end.
  destruct (canceledBy (answer s)) as [err|]; [step; eexists _, _; apply turn_canceled|].
  destruct (availabilityAware c && _) eqn:Hif.
  { apply andb_true_iff in Hif as [Haw Hno%negb_true_iff].
    eapply ensures_mono; [apply unavailable_spec|]. intros res s' Hs. exists [].
    by apply turn_stalled. }
  assert (availabilityAware c = true → obUsable (seenBy s) = true) as Hok.
  { intros Ha. rewrite Ha in Hif. by apply negb_false_iff in Hif. }
  destruct (answer s) as [err|out] eqn:Hans.
  - eapply ensures_mono; [apply completeAttempt_spec|]. intros res s' Hs. exists [].
    apply (turn_advanced s [] (probed s)); [apply batch_nil|by left|by rewrite Hans|done].
  - step. eapply ensures_mono; [apply takeVideos_spec|]. intros [failed|] s1 [body Hb].
    + step. exists body, []. eapply turn_failed; [exact Hb|by eexists|by rewrite Hans].
    + eapply ensures_mono; [apply completeAttempt_spec|]. intros res s' Hs. exists body.
      eapply turn_advanced; [exact Hb|right; by eexists|by rewrite Hans|exact Hs].
Qed.

(** [J] holds before every probe, [Q] when the loop has ended. *)
Lemma searchLoop_keeps (J Q : search → Prop) fuel s :
  J s → (∀ s, J s → Q s) →
  (∀ s body tail s', J s → goesOn c s = true → turned s body tail None s' → J s') →
  (∀ s body tail err s', J s → goesOn c s = true → turned s body tail (Some err) s' → Q s') →
  ensures (searchLoop c fuel) s (λ _ s', Q s').
Proof.
  intros Hs HQ Hgo Hend. revert s Hs. induction fuel as [|fuel IH]; intros s Hs; cbn [searchLoop];
    [step; auto|].
  do 2 step. cbv [id]. step; [|step; auto].
  step. eapply ensures_mono; [apply searchTurn_spec|]. intros res s' (body & tail & Ht).
  destruct res; [step; by eapply Hend|]. apply IH. by eapply Hgo.
Qed.

(** Splitting the trail of a turn at one of its entries. *)
Lemma cut_trail {A} (new old k : list A) x h :
  new ++ old = k ++ x :: h → (∃ k', old = k' ++ x :: h) ∨ (∃ h', h = h' ++ old ∧ new = k ++ x :: h').
Proof.
  revert k. induction new as [|y new IH]; intros k Heq; [left; by exists k|].
  destruct k as [|z k]; simplify_eq/=; [right; by exists new|].
  destruct (IH _ H1) as [Hl|(h' & -> & ->)]; [by left|right]. by exists h'.
Qed.

(** The only search of a turn is its first entry. *)
Lemma cut_search s body tail res s' k i r h :
  turned s body tail res s' → trail s' = k ++ Searched i r :: h →
  (∃ k', trail s = k' ++ Searched i r :: h) ∨
  (i = searchInput c s ∧ r = answer s ∧ h = trail s).
Proof.
  intros [] Htr. rewrite t_trail0 in Htr. rewrite app_assoc in Htr.
  apply cut_trail in Htr as [Hold|(h' & -> & Hnew)].
  - destruct Hold as [[|y k'] Hold]; simplify_eq/=; [by right|left; by exists k'].
  - exfalso. assert (Searched i r ∈ tail ++ body) as Hin by (rewrite Hnew; set_solver).
    rewrite Forall_forall in t_kind0, t_after0.
    apply elem_of_app in Hin as [Hin|Hin]; [by apply t_after0 in Hin|by apply t_kind0 in Hin].
Qed.

(** ** The budgets *)

Lemma turn_budget s body tail s' :
  goesOn c s = true → turned s body tail None s' → (budget c s' < budget c s)%nat.
Proof.
  unfold goesOn, budget. intros [Hm%Z.leb_le Hn]%andb_true_iff [].
  destruct t_progress0 as [(-> & -> & _)|[(-> & -> & Haw & _)|(_ & _ & err & [=])]]; [lia|].
  rewrite Haw in Hn. apply Z.ltb_lt in Hn. lia.
Qed.

Lemma turn_searches s body tail res s' :
  turned s body tail res s' → length (searches (trail s')) = S (length (searches (trail s))).
Proof.
  intros []. rewrite t_trail0, !searches_app, (candidates_quiet body) by done.
  by destruct (quiet_spawned _ t_after0) as [_ ->].
Qed.

Lemma goesOn_budget s : goesOn c s = true → (1 ≤ budget c s)%nat.
Proof. unfold goesOn, budget. intros [Hm%Z.leb_le _]%andb_true_iff. lia. Qed.

Lemma searchLoop_ends fuel s :
  (budget c s < fuel)%nat →
  ensures (searchLoop c fuel) s (λ res s', is_Some res ∧
    (length (searches (trail s')) ≤ length (searches (trail s)) + budget c s)%nat).
Proof.
  revert s. induction fuel as [|fuel IH]; intros s Hf; [lia|]. cbn [searchLoop].
  do 2 step. cbv [id]. step; [|step; split; [done|lia]].
  step. eapply ensures_mono; [apply searchTurn_spec|]. intros res s1 (body & tail & Ht).
  pose proof (turn_searches _ _ _ _ _ Ht) as Hlen. pose proof (goesOn_budget s Hif).
  destruct res as [err|]; [step; split; [done|lia]|].
  pose proof (turn_budget _ _ _ _ Hif Ht). eapply ensures_mono; [apply IH; lia|].
  intros res s' [? ?]. split; [done|lia].
Qed.

(** No search since the last pause. *)
Fixpoint paused (h : list probe) : bool :=
  match h with
  | [] | Slept _ :: _ => true
  | Searched _ _ :: _ => false
  | _ :: h => paused h
  end.

Definition spaced (h : list probe) : Prop := ∀ k i r h', h = k ++ Searched i r :: h' → paused h' = true.

Lemma searchLoop_spaced fuel s :
  trail s = [] → ensures (searchLoop c fuel) s (λ _ s', spaced (trail s')).
Proof.
  intros Hs. apply (searchLoop_keeps (λ s, spaced (trail s) ∧ (goesOn c s = true → paused (trail s) = true))).
  - rewrite Hs. split; [|done]. by intros [].
  - by intros s' [? _].
  - intros s0 body tail s' [Hsp Hp] Hg Ht. split.
    + intros k i r h Htr. destruct (cut_search _ _ _ _ _ _ _ _ _ Ht Htr) as [[k' Ho]|(_&_&->)];
        [by eapply Hsp|auto].
    + intros Hg'. destruct Ht. destruct (t_pause0 eq_refl) as [(q & t & ->)|Hm].
      * by rewrite t_trail0.
      * apply andb_true_iff in Hg' as [?%Z.leb_le _]. lia.
  - intros s0 body tail err s' [Hsp Hp] Hg Ht k i r h Htr.
    destruct (cut_search _ _ _ _ _ _ _ _ _ Ht Htr) as [[k' Ho]|(_&_&->)]; [by eapply Hsp|auto].
Qed.

(** ** The candidates *)

(** The candidates handed on so far are new to the event, and every search excluded
    all that was known. *)
Definition known (s0 : search) (h : list probe) (u : string) : Prop :=
  u ∈ excludeURLs s0 ∨ u ∈ ceTweetURL <$> spawned h.

Record fresh (s0 s : search) : Prop := {
  f_once : NoDup (ceTweetURL <$> spawned (trail s));
  f_new : Forall (λ u, u ≠ "" ∧ u ∉ excludeURLs s0) (ceTweetURL <$> spawned (trail s));
  f_seen : ∀ u, u ∈ seenTweetIDs s ↔ known s0 (trail s) u;
  f_exclude : ∀ u, u ∈ excludeURLs s ↔ known s0 (trail s) u;
  f_searches : ∀ k i r h, trail s = k ++ Searched i r :: h →
    ∀ u, u ∈ stExcludeURLs i ↔ known s0 h u;
  f_found : ∀ e, e ∈ spawned (trail s) → ∃ i out, Searched i (inr out) ∈ trail s ∧
    e.(ceTweetURL) ∈ vrTweetURL <$> soVideos out }.

Lemma spawned_turn s body tail res s' :
  turned s body tail res s' → spawned (trail s') = spawned body ++ spawned (trail s).
Proof.
  intros []. rewrite t_trail0, !spawned_app. by destruct (quiet_spawned _ t_after0) as [-> _].
Qed.

Lemma turn_fresh s0 s body tail res s' :
  durable c = true → fresh s0 s → turned s body tail res s' → fresh s0 s'.
Proof.
  intros Hd [] Ht. pose proof (spawned_turn _ _ _ _ _ Ht) as Hsp. pose proof Ht as [].
  specialize (t_handed0 Hd).
  assert (∀ u, known s0 (trail s') u ↔ known s0 (trail s) u ∨ u ∈ ceTweetURL <$> spawned body) as Hk.
  { intros u. unfold known. rewrite Hsp, fmap_app, elem_of_app. tauto. }
  assert (∀ u, u ∈ seenTweetIDs s' ↔ known s0 (trail s') u) as Hseen.
  { intros u. rewrite Hk, <-f_seen0. rewrite Forall_forall in t_seen0. split; [by apply t_handed0|].
    intros [?|?]; [by apply t_grows0|by apply t_seen0]. }
  split; rewrite ?Hsp, ?fmap_app.
  - apply NoDup_app. split; [done|]. split; [|done]. intros u Hu Hin.
    rewrite Forall_forall in t_new0. apply (t_new0 u Hu), f_seen0. by right.
  - apply Forall_app. split; [|done]. eapply Forall_impl; [exact t_new0|]. cbn. intros u [? Hn].
    split; [done|]. intros Hin. apply Hn, f_seen0. by left.
  - done.
  - intros u. rewrite <-Hseen. destruct t_exclude0 as (l & -> & Hl). rewrite Hl, elem_of_app, f_exclude0, f_seen0.
    done.
  - intros k i r h Htr. destruct (cut_search _ _ _ _ _ _ _ _ _ Ht Htr) as [[k' Ho]|(->&_&->)];
      [by eapply f_searches0|]. exact f_exclude0.
  - intros e [He|He]%elem_of_app.
    + destruct (t_found0 e He) as (out & Ho & Hin & _). exists (searchInput c s), out. split; [|done].
      rewrite t_trail0, <-Ho. set_solver.
    + destruct (f_found0 e He) as (i & out & Hin & Hv). exists i, out. split; [|done].
      rewrite t_trail0. set_solver.
Qed.

Lemma searchLoop_fresh fuel s :
  durable c = true → trail s = [] → (∀ u, u ∈ seenTweetIDs s ↔ u ∈ excludeURLs s) →
  ensures (searchLoop c fuel) s (λ _ s', fresh s s').
Proof.
  intros Hd Hs Hseen. apply (searchLoop_keeps (fresh s)); [|done|..].
  - split; rewrite ?Hs; try done; [apply NoDup_nil_2|..].
    + intros u. rewrite Hseen. unfold known. set_solver.
    + intros u. unfold known. set_solver.
    + by intros [].
    + intros e []%elem_of_nil.
  - intros s0 body tail s' Hf _ Ht. by eapply turn_fresh.
  - intros s0 body tail err s' Hf _ Ht. by eapply turn_fresh.
Qed.

(** ** The checkpoints *)

Definition checkpointsIn (x : probe) : list RecordDiscoveryProgressInput :=
  match x with Checkpointed i _ => [i] | _ => [] end.

(** A checkpoint is only taken when every candidate handed on is stored, and it does
    not go back behind an earlier one. *)
Definition sound (h : list probe) : Prop :=
  ∀ k i q h', h = k ++ Checkpointed i q :: h' →
    (∀ e, e ∈ spawned h' → e ∈ h' ≫= storedOK) ∧
    ∀ i' q', Checkpointed i' q' ∈ h' →
      rpAttempt i' ≤ rpAttempt i ∧ rpUnavailableAttempts i' ≤ rpUnavailableAttempts i ∧
      rpAttempt i' + rpUnavailableAttempts i' < rpAttempt i + rpUnavailableAttempts i.

Record covered (s : search) : Prop := {
  c_stored : ∀ e, e ∈ spawned (trail s) → e ∈ trail s ≫= storedOK;
  c_behind : ∀ i q, Checkpointed i q ∈ trail s →
    rpAttempt i < attempt s ∧ rpUnavailableAttempts i ≤ unavailableAttempts s;
  c_sound : sound (trail s) }.

Lemma turn_sound s body tail res s' :
  durable c = true → availabilityAware c = true → covered s → turned s body tail res s' →
  sound (trail s').
Proof.
  intros Hd Haw [] [] k i q h Htr. rewrite t_trail0 in Htr.
  apply cut_trail in Htr as [[k' Ho]|(h' & -> & Htail)].
  { apply cut_trail in Ho as [[[|y k''] Ho]|(h' & -> & Hb)]; [done| |].
    - injection Ho as _ Ho. by eapply c_sound0.
    - rewrite Hb, Forall_app, Forall_cons in t_kind0. naive_solver. }
  destruct (t_checkpoint0 _ _ _ _ Htail) as (-> & _ & Hcases). rewrite Haw in Hcases. cbn [app].
  split.
  - intros e. rewrite spawned_app, bind_app, !elem_of_app. intros [He|He].
    + left. destruct Hcases as [(_&_&_&Hst)|(_&_&->&_)]; [by apply Hst|by apply elem_of_nil in He].
    + right. by apply c_stored0.
  - intros i' q' [Hin|[Hin|Hin]%elem_of_cons]%elem_of_app; [|done|].
    + rewrite Forall_forall in t_kind0. by apply t_kind0 in Hin.
    + destruct (c_behind0 i' q' Hin). lia.
Qed.

Lemma turn_covered s body tail s' :
  durable c = true → availabilityAware c = true → covered s → turned s body tail None s' → covered s'.
Proof.
  intros Hd Haw Hc Ht. pose proof (turn_sound _ _ _ _ _ Hd Haw Hc Ht) as Hsound.
  pose proof (spawned_turn _ _ _ _ _ Ht) as Hsp. destruct Hc, Ht. split; [| |done].
  - intros e. rewrite Hsp, elem_of_app, t_trail0, !bind_app, !elem_of_app. cbn.
    intros [He|He]; [right; left; by apply t_stored0|right; right; by apply c_stored0].
  - intros i q. rewrite t_trail0, !elem_of_app, elem_of_cons. intros [Hin|[Hin|[Hin|Hin]]].
    + apply list_elem_of_split in Hin as (k & h & Htail).
      destruct (t_checkpoint0 _ _ _ _ Htail) as (_ & _ & Hcases). rewrite Haw in Hcases.
      destruct t_progress0 as [(-> & -> & Hok)|[(-> & -> & _ & Hno)|(_ & _ & err & [=])]];
        destruct Hcases as [(-> & -> & Hok' & _)|(-> & -> & _ & _ & Hno')]; [lia| | |lia].
      * specialize (Hok Haw). congruence.
      * specialize (Hok' eq_refl). congruence.
    + rewrite Forall_forall in t_kind0. by apply t_kind0 in Hin.
    + done.
    + destruct (c_behind0 i q Hin).
      destruct t_progress0 as [(-> & -> & _)|[(-> & -> & _)|(_ & _ & err & [=])]]; lia.
Qed.

(** ** The window *)

(** A page that was rendered; an old browser service does not say so. *)
Definition renderedPage (o : SearchTweetsOutput) : bool :=
  (soResultState o =? ResultRendered)%string || (soResultState o =? "")%string.

(** The last search reached the floor of the window, or joined what a search that had
    been joined to it had seen. *)
Fixpoint joined (h : list probe) : bool :=
  match h with
  | [] => false
  | Searched _ r :: h =>
      match r with
      | inr o => renderedPage o && ((soStopReason o =? "age")%string ||
          ((soStopReason o =? "consecutive_seen")%string && joined h))
      | inl _ => false
      end
  | _ :: h => joined h
  end.

Definition windowOf (w : SearchWindow) (h : list probe) : SearchWindow :=
  mkSearchWindow (EarliestTweetAt w) (joined h).

Lemma joined_app new h :
  Forall (λ x, ofCandidates x = true ∨ ofProgress x = true) new → joined (new ++ h) = joined h.
Proof. induction 1 as [|x new [Hx|Hx] _ IH]; [done|by destruct x..]. Qed.

Lemma nextWindow_joined s :
  availabilityAware c = true →
  ∀ w, nextWindow (seenBy s) (windowOf w (trail s)) =
    windowOf w (Searched (searchInput c s) (answer s) :: trail s).
Proof.
  intros Haw w. unfold nextWindow, windowOf, SearchWindow_After, observe. rewrite Haw. cbn [joined].
  destruct (answer s) as [err|out]; [by destruct (ResultState_Known _)|].
  unfold renderedPage. destruct (String.eqb_spec (soResultState out) "") as [->|Hne].
  - destruct (String.eqb_spec (soStopReason out) "feed_timeout") as [Hs|Hs]; [|done].
    cbn. rewrite Hs. done.
  - cbn. rewrite orb_false_r. unfold ResultState_Usable.
    destruct (String.eqb_spec (soResultState out) ResultRendered) as [->|Hr]; [done|]. cbn.
    case_match; [|done]. by rewrite (proj2 (String.eqb_neq _ _) Hr).
Qed.

Definition windowed (w : SearchWindow) (s : search) : Prop :=
  ∀ k i r h, trail s = k ++ Searched i r :: h →
    stWindow i = Some (windowOf w h) ∧ stMaxAgeMinutes i = 0.

Lemma turn_windowed w s body tail res s' :
  availabilityAware c = true → searchWindow s = Some (windowOf w (trail s)) → windowed w s →
  turned s body tail res s' → searchWindow s' = Some (windowOf w (trail s')) ∧ windowed w s'.
Proof.
  intros Haw Hw Hs Ht. split.
  - destruct Ht. rewrite t_window0, Hw, t_trail0. cbn. rewrite nextWindow_joined by done.
    unfold windowOf. do 2 f_equal. rewrite app_assoc, joined_app; [done|].
    apply Forall_app. split; (eapply Forall_impl; [eassumption|]); cbn; auto.
  - intros k i r h Htr. destruct (cut_search _ _ _ _ _ _ _ _ _ Ht Htr) as [[k' Ho]|(->&_&->)];
      [by eapply Hs|]. unfold searchInput. rewrite Hw. done.
Qed.

End producer.

(** C22: The search of an event ends, whatever the browser, the storage and the service
    answer: with as much fuel as the two budgets allow it returns, after at most one
    search per attempt that is left and one per unavailable probe that is left, and
    between two searches it always waits. *)
Theorem search_within_budget `{Service} c s fuel :
  trail s = [] → (budget c s < fuel)%nat →
  ∃ err s', searchLoop c fuel s = (Some err, s') ∧
    (length (searches (trail s')) ≤ budget c s)%nat ∧ spaced (trail s').
Proof.
  intros Hs Hf. pose proof (searchLoop_ends c fuel s Hf) as [[err He] Hlen].
  pose proof (searchLoop_spaced c fuel s Hs) as Hsp. unfold ensures in Hsp.
  destruct (searchLoop c fuel s) as [res s'] eqn:Hrun. cbn in *. subst res.
  exists err, s'. rewrite Hs in Hlen. done.
Qed.

(** C21: Candidates are handed on once: from a start where nothing was handed on and the
    known URLs are the excluded ones, no candidate is empty, known from before or
    handed on twice, each was on the page of a search, and every search excludes
    exactly what was known before the start and what was handed on since. *)
Theorem search_finds_fresh `{Service} c s fuel :
  durable c = true → trail s = [] → (∀ u, u ∈ seenTweetIDs s ↔ u ∈ excludeURLs s) →
  fresh s (searchLoop c fuel s).2.
Proof. apply searchLoop_fresh. Qed.


(** The search window of an event is fixed: every search of a run that starts with
    the shortcut revoked has the same oldest instant and no relative age, and may use
    the shortcut exactly when an unbroken chain of rendered searches joins the last one
    to one that reached that instant. *)
Theorem search_window_fixed `{Service} c s fuel w :
  availabilityAware c = true → trail s = [] → searchWindow s = Some w → AllowSeenStop w = false →
  windowed w (searchLoop c fuel s).2.
Proof.
  intros Haw Hs Hw Ha.
  apply (searchLoop_keeps c (λ s, searchWindow s = Some (windowOf w (trail s)) ∧ windowed w s) (windowed w)).
  - rewrite Hs, Hw. split; [destruct w; cbn in *; by subst|]. intros [] i r h; by rewrite Hs.
  - by intros s' [].
  - intros s0 body tail s' [Hw0 Hs0] _ Ht. by eapply turn_windowed.
  - intros s0 body tail err s' [Hw0 Hs0] _ Ht. by eapply turn_windowed.
Qed.

(** An outage is what the browser says it is: when the client reports a page of a known
    state, the error that crosses the service still carries that state and its evidence,
    and the workflow counts the probe as unavailable; a failure without one is an
    unknown timeout. *)
Theorem outage_is_classified c client i state evidence :
  availabilityAware c = true → stQuery i ≠ "" → SearchRequest_ValidateWindow (searchRequest i) = true →
  client (stInstanceAddr i) (searchRequest i) = inl (SearchError state evidence) →
  let o := observe c (SearchTweets (Some client) i) in
  obUsable o = false ∧
  if ResultState_Known state then obState o = state ∧ soEvidence (obOutput o) = evidence
  else obState o = ResultUnknownTimeout ∧ seTimelineFailure (soEvidence (obOutput o)) = "activity_error".
Proof.
  intros Haw Hq Hw Hc. cbn zeta. unfold SearchTweets, observe.
  rewrite (proj2 (String.eqb_neq _ _) Hq), Hw, Hc, Haw. cbn [negb].
  destruct (ResultState_Known state) eqn:Hk; [|done].
  unfold classifiedSearchFailure, classifiedError, asApplication. cbn [omap list_omap head].
  cbn [soResultState]. rewrite String.eqb_refl, Hk. cbn [andb default from_option id soResultState]. by rewrite Hk.
Qed.

End searching.
