(* ===== verification/EventRun.v ===== *)
(** internal/workflow/event.go, the event workflow as a whole: the configuration and
    the versions of a run, the query, the recovery of a failed run, the producer
    (Producer.v) and the consumer (Pipeline.v) side by side, the class of the outcome,
    and the completion of the checklist row.

    The producer only waits for its own activities, so what it hands to the consumer
    is the sequence of its spawns and the end of its search; how they interleave with
    the callbacks is up to the schedule of the consumer. *)
From S2P Require Import Prelude GoStrings Event Video Selection Jsonb Discovery Search Query Wire Flow Pipeline Producer Drain Custody Searching.
From Stdlib Require Import SpecFloat.
#[local] Open Scope string_scope.
#[local] Open Scope list_scope.
#[local] Open Scope Z_scope.
Import discoverycontract twittersearch discoveryactivity wire flow producer.
Import pipeline(Platform, PlatformLaws, text, pipelineError, pipelineConfig, mkPipelineConfig, newPipeline, restoreAssets, mkEnv, pl, history, entry, env, event, spawn, searchFinished, CandidateObserved, CandidateInFlight, CandidateTerminal).

Module eventrun.

(** ** Versions *)

(** The version markers of the history, as the code reads them: [false] is the default
    version. *)
Record versions := mkVersions {
  ff085EventUpdate : bool;
  ff002TerminalVideoFailures : bool;
  ff022PreHashMD5Claim : bool;
  ff034CandidateDurability : bool;
  ff060DownloadFailure : bool;
  ff061SearchAvailability : bool;
  ff065ExactFollowerOutcome : bool;
  ff066AtomicPlacement : bool;
  ff080CanonicalExactAlias : bool;
  ff082CadenceMetadata : bool;
  ff083VariantEvidence : bool;
  ff087VisionFailure : bool;
  ff092PreserveIncumbents : bool;
  ff093AcceptedValidation : bool;
  ff081ReversibleSelection : bool;
  mediaIdentityVersion : bool;
  ff007FailedRunRecovery : bool;
  ff091SearchWindow : bool }.

Definition pipelineConfigOf (v : versions) (g : GetDiscoveryConfigOutput) : pipelineConfig :=
  mkPipelineConfig g.(MaxHamming) g.(MinRunFrames) g.(MaxGapFrames)
    g.(LongMaxHamming) g.(LongMinRunFrames) g.(LongMaxGapFrames)
    v.(ff002TerminalVideoFailures) v.(ff022PreHashMD5Claim) v.(ff034CandidateDurability)
    v.(ff060DownloadFailure) v.(ff087VisionFailure) v.(ff065ExactFollowerOutcome)
    v.(ff066AtomicPlacement) v.(ff080CanonicalExactAlias) v.(ff082CadenceMetadata)
    v.(ff083VariantEvidence) v.(ff092PreserveIncumbents)
    (v.(ff093AcceptedValidation) && v.(ff066AtomicPlacement) && v.(ff083VariantEvidence))
    (v.(ff081ReversibleSelection) && v.(ff066AtomicPlacement) && v.(ff083VariantEvidence) &&
     v.(ff093AcceptedValidation) && v.(ff080CanonicalExactAlias) && v.(ff092PreserveIncumbents))
    v.(ff085EventUpdate)
    (v.(mediaIdentityVersion) && v.(ff066AtomicPlacement) && v.(ff083VariantEvidence) &&
     v.(ff080CanonicalExactAlias)).

Definition fixedSearchWindow (v : versions) : bool :=
  v.(ff091SearchWindow) && v.(ff007FailedRunRecovery).

(** ** Recovery *)

Inductive workflowError :=
  | activityError_ (e : activityError)
  | windowMissing
  | windowInvalid
  | unknownState (url state : string)
  | pipelineError_ (e : pipelineError)
  | stuck.

(** What becomes of one recovered candidate: driven again, only excluded, or an
    error. *)
Definition redrive (durable : bool) (i : EventWorkflowInput) (x : RecoveryCandidate)
  : workflowError + option CandidateEvidence :=
  if durable then
    if (x.(rcState) =? CandidateObserved)%string || (x.(rcState) =? CandidateInFlight)%string
    then inr (Some x.(rcEvidence))
    else if (x.(rcState) =? CandidateTerminal)%string then inr None
    else inl (unknownState x.(rcEvidence).(ceTweetURL) x.(rcState))
  else if x.(rcPending) then
    inr (Some (mkCandidateEvidence i.(wiEventID) i.(wiFixtureID) 0 "" x.(rcTweetURL) "" ""
      (S754_zero false) "" (S754_zero false)))
  else inr None.

(** The excluded URLs and the candidates to drive again. *)
Fixpoint recover (durable : bool) (i : EventWorkflowInput) (l : list RecoveryCandidate)
  : workflowError + list string * list CandidateEvidence :=
  match l with
  | [] => inr ([], [])
  | x :: l =>
      let url := if durable then x.(rcEvidence).(ceTweetURL) else x.(rcTweetURL) in
      if (url =? "")%string then recover durable i l
      else
        match redrive durable i x with
        | inl err => inl err
        | inr own =>
            match recover durable i l with
            | inl err => inl err
            | inr (urls, again) => inr (url :: urls, option_list own ++ again)
            end
        end
  end.

Definition recoveredWindow (v : versions) (r : LoadEventRecoveryStateOutput)
  : workflowError + option SearchWindow :=
  if fixedSearchWindow v then
    match r.(loWindow) with
    | None => inl windowMissing
    | Some w =>
        if SearchWindow_Validate w then inr (Some (w <| AllowSeenStop := false |>))
        else inl windowInvalid
    end
  else inr None.

(** ** The run *)

(** The activities the workflow waits for one after the other, and the names of the
    run. *)
Class Surroundings := {
  getConfig : activityError + GetDiscoveryConfigOutput;
  fetchTeamAliases : Z → activityError + FetchTeamAliasesOutput;
  loadEventAssets : UUID → bool → activityError + LoadEventAssetsOutput;
  loadRecovery : LoadEventRecoveryStateInput → activityError + LoadEventRecoveryStateOutput;
  markComplete : MarkDownstreamCompleteInput → activityError + unit;
  workflowID_ : string;
  Unidecode : string → string }.

(** What the run did, the first step first. *)
Inductive milestone :=
  | Recovered (again : list CandidateEvidence)
  | Produced (trail : list probe)
  | Consumed (history : list entry)
  | MarkedComplete (i : MarkDownstreamCompleteInput) (r : activityError + unit)
  | PublishedUpdate
  | ReleasedFirefox (eventID : UUID).

Abbreviation ran := (EventWorkflowOutput * option workflowError * list milestone)%type.

Section run.
Context `{Platform, Service, Surroundings} (v : versions) (i : EventWorkflowInput).

Definition InstanceAddr (eventID : UUID) : string :=
  "http://ff-firefox-ev-" +:+ String.substring 0 8 (text (Some eventID)) +:+ ":8888".

Definition finalizeEvent (fleet : bool) (out : EventWorkflowOutput) : ran :=
  let mi := mkMarkDownstreamCompleteInput i.(wiEventID) "discovery" workflowID_
    out.(woOutcomeClass) in
  match markComplete mi with
  | inl err => (out, Some (activityError_ err), [MarkedComplete mi (inl err)])
  | inr u =>
      (out <| woCompleted := true |>, None,
       [MarkedComplete mi (inr u)] ++
       (if v.(ff085EventUpdate) then [PublishedUpdate] else []) ++
       (if fleet then [ReleasedFirefox i.(wiEventID)] else []))
  end.

Definition recoveryInput (g : GetDiscoveryConfigOutput) : LoadEventRecoveryStateInput :=
  mkLoadEventRecoveryStateInput i.(wiEventID) "discovery" workflowID_
    (if fixedSearchWindow v then if g.(MaxAgeMinutes) <=? 0 then 3 else g.(MaxAgeMinutes) else 0).

(** The state of the search before the first probe. *)
Definition searchConfigOf (g : GetDiscoveryConfigOutput) (query : string) : searchConfig :=
  mkSearchConfig i g query (if g.(FleetEnabled) then InstanceAddr i.(wiEventID) else "")
    workflowID_ v.(ff007FailedRunRecovery) v.(ff061SearchAvailability) v.(ff034CandidateDurability).

Definition startSearch (g : GetDiscoveryConfigOutput) (query : string)
    (r : LoadEventRecoveryStateOutput) (urls : list string) (w : option SearchWindow) : search :=
  let c := searchConfigOf g query in
  mkSearch
    (mkEventWorkflowOutput i.(wiEventID) false r.(loAttemptsCompleted)
      (Z.of_nat (length r.(loCandidates))) 0 "" r.(loUnavailableAttempts)
      (v.(ff061SearchAvailability) && (maxUnavailableAttempts c <=? r.(loUnavailableAttempts)))
      r.(loLastSearchState))
    (list_to_set urls) urls w (r.(loAttemptsCompleted) + 1) r.(loUnavailableAttempts) [].

(** The consumer starts after the recovered candidates were spawned; the others and
    the end of the search come while it runs. *)
Definition consume (g : pipelineConfig) (assets : LoadEventAssetsOutput)
    (again found : list CandidateEvidence) (err : option pipelineError)
  : option (option pipelineError) * env :=
  let e := mkEnv (restoreAssets assets.(laAssets) assets.(laExactAliases) (newPipeline i g))
    ((spawn <$> again ++ found) ++ [searchFinished err]) [] in
  let e := (pipeline.yield (length again) e).2 in
  pipeline.run (S (drain.total e)) e.

Definition outcomeClass (p : pipeline.pipeline) (out : EventWorkflowOutput) : string :=
  if (0 <? Z.of_nat (length p.(pipeline.assets))) then "assets_surfaced"
  else if 0 <? p.(pipeline.nSpawned) then "candidates_no_assets"
  else if out.(woSearchOutageExhausted) then "twitter_unavailable"
  else "no_candidates".

(** The search and the pipeline, and what they come to. *)
Definition pursue (g : GetDiscoveryConfigOutput) (query : string) (assets : LoadEventAssetsOutput)
    (r : LoadEventRecoveryStateOutput) (urls : list string) (again : list CandidateEvidence)
    (w : option SearchWindow) : ran :=
  let c := searchConfigOf g query in
  let s := startSearch g query r urls w in
  let '(res, s') := searchLoop c (S (budget c s)) s in
  match res with
  | None => (output s', Some stuck, [Recovered again; Produced (trail s')])
  | Some err =>
      let '(res, e) := consume (pipelineConfigOf v g) assets again (reverse (spawned (trail s'))) err in
      let steps := [Recovered again; Produced (trail s'); Consumed (history e)] in
      match res with
      | None => (output s', Some stuck, steps)
      | Some (Some err) => (output s', Some (pipelineError_ err), steps)
      | Some None =>
          let out := (output s') <| woAssetsKept := Z.of_nat (length (pl e).(pipeline.assets)) |> in
          let '(out, err, more) :=
            finalizeEvent g.(FleetEnabled) (out <| woOutcomeClass := outcomeClass (pl e) out |>) in
          (out, err, steps ++ more)
      end
  end.

(** Everything the run reads before its first probe. *)
Definition restore (g : GetDiscoveryConfigOutput) (query : string) : ran :=
  let out := mkEventWorkflowOutput i.(wiEventID) false 0 0 0 "" 0 false "" in
  let fail err := (out, Some err, []) in
  let go assets r :=
    match recoveredWindow v r, recover v.(ff034CandidateDurability) i r.(loCandidates) with
    | inl err, _ | _, inl err => fail err
    | inr w, inr (urls, again) => pursue g query assets r urls again w
    end in
  if v.(ff007FailedRunRecovery) then
    match loadEventAssets i.(wiEventID) (pipelineConfigOf v g).(pipeline.reversibleSelection) with
    | inl err => fail (activityError_ err)
    | inr assets =>
        match loadRecovery (recoveryInput g) with
        | inl err => fail (activityError_ err)
        | inr r => go assets r
        end
    end
  else go (mkLoadEventAssetsOutput [] []) noRecovery.

Definition EventWorkflow : ran :=
  let out := mkEventWorkflowOutput i.(wiEventID) false 0 0 0 "" 0 false "" in
  match getConfig with
  | inl err => (out, Some (activityError_ err), [])
  | inr g =>
      if (i.(wiPlayerName) =? "")%string then
        finalizeEvent g.(FleetEnabled) (out <| woOutcomeClass := "unknown_player" |>)
      else
        let search name :=
          match discovery.Build Unidecode i.(wiPlayerName)
            (if (name =? "")%string then i.(wiTeamName) else name) [] with
          | inl _ => finalizeEvent g.(FleetEnabled) (out <| woOutcomeClass := "empty_query" |>)
          | inr query => restore g query
          end in
        match fetchTeamAliases i.(wiTeamID) with
        | inl err =>
            if IsCanceledError err then (out, Some (activityError_ err), []) else search ""
        | inr a => search a.(faCanonicalName)
        end
  end.
End run.

(** ** What a run comes to *)

(** The versions whose runs own their candidates. *)
Definition currentVersions (v : versions) : Prop :=
  ff007FailedRunRecovery v = true ∧ ff022PreHashMD5Claim v = true ∧
  ff034CandidateDurability v = true ∧ ff061SearchAvailability v = true ∧
  ff065ExactFollowerOutcome v = true ∧ ff066AtomicPlacement v = true.

Section settled.
Context `{PlatformLaws, Service, Surroundings} (v : versions) (i : EventWorkflowInput).
Context (Hv : currentVersions v) (Hun : custody.uncanceled).

Lemma consume_settled g assets again found outcome :
  custody.current g → NoDup (ceTweetURL <$> again ++ found) →
  Forall (λ c, c.(ceTweetURL) ≠ "") (again ++ found) →
  ∃ err e, consume i g assets again found outcome = (Some err, e) ∧
    NoDup (custody.reported (history e)) ∧
    (err = None → custody.reported (history e) ≡ₚ ceTweetURL <$> again ++ found).
Proof.
  intros Hg Hn Hne. unfold consume. cbn zeta. set (e0 := mkEnv _ _ _).
  pose proof (custody.start_ok (ceTweetURL <$> again ++ found) outcome i g (laAssets assets)
    (laExactAliases assets) (again ++ found) Hg Hn Hne eq_refl) as Hi.
  destruct (custody.yield_ok _ _ (length again) None [] e0 Hi) as [Hi1 _].
  destruct (drain.drains_yield (length again) e0) as [_ Hgap Hends _].
  assert (drain.runs (pipeline.yield (length again) e0).2) as Hr.
  { split.
    - rewrite Hgap. unfold drain.gap, e0. cbn.
      destruct (custody.same_restore (laAssets assets) (laExactAliases assets) (newPipeline i g)) as (_&_&->&_).
      destruct (drain.frame_restore (laAssets assets) (laExactAliases assets) (newPipeline i g)) as (_&->&_).
      done.
    - apply Hends. left. exists outcome. unfold e0. cbn. apply elem_of_app. right. by left. }
  destruct (custody.run_settled _ outcome (S (drain.total (pipeline.yield (length again) e0).2)) _ Hun Hr Hi1)
    as (err & e' & Hrun & Hnd & Hrep); [lia|].
  exists err, e'. split; [done|]. split; [done|]. intros ->.
  destruct (pipeline.terminalErr (pl e')); [by destruct Hrep|tauto].
Qed.

(** The recovered URLs are distinct when the stored ones are, and the candidates that
    are not terminal are driven again. *)
Lemma recover_spec l urls again :
  NoDup (ceTweetURL ∘ rcEvidence <$> l) → recover true i l = inr (urls, again) →
  NoDup urls ∧ (∀ u, u ∈ urls → u ∈ ceTweetURL ∘ rcEvidence <$> l) ∧
  NoDup (ceTweetURL <$> again) ∧ (∀ u, u ∈ ceTweetURL <$> again → u ∈ urls ∧ u ≠ "") ∧
  ∀ x, x ∈ l → ceTweetURL (rcEvidence x) ≠ "" → rcState x ≠ CandidateTerminal →
    rcEvidence x ∈ again.
Proof.
  revert urls again. induction l as [|x l IH]; intros urls again; cbn [fmap list_fmap recover].
  { intros _ [= <- <-]. split_and!; try apply NoDup_nil_2; set_solver. }
  intros [Hx Hn]%NoDup_cons. cbn in Hx. case_match eqn:Hu.
  - apply String.eqb_eq in Hu. intros Hr. destruct (IH _ _ Hn Hr) as (?&?&?&?&Hall). split_and!; try done.
    + set_solver.
    + intros y [->|Hy]%elem_of_cons; [done|by apply Hall].
  - apply String.eqb_neq in Hu. destruct (redrive true i x) as [|own] eqn:Hown; [done|].
    destruct (recover true i l) as [|[urls' again']] eqn:Hr; [done|]. intros [= <- <-].
    destruct (IH _ _ Hn eq_refl) as (Hn1&Hsub&Hn2&Hag&Hall).
    assert (own = Some (rcEvidence x) ∨ own = None ∧ rcState x = CandidateTerminal) as Hcase.
    { unfold redrive in Hown. repeat case_match; simplify_eq; [by left|right].
      split; [done|]. by apply String.eqb_eq. }
    split_and!.
    + constructor; [|done]. intros Hin. by apply Hx, Hsub.
    + intros u [->|Hin]%elem_of_cons; [by left|right; by apply Hsub].
    + destruct Hcase as [->|[-> _]]; [|done]. cbn. constructor; [|done].
      intros [Hin _]%Hag. by apply Hx, Hsub.
    + destruct Hcase as [->|[-> _]]; cbn; [|intros u ?%Hag; set_solver].
      intros u [->|Hin]%elem_of_cons; [by split; [left|]|]. apply Hag in Hin. set_solver.
    + intros y [->|Hy]%elem_of_cons Hne Hs.
      * destruct Hcase as [->|[_ ?]]; [by left|done].
      * apply elem_of_app. right. by apply Hall.
Qed.

(** Every candidate the run took over from [r] or found itself has its result stored,
    once. *)
Definition accounted (r : LoadEventRecoveryStateOutput) (steps : list milestone) : Prop :=
  ∃ again trail h, Recovered again ∈ steps ∧ Produced trail ∈ steps ∧ Consumed h ∈ steps ∧
    (∀ x, x ∈ loCandidates r → ceTweetURL (rcEvidence x) ≠ "" → rcState x ≠ CandidateTerminal →
      rcEvidence x ∈ again) ∧
    NoDup (custody.reported h) ∧
    custody.reported h ≡ₚ ceTweetURL <$> again ++ spawned trail.

(** What a run promises that read the recovery state [r]. *)
Definition runOK (r : LoadEventRecoveryStateOutput) (x : ran) : Prop :=
  let '(out, err, steps) := x in
  err ≠ Some stuck ∧ (err = None → ∃ mi u, MarkedComplete mi (inr u) ∈ steps) ∧
  ∀ mi q, MarkedComplete mi q ∈ steps → accounted r steps.

Lemma finalizeEvent_spec fleet out :
  let '(out', err, steps) := finalizeEvent v i fleet out in
  err ≠ Some stuck ∧ (err = None → ∃ mi u, MarkedComplete mi (inr u) ∈ steps) ∧
  ∀ mi q, MarkedComplete mi q ∈ steps → mcOutcomeClass mi = woOutcomeClass out.
Proof.
  unfold finalizeEvent. destruct (markComplete _) as [err|u].
  - split_and!; [done|done|]. by intros mi q [= -> _]%list_elem_of_singleton.
  - split_and!; [done| |].
    + intros _. eexists _, u. by left.
    + intros mi q Hin. destruct (ff085EventUpdate v), fleet; cbn in Hin; set_solver.
Qed.

Lemma pursue_ok g query assets r urls again w :
  NoDup (ceTweetURL <$> again) → (∀ u, u ∈ ceTweetURL <$> again → u ∈ urls ∧ u ≠ "") →
  (∀ x, x ∈ loCandidates r → ceTweetURL (rcEvidence x) ≠ "" → rcState x ≠ CandidateTerminal →
    rcEvidence x ∈ again) →
  runOK r (pursue v i g query assets r urls again w).
Proof.
  intros Hn Hag Hall. destruct Hv as (Hrec & Hpre & Hdur & Haw & Hdef & Hat). unfold pursue, runOK.
  set (c := searchConfigOf v i g query). set (s := startSearch v i g query r urls w).
  pose proof (searching.searchLoop_ends c (S (budget c s)) s ltac:(lia)) as [[err Herr] _].
  assert (∀ u, u ∈ seenTweetIDs s ↔ u ∈ excludeURLs s) as Hseen by (intros u; cbn; set_solver).
  pose proof (searching.searchLoop_fresh c (S (budget c s)) s Hdur eq_refl Hseen) as [Honce Hnew _ _ _ _].
  destruct (searchLoop c (S (budget c s)) s) as [res s'] eqn:Hloop. cbn in Herr, Honce, Hnew. subst res.
  set (found := reverse (spawned (trail s'))).
  assert (NoDup (ceTweetURL <$> again ++ found)) as Hnd.
  { rewrite fmap_app. apply NoDup_app. split; [done|]. unfold found. rewrite fmap_reverse.
    split; [|by rewrite reverse_Permutation]. intros u Hu Hin. rewrite elem_of_reverse in Hin. rewrite Forall_forall in Hnew.
    destruct (Hnew u Hin) as [_ Hex]. by apply Hex, Hag. }
  assert (Forall (λ c, c.(ceTweetURL) ≠ "") (again ++ found)) as Hne.
  { apply Forall_app. split; apply Forall_forall; intros x Hx.
    - apply Hag. by apply list_elem_of_fmap_2.
    - rewrite Forall_forall in Hnew. apply Hnew. apply list_elem_of_fmap_2. unfold found in Hx.
      by rewrite elem_of_reverse in Hx. }
  assert (custody.current (pipelineConfigOf v g)) as Hcur by done.
  destruct (consume_settled (pipelineConfigOf v g) assets again found err Hcur Hnd Hne)
    as (res & e & Hcon & Hrn & Hrep).
  rewrite Hcon. destruct res as [fail|].
  { split_and!; [done|done|]. intros mi q Hin. set_solver. }
  pose proof (finalizeEvent_spec (FleetEnabled g)
    ((output s') <| woAssetsKept := Z.of_nat (length (pl e).(pipeline.assets)) |>
      <| woOutcomeClass := outcomeClass (pl e)
        ((output s') <| woAssetsKept := Z.of_nat (length (pl e).(pipeline.assets)) |>) |>)) as Hfin.
  destruct (finalizeEvent _ _ _ _) as [[out err'] more] eqn:Hf. destruct Hfin as (Hst & Hdone & _).
  split_and!; [done| |].
  - intros Hnone. destruct (Hdone Hnone) as (mi & u & Hin). exists mi, u. set_solver.
  - intros mi q _. exists again, (trail s'), (history e). split_and!; [set_solver..|done|done|].
    rewrite (Hrep eq_refl). unfold found. by rewrite reverse_Permutation.
Qed.

Lemma recover_fails durable l err : recover durable i l = inl err → err ≠ stuck.
Proof.
  induction l as [|x l IH]; cbn [recover]; [done|]. case_match; [done|].
  destruct (redrive durable i x) as [e|own] eqn:Hr.
  - intros [= <-] ->. unfold redrive in Hr. by repeat case_match.
  - destruct (recover durable i l) as [e|[]]; [|done]. intros [= <-]. by apply IH.
Qed.

(** What a whole run promises. *)
Definition completesSettled (x : ran) : Prop :=
  let '(out, err, steps) := x in
  err ≠ Some stuck ∧ (err = None → ∃ mi u, MarkedComplete mi (inr u) ∈ steps) ∧
  ∀ mi q, MarkedComplete mi q ∈ steps →
    mcOutcomeClass mi ∈ ["unknown_player"; "empty_query"] ∨
    ∃ q r, loadRecovery q = inr r ∧ accounted r steps.

Lemma nothing_searched fleet out :
  woOutcomeClass out ∈ ["unknown_player"; "empty_query"] →
  completesSettled (finalizeEvent v i fleet out).
Proof.
  intros Hout. pose proof (finalizeEvent_spec fleet out) as Hf. unfold completesSettled.
  destruct (finalizeEvent _ _ _ _) as [[out' err] steps]. destruct Hf as (?&?&Hc).
  split_and!; [done|done|]. intros mi q Hin. left. by rewrite (Hc mi q Hin).
Qed.

Lemma failed_early out err : err ≠ stuck → completesSettled (out, Some err, []).
Proof. intros Herr. split_and!; [congruence|done|]. intros ? ? []%elem_of_nil. Qed.

Lemma restore_ok g query :
  (∀ q r, loadRecovery q = inr r → NoDup (ceTweetURL ∘ rcEvidence <$> loCandidates r)) →
  completesSettled (restore v i g query).
Proof.
  intros Hkeys. unfold restore. pose proof Hv as (-> & _ & Hdur & _).
  destruct (loadEventAssets _ _) as [err|assets]; [by apply failed_early|].
  destruct (loadRecovery (recoveryInput v i g)) as [err|r] eqn:Hr; [by apply failed_early|].
  rewrite Hdur. destruct (recoveredWindow v r) as [err|w] eqn:Hw.
  { apply failed_early. intros ->. unfold recoveredWindow in Hw. by repeat case_match. }
  destruct (recover true i (loCandidates r)) as [err|[urls again]] eqn:Hrc.
  { apply failed_early. by eapply recover_fails. }
  destruct (recover_spec _ _ _ (Hkeys _ _ Hr) Hrc) as (_ & _ & Hn & Hag & Hall).
  pose proof (pursue_ok g query assets r urls again w Hn Hag Hall) as Hok.
  unfold runOK in Hok. unfold completesSettled.
  destruct (pursue _ _ _ _ _ _ _ _ _) as [[out err] steps].
  destruct Hok as (?&?&Hac). split_and!; [done|done|]. intros mi q Hin. right.
  exists (recoveryInput v i g), r. split; [done|]. by eapply Hac.
Qed.
End settled.

(** C1: Completion means settled.  Under the current versions, whatever the activities
    answer and however the search, the callbacks and the waits interleave - provided
    that no activity is answered as canceled while the context is open, and a recovery
    lists no URL twice - a run of the event workflow comes to an end; if it returns without an error its checklist row was marked complete; and the
    row is only marked complete when the run had nothing to search for, or after every
    candidate it took over from a failed run and every candidate its own search handed
    on has had its result stored, exactly once. *)
Theorem completion_means_settled `{PlatformLaws, Service, Surroundings} v i :
  currentVersions v → custody.uncanceled →
  (∀ q r, loadRecovery q = inr r → NoDup (ceTweetURL ∘ rcEvidence <$> loCandidates r)) →
  completesSettled (EventWorkflow v i).
Proof.
  intros Hv Hun Hkeys. unfold EventWorkflow.
  destruct getConfig as [err|g]; [by apply failed_early|].
  case_match; [apply nothing_searched; cbn; set_solver|].
  destruct (fetchTeamAliases _) as [err|a]; [case_match; [by apply failed_early|]|];
    (case_match; [apply nothing_searched; cbn; set_solver|by apply restore_ok]).
Qed.

End eventrun.
