(* ===== verification/Hunt.v ===== *)
(** A concrete run of the event workflow: one candidate of a failed run to drive again,
    a search that finds two clips, an outage of the browser, a search that finds
    nothing new.  The theorems about the search and about the whole run are applied to
    it. *)
From S2P Require Import Prelude GoStrings Event Discovery Search Query Wire Flow Pipeline Producer Drain Custody Searching EventRun Clips.
From Stdlib Require Import SpecFloat.
#[local] Open Scope string_scope.
#[local] Open Scope list_scope.
#[local] Open Scope Z_scope.
Import discoverycontract twittersearch discoveryactivity wire flow producer searching eventrun.

Module hunt.
#[local] Existing Instance clips.platform.
#[local] Existing Instance clips.platform_laws.

Definition video (url : string) : VideoRef :=
  mkVideoRef url "goal" "" (S754_zero false) "user" (S754_zero false).

Definition page (urls : list string) (stop : string) : SearchTweetsOutput :=
  mkSearchTweetsOutput (video <$> urls) (Z.of_nat (length urls)) ResultRendered noSearchEvidence stop
    1 1 1 1.

Definition browser (h : list probe) (i : SearchTweetsInput) : activityError + SearchTweetsOutput :=
  match length (searches h) with
  | 0%nat => inr (page ["a"; "b"; "a"; ""] "age")
  | 1%nat => inl (classifiedError ResultLogin noSearchEvidence)
  | _ => inr (page ["b"] "consecutive_seen")
  end.

#[local] Instance service : Service := {
  searched := browser;
  stored := λ _ _, inr (mkStoreCandidateOutput true);
  checkpointed := λ _ _, inr tt;
  slept := λ _, inr tt }.

Definition config_ : GetDiscoveryConfigOutput :=
  GetDiscoveryConfig (mkActivities 2 3 0 0 0 10 3 1 0 0 0 true).

(** "d" is pending from a failed run, "e" is terminal. *)
Definition recovery : LoadEventRecoveryStateOutput :=
  mkLoadEventRecoveryStateOutput 0 0 "" noSearchEvidence
    [mkRecoveryCandidate (clips.candidate "d") "observed" "d" true;
     mkRecoveryCandidate (clips.candidate "e") "terminal" "e" false]
    (Some (mkSearchWindow 1000 true)).

#[local] Instance surroundings : Surroundings := {
  getConfig := inr config_;
  fetchTeamAliases := λ _, inr (mkFetchTeamAliasesOutput "Toronto FC" [] true);
  loadEventAssets := λ _ _, inr (mkLoadEventAssetsOutput [] []);
  loadRecovery := λ _, inr recovery;
  markComplete := λ _, inr tt;
  workflowID_ := "event-1";
  Unidecode := id }.

Definition current : versions :=
  mkVersions true true true true true true true true true true true true true true true true true true.

Lemma current_ok : currentVersions current.
Proof. by repeat split. Qed.

Definition outcome : ran := EventWorkflow current clips.goal.

Definition storedURLs (steps : list milestone) : list string :=
  steps ≫= (λ m, match m with Consumed h => custody.reported h | _ => [] end).

(** Two attempts, one outage; the recovered clip and the two that were found are
    settled; the row is marked. *)
Example outcome_shape :
  let '(out, err, steps) := outcome in
  (woAttemptsRun out, woUnavailableAttempts out, woOutcomeClass out, woCompleted out, err,
   storedURLs steps) = (2, 1, "assets_surfaced", true, None, ["d"; "a"; "b"]).
Proof. vm_compute. reflexivity. Qed.

Lemma completion_means_settled_witness : completesSettled outcome.
Proof.
  apply (eventrun.completion_means_settled current clips.goal).
  - exact current_ok.
  - exact clips.service_uncanceled.
  - intros q r [= <-]. apply (bool_decide_unpack _). vm_compute. exact I.
Defined.

(** The search of that run. *)
Definition c : searchConfig := searchConfigOf current clips.goal config_ "(player) filter:videos".
Definition first : search :=
  startSearch current clips.goal config_ "(player) filter:videos" recovery ["d"; "e"]
    (Some (mkSearchWindow 1000 false)).
Definition last : search := (searchLoop c 6 first).2.

Example last_shape :
  (length (searches (trail last)), ceTweetURL <$> spawned (trail last), excludeURLs last)
  = (3%nat, ["b"; "a"], ["d"; "e"; "a"; "b"]).
Proof. vm_compute. reflexivity. Qed.

Lemma search_within_budget_witness :
  ∃ err s', searchLoop c 6 first = (Some err, s') ∧
    (length (searches (trail s')) ≤ 5)%nat ∧ spaced (trail s').
Proof. exact (searching.search_within_budget c first 6 eq_refl (le_n 6)). Defined.

Lemma first_known u : u ∈ seenTweetIDs first ↔ u ∈ excludeURLs first.
Proof. cbn. set_solver. Qed.

Lemma search_finds_fresh_witness : fresh first last.
Proof. exact (searching.search_finds_fresh c first 6 eq_refl eq_refl first_known). Defined.


Lemma search_window_fixed_witness : windowed (mkSearchWindow 1000 false) last.
Proof. exact (searching.search_window_fixed c first 6 _ eq_refl eq_refl eq_refl eq_refl). Defined.

Definition client (addr : string) (r : SearchRequest) : clientError + SearchResponse :=
  inl (SearchError ResultLogin noSearchEvidence).

Lemma outage_is_classified_witness :
  let o := observe c (SearchTweets (Some client) (searchInput c first)) in
  obUsable o = false ∧ obState o = ResultLogin ∧ soEvidence (obOutput o) = noSearchEvidence.
Proof.
  refine (searching.outage_is_classified c client (searchInput c first) ResultLogin noSearchEvidence
    eq_refl _ eq_refl eq_refl). discriminate.
Defined.

End hunt.
