(* ===== verification/Lineage.v ===== *)
(** Forests given by successor pointers: the rows that lead to a row without a
    successor, and what redirecting pointers does to them.  Used for the lineages of
    accepted media variants (Media.v). *)
From S2P Require Import Prelude.
#[local] Open Scope list_scope.

Module lineage.

Section forest.
Context {K : Type} `{EqDecision K}.

(** [None]: no such row; [Some None]: a root; [Some (Some k)]: succeeded by [k]. *)
Implicit Types (next : K → option (option K)) (x y r : K).

Inductive rootOf next : K → nat → K → Prop :=
  | root_here x : next x = Some None → rootOf next x 0 x
  | root_next x y n r : next x = Some (Some y) → rootOf next y n r → rootOf next x (S n) r.

(** Every row leads to a root. *)
Definition rooted next : Prop := ∀ x, is_Some (next x) → ∃ n r, rootOf next x n r.

(** The walk the code makes, with a bound on its steps. *)
Fixpoint climb next (fuel : nat) (x : K) : option K :=
  match next x with
  | Some None => Some x
  | Some (Some y) => match fuel with O => None | S fuel => climb next fuel y end
  | None => None
  end.

Lemma rootOf_root next x n r : rootOf next x n r → next r = Some None.
Proof. by induction 1. Qed.

Lemma rootOf_fun next x n r : rootOf next x n r → ∀ m q, rootOf next x m q → m = n ∧ q = r.
Proof.
  induction 1 as [x Hx|x y n r Hx _ IH]; intros m q Hq; inversion Hq; subst; try congruence; [done|].
  assert (y0 = y) as -> by congruence. destruct (IH _ _ ltac:(eassumption)). by subst.
Qed.

Lemma rootOf_some next x n r : rootOf next x n r → is_Some (next x).
Proof. inversion 1; subst; eauto. Qed.

(** The walk finds the root exactly when its bound allows the distance. *)
Lemma climb_spec next fuel x r :
  climb next fuel x = Some r ↔ ∃ n, (n ≤ fuel)%nat ∧ rootOf next x n r.
Proof.
  split.
  - revert x. induction fuel as [|fuel IH]; intros x; cbn;
      destruct (next x) as [[y|]|] eqn:Hx; try done.
    + intros [= <-]. exists 0%nat. split; [lia|by constructor].
    + intros (n & Hn & Hr)%IH. exists (S n). split; [lia|by econstructor].
    + intros [= <-]. exists 0%nat. split; [lia|by constructor].
  - intros (n & Hn & Hr). revert fuel Hn.
    induction Hr as [x Hx|x y n r Hx _ IH]; intros fuel Hn.
    + destruct fuel; cbn; by rewrite Hx.
    + destruct fuel; [lia|]. cbn. rewrite Hx. apply IH. lia.
Qed.

Lemma rootOf_ext next next' x n r :
  (∀ y, next y = next' y) → rootOf next x n r → rootOf next' x n r.
Proof.
  intros He. induction 1; [apply root_here|eapply root_next]; rewrite <-?He; eauto.
Qed.

Lemma rooted_ext next next' : (∀ y, next y = next' y) → rooted next → rooted next'.
Proof.
  intros He Hr x Hx. rewrite <-He in Hx. destruct (Hr x Hx) as (n & r & H).
  exists n, r. by eapply rootOf_ext.
Qed.

(** A new row: a root, or succeeded by a row that is there. *)
Lemma rootOf_add next next' x n r k :
  next k = None → (∀ y, y ≠ k → next' y = next y) → rootOf next x n r → rootOf next' x n r.
Proof.
  intros Hk He. induction 1 as [x Hx|x y n r Hx _ IH].
  - apply root_here. rewrite He; [done|congruence].
  - eapply root_next; [|done]. rewrite He; [done|congruence].
Qed.

Lemma rooted_add next next' k s :
  next k = None → (∀ y, y ≠ k → next' y = next y) → next' k = Some s →
  (∀ y, s = Some y → is_Some (next y)) → rooted next → rooted next'.
Proof.
  intros Hk He Hk' Hs Hr x Hx. destruct (decide (x = k)) as [->|Hne].
  - destruct s as [y|]; [|exists 0%nat, k; by constructor].
    destruct (Hr y (Hs _ eq_refl)) as (n & r & Hy). exists (S n), r.
    eapply root_next; [done|]. by eapply rootOf_add.
  - rewrite He in Hx by done. destruct (Hr x Hx) as (n & r & H). exists n, r. by eapply rootOf_add.
Qed.

(** A root is retired onto another root: what led to it leads to the other, one step
    further; everything else stays. *)
Lemma rootOf_retire next next' l w x n r :
  next w = Some None → l ≠ w → next l = Some None → next' l = Some (Some w) →
  (∀ y, y ≠ l → next' y = next y) → rootOf next x n r →
  if decide (r = l) then rootOf next' x (S n) w else rootOf next' x n r.
Proof.
  intros Hw Hne Hl Hl' He. induction 1 as [x Hx|x y n r Hx Hr IH].
  - case_decide as Hd.
    + subst x. eapply root_next; [done|]. apply root_here. by rewrite He.
    + apply root_here. by rewrite He.
  - case_decide; eapply root_next; try done; rewrite He; congruence.
Qed.

Lemma rooted_retire next next' l w :
  next w = Some None → l ≠ w → next l = Some None → next' l = Some (Some w) →
  (∀ y, y ≠ l → next' y = next y) → rooted next → rooted next'.
Proof.
  intros Hw Hne Hl Hl' He Hr x Hx.
  assert (is_Some (next x)) as Hx0.
  { destruct (decide (x = l)) as [->|]; [rewrite Hl; eauto|by rewrite <-He]. }
  destruct (Hr x Hx0) as (n & r & H). pose proof (rootOf_retire _ _ _ _ _ _ _ Hw Hne Hl Hl' He H) as H'.
  case_decide; eauto.
Qed.

(** Rewiring a closed part of the forest onto its keepers, each of which keeps itself. *)
Lemma rooted_rewire next next' (inside : K → Prop) (keeper : K → K) :
  (∀ x, inside x ∨ ¬ inside x) →
  (∀ x, ¬ inside x → next' x = next x) →
  (∀ x y, ¬ inside x → next x = Some (Some y) → ¬ inside y) →
  (∀ x, inside x → inside (keeper x) ∧ keeper (keeper x) = keeper x ∧
    next' x = Some (if decide (keeper x = x) then None else Some (keeper x))) →
  rooted next → rooted next'.
Proof.
  intros Hdec Hout Hclosed Hin Hr.
  assert (∀ x, inside x → ∃ n r, rootOf next' x n r) as Hinside.
  { intros x Hx. destruct (Hin x Hx) as (Hkx & Hkk & Hx').
    destruct (decide (keeper x = x)) as [Heq|Hne]; [exists 0%nat, x; by constructor|].
    exists 1%nat, (keeper x). eapply root_next; [done|]. apply root_here.
    destruct (Hin _ Hkx) as (_ & _ & ->). by rewrite decide_True. }
  assert (∀ x n r, rootOf next x n r → ¬ inside x → rootOf next' x n r) as Houtside.
  { induction 1 as [x Hx|x y n r Hx _ IH]; intros Ho.
    - apply root_here. by rewrite Hout.
    - eapply root_next; [by rewrite Hout|]. apply IH. by eapply Hclosed. }
  intros x Hx. destruct (Hdec x) as [Hi|Ho]; [by apply Hinside|].
  rewrite (Hout x Ho) in Hx. destruct (Hr x Hx) as (n & r & H). exists n, r. by apply Houtside.
Qed.
End forest.
End lineage.
