(* ===== verification/Media.v ===== *)
(** internal/infra/pg, the video tables: video_assets, video_asset_validations,
    video_selection_commits and video_shares (schema.sql), the repositories of assets
    and shares (video_repo.go), and the bytes frame hashes are stored as.

    A transaction here works on the video tables and, through [lift], on the tables of
    Store.v.  As there, a violated constraint fails the transaction, and a transaction
    is one step. *)
From S2P Require Import Prelude GoStrings Event Vision Video Selection Jsonb Discovery Store Lineage.
From Stdlib Require Import SpecFloat.
#[local] Open Scope string_scope.
#[local] Open Scope list_scope.
#[local] Open Scope Z_scope.
Import video.

Module media.

(** ** Bytes *)

#[global] Instance byte_eq_dec : EqDecision Byte.byte := Byte.byte_eq_dec.

Definition byte_of (n : Z) : Byte.byte := default Byte.x00 (Byte.of_N (Z.to_N (n mod 256))).
Definition byte_value (b : Byte.byte) : Z := Z.of_N (Byte.to_N b).

(** binary.BigEndian *)
Definition PutUint64 (h : Z) : list Byte.byte :=
  (λ i, byte_of (Z.shiftr h (8 * i))) <$> [7; 6; 5; 4; 3; 2; 1; 0].
Definition Uint64 (bytes : list Byte.byte) : Z := foldl (λ n b, n * 256 + byte_value b) 0 bytes.

Definition encodeFrameHashes (hs : list Z) : list Byte.byte := hs ≫= PutUint64.

Fixpoint decodeFrameHashes (b : list Byte.byte) : list Z :=
  match b with
  | x0 :: x1 :: x2 :: x3 :: x4 :: x5 :: x6 :: x7 :: b =>
      Uint64 [x0; x1; x2; x3; x4; x5; x6; x7] :: decodeFrameHashes b
  | _ => []
  end.

(** encoding/hex *)
Definition fromHexChar (c : ascii) : option Z :=
  let n := Z.of_nat (Ascii.nat_of_ascii c) in
  if (48 <=? n) && (n <=? 57) then Some (n - 48)
  else if (97 <=? n) && (n <=? 102) then Some (n - 87)
  else if (65 <=? n) && (n <=? 70) then Some (n - 55) else None.

Fixpoint DecodeString (s : string) : option (list Byte.byte) :=
  match s with
  | EmptyString => Some []
  | String c (String d s) =>
      match fromHexChar c, fromHexChar d, DecodeString s with
      | Some m, Some n, Some bytes => Some (byte_of (16 * m + n) :: bytes)
      | _, _, _ => None
      end
  | _ => None
  end.

(** ** Tables (schema.sql) *)

Record AssetRow := mkAssetRow {
  arEventID : UUID;
  arFixtureID : Z;
  arS3Bucket : string;
  arS3Key : string;
  arObjectReclaimedAt : option Time;
  arMD5 : list Byte.byte;
  arMediaFingerprint : option string;
  arHashVersion : string;
  arFrameHashes : list Byte.byte;
  arWidth : Z;
  arHeight : Z;
  arDurationMS : Z;
  arFileSizeBytes : Z;
  arBitrate : option Z;
  arFrameRate : option spec_float;
  arPopularity : Z;
  arSupersededBy : option UUID;
  arFirstSeenAt : Time }.

#[global] Instance eta_AssetRow : Eta AssetRow := λ a,
  mkAssetRow a.(arEventID) a.(arFixtureID) a.(arS3Bucket) a.(arS3Key) a.(arObjectReclaimedAt)
    a.(arMD5) a.(arMediaFingerprint) a.(arHashVersion) a.(arFrameHashes) a.(arWidth) a.(arHeight)
    a.(arDurationMS) a.(arFileSizeBytes) a.(arBitrate) a.(arFrameRate) a.(arPopularity)
    a.(arSupersededBy) a.(arFirstSeenAt).

Record ShareRow := mkShareRow {
  shAssetID : UUID;
  shEventID : UUID;
  shTimestampVerified : bool;
  shExtractedMinute : option Z;
  shState : ShareState;
  shRemovedReason : option RemovalReason;
  shRemovedAt : option Time;
  shRank : Z;
  shCreatedAt : Time }.

#[global] Instance eta_ShareRow : Eta ShareRow := λ s,
  mkShareRow s.(shAssetID) s.(shEventID) s.(shTimestampVerified) s.(shExtractedMinute)
    s.(shState) s.(shRemovedReason) s.(shRemovedAt) s.(shRank) s.(shCreatedAt).

(** The evidence stands for the JSON object it is stored as. *)
Record ValidationRow := mkValidationRow {
  vaAssetID : UUID;
  vaEventID : UUID;
  vaFixtureID : Z;
  vaEvidence : vision.Evidence;
  vaRecordedAt : Time }.

(** ** What placements and selections return (domain/video/placement.go,
    selection_repo.go) *)

Record SelectionRequest := mkSelectionRequest {
  sqID : option UUID;
  sqEventID : option UUID;
  sqFixtureID : Z;
  sqSnapshotHash : string;
  sqPolicy : selection.SelectionPolicy;
  sqPreparedAssetIDs : list (option UUID) }.

#[global] Instance eta_SelectionRequest : Eta SelectionRequest := λ r,
  mkSelectionRequest r.(sqID) r.(sqEventID) r.(sqFixtureID) r.(sqSnapshotHash) r.(sqPolicy)
    r.(sqPreparedAssetIDs).

Record SelectionResult := mkSelectionResult {
  srPlan : selection.SelectionPlan;
  srShareIDs : gmap UUID string;
  srReplayed : bool;
  srSkipped : string }.

#[global] Instance eta_SelectionResult : Eta SelectionResult := λ r,
  mkSelectionResult r.(srPlan) r.(srShareIDs) r.(srReplayed) r.(srSkipped).

Definition SelectionIncompleteCredits : string := "incomplete_credits".

Record ClipPlacementResult := mkClipPlacementResult {
  crWinnerAssetID : option UUID;
  crShareID : string;
  crWinnerCreated : bool;
  crObservedAssetCreated : bool;
  crEventRemoved : bool;
  crSelection : option SelectionResult }.

#[global] Instance eta_ClipPlacementResult : Eta ClipPlacementResult := λ r,
  mkClipPlacementResult r.(crWinnerAssetID) r.(crShareID) r.(crWinnerCreated)
    r.(crObservedAssetCreated) r.(crEventRemoved) r.(crSelection).

Definition noPlacement : ClipPlacementResult := mkClipPlacementResult None "" false false false None.

(** The row of an asset before a selection (video_selection_repo.go). *)
Record beforeNode := mkBeforeNode {
  bnAssetID : option UUID;
  bnSupersededBy : option UUID;
  bnPopularity : Z;
  bnExactSources : Z;
  bnShare : option Share;
  bnValidationID : option UUID }.

(** A committed selection: its request, the rows before it, and its result, with that
    of the placement it was part of. *)
Record CommitRow := mkCommitRow {
  vcEventID : UUID;
  vcFixtureID : Z;
  vcRequestHash : string;
  vcSnapshotHash : string;
  vcPolicy : selection.SelectionPolicy;
  vcBeforeState : list beforeNode;
  vcResult : SelectionResult;
  vcPlacement : option ClipPlacementResult }.

(** Assets, validations and commits by id, shares by their public id. *)
Record Media := mkMedia {
  mDB : pg.DB;
  mAssets : gmap UUID AssetRow;
  mShares : gmap string ShareRow;
  mValidations : gmap UUID ValidationRow;
  mCommits : gmap UUID CommitRow }.

#[global] Instance eta_Media : Eta Media := λ m,
  mkMedia m.(mDB) m.(mAssets) m.(mShares) m.(mValidations) m.(mCommits).

(** *** Checks *)

(** INT columns hold 32 bits, BIGINT ones 64. *)
Definition int4 (n : Z) : bool := (- 2 ^ 31 <=? n) && (n <? 2 ^ 31).

(** [x > 0] on DOUBLE PRECISION, where NaN is the greatest value. *)
Definition positive_double (x : spec_float) : bool :=
  match x with S754_nan => true | _ => SFltb (S754_zero false) x end.

(** ^media-v[12]:[0-9a-f]{64}$ *)
Definition lower_hex (s : string) : bool :=
  forallb (λ c, is_digit c || bool_decide (c ∈ ["a"%char; "b"%char; "c"%char; "d"%char; "e"%char; "f"%char]))
    (String.list_ascii_of_string s).
Definition video_assets_media_fingerprint_format (f : string) : bool :=
  match cut ":" f with
  | Some (version, digest) =>
      one_of version [MediaFingerprintVersion; MediaFingerprintUnknownDurationVersion] &&
      (String.length digest =? 64)%nat && lower_hex digest
  | None => false
  end.

Definition video_assets_media_shape (a : AssetRow) : bool :=
  (length a.(arMD5) =? 16)%nat && (8 <=? length a.(arFrameHashes))%nat &&
  (length a.(arFrameHashes) mod 8 =? 0)%nat && (0 <? a.(arWidth)) && (0 <? a.(arHeight)) &&
  (0 <? a.(arDurationMS)) && (0 <? a.(arFileSizeBytes)) &&
  match a.(arBitrate) with Some b => 0 <? b | None => true end.

(** The checks of the row with this id, and the widths of its columns. *)
Definition video_assets_check (id : UUID) (a : AssetRow) : bool :=
  negb (a.(arHashVersion) =? "")%string &&
  match a.(arMediaFingerprint) with Some f => video_assets_media_fingerprint_format f | None => true end &&
  video_assets_media_shape a && (1 <=? a.(arPopularity)) &&
  match a.(arFrameRate) with Some f => positive_double f | None => true end &&
  negb (bool_decide (a.(arSupersededBy) = Some id)) &&
  match a.(arObjectReclaimedAt) with Some t => negb (Before t a.(arFirstSeenAt)) | None => true end &&
  int4 a.(arWidth) && int4 a.(arHeight) && int4 a.(arDurationMS) && int4 a.(arPopularity) &&
  match a.(arBitrate) with Some b => int4 b | None => true end.

Definition video_shares_removed_state (s : ShareRow) : bool :=
  (one_of s.(shState) [ShareStateActive; ShareStateSuperseded] &&
     is_nil s.(shRemovedReason) && is_nil s.(shRemovedAt)) ||
  ((s.(shState) =? ShareStateRemoved)%string && not_nil s.(shRemovedReason) &&
     not_nil s.(shRemovedAt)).

Definition video_shares_check (s : ShareRow) : bool :=
  ShareState_Valid s.(shState) && (1 <=? s.(shRank)) && int4 s.(shRank) &&
  match s.(shRemovedReason) with Some r => RemovalReason_Valid r | None => true end &&
  match s.(shExtractedMinute) with Some m => int4 m | None => true end &&
  video_shares_removed_state s.

(** ** Transactions on the video tables *)

Inductive dbError :=
  | ErrNotFound
  | ErrSelectionStale
  | ErrSelectionRemoved
  | ErrSelectionMedia
  | failed (why : string).

Definition MTx (A : Type) : Type := Media → dbError + (A * Media).

#[global] Instance MTx_ret : MRet MTx := λ A a s, inr (a, s).
#[global] Instance MTx_bind : MBind MTx := λ A B k m s,
  match m s with inl err => inl err | inr (a, s') => k a s' end.

Definition throw {A} (err : dbError) : MTx A := λ _, inl err.
Definition query {A} (q : Media → A) : MTx A := λ s, inr (q s, s).
Definition modify (f : Media → Media) : MTx unit := λ s, inr (tt, f s).
Definition assert (b : bool) (err : dbError) : MTx unit := if b then mret tt else throw err.
Definition require (b : bool) (why : string) : MTx unit := assert b (failed why).

(** Statements on the other tables. *)
Definition lift {A} (m : pg.Tx A) : MTx A := λ s,
  match m s.(mDB) with
  | inl err => inl (failed err)
  | inr (a, db) => inr (a, s <| mDB := db |>)
  end.

(** A loop over a list, for its effect, and one that accumulates a result. *)
Fixpoint forEach {A} (l : list A) (body : A → MTx unit) : MTx unit :=
  match l with
  | [] => mret tt
  | x :: l => _ ← body x; forEach l body
  end.

Fixpoint foldTx {A R} (body : R → A → MTx R) (r : R) (l : list A) : MTx R :=
  match l with
  | [] => mret r
  | x :: l => r ← body r x; foldTx body r l
  end.

(** *** Statements on single tables *)

Definition setAsset (id : UUID) (a : AssetRow) (s : Media) : Media :=
  s <| mAssets ::= <[id := a]> |>.
Definition setShare (id : string) (h : ShareRow) (s : Media) : Media :=
  s <| mShares ::= <[id := h]> |>.

Definition selectAsset (id : UUID) : MTx (option AssetRow) := query (λ s, mAssets s !! id).
Definition selectShare (id : string) : MTx (option ShareRow) := query (λ s, mShares s !! id).

Definition sameLineage (eventID : UUID) (fixtureID : Z) (a : AssetRow) : bool :=
  bool_decide (a.(arEventID) = eventID) && (a.(arFixtureID) =? fixtureID).

(** video_assets_superseded_identity_fkey *)
Definition superseded_fkey (s : Media) (a : AssetRow) : bool :=
  match a.(arSupersededBy) with
  | None => true
  | Some k =>
      match mAssets s !! k with
      | Some b => sameLineage a.(arEventID) a.(arFixtureID) b
      | None => false
      end
  end.

(** [INSERT .. ON CONFLICT (event_id, md5) DO NOTHING]: whether the row is new. *)
Definition insertAssetRow (id : UUID) (a : AssetRow) : MTx bool :=
  _ ← require (video_assets_check id a) "video_assets check";
  s ← query (λ s, s);
  if bool_decide (map_Exists (λ _ b, arEventID b = arEventID a ∧ arMD5 b = arMD5 a) (mAssets s))
  then mret false
  else
    _ ← require (is_nil (mAssets s !! id)) "video_assets_pkey";
    _ ← require (is_nil a.(arMediaFingerprint) || bool_decide (map_Forall (λ _ b,
          ¬ (arEventID b = arEventID a ∧ arMediaFingerprint b = arMediaFingerprint a)) (mAssets s)))
        "video_assets_event_media_fingerprint";
    _ ← require match pg.dbEvents (mDB s) !! a.(arEventID) with
          | Some e => e.(event.eFixtureID) =? a.(arFixtureID) | None => false end
        "video_assets_event_fixture_fkey";
    _ ← require (superseded_fkey s a) "video_assets_superseded_identity_fkey";
    _ ← modify (setAsset id a);
    mret true.

(** [UPDATE video_assets SET .. WHERE id = ..]: whether the row is there. *)
Definition updateAssetRow (id : UUID) (set_ : AssetRow → AssetRow) : MTx bool :=
  a ← selectAsset id;
  match a with
  | None => mret false
  | Some a =>
      let a' := set_ a in
      _ ← require (video_assets_check id a') "video_assets check";
      s ← query (λ s, s);
      _ ← require (superseded_fkey s a') "video_assets_superseded_identity_fkey";
      _ ← modify (setAsset id a');
      mret true
  end.

Definition activeRank (s : Media) (id : string) (h : ShareRow) : bool :=
  negb (h.(shState) =? ShareStateActive)%string || bool_decide (map_Forall (λ id' h',
    ¬ (id' ≠ id ∧ shState h' = ShareStateActive ∧ shEventID h' = shEventID h ∧ shRank h' = shRank h))
    (mShares s)).

Definition share_fkey (s : Media) (h : ShareRow) : bool :=
  match mAssets s !! h.(shAssetID) with
  | Some a => bool_decide (a.(arEventID) = h.(shEventID)) | None => false
  end.

Definition sameShare (h : ShareRow) (h' : ShareRow) : Prop :=
  shEventID h' = shEventID h ∧ shAssetID h' = shAssetID h.

(** [INSERT INTO video_shares], and the same with [ON CONFLICT (event_id, asset_id) DO
    NOTHING]: whether the row is new. *)
Definition insertShareRow (id : string) (h : ShareRow) : MTx unit :=
  _ ← require (video_shares_check h) "video_shares check";
  s ← query (λ s, s);
  _ ← require (is_nil (mShares s !! id)) "video_shares_pkey";
  _ ← require (activeRank s id h) "video_shares_event_rank_active";
  _ ← require (bool_decide (map_Forall (λ _ h', ¬ sameShare h h') (mShares s))) "video_shares_event_asset";
  _ ← require (share_fkey s h) "video_shares_asset_event_fkey";
  modify (setShare id h).

Definition insertShareOnce (id : string) (h : ShareRow) : MTx bool :=
  _ ← require (video_shares_check h) "video_shares check";
  s ← query (λ s, s);
  if bool_decide (map_Exists (λ _ h', sameShare h h') (mShares s)) then mret false
  else _ ← insertShareRow id h; mret true.

(** [UPDATE video_shares SET .. WHERE id = ..]. *)
Definition updateShareRow (id : string) (set_ : ShareRow → ShareRow) : MTx bool :=
  h ← selectShare id;
  match h with
  | None => mret false
  | Some h =>
      let h' := set_ h in
      _ ← require (video_shares_check h') "video_shares check";
      s ← query (λ s, s);
      _ ← require (activeRank s id h') "video_shares_event_rank_active";
      _ ← modify (setShare id h');
      mret true
  end.

End media.
