(* ===== verification/Gallery.v ===== *)
(** internal/infra/pg/video_repo.go: the repositories of assets and of shares, the
    public listing of an event's clips with its order and its visibility, and the
    resolution of a public link. *)
From S2P Require Import Prelude GoStrings Fixture Event Vision Video Selection Jsonb Discovery Store Lineage Media.
From Stdlib Require Import SpecFloat.
#[local] Open Scope string_scope.
#[local] Open Scope list_scope.
#[local] Open Scope Z_scope.
Import video media.

Module gallery.

(** ** AssetRepo *)

Definition scanAsset (id : UUID) (a : AssetRow) : Asset :=
  mkAsset (Some id) (Some a.(arEventID)) a.(arFixtureID) a.(arS3Bucket) a.(arS3Key)
    a.(arObjectReclaimedAt) a.(arMD5) (default "" a.(arMediaFingerprint))
    (NormalizeFrameHashVersion a.(arHashVersion)) (decodeFrameHashes a.(arFrameHashes))
    a.(arWidth) a.(arHeight) a.(arDurationMS) a.(arFileSizeBytes) a.(arBitrate) a.(arFrameRate)
    a.(arPopularity) a.(arSupersededBy) a.(arFirstSeenAt).

Definition nullIfEmpty (s : string) : option string := if (s =? "")%string then None else Some s.

(** The row an INSERT writes for an asset of event [eventID]. *)
Definition assetRow (eventID : UUID) (a : Asset) (popularity : Z) : AssetRow :=
  mkAssetRow eventID a.(aFixtureID) a.(aS3Bucket) a.(aS3Key) None a.(aMD5)
    (nullIfEmpty a.(aMediaFingerprint)) (NormalizeFrameHashVersion a.(aFrameHashVersion))
    (encodeFrameHashes a.(aFrameHashes)) a.(aWidth) a.(aHeight) a.(aDurationMS)
    a.(aFileSizeBytes) a.(aBitrate) a.(aFrameRate) popularity a.(aSupersededBy)
    (pg.timestamptz a.(aFirstSeenAt)).

(** The nil UUID names no event, and no asset is given it. *)
Definition insertAssetOf (a : Asset) (popularity : Z) : MTx bool :=
  match a.(aID), a.(aEventID) with
  | Some id, Some eventID => insertAssetRow id (assetRow eventID a popularity)
  | _, _ => throw (failed "nil identity")
  end.

Module assetrepo.

Definition Get (id : option UUID) : MTx Asset :=
  match id with
  | None => throw ErrNotFound
  | Some id =>
      a ← selectAsset id;
      match a with Some a => mret (scanAsset id a) | None => throw ErrNotFound end
  end.

Definition firstSeenOrder : pg.ordering (UUID * AssetRow) :=
  [pg.asc (λ r, arFirstSeenAt r.2); pg.asc (λ r, Z.pos r.1)].

Definition assetsOf (eventID : UUID) (s : Media) : list (UUID * AssetRow) :=
  pg.orderBy firstSeenOrder (filter (λ r, arEventID r.2 = eventID) (map_to_list (mAssets s))).

Definition ListByEvent (eventID : UUID) : MTx (list Asset) :=
  query (λ s, (λ r, scanAsset r.1 r.2) <$> assetsOf eventID s).

Definition InsertAsset (a : Asset) : MTx bool :=
  match Asset_ValidateInvariants a with
  | Some err => throw (failed err)
  | None => insertAssetOf a a.(aPopularity)
  end.

Definition AddPopularity (id : UUID) (n : Z) : MTx unit :=
  let n := if n <? 1 then 1 else n in
  found ← updateAssetRow id (λ a, a <| arPopularity ::= λ p, p + n |>);
  assert found ErrNotFound.

(** One statement: the winner takes the votes of a loser that is still live. *)
Definition Supersede (loserID winnerID : UUID) : MTx unit :=
  if bool_decide (loserID = winnerID) then mret tt
  else
    loser ← selectAsset loserID;
    match loser with
    | Some l =>
        if is_nil l.(arSupersededBy) then
          _ ← updateAssetRow loserID (λ a, a <| arSupersededBy := Some winnerID |>);
          _ ← updateAssetRow winnerID (λ w, w <| arPopularity ::= λ p, p + l.(arPopularity) |>);
          mret tt
        else mret tt
    | None => mret tt
    end.

Record ObjectRef := mkObjectRef { orAssetID : UUID; orBucket : string; orKey : string }.

Definition ListUnreclaimedObjectsByEvent (eventID : UUID) : MTx (list ObjectRef) :=
  query (λ s, (λ r, mkObjectRef r.1 (arS3Bucket r.2) (arS3Key r.2)) <$>
    filter (λ r, arObjectReclaimedAt r.2 = None) (assetsOf eventID s)).

Definition MarkObjectReclaimed (now : Time) (assetID : UUID) : MTx unit :=
  found ← updateAssetRow assetID (λ a, a <| arObjectReclaimedAt ::= λ t, Some (default now t) |>);
  assert found ErrNotFound.

(** SELECT DISTINCT .. ORDER BY event_id *)
Definition unreclaimedBefore (cutoff : Time) (s : Media) (a : AssetRow) : bool :=
  is_nil a.(arObjectReclaimedAt) &&
  match pg.dbFixtures (mDB s) !! a.(arFixtureID) with
  | Some f => (f.(fixture.fState) =? fixture.StateCompleted)%string && Before f.(fixture.fKickoff) cutoff
  | None => false
  end.

Definition ListUnreclaimedEventIDsBefore (cutoff : Time) : MTx (list UUID) :=
  query (λ s, pg.orderBy [pg.asc Z.pos] (remove_dups
    (arEventID ∘ snd <$> filter (λ r, unreclaimedBefore cutoff s r.2 = true) (map_to_list (mAssets s))))).

End assetrepo.

(** ** ShareRepo *)

Definition scanShare (id : string) (h : ShareRow) : Share :=
  mkShare id (Some h.(shAssetID)) (Some h.(shEventID)) h.(shTimestampVerified)
    h.(shExtractedMinute) h.(shState) h.(shRemovedReason) h.(shRemovedAt) h.(shRank)
    h.(shCreatedAt).

Definition shareRow (assetID eventID : UUID) (sh : Share) : ShareRow :=
  mkShareRow assetID eventID sh.(sTimestampVerified) sh.(sExtractedMinute) sh.(sState)
    sh.(sRemovedReason) (pg.timestamptz <$> sh.(sRemovedAt)) sh.(sRank)
    (pg.timestamptz sh.(sCreatedAt)).

(** Text compares byte by byte. *)
Definition ascText {A} (f : A → string) : A → A → comparison := λ x y, String.compare (f x) (f y).
Definition descBool {A} (f : A → bool) : A → A → comparison :=
  pg.desc (λ x, if f x then 1 else 0).

Module sharerepo.

Definition Get (id : string) : MTx Share :=
  h ← selectShare id;
  match h with Some h => mret (scanShare id h) | None => throw ErrNotFound end.

(** A share with the row of its asset. *)
Record listed := mkListed { liID : string; liShare : ShareRow; liAsset : AssetRow }.

Definition withAsset (s : Media) (r : string * ShareRow) : option listed :=
  a ← mAssets s !! shAssetID r.2; Some (mkListed r.1 r.2 a).

Definition evidenceOrder : pg.ordering listed :=
  [descBool (λ l, shTimestampVerified (liShare l)); pg.desc (λ l, arPopularity (liAsset l));
   pg.desc (λ l, arFileSizeBytes (liAsset l)); pg.asc (λ l, shCreatedAt (liShare l));
   ascText liID].

Definition sharesOf (eventID : UUID) (s : Media) : list listed :=
  omap (withAsset s) (filter (λ r, shEventID r.2 = eventID) (map_to_list (mShares s))).

Definition inactive (l : listed) : bool := negb (shState (liShare l) =? ShareStateActive)%string.

Definition GetByEvent (eventID : UUID) : MTx (list Share) :=
  query (λ s, (λ l, scanShare (liID l) (liShare l)) <$>
    pg.orderBy (pg.asc (λ l, if inactive l then 1 else 0) :: evidenceOrder) (sharesOf eventID s)).

(** *** The public listing *)

Definition PublicVisibilityPopularityThreshold : Z := 3.
Definition PublicVisibilitySingletonPopularity : Z := 1.

Record LiveClip := mkLiveClip {
  lcShareID : string;
  lcRank : Z;
  lcVerified : bool;
  lcExtractedMinute : option Z;
  lcPopularity : Z;
  lcWidth : Z;
  lcHeight : Z;
  lcDurationMS : Z }.

Definition isLive (l : listed) : bool :=
  (shState (liShare l) =? ShareStateActive)%string && is_nil (arSupersededBy (liAsset l)) &&
  is_nil (arObjectReclaimedAt (liAsset l)).

Definition live (eventID : UUID) (s : Media) : list listed :=
  filter (λ l, isLive l = true) (sharesOf eventID s).

Definition verified (l : listed) : bool := shTimestampVerified (liShare l).
Definition atThreshold (l : listed) : bool :=
  PublicVisibilityPopularityThreshold <=? arPopularity (liAsset l).
Definition singleton (l : listed) : bool :=
  arPopularity (liAsset l) =? PublicVisibilitySingletonPopularity.

(** What a verified or an unverified clip at the threshold suppresses. *)
Definition visible (all : list listed) (l : listed) : bool :=
  negb (singleton l) ||
  negb (existsb (λ x, verified x && atThreshold x) all ||
        negb (verified l) && existsb (λ x, negb (verified x) && atThreshold x) all).

Definition ranked (all : list listed) : list listed :=
  pg.orderBy evidenceOrder (filter (λ l, visible all l = true) all).

Definition liveClip (i : nat) (l : listed) : LiveClip :=
  mkLiveClip (liID l) (Z.of_nat i + 1) (verified l) (shExtractedMinute (liShare l))
    (arPopularity (liAsset l)) (arWidth (liAsset l)) (arHeight (liAsset l)) (arDurationMS (liAsset l)).

Definition liveClips (eventID : UUID) (s : Media) : list LiveClip :=
  imap liveClip (ranked (live eventID s)).

(** Events without public clips are omitted. *)
Definition ListLiveForEvents (eventIDs : list UUID) : MTx (gmap UUID (list LiveClip)) :=
  query (λ s, list_to_map (omap (λ e,
    match liveClips e s with [] => None | clips => Some (e, clips) end) eventIDs)).

Definition ListLiveForEvent (eventID : UUID) : MTx (list LiveClip) :=
  m ← ListLiveForEvents [eventID]; mret (default [] (m !! eventID)).

(** *** Public links *)

Definition successor (s : Media) (id : UUID) : option (option UUID) :=
  arSupersededBy <$> mAssets s !! id.

Record ResolvedShare := mkResolvedShare {
  rsState : ShareState;
  rsBucket : string;
  rsKey : string }.

(** The recursion stops at depth 64. *)
Definition maxDepth : nat := 64.

Definition ResolveShare (id : string) : MTx ResolvedShare :=
  h ← selectShare id;
  s ← query (λ s, s);
  match h with
  | None => throw ErrNotFound
  | Some h =>
      match lineage.climb (successor s) maxDepth h.(shAssetID) ≫= λ r, mAssets s !! r with
      | None => throw ErrNotFound
      | Some a =>
          mret (mkResolvedShare (if not_nil a.(arObjectReclaimedAt) then ShareStateRemoved else h.(shState))
            a.(arS3Bucket) a.(arS3Key))
      end
  end.

(** *** Writes *)

Definition insertShareOf (sh : Share) : MTx unit :=
  match sh.(sAssetID), sh.(sEventID) with
  | Some assetID, Some eventID => insertShareRow sh.(sID) (shareRow assetID eventID sh)
  | _, _ => throw (failed "nil identity")
  end.

Definition Insert (sh : Share) : MTx unit :=
  match Share_ValidateInvariants sh with
  | Some err => throw (failed err)
  | None => insertShareOf sh
  end.

Definition mutableColumns (new : ShareRow) (h : ShareRow) : ShareRow :=
  h <| shState := new.(shState) |> <| shRemovedReason := new.(shRemovedReason) |>
    <| shRemovedAt := new.(shRemovedAt) |> <| shRank := new.(shRank) |>
    <| shExtractedMinute := new.(shExtractedMinute) |>
    <| shTimestampVerified := new.(shTimestampVerified) |>.

Definition Upsert (sh : Share) : MTx unit :=
  match Share_ValidateInvariants sh with
  | Some err => throw (failed err)
  | None =>
      h ← selectShare sh.(sID);
      match h, sh.(sAssetID), sh.(sEventID) with
      | None, _, _ => insertShareOf sh
      | Some h, Some assetID, Some eventID =>
          let new := shareRow assetID eventID sh in
          _ ← require (video_shares_check new) "video_shares check";
          _ ← updateShareRow sh.(sID) (mutableColumns new);
          mret tt
      | _, _, _ => throw (failed "nil identity")
      end
  end.

Definition supersede (h : ShareRow) : ShareRow :=
  if (shState h =? ShareStateActive)%string then h <| shState := ShareStateSuperseded |> else h.

Definition MarkSuperseded (id : string) : MTx unit := _ ← updateShareRow id supersede; mret tt.

Definition revoke (now : Time) (reason : RemovalReason) (h : ShareRow) : ShareRow :=
  if (shState h =? ShareStateRemoved)%string then h
  else h <| shState := ShareStateRemoved |> <| shRemovedReason := Some reason |>
         <| shRemovedAt := Some now |>.

Definition revokeAll (now : Time) (eventID : UUID) (reason : RemovalReason) (s : Media) : Media :=
  s <| mShares ::= fmap (λ h, if bool_decide (shEventID h = eventID) then revoke now reason h else h) |>.

Definition RemoveByEvent (now : Time) (eventID : UUID) (reason : RemovalReason) : MTx unit :=
  _ ← require (RemovalReason_Valid reason) "invalid input value for enum removal_reason";
  modify (revokeAll now eventID reason).

(** The pre-FF-066 writer.  The shift moves the ranks of the active shares out of the
    way; a rank that is that large already may meet a shifted one before it is shifted
    itself, which the unique index refuses or not by the order of the rows: here it
    does. *)
Definition rankOffset : Z := 1000000.

Definition activeOf (eventID : UUID) (h : ShareRow) : bool :=
  bool_decide (shEventID h = eventID) && (shState h =? ShareStateActive)%string.

Definition shiftRanks (eventID : UUID) : MTx unit :=
  s ← query (λ s, s);
  let active := filter (λ r, activeOf eventID r.2 = true) (map_to_list (mShares s)) in
  _ ← require (forallb (λ r, int4 (shRank r.2 + rankOffset) &&
        forallb (λ q, negb (shRank q.2 =? shRank r.2 + rankOffset)) active) active)
      "video_shares_event_rank_active";
  modify (λ s, s <| mShares ::= fmap (λ h,
    if activeOf eventID h then h <| shRank ::= λ r, r + rankOffset |> else h) |>).

Definition rankItem : Type := Share * Asset.

Definition rankedBefore (a b : rankItem) : bool := CompareShares a.1 b.1 a.2 b.2 <? 0.

(** The columns the query reads of the asset are its popularity and its size. *)
Definition rankItemOf (l : listed) : rankItem :=
  (scanShare (liID l) (liShare l),
   mkAsset None None 0 "" "" None [] "" "" [] 0 0 0 (arFileSizeBytes (liAsset l)) None None
     (arPopularity (liAsset l)) None 0).

Definition RebalanceRanks (eventID : UUID) : MTx Z :=
  s ← query (λ s, s);
  let items := sort_by rankedBefore
    (rankItemOf <$> filter (λ l, negb (inactive l) = true) (sharesOf eventID s)) in
  match items with
  | [] => mret 0
  | _ =>
      _ ← shiftRanks eventID;
      foldTx (λ n (ix : nat * rankItem),
        let newRank := Z.of_nat ix.1 + 1 in
        _ ← updateShareRow (sID ix.2.1) (λ h, h <| shRank := newRank |>);
        mret (if sRank ix.2.1 =? newRank then n else n + 1)) 0 (imap pair items)
  end.

End sharerepo.
End gallery.
