(* ===== verification/Placement.v ===== *)
(** internal/infra/pg/video_placement_repo.go and video_validation.go: the atomic
    placement of an accepted candidate cluster - the winner, the observed variant, its
    validation, the public share, the credit of every candidate and the retirement of
    the losers, in one transaction under the lock of the event. *)
From S2P Require Import Prelude GoStrings Fixture Event Vision Video Selection Jsonb Discovery Store Candidates Lineage Media Gallery.
From Stdlib Require Import SpecFloat.
#[local] Open Scope string_scope.
#[local] Open Scope list_scope.
#[local] Open Scope Z_scope.
Import discoverycontract jsonb video media gallery.

Module placement.

(** ** Inputs (domain/video/placement.go) *)

(** An empty detail is [None]. *)
Record PlacementCandidate := mkPlacementCandidate {
  pcEvidence : CandidateEvidence;
  pcOutcome : CandidateOutcome;
  pcDetail : option Json;
  pcRawMD5 : string }.

Record ClipPlacement := mkClipPlacement {
  plEventID : UUID;
  plFixtureID : Z;
  plObservedAssetID : option UUID;
  plWinnerAssetID : option UUID;
  plWinner : option Asset;
  plVariant : option Asset;
  plVerified : bool;
  plExtractedMinute : option Z;
  plLoserAssetIDs : list (option UUID);
  plCandidates : list PlacementCandidate;
  plCommittedAt : Time;
  plValidation : option vision.Evidence;
  plSelection : option SelectionRequest }.

#[global] Instance eta_ClipPlacement : Eta ClipPlacement := λ p,
  mkClipPlacement p.(plEventID) p.(plFixtureID) p.(plObservedAssetID) p.(plWinnerAssetID)
    p.(plWinner) p.(plVariant) p.(plVerified) p.(plExtractedMinute) p.(plLoserAssetIDs)
    p.(plCandidates) p.(plCommittedAt) p.(plValidation) p.(plSelection).

#[global] Instance Evidence_eq_dec : EqDecision vision.Evidence.
Proof.
  assert (EqDecision spec_float) by solve_decision.
  assert (EqDecision vision.EvaluationOrigin) by solve_decision.
  assert (EqDecision vision.Expected) by solve_decision.
  assert (EqDecision vision.ClockReading) by solve_decision.
  assert (EqDecision vision.Evaluation) by solve_decision.
  assert (EqDecision vision.FrameObservation) by solve_decision.
  solve_decision.
Defined.

(** What a transaction takes from outside: NOW(), time.Now(), the random bytes of the
    share minted for an asset, the text of a UUID, and the lengths of the evidence as
    the Go encoder and as PostgreSQL print it. *)
Class Env := {
  now : Time;
  clock : Time;
  random : UUID → option (list Byte.byte);
  text : UUID → string;
  marshalledLength : vision.Evidence → option Z;
  storedLength : vision.Evidence → Z }.

Section statements.
Context `{Env}.

Definition placementNow (at_ : Time) : Time := if IsZero at_ then UTC clock else UTC at_.

(** ** Validation of the input *)

Definition assetError (a : Asset) : bool := not_nil (Asset_ValidateInvariants a).

Definition scopeOf (p : ClipPlacement) (a : Asset) : bool :=
  bool_decide (a.(aEventID) = Some p.(plEventID)) && (a.(aFixtureID) =? p.(plFixtureID)).

Definition winnerError (p : ClipPlacement) (w : Asset) : option string :=
  if is_nil w.(aID) || negb (scopeOf p w) then Some "new winner identity does not match placement"
  else if assetError w then Some "new winner"
  else if not_nil p.(plObservedAssetID) && negb (bool_decide (p.(plObservedAssetID) = w.(aID)))
  then Some "new winner differs from observed variant" else None.

Definition variantError (p : ClipPlacement) (v : Asset) : option string :=
  if is_nil p.(plWinnerAssetID) || not_nil p.(plWinner) ||
    negb (bool_decide (p.(plObservedAssetID) = v.(aID))) || negb (scopeOf p v)
  then Some "observed variant identity does not match placement"
  else if assetError v then Some "observed variant"
  else if negb (bool_decide (v.(aSupersededBy) = p.(plWinnerAssetID)))
  then Some "observed variant does not point to the existing winner" else None.

Definition evidenceError (p : ClipPlacement) (e : vision.Evidence) : option string :=
  match vision.Evidence_Validate marshalledLength (Some e) with
  | Some err => Some err
  | None =>
      if is_nil p.(plObservedAssetID) ||
        negb (bool_decide (e.(vision.vdEventID) = Some p.(plEventID))) ||
        negb (e.(vision.vdFixtureID) =? p.(plFixtureID)) ||
        negb (Bool.eqb p.(plVerified)
          (e.(vision.vdEvaluation).(vision.evOutcome) =? vision.OutcomeVerified)%string) ||
        negb (bool_decide (p.(plExtractedMinute) = e.(vision.vdEvaluation).(vision.evMatchedMinute)))
      then Some "placement validation differs from its exact observation or verdict" else None
  end.

Definition candidateError (p : ClipPlacement) (c : PlacementCandidate) : option string :=
  let e := c.(pcEvidence) in
  if negb (bool_decide (e.(ceEventID) = p.(plEventID))) ||
    negb (e.(ceFixtureID) =? p.(plFixtureID)) || (e.(ceSearchAttempt) <=? 0) ||
    (e.(ceQuery) =? "")%string || (e.(ceTweetURL) =? "")%string
  then Some "candidate evidence is incomplete"
  else if negb (one_of c.(pcOutcome) [OutcomePromoted; OutcomeDuplicate])
  then Some "placement candidate outcome is not accepted" else None.

Definition orFirst (err next : option string) : option string :=
  match err with Some _ => err | None => next end.

Definition validateClipPlacement (p : ClipPlacement) : option string :=
  if (p.(plFixtureID) <=? 0) || (length p.(plCandidates) =? 0)%nat
  then Some "incomplete event, fixture, or candidate set"
  else if Bool.eqb (is_nil p.(plWinner)) (is_nil p.(plWinnerAssetID))
  then Some "exactly one new or existing winner is required"
  else
    orFirst (p.(plWinner) ≫= winnerError p)
      (orFirst (p.(plVariant) ≫= variantError p)
        (orFirst (p.(plValidation) ≫= evidenceError p)
          (head (omap (candidateError p) p.(plCandidates))))).

(** ** Assets *)

Definition insertPlacementAsset (a : Asset) : MTx bool := insertAssetOf a 1.

Definition getAssetTx (id : option UUID) : MTx Asset := assetrepo.Get id.

Definition samePlacementAsset (got want : Asset) : bool :=
  bool_decide (got.(aID) = want.(aID)) && bool_decide (got.(aEventID) = want.(aEventID)) &&
  (got.(aFixtureID) =? want.(aFixtureID)) && (got.(aS3Bucket) =? want.(aS3Bucket))%string &&
  (got.(aS3Key) =? want.(aS3Key))%string && bool_decide (got.(aMD5) = want.(aMD5)) &&
  (got.(aMediaFingerprint) =? want.(aMediaFingerprint))%string &&
  (got.(aFrameHashVersion) =? NormalizeFrameHashVersion want.(aFrameHashVersion))%string &&
  bool_decide (encodeFrameHashes got.(aFrameHashes) = encodeFrameHashes want.(aFrameHashes)) &&
  (got.(aWidth) =? want.(aWidth)) && (got.(aHeight) =? want.(aHeight)) &&
  (got.(aDurationMS) =? want.(aDurationMS)) && (got.(aFileSizeBytes) =? want.(aFileSizeBytes)) &&
  bool_decide (got.(aBitrate) = want.(aBitrate)) &&
  match got.(aFrameRate), want.(aFrameRate) with
  | None, None => true | Some f, Some g => SFeqb f g | _, _ => false
  end && bool_decide (got.(aSupersededBy) = want.(aSupersededBy)).

(** The walk from the observed variant along the pointers; the visited rows are
    distinct, so their number bounds it. *)
Fixpoint walkToWinner (p : ClipPlacement) (winnerID : UUID) (fuel : nat) (visited : gset UUID)
    (current : UUID) : MTx unit :=
  if bool_decide (current = winnerID) then mret tt
  else if bool_decide (current ∈ visited) then throw (failed "observed variant lineage cycles")
  else
    a ← selectAsset current;
    match a with
    | None => throw (failed "read observed variant")
    | Some a =>
        if negb (sameLineage p.(plEventID) p.(plFixtureID) a)
        then throw (failed "observed variant belongs to another event or fixture")
        else
          match a.(arSupersededBy), fuel with
          | None, _ => throw (failed "observed variant does not resolve to winner")
          | Some _, O => throw (failed "out of fuel")
          | Some next, S fuel => walkToWinner p winnerID fuel ({[current]} ∪ visited) next
          end
    end.

Definition requireObservedRoot (p : ClipPlacement) (observedID winnerID : UUID) : MTx unit :=
  n ← query (λ s, size (mAssets s));
  walkToWinner p winnerID n ∅ observedID.

(** ** Validations (video_validation.go) *)

(** video_asset_validations_evidence *)
Definition validation_check (id : UUID) (v : ValidationRow) : bool :=
  let e := v.(vaEvidence) in
  (storedLength e <=? vision.MaxEvidenceBytes) &&
  bool_decide (e.(vision.vdID) = Some id) && bool_decide (e.(vision.vdEventID) = Some v.(vaEventID)) &&
  (e.(vision.vdFixtureID) =? v.(vaFixtureID)) && (e.(vision.vdVersion) =? 1) &&
  (1 <=? Z.of_nat (length e.(vision.vdFrames))) && (Z.of_nat (length e.(vision.vdFrames)) <=? 3) &&
  one_of e.(vision.vdEvaluation).(vision.evOutcome) ["verified"; "unverified"].

Definition insertValidation (id : UUID) (v : ValidationRow) : MTx unit :=
  _ ← require (validation_check id v) "video_asset_validations_evidence";
  s ← query (λ s, s);
  match mValidations s !! id with
  | Some _ => mret tt
  | None =>
      _ ← require match mAssets s !! v.(vaAssetID) with
            | Some a => sameLineage v.(vaEventID) v.(vaFixtureID) a | None => false end
          "video_asset_validations_asset_fkey";
      modify (λ s, s <| mValidations ::= <[id := v]> |>)
  end.

Definition persistPlacementValidation (p : ClipPlacement) : MTx unit :=
  match p.(plValidation), p.(plObservedAssetID) with
  | None, _ => mret tt
  | Some e, observedID =>
      observed ← getAssetTx observedID;
      _ ← require (e.(vision.vdMD5) =? EncodeToString observed.(aMD5))%string
            "validation does not describe observed bytes";
      match e.(vision.vdID), observedID with
      | Some id, Some assetID =>
          let v := mkValidationRow assetID p.(plEventID) p.(plFixtureID) e now in
          _ ← insertValidation id v;
          s ← query (λ s, s);
          require match mValidations s !! id with
            | Some v' => bool_decide (vaAssetID v' = vaAssetID v) &&
                bool_decide (vaEventID v' = vaEventID v) && (vaFixtureID v' =? vaFixtureID v) &&
                bool_decide (vaEvidence v' = vaEvidence v)
            | None => false end
            "validation identity reused with different evidence"
      | _, _ => throw (failed "nil identity")
      end
  end.

(** ** Shares *)

Definition shareFor (eventID assetID : UUID) (s : Media) : option (string * ShareRow) :=
  head (filter (λ r, shEventID r.2 = eventID ∧ shAssetID r.2 = assetID) (map_to_list (mShares s))).

(** SELECT COALESCE(MAX(rank), 0) of the active shares of the event. *)
Definition maxRank (eventID : UUID) (s : Media) : Z :=
  foldr Z.max 0 (shRank ∘ snd <$>
    filter (λ r, sharerepo.activeOf eventID r.2 = true) (map_to_list (mShares s))).

Definition requireActive (r : string * ShareRow) : MTx string :=
  _ ← require (shState r.2 =? ShareStateActive)%string "winner share is not active";
  mret r.1.

Definition ensurePlacementShare (p : ClipPlacement) (winnerID : UUID) : MTx string :=
  s ← query (λ s, s);
  match shareFor p.(plEventID) winnerID s with
  | Some r => requireActive r
  | None =>
      let rank := maxRank p.(plEventID) s + 1 in
      match NewShare (random winnerID) (Some winnerID) (Some p.(plEventID)) p.(plVerified)
        p.(plExtractedMinute) rank p.(plCommittedAt) with
      | inr err => throw (failed err)
      | inl sh =>
          _ ← insertShareOnce sh.(sID) (shareRow winnerID p.(plEventID) sh);
          s ← query (λ s, s);
          match shareFor p.(plEventID) winnerID s with
          | Some r => requireActive r
          | None => throw (failed "read share")
          end
      end
  end.

(** ** Candidates *)

(** The foreign keys of an asset column of a candidate row. *)
Definition asset_fkey (eventID : UUID) (fixtureID : Z) (id : option UUID) (s : Media) : bool :=
  match id with
  | None => true
  | Some id =>
      match mAssets s !! id with Some a => sameLineage eventID fixtureID a | None => false end
  end.

Definition setCandidate (k : UUID * string) (c : pg.Candidate) : MTx unit :=
  _ ← require (candidaterepo.candidates_check c) "event_search_candidates check";
  s ← query (λ s, s);
  _ ← require (asset_fkey k.1 c.(pg.cdFixtureID) c.(pg.cdCreditedAssetID) s)
        "event_search_candidates_credited_identity_fkey";
  _ ← require (asset_fkey k.1 c.(pg.cdFixtureID) c.(pg.cdObservedAssetID) s)
        "event_search_candidates_observed_identity_fkey";
  lift (pg.modify (candidaterepo.setCandidate k c)).

(** [None]: not sixteen bytes in hexadecimal. *)
Definition rawBytes (md5 : string) : option (option string) :=
  if (md5 =? "")%string then Some None
  else
    b ← DecodeString md5;
    if (length b =? 16)%nat then Some (Some (String.string_of_list_byte b)) else None.

Definition creditedColumns (p : ClipPlacement) (winnerID : UUID) (c : PlacementCandidate)
    (raw : option string) (row : pg.Candidate) : pg.Candidate :=
  row <| pg.cdOutcomeClass := c.(pcOutcome) |> <| pg.cdRejectReason := None |>
    <| pg.cdOutcomeDetail ::= λ d, candidaterepo.mergedDetail d c.(pcDetail) |>
    <| pg.cdOutcomeAt ::= λ t,
      if (row.(pg.cdOutcomeClass) =? c.(pcOutcome))%string &&
        bool_decide (row.(pg.cdCreditedAssetID) = Some winnerID)
      then Some (default now t) else Some now |>
    <| pg.cdCreditedAssetID := Some winnerID |>
    <| pg.cdObservedAssetID ::= λ o, match o with Some _ => o | None => p.(plObservedAssetID) end |>
    <| pg.cdRawMD5 ::= λ o, match o with Some _ => o | None => raw end |>.

(** Whether the candidate adds a vote; an error refuses the placement. *)
Definition addsVote (winnerID : UUID) (losers : gset UUID) (row : pg.Candidate) : option bool :=
  match row.(pg.cdCreditedAssetID) with
  | None => Some (negb (Credited row.(pg.cdOutcomeClass)))
  | Some prior =>
      if bool_decide (prior = winnerID) || bool_decide (prior ∈ losers) then Some false else None
  end.

Definition differ {A} `{EqDecision A} (old new : option A) : bool :=
  match old, new with Some x, Some y => negb (bool_decide (x = y)) | _, _ => false end.

Definition creditPlacementCandidate (p : ClipPlacement) (winnerID : UUID) (losers : gset UUID)
    (c : PlacementCandidate) : MTx bool :=
  let e := c.(pcEvidence) in
  match rawBytes c.(pcRawMD5) with
  | None => throw (failed "invalid raw MD5")
  | Some raw =>
      let key := (p.(plEventID), e.(ceTweetURL)) in
      s ← query (λ s, s);
      match pg.dbCandidates (mDB s) !! key with
      | None =>
          let row := creditedColumns p winnerID c raw (candidaterepo.observedCandidate now e) in
          _ ← require match pg.dbEvents (mDB s) !! p.(plEventID) with
                | Some ev => ev.(event.eFixtureID) =? e.(ceFixtureID) | None => false end
              "event_search_candidates_event_fixture_fkey";
          _ ← setCandidate key row;
          mret true
      | Some row =>
          _ ← require (row.(pg.cdFixtureID) =? p.(plFixtureID)) "candidate fixture mismatch";
          _ ← require (negb (differ row.(pg.cdObservedAssetID) p.(plObservedAssetID)))
                "candidate already observed another asset";
          _ ← require (negb (differ row.(pg.cdRawMD5) raw)) "candidate changed raw bytes";
          match addsVote winnerID losers row with
          | None => throw (failed "candidate already credited")
          | Some added =>
              _ ← setCandidate key (creditedColumns p winnerID c raw row);
              mret added
          end
      end
  end.

(** ** Losers *)

Definition winnerDetail (winnerID : UUID) : Json :=
  jObject [("winner_asset_id", jString (text winnerID))].

Definition movedCredit (loserID winnerID : UUID) (c : pg.Candidate) : pg.Candidate :=
  if bool_decide (c.(pg.cdCreditedAssetID) = Some loserID) then
    let promoted := (c.(pg.cdOutcomeClass) =? OutcomePromoted)%string in
    c <| pg.cdCreditedAssetID := Some winnerID |>
      <| pg.cdOutcomeClass ::= λ o, if promoted then OutcomeSuperseded else o |>
      <| pg.cdOutcomeDetail ::= λ d, candidaterepo.mergedDetail d (Some (winnerDetail winnerID)) |>
      <| pg.cdOutcomeAt ::= λ t, if promoted then Some now else t |>
  else c.

Definition moveCredits (loserID winnerID : UUID) (db : pg.DB) : pg.DB :=
  db <| pg.dbCandidates ::= fmap (movedCredit loserID winnerID) |>.

Definition retireShares (assetID : UUID) (s : Media) : Media :=
  s <| mShares ::= fmap (λ h, if bool_decide (shAssetID h = assetID) then sharerepo.supersede h else h) |>.

Definition supersedePlacementLoser (eventID loserID winnerID : UUID) : MTx unit :=
  loser ← selectAsset loserID;
  match loser with
  | None => throw (failed "lock loser")
  | Some l =>
      _ ← require (bool_decide (l.(arEventID) = eventID)) "loser belongs to another event";
      _ ← require (negb (differ l.(arSupersededBy) (Some winnerID))) "loser already points elsewhere";
      _ ← (if is_nil l.(arSupersededBy) then
             _ ← updateAssetRow winnerID (λ w, w <| arPopularity ::= λ n, n + l.(arPopularity) |>);
             _ ← updateAssetRow loserID (λ l, l <| arSupersededBy := Some winnerID |>);
             mret tt
           else mret tt);
      _ ← modify (retireShares loserID);
      lift (pg.modify (moveCredits loserID winnerID))
  end.

(** ** The transaction *)

(** The retired assets: neither nil nor the winner, without repetition, in the order of
    their text. *)
Definition losersOf (p : ClipPlacement) (winnerID : UUID) : list UUID :=
  remove_dups (omap (λ l : option UUID, match l with
    | Some id => if bool_decide (id = winnerID) then None else Some id
    | None => None
    end) (sort_by selection.uuid_lt p.(plLoserAssetIDs))).

Definition insertWinner (p : ClipPlacement) : MTx bool :=
  match p.(plWinner) with Some w => insertPlacementAsset w | None => mret false end.

Definition insertVariant (p : ClipPlacement) : MTx bool :=
  match p.(plVariant) with
  | None => mret false
  | Some v =>
      created ← insertPlacementAsset v;
      observed ← getAssetTx v.(aID);
      _ ← require (samePlacementAsset observed v) "deterministic observed variant mismatch";
      mret created
  end.

Definition countVote (p : ClipPlacement) (winnerID : UUID) (losers : list UUID) (n : Z)
    (c : PlacementCandidate) : MTx Z :=
  added ← creditPlacementCandidate p winnerID (list_to_set losers) c;
  mret (if added : bool then n + 1 else n).

Definition addVotes (winnerID : UUID) (delta : Z) : MTx unit :=
  if 0 <? delta then
    _ ← updateAssetRow winnerID (λ w, w <| arPopularity ::= λ n, n + delta |>); mret tt
  else mret tt.

Definition applyClipPlacementTx (p : ClipPlacement) : MTx ClipPlacementResult :=
  winnerCreated ← insertWinner p;
  let wanted := match p.(plWinner) with Some w => w.(aID) | None => p.(plWinnerAssetID) end in
  winner ← getAssetTx wanted;
  _ ← require (scopeOf p winner && is_nil winner.(aSupersededBy)) "winner is not live in event";
  _ ← require match p.(plWinner) with Some w => samePlacementAsset winner w | None => true end
        "deterministic winner identity mismatch";
  match winner.(aID) with
  | None => throw (failed "nil identity")
  | Some winnerID =>
      observedCreated ← insertVariant p;
      _ ← match p.(plObservedAssetID) with
          | Some observedID => requireObservedRoot p observedID winnerID | None => mret tt end;
      _ ← persistPlacementValidation p;
      shareID ← ensurePlacementShare p winnerID;
      let losers := losersOf p winnerID in
      addedVotes ← foldTx (countVote p winnerID losers) 0 p.(plCandidates);
      _ ← require (negb (winnerCreated && (addedVotes =? 0)))
            "new winner received no candidate vote";
      _ ← addVotes winnerID (if winnerCreated then addedVotes - 1 else addedVotes);
      _ ← forEach losers (λ l, supersedePlacementLoser p.(plEventID) l winnerID);
      mret (mkClipPlacementResult (Some winnerID) shareID winnerCreated
        (winnerCreated || observedCreated) false None)
  end.

(** A placement that comes after the removal of its event closes its candidates and
    creates nothing. *)
Definition rejectCandidate (p : ClipPlacement) (c : PlacementCandidate) : MTx unit :=
  let e := c.(pcEvidence) in
  _ ← lift (candidaterepo.insertCandidateObservation now e);
  s ← query (λ s, s);
  match pg.dbCandidates (mDB s) !! (p.(plEventID), e.(ceTweetURL)) with
  | None => throw (failed "lock removed candidate")
  | Some row =>
      _ ← require (row.(pg.cdFixtureID) =? p.(plFixtureID)) "removed candidate fixture mismatch";
      if not_nil row.(pg.cdCreditedAssetID) || negb (row.(pg.cdOutcomeClass) =? "pending")%string
      then mret tt
      else
        _ ← lift (pg.terminalizePendingCandidatesForRemovedEvent clock p.(plEventID)
              e.(ceTweetURL) p.(plCommittedAt));
        mret tt
  end.

Definition rejectRemovedPlacementCandidates (p : ClipPlacement) : MTx unit :=
  forEach p.(plCandidates) (rejectCandidate p).

(** SELECT removed FROM events WHERE id = .. AND fixture_id = .. FOR UPDATE *)
Definition lockEvent (eventID : UUID) (fixtureID : Z) : MTx bool :=
  s ← query (λ s, s);
  match pg.dbEvents (mDB s) !! eventID with
  | Some e =>
      if e.(event.eFixtureID) =? fixtureID then mret e.(event.eRemoved)
      else throw (failed "event/fixture identity not found")
  | None => throw (failed "event/fixture identity not found")
  end.

End statements.
End placement.
