(* ===== verification/Reselect.v ===== *)
(** internal/infra/pg/video_selection_snapshot.go, video_selection_repo.go and
    video_placement_selection.go: the consistent snapshot of an event's accepted
    variants, the application of a selection plan (Selection.v) with its receipt, and
    the placement that selects in the same transaction.

    A digest is the hexadecimal SHA-256 of a value's JSON, a parameter. *)
From S2P Require Import Prelude GoStrings Fixture Event Vision Video Selection Jsonb Discovery Store Candidates Lineage Media Gallery Placement.
From Stdlib Require Import SpecFloat.
#[local] Open Scope string_scope.
#[local] Open Scope list_scope.
#[local] Open Scope Z_scope.
Import discoverycontract jsonb video selection media gallery placement.

Module reselect.

(** The digests, the identifiers PostgreSQL gives the candidate rows, and the bound on
    the JSON of a receipt. *)
Class Digests := {
  snapshotDigest : SelectionSnapshot → string;
  requestDigest : SelectionRequest → string;
  placementDigest : ClipPlacement → string;
  candidateID : UUID * string → UUID;
  receiptFits : CommitRow → bool }.

Section selection.
Context `{Env, Digests}.

(** ** The snapshot *)

Definition nodeOrder (a b : SelectionNode) : bool :=
  match snAsset a, snAsset b with Some x, Some y => uuid_lt (aID x) (aID y) | _, _ => false end.

Definition sourceOrder (a b : SelectionSource) : bool := uuid_lt (ssID a) (ssID b).

(** [None]: a node without its asset. *)
Definition Fingerprint (s : SelectionSnapshot) : option string :=
  if existsb (λ n, is_nil (snAsset n)) (spNodes s) then None
  else Some (snapshotDigest (mkSelectionSnapshot (spEventID s) (spFixtureID s) (spRemoved s)
    (sort_by nodeOrder (spNodes s)) (sort_by sourceOrder (spSources s)))).

(** The earliest validation of an asset. *)
Definition validationOrder : pg.ordering (UUID * ValidationRow) :=
  [pg.asc (λ v, vaRecordedAt v.2); pg.asc (λ v, Z.pos v.1)].

Definition validationFor (eventID assetID : UUID) (s : Media) : option vision.Evidence :=
  vaEvidence ∘ snd <$> head (pg.orderBy validationOrder
    (filter (λ v, vaEventID v.2 = eventID ∧ vaAssetID v.2 = assetID) (map_to_list (mValidations s)))).

Definition idOrder : pg.ordering (UUID * AssetRow) := [pg.asc (λ r, Z.pos r.1)].

Definition assetsByID (eventID : UUID) (s : Media) : list (UUID * AssetRow) :=
  pg.orderBy idOrder (filter (λ r, arEventID r.2 = eventID) (map_to_list (mAssets s))).

Definition selectionNode (eventID : UUID) (s : Media) (r : UUID * AssetRow) : SelectionNode :=
  mkSelectionNode (Some (scanAsset r.1 r.2))
    ((λ h : string * ShareRow, scanShare h.1 h.2) <$> shareFor eventID r.1 s)
    (validationFor eventID r.1 s).

Definition selectionSources (eventID : UUID) (s : Media) : list SelectionSource :=
  sort_by sourceOrder ((λ kc : UUID * string * pg.Candidate, mkSelectionSource (Some (candidateID kc.1))
      (pg.cdObservedAssetID kc.2) (pg.cdCreditedAssetID kc.2)) <$>
    filter (λ kc, kc.1.1 = eventID ∧ Credited (pg.cdOutcomeClass kc.2) = true)
      (map_to_list (pg.dbCandidates (mDB s)))).

(** Whether every share and every validation of the event has its asset, and no asset
    two shares. *)
Definition ownAssets (eventID : UUID) (s : Media) : bool :=
  bool_decide (map_Forall (λ id h, shEventID h = eventID →
    (arEventID <$> mAssets s !! shAssetID h) = Some eventID ∧
    map_Forall (λ id' h', shEventID h' = eventID → shAssetID h' = shAssetID h → id' = id) (mShares s))
    (mShares s)) &&
  bool_decide (map_Forall (λ _ v, vaEventID v = eventID →
    (arEventID <$> mAssets s !! vaAssetID v) = Some eventID) (mValidations s)).

Definition loadSelectionTx (eventID : UUID) : MTx SelectionSnapshot :=
  s ← query (λ s, s);
  match pg.dbEvents (mDB s) !! eventID with
  | None => throw (failed "no rows in result set")
  | Some e =>
      _ ← require (ownAssets eventID s) "selection row has missing or repeated asset";
      mret (mkSelectionSnapshot (Some eventID) e.(event.eFixtureID) e.(event.eRemoved)
        (selectionNode eventID s <$> assetsByID eventID s) (selectionSources eventID s))
  end.

(** ** Requests *)

Definition sameDigest (hash : string) : bool :=
  match DecodeString hash with Some b => (length b =? 32)%nat | None => false end.

Definition selectionRequestDigest (r : SelectionRequest) : option string :=
  if is_nil r.(sqID) || is_nil r.(sqEventID) || (r.(sqFixtureID) <=? 0) ||
    negb (sameDigest r.(sqSnapshotHash)) || not_nil (SelectionPolicy_Validate r.(sqPolicy))
  then None
  else Some (requestDigest (r <| sqPreparedAssetIDs ::= λ l, remove_dups (sort_by uuid_lt l) |>)).

(** What a retry may not change of a placement: everything but the preparation and the
    times of the activity. *)
Definition boundPlacement (p : ClipPlacement) : ClipPlacement :=
  p <| plSelection ::= fmap (λ r, r <| sqSnapshotHash := "" |> <| sqPreparedAssetIDs := [] |>) |>
    <| plCommittedAt := zero_time |>
    <| plWinner ::= fmap (λ a, a <| aFirstSeenAt := zero_time |>) |>
    <| plVariant ::= fmap (λ a, a <| aFirstSeenAt := zero_time |>) |>.

Definition placementSelectionDigest (p : ClipPlacement) (r : SelectionRequest) : option string :=
  if is_nil p.(plObservedAssetID) ||
    ((not_nil p.(plWinner) || not_nil p.(plVariant)) && is_nil p.(plValidation)) ||
    negb (bool_decide (r.(sqEventID) = Some p.(plEventID))) ||
    negb (r.(sqFixtureID) =? p.(plFixtureID)) || is_nil (selectionRequestDigest r)
  then None else Some (placementDigest (boundPlacement p)).

(** ** Applying a plan *)

Definition routeAsset (eventID : UUID) (owner : SelectionOwner) : MTx unit :=
  match owner.(soAssetID) with
  | None => mret tt
  | Some id =>
      let successor := if bool_decide (soAssetID owner = soKeeperID owner) then None else soKeeperID owner in
      a ← selectAsset id;
      match a with
      | Some a =>
          if bool_decide (a.(arEventID) = eventID) && negb (bool_decide (a.(arSupersededBy) = successor))
          then _ ← updateAssetRow id (λ a, a <| arSupersededBy := successor |>); mret tt
          else mret tt
      | None => mret tt
      end
  end.

Definition routedCredit (eventID : UUID) (owner : SelectionOwner) (k : UUID * string) (c : pg.Candidate)
    : pg.Candidate :=
  if bool_decide (k.1 = eventID) && not_nil c.(pg.cdObservedAssetID) &&
    bool_decide (c.(pg.cdObservedAssetID) = soAssetID owner) && Credited c.(pg.cdOutcomeClass)
  then c <| pg.cdCreditedAssetID := soKeeperID owner |> else c.

Definition routeCredits (eventID : UUID) (owner : SelectionOwner) (db : pg.DB) : pg.DB :=
  db <| pg.dbCandidates ::= map_imap (λ k c, Some (routedCredit eventID owner k c)) |>.

Definition applyOwner (eventID : UUID) (owner : SelectionOwner) : MTx unit :=
  _ ← routeAsset eventID owner;
  lift (pg.modify (routeCredits eventID owner)).

Definition nodeFor (snapshot : SelectionSnapshot) (id : option UUID) : option SelectionNode :=
  head (filter (λ n, (snAsset n ≫= aID) = id) (spNodes snapshot)).

Definition restore (rank : Z) (h : ShareRow) : ShareRow :=
  if (shState h =? ShareStateSuperseded)%string
  then h <| shState := ShareStateActive |> <| shRank := rank |> else h.

(** The rank given last and the shares so far. *)
Definition applySelected (snapshot : SelectionSnapshot) (eventID : UUID) (st : Z * gmap UUID string)
    (clip : SelectedClip) : MTx (Z * gmap UUID string) :=
  let '(rank, shares) := st in
  match scAssetID clip with
  | None => throw (failed "nil identity")
  | Some id =>
      a ← selectAsset id;
      _ ← match a with
          | Some a =>
              if bool_decide (a.(arEventID) = eventID) && negb (a.(arPopularity) =? scPopularity clip)
              then _ ← updateAssetRow id (λ a, a <| arPopularity := scPopularity clip |>); mret tt
              else mret tt
          | None => mret tt
          end;
      let rank' := rank + 1 in
      match nodeFor snapshot (Some id) ≫= snShare with
      | Some sh =>
          if (sState sh =? ShareStateActive)%string then mret (rank, <[id := sID sh]> shares)
          else
            _ ← require (sState sh =? ShareStateSuperseded)%string "cannot restore removed share";
            _ ← updateShareRow (sID sh) (restore rank');
            mret (rank', <[id := sID sh]> shares)
      | None =>
          match NewShare (random id) (Some id) (Some eventID) (scVerified clip) (scExtractedMinute clip)
            rank' (UTC clock) with
          | inr err => throw (failed err)
          | inl sh =>
              _ ← insertShareRow sh.(sID) (shareRow id eventID sh);
              mret (rank', <[id := sID sh]> shares)
          end
      end
  end.

Definition applySelectionTx (snapshot : SelectionSnapshot) (eventID : UUID) (plan : SelectionPlan)
  : MTx (gmap UUID string) :=
  _ ← forEach (slOwners plan) (applyOwner eventID);
  rank ← query (maxRank eventID);
  st ← foldTx (applySelected snapshot eventID) (rank, ∅) (slSelected plan);
  mret st.2.

(** ** Receipts *)

Definition beforeOf (s : SelectionSnapshot) (n : SelectionNode) : option beforeNode :=
  a ← snAsset n;
  Some (mkBeforeNode (aID a) (aSupersededBy a) (aPopularity a)
    (Z.of_nat (length (filter (λ src, ssObservedAssetID src = aID a) (spSources s))))
    (snShare n) (snValidation n ≫= vision.vdID)).

Definition selectionBefore (s : SelectionSnapshot) : list beforeNode := omap (beforeOf s) (spNodes s).

Definition insertCommit (id : UUID) (c : CommitRow) : MTx unit :=
  s ← query (λ s, s);
  _ ← require (receiptFits c) "video_selection_commits_record";
  _ ← require (is_nil (mCommits s !! id)) "video_selection_commits_pkey";
  _ ← require match pg.dbEvents (mDB s) !! c.(vcEventID) with
        | Some e => e.(event.eFixtureID) =? c.(vcFixtureID) | None => false end
      "video_selection_commits_event_fkey";
  modify (λ s, s <| mCommits ::= <[id := c]> |>).

Definition CommitSelection (r : SelectionRequest) : MTx SelectionResult :=
  match selectionRequestDigest r, r.(sqID), r.(sqEventID) with
  | Some digest, Some id, Some eventID =>
      removed ← lockEvent eventID r.(sqFixtureID);
      _ ← assert (negb removed) media.ErrSelectionRemoved;
      s ← query (λ s, s);
      match mCommits s !! id with
      | Some prior =>
          _ ← require (vcRequestHash prior =? digest)%string
                "selection request ID reused with different content";
          mret ((vcResult prior) <| srReplayed := true |>)
      | None =>
          snapshot ← loadSelectionTx eventID;
          _ ← assert (bool_decide (Fingerprint snapshot = Some r.(sqSnapshotHash))) ErrSelectionStale;
          match PlanSelection marshalledLength snapshot r.(sqPolicy) r.(sqPreparedAssetIDs) with
          | inr err => throw (failed err)
          | inl plan =>
              shares ← applySelectionTx snapshot eventID plan;
              let result := mkSelectionResult plan shares false "" in
              _ ← insertCommit id (mkCommitRow eventID r.(sqFixtureID) digest r.(sqSnapshotHash)
                    r.(sqPolicy) (selectionBefore snapshot) result None);
              mret result
          end
      end
  | _, _, _ => throw (failed "incomplete selection request")
  end.

(** ** Placement with selection *)

(** Whether a public root has lost its bytes or its share. *)
Definition revokedRoot (n : SelectionNode) : bool :=
  match snAsset n with
  | Some a =>
      is_nil a.(aSupersededBy) &&
      (not_nil a.(aObjectReclaimedAt) ||
       match snShare n with Some sh => negb (sState sh =? ShareStateActive)%string | None => true end)
  | None => false
  end.

Definition emptyPlan : SelectionPlan := mkSelectionPlan SelectionVersion [] [] [] [].

(** The repair of the topology after an ordinary placement. *)
Definition repair (eventID : UUID) (r : SelectionRequest) : MTx SelectionResult :=
  after ← loadSelectionTx eventID;
  match PlanSelection marshalledLength after r.(sqPolicy) r.(sqPreparedAssetIDs) with
  | inl plan =>
      shares ← applySelectionTx after eventID plan;
      mret (mkSelectionResult plan shares false "")
  | inr err =>
      if (err =? selection.ErrSelectionCredits)%string
      then mret (mkSelectionResult emptyPlan ∅ false SelectionIncompleteCredits)
      else throw (failed err)
  end.

Definition commitPlacementSelectionTx (p : ClipPlacement) (r : SelectionRequest)
  : MTx ClipPlacementResult :=
  match placementSelectionDigest p r, r.(sqID) with
  | Some digest, Some id =>
      s ← query (λ s, s);
      match mCommits s !! id with
      | Some prior =>
          _ ← require (vcRequestHash prior =? digest)%string
                "selection placement ID reused with different content";
          mret ((default noPlacement (vcPlacement prior))
            <| crSelection := Some ((vcResult prior) <| srReplayed := true |>) |>)
      | None =>
          before ← loadSelectionTx p.(plEventID);
          _ ← assert (bool_decide (Fingerprint before = Some r.(sqSnapshotHash))) ErrSelectionStale;
          _ ← assert (negb (existsb revokedRoot (spNodes before))) media.ErrSelectionMedia;
          out ← applyClipPlacementTx p;
          _ ← assert (negb (crObservedAssetCreated out &&
                negb (bool_decide (p.(plObservedAssetID) ∈ r.(sqPreparedAssetIDs)))))
              media.ErrSelectionMedia;
          selected ← repair p.(plEventID) r;
          _ ← insertCommit id (mkCommitRow p.(plEventID) p.(plFixtureID) digest r.(sqSnapshotHash)
                r.(sqPolicy) (selectionBefore before) selected (Some out));
          mret (out <| crSelection := Some selected |>)
      end
  | _, _ => throw (failed "incomplete selection request")
  end.

Definition CommitClipPlacement (p : ClipPlacement) : MTx ClipPlacementResult :=
  let p := p <| plCommittedAt ::= placementNow |> in
  match validateClipPlacement p with
  | Some err => throw (failed err)
  | None =>
      removed ← lockEvent p.(plEventID) p.(plFixtureID);
      if removed : bool then
        _ ← rejectRemovedPlacementCandidates p;
        mret (noPlacement <| crEventRemoved := true |>)
      else
        match p.(plSelection) with
        | Some r => commitPlacementSelectionTx p r
        | None => applyClipPlacementTx p
        end
  end.

End selection.
End reselect.
