(* ===== verification/Persist.v ===== *)
(** internal/activity/video/persist.go and selection.go, and internal/activity/retention:
    the activities that carry an accepted clip into the bucket and the tables, load the
    state of an event for a replacement run, and tear the clips of an event down.

    An activity is a value of [job]: transactions on the video tables and requests to the
    object store, one at a time.  Any of them may fail; what a run may do among other
    workers is Bytes.v. *)
From S2P Require Import Prelude GoStrings Fixture Event Vision Video Selection Jsonb Discovery Store Search Wire Fixtures Lineage Media Gallery Placement Reselect.
From Stdlib Require Import SpecFloat.
#[local] Open Scope string_scope.
#[local] Open Scope list_scope.
#[local] Open Scope Z_scope.
Import discoverycontract jsonb video selection media gallery placement reselect wire.

Module persist.

(** ** Programs *)

Inductive objectRequest :=
  | Copy (src dst : string)
  | Delete (key : string)
  | Head (key : string).

Inductive job (A : Type) : Type :=
  | finished (a : A)
  | transact {R : Type} (tx : Env → MTx R) (k : dbError + R → job A)
  | object (req : objectRequest) (k : string + bool → job A).
Arguments finished {A} a.
Arguments transact {A R} tx k.
Arguments object {A} req k.

Fixpoint andThen {A B : Type} (f : A → job B) (p : job A) : job B :=
  match p with
  | finished a => f a
  | transact tx k => transact tx (λ r, andThen f (k r))
  | object req k => object req (λ r, andThen f (k r))
  end.

(** An activity returns an error or a result. *)
Definition Act (A : Type) : Type := job (string + A).

#[global] Instance Act_ret : MRet Act := λ A a, finished (inr a).
#[global] Instance Act_bind : MBind Act := λ A B f,
  andThen (λ r, match r with inl err => finished (inl err) | inr a => f a end).

Definition fails {A} (err : string) : Act A := finished (inl err).
Definition ensure (b : bool) (err : string) : Act unit := if b then mret tt else fails err.

(** With its error as a value, and with a message for the error. *)
Definition attempt {R} (tx : Env → MTx R) : Act (dbError + R) := transact tx (λ r, finished (inr r)).
Definition must {R} (err : string) (tx : Env → MTx R) : Act R :=
  transact tx (λ r, match r with inl _ => fails err | inr a => finished (inr a) end).
Definition request (req : objectRequest) : Act (string + bool) := object req (λ r, finished (inr r)).
Definition mustStore (err : string) (req : objectRequest) : Act bool :=
  object req (λ r, match r with inl _ => fails err | inr b => finished (inr b) end).

Fixpoint loopAct {S X : Type} (body : S → X → Act S) (s : S) (xs : list X) : Act S :=
  match xs with
  | [] => mret s
  | x :: xs => s ← body s x; loopAct body s xs
  end.

(** ** The activities *)

(** The deployment's bucket and prefix (no slash at its end), and the identifiers the
    uuid library derives and prints. *)
Class Deployment := {
  Bucket : string;
  AssetsPrefix : string;
  nameUUID : string → UUID;
  printUUID : UUID → string;
  jsonLength : vision.Evidence → option Z }.

Section activities.
Context `{Deployment, Digests}.

(** The identity of an accepted variant, and the key of its object. *)
Definition variantID (eventID : UUID) (md5 : string) : UUID :=
  nameUUID (printUUID eventID +:+ ":" +:+ md5).

Definition objectKey (fixtureID : Z) (eventID assetID : UUID) : string :=
  AssetsPrefix +:+ "/" +:+ Itoa fixtureID +:+ "/" +:+ printUUID eventID +:+ "/" +:+
    printUUID assetID +:+ ".mp4".

Definition loadSelection (eventID : UUID) : Act SelectionSnapshot :=
  must "video selection: load" (λ _, loadSelectionTx eventID).

(** *** Recovery of an event's clips *)

Definition restoredAsset (a : Asset) (verified : bool) : RestoredEventAsset :=
  mkRestoredEventAsset a.(aID) (EncodeToString a.(aMD5)) a.(aMediaFingerprint)
    a.(aFrameHashVersion) a.(aFrameHashes) a.(aWidth) a.(aHeight) a.(aDurationMS)
    a.(aFileSizeBytes) a.(aBitrate) a.(aFrameRate) a.(aPopularity) verified.

Definition exactAlias (a root : Asset) : RestoredExactAlias :=
  mkRestoredExactAlias (EncodeToString a.(aMD5)) a.(aMediaFingerprint) root.(aID) a.(aID).

(** A live node: its asset and its active share. *)
Definition liveNode (n : SelectionNode) : option (Share * Asset) :=
  match snAsset n, snShare n with
  | Some a, Some sh =>
      if is_nil a.(aSupersededBy) && is_nil a.(aObjectReclaimedAt) &&
        (sState sh =? ShareStateActive)%string
      then Some (sh, a) else None
  | _, _ => None
  end.

Definition snapshotAsset (snapshot : SelectionSnapshot) (n : SelectionNode) : bool :=
  match snAsset n with
  | Some a => bool_decide (a.(aEventID) = spEventID snapshot) && (a.(aFixtureID) =? spFixtureID snapshot)
  | None => false
  end.

Definition assetsByID (assets : list Asset) : gmap UUID Asset :=
  foldl (λ m a, match a.(aID) with Some id => <[id := a]> m | None => m end) ∅ assets.

(** The root of an asset; visited assets are distinct, so their number is enough fuel. *)
Fixpoint lineageRoot (nodes : gmap UUID Asset) (fuel : nat) (visited : gset UUID) (root : Asset)
    : string + Asset :=
  match root.(aSupersededBy), root.(aID), fuel with
  | None, _, _ => inr root
  | Some _, None, _ | Some _, _, O => inl "video selection: lineage cycle"
  | Some next, Some id, S fuel =>
      if bool_decide (id ∈ visited) then inl "video selection: lineage cycle"
      else match nodes !! next with
        | None => inl "video selection: missing lineage target"
        | Some a => lineageRoot nodes fuel ({[id]} ∪ visited) a
        end
  end.

Fixpoint exactAliases (nodes : gmap UUID Asset) (selected : gset (option UUID)) (assets : list Asset)
    : string + list RestoredExactAlias :=
  match assets with
  | [] => inr []
  | a :: assets =>
      match lineageRoot nodes (S (size nodes)) ∅ a with
      | inl err => inl err
      | inr root =>
          match exactAliases nodes selected assets with
          | inl err => inl err
          | inr aliases =>
              inr (if bool_decide (root.(aID) ∈ selected) then exactAlias a root :: aliases else aliases)
          end
      end
  end.

Definition projectSelection (snapshot : SelectionSnapshot) : string + LoadEventAssetsOutput :=
  if spRemoved snapshot then inr (mkLoadEventAssetsOutput [] [])
  else if negb (forallb (snapshotAsset snapshot) (spNodes snapshot))
  then inl "video selection: invalid snapshot asset"
  else
    let assets := omap snAsset (spNodes snapshot) in
    let live := sort_by sharerepo.rankedBefore (omap liveNode (spNodes snapshot)) in
    let selected := list_to_set (C:=gset (option UUID)) ((λ l, aID l.2) <$> live) in
    match exactAliases (assetsByID assets) selected assets with
    | inl err => inl err
    | inr aliases =>
        inr (mkLoadEventAssetsOutput ((λ l, restoredAsset l.2 l.1.(sTimestampVerified)) <$> live) aliases)
    end.

(** *** Recovery by the older reads *)

Definition loadAsset (eventID : UUID) (known : gmap UUID Asset) (id : option UUID)
    : Act (Asset * gmap UUID Asset) :=
  match id ≫= (known !!.) with
  | Some a => mret (a, known)
  | None =>
      a ← must "video.LoadEventAssets: get asset" (λ _, assetrepo.Get id);
      _ ← ensure (bool_decide (aEventID a = Some eventID)) "video.LoadEventAssets: foreign asset";
      mret (a, match id with Some id => <[id := a]> known | None => known end)
  end.

(** Supersession pointers followed with reads where an asset is not at hand. *)
Fixpoint climbAssets (eventID : UUID) (fuel : nat) (visited : gset (option UUID))
    (known : gmap UUID Asset) (root : Asset) : Act (Asset * gmap UUID Asset) :=
  match root.(aSupersededBy), fuel with
  | None, _ => mret (root, known)
  | Some _, O => fails "video.LoadEventAssets: out of fuel"
  | Some next, S fuel =>
      if bool_decide (root.(aID) ∈ visited) then fails "video.LoadEventAssets: supersession cycle"
      else
        r ← loadAsset eventID known (Some next);
        climbAssets eventID fuel ({[root.(aID)]} ∪ visited) r.2 r.1
  end.

Definition liveShares (assets : gmap UUID Asset) (shares : list Share) : list (Share * Asset) :=
  omap (λ sh, a ← sAssetID sh ≫= (assets !!.);
    if (sState sh =? ShareStateActive)%string && is_nil (aSupersededBy a) then Some (sh, a) else None) shares.

(** [fuel] bounds the length of a lineage. *)
Definition LoadEventAssets (fuel : nat) (eventID : UUID) (consistentSelection : bool)
    : Act LoadEventAssetsOutput :=
  if consistentSelection then
    snapshot ← loadSelection eventID;
    finished (projectSelection snapshot)
  else
    shares ← must "video.LoadEventAssets: get shares" (λ _, sharerepo.GetByEvent eventID);
    eventAssets ← must "video.LoadEventAssets: get assets" (λ _, assetrepo.ListByEvent eventID);
    _ ← ensure (forallb (λ a, bool_decide (aEventID a = Some eventID)) eventAssets)
          "video.LoadEventAssets: foreign asset";
    assets ← loopAct (λ known sh, r ← loadAsset eventID known (sAssetID sh); mret r.2)
               (assetsByID eventAssets) shares;
    let live := liveShares assets shares in
    st ← loopAct (λ (st : gmap UUID Asset * gset string * list RestoredExactAlias) a,
        let '(known, seen, aliases) := st in
        let md5Hex := EncodeToString (aMD5 a) in
        if bool_decide (md5Hex ∈ seen) then mret st
        else
          r ← climbAssets eventID fuel ∅ known a;
          if bool_decide (aID r.1 ∈ (λ l, aID l.2) <$> live)
          then mret (r.2, {[md5Hex]} ∪ seen, aliases ++ [exactAlias a r.1])
          else mret (r.2, seen, aliases))
      (assets, ∅, []) eventAssets;
    mret (mkLoadEventAssetsOutput ((λ l, restoredAsset l.2 l.1.(sTimestampVerified)) <$> live) st.2).

(** *** Placement *)

Definition validatePromotionAsset (existing : Asset) (inp : PromoteAndPersistInput)
    (md5Bytes : list Byte.byte) (key : string) : bool :=
  bool_decide (aID existing = Some (variantID inp.(ppEventID) inp.(ppMD5))) &&
  bool_decide (aEventID existing = Some inp.(ppEventID)) && (aFixtureID existing =? inp.(ppFixtureID)) &&
  (aS3Bucket existing =? Bucket)%string && (aS3Key existing =? key)%string &&
  bool_decide (aMD5 existing = md5Bytes) &&
  (NormalizeFrameHashVersion (aFrameHashVersion existing) =? NormalizeFrameHashVersion inp.(ppHashVersion))%string.

(** The fields of a promotion that the check of an existing variant reads. *)
Definition compat (inp : CommitClipPlacementInput) : PromoteAndPersistInput :=
  mkPromoteAndPersistInput inp.(cpEventID) inp.(cpFixtureID) inp.(cpStagingKey) inp.(cpMD5)
    inp.(cpHashVersion) inp.(cpFrameHashes) inp.(cpWidth) inp.(cpHeight) inp.(cpDurationMS)
    inp.(cpFileSizeBytes) inp.(cpBitrate) inp.(cpFrameRate) 0 false None.

Definition validateObservedAsset (existing : Asset) (inp : CommitClipPlacementInput)
    (md5Bytes : list Byte.byte) (key : string) : option string :=
  if negb (bool_decide (aID existing = Some (variantID inp.(cpEventID) inp.(cpMD5)))) ||
    negb (bool_decide (aEventID existing = Some inp.(cpEventID))) ||
    negb (aFixtureID existing =? inp.(cpFixtureID)) || negb (aS3Bucket existing =? Bucket)%string ||
    negb (aS3Key existing =? key)%string || negb (bool_decide (aMD5 existing = md5Bytes))
  then Some "observed variant identity mismatch"
  else if negb (aMediaFingerprint existing =? "")%string && negb (inp.(cpMediaFingerprint) =? "")%string &&
    negb (aMediaFingerprint existing =? inp.(cpMediaFingerprint))%string
  then Some "observed variant media fingerprint mismatch"
  else if (length inp.(cpFrameHashes) =? 0)%nat then None
  else if validatePromotionAsset existing (compat inp) md5Bytes key then None
  else Some "deterministic asset identity mismatch".

Definition validationError (inp : CommitClipPlacementInput) : option string :=
  match inp.(cpValidation) with
  | None => None
  | Some e =>
      if negb inp.(cpCaptureVariant) then Some "validation requires exact variant attribution"
      else match vision.Evidence_Validate jsonLength (Some e) with
        | Some err => Some err
        | None =>
            if negb (bool_decide (vision.vdEventID e = Some inp.(cpEventID))) ||
              negb (vision.vdFixtureID e =? inp.(cpFixtureID)) ||
              negb (vision.vdMD5 e =? inp.(cpMD5))%string
            then Some "validation scope differs from staged variant" else None
        end
  end.

Definition placementCandidate (c : PlacementCandidateInput) : PlacementCandidate :=
  mkPlacementCandidate (wire.pcEvidence c) (wire.pcOutcome c) (wire.pcDetail c) (wire.pcRawMD5 c).

(** The placement before its media: [at_] is the time of the activity. *)
Definition draftPlacement (at_ : Time) (inp : CommitClipPlacementInput) : ClipPlacement :=
  mkClipPlacement inp.(cpEventID) inp.(cpFixtureID) None inp.(cpWinnerAssetID) None None
    inp.(cpVerified) inp.(cpExtractedMinute) inp.(cpLoserAssetIDs)
    (placementCandidate <$> inp.(cpCandidates)) (UTC at_) inp.(cpValidation) None.

(** The variant the staged bytes become. *)
Definition observedAsset (at_ : Time) (inp : CommitClipPlacementInput) (md5Bytes : list Byte.byte) : Asset :=
  let assetID := variantID inp.(cpEventID) inp.(cpMD5) in
  (NewAsset assetID (Some inp.(cpEventID)) inp.(cpFixtureID) Bucket
      (objectKey inp.(cpFixtureID) inp.(cpEventID) assetID) md5Bytes inp.(cpHashVersion)
      inp.(cpFrameHashes) inp.(cpWidth) inp.(cpHeight) inp.(cpDurationMS) inp.(cpFileSizeBytes) (UTC at_))
    <| aBitrate := inp.(cpBitrate) |> <| aFrameRate := inp.(cpFrameRate) |>
    <| aMediaFingerprint := inp.(cpMediaFingerprint) |>.

(** An asset cannot point to the nil UUID; the placement is refused for its missing winner. *)
Definition withVariant (at_ : Time) (inp : CommitClipPlacementInput) (md5Bytes : list Byte.byte)
    (p : ClipPlacement) : ClipPlacement :=
  let asset := observedAsset at_ inp md5Bytes in
  if (length inp.(cpFrameHashes) =? 0)%nat then p
  else if inp.(cpNewWinner) then p <| plWinner := Some asset |> <| plWinnerAssetID := None |>
  else p <| plVariant := Some match inp.(cpWinnerAssetID) with
         | Some winner => SupersededBySet asset winner | None => asset end |>.

Definition withObserved (inp : CommitClipPlacementInput) (p : ClipPlacement) : ClipPlacement :=
  if inp.(cpCaptureVariant)
  then p <| plObservedAssetID := Some (variantID inp.(cpEventID) inp.(cpMD5)) |> else p.

Definition reuseObserved (inp : CommitClipPlacementInput) (reused : UUID) (p : ClipPlacement)
    : Act ClipPlacement :=
  _ ← ensure (inp.(cpCaptureVariant) && negb inp.(cpNewWinner) && not_nil inp.(cpWinnerAssetID) &&
        negb (inp.(cpMediaFingerprint) =? "")%string) "invalid media asset reuse";
  observed ← must "read reused media asset" (λ _, assetrepo.Get (Some reused));
  _ ← ensure (bool_decide (aEventID observed = Some inp.(cpEventID)) &&
        (aFixtureID observed =? inp.(cpFixtureID)) &&
        (aMediaFingerprint observed =? inp.(cpMediaFingerprint))%string)
      "reused media asset differs from event or fingerprint";
  mret (p <| plObservedAssetID := aID observed |>).

(** The bytes of the variant are in place, or its event is removed; the key to drop
    again when the event turns out to be removed. *)
Definition ensureBytes (inp : CommitClipPlacementInput) (md5Bytes : list Byte.byte)
    (snapshot : option SelectionSnapshot) : Act (option string) :=
  let assetID := variantID inp.(cpEventID) inp.(cpMD5) in
  let key := objectKey inp.(cpFixtureID) inp.(cpEventID) assetID in
  existing ← attempt (λ _, assetrepo.Get (Some assetID));
  match existing with
  | inr existing =>
      match validateObservedAsset existing inp md5Bytes key with
      | Some err => fails err
      | None => mret None
      end
  | inl ErrNotFound =>
      _ ← ensure (negb (length inp.(cpFrameHashes) =? 0)%nat) "no retained hash evidence";
      _ ← (if match snapshot with Some s => spRemoved s | None => false end then mret true
           else mustStore "copy" (Copy inp.(cpStagingKey) key));
      mret (Some key)
  | inl _ => fails "get observed variant"
  end.

Definition observeVariant (at_ : Time) (inp : CommitClipPlacementInput)
    (snapshot : option SelectionSnapshot) (p : ClipPlacement) : Act (ClipPlacement * option string) :=
  match inp.(cpReuseObservedAssetID) with
  | Some reused => p ← reuseObserved inp reused p; mret (p, None)
  | None =>
      if inp.(cpNewWinner) || inp.(cpCaptureVariant) then
        match DecodeString inp.(cpMD5) with
        | None => fails "bad md5"
        | Some md5Bytes =>
            key ← ensureBytes inp md5Bytes snapshot;
            mret (withVariant at_ inp md5Bytes (withObserved inp p), key)
        end
      else if is_nil inp.(cpWinnerAssetID) then fails "existing winner id is required"
      else mret (p, None)
  end.

(** *** Preparation of a selection *)

(** The stored variants a selection may show again. *)
Definition mayBeShown (n : SelectionNode) : option Asset :=
  match snAsset n with
  | Some a =>
      if is_nil (aObjectReclaimedAt a) &&
        match snShare n with
        | Some sh => negb (sState sh =? ShareStateRemoved)%string
        | None => not_nil (snValidation n)
        end
      then Some a else None
  | None => None
  end.

Definition toCheck (snapshot : SelectionSnapshot) (p : ClipPlacement) : list Asset :=
  let known := (λ n, snAsset n ≫= aID) <$> spNodes snapshot in
  omap mayBeShown (spNodes snapshot) ++
  filter (λ a, aID a ∉ known) (option_list p.(plWinner) ++ option_list p.(plVariant)).

(** The code asks for up to four objects at a time. *)
Definition checkObject (ready : list (option UUID)) (a : Asset) : Act (list (option UUID)) :=
  _ ← ensure (aS3Bucket a =? Bucket)%string "video selection: asset bucket mismatch";
  exists_ ← mustStore "video selection: check objects" (Head (aS3Key a));
  mret (if exists_ : bool then ready ++ [aID a] else ready).

Definition preparePlacementSelection (inp : CommitClipPlacementInput) (sel : PlacementSelectionInput)
    (snapshot : SelectionSnapshot) (p : ClipPlacement) : Act ClipPlacement :=
  _ ← ensure inp.(cpCaptureVariant) "video selection: exact attribution and operation ID required";
  match SelectionPolicy_Validate (psPolicy sel), Fingerprint snapshot with
  | Some err, _ => fails err
  | None, None => fails "selection node asset required"
  | None, Some fingerprint =>
      let r := mkSelectionRequest (Some (psID sel)) (Some inp.(cpEventID)) inp.(cpFixtureID)
        fingerprint (psPolicy sel) [] in
      if spRemoved snapshot then mret (p <| plSelection := Some r |>)
      else
        ready ← loopAct checkObject [] (toCheck snapshot p);
        mret (p <| plSelection := Some (r <| sqPreparedAssetIDs := ready |>) |>)
  end.

(** *** After the transaction *)

(** Every cleanup is tried; any failure fails the activity, which is retried. *)
Definition discardRemoved (inp : CommitClipPlacementInput) (key : option string)
    : Act CommitClipPlacementOutput :=
  r1 ← match key with Some key => request (Delete key) | None => mret (inr true) end;
  r2 ← request (Delete inp.(cpStagingKey));
  match r1, r2 with
  | inr _, inr _ => mret (mkCommitClipPlacementOutput None "" false false false true None)
  | _, _ => fails "event removed cleanup"
  end.

Definition committedSelection (inp : CommitClipPlacementInput) (out : CommitClipPlacementOutput)
    (result : ClipPlacementResult) : Act CommitClipPlacementOutput :=
  match inp.(cpSelection), crSelection result with
  | None, _ => mret out
  | Some _, None => fails "selection receipt missing"
  | Some _, Some sel =>
      snapshot ← loadSelection inp.(cpEventID);
      match projectSelection snapshot with
      | inl err => fails err
      | inr state =>
          let out := out <| coSelection := Some (mkPlacementSelectionOutput state
            (slRestored (srPlan sel)) (srSkipped sel)) |> in
          mret (if spRemoved snapshot then out <| coEventRemoved := true |> <| coAnnounce := false |> else out)
      end
  end.

Definition CommitClipPlacement (at_ : Time) (inp : CommitClipPlacementInput)
    : Act CommitClipPlacementOutput :=
  _ ← ensure (negb (inp.(cpFixtureID) <=? 0) && negb (inp.(cpStagingKey) =? "")%string &&
        negb (length inp.(cpCandidates) =? 0)%nat) "incomplete placement input";
  _ ← match validationError inp with Some err => fails err | None => mret tt end;
  snapshot ← match inp.(cpSelection) with
             | Some _ => s ← loadSelection inp.(cpEventID); mret (Some s)
             | None => mret None
             end;
  observed ← observeVariant at_ inp snapshot (draftPlacement at_ inp);
  placement ← match inp.(cpSelection), snapshot with
              | Some sel, Some snapshot => preparePlacementSelection inp sel snapshot observed.1
              | _, _ => mret observed.1
              end;
  result ← must "persist" (λ _, reselect.CommitClipPlacement placement);
  if crEventRemoved result then discardRemoved inp observed.2
  else
    _ ← mustStore "delete staging" (Delete inp.(cpStagingKey));
    committedSelection inp (mkCommitClipPlacementOutput (crWinnerAssetID result) (crShareID result)
      (crWinnerCreated result) (crObservedAssetCreated result) true false None) result.

(** *** The writers of older histories *)

Definition promotedAsset (at_ : Time) (inp : PromoteAndPersistInput) (md5Bytes : list Byte.byte) : Asset :=
  let assetID := variantID inp.(ppEventID) inp.(ppMD5) in
  (NewAsset assetID (Some inp.(ppEventID)) inp.(ppFixtureID) Bucket
      (objectKey inp.(ppFixtureID) inp.(ppEventID) assetID) md5Bytes inp.(ppHashVersion)
      inp.(ppFrameHashes) inp.(ppWidth) inp.(ppHeight) inp.(ppDurationMS) inp.(ppFileSizeBytes) (UTC at_))
    <| aBitrate := inp.(ppBitrate) |> <| aFrameRate := inp.(ppFrameRate) |>
    <| aPopularity ::= λ n, if 1 <? inp.(ppPopularity) then inp.(ppPopularity) else n |>.

Definition promoteAsset (at_ : Time) (inp : PromoteAndPersistInput) (md5Bytes : list Byte.byte) : Act bool :=
  let assetID := variantID inp.(ppEventID) inp.(ppMD5) in
  let key := objectKey inp.(ppFixtureID) inp.(ppEventID) assetID in
  let same (a : Asset) := ensure (validatePromotionAsset a inp md5Bytes key) "deterministic asset identity mismatch" in
  existing ← attempt (λ _, assetrepo.Get (Some assetID));
  match existing with
  | inr existing => _ ← same existing; mret false
  | inl ErrNotFound =>
      _ ← mustStore "video.PromoteAndPersist: copy" (Copy inp.(ppStagingKey) key);
      inserted ← must "video.PromoteAndPersist: insert asset"
        (λ _, assetrepo.InsertAsset (promotedAsset at_ inp md5Bytes));
      if inserted : bool then mret true
      else
        existing ← must "video.PromoteAndPersist: get conflicted asset" (λ _, assetrepo.Get (Some assetID));
        _ ← same existing; mret false
  | inl _ => fails "video.PromoteAndPersist: get asset"
  end.

Definition mintShare (at_ : Time) (inp : PromoteAndPersistInput) (assetID : UUID) (rank : Z) (v : Env)
    : MTx string :=
  match NewShare (random assetID) (Some assetID) (Some inp.(ppEventID)) inp.(ppVerified)
    inp.(ppExtractedMinute) rank (UTC at_) with
  | inr err => throw (failed err)
  | inl sh => _ ← sharerepo.Insert sh; mret sh.(sID)
  end.

Definition PromoteAndPersist (at_ : Time) (inp : PromoteAndPersistInput) : Act PromoteAndPersistOutput :=
  match DecodeString inp.(ppMD5) with
  | None => fails "video.PromoteAndPersist: bad md5"
  | Some md5Bytes =>
      let assetID := variantID inp.(ppEventID) inp.(ppMD5) in
      inserted ← promoteAsset at_ inp md5Bytes;
      shares ← must "video.PromoteAndPersist: get shares" (λ _, sharerepo.GetByEvent inp.(ppEventID));
      shareID ← match head (filter (λ sh, sAssetID sh = Some assetID) shares) with
                | Some sh => mret sh.(sID)
                | None => must "video.PromoteAndPersist: insert share"
                            (mintShare at_ inp assetID (Z.of_nat (length shares) + 1))
                end;
      _ ← must "video.PromoteAndPersist: rebalance" (λ _, sharerepo.RebalanceRanks inp.(ppEventID));
      _ ← mustStore "video.PromoteAndPersist: delete staging" (Delete inp.(ppStagingKey));
      mret (mkPromoteAndPersistOutput (Some assetID) shareID
        (objectKey inp.(ppFixtureID) inp.(ppEventID) assetID) inserted true)
  end.

(** A count below one is one vote. *)
Definition BumpAssetPopularity (assetID : UUID) (count : Z) : Act unit :=
  must "video.BumpAssetPopularity"
    (λ _, assetrepo.AddPopularity assetID (if count <? 1 then 1 else count)).

Definition DeleteStaging (key : string) : Act unit :=
  _ ← mustStore "video.DeleteStaging" (Delete key); mret tt.

(** The active share of each asset; of several the last. *)
Definition activeShares (shares : list Share) : gmap UUID string :=
  foldl (λ m sh, match sAssetID sh with
    | Some id => if (sState sh =? ShareStateActive)%string then <[id := sID sh]> m else m
    | None => m
    end) ∅ shares.

(** Failures to drop the bytes or to record it are logged. *)
Definition supersedeLoser (active : gmap UUID string) (winnerID loserID : UUID) : Act unit :=
  if bool_decide (loserID = winnerID) then mret tt
  else
    loser ← attempt (λ _, assetrepo.Get (Some loserID));
    key ← match loser with
          | inr loser => mret (aS3Key loser)
          | inl ErrNotFound => mret ""
          | inl _ => fails "video.SupersedeAssets: get loser"
          end;
    _ ← must "video.SupersedeAssets: supersede" (λ _, assetrepo.Supersede loserID winnerID);
    _ ← match active !! loserID with
        | Some shareID => must "video.SupersedeAssets: retire share" (λ _, sharerepo.MarkSuperseded shareID)
        | None => mret tt
        end;
    if (key =? "")%string then mret tt
    else
      deleted ← request (Delete key);
      match deleted with
      | inl _ => mret tt
      | inr _ => _ ← attempt (λ v, assetrepo.MarkObjectReclaimed (@now v) loserID); mret tt
      end.

Definition SupersedeAssets (eventID winnerID : UUID) (losers : list UUID) : Act unit :=
  if (length losers =? 0)%nat then mret tt
  else
    shares ← must "video.SupersedeAssets: get shares" (λ _, sharerepo.GetByEvent eventID);
    _ ← loopAct (λ _ loser, supersedeLoser (activeShares shares) winnerID loser) tt losers;
    _ ← must "video.SupersedeAssets: rebalance" (λ _, sharerepo.RebalanceRanks eventID);
    mret tt.

(** *** Teardown *)

(** Whether every object so far is gone and recorded as such. *)
Definition reclaimObject (ok : bool) (o : assetrepo.ObjectRef) : Act bool :=
  deleted ← request (Delete (assetrepo.orKey o));
  match deleted with
  | inl _ => mret false
  | inr _ =>
      recorded ← attempt (λ v, assetrepo.MarkObjectReclaimed (@now v) (assetrepo.orAssetID o));
      mret match recorded with inl _ => false | inr _ => ok end
  end.

Definition DestroyEvent (eventID : UUID) (reason : string) : Act unit :=
  let reason := if (reason =? "")%string then RemovalVAR else reason in
  _ ← must "video.DestroyEvent: revoke shares" (λ v, sharerepo.RemoveByEvent (@now v) eventID reason);
  objects ← must "video.DestroyEvent: list unreclaimed objects"
              (λ _, assetrepo.ListUnreclaimedObjectsByEvent eventID);
  ok ← loopAct reclaimObject true objects;
  ensure ok "video.DestroyEvent: reclaim objects".

(** activity/retention: the events whose objects are older than the public window. *)
Definition PlanMediaRetention (completedFixtureDates : Z) : Act (option Time * list UUID) :=
  _ ← ensure (0 <? completedFixtureDates) "retention.PlanMediaRetention: completed fixture dates must be > 0";
  cutoff ← must "retention.PlanMediaRetention: public cutoff"
             (λ _, lift (fixturerepo.PublicCompletedCutoff completedFixtureDates));
  match cutoff with
  | None => mret (None, [])
  | Some t =>
      events ← must "retention.PlanMediaRetention: list media"
                 (λ _, assetrepo.ListUnreclaimedEventIDsBefore t);
      mret (Some t, events)
  end.

End activities.
End persist.
