(* ===== verification/MediaLaws.v ===== *)
(** The invariant of the video tables, and what the statements of Media.v and
    Placement.v do to them.

    [media_ok] says that the foreign keys and unique indexes of the schema hold, that
    every asset leads to a root along its successors, that a share is active only on a
    root and superseded only off one, and that candidates are credited to roots. *)
From S2P Require Import Prelude GoStrings Fixture Event Vision Video Selection Jsonb Discovery Store Candidates Lineage Media Gallery Placement.
From Stdlib Require Import SpecFloat.
#[local] Open Scope string_scope.
#[local] Open Scope list_scope.
#[local] Open Scope Z_scope.
Import discoverycontract jsonb video media gallery placement.

Module medialaws.

(** ** Taking a committed transaction apart *)

Section inversion.
Context {A B : Type}.
Implicit Types (s : Media).

Lemma mbind_inv (m : MTx A) (k : A → MTx B) s b s2 :
  (m ≫= k) s = inr (b, s2) → ∃ a s1, m s = inr (a, s1) ∧ k a s1 = inr (b, s2).
Proof. unfold mbind, MTx_bind. destruct (m s) as [|[a s1]]; naive_solver. Qed.

Lemma mret_inv (a a' : A) s s' : (mret a : MTx A) s = inr (a', s') → a' = a ∧ s' = s.
Proof. unfold mret, MTx_ret. naive_solver. Qed.

Lemma mquery_inv (q : Media → A) a s s' : query q s = inr (a, s') → a = q s ∧ s' = s.
Proof. unfold query. naive_solver. Qed.

Lemma mmodify_inv f u s s' : modify f s = inr (u, s') → s' = f s.
Proof. unfold modify. naive_solver. Qed.

Lemma massert_inv b err u s s' : assert b err s = inr (u, s') → b = true ∧ s' = s.
Proof. unfold assert, throw, mret, MTx_ret. destruct b; naive_solver. Qed.

Lemma mlift_inv (m : pg.Tx A) a s s' :
  lift m s = inr (a, s') → ∃ db, m (mDB s) = inr (a, db) ∧ s' = s <| mDB := db |>.
Proof. unfold lift. destruct (m (mDB s)) as [|[x db]]; naive_solver. Qed.
End inversion.

Ltac mtx_inv :=
  repeat match goal with
  | H : (_ ≫= _) _ = inr _ |- _ => apply mbind_inv in H as (?&?&?&?)
  | H : mret _ _ = inr (_, _) |- _ => apply mret_inv in H as [??]; subst
  | H : query _ _ = inr (_, _) |- _ => apply mquery_inv in H as [??]; subst
  | H : selectAsset _ _ = inr (_, _) |- _ => apply mquery_inv in H as [??]; subst
  | H : selectShare _ _ = inr (_, _) |- _ => apply mquery_inv in H as [??]; subst
  | H : modify _ _ = inr (_, _) |- _ => apply mmodify_inv in H; subst
  | H : require _ _ _ = inr (_, _) |- _ => apply massert_inv in H as [??]; subst
  | H : assert _ _ _ = inr (_, _) |- _ => apply massert_inv in H as [??]; subst
  | H : lift (pg.modify _) _ = inr (_, _) |- _ =>
      apply mlift_inv in H as (?&H&?); apply pg.modify_inv in H; subst
  | H : throw _ _ = inr _ |- _ => discriminate H
  end.

(** The loops, with an invariant on what is done and what is left. *)
Lemma forEach_inv {A} (body : A → MTx unit) (I : Media → Prop) l :
  (∀ x s u s', x ∈ l → I s → body x s = inr (u, s') → I s') →
  ∀ s u s', I s → forEach l body s = inr (u, s') → I s'.
Proof.
  induction l as [|x l IH]; intros Hb s u s' Hi H; cbn in H; mtx_inv; [done|].
  eapply IH; [|by eapply Hb; [left| |]|done]. intros. by eapply Hb; [right| |].
Qed.

Lemma forEach_steps {A} (body : A → MTx unit) (I : list A → Media → Prop) l :
  (∀ l1 x l2 s u s', l = l1 ++ x :: l2 → I l1 s → body x s = inr (u, s') → I (l1 ++ [x]) s') →
  ∀ s u s', I [] s → forEach l body s = inr (u, s') → I l s'.
Proof.
  intros Hb s u s' Hi H. assert (∀ l1 l2 s u, l = l1 ++ l2 → I l1 s →
    forEach l2 body s = inr (u, s') → I l s') as Hgen; [|by eapply (Hgen [])].
  clear s u Hi H. intros l1 l2. revert l1. induction l2 as [|x l2 IH]; intros l1 s u Hl Hi H;
    cbn in H; mtx_inv.
  - by rewrite app_nil_r.
  - eapply (IH (l1 ++ [x])); [by rewrite <-app_assoc| |done]. by eapply Hb.
Qed.

Lemma foldTx_inv {A R} (body : R → A → MTx R) (I : list A → R → Media → Prop) l :
  (∀ l1 x l2 r s r' s', l = l1 ++ x :: l2 → I l1 r s → body r x s = inr (r', s') →
    I (l1 ++ [x]) r' s') →
  ∀ r s r' s', I [] r s → foldTx body r l s = inr (r', s') → I l r' s'.
Proof.
  intros Hb r s r' s' Hi H. assert (∀ l1 l2 r s, l = l1 ++ l2 → I l1 r s →
    foldTx body r l2 s = inr (r', s') → I l r' s') as Hgen; [|by eapply (Hgen [])].
  clear r s Hi H. intros l1 l2. revert l1. induction l2 as [|x l2 IH]; intros l1 r s Hl Hi H;
    cbn in H; mtx_inv.
  - by rewrite app_nil_r.
  - eapply (IH (l1 ++ [x])); [by rewrite <-app_assoc| |done]. by eapply Hb.
Qed.

(** ** What the row statements do *)

Lemma insertAssetRow_inv id a b s s' :
  insertAssetRow id a s = inr (b, s') →
  video_assets_check id a = true ∧
  (b = false ∧ s' = s ∧ (∃ i c, mAssets s !! i = Some c ∧ arEventID c = arEventID a ∧ arMD5 c = arMD5 a) ∨
   b = true ∧ s' = setAsset id a s ∧ mAssets s !! id = None ∧
   (∀ i c, mAssets s !! i = Some c → arEventID c = arEventID a → arMD5 c ≠ arMD5 a) ∧
   (arMediaFingerprint a ≠ None → ∀ i c, mAssets s !! i = Some c → arEventID c = arEventID a →
     arMediaFingerprint c ≠ arMediaFingerprint a) ∧
   (∃ e, pg.dbEvents (mDB s) !! arEventID a = Some e ∧ event.eFixtureID e = arFixtureID a) ∧
   superseded_fkey s a = true).
Proof.
  unfold insertAssetRow. intros H. mtx_inv. split; [done|].
  match goal with H : (if ?c then _ else _) _ = _ |- _ => destruct c eqn:Hc end; mtx_inv.
  - left. split; [done|]. split; [done|]. apply bool_decide_eq_true in Hc as (i & c & Hi & ?).
    by exists i, c.
  - right. apply bool_decide_eq_false in Hc. split; [done|]. split; [done|].
    split; [by apply is_nil_true|]. split; [|split; [|split; [|done]]].
    + intros i c Hi He Hm. apply Hc. by exists i, c.
    + intros Hn i c Hi He Hm.
      match goal with Hx : _ || _ = true |- _ => apply orb_true_iff in Hx as [Hfp%is_nil_true|Hfp%bool_decide_eq_true] end.
      * done.
      * by apply (Hfp i c Hi).
    + destruct (pg.dbEvents _ !! _) as [e|]; [|done]. exists e. split; [done|by apply Z.eqb_eq].
Qed.

Lemma updateAssetRow_inv id f b s s' :
  updateAssetRow id f s = inr (b, s') →
  b = false ∧ s' = s ∧ mAssets s !! id = None ∨
  b = true ∧ ∃ a, mAssets s !! id = Some a ∧ video_assets_check id (f a) = true ∧
    superseded_fkey s (f a) = true ∧ s' = setAsset id (f a) s.
Proof.
  unfold updateAssetRow. intros H. mtx_inv.
  destruct (mAssets s !! id) as [a|] eqn:E; mtx_inv; [|by left].
  right. split; [done|]. by exists a.
Qed.

Lemma insertShareRow_inv id h u s s' :
  insertShareRow id h s = inr (u, s') →
  video_shares_check h = true ∧ mShares s !! id = None ∧ activeRank s id h = true ∧
  (∀ i h', mShares s !! i = Some h' → ¬ sameShare h h') ∧
  (∃ a, mAssets s !! shAssetID h = Some a ∧ arEventID a = shEventID h) ∧ s' = setShare id h s.
Proof.
  unfold insertShareRow. intros H. mtx_inv. split_and!; try done.
  - by apply is_nil_true.
  - match goal with H : bool_decide _ = true |- _ => by apply bool_decide_eq_true in H end.
  - match goal with H : share_fkey _ _ = true |- _ => unfold share_fkey in H; revert H end.
    destruct (mAssets s !! shAssetID h) as [a|]; [|done]. intros He. exists a. split; [done|].
    by apply bool_decide_eq_true in He.
Qed.

Lemma updateShareRow_inv id f b s s' :
  updateShareRow id f s = inr (b, s') →
  b = false ∧ s' = s ∧ mShares s !! id = None ∨
  b = true ∧ ∃ h, mShares s !! id = Some h ∧ video_shares_check (f h) = true ∧
    activeRank s id (f h) = true ∧ s' = setShare id (f h) s.
Proof.
  unfold updateShareRow. intros H. mtx_inv.
  destruct (mShares s !! id) as [h|] eqn:E; mtx_inv; [|by left].
  right. split; [done|]. by exists h.
Qed.

(** ** The invariant *)

Abbreviation successor := sharerepo.successor.

(** The assets of [P] may be roots whose share is still superseded: a selection makes
    them so before it restores their shares. *)
Record media_but (P : UUID → Prop) (s : Media) : Prop := {
  mo_event id a : mAssets s !! id = Some a →
    ∃ e, pg.dbEvents (mDB s) !! arEventID a = Some e ∧ event.eFixtureID e = arFixtureID a;
  mo_check id a : mAssets s !! id = Some a → video_assets_check id a = true;
  mo_md5 i j a b : mAssets s !! i = Some a → mAssets s !! j = Some b →
    arEventID a = arEventID b → arMD5 a = arMD5 b → i = j;
  mo_successor id a k : mAssets s !! id = Some a → arSupersededBy a = Some k →
    ∃ b, mAssets s !! k = Some b ∧ arEventID b = arEventID a;
  mo_rooted : lineage.rooted (successor s);
  mo_share id h : mShares s !! id = Some h →
    ∃ a, mAssets s !! shAssetID h = Some a ∧ arEventID a = shEventID h ∧
      (shState h = ShareStateActive → arSupersededBy a = None) ∧
      (shState h = ShareStateSuperseded → arSupersededBy a ≠ None ∨ P (shAssetID h));
  mo_one i j h h' : mShares s !! i = Some h → mShares s !! j = Some h' →
    shAssetID h = shAssetID h' → i = j;
  mo_observed k c id : pg.dbCandidates (mDB s) !! k = Some c → pg.cdObservedAssetID c = Some id →
    ∃ a, mAssets s !! id = Some a ∧ arEventID a = k.1;
  mo_credited k c id : pg.dbCandidates (mDB s) !! k = Some c → pg.cdCreditedAssetID c = Some id →
    ∃ a, mAssets s !! id = Some a ∧ arEventID a = k.1 ∧ arSupersededBy a = None }.
#[global] Arguments mo_event {P} s _ _ _ _.
#[global] Arguments mo_check {P} s _ _ _ _.
#[global] Arguments mo_md5 {P} s _ _ _ _ _ _ _ _ _.
#[global] Arguments mo_successor {P} s _ _ _ _ _ _.
#[global] Arguments mo_rooted {P} s _.
#[global] Arguments mo_share {P} s _ _ _ _.
#[global] Arguments mo_one {P} s _ _ _ _ _ _ _ _.
#[global] Arguments mo_observed {P} s _ _ _ _ _ _.
#[global] Arguments mo_credited {P} s _ _ _ _ _ _.

Abbreviation media_ok := (media_but (λ _, False)).

(** The tables after a row is written. *)
Lemma mAssets_setAsset id a s : mAssets (setAsset id a s) = <[id := a]> (mAssets s).
Proof. done. Qed.
Lemma mShares_setAsset id a s : mShares (setAsset id a s) = mShares s.
Proof. done. Qed.
Lemma mDB_setAsset id a s : mDB (setAsset id a s) = mDB s.
Proof. done. Qed.
Lemma mAssets_setShare id h s : mAssets (setShare id h s) = mAssets s.
Proof. done. Qed.
Lemma mShares_setShare id h s : mShares (setShare id h s) = <[id := h]> (mShares s).
Proof. done. Qed.
Lemma mDB_setShare id h s : mDB (setShare id h s) = mDB s.
Proof. done. Qed.
Create HintDb tables.
#[export] Hint Rewrite mAssets_setAsset mShares_setAsset mDB_setAsset mAssets_setShare
  mShares_setShare mDB_setShare : tables.
Ltac tables := autorewrite with tables.

Lemma successor_set id a s x :
  successor (setAsset id a s) x = if decide (id = x) then Some (arSupersededBy a) else successor s x.
Proof.
  unfold successor, setAsset. cbn. rewrite lookup_insert. by case_decide.
Qed.

Lemma superseded_fkey_inv s a k :
  superseded_fkey s a = true → arSupersededBy a = Some k →
  ∃ b, mAssets s !! k = Some b ∧ arEventID b = arEventID a.
Proof.
  unfold superseded_fkey. intros H Hk. rewrite Hk in H. destruct (mAssets s !! k) as [b|]; [|done].
  exists b. split; [done|]. unfold sameLineage in H. by apply andb_true_iff in H as [?%bool_decide_eq_true _].
Qed.

(** What a row update keeps of a row. *)
Definition keepsIdentity (a a' : AssetRow) : Prop :=
  arEventID a' = arEventID a ∧ arFixtureID a' = arFixtureID a ∧ arMD5 a' = arMD5 a.

(** An update that moves no pointer. *)
Lemma setAsset_same P id a a' s :
  mAssets s !! id = Some a → keepsIdentity a a' → arSupersededBy a' = arSupersededBy a →
  video_assets_check id a' = true → media_but P s → media_but P (setAsset id a' s).
Proof.
  intros Ha (He & Hf & Hm) Hs Hc Hok.
  assert (∀ j b, <[id := a']> (mAssets s) !! j = Some b → ∃ b0, mAssets s !! j = Some b0 ∧
    arEventID b = arEventID b0 ∧ arFixtureID b = arFixtureID b0 ∧ arMD5 b = arMD5 b0 ∧
    arSupersededBy b = arSupersededBy b0) as Hback.
  { intros j b [[<- <-]|[_ Hb]]%lookup_insert_Some; [|by exists b].
    exists a. by split_and!. }
  assert (∀ j b, mAssets s !! j = Some b → ∃ b', <[id := a']> (mAssets s) !! j = Some b' ∧
    arEventID b' = arEventID b ∧ arSupersededBy b' = arSupersededBy b) as Hforth.
  { intros j b Hb. destruct (decide (j = id)) as [->|Hne].
    - rewrite lookup_insert_eq. exists a'. rewrite Ha in Hb. injection Hb as <-. by split_and!.
    - rewrite lookup_insert_ne by done. by exists b. }
  destruct Hok as [K1 K2 K3 K4 K5 K6 K7 K8 K9]. split; tables.
  - intros j b (b0 & Hb & -> & -> & _)%Hback. by eapply K1.
  - intros j b [[<- <-]|[_ Hb]]%lookup_insert_Some; [done|by eapply K2].
  - intros i j b c (b0 & Hb & -> & _ & -> & _)%Hback (c0 & Hc0 & -> & _ & -> & _)%Hback. by apply K3.
  - intros j b k (b0 & Hb & -> & _ & _ & ->)%Hback Hk. destruct (K4 _ _ _ Hb Hk) as (c & Hc' & E).
    destruct (Hforth _ _ Hc') as (c' & ? & ? & _). exists c'. split; [done|congruence].
  - eapply lineage.rooted_ext; [|exact K5]. intros x. rewrite successor_set. case_decide; [|done].
    subst x. unfold successor. rewrite Ha. cbn. by rewrite Hs.
  - intros j h Hh. destruct (K6 _ _ Hh) as (b & Hb & E & H1 & H2).
    destruct (Hforth _ _ Hb) as (b' & Hb' & E' & Hs'). exists b'. rewrite E', Hs'. by split_and!.
  - done.
  - intros k c j Hk Hj. destruct (K8 _ _ _ Hk Hj) as (b & Hb & E).
    destruct (Hforth _ _ Hb) as (b' & Hb' & E' & _). exists b'. split; [done|congruence].
  - intros k c j Hk Hj. destruct (K9 _ _ _ Hk Hj) as (b & Hb & E & Er).
    destruct (Hforth _ _ Hb) as (b' & Hb' & E' & Es). exists b'. split_and!; [done|congruence..].
Qed.

Lemma insertAssetRow_ok P id a b s s' :
  media_but P s → insertAssetRow id a s = inr (b, s') → media_but P s'.
Proof.
  intros Hok [Hc [(_ & -> & _)|(_ & -> & Hn & Hm & _ & He & Hf)]]%insertAssetRow_inv; [done|].
  assert (∀ j c, mAssets s !! j = Some c → <[id := a]> (mAssets s) !! j = Some c) as Hforth.
  { intros j c Hj. rewrite lookup_insert_ne; [done|]. congruence. }
  destruct Hok as [K1 K2 K3 K4 K5 K6 K7 K8 K9]. split; tables.
  - intros j c [[<- <-]|[_ Hj]]%lookup_insert_Some; [done|by eapply K1].
  - intros j c [[<- <-]|[_ Hj]]%lookup_insert_Some; [done|by eapply K2].
  - intros i j c d [[<- <-]|[_ Hi]]%lookup_insert_Some [[<- <-]|[_ Hj]]%lookup_insert_Some E E'.
    + done.
    + by destruct (Hm _ _ Hj).
    + by destruct (Hm _ _ Hi).
    + by eapply K3.
  - intros j c k [[<- <-]|[_ Hj]]%lookup_insert_Some Hk.
    + destruct (superseded_fkey_inv _ _ _ Hf Hk) as (c & Hc' & E). exists c. split; [by apply Hforth|done].
    + destruct (K4 _ _ _ Hj Hk) as (d & Hd & E). exists d. split; [by apply Hforth|done].
  - eapply (lineage.rooted_add (successor s)); [..|exact K5].
    + unfold successor. by rewrite Hn.
    + intros y Hy. rewrite successor_set. by rewrite decide_False.
    + rewrite successor_set. by rewrite decide_True.
    + intros y Hy. destruct (superseded_fkey_inv _ _ _ Hf Hy) as (c & Hc' & _).
      unfold successor. rewrite Hc'. by eexists.
  - intros j h Hh. destruct (K6 _ _ Hh) as (c & Hc' & ?). exists c. split; [by apply Hforth|done].
  - done.
  - intros k c j Hk Hj. destruct (K8 _ _ _ Hk Hj) as (d & Hd & E). exists d. split; [by apply Hforth|done].
  - intros k c j Hk Hj. destruct (K9 _ _ _ Hk Hj) as (d & Hd & E). exists d. split; [by apply Hforth|done].
Qed.

Lemma addPopularity_ok P id n b s s' :
  media_but P s → updateAssetRow id (λ w, w <| arPopularity ::= n |>) s = inr (b, s') → media_but P s'.
Proof.
  intros Hok [(_ & -> & _)|(_ & a & Ha & Hc & _ & ->)]%updateAssetRow_inv; [done|].
  by eapply setAsset_same.
Qed.

(** A share of a root. *)
Lemma insertShareRow_ok P id h u s s' a :
  media_but P s → shState h = ShareStateActive → mAssets s !! shAssetID h = Some a → arSupersededBy a = None →
  insertShareRow id h s = inr (u, s') → media_but P s'.
Proof.
  intros Hok Hs Ha Hr (_ & Hn & _ & Hone & (a' & Ha' & He) & ->)%insertShareRow_inv.
  rewrite Ha in Ha'. injection Ha' as <-.
  destruct Hok as [K1 K2 K3 K4 K5 K6 K7 K8 K9]. split; tables; try done.
  - intros j h' [[<- <-]|[_ Hj]]%lookup_insert_Some; [|by eapply K6].
    exists a. split_and!; try done. by rewrite Hs.
  - intros i j h1 h2 [[<- <-]|[_ Hi]]%lookup_insert_Some [[<- <-]|[_ Hj]]%lookup_insert_Some E.
    + done.
    + destruct (Hone _ _ Hj). split; [|done]. destruct (K6 _ _ Hj) as (b & Hb & Eb & _). rewrite <-E in Hb. congruence.
    + destruct (Hone _ _ Hi). split; [|done]. destruct (K6 _ _ Hi) as (b & Hb & Eb & _). rewrite E in Hb. congruence.
    + by eapply K7.
Qed.

(** ** Candidates *)

Definition atDB (s : Media) (db : pg.DB) : Media := s <| mDB := db |>.

(** An asset is of the event. *)
Definition hosts (s : Media) (ev : UUID) : Prop := ∃ id a, mAssets s !! id = Some a ∧ arEventID a = ev.

(** Changing the other tables: the events with assets stay, and candidate rows keep
    what they refer to or refer to less. *)
Lemma atDB_ok P s db :
  (∀ ev e, hosts s ev → pg.dbEvents (mDB s) !! ev = Some e →
    ∃ e', pg.dbEvents db !! ev = Some e' ∧ event.eFixtureID e' = event.eFixtureID e) →
  (∀ k c' id, pg.dbCandidates db !! k = Some c' → pg.cdObservedAssetID c' = Some id →
    ∃ a, mAssets s !! id = Some a ∧ arEventID a = k.1) →
  (∀ k c' id, pg.dbCandidates db !! k = Some c' → pg.cdCreditedAssetID c' = Some id →
    ∃ a, mAssets s !! id = Some a ∧ arEventID a = k.1 ∧ arSupersededBy a = None) →
  media_but P s → media_but P (atDB s db).
Proof.
  intros He Ho Hc []. split; try done. intros id a Ha. destruct (mo_event0 id a Ha) as (e & E1 & E2).
  destruct (He _ _ ltac:(by exists id, a) E1) as (e' & E3 & E4). exists e'. split; [done|congruence].
Qed.

Lemma asset_fkey_inv ev fx id s i :
  asset_fkey ev fx id s = true → id = Some i → ∃ a, mAssets s !! i = Some a ∧ arEventID a = ev.
Proof.
  unfold asset_fkey. intros Hf ->. destruct (mAssets s !! i) as [a|]; [|done]. exists a. split; [done|].
  unfold sameLineage in Hf. by apply andb_true_iff in Hf as [?%bool_decide_eq_true _].
Qed.

Lemma setCandidate_inv k c u s s' :
  setCandidate k c s = inr (u, s') →
  candidaterepo.candidates_check c = true ∧ s' = atDB s (candidaterepo.setCandidate k c (mDB s)) ∧
  (∀ i, pg.cdObservedAssetID c = Some i → ∃ a, mAssets s !! i = Some a ∧ arEventID a = k.1) ∧
  (∀ i, pg.cdCreditedAssetID c = Some i → ∃ a, mAssets s !! i = Some a ∧ arEventID a = k.1).
Proof.
  unfold setCandidate. intros H. mtx_inv. split_and!; [done..| |]; intros i Hi; (eapply asset_fkey_inv; [|exact Hi]; eassumption).
Qed.

(** Writing a candidate that is credited to a root. *)
Lemma writeCandidate_ok P k c u s s' w a :
  media_but P s → pg.cdCreditedAssetID c = Some w → mAssets s !! w = Some a → arSupersededBy a = None →
  setCandidate k c s = inr (u, s') → media_but P s'.
Proof.
  intros Hok Hw Ha Hr (_ & -> & Ho & Hc)%setCandidate_inv. apply atDB_ok; [by eauto|..|done];
    intros k' c' id; cbn; intros [[<- <-]|[_ Hk]]%lookup_insert_Some Hid.
  - by apply Ho.
  - by eapply mo_observed.
  - destruct (Hc _ Hid) as (a' & Ha' & He). exists a'. split_and!; [done..|].
    rewrite Hw in Hid. injection Hid as <-. congruence.
  - by eapply mo_credited.
Qed.

End medialaws.

