(* ===== verification/Placing.v ===== *)
(** What a placement does to the video tables: it keeps their invariant and every
    public link, counts each vote once, and leaves a removed event alone. *)
From S2P Require Import Prelude GoStrings Fixture Event Vision Video Selection Jsonb Discovery Store Candidates Lineage Media Gallery Placement MediaLaws.
From Stdlib Require Import SpecFloat.
#[local] Open Scope string_scope.
#[local] Open Scope list_scope.
#[local] Open Scope Z_scope.
Import discoverycontract jsonb video media gallery placement medialaws.

Module placing.

(** Every share is still there, for the same asset, and a removed one stays removed. *)
Definition linkKept (h h' : ShareRow) : Prop :=
  shAssetID h' = shAssetID h ∧ shEventID h' = shEventID h ∧
  (shState h = ShareStateRemoved → shState h' = ShareStateRemoved).

Definition linksKept (s s' : Media) : Prop := ∀ id h,
  mShares s !! id = Some h → ∃ h', mShares s' !! id = Some h' ∧ linkKept h h'.

#[global] Instance linkKept_preorder : PreOrder linkKept.
Proof. split; [by intros h|]. intros a b c (?&?&?) (?&?&?). split_and!; [congruence..|auto]. Qed.

#[global] Instance linksKept_preorder : PreOrder linksKept.
Proof.
  split.
  - intros s id h Hh. by exists h.
  - intros a b c Hab Hbc id h Hh. destruct (Hab _ _ Hh) as (h1 & H1 & L1).
    destruct (Hbc _ _ H1) as (h2 & H2 & L2). exists h2. split; [done|by etransitivity].
Qed.

Lemma linksKept_same s s' : mShares s' = mShares s → linksKept s s'.
Proof. intros E id h Hh. rewrite E. by exists h. Qed.

(** The tables a statement of a placement leaves alone. *)
Record frame (s s' : Media) : Prop := {
  fr_events : pg.dbEvents (mDB s') = pg.dbEvents (mDB s);
  fr_commits : mCommits s' = mCommits s;
  fr_links : linksKept s s' }.

#[global] Instance frame_preorder : PreOrder frame.
Proof.
  split; [by split; [..|apply linksKept_same]|]. intros a b c [] [].
  split; [congruence..|by etransitivity].
Qed.

Lemma frame_same s s' :
  pg.dbEvents (mDB s') = pg.dbEvents (mDB s) → mCommits s' = mCommits s → mShares s' = mShares s →
  frame s s'.
Proof. intros ???. split; [done..|by apply linksKept_same]. Qed.

Section placing.
Context `{Env}.
Implicit Types (s : Media) (p : ClipPlacement).

(** ** Assets *)

Lemma getAssetTx_inv id a s s' :
  getAssetTx id s = inr (a, s') →
  s' = s ∧ ∃ i row, id = Some i ∧ mAssets s !! i = Some row ∧ a = scanAsset i row.
Proof.
  unfold getAssetTx, assetrepo.Get. intros Hg. destruct id as [i|]; [|done]. mtx_inv.
  destruct (mAssets s !! i) as [row|] eqn:E; mtx_inv. split; [done|]. by exists i, row.
Qed.

Lemma insertAssetOf_inv a n b s s' :
  insertAssetOf a n s = inr (b, s') →
  ∃ id ev, aID a = Some id ∧ aEventID a = Some ev ∧ insertAssetRow id (assetRow ev a n) s = inr (b, s').
Proof. unfold insertAssetOf. destruct (aID a) as [id|], (aEventID a) as [ev|]; [|done..]. eauto. Qed.

Lemma insertAssetOf_frame a n b s s' : insertAssetOf a n s = inr (b, s') → frame s s'.
Proof.
  intros (id & ev & _ & _ & [_ [(_ & -> & _)|(_ & -> & _)]]%insertAssetRow_inv)%insertAssetOf_inv; [done|].
  by apply frame_same.
Qed.

Lemma insertAssetOf_ok a n b s s' : media_ok s → insertAssetOf a n s = inr (b, s') → media_ok s'.
Proof. intros Hok (id & ev & _ & _ & Hi)%insertAssetOf_inv. by eapply insertAssetRow_ok. Qed.

Lemma updateAsset_frame id f b s s' : updateAssetRow id f s = inr (b, s') → frame s s'.
Proof.
  intros [(_ & -> & _)|(_ & a & _ & _ & _ & ->)]%updateAssetRow_inv; [done|]. by apply frame_same.
Qed.

(** ** Shares *)

Lemma shareFor_Some ev a s id h :
  shareFor ev a s = Some (id, h) → mShares s !! id = Some h ∧ shEventID h = ev ∧ shAssetID h = a.
Proof.
  unfold shareFor. intros Hh%head_Some_elem_of. apply list_elem_of_filter in Hh as [[He Ha] Hin].
  by apply elem_of_map_to_list in Hin.
Qed.

Lemma shareFor_None ev a s id h :
  shareFor ev a s = None → mShares s !! id = Some h → shEventID h = ev → shAssetID h ≠ a.
Proof.
  unfold shareFor. intros Hn%head_None Hh He Ha.
  assert ((id, h) ∈ filter (λ r : string * ShareRow, shEventID r.2 = ev ∧ shAssetID r.2 = a) (map_to_list (mShares s)))
    as Hin by (apply list_elem_of_filter; split; [done|by apply elem_of_map_to_list]).
  rewrite Hn in Hin. by apply elem_of_nil in Hin.
Qed.

Lemma ensurePlacementShare_inv p w a id s s' :
  media_ok s → mAssets s !! w = Some a → arSupersededBy a = None → arEventID a = plEventID p →
  ensurePlacementShare p w s = inr (id, s') →
  media_ok s' ∧ frame s s' ∧ mAssets s' = mAssets s ∧ mDB s' = mDB s ∧ mValidations s' = mValidations s ∧
  (∃ h, mShares s' !! id = Some h ∧ shAssetID h = w ∧ shState h = ShareStateActive) ∧
  (s' = s ∨ ∀ i h, mShares s !! i = Some h → shAssetID h ≠ w).
Proof.
  intros Hok Ha Hr Hev Hs. unfold ensurePlacementShare in Hs. mtx_inv.
  destruct (shareFor (plEventID p) w s) as [[i h]|] eqn:E.
  - unfold requireActive in *. mtx_inv. apply shareFor_Some in E as (Hi & _ & Hw). cbn in *.
    split_and!; try done; [|by left]. exists h. split_and!; [done..|by apply String.eqb_eq].
  - destruct (NewShare _ _ _ _ _ _ _) as [sh|] eqn:En; [|done]. mtx_inv.
    unfold insertShareOnce in *. mtx_inv.
    match goal with Hx : (if ?c then _ else _) _ = _ |- _ => destruct c eqn:Hc end; mtx_inv.
    + exfalso. apply bool_decide_eq_true in Hc as (i & h & Hh & Hhe & Has). cbn in Hhe, Has.
      by eapply shareFor_None.
    + match goal with Hx : insertShareRow _ _ _ = inr (_, ?s2) |- _ => rename Hx into Hins; set (s1 := s2) in * end.
      unfold NewShare in En. destruct (generateShareID _) as [sid|]; [|done]. destruct (_ <? 1) in En; [done|].
      injection En as <-. cbn [sID shState] in *.
      assert (media_ok s1) as Hok1 by (eapply (insertShareRow_ok _ _ _ _ _ _ a); [..|exact Hins]; done).
      apply insertShareRow_inv in Hins as (_ & Hfresh & _ & _ & _ & Hs1).
      destruct (shareFor (plEventID p) w s1) as [[i h]|] eqn:E1; [|done].
      unfold requireActive in *. mtx_inv. apply shareFor_Some in E1 as (Hi & _ & Hw). cbn in *.
      rewrite Hs1. rewrite Hs1 in Hi, Hok1. split_and!; try done.
      * split; [done..|]. intros j h' Hj. exists h'. split; [|done]. tables.
        rewrite lookup_insert_ne; [done|]. congruence.
      * exists h. split_and!; [done..|by apply String.eqb_eq].
      * right. intros j h' Hj Hw'. destruct (mo_share _ Hok _ _ Hj) as (a' & Ha' & Ee & _).
        rewrite Hw', Ha in Ha'. injection Ha' as <-.
        eapply (shareFor_None _ _ _ _ _ E Hj); [congruence|done].
Qed.
(** ** Candidates and losers *)

Lemma walkToWinner_inv p w fuel visited x u s s' : walkToWinner p w fuel visited x s = inr (u, s') → s' = s.
Proof.
  revert visited x. induction fuel as [|fuel IH]; intros visited x; cbn [walkToWinner]; intros Hw;
    repeat case_match; mtx_inv; try done;
    repeat match goal with Hx : (match ?c with _ => _ end) _ = inr _ |- _ => destruct c end; mtx_inv; try done.
  by eapply IH.
Qed.

Lemma requireObservedRoot_inv p x w u s s' : requireObservedRoot p x w s = inr (u, s') → s' = s.
Proof. unfold requireObservedRoot. intros Hr. mtx_inv. by eapply walkToWinner_inv. Qed.

Lemma persistPlacementValidation_inv p u s s' :
  persistPlacementValidation p s = inr (u, s') →
  mAssets s' = mAssets s ∧ mShares s' = mShares s ∧ mDB s' = mDB s ∧ mCommits s' = mCommits s.
Proof.
  unfold persistPlacementValidation. intros Hp. destruct (plValidation p) as [e|]; [|by mtx_inv].
  mtx_inv. destruct (getAssetTx_inv _ _ _ _ ltac:(eassumption)) as (-> & _).
  destruct (vision.vdID e), (plObservedAssetID p); mtx_inv; try done.
  unfold insertValidation in *. mtx_inv.
  match goal with Hx : (match ?c with _ => _ end) _ = inr _ |- _ => destruct c end; mtx_inv; by split_and!.
Qed.

(** Rows that are not active stay as they are. *)
Lemma supersede_inactive h : shState h ≠ ShareStateActive → sharerepo.supersede h = h.
Proof. unfold sharerepo.supersede. intros Hn%String.eqb_neq. by rewrite Hn. Qed.

Lemma map_fmap_id_on {K V} `{Countable K} (f : V → V) (m : gmap K V) :
  (∀ k v, m !! k = Some v → f v = v) → f <$> m = m.
Proof.
  intros Hf. apply map_eq. intros k. rewrite lookup_fmap. destruct (m !! k) as [v|] eqn:E; [|done].
  cbn. by rewrite (Hf k v E).
Qed.

(** Retiring an asset that is retired changes nothing. *)
Lemma retired_again s l w a :
  media_ok s → mAssets s !! l = Some a → arSupersededBy a ≠ None →
  retireShares l s = s ∧ moveCredits l w (mDB s) = mDB s.
Proof.
  intros Hok Ha Hr. split.
  - assert ((λ h, if bool_decide (shAssetID h = l) then sharerepo.supersede h else h) <$> mShares s = mShares s) as E.
    { apply map_fmap_id_on. intros id h Hh. case_bool_decide as Hl; [|done]. apply supersede_inactive.
      intros Hact. destruct (mo_share _ Hok _ _ Hh) as (a' & Ha' & _ & Hroot & _).
      rewrite Hl, Ha in Ha'. injection Ha' as <-. by apply Hr, Hroot. }
    unfold retireShares. destruct s; cbn in *. by rewrite E.
  - assert (movedCredit l w <$> pg.dbCandidates (mDB s) = pg.dbCandidates (mDB s)) as E.
    { apply map_fmap_id_on. intros k c Hk. unfold movedCredit. case_bool_decide as Hl; [|done].
      destruct (mo_credited _ Hok _ _ _ Hk Hl) as (a' & Ha' & _ & Hroot). congruence. }
    unfold moveCredits. destruct (mDB s); cbn in *. by rewrite E.
Qed.

Lemma movedCredit_refs l w c :
  pg.cdObservedAssetID (movedCredit l w c) = pg.cdObservedAssetID c ∧
  pg.cdCreditedAssetID (movedCredit l w c) =
    if decide (pg.cdCreditedAssetID c = Some l) then Some w else pg.cdCreditedAssetID c.
Proof. unfold movedCredit. case_bool_decide; [by rewrite decide_True|by rewrite decide_False]. Qed.

(** A root retired onto another root of its event. *)
Definition retire (l w : UUID) (la : AssetRow) (s : Media) : Media :=
  atDB (retireShares l (setAsset l (la <| arSupersededBy := Some w |>) s)) (moveCredits l w (mDB s)).

(** The shares of a retired asset. *)
Definition retiredShare (l : UUID) (h : ShareRow) : ShareRow :=
  if bool_decide (shAssetID h = l) then sharerepo.supersede h else h.

Lemma mAssets_retire l w la s :
  mAssets (retire l w la s) = <[l := la <| arSupersededBy := Some w |>]> (mAssets s).
Proof. done. Qed.
Lemma mShares_retire l w la s : mShares (retire l w la s) = retiredShare l <$> mShares s.
Proof. done. Qed.
Lemma events_retire l w la s : pg.dbEvents (mDB (retire l w la s)) = pg.dbEvents (mDB s).
Proof. done. Qed.
Lemma candidates_retire l w la s :
  pg.dbCandidates (mDB (retire l w la s)) = movedCredit l w <$> pg.dbCandidates (mDB s).
Proof. done. Qed.
#[local] Hint Rewrite mAssets_retire mShares_retire events_retire candidates_retire : tables.

Lemma retiredShare_id l h :
  shAssetID (retiredShare l h) = shAssetID h ∧ shEventID (retiredShare l h) = shEventID h.
Proof. unfold retiredShare, sharerepo.supersede. by repeat case_match. Qed.

Lemma retire_frame l w la s : frame s (retire l w la s).
Proof.
  split; [done..|]. intros id h Hh. cbn. rewrite lookup_fmap, Hh. eexists. split; [done|].
  case_bool_decide; [|done]. unfold sharerepo.supersede. destruct (_ =? _)%string eqn:E; [|done].
  apply String.eqb_eq in E. split_and!; [done..|]. cbn. by rewrite E.
Qed.

Lemma retire_ok l w la wa s :
  mAssets s !! l = Some la → mAssets s !! w = Some wa → l ≠ w →
  arSupersededBy la = None → arSupersededBy wa = None → arEventID la = arEventID wa →
  video_assets_check l (la <| arSupersededBy := Some w |>) = true →
  media_ok s → media_ok (retire l w la s).
Proof.
  intros Hl Hw Hne Hlr Hwr Hev Hc [K1 K2 K3 K4 K5 K6 K7 K8 K9]. set (la' := la <| arSupersededBy := Some w |>) in *.
  assert (∀ j b, <[l := la']> (mAssets s) !! j = Some b → ∃ b0, mAssets s !! j = Some b0 ∧
    arEventID b = arEventID b0 ∧ arFixtureID b = arFixtureID b0 ∧ arMD5 b = arMD5 b0 ∧
    arSupersededBy b = if decide (j = l) then Some w else arSupersededBy b0) as Hback.
  { intros j b [[<- <-]|[? Hb]]%lookup_insert_Some; [exists la|exists b]; (split_and!; [done..|]);
      [by rewrite decide_True|by rewrite decide_False]. }
  assert (∀ j b, mAssets s !! j = Some b → ∃ b', <[l := la']> (mAssets s) !! j = Some b' ∧
    arEventID b' = arEventID b ∧ arSupersededBy b' = if decide (j = l) then Some w else arSupersededBy b) as Hforth.
  { intros j b Hb. destruct (decide (j = l)) as [->|].
    - exists la'. rewrite lookup_insert_eq. rewrite Hl in Hb. injection Hb as <-. by split_and!.
    - exists b. rewrite lookup_insert_ne by done. by split_and!. }
  assert (∀ x, successor (retire l w la s) x =
    if decide (l = x) then Some (Some w) else successor s x) as Hnext.
  { intros x. unfold sharerepo.successor. rewrite mAssets_retire, lookup_insert. by case_decide. }
  split; tables.
  - intros j b (b0 & Hb & -> & -> & _)%Hback. by eapply K1.
  - intros j b [[<- <-]|[_ Hb]]%lookup_insert_Some; [done|by eapply K2].
  - intros i j b c (b0 & Hb & -> & _ & -> & _)%Hback (c0 & Hc0 & -> & _ & -> & _)%Hback. by apply K3.
  - intros j b k (b0 & Hb & -> & _ & _ & ->)%Hback Hk. case_decide.
    + injection Hk as <-. destruct (Hforth _ _ Hw) as (w' & ? & ? & _). exists w'. split; [done|congruence].
    + destruct (K4 _ _ _ Hb Hk) as (c & Hc' & E). destruct (Hforth _ _ Hc') as (c' & ? & ? & _).
      exists c'. split; [done|congruence].
  - eapply (lineage.rooted_retire (successor s) _ l w); [..|exact K5]; try done.
    + unfold sharerepo.successor. rewrite Hw. cbn. by rewrite Hwr.
    + unfold sharerepo.successor. rewrite Hl. cbn. by rewrite Hlr.
    + rewrite Hnext. by rewrite decide_True.
    + intros y Hy. rewrite Hnext. by rewrite decide_False.
  - intros id h' Hh'. rewrite lookup_fmap in Hh'.
    destruct (mShares s !! id) as [h|] eqn:Hh; [|done]. injection Hh' as <-.
    destruct (K6 _ _ Hh) as (b & Hb & E & H1 & H2). destruct (Hforth _ _ Hb) as (b' & Hb' & E' & Hs').
    destruct (retiredShare_id l h) as [-> ->]. exists b'. rewrite Hs'. split; [done|]. split; [congruence|].
    unfold retiredShare. case_bool_decide as Hd; [rewrite decide_True by done|by rewrite decide_False].
    unfold sharerepo.supersede. destruct (_ =? _)%string eqn:Ea; (split; [|by left]); [done|].
    by apply String.eqb_neq in Ea.
  - intros i j h h'. rewrite !lookup_fmap. intros Hi Hj.
    destruct (mShares s !! i) as [h1|] eqn:H1; [|done].
    destruct (mShares s !! j) as [h2|] eqn:H2; [|done]. injection Hi as <-. injection Hj as <-.
    destruct (retiredShare_id l h1) as [-> _], (retiredShare_id l h2) as [-> _]. by apply K7.
  - intros k c i Hk Hi. rewrite lookup_fmap in Hk.
    destruct (pg.dbCandidates (mDB s) !! k) as [c0|] eqn:H0; [|done].
    injection Hk as <-. rewrite (proj1 (movedCredit_refs l w c0)) in Hi.
    destruct (K8 _ _ _ H0 Hi) as (b & Hb & E). destruct (Hforth _ _ Hb) as (b' & ? & ? & _).
    exists b'. split; [done|congruence].
  - intros k c i Hk Hi. rewrite lookup_fmap in Hk.
    destruct (pg.dbCandidates (mDB s) !! k) as [c0|] eqn:H0; [|done].
    injection Hk as <-. rewrite (proj2 (movedCredit_refs l w c0)) in Hi. case_decide as Hd.
    + injection Hi as <-. destruct (Hforth _ _ Hw) as (b' & Hb' & E' & Es). exists b'.
      destruct (K9 _ _ _ H0 Hd) as (b & Hb & E & _). rewrite decide_False in Es by done.
      split_and!; [done|congruence..].
    + destruct (K9 _ _ _ H0 Hi) as (b & Hb & E & Er). destruct (Hforth _ _ Hb) as (b' & Hb' & E' & Es).
      rewrite decide_False in Es by congruence. exists b'. split_and!; [done|congruence..].
Qed.

(** ** The steps of a placement *)

(** The winner: a root of the event. *)
Definition Root (w ev : UUID) (s : Media) : Prop :=
  ∃ a, mAssets s !! w = Some a ∧ arSupersededBy a = None ∧ arEventID a = ev.

Lemma Root_same w ev s s' : mAssets s' = mAssets s → Root w ev s → Root w ev s'.
Proof. intros E. unfold Root. by rewrite E. Qed.

Lemma supersedePlacementLoser_inv ev l w wa u s s' :
  media_ok s → mAssets s !! w = Some wa → arSupersededBy wa = None → arEventID wa = ev → l ≠ w →
  supersedePlacementLoser ev l w s = inr (u, s') →
  ∃ la, mAssets s !! l = Some la ∧ arEventID la = ev ∧
    (arSupersededBy la = Some w ∧ s' = s ∨
     arSupersededBy la = None ∧ ∃ wa', wa' = wa <| arPopularity ::= λ n, n + arPopularity la |> ∧
       video_assets_check w wa' = true ∧
       video_assets_check l (la <| arSupersededBy := Some w |>) = true ∧
       s' = retire l w la (setAsset w wa' s)).
Proof.
  intros Hok Hw Hwr Hev Hne Hs. unfold supersedePlacementLoser in Hs. mtx_inv.
  destruct (mAssets s !! l) as [la|] eqn:Hl; [|done]. exists la. split; [done|]. mtx_inv.
  split; [by eapply bool_decide_eq_true|].
  destruct (arSupersededBy la) as [k|] eqn:Hk; cbn [is_nil] in *; mtx_inv.
  - left. assert (k = w) as ->.
    { match goal with Hd : negb (differ _ _) = true |- _ => cbn in Hd; rewrite negb_involutive in Hd;
        by apply bool_decide_eq_true in Hd end. }
    split; [done|]. destruct (retired_again s l w la Hok Hl) as [E1 E2]; [congruence|].
    rewrite E1, E2. by destruct s.
  - right. split; [done|]. eexists. split; [done|].
    match goal with Hx : updateAssetRow w _ _ = _, Hy : updateAssetRow l _ _ = _ |- _ =>
      apply updateAssetRow_inv in Hx as [(_ & _ & ?)|(_ & b & Hb & Hc & _ & ->)];
      [congruence|]; rewrite Hw in Hb; injection Hb as <-;
      apply updateAssetRow_inv in Hy as [(_ & _ & Hn)|(_ & b & Hb & Hc' & _ & ->)] end.
    { revert Hn. tables. rewrite lookup_insert_ne by done. congruence. }
    revert Hb. tables. rewrite lookup_insert_ne, Hl by done. injection 1 as <-. by split_and!.
Qed.

Lemma supersedePlacementLoser_ok ev l w u s s' :
  media_ok s → Root w ev s → l ≠ w → supersedePlacementLoser ev l w s = inr (u, s') →
  media_ok s' ∧ Root w ev s' ∧ frame s s'.
Proof.
  intros Hok (wa & Hw & Hr & He) Hne Hs.
  destruct (supersedePlacementLoser_inv _ _ _ _ _ _ _ Hok Hw Hr He Hne Hs)
    as (la & Hl & Hle & [(_ & ->)|(Hlr & wa' & Hwa & Hc & Hc' & ->)]).
  { split_and!; [done|by exists wa|done]. }
  assert (media_ok (setAsset w wa' s)) as Hok1 by (subst wa'; by eapply setAsset_same).
  split_and!.
  - eapply (retire_ok l w la wa'); subst wa'; try done; tables.
    + by rewrite lookup_insert_ne.
    + by rewrite lookup_insert_eq.
    + cbn. congruence.
  - exists wa'. rewrite mAssets_retire. tables. rewrite lookup_insert_ne, lookup_insert_eq by done. by subst wa'.
  - transitivity (setAsset w wa' s); [by apply frame_same|apply retire_frame].
Qed.

Lemma creditPlacementCandidate_inv p w losers c b s s' :
  creditPlacementCandidate p w losers c s = inr (b, s') →
  ∃ row, pg.cdCreditedAssetID row = Some w ∧
    setCandidate (plEventID p, ceTweetURL (pcEvidence c)) row s = inr (tt, s') ∧
    match pg.dbCandidates (mDB s) !! (plEventID p, ceTweetURL (pcEvidence c)) with
    | None => b = true
    | Some row0 => addsVote w losers row0 = Some b
    end.
Proof.
  unfold creditPlacementCandidate. destruct (rawBytes _) as [raw|]; [|done]. intros Hc. mtx_inv.
  destruct (pg.dbCandidates _ !! _) as [row0|] eqn:E; mtx_inv.
  - destruct (addsVote w losers row0) as [added|]; [|done]. mtx_inv.
    eexists. split_and!; [|match goal with Hx : setCandidate _ _ _ = inr (?x, _) |- _ => destruct x; exact Hx end|]; done.
  - eexists. split_and!; [|match goal with Hx : setCandidate _ _ _ = inr (?x, _) |- _ => destruct x; exact Hx end|]; done.
Qed.

Lemma addVote_ok p w losers c n n' s s' :
  media_ok s → Root w (plEventID p) s → countVote p w losers n c s = inr (n', s') →
  media_ok s' ∧ Root w (plEventID p) s' ∧ frame s s' ∧ mAssets s' = mAssets s.
Proof.
  intros Hok Hr Hc. unfold countVote in Hc. mtx_inv.
  destruct (creditPlacementCandidate_inv _ _ _ _ _ _ _ ltac:(eassumption)) as (row & Hw & Hs & _).
  destruct (setCandidate_inv _ _ _ _ _ Hs) as (_ & E & _).
  destruct Hr as (a & Ha & Har & Hae). split_and!.
  - by eapply writeCandidate_ok.
  - rewrite E. by exists a.
  - rewrite E. by apply frame_same.
  - by rewrite E.
Qed.

(** What a stage keeps once the winner is a root. *)
Definition keeps (w ev : UUID) (s s' : Media) : Prop :=
  media_ok s → Root w ev s → media_ok s' ∧ Root w ev s' ∧ frame s s'.

Lemma countVotes_ok p w losers cs n n' s s' :
  foldTx (countVote p w losers) n cs s = inr (n', s') → keeps w (plEventID p) s s'.
Proof.
  intros Hf Hok Hr. eapply (foldTx_inv _ (λ _ _ s', media_ok s' ∧ Root w (plEventID p) s' ∧ frame s s'));
    [|by split_and!|exact Hf].
  intros l1 c l2 m s1 m' s2 _ (Hok1 & Hr1 & Hf1) Hb.
  destruct (addVote_ok _ _ _ _ _ _ _ _ Hok1 Hr1 Hb) as (? & ? & ? & _).
  split_and!; [done..|by etransitivity].
Qed.

Lemma losersOf_winner p w l : l ∈ losersOf p w → l ≠ w.
Proof.
  unfold losersOf. rewrite elem_of_remove_dups. intros Hl. apply list_elem_of_omap in Hl as ([x|] & _ & Hx); [|done].
  by case_bool_decide; simplify_eq.
Qed.

Lemma supersedeLosers_ok p w ls u s s' :
  (∀ l, l ∈ ls → l ≠ w) → forEach ls (λ l, supersedePlacementLoser (plEventID p) l w) s = inr (u, s') →
  keeps w (plEventID p) s s'.
Proof.
  intros Hne Hf Hok Hr. eapply (forEach_inv _ (λ s', media_ok s' ∧ Root w (plEventID p) s' ∧ frame s s'));
    [|by split_and!|exact Hf].
  intros l s1 v s2 Hl (Hok1 & Hr1 & Hf1) Hb.
  destruct (supersedePlacementLoser_ok _ _ _ _ _ _ Hok1 Hr1 (Hne l Hl) Hb) as (? & ? & ?).
  split_and!; [done..|by etransitivity].
Qed.

Lemma addVotes_inv w d u s s' a :
  mAssets s !! w = Some a → addVotes w d s = inr (u, s') →
  s' = s ∧ d ≤ 0 ∨ 0 < d ∧ s' = setAsset w (a <| arPopularity ::= λ n, n + d |>) s.
Proof.
  intros Ha. unfold addVotes. destruct (0 <? d) eqn:Hd; intros Hv; mtx_inv; [|left; split; [done|lia]].
  right. split; [lia|]. destruct (updateAssetRow_inv _ _ _ _ _ ltac:(eassumption)) as [(_ & _ & ?)|(_ & b & Hb & _ & _ & ->)];
    congruence.
Qed.

Lemma addVotes_ok w ev d u s s' : addVotes w d s = inr (u, s') → keeps w ev s s'.
Proof.
  unfold addVotes. intros Hv Hok (a & Ha & Hr & He). case_match; mtx_inv; [|split_and!; [done|by exists a|done]].
  split_and!; [by eapply addPopularity_ok|..];
    (destruct (updateAssetRow_inv _ _ _ _ _ ltac:(eassumption)) as [(_ & -> & ?)|(_ & b & Hb & _ & _ & ->)]; [congruence|]).
  - exists (a <| arPopularity ::= λ n, n + d |>). tables. rewrite lookup_insert_eq.
    rewrite Ha in Hb. injection Hb as <-. by split_and!.
  - by apply frame_same.
Qed.

(** The stages of the transaction, between the states [s] and [s']. *)
Record placed (p : ClipPlacement) (out : ClipPlacementResult) (s s' : Media) := mkPlaced {
  pdWinner : UUID;
  pdCreated : bool;
  pdAsset : AssetRow;
  pdVotes : Z;
  pdShare : string;
  pd1 : Media; pd2 : Media; pd3 : Media; pd4 : Media; pd5 : Media;
  pd_winner : insertWinner p s = inr (pdCreated, pd1);
  pd_wanted : match plWinner p with Some w => aID w | None => plWinnerAssetID p end = Some pdWinner;
  pd_asset : mAssets pd1 !! pdWinner = Some pdAsset;
  pd_live : arSupersededBy pdAsset = None;
  pd_event : arEventID pdAsset = plEventID p;
  pd_variant : ∃ b, insertVariant p pd1 = inr (b, pd2) ∧
    out = mkClipPlacementResult (Some pdWinner) pdShare pdCreated (pdCreated || b) false None;
  pd_validation : persistPlacementValidation p pd2 = inr (tt, pd3);
  pd_share : ensurePlacementShare p pdWinner pd3 = inr (pdShare, pd4);
  pd_credit : foldTx (countVote p pdWinner (losersOf p pdWinner)) 0 (plCandidates p) pd4 = inr (pdVotes, pd5);
  pd_voted : pdCreated = true → pdVotes ≠ 0;
  pd_votes : ∃ s6 u u', addVotes pdWinner (if pdCreated then pdVotes - 1 else pdVotes) pd5 = inr (u, s6) ∧
    forEach (losersOf p pdWinner) (λ l, supersedePlacementLoser (plEventID p) l pdWinner) s6 = inr (u', s') }.

Lemma applyClipPlacementTx_inv p out s s' :
  applyClipPlacementTx p s = inr (out, s') → inhabited (placed p out s s').
Proof.
  unfold applyClipPlacementTx. intros Ht. mtx_inv.
  match goal with Hx : (match aID ?a with _ => _ end) _ = _ |- _ => destruct (aID a) as [w|] eqn:Ew end; [|done].
  mtx_inv.
  match goal with Hx : getAssetTx _ _ = _ |- _ =>
    destruct (getAssetTx_inv _ _ _ _ Hx) as (-> & i & row & E1 & E2 & ->) end.
  cbn in Ew. injection Ew as ->.
  match goal with Hx : scopeOf _ _ && _ = true |- _ =>
    apply andb_true_iff in Hx as [Hsc Hlive]; apply andb_true_iff in Hsc as [He _] end.
  apply bool_decide_eq_true in He. cbn in He, Hlive. apply is_nil_true in Hlive.
  match goal with Hx : persistPlacementValidation _ ?a = inr (?u, _), Hy : insertVariant _ _ = inr (_, ?b),
    Hz : (match plObservedAssetID p with _ => _ end) _ = _ |- _ =>
    destruct u; assert (a = b) as -> by (destruct (plObservedAssetID p); [by eapply requireObservedRoot_inv|by mtx_inv]) end.
  match goal with Hx : foldTx _ _ _ _ = inr (?n, _) |- _ =>
    constructor; eapply (mkPlaced _ _ _ _ w _ row n); try eassumption end.
  - congruence.
  - eexists. by split.
  - intros ->. match goal with Hx : negb (true && _) = true |- _ => by apply negb_true_iff, Z.eqb_neq in Hx end.
  - eexists _, _, _. split; eassumption.
Qed.

Lemma insertWinner_ok p b s s' :
  media_ok s → insertWinner p s = inr (b, s') → media_ok s' ∧ frame s s'.
Proof.
  unfold insertWinner. intros Hok Hi. destruct (plWinner p) as [a|]; mtx_inv; [|done].
  split; [by eapply insertAssetOf_ok|by eapply insertAssetOf_frame].
Qed.

(** A row that is there stays when assets are inserted. *)
Lemma insertAssetOf_keeps a n b s s' i row :
  insertAssetOf a n s = inr (b, s') → mAssets s !! i = Some row → mAssets s' !! i = Some row.
Proof.
  intros (id & ev & _ & _ & [_ [(_ & -> & _)|(_ & -> & Hn & _)]]%insertAssetRow_inv)%insertAssetOf_inv; [done|].
  intros Hi. tables. rewrite lookup_insert_ne; [done|congruence].
Qed.

Lemma insertVariant_inv p b s s' :
  insertVariant p s = inr (b, s') →
  plVariant p = None ∧ s' = s ∧ b = false ∨ ∃ a, plVariant p = Some a ∧ insertAssetOf a 1 s = inr (b, s').
Proof.
  unfold insertVariant. destruct (plVariant p) as [a|]; intros Hi; mtx_inv; [|by left].
  match goal with Hx : getAssetTx _ _ = _ |- _ => destruct (getAssetTx_inv _ _ _ _ Hx) as (-> & _) end.
  right. by exists a.
Qed.

Lemma insertVariant_ok p w ev b s s' : insertVariant p s = inr (b, s') → keeps w ev s s'.
Proof.
  intros [(_ & -> & _)|(a & _ & Hi)]%insertVariant_inv Hok (wa & Hw & ?); [split_and!; [done|by exists wa|done]|].
  split_and!; [by eapply insertAssetOf_ok| |by eapply insertAssetOf_frame].
  exists wa. split; [|done]. by eapply insertAssetOf_keeps.
Qed.

Lemma persistPlacementValidation_ok p w ev u s s' :
  persistPlacementValidation p s = inr (u, s') → keeps w ev s s'.
Proof.
  intros (E1 & E2 & E3 & E4)%persistPlacementValidation_inv Hok Hr. split_and!.
  - destruct Hok. split; unfold sharerepo.successor in *; by rewrite ?E1, ?E2, ?E3.
  - by eapply Root_same.
  - apply frame_same; congruence.
Qed.

Lemma ensurePlacementShare_ok p w id s s' :
  ensurePlacementShare p w s = inr (id, s') → keeps w (plEventID p) s s'.
Proof.
  intros Hs Hok (a & Ha & Hr & He).
  destruct (ensurePlacementShare_inv _ _ _ _ _ _ Hok Ha Hr He Hs) as (? & ? & E & _).
  split_and!; [done| |done]. rewrite <-E in Ha. by exists a.
Qed.

Lemma keeps_trans w ev s1 s2 s3 : keeps w ev s1 s2 → keeps w ev s2 s3 → keeps w ev s1 s3.
Proof.
  intros H1 H2 Hok Hr. destruct (H1 Hok Hr) as (Hok2 & Hr2 & F). destruct (H2 Hok2 Hr2) as (? & ? & F').
  split_and!; [done..|by etransitivity].
Qed.

Lemma applyClipPlacementTx_ok p out s s' :
  media_ok s → applyClipPlacementTx p s = inr (out, s') → media_ok s' ∧ frame s s'.
Proof.
  intros Hok [pd]%applyClipPlacementTx_inv. destruct pd as [w created wa n sh s1 s2 s3 s4 s5 H1 _ Ha Hr He (b & H2 & _) H3 H4 H5 _ (s6 & u & u' & H6 & H7)].
  destruct (insertWinner_ok _ _ _ _ Hok H1) as [Hok1 F1].
  assert (keeps w (plEventID p) s1 s') as Hk.
  { eapply keeps_trans; [by eapply insertVariant_ok|].
    eapply keeps_trans; [by eapply persistPlacementValidation_ok|].
    eapply keeps_trans; [by eapply ensurePlacementShare_ok|].
    eapply keeps_trans; [by eapply countVotes_ok|].
    eapply keeps_trans; [by eapply addVotes_ok|].
    eapply supersedeLosers_ok; [|done]. intros l. apply losersOf_winner. }
  destruct (Hk Hok1) as (? & _ & F2); [by exists wa|]. split; [done|by etransitivity].
Qed.

End placing.
End placing.
