(* ===== verification/Restoring.v ===== *)
(** What a selection does to the video tables: the rows of the event are routed to
    their keepers, the kept clips are public, the other events are left alone, and no
    link is lost. *)
From S2P Require Import Prelude GoStrings Fixture Event Vision Video Selection Jsonb Discovery Store Candidates Lineage Media Gallery Placement Reselect MediaLaws Placing.
From Stdlib Require Import SpecFloat.
#[local] Open Scope string_scope.
#[local] Open Scope list_scope.
#[local] Open Scope Z_scope.
Import discoverycontract jsonb video selection media gallery placement reselect medialaws placing.

Module restoring.

(** ** Where a plan routes the assets *)

Section plan.
Implicit Types (sn : SelectionSnapshot) (plan : SelectionPlan).

Definition keeper (plan : SelectionPlan) (id : UUID) : UUID :=
  match head (filter (λ o, soAssetID o = Some id) (slOwners plan)) with
  | Some o => default id (soKeeperID o)
  | None => id
  end.

Definition owned (plan : SelectionPlan) (id : UUID) : Prop := Some id ∈ (soAssetID <$> slOwners plan).

#[global] Instance owned_dec plan id : Decision (owned plan id).
Proof. unfold owned. apply _. Defined.

Definition hasNode (sn : SelectionSnapshot) (id : UUID) (a : Asset) : Prop :=
  ∃ n, n ∈ spNodes sn ∧ snAsset n = Some a ∧ aID a = Some id.

Record routes (sn : SelectionSnapshot) (plan : SelectionPlan) : Prop := {
  rt_nodup : NoDup (soAssetID <$> slOwners plan);
  rt_owned id : owned plan id ↔ ∃ a, hasNode sn id a;
  rt_owner o : o ∈ slOwners plan → ∃ id, soAssetID o = Some id ∧ soKeeperID o = Some (keeper plan id);
  rt_keeper id : owned plan id → owned plan (keeper plan id) ∧ keeper plan (keeper plan id) = keeper plan id;
  rt_root id a : hasNode sn id a → aSupersededBy a = None → keeper plan id = id;
  rt_clip c : c ∈ slSelected plan → is_Some (scAssetID c);
  rt_selected id : Some id ∈ (scAssetID <$> slSelected plan) ↔ owned plan id ∧ keeper plan id = id;
  rt_distinct : NoDup (scAssetID <$> slSelected plan);
  rt_bytes id a : hasNode sn id a → owned plan id → keeper plan id = id → aObjectReclaimedAt a = None;
  rt_source src : src ∈ spSources sn → ∃ id, ssObservedAssetID src = Some id ∧ owned plan id }.

Lemma indexNodes_spec ml sn ns i md5s ix0 ix :
  indexNodes ml sn i md5s ix0 ns = inl ix →
  (∀ j n, ns !! j = Some n → ∃ id, aID (gnAsset n) = Some id ∧ ix !! id = Some (i + j)%nat) ∧
  (∀ id j, ix0 !! id = Some j → ix !! id = Some j) ∧
  (∀ id j, ix !! id = Some j → ix0 !! id = Some j ∨
    ∃ n, (i ≤ j)%nat ∧ ns !! (j - i)%nat = Some n ∧ aID (gnAsset n) = Some id).
Proof.
  revert i md5s ix0. induction ns as [|n ns IH]; intros i md5s ix0; cbn [indexNodes].
  { intros [= ->]. split_and!; [done|done|by left]. }
  destruct (Asset_ValidateInvariants _); [done|]. destruct (aID (gnAsset n)) as [id|] eqn:Eid; [|done].
  destruct (_ || _); [done|]. destruct (ix0 !! id) as [|] eqn:Ex; [done|]. cbn [not_nil negb is_nil].
  case_decide; [done|]. destruct (shareMismatch _ _ _); [done|]. destruct (validationError _ _ _ _); [done|].
  intros (H1 & H2 & H3)%IH. split_and!.
  - intros [|j] m; cbn.
    + intros [= <-]. exists id. split; [done|]. rewrite Nat.add_0_r. apply H2, lookup_insert_eq.
    + intros Hm. destruct (H1 j m Hm) as (x & ? & ?). exists x. split; [done|].
      by replace (i + S j)%nat with (S i + j)%nat by lia.
  - intros x j Hx. apply H2. rewrite lookup_insert_ne; [done|congruence].
  - intros x j [Hx|(m & Hj & Hm & He)]%H3.
    + apply lookup_insert_Some in Hx as [[<- <-]|[_ Hx]]; [right|by left].
      exists n. rewrite Nat.sub_diag. split_and!; [lia|done..].
    + right. exists m. replace (j - i)%nat with (S (j - S i)) by lia. split_and!; [lia|done..].
Qed.

Lemma requireAssets_spec ns out :
  requireAssets ns = inl out → ∀ a, (∃ n, n ∈ ns ∧ snAsset n = Some a) ↔ a ∈ (gnAsset <$> out).
Proof.
  revert out. induction ns as [|n ns IH]; intros out; cbn [requireAssets].
  { intros [= <-] a. split; [intros (n & Hn%elem_of_nil & _); done|intros Hn%elem_of_nil; done]. }
  destruct (snAsset n) as [x|] eqn:Ex; [|done]. intros (rest & Hr & Hk)%bind_inl. injection Hk as <-.
  intros a. cbn [fmap list_fmap gnAsset]. rewrite elem_of_cons, <-(IH _ Hr). split.
  - intros (m & [->|Hm]%elem_of_cons & Ha); [left; congruence|right; by exists m].
  - intros [->|(m & Hm & Ha)]; [exists n; split; [left|done]|exists m; split; [by right|done]].
Qed.

Lemma classifyNodes_eligible ns ix ready i rest rs es ss :
  classifyNodes ns ix ready i rest = inl (rs, es, ss) → es = nodeEligible ready <$> rest.
Proof.
  revert i rs es ss. induction rest as [|n rest IH]; intros i rs es ss; cbn [classifyNodes]; [naive_solver|].
  destruct (is_nil _ && _); [done|]. destruct (negb _ && _); [done|].
  intros (r & _ & Hk)%bind_inl. apply bind_inl in Hk as ([[rs' es'] ss'] & Hc & Hk).
  injection Hk as <- <- <-. cbn. f_equal. by eapply IH.
Qed.
(** The graph of a snapshot has its nodes, each at the index of its identity. *)
Record indexed (sn : SelectionSnapshot) (g : selectionGraph) : Prop := {
  ix_node a : (∃ n, n ∈ spNodes sn ∧ snAsset n = Some a) ↔ a ∈ (gnAsset <$> nodes g);
  ix_id j n : nodes g !! j = Some n → ∃ id, aID (gnAsset n) = Some id ∧ index g !! id = Some j;
  ix_eligible i n : nodes g !! i = Some n → isEligible g i = true → aObjectReclaimedAt (gnAsset n) = None;
  ix_index id j : index g !! id = Some j → (j < length (nodes g))%nat ∧ assetID g j = Some id }.

Lemma newSelectionGraph_indexed ml sn p prepared g :
  newSelectionGraph ml sn p prepared = inl g → indexed sn g.
Proof.
  unfold newSelectionGraph. destruct (_ || _); [done|].
  intros (ns0 & Ha & H)%bind_inl. apply bind_inl in H as (ix & Hi & H).
  apply bind_inl in H as (ready & _ & H). apply bind_inl in H as ([[rs es] ss] & Hc & H).
  apply bind_inl in H as ([] & _ & H). injection H as <-.
  destruct (indexNodes_spec _ _ _ _ _ _ _ Hi) as (H1 & _ & H3).
  apply classifyNodes_eligible in Hc as ->. split; cbn.
  - intros a. rewrite (requireAssets_spec _ _ Ha a). by rewrite sort_by_perm.
  - apply H1.
  - intros i n Hn. unfold isEligible. cbn. rewrite list_lookup_fmap, Hn. cbn. unfold nodeEligible.
    intros He. apply andb_true_iff in He as [_ ?]. by apply is_nil_true.
  - intros id j [Hj|(n & _ & Hn & He)]%H3; [by rewrite lookup_empty in Hj|].
    rewrite Nat.sub_0_r in Hn. unfold assetID. cbn. rewrite Hn. split; [by eapply lookup_lt_Some|done].
Qed.

Lemma assetID_inj sn g i j id :
  indexed sn g → assetID g i = Some id → assetID g j = Some id → i = j.
Proof.
  intros Hx. unfold assetID. destruct (nodes g !! i) as [n|] eqn:Ei; [|done].
  destruct (nodes g !! j) as [m|] eqn:Ej; [|done]. intros E1 E2.
  destruct (ix_id _ _ Hx _ _ Ei) as (x & ? & ?), (ix_id _ _ Hx _ _ Ej) as (y & ? & ?). congruence.
Qed.

Lemma assetID_lt sn g i : indexed sn g → (i < length (nodes g))%nat → ∃ id, assetID g i = Some id.
Proof.
  intros Hx [n Hn]%lookup_lt_is_Some_2. destruct (ix_id _ _ Hx _ _ Hn) as (id & Hid & _). exists id.
  unfold assetID. by rewrite Hn.
Qed.

Lemma hasNode_index sn g id a :
  indexed sn g → hasNode sn id a → ∃ i n, nodes g !! i = Some n ∧ gnAsset n = a ∧ assetID g i = Some id.
Proof.
  intros Hx (n & Hn & Ha & Hid). assert (a ∈ (gnAsset <$> nodes g)) as Hin by (apply (ix_node _ _ Hx); by exists n).
  apply list_elem_of_fmap in Hin as (m & -> & Hm). apply list_elem_of_lookup in Hm as [i Hi].
  exists i, m. unfold assetID. by rewrite Hi.
Qed.

Lemma head_filter_NoDup {A B} `{EqDecision B} (f : A → B) (l : list A) x :
  NoDup (f <$> l) → x ∈ l → head (filter (λ y, f y = f x) l) = Some x.
Proof.
  induction l as [|y l IH]; cbn [fmap list_fmap]; intros Hn Hx; [by apply elem_of_nil in Hx|].
  apply NoDup_cons in Hn as [Hy Hn]. rewrite filter_cons. apply elem_of_cons in Hx as [->|Hx].
  - by rewrite decide_True.
  - rewrite decide_False by (intros E; apply Hy; rewrite E; by apply list_elem_of_fmap_2). by apply IH.
Qed.

Lemma NoDup_assetID sn g l :
  indexed sn g → NoDup l → Forall (λ i, (i < length (nodes g))%nat) l → NoDup (assetID g <$> l).
Proof.
  intros Hx Hn HF. induction Hn as [|i l Hi Hn IH]; cbn; [constructor|].
  apply Forall_cons in HF as [Hlt HF]. constructor; [|by apply IH].
  intros (j & Ej & Hj)%list_elem_of_fmap. apply Hi. destruct (assetID_lt _ _ _ Hx Hlt) as [id Hid].
  assert (i = j) as -> by (eapply assetID_inj; [done..|congruence]). done.
Qed.

Section routed.
Context (sn : SelectionSnapshot) (g : selectionGraph) (new : list nat) (plan : SelectionPlan).
Context (Hg : graph_ok g (spSources sn)) (Hx : indexed sn g) (Hp : plan_of sn g new plan).

Abbreviation sel := (g.(selected) ++ new).

Lemma sel_lt i : i ∈ sel → (i < length (nodes g))%nat.
Proof.
  intros [Hi|Hi]%elem_of_app.
  - apply (go_selected _ _ Hg) in Hi as (n & Hn & _). by eapply lookup_lt_Some.
  - pose proof (sublist_subseteq _ _ (rs_sub _ _ _ _ (po_restoration _ _ _ _ Hp))) as Hs.
    apply Hs, elem_of_seq in Hi. lia.
Qed.

Lemma sel_NoDup : NoDup sel.
Proof.
  destruct (po_restoration _ _ _ _ Hp) as [R1 R2 R3 R4]. apply NoDup_app. split_and!.
  - apply (go_nodup _ _ Hg).
  - intros i Hi (l1 & l2 & E)%list_elem_of_split. pose proof (R3 _ _ _ E) as Hf.
    assert (supported g i (selected g ++ l1) = true) as Ht; [|congruence].
    apply supported_true. exists i. split; [set_solver|apply matches_refl].
  - eapply sublist_NoDup; [apply NoDup_seq|exact R1].
Qed.

Lemma sel_eligible i : i ∈ sel → isEligible g i = true.
Proof.
  intros [Hi|Hi]%elem_of_app; [by apply (go_eligible _ _ Hg)|].
  pose proof (rs_eligible _ _ _ _ (po_restoration _ _ _ _ Hp)) as HF. rewrite Forall_forall in HF. by apply HF.
Qed.

Lemma owners_ids : (soAssetID <$> slOwners plan) = assetID g <$> seq 0 (length (nodes g)).
Proof.
  pose proof (po_owners _ _ _ _ Hp) as HF. induction HF as [|i o l k [H1 _] _ IH]; [done|].
  cbn [fmap list_fmap]. by rewrite H1, IH.
Qed.

Lemma clips_ids : (scAssetID <$> slSelected plan) = assetID g <$> sel.
Proof.
  pose proof (po_selected _ _ _ _ Hp) as HF. induction HF as [|i o l k [H1 _] _ IH]; [done|].
  cbn [fmap list_fmap]. by rewrite H1, IH.
Qed.

Lemma owners_NoDup : NoDup (soAssetID <$> slOwners plan).
Proof.
  rewrite owners_ids. eapply NoDup_assetID; [done|apply NoDup_seq|].
  apply Forall_forall. intros i Hi%elem_of_seq. lia.
Qed.

Lemma owned_index id : owned plan id ↔ ∃ i, (i < length (nodes g))%nat ∧ assetID g i = Some id.
Proof.
  unfold owned. rewrite owners_ids, list_elem_of_fmap. split.
  - intros (i & E & Hi%elem_of_seq). exists i. split; [lia|done].
  - intros (i & Hi & E). exists i. split; [done|]. apply elem_of_seq. lia.
Qed.

Lemma keeper_index i id :
  (i < length (nodes g))%nat → assetID g i = Some id →
  ∃ o j, o ∈ slOwners plan ∧ soAssetID o = Some id ∧ soKeeperID o = Some (keeper plan id) ∧
    ownerOf g sel i = Some j ∧ j ∈ sel ∧ assetID g j = Some (keeper plan id).
Proof.
  intros Hi Hid. destruct (Forall2_lookup_l _ _ _ i i (po_owners _ _ _ _ Hp)) as (o & Ho & Ha & j & Hj & Hjs & Hk & _).
  { rewrite lookup_seq. lia. }
  destruct (assetID_lt _ _ _ Hx (sel_lt j Hjs)) as [k Ek].
  apply list_elem_of_lookup_2 in Ho. assert (keeper plan id = k) as E.
  { unfold keeper. rewrite <-Hid, <-Ha. rewrite (head_filter_NoDup soAssetID _ _ owners_NoDup Ho).
    by rewrite Hk, Ek. }
  exists o, j. rewrite E. split_and!; [done|congruence|congruence|done..].
Qed.

Lemma keeper_sel i id : i ∈ sel → assetID g i = Some id → keeper plan id = id.
Proof.
  intros Hi Hid. destruct (keeper_index i id (sel_lt i Hi) Hid) as (_ & j & _ & _ & _ & Ho & _ & Hj).
  unfold ownerOf in Ho. rewrite bool_decide_true in Ho by done. congruence.
Qed.

Lemma plan_routes : routes sn plan.
Proof.
  split.
  - apply owners_NoDup.
  - intros id. rewrite owned_index. split.
    + intros (i & Hi & Hid). unfold assetID in Hid. destruct (nodes g !! i) as [n|] eqn:En; [|done].
      exists (gnAsset n). assert (gnAsset n ∈ (gnAsset <$> nodes g)) as Hin
        by (apply list_elem_of_fmap_2; by eapply list_elem_of_lookup_2).
      apply (ix_node _ _ Hx) in Hin as (m & ? & ?). by exists m.
    + intros (a & Ha). destruct (hasNode_index _ _ _ _ Hx Ha) as (i & n & Hn & _ & Hid).
      exists i. split; [by eapply lookup_lt_Some|done].
  - intros o Ho. assert (soAssetID o ∈ (soAssetID <$> slOwners plan)) as Hin by by apply list_elem_of_fmap_2.
    rewrite owners_ids in Hin. apply list_elem_of_fmap in Hin as (i & E & Hi%elem_of_seq).
    destruct (assetID_lt _ _ i Hx) as [id Hid]; [lia|]. exists id. split; [congruence|].
    destruct (keeper_index i id) as (o' & _ & Ho' & E' & Hk & _); [lia|done|].
    pose proof (head_filter_NoDup soAssetID _ _ owners_NoDup Ho) as H1.
    pose proof (head_filter_NoDup soAssetID _ _ owners_NoDup Ho') as H2.
    rewrite E' in H2. rewrite E, Hid in H1. congruence.
  - intros id (i & Hi & Hid)%owned_index. destruct (keeper_index i id Hi Hid) as (_ & j & _ & _ & _ & _ & Hj & Hk).
    split; [|by eapply keeper_sel]. apply owned_index. exists j. split; [by apply sel_lt|done].
  - intros id a Ha Hr. destruct (hasNode_index _ _ _ _ Hx Ha) as (i & n & Hn & E & Hid).
    eapply keeper_sel; [|done]. apply elem_of_app. left. apply (go_selected _ _ Hg). exists n. by subst a.
  - intros c Hc. assert (scAssetID c ∈ (scAssetID <$> slSelected plan)) as Hin by by apply list_elem_of_fmap_2.
    rewrite clips_ids in Hin. apply list_elem_of_fmap in Hin as (i & -> & Hi).
    destruct (assetID_lt _ _ i Hx (sel_lt i Hi)) as [id ->]. by eexists.
  - intros id. rewrite clips_ids, list_elem_of_fmap. split.
    + intros (i & E & Hi). split; [apply owned_index; exists i; split; [by apply sel_lt|done]|by eapply keeper_sel].
    + intros ((i & Hi & Hid)%owned_index & Hk).
      destruct (keeper_index i id Hi Hid) as (_ & j & _ & _ & _ & _ & Hj & E). exists j. by rewrite E, Hk.
  - rewrite clips_ids. eapply NoDup_assetID; [done|apply sel_NoDup|]. apply Forall_forall, sel_lt.
  - intros id a Ha (i & Hi & Hid)%owned_index Hk.
    destruct (keeper_index i id Hi Hid) as (_ & j & _ & _ & _ & _ & Hj & E). rewrite Hk in E.
    destruct (hasNode_index _ _ _ _ Hx Ha) as (i' & n & Hn & <- & Hid').
    assert (i' = j) as -> by (eapply assetID_inj; done). eapply (ix_eligible _ _ Hx); [done|by apply sel_eligible].
  - intros src Hs. destruct (go_sources _ _ Hg src Hs) as (i & Hi & Hlt). unfold lookupID in Hi.
    destruct (ssObservedAssetID src) as [id|]; [|done]. exists id. split; [done|].
    apply owned_index. exists i. split; [done|]. by eapply (ix_index _ _ Hx).
Qed.
End routed.

Lemma PlanSelection_graph ml sn p prepared plan :
  PlanSelection ml sn p prepared = inl plan → ∃ g new, newSelectionGraph ml sn p prepared = inl g ∧
    graph_ok g (spSources sn) ∧ indexed sn g ∧ plan_of sn g new plan ∧ spRemoved sn = false.
Proof.
  intros HP. assert (∃ g, spRemoved sn = false ∧ SelectionPolicy_Validate p = None ∧
    newSelectionGraph ml sn p prepared = inl g) as (g & Hr & Hv & Hg).
  { unfold PlanSelection in HP. destruct (spRemoved sn); [done|]. destruct (SelectionPolicy_Validate p); [done|].
    destruct (newSelectionGraph ml sn p prepared) as [g|]; [|done]. by exists g. }
  destruct (PlanSelection_form _ _ _ _ _ Hr Hv Hg) as (new & plan' & HP' & Hp).
  rewrite HP in HP'. injection HP' as <-. exists g, new. split_and!; [done|..|done|done].
  - by eapply newSelectionGraph_ok.
  - by eapply newSelectionGraph_indexed.
Qed.

Lemma PlanSelection_routes ml sn p prepared plan :
  PlanSelection ml sn p prepared = inl plan → routes sn plan.
Proof. intros (g & new & _ & Hg & Hx & Hp & _)%PlanSelection_graph. by eapply plan_routes. Qed.
End plan.

Section restoring.
Context `{Env, Digests}.
Implicit Types (s : Media) (sn : SelectionSnapshot) (plan : SelectionPlan).

(** ** The snapshot of a state *)

Definition shareOf (s : Media) (ev id : UUID) : option Share :=
  (λ h : string * ShareRow, scanShare h.1 h.2) <$> shareFor ev id s.

Record snapshotOf (ev : UUID) (s : Media) (sn : SelectionSnapshot) : Prop := {
  so_event : spEventID sn = Some ev;
  so_row : ∃ e, pg.dbEvents (mDB s) !! ev = Some e ∧ spFixtureID sn = event.eFixtureID e ∧
    spRemoved sn = event.eRemoved e;
  so_node id a : hasNode sn id a ↔ ∃ row, mAssets s !! id = Some row ∧ arEventID row = ev ∧ a = scanAsset id row;
  so_share id a : hasNode sn id a → ∃ n, nodeFor sn (Some id) = Some n ∧ snShare n = shareOf s ev id;
  so_source k c : pg.dbCandidates (mDB s) !! k = Some c → k.1 = ev → Credited (pg.cdOutcomeClass c) = true →
    ∃ src, src ∈ spSources sn ∧ ssObservedAssetID src = pg.cdObservedAssetID c }.

Lemma loadSelectionTx_inv ev s sn s' : loadSelectionTx ev s = inr (sn, s') → s' = s ∧ snapshotOf ev s sn.
Proof.
  unfold loadSelectionTx. intros Hl. mtx_inv.
  destruct (pg.dbEvents (mDB s) !! ev) as [e|] eqn:He; mtx_inv. split; [done|].
  assert (∀ n, n ∈ (selectionNode ev s <$> assetsByID ev s) ↔ ∃ id row, mAssets s !! id = Some row ∧
    arEventID row = ev ∧ n = selectionNode ev s (id, row)) as Hn.
  { intros n. rewrite list_elem_of_fmap. unfold assetsByID. setoid_rewrite pg.elem_of_orderBy.
    setoid_rewrite list_elem_of_filter. split.
    - intros ([id row] & -> & Hev & Hr%elem_of_map_to_list). by exists id, row.
    - intros (id & row & Hr & Hev & ->). exists (id, row). split_and!; [done..|by apply elem_of_map_to_list]. }
  split; cbn.
  - done.
  - by exists e.
  - intros id a. unfold hasNode. cbn. setoid_rewrite Hn. split.
    + intros (n & (i & row & Hr & Hev & ->) & Ha & Hid). cbn in Ha. injection Ha as <-. cbn in Hid.
      injection Hid as ->. by exists row.
    + intros (row & Hr & Hev & ->). exists (selectionNode ev s (id, row)). split_and!; [|done..]. by exists id, row.
  - intros id a (n & Hin & Ha & Hid). unfold nodeFor. cbn in Hin |- *.
    destruct (filter _ _) as [|m l] eqn:Ef.
    + exfalso. apply (not_elem_of_nil n). rewrite <-Ef. apply list_elem_of_filter. by rewrite Ha.
    + assert (m ∈ filter (λ n, (snAsset n ≫= aID) = Some id) (selectionNode ev s <$> assetsByID ev s)) as Hm
        by (rewrite Ef; left).
      apply list_elem_of_filter in Hm as [Hmid (i & row & _ & _ & ->)%Hn]. cbn in Hmid. injection Hmid as ->.
      eexists. by split.
  - intros [k1 k2] c Hk <- Hc. eexists. split.
    + unfold selectionSources. apply elem_of_sort_by, list_elem_of_fmap. exists ((k1, k2), c). split; [done|].
      apply list_elem_of_filter. split; [done|by apply elem_of_map_to_list].
    + done.
Qed.

(** ** Routing *)

Definition route (plan : SelectionPlan) (id : UUID) : option UUID :=
  if decide (keeper plan id = id) then None else Some (keeper plan id).

Definition routedRow (plan : SelectionPlan) (id : UUID) (a : AssetRow) : AssetRow :=
  a <| arSupersededBy := route plan id |>.

Definition routedTo (plan : SelectionPlan) (ev : UUID) (done : list (option UUID)) (k : UUID * string)
    (c : pg.Candidate) : pg.Candidate :=
  match pg.cdObservedAssetID c with
  | Some x =>
      if bool_decide (k.1 = ev) && Credited (pg.cdOutcomeClass c) && bool_decide (Some x ∈ done)
      then c <| pg.cdCreditedAssetID := Some (keeper plan x) |> else c
  | None => c
  end.

(** The state after the owners of [done]. *)
Record routed (plan : SelectionPlan) (ev : UUID) (done : list (option UUID)) (s s' : Media) : Prop := {
  ro_shares : mShares s' = mShares s;
  ro_commits : mCommits s' = mCommits s;
  ro_validations : mValidations s' = mValidations s;
  ro_events : pg.dbEvents (mDB s') = pg.dbEvents (mDB s);
  ro_assets id : mAssets s' !! id =
    (λ a, if decide (Some id ∈ done) then routedRow plan id a else a) <$> mAssets s !! id;
  ro_checks id a : mAssets s' !! id = Some a → video_assets_check id a = true;
  ro_candidates k : pg.dbCandidates (mDB s') !! k = routedTo plan ev done k <$> pg.dbCandidates (mDB s) !! k }.

Lemma set_same_pointer (a : AssetRow) k : arSupersededBy a = k → a <| arSupersededBy := k |> = a.
Proof. intros <-. by destruct a. Qed.

Lemma routeAsset_inv plan ev o id a u s s' :
  soAssetID o = Some id → soKeeperID o = Some (keeper plan id) → mAssets s !! id = Some a → arEventID a = ev →
  video_assets_check id a = true → routeAsset ev o s = inr (u, s') →
  video_assets_check id (routedRow plan id a) = true ∧ s' = setAsset id (routedRow plan id a) s.
Proof.
  intros Ho Hk Ha He Hc Hr. unfold routeAsset in Hr. rewrite Ho, Hk in Hr.
  assert ((if bool_decide (Some id = Some (keeper plan id)) then None else Some (keeper plan id)) = route plan id) as E.
  { unfold route. case_bool_decide as Hb; case_decide; congruence. }
  rewrite E in Hr. clear E. mtx_inv. rewrite Ha in *. rewrite bool_decide_eq_true_2 in * by done. cbn [andb] in *.
  case_bool_decide as Hb; cbn [negb] in *; mtx_inv.
  - assert (routedRow plan id a = a) as -> by by apply set_same_pointer. split; [done|].
    destruct s as [db assets]. cbn in *. unfold setAsset. cbn. by rewrite insert_id.
  - destruct (updateAssetRow_inv _ _ _ _ _ ltac:(eassumption)) as [(_ & _ & ?)|(_ & b & Hb' & Hc' & _ & ->)]; [congruence|].
    rewrite Ha in Hb'. injection Hb' as <-. by split.
Qed.

Lemma routedTo_step plan ev done o id k c :
  soAssetID o = Some id → soKeeperID o = Some (keeper plan id) →
  routedCredit ev o k (routedTo plan ev done k c) = routedTo plan ev (done ++ [Some id]) k c.
Proof.
  intros Ho Hk. unfold routedCredit, routedTo. rewrite Ho, Hk.
  destruct (pg.cdObservedAssetID c) as [x|] eqn:Ex; [|rewrite Ex; cbn; by rewrite andb_false_r].
  assert (bool_decide (Some x ∈ done ++ [Some id]) = bool_decide (Some x ∈ done) || bool_decide (Some x = Some id)) as ->.
  { rewrite <-bool_decide_or. apply bool_decide_ext. set_solver. }
  case_bool_decide as Hev; destruct (Credited (pg.cdOutcomeClass c)) eqn:Ec; destruct (bool_decide (Some x ∈ done));
    cbn; rewrite ?Ex, ?Ec; cbn; rewrite ?andb_false_r, ?andb_true_r; try done.
  - case_bool_decide as Hx; [|done]. by injection Hx as ->.
  - case_bool_decide as Hx; [|done]. by injection Hx as ->.
Qed.

Lemma applyOwner_step plan ev done o id a u s0 s s' :
  soAssetID o = Some id → soKeeperID o = Some (keeper plan id) → mAssets s0 !! id = Some a → arEventID a = ev →
  routed plan ev done s0 s → applyOwner ev o s = inr (u, s') → routed plan ev (done ++ [Some id]) s0 s'.
Proof.
  intros Ho Hk Ha He [R1 R2 R3 R4 R5 R6 R7] Hs. unfold applyOwner in Hs. mtx_inv.
  set (a1 := if decide (Some id ∈ done) then routedRow plan id a else a).
  assert (mAssets s !! id = Some a1) as Ha1 by (by rewrite R5, Ha).
  assert (routedRow plan id a1 = routedRow plan id a) as Er by (unfold a1; by case_decide).
  destruct (routeAsset_inv plan _ o id a1 _ _ _ Ho Hk Ha1 ltac:(unfold a1; by case_decide) (R6 _ _ Ha1) ltac:(eassumption))
    as [Hc ->].
  rewrite Er in *. split; cbn; try done.
  - intros i. destruct (decide (i = id)) as [->|Hne].
    + rewrite lookup_insert_eq, Ha. cbn. by rewrite decide_True by set_solver.
    + rewrite lookup_insert_ne, R5 by done. destruct (mAssets s0 !! i); [|done]. cbn.
      destruct (decide (Some i ∈ done)); [rewrite decide_True by set_solver|rewrite decide_False by set_solver]; done.
  - intros i b [[<- <-]|[_ Hi]]%lookup_insert_Some; [done|by eapply R6].
  - intros k. rewrite map_lookup_imap, R7. destruct (pg.dbCandidates (mDB s0) !! k) as [c|]; [|done]. cbn.
    f_equal. by apply routedTo_step.
Qed.

Section applied.
Context (ev : UUID) (s : Media) (sn : SelectionSnapshot) (plan : SelectionPlan).
Context (Hok : media_ok s) (Hsn : snapshotOf ev s sn) (Hrt : routes sn plan).

Lemma owned_row id : owned plan id ↔ ∃ row, mAssets s !! id = Some row ∧ arEventID row = ev.
Proof.
  rewrite (rt_owned _ _ Hrt). split.
  - intros (a & (row & ? & ? & _)%(so_node _ _ _ Hsn)). by exists row.
  - intros (row & ? & ?). exists (scanAsset id row). apply (so_node _ _ _ Hsn). by exists row.
Qed.

Abbreviation owners := (soAssetID <$> slOwners plan).

Lemma applyOwners_inv u s' :
  forEach (slOwners plan) (applyOwner ev) s = inr (u, s') → routed plan ev owners s s'.
Proof.
  intros Hf. eapply (forEach_steps _ (λ done s', routed plan ev (soAssetID <$> done) s s')); [|split; try done|exact Hf].
  - intros l1 o l2 s1 v s2 El Hr Hb. assert (o ∈ slOwners plan) as Ho by (rewrite El; set_solver).
    destruct (rt_owner _ _ Hrt o Ho) as (id & Hid & Hk).
    assert (owned plan id) as Hown by (unfold owned; rewrite <-Hid; by apply list_elem_of_fmap_2).
    apply owned_row in Hown as (row & Hrow & Hev). rewrite fmap_app. cbn. rewrite Hid.
    by eapply applyOwner_step.
  - intros id. cbn. by destruct (mAssets s !! id).
  - apply (mo_check _ Hok).
  - intros k. destruct (pg.dbCandidates (mDB s) !! k) as [c|]; [|done]. cbn. unfold routedTo.
    destruct (pg.cdObservedAssetID c); [|done]. rewrite (bool_decide_eq_false_2 (_ ∈ _)) by apply not_elem_of_nil.
    by rewrite andb_false_r.
Qed.

Section reached.
Context (s1 : Media) (Hro : routed plan ev owners s s1).

Lemma routed_row id a : mAssets s !! id = Some a →
  ∃ a', mAssets s1 !! id = Some a' ∧ keepsIdentity a a' ∧
    arSupersededBy a' = if decide (owned plan id) then route plan id else arSupersededBy a.
Proof.
  intros Ha. rewrite (ro_assets _ _ _ _ _ Hro), Ha. cbn. eexists. split; [done|].
  unfold owned. repeat case_decide; try done; by split_and!.
Qed.

Lemma routed_back id a' : mAssets s1 !! id = Some a' →
  ∃ a, mAssets s !! id = Some a ∧ keepsIdentity a a' ∧
    arSupersededBy a' = if decide (owned plan id) then route plan id else arSupersededBy a.
Proof.
  rewrite (ro_assets _ _ _ _ _ Hro). destruct (mAssets s !! id) as [a|] eqn:Ha; [|done]. cbn.
  intros [= <-]. exists a. split; [done|]. unfold owned. repeat case_decide; try done; by split_and!.
Qed.

(** The assets that are roots stay roots, and keepers are. *)
Lemma routed_root id a : mAssets s !! id = Some a → arSupersededBy a = None →
  ∃ a', mAssets s1 !! id = Some a' ∧ arEventID a' = arEventID a ∧ arSupersededBy a' = None.
Proof.
  intros Ha Hr. destruct (routed_row id a Ha) as (a' & Ha' & (He & _) & Hs). exists a'. split_and!; [done..|].
  rewrite Hs. case_decide as Ho; [|done]. unfold route. rewrite decide_True; [done|].
  apply owned_row in Ho as (row & Hrow & Hev). rewrite Ha in Hrow. injection Hrow as <-.
  eapply (rt_root _ _ Hrt _ (scanAsset id a)); [|done]. apply (so_node _ _ _ Hsn). by exists a.
Qed.

Lemma routed_keeper id : owned plan id →
  ∃ a, mAssets s1 !! keeper plan id = Some a ∧ arEventID a = ev ∧ arSupersededBy a = None.
Proof.
  intros [Ho Hk]%(rt_keeper _ _ Hrt). pose proof Ho as (row & Hrow & Hev)%owned_row.
  destruct (routed_row _ _ Hrow) as (a' & Ha' & (He & _) & Hs). exists a'. split_and!; [done|congruence|].
  rewrite Hs, decide_True by done. unfold route. by rewrite decide_True.
Qed.

Lemma routed_successor x : successor s1 x =
  if decide (owned plan x) then Some (route plan x) else successor s x.
Proof.
  unfold sharerepo.successor. rewrite (ro_assets _ _ _ _ _ Hro). unfold owned.
  destruct (mAssets s !! x) as [a|] eqn:Ha; cbn.
  - by repeat case_decide.
  - rewrite decide_False; [done|]. intros (row & Hrow & _)%owned_row. congruence.
Qed.

Lemma routed_rooted : lineage.rooted (successor s1).
Proof.
  eapply (lineage.rooted_rewire (successor s) _ (owned plan) (keeper plan)); [..|exact (mo_rooted _ Hok)].
  - intros x. unfold owned. destruct (decide (Some x ∈ owners)); auto.
  - intros x Hx. rewrite routed_successor. by rewrite decide_False.
  - intros x y Hx Hy (row & Hrow & Hev)%owned_row. apply Hx. unfold sharerepo.successor in Hy.
    destruct (mAssets s !! x) as [a|] eqn:Ha; [|done]. injection Hy as Hy.
    destruct (mo_successor _ Hok _ _ _ Ha Hy) as (b & Hb & E). apply owned_row. exists a. split; [done|congruence].
  - intros x Hx. destruct (rt_keeper _ _ Hrt x Hx) as [Hk Hkk]. split_and!; [done..|].
    rewrite routed_successor, decide_True by done. done.
Qed.

Lemma routedTo_refs k c :
  pg.cdObservedAssetID (routedTo plan ev owners k c) = pg.cdObservedAssetID c ∧
  (pg.cdCreditedAssetID (routedTo plan ev owners k c) = pg.cdCreditedAssetID c ∨
   ∃ x, k.1 = ev ∧ owned plan x ∧ pg.cdCreditedAssetID (routedTo plan ev owners k c) = Some (keeper plan x)).
Proof.
  unfold routedTo. destruct (pg.cdObservedAssetID c) as [x|] eqn:Ex; [|by split; [|left]].
  destruct (_ && _) eqn:E; [|by split; [|left]]. split; [done|]. right.
  apply andb_true_iff in E as [[E1%bool_decide_eq_true _]%andb_true_iff E2%bool_decide_eq_true]. by exists x.
Qed.

Lemma routed_ok : media_but (λ id, Some id ∈ (scAssetID <$> slSelected plan)) s1.
Proof.
  split.
  - intros id a' (a & Ha & (E1 & E2 & _) & _)%routed_back. rewrite E1, E2, (ro_events _ _ _ _ _ Hro).
    by eapply mo_event.
  - apply (ro_checks _ _ _ _ _ Hro).
  - intros i j a' b' (a & Ha & (E1 & _ & E2) & _)%routed_back (b & Hb & (F1 & _ & F2) & _)%routed_back.
    rewrite E1, E2, F1, F2. by eapply mo_md5.
  - intros id a' k (a & Ha & (E1 & _) & Hs)%routed_back Hk. rewrite Hs in Hk. case_decide as Ho.
    + unfold route in Hk. case_decide; [done|]. injection Hk as <-.
      destruct (routed_keeper id Ho) as (b & Hb & Hev & _). exists b. split; [done|].
      apply owned_row in Ho as (row & Hrow & ?). rewrite Ha in Hrow. injection Hrow as <-. congruence.
    + destruct (mo_successor _ Hok _ _ _ Ha Hk) as (b & Hb & E).
      destruct (routed_row _ _ Hb) as (b' & Hb' & (F1 & _) & _). exists b'. split; [done|congruence].
  - apply routed_rooted.
  - intros id h. rewrite (ro_shares _ _ _ _ _ Hro). intros Hh.
    destruct (mo_share _ Hok _ _ Hh) as (a & Ha & E & H1 & H2).
    destruct (routed_row _ _ Ha) as (a' & Ha' & (E1 & _) & Hs). exists a'. split_and!; [done|congruence|..].
    + intros Hact. destruct (routed_root _ _ Ha (H1 Hact)) as (b & Hb & _ & Hbr). congruence.
    + intros Hsup. destruct (H2 Hsup) as [Hn|[]]. rewrite Hs. case_decide as Ho; [|by left].
      unfold route. case_decide; [|by left]. right. by apply (rt_selected _ _ Hrt).
  - rewrite (ro_shares _ _ _ _ _ Hro). apply (mo_one _ Hok).
  - intros k c' id. rewrite (ro_candidates _ _ _ _ _ Hro).
    destruct (pg.dbCandidates (mDB s) !! k) as [c|] eqn:Hc; [|done]. cbn. intros [= <-].
    rewrite (proj1 (routedTo_refs k c)). intros Hi. destruct (mo_observed _ Hok _ _ _ Hc Hi) as (a & Ha & E).
    destruct (routed_row _ _ Ha) as (a' & ? & (? & _) & _). exists a'. split; [done|congruence].
  - intros k c' id. rewrite (ro_candidates _ _ _ _ _ Hro).
    destruct (pg.dbCandidates (mDB s) !! k) as [c|] eqn:Hc; [|done]. cbn. intros [= <-].
    destruct (proj2 (routedTo_refs k c)) as [->|(x & Hk & Ho & ->)].
    + intros Hi. destruct (mo_credited _ Hok _ _ _ Hc Hi) as (a & Ha & E & Hr).
      destruct (routed_root _ _ Ha Hr) as (a' & ? & ? & ?). exists a'. split_and!; [done|congruence|done].
    + intros [= <-]. destruct (routed_keeper x Ho) as (a & ? & ? & ?). exists a. split_and!; [done|congruence|done].
Qed.
End reached.
End applied.

(** ** Restoring the kept clips *)

Lemma media_but_less (P Q : UUID → Prop) s :
  (∀ i h, mShares s !! i = Some h → shState h = ShareStateSuperseded → Q (shAssetID h) → P (shAssetID h)) →
  media_but Q s → media_but P s.
Proof.
  intros HPQ []. split; try done. intros i h Hh. destruct (mo_share0 i h Hh) as (a & Ha & E & H1 & H2).
  exists a. split_and!; [done..|]. intros Hs. destruct (H2 Hs); [by left|right; eauto].
Qed.

Lemma setShare_ok P i h h' a s :
  media_but P s → mShares s !! i = Some h → shAssetID h' = shAssetID h → shEventID h' = shEventID h →
  shState h' = ShareStateActive → mAssets s !! shAssetID h = Some a → arSupersededBy a = None →
  media_but P (setShare i h' s).
Proof.
  intros [K1 K2 K3 K4 K5 K6 K7 K8 K9] Hi Ea Ee Hs Ha Hr.
  assert (∀ j g', <[i := h']> (mShares s) !! j = Some g' → ∃ g, mShares s !! j = Some g ∧
    shAssetID g' = shAssetID g ∧ (g' = g ∨ g' = h' ∧ g = h)) as Hback.
  { intros j g' [[<- <-]|[_ Hj]]%lookup_insert_Some; [exists h|exists g']; by auto. }
  split; tables; try done.
  - intros j g' (g & Hg & E & [->|[-> ->]])%Hback; [by apply (K6 j)|].
    destruct (K6 _ _ Hg) as (b & Hb & Eb & _). exists b. rewrite Ea, Ee. split_and!; [done..| |].
    + intros _. congruence.
    + by rewrite Hs.
  - intros j k g1 g2 (x & Hx & E1 & _)%Hback (y & Hy & E2 & _)%Hback E. eapply K7; [done..|congruence].
Qed.

Definition popularityOf (plan : SelectionPlan) (id : UUID) : Z :=
  match head (filter (λ c, scAssetID c = Some id) (slSelected plan)) with
  | Some c => scPopularity c
  | None => 0
  end.

Definition popular (n : Z) (a : AssetRow) : AssetRow := a <| arPopularity := n |>.

(** The clips of [done] are public, under the links [links]; nothing else changed. *)
Record restored (plan : SelectionPlan) (done : list (option UUID)) (links : gmap UUID string)
    (s s' : Media) : Prop := {
  re_db : mDB s' = mDB s;
  re_commits : mCommits s' = mCommits s;
  re_validations : mValidations s' = mValidations s;
  re_assets id : mAssets s' !! id =
    (λ a, if decide (Some id ∈ done) then popular (popularityOf plan id) a else a) <$> mAssets s !! id;
  re_links : linksKept s s';
  re_same i h : Some (shAssetID h) ∉ done → mShares s' !! i = Some h ↔ mShares s !! i = Some h;
  re_public id : Some id ∈ done → ∃ i h, mShares s' !! i = Some h ∧ shAssetID h = id ∧
    shState h = ShareStateActive ∧ links !! id = Some i }.

Lemma setPopularity_inv ev id n a P u s s' :
  media_but P s → mAssets s !! id = Some a → arEventID a = ev →
  (if bool_decide (arEventID a = ev) && negb (arPopularity a =? n)
   then _ ← updateAssetRow id (λ a, a <| arPopularity := n |>); mret tt else mret tt : MTx unit) s = inr (u, s') →
  s' = setAsset id (popular n a) s ∧ media_but P s'.
Proof.
  intros Hok Ha He Hs. rewrite bool_decide_eq_true_2 in Hs by done. cbn [andb] in Hs.
  assert (s' = setAsset id (popular n a) s ∧ video_assets_check id (popular n a) = true) as [-> Hc].
  { destruct (arPopularity a =? n) eqn:En; cbn [negb] in Hs; mtx_inv.
    - apply Z.eqb_eq in En. subst n. assert (popular (arPopularity a) a = a) as -> by (by destruct a).
      split; [|by eapply mo_check]. unfold setAsset. destruct s as [db assets]. cbn in *. by rewrite insert_id.
    - destruct (updateAssetRow_inv _ _ _ _ _ ltac:(eassumption)) as [(_ & _ & ?)|(_ & b & Hb & Hc & _ & ->)]; [congruence|].
      rewrite Ha in Hb. injection Hb as <-. by split. }
  split; [done|]. by eapply (setAsset_same _ _ a).
Qed.

Lemma popular_step plan done links c id s0 s a :
  NoDup (scAssetID <$> slSelected plan) → c ∈ slSelected plan → scAssetID c = Some id →
  restored plan done links s0 s → mAssets s0 !! id = Some a →
  mAssets s !! id = Some (if decide (Some id ∈ done) then popular (popularityOf plan id) a else a) ∧
  ∀ i, mAssets (setAsset id (popular (scPopularity c)
      (if decide (Some id ∈ done) then popular (popularityOf plan id) a else a)) s) !! i =
    (λ a, if decide (Some i ∈ done ++ [Some id]) then popular (popularityOf plan i) a else a) <$> mAssets s0 !! i.
Proof.
  intros Hnd Hc Hid Hre Ha. split; [by rewrite (re_assets _ _ _ _ _ Hre), Ha|].
  assert (popularityOf plan id = scPopularity c) as Hp.
  { unfold popularityOf. rewrite <-Hid. by rewrite (head_filter_NoDup scAssetID _ _ Hnd Hc). }
  intros i. tables. destruct (decide (i = id)) as [->|Hne].
  - rewrite lookup_insert_eq, Ha. cbn. rewrite (decide_True (P := Some id ∈ done ++ [Some id])) by set_solver.
    rewrite Hp. by case_decide.
  - rewrite lookup_insert_ne by done. rewrite (re_assets _ _ _ _ _ Hre). destruct (mAssets s0 !! i); [|done]. cbn.
    destruct (decide (Some i ∈ done)); [rewrite decide_True by set_solver|rewrite decide_False by set_solver]; done.
Qed.

(** What happens to the share of one kept clip: it is active, restored, or new. *)
Inductive shared (ev id : UUID) (s : Media) : string → Media → Prop :=
  | shared_active i h : mShares s !! i = Some h → shAssetID h = id → shState h = ShareStateActive →
      shared ev id s i s
  | shared_restored i h h' : mShares s !! i = Some h → shAssetID h = id → shState h = ShareStateSuperseded →
      shAssetID h' = id → shEventID h' = shEventID h → shState h' = ShareStateActive →
      shared ev id s i (setShare i h' s)
  | shared_new i h u s' : shAssetID h = id → shEventID h = ev → shState h = ShareStateActive →
      insertShareRow i h s = inr (u, s') → shared ev id s i s'.

Lemma shared_ok ev id i a P s s' :
  media_but (λ x, x = id ∨ P x) s → mAssets s !! id = Some a → arSupersededBy a = None →
  shared ev id s i s' →
  media_but P s' ∧ linksKept s s' ∧ mAssets s' = mAssets s ∧ mDB s' = mDB s ∧ mCommits s' = mCommits s ∧
  mValidations s' = mValidations s ∧
  (∀ j h, shAssetID h ≠ id → mShares s' !! j = Some h ↔ mShares s !! j = Some h) ∧
  ∃ h, mShares s' !! i = Some h ∧ shAssetID h = id ∧ shState h = ShareStateActive.
Proof.
  intros Hok Ha Hr Hs.
  assert (media_but (λ x, x = id ∨ P x) s' ∧ ∃ h, mShares s' !! i = Some h ∧ shAssetID h = id ∧
    shState h = ShareStateActive) as [Hok' (h' & Hi' & Hid' & Hact')].
  { destruct Hs as [i h Hi Hid Hact|i h h' Hi Hid Hsup Hid' Hev' Hact'|i h u s' Hid Hev Hact Hins].
    - split; [done|by exists h].
    - split; [eapply setShare_ok; try done; by subst id|]. exists h'. tables. by rewrite lookup_insert_eq.
    - split; [eapply insertShareRow_ok; try done; by subst id|].
      apply insertShareRow_inv in Hins as (_ & _ & _ & _ & _ & ->). exists h. tables. by rewrite lookup_insert_eq. }
  split_and!; [| | | | | | |by exists h'].
  - eapply media_but_less; [|exact Hok']. intros j h Hj Hsup [Hx|]; [|done]. exfalso.
    assert (j = i) as -> by (eapply (mo_one _ Hok'); [done..|congruence]). rewrite Hi' in Hj. injection Hj as <-.
    by rewrite Hact' in Hsup.
  - destruct Hs as [| |? ? ? ? ? ? ? (_ & Hn & _ & _ & _ & ->)%insertShareRow_inv]; [done|..];
      intros j g Hj; tables; (destruct (decide (j = i)) as [->|]; [|exists g; by rewrite lookup_insert_ne]).
    + rewrite lookup_insert_eq. eexists. split; [done|]. rewrite Hj in *. simplify_eq.
      unfold linkKept. split_and!; [done..|]. intros Hrem. by rewrite Hrem in *.
    + congruence.
  - destruct Hs as [| |? ? ? ? ? ? ? (_ & _ & _ & _ & _ & ->)%insertShareRow_inv]; done.
  - destruct Hs as [| |? ? ? ? ? ? ? (_ & _ & _ & _ & _ & ->)%insertShareRow_inv]; done.
  - destruct Hs as [| |? ? ? ? ? ? ? (_ & _ & _ & _ & _ & ->)%insertShareRow_inv]; done.
  - destruct Hs as [| |? ? ? ? ? ? ? (_ & _ & _ & _ & _ & ->)%insertShareRow_inv]; done.
  - intros j g Hg. destruct Hs as [|? h|? ? ? ? ? ? ? (_ & Hn & _ & _ & _ & ->)%insertShareRow_inv]; [done|..]; tables;
      (destruct (decide (j = i)) as [->|]; [|by rewrite lookup_insert_ne]); rewrite lookup_insert_eq; split;
      intros; simplify_eq.
Qed.

Lemma applySelected_inv sn ev rank links c id n a P s0 s st s' :
  scAssetID c = Some id → media_but P s → mAssets s !! id = Some a → arEventID a = ev →
  nodeFor sn (Some id) = Some n → snShare n = shareOf s0 ev id →
  (∀ i h, mShares s0 !! i = Some h → shAssetID h = id → mShares s !! i = Some h) →
  applySelected sn ev (rank, links) c s = inr (st, s') →
  ∃ i s1, s1 = setAsset id (popular (scPopularity c) a) s ∧ media_but P s1 ∧ shared ev id s1 i s' ∧
    st.2 = <[id := i]> links.
Proof.
  intros Hid Hok Ha He Hn Hsh Hsame Hs. unfold applySelected in Hs. rewrite Hid in Hs. mtx_inv. rewrite Ha in *.
  match goal with Hx : (if bool_decide _ && _ then _ else _) _ = _ |- _ =>
    apply (setPopularity_inv _ _ _ _ P _ _ _ Hok Ha eq_refl) in Hx as [E1 Hok1] end.
  rewrite Hn in *. cbn in *. rewrite Hsh in *. unfold shareOf in *.
  destruct (shareFor (arEventID a) id s0) as [[i h]|] eqn:Ef; cbn in *.
  - apply shareFor_Some in Ef as (Hi & Hev & Has). specialize (Hsame _ _ Hi Has).
    destruct (String.eqb_spec (shState h) ShareStateActive) as [Hact|Hact]; mtx_inv.
    + eexists i, _. split_and!; [done..| |done]. by eapply shared_active.
    + match goal with Hx : (shState h =? ShareStateSuperseded)%string = true |- _ =>
        pose proof Hx as Hsup; apply String.eqb_eq in Hsup end.
      eexists i, _. split_and!; [done..| |done].
      destruct (updateShareRow_inv _ _ _ _ _ ltac:(eassumption)) as [(_ & _ & Hx)|(_ & g & Hg & _ & _ & ->)];
        [by rewrite mShares_setAsset, Hsame in Hx|].
      rewrite mShares_setAsset, Hsame in Hg. injection Hg as <-.
      eapply (shared_restored _ _ _ _ h); try done; unfold restore; rewrite Hsup; done.
  - destruct (NewShare _ _ _ _ _ _ _) as [sh|] eqn:En; [|done]. mtx_inv.
    eexists (sID sh), _. split_and!; [done..| |done].
    unfold NewShare in En. destruct (generateShareID _) as [sid|]; [|done]. destruct (_ <? 1) in En; [done|].
    injection En as <-. by eapply shared_new; [..|eassumption].
Qed.

Section selected.
Context (ev : UUID) (s0 : Media) (sn : SelectionSnapshot) (plan : SelectionPlan).
Context (Hok : media_ok s0) (Hsn : snapshotOf ev s0 sn) (Hrt : routes sn plan).
Context (s1 : Media) (Hro : routed plan ev (soAssetID <$> slOwners plan) s0 s1).

Abbreviation clips := (scAssetID <$> slSelected plan).

(** What the kept clips of a list still miss. *)
Definition pending (done : list (option UUID)) (x : UUID) : Prop := Some x ∈ clips ∧ Some x ∉ done.

Definition restoring (done : list SelectedClip) (st : Z * gmap UUID string) (s : Media) : Prop :=
  media_but (pending (scAssetID <$> done)) s ∧ restored plan (scAssetID <$> done) st.2 s1 s ∧
  dom st.2 = list_to_set (omap scAssetID done).

Lemma clip_row c : c ∈ slSelected plan → ∃ id n a, scAssetID c = Some id ∧ nodeFor sn (Some id) = Some n ∧
  snShare n = shareOf s0 ev id ∧ mAssets s1 !! id = Some a ∧ arEventID a = ev ∧ arSupersededBy a = None.
Proof.
  intros Hc. destruct (rt_clip _ _ Hrt c Hc) as [id Hid].
  assert (Some id ∈ clips) as Hin by (rewrite <-Hid; by apply list_elem_of_fmap_2).
  apply (rt_selected _ _ Hrt) in Hin as [Ho Hk].
  destruct (routed_keeper ev s0 sn plan Hsn Hrt s1 Hro id Ho) as (a & Ha & He & Hr). rewrite Hk in Ha.
  apply (rt_owned _ _ Hrt) in Ho as (x & Hx). destruct (so_share _ _ _ Hsn _ _ Hx) as (n & Hn & Hs).
  exists id, n, a. by split_and!.
Qed.

Lemma restoring_step l1 c l2 st s st' s' :
  slSelected plan = l1 ++ c :: l2 → restoring l1 st s → applySelected sn ev st c s = inr (st', s') →
  restoring (l1 ++ [c]) st' s'.
Proof.
  intros El (Hbut & Hre & Hdom) Hs. assert (c ∈ slSelected plan) as Hc by (rewrite El; set_solver).
  destruct (clip_row c Hc) as (id & n & a & Hid & Hn & Hsh & Ha & He & Hr). destruct st as [rank links]. cbn [snd] in *.
  assert (Some id ∉ (scAssetID <$> l1)) as Hnew.
  { pose proof (rt_distinct _ _ Hrt) as Hnd. rewrite El, fmap_app in Hnd. cbn in Hnd. rewrite Hid in Hnd.
    apply NoDup_app in Hnd as (_ & Hnd & _). intros Hin. apply (Hnd _ Hin). left. }
  destruct (popular_step plan _ _ c id s1 s a (rt_distinct _ _ Hrt) Hc Hid Hre Ha) as [Ha' Hpop].
  rewrite decide_False in Ha', Hpop by done.
  assert (∀ i h, mShares s0 !! i = Some h → shAssetID h = id → mShares s !! i = Some h) as Hsame.
  { intros i h Hi Has. apply (re_same _ _ _ _ _ Hre); [by rewrite Has|]. by rewrite (ro_shares _ _ _ _ _ Hro). }
  destruct (applySelected_inv _ _ _ _ _ _ _ _ _ _ _ _ _ Hid Hbut Ha' He Hn Hsh Hsame Hs)
    as (i & s2 & -> & Hok2 & Hshared & Elinks).
  set (s2 := setAsset id (popular (scPopularity c) a) s) in *.
  assert (media_but (λ x, x = id ∨ pending (scAssetID <$> (l1 ++ [c])) x) s2) as Hok2'.
  { eapply media_but_less; [|exact Hok2]. intros j h _ _ [H1 H2]. destruct (decide (shAssetID h = id)); [by left|right].
    split; [done|]. rewrite fmap_app. cbn. rewrite Hid, not_elem_of_app, list_elem_of_singleton.
    split; [done|congruence]. }
  destruct (shared_ok ev id i (popular (scPopularity c) a) (pending (scAssetID <$> (l1 ++ [c]))) s2 s' Hok2') as (K1 & K2 & K3 & K4 & K5 & K6 & K7 & K8);
    [by unfold s2; tables; rewrite lookup_insert_eq|done|done|].
  split_and!; [done| |].
  - rewrite fmap_app. cbn. rewrite Hid. split.
    + rewrite K4. apply (re_db _ _ _ _ _ Hre).
    + rewrite K5. apply (re_commits _ _ _ _ _ Hre).
    + rewrite K6. apply (re_validations _ _ _ _ _ Hre).
    + intros j. rewrite K3. apply Hpop.
    + etransitivity; [apply (re_links _ _ _ _ _ Hre)|exact K2].
    + intros j h [Hj Hj']%not_elem_of_app. rewrite not_elem_of_cons in Hj'. destruct Hj' as [Hne _].
      rewrite (K7 j h) by congruence. unfold s2. tables. by apply (re_same _ _ _ _ _ Hre).
    + intros x Hx. rewrite Elinks. destruct (decide (x = id)) as [->|Hne].
      * destruct K8 as (h & ? & ? & ?). exists i, h. by rewrite lookup_insert_eq.
      * apply elem_of_app in Hx as [Hx|Hx]; [|apply list_elem_of_singleton in Hx; congruence].
        destruct (re_public _ _ _ _ _ Hre x Hx) as (j & h & Hj & Has & Hact & El').
        exists j, h. rewrite lookup_insert_ne by done. split_and!; [|done..].
        apply (K7 j h); [congruence|]. done.
  - rewrite Elinks, dom_insert_L, Hdom, omap_app. cbn. rewrite Hid, list_to_set_app_L. clear. set_solver.
Qed.

Lemma applyClips_inv rank st s' :
  foldTx (applySelected sn ev) (rank, ∅) (slSelected plan) s1 = inr (st, s') →
  media_ok s' ∧ restored plan clips st.2 s1 s' ∧ dom st.2 = list_to_set (omap scAssetID (slSelected plan)).
Proof.
  intros Hf. assert (restoring (slSelected plan) st s') as (Hb & Hre & Hd).
  { eapply (foldTx_inv _ restoring); [|split_and!|exact Hf].
    - intros. by eapply restoring_step.
    - eapply media_but_less; [|by eapply routed_ok]. intros i h _ _ Hx. split; [done|apply not_elem_of_nil].
    - split; try done.
      + intros id. by destruct (mAssets s1 !! id).
      + intros id Hid. by apply elem_of_nil in Hid.
    - done. }
  split_and!; [|done|done]. eapply media_but_less; [|exact Hb]. by intros i h _ _ [H1 H2].
Qed.
End selected.

(** ** The whole application *)

(** What a plan makes of an asset: its pointer, and its popularity when it is kept. *)
Definition planned (plan : SelectionPlan) (id : UUID) (a : AssetRow) : AssetRow :=
  if decide (owned plan id) then
    let a' := routedRow plan id a in
    if decide (keeper plan id = id) then popular (popularityOf plan id) a' else a'
  else a.

Record chosen (ev : UUID) (plan : SelectionPlan) (links : gmap UUID string) (s s' : Media) : Prop := {
  ch_commits : mCommits s' = mCommits s;
  ch_validations : mValidations s' = mValidations s;
  ch_events : pg.dbEvents (mDB s') = pg.dbEvents (mDB s);
  ch_assets id : mAssets s' !! id = planned plan id <$> mAssets s !! id;
  ch_candidates k : pg.dbCandidates (mDB s') !! k =
    routedTo plan ev (soAssetID <$> slOwners plan) k <$> pg.dbCandidates (mDB s) !! k;
  ch_links : linksKept s s';
  ch_others i h : shEventID h ≠ ev → mShares s' !! i = Some h ↔ mShares s !! i = Some h;
  ch_public id : owned plan id → keeper plan id = id → ∃ i h, mShares s' !! i = Some h ∧ shAssetID h = id ∧
    shState h = ShareStateActive ∧ links !! id = Some i;
  ch_dom : dom links = list_to_set (omap scAssetID (slSelected plan)) }.

Lemma applySelectionTx_ok ev s sn plan links s' :
  media_ok s → snapshotOf ev s sn → routes sn plan → applySelectionTx sn ev plan s = inr (links, s') →
  media_ok s' ∧ chosen ev plan links s s'.
Proof.
  intros Hok Hsn Hrt Hs. unfold applySelectionTx in Hs. mtx_inv.
  match goal with Hx : forEach _ _ _ = inr (_, ?m), Hy : foldTx _ _ _ _ = inr (?st, ?m2) |- _ =>
    set (s2 := m2) in *; apply (applyOwners_inv ev s sn plan Hok Hsn Hrt) in Hx as Hro; set (s1 := m) in *;
    destruct (applyClips_inv ev s sn plan Hok Hsn Hrt s1 Hro _ _ _ Hy) as (Hok' & Hre & Hdom) end.
  split; [done|]. split.
  - rewrite (re_commits _ _ _ _ _ Hre). apply (ro_commits _ _ _ _ _ Hro).
  - rewrite (re_validations _ _ _ _ _ Hre). apply (ro_validations _ _ _ _ _ Hro).
  - rewrite (re_db _ _ _ _ _ Hre). apply (ro_events _ _ _ _ _ Hro).
  - intros id. rewrite (re_assets _ _ _ _ _ Hre), (ro_assets _ _ _ _ _ Hro). unfold planned.
    destruct (mAssets s !! id) as [a|]; [|done]. cbn. f_equal. pose proof (rt_selected _ _ Hrt id) as Hsel.
    unfold owned in *. repeat case_decide; tauto || done.
  - intros k. rewrite (re_db _ _ _ _ _ Hre). apply (ro_candidates _ _ _ _ _ Hro).
  - etransitivity; [|apply (re_links _ _ _ _ _ Hre)]. apply linksKept_same, (ro_shares _ _ _ _ _ Hro).
  - intros i h Hne. rewrite <-(ro_shares _ _ _ _ _ Hro).
    assert (∀ j g, mShares s2 !! j = Some g → shEventID g ≠ ev → Some (shAssetID g) ∉ (scAssetID <$> slSelected plan)) as Hout.
    { intros j g Hg Hgne Hin. apply (rt_selected _ _ Hrt) in Hin as [Ho _].
      apply (owned_row ev s sn plan Hsn Hrt) in Ho as (row & Hrow & Hev).
      destruct (mo_share _ Hok' _ _ Hg) as (a & Ha & E & _).
      rewrite (re_assets _ _ _ _ _ Hre), (ro_assets _ _ _ _ _ Hro), Hrow in Ha. cbn in Ha. injection Ha as <-.
      apply Hgne. rewrite <-E, <-Hev. by repeat case_decide. }
    split; intros Hi.
    + apply (re_same _ _ _ _ _ Hre); [by eapply Hout|done].
    + apply (re_same _ _ _ _ _ Hre); [|done]. intros Hin. apply (rt_selected _ _ Hrt) in Hin as [Ho _].
      apply (owned_row ev s sn plan Hsn Hrt) in Ho as (row & Hrow & Hev). rewrite (ro_shares _ _ _ _ _ Hro) in Hi.
      destruct (mo_share _ Hok _ _ Hi) as (a & Ha & E & _). congruence.
  - intros id Ho Hk. apply (re_public _ _ _ _ _ Hre). by apply (rt_selected _ _ Hrt).
  - done.
Qed.

End restoring.
End restoring.
