(* ===== verification/Links.v ===== *)
(** Public links survive: whatever sequence of placements, selections, removals and
    reclaims runs, a link that was given out still leads to a clip of its event. *)
From S2P Require Import Prelude GoStrings Fixture Event Vision Video Selection Jsonb Discovery Store Preserve Candidates Lineage Media Gallery Placement Reselect MediaLaws Placing Restoring.
From Stdlib Require Import SpecFloat.
#[local] Open Scope string_scope.
#[local] Open Scope list_scope.
#[local] Open Scope Z_scope.
Import discoverycontract jsonb video selection media gallery placement reselect medialaws placing restoring.

Module links.

(** ** The other tables *)

(** The events stay, and candidate rows refer to what they referred to or to less. *)
Definition rowRefs (k : UUID * string) (db : pg.DB) (c' : pg.Candidate) : Prop :=
  (pg.cdObservedAssetID c' = None ∧ pg.cdCreditedAssetID c' = None) ∨
  ∃ c, pg.dbCandidates db !! k = Some c ∧ pg.cdObservedAssetID c' = pg.cdObservedAssetID c ∧
    (pg.cdCreditedAssetID c' = pg.cdCreditedAssetID c ∨ pg.cdCreditedAssetID c' = None).

Record refsKept (db db' : pg.DB) : Prop := {
  rk_events ev e : pg.dbEvents db !! ev = Some e →
    ∃ e', pg.dbEvents db' !! ev = Some e' ∧ event.eFixtureID e' = event.eFixtureID e;
  rk_rows k c' : pg.dbCandidates db' !! k = Some c' → rowRefs k db c' }.

#[global] Instance refsKept_preorder : PreOrder refsKept.
Proof.
  split.
  - intros db. split; [by eauto|]. intros k c Hc. right. exists c. by auto.
  - intros a b c [E1 R1] [E2 R2]. split.
    + intros ev e (e1 & H1 & F1)%E1. destruct (E2 _ _ H1) as (e2 & H2 & F2). exists e2. split; [done|congruence].
    + intros k x [|(y & Hy & Ho & Hc)]%R2; [by left|].
      destruct (R1 _ _ Hy) as [[N1 N2]|(z & Hz & Ho' & Hc')]; [left|right].
      * split; [congruence|]. destruct Hc; congruence.
      * exists z. split_and!; [done|congruence|]. destruct Hc as [->|]; auto.
Qed.

(** What the transactions of the other tables may do beside the video tables: events
    that host an asset stay - the placeholders that are deleted host none -, and
    candidate rows refer to what they referred to or to less. *)
Record mediaKept (s : Media) (db : pg.DB) : Prop := {
  mk_events ev e : hosts s ev → pg.dbEvents (mDB s) !! ev = Some e →
    ∃ e', pg.dbEvents db !! ev = Some e' ∧ event.eFixtureID e' = event.eFixtureID e;
  mk_rows k c' : pg.dbCandidates db !! k = Some c' → rowRefs k (mDB s) c' }.

Lemma refsKept_media s db : refsKept (mDB s) db → mediaKept s db.
Proof. intros [HE HR]. split; [|done]. intros ev e _. apply HE. Qed.

Lemma mediaKept_ok s db : mediaKept s db → media_ok s → media_ok (atDB s db).
Proof.
  intros [HE HR] Hok. apply atDB_ok; [done| | |done].
  - intros k c' id [[N1 N2]|(c & Hc & Ho & _)]%HR Hi; [congruence|].
    eapply (mo_observed _ Hok); [done|congruence].
  - intros k c' id [[N1 N2]|(c & Hc & _ & Hx)]%HR Hi; [congruence|].
    eapply (mo_credited _ Hok); [done|]. destruct Hx; congruence.
Qed.

Lemma setCandidate_refs k c db : rowRefs k db c → refsKept db (candidaterepo.setCandidate k c db).
Proof.
  intros Hr. split; [by eauto|]. intros k' c'. cbn. intros [[<- <-]|[_ Hk]]%lookup_insert_Some; [done|].
  right. exists c'. by auto.
Qed.

Lemma rejectPending_refs ev url t db : refsKept db (pg.rejectPending ev url t db).
Proof.
  split; [by eauto|]. intros k c'. cbn. rewrite map_lookup_imap.
  destruct (pg.dbCandidates db !! k) as [c|] eqn:Hc; [|done]. cbn. intros [= <-]. right. exists c.
  split; [done|]. destruct (pg.pendingOf _ _ _ _); split; auto.
Qed.

Section candidates.
Context (now clock : Time).

Lemma insertObservation_refs db0 ev :
  preserve.keeps (refsKept db0) (candidaterepo.insertCandidateObservation now ev).
Proof.
  intros db b db' Hk [(_ & -> & _)|(_ & _ & _ & ->)]%candidaterepo.insertObservation_inv; [done|].
  etransitivity; [exact Hk|]. apply setCandidate_refs. by left.
Qed.

Lemma terminalize_refs db0 ev url t :
  preserve.keeps (refsKept db0) (pg.terminalizePendingCandidatesForRemovedEvent clock ev url t).
Proof.
  intros db n db' Hk [t' ->]%preserve.terminalize_inv. etransitivity; [exact Hk|]. apply rejectPending_refs.
Qed.

Lemma updateOutcome_refs db0 ev url outcome reason detail :
  preserve.keeps (refsKept db0) (candidaterepo.updateCandidateTerminalOutcome now ev url outcome reason detail).
Proof.
  intros db b db' Hk [(_ & -> & _)|(_ & c & Hc & _ & ->)]%candidaterepo.updateOutcome_inv; [done|].
  etransitivity; [exact Hk|]. apply setCandidate_refs. right. exists c. by auto.
Qed.
#[local] Hint Resolve insertObservation_refs terminalize_refs updateOutcome_refs candidaterepo.lock_keeps : keeps.

(** The candidate store of the discovery workflow keeps what it does not own. *)
Lemma candidate_exec_refs db0 o : preserve.keeps (refsKept db0) (candidaterepo.exec now clock o).
Proof.
  destruct o; unfold candidaterepo.exec, preserve.discard, candidaterepo.Observe, candidaterepo.Complete,
    candidaterepo.CompleteLegacy, preserve.discard; preserve.solve_keeps.
Qed.
End candidates.

(** ** The operations *)

Section operations.
Context `{Env, Digests}.

Lemma rejectRemoved_refs p s0 u s s' :
  rejectRemovedPlacementCandidates p s = inr (u, s') →
  s' = atDB s (mDB s') ∧ (refsKept (mDB s0) (mDB s) → refsKept (mDB s0) (mDB s')).
Proof.
  intros Hf. eapply (forEach_inv _ (λ s', s' = atDB s (mDB s') ∧ (refsKept (mDB s0) (mDB s) → refsKept (mDB s0) (mDB s'))));
    [| |exact Hf].
  2: { split. { destruct s; reflexivity. } done. }
  intros c s1 v s2 _ [E Hk] Hb. unfold rejectCandidate in Hb. mtx_inv.
  match goal with Hx : lift (candidaterepo.insertCandidateObservation _ _) _ = _ |- _ =>
    apply mlift_inv in Hx as (db1 & Hi & ->) end. cbn in *.
  destruct (pg.dbCandidates db1 !! _) as [row|]; mtx_inv.
  match goal with Hx : (if ?b then _ else _) _ = _ |- _ => destruct b end; mtx_inv.
  - split; [by rewrite E|]. intros Hr. cbn. eapply insertObservation_refs; [by apply Hk|exact Hi].
  - match goal with Hx : lift (pg.terminalizePendingCandidatesForRemovedEvent _ _ _ _) _ = _ |- _ =>
      apply mlift_inv in Hx as (db2 & Ht & ->) end. cbn in *.
    split; [by rewrite E|]. intros Hr. eapply terminalize_refs; [|exact Ht].
    eapply insertObservation_refs; [by apply Hk|exact Hi].
Qed.

Lemma lockEvent_inv ev fx b s s' :
  lockEvent ev fx s = inr (b, s') →
  s' = s ∧ ∃ e, pg.dbEvents (mDB s) !! ev = Some e ∧ event.eFixtureID e = fx ∧ event.eRemoved e = b.
Proof.
  unfold lockEvent. intros Hl. mtx_inv. destruct (pg.dbEvents (mDB s) !! ev) as [e|]; [|done].
  destruct (_ =? _) eqn:E; mtx_inv. split; [done|]. exists e. split_and!; [done|by apply Z.eqb_eq|done].
Qed.

(** Another commit on record changes none of the tables the invariant is about. *)
Lemma setCommit_ok id c s : media_ok s → media_ok (s <| mCommits ::= <[id := c]> |>).
Proof. intros []. by split. Qed.

Lemma insertCommit_inv id c u s s' :
  insertCommit id c s = inr (u, s') → mCommits s !! id = None ∧ s' = s <| mCommits ::= <[id := c]> |>.
Proof. unfold insertCommit. intros Hi. mtx_inv. split; [by apply is_nil_true|done]. Qed.

(** A selection that is not a replay: the plan for the state it saw. *)
Record selected (r : SelectionRequest) (out : SelectionResult) (s s' : Media) : Prop := {
  sl_event : ∃ ev id sn s1, sqEventID r = Some ev ∧ sqID r = Some id ∧ loadSelectionTx ev s = inr (sn, s) ∧
    snapshotOf ev s sn ∧ spRemoved sn = false ∧ Fingerprint sn = Some (sqSnapshotHash r) ∧
    PlanSelection marshalledLength sn (sqPolicy r) (sqPreparedAssetIDs r) = inl (srPlan out) ∧
    routes sn (srPlan out) ∧ chosen ev (srPlan out) (srShareIDs out) s s1 ∧ mCommits s !! id = None ∧
    ∃ c, vcResult c = out ∧ s' = s1 <| mCommits ::= <[id := c]> |>;
  sl_fresh : srReplayed out = false;
  sl_ok : media_ok s' }.

Lemma CommitSelection_inv r out s s' :
  media_ok s → CommitSelection r s = inr (out, s') →
  s' = s ∧ (∃ id prior, sqID r = Some id ∧ mCommits s !! id = Some prior ∧
    out = (vcResult prior) <| srReplayed := true |>) ∨
  selected r out s s'.
Proof.
  intros Hok Hc. unfold CommitSelection in Hc.
  destruct (selectionRequestDigest r) as [digest|]; [|done].
  destruct (sqID r) as [id|] eqn:Eid; [|done]. destruct (sqEventID r) as [ev|] eqn:Eev; [|done]. mtx_inv.
  match goal with Hx : lockEvent _ _ _ = _ |- _ => apply lockEvent_inv in Hx as (-> & e & He & Hfx & Hrm) end.
  destruct (mCommits s !! id) as [prior|] eqn:Ep; mtx_inv.
  { left. split; [done|]. by exists id, prior. }
  right. match goal with Hx : loadSelectionTx _ _ = _ |- _ =>
    pose proof Hx as Hload; apply loadSelectionTx_inv in Hx as (-> & Hsn) end.
  match goal with Hx : bool_decide (Fingerprint ?sn = _) = true |- _ =>
    apply bool_decide_eq_true in Hx; rename sn into snapshot end.
  destruct (PlanSelection _ _ _ _) as [plan|] eqn:Epl; [|done]. mtx_inv.
  match goal with Hx : applySelectionTx _ _ _ _ = inr (?l, ?m) |- _ =>
    destruct (applySelectionTx_ok _ _ _ _ _ _ Hok Hsn (PlanSelection_routes _ _ _ _ _ Epl) Hx) as [Hok1 Hch];
    set (s1 := m) in * end.
  match goal with Hx : insertCommit _ _ _ = _ |- _ => apply insertCommit_inv in Hx as (_ & ->) end.
  split; [|done|by apply setCommit_ok].
  destruct (so_row _ _ _ Hsn) as (e' & He' & _ & Er). rewrite He in He'. injection He' as <-.
  exists ev, id, snapshot, s1. split_and!; try done.
  - rewrite Er. by destruct (event.eRemoved e).
  - by eapply PlanSelection_routes.
  - eexists. split; [|reflexivity]. done.
Qed.

Lemma CommitSelection_ok r out s s' :
  media_ok s → CommitSelection r s = inr (out, s') → media_ok s' ∧ linksKept s s'.
Proof.
  intros Hok [(-> & _)|[(ev & id & sn & s1 & _ & _ & _ & _ & _ & _ & _ & _ & Hch & _ & c & _ & ->) _ Hok']]%CommitSelection_inv;
    [done|..|done]. split; [done|]. exact (ch_links _ _ _ _ _ Hch).
Qed.

Lemma repair_ok ev r out s s' :
  media_ok s → repair ev r s = inr (out, s') → media_ok s' ∧ linksKept s s'.
Proof.
  intros Hok Hr. unfold repair in Hr. mtx_inv.
  match goal with Hx : loadSelectionTx _ _ = _ |- _ => apply loadSelectionTx_inv in Hx as (-> & Hsn) end.
  destruct (PlanSelection _ _ _ _) as [plan|err] eqn:Epl; mtx_inv.
  - match goal with Hx : applySelectionTx _ _ _ _ = inr (?l, ?m) |- _ =>
      destruct (applySelectionTx_ok _ _ _ _ _ _ Hok Hsn (PlanSelection_routes _ _ _ _ _ Epl) Hx) as [Hok1 Hch] end.
    split; [done|]. exact (ch_links _ _ _ _ _ Hch).
  - match goal with Hx : (if ?b then _ else _) _ = _ |- _ => destruct b end; mtx_inv. done.
Qed.

Lemma CommitClipPlacement_ok p out s s' :
  media_ok s → CommitClipPlacement p s = inr (out, s') → media_ok s' ∧ linksKept s s'.
Proof.
  intros Hok Hc. unfold CommitClipPlacement in Hc. set (p' := p <| plCommittedAt ::= placementNow |>) in *.
  destruct (validateClipPlacement p'); [done|]. mtx_inv.
  match goal with Hx : lockEvent _ _ _ = inr (?b, _) |- _ => apply lockEvent_inv in Hx as (-> & _); destruct b end; mtx_inv.
  { match goal with Hx : rejectRemovedPlacementCandidates _ _ = _ |- _ =>
      destruct (rejectRemoved_refs _ s _ _ _ Hx) as [-> Hk] end.
    split; [|by apply linksKept_same]. apply mediaKept_ok; [|done]. by apply refsKept_media, Hk. }
  destruct (plSelection p') as [r|]; [|].
  - unfold commitPlacementSelectionTx in *. destruct (placementSelectionDigest _ _) as [digest|]; [|done].
    destruct (sqID r) as [id|]; [|done]. mtx_inv. destruct (mCommits s !! id) as [prior|]; mtx_inv; [done|].
    match goal with Hx : loadSelectionTx _ _ = _ |- _ => apply loadSelectionTx_inv in Hx as (-> & _) end.
    match goal with Hx : applyClipPlacementTx _ _ = _, Hy : repair _ _ _ = _, Hz : insertCommit _ _ _ = _ |- _ =>
      destruct (applyClipPlacementTx_ok _ _ _ _ Hok Hx) as [Hok1 F1];
      destruct (repair_ok _ _ _ _ _ Hok1 Hy) as [Hok2 F2]; apply insertCommit_inv in Hz as (_ & ->) end.
    split; [by apply setCommit_ok|]. exact (transitivity (fr_links _ _ F1) F2).
  - match goal with Hx : applyClipPlacementTx _ _ = _ |- _ =>
      destruct (applyClipPlacementTx_ok _ _ _ _ Hok Hx) as [Hok1 F1] end.
    split; [done|apply (fr_links _ _ F1)].
Qed.
End operations.

(** ** Steps *)

(** What may happen to the video tables: the transactions of new histories, and any
    transaction of the other tables that deletes no event with assets and lets candidate
    rows refer to nothing else (those of the candidate store do, [candidate_exec_refs]). *)
Inductive mediaStep (s s' : Media) : Prop :=
  | step_place `{Env, Digests} p out : CommitClipPlacement p s = inr (out, s') → mediaStep s s'
  | step_select `{Env, Digests} r out : CommitSelection r s = inr (out, s') → mediaStep s s'
  | step_revoke now ev reason : sharerepo.RemoveByEvent now ev reason s = inr (tt, s') → mediaStep s s'
  | step_reclaim now id : assetrepo.MarkObjectReclaimed now id s = inr (tt, s') → mediaStep s s'
  | step_other db : mediaKept s db → s' = atDB s db → mediaStep s s'.

Lemma revoke_kept now reason h : linkKept h (sharerepo.revoke now reason h).
Proof. unfold sharerepo.revoke. destruct (_ =? _)%string; [done|]. by split_and!. Qed.

Lemma revokeAll_ok now ev reason s :
  media_ok s → media_ok (sharerepo.revokeAll now ev reason s) ∧
  linksKept s (sharerepo.revokeAll now ev reason s).
Proof.
  intros Hok. set (f := λ h, if bool_decide (shEventID h = ev) then sharerepo.revoke now reason h else h).
  assert (∀ h, linkKept h (f h) ∧ (shState (f h) = shState h ∨ shState (f h) = ShareStateRemoved)) as Hf.
  { intros h. unfold f, sharerepo.revoke. case_bool_decide; [|by split; [|left]].
    destruct (_ =? _)%string; [by split; [|left]|]. split; [by split_and!|by right]. }
  assert (∀ i h', mShares (sharerepo.revokeAll now ev reason s) !! i = Some h' →
    ∃ h, mShares s !! i = Some h ∧ h' = f h) as Hback.
  { intros i h'. change (mShares (sharerepo.revokeAll now ev reason s)) with (f <$> mShares s).
    rewrite lookup_fmap. destruct (mShares s !! i) as [h|]; [|done]. intros [= <-]. by exists h. }
  split.
  - destruct Hok as [K1 K2 K3 K4 K5 K6 K7 K8 K9]. split; try done.
    + intros i h' (h & Hh & ->)%Hback. destruct (K6 _ _ Hh) as (a & Ha & E & H1 & H2), (Hf h) as ((-> & -> & _) & Hs).
      exists a. split_and!; [done..| |]; (destruct Hs as [-> | ->]; [done|done]).
    + intros i j h1' h2' (h1 & H1 & ->)%Hback (h2 & H2 & ->)%Hback.
      destruct (Hf h1) as ((-> & _) & _), (Hf h2) as ((-> & _) & _). by eapply K7.
  - intros i h Hi. exists (f h). split; [|apply Hf].
    change (mShares (sharerepo.revokeAll now ev reason s)) with (f <$> mShares s). by rewrite lookup_fmap, Hi.
Qed.

Lemma mediaStep_ok s s' : media_ok s → mediaStep s s' → media_ok s' ∧ linksKept s s'.
Proof.
  intros Hok [? ? p out Hp|? ? r out Hr|now ev reason Hr|now id Hr|db Hdb ->].
  - by eapply CommitClipPlacement_ok.
  - by eapply CommitSelection_ok.
  - unfold sharerepo.RemoveByEvent in Hr. mtx_inv. by apply revokeAll_ok.
  - unfold assetrepo.MarkObjectReclaimed in Hr. mtx_inv.
    destruct (updateAssetRow_inv _ _ _ _ _ ltac:(eassumption)) as [(? & _)|(_ & a & Ha & Hc & _ & ->)]; [congruence|].
    split; [by eapply setAsset_same|by apply linksKept_same].
  - split; [by apply mediaKept_ok|by apply linksKept_same].
Qed.

Lemma mediaSteps_ok s s' : rtc mediaStep s s' → media_ok s → media_ok s' ∧ linksKept s s'.
Proof.
  induction 1 as [s|s s1 s' H1 _ IH]; intros Hok; [done|].
  destruct (mediaStep_ok _ _ Hok H1) as [Hok1 L1]. destruct (IH Hok1) as [? L2]. split; [done|by etransitivity].
Qed.

(** ** Resolution *)

(** The clip a link leads to. *)
Definition leadsTo (s : Media) (h : ShareRow) (n : nat) (a : AssetRow) : Prop :=
  ∃ r, lineage.rootOf (successor s) (shAssetID h) n r ∧ mAssets s !! r = Some a.

Definition resolved (h : ShareRow) (a : AssetRow) : sharerepo.ResolvedShare :=
  sharerepo.mkResolvedShare (if not_nil (arObjectReclaimedAt a) then ShareStateRemoved else shState h)
    (arS3Bucket a) (arS3Key a).

Lemma root_row s x n r : lineage.rootOf (successor s) x n r → ∃ a, mAssets s !! r = Some a ∧ arSupersededBy a = None.
Proof.
  intros Hr%lineage.rootOf_root. unfold sharerepo.successor in Hr.
  destruct (mAssets s !! r) as [a|]; [|done]. injection Hr as Hr. by exists a.
Qed.

(** The assets along a lineage belong to one event. *)
Lemma root_event s x n r a b :
  media_ok s → lineage.rootOf (successor s) x n r → mAssets s !! x = Some a → mAssets s !! r = Some b →
  arEventID b = arEventID a.
Proof.
  intros Hok Hr. revert a. induction Hr as [x _|x y n r Hx Hy IH]; intros a Ha Hb; [congruence|].
  unfold sharerepo.successor in Hx. rewrite Ha in Hx. injection Hx as Hx.
  destruct (mo_successor _ Hok _ _ _ Ha Hx) as (c & Hc & E). rewrite (IH _ Hc Hb). done.
Qed.

Lemma share_leads s i h : media_ok s → mShares s !! i = Some h → ∃ n a, leadsTo s h n a ∧
  arEventID a = shEventID h ∧ arSupersededBy a = None.
Proof.
  intros Hok Hi. destruct (mo_share _ Hok _ _ Hi) as (a & Ha & E & _).
  destruct (mo_rooted _ Hok (shAssetID h)) as (n & r & Hr).
  { unfold sharerepo.successor. rewrite Ha. by eexists. }
  destruct (root_row _ _ _ _ Hr) as (b & Hb & Hn). exists n, b. split_and!; [by exists r| |done].
  rewrite <-E. by eapply root_event.
Qed.

Lemma ResolveShare_leads s i h n a : mShares s !! i = Some h → leadsTo s h n a →
  sharerepo.ResolveShare i s =
    if (n <=? sharerepo.maxDepth)%nat then inr (resolved h a, s) else inl ErrNotFound.
Proof.
  intros Hi (r & Hr & Ha). unfold sharerepo.ResolveShare.
  change ((match mShares s !! i with None => throw ErrNotFound | Some h => match
    lineage.climb (successor s) sharerepo.maxDepth (shAssetID h) ≫= λ r, mAssets s !! r with
    None => throw ErrNotFound | Some a => mret (resolved h a) end end) s =
    if (n <=? sharerepo.maxDepth)%nat then inr (resolved h a, s) else inl ErrNotFound).
  rewrite Hi. destruct (Nat.leb_spec n sharerepo.maxDepth) as [Hle|Hlt].
  - rewrite (proj2 (lineage.climb_spec (successor s) sharerepo.maxDepth (shAssetID h) r)) by (by exists n).
    cbn. by rewrite Ha.
  - destruct (lineage.climb (successor s) sharerepo.maxDepth (shAssetID h)) as [q|] eqn:Eq; [|done].
    apply lineage.climb_spec in Eq as (m & Hm & Hq). destruct (lineage.rootOf_fun _ _ _ _ Hr _ _ Hq). lia.
Qed.

(** C4: A public link never breaks: after any sequence of placements, selections,
    removals of events, byte reclaims and transactions of the other tables - of those that
    delete no event that has assets and let candidate rows refer to the assets they
    referred to, or to none - a link that was there is there, for the same asset and event, and a removed one stays removed.
    Its lineage still ends at a live asset of the same event, and resolving it returns
    that asset's object - removed when the bytes are reclaimed - as long as the lineage
    has at most 64 steps; a longer one is answered as not found. *)
Theorem links_survive s s' i h :
  media_ok s → rtc mediaStep s s' → mShares s !! i = Some h →
  media_ok s' ∧ ∃ h' n a, mShares s' !! i = Some h' ∧ linkKept h h' ∧
    leadsTo s' h' n a ∧ arEventID a = shEventID h ∧ arSupersededBy a = None ∧
    sharerepo.ResolveShare i s' =
      if (n <=? sharerepo.maxDepth)%nat then inr (resolved h' a, s') else inl ErrNotFound.
Proof.
  intros Hok Hs Hi. destruct (mediaSteps_ok _ _ Hs Hok) as [Hok' Hl]. split; [done|].
  destruct (Hl _ _ Hi) as (h' & Hi' & Hk). destruct (share_leads _ _ _ Hok' Hi') as (n & a & Hn & He & Hr).
  exists h', n, a. pose proof Hk as (_ & Hke & _). split_and!; [done|done|done|congruence|done|].
  by apply ResolveShare_leads.
Qed.

(** ** Placements on removed events *)

Section removed.
Context `{Env, Digests}.

(** No candidate of the list is left waiting. *)
Definition settledFor (p : ClipPlacement) (c : PlacementCandidate) (s : Media) : Prop :=
  ∃ row, pg.dbCandidates (mDB s) !! (plEventID p, ceTweetURL (pcEvidence c)) = Some row ∧
    (pg.cdOutcomeClass row ≠ "pending" ∨ pg.cdCreditedAssetID row ≠ None).

Lemma settledFor_insert p c now' e b s db :
  settledFor p c s → candidaterepo.insertCandidateObservation now' e (mDB s) = inr (b, db) →
  settledFor p c (atDB s db).
Proof.
  intros (row & Hrow & Hs) [(_ & -> & _)|(_ & Hn & _ & ->)]%candidaterepo.insertObservation_inv; exists row; [done|].
  split; [|done]. cbn. rewrite lookup_insert_ne; [done|congruence].
Qed.

Lemma settledFor_close p c ev url t s : settledFor p c s → settledFor p c (atDB s (pg.rejectPending ev url t (mDB s))).
Proof.
  intros (row & Hrow & Hs). unfold settledFor. cbn. rewrite map_lookup_imap, Hrow. cbn.
  destruct (pg.pendingOf _ _ _ _); eexists; (split; [done|]); [by left|done].
Qed.

Lemma rejectCandidate_inv p c u s s' :
  rejectCandidate p c s = inr (u, s') → s' = atDB s (mDB s') ∧ settledFor p c s' ∧
  ∀ c', settledFor p c' s → settledFor p c' s'.
Proof.
  unfold rejectCandidate. intros Hr. mtx_inv.
  match goal with Hx : lift (candidaterepo.insertCandidateObservation _ _) _ = _ |- _ =>
    apply mlift_inv in Hx as (db1 & Hi & ->) end. cbn in *.
  assert (∀ c', settledFor p c' s → settledFor p c' (atDB s db1)) as Hk1 by (intros; by eapply settledFor_insert).
  destruct (pg.dbCandidates db1 !! _) as [row|] eqn:Erow; mtx_inv.
  match goal with Hx : (if ?b then _ else _) _ = _ |- _ => destruct b eqn:Eb end; mtx_inv.
  - split_and!; [done| |done]. exists row. split; [done|].
    apply orb_true_iff in Eb as [Eb|Eb]; [right; by destruct (pg.cdCreditedAssetID row)|left].
    intros E. by rewrite E in Eb.
  - match goal with Hx : lift (pg.terminalizePendingCandidatesForRemovedEvent _ _ _ _) _ = _ |- _ =>
      apply mlift_inv in Hx as (db2 & Ht & ->) end. cbn in *. apply preserve.terminalize_inv in Ht as [t ->].
    split_and!; [done| |].
    + unfold settledFor. cbn. rewrite map_lookup_imap, Erow. cbn. eexists. split; [done|].
      apply orb_false_iff in Eb as [_ Eb%negb_false_iff]. unfold pg.pendingOf. cbn.
      rewrite bool_decide_eq_true_2, Eb, String.eqb_refl, orb_true_r by done. by left.
    + intros c' Hc'. by apply (settledFor_close p c' _ _ _ (atDB s db1)), Hk1.
Qed.

(** C25: Removal wins over placement: a placement that commits after its event was
    removed reports the removal, creates no asset, share, validation or receipt, and
    leaves none of its candidates waiting. *)
Theorem removed_places_nothing p out s s' e :
  pg.dbEvents (mDB s) !! plEventID p = Some e → event.eRemoved e = true →
  CommitClipPlacement p s = inr (out, s') →
  out = noPlacement <| crEventRemoved := true |> ∧ s' = atDB s (mDB s') ∧
  ∀ c, c ∈ plCandidates p → settledFor p c s'.
Proof.
  intros He Hr Hc. unfold CommitClipPlacement in Hc.
  set (p' := p <| plCommittedAt ::= placementNow |>) in *.
  destruct (validateClipPlacement p'); [done|]. mtx_inv.
  match goal with Hx : lockEvent _ _ _ = _ |- _ => apply lockEvent_inv in Hx as (-> & e' & He' & _ & Hb) end.
  cbn in He'. rewrite He in He'. injection He' as <-. rewrite Hr in Hb. subst. mtx_inv.
  match goal with Hx : rejectRemovedPlacementCandidates _ _ = inr (_, ?m) |- _ =>
    assert (m = atDB s (mDB m) ∧ ∀ c, c ∈ plCandidates p' → settledFor p' c m) as [E Hall]; [|done];
    eapply (forEach_steps _ (λ l m, m = atDB s (mDB m) ∧ ∀ c, c ∈ l → settledFor p' c m)); [| |exact Hx] end.
  - intros l1 c l2 s1 u s2 _ [E Hall] (E2 & Hc & Hk)%rejectCandidate_inv. split; [by rewrite E2, E|].
    intros c' [Hin|Hin%list_elem_of_singleton]%elem_of_app; [|subst c']; [by apply Hk, Hall|done].
  - split. { destruct s; reflexivity. } intros c Hin. by apply elem_of_nil in Hin.
Qed.

End removed.

(** ** Selections *)

Section refinement.
Context `{Env, Digests}.

(** What the tables show of a plan: the kept clips are public with the plan's scores and
    under the links returned, they are the only public clips of the event, every asset
    points to its keeper and every counted source is credited to its keeper; other
    events are left alone. *)
Record shows (ev : UUID) (plan : SelectionPlan) (links : gmap UUID string) (s s' : Media) : Prop := {
  sh_kept c : c ∈ slSelected plan → ∃ id a i h, scAssetID c = Some id ∧ mAssets s' !! id = Some a ∧
    arEventID a = ev ∧ arSupersededBy a = None ∧ arPopularity a = scPopularity c ∧
    arObjectReclaimedAt a = None ∧ mShares s' !! i = Some h ∧ shAssetID h = id ∧
    shState h = ShareStateActive ∧ links !! id = Some i;
  sh_only i h : mShares s' !! i = Some h → shEventID h = ev → shState h = ShareStateActive →
    Some (shAssetID h) ∈ (scAssetID <$> slSelected plan);
  sh_routed o : o ∈ slOwners plan → ∃ id k a, soAssetID o = Some id ∧ soKeeperID o = Some k ∧
    mAssets s' !! id = Some a ∧ arSupersededBy a = (if decide (k = id) then None else Some k);
  sh_all id a : mAssets s !! id = Some a → arEventID a = ev → Some id ∈ (soAssetID <$> slOwners plan);
  sh_credits k c : pg.dbCandidates (mDB s') !! k = Some c → k.1 = ev → Credited (pg.cdOutcomeClass c) = true →
    ∃ o, o ∈ slOwners plan ∧ soAssetID o = pg.cdObservedAssetID c ∧ soKeeperID o = pg.cdCreditedAssetID c;
  sh_other_assets id a : arEventID a ≠ ev → mAssets s' !! id = Some a ↔ mAssets s !! id = Some a;
  sh_other_shares i h : shEventID h ≠ ev → mShares s' !! i = Some h ↔ mShares s !! i = Some h;
  sh_other_candidates k : k.1 ≠ ev → pg.dbCandidates (mDB s') !! k = pg.dbCandidates (mDB s) !! k }.

Lemma planned_fields plan id a :
  arEventID (planned plan id a) = arEventID a ∧
  arObjectReclaimedAt (planned plan id a) = arObjectReclaimedAt a ∧
  (owned plan id → arSupersededBy (planned plan id a) = route plan id) ∧
  (owned plan id → keeper plan id = id → arPopularity (planned plan id a) = popularityOf plan id).
Proof. unfold planned. repeat case_decide; split_and!; done. Qed.

Section shown.
Context (ev : UUID) (sn : SelectionSnapshot) (plan : SelectionPlan) (links : gmap UUID string) (s s' : Media).
Context (Hok' : media_ok s') (Hsn : snapshotOf ev s sn) (Hrt : routes sn plan).
Context (Hch : chosen ev plan links s s').

Lemma owned_after id : owned plan id → ∃ a, mAssets s !! id = Some a ∧ arEventID a = ev ∧
  mAssets s' !! id = Some (planned plan id a).
Proof.
  intros (a & Ha & He)%(owned_row ev s sn plan Hsn Hrt). exists a. split_and!; [done..|].
  by rewrite (ch_assets _ _ _ _ _ Hch), Ha.
Qed.

Lemma shown_kept c : c ∈ slSelected plan → ∃ id a i h, scAssetID c = Some id ∧ mAssets s' !! id = Some a ∧
  arEventID a = ev ∧ arSupersededBy a = None ∧ arPopularity a = scPopularity c ∧
  arObjectReclaimedAt a = None ∧ mShares s' !! i = Some h ∧ shAssetID h = id ∧
  shState h = ShareStateActive ∧ links !! id = Some i.
Proof.
  intros Hc. destruct (rt_clip _ _ Hrt c Hc) as [id Hid].
  assert (Some id ∈ (scAssetID <$> slSelected plan)) as Hin by (rewrite <-Hid; by apply list_elem_of_fmap_2).
  apply (rt_selected _ _ Hrt) in Hin as [Ho Hk]. destruct (owned_after id Ho) as (a & Ha & He & Ha').
  destruct (ch_public _ _ _ _ _ Hch id Ho Hk) as (i & h & Hh & Has & Hact & Hl).
  destruct (planned_fields plan id a) as (E1 & E2 & E3 & E4). exists id, (planned plan id a), i, h.
  split_and!; try done.
  - congruence.
  - rewrite (E3 Ho). unfold route. by rewrite decide_True.
  - rewrite (E4 Ho Hk). unfold popularityOf. rewrite <-Hid.
    by rewrite (head_filter_NoDup scAssetID _ _ (rt_distinct _ _ Hrt) Hc).
  - rewrite E2. eapply (rt_bytes _ _ Hrt id (scanAsset id a)); [|done..]. apply (so_node _ _ _ Hsn). by exists a.
Qed.

Lemma shown_credits k c : pg.dbCandidates (mDB s') !! k = Some c → k.1 = ev → Credited (pg.cdOutcomeClass c) = true →
  ∃ o, o ∈ slOwners plan ∧ soAssetID o = pg.cdObservedAssetID c ∧ soKeeperID o = pg.cdCreditedAssetID c.
Proof.
  rewrite (ch_candidates _ _ _ _ _ Hch). destruct (pg.dbCandidates (mDB s) !! k) as [c0|] eqn:Hc0; [|done].
  cbn. intros [= <-] Hk Hcr.
  assert (Credited (pg.cdOutcomeClass c0) = true ∧ pg.cdObservedAssetID (routedTo plan ev (soAssetID <$> slOwners plan) k c0) =
    pg.cdObservedAssetID c0) as [Hcr0 Eo].
  { revert Hcr. unfold routedTo. destruct (pg.cdObservedAssetID c0) eqn:E; [|done]. by destruct (_ && _). }
  destruct (so_source _ _ _ Hsn k c0 Hc0 Hk Hcr0) as (src & Hsrc & Eobs).
  destruct (rt_source _ _ Hrt src Hsrc) as (x & Hx & Ho). rewrite Hx in Eobs.
  unfold owned in Ho. pose proof Ho as Ho'. apply list_elem_of_fmap in Ho' as (o & Eo' & Hin). exists o. split; [done|].
  destruct (rt_owner _ _ Hrt o Hin) as (y & Hy & Hky). assert (y = x) as -> by congruence.
  rewrite Eo, <-Eobs. split; [done|]. rewrite Hky. unfold routedTo. rewrite <-Eobs.
  rewrite !bool_decide_eq_true_2, Hcr0 by done. done.
Qed.

Lemma chosen_shows : shows ev plan links s s'.
Proof.
  split.
  - apply shown_kept.
  - intros i h Hi He Hact. apply (rt_selected _ _ Hrt).
    destruct (mo_share _ Hok' _ _ Hi) as (a' & Ha' & E & Hroot & _). rewrite (ch_assets _ _ _ _ _ Hch) in Ha'.
    destruct (mAssets s !! shAssetID h) as [a|] eqn:Ha; [|done]. cbn in Ha'. injection Ha' as <-.
    destruct (planned_fields plan (shAssetID h) a) as (E1 & _ & E3 & _).
    assert (owned plan (shAssetID h)) as Ho by (apply (owned_row ev s sn plan Hsn Hrt); exists a; split; [done|congruence]).
    split; [done|]. specialize (Hroot Hact). rewrite (E3 Ho) in Hroot. unfold route in Hroot. by case_decide.
  - intros o Ho. destruct (rt_owner _ _ Hrt o Ho) as (id & Hid & Hk).
    assert (owned plan id) as Hown by (unfold owned; rewrite <-Hid; by apply list_elem_of_fmap_2).
    destruct (owned_after id Hown) as (a & _ & _ & Ha'). exists id, (keeper plan id), (planned plan id a).
    split_and!; [done..|]. by apply planned_fields.
  - intros id a Ha He. apply (owned_row ev s sn plan Hsn Hrt). by exists a.
  - apply shown_credits.
  - intros id a Hne. rewrite (ch_assets _ _ _ _ _ Hch). split.
    + destruct (mAssets s !! id) as [b|] eqn:Hb; [|done]. cbn. intros [= <-].
      rewrite (proj1 (planned_fields plan id b)) in Hne. f_equal. unfold planned. rewrite decide_False; [done|].
      intros (x & Hx & Hxe)%(owned_row ev s sn plan Hsn Hrt). congruence.
    + intros Ha. rewrite Ha. cbn. f_equal. unfold planned. rewrite decide_False; [done|].
      intros (x & Hx & Hxe)%(owned_row ev s sn plan Hsn Hrt). congruence.
  - apply (ch_others _ _ _ _ _ Hch).
  - intros k Hne. rewrite (ch_candidates _ _ _ _ _ Hch). destruct (pg.dbCandidates (mDB s) !! k) as [c|]; [|done].
    cbn. f_equal. unfold routedTo. destruct (pg.cdObservedAssetID c); [|done]. by rewrite bool_decide_eq_false_2.
Qed.
End shown.

(** C13: A committed selection implements its plan: unless it is the replay of a recorded
    request, which changes nothing and returns what was recorded, the plan computed from
    what the transaction reads of the event - its assets with their shares and earliest
    validations, its accepted candidates - is what the tables show afterwards, and the
    result is recorded under the request. *)
Theorem selection_shows_plan r out s s' :
  media_ok s → CommitSelection r s = inr (out, s') →
  (∃ id prior, sqID r = Some id ∧ mCommits s !! id = Some prior ∧ s' = s ∧
     out = (vcResult prior) <| srReplayed := true |>) ∨
  ∃ id ev sn prior, sqID r = Some id ∧ sqEventID r = Some ev ∧
    loadSelectionTx ev s = inr (sn, s) ∧ snapshotOf ev s sn ∧
    Fingerprint sn = Some (sqSnapshotHash r) ∧
    PlanSelection marshalledLength sn (sqPolicy r) (sqPreparedAssetIDs r) = inl (srPlan out) ∧
    shows ev (srPlan out) (srShareIDs out) s s' ∧
    mCommits s' = <[id := prior]> (mCommits s) ∧ vcResult prior = out.
Proof.
  intros Hok Hc. destruct (CommitSelection_inv _ _ _ _ Hok Hc) as [(-> & id & prior & ? & ? & ?)|[Hev _ Hok']].
  { left. by exists id, prior. }
  right. destruct Hev as (ev & id & sn & s1 & E1 & E2 & Hload & Hsn & _ & Hf & HP & Hrt & Hch & _ & c & Hc' & ->).
  exists id, ev, sn, c. split_and!; try done.
  - assert (media_ok s1) as Hok1 by (destruct Hok'; by split).
    destruct (chosen_shows _ _ _ _ _ _ Hok1 Hsn Hrt Hch). by split.
  - cbn. by rewrite (ch_commits _ _ _ _ _ Hch).
Qed.
End refinement.
End links.
