(* ===== verification/Rows.v ===== *)
(** What the transactions of new histories do to the rows of assets: none is lost, none
    changes its event, its bytes or its key, and the only new ones are those a placement
    carries.  A calculus of transactions that stay within a relation ([within]) does the
    walking. *)
From S2P Require Import Prelude GoStrings Fixture Event Vision Video Selection Jsonb Discovery Store Preserve Candidates Lineage Media Gallery Placement Reselect MediaLaws Placing Restoring Links.
From Stdlib Require Import SpecFloat.
#[local] Open Scope string_scope.
#[local] Open Scope list_scope.
#[local] Open Scope Z_scope.
Import discoverycontract jsonb video selection media gallery placement reselect medialaws placing restoring links.

Module rows.

(** ** The calculus *)

Definition within (G : relation Media) {A} (m : MTx A) : Prop :=
  ∀ s a s', m s = inr (a, s') → G s s'.

Create HintDb within.

Section rules.
Context (G : relation Media) `{!PreOrder G}.

Lemma within_same {A} (m : MTx A) : (∀ s a s', m s = inr (a, s') → s' = s) → within G m.
Proof. intros Hm s a s' ->%Hm. done. Qed.

Lemma within_ret {A} (a : A) : within G (mret a : MTx A).
Proof. apply within_same. intros. by mtx_inv. Qed.

Lemma within_throw {A} err : within G (throw err : MTx A).
Proof. by intros s a s'. Qed.

Lemma within_query {A} (q : Media → A) : within G (query q).
Proof. apply within_same. intros. by mtx_inv. Qed.

Lemma within_assert b err : within G (media.assert b err).
Proof. apply within_same. intros. by mtx_inv. Qed.

Lemma within_modify f : (∀ s, G s (f s)) → within G (modify f).
Proof. intros Hf s a s' H. by mtx_inv. Qed.

Lemma within_bind {A B} (m : MTx A) (k : A → MTx B) :
  within G m → (∀ a, within G (k a)) → within G (m ≫= k).
Proof. intros Hm Hk s b s' (a & s1 & H1 & H2)%mbind_inv. trans s1; [by eapply Hm|by eapply Hk]. Qed.

Lemma within_forEach {A} (body : A → MTx unit) l :
  (∀ x, within G (body x)) → within G (forEach l body).
Proof.
  intros Hb. induction l as [|x l IH]; [apply within_ret|]. by apply within_bind.
Qed.

Lemma within_foldTx {A R} (body : R → A → MTx R) l :
  (∀ r x, within G (body r x)) → ∀ r, within G (foldTx body r l).
Proof.
  intros Hb. induction l as [|x l IH]; intros r; [apply within_ret|]. by apply within_bind.
Qed.
End rules.

Ltac within_step :=
  match goal with
  | |- within _ (mret _) => apply within_ret; exact _
  | |- within _ (throw _) => apply within_throw
  | |- within _ (query _) => apply within_query; exact _
  | |- within _ (selectAsset _) => apply within_query; exact _
  | |- within _ (selectShare _) => apply within_query; exact _
  | |- within _ (require _ _) => apply within_assert; exact _
  | |- within _ (media.assert _ _) => apply within_assert; exact _
  | |- within _ (forEach _ _) => apply within_forEach; [exact _|intros]
  | |- within _ (foldTx _ _ _) => apply within_foldTx; [exact _|intros]
  | |- within _ (_ ≫= _) => apply within_bind; [exact _| |intros]
  | |- within _ (match ?x with _ => _ end) => destruct x eqn:?
  | |- within _ _ => solve [auto with within nocore]
  end.
Ltac solve_within := repeat within_step.

(** ** Rows *)

(** What an object is: its event, its fixture, its key and its bytes. *)
Abbreviation objectData := (UUID * Z * string * list Byte.byte)%type (only parsing).

Definition objectOf (a : AssetRow) : objectData :=
  (arEventID a, arFixtureID a, arS3Key a, arMD5 a).

Definition sameObject (a a' : AssetRow) : Prop :=
  objectOf a' = objectOf a ∧ (arObjectReclaimedAt a ≠ None → arObjectReclaimedAt a' ≠ None).

#[global] Instance sameObject_preorder : PreOrder sameObject.
Proof. split; [by intros a|]. intros a b c [E1 R1] [E2 R2]. split; [congruence|auto]. Qed.

Definition unheld (s : Media) (d : objectData) : Prop :=
  ∀ i b, mAssets s !! i = Some b → ¬ (arEventID b = d.1.1.1 ∧ arMD5 b = d.2).

(** No placement on record says that its event was removed. *)
Definition placedLive (c : CommitRow) : Prop := ∀ out, vcPlacement c = Some out → crEventRemoved out = false.

Record rowsKept (new : UUID → objectData → Prop) (s s' : Media) : Prop := {
  rw_kept id a : mAssets s !! id = Some a → ∃ a', mAssets s' !! id = Some a' ∧ sameObject a a';
  rw_new id a' : mAssets s' !! id = Some a' →
    (∃ a, mAssets s !! id = Some a ∧ sameObject a a') ∨ (new id (objectOf a') ∧ unheld s (objectOf a'));
  rw_commits id c : mCommits s' !! id = Some c → mCommits s !! id = Some c ∨ placedLive c;
  rw_events : pg.dbEvents (mDB s') = pg.dbEvents (mDB s) }.

#[global] Instance rowsKept_preorder new : PreOrder (rowsKept new).
Proof.
  split.
  - intros s. split; [intros id a Ha; by exists a|intros id a Ha; left; by exists a|by left|done].
  - intros s1 s2 s3 [K1 N1 C1 E1] [K2 N2 C2 E2]. split.
    + intros id a (b & Hb & S1)%K1. destruct (K2 _ _ Hb) as (c & Hc & S2). exists c. split; [done|by etransitivity].
    + intros id c [(b & Hb & S2)|[Hn Hu]]%N2.
      * destruct (N1 _ _ Hb) as [(a & Ha & S1)|[Hn Hu]].
        -- left. exists a. split; [done|by etransitivity].
        -- right. destruct S2 as [-> _]. done.
      * right. split; [done|]. intros i b (b' & Hb' & [E _])%K1 [He Hm].
        injection E as E1' _ _ E4. eapply (Hu _ _ Hb'). split; congruence.
    + intros id c [H|H]%C2; [by apply C1|by right].
    + congruence.
Qed.

Lemma rowsKept_less (new new' : UUID → objectData → Prop) s s' :
  (∀ id d, new id d → new' id d) → rowsKept new s s' → rowsKept new' s s'.
Proof. intros Hn [K N C E]. split; [done| |done|done]. intros id a [?|[? ?]]%N; [by left|right; auto]. Qed.

Lemma within_less (new new' : UUID → objectData → Prop) {A} (m : MTx A) :
  (∀ id d, new id d → new' id d) → within (rowsKept new) m → within (rowsKept new') m.
Proof. intros Hn Hm s a s' H. eapply rowsKept_less; [done|by eapply Hm]. Qed.

Lemma rowsKept_other new s s' :
  mAssets s' = mAssets s → mCommits s' = mCommits s → pg.dbEvents (mDB s') = pg.dbEvents (mDB s) →
  rowsKept new s s'.
Proof. intros EA EC EE. split; rewrite ?EA, ?EC; [intros id a Ha; by exists a|intros id a Ha; left; by exists a|by left|done]. Qed.

(** *** Statements *)

Section statements.
Context (new : UUID → objectData → Prop).

Lemma updateAssetRow_within id f : (∀ a, sameObject a (f a)) → within (rowsKept new) (updateAssetRow id f).
Proof.
  intros Hf s b s' [(_ & -> & _)|(_ & a & Ha & _ & _ & ->)]%updateAssetRow_inv; [done|].
  split; tables; try done.
  - intros j c Hc. rewrite lookup_insert. case_decide as E; [subst j|by exists c].
    rewrite Ha in Hc. injection Hc as <-. eauto.
  - intros j c [[<- <-]|[_ Hj]]%lookup_insert_Some; left; [by exists a|by exists c].
  - intros j c Hc. by left.
Qed.

Lemma insertAssetOf_within a n :
  (∀ id ev, aID a = Some id → aEventID a = Some ev → new id (objectOf (assetRow ev a n))) →
  within (rowsKept new) (insertAssetOf a n).
Proof.
  intros Hn s b s' (id & ev & Ei & Ee & [_ [(_ & -> & _)|(_ & -> & Hf & Hm & _)]]%insertAssetRow_inv)%insertAssetOf_inv;
    [done|]. split; tables; try done.
  - intros j c Hc. exists c. split; [|done]. rewrite lookup_insert_ne; [done|congruence].
  - intros j c [[<- <-]|[_ Hj]]%lookup_insert_Some; [right|left; by exists c]. split; [by apply Hn|].
    intros i b' Hb [E1 E2]. by eapply Hm.
  - intros j c Hc. by left.
Qed.

Lemma updateShareRow_within id f : within (rowsKept new) (updateShareRow id f).
Proof.
  intros s b s' [(_ & -> & _)|(_ & a & _ & _ & _ & ->)]%updateShareRow_inv; [done|]. by apply rowsKept_other.
Qed.

Lemma insertShareRow_within id h : within (rowsKept new) (insertShareRow id h).
Proof. intros s b s' (_ & _ & _ & _ & _ & ->)%insertShareRow_inv. by apply rowsKept_other. Qed.

Lemma insertShareOnce_within id h : within (rowsKept new) (insertShareOnce id h).
Proof.
  unfold insertShareOnce. repeat within_step. apply insertShareRow_within.
Qed.

Lemma within_modify_other f :
  (∀ s, mAssets (f s) = mAssets s ∧ mCommits (f s) = mCommits s ∧ pg.dbEvents (mDB (f s)) = pg.dbEvents (mDB s)) →
  within (rowsKept new) (modify f).
Proof. intros Hf. apply within_modify. intros s. destruct (Hf s) as (? & ? & ?). by apply rowsKept_other. Qed.

Lemma lift_within {A} (m : pg.Tx A) :
  (∀ db a db', m db = inr (a, db') → pg.dbEvents db' = pg.dbEvents db) → within (rowsKept new) (lift m).
Proof. intros Hm s a s' (db & H & ->)%mlift_inv. apply rowsKept_other; [done..|]. by eapply Hm. Qed.

Lemma lift_modify_within f : (∀ db, pg.dbEvents (f db) = pg.dbEvents db) → within (rowsKept new) (lift (pg.modify f)).
Proof. intros Hf. apply lift_within. intros db a db' ->%pg.modify_inv. done. Qed.

Lemma insertCommit_within `{Env, Digests} id c : placedLive c → within (rowsKept new) (insertCommit id c).
Proof.
  intros Hc s u s' [_ ->]%insertCommit_inv. split; cbn; [intros j a Ha; by exists a|intros j a Ha; left; by exists a| |done].
  intros j d [[<- <-]|[_ Hj]]%lookup_insert_Some; [by right|by left].
Qed.
End statements.
#[export] Hint Resolve updateShareRow_within insertShareRow_within insertShareOnce_within : within.

(** ** Placements *)

Definition carried (p : ClipPlacement) (id : UUID) (d : objectData) : Prop :=
  ∃ a ev, a ∈ option_list (plWinner p) ++ option_list (plVariant p) ∧ aID a = Some id ∧
    aEventID a = Some ev ∧ d = (ev, aFixtureID a, aS3Key a, aMD5 a).

Definition nothing (_ : UUID) (_ : objectData) : Prop := False.

Section operations.
Context `{Env}.

Lemma carried_within p a : a ∈ option_list (plWinner p) ++ option_list (plVariant p) →
  within (rowsKept (carried p)) (insertPlacementAsset a).
Proof. intros Ha. apply insertAssetOf_within. intros id ev Hi He. exists a, ev. by split_and!. Qed.

Lemma getAssetTx_within new id : within (rowsKept new) (getAssetTx id).
Proof. apply within_same; [exact _|]. intros s a s' Hg. by apply getAssetTx_inv in Hg as [-> _]. Qed.

Lemma requireObservedRoot_within new p x w : within (rowsKept new) (requireObservedRoot p x w).
Proof. apply within_same; [exact _|]. intros s a s' Hx. by eapply requireObservedRoot_inv. Qed.

Lemma setCandidate_within new k c : within (rowsKept new) (setCandidate k c).
Proof. unfold setCandidate. repeat within_step. by apply lift_modify_within. Qed.

Lemma persistPlacementValidation_within new p : within (rowsKept new) (persistPlacementValidation p).
Proof.
  unfold persistPlacementValidation, insertValidation. repeat within_step.
  all: first [apply getAssetTx_within|by apply within_modify_other].
Qed.

Lemma ensurePlacementShare_within new p w : within (rowsKept new) (ensurePlacementShare p w).
Proof. unfold ensurePlacementShare, requireActive. solve_within. Qed.
#[local] Hint Resolve getAssetTx_within requireObservedRoot_within setCandidate_within
  persistPlacementValidation_within ensurePlacementShare_within : within.

Lemma creditPlacementCandidate_within new p w losers c :
  within (rowsKept new) (creditPlacementCandidate p w losers c).
Proof. unfold creditPlacementCandidate. solve_within. Qed.
#[local] Hint Resolve creditPlacementCandidate_within : within.

Lemma supersedePlacementLoser_within new ev l w :
  within (rowsKept new) (supersedePlacementLoser ev l w).
Proof.
  unfold supersedePlacementLoser. repeat within_step.
  all: first [by apply updateAssetRow_within|by apply within_modify_other|by apply lift_modify_within].
Qed.
#[local] Hint Resolve supersedePlacementLoser_within : within.

Lemma applyClipPlacementTx_within p : within (rowsKept (carried p)) (applyClipPlacementTx p).
Proof.
  unfold applyClipPlacementTx, insertWinner, insertVariant, countVote, addVotes. repeat within_step.
  all: first [by apply updateAssetRow_within|apply carried_within].
  all: repeat match goal with E : _ = Some _ |- _ => rewrite E end; set_solver.
Qed.

Context `{Digests}.

Lemma applySelectionTx_within new sn ev plan : within (rowsKept new) (applySelectionTx sn ev plan).
Proof.
  unfold applySelectionTx, applyOwner, routeAsset, applySelected. repeat within_step.
  all: first [by apply updateAssetRow_within|by apply lift_modify_within].
Qed.

Lemma loadSelectionTx_within new ev : within (rowsKept new) (loadSelectionTx ev).
Proof. unfold loadSelectionTx. solve_within. Qed.
#[local] Hint Resolve applySelectionTx_within loadSelectionTx_within : within.

Lemma repair_within new ev r : within (rowsKept new) (repair ev r).
Proof. unfold repair. solve_within. Qed.

Lemma lockEvent_within new ev fx : within (rowsKept new) (lockEvent ev fx).
Proof. unfold lockEvent. solve_within. Qed.
#[local] Hint Resolve repair_within lockEvent_within : within.

Lemma rejectRemoved_within new p : within (rowsKept new) (rejectRemovedPlacementCandidates p).
Proof.
  unfold rejectRemovedPlacementCandidates, rejectCandidate. repeat within_step.
  - apply lift_within. intros db b db' [(_ & -> & _)|(_ & _ & _ & ->)]%candidaterepo.insertObservation_inv; done.
  - apply lift_within. intros db n db' [t' ->]%preserve.terminalize_inv. done.
Qed.
#[local] Hint Resolve rejectRemoved_within : within.

(** The answer of a placement tells of a removed event only when it is. *)
Lemma applyClipPlacementTx_live p out s s' : applyClipPlacementTx p s = inr (out, s') → crEventRemoved out = false.
Proof. intros [[? ? ? ? ? ? ? ? ? ? ? ? ? ? ? (b & _ & ->)]]%applyClipPlacementTx_inv. done. Qed.

Lemma commitPlacementSelectionTx_within p r :
  within (rowsKept (carried p)) (commitPlacementSelectionTx p r).
Proof.
  intros s out s' Hc. unfold commitPlacementSelectionTx in Hc.
  destruct (placementSelectionDigest p r) as [digest|]; [|done]. destruct (sqID r) as [id|]; [|done]. mtx_inv.
  destruct (mCommits s !! id) as [prior|]; mtx_inv; [done|].
  match goal with H1 : loadSelectionTx _ _ = _, H2 : applyClipPlacementTx _ _ = _, H3 : repair _ _ _ = _,
    H4 : insertCommit _ _ _ = inr (_, ?m) |- _ =>
    pose proof (applyClipPlacementTx_live _ _ _ _ H2); apply applyClipPlacementTx_within in H2;
    apply (loadSelectionTx_within (carried p)) in H1; apply (repair_within (carried p)) in H3;
    apply (insertCommit_within (carried p)) in H4; [etransitivity; [exact H1|etransitivity; [exact H2|by etransitivity]]|] end.
  by intros ? [= <-].
Qed.
#[local] Hint Resolve applyClipPlacementTx_within commitPlacementSelectionTx_within : within.

Lemma CommitClipPlacement_within p : within (rowsKept (carried p)) (CommitClipPlacement p).
Proof.
  unfold CommitClipPlacement. set (p' := p <| plCommittedAt ::= placementNow |>).
  change (carried p) with (carried p'). repeat within_step.
Qed.

Lemma CommitClipPlacement_removed p out s s' :
  (∀ id c, mCommits s !! id = Some c → placedLive c) →
  CommitClipPlacement p s = inr (out, s') → crEventRemoved out = true →
  ∃ e, pg.dbEvents (mDB s) !! plEventID p = Some e ∧ event.eRemoved e = true.
Proof.
  intros Hl Hc Hr. unfold CommitClipPlacement in Hc. set (p' := p <| plCommittedAt ::= placementNow |>) in *.
  destruct (validateClipPlacement p'); [done|]. mtx_inv.
  match goal with Hx : lockEvent _ _ _ = inr (?b, _) |- _ => apply lockEvent_inv in Hx as (-> & e & He & _ & Hb); destruct b end;
    mtx_inv; [by exists e|]. exfalso.
  destruct (plSelection p') as [r|]; [|by rewrite (applyClipPlacementTx_live p' out _ _ ltac:(eassumption)) in Hr].
  unfold commitPlacementSelectionTx in *. destruct (placementSelectionDigest p' r) as [digest|]; [|done].
  destruct (sqID r) as [id|]; [|done]. mtx_inv.
  destruct (mCommits s !! id) as [prior|] eqn:Ep; mtx_inv.
  - cbn in Hr. destruct (vcPlacement prior) as [out|] eqn:Eo; cbn in Hr; [|done].
    by rewrite (Hl _ _ Ep _ Eo) in Hr.
  - cbn in Hr. match goal with Hx : applyClipPlacementTx _ _ = _ |- _ => apply applyClipPlacementTx_live in Hx end. congruence.
Qed.

Lemma CommitSelection_within r : within (rowsKept nothing) (CommitSelection r).
Proof.
  unfold CommitSelection. repeat within_step.
  refine (insertCommit_within _ _ _ _). by intros ? [=].
Qed.
End operations.

Lemma RemoveByEvent_within now ev reason : within (rowsKept nothing) (sharerepo.RemoveByEvent now ev reason).
Proof. unfold sharerepo.RemoveByEvent. repeat within_step. by apply within_modify_other. Qed.

Lemma MarkObjectReclaimed_within now id : within (rowsKept nothing) (assetrepo.MarkObjectReclaimed now id).
Proof. unfold assetrepo.MarkObjectReclaimed. repeat within_step. by apply updateAssetRow_within. Qed.
End rows.
