(* ===== verification/Bytes.v ===== *)
(** The bytes behind a public clip are in the bucket, whatever the activities of
    Persist.v do at the same time, however often they are retried, and wherever they die.

    A world is the video tables with the keys of the bucket.  A pool of activities works
    on it one request at a time; a request may fail, or succeed although the activity is
    told that it failed.  [safe] is what an activity must guarantee under such
    interference, given as rules for its control structure. *)
From S2P Require Import Prelude GoStrings Fixture Event Vision Video Selection Jsonb Discovery Store Search Wire Preserve Fixtures Candidates Lineage Media Gallery Placement Reselect Persist MediaLaws Placing Restoring Links Rows.
From Stdlib Require Import SpecFloat.
#[local] Open Scope string_scope.
#[local] Open Scope list_scope.
#[local] Open Scope Z_scope.
Import discoverycontract jsonb video selection media gallery placement reselect wire persist medialaws placing restoring links rows.

Module bytes.

(** ** One request *)

Record world := mkWorld { wMedia : Media; wObjects : gset string }.

Inductive transacted {R} (tx : Env → MTx R) (s : Media) : dbError + R → Media → Prop :=
  | tx_done v r s' : tx v s = inr (r, s') → transacted tx s (inr r) s'
  | tx_unheard v r s' why : tx v s = inr (r, s') → transacted tx s (inl (failed why)) s'
  | tx_refused v err : tx v s = inl err → transacted tx s (inl err) s
  | tx_failed why : transacted tx s (inl (failed why)) s.

Definition heard (answer : string + bool) : Prop := answer = inr true ∨ ∃ why, answer = inl why.

(** Deleting a key that is not there succeeds. *)
Inductive served (o : gset string) : objectRequest → string + bool → gset string → Prop :=
  | sv_copy src dst answer : src ∈ o → heard answer → served o (Copy src dst) answer ({[dst]} ∪ o)
  | sv_delete key answer : heard answer → served o (Delete key) answer (o ∖ {[key]})
  | sv_head key : served o (Head key) (inr (bool_decide (key ∈ o))) o
  | sv_failed req why : served o req (inl why) o.

Definition advances {A} (p : job A) (w : world) (p' : job A) (w' : world) : Prop :=
  match p with
  | finished _ => False
  | transact tx k => ∃ res s', transacted tx (wMedia w) res s' ∧ p' = k res ∧ w' = mkWorld s' (wObjects w)
  | object req k => ∃ res o', served (wObjects w) req res o' ∧ p' = k res ∧ w' = mkWorld (wMedia w) o'
  end.

(** ** The pool *)

Inductive running :=
  | run {A : Type} (p : job A).

Definition moves (r : running) (w : world) (r' : running) (w' : world) : Prop :=
  match r with run p => ∃ p', advances p w p' w' ∧ r' = run p' end.

Definition gone (s : Media) (ev : UUID) : Prop :=
  ∃ e, pg.dbEvents (mDB s) !! ev = Some e ∧ event.eRemoved e = true.

Section pool.
Context `{Deployment, Digests}.

(** The events whose media retention takes. *)
Context (doomed : gset UUID).

(** A key under the prefix of the stage is the key of no asset. *)
Definition staged (key : string) : Prop := ∀ f ev a, key ≠ objectKey f ev a.

(** The activities of new histories, and when they are scheduled. *)
Inductive scheduled (w : world) : running → Prop :=
  | may_place at_ inp : staged inp.(cpStagingKey) → scheduled w (run (CommitClipPlacement at_ inp))
  | may_load fuel ev consistent : scheduled w (run (LoadEventAssets fuel ev consistent))
  | may_drop key : staged key → scheduled w (run (DeleteStaging key))
  | may_destroy ev reason : ev ∈ doomed ∨ gone (wMedia w) ev → scheduled w (run (DestroyEvent ev reason))
  | may_plan n : scheduled w (run (PlanMediaRetention n))
  | may_select r : scheduled w (run (must "select" (λ _, CommitSelection r))).

(** Any activity takes a step, starts, or dies; another transaction runs, which keeps
    the events that have assets, and removed events removed; bytes are staged. *)
Inductive happens : relation (world * list running) :=
  | hp_move i r r' w w' ps : ps !! i = Some r → moves r w r' w' → happens (w, ps) (w', <[i := r']> ps)
  | hp_start r w ps : scheduled w r → happens (w, ps) (w, ps ++ [r])
  | hp_die i w ps : happens (w, ps) (w, delete i ps)
  | hp_other db w ps :
      mediaKept (wMedia w) db → (∀ ev, gone (wMedia w) ev → gone (atDB (wMedia w) db) ev) →
      happens (w, ps) (mkWorld (atDB (wMedia w) db) (wObjects w), ps)
  | hp_stage key w ps : happens (w, ps) (mkWorld (wMedia w) ({[key]} ∪ wObjects w), ps).

(** ** The invariant, and what time keeps *)

Definition spared (w : world) (ev : UUID) : Prop := ev ∉ doomed ∧ ¬ gone (wMedia w) ev.

Record held (w : world) : Prop := {
  hd_media : media_ok (wMedia w);
  hd_key id a : mAssets (wMedia w) !! id = Some a → arS3Key a = objectKey (arFixtureID a) (arEventID a) id;
  hd_commits id c : mCommits (wMedia w) !! id = Some c → placedLive c;
  hd_bytes id a : mAssets (wMedia w) !! id = Some a → arObjectReclaimedAt a = None →
    spared w (arEventID a) → arS3Key a ∈ wObjects w }.

Record later (w w' : world) : Prop := {
  lt_gone ev : gone (wMedia w) ev → gone (wMedia w') ev;
  lt_rows id a : mAssets (wMedia w) !! id = Some a →
    ∃ a', mAssets (wMedia w') !! id = Some a' ∧ sameObject a a';
  lt_objects f ev a : objectKey f ev a ∈ wObjects w → objectKey f ev a ∈ wObjects w' ∨ ¬ spared w' ev }.

#[global] Instance later_preorder : PreOrder later.
Proof.
  split.
  - intros w. split; [done|intros id a Ha; by exists a|by left].
  - intros w1 w2 w3 [G1 R1 O1] [G2 R2 O2]. split; [auto| |].
    + intros id a (b & Hb & S1)%R1. destruct (R2 _ _ Hb) as (c & Hc & S2). exists c. split; [done|by etransitivity].
    + intros f ev a [Hin|Hs]%O1; [by apply O2|]. right. intros [Hd Hg]. apply Hs. split; [done|]. auto.
Qed.

(** ** Safe activities *)

(** [p], somewhere in time after [w], keeps the invariant with each request, and ends
    with a result and a world in [Q]. *)
Fixpoint safe {A} (Q : A → world → Prop) (p : job A) (w : world) : Prop :=
  match p with
  | finished a => ∀ w1, later w w1 → held w1 → Q a w1
  | transact tx k => ∀ w1 res s2, later w w1 → held w1 → transacted tx (wMedia w1) res s2 →
      let w2 := mkWorld s2 (wObjects w1) in held w2 ∧ later w1 w2 ∧ safe Q (k res) w2
  | object req k => ∀ w1 res o2, later w w1 → held w1 → served (wObjects w1) req res o2 →
      let w2 := mkWorld (wMedia w1) o2 in held w2 ∧ later w1 w2 ∧ safe Q (k res) w2
  end.

Definition safeRun (r : running) (w : world) : Prop :=
  match r with run p => safe (λ _ _, True) p w end.

Lemma safe_later {A} (Q : A → world → Prop) p w w' : safe Q p w → later w w' → safe Q p w'.
Proof.
  intros Hs Hl. destruct p as [a|R tx k|req k]; cbn in *.
  - intros w1 H1. apply Hs. by etransitivity.
  - intros w1 res s2 H1. apply Hs. by etransitivity.
  - intros w1 res o2 H1. apply Hs. by etransitivity.
Qed.

Lemma safeRun_later r w w' : safeRun r w → later w w' → safeRun r w'.
Proof. destruct r as [A p]. apply safe_later. Qed.

Lemma safe_then {A B} (P : A → world → Prop) (Q : B → world → Prop) (f : A → job B) p w :
  safe P p w → (∀ a w', later w w' → held w' → P a w' → safe Q (f a) w') → held w → safe Q (andThen f p) w.
Proof.
  revert w. induction p as [a|R tx k IH|req k IH]; intros w Hs Hf Hw; cbn [andThen].
  - cbn in Hs. apply Hf; [done..|]. by apply Hs.
  - cbn in *. intros w1 res s2 H1 Hh Ht. destruct (Hs w1 res s2 H1 Hh Ht) as (Hh2 & H2 & Hk).
    split_and!; [done..|]. apply IH; [done| |done]. intros a w' H3. apply Hf. by do 2 (etransitivity; [done|]).
  - cbn in *. intros w1 res o2 H1 Hh Ht. destruct (Hs w1 res o2 H1 Hh Ht) as (Hh2 & H2 & Hk).
    split_and!; [done..|]. apply IH; [done| |done]. intros a w' H3. apply Hf. by do 2 (etransitivity; [done|]).
Qed.

(** *** Rules for activities with errors *)

Definition reaches {A} (Q : A → world → Prop) (r : string + A) (w : world) : Prop :=
  match r with inl _ => True | inr a => Q a w end.

Definition does {A} (Q : A → world → Prop) (p : Act A) (w : world) : Prop := safe (reaches Q) p w.

Definition lasting {A} (Q : A → world → Prop) : Prop := ∀ a w w', Q a w → later w w' → Q a w'.

Lemma does_bind {A B} (P : A → world → Prop) (Q : B → world → Prop) (p : Act A) (f : A → Act B) w :
  held w → does P p w → (∀ a w', later w w' → held w' → P a w' → does Q (f a) w') → does Q (p ≫= f) w.
Proof.
  intros Hw Hp Hf. eapply safe_then; [exact Hp| |done]. intros [err|a] w' Hl Hh Hr; [by intros ? _ _|by apply Hf].
Qed.

Lemma does_ret {A} (Q : A → world → Prop) a w : (∀ w', later w w' → held w' → Q a w') → does Q (mret a) w.
Proof. done. Qed.

Lemma does_fails {A} (Q : A → world → Prop) err w : does Q (fails err) w.
Proof. by intros ? _ _. Qed.

Lemma does_ensure b err w : does (λ _ _, b = true) (ensure b err) w.
Proof. destruct b; [by intros ? _ _|apply does_fails]. Qed.

Lemma does_finished {A} (Q : A → world → Prop) (r : string + A) w :
  (∀ a w', r = inr a → later w w' → held w' → Q a w') → does Q (finished r) w.
Proof. intros Hr w' Hl Hh. destruct r as [err|a]; [done|]. by apply Hr. Qed.

Lemma does_weaken {A} (P Q : A → world → Prop) (p : Act A) w :
  held w → does P p w → (∀ a w', later w w' → held w' → P a w' → Q a w') → does Q p w.
Proof.
  intros Hw. revert w Hw. unfold does. induction p as [a|R tx k IH|req k IH]; intros w Hw Hp HPQ; cbn in *.
  - intros w1 H1 Hh. specialize (Hp _ H1 Hh). destruct a as [err|a]; [done|]. by apply HPQ.
  - intros w1 res s2 H1 Hh Ht. destruct (Hp _ _ _ H1 Hh Ht) as (Hh2 & H2 & Hk). split_and!; [done..|].
    apply IH; [done..|]. intros a w' H3. apply HPQ. by do 2 (etransitivity; [done|]).
  - intros w1 res o2 H1 Hh Ht. destruct (Hp _ _ _ H1 Hh Ht) as (Hh2 & H2 & Hk). split_and!; [done..|].
    apply IH; [done..|]. intros a w' H3. apply HPQ. by do 2 (etransitivity; [done|]).
Qed.

Lemma does_loop {S X} (I : S → world → Prop) (body : S → X → Act S) xs s w :
  held w → lasting I → I s w → (∀ s x w', later w w' → held w' → I s w' → does I (body s x) w') →
  does I (loopAct body s xs) w.
Proof.
  revert s w. induction xs as [|x xs IH]; intros s w Hw HI Hs Hb; cbn [loopAct].
  - apply does_ret. intros w' Hl _. by eapply HI.
  - eapply does_bind; [done|by apply Hb|]. intros s' w' Hl Hh Hs'. apply IH; [done..|].
    intros s1 x1 w1 H1. apply Hb. by etransitivity.
Qed.

(** A transaction whose effect keeps the invariant. *)
Lemma does_must {R} (Q : R → world → Prop) err (tx : Env → MTx R) w :
  (∀ w1 v r s2, later w w1 → held w1 → tx v (wMedia w1) = inr (r, s2) →
     let w2 := mkWorld s2 (wObjects w1) in held w2 ∧ later w1 w2 ∧ ∀ w3, later w2 w3 → held w3 → Q r w3) →
  does Q (must err tx) w.
Proof.
  intros Ht. unfold does, must. cbn. intros w1 res s2 H1 Hh [v r s' E|v r s' why E|v err' E|why].
  - destruct (Ht _ _ _ _ H1 Hh E) as (Hh2 & H2 & HQ). split_and!; [done..|]. cbn. auto.
  - destruct (Ht _ _ _ _ H1 Hh E) as (Hh2 & H2 & _). split_and!; [done..|]. by cbn.
  - destruct w1. by split_and!.
  - destruct w1. by split_and!.
Qed.

Definition answered {R} (tx : Env → MTx R) (r : dbError + R) (s : Media) : Prop :=
  match r with
  | inr a => ∃ v s', tx v s = inr (a, s')
  | inl err => (∃ why, err = failed why) ∨ ∃ v, tx v s = inl err
  end.

(** A read, with its error as a value. *)
Lemma does_attempt {R} (Q : dbError + R → world → Prop) (tx : Env → MTx R) w :
  (∀ v s r s', tx v s = inr (r, s') → s' = s) →
  (∀ w1 r, later w w1 → held w1 → answered tx r (wMedia w1) → ∀ w3, later w1 w3 → held w3 → Q r w3) →
  does Q (attempt tx) w.
Proof.
  intros Hr HQ. unfold does, attempt. cbn. intros w1 res s2 H1 Hh Ht.
  assert (s2 = wMedia w1 ∧ answered tx res (wMedia w1)) as [-> Ha].
  { destruct Ht as [v r s' E|v r s' why E|v err E|why]; (split; [by eauto|]); cbn; eauto. }
  destruct w1 as [m o]. split_and!; [done..|]. cbn. intros w3 H3 Hh3. by eapply HQ.
Qed.

Lemma does_read {R} (Q : R → world → Prop) err (tx : Env → MTx R) w :
  (∀ v s r s', tx v s = inr (r, s') → s' = s) →
  (∀ w1 v r, later w w1 → held w1 → tx v (wMedia w1) = inr (r, wMedia w1) →
     ∀ w3, later w1 w3 → held w3 → Q r w3) →
  does Q (must err tx) w.
Proof.
  intros Hr HQ. apply does_must. intros w1 v r s2 H1 Hh E. pose proof (Hr _ _ _ _ E) as ->.
  destruct w1 as [m o]. split_and!; [done..|]. intros w3 H3 Hh3. by eapply HQ.
Qed.
(** ** What requests keep *)

(** A UUID is printed without a slash, and two are not printed alike. *)
Context (printUUID_inj : ∀ u v, printUUID u = printUUID v → u = v).
Context (printUUID_plain : ∀ u, free_of "/" (printUUID u) = true).

Lemma objectKey_event f f' ev ev' a a' : objectKey f ev a = objectKey f' ev' a' → ev = ev'.
Proof.
  unfold objectKey. intros E. apply (inj (String.append AssetsPrefix)) in E.
  injection E as E. apply cut_inj in E as [_ E]; [|by apply Itoa_free_of..].
  apply cut_inj in E as [E _]; [|done..]. by apply printUUID_inj.
Qed.

Lemma spared_later w w' ev : later w w' → spared w' ev → spared w ev.
Proof. intros [G _ _] [Hd Hg]. split; [done|]. auto. Qed.

Lemma grow_ok key w : held w →
  let w' := mkWorld (wMedia w) ({[key]} ∪ wObjects w) in held w' ∧ later w w'.
Proof.
  intros [Hm Hk Hc Hb]. split.
  - split; [done..|]. intros id a Ha Hr Hs. cbn. apply elem_of_union_r. by eapply Hb.
  - split; [done|intros id a Ha; by exists a|]. intros f ev a Hin. left. cbn. by apply elem_of_union_r.
Qed.

(** The key may go: it is of no asset of a spared event. *)
Definition free (key : string) (w : world) : Prop := ∀ f ev a, key = objectKey f ev a → ¬ spared w ev.

Lemma free_later key w w' : free key w → later w w' → free key w'.
Proof. intros Hf Hl f ev a E Hs. by eapply Hf, spared_later. Qed.

Lemma staged_free key w : staged key → free key w.
Proof. intros Hk f ev a E. by destruct (Hk f ev a). Qed.

Lemma drop_ok key w : held w → free key w →
  let w' := mkWorld (wMedia w) (wObjects w ∖ {[key]}) in held w' ∧ later w w'.
Proof.
  intros [Hm Hk Hc Hb] Hf. split.
  - split; [done..|]. intros id a Ha Hr Hs. cbn. apply elem_of_difference. split; [by eapply Hb|].
    rewrite elem_of_singleton. intros E. eapply Hf; [|exact Hs]. rewrite <-E. by eapply Hk.
  - split; [done|intros id a Ha; by exists a|]. intros f ev a Hin. cbn.
    destruct (decide (objectKey f ev a = key)) as [E|Hne]; [right; by eapply Hf|].
    left. apply elem_of_difference. split; [done|]. by rewrite elem_of_singleton.
Qed.

(** A transaction whose new rows have their bytes. *)
Lemma rows_ok new w s2 : held w → media_ok s2 → rowsKept new (wMedia w) s2 →
  (∀ id d, new id d → unheld (wMedia w) d → d.1.2 = objectKey d.1.1.2 d.1.1.1 id ∧
     (spared w d.1.1.1 → d.1.2 ∈ wObjects w)) →
  let w2 := mkWorld s2 (wObjects w) in held w2 ∧ later w w2.
Proof.
  intros [Hm Hk Hc Hb] Hm2 [RK RN RC RE] Hn.
  assert (∀ ev, gone (wMedia w) ev ↔ gone s2 ev) as Hgone by (intros ev; unfold gone; by rewrite RE).
  split.
  - split; cbn; [done| | |].
    + intros id a' [(a & Ha & [E _])|[Ha Hu]]%RN.
      * injection E as -> -> -> _. by eapply Hk.
      * destruct (Hn _ _ Ha Hu) as [E _]; exact E.
    + intros id c [Hx|Hx]%RC; [by eapply Hc|done].
    + intros id a' Ha' Hr [Hd Hg]. assert (spared w (arEventID a')) as Hs by (split; [done|]; by rewrite Hgone).
      destruct (RN _ _ Ha') as [(a & Ha & [E Hre])|[Hx Hu]].
      * injection E as Ee _ -> _. eapply Hb; [done| |by rewrite <-Ee].
        destruct (arObjectReclaimedAt a); [|done]. destruct (Hre ltac:(done)). done.
      * destruct (Hn _ _ Hx Hu) as [_ Hin]. by apply Hin.
  - split; cbn; [intros ev; by rewrite Hgone|done|by left].
Qed.

Lemma kept_ok w s2 : held w → media_ok s2 → rowsKept nothing (wMedia w) s2 →
  let w2 := mkWorld s2 (wObjects w) in held w2 ∧ later w w2.
Proof. intros Hw Hm Hr. by eapply rows_ok. Qed.

(** *** Requests to the store *)

Lemma does_copy (Q : bool → world → Prop) err src dst w :
  (∀ w2 w3, later w w2 → dst ∈ wObjects w2 → later w2 w3 → held w3 → Q true w3) →
  does Q (mustStore err (Copy src dst)) w.
Proof.
  intros HQ. unfold does, mustStore. cbn. intros w1 res o2 H1 Hh Hs.
  inversion Hs as [? ? ? Hsrc Hans| | |]; subst; [|destruct w1; split_and!; by cbn].
  destruct (grow_ok dst w1 Hh) as [Hh2 H2]. split_and!; [done..|].
  destruct Hans as [->|[why ->]]; [|by cbn]. cbn. intros w3 H3 Hh3.
  eapply HQ; [by etransitivity| |exact H3|done]. cbn. set_solver.
Qed.

Lemma served_delete w key res o2 : held w → free key w → served (wObjects w) (Delete key) res o2 →
  let w2 := mkWorld (wMedia w) o2 in held w2 ∧ later w w2.
Proof.
  intros Hh Hf Hs. inversion Hs; subst; [by apply drop_ok|]. by destruct w.
Qed.

Lemma does_delete err key w : free key w → does (λ _ _, True) (mustStore err (Delete key)) w.
Proof.
  intros Hf w1 res o2 H1 Hh Hs. destruct (served_delete _ _ _ _ Hh (free_later _ _ _ Hf H1) Hs) as [Hh2 H2].
  split_and!; [done..|]. destruct res; by intros.
Qed.

Lemma does_request key w : free key w → does (λ _ _, True) (request (Delete key)) w.
Proof.
  intros Hf w1 res o2 H1 Hh Hs. destruct (served_delete _ _ _ _ Hh (free_later _ _ _ Hf H1) Hs) as [Hh2 H2].
  split_and!; [done..|]. by intros.
Qed.

Lemma does_head err key w : does (λ _ _, True) (mustStore err (Head key)) w.
Proof.
  intros w1 res o2 H1 Hh Hs. destruct w1. inversion Hs; subst; split_and!; try done; by intros.
Qed.

(** *** Reads *)

Lemma loadSelection_reads `{Env} ev s r s' : loadSelectionTx ev s = inr (r, s') → s' = s.
Proof. by intros [-> _]%loadSelectionTx_inv. Qed.

Lemma assetGet_reads id s r s' : assetrepo.Get id s = inr (r, s') → s' = s.
Proof. by intros [-> _]%getAssetTx_inv. Qed.

(** An activity that only reads. *)
Fixpoint reads {A} (p : job A) : Prop :=
  match p with
  | finished _ => True
  | transact tx k => (∀ v s r s', tx v s = inr (r, s') → s' = s) ∧ ∀ res, reads (k res)
  | object (Head _) k => ∀ res, reads (k res)
  | object _ _ => False
  end.

Lemma reads_bind {A B} (p : Act A) (f : A → Act B) : reads p → (∀ a, reads (f a)) → reads (p ≫= f).
Proof.
  intros Hp Hf. change (reads (andThen (λ r, match r with inl err => finished (inl err) | inr a => f a end) p)).
  induction p as [[err|a]|R tx k IH|req k IH]; cbn in *; [done|apply Hf| |].
  - destruct Hp as [? Hk]. split; auto.
  - destruct req; try done. auto.
Qed.

Lemma reads_loop {S X} (body : S → X → Act S) xs s : (∀ s x, reads (body s x)) → reads (loopAct body s xs).
Proof.
  intros Hb. revert s. induction xs as [|x xs IH]; intros s; [done|]. by apply reads_bind.
Qed.

Lemma reads_must {R} err (tx : Env → MTx R) : (∀ v s r s', tx v s = inr (r, s') → s' = s) → reads (must err tx).
Proof. intros Hr. split; [done|]. by intros []. Qed.

Lemma reads_ensure b err : reads (ensure b err).
Proof. by destruct b. Qed.

Lemma safe_reads {A} (p : job A) w : reads p → safe (λ _ _, True) p w.
Proof.
  revert w. induction p as [a|R tx k IH|req k IH]; intros w Hr; cbn in *; [done| |].
  - destruct Hr as [Ht Hk]. intros w1 res s2 H1 Hh Hs.
    assert (s2 = wMedia w1) as -> by (destruct Hs; by eauto). destruct w1. split_and!; by try apply IH.
  - destruct req; try done. intros w1 res o2 H1 Hh Hs. destruct w1.
    inversion Hs; subst; split_and!; by try apply IH.
Qed.
(** ** The activities that read *)

Lemma loadAsset_reads ev known id : reads (loadAsset ev known id).
Proof.
  unfold loadAsset. destruct (id ≫= _); [done|].
  apply reads_bind; [apply reads_must; intros _; apply assetGet_reads|]. intros a.
  apply reads_bind; [apply reads_ensure|done].
Qed.

Lemma climbAssets_reads ev fuel visited known root : reads (climbAssets ev fuel visited known root).
Proof.
  revert visited known root. induction fuel as [|fuel IH]; intros visited known root; cbn [climbAssets];
    destruct (aSupersededBy root) as [next|]; try done.
  case_bool_decide; [done|]. apply reads_bind; [apply loadAsset_reads|]. intros r. apply IH.
Qed.

Lemma loadSelection_only_reads ev : reads (loadSelection ev).
Proof. apply reads_must. intros v. apply loadSelection_reads. Qed.

Lemma LoadEventAssets_reads fuel ev consistent : reads (LoadEventAssets fuel ev consistent).
Proof.
  unfold LoadEventAssets. destruct consistent.
  { apply reads_bind; [apply loadSelection_only_reads|done]. }
  apply reads_bind; [apply reads_must; intros _ s r s' Hx; by apply mquery_inv in Hx as [_ ->]|]. intros shares.
  apply reads_bind; [apply reads_must; intros _ s r s' Hx; by apply mquery_inv in Hx as [_ ->]|]. intros assets.
  apply reads_bind; [apply reads_ensure|]. intros _. apply reads_bind.
  { apply reads_loop. intros known sh. apply reads_bind; [apply loadAsset_reads|done]. }
  intros known. apply reads_bind; [|done]. apply reads_loop. intros [[known' seen] aliases] a.
  case_bool_decide; [done|]. apply reads_bind; [apply climbAssets_reads|]. intros r. by case_bool_decide.
Qed.

Lemma PlanMediaRetention_reads n : reads (PlanMediaRetention n).
Proof.
  unfold PlanMediaRetention. apply reads_bind; [apply reads_ensure|]. intros _. apply reads_bind.
  - apply reads_must. intros _ s r s' (db & Hx & ->)%mlift_inv. unfold fixturerepo.PublicCompletedCutoff in Hx.
    destruct (_ <=? 0); [done|]. apply pg.query_inv in Hx as [_ ->]. by destruct s.
  - intros [t|]; [|done]. apply reads_bind; [|done]. apply reads_must. intros _ s r s' Hx. by apply mquery_inv in Hx as [_ ->].
Qed.

(** ** Teardown *)

Lemma does_reclaim ok o ev w : held w → ¬ spared w ev →
  (∃ f a, assetrepo.orKey o = objectKey f ev a) → does (λ _ _, True) (reclaimObject ok o) w.
Proof.
  intros Hw Hs (f & a & Ek). unfold reclaimObject.
  assert (free (assetrepo.orKey o) w) as Hf.
  { intros f' ev' a' E. rewrite Ek in E. by apply objectKey_event in E as <-. }
  eapply does_bind; [done|by apply does_request|]. intros [err|b] w1 H1 Hh _; [by apply does_ret|].
  eapply (does_bind (λ _ _, True)); [done| |by intros; apply does_ret].
  intros w2 res s2 H2 Hh2 Ht.
  assert (∀ v u s', assetrepo.MarkObjectReclaimed (@now v) (assetrepo.orAssetID o) (wMedia w2) = inr (u, s') →
    held (mkWorld s' (wObjects w2)) ∧ later w2 (mkWorld s' (wObjects w2))) as Hr.
  { intros v [] s' Hm. apply kept_ok; [done| |by eapply MarkObjectReclaimed_within].
    destruct (mediaStep_ok _ _ (hd_media _ Hh2) (step_reclaim _ _ _ _ Hm)) as [? _]. done. }
  assert (held (mkWorld s2 (wObjects w2)) ∧ later w2 (mkWorld s2 (wObjects w2))) as [Hh3 H3].
  { destruct Ht as [v u s' E|v u s' why E|v err E|why]; [by eapply Hr..|destruct w2; by split|destruct w2; by split]. }
  split_and!; [done..|]. by intros.
Qed.

Lemma DestroyEvent_safe ev reason w : held w → ¬ spared w ev → does (λ _ _, True) (DestroyEvent ev reason) w.
Proof.
  intros Hw Hs. unfold DestroyEvent.
  eapply (does_bind (λ _ _, True)); [done| |intros _ w1 H1 Hh1 _].
  { apply does_must. intros w1 v [] s2 H1 Hh E.
    destruct (kept_ok w1 s2 Hh) as [Hh2 H2]; [|by eapply RemoveByEvent_within|by split_and!].
    by destruct (mediaStep_ok _ _ (hd_media _ Hh) (step_revoke _ _ _ _ _ E)). }
  eapply (does_bind (λ objects _, ∀ o, o ∈ objects → ∃ f a, assetrepo.orKey o = objectKey f ev a)); [done| |].
  { apply does_read; [intros _ s r s' Hx; by apply mquery_inv in Hx as [_ ->]|]. intros w2 v r _ Hh Hx w3 _ _. apply mquery_inv in Hx as [-> _].
    intros o (x & -> & Hin)%list_elem_of_fmap. apply list_elem_of_filter in Hin as [_ Hin].
    unfold assetrepo.assetsOf in Hin. rewrite pg.elem_of_orderBy in Hin.
    apply list_elem_of_filter in Hin as [He Hin]. destruct x as [id a]. apply elem_of_map_to_list in Hin.
    cbn in *. rewrite (hd_key _ Hh _ _ Hin), He. eauto. }
  intros objects w2 H2 Hh2 Hobj.
  eapply (does_bind (λ _ _, True)); [done| |by intros ok w3 _ _ _; destruct ok].
  assert (¬ spared w2 ev) as Hs2 by (intros Hx; apply Hs; eapply spared_later; [|done]; by etransitivity).
  clear w1 H1 Hh1 H2. revert Hobj. generalize true as ok.
  revert w2 Hh2 Hs2. induction objects as [|o objects IH]; intros w2 Hh2 Hs2 ok Hobj; cbn [loopAct]; [by apply does_ret|].
  eapply does_bind; [done|apply does_reclaim with ev; [done..|apply Hobj; by left]|].
  intros ok' w3 H3 Hh3 _. apply IH; [done|intros Hx; by eapply Hs2, spared_later|].
  intros o' Ho. apply Hobj. by right.
Qed.
(** ** Placement *)

(** The bytes of the observed variant are where its row says, unless the variant is
    stored already or its event is on the way out. *)
Definition ready (inp : CommitClipPlacementInput) (md5Bytes : list Byte.byte) (w : world) : Prop :=
  ¬ spared w inp.(cpEventID) ∨
  (∃ i b, mAssets (wMedia w) !! i = Some b ∧ arEventID b = inp.(cpEventID) ∧ arMD5 b = md5Bytes) ∨
  objectKey inp.(cpFixtureID) inp.(cpEventID) (variantID inp.(cpEventID) inp.(cpMD5)) ∈ wObjects w.

Lemma ready_later inp md5Bytes w w' : ready inp md5Bytes w → later w w' → ready inp md5Bytes w'.
Proof.
  intros [Hs|[(i & b & Hb & He & Hm)|Hin]] Hl.
  - left. intros Hx. by eapply Hs, spared_later.
  - destruct (lt_rows _ _ Hl _ _ Hb) as (b' & Hb' & [E _]). injection E as E1 _ _ E4.
    right. left. exists i, b'. split_and!; [done|congruence..].
  - destruct (lt_objects _ _ Hl _ _ _ Hin) as [?|?]; [by right; right|by left].
Qed.

(** The variants a placement carries are the staged bytes, and those are in place. *)
Definition carries (inp : CommitClipPlacementInput) (p : ClipPlacement) (w : world) : Prop :=
  plEventID p = inp.(cpEventID) ∧
  ∀ a, a ∈ option_list (plWinner p) ++ option_list (plVariant p) →
    let assetID := variantID inp.(cpEventID) inp.(cpMD5) in
    aID a = Some assetID ∧ aEventID a = Some inp.(cpEventID) ∧ aFixtureID a = inp.(cpFixtureID) ∧
    aS3Key a = objectKey inp.(cpFixtureID) inp.(cpEventID) assetID ∧ ready inp (aMD5 a) w.

Lemma carries_later inp p w w' : carries inp p w → later w w' → carries inp p w'.
Proof.
  intros [He Ha] Hl. split; [done|]. intros a (H1 & H2 & H3 & H4 & H5)%Ha. split_and!; try done.
  by eapply ready_later.
Qed.

Definition droppable (inp : CommitClipPlacementInput) (key : option string) : Prop := ∀ k,
  key = Some k → k = objectKey inp.(cpFixtureID) inp.(cpEventID) (variantID inp.(cpEventID) inp.(cpMD5)).

Definition removedSeen (inp : CommitClipPlacementInput) (snapshot : option SelectionSnapshot) (w : world) : Prop :=
  ∀ s, snapshot = Some s → spRemoved s = true → ¬ spared w inp.(cpEventID).

(** An asset that was read is stored, now and later. *)
Definition stored (a : Asset) (w : world) : Prop :=
  ∃ i b, mAssets (wMedia w) !! i = Some b ∧ aEventID a = Some (arEventID b) ∧ arMD5 b = aMD5 a.

Lemma Get_stored id a s s' w w' : assetrepo.Get id s = inr (a, s') → s = wMedia w → later w w' → stored a w'.
Proof.
  intros (_ & i & b & _ & Hb & ->)%getAssetTx_inv -> Hl. destruct (lt_rows _ _ Hl _ _ Hb) as (b' & Hb' & [E _]).
  injection E as E1 _ _ E4. exists i, b'. split_and!; [done|cbn; congruence..].
Qed.

Lemma ensureBytes_does inp md5Bytes snapshot w : held w → removedSeen inp snapshot w →
  does (λ key w', ready inp md5Bytes w' ∧ droppable inp key) (ensureBytes inp md5Bytes snapshot) w.
Proof.
  intros Hw Hsn. unfold ensureBytes.
  eapply (does_bind (λ r w', ∀ a, r = inr a → stored a w')); [done| |].
  { apply does_attempt; [intros _; apply assetGet_reads|]. intros w1 r _ _ Hr w3 H3 _ a ->.
    destruct Hr as (v & s' & Hg). by eapply Get_stored. }
  intros [[]|existing] w1 H1 Hh1 Hst; try apply does_fails.
  - eapply does_bind; [done|apply does_ensure|]. intros _ w2 H2 Hh2 _.
    eapply (does_bind (λ _ w', ready inp md5Bytes w')); [done| |].
    + destruct snapshot as [sn|]; [destruct (spRemoved sn) eqn:Er|].
      * apply does_ret. intros w3 H3 _. left. intros Hx. eapply (Hsn sn eq_refl Er), spared_later; [|done].
        by do 2 (etransitivity; [done|]).
      * apply does_copy. intros w3 w4 _ Hin H4 _. eapply ready_later; [|done]. by right; right.
      * apply does_copy. intros w3 w4 _ Hin H4 _. eapply ready_later; [|done]. by right; right.
    + intros _ w3 _ _ Hr. apply does_ret. intros w4 H4 _. split; [by eapply ready_later|]. by intros k [= <-].
  - destruct (validateObservedAsset _ _ _ _) eqn:Ev; [apply does_fails|]. apply does_ret. intros w2 H2 _.
    split; [|done]. eapply ready_later; [|done]. right. left.
    destruct (Hst _ eq_refl) as (i & b & Hb & He & Hm). exists i, b.
    unfold validateObservedAsset in Ev. destruct (_ || _) eqn:Eo in Ev; [done|].
    apply orb_false_iff in Eo as [Eo E6%negb_false_iff%bool_decide_eq_true].
    repeat (apply orb_false_iff in Eo as [Eo ?]).
    match goal with Hx : negb (bool_decide (aEventID existing = _)) = false |- _ =>
      apply negb_false_iff, bool_decide_eq_true in Hx end.
    split_and!; [done|congruence|congruence].
Qed.

Lemma draft_carries at_ inp w : carries inp (draftPlacement at_ inp) w.
Proof. split; [done|]. intros a Ha. by apply elem_of_nil in Ha. Qed.

Lemma withVariant_carries at_ inp md5Bytes w : ready inp md5Bytes w →
  carries inp (withVariant at_ inp md5Bytes (withObserved inp (draftPlacement at_ inp))) w.
Proof.
  intros Hr. unfold withVariant, withObserved, carries.
  destruct (cpCaptureVariant inp), (length (cpFrameHashes inp) =? 0)%nat, (cpNewWinner inp), (cpWinnerAssetID inp);
    (split; [done|]); cbn; intros a Ha;
    first [by apply elem_of_nil in Ha|apply list_elem_of_singleton in Ha as ->; by split_and!].
Qed.

Lemma observeVariant_does at_ inp snapshot w : held w → removedSeen inp snapshot w →
  does (λ r w', carries inp r.1 w' ∧ droppable inp r.2)
    (observeVariant at_ inp snapshot (draftPlacement at_ inp)) w.
Proof.
  intros Hw Hsn. unfold observeVariant. destruct (cpReuseObservedAssetID inp) as [reused|].
  - eapply (does_bind (λ p w', carries inp p w')); [done| |].
    + unfold reuseObserved. eapply does_bind; [done|apply does_ensure|]. intros _ w1 H1 Hh1 _.
      eapply (does_bind (λ _ _, True)); [done|by apply does_read; [intros _; apply assetGet_reads|]|].
      intros observed w2 _ Hh2 _. eapply does_bind; [done|apply does_ensure|]. intros _ w3 _ _ _.
      apply does_ret. intros w4 _ _. split; [done|]. intros a Ha. by apply elem_of_nil in Ha.
    + intros p w1 _ _ Hp. apply does_ret. intros w2 H2 _. split; [by eapply carries_later|done].
  - destruct (cpNewWinner inp || cpCaptureVariant inp).
    + destruct (DecodeString _) as [md5Bytes|]; [|apply does_fails].
      eapply does_bind; [done|by apply ensureBytes_does|]. intros key w1 _ _ [Hr Hd].
      apply does_ret. intros w2 H2 _. split; [|done]. apply withVariant_carries. by eapply ready_later.
    + destruct (is_nil _); [apply does_fails|]. apply does_ret. intros w1 _ _. split; [apply draft_carries|done].
Qed.

Lemma preparePlacementSelection_does inp sel snapshot p w : held w → carries inp p w →
  does (λ p' w', carries inp p' w') (preparePlacementSelection inp sel snapshot p) w.
Proof.
  intros Hw Hp. unfold preparePlacementSelection. eapply does_bind; [done|apply does_ensure|].
  intros _ w1 H1 Hh1 _. destruct (SelectionPolicy_Validate _), (Fingerprint snapshot); try apply does_fails.
  assert (∀ r w', later w w' → carries inp (p <| plSelection := r |>) w') as Hc.
  { intros r w' Hl. destruct (carries_later _ _ _ _ Hp Hl). by split. }
  destruct (spRemoved snapshot); [apply does_ret; intros w2 H2 _; apply Hc; by etransitivity|].
  eapply (does_bind (λ _ _, True)); [done| |].
  - apply does_loop; [done|done|done|]. intros ids a w2 _ Hh2 _. unfold checkObject.
    eapply does_bind; [done|apply does_ensure|]. intros _ w3 _ Hh3 _.
    eapply does_bind; [done|apply does_head|]. intros. by apply does_ret.
  - intros ids w2 H2 _ _. apply does_ret. intros w3 H3 _. apply Hc. by do 2 (etransitivity; [done|]).
Qed.

Lemma carried_ready inp p w id d : carries inp p w → carried p id d → unheld (wMedia w) d →
  d.1.2 = objectKey d.1.1.2 d.1.1.1 id ∧ (spared w d.1.1.1 → d.1.2 ∈ wObjects w).
Proof.
  intros [_ Hc] (a & ev & Hin & Hi & He & ->) Hu. destruct (Hc _ Hin) as (Hi' & He' & Hf & Hk & Hr). cbn.
  rewrite Hi in Hi'. injection Hi' as ->. rewrite He in He'. injection He' as ->. rewrite Hf, Hk.
  split; [done|]. intros Hs. destruct Hr as [?|[(i & b & Hb & E1 & E2)|?]]; [done| |done].
  by destruct (Hu _ _ Hb).
Qed.

(** The transaction; its answer tells of a removed event only when it is. *)
Lemma persist_does inp p w : held w → carries inp p w →
  does (λ result w', crEventRemoved result = true → ¬ spared w' inp.(cpEventID))
    (must "persist" (λ _, reselect.CommitClipPlacement p)) w.
Proof.
  intros Hw Hp. apply does_must. intros w1 v out s2 H1 Hh E.
  destruct (rows_ok (carried p) w1 s2 Hh) as [Hh2 H2].
  - by eapply CommitClipPlacement_ok; [apply hd_media|].
  - by eapply CommitClipPlacement_within.
  - intros id d. apply (carried_ready inp). by eapply carries_later.
  - split_and!; [done..|]. intros w3 H3 _ Hr [_ Hg]. apply Hg, (lt_gone _ _ H3), (lt_gone _ _ H2).
    destruct Hp as [<- _]. destruct (CommitClipPlacement_removed _ _ _ _ (hd_commits _ Hh) E Hr) as (e & He & Hx).
    by exists e.
Qed.

Lemma discardRemoved_does inp key w : held w → staged inp.(cpStagingKey) → droppable inp key →
  ¬ spared w inp.(cpEventID) → does (λ _ _, True) (discardRemoved inp key) w.
Proof.
  intros Hw Hs Hd Hg. unfold discardRemoved. eapply (does_bind (λ _ _, True)); [done| |].
  - destruct key as [k|]; [|by apply does_ret]. apply does_request. rewrite (Hd _ eq_refl).
    intros f ev a E. by apply objectKey_event in E as <-.
  - intros r1 w1 _ Hh1 _. eapply (does_bind (λ _ _, True)); [done|by apply does_request, staged_free|].
    intros r2 w2 _ _ _. destruct r1, r2; first [by apply does_ret|apply does_fails].
Qed.

Lemma committedSelection_does inp out result w : held w →
  does (λ _ _, True) (committedSelection inp out result) w.
Proof.
  intros Hw. unfold committedSelection. destruct (cpSelection inp), (crSelection result); try by apply does_ret.
  - eapply (does_bind (λ _ _, True)); [done|by apply does_read; [intros v; apply loadSelection_reads|]|].
    intros sn w1 _ _ _. destruct (projectSelection sn); [apply does_fails|by apply does_ret].
  - apply does_fails.
Qed.

Lemma CommitClipPlacement_safe at_ inp w : held w → staged inp.(cpStagingKey) →
  does (λ _ _, True) (CommitClipPlacement at_ inp) w.
Proof.
  intros Hw Hs. unfold CommitClipPlacement.
  eapply does_bind; [done|apply does_ensure|]. intros _ w1 _ Hh1 _.
  eapply (does_bind (λ _ _, True)); [done|by destruct (validationError inp); [apply does_fails|apply does_ret]|].
  intros _ w2 _ Hh2 _. eapply (does_bind (λ snapshot w', removedSeen inp snapshot w')); [done| |].
  { destruct (cpSelection inp); [|by apply does_ret].
    eapply (does_bind (λ s w', removedSeen inp (Some s) w')); [done| |by intros sn w3 _ _ Hx; apply does_ret; intros w4 H4 _ s E Er Hsp; eapply (Hx s E Er), spared_later].
    apply does_read; [intros v; apply loadSelection_reads|].
    intros w3 v sn _ _ [_ Hsn]%loadSelectionTx_inv w4 H4 _ s [= <-] Er [_ Hg].
    apply Hg, (lt_gone _ _ H4). destruct (so_row _ _ _ Hsn) as (e & He & _ & Ee). exists e. split; [done|congruence]. }
  intros snapshot w3 _ Hh3 Hsn.
  eapply does_bind; [done|by apply observeVariant_does|]. intros observed w4 _ Hh4 [Hc Hd].
  eapply (does_bind (λ p w', carries inp p w')); [done| |].
  { destruct (cpSelection inp), snapshot; first [by apply preparePlacementSelection_does|
      apply does_ret; intros w5 H5 _; by eapply carries_later]. }
  intros p w5 _ Hh5 Hp. eapply does_bind; [done|by apply persist_does|]. intros result w6 _ Hh6 Hr.
  destruct (crEventRemoved result) eqn:E.
  - apply discardRemoved_does; [done..|by apply Hr].
  - eapply (does_bind (λ _ _, True)); [done|by apply does_delete, staged_free|].
    intros _ w7 _ Hh7 _. by apply committedSelection_does.
Qed.

Lemma does_safe {A} (p : Act A) w : held w → does (λ _ _, True) p w → safe (λ _ _, True) p w.
Proof.
  intros Hw Hp. revert w Hw Hp. unfold does. induction p as [a|R tx k IH|req k IH]; intros w Hw Hp; cbn in *; [done| |].
  - intros w1 res s2 H1 Hh Ht. destruct (Hp _ _ _ H1 Hh Ht) as (Hh2 & H2 & Hk). split_and!; auto.
  - intros w1 res o2 H1 Hh Ht. destruct (Hp _ _ _ H1 Hh Ht) as (Hh2 & H2 & Hk). split_and!; auto.
Qed.

(** ** The pool keeps the invariant *)

Lemma scheduled_safe w r : held w → scheduled w r → safeRun r w.
Proof.
  intros Hw [at_ inp Hs|fuel ev c|key Hk|ev reason He|n|r']; cbn [safeRun].
  - apply does_safe; [done|]. by apply CommitClipPlacement_safe.
  - apply safe_reads, LoadEventAssets_reads.
  - apply does_safe; [done|]. eapply does_bind; [done|by apply does_delete, staged_free|]. intros. by apply does_ret.
  - apply does_safe; [done|]. apply DestroyEvent_safe; [done|]. intros [Hd Hg]. by destruct He.
  - apply safe_reads, PlanMediaRetention_reads.
  - apply does_safe; [done|]. apply does_must. intros w1 v out s2 _ Hh E.
    destruct (kept_ok w1 s2 Hh) as [Hh2 H2]; [by eapply CommitSelection_ok; [apply hd_media|]|by eapply CommitSelection_within|].
    by split_and!.
Qed.

Lemma moves_safe r w r' w' : held w → safeRun r w → moves r w r' w' → held w' ∧ later w w' ∧ safeRun r' w'.
Proof.
  intros Hw Hs Hm. destruct r as [A p]. destruct Hm as (p' & Hp & ->). destruct p as [a|R tx k|req k]; cbn in *; [done| |].
  - destruct Hp as (res & s' & Ht & -> & ->). by apply Hs.
  - destruct Hp as (res & o' & Ht & -> & ->). by apply Hs.
Qed.

Lemma happens_held w ps w' ps' : held w → Forall (λ r, safeRun r w) ps → happens (w, ps) (w', ps') →
  held w' ∧ Forall (λ r, safeRun r w') ps'.
Proof.
  intros Hw Hps Hh. inversion Hh as [i r r' ? ? ? Hi Hm|r ? ? Hs|i ? ?|db ? ? Hdb Hg|key ? ?]; subst.
  - destruct (moves_safe r w r' w' Hw) as (Hw' & Hl & Hr'); [exact (Forall_lookup_1 _ _ _ _ Hps Hi)|done|]. split; [done|].
    apply Forall_insert; [|done]. eapply Forall_impl; [exact Hps|]. intros x Hx. exact (safeRun_later _ _ _ Hx Hl).
  - split; [done|]. apply Forall_app. split; [done|]. apply Forall_singleton. by apply scheduled_safe.
  - split; [done|]. by apply Forall_delete.
  - assert (held (mkWorld (atDB (wMedia w) db) (wObjects w)) ∧ later w (mkWorld (atDB (wMedia w) db) (wObjects w))) as [Hw' Hl].
    { destruct Hw as [Hm Hk Hc Hb]. split.
      - split; cbn; [by apply mediaKept_ok|done|done|]. intros id a Ha Hr [Hd Hgx]. eapply Hb; [done..|]. split; [done|].
        intros Hx. by apply Hgx, Hg.
      - split; cbn; [done|intros id a Ha; by exists a|by left]. }
    split; [done|]. eapply Forall_impl; [exact Hps|]. intros x Hx. exact (safeRun_later _ _ _ Hx Hl).
  - destruct (grow_ok key w Hw) as [Hw' Hl]. split; [done|]. eapply Forall_impl; [exact Hps|].
    intros x Hx. exact (safeRun_later _ _ _ Hx Hl).
Qed.

Lemma pool_held c c' : rtc happens c c' → held c.1 → Forall (λ r, safeRun r c.1) c.2 →
  held c'.1 ∧ Forall (λ r, safeRun r c'.1) c'.2.
Proof.
  induction 1 as [c|c1 c2 c3 H1 _ IH]; intros Hw Hps; [done|].
  destruct c1 as [w1 ps1], c2 as [w2 ps2]. destruct (happens_held _ _ _ _ Hw Hps H1). by apply IH.
Qed.

(** ** Running alone *)

Definition serve (o : gset string) (req : objectRequest) : string + bool :=
  match req with
  | Copy src _ => if bool_decide (src ∈ o) then inr true else inl "NoSuchKey"
  | Delete _ => inr true
  | Head key => inr (bool_decide (key ∈ o))
  end.

Definition servedTo (o : gset string) (req : objectRequest) : gset string :=
  match req with
  | Copy src dst => if bool_decide (src ∈ o) then {[dst]} ∪ o else o
  | Delete key => o ∖ {[key]}
  | Head _ => o
  end.

Lemma serve_served o req : served o req (serve o req) (servedTo o req).
Proof.
  destruct req as [src dst|key|key]; cbn.
  - case_bool_decide; [apply sv_copy; [done|by left]|apply sv_failed].
  - apply sv_delete. by left.
  - apply sv_head.
Qed.

Fixpoint perform {A} (v : Env) (p : job A) (w : world) : A * world :=
  match p with
  | finished a => (a, w)
  | transact tx k =>
      match tx v (wMedia w) with
      | inr (r, s) => perform v (k (inr r)) (mkWorld s (wObjects w))
      | inl err => perform v (k (inl err)) w
      end
  | object req k => perform v (k (serve (wObjects w) req)) (mkWorld (wMedia w) (servedTo (wObjects w) req))
  end.

(** Running alone is a history of the pool. *)
Lemma perform_happens {A} v (p : job A) w :
  rtc happens (w, [run p]) ((perform v p w).2, [run (finished (perform v p w).1)]).
Proof.
  revert w. induction p as [a|R tx k IH|req k IH]; intros w; cbn; [done| |].
  - destruct (tx v (wMedia w)) as [err|[r s]] eqn:Et.
    + eapply rtc_l; [|apply (IH (inl err))]. apply (hp_move 0 (run (transact tx k)) _ w w [run (transact tx k)]); [done|].
      exists (k (inl err)). split; [|done]. exists (inl err), (wMedia w). split; [by eapply tx_refused|]. by destruct w.
    + eapply rtc_l; [|apply (IH (inr r))].
      apply (hp_move 0 (run (transact tx k)) _ w (mkWorld s (wObjects w)) [run (transact tx k)]); [done|].
      exists (k (inr r)). split; [|done]. exists (inr r), s. split; [by eapply tx_done|done].
  - eapply rtc_l; [|apply (IH (serve (wObjects w) req))].
    apply (hp_move 0 (run (object req k)) _ w _ [run (object req k)]); [done|].
    exists (k (serve (wObjects w) req)). split; [|done].
    exists (serve (wObjects w) req), (servedTo (wObjects w) req). split; [apply serve_served|done].
Qed.

(** C5: A public clip has its bytes: start any number of placements, loads, teardowns and
    selections at any time, let their requests interleave, fail, or succeed unheard, let
    any of them die, and let the other tables change as long as no event with assets is
    deleted, removed events stay removed and candidate rows refer to what they referred
    to, or to nothing; then, when staged bytes have keys of their own, every link that
    resolves to an active clip of an event that is neither removed nor taken by
    retention leads to an object that is in the bucket. *)
Theorem public_clips_have_bytes w w' ps' i h r :
  held w → rtc happens (w, []) (w', ps') →
  mShares (wMedia w') !! i = Some h → spared w' (shEventID h) →
  sharerepo.ResolveShare i (wMedia w') = inr (r, wMedia w') → sharerepo.rsState r = ShareStateActive →
  sharerepo.rsKey r ∈ wObjects w'.
Proof.
  intros Hw Hr Hi Hs Hres Hact. destruct (pool_held _ _ Hr Hw (Forall_nil_2 _)) as [[Hm _ _ Hb] _]. cbn in *.
  destruct (share_leads _ _ _ Hm Hi) as (n & a & Hl & He & _).
  rewrite (ResolveShare_leads _ _ _ _ _ Hi Hl) in Hres. destruct (n <=? _)%nat; [|done].
  injection Hres as <-. cbn in Hact |- *. destruct Hl as (id & _ & Ha).
  eapply Hb; [exact Ha| |by rewrite He]. by destruct (arObjectReclaimedAt a).
Qed.
End pool.
End bytes.
