(* ===== verification/Recovering.v ===== *)
(** A replacement run of the event workflow gets the state of its event from the tables:
    the projection of a snapshot (Persist.v) is what the workflow accepts (Pool.v), lists
    exactly the live clips, and names the live clip of every accepted variant. *)
From S2P Require Import Prelude GoStrings Fixture Event Vision Video Selection Jsonb Discovery Store Search Wire Flow Pipeline Pool Candidates Lineage Media Gallery Placement Reselect Persist MediaLaws Placing Restoring.
From Stdlib Require Import SpecFloat.
#[local] Open Scope string_scope.
#[local] Open Scope list_scope.
#[local] Open Scope Z_scope.
Import discoverycontract jsonb video selection media gallery placement reselect wire persist medialaws placing restoring.

Module recovering.

(** ** Bytes as text *)

Lemma hex_byte b :
  fromHexChar (hex_nibble (byte_value b / 16)) = Some (byte_value b / 16) ∧
  fromHexChar (hex_nibble (byte_value b mod 16)) = Some (byte_value b mod 16) ∧
  byte_of (16 * (byte_value b / 16) + byte_value b mod 16) = b.
Proof. destruct b; vm_compute; by split_and!. Qed.

(** Hexadecimal text is read back. *)
Lemma Decode_Encode bytes : DecodeString (EncodeToString bytes) = Some bytes.
Proof.
  induction bytes as [|b bytes IH]; [done|]. cbn [EncodeToString DecodeString].
  change (Z.of_N (Byte.to_N b)) with (byte_value b).
  destruct (hex_byte b) as (-> & -> & E). rewrite IH. by rewrite E.
Qed.

Lemma Encode_inj x y : EncodeToString x = EncodeToString y → x = y.
Proof. intros E. apply (inj Some). by rewrite <-!Decode_Encode, E. Qed.

(** ** Lineages *)

Section lineage.
Context (nodes : gmap UUID Asset) (next : UUID → option (option UUID)).
Context (nodes_next : ∀ x a, nodes !! x = Some a → aID a = Some x ∧ next x = Some (aSupersededBy a)).
Context (nodes_closed : ∀ x a y, nodes !! x = Some a → aSupersededBy a = Some y → is_Some (nodes !! y)).

(** Every asset passed leads to the root in more steps than are left. *)
Definition behind (n : nat) (visited : gset UUID) : Prop := ∀ y, y ∈ visited →
  is_Some (nodes !! y) ∧ ∃ m q, lineage.rootOf next y m q ∧ (n < m)%nat.

Lemma lineageRoot_root x n r a fuel visited :
  lineage.rootOf next x n r → nodes !! x = Some a → behind n visited →
  (size nodes < fuel + size visited)%nat →
  ∃ b, lineageRoot nodes fuel visited a = inr b ∧ nodes !! r = Some b.
Proof.
  intros Hr. revert a fuel visited. induction Hr as [x Hx|x y n r Hx Hr IH]; intros a fuel visited Ha Hb Hf;
    destruct (nodes_next _ _ Ha) as [Hid Hn]; rewrite Hx in Hn; injection Hn as Hn.
  - exists a. split; [|done]. destruct fuel; cbn [lineageRoot]; by rewrite <-Hn.
  - assert (visited ⊆ dom nodes) as Hsub by (intros z Hz; apply elem_of_dom; by apply Hb).
    assert (x ∉ visited) as Hxv.
    { intros (_ & m & q & Hm & Hlt)%Hb. assert (lineage.rootOf next x (S n) r) as Hx' by (by econstructor).
      destruct (lineage.rootOf_fun _ _ _ _ Hm _ _ Hx') as [? _]. lia. }
    assert (size ({[x]} ∪ visited) = S (size visited)) as Hsz by (rewrite size_union, size_singleton; [done|set_solver]).
    assert (size ({[x]} ∪ visited) ≤ size nodes)%nat as Hle.
    { rewrite <-size_dom. apply subseteq_size. apply union_subseteq. split; [|done].
      apply singleton_subseteq_l, elem_of_dom. by eexists. }
    destruct fuel as [|fuel]; [lia|]. cbn [lineageRoot]. rewrite <-Hn, Hid, bool_decide_false by done.
    destruct (nodes_closed _ _ _ Ha (eq_sym Hn)) as [c Hc]. rewrite Hc.
    apply IH; [done| |lia]. intros z [->%elem_of_singleton|Hz]%elem_of_union.
    + split; [by eexists|]. exists (S n), r. split; [by econstructor|lia].
    + destruct (Hb z Hz) as (Hs & m & q & Hm & Hlt). split; [done|]. exists m, q. split; [done|lia].
Qed.

Lemma exactAliases_spec selected assets :
  (∀ a, a ∈ assets → ∃ x n r, nodes !! x = Some a ∧ lineage.rootOf next x n r) →
  ∃ aliases, exactAliases nodes selected assets = inr aliases ∧
    ∀ al, al ∈ aliases ↔ ∃ x a n r b, a ∈ assets ∧ nodes !! x = Some a ∧ lineage.rootOf next x n r ∧
      nodes !! r = Some b ∧ Some r ∈ selected ∧ al = exactAlias a b.
Proof.
  induction assets as [|a assets IH]; intros Ha; cbn [exactAliases].
  { exists []. split; [done|]. intros al. split; [by intros ?%elem_of_nil|].
    by intros (x & a & n & r & b & Hin%elem_of_nil & _). }
  destruct (Ha a ltac:(by left)) as (x & n & r & Hx & Hr).
  destruct (lineageRoot_root _ _ _ _ (S (size nodes)) ∅ Hr Hx) as (b & -> & Hb); [by intros y ?%elem_of_empty|lia|].
  destruct IH as (aliases & -> & Hal); [intros c Hc; apply Ha; by right|].
  eexists. split; [done|]. destruct (nodes_next _ _ Hx) as [Hid _], (nodes_next _ _ Hb) as [Hidb _]. rewrite Hidb.
  intros al. transitivity ((Some r ∈ selected ∧ al = exactAlias a b) ∨ al ∈ aliases).
  { case_bool_decide as Hs; [rewrite elem_of_cons|]; naive_solver. }
  rewrite Hal. split.
  - intros [[Hs ->]|(x' & a' & n' & r' & b' & Hin & Hrest)].
    + exists x, a, n, r, b. split_and!; [by left|done..].
    + exists x', a', n', r', b'. split; [by right|done].
  - intros (x' & a' & n' & r' & b' & [->|Hin]%elem_of_cons & Hx' & Hr' & Hb' & Hs & ->).
    + left. assert (x' = x) as -> by (destruct (nodes_next _ _ Hx') as [? _]; congruence).
      destruct (lineage.rootOf_fun _ _ _ _ Hr _ _ Hr') as [_ ->]. split; [done|]. congruence.
    + right. exists x', a', n', r', b'. by split_and!.
Qed.
End lineage.

(** ** The snapshot *)

Section snapshot.
Context `{Env, Digests}.
Implicit Types (s : Media) (ev : UUID).

Lemma in_assetsByID ev s r :
  r ∈ reselect.assetsByID ev s ↔ mAssets s !! r.1 = Some r.2 ∧ arEventID r.2 = ev.
Proof.
  unfold reselect.assetsByID. rewrite pg.elem_of_orderBy, list_elem_of_filter. destruct r as [id a].
  rewrite elem_of_map_to_list. naive_solver.
Qed.

Lemma NoDup_assetsByID ev s : NoDup (reselect.assetsByID ev s).*1.
Proof.
  unfold reselect.assetsByID, pg.orderBy. rewrite sort_by_perm.
  eapply sublist_NoDup; [apply (NoDup_fst_map_to_list (mAssets s))|]. apply fmap_sublist, sublist_filter.
Qed.

(** The assets of a snapshot by their identifiers. *)
Lemma persist_assetsByID_spec (rows : list (UUID * AssetRow)) :
  NoDup rows.*1 → ∀ id a, persist.assetsByID ((λ r, scanAsset r.1 r.2) <$> rows) !! id = Some a ↔
    ∃ row, (id, row) ∈ rows ∧ a = scanAsset id row.
Proof.
  intros Hnd id a. unfold persist.assetsByID.
  assert (∀ m : gmap UUID Asset, (∀ i, i ∈ rows.*1 → m !! i = None) →
    foldl (λ m a, match aID a with Some id => <[id := a]> m | None => m end) m
      ((λ r, scanAsset r.1 r.2) <$> rows) !! id = Some a ↔
    m !! id = Some a ∨ ∃ row, (id, row) ∈ rows ∧ a = scanAsset id row) as Hgen.
  2: { rewrite Hgen by done. rewrite lookup_empty. naive_solver. }
  induction rows as [|[i row] rows IH]; intros m Hm; cbn.
  { split; [by left|]. intros [?|(row & Hin%elem_of_nil & _)]; done. }
  cbn in Hnd. apply NoDup_cons in Hnd as [Hni Hnd]. rewrite IH; [|done|].
  - setoid_rewrite elem_of_cons. split.
    + intros [[[<- <-]|[Hne Hl]]%lookup_insert_Some|(row' & Hin & ->)]; [right; by eauto|by left|right; by eauto].
    + intros [Hl|(row' & [[= -> ->]|Hin] & ->)].
      * left. rewrite lookup_insert_ne; [done|]. intros ->. rewrite Hm in Hl; [done|by left].
      * left. apply lookup_insert_eq.
      * right. by eauto.
  - intros j Hj. rewrite lookup_insert_ne; [apply Hm; by right|]. intros ->. done.
Qed.

(** A live clip of an event: a root whose bytes are there, with its active share. *)
Definition liveClip s ev id (a : AssetRow) i (h : ShareRow) : Prop :=
  mAssets s !! id = Some a ∧ arEventID a = ev ∧ arSupersededBy a = None ∧ arObjectReclaimedAt a = None ∧
  mShares s !! i = Some h ∧ shAssetID h = id ∧ shState h = ShareStateActive.

(** What the workflow gets to know of a live clip. *)
Definition asRestored id (a : AssetRow) (h : ShareRow) : RestoredEventAsset :=
  restoredAsset (scanAsset id a) (shTimestampVerified h).

Lemma liveNode_spec s ev id a sh x : media_ok s → mAssets s !! id = Some a → arEventID a = ev →
  liveNode (selectionNode ev s (id, a)) = Some (sh, x) ↔
  x = scanAsset id a ∧ ∃ i h, liveClip s ev id a i h ∧ sh = scanShare i h.
Proof.
  intros Hok Ha He. unfold liveNode, selectionNode. cbn.
  destruct (shareFor ev id s) as [[i h]|] eqn:Es; cbn.
  - apply shareFor_Some in Es as (Hi & Hhe & Hha).
    destruct (is_nil (arSupersededBy a)) eqn:E1, (is_nil (arObjectReclaimedAt a)) eqn:E2,
      (shState h =? ShareStateActive)%string eqn:E3; cbn; split.
    all: try (intros [= <- <-]; split; [done|]; exists i, h; split; [|done]; split_and!; try done;
      first [by apply is_nil_true|by apply String.eqb_eq]).
    all: try done.
    all: intros (-> & i' & h' & (_ & _ & L1 & L2 & L3 & L4 & L5) & ->).
    all: try (rewrite L1 in E1; done); try (rewrite L2 in E2; done).
    all: assert (i' = i) as -> by (eapply (mo_one _ Hok); [done..|congruence]).
    all: assert (h' = h) as -> by congruence; try done.
    by rewrite L5 in E3.
  - split; [done|]. intros (-> & i & h & (_ & _ & _ & _ & L3 & L4 & _) & _). exfalso.
    destruct (mo_share _ Hok _ _ L3) as (a' & Ha' & Ee & _). rewrite L4, Ha in Ha'. injection Ha' as <-.
    eapply shareFor_None; [done..|congruence|done].
Qed.

Lemma snapshot_assets ev s (rows : list (UUID * AssetRow)) :
  omap snAsset (selectionNode ev s <$> rows) = (λ r, scanAsset r.1 r.2) <$> rows.
Proof. induction rows as [|r rows IH]; [done|]. cbn. by rewrite IH. Qed.

(** The live clips in the order of their evidence. *)
Definition liveNodes ev s : list (Share * Asset) :=
  sort_by sharerepo.rankedBefore (omap liveNode (selectionNode ev s <$> reselect.assetsByID ev s)).

Lemma in_liveNodes ev s sh x : media_ok s → (sh, x) ∈ liveNodes ev s ↔
  ∃ id a i h, liveClip s ev id a i h ∧ x = scanAsset id a ∧ sh = scanShare i h.
Proof.
  intros Hok. unfold liveNodes. rewrite elem_of_sort_by, list_elem_of_omap. split.
  - intros (n & ([id a] & -> & [Ha He]%in_assetsByID)%list_elem_of_fmap & Hl). cbn in *.
    apply (liveNode_spec s ev) in Hl as (-> & i & h & Hl & ->); [|done..]. by exists id, a, i, h.
  - intros (id & a & i & h & Hl & -> & ->). pose proof Hl as (Ha & He & _).
    exists (selectionNode ev s (id, a)). split.
    + apply list_elem_of_fmap. exists (id, a). split; [done|]. by apply in_assetsByID.
    + apply (liveNode_spec s ev); [done..|]. split; [done|]. by exists i, h.
Qed.

Lemma liveNode_id n sh x id : liveNode n = Some (sh, x) → (snAsset n ≫= aID) = id → aID x = id.
Proof.
  unfold liveNode. destruct (snAsset n) as [a|], (snShare n); try done. destruct (_ && _); [|done].
  by intros [= <- <-] <-.
Qed.

Lemma NoDup_liveNodes ev s : NoDup ((λ l, aID l.2) <$> liveNodes ev s).
Proof.
  unfold liveNodes. rewrite sort_by_perm. pose proof (NoDup_assetsByID ev s) as Hnd.
  induction (reselect.assetsByID ev s) as [|[id a] rows IH]; [constructor|]. cbn in Hnd.
  apply NoDup_cons in Hnd as [Hni Hnd]. cbn [fmap list_fmap omap list_omap].
  destruct (liveNode (selectionNode ev s (id, a))) as [[sh x]|] eqn:El; [|by apply IH]. cbn. constructor; [|by apply IH].
  rewrite (liveNode_id _ _ _ _ El eq_refl). cbn.
  intros ([sh' x'] & Ex & (n & ([id' a'] & -> & Hin)%list_elem_of_fmap & El')%list_elem_of_omap)%list_elem_of_fmap.
  cbn in Ex. rewrite (liveNode_id _ _ _ _ El' eq_refl) in Ex. cbn in Ex. injection Ex as ->.
  apply Hni. apply list_elem_of_fmap. by exists (id', a').
Qed.

Lemma asset_check_inv id a : video_assets_check id a = true → length (arMD5 a) = 16%nat ∧ 1 ≤ arPopularity a.
Proof.
  unfold video_assets_check, video_assets_media_shape. intros Hc.
  repeat match goal with Hx : _ && _ = true |- _ => apply andb_true_iff in Hx as [??] end.
  split; [by apply Nat.eqb_eq|by apply Z.leb_le].
Qed.

Lemma md5_text id a s : media_ok s → mAssets s !! id = Some a → EncodeToString (arMD5 a) ≠ "".
Proof.
  intros Hok Ha. destruct (asset_check_inv _ _ (mo_check _ Hok _ _ Ha)) as [Hl _].
  by destruct (arMD5 a).
Qed.

(** An accepted variant and the live clip it leads to. *)
Definition leadsToLive s ev (al : RestoredExactAlias) : Prop := ∃ id a n r b i h,
  mAssets s !! id = Some a ∧ arEventID a = ev ∧ lineage.rootOf (successor s) id n r ∧
  liveClip s ev r b i h ∧ al = exactAlias (scanAsset id a) (scanAsset r b).

Lemma loaded_inv ev s sn s' : loadSelectionTx ev s = inr (sn, s') → ∃ e sources,
  pg.dbEvents (mDB s) !! ev = Some e ∧ sn = mkSelectionSnapshot (Some ev) (event.eFixtureID e) (event.eRemoved e)
    (selectionNode ev s <$> reselect.assetsByID ev s) sources.
Proof.
  unfold loadSelectionTx. intros Hl. mtx_inv.
  destruct (pg.dbEvents (mDB s) !! ev) as [e|] eqn:He; mtx_inv. by exists e, (selectionSources ev s).
Qed.

Lemma projectSelection_run ev s sn s' : media_ok s → loadSelectionTx ev s = inr (sn, s') → spRemoved sn = false →
  ∃ aliases, projectSelection sn = inr (mkLoadEventAssetsOutput
      ((λ l, restoredAsset l.2 (sTimestampVerified l.1)) <$> liveNodes ev s) aliases) ∧
    ∀ al, al ∈ aliases ↔ leadsToLive s ev al.
Proof.
  intros Hok (e & sources & He & ->)%loaded_inv Hr. cbn in Hr.
  unfold projectSelection. cbn [spRemoved spNodes]. rewrite Hr.
  assert (forallb (snapshotAsset (mkSelectionSnapshot (Some ev) (event.eFixtureID e) false
    (selectionNode ev s <$> reselect.assetsByID ev s) sources)) (selectionNode ev s <$> reselect.assetsByID ev s) = true) as ->.
  { apply forallb_forall. intros n Hn. apply list_elem_of_In, list_elem_of_fmap in Hn as ([id a] & -> & [Ha Hev]%in_assetsByID).
    cbn in *. destruct (mo_event _ Hok _ _ Ha) as (e' & He' & Hf). rewrite Hev, He in He'. injection He' as <-.
    unfold snapshotAsset. cbn. rewrite Hev, bool_decide_true by done. cbn. by apply Z.eqb_eq. }
  cbn [negb]. rewrite snapshot_assets.
  pose proof (persist_assetsByID_spec _ (NoDup_assetsByID ev s)) as Hnodes.
  set (nodes := persist.assetsByID _) in *.
  assert (∀ x a, nodes !! x = Some a ↔ ∃ row, mAssets s !! x = Some row ∧ arEventID row = ev ∧ a = scanAsset x row) as Hn.
  { intros x a. rewrite Hnodes. split; [intros (row & [? ?]%in_assetsByID & ->)|intros (row & ? & ? & ->)];
      exists row; [done|split; [by apply in_assetsByID|done]]. }
  destruct (exactAliases_spec nodes (successor s)) with (selected := list_to_set (C:=gset (option UUID))
      ((λ l, aID l.2) <$> liveNodes ev s)) (assets := (λ r, scanAsset r.1 r.2) <$> reselect.assetsByID ev s)
    as (aliases & Hal & Hin).
  - intros x a (row & Hx & _ & ->)%Hn. split; [done|]. unfold successor. by rewrite Hx.
  - intros x a y (row & Hx & Hev & ->)%Hn Hy. destruct (mo_successor _ Hok _ _ _ Hx Hy) as (b & Hb & Eb).
    exists (scanAsset y b). apply Hn. exists b. split_and!; [done|congruence|done].
  - intros a ([x row] & -> & [Hx Hev]%in_assetsByID)%list_elem_of_fmap. cbn in *.
    destruct (mo_rooted _ Hok x) as (n & r & Hr'). { unfold successor. rewrite Hx. by eexists. }
    exists x, n, r. split; [apply Hn; by exists row|done].
  - fold (liveNodes ev s). rewrite Hal. eexists. split; [done|]. intros al. rewrite Hin. split.
    + intros (x & a & n & r & b & _ & (row & Hx & Hev & ->)%Hn & Hroot & (rrow & Hrr & _ & ->)%Hn & Hs & ->).
      apply elem_of_list_to_set, list_elem_of_fmap in Hs as ([sh y] & Er & (id & a & i & h & Hl & -> & _)%in_liveNodes); [|done].
      cbn in Er. injection Er as <-. pose proof Hl as (Ha & _). rewrite Hrr in Ha. injection Ha as <-.
      by exists x, row, n, r, rrow, i, h.
    + intros (x & row & n & r & rrow & i & h & Hx & Hev & Hroot & Hl & ->). pose proof Hl as (Hrr & Hre & _).
      exists x, (scanAsset x row), n, r, (scanAsset r rrow). split_and!.
      * apply list_elem_of_fmap. exists (x, row). split; [done|]. by apply in_assetsByID.
      * apply Hn. by exists row.
      * done.
      * apply Hn. by exists rrow.
      * apply elem_of_list_to_set, list_elem_of_fmap. exists (scanShare i h, scanAsset r rrow). split; [done|].
        apply in_liveNodes; [done|]. by exists r, rrow, i, h.
      * done.
Qed.

(** What is valid is adopted. *)
Lemma valid_adopted (l : list RestoredEventAsset) aliases : pool.validSelection l aliases →
  ∀ restored skipped incoming p, ∃ p', pipeline.replaceSelection
    (mkPlacementSelectionOutput (mkLoadEventAssetsOutput l aliases) restored skipped) incoming p = inr p'.
Proof.
  intros [Hv Hids Hmd5 Hal] restored skipped incoming p. unfold pipeline.replaceSelection. cbn.
  pose proof (pool.indexSelection_spec l ∅ ∅) as Hi. destruct (pipeline.indexSelection l ∅ ∅) as [err|m].
  { exfalso. by apply Hi. }
  destruct Hi as (_ & _ & _ & _ & Hm). destruct (existsb _ _) eqn:He; [|by eexists]. exfalso.
  apply existsb_exists in He as (al & Hin & Hx). apply list_elem_of_In in Hin.
  destruct (proj1 (Forall_forall _ _) Hal _ Hin) as [Hid Hne].
  apply orb_true_iff in Hx as [Hx%is_nil_true|Hx%String.eqb_eq]; [|done].
  apply list_elem_of_fmap in Hid as (a & Ea & Ha). assert (m !! rxAssetID al = Some a) as E by (apply Hm; by right).
  congruence.
Qed.

Lemma projection_valid ev s aliases : media_ok s → (∀ al, al ∈ aliases ↔ leadsToLive s ev al) →
  pool.validSelection ((λ l, restoredAsset l.2 (sTimestampVerified l.1)) <$> liveNodes ev s) aliases.
Proof.
  intros Hok Hal. split.
  - apply Forall_fmap, Forall_forall. intros [sh x] (id & a & i & h & (Ha & _) & -> & ->)%in_liveNodes; [|done].
    split_and!; cbn; [by eexists|by eapply md5_text|]. by destruct (asset_check_inv _ _ (mo_check _ Hok _ _ Ha)).
  - rewrite <-list_fmap_compose. apply NoDup_liveNodes.
  - rewrite <-list_fmap_compose. apply NoDup_fmap_2_strong; [|eapply NoDup_fmap_1, NoDup_liveNodes].
    intros [sh1 x1] [sh2 x2] (i1 & a1 & j1 & h1 & L1 & -> & ->)%in_liveNodes (i2 & a2 & j2 & h2 & L2 & -> & ->)%in_liveNodes E; [|done..].
    cbn in E. apply Encode_inj in E. destruct L1 as (A1 & E1 & _ & _ & S1 & T1 & _), L2 as (A2 & E2 & _ & _ & S2 & T2 & _).
    assert (i1 = i2) as -> by (eapply (mo_md5 _ Hok); [done..|congruence|done]).
    assert (j1 = j2) as -> by (eapply (mo_one _ Hok); [done..|congruence]). congruence.
  - apply Forall_forall. intros al (id & a & n & r & b & i & h & Ha & _ & _ & Hl & ->)%Hal.
    split; [|cbn; by eapply md5_text]. cbn. rewrite <-list_fmap_compose. apply list_elem_of_fmap.
    exists (scanShare i h, scanAsset r b). split; [done|]. apply in_liveNodes; [done|]. by exists r, b, i, h.
Qed.

(** C26: A replacement run finds its event as the tables have it: unless the event is
    removed, the projection of a snapshot succeeds, its clips are the live clips of the event and nothing else, its
    aliases name the live clip of every accepted variant that has one, and the workflow
    adopts it whatever its pool was. *)
Theorem projection_restores ev s sn s' :
  media_ok s → loadSelectionTx ev s = inr (sn, s') → spRemoved sn = false →
  ∃ out, projectSelection sn = inr out ∧ pool.validSelection (laAssets out) (laExactAliases out) ∧
    (∀ x, x ∈ laAssets out ↔ ∃ id a i h, liveClip s ev id a i h ∧ x = asRestored id a h) ∧
    (∀ al, al ∈ laExactAliases out ↔ leadsToLive s ev al) ∧
    ∀ restored skipped incoming p, ∃ p',
      pipeline.replaceSelection (mkPlacementSelectionOutput out restored skipped) incoming p = inr p'.
Proof.
  intros Hok Hl Hr. destruct (projectSelection_run _ _ _ _ Hok Hl Hr) as (aliases & Hp & Hal).
  eexists. split; [exact Hp|]. pose proof (projection_valid _ _ _ Hok Hal) as Hv. split_and!; [done| |done|].
  - intros x. cbn. rewrite list_elem_of_fmap. split.
    + intros ([sh y] & -> & (id & a & i & h & Hx & -> & ->)%in_liveNodes); [|done]. by exists id, a, i, h.
    + intros (id & a & i & h & Hx & ->). exists (scanShare i h, scanAsset id a). split; [done|].
      apply in_liveNodes; [done|]. by exists id, a, i, h.
  - by apply valid_adopted.
Qed.
End snapshot.
End recovering.
