(* ===== verification/Votes.v ===== *)
(** Every vote counts: a placement that selects gives each live clip of its event as many
    votes as accepted candidates support it; one that does not keeps the popularity of
    the live clips equal to the number of candidates credited to them. *)
From S2P Require Import Prelude GoStrings Fixture Event Vision Video Selection Jsonb Discovery Store Preserve Candidates Lineage Media Gallery Placement Reselect MediaLaws Placing Restoring Links.
From Stdlib Require Import SpecFloat.
#[local] Open Scope string_scope.
#[local] Open Scope list_scope.
#[local] Open Scope Z_scope.
Import discoverycontract jsonb video selection media gallery placement reselect medialaws placing restoring links.

Module votes.

(** ** Counting *)

Section sums.
Context `{Countable K} {V : Type}.
Implicit Types (f g : V → nat) (m : gmap K V).

Lemma msum_ext f g m : (∀ k v, m !! k = Some v → f v = g v) → msum f m = msum g m.
Proof.
  induction m as [|k v m Hk IH] using map_ind; intros Hfg; [done|].
  rewrite !msum_insert by done. rewrite (Hfg k v) by apply lookup_insert_eq.
  f_equal. apply IH. intros j x Hj. apply (Hfg j). rewrite lookup_insert_ne; [done|congruence].
Qed.

Lemma msum_add f g m : msum (λ v, f v + g v)%nat m = (msum f m + msum g m)%nat.
Proof. induction m as [|k v m Hk IH] using map_ind; [done|]. rewrite !msum_insert by done. lia. Qed.

Lemma msum_zero f m : (∀ k v, m !! k = Some v → f v = 0%nat) → msum f m = 0%nat.
Proof.
  intros Hz. rewrite (msum_ext f (λ _, 0%nat) m Hz). induction m as [|k v m Hk IH] using map_ind; [done|].
  rewrite msum_insert by done. apply IH. intros j x Hj. apply (Hz j). rewrite lookup_insert_ne; [done|congruence].
Qed.

Lemma msum_fmap f (h : V → V) m : msum f (h <$> m) = msum (λ v, f (h v)) m.
Proof.
  induction m as [|k v m Hk IH] using map_ind; [by rewrite fmap_empty|].
  rewrite fmap_insert, !msum_insert; [congruence|done|]. by rewrite lookup_fmap, Hk.
Qed.
End sums.

Abbreviation Candidates := (gmap (UUID * string) pg.Candidate).

Definition creditedIn (G : list UUID) (c : pg.Candidate) : bool :=
  match pg.cdCreditedAssetID c with Some x => bool_decide (x ∈ G) | None => false end.

(** The candidates credited to the assets of a list. *)
Definition votesFor (G : list UUID) (m : Candidates) : Z := Z.of_nat (msum (λ c, if creditedIn G c then 1%nat else 0%nat) m).
Definition tally (s : Media) (id : UUID) : Z := votesFor [id] (pg.dbCandidates (mDB s)).

Definition sumZ (l : list Z) : Z := foldr Z.add 0 l.

Lemma votesFor_sum G m : NoDup G → votesFor G m = sumZ ((λ x, votesFor [x] m) <$> G).
Proof.
  induction 1 as [|x G Hx _ IH]; cbn [fmap list_fmap sumZ foldr].
  - unfold votesFor. rewrite msum_zero; [done|]. intros k c _. unfold creditedIn.
    destruct (pg.cdCreditedAssetID c); [|done]. by rewrite bool_decide_eq_false_2 by apply not_elem_of_nil.
  - unfold sumZ in IH. rewrite <-IH. unfold votesFor. rewrite <-Nat2Z.inj_add, <-msum_add. f_equal. apply msum_ext.
    intros k c _. unfold creditedIn. destruct (pg.cdCreditedAssetID c) as [y|]; [|done].
    destruct (decide (y = x)) as [->|Hne].
    + rewrite !bool_decide_eq_true_2 by left. by rewrite bool_decide_eq_false_2.
    + rewrite (bool_decide_eq_false_2 (y ∈ [x])) by (rewrite list_elem_of_singleton; done). cbn.
      destruct (decide (y ∈ G)) as [Hy|Hy].
      * rewrite !bool_decide_eq_true_2; [done|done|by right].
      * rewrite !bool_decide_eq_false_2; [done|done|]. by intros [|]%elem_of_cons.
Qed.

Lemma votesFor_insert G m k c :
  votesFor G (<[k := c]> m) = votesFor G m + (if creditedIn G c then 1 else 0) -
    match m !! k with Some c0 => if creditedIn G c0 then 1 else 0 | None => 0 end.
Proof.
  unfold votesFor. destruct (m !! k) as [c0|] eqn:Hk.
  - rewrite msum_replace, (msum_delete _ m k c0 Hk). destruct (creditedIn G c), (creditedIn G c0); lia.
  - rewrite msum_insert by done. destruct (creditedIn G c); lia.
Qed.

Lemma votesFor_moved G l w m `{Env} :
  (l ∈ G ↔ w ∈ G) → votesFor G (movedCredit l w <$> m) = votesFor G m.
Proof.
  intros Hg. unfold votesFor. rewrite msum_fmap. f_equal. apply msum_ext. intros k c _.
  unfold creditedIn. rewrite (proj2 (movedCredit_refs l w c)). case_decide as Hd; [|done].
  rewrite Hd. assert (bool_decide (w ∈ G) = bool_decide (l ∈ G)) as -> by (apply bool_decide_ext; tauto). done.
Qed.

(** ** Live popularity *)

Definition livePop (s : Media) (id : UUID) : Z :=
  match mAssets s !! id with
  | Some a => if is_nil (arSupersededBy a) then arPopularity a else 0
  | None => 0
  end.

(** The popularity of every live clip of an event is the number of its votes. *)
Definition tallied (ev : UUID) (s : Media) : Prop := ∀ id a,
  mAssets s !! id = Some a → arEventID a = ev → arSupersededBy a = None → arPopularity a = tally s id.

(** An accepted candidate of an event is credited to an asset. *)
Definition attributed (ev : UUID) (s : Media) : Prop := ∀ k c, pg.dbCandidates (mDB s) !! k = Some c →
  k.1 = ev → Credited (pg.cdOutcomeClass c) = true → pg.cdCreditedAssetID c ≠ None.

Lemma tally_dead s id : media_ok s →
  (∀ a, mAssets s !! id = Some a → arSupersededBy a ≠ None) → tally s id = 0.
Proof.
  intros Hok Hd. unfold tally, votesFor. rewrite msum_zero; [done|]. intros k c Hc. unfold creditedIn.
  destruct (pg.cdCreditedAssetID c) as [x|] eqn:Ex; [|done]. case_bool_decide as Hx; [|done].
  apply list_elem_of_singleton in Hx as ->. destruct (mo_credited _ Hok _ _ _ Hc Ex) as (a & Ha & _ & Hr).
  by destruct (Hd a Ha).
Qed.

(** How far the popularity of a clip is from the number of its votes. *)
Definition gap (s : Media) (id : UUID) : Z := livePop s id - tally s id.

Lemma tallied_gap ev s id : media_ok s → tallied ev s →
  (∀ a, mAssets s !! id = Some a → arEventID a = ev) → gap s id = 0.
Proof.
  intros Hok Ht He. unfold gap, livePop. destruct (mAssets s !! id) as [a|] eqn:Ha.
  - destruct (arSupersededBy a) as [k|] eqn:Hk; cbn; [|rewrite (Ht id a); auto with lia].
    rewrite tally_dead; [done|done|]. congruence.
  - rewrite tally_dead; [done|done|]. congruence.
Qed.

Lemma gap_tallied ev s : (∀ id a, mAssets s !! id = Some a → arEventID a = ev → gap s id = 0) → tallied ev s.
Proof.
  intros Hg id a Ha He Hr. specialize (Hg id a Ha He). unfold gap, livePop in Hg. rewrite Ha, Hr in Hg. cbn in Hg. lia.
Qed.

(** The clips of a table are still there, of the same events. *)
Definition eventsKept (s s' : Media) : Prop := ∀ id a, mAssets s !! id = Some a →
  ∃ a', mAssets s' !! id = Some a' ∧ arEventID a' = arEventID a.

#[global] Instance eventsKept_preorder : PreOrder eventsKept.
Proof.
  split; [by intros s id a Ha; exists a|]. intros a b c Hab Hbc id x Hx.
  destruct (Hab _ _ Hx) as (y & Hy & E). destruct (Hbc _ _ Hy) as (z & Hz & E'). exists z. split; [done|congruence].
Qed.

Lemma eventsKept_same s s' : mAssets s' = mAssets s → eventsKept s s'.
Proof. intros E id a Ha. exists a. by rewrite E. Qed.

Lemma eventsKept_set s id a a' : mAssets s !! id = Some a → arEventID a' = arEventID a →
  eventsKept s (setAsset id a' s) ∧ eventsKept (setAsset id a' s) s.
Proof.
  intros Ha He. split; intros x b; rewrite mAssets_setAsset; destruct (decide (x = id)) as [->|Hne];
    rewrite ?lookup_insert_eq, ?lookup_insert_ne by done; intros Hb; eauto; naive_solver.
Qed.

Lemma livePop_same s s' id : mAssets s' = mAssets s → livePop s' id = livePop s id.
Proof. unfold livePop. by intros ->. Qed.

Lemma tally_same s s' id : mDB s' = mDB s → tally s' id = tally s id.
Proof. unfold tally. by intros ->. Qed.

Lemma livePop_set s id a x : livePop (setAsset id a s) x =
  if decide (x = id) then (if is_nil (arSupersededBy a) then arPopularity a else 0) else livePop s x.
Proof.
  unfold livePop. rewrite mAssets_setAsset. case_decide as Hx; [subst; by rewrite lookup_insert_eq|].
  by rewrite lookup_insert_ne.
Qed.

Section placement.
Context `{Env}.
Implicit Types (s : Media) (p : ClipPlacement).

(** *** The inserted assets *)

Lemma insertAssetOf_pop a b s s' :
  insertAssetOf a 1 s = inr (b, s') →
  mDB s' = mDB s ∧
  (b = false ∧ s' = s ∨ b = true ∧ ∃ id, aID a = Some id ∧ mAssets s !! id = None ∧
    ∀ x, livePop s' x = livePop s x + (if decide (x = id ∧ aSupersededBy a = None) then 1 else 0)).
Proof.
  intros (id & ev & Hid & _ & [_ [(-> & -> & _)|(-> & -> & Hn & _)]]%insertAssetRow_inv)%insertAssetOf_inv.
  - split; [done|by left].
  - split; [done|]. right. split; [done|]. exists id. split_and!; [done..|]. intros x.
    rewrite livePop_set. cbn. destruct (decide (x = id)) as [->|Hne].
    + unfold livePop. rewrite Hn. destruct (aSupersededBy a); [by rewrite decide_False by (intros [_ ?]; done)|by rewrite decide_True].
    + rewrite decide_False by tauto. lia.
Qed.

(** *** The credits *)

Definition countable (ev w : UUID) (ls : list UUID) (s0 : Media) (n : Z) (s : Media) : Prop :=
  0 ≤ n ∧ attributed ev s ∧ mAssets s = mAssets s0 ∧
  votesFor (w :: ls) (pg.dbCandidates (mDB s)) = votesFor (w :: ls) (pg.dbCandidates (mDB s0)) + n ∧
  ∀ x, x ∉ w :: ls → tally s x = tally s0 x.

Lemma countVote_count p w ls s0 c n n' s s' :
  countable (plEventID p) w ls s0 n s → countVote p w ls n c s = inr (n', s') → countable (plEventID p) w ls s0 n' s'.
Proof.
  intros (Hn & Hat & Ha & Hg & Ho) Hv. unfold countVote in Hv. mtx_inv.
  match goal with Hx : creditPlacementCandidate _ _ _ _ _ = inr (?b, _) |- _ => rename b into added;
    apply creditPlacementCandidate_inv in Hx as (row & Hrow & (_ & -> & _)%setCandidate_inv & Hadd) end.
  set (k := (plEventID p, ceTweetURL (pcEvidence c))) in *.
  assert (creditedIn (w :: ls) row = true) as Hin.
  { unfold creditedIn. rewrite Hrow. apply bool_decide_eq_true_2. left. }
  assert (∀ x, x ∉ w :: ls → creditedIn [x] row = false) as Hout.
  { intros x [Hx _]%not_elem_of_cons. unfold creditedIn. rewrite Hrow. apply bool_decide_eq_false_2.
    rewrite list_elem_of_singleton. congruence. }
  assert ((if added then 1 else 0) = 1 - match pg.dbCandidates (mDB s) !! k with
      Some c0 => if creditedIn (w :: ls) c0 then 1 else 0 | None => 0 end ∧
    ∀ x, x ∉ w :: ls → match pg.dbCandidates (mDB s) !! k with
      Some c0 => creditedIn [x] c0 = false | None => True end) as [Hone Hold].
  { destruct (pg.dbCandidates (mDB s) !! k) as [c0|] eqn:Hk; [|by rewrite Hadd].
    unfold addsVote in Hadd. unfold creditedIn. destruct (pg.cdCreditedAssetID c0) as [prior|] eqn:Ep.
    - destruct (bool_decide (prior = w) || bool_decide (prior ∈ list_to_set ls)) eqn:Eb; [|done].
      injection Hadd as <-. assert (prior ∈ w :: ls) as Hp.
      { apply orb_true_iff in Eb as [Eb|Eb]; apply bool_decide_eq_true in Eb; [subst; left|right].
        by apply elem_of_list_to_set in Eb. }
      rewrite bool_decide_eq_true_2 by done. split; [done|]. intros x Hx. apply bool_decide_eq_false_2.
      rewrite list_elem_of_singleton. congruence.
    - injection Hadd as <-. split; [|done]. pose proof (Hat _ _ Hk eq_refl) as Hc.
      destruct (Credited (pg.cdOutcomeClass c0)); [by destruct (Hc eq_refl)|done]. }
  split_and!.
  - destruct added; lia.
  - intros k' c'. cbn. intros [[_ <-]|[_ Hk']]%lookup_insert_Some; [by rewrite Hrow|by eapply Hat].
  - done.
  - cbn. rewrite votesFor_insert, Hin, Hg. destruct added; lia.
  - intros x Hx. rewrite <-(Ho x Hx). unfold tally. cbn. rewrite votesFor_insert, (Hout x Hx).
    specialize (Hold x Hx). destruct (pg.dbCandidates (mDB s) !! k); [rewrite Hold|]; lia.
Qed.

Lemma countVotes_count p w ls cs s n s' :
  attributed (plEventID p) s → foldTx (countVote p w ls) 0 cs s = inr (n, s') → countable (plEventID p) w ls s n s'.
Proof.
  intros Hat Hf. eapply (foldTx_inv _ (λ _ n s', countable (plEventID p) w ls s n s')); [| |exact Hf].
  - intros. by eapply countVote_count.
  - split_and!; [done..|lia|done].
Qed.

(** *** The losers *)

Lemma attributed_moved ev l w s db :
  pg.dbCandidates db = movedCredit l w <$> pg.dbCandidates (mDB s) → attributed ev s → ∀ s', mDB s' = db → attributed ev s'.
Proof.
  intros E Hat s' Edb k c. rewrite Edb, E, lookup_fmap. destruct (pg.dbCandidates (mDB s) !! k) as [c0|] eqn:Hc; [|done].
  intros [= <-] Hk. rewrite (proj2 (movedCredit_refs l w c0)). case_decide as Hd; [done|]. intros Hcr.
  apply (Hat _ _ Hc Hk). revert Hcr. unfold movedCredit. by rewrite bool_decide_eq_false_2.
Qed.

Lemma livePop_retire l w la s x : mAssets s !! l = Some la → arSupersededBy la = None → l ≠ w →
  livePop (retire l w la s) x = if decide (x = l) then 0 else livePop s x.
Proof.
  intros Hl Hr Hne. unfold livePop. rewrite mAssets_retire. case_decide as Hx.
  - subst x. by rewrite lookup_insert_eq.
  - by rewrite lookup_insert_ne.
Qed.

(** One loser: its live votes go to the winner. *)
Lemma supersede_count ev w l G u s s' :
  media_ok s → Root w ev s → l ≠ w → w ∈ G → l ∈ G → attributed ev s →
  supersedePlacementLoser ev l w s = inr (u, s') →
  attributed ev s' ∧ eventsKept s s' ∧ votesFor G (pg.dbCandidates (mDB s')) = votesFor G (pg.dbCandidates (mDB s)) ∧
  (∃ la, mAssets s !! l = Some la ∧ arEventID la = ev) ∧
  (∀ x, x ≠ l → x ≠ w → tally s' x = tally s x) ∧
  livePop s' w = livePop s w + livePop s l ∧ livePop s' l = 0 ∧
  ∀ x, x ≠ l → x ≠ w → livePop s' x = livePop s x.
Proof.
  intros Hok (wa & Hw & Hwr & He) Hne Hwg Hlg Hat Hs.
  destruct (supersedePlacementLoser_inv _ _ _ _ _ _ _ Hok Hw Hwr He Hne Hs)
    as (la & Hl & Hle & [(Hk & ->)|(Hlr & wa' & Hwa & _ & _ & ->)]).
  - assert (livePop s l = 0) as E by (unfold livePop; by rewrite Hl, Hk).
    split_and!; [done..|by exists la|done|lia|done|done].
  - assert (mAssets (setAsset w wa' s) !! l = Some la) as Hl' by (tables; by rewrite lookup_insert_ne).
    split_and!.
    + eapply (attributed_moved ev l w s (moveCredits l w (mDB s))); done.
    + transitivity (setAsset w wa' s); [eapply eventsKept_set; [done|by subst wa']|].
      intros x b Hb. rewrite mAssets_retire. destruct (decide (x = l)) as [->|]; [|exists b; by rewrite lookup_insert_ne].
      rewrite lookup_insert_eq. rewrite Hl' in Hb. injection Hb as <-. by eexists.
    + rewrite candidates_retire. tables. apply votesFor_moved. tauto.
    + by exists la.
    + intros x Hxl Hxw. unfold tally. rewrite candidates_retire. tables. apply votesFor_moved.
      rewrite !list_elem_of_singleton. naive_solver.
    + rewrite livePop_retire, decide_False, livePop_set, decide_True by done. subst wa'. cbn. rewrite Hwr. cbn.
      unfold livePop. by rewrite Hw, Hl, Hwr, Hlr.
    + by rewrite livePop_retire, decide_True.
    + intros x Hxl Hxw. by rewrite livePop_retire, decide_False, livePop_set, decide_False.
Qed.

Lemma supersedeAll_count ev w ls G u s s' :
  media_ok s → Root w ev s → NoDup ls → (∀ l, l ∈ ls → l ≠ w) → w ∈ G → ls ⊆ G → attributed ev s →
  forEach ls (λ l, supersedePlacementLoser ev l w) s = inr (u, s') →
  attributed ev s' ∧ eventsKept s s' ∧ votesFor G (pg.dbCandidates (mDB s')) = votesFor G (pg.dbCandidates (mDB s)) ∧
  (∀ l, l ∈ ls → ∃ la, mAssets s' !! l = Some la ∧ arEventID la = ev) ∧
  (∀ x, x ∉ ls → x ≠ w → tally s' x = tally s x) ∧
  livePop s' w = livePop s w + sumZ (livePop s <$> ls) ∧ (∀ l, l ∈ ls → livePop s' l = 0) ∧
  ∀ x, x ∉ ls → x ≠ w → livePop s' x = livePop s x.
Proof.
  intros Hok Hr Hnd. revert s u Hok Hr. induction Hnd as [|l ls Hl Hnd IH]; intros s u Hok Hr Hw Hwg Hsub Hat Hf;
    cbn [forEach] in Hf; mtx_inv.
  { split_and!; [done..|intros l Hl; by apply elem_of_nil in Hl|done|cbn; lia|intros l Hl; by apply elem_of_nil in Hl|done]. }
  assert (l ≠ w) as Hlw by (apply Hw; left). assert (l ∈ G) as Hlg by (apply Hsub; left).
  match goal with Hx : supersedePlacementLoser _ _ _ _ = inr (_, ?m), Hy : forEach _ _ _ = _ |- _ =>
    rename Hx into Hone; rename Hy into Hrest; rename m into s1 end.
  destruct (supersede_count _ _ _ G _ _ _ Hok Hr Hlw Hwg Hlg Hat Hone) as (A1 & A0 & A2 & Al & A3 & A4 & A5 & A6).
  destruct (supersedePlacementLoser_ok _ _ _ _ _ _ Hok Hr Hlw Hone) as (Hok1 & Hr1 & _).
  assert (∀ x, x ∈ ls → x ≠ w) as Hw' by (intros y Hy'; apply Hw; by right).
  assert (ls ⊆ G) as Hsub' by (intros y Hy'; apply Hsub; by right).
  destruct (IH _ _ Hok1 Hr1 Hw' Hwg Hsub' A1 Hrest) as (B1 & B0 & B2 & Bl & B3 & B4 & B5 & B6).
  split_and!; [done|by etransitivity|congruence| | | | |].
  - intros y [->|Hy]%elem_of_cons; [|by apply Bl]. destruct Al as (la & Hla & <-).
    destruct (transitivity A0 B0 _ _ Hla) as (b & ? & ?). by exists b.
  - intros y [Hxl Hx]%not_elem_of_cons Hxw. by rewrite (B3 y Hx Hxw), (A3 y Hxl Hxw).
  - rewrite B4, A4. cbn [fmap list_fmap sumZ foldr].
    assert (livePop s1 <$> ls = livePop s <$> ls) as ->.
    { apply list_fmap_ext. intros i y Hi. apply list_elem_of_lookup_2 in Hi. apply A6; [congruence|apply Hw; by right]. }
    unfold sumZ. lia.
  - intros y [->|Hx]%elem_of_cons; [|by apply B5]. by rewrite (B6 l Hl Hlw).
  - intros y [Hxl Hx]%not_elem_of_cons Hxw. by rewrite (B6 y Hx Hxw), (A6 y Hxl Hxw).
Qed.

(** *** The transaction *)

Lemma sumZ_ext (f g : UUID → Z) l : (∀ x, x ∈ l → f x = g x) → sumZ (f <$> l) = sumZ (g <$> l).
Proof.
  intros Hfg. f_equal. apply list_fmap_ext. intros i x Hi. apply Hfg. by eapply list_elem_of_lookup_2.
Qed.

Lemma variant_hidden p a : validateClipPlacement p = None → plVariant p = Some a → aSupersededBy a ≠ None.
Proof.
  unfold validateClipPlacement. destruct (_ || _); [done|]. destruct (Bool.eqb _ _); [done|]. intros Hv Ha.
  rewrite Ha in Hv. destruct (plWinner p ≫= winnerError p); [done|]. cbn [orFirst mbind option_bind] in Hv.
  unfold variantError in Hv. destruct (_ || _) eqn:E; [done|]. destruct (assetError a); [done|].
  destruct (bool_decide (aSupersededBy a = plWinnerAssetID p)) eqn:Eb; [|discriminate Hv].
  apply bool_decide_eq_true in Eb as ->. intros Hn. rewrite Hn in E. discriminate E.
Qed.

Lemma losersOf_NoDup p w : NoDup (losersOf p w).
Proof. apply NoDup_remove_dups. Qed.

Lemma addVotes_pop w d u s s' a :
  mAssets s !! w = Some a → arSupersededBy a = None → 0 ≤ d → addVotes w d s = inr (u, s') →
  mDB s' = mDB s ∧ eventsKept s s' ∧
  ∀ x, livePop s' x = livePop s x + (if decide (x = w) then d else 0).
Proof.
  intros Ha Hr Hd [(-> & ?)|(_ & ->)]%(addVotes_inv _ _ _ _ _ _ Ha).
  - split; [done|]. split; [done|]. intros x. case_decide; lia.
  - split; [done|]. split; [by eapply eventsKept_set|]. intros x. rewrite livePop_set. case_decide as Hx; [|lia]. subst x. cbn.
    unfold livePop. by rewrite Ha, Hr.
Qed.

Lemma video_assets_popular id a : video_assets_check id a = true → arPopularity a ≠ 0.
Proof.
  unfold video_assets_check. intros Hc. repeat (apply andb_true_iff in Hc as [Hc ?]).
  match goal with Hx : (1 <=? arPopularity a) = true |- _ => apply Z.leb_le in Hx; lia end.
Qed.

(** Votes before the candidates are credited: a winner just created has one too many. *)
Lemma placed_before p out s s' (pd : placed p out s s') :
  media_ok s → validateClipPlacement p = None →
  let s4 := pd4 _ _ _ _ pd in let w := pdWinner _ _ _ _ pd in
  media_ok s4 ∧ Root w (plEventID p) s4 ∧ mDB s4 = mDB s ∧
  eventsKept s s4 ∧ ∀ x, livePop s4 x = livePop s x + (if decide (x = w) then (if pdCreated _ _ _ _ pd then 1 else 0) else 0).
Proof.
  intros Hok Hv. destruct pd as [w created wa n sh s1 s2 s3 s4 s5 H1 Hwant Ha Hr He Hvar H3 H4 H5 Hvoted Hrest]. cbn.
  clear Hvoted Hrest. destruct Hvar as (b & H2 & _).
  destruct (insertWinner_ok _ _ _ _ Hok H1) as [Hok1 _].
  assert (mDB s1 = mDB s ∧ eventsKept s s1 ∧ ∀ x, livePop s1 x = livePop s x +
    (if decide (x = w) then (if created then 1 else 0) else 0)) as (D1 & K1 & P1).
  { unfold insertWinner in H1.
    destruct (plWinner p) as [a|]; mtx_inv.
    - split; [apply (insertAssetOf_pop _ _ _ _ H1)|].
      split; [intros i row Hi; exists row; split; [by eapply insertAssetOf_keeps|done]|].
      destruct (insertAssetOf_pop _ _ _ _ H1) as (D & [(-> & ->)|(-> & id & Hid & Hn & Hp)]); intros x.
      + case_decide; lia.
      + rewrite Hwant in Hid. injection Hid as <-. rewrite Hp. case_decide as Hd; [by rewrite decide_True by tauto|].
        case_decide as Hx; [|done]. subst x. exfalso. apply Hd. split; [done|].
        destruct (insertAssetOf_inv _ _ _ _ _ H1) as (id & ev & Hid & _ & Hi).
        assert (id = w) as -> by congruence. apply insertAssetRow_inv in Hi as [_ [(? & _)|(_ & -> & _)]]; [done|].
        rewrite mAssets_setAsset, lookup_insert_eq in Ha. injection Ha as <-. done.
    - split; [done|]. split; [done|]. intros x. case_decide; lia. }
  assert (Root w (plEventID p) s1) as Hr1 by by exists wa.
  destruct (insertVariant_ok _ _ _ _ _ _ H2 Hok1 Hr1) as (Hok2 & Hr2 & _).
  assert (mDB s2 = mDB s1 ∧ eventsKept s1 s2 ∧ ∀ x, livePop s2 x = livePop s1 x) as (D2 & K2 & P2).
  { destruct (insertVariant_inv _ _ _ _ H2) as [(_ & -> & _)|(a & Hva & Hi)]; [done|].
    destruct (insertAssetOf_pop _ _ _ _ Hi) as (D & Hcase). split; [done|].
    split; [intros i row Hir; exists row; split; [by eapply insertAssetOf_keeps|done]|].
    destruct Hcase as [(-> & ->)|(-> & id & _ & _ & Hp)]; [done|].
    intros x. rewrite Hp, decide_False; [lia|]. intros [_ Hs]. by eapply variant_hidden. }
  destruct (persistPlacementValidation_ok _ _ _ _ _ _ H3 Hok2 Hr2) as (Hok3 & Hr3 & _).
  destruct (persistPlacementValidation_inv _ _ _ _ H3) as (A3 & _ & D3 & _).
  destruct (ensurePlacementShare_ok _ _ _ _ _ H4 Hok3 Hr3) as (Hok4 & Hr4 & _).
  destruct Hr3 as (a3 & Ha3 & Hn3 & He3).
  destruct (ensurePlacementShare_inv _ _ _ _ _ _ Hok3 Ha3 Hn3 He3 H4) as (_ & _ & A4 & D4 & _).
  split_and!; [done|done|congruence| |].
  { transitivity s1; [done|]. transitivity s2; [done|]. apply eventsKept_same. congruence. }
  intros x.
  by rewrite (livePop_same s3 s4 x A4), (livePop_same s2 s3 x A3), P2, P1.
Qed.

Lemma applyClipPlacementTx_tally p out s s' :
  let ev := plEventID p in
  media_ok s → tallied ev s → attributed ev s → validateClipPlacement p = None →
  applyClipPlacementTx p s = inr (out, s') → tallied ev s' ∧ attributed ev s'.
Proof.
  intros ev Hok Ht Hat Hv Hp. destruct (applyClipPlacementTx_ok _ _ _ _ Hok Hp) as [Hok' _].
  destruct (applyClipPlacementTx_inv _ _ _ _ Hp) as [pd]. destruct (placed_before _ _ _ _ pd Hok Hv) as (Hok4 & Hr4 & D4 & K4 & P4).
  destruct pd as [w created wa n sh s1 s2 s3 s4 s5 H1 Hwant Ha Hlive He Hvar H3 H4 H5 Hvoted Hrest]. cbn in *.
  destruct Hrest as (s6 & u & u' & H6 & H7).
  set (ls := losersOf p w) in *.
  destruct (countVotes_count p w ls (plCandidates p) s4 n s5) as (Hn & Hat5 & A5 & G5 & O5);
    [intros k c; rewrite D4; apply Hat|exact H5|].
  destruct (countVotes_ok _ _ _ _ _ _ _ _ H5 Hok4 Hr4) as (Hok5 & Hr5 & _).
  destruct Hr5 as (a5 & Ha5 & Hn5 & He5).
  assert (0 ≤ if created then n - 1 else n) as Hd by (destruct created; [specialize (Hvoted eq_refl)|]; lia).
  destruct (addVotes_pop _ _ _ _ _ _ Ha5 Hn5 Hd H6) as (D6 & K6 & P6).
  assert (Root w ev s5) as Hr5 by by exists a5.
  destruct (addVotes_ok _ _ _ _ _ _ H6 Hok5 Hr5) as (Hok6 & Hr6 & _).
  destruct (supersedeAll_count ev w ls (w :: ls) u' s6 s' Hok6 Hr6 (losersOf_NoDup p w)) as
    (Hat' & K7 & G7 & E7 & T7 & W7 & L7 & O7); [intros l; apply losersOf_winner|left|by intros x; right| |exact H7|].
  { intros k c. rewrite D6. apply Hat5. }
  split; [|done].
  assert (eventsKept s s6) as Ks6.
  { transitivity s4; [done|]. transitivity s5; [by apply eventsKept_same|done]. }
  assert (eventsKept s s') as Ks by (by transitivity s6).
  assert (∀ x a, mAssets s' !! x = Some a → arEventID a = ev → gap s x = 0) as Hgap.
  { intros x a Hx Hxe. apply (tallied_gap ev); [done..|]. intros b Hb. destruct (Ks _ _ Hb) as (b' & Hb' & Eb). congruence. }
  assert (gap s w = 0) as Gw.
  { apply (tallied_gap ev); [done..|]. intros b Hb. destruct (Ks6 _ _ Hb) as (b' & Hb' & Eb).
    destruct Hr6 as (c & Hc & _ & Hce). congruence. }
  assert (∀ l, l ∈ ls → gap s l = 0) as Gl.
  { intros l Hl. destruct (E7 l Hl) as (a & Hla & Hle). by eapply Hgap. }
  assert (∀ x, livePop s6 x = tally s4 x + gap s x + (if decide (x = w) then n else 0)) as Q6.
  { intros x. rewrite P6, (livePop_same s4 s5 x A5), P4, (tally_same s s4 x D4). unfold gap.
    case_decide; [destruct created; lia|lia]. }
  assert (NoDup (w :: ls)) as Hnd.
  { constructor; [|apply losersOf_NoDup]. intros Hin. by apply losersOf_winner in Hin. }
  assert (∀ x, x ∈ ls → tally s' x = 0) as Z7.
  { intros x Hx. apply tally_dead; [done|]. intros a Hax Hra. specialize (L7 x Hx). unfold livePop in L7.
    rewrite Hax, Hra in L7. cbn in L7. pose proof (mo_check _ Hok' _ _ Hax) as Hck.
    by apply video_assets_popular in Hck. }
  apply gap_tallied. intros x a Hxa Hxe. unfold gap. destruct (decide (x = w)) as [->|Hxw].
  - rewrite W7, Q6, decide_True by done.
    assert (votesFor (w :: ls) (pg.dbCandidates (mDB s')) = tally s' w) as E'.
    { rewrite (votesFor_sum _ _ Hnd). cbn [fmap list_fmap sumZ foldr]. change (votesFor [w] _) with (tally s' w).
      assert (sumZ ((λ x, votesFor [x] (pg.dbCandidates (mDB s'))) <$> ls) = 0) as Ez; [|unfold sumZ in Ez; lia].
      clear -Z7. induction ls as [|l ls IH]; [done|]. cbn [fmap list_fmap sumZ foldr]. unfold sumZ in IH.
      rewrite IH by (intros; apply Z7; by right). pose proof (Z7 l ltac:(left)) as E. unfold tally in E. lia. }
    rewrite <-E', G7, D6, G5, (votesFor_sum _ _ Hnd), Gw. cbn [fmap list_fmap sumZ foldr].
    assert (sumZ (livePop s6 <$> ls) = sumZ ((λ x, votesFor [x] (pg.dbCandidates (mDB s4))) <$> ls)) as ->.
    { apply sumZ_ext. intros l Hl. rewrite Q6, (Gl l Hl), decide_False; [unfold tally; lia|by eapply losersOf_winner]. }
    unfold sumZ, tally. lia.
  - destruct (decide (x ∈ ls)) as [Hx|Hx].
    + rewrite (L7 x Hx), (Z7 x Hx). done.
    + rewrite (O7 x Hx Hxw), (T7 x Hx Hxw), Q6, decide_False, (Hgap x a) by done.
      rewrite (tally_same s5 s6 x D6), (O5 x) by (by intros [|]%elem_of_cons). lia.
Qed.

(** *** The score of a selection *)

(** A clip of an event as a selection compares it. *)
Definition clipAt (ev : UUID) (s : Media) (id : UUID) (a : AssetRow) : graphNode :=
  mkGraphNode (scanAsset id a) (shareOf s ev id) (validationFor ev id s).

(** The clip [x] shows the same footage as [id]: it is that clip, or matches it directly. *)
Definition alike (pol : SelectionPolicy) (ev : UUID) (s : Media) (x id : UUID) : bool :=
  bool_decide (x = id) ||
  match mAssets s !! x, mAssets s !! id with
  | Some a, Some b => directMatch pol (clipAt ev s x a) (clipAt ev s id b)
  | _, _ => false
  end.

(** An accepted candidate of the event whose own clip shows the footage of [id]. *)
Definition supports (pol : SelectionPolicy) (ev : UUID) (s : Media) (id : UUID)
    (kc : UUID * string * pg.Candidate) : bool :=
  bool_decide (kc.1.1 = ev) && Credited (pg.cdOutcomeClass kc.2) &&
  match pg.cdObservedAssetID kc.2 with Some x => alike pol ev s x id | None => false end.

Definition support (pol : SelectionPolicy) (ev : UUID) (s : Media) (id : UUID) : Z :=
  Z.of_nat (length (filter (λ kc, supports pol ev s id kc = true) (map_to_list (pg.dbCandidates (mDB s))))).

(** What a selection makes of the votes of an event in the tables [s]: every live clip
    has the number of candidates that support it, every accepted candidate is credited
    to one live clip, and nothing else of the candidates changed. *)
Record scored (pol : SelectionPolicy) (ev : UUID) (s s' : Media) : Prop := {
  sd_score id a : mAssets s' !! id = Some a → arEventID a = ev → arSupersededBy a = None →
    arPopularity a = support pol ev s id;
  sd_credit k c : pg.dbCandidates (mDB s') !! k = Some c → k.1 = ev → Credited (pg.cdOutcomeClass c) = true →
    ∃ id a, pg.cdCreditedAssetID c = Some id ∧ mAssets s' !! id = Some a ∧ arEventID a = ev ∧
      arSupersededBy a = None;
  sd_candidates k :
    (λ c, c <| pg.cdCreditedAssetID := None |>) <$> pg.dbCandidates (mDB s') !! k =
    (λ c, c <| pg.cdCreditedAssetID := None |>) <$> pg.dbCandidates (mDB s) !! k;
  sd_others k : k.1 ≠ ev → pg.dbCandidates (mDB s') !! k = pg.dbCandidates (mDB s) !! k;
  sd_elsewhere id a : arEventID a ≠ ev → mAssets s' !! id = Some a ↔ mAssets s !! id = Some a }.

Section scoring.
Context `{Digests}.

Lemma loadSelectionTx_exact ev s sn s' : loadSelectionTx ev s = inr (sn, s') →
  spNodes sn = selectionNode ev s <$> assetsByID ev s ∧ spSources sn = selectionSources ev s.
Proof.
  unfold loadSelectionTx. intros Hl. mtx_inv.
  destruct (pg.dbEvents (mDB s) !! ev) as [e|] eqn:He; mtx_inv. done.
Qed.

Lemma requireAssets_nodes ns out n : requireAssets ns = inl out → n ∈ out →
  ∃ m, m ∈ ns ∧ snAsset m = Some (gnAsset n) ∧ snShare m = gnShare n ∧ snValidation m = gnValidation n.
Proof.
  revert out. induction ns as [|m ns IH]; intros out; cbn [requireAssets]; [by intros [= <-] Hn%elem_of_nil|].
  destruct (snAsset m) as [a|] eqn:Ea; [|done]. intros (rest & Hr & Hk)%bind_inl. injection Hk as <-.
  intros [->|Hn]%elem_of_cons.
  - exists m. split_and!; [left|done..].
  - destruct (IH _ Hr Hn) as (m' & Hm' & ?). exists m'. split; [by right|done].
Qed.

Lemma newSelectionGraph_nodes ml sn pol prepared g n :
  newSelectionGraph ml sn pol prepared = inl g → policy g = pol ∧ (n ∈ nodes g →
    ∃ m, m ∈ spNodes sn ∧ snAsset m = Some (gnAsset n) ∧ snShare m = gnShare n ∧ snValidation m = gnValidation n).
Proof.
  unfold newSelectionGraph. destruct (_ || _); [done|].
  intros (ns0 & Ha & Hg)%bind_inl. apply bind_inl in Hg as (ix & Hi & Hg).
  apply bind_inl in Hg as (ready & _ & Hg). apply bind_inl in Hg as ([[rs es] ss] & Hc & Hg).
  apply bind_inl in Hg as ([] & _ & Hg). injection Hg as <-. split; [done|]. cbn.
  rewrite sort_by_perm. by apply requireAssets_nodes.
Qed.

Section counted.
Context (ev : UUID) (s : Media) (sn : SelectionSnapshot) (pol : SelectionPolicy) (prepared : list (option UUID)).
Context (g : selectionGraph) (Hg : newSelectionGraph marshalledLength sn pol prepared = inl g).
Context (Hgo : graph_ok g (spSources sn)) (Hx : indexed sn g).
Context (Hn : spNodes sn = selectionNode ev s <$> assetsByID ev s) (Hs : spSources sn = selectionSources ev s).

Lemma node_clip i id : assetID g i = Some id →
  ∃ a, mAssets s !! id = Some a ∧ nodes g !! i = Some (clipAt ev s id a).
Proof.
  unfold assetID. destruct (nodes g !! i) as [n|] eqn:Ei; [|done]. intros Hid.
  destruct (newSelectionGraph_nodes _ _ _ _ _ n Hg) as [_ (m & Hm & E1 & E2 & E3)];
    [by eapply list_elem_of_lookup_2|].
  rewrite Hn in Hm. apply list_elem_of_fmap in Hm as ([id' a] & -> & Hin).
  unfold assetsByID in Hin. rewrite pg.elem_of_orderBy, list_elem_of_filter in Hin.
  destruct Hin as [_ Hin%elem_of_map_to_list]. cbn in E1, E2, E3. injection E1 as E1.
  assert (id' = id) as -> by (rewrite <-E1 in Hid; cbn in Hid; congruence).
  exists a. split; [done|]. f_equal. destruct n as [na nsh nv]. unfold clipAt. cbn in *. unfold shareOf. by subst na nsh nv.
Qed.

Lemma matches_alike i j x id : assetID g i = Some id → assetID g j = Some x →
  matches g j i = alike pol ev s x id.
Proof.
  intros Hi Hj. destruct (node_clip _ _ Hi) as (b & Hb & Eb), (node_clip _ _ Hj) as (a & Ha & Ea).
  unfold matches, alike. rewrite Ea, Eb, Ha, Hb. destruct (newSelectionGraph_nodes _ _ _ _ _ (clipAt ev s id b) Hg) as [-> _].
  destruct (Nat.eqb_spec j i) as [->|Hne].
  - rewrite bool_decide_eq_true_2; [done|congruence].
  - rewrite bool_decide_eq_false_2; [done|]. intros ->. apply Hne. by eapply assetID_inj.
Qed.

Lemma count_fmap {A B} (f : A → B) (P : B → bool) (Q : A → bool) (l : list A) :
  (∀ a, a ∈ l → P (f a) = Q a) →
  length (filter (λ b, P b = true) (f <$> l)) = length (filter (λ a, Q a = true) l).
Proof.
  induction l as [|a l IH]; intros He; [done|]. cbn [fmap list_fmap]. rewrite !filter_cons, (He a) by left.
  assert (∀ b, b ∈ l → P (f b) = Q b) as Hl by (intros b Hb; apply He; by right).
  case_decide; cbn [length]; by rewrite (IH Hl).
Qed.

Lemma popularity_support i id : assetID g i = Some id →
  popularity g (spSources sn) i = support pol ev s id.
Proof.
  intros Hi.
  assert (Forall (λ src, (observedIndex g src < length g.(nodes))%nat) (spSources sn)) as HF.
  { apply Forall_forall. intros src Hsrc. destruct (go_sources _ _ Hgo src Hsrc) as (j & Hj & ?).
    unfold observedIndex. by rewrite Hj. }
  rewrite (popularity_sources g _ i HF). unfold support. f_equal.
  set (toSource := λ kc : UUID * string * pg.Candidate, mkSelectionSource (Some (candidateID kc.1))
    (pg.cdObservedAssetID kc.2) (pg.cdCreditedAssetID kc.2)).
  set (l := filter (λ kc : UUID * string * pg.Candidate, kc.1.1 = ev ∧ Credited (pg.cdOutcomeClass kc.2) = true)
    (map_to_list (pg.dbCandidates (mDB s)))).
  assert (spSources sn ≡ₚ toSource <$> l) as Hp by (rewrite Hs; apply sort_by_perm).
  rewrite Hp, (count_fmap toSource _ (supports pol ev s id)).
  - unfold l. rewrite list_filter_filter. f_equal. apply list_filter_iff. intros kc. unfold supports.
    split; [naive_solver|]. intros Hsup. split; [done|]. apply andb_true_iff in Hsup as [Hsup _].
    apply andb_true_iff in Hsup as [E1%bool_decide_eq_true E2]. done.
  - intros kc Hkc. pose proof Hkc as Hl. apply list_elem_of_filter in Hl as [[E1 E2] _].
    assert (toSource kc ∈ spSources sn) as Hin by (rewrite Hp; by apply list_elem_of_fmap_2).
    destruct (go_sources _ _ Hgo _ Hin) as (j & Hj & _). unfold observedIndex, supports. rewrite Hj, E2.
    rewrite bool_decide_eq_true_2 by done. cbn in Hj |- *. unfold lookupID in Hj.
    destruct (pg.cdObservedAssetID kc.2) as [x|]; [|done]. apply matches_alike; [done|].
    by apply (ix_index _ _ Hx).
Qed.
End counted.

(** *** The selection of a placement *)

Lemma routedTo_source plan ev ids k c :
  (routedTo plan ev ids k c) <| pg.cdCreditedAssetID := None |> = c <| pg.cdCreditedAssetID := None |>.
Proof. unfold routedTo. destruct (pg.cdObservedAssetID c); [|done]. by destruct (_ && _). Qed.

Section chosen.
Context (ev : UUID) (s s' : Media) (sn : SelectionSnapshot) (pol : SelectionPolicy) (prepared : list (option UUID)).
Context (g : selectionGraph) (new : list nat) (plan : SelectionPlan) (links : gmap UUID string).
Context (Hg : newSelectionGraph marshalledLength sn pol prepared = inl g) (Hok' : media_ok s').
Context (Hgo : graph_ok g (spSources sn)) (Hx : indexed sn g) (Hp : plan_of sn g new plan).
Context (Hn : spNodes sn = selectionNode ev s <$> assetsByID ev s) (Hs : spSources sn = selectionSources ev s).
Context (Hsn : snapshotOf ev s sn) (Hrt : routes sn plan) (Hch : chosen ev plan links s s').

Lemma chosen_score id a : mAssets s' !! id = Some a → arEventID a = ev → arSupersededBy a = None →
  arPopularity a = support pol ev s id.
Proof.
  rewrite (ch_assets _ _ _ _ _ Hch). destruct (mAssets s !! id) as [a0|] eqn:Ha0; [|done]. cbn. intros [= <-].
  destruct (planned_fields plan id a0) as (-> & _ & Esup & Epop). intros He Hr.
  assert (owned plan id) as Ho by (apply (owned_row ev s sn plan Hsn Hrt); by exists a0).
  rewrite (Esup Ho) in Hr. unfold route in Hr. case_decide as Hk; [|done]. rewrite (Epop Ho Hk).
  assert (Some id ∈ (scAssetID <$> slSelected plan)) as Hin by by apply (rt_selected _ _ Hrt).
  apply list_elem_of_fmap in Hin as (c & Hid & Hc). unfold popularityOf. rewrite Hid.
  rewrite (head_filter_NoDup scAssetID _ _ (rt_distinct _ _ Hrt) Hc).
  apply list_elem_of_lookup in Hc as [j Hj].
  destruct (Forall2_lookup_r _ _ _ _ _ (po_selected _ _ _ _ Hp) Hj) as (i & _ & E1 & E2 & _).
  rewrite E2. eapply popularity_support; [done..|congruence].
Qed.

Lemma chosen_scored : scored pol ev s s'.
Proof.
  destruct (chosen_shows ev sn plan links s s' Hok' Hsn Hrt Hch). split; [apply chosen_score|..]; try done.
  - intros k c Hc Hk Hcr. destruct (sh_credits0 k c Hc Hk Hcr) as (o & Ho & _ & Ek).
    destruct (rt_owner _ _ Hrt o Ho) as (x & _ & Ex). rewrite Ex in Ek. symmetry in Ek.
    destruct (mo_credited _ Hok' _ _ _ Hc Ek) as (a & Ha & He & Hr). exists (keeper plan x), a.
    split_and!; [done..|congruence|done].
  - intros k. rewrite (ch_candidates _ _ _ _ _ Hch). destruct (pg.dbCandidates (mDB s) !! k) as [c|]; [|done].
    cbn. f_equal. apply routedTo_source.
Qed.
End chosen.

Lemma repair_scored ev r out s s' : media_ok s → repair ev r s = inr (out, s') →
  srReplayed out = false ∧
  (srSkipped out = SelectionIncompleteCredits ∧ s' = s ∨
   srSkipped out = "" ∧ scored (sqPolicy r) ev s s').
Proof.
  intros Hok Hr. unfold repair in Hr. mtx_inv.
  match goal with Hx : loadSelectionTx _ _ = _ |- _ =>
    pose proof (loadSelectionTx_exact _ _ _ _ Hx) as [Hn Hs]; apply loadSelectionTx_inv in Hx as (-> & Hsn) end.
  destruct (PlanSelection _ _ _ _) as [plan|err] eqn:Epl; mtx_inv.
  - split; [done|]. right. split; [done|].
    destruct (PlanSelection_graph _ _ _ _ _ Epl) as (g & new & Hg & Hgo & Hx & Hp & _).
    pose proof (PlanSelection_routes _ _ _ _ _ Epl) as Hrt.
    match goal with Hx : applySelectionTx _ _ _ _ = inr (?l, ?m) |- _ =>
      destruct (applySelectionTx_ok _ _ _ _ _ _ Hok Hsn Hrt Hx) as [Hok1 Hch] end.
    by eapply chosen_scored.
  - match goal with Hx : (if ?b then _ else _) _ = _ |- _ => destruct b end; mtx_inv. split; [done|]. by left.
Qed.
End scoring.

(** C6: Every vote counts, and is not counted twice for a clip.  A placement that selects
    what is shown - the current histories - leaves every live clip of the event with
    as many votes as there are accepted candidates whose own clip is that clip or
    directly matches it under the policy of the request (a candidate may support
    several clips), and every accepted candidate credited to one live clip.  A placement
    without selection - the older histories - or one whose selection is skipped for
    want of credits keeps what they counted: when each live clip's popularity is the
    number of candidates credited to it and every accepted candidate is credited, both
    are still so afterwards - a new winner, a better clip that retires others and takes
    their votes, a candidate that moves between clips, one that is repeated.  A replay
    changes nothing. *)
Theorem votes_counted `{Digests} p out s s' :
  media_ok s → CommitClipPlacement p s = inr (out, s') → crEventRemoved out = false →
  let ev := plEventID p in
  match plSelection p, crSelection out with
  | None, None => tallied ev s → attributed ev s → tallied ev s' ∧ attributed ev s'
  | Some r, Some sel =>
      if srReplayed sel then s' = s
      else if (srSkipped sel =? SelectionIncompleteCredits)%string
      then tallied ev s → attributed ev s → tallied ev s' ∧ attributed ev s'
      else ∃ placed mid, applyClipPlacementTx (p <| plCommittedAt ::= placementNow |>) s = inr (placed, mid) ∧
        scored (sqPolicy r) ev mid s'
  | _, _ => False
  end.
Proof.
  intros Hok Hc Hrm ev. unfold CommitClipPlacement in Hc.
  set (p' := p <| plCommittedAt ::= placementNow |>) in *.
  destruct (validateClipPlacement p') eqn:Hv; [done|]. mtx_inv.
  match goal with Hx : lockEvent _ _ _ = inr (?b, _) |- _ => apply lockEvent_inv in Hx as (-> & _); destruct b end; mtx_inv; [done|].
  change (plSelection p') with (plSelection p) in *. destruct (plSelection p) as [r|].
  - unfold commitPlacementSelectionTx in *. destruct (placementSelectionDigest _ _) as [digest|]; [|done].
    destruct (sqID r) as [id|]; [|done]. mtx_inv. destruct (mCommits s !! id) as [prior|]; mtx_inv; [done|].
    match goal with Hx : loadSelectionTx _ _ = _ |- _ => apply loadSelectionTx_inv in Hx as (-> & _) end.
    match goal with Hx : applyClipPlacementTx _ _ = inr (?o, ?m), Hy : repair _ _ _ = inr (?o', _), Hz : insertCommit _ _ _ = _ |- _ =>
      rename Hx into Hplace; rename Hy into Hrep; rename m into mid; rename o' into sel; apply insertCommit_inv in Hz as (_ & ->) end.
    destruct (applyClipPlacementTx_ok _ _ _ _ Hok Hplace) as [Hok1 _].
    destruct (repair_scored _ _ _ _ _ Hok1 Hrep) as [Hfresh Hcase]. change (crSelection (_ <| crSelection := Some sel |>)) with (Some sel).
    cbn iota.
    rewrite Hfresh. destruct Hcase as [[-> ->]|[-> [F1 F2 F3 F4 F5]]]; cbn [String.eqb].
    + intros Ht Hat. exact (applyClipPlacementTx_tally p' _ s mid Hok Ht Hat Hv Hplace).
    + eexists _, mid. split; [exact Hplace|]. by split.
  - match goal with Hx : applyClipPlacementTx _ _ = _ |- _ => rename Hx into Hplace end.
    assert (crSelection out = None) as ->.
    { destruct (applyClipPlacementTx_inv _ _ _ _ Hplace) as [pd]. by destruct pd as [? ? ? ? ? ? ? ? ? ? ? ? ? ? ? (b & _ & ->)]. }
    intros Ht Hat. by eapply (applyClipPlacementTx_tally p').
Qed.
End placement.
End votes.
