(* ===== verification/Effects.v ===== *)
(** What a committed observation did: the effects a call reports are the ones it
    committed, an observation only replaces an older one, a fixture completes only
    when nothing of it is pending, an event is removed together with its pending
    work, and debounce votes trigger the search exactly once. *)
From S2P Require Import Prelude GoStrings ApiFootball Fixture Event Integrity Health Auditlog Presentation Plan Store Mutation Commit Guarantees.
#[local] Open Scope string_scope.
#[local] Open Scope list_scope.
#[local] Open Scope Z_scope.
Import apifootball providerintegrity health mutation pg boundary commit guarantees.

Module effects.

(** ** The stages of an applied active plan *)

Section stages.
Context (now clock : Time) (text : UUID → string).

Definition activeTarget (f current : fixture.Fixture) (policy : MutationPolicy) : fixture.Fixture :=
  if (policy =? PolicyPositiveOnly)%string then mergePositiveFixture current f else f.

(** The trusted part: placeholders, absences, completion. *)
Definition tail (plan : ActiveMutationPlan) (F : Z) (target : fixture.Fixture)
    (policy : MutationPolicy) (o : MutationResult) (d : DB) (o' : MutationResult) (d' : DB) : Prop :=
  policy ≠ PolicyTrusted ∧ o' = o ∧ d' = d ∨
  policy = PolicyTrusted ∧ ∃ o1 d1 o2 d2 completed,
    each (applyDelete F) o plan.(apUnknownDeletes) d = inr (o1, d1) ∧
    each (applyAbsence now clock plan.(apWorkflowID)) o1 plan.(apAbsences) d1 = inr (o2, d2) ∧
    completeFixtureIfReadyTx now target plan.(apCompletion) d2 = inr (completed, d') ∧
    o' = o2 <| mrCompleted := completed |> <| mrFixtureChanged ::= λ b, b || completed |>.

Record stages (plan : ActiveMutationPlan) (f current : fixture.Fixture) (policy : MutationPolicy)
    (out : MutationResult) (db : DB) (r : MutationResult) (db' : DB)
    (d1 d2 d3 d4 : DB) (o0 o2 o3 o4 o5 : MutationResult) (after : fixture.Fixture) : Prop := {
  sg_scope : scope_ok current.(fixture.fID) plan policy db;
  sg_update : updateActiveFixtureTx now (activeTarget f current policy) db = inr (tt, d1);
  sg_start : o0 = out <| mrApplied := true |> <| mrFixtureChanged :=
    fixturePubliclyChanged (Some current) (Some (activeTarget f current policy)) |>;
  sg_inserts : each (applyInsert now plan.(apWorkflowID)) o0 plan.(apInserts) d1 = inr (o2, d2);
  sg_presences : each (applyPresence now text plan.(apWorkflowID)) o2 plan.(apPresences) d2 = inr (o3, d3);
  sg_updates : each (applyUpdate now policy) o3 plan.(apUpdates) d3 = inr (o4, d4);
  sg_tail : tail plan current.(fixture.fID) (activeTarget f current policy) policy o4 d4 o5 db';
  sg_after : dbFixtures db' !! current.(fixture.fID) = Some after;
  sg_result : r = classifyMutationFixtureChanges (o5 <| mrFixture := Some after |>) (Some current) }.

Lemma applyActiveWrites_stages plan f current policy out db r db' :
  applyActiveWrites now clock text plan f current policy out db = inr (r, db') →
  ∃ d1 d2 d3 d4 o0 o2 o3 o4 o5 after,
    stages plan f current policy out db r db' d1 d2 d3 d4 o0 o2 o3 o4 o5 after.
Proof.
  unfold applyActiveWrites. intros H. tx_inv.
  match goal with H : validateActiveEventScope _ _ _ _ = _ |- _ =>
    apply validateActiveEventScope_inv in H as [-> Hs] end.
  match goal with H : lockedFixture _ _ = _ |- _ => apply lockedFixture_inv in H as [Ha ->] end.
  match goal with H : updateActiveFixtureTx _ _ _ = inr (?u, _) |- _ => destruct u end.
  do 10 eexists. split; try done.
  unfold tail. destruct (String.eqb_spec policy PolicyTrusted) as [->|Hne]; tx_inv; [right|by left].
  split; [done|]. eexists _, _, _, _, _. by split_and!.
Qed.

(** *** The event loops leave the fixture rows alone *)

Abbreviation same_fixtures d d' := (dbFixtures d' = dbFixtures d).

Lemma loop_fixtures {A} (body : MutationResult → A → Tx MutationResult) ops o d o' d' :
  (∀ o op d o' d', body o op d = inr (o', d') → same_fixtures d d') →
  each body o ops d = inr (o', d') → same_fixtures d d'.
Proof.
  intros Hb H. apply (each_inv body (λ _ x, same_fixtures d x) ops) in H; [done| |done].
  intros o1 op x o2 y _ Hx Hy. by rewrite (Hb _ _ _ _ _ Hy).
Qed.

Lemma ensureDownstream_fixtures id d : same_fixtures d (ensureDownstream text id d).
Proof. unfold ensureDownstream. by case_match. Qed.

Lemma insert_fixtures wf o op d o' d' : applyInsert now wf o op d = inr (o', d') → same_fixtures d d'.
Proof.
  unfold applyInsert, insertPlannedEvent. intros H. tx_inv. destruct (piEvent op) as [e|]; tx_inv.
  destruct (_ || _); tx_inv. destruct (not_nil _); tx_inv.
  match goal with H : insertEvent _ _ _ = _ |- _ => apply insertEvent_inv in H as (_ & _ & _ & _ & ->) end.
  match goal with H : (if 0 <? _ then _ else _) _ = inr (_, ?m) |- _ =>
    assert (dbFixtures m = dbFixtures d) as Hm end.
  { destruct (0 <? _); tx_inv; [|done].
    by match goal with H : insertMonitorVote _ _ _ = _ |- _ =>
      apply insertMonitorVote_inv in H as [(_ & -> & _)|(_ & _ & _ & ->)] end. }
  destruct (piAudit op); tx_inv; [|done]. destruct (_ || _); tx_inv.
  by match goal with H : insertAuditLog _ _ = _ |- _ => apply insertAuditLog_inv in H as [_ ->] end.
Qed.

Lemma presence_fixtures wf o op d o' d' :
  applyPresence now text wf o op d = inr (o', d') → same_fixtures d d'.
Proof.
  destruct op as [id a]. unfold applyPresence. intros H. tx_inv.
  match goal with H : registerPresenceTx _ _ _ _ _ = _ |- _ => apply registerPresenceTx_outcome in H as [] end;
    try done. by rewrite ensureDownstream_fixtures.
Qed.

Lemma update_fixtures policy o op d o' d' :
  applyUpdate now policy o op d = inr (o', d') → same_fixtures d d'.
Proof.
  unfold applyUpdate, updateEventFieldsTx. cbv zeta. intros H. tx_inv.
  destruct (puFresh op); tx_inv.
  destruct (policy =? _)%string; tx_inv;
    by match goal with H : updateEvent _ _ _ _ _ = _ |- _ =>
      apply updateEvent_inv in H as [(_ & -> & _)|(old & _ & _ & _ & _ & ->)] end.
Qed.

Lemma delete_fixtures F o id d o' d' : applyDelete F o id d = inr (o', d') → same_fixtures d d'.
Proof.
  unfold applyDelete, deletePlaceholder. intros H. tx_inv.
  destruct (dbEvents d !! id); tx_inv; [destruct (_ && _)|]; by tx_inv.
Qed.

Lemma absence_fixtures wf o op d o' d' :
  applyAbsence now clock wf o op d = inr (o', d') → same_fixtures d d'.
Proof.
  destruct op as [id a]. unfold applyAbsence. intros H. tx_inv.
  by match goal with H : registerAbsenceTx _ _ _ _ _ = _ |- _ => apply registerAbsenceTx_outcome in H as [] end.
Qed.

Lemma tail_fixtures plan F target policy o d o' d' :
  tail plan F target policy o d o' d' →
  same_fixtures d d' ∨ policy = PolicyTrusted ∧ ∃ d2 row rec,
    completion now target plan.(apCompletion) d2 d' row rec ∧ same_fixtures d d2.
Proof.
  intros [(_ & _ & ->)|(Ht & o1 & d1 & o2 & d2 & b & H1 & H2 & H3 & _)]; [by left|].
  apply loop_fixtures in H1; [|apply delete_fixtures].
  apply loop_fixtures in H2; [|apply absence_fixtures].
  apply completeFixtureIfReadyTx_inv in H3 as [(_ & ->)|(_ & row & rec & Hc)].
  - left. congruence.
  - right. split; [done|]. exists d2, row, rec. split; [done|congruence].
Qed.

(** The row an applied active plan leaves behind is as recent as its target. *)
Lemma stages_row plan f current policy out db r db' d1 d2 d3 d4 o0 o2 o3 o4 o5 after :
  stages plan f current policy out db r db' d1 d2 d3 d4 o0 o2 o3 o4 o5 after →
  dbFixtures db !! current.(fixture.fID) = Some current →
  current.(fixture.fState) = fixture.StateActive →
  (activeTarget f current policy).(fixture.fID) = current.(fixture.fID) →
  after.(fixture.fLastPolledAt) =
    timestamptz <$> (activeTarget f current policy).(fixture.fLastPolledAt).
Proof.
  intros [_ Hu _ Hi Hp Hup Ht Ha _] Hrow Hact HF.
  unfold updateActiveFixtureTx in Hu. rewrite HF in Hu.
  apply updateFixture_inv in Hu as [(_ & Hn)|(row & Hr & _ & _ & ->)].
  { specialize (Hn _ Hrow). unfold isActive in Hn. by rewrite Hact in Hn. }
  rewrite Hrow in Hr. injection Hr as <-.
  apply loop_fixtures in Hi; [|apply insert_fixtures].
  apply loop_fixtures in Hp; [|apply presence_fixtures].
  apply loop_fixtures in Hup; [|apply update_fixtures].
  assert (dbFixtures d4 !! fixture.fID current =
    Some (stampFixture now (activeColumns (activeTarget f current policy) current))) as H4.
  { rewrite Hup, Hp, Hi. apply lookup_insert_eq. }
  apply tail_fixtures in Ht as [E|(_ & dc & row & rec & [Hcr _ _ _ _ _ ->] & E)].
  - rewrite E, H4 in Ha. by injection Ha as <-.
  - cbn in Ha. rewrite HF in Ha, Hcr. rewrite lookup_insert_eq in Ha. injection Ha as <-.
    rewrite E, H4 in Hcr. by injection Hcr as <-.
Qed.

(** The target carries the observation's time, whichever part of it is kept. *)
Lemma activeTarget_polled f current policy :
  (activeTarget f current policy).(fixture.fLastPolledAt) = f.(fixture.fLastPolledAt).
Proof.
  unfold activeTarget. destruct (_ =? _)%string; [|done]. unfold mergePositiveFixture. cbv zeta.
  match goal with |- context [fixture.UpdateResult ?f ?x ?y] =>
    destruct (UpdateResult_winners f x y) as (h & a & ->) end.
  destruct (blocksClock current f); [done|]. by destruct (not_nil _).
Qed.

End stages.

(** ** Order of observations *)

Lemma validateObserved_polled f g :
  validateObserved f g = None → f.(fixture.fLastPolledAt) = Some g.(ogObservedAt).
Proof. unfold validateObserved. by case_bool_decide; [|done]. Qed.

Lemma active_polled p f :
  validateActiveMutationPlan (normalizeActiveMutationPlan p) = inr f →
  f.(fixture.fLastPolledAt) = Some (guardOf (callActive p)).(ogObservedAt).
Proof.
  unfold validateActiveMutationPlan. intros H. repeat case_match; try done. injection H as <-.
  by apply validateObserved_polled.
Qed.

Lemma fixture_polled p f :
  validateFixtureMutationPlan (normalizeFixtureMutationPlan p) = inr f →
  f.(fixture.fLastPolledAt) = Some (guardOf (callFixture p)).(ogObservedAt).
Proof.
  unfold validateFixtureMutationPlan. intros H. repeat case_match; try done. injection H as <-.
  by apply validateObserved_polled.
Qed.

Lemma validated_polled c f :
  validated c f → f.(fixture.fLastPolledAt) = Some (guardOf c).(ogObservedAt).
Proof. destruct c; [apply active_polled|apply fixture_polled]. Qed.

Lemma activeStale_inv p current at_ g :
  activeStale p current at_ g = false →
  current.(fixture.fState) = fixture.StateActive ∧
  newerObservation p.(apGuard).(ogObservedAt) current.(fixture.fLastPolledAt) = true.
Proof.
  unfold activeStale. rewrite !orb_false_iff, !negb_false_iff.
  intros (((((_ & H1%String.eqb_eq) & _) & H2) & _) & _). done.
Qed.

(** An update of the plan's row that does match writes exactly its columns. *)
Lemma updateFixture_row now id where_ set_ u db db' c :
  updateFixture now id where_ set_ db = inr (u, db') → dbFixtures db !! id = Some c →
  where_ c = true → dbFixtures db' !! id = Some (stampFixture now (set_ c)).
Proof.
  intros [(_ & Hn)|(r & Hr & _ & _ & ->)]%updateFixture_inv Hc Hw.
  - specialize (Hn _ Hc). congruence.
  - rewrite Hc in Hr. injection Hr as <-. apply lookup_insert_eq.
Qed.

Lemma updateExisting_row now p t c o db db' :
  updateExistingFixture now p t c db = inr (Some o, db') → t.(fixture.fID) = c.(fixture.fID) →
  dbFixtures db !! c.(fixture.fID) = Some c →
  ∃ row, dbFixtures db' !! c.(fixture.fID) = Some row ∧
    row.(fixture.fLastPolledAt) = timestamptz <$> t.(fixture.fLastPolledAt).
Proof.
  unfold updateExistingFixture. intros H Ht Hc. destruct (_ =? _)%string; tx_inv.
  { match goal with H : updateIngestFixtureTx _ _ _ = _ |- _ => unfold updateIngestFixtureTx in H;
      pose proof (H : updateFixture now (fixture.fID t) _ _ _ = _) as H' end.
    rewrite Ht in H'. eexists.
    split; [eapply updateFixture_row; [exact H'|exact Hc|done]|done]. }
  destruct (fpMode p =? MutationModeStaging)%string; tx_inv.
  destruct (negb _) eqn:Hst; tx_inv; [done|].
  apply negb_false_iff in Hst.
  destruct (fpActivate p); tx_inv; [destruct (fpActivationAudit p) as [rec|]; tx_inv|].
  - match goal with H : activateStagingFixtureTx _ _ _ _ = _ |- _ =>
      unfold activateStagingFixtureTx in H; destruct (_ || _) in H; tx_inv end.
    match goal with H : insertAuditLog _ _ = _ |- _ => apply insertAuditLog_inv in H as [Hv ->] end.
    rewrite Ht in *. match goal with H : updateFixture _ _ _ _ _ = _ |- _ =>
      pose proof (updateFixture_row _ _ _ _ _ _ _ _ H Hc Hst) as Hrow end.
    by eexists.
  - match goal with H : updateStagingFixtureTx _ _ _ = _ |- _ =>
      unfold updateStagingFixtureTx in H; rewrite Ht in H;
      pose proof (updateFixture_row _ _ _ _ _ _ _ _ H Hc Hst) as Hrow end.
    by eexists.
Qed.

Lemma fixtureTarget_polled p f c policy :
  (fixtureTarget p f c policy).(fixture.fLastPolledAt) = f.(fixture.fLastPolledAt).
Proof.
  pose proof (activeTarget_polled f c PolicyPositiveOnly) as Hm.
  unfold activeTarget in Hm. rewrite String.eqb_refl in Hm. unfold fixtureTarget. revert Hm. generalize (mergePositiveFixture c f). intros m Hm.
  destruct (policy =? _)%string; [|done]. by destruct (_ && _).
Qed.

(** The row a call for an existing or a new fixture leaves behind. *)
Lemma fixtureWrites_row now p f policy db r db1 :
  fixtureWrites now p f policy db r db1 →
  ∃ row, dbFixtures db1 !! f.(fixture.fID) = Some row ∧
    row.(fixture.fLastPolledAt) = timestamptz <$> f.(fixture.fLastPolledAt).
Proof.
  intros (current & out & [Hcur Hid] & _ & _ & H). unfold applyFixtureWrites in H. tx_inv.
  match goal with H : (match ?a with None => _ | Some _ => _ end) _ = inr (Some r, _) |- _ =>
    destruct a; tx_inv; [|done] end.
  match goal with H : lockedFixture _ _ = _ |- _ => apply lockedFixture_inv in H as [_ ->] end.
  destruct (dbFixtures db !! fixture.fID f) as [c|] eqn:Hcur; tx_inv.
  - rewrite <-(fixtureTarget_polled p f c policy). specialize (Hid _ eq_refl). rewrite <-Hid in *.
    eapply updateExisting_row; [eassumption| |done]. by apply target_id.
  - match goal with H : insertFixture _ _ _ = _ |- _ => unfold insertFixture in H;
      destruct (not_nil _); [done|]; cbv zeta in H; tx_inv end.
    eexists. split; [apply lookup_insert_eq|done].
Qed.

(** Ordering: an observation that is applied replaces only an older one - the
    stored row was last polled before it, and an active row really was active -
    and afterwards the row carries its time, so no observation is applied twice
    or out of order. *)
Theorem applied_observation_is_newest v c r db db' :
  db_ok db → dbReceipts db !! receiptKey c = None → run v c db = inr (r, db') →
  r.(mrApplied) = true →
  (∀ row, dbFixtures db !! fixtureOf c = Some row →
     newerObservation (guardOf c).(ogObservedAt) row.(fixture.fLastPolledAt) = true ∧
     (∀ p, c = callActive p → row.(fixture.fState) = fixture.StateActive)) ∧
  ∃ row', dbFixtures db' !! fixtureOf c = Some row' ∧
    row'.(fixture.fLastPolledAt) = Some (guardOf c).(ogObservedAt).
Proof.
  intros Hok Hn (f & Hv & HF & Hf & Ho)%run_outcome Hap; [|done].
  pose proof (validated_polled _ _ Hv) as Hpolled. unfold receiptKey in Hn.
  destruct Ho as [rc Hrc _|r db' _ Ha _ _ _ _|policy r db1 db' _ Hpol _ _ Hw Hc]; [congruence..|].
  apply commit_settles in Hc as [t ->]%settles_receipts; [|done]. cbn [dbFixtures].
  change (dbFixtures (db1 <| dbReceipts := t |>)) with (dbFixtures db1).
  assert (timestamptz <$> f.(fixture.fLastPolledAt) = Some (guardOf c).(ogObservedAt)) as Hts.
  { rewrite Hpolled. exact (f_equal Some (normalized_observedAt c)). }
  destruct c as [p|p]; cbn [callWrites] in Hw.
  - destruct Hw as (current & out & Hcur & Hid & Hst & _ & Hw). rewrite Hf in Hcur, Hid.
    apply activeStale_inv in Hst as [Hact Hnew].
    apply applyActiveWrites_stages in Hw
      as (d1 & d2 & d3 & d4 & o0 & o2 & o3 & o4 & o5 & after & Hs).
    split.
    + intros row Hrow. rewrite Hcur in Hrow. injection Hrow as <-. by split.
    + rewrite <-Hid in *. exists after. split; [apply Hs|].
      erewrite stages_row; [|exact Hs|done|done|].
      * by rewrite activeTarget_polled.
      * unfold activeTarget. destruct (_ =? _)%string; [|done]. apply merge_kept.
  - pose proof (fixtureWrites_row _ _ _ _ _ _ _ Hw) as Hrow. rewrite Hf, Hts in Hrow.
    split; [|done]. intros row Hr. destruct Hw as (current & out & [Hcur _] & Hst & _).
    rewrite Hf, Hr in Hcur. subst current. unfold fixtureStale in Hst.
    rewrite !orb_false_iff, !negb_false_iff in Hst. by destruct Hst as (_ & _ & ?).
Qed.

(** ** The audit log accounts for the reported effects *)

Definition isKind (k : auditlog.Kind) (a : auditlog.Record_) : bool :=
  (a.(auditlog.rKind) =? k)%string.

(** The events whose transition [k] the records describe. *)
Definition eventsOf (k : auditlog.Kind) (l : list auditlog.Record_) : list UUID :=
  omap (λ a, if isKind k a then a.(auditlog.rEventID) else None) l.

(** From one state of a call to a later one, the log grew by exactly the records
    of the transitions the result gained. *)
Definition logged (o : MutationResult) (d : DB) (o' : MutationResult) (d' : DB) : Prop :=
  ∃ new, dbEventLog d' = dbEventLog d ++ new ∧
    o'.(mrStableEventIDs) = o.(mrStableEventIDs) ++ eventsOf auditlog.KindEventStable new ∧
    o'.(mrRemovedEventIDs) = o.(mrRemovedEventIDs) ++ eventsOf auditlog.KindEventRemoved new ∧
    o'.(mrCompleted) = o.(mrCompleted) || existsb (isKind auditlog.KindFixtureCompleted) new.

Lemma eventsOf_app k l1 l2 : eventsOf k (l1 ++ l2) = eventsOf k l1 ++ eventsOf k l2.
Proof. unfold eventsOf. apply omap_app. Qed.

Lemma logged_refl o d o' d' :
  dbEventLog d' = dbEventLog d → o'.(mrStableEventIDs) = o.(mrStableEventIDs) →
  o'.(mrRemovedEventIDs) = o.(mrRemovedEventIDs) → o'.(mrCompleted) = o.(mrCompleted) →
  logged o d o' d'.
Proof. intros H1 H2 H3 H4. exists []. by rewrite H1, H2, H3, H4, !app_nil_r, orb_false_r. Qed.

Lemma logged_trans o1 d1 o2 d2 o3 d3 :
  logged o1 d1 o2 d2 → logged o2 d2 o3 d3 → logged o1 d1 o3 d3.
Proof.
  intros (n1 & A1 & A2 & A3 & A4) (n2 & B1 & B2 & B3 & B4). exists (n1 ++ n2).
  by rewrite B1, B2, B3, B4, A1, A2, A3, A4, !eventsOf_app, existsb_app, !app_assoc, orb_assoc.
Qed.

(** One more record. *)
Lemma logged_one o d o' d' a :
  dbEventLog d' = dbEventLog d ++ [a] →
  o'.(mrStableEventIDs) = o.(mrStableEventIDs) ++ eventsOf auditlog.KindEventStable [a] →
  o'.(mrRemovedEventIDs) = o.(mrRemovedEventIDs) ++ eventsOf auditlog.KindEventRemoved [a] →
  o'.(mrCompleted) = o.(mrCompleted) || existsb (isKind auditlog.KindFixtureCompleted) [a] →
  logged o d o' d'.
Proof. intros. by exists [a]. Qed.

Lemma eventsOf_one k a id :
  a.(auditlog.rKind) = k → a.(auditlog.rEventID) = Some id → eventsOf k [a] = [id].
Proof. intros <- H. unfold eventsOf, isKind. cbn. by rewrite String.eqb_refl, H. Qed.

Lemma eventsOf_other k a : a.(auditlog.rKind) ≠ k → eventsOf k [a] = [].
Proof. intros H%String.eqb_neq. unfold eventsOf, isKind. cbn. by rewrite H. Qed.

Lemma completed_other a :
  a.(auditlog.rKind) ≠ auditlog.KindFixtureCompleted →
  existsb (isKind auditlog.KindFixtureCompleted) [a] = false.
Proof. intros H%String.eqb_neq. unfold isKind. cbn. by rewrite H. Qed.

Lemma auditFor_inv k id a :
  auditFor k id a = true → a.(auditlog.rKind) = k ∧ a.(auditlog.rEventID) = Some id.
Proof.
  unfold auditFor. intros [[_ H%String.eqb_eq]%andb_true_iff H2%bool_decide_eq_true]%andb_true_iff.
  done.
Qed.

Section log.
Context (now clock : Time) (text : UUID → string).

Lemma loop_logged {A} (body : MutationResult → A → Tx MutationResult) ops o d o' d' :
  (∀ o op d o' d', body o op d = inr (o', d') → logged o d o' d') →
  each body o ops d = inr (o', d') → logged o d o' d'.
Proof.
  intros Hb H. apply (each_inv body (logged o d) ops) in H; [done| |by apply logged_refl].
  intros o1 op x o2 y _ Hx Hy. eapply logged_trans; [done|by eapply Hb].
Qed.

Lemma ensureDownstream_log id d : dbEventLog (ensureDownstream text id d) = dbEventLog d.
Proof. unfold ensureDownstream. by case_match. Qed.

Lemma insert_logged wf o op d o' d' : applyInsert now wf o op d = inr (o', d') → logged o d o' d'.
Proof.
  unfold applyInsert, insertPlannedEvent. intros H. tx_inv. destruct (piEvent op) as [e|]; tx_inv.
  destruct (_ || _); tx_inv. destruct (not_nil _); tx_inv.
  match goal with H : insertEvent _ _ _ = _ |- _ => apply insertEvent_inv in H as (_ & _ & _ & _ & ->) end.
  match goal with H : (if 0 <? _ then _ else _) _ = inr (_, ?m) |- _ =>
    assert (dbEventLog m = dbEventLog d) as Hm end.
  { destruct (0 <? _); tx_inv; [|done].
    by match goal with H : insertMonitorVote _ _ _ = _ |- _ =>
      apply insertMonitorVote_inv in H as [(_ & -> & _)|(_ & _ & _ & ->)] end. }
  destruct (piAudit op) as [a|]; tx_inv; [|by apply logged_refl; [done|..]; destruct (event.Known _)].
  destruct (_ || _) eqn:E; tx_inv. rewrite !orb_false_iff, !negb_false_iff in E.
  destruct E as [[_ Hk%String.eqb_eq] _].
  match goal with H : insertAuditLog _ _ = _ |- _ => apply insertAuditLog_inv in H as [_ ->] end.
  eapply (logged_one _ _ _ _ a); [cbn; by rewrite Hm|..];
    rewrite ?eventsOf_other, ?completed_other, ?app_nil_r, ?orb_false_r by (by rewrite Hk);
    by destruct (event.Known _).
Qed.

Lemma presence_logged wf o op d o' d' :
  applyPresence now text wf o op d = inr (o', d') → logged o d o' d'.
Proof.
  destruct op as [id a]. unfold applyPresence. intros H. tx_inv.
  match goal with H : registerPresenceTx _ _ _ _ _ = _ |- _ =>
    apply registerPresenceTx_outcome in H as [| |e _ _ _ _ _ _ Ha] end; [by apply logged_refl..|].
  apply auditFor_inv in Ha as [Hk Hid].
  eapply (logged_one _ _ _ _ a); [by rewrite ensureDownstream_log|..].
  - by rewrite (eventsOf_one _ _ id Hk Hid).
  - rewrite eventsOf_other, app_nil_r by (by rewrite Hk). done.
  - rewrite completed_other, orb_false_r by (by rewrite Hk). done.
Qed.

Lemma update_logged policy o op d o' d' :
  applyUpdate now policy o op d = inr (o', d') → logged o d o' d'.
Proof.
  unfold applyUpdate, updateEventFieldsTx. cbv zeta. intros H. tx_inv.
  destruct (puFresh op); tx_inv. destruct (policy =? _)%string; tx_inv;
    match goal with H : updateEvent _ _ _ _ _ = _ |- _ =>
      apply updateEvent_inv in H as [(_ & -> & _)|(old & _ & _ & _ & _ & ->)] end;
    by apply logged_refl.
Qed.

Lemma delete_logged F o id d o' d' : applyDelete F o id d = inr (o', d') → logged o d o' d'.
Proof.
  unfold applyDelete, deletePlaceholder. intros H. tx_inv.
  destruct (dbEvents d !! id); tx_inv; [destruct (_ && _); tx_inv|]; by apply logged_refl.
Qed.

Lemma absence_logged wf o op d o' d' :
  applyAbsence now clock wf o op d = inr (o', d') → logged o d o' d'.
Proof.
  destruct op as [id a]. unfold applyAbsence. intros H. tx_inv.
  match goal with H : registerAbsenceTx _ _ _ _ _ = _ |- _ =>
    apply registerAbsenceTx_outcome in H as [| |e at_ _ _ _ _ _ Ha _] end; [by apply logged_refl..|].
  apply auditFor_inv in Ha as [Hk Hid].
  eapply (logged_one _ _ _ _ a); [done|..].
  - rewrite eventsOf_other, app_nil_r by (by rewrite Hk). done.
  - by rewrite (eventsOf_one _ _ id Hk Hid).
  - rewrite completed_other, orb_false_r by (by rewrite Hk). done.
Qed.

(** The loops only report completion through the tail. *)
Lemma loop_completed {A} (body : MutationResult → A → Tx MutationResult) ops o d o' d' :
  (∀ o op d o' d', body o op d = inr (o', d') → o'.(mrCompleted) = o.(mrCompleted)) →
  each body o ops d = inr (o', d') → o'.(mrCompleted) = o.(mrCompleted).
Proof.
  intros Hb. apply (each_result body (λ x, mrCompleted x = mrCompleted o)); [|done].
  intros x op dx y dy Hx Hy. by rewrite (Hb _ _ _ _ _ Hy).
Qed.

Lemma delete_completed F o id d o' d' :
  applyDelete F o id d = inr (o', d') → o'.(mrCompleted) = o.(mrCompleted).
Proof. unfold applyDelete. intros H. tx_inv. by case_match. Qed.

Lemma absence_completed wf o op d o' d' :
  applyAbsence now clock wf o op d = inr (o', d') → o'.(mrCompleted) = o.(mrCompleted).
Proof. unfold applyAbsence. intros H. tx_inv. by case_match. Qed.

Lemma insert_completed wf o op d o' d' :
  applyInsert now wf o op d = inr (o', d') → o'.(mrCompleted) = o.(mrCompleted).
Proof.
  unfold applyInsert. intros H. tx_inv. destruct (piEvent op); tx_inv; [|done].
  by destruct (event.Known _).
Qed.

Lemma presence_completed wf o op d o' d' :
  applyPresence now text wf o op d = inr (o', d') → o'.(mrCompleted) = o.(mrCompleted).
Proof. unfold applyPresence. intros H. tx_inv. by case_match. Qed.

Lemma update_completed policy o op d o' d' :
  applyUpdate now policy o op d = inr (o', d') → o'.(mrCompleted) = o.(mrCompleted).
Proof. unfold applyUpdate. intros H. by tx_inv. Qed.

Lemma tail_logged plan F target policy o d o' d' :
  o.(mrCompleted) = false → tail now clock plan F target policy o d o' d' → logged o d o' d'.
Proof.
  intros Hf [(_ & -> & ->)|(_ & o1 & d1 & o2 & d2 & b & H1 & H2 & H3 & ->)]; [by apply logged_refl|].
  pose proof (loop_completed _ _ _ _ _ _ (delete_completed F) H1) as C1.
  pose proof (loop_completed _ _ _ _ _ _ (absence_completed _) H2) as C2.
  apply (loop_logged _ _ _ _ _ _ (delete_logged F)) in H1.
  apply (loop_logged _ _ _ _ _ _ (absence_logged _)) in H2.
  eapply logged_trans; [exact H1|]. eapply logged_trans; [exact H2|].
  apply completeFixtureIfReadyTx_inv in H3
    as [(-> & ->)|(-> & row & rec & [_ _ _ Hk _ _ ->])].
  - apply logged_refl; try done. cbn. congruence.
  - eapply (logged_one _ _ _ _ rec); [done|..]; cbn [mrStableEventIDs mrRemovedEventIDs].
    + rewrite eventsOf_other, app_nil_r by (by rewrite Hk). done.
    + rewrite eventsOf_other, app_nil_r by (by rewrite Hk). done.
    + cbn. rewrite C2, C1, Hf. unfold isKind. by rewrite Hk.
Qed.

Lemma classify_effects out before :
  let r := classifyMutationFixtureChanges out before in
  r.(mrStableEventIDs) = out.(mrStableEventIDs) ∧ r.(mrRemovedEventIDs) = out.(mrRemovedEventIDs) ∧
  r.(mrCompleted) = out.(mrCompleted).
Proof. unfold classifyMutationFixtureChanges. by repeat case_match. Qed.

Lemma stages_logged plan f current policy out db r db' d1 d2 d3 d4 o0 o2 o3 o4 o5 after :
  stages now clock text plan f current policy out db r db' d1 d2 d3 d4 o0 o2 o3 o4 o5 after →
  out.(mrCompleted) = false → logged out db r db'.
Proof.
  intros [_ Hu Ho Hi Hp Hup Ht _ Hr] Hf.
  assert (logged out db o0 d1) as L1.
  { subst o0. unfold updateActiveFixtureTx in Hu.
    apply updateFixture_inv in Hu as [(-> & _)|(row & _ & _ & _ & ->)]; by apply logged_refl. }
  assert (o4.(mrCompleted) = false) as Hc.
  { rewrite (loop_completed _ _ _ _ _ _ (update_completed policy) Hup).
    rewrite (loop_completed _ _ _ _ _ _ (presence_completed _) Hp).
    rewrite (loop_completed _ _ _ _ _ _ (insert_completed _) Hi). by subst o0. }
  apply (loop_logged _ _ _ _ _ _ (insert_logged _)) in Hi.
  apply (loop_logged _ _ _ _ _ _ (presence_logged _)) in Hp.
  apply (loop_logged _ _ _ _ _ _ (update_logged policy)) in Hup.
  apply tail_logged in Ht; [|done].
  assert (logged o5 db' r db') as Hl.
  { subst r. destruct (classify_effects (o5 <| mrFixture := Some after |>) (Some current)) as (E1 & E2 & E3).
    by apply logged_refl. }
  eapply logged_trans; [exact L1|]. eapply logged_trans; [exact Hi|].
  eapply logged_trans; [exact Hp|]. eapply logged_trans; [exact Hup|].
  by eapply logged_trans.
Qed.

End log.

(** The audit trail is exact: the records a first active call appends describe,
    in order, precisely the events it reports as stable and as removed, and a
    completion record is among them exactly when it reports completion. *)
Theorem effects_are_logged v p r db db' :
  db_ok db → dbReceipts db !! receiptKey (callActive p) = None →
  run v (callActive p) db = inr (r, db') →
  ∃ new, dbEventLog db' = dbEventLog db ++ new ∧
    r.(mrStableEventIDs) = eventsOf auditlog.KindEventStable new ∧
    r.(mrRemovedEventIDs) = eventsOf auditlog.KindEventRemoved new ∧
    r.(mrCompleted) = existsb (isKind auditlog.KindFixtureCompleted) new.
Proof.
  intros Hok Hn (f & _ & HF & Hf & Ho)%run_outcome; [|done]. unfold receiptKey in Hn.
  destruct Ho as [rc Hrc _|r db' _ _ Hc Hr Hs Hco|policy r db1 db' _ _ _ _ Hw Hco]; [congruence|..];
    apply commit_settles in Hco as [t ->]%settles_receipts; try done.
  - exists []. cbn. by rewrite app_nil_r.
  - destruct Hw as (current & out & _ & _ & _ & [d ->] & Hw).
    apply applyActiveWrites_stages in Hw
      as (d1 & d2 & d3 & d4 & o0 & o2 & o3 & o4 & o5 & after & Hs).
    by apply stages_logged in Hs.
Qed.

(** ** Removal *)

(** The event is removed, and none of its work is pending. *)
Record gone (id : UUID) (d : DB) : Prop := {
  gn_event : ∃ e, dbEvents d !! id = Some e ∧ e.(event.eRemoved) = true ∧
    e.(event.eRemovedReason) = Some event.RemovalVAR;
  gn_downstream k x : dbDownstream d !! k = Some x → k.1.1 = id → is_Some x.(dsCompletedAt);
  gn_candidate k x : dbCandidates d !! k = Some x → k.1 = id → x.(cdOutcomeClass) ≠ "pending" }.

(** A row that keeps or gains its removal. *)
Lemma gone_setEvent id i e0 e d :
  dbEvents d !! i = Some e0 →
  (e0.(event.eRemoved) = true → e.(event.eRemoved) = true ∧
     e.(event.eRemovedReason) = e0.(event.eRemovedReason)) →
  gone id d → gone id (setEvent i e d).
Proof.
  intros He Hk [(x & Hx & Hr & Hv) Hd Hc]. split; [|exact Hd|exact Hc].
  cbn. rewrite lookup_insert. case_decide as Hi; [|by exists x].
  subst i. rewrite Hx in He. injection He as <-. destruct (Hk Hr) as [Hk1 Hk2].
  exists e. split_and!; [done|done|]. by rewrite Hk2.
Qed.

Lemma gone_closeRows id now i o d : gone id d → gone id (closeRows now i o d).
Proof.
  intros [He Hd Hc]. split; [exact He| |exact Hc]. intros k x. cbn. rewrite map_lookup_imap.
  destruct (dbDownstream d !! k) as [y|] eqn:E; [|done]. intros [= <-] Hk.
  destruct (_ && _); [by eexists|by eapply Hd].
Qed.

Lemma gone_rejectPending id i u at_ d : gone id d → gone id (rejectPending i u at_ d).
Proof.
  intros [He Hd Hc]. split; [exact He|exact Hd|]. intros k x. cbn. rewrite map_lookup_imap.
  destruct (dbCandidates d !! k) as [y|] eqn:E; [|done]. intros [= <-] Hk.
  destruct (pendingOf _ _ _ _); [done|by eapply Hc].
Qed.

Lemma gone_other id d d' :
  dbEvents d' = dbEvents d → dbDownstream d' = dbDownstream d → dbCandidates d' = dbCandidates d →
  gone id d → gone id d'.
Proof. intros H1 H2 H3 [He Hd Hc]. split; by rewrite ?H1, ?H2, ?H3. Qed.

(** An absence vote keeps what is gone, and its removal makes its event gone. *)
Lemma absence_gone now wf id a d b d' i :
  absence_outcome now wf id a d b d' → gone i d → gone i d'.
Proof.
  intros H Hg. destruct H as [|e _ He _ _|e at_ _ He _ _ Hr _ _]; [done|..].
  - eapply gone_setEvent; [exact He|done|]. by eapply gone_other; [..|exact Hg].
  - apply (gone_other i (closeRows now id event.OutcomeEventRemoved (rejectPending id "" at_
      (setEvent id (stampEvent now (removeVAR now (stampEvent now (voteDown e))))
        (setEvent id (stampEvent now (voteDown e)) (addDropVote id wf d)))))); try done.
    apply gone_closeRows, gone_rejectPending.
    eapply gone_setEvent; [apply lookup_insert_eq|cbn; congruence|].
    eapply gone_setEvent; [exact He|cbn; congruence|]. by eapply gone_other; [..|exact Hg].
Qed.

Lemma absence_removes now wf id a d d' : absence_outcome now wf id a d true d' → gone id d'.
Proof.
  intros H. remember true as b eqn:Eb. destruct H as [| |e at_ _ He _ _ _ _ _]; [done..|].
  split; cbn.
  - eexists. split_and!; [apply lookup_insert_eq|done|done].
  - intros k x. rewrite map_lookup_imap. destruct (dbDownstream d !! k) as [y|]; [|done].
    intros [= <-] Hk. rewrite bool_decide_true by done. cbn [andb].
    destruct y as [[t|] o]; by eexists.
  - intros k x. rewrite map_lookup_imap. destruct (dbCandidates d !! k) as [y|]; [|done].
    intros [= <-] Hk. unfold pendingOf. rewrite bool_decide_true by done. cbn [andb].
    destruct (String.eqb_spec (cdOutcomeClass y) "pending"); [done|done].
Qed.

Section removal.
Context (now clock : Time) (text : UUID → string).

Definition allGone (o : MutationResult) (d : DB) : Prop :=
  ∀ id, id ∈ o.(mrRemovedEventIDs) → gone id d.

Lemma absences_allGone wf ops o d o' d' :
  allGone o d → each (applyAbsence now clock wf) o ops d = inr (o', d') → allGone o' d'.
Proof.
  apply each_inv. intros o1 [id a] x o2 y _ HI H. unfold applyAbsence in H. tx_inv.
  match goal with H : registerAbsenceTx _ _ _ _ _ = inr (?b, _) |- _ =>
    apply registerAbsenceTx_outcome in H; destruct b end.
  - intros i. cbn. intros [Hi| ->%list_elem_of_singleton]%elem_of_app.
    + eapply absence_gone; [done|by apply HI].
    + by eapply absence_removes.
  - intros i Hi. eapply absence_gone; [done|by apply HI].
Qed.

(** Before the tail nothing has been reported as removed. *)
Lemma loop_removed {A} (body : MutationResult → A → Tx MutationResult) ops o d o' d' :
  (∀ o op d o' d', body o op d = inr (o', d') → o'.(mrRemovedEventIDs) = o.(mrRemovedEventIDs)) →
  each body o ops d = inr (o', d') → o'.(mrRemovedEventIDs) = o.(mrRemovedEventIDs).
Proof.
  intros Hb. apply (each_result body (λ x, mrRemovedEventIDs x = mrRemovedEventIDs o)); [|done].
  intros x op dx y dy Hx Hy. by rewrite (Hb _ _ _ _ _ Hy).
Qed.

Lemma insert_removed wf o op d o' d' :
  applyInsert now wf o op d = inr (o', d') → o'.(mrRemovedEventIDs) = o.(mrRemovedEventIDs).
Proof.
  unfold applyInsert. intros H. tx_inv. destruct (piEvent op); tx_inv; [|done].
  by destruct (event.Known _).
Qed.

Lemma presence_removed wf o op d o' d' :
  applyPresence now text wf o op d = inr (o', d') → o'.(mrRemovedEventIDs) = o.(mrRemovedEventIDs).
Proof. unfold applyPresence. intros H. tx_inv. by case_match. Qed.

Lemma update_removed policy o op d o' d' :
  applyUpdate now policy o op d = inr (o', d') → o'.(mrRemovedEventIDs) = o.(mrRemovedEventIDs).
Proof. unfold applyUpdate. intros H. by tx_inv. Qed.

Lemma delete_removed F o id d o' d' :
  applyDelete F o id d = inr (o', d') → o'.(mrRemovedEventIDs) = o.(mrRemovedEventIDs).
Proof. unfold applyDelete. intros H. tx_inv. by case_match. Qed.

Lemma stages_removed plan f current policy out db r db' d1 d2 d3 d4 o0 o2 o3 o4 o5 after :
  stages now clock text plan f current policy out db r db' d1 d2 d3 d4 o0 o2 o3 o4 o5 after →
  out.(mrRemovedEventIDs) = [] → allGone r db'.
Proof.
  intros [_ _ Ho Hi Hp Hup Ht _ Hr] Hf.
  assert (o4.(mrRemovedEventIDs) = []) as H4.
  { rewrite (loop_removed _ _ _ _ _ _ (update_removed policy) Hup).
    rewrite (loop_removed _ _ _ _ _ _ (presence_removed _) Hp).
    rewrite (loop_removed _ _ _ _ _ _ (insert_removed _) Hi). by subst o0. }
  assert (allGone o5 db') as H5.
  { destruct Ht as [(_ & -> & ->)|(_ & o1 & x1 & o6 & x2 & b & H1 & H2 & H3 & ->)].
    { intros id. by rewrite H4, elem_of_nil. }
    rewrite <-(loop_removed _ _ _ _ _ _ (delete_removed _) H1) in H4.
    apply absences_allGone in H2; [|intros id; by rewrite H4, elem_of_nil].
    apply completeFixtureIfReadyTx_inv in H3 as [(_ & ->)|(_ & row & rec & [_ _ _ _ _ _ ->])]; [done|].
    intros id Hid. by eapply gone_other; [..|apply H2]. }
  subst r. destruct (classify_effects (o5 <| mrFixture := Some after |>) (Some current)) as (_ & E & _).
  intros id. rewrite E. apply H5.
Qed.

End removal.

Lemma removed_gone v p r db db' id :
  db_ok db → dbReceipts db !! receiptKey (callActive p) = None →
  run v (callActive p) db = inr (r, db') → id ∈ r.(mrRemovedEventIDs) → gone id db'.
Proof.
  intros Hok Hn (f & _ & HF & Hf & Ho)%run_outcome; [|done]. unfold receiptKey in Hn.
  destruct Ho as [rc Hrc _|r db' _ _ Hc Hr Hs Hco|policy r db1 db' _ _ _ _ Hw Hco]; [congruence|..].
  - rewrite Hr. by intros ?%elem_of_nil.
  - apply commit_settles in Hco as [t ->]%settles_receipts; [|done].
    destruct Hw as (current & out & _ & _ & _ & [d ->] & Hw).
    apply applyActiveWrites_stages in Hw
      as (d1 & d2 & d3 & d4 & o0 & o2 & o3 & o4 & o5 & after & Hs).
    apply stages_removed in Hs; [|done]. intros Hid. by eapply gone_other; [..|apply Hs].
Qed.

(** C28: Removal is complete: every event a first active call reports as removed is
    stored as removed by VAR, with no open checklist row and no pending
    candidate left behind. *)
Theorem removed_events_are_gone v p r db db' id :
  db_ok db → dbReceipts db !! receiptKey (callActive p) = None →
  run v (callActive p) db = inr (r, db') → id ∈ r.(mrRemovedEventIDs) → gone id db'.
Proof. apply removed_gone. Qed.

(** ** Completion *)

(** C18: Completion safety: when a first active call reports completion, the policy
    was trusted, the fixture is stored as completed at the planned time, its
    status is terminal and was first observed terminal before the grace limit, and
    no event of it still awaits confirmation and no checklist row of its events is
    open. *)
Theorem completion_is_settled v p r db db' :
  db_ok db → dbReceipts db !! receiptKey (callActive p) = None →
  run v (callActive p) db = inr (r, db') → r.(mrCompleted) = true →
  let F := fixtureOf (callActive p) in
  r.(mrPolicy) = PolicyTrusted ∧
  (∃ row at_, dbFixtures db' !! F = Some row ∧ row.(fixture.fState) = fixture.StateCompleted ∧
     row.(fixture.fCompletedAt) = Some (timestamptz p.(apCompletion).(cnCompletedAt)) ∧
     one_of row.(fixture.fAPIStatus).(fixture.Short) terminalStatuses = true ∧
     row.(fixture.fTerminalObservedAt) = Some at_ ∧
     at_ ≤ timestamptz p.(apCompletion).(cnTerminalBefore)) ∧
  (∀ id e, dbEvents db' !! id = Some e → unsettled F e = false) ∧
  (∀ k d, dbDownstream db' !! k = Some d → openRow F (dbEvents db') (k, d) = false).
Proof.
  intros Hok Hn (f & _ & HF & Hf & Ho)%run_outcome Hcomp; [|done]. unfold receiptKey in Hn.
  destruct Ho as [rc Hrc _|r db' _ _ Hc _ _ _|policy r db1 db' _ Hpol Hp _ Hw Hco]; [congruence..|].
  pose proof (writes_db_ok _ _ _ _ _ (callWrites_writes _ _ _ _ _ _ _ Hpol Hf Hw) Hok) as Hok1.
  apply commit_settles in Hco as [t ->]%settles_receipts; [|done].
  destruct Hw as (current & out & Hcur & Hid & _ & [d Hout] & Hw). rewrite Hf in Hid.
  apply applyActiveWrites_stages in Hw
    as (d1 & d2 & d3 & d4 & o0 & o2 & o3 & o4 & o5 & after & [_ _ Ho0 Hi Hpr Hup Ht _ Hr]).
  assert (o4.(mrCompleted) = false) as Hc4.
  { rewrite (loop_completed _ _ _ _ _ _ (update_completed _ policy) Hup).
    rewrite (loop_completed _ _ _ _ _ _ (presence_completed _ _ _) Hpr).
    rewrite (loop_completed _ _ _ _ _ _ (insert_completed _ _) Hi). by subst o0 out. }
  assert (o5.(mrCompleted) = true) as Hc5.
  { subst r. destruct (classify_effects (o5 <| mrFixture := Some after |>) (Some current)) as (_ & _ & E).
    by rewrite <-Hcomp, E. }
  destruct Ht as [(_ & -> & _)|(Htr & o1 & x1 & o6 & x2 & b & H1 & H2 & H3 & ->)]; [congruence|].
  apply completeFixtureIfReadyTx_inv in H3 as [(-> & _)|(_ & row & rec & [Hrow Hready _ _ _ _ ->])]; [done|].
  assert (fixture.fID (activeTarget f current policy) = fixtureOf (callActive p)) as HT.
  { unfold activeTarget. destruct (_ =? _)%string; [|done]. rewrite <-Hid. apply merge_kept. }
  rewrite HT in *. cbn [fixtureOf] in *. set (F := fixtureOf (callActive p)) in *.
  assert (fixture.fID row = F) as HR.
  { refine (proj1 (ok_fixture _ Hok1 F (stampFixture _ (completeRow _ row)) _)).
    cbn. apply lookup_insert_eq. }
  apply completionReady_active in Hready as (_ & (at_ & Hat & Hle) & Hst & Hev & Hrows).
  rewrite HR in *. split; [congruence|]. split; [|split; [exact Hev|exact Hrows]].
  eexists _, at_. split; [cbn; apply lookup_insert_eq|]. by split_and!.
Qed.

(** ** Debounce *)

(** Presence votes of several workflows, one after the other. *)
Fixpoint castVotes (now : Time) (text : UUID → string) (id : UUID) (audit : auditlog.Record_)
    (ws : list string) : Tx (list bool) :=
  match ws with
  | [] => mret []
  | w :: ws =>
      b ← registerPresenceTx now text w (mkPlannedEventPresence id audit);
      bs ← castVotes now text id audit ws;
      mret (b :: bs)
  end.

Section debounce.
Context (now : Time) (text : UUID → string) (id : UUID) (audit : auditlog.Record_).

Lemma events_check_voteUp e :
  events_check e = true → events_check (stampEvent now (voteUp e)) = true ∧
  0 ≤ e.(event.eDebounceCount) ≤ 3.
Proof.
  unfold events_check, events_debounce_check, events_removed_state. cbn.
  rewrite !andb_true_iff, !Z.leb_le. intros [[Ht Hc] Hr]. split_and!; try done; lia.
Qed.

Lemma events_check_trigger e :
  events_check e = true → events_check (stampEvent now (trigger e)) = true.
Proof. done. Qed.

(** One new vote always goes through. *)
Lemma presence_progress w db e :
  dbEvents db !! id = Some e → e.(event.eRemoved) = false → events_check e = true →
  (id, w) ∉ dbMonitorVotes db → auditFor auditlog.KindEventStable id audit = true →
  let fires := ((voteUp e).(event.eDebounceCount) =? 3) && negb e.(event.eDownstreamTriggered) in
  ∃ db' e', registerPresenceTx now text w (mkPlannedEventPresence id audit) db = inr (fires, db') ∧
    dbEvents db' !! id = Some e' ∧ e'.(event.eRemoved) = false ∧ events_check e' = true ∧
    e'.(event.eDebounceCount) = Z.min (e.(event.eDebounceCount) + 1) 3 ∧
    e'.(event.eDownstreamTriggered) = e.(event.eDownstreamTriggered) || fires ∧
    dbMonitorVotes db' = {[(id, w)]} ∪ dbMonitorVotes db ∧
    dbEventLog db' = dbEventLog db ++ (if fires then [audit] else []).
Proof.
  intros He Hr Hc Hnin Ha fires. destruct (events_check_voteUp e Hc) as [Hc1 _].
  pose (e1 := stampEvent now (voteUp e)).
  pose (db1 := setEvent id e1 (addMonitorVote id w db)).
  assert (dbEvents db1 !! id = Some e1) as He1 by apply lookup_insert_eq.
  unfold registerPresenceTx. cbn [ppEventID ppAudit].
  rewrite (bind_run _ _ _ _ _ (insertMonitorVote_run id w db e He Hnin)). cbn [negb].
  rewrite (bind_run _ _ _ (Some e1) db1) by (apply updateEvent_run; [exact He|by rewrite Hr|exact Hc1]).
  assert (fires = negb (negb (e1.(event.eDebounceCount) =? 3) || e1.(event.eDownstreamTriggered))) as Hfires.
  { unfold fires. by rewrite negb_orb, negb_involutive. }
  destruct (negb (e1.(event.eDebounceCount) =? 3) || _) eqn:E; cbn [negb] in Hfires; rewrite Hfires.
  { exists db1, e1. split_and!; try done; [by rewrite orb_false_r|by rewrite app_nil_r]. }
  apply orb_false_iff in E as [_ Ht].
  pose (e2 := stampEvent now (trigger e1)).
  rewrite (bind_run _ _ _ (Some e2) (setEvent id e2 db1))
    by (apply updateEvent_run; [exact He1|by rewrite Ht|by apply events_check_trigger]).
  rewrite (bind_run _ _ _ _ _ (require_run _ _ _ eq_refl)).
  rewrite (bind_run _ _ _ _ _ (require_run _ _ _ Ha)).
  rewrite (bind_run _ _ _ _ _ (insertAuditLog_run _ _ (auditFor_valid _ _ _ Ha))).
  destruct (insertDownstream_run id "discovery" ("event-" +:+ text id)
    (appendLog audit (setEvent id e2 db1)) e2) as (db2 & Hd & Hd2); [apply lookup_insert_eq|].
  rewrite (bind_run _ _ _ _ _ Hd). rewrite Hd2.
  exists (appendLog audit (setEvent id e2 db1) <| dbDownstream := dbDownstream db2 |>), e2.
  split_and!; try done; [apply lookup_insert_eq|by rewrite orb_true_r].
Qed.

(** How many votes reported that they triggered the search. *)
Definition fired (bs : list bool) : nat := length (filter (λ b, b = true) bs).

Lemma castVotes_progress ws : ∀ db e,
  dbEvents db !! id = Some e → e.(event.eRemoved) = false → events_check e = true →
  NoDup ws → (∀ w, w ∈ ws → (id, w) ∉ dbMonitorVotes db) →
  auditFor auditlog.KindEventStable id audit = true →
  let n := Z.of_nat (length ws) in
  let reached := (0 <? n) && (3 <=? e.(event.eDebounceCount) + n) in
  ∃ bs db' e', castVotes now text id audit ws db = inr (bs, db') ∧
    dbEvents db' !! id = Some e' ∧
    e'.(event.eDebounceCount) = Z.min (e.(event.eDebounceCount) + n) 3 ∧
    e'.(event.eDownstreamTriggered) = e.(event.eDownstreamTriggered) || reached ∧
    fired bs = (if reached && negb e.(event.eDownstreamTriggered) then 1%nat else 0%nat) ∧
    dbEventLog db' = dbEventLog db ++ repeat audit (fired bs).
Proof.
  induction ws as [|w ws IH]; intros db e He Hr Hc Hnd Hnin Ha n reached.
  - destruct (events_check_voteUp e Hc) as [_ Hb]. exists [], db, e. unfold reached, n. cbn.
    split_and!; [done|done|lia|by rewrite orb_false_r|done|by rewrite app_nil_r].
  - apply NoDup_cons in Hnd as [Hw Hnd].
    destruct (events_check_voteUp e Hc) as [_ Hb].
    destruct (presence_progress w db e) as (db1 & e1 & H1 & He1 & Hr1 & Hc1 & Hn1 & Ht1 & Hv1 & Hl1);
      [done..|apply Hnin; left|done|].
    destruct (IH db1 e1) as (bs & db2 & e2 & H2 & He2 & Hn2 & Ht2 & Hf2 & Hl2); try done.
    { intros w' Hw'. rewrite Hv1. intros [[= ->]%elem_of_singleton|Hin]%elem_of_union; [done|].
      revert Hin. apply Hnin. by right. }
    set (fires := ((voteUp e).(event.eDebounceCount) =? 3) && negb e.(event.eDownstreamTriggered)) in *.
    exists (fires :: bs), db2, e2. cbn [castVotes].
    rewrite (bind_run _ _ _ _ _ H1), (bind_run _ _ _ _ _ H2).
    assert (Z.of_nat (length (w :: ws)) = Z.of_nat (length ws) + 1) as Hlen by (cbn; lia).
    assert (event.eDebounceCount (voteUp e) = Z.min (event.eDebounceCount e + 1) 3) as Hup by done.
    assert (fired (fires :: bs) = ((if fires then 1 else 0) + fired bs)%nat) as Hfd.
    { unfold fired. rewrite filter_cons. by destruct fires. }
    unfold reached, n in *. rewrite Hlen. rewrite Hn1 in Hn2, Ht2, Hf2.
    split_and!; [done|done|lia|..].
    + rewrite Ht2, Ht1. unfold fires. rewrite Hup.
      destruct (event.eDownstreamTriggered e); cbn; [done|]. rewrite andb_true_r. lia.
    + rewrite Hfd, Hf2, Ht1. unfold fires. rewrite Hup.
      destruct (event.eDownstreamTriggered e); cbn; rewrite ?andb_false_r, ?andb_true_r; [done|].
      destruct (Z.eqb_spec (Z.min (event.eDebounceCount e + 1) 3) 3);
        repeat (case_match; simpl_bools); lia.
    + rewrite Hl2, Hl1, Hfd, <-app_assoc. f_equal. by destruct fires.
Qed.

End debounce.

(** C19: Debounce: presence votes of distinct new workflows always go through; they
    raise the counter of a standing event to at most 3, and exactly one of them -
    none if the search had been triggered before - reports that it triggered the
    search, once the counter reaches 3, with exactly one audit record, the one the
    caller supplies for the event's becoming stable. *)
Theorem debounce_triggers_once now text id audit ws db e :
  dbEvents db !! id = Some e → e.(event.eRemoved) = false → events_check e = true →
  NoDup ws → (∀ w, w ∈ ws → (id, w) ∉ dbMonitorVotes db) →
  auditFor auditlog.KindEventStable id audit = true →
  let n := Z.of_nat (length ws) in
  let reached := (0 <? n) && (3 <=? e.(event.eDebounceCount) + n) in
  ∃ bs db' e', castVotes now text id audit ws db = inr (bs, db') ∧
    dbEvents db' !! id = Some e' ∧
    e'.(event.eDebounceCount) = Z.min (e.(event.eDebounceCount) + n) 3 ∧
    e'.(event.eDownstreamTriggered) = e.(event.eDownstreamTriggered) || reached ∧
    fired bs = (if reached && negb e.(event.eDownstreamTriggered) then 1%nat else 0%nat) ∧
    dbEventLog db' = dbEventLog db ++ repeat audit (fired bs).
Proof. apply castVotes_progress. Qed.

End effects.
