(* ===== verification/Scenario.v ===== *)
(** A concrete match day for the write boundary: one active fixture with two
    events, the observation that confirms one and drops the other, the
    observation that completes a fixture, and restricted ones.  The theorems of
    Guarantees.v and Effects.v are applied to it. *)
From S2P Require Import Prelude GoStrings ApiFootball Fixture Event Integrity Health Auditlog Presentation Plan Store Mutation Commit Guarantees Effects.
#[local] Open Scope string_scope.
#[local] Open Scope list_scope.
#[local] Open Scope Z_scope.
Import apifootball providerintegrity health mutation pg boundary commit guarantees effects.

Module scenario.

Definition at_ (ms : Z) : Time := ms * 1000000.

Definition row (status : string) (polled : Time) : fixture.Fixture :=
  fixture.mkFixture 7 fixture.StateActive (fixture.mkAPIStatus status "") (Some 90) None (at_ 1)
    (fixture.mkTeam 40 "Home") (fixture.mkTeam 50 "Away") (fixture.mkLeague 39 "League" 2026 "" "")
    (Some 1) (Some 0) None None (Some true) (Some false) (Some (at_ 1)) None
    (if (status =? "ft")%string then Some (at_ 2) else None) None (Some polled) (at_ 1) (at_ 1).

Definition goal (id : UUID) (count : Z) : event.Event :=
  event.mkEvent id 7 (event.ComposeNaturalKey 40 (Some 9) event.TypeGoal (Z.pos id)) event.TypeGoal
    "normal goal" (event.mkTeam 40 "Home") (event.mkPlayer (Some 9) (Some "Scorer"))
    (event.mkPlayer None None) 80 None (at_ 2) count false false false false None None (at_ 2) (at_ 2).

Definition tables (fixtures : gmap Z fixture.Fixture) (events : gmap UUID event.Event)
    (policy : MutationPolicy) : DB :=
  mkDB fixtures events ∅ ∅ ∅ ∅ [] (mkProviderHealth (at_ 5) 0 policy
      (mkProviderHealthEvidence 1 [] zero_time []))
    {[7 := (newFixtureHealth 7) <| hLastPollID := "obs" |> <| hLastObservedAt := at_ 5 |>
             <| hEvidence := mkFixtureHealthEvidence 1 AvailabilityUsable "" FreshnessUnknown [] |>]} ∅ ∅ ∅.

(** Two candidate goals, one vote short of confirmation and of removal. *)
Definition live (policy : MutationPolicy) : DB :=
  tables {[7 := row "2h" (at_ 3)]} (<[1%positive := goal 1 2]> {[2%positive := goal 2 1]}) policy.

(** Terminal since [at_ 2], with nothing pending. *)
Definition ended : DB := tables {[7 := row "ft" (at_ 3)]} ∅ PolicyTrusted.

Definition record (kind : auditlog.Kind) (id : UUID) : auditlog.Record_ :=
  auditlog.mkRecord kind (Some id) 7 (auditlog.eventStable
    (auditlog.mkEventStablePayload (Some id) 7 "goal" "" 80 None "" 40 "")).

Definition guard (health : bool) : ObservationGuard := mkObservationGuard "obs" (at_ 5) 0 health.

Definition plan (status : string) (local : MutationPolicy) (presences : list UUID)
    (absences : list UUID) : ActiveMutationPlan :=
  mkActiveMutationPlan (guard true) (Some (row status (at_ 5))) true (Some (at_ 3)) local "monitor-1"
    [] ((λ id, mkPlannedEventPresence id (record auditlog.KindEventStable id)) <$> presences) []
    ((λ id, mkPlannedEventAbsence id (record auditlog.KindEventRemoved id)) <$> absences) []
    (mkCompletionPlan (at_ 4) (at_ 5) 60 None).

Definition world : env := mkEnv (at_ 6) (at_ 6) (λ id, Itoa (Z.pos id)) EnforcementEnforce.

(** The answer and the tables after a call that succeeds. *)
Definition after (c : call) (db : DB) : MutationResult * DB :=
  match run world c db with inr p => p | inl _ => (emptyResult, db) end.

Definition confirm : call := callActive (plan "2h" PolicyTrusted [1%positive] [2%positive]).
Definition restricted : call := callActive (plan "2h" PolicyPositiveOnly [1%positive] [2%positive]).
Definition finish : call := callActive (plan "ft" PolicyTrusted [] []).
Definition rejected : call := callActive (plan "2h" PolicyRejected [1%positive] [2%positive]).

Example confirm_confirms :
  (after confirm (live PolicyTrusted)).1.(mrStableEventIDs) = [1%positive] ∧
  (after confirm (live PolicyTrusted)).1.(mrRemovedEventIDs) = [2%positive].
Proof. vm_compute. by split. Qed.

Example finish_finishes : (after finish ended).1.(mrCompleted) = true.
Proof. vm_compute. done. Qed.

Lemma tables_ok fixtures events policy :
  (∀ i f, fixtures !! i = Some f → f.(fixture.fID) = i ∧ fixtures_check f = true) →
  (∀ id e, events !! id = Some e → e.(event.eID) = id ∧ events_check e = true ∧
     is_Some (fixtures !! e.(event.eFixtureID))) →
  (∀ i1 i2 e1 e2, events !! i1 = Some e1 → events !! i2 = Some e2 →
     e1.(event.eFixtureID) = e2.(event.eFixtureID) →
     e1.(event.eNaturalKey) = e2.(event.eNaturalKey) → i1 = i2) →
  db_ok (tables fixtures events policy).
Proof. intros H1 H2 H3. by split. Qed.

Lemma row_ok status polled i f :
  ({[7 := row status polled]} : gmap Z fixture.Fixture) !! i = Some f →
  f.(fixture.fID) = i ∧ fixtures_check f = true.
Proof.
  intros [<- <-]%lookup_singleton_Some. split; [done|]. unfold row. by destruct (_ =? _)%string.
Qed.

Lemma live_ok policy : db_ok (live policy).
Proof.
  apply tables_ok; [apply row_ok|..].
  - intros id e [[<- <-]|[_ [<- <-]%lookup_singleton_Some]]%lookup_insert_Some;
      (split_and!; [done..|by eexists]).
  - intros i1 i2 e1 e2 [[<- <-]|[_ [<- <-]%lookup_singleton_Some]]%lookup_insert_Some
      [[<- <-]|[_ [<- <-]%lookup_singleton_Some]]%lookup_insert_Some; done.
Qed.

Lemma ended_ok : db_ok ended.
Proof. apply tables_ok; [apply row_ok|done..]. Qed.

(** No fixture is stored. *)
Definition blank : DB := tables ∅ ∅ PolicyTrusted.

Lemma blank_ok : db_ok blank.
Proof. by apply tables_ok. Qed.

(** The ingestion of a new fixture. *)
Definition ingest : call := callFixture (mkFixtureMutationPlan (guard false) MutationModeIngest
  (Some (row "2h" (at_ 5))) false None PolicyTrusted false None).

(** ** The theorems at work *)

Definition answer (c : call) (db : DB) : MutationResult := (after c db).1.
Definition stored (c : call) (db : DB) : DB := (after c db).2.

Lemma run_refines_witness :
  ∃ db1, rtc (write 7 true (at_ 6)) (live PolicyTrusted) db1 ∧
    rtc (settle 7) db1 (stored confirm (live PolicyTrusted)) ∧
    ((answer confirm (live PolicyTrusted)).(mrApplied) = false → db1 = live PolicyTrusted).
Proof.
  apply (run_refines world confirm (answer confirm (live PolicyTrusted))); [apply live_ok|].
  vm_compute. reflexivity.
Defined.

Lemma run_preserves_schema_witness : db_ok (stored confirm (live PolicyTrusted)).
Proof.
  apply (run_preserves_schema world confirm (answer confirm (live PolicyTrusted)) (live PolicyTrusted));
    [apply live_ok|vm_compute; reflexivity].
Defined.

Lemma run_isolated_witness :
  others_untouched 7 (live PolicyTrusted) (stored confirm (live PolicyTrusted)).
Proof.
  apply (run_isolated world confirm (answer confirm (live PolicyTrusted)));
    [apply live_ok|vm_compute; reflexivity].
Defined.

Lemma restricted_only_adds_witness :
  adds (live PolicyTrusted) (stored restricted (live PolicyTrusted)).
Proof.
  apply (restricted_only_adds world restricted (answer restricted (live PolicyTrusted)));
    [apply live_ok|vm_compute; reflexivity|vm_compute; discriminate].
Defined.

Lemma unapplied_witness :
  ∃ receipts, stored rejected (live PolicyTrusted) = (live PolicyTrusted) <| dbReceipts := receipts |>.
Proof.
  apply (unapplied_changes_only_receipts world rejected (answer rejected (live PolicyTrusted)));
    [apply live_ok|vm_compute; reflexivity|vm_compute; reflexivity].
Defined.

Lemma retry_repeats_witness :
  run world rejected (stored confirm (live PolicyTrusted)) =
    inr (answer confirm (live PolicyTrusted), stored confirm (live PolicyTrusted)).
Proof.
  apply (retry_repeats world confirm (answer confirm (live PolicyTrusted)) (live PolicyTrusted)
    (stored confirm (live PolicyTrusted)));
    [apply live_ok|vm_compute; reflexivity| |reflexivity|reflexivity|reflexivity|reflexivity].
  split; [reflexivity|]. eexists. vm_compute. reflexivity.
Defined.

Lemma lifecycle_forward_witness : forward_db ended (stored finish ended).
Proof.
  apply lifecycle_forward; [apply ended_ok|]. apply rtc_once.
  apply (committed_call world finish (answer finish ended)). vm_compute. reflexivity.
Defined.

Lemma absent_fixture_witness : (answer ingest blank).(mrApplied) = true.
Proof.
  apply (absent_fixture_never_reports world ingest _ blank (stored ingest blank));
    [apply blank_ok|reflexivity|vm_compute; reflexivity].
Defined.

Lemma applied_observation_witness :
  (∀ r, dbFixtures (live PolicyTrusted) !! 7 = Some r →
     newerObservation (guardOf confirm).(ogObservedAt) r.(fixture.fLastPolledAt) = true ∧
     (∀ p, confirm = callActive p → r.(fixture.fState) = fixture.StateActive)) ∧
  ∃ r', dbFixtures (stored confirm (live PolicyTrusted)) !! 7 = Some r' ∧
    r'.(fixture.fLastPolledAt) = Some (guardOf confirm).(ogObservedAt).
Proof.
  apply (applied_observation_is_newest world confirm (answer confirm (live PolicyTrusted)));
    [apply live_ok|reflexivity|vm_compute; reflexivity|vm_compute; reflexivity].
Defined.

Lemma effects_are_logged_witness :
  ∃ new, dbEventLog (stored confirm (live PolicyTrusted)) = dbEventLog (live PolicyTrusted) ++ new ∧
    (answer confirm (live PolicyTrusted)).(mrStableEventIDs) = eventsOf auditlog.KindEventStable new ∧
    (answer confirm (live PolicyTrusted)).(mrRemovedEventIDs) = eventsOf auditlog.KindEventRemoved new ∧
    (answer confirm (live PolicyTrusted)).(mrCompleted) =
      existsb (isKind auditlog.KindFixtureCompleted) new.
Proof.
  apply (effects_are_logged world (plan "2h" PolicyTrusted [1%positive] [2%positive]));
    [apply live_ok|reflexivity|vm_compute; reflexivity].
Defined.

Lemma removed_events_are_gone_witness : gone 2%positive (stored confirm (live PolicyTrusted)).
Proof.
  apply (removed_events_are_gone world (plan "2h" PolicyTrusted [1%positive] [2%positive])
    (answer confirm (live PolicyTrusted)) (live PolicyTrusted));
    [apply live_ok|reflexivity|vm_compute; reflexivity|].
  vm_compute. left.
Defined.

Lemma completion_is_settled_witness :
  (answer finish ended).(mrPolicy) = PolicyTrusted ∧
  (∃ r t, dbFixtures (stored finish ended) !! 7 = Some r ∧
     r.(fixture.fState) = fixture.StateCompleted ∧
     r.(fixture.fCompletedAt) = Some (timestamptz (at_ 5)) ∧
     one_of r.(fixture.fAPIStatus).(fixture.Short) terminalStatuses = true ∧
     r.(fixture.fTerminalObservedAt) = Some t ∧ t ≤ timestamptz (at_ 4)) ∧
  (∀ id e, dbEvents (stored finish ended) !! id = Some e → unsettled 7 e = false) ∧
  (∀ k d, dbDownstream (stored finish ended) !! k = Some d →
     openRow 7 (dbEvents (stored finish ended)) (k, d) = false).
Proof.
  apply (completion_is_settled world (plan "ft" PolicyTrusted [] []) (answer finish ended) ended);
    [apply ended_ok|reflexivity|vm_compute; reflexivity|vm_compute; reflexivity].
Defined.

Lemma debounce_witness :
  ∃ bs db' e', castVotes (at_ 6) (λ id, Itoa (Z.pos id)) 1%positive
      (record auditlog.KindEventStable 1%positive) ["a"; "b"] (live PolicyTrusted) = inr (bs, db') ∧
    dbEvents db' !! 1%positive = Some e' ∧ e'.(event.eDebounceCount) = 3 ∧
    e'.(event.eDownstreamTriggered) = true ∧ fired bs = 1%nat ∧
    dbEventLog db' = dbEventLog (live PolicyTrusted) ++
      repeat (record auditlog.KindEventStable 1%positive) (fired bs).
Proof.
  apply (debounce_triggers_once (at_ 6) _ 1%positive (record auditlog.KindEventStable 1%positive)
    ["a"; "b"] (live PolicyTrusted) (goal 1 2)); try reflexivity.
  - apply NoDup_cons. split; [|apply NoDup_singleton]. intros H%list_elem_of_singleton. discriminate.
  - intros w _ H. apply elem_of_empty in H. exact H.
Defined.

End scenario.
