(* ===== verification/Showing.v ===== *)
(** A goal with its clips: the concrete runs on which the theorems about the video tables
    are applied. *)
From S2P Require Import Prelude GoStrings Fixture Event Vision Video Selection Jsonb Discovery Integrity Health Store Preserve Search Wire Flow Pipeline Pool Candidates Lineage Media Gallery Placement Reselect Persist MediaLaws Placing Restoring Links Rows Bytes Recovering Votes World Scenario.
From Stdlib Require Import SpecFloat.
#[local] Open Scope string_scope.
#[local] Open Scope list_scope.
#[local] Open Scope Z_scope.
Import discoverycontract jsonb video selection media gallery placement reselect medialaws placing restoring links votes.

Module showing.

#[local] Instance env0 : Env :=
  {| now := 100; clock := 100; random := λ id, Some [byte_of (Z.pos id)]; text := λ id, Itoa (Z.pos id);
     marshalledLength := λ _, Some 100; storedLength := λ _, 100 |}.

Definition digest : string := EncodeToString (replicate 32 Byte.x00).
#[local] Instance digests0 : Digests :=
  {| snapshotDigest := λ _, digest; requestDigest := λ _, digest; placementDigest := λ _, digest;
     candidateID := encode; receiptFits := λ _, true |}.

(** ** The tables before any clip *)

Definition goalOf (removed : bool) : event.Event := (scenario.goal 2 3) <| event.eRemoved := removed |>.
Definition empty (removed : bool) : Media :=
  mkMedia (scenario.tables ∅ {[2%positive := goalOf removed]} providerintegrity.PolicyTrusted) ∅ ∅ ∅ ∅.

Lemma empty_ok removed : media_ok (empty removed).
Proof. split; try done. by intros x [y Hx]. Qed.

(** ** Two placements *)

Definition asset (id : UUID) (b : Byte.byte) : Asset :=
  mkAsset (Some id) (Some 2%positive) 7 "bucket" (Itoa (Z.pos id)) None (replicate 16 b) ""
    LegacyFrameHashVersion [5] 1280 720 8000 1000000 None None 1 None 10.

Definition candidate (url : string) : PlacementCandidate :=
  mkPlacementCandidate (mkCandidateEvidence 2 7 1 "q" url "t" "v" (S754_zero false) "u" (S754_zero false))
    OutcomePromoted None "".

Definition placement (a : Asset) (losers : list (option UUID)) (url : string) : ClipPlacement :=
  mkClipPlacement 2 7 (aID a) None (Some a) None true (Some 30) losers [candidate url] 50 None None.

Definition first : ClipPlacement := placement (asset 1 Byte.x01) [] "url1".
Definition better : ClipPlacement := placement (asset 5 Byte.x05) [Some 1%positive] "url2".

Definition outcome {A} (m : MTx A) (s : Media) (d : A) : A * Media :=
  match m s with inr r => r | inl _ => (d, s) end.

Definition s1 : Media := Eval vm_compute in (outcome (CommitClipPlacement first) (empty false) noPlacement).2.
Definition out1 : ClipPlacementResult :=
  Eval vm_compute in (outcome (CommitClipPlacement first) (empty false) noPlacement).1.
Definition s2 : Media := Eval vm_compute in (outcome (CommitClipPlacement better) s1 noPlacement).2.
Definition out2 : ClipPlacementResult :=
  Eval vm_compute in (outcome (CommitClipPlacement better) s1 noPlacement).1.

Lemma first_runs : CommitClipPlacement first (empty false) = inr (out1, s1).
Proof. vm_compute. reflexivity. Qed.
Lemma better_runs : CommitClipPlacement better s1 = inr (out2, s2).
Proof. vm_compute. reflexivity. Qed.

Lemma s1_ok : media_ok s1.
Proof. apply (CommitClipPlacement_ok _ _ _ _ (empty_ok false) first_runs). Qed.

(** The link of the first clip leads to the better one, one step away. *)
Definition oldShare : ShareRow := mkShareRow 1 2 true (Some 30) ShareStateActive None None 1 0.

Lemma links_survive_witness :
  ∃ h' n a, mShares s2 !! "s_01" = Some h' ∧ leadsTo s2 h' n a ∧ arEventID a = 2%positive ∧
    sharerepo.ResolveShare "s_01" s2 = if (n <=? 64)%nat then inr (resolved h' a, s2) else inl ErrNotFound.
Proof.
  destruct (links_survive s1 s2 "s_01" oldShare) as (_ & h' & n & a & H1 & _ & H2 & H3 & _ & H4).
  - exact s1_ok.
  - apply rtc_once. eapply step_place. exact better_runs.
  - vm_compute. reflexivity.
  - exists h', n, a. by split_and!.
Defined.

Lemma resolves_to_better :
  sharerepo.ResolveShare "s_01" s2 = inr (sharerepo.mkResolvedShare ShareStateSuperseded "bucket" "5", s2).
Proof. vm_compute. reflexivity. Qed.

Definition gone : Media := Eval vm_compute in (outcome (CommitClipPlacement first) (empty true) noPlacement).2.
Lemma removed_runs : CommitClipPlacement first (empty true) = inr (noPlacement <| crEventRemoved := true |>, gone).
Proof. vm_compute. reflexivity. Qed.

Lemma removed_places_witness : mAssets gone = ∅ ∧ settledFor first (candidate "url1") gone.
Proof.
  destruct (removed_places_nothing first (noPlacement <| crEventRemoved := true |>) (empty true) gone (goalOf true))
    as (_ & H2 & H3).
  - vm_compute. reflexivity.
  - reflexivity.
  - exact removed_runs.
  - split; [by rewrite H2|]. apply H3. left.
Defined.

(** A second source of the first clip, placed with a selection. *)
Definition request : SelectionRequest :=
  mkSelectionRequest (Some 9%positive) (Some 2%positive) 7 digest onePolicy [Some 1%positive].
Definition again : ClipPlacement :=
  mkClipPlacement 2 7 (Some 1%positive) (Some 1%positive) None None true (Some 30) [] [candidate "url2"] 60 None
    (Some request).
Definition s4 : Media := Eval vm_compute in (outcome (CommitClipPlacement again) s1 noPlacement).2.
Definition out4 : ClipPlacementResult :=
  Eval vm_compute in (outcome (CommitClipPlacement again) s1 noPlacement).1.

Lemma again_runs : CommitClipPlacement again s1 = inr (out4, s4).
Proof. vm_compute. reflexivity. Qed.

Lemma s4_votes : arPopularity <$> mAssets s4 !! 1%positive = Some 2.
Proof. vm_compute. reflexivity. Qed.

(** The votes of both sources are with the better clip. *)
Lemma empty_tallied removed : tallied 2 (empty removed) ∧ attributed 2 (empty removed).
Proof. by split. Qed.

Lemma votes_counted_witness :
  (tallied 2 s1 ∧ attributed 2 s1) ∧ ∃ mid, scored onePolicy 2 mid s4.
Proof.
  split.
  - apply (votes_counted first out1 (empty false) s1 (empty_ok false) first_runs eq_refl); apply empty_tallied.
  - assert (∃ placed mid, applyClipPlacementTx (again <| plCommittedAt ::= placementNow |>) s1 = inr (placed, mid) ∧
      scored (sqPolicy request) 2 mid s4) as (placed & mid & _ & H)
      by exact (votes_counted again out4 s1 s4 s1_ok again_runs eq_refl).
    exists mid. exact H.
Defined.

Lemma s2_votes : (λ a, (arPopularity a, arSupersededBy a)) <$> mAssets s2 =
  <[5%positive := (2, None)]> {[1%positive := (1, Some 5%positive)]}.
Proof. vm_compute. reflexivity. Qed.

(** ** A selection *)

Definition chosen1 : SelectionResult := Eval vm_compute in
  (outcome (CommitSelection request) s1 (mkSelectionResult emptyPlan ∅ false "")).1.
Definition s3 : Media := Eval vm_compute in
  (outcome (CommitSelection request) s1 (mkSelectionResult emptyPlan ∅ false "")).2.

Lemma request_runs : CommitSelection request s1 = inr (chosen1, s3).
Proof. vm_compute. reflexivity. Qed.

Lemma selection_shows_witness : ∃ ev, shows ev (srPlan chosen1) (srShareIDs chosen1) s1 s3.
Proof.
  destruct (selection_shows_plan request chosen1 s1 s3 s1_ok request_runs) as
    [(id & prior & H1 & H2 & _)|(id & ev & sn & prior & _ & _ & _ & _ & _ & _ & H & _)].
  - exfalso. vm_compute in H1. injection H1 as <-. vm_compute in H2. discriminate.
  - exists ev. exact H.
Defined.

(** ** The activities *)

#[local] Instance deployment0 : persist.Deployment :=
  {| persist.Bucket := "bucket"; persist.AssetsPrefix := "assets";
     persist.nameUUID := λ s, Pos.of_succ_nat (String.length s); persist.printUUID := λ u, Itoa (Z.pos u);
     persist.jsonLength := λ _, Some 100 |}.

Lemma printed_apart u v : persist.printUUID u = persist.printUUID v → u = v.
Proof. intros E. change (Itoa (Z.pos u) = Itoa (Z.pos v)) in E. apply Itoa_inj in E. congruence. Qed.

Lemma printed_plain u : free_of "/" (persist.printUUID u) = true.
Proof. by apply Itoa_free_of. Qed.

(** A staged clip of the goal, to become a new winner. *)
Definition staging : string := "staging/7/2/tweet.mp4".
Definition md5 : string := EncodeToString (replicate 16 Byte.x07).

Definition arriving : wire.CommitClipPlacementInput :=
  wire.mkCommitClipPlacementInput 2 7 true true None []
    [wire.mkPlacementCandidateInput (pcEvidence (candidate "url1")) OutcomePromoted None ""]
    staging md5 "" None LegacyFrameHashVersion [5] 1280 720 8000 1000000 None None true (Some 30) None None.

Definition before : bytes.world := bytes.mkWorld (empty false) {[staging]}.
Definition placing_ : persist.Act wire.CommitClipPlacementOutput := persist.CommitClipPlacement 50 arriving.
Definition after : bytes.world := Eval vm_compute in (bytes.perform env0 placing_ before).2.

Lemma before_held : bytes.held ∅ before.
Proof. split; [apply empty_ok|done..]. Qed.

Lemma staging_staged : bytes.staged staging.
Proof. intros f ev a E. vm_compute in E. discriminate E. Qed.

Lemma placing_runs : ∃ ps, rtc (bytes.happens ∅) (before, []) (after, ps).
Proof.
  eexists. eapply rtc_l; [apply (bytes.hp_start ∅ (bytes.run placing_)), bytes.may_place, staging_staged|].
  change after with (bytes.perform env0 placing_ before).2. apply bytes.perform_happens.
Qed.

Definition arrived : sharerepo.ResolvedShare := Eval vm_compute in
  (outcome (sharerepo.ResolveShare "s_23") (bytes.wMedia after) (sharerepo.mkResolvedShare "" "" "")).1.

Lemma public_bytes_witness : sharerepo.rsKey arrived ∈ bytes.wObjects after.
Proof.
  destruct placing_runs as [ps Hr].
  destruct (mShares (bytes.wMedia after) !! "s_23") as [h|] eqn:Hh; [|vm_compute in Hh; discriminate].
  eapply (bytes.public_clips_have_bytes ∅ printed_apart printed_plain before after ps "s_23" h arrived).
  - exact before_held.
  - exact Hr.
  - exact Hh.
  - vm_compute in Hh. injection Hh as <-. split; [done|]. intros (e & He & Hx). vm_compute in He.
    injection He as <-. vm_compute in Hx. discriminate.
  - vm_compute. reflexivity.
  - reflexivity.
Defined.

(** The event as a replacement run finds it after both placements. *)
Definition loaded : SelectionSnapshot := Eval vm_compute in
  (outcome (loadSelectionTx 2) s2 oneSnapshot).1.

Lemma s2_ok : media_ok s2.
Proof. apply (CommitClipPlacement_ok _ _ _ _ s1_ok better_runs). Qed.

Lemma projection_witness : ∃ out, persist.projectSelection loaded = inr out ∧
  pool.validSelection (wire.laAssets out) (wire.laExactAliases out).
Proof.
  destruct (recovering.projection_restores 2 s2 loaded s2) as (out & H1 & H2 & _).
  - exact s2_ok.
  - vm_compute. reflexivity.
  - reflexivity.
  - by exists out.
Defined.

Lemma loaded_projects : persist.projectSelection loaded = inr (wire.mkLoadEventAssetsOutput
  [wire.mkRestoredEventAsset (Some 5%positive) (EncodeToString (replicate 16 Byte.x05)) "" LegacyFrameHashVersion
     [5] 1280 720 8000 1000000 None None 2 true]
  [wire.mkRestoredExactAlias (EncodeToString (replicate 16 Byte.x01)) "" (Some 5%positive) (Some 1%positive);
   wire.mkRestoredExactAlias (EncodeToString (replicate 16 Byte.x05)) "" (Some 5%positive) (Some 5%positive)]).
Proof. vm_compute. reflexivity. Qed.

End showing.
