(* ===== verification/Cycle.v ===== *)
(** A concrete monitor cycle on the tables of Scenario.v: a response that confirms
    one goal and drops the other, reconciled while other workers run, its health
    poll, the staging poll, the results of candidates and a stuck discovery run.
    The theorems of the repositories and of the monitor activities are applied to
    it. *)
From S2P Require Import Prelude GoStrings ApiFootball Fixture Event Identity Integrity Health Auditlog Presentation Plan Jsonb Discovery Store Mutation Commit Guarantees Preserve Events Fixtures Candidates HealthRepo World Planning Activity Reconcile Collect Activation Spawner Effects Scenario.
From Stdlib Require Import SpecFloat.
#[local] Open Scope string_scope.
#[local] Open Scope list_scope.
#[local] Open Scope Z_scope.
Import apifootball providerintegrity health mutation discoverycontract pg boundary commit guarantees preserve healthrepo world monitor planning activity reconcile collect activation spawner scenario.

Module cycle.

(** ** The day *)

Definition db0 : DB := live PolicyTrusted.

Definition noScore : APIFixtureScoreLine := mkAPIFixtureScoreLine None None.

(** A response with a home score and the events of the home team's player 9. *)
Definition response (status : string) (score : Z) (events : list APIFixtureEvent) : APIFixture :=
  mkAPIFixture (mkAPIFixtureFixture 7 (at_ 1) (mkAPIFixtureStatus "" status (Some 90) None))
    (mkAPIFixtureLeague 39 "League" "" 2026 "")
    (mkAPIFixtureTeams (mkAPIFixtureTeam 40 "Home" None) (mkAPIFixtureTeam 50 "Away" None))
    (mkAPIFixtureGoals (Some score) (Some 0)) (mkAPIFixtureScore noScore noScore noScore noScore)
    events fixtureEventsPresent.

Definition scored : APIFixtureEvent :=
  mkAPIFixtureEvent (mkAPIFixtureEventTime 80 None) (mkAPIFixtureTeam 40 "Home" None)
    (mkAPIFixturePlayerRef (Some 9) (Some "Scorer")) (mkAPIFixturePlayerRef None None)
    "goal" "normal goal" None.

Definition observed : APIFixture := response "2h" 1 [scored].

Definition input : ReconcileFixtureInput := mkReconcileFixtureInput observed "monitor-1" (at_ 5) "obs" 0 false.

Definition deployment : Activities := mkActivities true true (60 * time_Second).
Definition text (id : UUID) : string := Itoa (Z.pos id).
Definition fresh (i : nat) : UUID := Pos.of_nat (100 + i).
Definition visit : gmap string event.Event → list (string * event.Event) := map_to_list.

Definition pass : act (ReconcileFixtureOutput * option string) :=
  ReconcileFixture deployment text fresh visit input (at_ 5).
Definition guardedPass : act (ReconcileFixtureOutput * option string) :=
  reconcileGuarded deployment text fresh visit input (at_ 5).

Definition result {A} (p : act A) : A := (exec world (λ _, None) p db0).1.1.
Definition final {A} (p : act A) : DB := (exec world (λ _, None) p db0).1.2.
Definition log {A} (p : act A) : list label := (exec world (λ _, None) p db0).2.

Example pass_confirms : (result pass).2 = None ∧
  (result pass).1.(oEventsBecameStable) = [event.ComposeNaturalKey 40 (Some 9) event.TypeGoal 1] ∧
  (result pass).1.(oEventsRemovedIDs) = [2%positive].
Proof. vm_compute. done. Qed.

Lemma db0_ok : world_ok db0.
Proof.
  split.
  - split; [apply live_ok|]. intros k c e Hc. change (dbCandidates db0) with (∅ : gmap (UUID * string) Candidate) in Hc.
    by rewrite lookup_empty in Hc.
  - split; [done| |done|].
    + left. split; [by right|done].
    + intros i s H. unfold db0, live, tables in H. cbn [dbFixtureHealth] in H.
      apply lookup_singleton_Some in H as [<- <-]. split; [done|]. split; [|done].
      split; [|constructor|done|done|by right]. split; constructor.
Qed.

Definition limitless : limits := mkLimits (λ _, true) (λ _, true) (λ _, true).


(** ** The theorems at work *)

Definition acting (a : action) (db : DB) : DB :=
  match perform limitless world a db with inr p => p.2 | inl _ => db end.

Lemma acts_rtc a u db db' : proper a → perform limitless world a db = inr (u, db') → rtc (happens limitless) db db'.
Proof. intros Hp H. apply rtc_once. by econstructor. Qed.

Lemma world_invariant_witness :
  let db1 := acting (boundaryCall confirm) db0 in
  world_ok db1 ∧ forward_db db0 db1 ∧
  db0.(dbProvider).(pLastObservedAt) ≤ db1.(dbProvider).(pLastObservedAt).
Proof.
  cbn zeta. apply (world_invariant limitless); [apply db0_ok|].
  apply (acts_rtc (boundaryCall confirm) tt); [exact I|vm_compute; reflexivity].
Defined.

Definition rows : list event.Event := [goal 1 2; goal 2 1].
Definition found : gmap nat Z := {[0%nat := 1]}.

Lemma day_planned : planned (row "2h" (at_ 3)) rows observed found (visit (activeByKey rows)).
Proof.
  split; [done|done| | | |reflexivity|done].
  - assert (∀ id count, Z.pos id ≤ 2 → stored_ok (goal id count)) as H.
    { intros id count Hid. split; [done|]. exists (Z.pos id).
      split; [lia|]. split; [unfold fits64, int64_min, int64_max; lia|reflexivity]. }
    constructor; [by apply H|]. constructor; [by apply H|constructor].
  - by apply (bool_decide_unpack _).
  - by apply (bool_decide_unpack _).
Qed.

Lemma plan_refines_witness :
  planDifference 60 (at_ 5) fresh input (row "2h" (at_ 3)) rows found
    (planOf 60 (at_ 5) fresh input (row "2h" (at_ 3)) rows found (visit (activeByKey rows))).
Proof.
  exact (plan_refines_response 60 (at_ 5) fresh input (row "2h" (at_ 3)) rows found
    (visit (activeByKey rows)) day_planned).
Defined.

Lemma pass_runs {A} (p : act A) : runs (happens limitless) p db0 (log p) (result p) (final p).
Proof. apply exec_runs. Qed.

Lemma start_follows_witness :
  let w := "event-1" in
  ∃ t1 i t2, log pass = t1 ++ spawned w i None :: t2 ∧ w = "event-" +:+ text i.(wiEventID) ∧
    ∃ t0 before after, t1 = t0 ++ [tried before after] ∧
      is_Some (dbDownstream after !! (i.(wiEventID), "discovery", w)).
Proof.
  cbn zeta.
  assert (∃ t1 i t2, log pass = t1 ++ spawned "event-1" i None :: t2) as (t1 & i & t2 & E).
  { exists (take 4 (log pass)). do 2 eexists. vm_compute. reflexivity. }
  exists t1, i, t2. split; [exact E|].
  exact (start_follows_registration (happens limitless) deployment text fresh visit input (at_ 5) db0
    (log pass) (result pass) (final pass) (pass_runs pass) t1 "event-1" i None t2 E).
Defined.

Lemma reconcile_keeps_witness :
  rtc (happens limitless) db0 (final pass) ∧ world_ok (final pass) ∧ forward_db db0 (final pass).
Proof.
  apply (reconcile_keeps_world limitless deployment text fresh visit input (at_ 5) db0 (log pass)
    (result pass)); [apply db0_ok|apply pass_runs].
Defined.

Lemma report_stale r out : (reportCommit r out).(oMutationStale) = r.(mrStale).
Proof. done. Qed.

Lemma guardedPass_fresh : (result guardedPass).1.(oMutationStale) = false.
Proof. vm_compute. done. Qed.

Lemma guarded_reports_witness :
  ∃ planned res, res.(mrStale) = false ∧ reports planned res (result guardedPass).1.
Proof.
  assert (result guardedPass = ((result guardedPass).1, None)) as E by (vm_compute; reflexivity).
  pose proof (pass_runs guardedPass) as H. rewrite E in H.
  destruct (guarded_reports_commit (happens limitless) deployment text fresh visit input (at_ 5) db0
    (log guardedPass) (result guardedPass).1 None (final guardedPass) H)
    as (v & stored & rs & seqs & db1 & db2 & before & res & aft & rest & _ & _ & _ & _ & Ha & Hr).
  destruct (mrStale res) eqn:Hs; [|eexists; exists res; split; [exact Hs|exact Hr]].
  destruct Hr as [_ Ho]. pose proof guardedPass_fresh as Hf. rewrite Ho, report_stale, Hs in Hf. discriminate.
Defined.

Lemma load_failure_witness :
  loop (spawnStable deployment text 7 {[1%positive := goal 1 3]}) (emptyOutput 7, Some "lost") [1%positive] =
  mret ((emptyOutput 7) <| oErrors ::= λ l, l ++ ["load stable event"] |>, Some "lost").
Proof.
  apply (load_failure_charged_to_later_events deployment text 7 {[1%positive := goal 1 3]} "lost"
    [1%positive]).
  repeat constructor. by eexists.
Defined.


(** ** Health *)

Definition cycleFetch : FetchLiveFixturesOutput := mkFetchLiveFixturesOutput [observed] [8] [].
Definition healthInput : CollectProviderHealthInput :=
  mkCollectProviderHealthInput "poll-2" (at_ 6) [7; 8] cycleFetch false.
Definition healthPass : act (string + HealthResult) :=
  CollectProviderHealth true (λ _, true) (λ _, true) (λ _, true) healthInput.

Lemma collection_witness :
  ∃ observations, Forall2 (fair cycleFetch) [7; 8] observations.
Proof.
  destruct (collection_is_fair (happens limitless) (λ _, true) (λ _, true) (λ _, true) healthInput
    {[7 := observed]} db0 (log healthPass) (result healthPass) (final healthPass))
    as (observations & _ & _ & H & _); [reflexivity|apply pass_runs|].
  exact (ex_intro _ observations H).
Defined.

Definition usable : HealthObservation :=
  mkHealthObservation 7 AvailabilityUsable "" false (Some (at_ 3))
    (providerFixtureComparison (row "2h" (at_ 3)) rows observed found).
Definition poll : HealthPoll := mkHealthPoll "poll-2" (at_ 6) [usable].

Lemma poll_recordable : recordable poll db0.
Proof.
  split; [vm_compute; reflexivity|done| |by vm_compute].
  intros _ o ->%list_elem_of_singleton. exists (row "2h" (at_ 3)). split; [done|].
  intros _. split; vm_compute; reflexivity.
Qed.

Lemma observe_succeeds_witness :
  ∃ out db', Observe (λ _, true) (λ _, true) (λ _, true) poll db0 = inr (out, db').
Proof.
  apply (observe_succeeds (λ _, true) (λ _, true) (λ _, true) poll db0); try reflexivity.
  - apply db0_ok.
  - apply poll_recordable.
Defined.

Definition recorded : HealthResult * DB :=
  match Observe (λ _, true) (λ _, true) (λ _, true) poll db0 with
  | inr p => p | inl _ => (ignoredResult 0 (dbProvider db0), db0) end.

Lemma observe_once_witness :
  Observe (λ _, true) (λ _, true) (λ _, true) (mkHealthPoll "poll-2" (at_ 6) [unusable 8 AvailabilityTransport ""]) recorded.2 =
    inr (recorded.1, recorded.2).
Proof.
  apply (observe_once (λ _, true) (λ _, true) (λ _, true) poll recorded.1 db0 recorded.2);
    try (vm_compute; reflexivity).
  apply db0_ok.
Defined.

Lemma collector_fits_witness :
  provider_fixture_health_check (ObserveFixture (newFixtureHealth 7) poll usable).1 = true ∧
  row_fits (ObserveFixture (newFixtureHealth 7) poll usable).1.
Proof.
  apply (collector_fits_schema (newFixtureHealth 7) poll usable).
  - apply new_row_fits.
  - vm_compute. reflexivity.
  - left.
  - intros _. vm_compute. reflexivity.
  - vm_compute. reflexivity.
Defined.

(** ** The staging poll *)

Definition waiting : fixture.Fixture :=
  fixture.mkFixture 7 fixture.StateStaging (fixture.mkAPIStatus "ns" "") None None (at_ 900)
    (fixture.mkTeam 40 "Home") (fixture.mkTeam 50 "Away") (fixture.mkLeague 39 "League" 2026 "" "")
    None None None None None None None None None None (Some (at_ 1)) (at_ 1) (at_ 1).
Definition stagingInput : PollStagingFixturesInput :=
  mkPollStagingFixturesInput (100 * 1000000) "obs-3" (at_ 5) false.
Definition kickedOff : APIFixture := response "1h" 0 [].
Definition undated : APIFixture :=
  mkAPIFixture (mkAPIFixtureFixture 7 zero_time (mkAPIFixtureStatus "" "ns" None None))
    kickedOff.(League) kickedOff.(Teams) kickedOff.(Goals) kickedOff.(Score) [] fixtureEventsPresent.

Definition stagingPass : act (PollStagingFixturesOutput * option string) :=
  PollStagingFixtures true (at_ 5) stagingInput (λ _, (mkFixturesByIDsResult [kickedOff] [], true)).

Lemma staging_keeps_witness : world_ok (final stagingPass) ∧ forward_db db0 (final stagingPass).
Proof.
  apply (proj2 (staging_keeps_world limitless true (at_ 5) stagingInput
    (λ _, (mkFixturesByIDsResult [kickedOff] [], true)) 0 db0 db0_ok)
    (log stagingPass) (result stagingPass) (final stagingPass)).
  apply pass_runs.
Defined.

Lemma staging_decides_witness :
  ∃ g, stagingUpdate (at_ 5) stagingInput waiting kickedOff = inr (g, "already_started") ∧
    g.(fixture.fState) = fixture.StateActive.
Proof.
  destruct (staging_poll_decides (at_ 5) stagingInput waiting kickedOff)
    as (g & reason & Hg & _ & _ & _ & _ & _ & [_ H1] & _ & _ & Hs & _); [reflexivity..|].
  exists g. rewrite (H1 eq_refl) in Hg, Hs. split; [exact Hg|exact Hs].
Defined.

Lemma missing_date_witness :
  (updateFixtureMetadataFromAPI waiting undated).(fixture.fKickoff) = at_ 900 ∧
  ∃ g, stagingUpdate (at_ 5) stagingInput waiting undated = inr (g, "kickoff_correction") ∧
    g.(fixture.fState) = fixture.StateActive ∧ g.(fixture.fKickoff) = zero_time.
Proof. apply (missing_date_activates (at_ 5) stagingInput waiting undated); [reflexivity..|vm_compute; discriminate]. Defined.

(** ** A stuck discovery run *)

Definition starting : EventWorkflowInput := mkEventWorkflowInput 1 7 "Scorer" "Home" 40 80 None (at_ 2).
Definition stuck (t : Time) : answers :=
  mkAnswers startAlreadyStarted (inr (mkDescription
    (Some (mkExecutionInfo true (Some "run-1") (Some (at_ 1)) 12 5)) [None])) None startAccepted t.

Lemma termination_witness :
  TerminateWorkflow "event-1" "run-1" ∈
    (SpawnEvent 1000 "event-1" starting (stuck (at_ 5)) (spawner.after 1000
      [mkCall "event-1" starting (stuck (at_ 3))])).1.2 ∧
  ∃ o start, seen (stuck (at_ 5)) = Some (o, start) ∧ o.(woRunID) = "run-1" ∧
    start ≤ at_ 5 - 1000.
Proof.
  assert (TerminateWorkflow "event-1" "run-1" ∈
    (SpawnEvent 1000 "event-1" starting (stuck (at_ 5)) (spawner.after 1000
      [mkCall "event-1" starting (stuck (at_ 3))])).1.2) as H.
  { apply list_elem_of_In. vm_compute. right. right. left. reflexivity. }
  split; [exact H|].
  destruct (termination_is_proven 1000 [mkCall "event-1" starting (stuck (at_ 3))] "event-1"
    starting (stuck (at_ 5)) "event-1" "run-1") as (_ & o & start & H1 & H2 & H3 & _);
    [split; vm_compute; congruence|exact H|].
  exists o, start. split; [exact H1|]. split; [exact H2|exact H3].
Defined.

Lemma stale_bound_witness :
  let bound := ConservativeEventStaleAfter (20 * time_Minute) time_Minute in
  bound = 40 * time_Minute ∧ 0 < bound ≤ int64_max ∧ staleAfterOf bound = bound.
Proof. apply (stale_bound_covers (20 * time_Minute) time_Minute); split; vm_compute; congruence. Defined.

(** ** The public reads *)

Lemma public_window_witness :
  ∃ rows, fixturerepo.ListPublicWindow 3 ended = inr (rows, ended) ∧
    (row "ft" (at_ 3) ∈ rows ↔ (∃ id, dbFixtures ended !! id = Some (row "ft" (at_ 3))) ∧
      (fixturerepo.isCompleted (row "ft" (at_ 3)) = true → (size (filter (λ d,
        (fixturerepo.utcDate (row "ft" (at_ 3)).(fixture.fKickoff) < d)%Z) (fixturerepo.datesOf ended))
        < Z.to_nat 3)%nat)).
Proof.
  destruct (fixturerepo.public_window 3 ended) as (rows & H1 & _ & H2); [reflexivity|].
  exists rows. split; [exact H1|apply H2].
Defined.

Lemma search_witness :
  ∃ rows, fixturerepo.SearchPublicFixtures (λ s, s) "hom" 5 3 db0 = inr (rows, db0) ∧
    Z.of_nat (length rows) ≤ 5.
Proof.
  destruct (fixturerepo.search_exact (λ s, s) "hom" 5 3 db0) as (rows & H1 & H2 & _);
    [reflexivity|reflexivity|reflexivity|vm_compute; congruence|].
  exists rows. split; [exact H1|exact H2].
Defined.

(** ** Transitions, candidates and votes *)

Definition activated : auditlog.Record_ :=
  default (record auditlog.KindEventStable 1%positive) (fixtureActivatedAudit 7 (at_ 5) "kickoff_soon").
Definition upcoming : DB := tables {[7 := waiting]} ∅ PolicyTrusted.
Definition begun : fixture.Fixture := (fixture.Activate waiting (at_ 5)).1.
Definition started : DB :=
  match fixturerepo.TransitionWithAudit (at_ 5) begun activated upcoming with
  | inr p => p.2 | inl _ => upcoming end.

Lemma transition_witness :
  fixturerepo.TransitionWithAudit (at_ 5) begun activated upcoming = inr (true, started) ∧
  fixturerepo.TransitionWithAudit (at_ 6) begun activated started = inr (false, started).
Proof.
  assert (fixturerepo.TransitionWithAudit (at_ 5) begun activated upcoming = inr (true, started)) as H
    by (vm_compute; reflexivity).
  split; [exact H|].
  apply (proj2 (fixturerepo.transition_once (at_ 5) begun activated upcoming started H)); reflexivity.
Defined.

Definition removedGoal : event.Event :=
  event.mkEvent 3 7 (event.ComposeNaturalKey 40 (Some 9) event.TypeGoal 3) event.TypeGoal
    "normal goal" (event.mkTeam 40 "Home") (event.mkPlayer (Some 9) (Some "Scorer"))
    (event.mkPlayer None None) 80 None (at_ 2) 0 false false false true (Some "var") (Some (at_ 3))
    (at_ 2) (at_ 3).
Definition disallowed : DB := tables {[7 := row "2h" (at_ 3)]} {[3%positive := removedGoal]} PolicyTrusted.
Definition clip (id : UUID) : CandidateEvidence :=
  mkCandidateEvidence id 7 1 "query" "url" "text" "page" (S754_finite false 1 0) "user" (S754_zero false).

Lemma removal_wins_witness :
  let db' := match candidaterepo.Complete (at_ 5) (at_ 5) (clip 3) OutcomePromoted "" None disallowed with
    | inr p => p.2 | inl _ => disallowed end in
  ∃ c, dbCandidates db' !! (3%positive, "url") = Some c ∧ candidaterepo.closedByRemoval c.
Proof.
  cbn zeta.
  apply (proj2 (proj2 (candidaterepo.removal_wins (at_ 5) (at_ 5) (clip 3) OutcomePromoted "" None disallowed _
    removedGoal ltac:(intros k c e Hc; vm_compute in Hc; discriminate) eq_refl eq_refl
    ltac:(vm_compute; reflexivity)))). reflexivity.
Defined.

Definition credited : DB :=
  match candidaterepo.Complete (at_ 5) (at_ 5) (clip 1) OutcomePromoted "" None db0 with
  | inr p => p.2 | inl _ => db0 end.

Lemma completion_repeats_witness :
  candidaterepo.Complete (at_ 8) (at_ 8) (clip 1) OutcomePromoted "" None credited = inr (tt, credited).
Proof.
  apply (candidaterepo.completion_repeats (at_ 5) (at_ 5) (at_ 8) (at_ 8) (clip 1) OutcomePromoted "" None
    db0 credited); [exact I|apply db0_ok|vm_compute; reflexivity].
Defined.

Lemma presence_agrees_witness :
  ∃ n b db1, eventrepo.RegisterEventPresenceWithAudit (at_ 6) 1 "monitor-1"
      (record auditlog.KindEventStable 1%positive) db0 = inr ((n, b), db1) ∧
    registerPresenceTx (at_ 6) text "monitor-1"
      (mkPlannedEventPresence 1 (record auditlog.KindEventStable 1%positive)) db0 =
      inr (b, if b then ensureDownstream text 1 db1 else db1) ∧
    n = Z.min ((goal 1 2).(event.eDebounceCount) + 1) 3 ∧
    b = (n =? 3) && negb (goal 1 2).(event.eDownstreamTriggered).
Proof.
  apply (eventrepo.presence_agrees (at_ 6) text 1%positive "monitor-1" (record auditlog.KindEventStable 1%positive)
    db0 (goal 1 2)); try reflexivity.
  intros H. vm_compute in H. discriminate.
Defined.

End cycle.
