(* ===== verification/Teams.v ===== *)
(** The reference data of ingestion: the tracked teams (domain/team,
    infra/pg/team_repo.go, activity/ingest/tracked_teams.go, the season lookup of
    infra/apifootball/teams.go) and the canonical team records (domain/alias,
    infra/pg/alias_repo.go, activity/ingest/aliases.go).

    Neither table is read by another transaction, so each is a value that the
    operations pass on.  The vendor and the failures of the store are arguments. *)
From S2P Require Import Prelude GoStrings ApiFootball Fixture Event Identity Integrity Health Auditlog Presentation Plan Discovery Store Mutation Commit.
#[local] Open Scope string_scope.
#[local] Open Scope list_scope.
#[local] Open Scope Z_scope.
Import pg.

Module teams.

(** A value of an INT column. *)
Definition fits32 (z : Z) : bool := (- 2 ^ 31 <=? z) && (z <? 2 ^ 31).

(** ** Tracked teams (domain/team) *)

Record TrackedTeam := mkTrackedTeam {
  ttID : Z;
  ttName : string;
  ttLeagueID : Z;
  ttLeagueName : string;
  ttSeason : Z;
  ttRefreshedAt : Time }.

Definition NewSetFromTeams (ts : list TrackedTeam) : gset Z := list_to_set (ttID <$> ts).

(** ** The table (team_repo.go)

    The rows in the order List returns them, which is unspecified. *)

Definition fitsRow (t : TrackedTeam) : bool :=
  fits32 t.(ttID) && fits32 t.(ttLeagueID) && fits32 t.(ttSeason).

(** The key and the columns of tracked_teams_cache. *)
Record rows_ok (rows : list TrackedTeam) : Prop := {
  rows_key : NoDup (ttID <$> rows);
  rows_fit : Forall (λ t, fitsRow t = true) rows;
  rows_time : Forall (λ t, timestamptz t.(ttRefreshedAt) = t.(ttRefreshedAt)) rows }.

Definition storedRow (t : TrackedTeam) : TrackedTeam :=
  mkTrackedTeam t.(ttID) t.(ttName) t.(ttLeagueID) t.(ttLeagueName) t.(ttSeason)
    (timestamptz (UTC t.(ttRefreshedAt))).

(** One transaction: the rows are replaced as a whole, or an error leaves them. *)
Definition Replace (teams rows : list TrackedTeam) : option string * list TrackedTeam :=
  if forallb fitsRow teams && bool_decide (NoDup (ttID <$> teams)) then (None, storedRow <$> teams)
  else (Some "copy", rows).

(** ** The season of a league (teams.go) *)

Record APILeagueSeason := mkAPILeagueSeason { lsYear : Z; lsCurrent : bool }.

(** Of a league only its seasons are read, of a team its id and its name. *)
Definition APILeague := list APILeagueSeason.
Record APITeam := mkAPITeam { atID : Z; atName : string }.

(** The decoded responses, or the error of the request. *)
Class Vendor := {
  leagues : Z → string + list APILeague;
  teamEnvelopes : Z → Z → string + list APITeam }.

Definition latestSeason (first : APILeagueSeason) (rest : list APILeagueSeason) : Z :=
  foldl (λ latest s, if latest <? s.(lsYear) then s.(lsYear) else latest) first.(lsYear) rest.

Definition GetCurrentSeason `{Vendor} (leagueID : Z) : string + Z :=
  match leagues leagueID with
  | inl err => inl err
  | inr [] => inl "league not found"
  | inr ([] :: _) => inl "league has no seasons"
  | inr ((s :: rest) :: _) =>
      match list_find (λ s, s.(lsCurrent) = true) (s :: rest) with
      | Some (_, current) => inr current.(lsYear)
      | None => inr (latestSeason s rest)
      end
  end.

(** Entries without an id are skipped. *)
Definition ListTeamsForLeague `{Vendor} (leagueID season : Z) : string + list APITeam :=
  match teamEnvelopes leagueID season with
  | inl err => inl err
  | inr ts => inr (filter (λ t, t.(atID) ≠ 0) ts)
  end.

(** ** The refresh (tracked_teams.go) *)

Record RefreshTrackedTeamsIfStaleOutput := mkRefreshTrackedTeamsIfStaleOutput {
  rtRefreshed : bool;
  rtTotalTeams : Z;
  rtPerLeagueCounts : gmap Z Z;
  rtPreservedLeagues : gmap Z Z;
  rtErrors : list string }.

Definition oldestOf (first : TrackedTeam) (cached : list TrackedTeam) : Time :=
  foldl (λ oldest t, if Before t.(ttRefreshedAt) oldest then t.(ttRefreshedAt) else oldest)
    first.(ttRefreshedAt) cached.

Definition leagueSet (cached : list TrackedTeam) : gset Z := list_to_set (ttLeagueID <$> cached).

Definition trackedTeamCacheFresh (cached : list TrackedTeam) (configured : list Z) (now : Time)
    (maxAge : Duration) : bool :=
  match cached with
  | [] => false
  | first :: _ =>
      let configuredSet : gset Z := list_to_set configured in
      (size (leagueSet cached) =? size configuredSet)%nat &&
      bool_decide (configuredSet ⊆ leagueSet cached) &&
      (time_Sub now (oldestOf first cached) <? maxAge)
  end.

(** What the walk over the leagues accumulates. *)
Record walk := mkWalk {
  accumulated : list TrackedTeam;
  seen : gset Z;
  perLeague : gmap Z Z;
  walkErrors : list string }.

Definition increment (m : gmap Z Z) (k : Z) : gmap Z Z := <[k := default 0 (m !! k) + 1]> m.

Definition addTeam (now : Time) (leagueID season : Z) (w : walk) (t : APITeam) : walk :=
  if bool_decide (t.(atID) ∈ w.(seen)) then w
  else mkWalk (w.(accumulated) ++ [mkTrackedTeam t.(atID) t.(atName) leagueID "" season now])
    ({[t.(atID)]} ∪ w.(seen)) (increment w.(perLeague) leagueID) w.(walkErrors).

Definition walkFailed (w : walk) (err : string) : walk :=
  mkWalk w.(accumulated) w.(seen) w.(perLeague) (w.(walkErrors) ++ [err]).

Definition visitLeague `{Vendor} (now : Time) (w : walk) (leagueID : Z) : walk :=
  match GetCurrentSeason leagueID with
  | inl err => walkFailed w err
  | inr season =>
      match ListTeamsForLeague leagueID season with
      | inl err => walkFailed w err
      | inr ts => foldl (addTeam now leagueID season) w ts
      end
  end.

Definition walkLeagues `{Vendor} (now : Time) (configured : list Z) : walk :=
  foldl (visitLeague now) (mkWalk [] ∅ ∅ []) configured.

Definition refreshedLeagues (w : walk) : gset Z :=
  dom (filter (λ p, 0 < p.2) w.(perLeague)).

(** The prior row of a configured league that was not refreshed. *)
Definition isPreserved (configured : list Z) (w : walk) (t : TrackedTeam) : bool :=
  bool_decide (t.(ttLeagueID) ∈ configured) && negb (bool_decide (t.(ttLeagueID) ∈ refreshedLeagues w)).

Definition preservedRows (configured : list Z) (w : walk) (existing : list TrackedTeam)
    : list TrackedTeam :=
  if (size (refreshedLeagues w) <? length configured)%nat
  then filter (λ t, isPreserved configured w t = true) existing else [].

(** [listed] and [replaced] are the errors of the store, if any.  Returns the
    output, the error and the rows afterwards. *)
Definition RefreshTrackedTeamsIfStale `{Vendor} (configured : list Z) (topFlightCacheHours : Z)
    (now : Time) (listed replaced : option string) (rows : list TrackedTeam)
    : RefreshTrackedTeamsIfStaleOutput * option string * list TrackedTeam :=
  let out := mkRefreshTrackedTeamsIfStaleOutput false 0 ∅ ∅ [] in
  match listed with
  | Some _ => (out, Some "check cache", rows)
  | None =>
      if trackedTeamCacheFresh rows configured now (wrap64 (topFlightCacheHours * time_Hour))
      then (out, None, rows)
      else
        let w := walkLeagues now configured in
        let out := mkRefreshTrackedTeamsIfStaleOutput false 0 w.(perLeague) ∅ w.(walkErrors) in
        if bool_decide (refreshedLeagues w = ∅) then (out, Some "no league returned teams", rows)
        else
          let preserved := preservedRows configured w rows in
          let all := w.(accumulated) ++ preserved in
          let counts := foldl (λ m t, increment m t.(ttLeagueID)) ∅ preserved in
          let failed := mkRefreshTrackedTeamsIfStaleOutput false 0 w.(perLeague) counts
            w.(walkErrors) in
          match replaced with
          | Some _ => (failed, Some "replace cache", rows)
          | None =>
              match Replace all rows with
              | (Some _, rows) => (failed, Some "replace cache", rows)
              | (None, rows) =>
                  (mkRefreshTrackedTeamsIfStaleOutput true (Z.of_nat (length all)) w.(perLeague)
                    counts w.(walkErrors), None, rows)
              end
          end
  end.

(** ** Freshness *)

Lemma oldest_le cached : ∀ o : Time,
  let m := foldl (λ oldest t, if Before t.(ttRefreshedAt) oldest then t.(ttRefreshedAt) else oldest) o cached in
  m ≤ o ∧ (∀ t, t ∈ cached → m ≤ t.(ttRefreshedAt)) ∧
  (m = o ∨ ∃ t, t ∈ cached ∧ m = t.(ttRefreshedAt)).
Proof.
  induction cached as [|t cached IH]; intros o; cbn.
  { split; [done|]. split; [by intros t ?%elem_of_nil|by left]. }
  destruct (IH (if Before (ttRefreshedAt t) o then ttRefreshedAt t else o)) as (H1 & H2 & H3).
  unfold Before in *. destruct (Z.ltb_spec (ttRefreshedAt t) o).
  - split; [lia|]. split; [intros u [->|Hu]%elem_of_cons; [done|by apply H2]|].
    right. destruct H3 as [->|(u & Hu & ->)]; [exists t|exists u]; split; set_solver.
  - split; [lia|]. split; [intros u [->|Hu]%elem_of_cons; [lia|by apply H2]|].
    destruct H3 as [->|(u & Hu & ->)]; [by left|right; exists u; set_solver].
Qed.

Lemma oldestOf_spec first rest (a : Duration) now :
  (time_Sub now (oldestOf first (first :: rest)) <? a) = true ↔
  ∀ t, t ∈ first :: rest → time_Sub now t.(ttRefreshedAt) < a.
Proof.
  destruct (oldest_le (first :: rest) (ttRefreshedAt first)) as (H1 & H2 & H3).
  fold (oldestOf first (first :: rest)) in *. rewrite Z.ltb_lt. split.
  - intros Ha t Ht%H2. unfold time_Sub in *. lia.
  - intros Ha. destruct H3 as [->|(t & Ht & ->)]; apply Ha; set_solver.
Qed.

(** The cache is used as it is exactly when it has rows, its leagues are the
    configured ones, no more and no fewer, and every row is younger than the
    limit. *)
Theorem cache_fresh_iff cached configured now maxAge :
  trackedTeamCacheFresh cached configured now maxAge = true ↔
  cached ≠ [] ∧ (∀ lg, lg ∈ configured ↔ ∃ t, t ∈ cached ∧ t.(ttLeagueID) = lg) ∧
  ∀ t, t ∈ cached → time_Sub now t.(ttRefreshedAt) < maxAge.
Proof.
  assert (∀ lg, lg ∈ leagueSet cached ↔ ∃ t, t ∈ cached ∧ t.(ttLeagueID) = lg) as Hl.
  { intros lg. unfold leagueSet. rewrite elem_of_list_to_set, list_elem_of_fmap. naive_solver. }
  unfold trackedTeamCacheFresh. destruct cached as [|t ts]; [naive_solver|].
  rewrite !andb_true_iff, oldestOf_spec, Nat.eqb_eq, bool_decide_eq_true. split.
  - intros [[Hs Hc] Ha]. split; [done|]. split; [|done]. intros lg. rewrite <-Hl.
    rewrite <-(elem_of_list_to_set (C := gset Z)). split; [apply Hc|].
    intros Hlg. by rewrite (set_subseteq_size_eq _ _ Hc) by lia.
  - intros (_ & Hc & Ha). split; [|done].
    assert (leagueSet (t :: ts) = list_to_set configured) as ->; [|done].
    apply set_eq. intros lg. by rewrite Hl, elem_of_list_to_set, Hc.
Qed.

(** ** The walk *)

Section refresh.
Context `{Vendor} (now : Time).

Abbreviation rowsOf lg := (filter (λ t, t.(ttLeagueID) = lg)).

(** What holds of the walk after the leagues [visited]. *)
Record walk_ok (visited : list Z) (w : walk) : Prop := {
  walk_key : NoDup (ttID <$> w.(accumulated));
  walk_seen : ∀ id, id ∈ w.(seen) ↔ id ∈ ttID <$> w.(accumulated);
  walk_now : Forall (λ t, t.(ttRefreshedAt) = now) w.(accumulated);
  walk_visited : ∀ t, t ∈ w.(accumulated) → t.(ttLeagueID) ∈ visited;
  walk_count : ∀ lg, default 0 (w.(perLeague) !! lg) = Z.of_nat (length (rowsOf lg w.(accumulated))) }.

Lemma increment_lookup m k j :
  default 0 (increment m k !! j) = default 0 (m !! j) + (if decide (k = j) then 1 else 0).
Proof.
  unfold increment. case_decide as E; [subst; rewrite lookup_insert_eq; done|].
  rewrite lookup_insert_ne by done. lia.
Qed.

Lemma addTeam_ok visited lg season w t :
  lg ∈ visited → walk_ok visited w → walk_ok visited (addTeam now lg season w t).
Proof.
  intros Hlg [Hk Hs Hn Hv Hc]. unfold addTeam. case_bool_decide as Hin; [by constructor|].
  rewrite Hs in Hin. split; cbn [accumulated seen perLeague].
  - rewrite fmap_app, NoDup_app. split; [done|]. split; [|apply NoDup_singleton].
    intros id Hid. cbn. rewrite list_elem_of_singleton. by intros ->.
  - intros id. rewrite fmap_app, elem_of_app, elem_of_union, elem_of_singleton, Hs. cbn.
    rewrite list_elem_of_singleton. tauto.
  - apply Forall_app_2; [done|]. by constructor.
  - intros u [Hu|Hu]%elem_of_app; [by apply Hv|].
    by apply list_elem_of_singleton in Hu as ->.
  - intros lg'. rewrite increment_lookup, Hc, filter_app, length_app, filter_cons. cbn.
    case_decide; cbn; lia.
Qed.

Lemma addTeams_ok visited lg season ts w :
  lg ∈ visited → walk_ok visited w → walk_ok visited (foldl (addTeam now lg season) w ts).
Proof.
  intros Hlg. revert w. induction ts as [|t ts IH]; intros w Hw; [done|].
  by apply IH, addTeam_ok.
Qed.

Lemma walk_ok_mono visited visited' w : visited ⊆ visited' → walk_ok visited w → walk_ok visited' w.
Proof. intros Hsub [Hk Hs Hn Hv Hc]. split; [done..| |done]. intros t Ht. by apply Hsub, Hv. Qed.

Lemma visitLeague_ok visited w lg : lg ∈ visited → walk_ok visited w → walk_ok visited (visitLeague now w lg).
Proof.
  intros Hlg Hw. unfold visitLeague.
  assert (∀ e, walk_ok visited (walkFailed w e)) as Hf by (intros e; by destruct Hw; split).
  destruct (GetCurrentSeason lg) as [e|season]; [done|].
  destruct (ListTeamsForLeague lg season) as [e|ts]; [done|]. by apply addTeams_ok.
Qed.

Lemma walkLeagues_ok configured : walk_ok configured (walkLeagues now configured).
Proof.
  assert (∀ l w, l ⊆ configured → walk_ok configured w →
    walk_ok configured (foldl (visitLeague now) w l)) as Hgen.
  { induction l as [|lg l IH]; intros w Hl Hw; [done|]. cbn.
    apply IH; [set_solver|]. apply visitLeague_ok; [set_solver|done]. }
  apply Hgen; [done|]. split; cbn; [constructor|set_solver|constructor|set_solver|].
  intros lg. by rewrite lookup_empty.
Qed.

Lemma refreshed_iff visited w lg :
  walk_ok visited w → lg ∈ refreshedLeagues w ↔ rowsOf lg w.(accumulated) ≠ [].
Proof.
  intros Hw. pose proof (walk_count _ _ Hw lg) as Hc. unfold refreshedLeagues.
  rewrite elem_of_dom. split.
  - intros [n [Hn Hpos]%map_lookup_filter_Some]. rewrite Hn in Hc. cbn in *.
    intros E. rewrite E in Hc. cbn in Hc. lia.
  - intros Hne. destruct (perLeague w !! lg) as [n|] eqn:E; cbn in Hc.
    + exists n. apply map_lookup_filter_Some. split; [done|]. cbn.
      destruct (rowsOf lg (accumulated w)); [done|cbn in Hc; lia].
    + destruct (rowsOf lg (accumulated w)); [done|cbn in Hc; lia].
Qed.

(** The vendor gave no roster for the league. *)
Definition unreachable (lg : Z) : Prop :=
  match GetCurrentSeason lg with
  | inl _ => True
  | inr season => match ListTeamsForLeague lg season with inl _ | inr [] => True | _ => False end
  end.

Lemma visit_other w lg lg' :
  lg' ≠ lg ∨ unreachable lg →
  rowsOf lg (accumulated (visitLeague now w lg')) = rowsOf lg (accumulated w).
Proof.
  intros Hlg. unfold visitLeague, unreachable in *.
  destruct (GetCurrentSeason lg') as [e|season] eqn:Hs; [done|].
  destruct (ListTeamsForLeague lg' season) as [e|ts] eqn:Ht; [done|].
  destruct (decide (lg' = lg)) as [->|Hne].
  { destruct Hlg as [?|Hlg]; [done|]. rewrite Hs, Ht in Hlg. by destruct ts. }
  clear Ht. revert w. induction ts as [|t ts IH]; intros w; [done|]. cbn. rewrite IH.
  unfold addTeam. case_bool_decide; [done|]. cbn. rewrite filter_app, filter_cons_False by done.
  by rewrite app_nil_r.
Qed.

Lemma walk_unreachable configured lg :
  unreachable lg → rowsOf lg (accumulated (walkLeagues now configured)) = [].
Proof.
  intros Hu. unfold walkLeagues. assert (∀ l w, rowsOf lg (accumulated w) = [] →
    rowsOf lg (accumulated (foldl (visitLeague now) w l)) = []) as Hgen.
  { induction l as [|lg' l IH]; intros w Hw; [done|]. cbn. apply IH.
    rewrite visit_other; [done|by right]. }
  by apply Hgen.
Qed.

(** ** The rows of one league after a refresh *)

Lemma storedRow_id t : timestamptz t.(ttRefreshedAt) = t.(ttRefreshedAt) → storedRow t = t.
Proof. destruct t as [a b c d e f]. unfold storedRow, UTC. cbn. by intros ->. Qed.

Lemma stored_filter lg (ts : list TrackedTeam) : rowsOf lg (storedRow <$> ts) = storedRow <$> rowsOf lg ts.
Proof.
  induction ts as [|t ts IH]; [done|]. rewrite fmap_cons, !filter_cons, IH. cbn.
  by case_decide.
Qed.

Lemma rowsOf_preserved configured w rows lg :
  walk_ok configured w → lg ∉ refreshedLeagues w → lg ∈ configured →
  rowsOf lg (preservedRows configured w rows) = rowsOf lg rows.
Proof.
  intros Hw Hr Hlg. unfold preservedRows.
  destruct (Nat.ltb_spec (size (refreshedLeagues w)) (length configured)) as [_|Hge].
  - rewrite list_filter_filter. apply list_filter_iff. intros t. split; [naive_solver|].
    intros Ht. split; [done|]. unfold isPreserved. by rewrite Ht, bool_decide_true, bool_decide_false.
  - exfalso. assert (refreshedLeagues w ⊆ list_to_set configured ∖ {[lg]}) as Hsub.
    { intros lg' Hlg'. assert (lg' ≠ lg) by (by intros ->). pose proof Hlg' as Hl.
      rewrite (refreshed_iff _ _ _ Hw) in Hl.
      destruct (rowsOf lg' (accumulated w)) as [|t ts] eqn:E; [done|].
      assert (t ∈ rowsOf lg' (accumulated w)) as [<- Ht]%list_elem_of_filter by (rewrite E; left).
      apply (walk_visited _ _ Hw) in Ht. set_solver. }
    apply subseteq_size in Hsub. rewrite size_difference in Hsub by set_solver.
    rewrite size_singleton in Hsub.
    assert (size (list_to_set configured : gset Z) ≤ length configured)%nat.
    { clear. induction configured as [|x l IH]; [done|]. cbn. rewrite size_union_alt, size_singleton.
      pose proof (subseteq_size (list_to_set l ∖ {[x]}) (list_to_set l : gset Z) ltac:(set_solver)). lia. }
    assert (0 < length configured)%nat by (destruct configured; [by apply elem_of_nil in Hlg|cbn; lia]).
    lia.
Qed.

Lemma rowsOf_not_preserved configured w rows lg :
  lg ∈ refreshedLeagues w ∨ lg ∉ configured → rowsOf lg (preservedRows configured w rows) = [].
Proof.
  intros Hlg. unfold preservedRows. destruct (_ <? _)%nat; [|done].
  apply filter_none, Forall_forall. intros t [Ht _]%list_elem_of_filter Hl.
  unfold isPreserved in Ht. rewrite Hl in Ht. simpl_bools. tauto.
Qed.

Lemma Replace_ok teams rows err rows' :
  Replace teams rows = (err, rows') → rows_ok rows →
  rows_ok rows' ∧ (err = None ∧ rows' = storedRow <$> teams ∨ err ≠ None ∧ rows' = rows).
Proof.
  unfold Replace. destruct (forallb fitsRow teams) eqn:Hf; [|by intros [= <- <-]; auto].
  cbn. case_bool_decide as Hk; intros [= <- <-]; [|by auto]. intros _. split; [|by left].
  rewrite forallb_forall in Hf. split.
  - by rewrite <-list_fmap_compose.
  - apply Forall_fmap, Forall_forall. intros t Ht. change (fitsRow t = true).
    by apply Hf, list_elem_of_In.
  - apply Forall_fmap, Forall_forall. intros t _. apply commit.timestamptz_idemp.
Qed.

(** C36: A refresh loses no league it could not reach.  Whatever the vendor answers, and
    whether the replacement of the rows commits or fails and says so, the table stays well-formed; unless the refresh reports success
    the rows are the rows before.  After a success a league that is not configured
    has no rows; a configured league whose season or roster failed or came back
    empty has exactly the rows it had, with their times; and any other configured
    league has those rows too or a fresh roster with at least one team. *)
Theorem refresh_keeps_leagues configured hours listed replaced rows :
  rows_ok rows →
  let r := RefreshTrackedTeamsIfStale configured hours now listed replaced rows in
  rows_ok r.2 ∧ (r.1.2 ≠ None → r.1.1.(rtRefreshed) = false) ∧
  (r.1.1.(rtRefreshed) = false → r.2 = rows) ∧
  (r.1.1.(rtRefreshed) = true → ∀ lg,
     (lg ∉ configured → rowsOf lg r.2 = []) ∧
     (lg ∈ configured → unreachable lg → rowsOf lg r.2 = rowsOf lg rows) ∧
     (lg ∈ configured → rowsOf lg r.2 = rowsOf lg rows ∨
        rowsOf lg r.2 ≠ [] ∧ Forall (λ t, t.(ttRefreshedAt) = timestamptz now) (rowsOf lg r.2))).
Proof.
  intros Hok. unfold RefreshTrackedTeamsIfStale. destruct listed; [done|].
  destruct (trackedTeamCacheFresh _ _ _ _); [done|]. case_bool_decide; [done|].
  destruct replaced; [done|]. set (w := walkLeagues now configured).
  pose proof (walkLeagues_ok configured) as Hw. fold w in Hw.
  destruct (Replace _ rows) as [err rows'] eqn:Hr.
  apply Replace_ok in Hr as [Hok' [[-> Hrows]|[Herr ->]]]; [|by destruct err|done]. cbn.
  split; [done|]. split; [done|]. split; [done|]. intros _ lg.
  assert (rowsOf lg rows' = storedRow <$> (rowsOf lg (accumulated w) ++ rowsOf lg (preservedRows configured w rows)))
    as Hlg by (by rewrite Hrows, stored_filter, filter_app).
  assert (storedRow <$> rowsOf lg rows = rowsOf lg rows) as Hid.
  { transitivity (id <$> rowsOf lg rows); [|apply list_fmap_id]. apply list_fmap_ext. intros i t Ht.
    apply list_elem_of_lookup_2, list_elem_of_filter in Ht as [_ Ht].
    pose proof (rows_time _ Hok) as Htime. rewrite Forall_forall in Htime. by apply storedRow_id, Htime. }
  split; [|split].
  - intros Hn. rewrite Hlg, rowsOf_not_preserved by by right. rewrite app_nil_r.
    destruct (rowsOf lg (accumulated w)) as [|t ts] eqn:E; [done|].
    assert (t ∈ rowsOf lg (accumulated w)) as [<- Ht%(walk_visited _ _ Hw)]%list_elem_of_filter
      by (rewrite E; left). done.
  - intros Hin Hu. apply (walk_unreachable configured) in Hu. fold w in Hu. rewrite Hlg, Hu.
    rewrite (rowsOf_preserved _ _ _ _ Hw); [done| |done]. intros Hl. by apply (refreshed_iff _ _ _ Hw) in Hl.
  - intros Hin. destruct (decide (lg ∈ refreshedLeagues w)) as [Hl|Hl].
    + right. rewrite Hlg, rowsOf_not_preserved by by left. rewrite app_nil_r.
      rewrite (refreshed_iff _ _ _ Hw) in Hl. split; [by destruct (rowsOf lg (accumulated w))|].
      apply Forall_fmap, Forall_forall. intros t [_ Ht]%list_elem_of_filter. cbn.
      pose proof (walk_now _ _ Hw) as Hn. rewrite Forall_forall in Hn. by rewrite (Hn t).
    + left. rewrite Hlg, (rowsOf_preserved _ _ _ _ Hw) by done.
      destruct (rowsOf lg (accumulated w)) eqn:E; [done|].
      destruct Hl. by rewrite (refreshed_iff _ _ _ Hw), E.
Qed.

(** A team that the unreachable league had and a reachable one lists makes the
    refresh fail as a whole: the carried row and the fresh row have the same key.
    The rows stay as they are, so the next refresh fails in the same way as long as
    the vendor answers as before. *)
Theorem shared_team_blocks_refresh configured hours rows t u :
  trackedTeamCacheFresh rows configured now (wrap64 (hours * time_Hour)) = false →
  t ∈ rows → t.(ttLeagueID) ∈ configured → unreachable t.(ttLeagueID) →
  u ∈ accumulated (walkLeagues now configured) → u.(ttID) = t.(ttID) →
  ∃ err, (RefreshTrackedTeamsIfStale configured hours now None None rows).1.2 = Some err ∧
    (RefreshTrackedTeamsIfStale configured hours now None None rows).2 = rows.
Proof.
  intros Hstale Ht Hlg Hu Hw Hid. unfold RefreshTrackedTeamsIfStale. rewrite Hstale.
  case_bool_decide; [by eexists|]. set (w := walkLeagues now configured).
  pose proof (walkLeagues_ok configured : walk_ok configured w) as Hok.
  unfold Replace. rewrite (bool_decide_false (NoDup _)), andb_false_r; [by eexists|].
  rewrite fmap_app. intros (_ & Hd & _)%NoDup_app. apply (Hd (ttID u)); [by apply (list_elem_of_fmap_2 ttID)|].
  rewrite Hid. apply (list_elem_of_fmap_2 ttID).
  assert (t ∈ filter (λ v, ttLeagueID v = ttLeagueID t) (preservedRows configured w rows)) as Hp;
    [|by apply list_elem_of_filter in Hp as [_ ?]].
  rewrite (rowsOf_preserved _ _ _ _ Hok); [by apply list_elem_of_filter| |done].
  intros Hl. apply (refreshed_iff _ _ _ Hok) in Hl. by apply Hl, (walk_unreachable configured).
Qed.
End refresh.
End teams.

Module alias.

(** ** The record of a team (domain/alias) *)

Record TeamAlias := mkTeamAlias {
  taTeamID : Z;
  taCanonicalName : string;
  taTeamCode : option string;
  taCountry : option string;
  taCity : option string;
  taIsNational : bool;
  taWikidataQID : option string;
  taAliases : list string;
  taResolvedAt : option Time;
  taCreatedAt : Time;
  taUpdatedAt : Time }.

#[global] Instance eta_TeamAlias : Eta TeamAlias := λ t,
  mkTeamAlias t.(taTeamID) t.(taCanonicalName) t.(taTeamCode) t.(taCountry) t.(taCity)
    t.(taIsNational) t.(taWikidataQID) t.(taAliases) t.(taResolvedAt) t.(taCreatedAt)
    t.(taUpdatedAt).

Definition New (teamID : Z) (canonicalName : string) (isNational : bool)
    (teamCode country city : option string) (at_ : Time) : TeamAlias :=
  mkTeamAlias teamID canonicalName teamCode country city isNational None [] None (UTC at_) (UTC at_).

Definition SetResolution (t : TeamAlias) (qid : string) (aliases : list string) (at_ : Time)
    : TeamAlias :=
  t <| taWikidataQID := Some qid |> <| taAliases := aliases |> <| taResolvedAt := Some (UTC at_) |>
    <| taUpdatedAt := UTC at_ |>.

Definition IsResolved (t : TeamAlias) : bool := not_nil t.(taResolvedAt).

(** ** The table (infra/pg/alias_repo.go)

    [now] is the clock of the statement: the default of created_at and the trigger
    on updated_at. *)

Abbreviation Table := (gmap Z TeamAlias).

Definition ErrNotFound : string := "alias: not found".

Definition Get (table : Table) (teamID : Z) : string + TeamAlias :=
  match table !! teamID with Some t => inr t | None => inl ErrNotFound end.

Definition BulkGet (table : Table) (ids : list Z) : Table :=
  filter (λ p, p.1 ∈ ids) table.

(** The columns the vendor gives. *)
Definition vendorColumns (ta r : TeamAlias) : TeamAlias :=
  r <| taCanonicalName := ta.(taCanonicalName) |> <| taTeamCode := ta.(taTeamCode) |>
    <| taCountry := ta.(taCountry) |> <| taCity := ta.(taCity) |>
    <| taIsNational := ta.(taIsNational) |>.

Definition resolutionColumns (ta r : TeamAlias) : TeamAlias :=
  vendorColumns ta r <| taWikidataQID := ta.(taWikidataQID) |> <| taAliases := ta.(taAliases) |>
    <| taResolvedAt := timestamptz <$> ta.(taResolvedAt) |>.

(** INSERT .. ON CONFLICT (team_id) DO UPDATE: [columns] of the given record onto
    the row there is, or onto an empty row. *)
Definition upsert (columns : TeamAlias → TeamAlias → TeamAlias) (now : Time) (ta : TeamAlias)
    (table : Table) : option string * Table :=
  if negb (teams.fits32 ta.(taTeamID)) then (Some "upsert", table)
  else
    let id := ta.(taTeamID) in
    let now := timestamptz now in
    let row := match table !! id with
      | Some r => columns ta r <| taUpdatedAt := now |>
      | None => columns ta (mkTeamAlias id "" None None None false None [] None now now)
      end in
    (None, <[id := row]> table).

Definition UpsertVendorFields := upsert vendorColumns.
Definition UpsertResolution := upsert resolutionColumns.

(** ** The activity (activity/ingest/aliases.go) *)

Record TeamRef := mkTeamRef {
  trTeamID : Z;
  trTeamName : string;
  trIsNational : bool;
  trCountry : option string;
  trCity : option string }.

Record EnsureAliasPlaceholdersOutput := mkEnsureAliasPlaceholdersOutput {
  eaExisting : Z;
  eaInserted : Z;
  eaErrors : list string }.

(** [refused] tells for which teams the store fails, [read] its error for BulkGet. *)
Section placeholders.
Context (now : Time) (refused : Z → bool).

Definition ensureOne (existing : Table) (st : EnsureAliasPlaceholdersOutput * Table) (t : TeamRef)
    : EnsureAliasPlaceholdersOutput * Table :=
  let '(out, table) := st in
  let failed := mkEnsureAliasPlaceholdersOutput out.(eaExisting) out.(eaInserted)
    (out.(eaErrors) ++ ["alias upsert"]) in
  if not_nil (existing !! t.(trTeamID))
  then (mkEnsureAliasPlaceholdersOutput (out.(eaExisting) + 1) out.(eaInserted) out.(eaErrors), table)
  else if refused t.(trTeamID) then (failed, table)
  else
    match UpsertVendorFields now (New t.(trTeamID) t.(trTeamName) t.(trIsNational) None
            t.(trCountry) t.(trCity) now) table with
    | (Some _, table) => (failed, table)
    | (None, table) =>
        (mkEnsureAliasPlaceholdersOutput out.(eaExisting) (out.(eaInserted) + 1) out.(eaErrors), table)
    end.

Definition EnsureAliasPlaceholders (read : option string) (ts : list TeamRef) (table : Table)
    : EnsureAliasPlaceholdersOutput * option string * Table :=
  let out := mkEnsureAliasPlaceholdersOutput 0 0 [] in
  match ts, read with
  | [], _ => (out, None, table)
  | _, Some err => (out, Some err, table)
  | _, None =>
      let existing := BulkGet table (trTeamID <$> ts) in
      let '(out, table) := foldl (ensureOne existing) (out, table) ts in
      (out, None, table)
  end.

(** The row a placeholder becomes. *)
Definition placeholder (t : TeamRef) : TeamAlias :=
  mkTeamAlias t.(trTeamID) t.(trTeamName) None t.(trCountry) t.(trCity) t.(trIsNational) None []
    None (timestamptz now) (timestamptz now).

Definition accepts (t : TeamRef) : bool := negb (refused t.(trTeamID)) && teams.fits32 t.(trTeamID).

Definition accounted (out : EnsureAliasPlaceholdersOutput) : Z :=
  out.(eaExisting) + out.(eaInserted) + Z.of_nat (length out.(eaErrors)).

Lemma ensureOne_step (existing table : Table) out t :
  existing !! t.(trTeamID) = table !! t.(trTeamID) →
  let r := ensureOne existing (out, table) t in
  r.2 = (if is_nil (table !! t.(trTeamID)) && accepts t
         then <[t.(trTeamID) := placeholder t]> table else table) ∧
  accounted r.1 = accounted out + 1.
Proof.
  intros He. unfold ensureOne, UpsertVendorFields, upsert, accepts, accounted. rewrite He.
  destruct (table !! trTeamID t) eqn:E; cbn; [split; [done|lia]|].
  destruct (refused (trTeamID t)); cbn; [split; [done|rewrite length_app; cbn; lia]|].
  destruct (teams.fits32 (trTeamID t)); cbn; [|split; [done|rewrite length_app; cbn; lia]].
  rewrite E. cbn. split; [done|lia].
Qed.

Lemma ensure_rows (ts : list TeamRef) : ∀ (existing table : Table) out,
  NoDup (trTeamID <$> ts) →
  (∀ t, t ∈ ts → existing !! t.(trTeamID) = table !! t.(trTeamID)) →
  let r := foldl (ensureOne existing) (out, table) ts in
  (∀ id, r.2 !! id = match table !! id with
     | Some row => Some row
     | None => placeholder <$> head (filter (λ t, t.(trTeamID) = id ∧ accepts t = true) ts) end) ∧
  accounted r.1 = accounted out + Z.of_nat (length ts).
Proof.
  induction ts as [|t ts IH]; intros existing table out Hd He; cbn zeta.
  { split; [|cbn; lia]. intros id. cbn. by destruct (table !! id). }
  rewrite fmap_cons, NoDup_cons in Hd. destruct Hd as [Hn Hd].
  change (foldl _ _ (t :: ts)) with (foldl (ensureOne existing) (ensureOne existing (out, table) t) ts).
  destruct (ensureOne_step existing table out t) as [Ht Hc]; [apply He; by left|].
  destruct (ensureOne existing (out, table) t) as [out' table']. cbn in Ht, Hc.
  destruct (IH existing table' out' Hd) as [Hrows Hcount].
  { intros u Hu. rewrite He by by right. subst table'. case_match; [|done].
    rewrite lookup_insert_ne; [done|]. intros E. apply Hn. rewrite E. by apply list_elem_of_fmap_2. }
  split; [|cbn; lia]. intros id. rewrite Hrows. subst table'. rewrite filter_cons.
  destruct (table !! trTeamID t) as [row|] eqn:E; cbn.
  - destruct (table !! id) eqn:E'; [done|]. rewrite decide_False; [done|]. naive_solver.
  - destruct (accepts t) eqn:Ha; cbn.
    + destruct (decide (trTeamID t = id)) as [<-|Hid].
      * rewrite lookup_insert_eq, E, decide_True; done.
      * rewrite lookup_insert_ne by done. destruct (table !! id); [done|].
        rewrite decide_False; [done|]. naive_solver.
    + destruct (table !! id); [done|]. rewrite decide_False; [done|]. naive_solver.
Qed.

(** Placeholders are added and nothing else: for distinct teams, every row there was
    is kept unchanged, a team without a row gets a placeholder exactly when the store
    takes it, no other row appears, and each team is counted once, as existing, as
    inserted or as an error.  When the rows cannot be read, nothing changes. *)
Theorem placeholders_only_add read (ts : list TeamRef) (table : Table) :
  NoDup (trTeamID <$> ts) →
  let r := EnsureAliasPlaceholders read ts table in
  (r.1.2 = None → accounted r.1.1 = Z.of_nat (length ts) ∧ ∀ id, r.2 !! id =
     match table !! id with
     | Some row => Some row
     | None => placeholder <$> head (filter (λ t, t.(trTeamID) = id ∧ accepts t = true) ts) end) ∧
  (r.1.2 ≠ None → r.2 = table).
Proof.
  intros Hd. unfold EnsureAliasPlaceholders. destruct ts as [|t ts].
  { split; [|done]. intros _. split; [done|]. intros id. cbn. by destruct (table !! id). }
  destruct read as [err|]; [done|]. set (l := t :: ts) in *.
  destruct (ensure_rows l (BulkGet table (trTeamID <$> l)) table (mkEnsureAliasPlaceholdersOutput 0 0 []) Hd)
    as [Hrows Hcount].
  { intros u Hu. unfold BulkGet. destruct (table !! trTeamID u) as [row|] eqn:E.
    - apply map_lookup_filter_Some. split; [done|]. change (trTeamID u ∈ trTeamID <$> l).
      apply list_elem_of_fmap. by exists u.
    - apply map_lookup_filter_None. by left. }
  destruct (foldl _ _ l) as [out table']. by split.
Qed.
End placeholders.
End alias.
