(* ===== verification/Ingest.v ===== *)
(** internal/activity/ingest: the fetch of a day or of given fixtures (fetch.go)
    and the categorization of what was fetched (categorize.go), as programs over
    transactions.  The vendor's answers are arguments; the cache of tracked teams
    and the team records are in Teams.v. *)
From S2P Require Import Prelude GoStrings ApiFootball Fixture Event Identity Integrity Health Auditlog Presentation Plan Discovery Store Mutation Commit Guarantees Preserve Events Fixtures HealthRepo World Planning Activity Teams.
#[local] Open Scope string_scope.
#[local] Open Scope list_scope.
#[local] Open Scope Z_scope.
Import apifootball providerintegrity health mutation discoverycontract pg boundary commit guarantees preserve world monitor planning activity.

Module ingest.

(** ** Fetching (fetch.go) *)

Record FetchFixturesForDayOutput := mkFetchFixturesForDayOutput {
  fdFixtures : list APIFixture;
  fdCount : Z;
  fdFilteredOut : Z;
  fdTrackedCacheEmpty : bool }.

Record FetchFixturesByIDsOutput := mkFetchFixturesByIDsOutput {
  fbFixtures : list APIFixture;
  fbCount : Z;
  fbFailedIDs : list Z }.

(** Midnight of a UTC date. *)
Definition midnight (date : Time) : Time := fixturerepo.utcDate date * fixturerepo.day.

Definition isTracked (tracked : gset Z) (f : APIFixture) : bool :=
  bool_decide (f.(Teams).(TeamsHome).(TeamID) ∈ tracked) ||
  bool_decide (f.(Teams).(TeamsAway).(TeamID) ∈ tracked).

(** The loop over the fixtures of the day: the kept ones and the number of others. *)
Fixpoint keepTracked (tracked : gset Z) (l : list APIFixture) : list APIFixture * Z :=
  match l with
  | [] => ([], 0)
  | f :: l =>
      let '(kept, filteredOut) := keepTracked tracked l in
      if isTracked tracked f then (f :: kept, filteredOut) else (kept, filteredOut + 1)
  end.

(** apifootball.ListFixtures for one day: a transport error or a decoded envelope. *)
Definition ListFixtures (getJSON : Time → unit + fixtureEnvelope) (date : Time)
    : chunkError + list APIFixture :=
  match getJSON date with
  | inl _ => inl chunkTransport
  | inr envelope =>
      match decodeFixtureEnvelope envelope [] false with
      | inl reason => inl (chunkContract reason)
      | inr fixtures => inr fixtures
      end
  end.

Definition FetchFixturesForDay (getJSON : Time → unit + fixtureEnvelope)
    (tracked : string + list teams.TrackedTeam) (date : Time)
    : string + FetchFixturesForDayOutput :=
  match tracked with
  | inl _ => inl "load tracked"
  | inr tracked =>
      let trackedSet := teams.NewSetFromTeams tracked in
      match ListFixtures getJSON (midnight date) with
      | inl _ => inl "fetch"
      | inr dayFixtures =>
          if (size trackedSet =? 0)%nat
          then inr (mkFetchFixturesForDayOutput [] 0 (Z.of_nat (length dayFixtures)) true)
          else
            let '(kept, filteredOut) := keepTracked trackedSet dayFixtures in
            inr (mkFetchFixturesForDayOutput kept (Z.of_nat (length kept)) filteredOut false)
      end
  end.

(** [result] is what the client returned, with false for an error. *)
Definition FetchFixturesByIDs (result : FixturesByIDsResult * bool) (ids : list Z)
    : string + FetchFixturesByIDsOutput :=
  match ids with
  | [] => inr (mkFetchFixturesByIDsOutput [] 0 [])
  | _ =>
      let '(r, ok) := result in
      if ok : bool then inr (mkFetchFixturesByIDsOutput r.(ResultFixtures)
        (Z.of_nat (length r.(ResultFixtures))) (FailedIDs r))
      else inl "fetch"
  end.

(** ** The stored form of a response (reconcileFixture in categorize.go) *)

Definition teamOf (t : APIFixtureTeam) : fixture.Team := fixture.mkTeam t.(TeamID) t.(TeamName).

Definition leagueOf (af : APIFixture) : fixture.League :=
  fixture.mkLeague af.(League).(LeagueID) af.(League).(LeagueName) af.(League).(LeagueSeason)
    af.(League).(LeagueCountry) af.(League).(LeagueRound).

(** The scores, the shootout, the result. *)
Definition withResult (f : fixture.Fixture) (af : APIFixture) : fixture.Fixture :=
  let f := f <| fixture.fHomeScore := af.(Goals).(GoalsHome) |>
             <| fixture.fAwayScore := af.(Goals).(GoalsAway) |> in
  let f := fixture.UpdatePenalty f af.(Score).(Penalty).(LineHome) af.(Score).(Penalty).(LineAway) in
  fixture.UpdateResult f af.(Teams).(TeamsHome).(TeamWinner) af.(Teams).(TeamsAway).(TeamWinner).

Definition withClock (f : fixture.Fixture) (af : APIFixture) : fixture.Fixture :=
  f <| fixture.fAPIElapsed := af.(Fixture).(FixtureStatus).(StatusElapsed) |>
    <| fixture.fAPIExtra := af.(Fixture).(FixtureStatus).(StatusExtra) |>.

Definition refreshed (existing : fixture.Fixture) (af : APIFixture) (now observedAt : Time)
    : fixture.Fixture :=
  let f := withClock (existing <| fixture.fAPIStatus := apiStatus af |>) af in
  let f := fixture.UpdateMetadata f af.(Fixture).(FixtureDate) (teamOf af.(Teams).(TeamsHome))
    (teamOf af.(Teams).(TeamsAway)) (leagueOf af) in
  (withResult f af) <| fixture.fLastPolledAt := Some observedAt |> <| fixture.fUpdatedAt := now |>.

(** Whether a field the frontend shows differs. *)
Definition shownChanged (before f : fixture.Fixture) : bool :=
  negb (before.(fixture.fAPIStatus).(fixture.Short) =? f.(fixture.fAPIStatus).(fixture.Short))%string ||
  negb (before.(fixture.fKickoff) =? f.(fixture.fKickoff)) ||
  intPtrChanged before.(fixture.fHomeScore) f.(fixture.fHomeScore) ||
  intPtrChanged before.(fixture.fAwayScore) f.(fixture.fAwayScore) ||
  intPtrChanged before.(fixture.fHomePenalty) f.(fixture.fHomePenalty) ||
  intPtrChanged before.(fixture.fAwayPenalty) f.(fixture.fAwayPenalty) ||
  boolPtrChanged before.(fixture.fHomeWinner) f.(fixture.fHomeWinner) ||
  boolPtrChanged before.(fixture.fAwayWinner) f.(fixture.fAwayWinner).

(** [clock] is the wall clock the constructor reads. *)
Definition constructed (clock : Time) (af : APIFixture) (observedAt : Time) : fixture.Fixture :=
  let f := fixture.New clock af.(Fixture).(FixtureID) (apiStatus af)
    (UTC af.(Fixture).(FixtureDate)) (teamOf af.(Teams).(TeamsHome))
    (teamOf af.(Teams).(TeamsAway)) (leagueOf af) in
  (withResult (withClock f af) af) <| fixture.fLastPolledAt := Some observedAt |>.

(** The state a fixture is first stored in. *)
Definition initialState (f : fixture.Fixture) (window : Duration) (now : Time)
    : string + fixture.Fixture :=
  if fixture.Terminal f.(fixture.fAPIStatus) then
    match fixture.Activate f f.(fixture.fKickoff) with
    | (_, Some _) => inl "initial Activate for terminal"
    | (f, None) =>
        match fixture.Complete f now with
        | (_, Some _) => inl "initial Complete for terminal"
        | (f, None) => inr f
        end
    end
  else if fixture.Live f.(fixture.fAPIStatus) then
    match fixture.Activate f now with
    | (_, Some _) => inl "initial Activate for live"
    | (f, None) => inr f
    end
  else if fixture.ShouldActivateNow f now window then
    match fixture.Activate f now with
    | (_, Some _) => inl "initial Activate for imminent"
    | (f, None) => inr f
    end
  else inr f.

(** ** Categorization *)

Record CategorizeInput := mkCategorizeInput {
  cgFixtures : list APIFixture;
  cgActivationWindow : Duration;
  cgObservedAt : Time;
  cgObservationID : string;
  cgLegacyUnprotected : bool }.

Record CategorizeOutput := mkCategorizeOutput {
  coStaging : Z;
  coActive : Z;
  coCompleted : Z;
  coErrors : list string;
  coTeamRefs : list alias.TeamRef;
  coChangedIDs : list Z }.

#[global] Instance eta_CategorizeOutput : Eta CategorizeOutput := λ o,
  mkCategorizeOutput o.(coStaging) o.(coActive) o.(coCompleted) o.(coErrors) o.(coTeamRefs)
    o.(coChangedIDs).

Definition ingestFixtureFacts (f : fixture.Fixture) : FixtureFacts := providerFixtureFacts f.

Definition ingestTimeCopy (f : option fixture.Fixture) : option Time :=
  f ← f; f.(fixture.fLastPolledAt).

Definition countLanded (state : fixture.State) (out : CategorizeOutput) : CategorizeOutput :=
  if (state =? fixture.StateStaging)%string then out <| coStaging ::= λ n, n + 1 |>
  else if (state =? fixture.StateActive)%string then out <| coActive ::= λ n, n + 1 |>
  else if (state =? fixture.StateCompleted)%string then out <| coCompleted ::= λ n, n + 1 |>
  else out.

Definition countryOf (f : fixture.Fixture) : option string :=
  let country := f.(fixture.fLeague).(fixture.lCountry) in
  if (country =? "")%string || (country =? "World")%string then None else Some country.

Definition recordTeam (country : option string) (m : gmap Z alias.TeamRef) (t : fixture.Team)
    : gmap Z alias.TeamRef :=
  match m !! t.(fixture.tID) with
  | None => <[t.(fixture.tID) :=
      alias.mkTeamRef t.(fixture.tID) t.(fixture.tName) false country None]> m
  | Some existing =>
      if is_nil existing.(alias.trCountry) && not_nil country
      then <[t.(fixture.tID) := alias.mkTeamRef existing.(alias.trTeamID) existing.(alias.trTeamName)
        existing.(alias.trIsNational) country existing.(alias.trCity)]> m
      else m
  end.

Definition recordTeams (landed : fixture.Fixture) (m : gmap Z alias.TeamRef) : gmap Z alias.TeamRef :=
  foldl (recordTeam (countryOf landed)) m [landed.(fixture.fHome); landed.(fixture.fAway)].

(** What the loop carries: the output, the teams, and the error that ends it. *)
Record progress := mkProgress {
  prOut : CategorizeOutput;
  prTeams : gmap Z alias.TeamRef;
  prErr : option string }.

Definition fixtureFailed (p : progress) (err : string) : progress :=
  mkProgress (p.(prOut) <| coErrors ::= λ l, l ++ [err] |>) p.(prTeams) p.(prErr).

Definition landedAs (p : progress) (landed : fixture.Fixture) (state : fixture.State) (changed : bool)
    : progress :=
  let out := if changed then p.(prOut) <| coChangedIDs ::= λ l, l ++ [landed.(fixture.fID)] |>
             else p.(prOut) in
  mkProgress (countLanded state out) (recordTeams landed p.(prTeams)) p.(prErr).

Section activity.
(** [refs] gives the order Go ranges over the teams in. *)
Context (providerMutations : bool) (clock now : Time) (inp : CategorizeInput)
  (refs : gmap Z alias.TeamRef → list alias.TeamRef).

Definition observedAtOf : Time :=
  if IsZero (UTC inp.(cgObservedAt)) then now else UTC inp.(cgObservedAt).

(** The fixture to store, the row before, and whether it shows a change. *)
Definition reconcileFixture (af : APIFixture)
    : act (string + (fixture.Fixture * option fixture.Fixture * bool)) :=
  existing ← call (λ _, fixturerepo.Get af.(Fixture).(FixtureID));
  mret (match existing with
        | inr stored =>
            let f := refreshed stored af now observedAtOf in
            inr (f, Some stored, shownChanged stored f)
        | inl err =>
            if (err =? ErrNotFound)%string then
              match initialState (constructed clock af observedAtOf) inp.(cgActivationWindow) now with
              | inl err => inl err
              | inr f => inr (f, None, true)
              end
            else inl "Get"
        end).

Definition localPolicy (baseline : option fixture.Fixture) (final : fixture.Fixture) : MutationPolicy :=
  match baseline with
  | None => PolicyTrusted
  | Some b => (AssessFixture (mkFixtureComparison (ingestFixtureFacts b) (ingestFixtureFacts final)
      [] [] [])).(fvPolicy)
  end.

Definition ingestPlan (final : fixture.Fixture) (baseline : option fixture.Fixture)
    : FixtureMutationPlan :=
  mkFixtureMutationPlan (mkObservationGuard inp.(cgObservationID) observedAtOf 0 false)
    MutationModeIngest (Some final) (not_nil baseline) (ingestTimeCopy baseline)
    (localPolicy baseline final) false None.

Definition guarded : bool := providerMutations && negb inp.(cgLegacyUnprotected).

(** What was stored: the row, its state, and whether it shows a change. *)
Definition storeFixture (final : fixture.Fixture) (baseline : option fixture.Fixture) (changed : bool)
    : act (string + (fixture.Fixture * fixture.State * bool)) :=
  if guarded then
    result ← call (λ v, ApplyFixture v.(eNow) v.(eMode) (ingestPlan final baseline));
    mret (match result with
          | inl _ => inl "store fixture"
          | inr r =>
              match r.(mrFixture) with
              | None => inl "guarded write returned no fixture"
              | Some landed => inr (landed, landed.(fixture.fState), r.(mrFixtureChanged))
              end
          end)
  else
    stored ← call (λ v, fixturerepo.StoreFromIngest v.(eNow) final);
    mret (match stored with
          | inl _ => inl "store fixture"
          | inr state => inr (final, state, changed)
          end).

Definition categorizeOne (p : progress) (af : APIFixture) : act progress :=
  if not_nil p.(prErr) then mret p
  else
    r ← reconcileFixture af;
    match r with
    | inl _ => mret (fixtureFailed p "reconcile fixture")
    | inr (final, baseline, changed) =>
        if guarded && (inp.(cgObservationID) =? "")%string
        then mret (mkProgress p.(prOut) p.(prTeams) (Some "guarded ingest requires observation ID"))
        else
          stored ← storeFixture final baseline changed;
          mret (match stored with
                | inl err => fixtureFailed p err
                | inr (landed, state, changed) => landedAs p landed state changed
                end)
    end.

Definition CategorizeAndUpsertFixtures : act (CategorizeOutput * option string) :=
  p ← loop categorizeOne (mkProgress (mkCategorizeOutput 0 0 0 [] [] []) ∅ None) inp.(cgFixtures);
  mret (match p.(prErr) with
        | Some err => (p.(prOut), Some err)
        | None => (p.(prOut) <| coTeamRefs := refs p.(prTeams) |>, None)
        end).
End activity.

(** ** The filter of a day *)

Lemma keepTracked_spec tracked l :
  keepTracked tracked l = (filter (λ f, isTracked tracked f = true) l,
    Z.of_nat (length (filter (λ f, isTracked tracked f = false) l))).
Proof.
  induction l as [|f l IH]; [done|]. cbn [keepTracked]. rewrite IH, !filter_cons.
  destruct (isTracked tracked f); repeat case_decide; try done. f_equal. cbn. lia.
Qed.

(** A day's fetch ingests exactly the fixtures of tracked teams, in the vendor's
    order, and counts the others; without tracked teams it ingests nothing and says
    so; and it fails only when the cache cannot be read or the vendor's answer is not
    a valid payload. *)
Theorem day_fetch_filters getJSON tracked date :
  match FetchFixturesForDay getJSON tracked date with
  | inl _ => (∃ err, tracked = inl err) ∨ ∃ err, ListFixtures getJSON (midnight date) = inl err
  | inr out => ∃ cached fs, tracked = inr cached ∧ ListFixtures getJSON (midnight date) = inr fs ∧
      out.(fdCount) = Z.of_nat (length out.(fdFixtures)) ∧
      out.(fdCount) + out.(fdFilteredOut) = Z.of_nat (length fs) ∧
      (out.(fdTrackedCacheEmpty) = true ↔ cached = []) ∧
      out.(fdFixtures) = filter (λ f, f.(Teams).(TeamsHome).(TeamID) ∈ teams.ttID <$> cached ∨
        f.(Teams).(TeamsAway).(TeamID) ∈ teams.ttID <$> cached) fs
  end.
Proof.
  unfold FetchFixturesForDay. destruct tracked as [err|cached]; [by eauto|].
  destruct (ListFixtures getJSON (midnight date)) as [err|fs]; [by eauto|].
  assert (∀ id, id ∈ teams.NewSetFromTeams cached ↔ id ∈ teams.ttID <$> cached) as Hset.
  { intros id. unfold teams.NewSetFromTeams. by rewrite elem_of_list_to_set. }
  destruct (Nat.eqb_spec (size (teams.NewSetFromTeams cached)) 0) as [E|E].
  - exists cached, fs. apply size_empty_inv in E. destruct cached as [|t cached]; [|set_solver].
    cbn. split; [done|]. split; [done|]. split; [done|]. split; [lia|]. split; [done|].
    symmetry. apply filter_none, Forall_forall. intros f _ [?%elem_of_nil|?%elem_of_nil]; done.
  - rewrite keepTracked_spec. exists cached, fs. cbn [fdFixtures fdCount fdFilteredOut fdTrackedCacheEmpty].
    split; [done|]. split; [done|]. split; [done|]. split.
    + clear. induction fs as [|f fs IH]; [done|]. rewrite !filter_cons.
      destruct (isTracked _ f); repeat case_decide; try done; cbn [length]; lia.
    + split; [split; [done|]; by intros ->|]. apply list_filter_iff. intros f. unfold isTracked.
      by rewrite orb_true_iff, !bool_decide_eq_true, !Hset.
Qed.

(** ** The state a fixture is first stored in *)

(** A fixture seen for the first time always gets a state, and the state is decided
    by the response: completed now and activated at its kickoff when the status is
    terminal, active now when it is live or the kickoff is no later than the end of
    the window, and otherwise staging.  The row satisfies the fixture invariants. *)
Theorem first_sight clock af window now observedAt :
  let f := constructed clock af observedAt in
  let near := negb (now + window <? af.(Fixture).(FixtureDate)) in
  ∃ g, initialState f window now = inr g ∧ fixture.ValidateInvariants g = None ∧
    g.(fixture.fID) = af.(Fixture).(FixtureID) ∧ g.(fixture.fLastPolledAt) = Some observedAt ∧
    g.(fixture.fAPIStatus) = apiStatus af ∧ g.(fixture.fKickoff) = af.(Fixture).(FixtureDate) ∧
    (g.(fixture.fState), g.(fixture.fActivatedAt), g.(fixture.fCompletedAt)) =
      if fixture.Terminal (apiStatus af)
      then (fixture.StateCompleted, Some af.(Fixture).(FixtureDate), Some now)
      else if fixture.Live (apiStatus af) || near then (fixture.StateActive, Some now, None)
      else (fixture.StateStaging, None, None).
Proof.
  cbn zeta. set (f := constructed clock af observedAt).
  assert (fixture.lifecycle f = (fixture.StateStaging, false, false, false) ∧
    f.(fixture.fState) = fixture.StateStaging ∧ f.(fixture.fActivatedAt) = None ∧
    f.(fixture.fCompletedAt) = None ∧ f.(fixture.fTerminalObservedAt) = None ∧
    f.(fixture.fID) = af.(Fixture).(FixtureID) ∧ f.(fixture.fLastPolledAt) = Some observedAt ∧
    f.(fixture.fAPIStatus) = apiStatus af ∧ f.(fixture.fKickoff) = af.(Fixture).(FixtureDate))
    as (Hl & Hs & Ha & Hc & Ht & Hid & Hp & Hst & Hk).
  { subst f. unfold constructed, withResult, fixture.UpdateResult. by repeat case_match. }
  clearbody f. destruct f. cbn in *. subst. unfold initialState, fixture.ShouldActivateNow, time_Add, After.
  cbn. destruct (fixture.Terminal (apiStatus af)), (fixture.Live (apiStatus af)), (now + window <? FixtureDate (Fixture af)); cbn;
    by eexists.
Qed.

(** Ingestion of a stored fixture never moves it through its life. *)
Lemma refreshed_lifecycle stored af now observedAt :
  fixture.lifecycle (refreshed stored af now observedAt) = fixture.lifecycle stored.
Proof. unfold refreshed, withResult, fixture.UpdateResult. by repeat case_match. Qed.

(** Unlike the polls, ingestion takes a missing kickoff date over the known one. *)
Lemma ingest_erases_kickoff stored af now observedAt :
  IsZero af.(Fixture).(FixtureDate) = true →
  (refreshed stored af now observedAt).(fixture.fKickoff) = zero_time ∧
  (updateFixtureMetadataFromAPI stored af).(fixture.fKickoff) = stored.(fixture.fKickoff).
Proof.
  intros Hz. unfold updateFixtureMetadataFromAPI. rewrite Hz. apply Z.eqb_eq in Hz. split; [|done].
  unfold refreshed, withResult, fixture.UpdateResult. by repeat case_match.
Qed.

(** ** Ingestion as a worker *)

Section worker.
Context (l : limits) (providerMutations : bool) (clock now : Time) (inp : CategorizeInput)
  (refs : gmap Z alias.TeamRef → list alias.TeamRef).

Lemma storeFixture_worker final baseline changed :
  worker l (storeFixture providerMutations now inp final baseline changed).
Proof.
  unfold storeFixture. destruct (guarded _ _); (apply worker_bind; [|done]).
  - acts v (boundaryCall (callFixture (ingestPlan now inp final baseline))).
  - acts v (fixtureOp (fixturerepo.opStoreFromIngest final)).
Qed.

Lemma categorizeOne_worker p af : worker l (categorizeOne providerMutations clock now inp p af).
Proof.
  unfold categorizeOne. destruct (not_nil _); [done|]. apply worker_bind.
  - unfold reconcileFixture. apply worker_bind; [by apply reads_worker, Get_reads|done].
  - intros [|[[final baseline] changed]]; [done|]. destruct (_ && _); [done|].
    apply worker_bind; [apply storeFixture_worker|done].
Qed.

Lemma Categorize_worker : worker l (CategorizeAndUpsertFixtures providerMutations clock now inp refs).
Proof.
  apply worker_bind; [|done]. apply worker_loop. intros. apply categorizeOne_worker.
Qed.
End worker.

(** Ingestion is a worker of the system: run among any others, with any failures, it
    keeps the invariants of the tables, and no fixture goes back in its life. *)
Theorem ingest_keeps_world l providerMutations clock now inp refs db trace res db' :
  world_ok db →
  runs (happens l) (CategorizeAndUpsertFixtures providerMutations clock now inp refs) db trace res db' →
  world_ok db' ∧ forward_db db db'.
Proof.
  intros Hok H. apply worker_runs in H; [|apply Categorize_worker].
  by destruct (world_steps l db db' Hok H) as (? & ? & _).
Qed.

(** ** What ingestion reports *)

Definition landed (out : CategorizeOutput) : Z := out.(coStaging) + out.(coActive) + out.(coCompleted).

(** The teams recorded so far are filed under their own ids. *)
Definition filed (m : gmap Z alias.TeamRef) : Prop := ∀ id t, m !! id = Some t → t.(alias.trTeamID) = id.

Lemma recordTeam_filed country m t : filed m → filed (recordTeam country m t).
Proof.
  intros Hm. unfold recordTeam. destruct (m !! _) as [e|] eqn:E; [case_match; [|done]|];
    intros id u; rewrite lookup_insert_Some; intros [[<- <-]|[_ Hu]]; cbn; by eauto.
Qed.

Lemma recordTeams_filed f m : filed m → filed (recordTeams f m).
Proof. intros Hm. unfold recordTeams. cbn. by do 2 apply recordTeam_filed. Qed.

Lemma refs_NoDup (m : gmap Z alias.TeamRef) l :
  filed m → l ≡ₚ (map_to_list m).*2 → NoDup (alias.trTeamID <$> l).
Proof.
  intros Hm ->. rewrite <-list_fmap_compose.
  assert ((alias.trTeamID ∘ snd <$> map_to_list m) = (map_to_list m).*1) as ->; [|apply NoDup_fst_map_to_list].
  apply list_fmap_ext. intros i [id t] Hi. apply list_elem_of_lookup_2, elem_of_map_to_list in Hi.
  by apply Hm in Hi.
Qed.

(** Each step accounts for its fixture. *)
Definition accounted (n : nat) (p : progress) : Prop :=
  filed p.(prTeams) ∧ landed p.(prOut) + Z.of_nat (length p.(prOut).(coErrors)) ≤ Z.of_nat n ∧
  (length p.(prOut).(coChangedIDs) ≤ n)%nat.

Lemma fixtureFailed_accounted n p err : accounted n p → accounted (S n) (fixtureFailed p err).
Proof.
  intros (Hf & Hn & Hc). split; [done|]. rewrite Nat2Z.inj_succ. unfold fixtureFailed, landed in *. cbn.
  rewrite length_app. cbn. lia.
Qed.

Lemma landedAs_accounted n p f state changed :
  accounted n p → accounted (S n) (landedAs p f state changed).
Proof.
  intros (Hf & Hn & Hc). unfold landedAs, landed, accounted, countLanded in *.
  split; [by apply recordTeams_filed|]. rewrite Nat2Z.inj_succ.
  destruct changed; cbn [prOut]; repeat case_match; unfold landed; cbn; rewrite ?length_app; cbn; lia.
Qed.

Lemma accounted_S n p : accounted n p → accounted (S n) p.
Proof. intros (? & ? & ?). unfold accounted. split; [done|lia]. Qed.

(** Every fetched fixture is counted at most once, as stored or as an error, and the
    teams handed on are distinct, which is what the placeholders need. *)
Theorem ingest_reports interferes providerMutations clock now inp refs db trace out db' :
  (∀ m, refs m ≡ₚ (map_to_list m).*2) →
  runs interferes (CategorizeAndUpsertFixtures providerMutations clock now inp refs) db trace (out, None) db' →
  NoDup (alias.trTeamID <$> out.(coTeamRefs)) ∧
  landed out + Z.of_nat (length out.(coErrors)) ≤ Z.of_nat (length inp.(cgFixtures)) ∧
  (length out.(coChangedIDs) ≤ length inp.(cgFixtures))%nat.
Proof.
  intros Hrefs H. apply runs_bind in H as (p & db1 & t1 & t2 & Hl & H & _).
  apply runs_ret in H as (_ & H & _).
  assert (accounted (length (cgFixtures inp)) p) as (Hf & Hn & Hc).
  { clear H. revert Hl. generalize (cgFixtures inp) as l. intros l.
    set (p0 := mkProgress _ _ _).
    assert (accounted 0 p0) as H0 by (split; [intros id t Ht; by apply (lookup_empty_Some id t) in Ht|by vm_compute]).
    replace (length l) with (0 + length l)%nat by lia. revert H0. generalize 0%nat as n.
    generalize p0 as q. revert db t1. induction l as [|af l IH]; intros db0 t q n Hq Hl.
    - apply runs_ret in Hl as (_ & -> & _). by rewrite Nat.add_0_r.
    - apply runs_bind in Hl as (q' & db2 & t3 & t4 & Hs & Hl & _).
      replace (n + length (af :: l))%nat with (S n + length l)%nat by (cbn; lia).
      eapply IH; [|exact Hl]. revert Hs. unfold categorizeOne.
      destruct (not_nil (prErr q)). { intros (_ & -> & _)%runs_ret. by apply accounted_S. }
      intros (r & db3 & t5 & t6 & _ & Hs & _)%runs_bind.
      destruct r as [err|[[final baseline] changed]].
      { apply runs_ret in Hs as (_ & -> & _). by apply fixtureFailed_accounted. }
      destruct (_ && _). { apply runs_ret in Hs as (_ & -> & _). by apply accounted_S. }
      apply runs_bind in Hs as (s & db4 & t7 & t8 & _ & Hs & _). apply runs_ret in Hs as (_ & -> & _).
      destruct s as [err|[[f st] ch]]; [by apply fixtureFailed_accounted|by apply landedAs_accounted]. }
  destruct (prErr p); [done|]. injection H as ->. cbn. split; [by eapply refs_NoDup|done].
Qed.
End ingest.
