(* ===== verification/Coordinate.v ===== *)
(** The scheduled workflows of internal/workflow (active_poll.go, staging_poll.go,
    ingest.go, provider_health.go): what they have in common.

    A workflow waits for activities.  It only sees their answers, so a run is a
    function of the answers; a [Service] gives them, and may depend on everything
    that happened before.  [ExecuteActivity] issues a command and [Get] finishes it;
    several may be issued before the first is finished.  Log lines, timeouts and
    retry policies are left out: they decide which answers arrive, not what the
    workflow does with them. *)
From S2P Require Import Prelude GoStrings ApiFootball Fixture Event Identity Integrity Health Presentation Plan Discovery Planning Collect Activation Video Wire Flow Teams Ingest.
#[local] Open Scope string_scope.
#[local] Open Scope list_scope.
#[local] Open Scope Z_scope.
Import apifootball health wire flow planning collect activation ingest.

Module coordinate.

(** ** The activities *)

Record GetMonitorConfigOutput := mkGetMonitorConfigOutput {
  gmActivationWindow : Duration;
  gmFleetEnabled : bool }.

Record GetIngestConfigOutput := mkGetIngestConfigOutput {
  giMaxLookaheadDays : Z;
  giActivationWindow : Duration;
  giCompletedFixtureDates : Z }.

Record FixtureStatusEntry := mkFixtureStatusEntry {
  fsFixtureID : Z;
  fsProjection : fixturepresentation.Projection }.

Inductive command :=
  | GetMonitorConfig
  | ActivateUpcoming (lookahead : Duration)
  | ListActiveFixtureIDs
  | FetchLiveFixtures (i : FetchLiveFixturesInput)
  | CollectProviderHealth (i : CollectProviderHealthInput)
  | ReconcileFixture (i : ReconcileFixtureInput)
  | ProvisionFirefox (eventID : UUID)
  | RequestCancelExternalWorkflow (workflowID : string)
  | DestroyEvent (eventID : UUID) (reason : video.RemovalReason)
  | ReleaseFirefox (eventID : UUID)
  | PublishFixtureBatch (statuses : list FixtureStatusEntry) (updateIDs : list Z)
  | PollStagingFixtures (i : PollStagingFixturesInput)
  | ReapOrphanedFirefox (minAgeSecs : Z)
  | GetIngestConfig
  | RefreshTrackedTeamsIfStale
  | FetchFixturesByIDs (ids : list Z)
  | FetchFixturesForDay (date : Time)
  | Sleep (d : Duration)
  | CategorizeAndUpsertFixtures (i : CategorizeInput)
  | EnsureAliasPlaceholders (ts : list alias.TeamRef)
  | PlanMediaRetention (completedFixtureDates : Z).

Definition response (c : command) : Type :=
  match c with
  | GetMonitorConfig => GetMonitorConfigOutput
  | ActivateUpcoming _ => ActivateUpcomingOutput
  | ListActiveFixtureIDs => list Z
  | FetchLiveFixtures _ => FetchLiveFixturesOutput
  | CollectProviderHealth _ => HealthResult
  | ReconcileFixture _ => ReconcileFixtureOutput
  | PollStagingFixtures _ => PollStagingFixturesOutput
  | ReapOrphanedFirefox _ => list string
  | GetIngestConfig => GetIngestConfigOutput
  | RefreshTrackedTeamsIfStale => teams.RefreshTrackedTeamsIfStaleOutput
  | FetchFixturesByIDs _ => FetchFixturesByIDsOutput
  | FetchFixturesForDay _ => FetchFixturesForDayOutput
  | CategorizeAndUpsertFixtures _ => CategorizeOutput
  | EnsureAliasPlaceholders _ => alias.EnsureAliasPlaceholdersOutput
  | PlanMediaRetention _ => option Time * list UUID
  | _ => unit
  end.

Inductive step :=
  | Issued (c : command)
  | Finished (c : command) (r : activityError + response c).

(** [errorText] is err.Error(), [sha1] the text of the version-5 UUID of a name in
    the OID name space, [printUUID] the text of a UUID. *)
Class Service := {
  answer : list step → ∀ c, activityError + response c;
  errorText : activityError → string;
  sha1 : string → string;
  printUUID : UUID → string }.

(** The identity of the execution, the time it started, and the versions its history
    was started with. *)
Record execution := mkExecution {
  exID : string;
  exRunID : string;
  exNow : Time;
  healthVersion : bool;
  guardVersion : bool;
  reaperV2 : bool }.

(** A new history has the current versions. *)
Definition current (x : execution) : Prop :=
  x.(healthVersion) = true ∧ x.(guardVersion) = true ∧ x.(reaperV2) = true.

(** The output under construction and what happened, in order. *)
Record run (O : Type) := mkRun { output : O; steps : list step }.
Arguments mkRun {O} output steps.
Arguments output {O} r.
Arguments steps {O} r.

Section workflow.
Context `{Service} {O : Type}.

Definition record_ (x : step) : M (run O) unit := modify (λ r, mkRun r.(output) (r.(steps) ++ [x])).
Definition update (f : O → O) : M (run O) unit := modify (λ r, mkRun (f r.(output)) r.(steps)).

Definition issue (c : command) : M (run O) unit := record_ (Issued c).

(** Get on the future of a command. *)
Definition get (c : command) : M (run O) (activityError + response c) :=
  r ← gets (λ e, answer e.(steps) c);
  record_ (Finished c r) ;;
  mret r.

Definition call (c : command) : M (run O) (activityError + response c) := issue c ;; get c.

(** ** What a computation adds to the trail *)

(** [m] ends with the trail [h] prolonged by steps of which [P] holds. *)
Definition prolongs {A} (m : M (run O) A) (P : A → list step → Prop) : Prop :=
  ∀ e, ∃ h, (m e).2.(steps) = e.(steps) ++ h ∧ P (m e).1 h.

Lemma prolongs_ret {A} (a : A) (P : A → list step → Prop) : P a [] → prolongs (mret a) P.
Proof. intros HP e. exists []. by rewrite app_nil_r. Qed.

Lemma prolongs_bind {A B} (m : M (run O) A) (k : A → M (run O) B) Q P :
  prolongs m Q → (∀ a h, Q a h → prolongs (k a) (λ b h', P b (h ++ h'))) → prolongs (m ≫= k) P.
Proof.
  intros Hm Hk e. unfold mbind, M_bind. destruct (Hm e) as (h & Hh & HQ).
  destruct (m e) as [a e1]. cbn in *. destruct (Hk a h HQ e1) as (h' & Hh' & HP).
  exists (h ++ h'). by rewrite app_assoc, <-Hh.
Qed.

Lemma prolongs_mono {A} (m : M (run O) A) (P Q : A → list step → Prop) :
  prolongs m P → (∀ a h, P a h → Q a h) → prolongs m Q.
Proof. intros Hm HPQ e. destruct (Hm e) as (h & ? & ?). exists h. auto. Qed.

Lemma prolongs_update f : prolongs (update f) (λ _ h, h = []).
Proof. intros e. exists []. cbn. by rewrite app_nil_r. Qed.

Lemma prolongs_issue c : prolongs (issue c) (λ _ h, h = [Issued c]).
Proof. intros e. by exists [Issued c]. Qed.

Lemma prolongs_get c : prolongs (get c) (λ r h, h = [Finished c r]).
Proof. intros e. by eexists. Qed.

Lemma prolongs_gets {A} (f : run O → A) : prolongs (gets f) (λ _ h, h = []).
Proof. intros e. exists []. cbn. by rewrite app_nil_r. Qed.

Lemma prolongs_when (b : bool) m P :
  (b = true → prolongs m P) → (b = false → P tt []) → prolongs (when b m) P.
Proof. destruct b; intros Ht Hf; [by apply Ht|by apply prolongs_ret, Hf]. Qed.

Lemma prolongs_call c : prolongs (call c) (λ r h, h = [Issued c; Finished c r]).
Proof.
  eapply prolongs_bind; [apply prolongs_issue|]. intros ? ? ->.
  eapply prolongs_mono; [apply prolongs_get|]. by intros r h ->.
Qed.

Lemma call_run c (e : run O) :
  ∃ r, call c e = (r, mkRun e.(output) (e.(steps) ++ [Issued c; Finished c r])).
Proof.
  eexists. unfold call, issue, get, record_, gets, modify, mbind, M_bind, mret, M_ret. cbn.
  by rewrite <-app_assoc.
Qed.

(** The steps a loop adds are those of its iterations. *)
Lemma prolongs_for {A} (l : list A) body (P : A → list step → Prop) :
  (∀ x, x ∈ l → prolongs (body x) (λ _ h, P x h)) →
  prolongs (for_ l body) (λ _ h, ∃ hs, Forall2 P l hs ∧ h = mjoin hs).
Proof.
  induction l as [|x l IH]; intros Hb; cbn [for_].
  - apply prolongs_ret. by exists [].
  - eapply prolongs_bind; [apply Hb; by left|]. intros ? h Hh.
    eapply prolongs_mono; [apply IH; intros y Hy; apply Hb; by right|].
    intros ? ? (hs & Hhs & ->). exists (h :: hs). split; [by constructor|done].
Qed.
End workflow.

(** The commands of a trail, in the order they were issued. *)
Definition commands (h : list step) : list command :=
  omap (λ x, match x with Issued c => Some c | Finished _ _ => None end) h.

Lemma commands_app h h' : commands (h ++ h') = commands h ++ commands h'.
Proof. apply omap_app. Qed.

Lemma commands_join hs : commands (mjoin hs) = hs ≫= commands.
Proof. induction hs as [|h hs IH]; [done|].
  change (commands (h ++ mjoin hs) = commands h ++ (hs ≫= commands)). by rewrite commands_app, IH. Qed.

(** provider_health.go: a receipt key from the identity of the execution. *)
Definition providerObservationID `{Service} (x : execution) : string :=
  sha1 (x.(exID) +:+ String (Ascii.ascii_of_nat 0) "" +:+ x.(exRunID)).
End coordinate.
