(* ===== verification/Polling.v ===== *)
(** internal/workflow/active_poll.go, staging_poll.go and provider_health.go: the two
    scheduled workflows that follow fixtures.  The active poll promotes, fetches,
    records the health of the provider, reconciles every fetched fixture, warms
    browsers for new events, tears removed events down and announces what changed;
    the staging poll refreshes the fixtures that have not started and sweeps
    browsers without an owner. *)
From S2P Require Import Prelude GoStrings ApiFootball Fixture Event Identity Integrity Health Presentation Plan Discovery Planning Collect Activation Video Wire Flow Teams Ingest Coordinate.
#[local] Open Scope string_scope.
#[local] Open Scope list_scope.
#[local] Open Scope Z_scope.
Import apifootball providerintegrity health mutation wire flow planning collect activation coordinate.

Module polling.

(** ** The active poll (active_poll.go) *)

Record ActivePollWorkflowOutput := mkActivePollWorkflowOutput {
  apActivated : Z;
  apActiveFixtureCount : Z;
  apFetchedCount : Z;
  apMissedIDs : Z;
  apProviderFetchFailures : list ProviderFetchFailure;
  apNewEvents : Z;
  apEventsBecameStable : list string;
  apEventsRemoved : list string;
  apGoalAbsencesHeld : list string;
  apUnknownDropped : Z;
  apProviderIntegrity : BatchVerdict;
  apProviderHealth : option HealthResult;
  apPositiveOnlyWrites : Z;
  apRejectedWrites : Z;
  apShadowPositiveOnly : Z;
  apShadowRejected : Z;
  apStaleMutationPlans : Z;
  apErrors : list string }.

#[global] Instance eta_ActivePollWorkflowOutput : Eta ActivePollWorkflowOutput := λ o,
  mkActivePollWorkflowOutput o.(apActivated) o.(apActiveFixtureCount) o.(apFetchedCount)
    o.(apMissedIDs) o.(apProviderFetchFailures) o.(apNewEvents) o.(apEventsBecameStable)
    o.(apEventsRemoved) o.(apGoalAbsencesHeld) o.(apUnknownDropped) o.(apProviderIntegrity)
    o.(apProviderHealth) o.(apPositiveOnlyWrites) o.(apRejectedWrites) o.(apShadowPositiveOnly)
    o.(apShadowRejected) o.(apStaleMutationPlans) o.(apErrors).

Definition emptyPoll : ActivePollWorkflowOutput :=
  mkActivePollWorkflowOutput 0 0 0 0 [] 0 [] [] [] 0 (mkBatchVerdict "" [] [] 0 0) None 0 0 0 0 0 [].

Definition ProviderFetchFailureErrorType : string := "ProviderFixtureFetchFailure".

Definition classifiedProviderFetchFailure (err : activityError) : option FetchLiveFixturesOutput :=
  match asApplication err with
  | Some (type, Some (detailsFetch out)) =>
      if (type =? ProviderFetchFailureErrorType)%string then Some out else None
  | _ => None
  end.

(** What the cycle gathers from the reconciliations. *)
Record tally := mkTally {
  removedEventIDs : list UUID;
  newNamedEventIDs : list UUID;
  providerVerdicts : list FixtureVerdict;
  statusEntries : list FixtureStatusEntry;
  updateIDs : list Z }.

Definition tallyOne (t : tally) (o : ReconcileFixtureOutput) : tally :=
  mkTally (t.(removedEventIDs) ++ o.(oEventsRemovedIDs)) (t.(newNamedEventIDs) ++ o.(oNewNamedEventIDs))
    (if Policy_Valid o.(oProviderIntegrity).(fvPolicy)
     then t.(providerVerdicts) ++ [o.(oProviderIntegrity)] else t.(providerVerdicts))
    (if (o.(oFeedAction) =? FixtureFeedStatus)%string
     then t.(statusEntries) ++ [mkFixtureStatusEntry o.(oFixtureID) o.(oPresentation)]
     else t.(statusEntries))
    (if (o.(oFeedAction) =? FixtureFeedUpdate)%string
     then t.(updateIDs) ++ [o.(oFixtureID)] else t.(updateIDs)).

(** The counters a policy raises. *)
Definition countPolicy (policy : MutationPolicy) (positive rejected : Z) : Z * Z :=
  if (policy =? PolicyPositiveOnly)%string then (positive + 1, rejected)
  else if (policy =? PolicyRejected)%string then (positive, rejected + 1)
  else (positive, rejected).

Definition countWrites (r : ReconcileFixtureOutput) (o : ActivePollWorkflowOutput)
    : ActivePollWorkflowOutput :=
  let writes := countPolicy r.(oMutationPolicy) o.(apPositiveOnlyWrites) o.(apRejectedWrites) in
  let shadow :=
    match r.(oMutationDecision) with
    | Some d => if (d.(mdMode) =? EnforcementShadow)%string
        then countPolicy d.(mdRecommendedPolicy) o.(apShadowPositiveOnly) o.(apShadowRejected)
        else (o.(apShadowPositiveOnly), o.(apShadowRejected))
    | None => (o.(apShadowPositiveOnly), o.(apShadowRejected))
    end in
  o <| apPositiveOnlyWrites := writes.1 |> <| apRejectedWrites := writes.2 |>
    <| apShadowPositiveOnly := shadow.1 |> <| apShadowRejected := shadow.2 |>.

Definition countOne (r : ReconcileFixtureOutput) (o : ActivePollWorkflowOutput)
    : ActivePollWorkflowOutput :=
  countWrites r
    (o <| apNewEvents ::= Z.add r.(oNewEventsDetected) |>
       <| apEventsBecameStable ::= λ l, l ++ r.(oEventsBecameStable) |>
       <| apEventsRemoved ::= λ l, l ++ r.(oEventsRemoved) |>
       <| apGoalAbsencesHeld ::= λ l, l ++ r.(oGoalAbsencesHeld) |>
       <| apUnknownDropped ::= Z.add r.(oUnknownDropped) |>
       <| apErrors ::= λ l, l ++ r.(oErrors) |>
       <| apStaleMutationPlans ::= λ n, if r.(oMutationStale) then n + 1 else n |>).

Section active.
Context `{Service} (x : execution).

Abbreviation run_ A := (M (run ActivePollWorkflowOutput) A).

Definition addErrors (l : list string) : run_ unit := update (λ o, o <| apErrors ::= λ l', l' ++ l |>).

(** An activity that is best effort: its failure is reported. *)
Definition attempt (prefix : string) (c : command) : run_ unit :=
  r ← call c;
  match r with
  | inl err => addErrors [prefix +:+ errorText err]
  | inr _ => mret tt
  end.

(** provider_health.go *)
Definition collectProviderHealth (i : CollectProviderHealthInput) : run_ bool :=
  r ← call (CollectProviderHealth i);
  match r with
  | inl err => addErrors ["CollectProviderHealth: " +:+ errorText err] ;; mret false
  | inr result => update (λ o, o <| apProviderHealth := Some result |>) ;; mret true
  end.

(** Guarded, a plan carries the receipt of the recorded health evidence. *)
Definition reconcileInput (pollID : string) (health : option HealthResult) (f : APIFixture)
    : ReconcileFixtureInput :=
  match health with
  | Some h =>
      if negb x.(healthVersion) || negb x.(guardVersion)
      then mkReconcileFixtureInput f x.(exID) x.(exNow) "" 0 true
      else mkReconcileFixtureInput f x.(exID) h.(rObservedAt) pollID h.(rGeneration) false
  | None => mkReconcileFixtureInput f x.(exID) x.(exNow) "" 0 true
  end.

(** The futures are read in the order they were started. *)
Fixpoint gather (l : list ReconcileFixtureInput) (t : tally) : run_ tally :=
  match l with
  | [] => mret t
  | i :: l =>
      r ← get (ReconcileFixture i);
      match r with
      | inl err => addErrors ["ReconcileFixture: " +:+ errorText err] ;; gather l t
      | inr o => update (countOne o) ;; gather l (tallyOne t o)
      end
  end.

Definition provision (fleet : bool) (ids : list UUID) : run_ unit :=
  when fleet (for_ ids (λ id, attempt "ProvisionFirefox: " (ProvisionFirefox id))).

(** The request to cancel may fail: the run may be over. *)
Definition tearDown (fleet : bool) (id : UUID) : run_ unit :=
  call (RequestCancelExternalWorkflow ("event-" +:+ printUUID id)) ;;
  attempt "DestroyEvent: " (DestroyEvent id "") ;;
  when fleet (attempt "ReleaseFirefox: " (ReleaseFirefox id)).

Definition publish (statuses : list FixtureStatusEntry) (ids : list Z) : run_ unit :=
  when (not_nil (head statuses) || not_nil (head ids))
    (attempt "PublishFixtureBatch: " (PublishFixtureBatch statuses ids)).

Definition reconcileAll (fleet : bool) (inputs : list ReconcileFixtureInput) : run_ unit :=
  for_ inputs (λ i, issue (ReconcileFixture i)) ;;
  t ← gather inputs (mkTally [] [] [] [] []);
  update (λ o, o <| apProviderIntegrity := AggregateFixtureVerdicts t.(providerVerdicts) |>) ;;
  provision fleet t.(newNamedEventIDs) ;;
  for_ t.(removedEventIDs) (tearDown fleet) ;;
  publish t.(statusEntries) t.(updateIDs).

Definition recordFetch (f : FetchLiveFixturesOutput) : run_ unit :=
  update (λ o, o <| apFetchedCount := Z.of_nat (length f.(foFixtures)) |>
    <| apMissedIDs := Z.of_nat (length f.(foFailedIDs)) |>
    <| apProviderFetchFailures := f.(foFailures) |>).

Definition fetchInput (ids : list Z) : FetchLiveFixturesInput :=
  if x.(healthVersion) then mkFetchLiveFixturesInput ids (providerObservationID x) x.(exNow)
  else mkFetchLiveFixturesInput ids "" zero_time.

(** The receipt the poll goes on with: [None] when its evidence was not recorded. *)
Definition collect_ (ids : list Z) (fetched : activityError + FetchLiveFixturesOutput)
    : run_ (option (option HealthResult)) :=
  if x.(healthVersion) then
    let out := match fetched with
      | inr out => out
      | inl err => default emptyFetch (classifiedProviderFetchFailure err)
      end in
    ok ← collectProviderHealth (mkCollectProviderHealthInput (providerObservationID x) x.(exNow) ids
      out (match fetched with inl _ => true | inr _ => false end));
    health ← gets (λ e, (output e).(apProviderHealth));
    mret (if ok : bool then Some health else None)
  else mret (Some None).

Definition isIgnored (health : option HealthResult) : bool :=
  match health with Some h => h.(rIgnored) | None => false end.

Definition pollFixtures (fleet : bool) (ids : list Z) : run_ unit :=
  fetched ← call (FetchLiveFixtures (fetchInput ids));
  receipt ← collect_ ids fetched;
  match receipt with
  | None => mret tt
  | Some health =>
      match fetched with
      | inl err =>
          match classifiedProviderFetchFailure err with
          | Some classified => recordFetch classified
          | None => mret tt
          end ;;
          addErrors ["FetchLiveFixtures: " +:+ errorText err]
      | inr out =>
          recordFetch out ;;
          when (not_nil (head out.(foFixtures)) && negb (isIgnored health))
            (reconcileAll fleet (reconcileInput (providerObservationID x) health <$> out.(foFixtures)))
      end
  end.

(** The error of the workflow, if any. *)
Definition ActivePollWorkflow (activationWindow : Duration) : run_ (option string) :=
  cfg ← call GetMonitorConfig;
  match cfg with
  | inl err => mret (Some ("read monitor config: " +:+ errorText err))
  | inr cfg =>
      activated ← call (ActivateUpcoming
        (if activationWindow =? 0 then cfg.(gmActivationWindow) else activationWindow));
      match activated with
      | inl err => addErrors ["ActivateUpcoming: " +:+ errorText err]
      | inr out => update (λ o, o <| apActivated := out.(auActivated) |>
          <| apErrors ::= λ l, l ++ out.(auErrors) |>)
      end ;;
      listed ← call ListActiveFixtureIDs;
      match listed with
      | inl err => mret (Some (errorText err))
      | inr ids =>
          update (λ o, o <| apActiveFixtureCount := Z.of_nat (length ids) |>) ;;
          when (not_nil (head ids)) (pollFixtures cfg.(gmFleetEnabled) ids) ;;
          mret None
      end
  end.

(** A whole execution. *)
Definition activePoll (activationWindow : Duration) : option string * run ActivePollWorkflowOutput :=
  ActivePollWorkflow activationWindow (mkRun emptyPoll []).
End active.

(** ** The staging poll (staging_poll.go) *)

Record StagingPollWorkflowOutput := mkStagingPollWorkflowOutput {
  spConsidered : Z;
  spPolled : Z;
  spMissedIDs : Z;
  spEmergencyActivated : Z;
  spKickoffActivated : Z;
  spErrors : list string }.

#[global] Instance eta_StagingPollWorkflowOutput : Eta StagingPollWorkflowOutput := λ o,
  mkStagingPollWorkflowOutput o.(spConsidered) o.(spPolled) o.(spMissedIDs)
    o.(spEmergencyActivated) o.(spKickoffActivated) o.(spErrors).

Section staging.
Context `{Service} (x : execution).

Abbreviation run_ A := (M (run StagingPollWorkflowOutput) A).

Definition addStagingErrors (l : list string) : run_ unit :=
  update (λ o, o <| spErrors ::= λ l', l' ++ l |>).

Definition stagingInput (window : Duration) : PollStagingFixturesInput :=
  if x.(guardVersion) then mkPollStagingFixturesInput window (providerObservationID x) x.(exNow) false
  else mkPollStagingFixturesInput window "" zero_time true.

Definition reap : run_ unit :=
  r ← call (ReapOrphanedFirefox 120);
  match r with
  | inl err => addStagingErrors ["ReapOrphanedFirefox: " +:+ errorText err]
  | inr _ => mret tt
  end.

(** Older histories do not reap after a failed poll. *)
Definition pollStaging (window : Duration) : run_ (option string) :=
  polled ← call (PollStagingFixtures (stagingInput window));
  match polled with
  | inl err =>
      addStagingErrors ["PollStagingFixtures: " +:+ errorText err] ;;
      when x.(reaperV2) reap
  | inr out =>
      update (λ o, mkStagingPollWorkflowOutput out.(poConsidered) out.(poPolled) out.(poMissedIDs)
        out.(poEmergencyActivated) out.(poKickoffActivated) (o.(spErrors) ++ out.(poErrors))) ;;
      reap
  end ;;
  mret None.

Definition StagingPollWorkflow (activationWindow : Duration) : run_ (option string) :=
  if activationWindow =? 0 then
    cfg ← call GetMonitorConfig;
    match cfg with
    | inl err => mret (Some ("read monitor config: " +:+ errorText err))
    | inr cfg => pollStaging cfg.(gmActivationWindow)
    end
  else pollStaging activationWindow.
End staging.

(** ** The commands of a cycle *)

(** The answered reconciliations, with the output of those that succeeded. *)
Definition outcomeIn (s : step) : option (ReconcileFixtureInput * option ReconcileFixtureOutput) :=
  match s with
  | Issued _ => None
  | Finished c r =>
      match c return activityError + response c → option (ReconcileFixtureInput * option ReconcileFixtureOutput) with
      | ReconcileFixture i => λ r, Some (i, match r with inr o => Some o | inl _ => None end)
      | _ => λ _, None
      end r
  end.
Definition outcomes (h : list step) := omap outcomeIn h.

Definition reconciled (h : list step) : list ReconcileFixtureOutput := omap snd (outcomes h).

Lemma outcomes_app h h' : outcomes (h ++ h') = outcomes h ++ outcomes h'.
Proof. apply omap_app. Qed.

Lemma reconciled_app h h' : reconciled (h ++ h') = reconciled h ++ reconciled h'.
Proof. unfold reconciled. by rewrite outcomes_app, omap_app. Qed.

Lemma outcomes_elem h i o : (i, Some o) ∈ outcomes h ↔ Finished (ReconcileFixture i) (inr o) ∈ h.
Proof.
  unfold outcomes. rewrite list_elem_of_omap. split; [|by eauto].
  intros ([c|c r] & Hin & Hs); [done|]. destruct c; try done. cbn in Hs.
  destruct r; by simplify_eq.
Qed.

Definition isReconcile (c : command) : bool := match c with ReconcileFixture _ => true | _ => false end.

(** The commands before the reconciliations. *)
Definition preliminary (c : command) : bool :=
  match c with
  | GetMonitorConfig | ActivateUpcoming _ | ListActiveFixtureIDs | FetchLiveFixtures _
  | CollectProviderHealth _ => true
  | _ => false
  end.

Definition emptyTally : tally := mkTally [] [] [] [] [].
Definition tallyOf (h : list step) : tally := foldl tallyOne emptyTally (reconciled h).

Section cycle.
Context `{Service} (x : execution).

(** What follows from the reconciliations. *)
Definition tearDownOf (fleet : bool) (id : UUID) : list command :=
  [RequestCancelExternalWorkflow ("event-" +:+ printUUID id); DestroyEvent id ""] ++
  if fleet then [ReleaseFirefox id] else [].

Definition followUp (fleet : bool) (t : tally) : list command :=
  (if fleet then ProvisionFirefox <$> t.(newNamedEventIDs) else []) ++
  (t.(removedEventIDs) ≫= tearDownOf fleet) ++
  (if not_nil (head t.(statusEntries)) || not_nil (head t.(updateIDs))
   then [PublishFixtureBatch t.(statusEntries) t.(updateIDs)] else []).

(** [h] issues the commands [cs] and answers no reconciliation. *)
Definition issues (cs : list command) (h : list step) : Prop := commands h = cs ∧ outcomes h = [].

Lemma issues_app cs cs' h h' : issues cs h → issues cs' h' → issues (cs ++ cs') (h ++ h').
Proof. intros [<- H1] [<- H2]. split; [apply commands_app|]. by rewrite outcomes_app, H1, H2. Qed.

Lemma issues_nil : issues [] [].
Proof. done. Qed.

Lemma issues_call c r : isReconcile c = false → issues [c] [Issued c; Finished c r].
Proof. intros Hc. split; [done|]. by destruct c. Qed.

Lemma issues_for {A} (l : list A) (f : A → list command) (body : A → M (run ActivePollWorkflowOutput) unit) :
  (∀ a, prolongs (body a) (λ _ h, issues (f a) h)) → prolongs (for_ l body) (λ _ h, issues (l ≫= f) h).
Proof.
  intros Hb. induction l as [|a l IH]; cbn [for_]; [by apply prolongs_ret|].
  eapply prolongs_bind; [apply Hb|]. intros ? h Hh. eapply prolongs_mono; [apply IH|].
  intros ? h' Hh'. by apply issues_app.
Qed.

Lemma addErrors_quiet l : prolongs (addErrors l) (λ _ h, issues [] h).
Proof. eapply prolongs_mono; [apply prolongs_update|]. by intros ? ? ->. Qed.

Lemma attempt_issues prefix c :
  isReconcile c = false → prolongs (attempt prefix c) (λ _ h, issues [c] h).
Proof.
  intros Hc. eapply prolongs_bind; [apply prolongs_call|]. intros [err|o] ? ->.
  - eapply prolongs_mono; [apply addErrors_quiet|]. intros ? h Hh.
    apply (issues_app [c] []); [by apply issues_call|done].
  - apply prolongs_ret. by apply issues_call.
Qed.

Lemma provision_issues fleet ids :
  prolongs (provision fleet ids) (λ _ h, issues (if fleet then ProvisionFirefox <$> ids else []) h).
Proof.
  unfold provision. destruct fleet; [|by apply prolongs_ret].
  assert (ProvisionFirefox <$> ids = ids ≫= λ id, [ProvisionFirefox id]) as ->.
  { induction ids as [|id ids IH]; [done|]. cbn. by rewrite <-IH. }
  apply issues_for. intros id. by apply attempt_issues.
Qed.

Lemma tearDown_issues fleet id : prolongs (tearDown fleet id) (λ _ h, issues (tearDownOf fleet id) h).
Proof.
  eapply prolongs_bind; [apply prolongs_call|]. intros r ? ->.
  eapply prolongs_bind; [by apply attempt_issues|]. intros ? h Hh.
  apply prolongs_when; [intros ->|intros ->].
  - eapply prolongs_mono; [by apply attempt_issues|]. intros ? h' Hh'.
    apply (issues_app [_] [_; _]); [by apply issues_call|]. by apply (issues_app [_] [_]).
  - apply (issues_app [_] [_]); [by apply issues_call|]. by rewrite app_nil_r.
Qed.

Lemma publish_issues statuses ids :
  prolongs (publish statuses ids) (λ _ h, issues
    (if not_nil (head statuses) || not_nil (head ids) then [PublishFixtureBatch statuses ids] else []) h).
Proof. unfold publish. destruct (_ || _); [by apply attempt_issues|by apply prolongs_ret]. Qed.

Lemma issue_all (l : list ReconcileFixtureInput) :
  prolongs (for_ l (λ i, issue (O := ActivePollWorkflowOutput) (ReconcileFixture i)))
    (λ _ h, issues (ReconcileFixture <$> l) h).
Proof.
  assert (ReconcileFixture <$> l = l ≫= λ i, [ReconcileFixture i]) as ->.
  { induction l as [|i l IH]; [done|]. cbn. by rewrite <-IH. }
  apply issues_for. intros i. eapply prolongs_mono; [apply prolongs_issue|]. by intros ? ? ->.
Qed.

Lemma gather_tally l : ∀ t,
  prolongs (gather l t) (λ t' h, commands h = [] ∧ (outcomes h).*1 = l ∧ t' = foldl tallyOne t (reconciled h)).
Proof.
  induction l as [|i l IH]; intros t; cbn [gather]; [by apply prolongs_ret|].
  eapply prolongs_bind; [apply prolongs_get|]. intros [err|o] ? ->.
  - eapply prolongs_bind; [apply prolongs_update|]. intros ? ? ->.
    eapply prolongs_mono; [apply IH|]. intros t' h (Hc & Hi & ->). split; [done|]. split; [|done].
    change (i :: (outcomes h).*1 = i :: l). by rewrite Hi.
  - eapply prolongs_bind; [apply prolongs_update|]. intros ? ? ->.
    eapply prolongs_mono; [apply IH|]. intros t' h (Hc & Hi & ->). split; [done|]. split; [|done].
    change (i :: (outcomes h).*1 = i :: l). by rewrite Hi.
Qed.

Lemma reconcileAll_issues fleet l :
  prolongs (reconcileAll fleet l) (λ _ h, (outcomes h).*1 = l ∧
    commands h = (ReconcileFixture <$> l) ++ followUp fleet (tallyOf h)).
Proof.
  eapply prolongs_bind; [apply issue_all|]. intros ? h1 [Hc1 Hr1].
  eapply prolongs_bind; [apply gather_tally|]. intros t h2 (Hc2 & Hi2 & ->).
  eapply prolongs_bind; [apply prolongs_update|]. intros ? ? ->.
  eapply prolongs_bind; [apply provision_issues|]. intros ? h3 Hh3.
  eapply prolongs_bind; [apply issues_for; intros id; apply tearDown_issues|]. intros ? h4 Hh4.
  eapply prolongs_mono; [apply publish_issues|]. intros ? h5 Hh5.
  destruct (issues_app _ _ _ _ Hh3 (issues_app _ _ _ _ Hh4 Hh5)) as [Hc Hr].
  assert (outcomes (h1 ++ h2 ++ [] ++ h3 ++ h4 ++ h5) = outcomes h2) as Ho.
  { rewrite outcomes_app, Hr1, !app_nil_l, outcomes_app, Hr. by rewrite app_nil_r. }
  unfold tallyOf, reconciled. rewrite Ho. split; [done|].
  by rewrite commands_app, Hc1, commands_app, Hc2, !app_nil_l, Hc.
Qed.

(** The evidence of a fetch, as the collector gets it. *)
Definition healthInput (ids : list Z) (fetched : activityError + FetchLiveFixturesOutput)
    : CollectProviderHealthInput :=
  mkCollectProviderHealthInput (providerObservationID x) x.(exNow) ids
    (match fetched with
     | inr out => out
     | inl err => default emptyFetch (classifiedProviderFetchFailure err)
     end) (match fetched with inl _ => true | inr _ => false end).

Lemma collect_receipt ids fetched :
  x.(healthVersion) = true →
  prolongs (collect_ x ids fetched) (λ r h, issues [CollectProviderHealth (healthInput ids fetched)] h ∧
    (r = None ∨ ∃ health, r = Some (Some health) ∧
       Finished (CollectProviderHealth (healthInput ids fetched)) (inr health) ∈ h)).
Proof.
  intros Hx e. unfold collect_. rewrite Hx. fold (healthInput ids fetched).
  set (c := CollectProviderHealth (healthInput ids fetched)).
  assert (∃ r, answer (steps e ++ [Issued c]) c = r) as [r Hr] by eauto.
  unfold collectProviderHealth, coordinate.call, issue, get, record_, addErrors, update, gets, modify,
    mbind, M_bind, mret, M_ret. fold c. cbn. rewrite Hr.
  exists [Issued c; Finished c r]. destruct r as [err|health]; cbn; rewrite <-app_assoc.
  - split; [done|]. split; [done|]. by left.
  - split; [done|]. split; [done|]. right. exists health. split; [done|]. right. by left.
Qed.

(** The input of a reconciliation under a receipt. *)
Definition guardedInput (health : HealthResult) (f : APIFixture) : ReconcileFixtureInput :=
  mkReconcileFixtureInput f x.(exID) health.(rObservedAt) (providerObservationID x)
    health.(rGeneration) false.

(** Nothing but the preparations happened. *)
Definition prepared (h : list step) : Prop :=
  Forall (λ c, preliminary c = true) (commands h) ∧ outcomes h = [].

(** The fixtures of [fetched] were reconciled under [health]. *)
Definition followed (fleet : bool) (ids : list Z) (cs : list command) (h : list step)
    (fetched : FetchLiveFixturesOutput) (health : HealthResult) : Prop :=
  Finished (FetchLiveFixtures (fetchInput x ids)) (inr fetched) ∈ h ∧
  Finished (CollectProviderHealth (healthInput ids (inr fetched))) (inr health) ∈ h ∧
  health.(rIgnored) = false ∧
  (outcomes h).*1 = guardedInput health <$> fetched.(foFixtures) ∧
  commands h = cs ++ [FetchLiveFixtures (fetchInput x ids);
      CollectProviderHealth (healthInput ids (inr fetched))] ++
    ((λ f, ReconcileFixture (guardedInput health f)) <$> fetched.(foFixtures)) ++
    followUp fleet (tallyOf h).

Lemma pollFixtures_follows fleet ids :
  current x →
  prolongs (pollFixtures x fleet ids) (λ _ h, prepared h ∨
    ∃ fetched health, followed fleet ids [] h fetched health).
Proof.
  intros (Hh & Hg & _). unfold pollFixtures.
  eapply prolongs_bind; [apply prolongs_call|]. intros fetched ? ->. set (c := FetchLiveFixtures _).
  assert (issues [c] [Issued c; Finished c fetched]) as Hc by by apply issues_call.
  eapply prolongs_bind; [by apply collect_receipt|]. intros receipt h1 [Hh1 Hreceipt].
  pose proof (issues_app _ _ _ _ Hc Hh1) as [Hc1 Hr1].
  assert (∀ h', issues [] h' → prepared ([Issued c; Finished c fetched] ++ h1 ++ h')) as Hdone.
  { intros h' Hh'. destruct (issues_app _ _ _ _ (conj Hc1 Hr1) Hh') as [Hc' Hr'].
    rewrite app_assoc. split; [rewrite Hc'; by repeat constructor|done]. }
  destruct Hreceipt as [->|(health & -> & Hin)].
  { apply prolongs_ret. left. by apply (Hdone []). }
  destruct fetched as [err|out].
  - destruct (classifiedProviderFetchFailure err) as [cl|].
    + eapply prolongs_bind; [apply prolongs_update|]. intros ? ? ->.
      eapply prolongs_mono; [apply addErrors_quiet|]. intros ? h' Hh'. left. by apply Hdone.
    + eapply prolongs_bind; [apply (prolongs_ret tt (λ _ h, h = [])); done|]. intros ? ? ->.
      eapply prolongs_mono; [apply addErrors_quiet|]. intros ? h' Hh'. left. by apply Hdone.
  - eapply prolongs_bind; [apply prolongs_update|]. intros ? ? ->.
    apply prolongs_when; [|intros _; left; by apply (Hdone [])].
    intros [_ Hign%negb_true_iff]%andb_true_iff.
    eapply prolongs_mono; [apply reconcileAll_issues|]. intros ? h' [Hi' Hh']. right.
    assert (reconcileInput x (providerObservationID x) (Some health) <$> foFixtures out =
      guardedInput health <$> foFixtures out) as Hin'.
    { apply list_fmap_ext. intros i f _. unfold reconcileInput. by rewrite Hh, Hg. }
    rewrite Hin' in Hi', Hh'.
    assert (outcomes ([Issued c; Finished c (inr out)] ++ h1 ++ [] ++ h') = outcomes h') as Ho.
    { by rewrite app_nil_l, app_assoc, outcomes_app, Hr1. }
    exists out, health. split; [by right; left|]. split; [rewrite !elem_of_app; tauto|].
    split; [done|]. unfold tallyOf, reconciled. rewrite Ho. split; [done|].
    rewrite !app_nil_l, app_assoc, commands_app, Hc1, Hh', <-list_fmap_compose. done.
Qed.

Lemma poll_follows window :
  current x →
  let r := activePoll x window in let h := r.2.(steps) in
  (prepared h ∨
   ∃ cfg ids fetched health,
     Finished GetMonitorConfig (inr cfg) ∈ h ∧ Finished ListActiveFixtureIDs (inr ids) ∈ h ∧
     followed cfg.(gmFleetEnabled) ids [GetMonitorConfig;
       ActivateUpcoming (if window =? 0 then cfg.(gmActivationWindow) else window);
       ListActiveFixtureIDs] h fetched health) ∧
  (is_Some r.1 → ∃ err, Finished GetMonitorConfig (inl err) ∈ h ∨ Finished ListActiveFixtureIDs (inl err) ∈ h).
Proof.
  intros Hx. cbn zeta. unfold activePoll.
  set (P := λ (err : option string) (h : list step), (prepared h ∨
    ∃ cfg ids fetched health,
      Finished GetMonitorConfig (inr cfg) ∈ h ∧ Finished ListActiveFixtureIDs (inr ids) ∈ h ∧
      followed cfg.(gmFleetEnabled) ids [GetMonitorConfig;
        ActivateUpcoming (if window =? 0 then cfg.(gmActivationWindow) else window);
        ListActiveFixtureIDs] h fetched health) ∧
    (is_Some err → ∃ err, Finished GetMonitorConfig (inl err) ∈ h ∨ Finished ListActiveFixtureIDs (inl err) ∈ h)).
  assert (prolongs (ActivePollWorkflow x window) P) as HP;
    [|by destruct (HP (mkRun emptyPoll [])) as (h & Hh & HPh); rewrite Hh].
  unfold ActivePollWorkflow. eapply prolongs_bind; [apply prolongs_call|]. intros [err|cfg] ? ->.
  { apply prolongs_ret. split; [left; split; [by repeat constructor|done]|].
    intros _. exists err. left. by right; left. }
  eapply prolongs_bind; [apply prolongs_call|]. intros activated ? ->.
  eapply (prolongs_bind _ _ (λ _ h, h = [])).
  { destruct activated; apply prolongs_update. }
  intros ? ? ->. eapply prolongs_bind; [apply prolongs_call|]. intros listed ? ->.
  set (A := ActivateUpcoming _). destruct listed as [err|ids].
  { apply prolongs_ret. split; [left; split; [by repeat constructor|done]|].
    intros _. exists err. right. cbn. set_solver. }
  eapply prolongs_bind; [apply prolongs_update|]. intros ? ? ->.
  eapply (prolongs_bind _ _ (λ _ h, prepared h ∨ ∃ fetched health,
    followed cfg.(gmFleetEnabled) ids [] h fetched health)).
  { apply prolongs_when; [intros _; by apply pollFixtures_follows|intros _; by left]. }
  intros ? h Hh. apply prolongs_ret. split; [|by intros []]. cbn [app]. rewrite app_nil_r.
  destruct Hh as [[Hp Hr]|(fetched & health & Hf & Hc & Hi & Ho & Hcs)].
  - left. split; [by repeat constructor|done].
  - right. exists cfg, ids, fetched, health. split; [set_solver|]. split; [set_solver|].
    split; [set_solver|]. split; [set_solver|]. split; [done|]. split; [done|].
    transitivity ([GetMonitorConfig; A; ListActiveFixtureIDs] ++ commands h); [done|]. by rewrite Hcs.
Qed.

End cycle.

(** ** What the tally gathers *)

Lemma tally_fields (l : list ReconcileFixtureOutput) t :
  let r := foldl tallyOne t l in
  r.(removedEventIDs) = t.(removedEventIDs) ++ (l ≫= oEventsRemovedIDs) ∧
  r.(newNamedEventIDs) = t.(newNamedEventIDs) ++ (l ≫= oNewNamedEventIDs) ∧
  r.(statusEntries) = t.(statusEntries) ++ ((λ o, mkFixtureStatusEntry o.(oFixtureID) o.(oPresentation)) <$>
    filter (λ o, o.(oFeedAction) = FixtureFeedStatus) l) ∧
  r.(updateIDs) = t.(updateIDs) ++ (oFixtureID <$> filter (λ o, o.(oFeedAction) = FixtureFeedUpdate) l).
Proof.
  revert t. induction l as [|o l IH]; intros t; [by rewrite !app_nil_r|].
  cbn zeta. change (foldl tallyOne t (o :: l)) with (foldl tallyOne (tallyOne t o) l).
  destruct (IH (tallyOne t o)) as (-> & -> & -> & ->). cbn [removedEventIDs newNamedEventIDs statusEntries
    updateIDs tallyOne]. rewrite !filter_cons, !bind_cons, <-!app_assoc.
  split; [done|]. split; [done|]. split.
  - destruct (String.eqb_spec (oFeedAction o) FixtureFeedStatus), (decide (oFeedAction o = FixtureFeedStatus));
      try done. cbn. by rewrite <-app_assoc.
  - destruct (String.eqb_spec (oFeedAction o) FixtureFeedUpdate), (decide (oFeedAction o = FixtureFeedUpdate));
      try done. cbn. by rewrite <-app_assoc.
Qed.

(** The announcement of a cycle is disjoint: when the reconciled fixtures are
    distinct, none is announced both with its status and for a refetch. *)
Theorem feed_is_disjoint h id :
  NoDup (oFixtureID <$> reconciled h) →
  id ∈ fsFixtureID <$> (tallyOf h).(statusEntries) → id ∉ (tallyOf h).(updateIDs).
Proof.
  intros Hd. destruct (tally_fields (reconciled h) emptyTally) as (_ & _ & Hs & Hu).
  unfold tallyOf. rewrite Hs, Hu, !app_nil_l, <-list_fmap_compose.
  intros (o & -> & [Ho Hin]%list_elem_of_filter)%list_elem_of_fmap
    (o' & Heq & [Ho' Hin']%list_elem_of_filter)%list_elem_of_fmap.
  cbn in Heq. assert (o = o') as <- by by eapply (NoDup_fmap_inj oFixtureID).
  by rewrite Ho in Ho'.
Qed.

(** The errors the workflow saw. *)
Definition failures (h : list step) : list activityError :=
  omap (λ s, match s with Finished _ (inl err) => Some err | _ => None end) h.

Section sweep.
Context `{Service} (x : execution).

(** The errors of [h] are reported in [o]. *)
Definition reported (h : list step) (o : StagingPollWorkflowOutput) : Prop :=
  ∀ err, err ∈ failures h → ∃ prefix, prefix +:+ errorText err ∈ o.(spErrors).

Lemma pollStaging_sweeps w e :
  current x →
  let r := pollStaging x w e in
  r.1 = None ∧ ∃ h, r.2.(steps) = e.(steps) ++ h ∧ reported h r.2.(output) ∧
    commands h = [PollStagingFixtures (mkPollStagingFixturesInput w (providerObservationID x) x.(exNow) false);
                  ReapOrphanedFirefox 120].
Proof.
  intros (_ & Hg & Hr). unfold pollStaging, stagingInput. rewrite Hg, Hr. set (c := PollStagingFixtures _).
  unfold reap, when, addStagingErrors, coordinate.call, issue, get, record_, update, gets, modify, mbind,
    M_bind, mret, M_ret. cbn [steps output].
  generalize (answer (steps e ++ [Issued c]) c). intros polled.
  set (h0 := (_ ++ [Finished c polled])).
  assert (h0 = steps e ++ [Issued c; Finished c polled]) as Hh0 by (subst h0; by rewrite <-app_assoc).
  set (d := ReapOrphanedFirefox 120).
  assert (∃ reaped, answer (h0 ++ [Issued d]) d = reaped) as [reaped Hreaped] by eauto.
  destruct polled as [err|out]; cbn [steps output fst snd]; rewrite Hreaped; destruct reaped as [err'|names];
    cbn [steps output fst snd]; (split; [done|]);
    (eexists [Issued c; Finished c _; Issued d; Finished d _]; split; [by rewrite Hh0, <-!app_assoc|]);
    (split; [|done]); intros e0 He0; cbn in He0; set_unfold in He0; cbn; destruct_or? He0; try done; subst;
    first [exists "PollStagingFixtures: "; set_solver | exists "ReapOrphanedFirefox: "; set_solver].
Qed.

End sweep.
End polling.
