(* ===== verification/Teardown.v ===== *)
(** From the active poll to the tables: the events whose clips a cycle tears down are
    events its reconciliations removed.  The answers of the reconciliations are those
    of runs of the modelled activity (Reconcile.v) among the other workers. *)
From S2P Require Import Prelude GoStrings ApiFootball Fixture Event Identity Integrity Health Auditlog Presentation Plan Discovery Store Mutation Commit Guarantees Preserve Events Fixtures Candidates HealthRepo World Planning Activity Reconcile Collect Activation Effects Video Wire Flow Teams Ingest Coordinate Polling.
#[local] Open Scope string_scope.
#[local] Open Scope list_scope.
#[local] Open Scope Z_scope.
Import apifootball health mutation pg boundary guarantees preserve world planning activity collect effects wire coordinate polling.

Module teardown.

(** ** The tables at each transaction of a run *)

(** Every transaction of a worker starts from sound tables. *)
Lemma tried_ok {A} l (p : act A) : ∀ db trace a db',
  world_ok db → worker l p → runs (happens l) p db trace a db' →
  ∀ before after, tried before after ∈ trace → world_ok before.
Proof.
  induction p as [x|R tx k IH|w i k IH]; intros db trace a db' Hok Hw.
  - intros (db0 & _ & -> & _) before after []%elem_of_nil.
  - destruct Hw as [Ht Hk]. intros (db0 & H0 & res & db1 & t & Ho & -> & H).
    apply world_steps in H0 as (Hok0 & _); [|done].
    assert (world_ok db1) as Hok1.
    { destruct Ho as [(v & r & Hr & _)|[-> _]]; [|done].
      destruct (Ht _ _ _ _ Hr) as [->|Hh]; [done|]. by apply rtc_once, world_steps in Hh as (? & _). }
    intros before after [[= -> ->]|Hin]%elem_of_cons; [done|]. by eapply IH.
  - intros (db0 & H0 & err & t & -> & H). apply world_steps in H0 as (Hok0 & _); [|done].
    intros before after [?|Hin]%elem_of_cons; [done|]. by eapply IH.
Qed.

Section poll.
Context `{Service} (x : execution) (l : limits) (a : reconcile.Activities) (text : UUID → string)
  (fresh : nat → UUID) (iterate : gmap string event.Event → list (string * event.Event)).

(** The successful answer [o] to [i] is that of a run of the activity. *)
Definition ran (i : ReconcileFixtureInput) (o : ReconcileFixtureOutput) : Prop :=
  ∃ now db trace db', world_ok db ∧
    runs (happens l) (reconcile.ReconcileFixture a text fresh iterate i now) db trace (o, None) db'.

Definition authentic (h : list step) : Prop :=
  ∀ i o, Finished (ReconcileFixture i) (inr o) ∈ h → ran i o.

Lemma removed_in_tally (os : list ReconcileFixtureOutput) id :
  id ∈ removedEventIDs (foldl tallyOne emptyTally os) ↔ ∃ o, o ∈ os ∧ id ∈ o.(oEventsRemovedIDs).
Proof.
  destruct (tally_fields os emptyTally) as (-> & _). rewrite app_nil_l, list_elem_of_bind. naive_solver.
Qed.

Lemma destroyed_in fleet t id reason :
  DestroyEvent id reason ∈ followUp fleet t ↔ reason = "" ∧ id ∈ t.(removedEventIDs).
Proof.
  unfold followUp, tearDownOf. rewrite !elem_of_app, list_elem_of_bind. split.
  - intros [Hp|[(id' & Hd & Hid)|Hp]].
    + destruct fleet; [|by apply elem_of_nil in Hp].
      by apply list_elem_of_fmap in Hp as (? & ? & _).
    + set_unfold in Hd. destruct Hd as [?|[[= -> ->]|Hr]]; [done|done|].
      destruct fleet; set_unfold in Hr; naive_solver.
    + destruct (_ || _); [|by apply elem_of_nil in Hp]. by apply list_elem_of_singleton in Hp.
  - intros [-> Hid]. right. left. exists id. split; [|done]. set_solver.
Qed.

(** The commit behind a removal the activity reports. *)
Lemma reported_removal i o id :
  a.(reconcile.aProviderMutations) = true → i.(riLegacyUnprotected) = false →
  ran i o → id ∈ o.(oEventsRemovedIDs) →
  ∃ v p before r after, world_ok before ∧ guarantees.run v (callActive p) before = inr (r, after) ∧
    id ∈ r.(mrRemovedEventIDs) ∧
    (dbReceipts before !! receiptKey (callActive p) = None → gone id after).
Proof.
  intros Ha Hi (now & db & trace & db' & Hok & Hrun) Hid. pose proof Hrun as Hg.
  unfold reconcile.ReconcileFixture in Hg. rewrite Ha, Hi in Hg. cbn [andb negb] in Hg.
  apply reconcile.guarded_report in Hg as (v & stored & rows & sequences & db1 & db2 & before & r & after & rest &
    Htrace & _ & _ & _ & Hcommit & Hr).
  assert (id ∈ r.(mrRemovedEventIDs)) as Hrem.
  { destruct (mrStale r) eqn:Es.
    - destruct Hr as [_ ->]. exfalso. cbn in Hid.
      pose proof (planOf_uncommitted (reconcile.aTerminalGracePeriod a) now fresh i stored rows sequences
        (iterate (activeByKey rows))) as Hu. by rewrite (uc_removedIDs _ Hu) in Hid; apply elem_of_nil in Hid.
    - destruct Hr as [He _]. assert (o.(oEventsRemovedIDs) = r.(mrRemovedEventIDs)) as <-; [|done].
      unfold reconcile.effects in He. cbn in He. congruence. }
  assert (world_ok before) as Hok0.
  { eapply tried_ok; [exact Hok| |exact Hrun|]; [apply reconcile.reconcile_worker|]. rewrite Htrace. right. right. left. }
  eexists (mkEnv v.(eNow) v.(eClock) text v.(eMode)), _, before, r, after.
  split; [done|]. split; [exact Hcommit|]. split; [done|]. intros Hfirst.
  eapply (removed_gone (mkEnv v.(eNow) v.(eClock) text v.(eMode)));
    [apply Hok0|exact Hfirst|exact Hcommit|done].
Qed.

(** C11: The clips a cycle tears down are those of the events it removed: under the current
    versions, with the guarded reconciliation and its answers authentic, an event is
    torn down exactly when a reconciliation answered with it as removed, always
    without a reason of its own; and then a transaction on sound tables committed its
    removal - after the first commit under its receipt, the event is stored as
    removed, with no open checklist row and no pending candidate. *)
Theorem teardown_is_justified window id reason :
  current x → a.(reconcile.aProviderMutations) = true →
  let h := (activePoll x window).2.(steps) in
  authentic h →
  (DestroyEvent id reason ∈ commands h ↔
     reason = "" ∧ ∃ i o, Finished (ReconcileFixture i) (inr o) ∈ h ∧ id ∈ o.(oEventsRemovedIDs)) ∧
  (DestroyEvent id reason ∈ commands h →
     ∃ v p before r after, world_ok before ∧ guarantees.run v (callActive p) before = inr (r, after) ∧
       id ∈ r.(mrRemovedEventIDs) ∧
       (dbReceipts before !! receiptKey (callActive p) = None → gone id after)).
Proof.
  intros Hx Ha h Hauth. destruct (poll_follows x window Hx) as [Hcycle _]. fold h in Hcycle. clearbody h.
  assert (DestroyEvent id reason ∈ commands h ↔
    reason = "" ∧ ∃ i o, Finished (ReconcileFixture i) (inr o) ∈ h ∧ id ∈ o.(oEventsRemovedIDs)) as Hiff.
  { destruct Hcycle as [[Hp Ho]|(cfg & ids & fetched & health & _ & _ & (_ & _ & _ & _ & Hc))].
    - split.
      + intros Hin. rewrite Forall_forall in Hp. by apply Hp in Hin.
      + intros (_ & i & o & Hin%outcomes_elem & _). rewrite Ho in Hin. by apply elem_of_nil in Hin.
    - rewrite Hc, !elem_of_app, destroyed_in. unfold tallyOf. rewrite removed_in_tally.
      assert (∀ o, o ∈ reconciled h ↔ ∃ i, Finished (ReconcileFixture i) (inr o) ∈ h) as Ho.
      { intros o. unfold reconciled. rewrite list_elem_of_omap. split.
        - intros ([i o'] & Hin & [= ->]). exists i. by apply outcomes_elem.
        - intros [i Hin%outcomes_elem]. by exists (i, Some o). }
      split.
      + intros [Hpre|[Hpre|[Hrec|[-> (o & Hin%Ho & Hid)]]]]; [set_solver|set_solver| |naive_solver].
        by apply list_elem_of_fmap in Hrec as (? & ? & _).
      + intros (-> & i & o & Hin & Hid). do 3 right. split; [done|]. exists o. split; [|done].
        apply Ho. by exists i. }
  split; [done|]. intros (_ & i & o & Hin & Hid)%Hiff.
  eapply (reported_removal i o); [done| |by apply Hauth|done].
  destruct Hcycle as [[_ Ho]|(cfg & ids & fetched & health & _ & _ & (_ & _ & _ & Ho & _))];
    apply outcomes_elem in Hin.
  { rewrite Ho in Hin. by apply elem_of_nil in Hin. }
  assert (i ∈ (outcomes h).*1) as Hi by (apply list_elem_of_fmap; by exists (i, Some o)).
  rewrite Ho in Hi. by apply list_elem_of_fmap in Hi as (f & -> & _).
Qed.
End poll.
End teardown.
