(* ===== verification/Daily.v ===== *)
(** internal/workflow/ingest.go: the daily workflow.  It refreshes the tracked teams,
    fetches a window of days or the given fixtures, stores what it fetched, announces
    the changes, adds the team records, and reclaims the clips of the fixtures that
    left the public window. *)
From S2P Require Import Prelude GoStrings ApiFootball Fixture Event Identity Integrity Health Presentation Plan Discovery Fixtures Planning Collect Activation Video Wire Flow Teams Ingest Coordinate.
#[local] Open Scope string_scope.
#[local] Open Scope list_scope.
#[local] Open Scope Z_scope.
Import apifootball wire flow ingest coordinate.

Module daily.

Definition ingestManualIDsMaxAttempts : nat := 3.
Definition ingestManualIDsBackoffInitial : Duration := 5 * time_Second.

Definition fmtIngestMissedIDsMsg (count attempts : Z) : string :=
  "FetchFixturesByIDs: " +:+ Itoa count +:+ " IDs missed after " +:+ Itoa attempts +:+ " attempts".

Record IngestWorkflowInput := mkIngestWorkflowInput {
  inManualDate : option Time;
  inManualFixtureIDs : list Z;
  inFetchFuture : bool;
  inActivationWindow : Duration }.

Record IngestWorkflowOutput := mkIngestWorkflowOutput {
  iwTrackedTeamsRefreshed : bool;
  iwTrackedTeamsCount : Z;
  iwFetched : Z;
  iwFilteredOut : Z;
  iwStaging : Z;
  iwActive : Z;
  iwCompleted : Z;
  iwExistingAliases : Z;
  iwInsertedAliases : Z;
  iwReclaimedEvents : Z;
  iwErrors : list string }.

#[global] Instance eta_IngestWorkflowOutput : Eta IngestWorkflowOutput := λ o,
  mkIngestWorkflowOutput o.(iwTrackedTeamsRefreshed) o.(iwTrackedTeamsCount) o.(iwFetched)
    o.(iwFilteredOut) o.(iwStaging) o.(iwActive) o.(iwCompleted) o.(iwExistingAliases)
    o.(iwInsertedAliases) o.(iwReclaimedEvents) o.(iwErrors).

Definition emptyIngest : IngestWorkflowOutput := mkIngestWorkflowOutput false 0 0 0 0 0 0 0 0 0 [].

(** t.AddDate(0, 0, n) on a UTC instant. *)
Definition AddDays (t : Time) (n : Z) : Time := t + n * fixturerepo.day.

(** What the scan over the days accumulates. *)
Record scan := mkScan {
  scFixtures : list APIFixture;
  scSeenIDs : gset Z;
  scFilteredOut : Z }.

Definition emptyScan : scan := mkScan [] ∅ 0.

Definition appendFixture (s : scan) (f : APIFixture) : scan :=
  if bool_decide (f.(Fixture).(FixtureID) ∈ s.(scSeenIDs)) then s
  else mkScan (s.(scFixtures) ++ [f]) ({[f.(Fixture).(FixtureID)]} ∪ s.(scSeenIDs)) s.(scFilteredOut).

Definition appendUnique (s : scan) (dayOut : FetchFixturesForDayOutput) : scan :=
  foldl appendFixture (mkScan s.(scFixtures) s.(scSeenIDs) (s.(scFilteredOut) + dayOut.(fdFilteredOut)))
    dayOut.(fdFixtures).

Section ingest.
Context `{Service} (x : execution) (inp : IngestWorkflowInput).

Abbreviation run_ A := (M (run IngestWorkflowOutput) A).

(** A step that may end the workflow with an error, given by the activity's. *)
Definition orFail {A} (r : activityError + A) (k : A → run_ (option string)) : run_ (option string) :=
  match r with inl err => mret (Some (errorText err)) | inr a => k a end.

Definition addIngestErrors (l : list string) : run_ unit :=
  update (λ o, o <| iwErrors ::= λ l', l' ++ l |>).

Definition anchor : Time := default x.(exNow) inp.(inManualDate).

(** ** Step 0 *)

Definition refreshTeams : run_ unit :=
  when (is_nil (head inp.(inManualFixtureIDs)))
    (r ← call RefreshTrackedTeamsIfStale;
     match r with
     | inl err => addIngestErrors ["RefreshTrackedTeamsIfStale: " +:+ errorText err]
     | inr out => update (λ o, o <| iwTrackedTeamsRefreshed := out.(teams.rtRefreshed) |>
         <| iwTrackedTeamsCount := out.(teams.rtTotalTeams) |>
         <| iwErrors ::= λ l, l ++ out.(teams.rtErrors) |>)
     end).

(** ** Step 1: the given fixtures *)

(** [n] attempts are left; the fixtures that came back and the ids that did not. *)
Fixpoint manualAttempts (n : nat) (attempt : Z) (remaining : list Z) (acc : list APIFixture)
    : run_ (activityError + (list APIFixture * list Z)) :=
  match n, remaining with
  | O, _ | _, [] => mret (inr (acc, remaining))
  | S n, _ =>
      r ← call (FetchFixturesByIDs remaining);
      match r with
      | inl err => mret (inl err)
      | inr out =>
          let acc := acc ++ out.(fbFixtures) in
          if is_nil (head out.(fbFailedIDs)) then mret (inr (acc, []))
          else
            slept ← call (Sleep (attempt * ingestManualIDsBackoffInitial));
            match slept with
            | inl err => mret (inl err)
            | inr _ => manualAttempts n (attempt + 1) out.(fbFailedIDs) acc
            end
      end
  end.

Definition fetchManual : run_ (activityError + list APIFixture) :=
  r ← manualAttempts ingestManualIDsMaxAttempts 1 inp.(inManualFixtureIDs) [];
  match r with
  | inl err => mret (inl err)
  | inr (acc, remaining) =>
      when (not_nil (head remaining))
        (addIngestErrors [fmtIngestMissedIDsMsg (Z.of_nat (length remaining))
           (Z.of_nat ingestManualIDsMaxAttempts)]) ;;
      mret (inr acc)
  end.

(** ** Step 1: a window of days *)

(** One day, appended to what was scanned.  The text of its error names the day as
    well; that part is not modelled. *)
Definition fetchDay (s : scan) (date : Time) : run_ (activityError + (scan * FetchFixturesForDayOutput)) :=
  r ← call (FetchFixturesForDay date);
  mret (match r with
        | inl err => inl err
        | inr out => inr (appendUnique s out, out)
        end).

(** The days from the [d]th on, up to the first with fixtures, [n] at most; and that
    day, or the zero time. *)
Fixpoint lookahead (n : nat) (d : Z) (s : scan) : run_ (activityError + (scan * Time)) :=
  match n with
  | O => mret (inr (s, zero_time))
  | S n =>
      r ← fetchDay s (AddDays anchor d);
      match r with
      | inl err => mret (inl err)
      | inr (s, out) =>
          if 0 <? out.(fdCount) then mret (inr (s, AddDays anchor d)) else lookahead n (d + 1) s
      end
  end.

Definition lastDay (s : scan) (date : Time) : run_ (activityError + scan) :=
  r ← fetchDay s date;
  mret (match r with inl err => inl err | inr (s, _) => inr s end).

Definition fetchFuture (maxLookaheadDays : Z) (s : scan) : run_ (activityError + scan) :=
  let maxLookahead := if maxLookaheadDays <? 2 then 2 else maxLookaheadDays in
  tomorrow ← fetchDay s (AddDays anchor 1);
  match tomorrow with
  | inl err => mret (inl err)
  | inr (s, out) =>
      if 0 <? out.(fdCount) then lastDay s (AddDays anchor 2)
      else
        found ← lookahead (Z.to_nat (maxLookahead - 1)) 2 s;
        match found with
        | inl err => mret (inl err)
        | inr (s, foundDay) =>
            if IsZero foundDay then mret (inr s) else lastDay s (AddDays foundDay 1)
        end
  end.

Definition cacheEmptyMessage : string :=
  "tracked-teams cache empty — fetch failed closed, ingested nothing".

Definition fetchWindow (maxLookaheadDays : Z) : run_ (activityError + list APIFixture) :=
  today ← fetchDay emptyScan anchor;
  match today with
  | inl err => mret (inl err)
  | inr (s, out) =>
      when out.(fdTrackedCacheEmpty) (addIngestErrors [cacheEmptyMessage]) ;;
      r ← (if inp.(inFetchFuture) then fetchFuture maxLookaheadDays s else mret (inr s));
      match r with
      | inl err => mret (inl err)
      | inr s =>
          update (λ o, o <| iwFilteredOut := s.(scFilteredOut) |>) ;;
          mret (inr s.(scFixtures))
      end
  end.

Definition fetch (cfg : GetIngestConfigOutput) : run_ (activityError + list APIFixture) :=
  if not_nil (head inp.(inManualFixtureIDs)) then fetchManual else fetchWindow cfg.(giMaxLookaheadDays).

(** ** Steps 2 to 4 *)

Definition categorizeInput (cfg : GetIngestConfigOutput) (fixtures : list APIFixture) : CategorizeInput :=
  mkCategorizeInput fixtures
    (if inp.(inActivationWindow) =? 0 then cfg.(giActivationWindow) else inp.(inActivationWindow))
    x.(exNow) (if x.(guardVersion) then providerObservationID x else "") (negb x.(guardVersion)).

Definition publishChanged (ids : list Z) : run_ unit :=
  when (not_nil (head ids))
    (r ← call (PublishFixtureBatch [] ids);
     match r with
     | inl err => addIngestErrors ["PublishFixtureBatch: " +:+ errorText err]
     | inr _ => mret tt
     end).

Definition ensureAliases (ts : list alias.TeamRef) (k : run_ (option string)) : run_ (option string) :=
  match ts with
  | [] => k
  | _ =>
      r ← call (EnsureAliasPlaceholders ts);
      orFail r (λ out,
        update (λ o, o <| iwExistingAliases := out.(alias.eaExisting) |>
          <| iwInsertedAliases := out.(alias.eaInserted) |>
          <| iwErrors ::= λ l, l ++ out.(alias.eaErrors) |>) ;;
        k)
  end.

Definition reclaim (id : UUID) : run_ unit :=
  r ← call (DestroyEvent id video.RemovalPolicy);
  match r with
  | inl err => addIngestErrors ["DestroyEvent(retention): " +:+ errorText err]
  | inr _ => update (λ o, o <| iwReclaimedEvents ::= Z.add 1 |>)
  end.

Definition retain (cfg : GetIngestConfigOutput) : run_ (option string) :=
  r ← call (PlanMediaRetention cfg.(giCompletedFixtureDates));
  orFail r (λ out, for_ out.2 reclaim ;; mret None).

(** Categorization and what follows from it. *)
Definition storeFetched (cfg : GetIngestConfigOutput) (fixtures : list APIFixture) : run_ (option string) :=
  update (λ o, o <| iwFetched := Z.of_nat (length fixtures) |>) ;;
  r ← call (CategorizeAndUpsertFixtures (categorizeInput cfg fixtures));
  orFail r (λ out,
    update (λ o, o <| iwStaging := out.(coStaging) |> <| iwActive := out.(coActive) |>
      <| iwCompleted := out.(coCompleted) |> <| iwErrors ::= λ l, l ++ out.(coErrors) |>) ;;
    publishChanged out.(coChangedIDs) ;;
    ensureAliases out.(coTeamRefs) (retain cfg)).

Definition IngestWorkflow : run_ (option string) :=
  r ← call GetIngestConfig;
  match r with
  | inl err => mret (Some ("read ingest config: " +:+ errorText err))
  | inr cfg =>
      refreshTeams ;;
      fetched ← fetch cfg;
      orFail fetched (storeFetched cfg)
  end.
End ingest.

(** ** The days of a window *)

Abbreviation fixtureIDs l := ((λ f, f.(Fixture).(FixtureID)) <$> l).

(** [s] holds each fixture of [l] once. *)
Record scanned (s : scan) (l : list APIFixture) : Prop := {
  scanned_key : NoDup (fixtureIDs s.(scFixtures));
  scanned_seen : ∀ id, id ∈ s.(scSeenIDs) ↔ id ∈ fixtureIDs s.(scFixtures);
  scanned_from : s.(scFixtures) ⊆ l;
  scanned_all : ∀ f, f ∈ l → f.(Fixture).(FixtureID) ∈ fixtureIDs s.(scFixtures) }.

Lemma scanned_empty : scanned emptyScan [].
Proof. split; [constructor|set_solver..]. Qed.

Lemma appendFixture_scanned s l f : scanned s l → scanned (appendFixture s f) (l ++ [f]).
Proof.
  intros [Hk Hs Hf Ha]. unfold appendFixture. case_bool_decide as Hin.
  - rewrite Hs in Hin. split; [done|done|set_solver|]. intros g [Hg|Hg]%elem_of_app; [by apply Ha|].
    by apply list_elem_of_singleton in Hg as ->.
  - rewrite Hs in Hin. split; cbn.
    + rewrite fmap_app, NoDup_app. split; [done|]. split; [|apply NoDup_singleton].
      intros id Hid. cbn. rewrite list_elem_of_singleton. by intros ->.
    + intros id. rewrite fmap_app, elem_of_app, elem_of_union, elem_of_singleton, Hs. cbn.
      rewrite list_elem_of_singleton. tauto.
    + set_solver.
    + intros g [Hg%Ha|Hg]%elem_of_app; rewrite fmap_app, elem_of_app; [by left|right].
      apply list_elem_of_singleton in Hg as ->. cbn. by left.
Qed.

Lemma appendUnique_scanned s l out : scanned s l → scanned (appendUnique s out) (l ++ out.(fdFixtures)).
Proof.
  intros Hs. unfold appendUnique.
  assert (scanned (mkScan s.(scFixtures) s.(scSeenIDs) (s.(scFilteredOut) + out.(fdFilteredOut))) l) as H0
    by (by destruct Hs; split).
  revert H0. generalize (mkScan s.(scFixtures) s.(scSeenIDs) (s.(scFilteredOut) + out.(fdFilteredOut))).
  generalize (fdFixtures out) as fs. clear. intros fs. revert l.
  induction fs as [|f fs IH]; intros l s Hs; [by rewrite app_nil_r|]. cbn.
  replace (l ++ f :: fs) with ((l ++ [f]) ++ fs) by (by rewrite <-app_assoc).
  by apply IH, appendFixture_scanned.
Qed.

(** The fixtures of the days that were fetched. *)
Definition dayIn (s : step) : list APIFixture :=
  match s with
  | Issued _ => []
  | Finished c r =>
      match c return activityError + response c → list APIFixture with
      | FetchFixturesForDay _ => λ r, match r with inr o => o.(fdFixtures) | inl _ => [] end
      | _ => λ _, []
      end r
  end.
Definition days (h : list step) : list APIFixture := h ≫= dayIn.

Section window.
Context `{Service} (x : execution) (inp : IngestWorkflowInput).

Abbreviation dayAt i := (FetchFixturesForDay (AddDays (anchor x inp) i)).

(** [h] fetches the days from the [d]th to before the [e]th. *)
Definition fetches (d e : Z) (h : list step) : Prop := commands h = (λ i, dayAt i) <$> seqZ d (e - d).

Lemma fetches_nil d h : commands h = [] → fetches d d h.
Proof. intros Hh. unfold fetches. by rewrite Z.sub_diag, Hh. Qed.

Lemma fetches_app d e f h h' : d ≤ e ≤ f → fetches d e h → fetches e f h' → fetches d f (h ++ h').
Proof.
  intros Hd Hh Hh'. unfold fetches. rewrite commands_app, Hh, Hh', <-fmap_app. f_equal.
  replace (f - d) with ((e - d) + (f - e)) by lia. rewrite seqZ_app by lia. do 2 f_equal. lia.
Qed.

(** What a part of the scan did: from the [d]th day on, it fetched to before the
    [e]th, and holds what it held and the fixtures of those days. *)
Definition scans (d e : Z) (l : list APIFixture) (s : scan) (h : list step) : Prop :=
  fetches d e h ∧ scanned s (l ++ days h).

Lemma scans_app d e f l s s' h h' :
  d ≤ e ≤ f → scans d e l s h → scans e f (l ++ days h) s' h' → scans d f l s' (h ++ h').
Proof.
  intros Hd [Hh _] [Hh' Hs']. split; [by eapply fetches_app|]. unfold days in *.
  by rewrite bind_app, app_assoc.
Qed.

Lemma fetchDay_scans d l s :
  scanned s l →
  prolongs (fetchDay s (AddDays (anchor x inp) d)) (λ r h, fetches d (d + 1) h ∧
    match r with inl _ => True | inr (s', _) => scans d (d + 1) l s' h end).
Proof.
  intros Hs. eapply prolongs_bind; [apply prolongs_call|]. intros r ? ->. apply prolongs_ret.
  rewrite app_nil_r. assert (∀ r, fetches d (d + 1) [Issued (dayAt d); Finished (dayAt d) r]) as Hf.
  { intros r'. unfold fetches. replace (d + 1 - d) with 1 by lia. done. }
  split; [apply Hf|]. destruct r as [err|out]; [done|]. split; [apply Hf|].
  cbn. rewrite app_nil_r. by apply appendUnique_scanned.
Qed.

Lemma AddDays_add t i j : AddDays (AddDays t i) j = AddDays t (i + j).
Proof. unfold AddDays. lia. Qed.

Lemma lastDay_scans d l s :
  scanned s l →
  prolongs (lastDay s (AddDays (anchor x inp) d)) (λ r h, fetches d (d + 1) h ∧
    match r with inl _ => True | inr s' => scans d (d + 1) l s' h end).
Proof.
  intros Hs. eapply prolongs_bind; [by apply fetchDay_scans|]. intros [err|[s' out]] h [Hf Hh];
    apply prolongs_ret; by rewrite app_nil_r.
Qed.

Lemma lookahead_scans n : ∀ d l s,
  scanned s l →
  prolongs (lookahead x inp n d s) (λ r h, ∃ e, d ≤ e ≤ d + Z.of_nat n ∧ fetches d e h ∧
    match r with
    | inl _ => True
    | inr (s', found) => scans d e l s' h ∧
        (found = zero_time ∨ found = AddDays (anchor x inp) (e - 1))
    end).
Proof.
  induction n as [|n IH]; intros d l s Hs; cbn [lookahead].
  { apply prolongs_ret. exists d. split; [lia|]. split; [by apply fetches_nil|]. split; [|by left].
    split; [by apply fetches_nil|]. cbn. by rewrite app_nil_r. }
  eapply prolongs_bind; [by apply fetchDay_scans|]. intros [err|[s' out]] h [Hf Hh].
  { apply prolongs_ret. exists (d + 1). rewrite app_nil_r. split; [lia|done]. }
  destruct (0 <? fdCount out).
  { apply prolongs_ret. exists (d + 1). rewrite app_nil_r. split; [lia|]. split; [done|]. split; [done|].
    right. f_equal. lia. }
  eapply prolongs_mono; [apply (IH (d + 1) (l ++ days h)); apply Hh|].
  intros r h' (e & He & Hf' & Hr). exists e. split; [lia|].
  split; [by apply (fetches_app d (d + 1) e); [lia|..]|]. destruct r as [err|[s2 found]]; [done|].
  destruct Hr as [Hr Hfound]. split; [|done]. by eapply (scans_app d (d + 1) e); [lia|..].
Qed.

Definition maxDays (maxLookaheadDays : Z) : Z := Z.max 2 maxLookaheadDays.

Lemma fetchFuture_scans m l s :
  scanned s l →
  prolongs (fetchFuture x inp m s) (λ r h, ∃ e, 2 ≤ e ≤ maxDays m + 2 ∧ fetches 1 e h ∧
    match r with inl _ => True | inr s' => scans 1 e l s' h end).
Proof.
  intros Hs. unfold fetchFuture, maxDays. set (k := if m <? 2 then 2 else m).
  assert (k = Z.max 2 m) as Hk by (subst k; destruct (Z.ltb_spec m 2); lia).
  eapply prolongs_bind; [by apply fetchDay_scans|]. intros [err|[s1 out]] h1 [Hf1 Hs1].
  { apply prolongs_ret. exists 2. rewrite app_nil_r. split; [lia|done]. }
  destruct (0 <? fdCount out).
  { eapply prolongs_mono; [apply (lastDay_scans 2 (l ++ days h1)); apply Hs1|]. intros r h2 [Hf2 Hr].
    exists 3. split; [lia|]. split; [by apply (fetches_app 1 2 3)|]. destruct r as [|s2]; [done|].
    by eapply (scans_app 1 2 3). }
  eapply prolongs_bind; [apply (lookahead_scans _ 2 (l ++ days h1)); apply Hs1|].
  intros [err|[s2 found]] h2 (e & He & Hf2 & Hr2).
  { apply prolongs_ret. exists e. rewrite app_nil_r. split; [lia|]. split; [|done].
    by apply (fetches_app 1 2 e); [lia|..]. }
  destruct Hr2 as [Hr2 Hfound].
  assert (scans 1 e l s2 (h1 ++ h2)) as Hr by (by eapply (scans_app 1 2 e); [lia|..]).
  destruct (IsZero found) eqn:Hz.
  { apply prolongs_ret. exists e. rewrite app_nil_r. split; [lia|]. split; [apply Hr|done]. }
  destruct Hfound as [-> | ->]; [done|]. rewrite AddDays_add. replace (e - 1 + 1) with e by lia.
  eapply prolongs_mono; [apply (lastDay_scans e (l ++ days (h1 ++ h2))); apply Hr|].
  intros r h3 [Hf3 Hr3]. exists (e + 1). split; [lia|]. rewrite app_assoc.
  split; [apply (fetches_app 1 e (e + 1)); [lia|apply Hr|done]|]. destruct r as [|s3]; [done|].
  by eapply (scans_app 1 e (e + 1)); [lia|..].
Qed.

(** What a scan of the window ends with: the days from the anchor on, one after the
    other, and their fixtures once each. *)
Definition windowed (m : Z) (r : activityError + list APIFixture) (h : list step) : Prop :=
  (∃ e, 1 ≤ e ≤ (if inp.(inFetchFuture) then maxDays m + 2 else 1) ∧ fetches 0 e h) ∧
  match r with
  | inl _ => True
  | inr fixtures => NoDup (fixtureIDs fixtures) ∧ fixtures ⊆ days h ∧
      ∀ f, f ∈ days h → f.(Fixture).(FixtureID) ∈ fixtureIDs fixtures
  end.

Lemma fetchWindow_scans m : prolongs (fetchWindow x inp m) (windowed m).
Proof.
  assert (anchor x inp = AddDays (anchor x inp) 0) as Ha by (unfold AddDays; lia).
  unfold fetchWindow. rewrite Ha at 1.
  eapply prolongs_bind; [apply fetchDay_scans, scanned_empty|]. intros [err|[s1 out]] h1 [Hf1 Hs1].
  { apply prolongs_ret. cbv beta. rewrite app_nil_r. split; [|done]. exists 1.
    split; [unfold maxDays; destruct (inFetchFuture inp); lia|done]. }
  eapply (prolongs_bind _ _ (λ _ h, h = [])).
  { apply prolongs_when; [intros _; apply prolongs_update|done]. }
  intros ? ? ->. cbn [app].
  eapply (prolongs_bind _ _ (λ r h, ∃ e, 1 ≤ e ≤ (if inp.(inFetchFuture) then maxDays m + 2 else 1) ∧
    fetches 1 e h ∧ match r with inl _ => True | inr s' => scans 1 e (days h1) s' h end)).
  { destruct (inFetchFuture inp).
    - eapply prolongs_mono; [apply (fetchFuture_scans m (days h1)); apply Hs1|].
      intros r h (e & He & Hh). exists e. split; [lia|done].
    - apply prolongs_ret. exists 1. split; [lia|]. split; [by apply fetches_nil|].
      split; [by apply fetches_nil|]. cbn. rewrite app_nil_r. apply Hs1. }
  intros r h2 (e & He & Hf2 & Hr).
  assert (fetches 0 e (h1 ++ h2)) as Hf by (by apply (fetches_app 0 1 e); [lia|..]).
  destruct r as [err|s2].
  { apply prolongs_ret. cbv beta. rewrite app_nil_r. split; [by exists e|done]. }
  eapply prolongs_bind; [apply prolongs_update|]. intros ? ? ->. apply prolongs_ret. cbv beta. rewrite !app_nil_r.
  split; [by exists e|]. destruct Hr as [_ [Hk _ Hfrom Hall]]. unfold days in *. by rewrite bind_app.
Qed.

(** ** The commands of a day *)

Definition fetching (c : command) : bool :=
  match c with FetchFixturesByIDs _ | FetchFixturesForDay _ | Sleep _ => true | _ => false end.

Definition isDestroy (c : command) : bool := match c with DestroyEvent _ _ => true | _ => false end.

Definition fetchedBy (h : list step) : Prop := Forall (λ c, fetching c = true) (commands h).

Lemma fetchedBy_app h h' : fetchedBy h → fetchedBy h' → fetchedBy (h ++ h').
Proof. unfold fetchedBy. rewrite commands_app. apply Forall_app_2. Qed.

(** The fixtures of the batches that were fetched. *)
Definition batchIn (s : step) : list APIFixture :=
  match s with
  | Issued _ => []
  | Finished c r =>
      match c return activityError + response c → list APIFixture with
      | FetchFixturesByIDs _ => λ r, match r with inr o => o.(fbFixtures) | inl _ => [] end
      | _ => λ _, []
      end r
  end.
Definition batches (h : list step) : list APIFixture := h ≫= batchIn.

Definition maxAttempts : Z := Z.of_nat ingestManualIDsMaxAttempts.

(** From the [k]th attempt on, [h] asks for [ids] and then, after a pause that grows
    with the attempts, for those the answer lists as failed, until none is or the
    attempts are used up; [missed] failed in the last answer. *)
Inductive asks : Z → list Z → list step → list Z → Prop :=
  | asks_all k ids out : k ≤ maxAttempts → ids ≠ [] → out.(fbFailedIDs) = [] →
      asks k ids [Issued (FetchFixturesByIDs ids); Finished (FetchFixturesByIDs ids) (inr out)] []
  | asks_again k ids out slept h missed : k ≤ maxAttempts → ids ≠ [] → out.(fbFailedIDs) ≠ [] →
      asks (k + 1) out.(fbFailedIDs) h missed →
      asks k ids ([Issued (FetchFixturesByIDs ids); Finished (FetchFixturesByIDs ids) (inr out);
        Issued (Sleep (k * ingestManualIDsBackoffInitial));
        Finished (Sleep (k * ingestManualIDsBackoffInitial)) (inr slept)] ++ h) missed
  | asks_end ids : ids ≠ [] → asks (maxAttempts + 1) ids [] ids.

(** What the attempts for given ids end with. *)
Definition asked (k : Z) (ids : list Z) (acc : list APIFixture)
    (r : activityError + (list APIFixture * list Z)) (h : list step) : Prop :=
  fetchedBy h ∧ match r with
    | inl _ => True
    | inr (fixtures, missed) => fixtures = acc ++ batches h ∧ asks k ids h missed
    end.

Lemma manual_fetches n : ∀ k ids acc,
  k = maxAttempts + 1 - Z.of_nat n → ids ≠ [] →
  prolongs (O := IngestWorkflowOutput) (manualAttempts n k ids acc) (asked k ids acc).
Proof.
  induction n as [|n IH]; intros k ids acc Hk Hids; cbn [manualAttempts].
  { apply prolongs_ret. split; [constructor|]. cbn. rewrite app_nil_r. split; [done|].
    replace k with (maxAttempts + 1) by lia. by constructor. }
  destruct ids as [|id ids]; [done|]. set (all := id :: ids) in *.
  eapply prolongs_bind; [apply prolongs_call|]. intros [err|out] ? ->.
  { apply prolongs_ret. split; [by repeat constructor|done]. }
  destruct (fbFailedIDs out) as [|next failed] eqn:Hf; cbn [head is_nil].
  { apply prolongs_ret. split; [by repeat constructor|]. cbn. rewrite app_nil_r. split; [done|].
    constructor; [lia|done|done]. }
  eapply prolongs_bind; [apply prolongs_call|]. intros [err|u] ? ->.
  { apply prolongs_ret. split; [by repeat constructor|done]. }
  eapply prolongs_mono; [apply (IH (k + 1) (next :: failed) (acc ++ fbFixtures out)); [lia|done]|].
  intros r h [Hh Hr]. split; [by repeat constructor|]. destruct r as [|[fixtures missed]]; [done|].
  destruct Hr as [-> Ha]. rewrite <-Hf in Ha. split.
  - cbn. by rewrite <-app_assoc.
  - apply (asks_again k all out u h missed); [lia|done|by rewrite Hf|done].
Qed.

Lemma addIngestErrors_quiet l : prolongs (addIngestErrors l) (λ _ h, h = []).
Proof. apply prolongs_update. Qed.

(** The part of a run that fetches. *)
Definition fetchPart (cfg : GetIngestConfigOutput) (r : activityError + list APIFixture) (h : list step) : Prop :=
  fetchedBy h ∧
  match inp.(inManualFixtureIDs) with
  | [] => windowed cfg.(giMaxLookaheadDays) r h
  | ids => match r with
      | inl _ => True
      | inr fixtures => fixtures = batches h ∧ ∃ missed, asks 1 ids h missed
      end
  end.

Lemma fetch_part cfg : prolongs (fetch x inp cfg) (fetchPart cfg).
Proof.
  unfold fetch, fetchPart. destruct (inManualFixtureIDs inp) as [|id ids] eqn:E; cbn [head not_nil is_nil negb].
  - eapply prolongs_mono; [apply fetchWindow_scans|]. intros r h Hh. split; [|done].
    destruct Hh as [(e & _ & Hf) _]. unfold fetchedBy. rewrite Hf. by apply Forall_fmap, Forall_true.
  - unfold fetchManual. rewrite E.
    eapply prolongs_bind; [by apply (manual_fetches ingestManualIDsMaxAttempts)|].
    intros [err|[acc remaining]] h [Hh Hr].
    { apply prolongs_ret. by rewrite app_nil_r. }
    eapply (prolongs_bind _ _ (λ _ h, h = [])).
    { apply prolongs_when; [intros _; apply prolongs_update|done]. }
    intros ? ? ->. apply prolongs_ret. rewrite !app_nil_r. destruct Hr as [-> Ha]. eauto.
Qed.

Definition announcement (ids : list Z) : list command :=
  if not_nil (head ids) then [PublishFixtureBatch [] ids] else [].
Definition placeholders (ts : list alias.TeamRef) : list command :=
  if not_nil (head ts) then [EnsureAliasPlaceholders ts] else [].
Definition refreshing : list command :=
  if is_nil (head inp.(inManualFixtureIDs)) then [RefreshTrackedTeamsIfStale] else [].

Lemma refreshTeams_commands : prolongs (refreshTeams inp) (λ _ h, commands h = refreshing).
Proof.
  unfold refreshTeams, refreshing. destruct (is_nil _); [|by apply prolongs_ret].
  eapply prolongs_bind; [apply prolongs_call|]. intros [err|out] ? ->;
    (eapply prolongs_mono; [apply prolongs_update|]); by intros ? ? ->.
Qed.

Lemma publish_commands ids : prolongs (publishChanged ids) (λ _ h, commands h = announcement ids).
Proof.
  unfold publishChanged, announcement. destruct (not_nil _); [|by apply prolongs_ret].
  eapply prolongs_bind; [apply prolongs_call|]. intros [err|out] ? ->;
    [eapply prolongs_mono; [apply prolongs_update|]; by intros ? ? ->|by apply prolongs_ret].
Qed.

(** How a part of a run that ends with the retention went: it failed and destroyed
    nothing, or it destroyed what the retention planned, in order. *)
Definition retained (cfg : GetIngestConfigOutput) (cs : list command) (err : option string)
    (h : list step) : Prop :=
  (is_Some err ∧ Forall (λ c, isDestroy c = false) (commands h)) ∨
  (err = None ∧ ∃ cutoff ids,
     Finished (PlanMediaRetention cfg.(giCompletedFixtureDates)) (inr (cutoff, ids)) ∈ h ∧
     commands h = cs ++ [PlanMediaRetention cfg.(giCompletedFixtureDates)] ++
       ((λ id, DestroyEvent id video.RemovalPolicy) <$> ids)).

(** The same from the categorization on. *)
Definition storedAll (cfg : GetIngestConfigOutput) (fixtures : list APIFixture) (cs : list command)
    (err : option string) (h : list step) : Prop :=
  (is_Some err ∧ Forall (λ c, isDestroy c = false) (commands h)) ∨
  ∃ out, Finished (CategorizeAndUpsertFixtures (categorizeInput x inp cfg fixtures)) (inr out) ∈ h ∧
    retained cfg (cs ++ [CategorizeAndUpsertFixtures (categorizeInput x inp cfg fixtures)] ++
      announcement out.(coChangedIDs) ++ placeholders out.(coTeamRefs)) err h.

Lemma retain_retained cfg : prolongs (retain cfg) (retained cfg []).
Proof.
  eapply prolongs_bind; [apply prolongs_call|]. intros [err|[cutoff ids]] ? ->.
  { apply prolongs_ret. left. split; [by eexists|]. by repeat constructor. }
  cbn [orFail]. eapply (prolongs_bind _ _ (λ _ h, commands h = (λ id, DestroyEvent id video.RemovalPolicy) <$> ids)).
  { induction ids as [|id ids IH]; [by apply prolongs_ret|].
    cbn [for_ snd]. eapply (prolongs_bind _ _ (λ _ h, commands h = [DestroyEvent id video.RemovalPolicy])).
    - eapply prolongs_bind; [apply prolongs_call|]. intros [err|out] ? ->;
        (eapply prolongs_mono; [apply prolongs_update|]); by intros ? ? ->.
    - intros ? h Hh. eapply prolongs_mono; [apply IH|]. intros ? h' Hh'. by rewrite commands_app, Hh, Hh'. }
  intros ? h Hh. apply prolongs_ret. right. split; [done|]. exists cutoff, ids.
  split; [right; by left|]. rewrite app_nil_r.
  change (PlanMediaRetention (giCompletedFixtureDates cfg) :: commands h =
    PlanMediaRetention (giCompletedFixtureDates cfg) :: ((λ id, DestroyEvent id video.RemovalPolicy) <$> ids)).
  by rewrite Hh.
Qed.

Lemma retained_app cfg cs cs' err h h' :
  commands h = cs → Forall (λ c, isDestroy c = false) cs → retained cfg cs' err h' →
  retained cfg (cs ++ cs') err (h ++ h').
Proof.
  intros Hh Hcs [[He Hd]|(-> & cutoff & ids & Hin & Hc)].
  - left. split; [done|]. rewrite commands_app, Hh. by apply Forall_app_2.
  - right. split; [done|]. exists cutoff, ids. split; [apply elem_of_app; by right|].
    by rewrite commands_app, Hh, Hc, <-app_assoc.
Qed.

Lemma ensureAliases_retained cfg ts :
  prolongs (ensureAliases ts (retain cfg)) (retained cfg (placeholders ts)).
Proof.
  unfold ensureAliases, placeholders. destruct ts as [|t ts]; [apply retain_retained|].
  eapply prolongs_bind; [apply prolongs_call|]. intros [err|out] ? ->.
  { apply prolongs_ret. left. split; [by eexists|]. by repeat constructor. }
  cbn [orFail head not_nil is_nil negb]. eapply prolongs_bind; [apply prolongs_update|]. intros ? ? ->.
  eapply prolongs_mono; [apply retain_retained|]. intros err h Hh.
  apply (retained_app cfg [_] []); [done|by repeat constructor|done].
Qed.

Lemma announcement_quiet ids : Forall (λ c, isDestroy c = false) (announcement ids).
Proof. unfold announcement. destruct (not_nil _); by repeat constructor. Qed.

Lemma refreshing_quiet : Forall (λ c, isDestroy c = false) refreshing.
Proof. unfold refreshing. destruct (is_nil _); by repeat constructor. Qed.

Lemma fetched_quiet h : fetchedBy h → Forall (λ c, isDestroy c = false) (commands h).
Proof. intros Hf. eapply Forall_impl; [exact Hf|]. by intros []. Qed.

Lemma storeFetched_stored cfg fixtures :
  prolongs (storeFetched x inp cfg fixtures) (storedAll cfg fixtures []).
Proof.
  eapply prolongs_bind; [apply prolongs_update|]. intros ? ? ->. set (c := CategorizeAndUpsertFixtures _).
  eapply prolongs_bind; [apply prolongs_call|]. intros [err|out] ? ->; cbn [orFail].
  { apply prolongs_ret. left. split; [by eexists|]. by repeat constructor. }
  eapply prolongs_bind; [apply prolongs_update|]. intros ? ? ->.
  eapply prolongs_bind; [apply publish_commands|]. intros ? h Hh.
  eapply prolongs_mono; [apply ensureAliases_retained|]. intros err h' Hh'. right. exists out.
  split; [set_solver|]. cbn [app].
  apply (retained_app cfg [c] _ _ [Issued c; Finished c (inr out)]); [done|by repeat constructor|].
  by apply retained_app; [|apply announcement_quiet|].
Qed.

Lemma storedAll_app cfg fixtures cs cs' err h h' :
  commands h = cs → Forall (λ c, isDestroy c = false) cs → storedAll cfg fixtures cs' err h' →
  storedAll cfg fixtures (cs ++ cs') err (h ++ h').
Proof.
  intros Hh Hcs [[He Hd]|(out & Hin & Hr)].
  - left. split; [done|]. rewrite commands_app, Hh. by apply Forall_app_2.
  - right. exists out. split; [apply elem_of_app; by right|]. rewrite <-app_assoc.
    by apply retained_app.
Qed.

(** C16: One daily ingestion under the current versions, whatever the activities answer.
    Either it fails, and then it has reclaimed nothing; or it succeeds, and then it
    refreshed the tracked teams unless fixtures were given, fetched, stored exactly what
    it fetched under the time it started and its receipt key, announced the changed
    fixtures, added the teams it met, planned the retention last, and destroyed the
    clips of exactly the planned events.  A fetch without given fixtures asks for
    consecutive days from the anchor on, as many as the window allows, and hands every
    fixture of those days on exactly once.  A fetch of given fixtures asks for them, then
    for those that failed, three times at most with growing pauses, and hands on what
    all its answers listed, in order. *)
Theorem ingest_cycle :
  current x →
  let r := IngestWorkflow x inp (mkRun emptyIngest []) in let h := r.2.(steps) in
  (is_Some r.1 ∧ ∀ id reason, DestroyEvent id reason ∉ commands h) ∨
  (r.1 = None ∧ ∃ cfg fixtures out cutoff ids hf,
     Finished GetIngestConfig (inr cfg) ∈ h ∧
     Finished (CategorizeAndUpsertFixtures (categorizeInput x inp cfg fixtures)) (inr out) ∈ h ∧
     Finished (PlanMediaRetention cfg.(giCompletedFixtureDates)) (inr (cutoff, ids)) ∈ h ∧
     (∃ before after, h = before ++ hf ++ after) ∧ fetchPart cfg (inr fixtures) hf ∧
     commands h = [GetIngestConfig] ++ refreshing ++ commands hf ++
       [CategorizeAndUpsertFixtures (mkCategorizeInput fixtures
          (if inp.(inActivationWindow) =? 0 then cfg.(giActivationWindow) else inp.(inActivationWindow))
          x.(exNow) (providerObservationID x) false)] ++
       announcement out.(coChangedIDs) ++ placeholders out.(coTeamRefs) ++
       [PlanMediaRetention cfg.(giCompletedFixtureDates)] ++
       ((λ id, DestroyEvent id video.RemovalPolicy) <$> ids)).
Proof.
  intros (_ & Hg & _). cbn zeta.
  assert (prolongs (IngestWorkflow x inp) (λ err h,
    (is_Some err ∧ Forall (λ c, isDestroy c = false) (commands h)) ∨
    ∃ cfg fixtures hf, Finished GetIngestConfig (inr cfg) ∈ h ∧ (∃ before after, h = before ++ hf ++ after) ∧
      fetchPart cfg (inr fixtures) hf ∧
      storedAll cfg fixtures ([GetIngestConfig] ++ refreshing ++ commands hf) err h)) as HP.
  { unfold IngestWorkflow. eapply prolongs_bind; [apply prolongs_call|]. intros [err|cfg] ? ->.
    { apply prolongs_ret. left. split; [by eexists|]. by repeat constructor. }
    eapply prolongs_bind; [apply refreshTeams_commands|]. intros ? h1 Hh1.
    eapply prolongs_bind; [apply fetch_part|]. intros fetched hf Hf.
    pose proof (fetched_quiet hf (proj1 Hf)) as Hq. destruct fetched as [err|fixtures]; cbn [orFail].
    { apply prolongs_ret. left. split; [by eexists|]. rewrite app_nil_r, !commands_app, Hh1.
      apply Forall_app_2; [by repeat constructor|]. by apply Forall_app_2; [apply refreshing_quiet|]. }
    eapply prolongs_mono; [apply storeFetched_stored|]. intros err h2 Hh2. right. exists cfg, fixtures, hf.
    split; [set_solver|]. split; [eexists ([_; _] ++ h1), h2; by rewrite <-!app_assoc|]. split; [done|].
    rewrite <-(app_nil_r (_ ++ _ ++ commands hf)), <-!app_assoc.
    apply storedAll_app; [done|by repeat constructor|].
    apply storedAll_app; [done|apply refreshing_quiet|]. by apply storedAll_app. }
  destruct (HP (mkRun emptyIngest [])) as (h & Hh & HPh). rewrite Hh. cbn [steps app].
  assert (∀ cs, Forall (λ c, isDestroy c = false) cs → ∀ id reason, DestroyEvent id reason ∉ cs) as Hnone.
  { intros cs Hcs id reason Hin. rewrite Forall_forall in Hcs. by apply Hcs in Hin. }
  destruct HPh as [[He Hd]|(cfg & fixtures & hf & Hcfg & Hsub & Hf & [[He Hd]|(out & Hout & Hr)])].
  - left. split; [done|]. by apply Hnone.
  - left. split; [done|]. by apply Hnone.
  - destruct Hr as [[He Hd]|(He & cutoff & ids & Hplan & Hc)]; [left; split; [done|by apply Hnone]|].
    right. split; [done|]. exists cfg, fixtures, out, cutoff, ids, hf.
    repeat (split; [done|]). rewrite Hc. unfold categorizeInput. by rewrite Hg, <-!app_assoc.
Qed.
End window.
End daily.
