(* ===== verification/Rota.v ===== *)
(** One evening of the scheduled workflows, on the match day of Cycle.v: an active poll
    whose reconciliation is the modelled activity run on those tables, and a daily
    ingestion that scans past an empty day.  The theorems of the coordinators and of
    the reference data are applied to them. *)
From S2P Require Import Prelude GoStrings ApiFootball Fixture Event Identity Integrity Health Auditlog Presentation Plan Jsonb Discovery Store Mutation Commit Guarantees Preserve Events Fixtures Candidates HealthRepo World Planning Activity Reconcile Collect Activation Effects Scenario Cycle Video Wire Flow Teams Ingest Coordinate Polling Teardown Daily.
#[local] Open Scope string_scope.
#[local] Open Scope list_scope.
#[local] Open Scope Z_scope.
Import apifootball health mutation pg boundary guarantees world planning activity collect activation wire ingest coordinate polling teardown daily scenario cycle.

Module rota.

(** ** The answers *)

Definition receipt : HealthResult :=
  mkHealthResult (at_ 5) 0 providerintegrity.PolicyTrusted 2 1 [8] [] []
    [] (mkHealthCorrelation [] [] providerintegrity.PolicyTrusted) [] 1 false.

(** The activity on the tables of the day, alone. *)
Definition reconciling (i : ReconcileFixtureInput) : act (ReconcileFixtureOutput * option string) :=
  reconcile.ReconcileFixture deployment cycle.text fresh visit i (at_ 5).

(** Tomorrow is empty, the day after has a fixture, and a second response repeats it. *)
Definition dayOutput (date : Time) : FetchFixturesForDayOutput :=
  if date =? AddDays (at_ 5) 1 then mkFetchFixturesForDayOutput [] 0 4 false
  else mkFetchFixturesForDayOutput [kickedOff] 1 2 false.

Definition reply (c : command) : activityError + coordinate.response c :=
  match c return activityError + coordinate.response c with
  | GetMonitorConfig => inr (mkGetMonitorConfigOutput (300 * time_Second) true)
  | ActivateUpcoming _ => inl [plainError]
  | ListActiveFixtureIDs => inr [7; 8]
  | FetchLiveFixtures _ => inr cycleFetch
  | CollectProviderHealth _ => inr receipt
  | ReconcileFixture i =>
      match result (reconciling i) with
      | (o, None) => inr o
      | _ => inl [plainError]
      end
  | PollStagingFixtures _ => inl [plainError]
  | ReapOrphanedFirefox _ => inr []
  | GetIngestConfig => inr (mkGetIngestConfigOutput 7 (300 * time_Second) 2)
  | RefreshTrackedTeamsIfStale => inl [plainError]
  | FetchFixturesByIDs ids => inr (mkFetchFixturesByIDsOutput [] 0 ids)
  | FetchFixturesForDay date => inr (dayOutput date)
  | CategorizeAndUpsertFixtures _ =>
      inr (mkCategorizeOutput 0 1 0 [] [alias.mkTeamRef 40 "Home" false None None] [7])
  | EnsureAliasPlaceholders _ => inr (alias.mkEnsureAliasPlaceholdersOutput 0 1 [])
  | PlanMediaRetention _ => inr (Some (at_ 1), [3%positive; 4%positive])
  | DestroyEvent 3 _ => inl [plainError]
  | ProvisionFirefox _ | RequestCancelExternalWorkflow _ | DestroyEvent _ _ | ReleaseFirefox _
  | PublishFixtureBatch _ _ | Sleep _ => inr tt
  end.

#[export] Instance evening : Service :=
  {| coordinate.answer := λ _, reply; errorText := λ _, "failed"; sha1 := λ _, "obs"; printUUID := cycle.text |}.

Definition poller : execution := mkExecution "monitor-1" "run-1" (at_ 5) true true true.

Definition cycleTrail : list step := (activePoll poller 0).2.(steps).

(** Finds an element of a computed list. *)
Ltac listed := apply list_elem_of_In; vm_compute; repeat first [left; reflexivity | right].

(** ** The active poll *)

Lemma poll_outcomes : outcomes cycleTrail = [(input, Some (result pass).1)].
Proof. vm_compute. reflexivity. Qed.

Lemma poll_runs :
  runs (happens limitless) (reconciling input) db0 (log (reconciling input)) ((result pass).1, None)
    (final (reconciling input)).
Proof.
  assert (result (reconciling input) = ((result pass).1, None)) as <- by (vm_compute; reflexivity).
  apply pass_runs.
Qed.


Lemma teardown_witness :
  ∃ v p before r after, guarantees.run v (callActive p) before = inr (r, after) ∧
    2%positive ∈ r.(mrRemovedEventIDs).
Proof.
  destruct (teardown_is_justified poller limitless deployment cycle.text fresh visit 0 2 "")
    as [[_ Hiff] Hcommit]; [done|done| |].
  - intros i o Hin%outcomes_elem. pose proof poll_outcomes as E. unfold cycleTrail in E.
    rewrite E in Hin. apply list_elem_of_singleton, pair_eq in Hin as [-> Ho].
    apply (inj Some) in Ho as ->.
    exists (at_ 5), db0, (log (reconciling input)), (final (reconciling input)).
    split; [apply db0_ok|]. exact poll_runs.
  - destruct Hcommit as (v & p & before & r & after & _ & Hr & Hid & _).
    + apply Hiff. split; [done|]. exists input, (result pass).1. split; [|listed].
      apply outcomes_elem. pose proof poll_outcomes as E. unfold cycleTrail in E. rewrite E. by left.
    + exists v, p, before, r, after. by split.
Defined.


(** ** The daily ingestion *)

Definition daily_ : IngestWorkflowInput := mkIngestWorkflowInput None [] true 0.
Definition dailyRun := IngestWorkflow poller daily_ (mkRun emptyIngest []).

(** The commands of the run but the fetches. *)
Lemma only_fetches hf fixtures cfg out ids w :
  filter (λ c, fetching c = true) ([GetIngestConfig] ++ refreshing daily_ ++ hf ++
    [CategorizeAndUpsertFixtures (mkCategorizeInput fixtures w poller.(exNow) (providerObservationID poller) false)] ++
    announcement out.(coChangedIDs) ++ placeholders out.(coTeamRefs) ++
    [PlanMediaRetention cfg.(giCompletedFixtureDates)] ++
    ((λ id, DestroyEvent id video.RemovalPolicy) <$> ids)) = filter (λ c, fetching c = true) hf.
Proof.
  rewrite !filter_app. rewrite (filter_none _ (_ <$> ids)) by (by apply Forall_fmap, Forall_true).
  unfold announcement, placeholders. by destruct (not_nil _), (not_nil _); cbn; rewrite app_nil_r.
Qed.

(** Tomorrow is empty, so the scan goes on to the day after and its successor; the
    fixture that two days list is stored once; the failed teardown of event 3 does not
    keep event 4. *)
Lemma ingest_cycle_witness :
  dailyRun.1 = None ∧ ∃ cfg fixtures hf,
    fetchPart poller daily_ cfg (inr fixtures) hf ∧
    commands hf = (λ i, FetchFixturesForDay (AddDays (at_ 5) i)) <$> [0; 1; 2; 3] ∧
    dailyRun.2.(output).(iwReclaimedEvents) = 1.
Proof.
  destruct (ingest_cycle poller daily_)
    as [[[err He] _]|(Hn & cfg & fixtures & out & cutoff & ids & hf & _ & _ & _ & _ & Hf & Hc)]; [done| |].
  - exfalso. vm_compute in He. congruence.
  - split; [exact Hn|]. exists cfg, fixtures, hf. split; [exact Hf|]. split; [|vm_compute; reflexivity].
    assert (filter (λ c, fetching c = true) (commands hf) = commands hf) as <- by (apply filter_all, Hf).
    transitivity (filter (λ c, fetching c = true) (commands (steps dailyRun.2))); [|vm_compute; reflexivity].
    unfold dailyRun. by rewrite Hc, only_fetches.
Defined.

(** ** The tracked teams *)

(** League 140 does not answer. *)
#[export] Instance vendor : teams.Vendor :=
  {| teams.leagues := λ lg, if lg =? 39 then inr [[teams.mkAPILeagueSeason 2025 false;
       teams.mkAPILeagueSeason 2026 true]] else inl "timeout";
     teams.teamEnvelopes := λ lg season, if season =? 2026
       then inr [teams.mkAPITeam 40 "Home"; teams.mkAPITeam 0 ""; teams.mkAPITeam 50 "Away"] else inr [] |}.

Definition cachedTeams : list teams.TrackedTeam :=
  [teams.mkTrackedTeam 40 "Home" 39 "" 2025 (at_ 1); teams.mkTrackedTeam 60 "Third" 140 "" 2025 (at_ 2);
   teams.mkTrackedTeam 70 "Fourth" 78 "" 2025 (at_ 2)].

Definition nextDay : Time := AddDays (at_ 2) 2.
Definition refreshing_ := teams.RefreshTrackedTeamsIfStale [39; 140] 24 nextDay None None cachedTeams.

Lemma cachedTeams_ok : teams.rows_ok cachedTeams.
Proof. split; [by apply (bool_decide_unpack _)|by repeat constructor|by repeat constructor]. Qed.

(** The unreachable league keeps its team, the league that is not configured goes. *)
Lemma refresh_witness :
  teams.ttID <$> refreshing_.2 = [40; 50; 60] ∧
  filter (λ t, t.(teams.ttLeagueID) = 140) refreshing_.2 = filter (λ t, t.(teams.ttLeagueID) = 140) cachedTeams.
Proof.
  split; [vm_compute; reflexivity|].
  destruct (teams.refresh_keeps_leagues nextDay [39; 140] 24 None None cachedTeams cachedTeams_ok)
    as (_ & _ & _ & H).
  apply H; [vm_compute; reflexivity|apply (bool_decide_unpack _); vm_compute; done|done].
Defined.

(** The same cache when the reachable league lists the team of the other one. *)
Example shared_team_blocks :
  let shared := teams.mkTrackedTeam 50 "Away" 140 "" 2025 (at_ 2) :: cachedTeams in
  (teams.RefreshTrackedTeamsIfStale [39; 140] 24 nextDay None None shared).1.2 = Some "replace cache" ∧
  (teams.RefreshTrackedTeamsIfStale [39; 140] 24 nextDay None None shared).2 = shared.
Proof. vm_compute. done. Qed.
End rota.
