(* ===== verification/GoTime.v ===== *)
(** The parts of Go's [time] and of its conversion of strings to runes that the
    browser service uses: time.Parse with the layout time.RFC3339, Duration.Minutes,
    and []rune. *)
From S2P Require Import Prelude GoStrings Vision Video.
From Stdlib Require Import SpecFloat.
#[local] Open Scope string_scope.
#[local] Open Scope list_scope.
#[local] Open Scope Z_scope.

Module gotime.

(** ** The calendar *)

Definition isLeap (year : Z) : bool :=
  (year mod 4 =? 0) && (negb (year mod 100 =? 0) || (year mod 400 =? 0)).

Definition daysIn (month year : Z) : Z :=
  if month =? 2 then (if isLeap year then 29 else 28)
  else if (month =? 4) || (month =? 6) || (month =? 9) || (month =? 11) then 30 else 31.

(** The days of the year before a month. *)
Definition daysBefore (month year : Z) : Z :=
  foldr (λ m n, daysIn m year + n) 0 (seqZ 1 (month - 1)).

(** The days from the zero time on. *)
Definition dayNumber (year month day : Z) : Z :=
  365 * (year - 1) + (year - 1) / 4 - (year - 1) / 100 + (year - 1) / 400 +
  daysBefore month year + (day - 1).

Definition Date (year month day hour minute second nanosecond : Z) : Time :=
  ((dayNumber year month day * 24 + hour) * 60 + minute) * time_Minute +
  second * time_Second + nanosecond.

(** ** time.Parse(time.RFC3339, _)

    Each reader returns what it read and the rest of the text. *)

Definition reader A := string → option (A * string).

Definition one : reader Z := λ s,
  match s with String c s => d ← digit_value c; Some (d, s) | EmptyString => None end.

(** getnum: two digits, of which the second may be missing when not [fixed]. *)
Definition getnum (fixed : bool) : reader Z := λ s,
  '(a, s) ← one s;
  match one s with
  | Some (b, s) => Some (10 * a + b, s)
  | None => if fixed : bool then None else Some (a, s)
  end.

Definition year_ : reader Z := λ s,
  '(a, s) ← getnum true s; '(b, s) ← getnum true s; Some (100 * a + b, s).

Definition literal (c : ascii) : reader unit := λ s,
  match s with String d s => if Ascii.eqb c d then Some (tt, s) else None | EmptyString => None end.

Definition within (low high : Z) (r : reader Z) : reader Z := λ s,
  '(v, s) ← r s; if (low <=? v) && (v <=? high) then Some (v, s) else None.

(** The digits at the head of a text. *)
Fixpoint digits (s : string) : list Z * string :=
  match s with
  | EmptyString => ([], s)
  | String c s' =>
      match digit_value c with
      | Some d => let '(ds, r) := digits s' in (d :: ds, r)
      | None => ([], s)
      end
  end.

(** Nine of them count. *)
Definition nanoseconds (ds : list Z) : Z :=
  let ds := take 9 ds in
  foldl (λ n d, 10 * n + d) 0 ds * 10 ^ (9 - Z.of_nat (length ds)).

(** The fraction the layout does not ask for. *)
Definition fraction : reader Z := λ s,
  match s with
  | String c s' =>
      if Ascii.eqb c "."%char || Ascii.eqb c ","%char then
        match digits s' with
        | ([], _) => Some (0, s)
        | (ds, r) => Some (nanoseconds ds, r)
        end
      else Some (0, s)
  | EmptyString => Some (0, s)
  end.

Definition sign : reader Z := λ s,
  match s with
  | String c s =>
      if Ascii.eqb c "+"%char then Some (1, s)
      else if Ascii.eqb c "-"%char then Some (-1, s) else None
  | EmptyString => None
  end.

(** Z07:00, in seconds. *)
Definition zone : reader Z := λ s,
  match literal "Z" s with
  | Some (_, s) => Some (0, s)
  | None =>
      '(sg, s) ← sign s;
      '(hr, s) ← within 0 24 (getnum true) s;
      '(_, s) ← literal ":" s;
      '(mm, s) ← within 0 60 (getnum true) s;
      Some (sg * ((hr * 60 + mm) * 60), s)
  end.

Definition ParseRFC3339 (s : string) : option Time :=
  '(year, s) ← year_ s;
  '(_, s) ← literal "-" s;
  '(month, s) ← within 1 12 (getnum true) s;
  '(_, s) ← literal "-" s;
  '(day, s) ← getnum true s;
  '(_, s) ← literal "T" s;
  '(hour, s) ← within 0 23 (getnum false) s;
  '(_, s) ← literal ":" s;
  '(minute, s) ← within 0 59 (getnum true) s;
  '(_, s) ← literal ":" s;
  '(second, s) ← within 0 59 (getnum true) s;
  '(nanosecond, s) ← fraction s;
  '(offset, s) ← zone s;
  if (s =? "")%string && (1 <=? day) && (day <=? daysIn month year)
  then Some (Date year month day hour minute second nanosecond - offset * time_Second)
  else None.

Example parse_epoch : ParseRFC3339 "1970-01-01T00:00:00Z" = Some (719162 * 24 * time_Hour).
Proof. vm_compute. reflexivity. Qed.

Example parse_offset :
  ParseRFC3339 "2026-09-09T20:00:00.25-04:00" = ParseRFC3339 "2026-09-10T00:00:00.250Z" ∧
  ParseRFC3339 "2026-02-29T20:00:00Z" = None ∧ ParseRFC3339 "2026-02-28T20:00Z" = None.
Proof. vm_compute. done. Qed.

(** ** Duration.Minutes *)

Definition Minutes (d : Duration) : spec_float :=
  SFadd 53 1024 (video.float_of_int (Z.quot d time_Minute))
    (video.float_div (video.float_of_int (Z.rem d time_Minute))
      (video.float_of_int time_Minute)).

(** ** Runes *)

Definition byteIn (low high : nat) (s : string) : bool :=
  match s with
  | String c _ => (low <=? Ascii.nat_of_ascii c)%nat && (Ascii.nat_of_ascii c <=? high)%nat
  | EmptyString => false
  end.

Fixpoint string_drop (n : nat) (s : string) : string :=
  match n, s with
  | S n, String _ s => string_drop n s
  | _, _ => s
  end.

Fixpoint string_take (n : nat) (s : string) : string :=
  match n, s with
  | S n, String c s => String c (string_take n s)
  | _, _ => EmptyString
  end.

(** The length of the well-formed UTF-8 sequence at the head of a text, if any. *)
Definition runeLength (s : string) : option nat :=
  let then2 low high := byteIn low high (string_drop 1 s) in
  let continued n := byteIn 128 191 (string_drop n s) in
  if byteIn 0 127 s then Some 1%nat
  else if byteIn 194 223 s then (if continued 1%nat then Some 2%nat else None)
  else if byteIn 224 239 s then
    (if then2 (if byteIn 224 224 s then 160 else 128)%nat (if byteIn 237 237 s then 159 else 191)%nat
        && continued 2%nat then Some 3%nat else None)
  else if byteIn 240 244 s then
    (if then2 (if byteIn 240 240 s then 144 else 128)%nat (if byteIn 244 244 s then 143 else 191)%nat
        && continued 2%nat && continued 3%nat then Some 4%nat else None)
  else None.

(** U+FFFD, for a byte that is no part of a rune. *)
Definition RuneError : string := vision.utf8_3 239 191 189.

(** []rune(s), each rune as its encoding; [fuel] runes at most. *)
Fixpoint runesUpTo (fuel : nat) (s : string) : list string :=
  match fuel, s with
  | S fuel, String _ rest =>
      match runeLength s with
      | Some n => string_take n s :: runesUpTo fuel (string_drop n s)
      | None => RuneError :: runesUpTo fuel rest
      end
  | _, _ => []
  end.

Definition runes (s : string) : list string := runesUpTo (String.length s) s.

(** string(rs) *)
Fixpoint concatRunes (rs : list string) : string :=
  match rs with [] => EmptyString | r :: rs => r +:+ concatRunes rs end.

(** Well-formed UTF-8. *)
Fixpoint validUpTo (fuel : nat) (s : string) : bool :=
  match fuel, s with
  | _, EmptyString => true
  | S fuel, _ =>
      match runeLength s with
      | Some n => validUpTo fuel (string_drop n s)
      | None => false
      end
  | O, _ => false
  end.
Definition ValidString (s : string) : bool := validUpTo (String.length s) s.

Lemma runeLength_pos s n : runeLength s = Some n → ∃ m, n = S m.
Proof. unfold runeLength. repeat case_match; intros [= <-]; by eexists. Qed.

Lemma string_take_drop n s : string_take n s +:+ string_drop n s = s.
Proof. revert s. induction n as [|n IH]; intros [|c s]; [done..|]. exact (f_equal (String c) (IH s)). Qed.

Lemma string_drop_length n s : (String.length (string_drop n s) <= String.length s - n)%nat.
Proof. revert s. induction n as [|n IH]; intros [|c s]; cbn; [lia..|]. apply IH. Qed.

(** Enough fuel is enough. *)
Lemma concat_runesUpTo fuel s :
  (String.length s <= fuel)%nat → validUpTo fuel s = true → concatRunes (runesUpTo fuel s) = s.
Proof.
  revert s. induction fuel as [|fuel IH]; intros [|c s] Hl Hv; cbn in Hl; [done|lia|done|].
  cbn [runesUpTo validUpTo] in *. destruct (runeLength (String c s)) as [n|] eqn:En; [|done].
  cbn [concatRunes]. rewrite IH; [apply string_take_drop| |done].
  destruct (runeLength_pos _ _ En) as [m ->]. pose proof (string_drop_length m s). cbn. lia.
Qed.

(** Converting well-formed text to runes and back is the identity. *)
Lemma concat_runes s : ValidString s = true → concatRunes (runes s) = s.
Proof. by apply concat_runesUpTo. Qed.
End gotime.
