(* ===== verification/Feed.v ===== *)
(** internal/twitter/search_extract.go and search_scroll.go: how the browser service
    reads the tweets a search page shows, scroll by scroll, and when it stops.

    The page is an argument: what its script returns at each scroll, and when. *)
From S2P Require Import Prelude GoStrings Vision Video GoTime Search.
From Stdlib Require Import SpecFloat.
#[local] Open Scope string_scope.
#[local] Open Scope list_scope.
#[local] Open Scope Z_scope.
Import twittersearch.

Module feed.

(** ** Text (search_extract.go) *)

(** The text after the first occurrence of [sub], and before the first [c]. *)
Fixpoint afterFirst (sub s : string) : option string :=
  if HasPrefix s sub then Some (gotime.string_drop (String.length sub) s)
  else match s with String _ s => afterFirst sub s | EmptyString => None end.

Fixpoint before (c : ascii) (s : string) : string :=
  match s with
  | String d s => if Ascii.eqb c d then EmptyString else String d (before c s)
  | EmptyString => EmptyString
  end.

Definition extractTweetIDFromURL (u : string) : string :=
  match afterFirst "/status/" u with
  | None => "unknown"
  | Some after =>
      let after := before "/" (before "#" (before "?" after)) in
      if (after =? "")%string then "unknown" else after
  end.

Definition TrimPrefix (s pre : string) : string :=
  if HasPrefix s pre then gotime.string_drop (String.length pre) s else s.

(** strings.Split by one byte. *)
Fixpoint split (c : ascii) (s : string) : list string :=
  match s with
  | EmptyString => [EmptyString]
  | String d s =>
      if Ascii.eqb c d then EmptyString :: split c s
      else match split c s with
           | [] => [String d EmptyString]
           | p :: ps => String d p :: ps
           end
  end.

Definition extractUsernameFromURL (u : string) : string :=
  match split "/" (TrimPrefix (TrimPrefix u "https://") "http://") with
  | _ :: name :: _ :: _ => if (name =? "i")%string then "Unknown" else name
  | _ => "Unknown"
  end.

Definition MinSnowflakeLen : Z := 18.

Definition isTruncatedSnowflake (tid : string) : bool :=
  if (tid =? "")%string || (tid =? "unknown")%string then false
  else vision.all_digits tid && (str_len tid <? MinSnowflakeLen).

Definition truncate (s : string) (max : Z) : string :=
  if max <=? 0 then ""
  else
    let rs := gotime.runes s in
    if Z.of_nat (length rs) <=? max then s else gotime.concatRunes (take (Z.to_nat max) rs).

Definition isKnownID (tid : string) : bool :=
  negb (tid =? "")%string && negb (tid =? "unknown")%string.

Definition normalizeExcludeIDs (urls : list string) : gset string :=
  list_to_set (filter (λ tid, isKnownID tid = true) (extractTweetIDFromURL <$> urls)).

(** ** Tweets *)

Record extractedTweet := mkExtractedTweet {
  etTweetURL : string;
  etText : string;
  etDatetime : string;
  etIsPromoted : bool;
  etHasVideo : bool;
  etDurationSeconds : spec_float;
  etAgeMinutes : spec_float }.

#[global] Instance eta_extractedTweet : Eta extractedTweet := λ t,
  mkExtractedTweet t.(etTweetURL) t.(etText) t.(etDatetime) t.(etIsPromoted) t.(etHasVideo)
    t.(etDurationSeconds) t.(etAgeMinutes).

(** A tweet as the script gives it gets its age; [now] is the clock of the reading. *)
Definition withAge (now : Time) (t : extractedTweet) : extractedTweet :=
  if (t.(etDatetime) =? "")%string then t
  else match gotime.ParseRFC3339 t.(etDatetime) with
       | None => t
       | Some published => t <| etAgeMinutes := gotime.Minutes (time_Sub now published) |>
       end.

Definition tweetID (t : extractedTweet) : string := extractTweetIDFromURL t.(etTweetURL).

(** ** The scroll loop (search_scroll.go) *)

Definition stopAge : string := "age".
Definition stopMaxScrolls : string := "max_scrolls".
Definition stopFeedTimeout : string := "feed_timeout".
Definition stopExplicitEmpty : string := "explicit_empty".
Definition stopFeedExhausted : string := "feed_exhausted".
Definition stopConsecutiveSeen : string := "consecutive_seen".

Definition shouldStopAtAge (t : extractedTweet) (maxAgeMinutes : Z) : bool :=
  negb t.(etIsPromoted) && SFltb video.float_0 t.(etAgeMinutes) &&
  SFltb (video.float_of_int maxAgeMinutes) t.(etAgeMinutes).

Definition shouldStopAtTime (t : extractedTweet) (maxAgeMinutes : Z) (window : option SearchWindow)
    : bool :=
  match window with
  | None => shouldStopAtAge t maxAgeMinutes
  | Some w =>
      match gotime.ParseRFC3339 t.(etDatetime) with
      | None => false
      | Some published => negb t.(etIsPromoted) && Before published w.(EarliestTweetAt)
      end
  end.

(** What one scroll finds: the error of the context before it; the tweets of the
    script with the clock at their decoding, or an error; the errors of scrolling on
    and of waiting. *)
Record view := mkView {
  vwContext : option string;
  vwTweets : string + list extractedTweet;
  vwNow : Time;
  vwScrolled : option string;
  vwWaited : option string }.

Definition decodeExtractResult (v : view) : string + list extractedTweet :=
  match v.(vwTweets) with inl err => inl err | inr ts => inr (withAge v.(vwNow) <$> ts) end.

(** The variables of the loop. *)
Record scan := mkScan {
  processed : gset string;
  consecutiveSeen : Z;
  videos : list VideoRef;
  tweetsParsed : Z;
  videoTweets : Z }.

#[global] Instance eta_scan : Eta scan := λ s,
  mkScan s.(processed) s.(consecutiveSeen) s.(videos) s.(tweetsParsed) s.(videoTweets).

Definition startScan : scan := mkScan ∅ 0 [] 0 0.

Definition videoRef (t : extractedTweet) : VideoRef :=
  mkVideoRef t.(etTweetURL) (truncate t.(etText) 200)
    ("https://x.com/i/status/" +:+ tweetID t) t.(etDurationSeconds)
    (extractUsernameFromURL t.(etTweetURL)) t.(etAgeMinutes).

Record scanResult := mkScanResult {
  srVideos : list VideoRef;
  srStopReason : string;
  srScrolls : Z;
  srTweetsParsed : Z;
  srVideoTweets : Z;
  srErr : option string }.

Section scroll.
Context (maxScrolls consecutiveSeenStop : Z) (excludeIDs : gset string) (maxAgeMinutes : Z)
  (window : option SearchWindow).

(** The stop at known videos needs the window's permission. *)
Definition maySeenStop : bool :=
  match window with None => true | Some w => w.(AllowSeenStop) end.

(** One tweet; and the reason to stop, if it is one. *)
Definition visitTweet (s : scan) (t : extractedTweet) : scan * option string :=
  let tid := tweetID t in
  if negb (isKnownID tid) then (s, None)
  else if bool_decide (tid ∈ s.(processed)) then (s, None)
  else
    let s := s <| processed ::= union {[tid]} |> <| tweetsParsed ::= Z.add 1 |>
      <| videoTweets ::= λ n, if t.(etHasVideo) then n + 1 else n |> in
    if t.(etIsPromoted) then (s, None)
    else if shouldStopAtTime t maxAgeMinutes window then (s, Some stopAge)
    else if negb t.(etHasVideo) then (s, None)
    else if isTruncatedSnowflake tid then (s, None)
    else if bool_decide (tid ∈ excludeIDs) then
      let s := s <| consecutiveSeen ::= Z.add 1 |> in
      if (consecutiveSeenStop <=? s.(consecutiveSeen)) && maySeenStop
      then (s, Some stopConsecutiveSeen) else (s, None)
    else (s <| consecutiveSeen := 0 |> <| videos ::= λ l, l ++ [videoRef t] |>, None).

Fixpoint visitAll (s : scan) (ts : list extractedTweet) : scan * option string :=
  match ts with
  | [] => (s, None)
  | t :: ts =>
      match visitTweet s t with
      | (s, Some stop) => (s, Some stop)
      | (s, None) => visitAll s ts
      end
  end.

Definition finish (s : scan) (stop : string) (scrolls : Z) (err : option string) : scanResult :=
  mkScanResult s.(videos) stop scrolls s.(tweetsParsed) s.(videoTweets) err.

(** [n] scrolls are left, [i] are done. *)
Fixpoint scrollFrom (views : nat → view) (n i : nat) (s : scan) : scanResult :=
  match n with
  | O => finish s stopMaxScrolls maxScrolls None
  | S n =>
      let v := views i in
      let failed s err := finish s "" (Z.of_nat i) (Some err) in
      match v.(vwContext) with
      | Some err => failed s err
      | None =>
          match decodeExtractResult v with
          | inl err => failed s err
          | inr ts =>
              match visitAll s ts with
              | (s, Some stop) => finish s stop (Z.of_nat i) None
              | (s, None) =>
                  if is_nil (head ts) && (1 <=? i)%nat
                  then finish s stopFeedExhausted (Z.of_nat i) None
                  else
                    match v.(vwScrolled), v.(vwWaited) with
                    | Some err, _ => failed s err
                    | None, Some err => failed s err
                    | None, None => scrollFrom views n (S i) s
                    end
              end
          end
      end
  end.

Definition scrollAndExtract (views : nat → view) : scanResult :=
  scrollFrom views (Z.to_nat maxScrolls) 0 startScan.

(** ** What a scan reads *)

(** The tweets with an id that were not seen before, each once. *)
Fixpoint distinct (seen : gset string) (ts : list extractedTweet) : list extractedTweet :=
  match ts with
  | [] => []
  | t :: ts =>
      if isKnownID (tweetID t) && negb (bool_decide (tweetID t ∈ seen))
      then t :: distinct ({[tweetID t]} ∪ seen) ts else distinct seen ts
  end.

Definition tweetsAt (views : nat → view) (i : nat) : list extractedTweet :=
  match decodeExtractResult (views i) with inl _ => [] | inr ts => ts end.

(** What the first [k] scrolls show. *)
Definition feedUpTo (views : nat → view) (k : nat) : list extractedTweet :=
  distinct ∅ (seq 0 k ≫= tweetsAt views).

(** An organic tweet with a video that can be downloaded. *)
Definition playable (t : extractedTweet) : bool :=
  negb t.(etIsPromoted) && t.(etHasVideo) && negb (isTruncatedSnowflake (tweetID t)).

Definition isExcluded (t : extractedTweet) : bool := bool_decide (tweetID t ∈ excludeIDs).

Definition wanted (t : extractedTweet) : bool := playable t && negb (isExcluded t).

Definition pastFloor (t : extractedTweet) : bool :=
  negb t.(etIsPromoted) && shouldStopAtTime t maxAgeMinutes window.

(** The excluded videos in a row at the end of what was read. *)
Definition seenRun (read : list extractedTweet) : Z :=
  foldl (λ n t, if playable t then (if isExcluded t then 1 + n else 0) else n) 0 read.

(** Whether the scan stops at [t] after [read]. *)
Definition stopFor (read : list extractedTweet) (t : extractedTweet) : option string :=
  if pastFloor t then Some stopAge
  else if playable t && isExcluded t && (consecutiveSeenStop <=? seenRun (read ++ [t])) && maySeenStop
  then Some stopConsecutiveSeen else None.

(** Nothing in [read] stops it. *)
Definition passes (read : list extractedTweet) : Prop :=
  ∀ pre t post, read = pre ++ t :: post → stopFor pre t = None.

Definition shown (read : list extractedTweet) : list VideoRef :=
  videoRef <$> filter (λ t, wanted t = true) read.

Definition ids (read : list extractedTweet) : gset string := list_to_set (tweetID <$> read).

Record described (s : scan) (read : list extractedTweet) : Prop := {
  described_ids : s.(processed) = ids read;
  described_run : s.(consecutiveSeen) = seenRun read;
  described_videos : s.(videos) = shown read;
  described_parsed : s.(tweetsParsed) = Z.of_nat (length read);
  described_count : s.(videoTweets) =
    Z.of_nat (length (filter (λ t, t.(etHasVideo) = true) read)) }.

Lemma passes_nil : passes [].
Proof. intros [|? ?] ? ? ?; done. Qed.

Lemma passes_snoc read t : passes (read ++ [t]) ↔ passes read ∧ stopFor read t = None.
Proof.
  split.
  - intros H. split; [|by eapply H].
    intros pre u post ->. apply (H pre u (post ++ [t])). by rewrite <-app_assoc.
  - intros [H Ht] pre u post Heq. destruct post as [|v post _] using rev_ind.
    + apply app_inj_tail in Heq as [<- <-]. done.
    + rewrite app_comm_cons, app_assoc in Heq. apply app_inj_tail in Heq as [-> _]. by eapply H.
Qed.

Lemma passes_app read more : passes (read ++ more) → passes read.
Proof.
  intros H pre t post ->. apply (H pre t (post ++ more)). by rewrite <-app_assoc.
Qed.

Lemma seenRun_snoc read t : seenRun (read ++ [t]) =
  if playable t then (if isExcluded t then 1 + seenRun read else 0) else seenRun read.
Proof. unfold seenRun. by rewrite foldl_app. Qed.

Lemma ids_snoc read t : ids (read ++ [t]) = {[tweetID t]} ∪ ids read.
Proof. unfold ids. rewrite fmap_app, list_to_set_app_L. cbn. set_solver. Qed.

Lemma shown_snoc read t : shown (read ++ [t]) = shown read ++ (if wanted t then [videoRef t] else []).
Proof.
  unfold shown. rewrite filter_app, fmap_app. f_equal. cbn.
  destruct (wanted t) eqn:E; rewrite ?E; case_decide; done.
Qed.

Lemma distinct_app seen ts us :
  distinct seen (ts ++ us) = distinct seen ts ++ distinct (ids (distinct seen ts) ∪ seen) us.
Proof.
  revert seen. induction ts as [|t ts IH]; intros seen; cbn [distinct app].
  { f_equal. unfold ids. cbn. set_solver. }
  destruct (_ && _); [|apply IH]. rewrite IH. cbn [app]. do 2 f_equal. f_equal.
  unfold ids. cbn. set_solver.
Qed.

(** What a scan that stopped at the tweet after [read] holds. *)
Record stopped (s : scan) (read : list extractedTweet) : Prop := {
  stopped_videos : s.(videos) = shown read;
  stopped_parsed : s.(tweetsParsed) = 1 + Z.of_nat (length read) }.

(** A tweet that is new is a step of the reading. *)
Lemma visitTweet_new s read t :
  described s read → isKnownID (tweetID t) = true → tweetID t ∉ ids read →
  let '(s', stop) := visitTweet s t in
  stop = stopFor read t ∧
  if stop is Some _ then stopped s' read else described s' (read ++ [t]).
Proof.
  intros [Hi Hr Hv Hp Hc] Hk Hn. unfold visitTweet. rewrite Hk. cbn [negb].
  rewrite bool_decide_eq_false_2 by (by rewrite Hi).
  assert (∀ b : bool, Z.of_nat (length (filter (λ t, etHasVideo t = true) read)) + (if b then 1 else 0) =
    (if b then videoTweets s + 1 else videoTweets s)) as Hcount by (intros []; lia).
  assert (Z.of_nat (length (filter (λ t, etHasVideo t = true) (read ++ [t]))) =
    if etHasVideo t then videoTweets s + 1 else videoTweets s) as Hvid.
  { rewrite <-Hcount, filter_app, length_app. cbn. destruct (etHasVideo t); case_decide; cbn; lia. }
  assert (Z.of_nat (length (read ++ [t])) = 1 + tweetsParsed s) as Hlen
    by (rewrite length_app; cbn; lia).
  assert (∀ s', processed s' = {[tweetID t]} ∪ processed s → consecutiveSeen s' = seenRun (read ++ [t]) →
    videos s' = shown (read ++ [t]) → tweetsParsed s' = 1 + tweetsParsed s →
    videoTweets s' = (if etHasVideo t then videoTweets s + 1 else videoTweets s) →
    described s' (read ++ [t])) as Hd.
  { intros s' H1 H2 H3 H4 H5. split; [by rewrite ids_snoc, H1, Hi|done..|by rewrite H4, Hlen|by rewrite H5, Hvid]. }
  unfold stopFor, pastFloor, wanted, playable in *. rewrite seenRun_snoc.
  rewrite seenRun_snoc, shown_snoc in Hd. unfold wanted, playable, isExcluded in *.
  destruct (etIsPromoted t) eqn:Ep; cbn [negb andb] in *.
  { split; [done|]. apply Hd; cbn; rewrite ?app_nil_r; done. }
  destruct (shouldStopAtTime t maxAgeMinutes window); cbn [andb].
  { split; [done|]. split; cbn; [done|]. by rewrite Hp. }
  destruct (etHasVideo t) eqn:Eh; cbn [negb andb] in *.
  2:{ split; [done|]. apply Hd; cbn; rewrite ?app_nil_r; done. }
  destruct (isTruncatedSnowflake (tweetID t)); cbn [negb andb] in *.
  { split; [done|]. apply Hd; cbn; rewrite ?app_nil_r; done. }
  case_bool_decide as He; cbn [negb andb] in *.
  - cbn. rewrite Hr. destruct (_ && _).
    + split; [done|]. split; cbn; [done|]. by rewrite Hp.
    + split; [done|]. apply Hd; cbn; rewrite ?app_nil_r; done.
  - split; [done|]. apply Hd; cbn; try done. by rewrite Hv.
Qed.

Lemma visitTweet_old s read t :
  described s read → isKnownID (tweetID t) && negb (bool_decide (tweetID t ∈ ids read)) = false →
  visitTweet s t = (s, None).
Proof.
  intros [Hi _ _ _ _] H. unfold visitTweet. destruct (isKnownID _); [|done]. cbn in *.
  rewrite Hi. apply negb_false_iff in H. by rewrite H.
Qed.

(** A page is a step of the reading: it reads what is new on it, or stops within. *)
Lemma visitAll_reads ts : ∀ s read,
  described s read → passes read →
  match visitAll s ts with
  | (s', None) => let read' := read ++ distinct (ids read) ts in described s' read' ∧ passes read'
  | (s', Some stop) => ∃ more t post, distinct (ids read) ts = more ++ t :: post ∧
      stopped s' (read ++ more) ∧ passes (read ++ more) ∧ stopFor (read ++ more) t = Some stop
  end.
Proof.
  induction ts as [|t ts IH]; intros s read Hs Hp; cbn [visitAll distinct].
  { by rewrite app_nil_r. }
  destruct (isKnownID (tweetID t) && negb (bool_decide (tweetID t ∈ ids read))) eqn:E.
  - apply andb_true_iff in E as [Hk Hn]. apply negb_true_iff, bool_decide_eq_false in Hn.
    pose proof (visitTweet_new s read t Hs Hk Hn) as Hv. destruct (visitTweet s t) as [s1 [stop|]].
    + destruct Hv as [Hstop Hst]. exists [], t, (distinct ({[tweetID t]} ∪ ids read) ts).
      rewrite app_nil_r. done.
    + destruct Hv as [Hstop Hst]. specialize (IH s1 (read ++ [t]) Hst).
      rewrite ids_snoc in IH. destruct (visitAll s1 ts) as [s2 [stop|]].
      * destruct IH as (more & u & post & Hd & Hrest); [by apply passes_snoc|].
        exists (t :: more), u, post. rewrite Hd. split; [done|]. by rewrite cons_middle, app_assoc.
      * rewrite cons_middle, app_assoc. apply IH. by apply passes_snoc.
  - rewrite (visitTweet_old s read t Hs E). by apply IH.
Qed.

Lemma feedUpTo_S views k :
  feedUpTo views (S k) = feedUpTo views k ++ distinct (ids (feedUpTo views k)) (tweetsAt views k).
Proof.
  unfold feedUpTo. rewrite seq_S, bind_app, distinct_app. cbn. rewrite app_nil_r. do 2 f_equal. set_solver.
Qed.

Lemma feedUpTo_prefix views k m : (k <= m)%nat → feedUpTo views k `prefix_of` feedUpTo views m.
Proof.
  induction 1 as [|m _ IH]; [done|]. rewrite feedUpTo_S. by apply prefix_app_r.
Qed.

(** What the result of a scan says of the feed: [read] is what it read. *)
Definition reads (views : nat → view) (read : list extractedTweet) (r : scanResult) : Prop :=
  passes read ∧ r.(srVideos) = shown read ∧ r.(srScrolls) ≤ maxScrolls ∧
  ((∃ t post, feedUpTo views (S (Z.to_nat r.(srScrolls))) = read ++ t :: post ∧
      stopFor read t = Some r.(srStopReason) ∧ r.(srTweetsParsed) = 1 + Z.of_nat (length read)) ∨
   (feedUpTo views (Z.to_nat r.(srScrolls)) = read ∧ r.(srTweetsParsed) = Z.of_nat (length read) ∧
      ((r.(srStopReason) = stopMaxScrolls ∧ r.(srScrolls) = maxScrolls) ∨
       (r.(srStopReason) = stopFeedExhausted ∧ 1 ≤ r.(srScrolls) ∧
          tweetsAt views (Z.to_nat r.(srScrolls)) = [])))).

Lemma scrollFrom_reads views n : ∀ i s,
  (n + i)%nat = Z.to_nat maxScrolls → described s (feedUpTo views i) → passes (feedUpTo views i) →
  let r := scrollFrom views n i s in r.(srErr) = None → ∃ read, reads views read r.
Proof.
  induction n as [|n IH]; intros i s Hn Hs Hp; cbn [scrollFrom].
  { intros _. exists (feedUpTo views i). split; [done|]. split; [apply Hs|]. split; [done|]. right.
    cbn. replace (Z.to_nat maxScrolls) with i by lia. split; [done|]. split; [apply Hs|]. by left. }
  destruct (vwContext (views i)); [done|].
  pose proof (visitAll_reads (tweetsAt views i) s _ Hs Hp) as Hv.
  rewrite <-feedUpTo_S in Hv. unfold tweetsAt in Hv at 1.
  destruct (decodeExtractResult (views i)) as [err|ts] eqn:Hts; [done|].
  assert (tweetsAt views i = ts) as Ht by (unfold tweetsAt; by rewrite Hts).
  destruct (visitAll s ts) as [s' [stop|]].
  - destruct Hv as (more & t & post & Hd & Hst & Hpm & Hstop). cbn. intros _.
    exists (feedUpTo views i ++ more). rewrite Ht in Hd. split; [done|]. split; [apply Hst|]. cbn [finish srScrolls srStopReason srTweetsParsed].
    split; [lia|]. left. exists t, post. rewrite Nat2Z.id, feedUpTo_S, Ht, Hd, <-app_assoc.
    split; [done|]. split; [done|]. apply Hst.
  - destruct Hv as [Hd Hpm]. destruct (is_nil (head ts) && (1 <=? i)%nat) eqn:He.
    + apply andb_true_iff in He as [He Hi]. destruct ts; [|done]. cbn. intros _.
      exists (feedUpTo views i).
      assert (feedUpTo views (S i) = feedUpTo views i) as Hsame
        by (by rewrite feedUpTo_S, Ht, app_nil_r).
      rewrite Hsame in Hd. split; [done|]. split; [apply Hd|]. cbn. split; [lia|]. right.
      rewrite Nat2Z.id. split; [done|]. split; [apply Hd|]. right. split; [done|].
      apply Nat.leb_le in Hi. split; [lia|done].
    + destruct (vwScrolled (views i)); [done|]. destruct (vwWaited (views i)); [done|].
      apply IH; [lia|done..].
Qed.

Lemma described_start : described startScan [].
Proof. done. Qed.

Lemma scan_reads views :
  (scrollAndExtract views).(srErr) = None → ∃ read, reads views read (scrollAndExtract views).
Proof. apply scrollFrom_reads; [lia|apply described_start|apply passes_nil]. Qed.

(** C23: A scan that does not fail reads the feed - the tweets of the scrolls, each once, at
    its first appearance - from the top to the first tweet that stops it, or to the
    end of its scrolls or of the page, and returns exactly the organic videos with a
    usable id that were not excluded, in that order.  It stops only at an organic
    tweet below the floor, or, where that is allowed, at the last of so many excluded
    videos in a row; it scrolls no further than it may, and counts what it read. *)
Theorem scan_reads_feed views :
  let r := scrollAndExtract views in
  r.(srErr) = None → ∃ read, reads views read r.
Proof. apply scan_reads. Qed.

(** ** The feed as a set of clips *)

Lemma distinct_ids seen ts :
  NoDup (tweetID <$> distinct seen ts) ∧ ∀ t, t ∈ distinct seen ts → tweetID t ∉ seen.
Proof.
  revert seen. induction ts as [|t ts IH]; intros seen; cbn [distinct]; [by split; [constructor|set_solver]|].
  destruct (_ && _) eqn:E; [|apply IH].
  apply andb_true_iff in E as [_ Hn%negb_true_iff%bool_decide_eq_false].
  destruct (IH ({[tweetID t]} ∪ seen)) as [Hd Ho]. split.
  - cbn. constructor; [|done]. intros (u & Heq & Hu)%list_elem_of_fmap. apply Ho in Hu. set_solver.
  - intros u [->|Hu%Ho]%elem_of_cons; [done|set_solver].
Qed.

Lemma feed_ids views k t u :
  t ∈ feedUpTo views k → u ∈ feedUpTo views k → tweetID t = tweetID u → t = u.
Proof.
  intros [i Ht]%list_elem_of_lookup [j Hu]%list_elem_of_lookup Heq.
  pose proof (proj1 (distinct_ids ∅ (seq 0 k ≫= tweetsAt views))) as Hnd.
  assert (i = j) as ->; [|congruence].
  eapply (NoDup_lookup (tweetID <$> feedUpTo views k));
    [exact Hnd|by rewrite list_lookup_fmap, Ht|by rewrite list_lookup_fmap, Hu, Heq].
Qed.

Lemma videoRef_id t u : videoRef t = videoRef u → tweetID t = tweetID u.
Proof.
  unfold videoRef. intros H. injection H as _ _ H _ _ _.
  exact H.
Qed.

(** A search page in the order "latest": the organic tweets of the feed, newest first. *)
Definition newestFirst (views : nat → view) : Prop :=
  ∀ k, StronglySorted (λ t u, ∀ p q, gotime.ParseRFC3339 t.(etDatetime) = Some p →
      gotime.ParseRFC3339 u.(etDatetime) = Some q → q ≤ p)
    (filter (λ t, t.(etIsPromoted) = false) (feedUpTo views k)).

Lemma sorted_split {A} (R : A → A → Prop) (P : A → Prop) `{∀ x, Decision (P x)} l1 x l2 y :
  StronglySorted R (filter P (l1 ++ x :: l2)) → P x → P y → y ∈ l2 → R x y.
Proof.
  rewrite filter_app. intros Hs%StronglySorted_app_1_r Hx Hy Hin.
  rewrite filter_cons_True in Hs by done. apply StronglySorted_inv in Hs as [_ Hs].
  rewrite Forall_forall in Hs. apply Hs. by apply list_elem_of_filter.
Qed.

Lemma stop_age_below w read t :
  window = Some w → stopFor read t = Some stopAge →
  t.(etIsPromoted) = false ∧ ∃ p, gotime.ParseRFC3339 t.(etDatetime) = Some p ∧ p < w.(EarliestTweetAt).
Proof.
  intros Hw. unfold stopFor, pastFloor, shouldStopAtTime. rewrite Hw.
  destruct (etIsPromoted t); cbn [negb andb]; [by destruct (_ && _)|]. intros H. split; [done|].
  destruct (gotime.ParseRFC3339 _) as [p|]; [|by destruct (_ && _)].
  exists p. split; [done|]. destruct (Before p _) eqn:E; [by apply Z.ltb_lt|by destruct (_ && _)].
Qed.

Lemma passed_above w read t q :
  window = Some w → stopFor read t = None → t.(etIsPromoted) = false →
  gotime.ParseRFC3339 t.(etDatetime) = Some q → w.(EarliestTweetAt) ≤ q.
Proof.
  intros Hw Hs Ho Hq. unfold stopFor, pastFloor, shouldStopAtTime in Hs. rewrite Hw, Hq, Ho in Hs.
  cbn [negb andb] in Hs. destruct (Before q _) eqn:E; [done|]. by apply Z.ltb_ge in E.
Qed.

Lemma wanted_organic t : wanted t = true → t.(etIsPromoted) = false.
Proof. unfold wanted, playable. by destruct (etIsPromoted t). Qed.

Lemma shown_elem read u :
  videoRef u ∈ shown read → ∃ v, v ∈ read ∧ wanted v = true ∧ tweetID u = tweetID v.
Proof.
  intros (v & Hv & [Hw Hin]%list_elem_of_filter)%list_elem_of_fmap. exists v.
  split; [done|]. split; [done|]. by apply videoRef_id.
Qed.

(** Stopping at the floor is complete: on a page that shows the newest first, a scan
    with a fixed window that ended there returned, of all the tweets that any number
    of scrolls would show - organic, with a video that can be downloaded, not
    excluded and with a time that can be read - exactly those not older than the
    floor. *)
Theorem scan_covers_window w views :
  window = Some w → newestFirst views →
  let r := scrollAndExtract views in r.(srErr) = None → r.(srStopReason) = stopAge →
  ∀ k u q, u ∈ feedUpTo views k → wanted u = true →
    gotime.ParseRFC3339 u.(etDatetime) = Some q →
    (videoRef u ∈ r.(srVideos) ↔ w.(EarliestTweetAt) ≤ q).
Proof.
  intros Hw Hnew r Herr Hage k u q Hu Hwant Hq.
  destruct (scan_reads views Herr) as (read & Hp & Hv & _ & Hr). fold r in Hv, Hr. rewrite Hv.
  destruct Hr as [(t & post & Hfeed & Hstop & _)|(_ & _ & [[Hs _]|[Hs _]])];
    [|by rewrite Hs in Hage..].
  rewrite Hage in Hstop. destruct (stop_age_below w read t Hw Hstop) as (Ht & p & Htime & Hlow).
  set (m := (k `max` S (Z.to_nat (srScrolls r)))%nat).
  assert (∃ post, feedUpTo views m = read ++ t :: post) as [post' Hm].
  { destruct (feedUpTo_prefix views (S (Z.to_nat (srScrolls r))) m) as [more Hmore]; [lia|].
    exists (post ++ more). rewrite Hmore, Hfeed. by rewrite <-app_assoc. }
  assert (u ∈ feedUpTo views m) as Hum.
  { destruct (feedUpTo_prefix views k m) as [more ->]; [lia|]. apply elem_of_app. by left. }
  split.
  - intros (v & Hin & Hwv & Hid)%shown_elem.
    assert (u = v) as <-.
    { eapply (feed_ids views m); [done| |done]. rewrite Hm. apply elem_of_app. by left. }
    apply list_elem_of_split in Hin as (pre & rest & ->).
    eapply (passed_above w pre u q Hw); [by eapply Hp|by apply wanted_organic|done].
  - intros Hfloor. rewrite Hm in Hum. apply elem_of_app in Hum as [Hin|[->|Hin]%elem_of_cons].
    + apply list_elem_of_fmap. exists u. split; [done|]. by apply list_elem_of_filter.
    + rewrite Htime in Hq. injection Hq as <-. lia.
    + specialize (Hnew m). rewrite Hm in Hnew.
      pose proof (sorted_split _ (λ t, t.(etIsPromoted) = false) _ _ _ _ Hnew Ht
        (wanted_organic _ Hwant) Hin p q Htime Hq). lia.
Qed.
End scroll.
End feed.
