(* ===== verification/Timeline.v ===== *)
(** internal/twitter/search_accounting.go and search_evidence.go: what the browser
    service observes of the requests of a search page, as a state machine over the
    events of the browser, and how it classifies a page without tweets.

    The address and the texts of a page are inputs; [withoutQuery] is the address of
    a page without its query and its fragment. *)
From S2P Require Import Prelude GoStrings GoTime Search.
#[local] Open Scope string_scope.
#[local] Open Scope list_scope.
#[local] Open Scope Z_scope.
Import twittersearch.

Module timeline.

#[global] Instance eta_TimelineRequestRecord : Eta TimelineRequestRecord := λ r,
  mkTimelineRequestRecord r.(trSequence) r.(trStartedMS) r.(trResponseMS) r.(trEndedMS) r.(trStatus)
    r.(trFailed) r.(trRateLimitLimit) r.(trRateLimitRemain) r.(trRateLimitReset).

#[global] Instance eta_TimelineAccounting : Eta TimelineAccounting := λ a,
  mkTimelineAccounting a.(taScanID) a.(taStartedAt) a.(taObservedAt) a.(taRequests) a.(taResponses)
    a.(taFinished) a.(taFailed) a.(taRateLimited) a.(taServerErrors) a.(taDroppedRecords)
    a.(taUnmatchedEvents) a.(taRecords).

(** ** Accounting (search_accounting.go) *)

(** A request of the browser, by identity. *)
Abbreviation Request := positive (only parsing).

Record timelineAccountingCollector := mkCollector {
  started : Time;
  totals : TimelineAccounting;
  indices : gmap Request nat }.

#[global] Instance eta_timelineAccountingCollector : Eta timelineAccountingCollector := λ c,
  mkCollector c.(started) c.(totals) c.(indices).

Definition newTimelineAccounting (scanID : string) (now : Time) : timelineAccountingCollector :=
  mkCollector now (mkTimelineAccounting scanID (UTC now) zero_time 0 0 0 0 0 0 0 0 []) ∅.

(** The values of the three headers a response may carry; "" when it does not. *)
Record quotaHeaders := mkQuotaHeaders { qhLimit : string; qhRemaining : string; qhReset : string }.

Definition quotaInteger (raw : string) : option Z :=
  match Atoi (TrimSpace raw) with
  | Some value => if value <? 0 then None else Some value
  | None => None
  end.

Definition Milliseconds (d : Duration) : Z := Z.quot d 1000000.

Definition sinceStart (c : timelineAccountingCollector) (now : Time) : Z :=
  Milliseconds (time_Sub now c.(started)).

Definition request (now : Time) (r : Request) (c : timelineAccountingCollector)
    : timelineAccountingCollector :=
  if not_nil (c.(indices) !! r) then c
  else
    let t := c.(totals) <| taRequests ::= Z.add 1 |> in
    if MaxTimelineRecords <=? Z.of_nat (length t.(taRecords))
    then c <| totals := t <| taDroppedRecords ::= Z.add 1 |> |>
    else c <| indices ::= insert r (length t.(taRecords)) |>
           <| totals := t <| taRecords ::= λ l, l ++ [mkTimelineRequestRecord t.(taRequests)
                (sinceStart c now) None None 0 false None None None] |> |>.

(** The record of a request that was observed. *)
Definition recordOf (r : Request) (c : timelineAccountingCollector)
    : option (nat * TimelineRequestRecord) :=
  i ← c.(indices) !! r; rec ← c.(totals).(taRecords) !! i; Some (i, rec).

Definition countResponse (status : Z) (t : TimelineAccounting) : TimelineAccounting :=
  t <| taResponses ::= Z.add 1 |>
    <| taRateLimited ::= λ n, if status =? 429 then n + 1 else n |>
    <| taServerErrors ::= λ n, if (500 <=? status) && (status <=? 599) then n + 1 else n |>.

Definition response (now : Time) (r : Request) (status : Z) (headers : quotaHeaders)
    (c : timelineAccountingCollector) : timelineAccountingCollector :=
  match recordOf r c with
  | None => c <| totals ::= λ t, (countResponse status t) <| taUnmatchedEvents ::= Z.add 1 |> |>
  | Some (i, rec) =>
      if not_nil rec.(trResponseMS) then c
      else c <| totals ::= λ t, (countResponse status t) <| taRecords ::= <[i :=
             rec <| trResponseMS := Some (sinceStart c now) |> <| trStatus := status |>
                 <| trRateLimitLimit := quotaInteger headers.(qhLimit) |>
                 <| trRateLimitRemain := quotaInteger headers.(qhRemaining) |>
                 <| trRateLimitReset := quotaInteger headers.(qhReset) |>]> |> |>
  end.

Definition countEnd (failed : bool) (t : TimelineAccounting) : TimelineAccounting :=
  if failed then t <| taFailed ::= Z.add 1 |> else t <| taFinished ::= Z.add 1 |>.

Definition end_ (now : Time) (r : Request) (failed : bool) (c : timelineAccountingCollector)
    : timelineAccountingCollector :=
  match recordOf r c with
  | None => c <| totals ::= λ t, (countEnd failed t) <| taUnmatchedEvents ::= Z.add 1 |> |>
  | Some (i, rec) =>
      if not_nil rec.(trEndedMS) then c
      else c <| totals ::= λ t, (countEnd failed t) <| taRecords ::= <[i :=
             rec <| trEndedMS := Some (sinceStart c now) |> <| trFailed := failed |>]> |> |>
  end.

Definition snapshot (now : Time) (c : timelineAccountingCollector) : TimelineAccounting :=
  c.(totals) <| taObservedAt := UTC now |>.

(** ** Evidence (search_evidence.go) *)

Definition maxEvidenceURLLength : Z := 512.
Definition maxEvidenceTitleLength : Z := 160.
Definition maxEvidenceFailureLength : Z := 160.

Definition boundedEvidence (value : string) (maximum : Z) : string :=
  let value := TrimSpace value in
  if str_len value <=? maximum then value else gotime.string_take (Z.to_nat maximum) value.

Definition isSearchTimelineURL (raw : string) : bool :=
  let lower := ToLower raw in
  Contains lower "searchtimeline" || Contains lower "/search/adaptive.json".

Record searchEvidenceCollector := mkEvidenceCollector {
  evidence : SearchEvidence;
  accounting : timelineAccountingCollector }.

(** What the browser reports of a page, with the address of the request. *)
Inductive pageEvent :=
  | OnRequest (url : string) (r : Request)
  | OnResponse (url : string) (r : Request) (status : Z) (headers : quotaHeaders)
  | OnRequestFinished (url : string) (r : Request)
  | OnRequestFailed (url : string) (r : Request) (failure : option string).

Definition urlOf (e : pageEvent) : string :=
  match e with
  | OnRequest url _ | OnResponse url _ _ _ | OnRequestFinished url _ | OnRequestFailed url _ _ => url
  end.

Definition account (now : Time) (e : pageEvent) (c : timelineAccountingCollector)
    : timelineAccountingCollector :=
  match e with
  | OnRequest _ r => request now r c
  | OnResponse _ r status headers => response now r status headers c
  | OnRequestFinished _ r => end_ now r false c
  | OnRequestFailed _ r _ => end_ now r true c
  end.

Definition note (e : pageEvent) (ev : SearchEvidence) : SearchEvidence :=
  match e with
  | OnResponse _ _ status headers =>
      ev <| seTimelineSeen := true |> <| seTimelineStatus := status |> <| seTimelineFailure := "" |>
         <| seRateLimitLimit := boundedEvidence headers.(qhLimit) maxEvidenceFailureLength |>
         <| seRateLimitRemain := boundedEvidence headers.(qhRemaining) maxEvidenceFailureLength |>
         <| seRateLimitReset := boundedEvidence headers.(qhReset) maxEvidenceFailureLength |>
  | OnRequestFailed _ _ failure =>
      ev <| seTimelineSeen := true |>
         <| seTimelineFailure := boundedEvidence (default "request_failed" failure) maxEvidenceFailureLength |>
  | _ => ev
  end.

Definition observe (now : Time) (e : pageEvent) (c : searchEvidenceCollector)
    : searchEvidenceCollector :=
  if isSearchTimelineURL (urlOf e)
  then mkEvidenceCollector (note e c.(evidence)) (account now e c.(accounting)) else c.

Definition newEvidence (scanID : string) (now : Time) : searchEvidenceCollector :=
  mkEvidenceCollector noSearchEvidence (newTimelineAccounting scanID now).

Definition networkSnapshot (now : Time) (c : searchEvidenceCollector) : SearchEvidence :=
  c.(evidence) <| seTimeline := Some (snapshot now c.(accounting)) |>.

(** What the page itself shows when it is read; [None] when it cannot be. *)
Record pageState := mkPageState {
  psURL : string;
  psTitle : option string;
  psAppShell : bool;
  psEmptyState : bool;
  psErrorState : bool;
  psBody : option string }.

Definition bodyFailed (body : string) : bool :=
  let body := ToLower body in
  Contains body "something went wrong" || Contains body "try reloading" ||
  Contains body "rate limit exceeded".

Definition pageSnapshot (withoutQuery : string → string) (now : Time) (p : pageState)
    (c : searchEvidenceCollector) : SearchEvidence :=
  (networkSnapshot now c)
    <| seFinalURL := boundedEvidence (withoutQuery p.(psURL)) maxEvidenceURLLength |>
    <| sePageTitle := match p.(psTitle) with
         | Some title => boundedEvidence title maxEvidenceTitleLength | None => "" end |>
    <| seAppShell := p.(psAppShell) |> <| seEmptyState := p.(psEmptyState) |>
    <| seErrorState := p.(psErrorState) ||
         match p.(psBody) with Some body => bodyFailed body | None => false end |>.

Definition classifyMissingFeed (e : SearchEvidence) : ResultState :=
  if e.(seErrorState) || negb (e.(seTimelineFailure) =? "")%string ||
     ((400 <=? e.(seTimelineStatus)) && (e.(seTimelineStatus) <=? 499)) ||
     ((500 <=? e.(seTimelineStatus)) && (e.(seTimelineStatus) <=? 599))
  then ResultUpstreamError
  else if e.(seEmptyState) then ResultExplicitEmpty
  else ResultUnknownTimeout.

(** ** The counts of a scan *)

Definition responded (rec : TimelineRequestRecord) : bool := not_nil rec.(trResponseMS).
Definition ended (rec : TimelineRequestRecord) : bool := not_nil rec.(trEndedMS).

Definition howMany {A} (P : A → bool) (l : list A) : Z := Z.of_nat (length (filter (λ a, P a = true) l)).

(** Every record stands for one request, in the order they were sent; nothing is
    recorded of a response or an end that was not observed. *)
Record wellRecorded (i : nat) (rec : TimelineRequestRecord) : Prop := {
  recorded_sequence : rec.(trSequence) = Z.of_nat i + 1;
  recorded_response : rec.(trResponseMS) = None → rec.(trStatus) = 0 ∧
    rec.(trRateLimitLimit) = None ∧ rec.(trRateLimitRemain) = None ∧ rec.(trRateLimitReset) = None;
  recorded_end : rec.(trEndedMS) = None → rec.(trFailed) = false }.

(** The totals agree with the records: no request is missing from them but those
    that were dropped at the bound, and no event but the unmatched ones. *)
Record addsUp (t : TimelineAccounting) : Prop := {
  adds_bound : Z.of_nat (length t.(taRecords)) ≤ MaxTimelineRecords;
  adds_requests : t.(taRequests) = Z.of_nat (length t.(taRecords)) + t.(taDroppedRecords);
  adds_dropped : 0 ≤ t.(taDroppedRecords) ∧
    (t.(taDroppedRecords) ≠ 0 → Z.of_nat (length t.(taRecords)) = MaxTimelineRecords);
  adds_records : ∀ i rec, t.(taRecords) !! i = Some rec → wellRecorded i rec;
  adds_events : t.(taResponses) + t.(taFinished) + t.(taFailed) =
    howMany responded t.(taRecords) + howMany ended t.(taRecords) + t.(taUnmatchedEvents);
  adds_classes : 0 ≤ t.(taRateLimited) ∧ 0 ≤ t.(taServerErrors) ∧
    t.(taRateLimited) + t.(taServerErrors) ≤ t.(taResponses) }.

(** ** What the events say *)

Definition requestOf (e : pageEvent) : Request :=
  match e with
  | OnRequest _ r | OnResponse _ r _ _ | OnRequestFinished _ r | OnRequestFailed _ r _ => r
  end.

Definition sends (e : pageEvent) : bool := match e with OnRequest _ _ => true | _ => false end.
Definition answers (e : pageEvent) : bool := match e with OnResponse _ _ _ _ => true | _ => false end.
Definition statusOf (e : pageEvent) : Z := match e with OnResponse _ _ status _ => status | _ => 0 end.
Definition finishes (e : pageEvent) : bool := match e with OnRequestFinished _ _ => true | _ => false end.
Definition fails (e : pageEvent) : bool := match e with OnRequestFailed _ _ _ => true | _ => false end.

Definition limited (status : Z) : bool := status =? 429.
Definition serverError (status : Z) : bool := (500 <=? status) && (status <=? 599).

Abbreviation Events := (list (Time * pageEvent)) (only parsing).

(** The events of the requests of the search timeline. *)
Definition timelineOf (es : Events) : Events := filter (λ e, isSearchTimelineURL (urlOf e.2) = true) es.

Definition sent (es : Events) : list Request :=
  omap (λ e, if sends e.2 then Some (requestOf e.2) else None) es.

(** The distinct requests that were sent, the first of which have a record. *)
Definition distinctRequests (es : Events) : list Request := reverse (remove_dups (reverse (sent es))).
Definition tracked (es : Events) : list Request := take (Z.to_nat MaxTimelineRecords) (distinctRequests es).

Definition sentAt (r : Request) (es : Events) : option Time :=
  head (omap (λ e, if sends e.2 && bool_decide (requestOf e.2 = r) then Some e.1 else None) es).

(** The events after the request was first sent. *)
Fixpoint since (r : Request) (es : Events) : Events :=
  match es with
  | [] => []
  | e :: es => if sends e.2 && bool_decide (requestOf e.2 = r) then es else since r es
  end.

(** The first response to a request, and its first end, after it was sent. *)
Definition heard (r : Request) (es : Events) : option (Time * Z * quotaHeaders) :=
  head (omap (λ e, match e.2 with
    | OnResponse _ r' status headers => if bool_decide (r' = r) then Some (e.1, status, headers) else None
    | _ => None
    end) (since r es)).
Definition ending (r : Request) (es : Events) : option (Time * bool) :=
  head (omap (λ e, if (finishes e.2 || fails e.2) && bool_decide (requestOf e.2 = r)
    then Some (e.1, fails e.2) else None) (since r es)).

Definition msFrom (t0 t : Time) : Z := Milliseconds (time_Sub t t0).

(** The record the events of a request call for. *)
Definition recordFor (t0 : Time) (es : Events) (i : nat) (r : Request) : TimelineRequestRecord :=
  let h := heard r es in
  let d := ending r es in
  let quota field := h ≫= λ h, quotaInteger (field h.2) in
  mkTimelineRequestRecord (Z.of_nat i + 1) (msFrom t0 (default t0 (sentAt r es)))
    ((λ h, msFrom t0 h.1.1) <$> h) ((λ d, msFrom t0 d.1) <$> d)
    (from_option (λ h, h.1.2) 0 h) (from_option snd false d) (quota qhLimit) (quota qhRemaining) (quota qhReset).

(** How many of the events are of a request that has no record when they come. *)
Definition strays (P : pageEvent → bool) (es : Events) : Z :=
  howMany id (imap (λ i e, P e.2 && bool_decide (requestOf e.2 ∉ tracked (take (S i) es))) es).

(** The account of the events: the records of the first distinct requests, with
    their first response and end; every count is over the records and the events
    of no record. *)
Record accountOf (t0 : Time) (es : Events) (t : TimelineAccounting) : Prop := {
  ac_records : t.(taRecords) = imap (recordFor t0 es) (tracked es);
  ac_requests : t.(taRequests) = Z.of_nat (length (tracked es)) + strays sends es;
  ac_dropped : t.(taDroppedRecords) = strays sends es;
  ac_responses : t.(taResponses) = howMany responded t.(taRecords) + strays answers es;
  ac_limited : t.(taRateLimited) =
    howMany (λ rec, responded rec && limited rec.(trStatus)) t.(taRecords) +
    strays (λ e, answers e && limited (statusOf e)) es;
  ac_errors : t.(taServerErrors) =
    howMany (λ rec, responded rec && serverError rec.(trStatus)) t.(taRecords) +
    strays (λ e, answers e && serverError (statusOf e)) es;
  ac_finished : t.(taFinished) =
    howMany (λ rec, ended rec && negb rec.(trFailed)) t.(taRecords) + strays finishes es;
  ac_failed : t.(taFailed) =
    howMany (λ rec, ended rec && rec.(trFailed)) t.(taRecords) + strays fails es;
  ac_unmatched : t.(taUnmatchedEvents) = strays (λ e, negb (sends e)) es }.

Lemma howMany_snoc {A} (P : A → bool) l a : howMany P (l ++ [a]) = howMany P l + if P a then 1 else 0.
Proof.
  unfold howMany. rewrite filter_app, length_app, filter_cons. destruct (P a) eqn:E; case_decide; cbn; first [done|lia].
Qed.

Lemma howMany_insert {A} (P : A → bool) l i a b :
  l !! i = Some a →
  howMany P (<[i:=b]> l) + (if P a then 1 else 0) = howMany P l + if P b then 1 else 0.
Proof.
  intros Hi. pose proof (take_drop_middle l i a Hi) as Hl.
  pose proof (lookup_lt_Some _ _ _ Hi). rewrite <-Hl at 2. rewrite insert_take_drop by done.
  unfold howMany. rewrite !filter_app, !length_app, !filter_cons.
  destruct (P a) eqn:Ea, (P b) eqn:Eb; repeat case_decide; cbn; try done; lia.
Qed.

Lemma recordOf_Some r c i rec : recordOf r c = Some (i, rec) → c.(totals).(taRecords) !! i = Some rec.
Proof.
  unfold recordOf. destruct (_ !! r) as [j|]; cbn; [|done]. destruct (_ !! j) eqn:E; cbn; [|done].
  by intros [= <- <-].
Qed.

Lemma request_adds now r c : addsUp c.(totals) → addsUp (request now r c).(totals).
Proof.
  intros [Hb Hr Hd Hrec He Hc]. unfold request. destruct (not_nil _); [done|].
  cbn [taRecords taRequests eta_TimelineAccounting field_update].
  destruct (Z.leb_spec MaxTimelineRecords (Z.of_nat (length c.(totals).(taRecords)))) as [Hl|Hl]; cbn.
  - split; cbn; [done|lia|split; [lia|intros _; lia]|done..].
  - split; cbn; rewrite ?length_app; cbn; try lia.
    + intros i rec Hi. apply lookup_app_Some in Hi as [Hi|[Hi Hrec']]; [by apply Hrec|].
      apply list_lookup_singleton_Some in Hrec' as [Hz <-]. split; cbn; [|done..].
      assert (i = length c.(totals).(taRecords)) as -> by lia.
      destruct (decide (taDroppedRecords (totals c) = 0)) as [|Hn%(proj2 Hd)]; lia.
    + rewrite !howMany_snoc. cbn. lia.
Qed.

Lemma response_adds now r status headers c :
  addsUp c.(totals) → addsUp (response now r status headers c).(totals).
Proof.
  intros [Hb Hr Hd Hrec He Hc]. unfold response.
  assert (∀ n m, 0 ≤ n ∧ 0 ≤ m ∧ n + m ≤ taResponses (totals c) →
    let n' := if status =? 429 then n + 1 else n in
    let m' := if (500 <=? status) && (status <=? 599) then m + 1 else m in
    0 ≤ n' ∧ 0 ≤ m' ∧ n' + m' ≤ 1 + taResponses (totals c)) as Hclass.
  { intros n m ?. cbn. destruct (Z.eqb_spec status 429), (Z.leb_spec 500 status), (Z.leb_spec status 599); cbn; lia. }
  destruct (recordOf r c) as [[i rec]|] eqn:Er.
  - apply recordOf_Some in Er. destruct (not_nil rec.(trResponseMS)) eqn:En; [done|]. cbn.
    split; cbn; rewrite ?length_insert; try done; [| |by apply Hclass].
    + intros j rec' Hj. apply list_lookup_insert_Some in Hj as [(<- & <- & _)|[_ Hj]]; [|by apply Hrec].
      destruct (Hrec i rec Er) as [H1 H2 H3]. split; cbn; done.
    + set (b := mkTimelineRequestRecord _ _ _ _ _ _ _ _ _).
      pose proof (howMany_insert responded _ _ _ b Er) as H1.
      pose proof (howMany_insert ended _ _ _ b Er) as H2.
      change (responded rec) with (not_nil (trResponseMS rec)) in H1. rewrite En in H1.
      change (ended b) with (ended rec) in H2. change (responded b) with true in H1.
      apply Z.add_cancel_r in H2. cbn iota in H1. lia.
  - cbn. split; cbn; try done; [lia|by apply Hclass].
Qed.

Lemma end_adds now r failed c : addsUp c.(totals) → addsUp (end_ now r failed c).(totals).
Proof.
  intros [Hb Hr Hd Hrec He Hc]. unfold end_.
  destruct (recordOf r c) as [[i rec]|] eqn:Er.
  - apply recordOf_Some in Er. destruct (not_nil rec.(trEndedMS)) eqn:En; [done|].
    set (b := rec <| trEndedMS := _ |> <| trFailed := failed |>).
    assert (∀ j rec', <[i:=b]> (taRecords (totals c)) !! j = Some rec' → wellRecorded j rec') as Hrec'.
    { intros j rec' Hj. apply list_lookup_insert_Some in Hj as [(<- & <- & _)|[_ Hj]]; [|by apply Hrec].
      destruct (Hrec i rec Er) as [H1 H2 H3]. split; cbn; done. }
    pose proof (howMany_insert responded _ _ _ b Er) as H1.
    pose proof (howMany_insert ended _ _ _ b Er) as H2.
    change (ended rec) with (not_nil (trEndedMS rec)) in H2. rewrite En in H2.
    change (responded b) with (responded rec) in H1. change (ended b) with true in H2.
    apply Z.add_cancel_r in H1. cbn iota in H2. destruct failed; (split; cbn; rewrite ?length_insert; try done; lia).
  - destruct failed; (split; cbn; try done; lia).
Qed.

Lemma account_adds now e c : addsUp c.(totals) → addsUp (account now e c).(totals).
Proof. destruct e; [apply request_adds|apply response_adds|apply end_adds|apply end_adds]. Qed.

Lemma new_adds id t0 : addsUp (newTimelineAccounting id t0).(totals).
Proof. split; cbn; unfold MaxTimelineRecords; try done; lia. Qed.

(** *** The description, one event more *)

Lemma sent_snoc es e :
  sent (es ++ [e]) = sent es ++ if sends e.2 then [requestOf e.2] else [].
Proof. unfold sent. rewrite omap_app. cbn. by destruct (sends e.2). Qed.

Lemma distinct_elem r es : r ∈ distinctRequests es ↔ r ∈ sent es.
Proof. unfold distinctRequests. by rewrite elem_of_reverse, elem_of_remove_dups, elem_of_reverse. Qed.

Lemma distinct_NoDup es : NoDup (distinctRequests es).
Proof. unfold distinctRequests. rewrite reverse_Permutation. apply NoDup_remove_dups. Qed.

Lemma distinct_snoc es e :
  distinctRequests (es ++ [e]) = distinctRequests es ++
    if sends e.2 && bool_decide (requestOf e.2 ∉ sent es) then [requestOf e.2] else [].
Proof.
  unfold distinctRequests. rewrite sent_snoc. destruct (sends e.2); cbn [andb]; [|by rewrite !app_nil_r].
  rewrite reverse_snoc. cbn [remove_dups]. case_decide as Hd; rewrite elem_of_reverse in Hd.
  - rewrite bool_decide_eq_false_2, app_nil_r; [done|]. intros Hn. by apply Hn.
  - rewrite bool_decide_eq_true_2 by done. by rewrite reverse_cons.
Qed.

Lemma tracked_NoDup es : NoDup (tracked es).
Proof. eapply sublist_NoDup; [apply (distinct_NoDup es)|apply sublist_take]. Qed.

Lemma tracked_sent r es : r ∈ tracked es → r ∈ sent es.
Proof. intros Hr. apply distinct_elem. by eapply subseteq_take. Qed.

Lemma tracked_bound es : (length (tracked es) <= 64)%nat.
Proof. unfold tracked. rewrite length_take. change (Z.to_nat MaxTimelineRecords) with 64%nat. lia. Qed.

Lemma tracked_full es e : length (tracked es) = 64%nat → tracked (es ++ [e]) = tracked es.
Proof.
  unfold tracked. change (Z.to_nat MaxTimelineRecords) with 64%nat. rewrite length_take. intros Hl.
  rewrite distinct_snoc, take_app_le by lia. done.
Qed.

Lemma tracked_snoc es e :
  tracked (es ++ [e]) =
    if sends e.2 && bool_decide (requestOf e.2 ∉ tracked es) && negb (Nat.eqb (length (tracked es)) 64)
    then tracked es ++ [requestOf e.2] else tracked es.
Proof.
  destruct (Nat.eqb_spec (length (tracked es)) 64) as [Hf|Hf]; cbn [negb].
  { rewrite andb_false_r. by apply tracked_full. }
  rewrite andb_true_r. revert Hf. unfold tracked. change (Z.to_nat MaxTimelineRecords) with 64%nat.
  rewrite length_take. intros Hf. rewrite (take_ge (distinctRequests es)) by lia.
  rewrite distinct_snoc. destruct (sends e.2); cbn [andb]; [|rewrite app_nil_r; apply take_ge; lia].
  assert (bool_decide (requestOf e.2 ∉ sent es) = bool_decide (requestOf e.2 ∉ distinctRequests es)) as ->.
  { apply bool_decide_ext. by rewrite distinct_elem. }
  destruct (bool_decide _); [|rewrite app_nil_r]; (apply take_ge; rewrite ?length_app; cbn; lia).
Qed.

Lemma head_app {A} (l k : list A) : head (l ++ k) = match head l with Some x => Some x | None => head k end.
Proof. by destruct l. Qed.

Lemma sentAt_snoc r es e :
  sentAt r (es ++ [e]) = match sentAt r es with
    | Some t => Some t
    | None => if sends e.2 && bool_decide (requestOf e.2 = r) then Some e.1 else None
    end.
Proof. unfold sentAt. rewrite omap_app, head_app. cbn. by destruct (_ && _). Qed.

Lemma sentAt_None r es : sentAt r es = None ↔ r ∉ sent es.
Proof.
  induction es as [|e es IH] using rev_ind; [split; [intros _; apply not_elem_of_nil|done]|].
  rewrite sentAt_snoc, sent_snoc, not_elem_of_app. destruct (sentAt r es).
  - split; [done|]. intros [Hn _]. by apply IH in Hn.
  - pose proof (proj1 IH eq_refl) as Hn. destruct (sends e.2); cbn [andb].
    + rewrite not_elem_of_cons. case_bool_decide; split; try done.
      * by intros (_ & Hr & _).
      * intros _. split; [done|]. split; [congruence|apply not_elem_of_nil].
    + split; [|done]. intros _. split; [done|apply not_elem_of_nil].
Qed.

Lemma since_snoc r es e : since r (es ++ [e]) = if decide (r ∈ sent es) then since r es ++ [e] else [].
Proof.
  induction es as [|e' es IH]; cbn [app since].
  { rewrite decide_False by apply not_elem_of_nil. by destruct (_ && _). }
  unfold sent. cbn [omap list_omap]. fold (sent es). destruct (sends e'.2); cbn [andb]; [|apply IH].
  case_bool_decide as Hr; [by rewrite decide_True by (subst; left)|]. rewrite IH.
  apply decide_ext. rewrite elem_of_cons. naive_solver.
Qed.

Definition earlier {A} (old new : option A) : option A := match old with Some x => Some x | None => new end.

Lemma heard_snoc r es e : r ∈ sent es →
  heard r (es ++ [e]) = earlier (heard r es) (match e.2 with
    | OnResponse _ r' status headers => if bool_decide (r' = r) then Some (e.1, status, headers) else None
    | _ => None
    end).
Proof.
  intros Hr. unfold heard. rewrite since_snoc, decide_True, omap_app, head_app by done. unfold earlier.
  destruct (head _); [done|]. cbn. destruct e.2; try done. by case_bool_decide.
Qed.

Lemma ending_snoc r es e : r ∈ sent es →
  ending r (es ++ [e]) = earlier (ending r es)
    (if (finishes e.2 || fails e.2) && bool_decide (requestOf e.2 = r) then Some (e.1, fails e.2) else None).
Proof.
  intros Hr. unfold ending. rewrite since_snoc, decide_True, omap_app, head_app by done. unfold earlier.
  destruct (head _); [done|]. cbn. by destruct (_ && _).
Qed.

Lemma recordFor_same t0 es e i r :
  r ∈ sent es → heard r (es ++ [e]) = heard r es → ending r (es ++ [e]) = ending r es →
  recordFor t0 (es ++ [e]) i r = recordFor t0 es i r.
Proof.
  intros Hr Hh Hd. unfold recordFor. rewrite Hh, Hd, sentAt_snoc. destruct (sentAt r es) eqn:E; [done|].
  by apply sentAt_None in E.
Qed.

Lemma recordFor_fresh t0 es t url r i : r ∉ sent es →
  recordFor t0 (es ++ [(t, OnRequest url r)]) i r =
    mkTimelineRequestRecord (Z.of_nat i + 1) (msFrom t0 t) None None 0 false None None None.
Proof.
  intros Hr. unfold recordFor, heard, ending. rewrite since_snoc, decide_False by done.
  rewrite sentAt_snoc, (proj2 (sentAt_None r es) Hr). cbn. by rewrite bool_decide_eq_true_2.
Qed.

Lemma strays_snoc P es e :
  strays P (es ++ [e]) = strays P es +
    if P e.2 && bool_decide (requestOf e.2 ∉ tracked (es ++ [e])) then 1 else 0.
Proof.
  unfold strays. rewrite imap_app. cbn [imap]. rewrite howMany_snoc. unfold compose, id. f_equal.
  - f_equal. apply imap_ext. intros i x Hi. apply lookup_lt_Some in Hi. by rewrite take_app_le by lia.
  - rewrite take_ge; [done|]. rewrite length_app. cbn. lia.
Qed.

(** *** The account follows the events *)

Record follows (t0 : Time) (es : Events) (c : timelineAccountingCollector) : Prop := {
  fw_started : c.(started) = t0;
  fw_indices : ∀ r i, c.(indices) !! r = Some i ↔ tracked es !! i = Some r;
  fw_account : accountOf t0 es c.(totals) }.

Lemma follows_recordOf t0 es c r : follows t0 es c →
  recordOf r c = i ← c.(indices) !! r; Some (i, recordFor t0 es i r).
Proof.
  intros [_ Hi Ha]. unfold recordOf. destruct (indices c !! r) as [i|] eqn:E; [|done]. cbn.
  apply Hi in E. by rewrite (ac_records _ _ _ Ha), list_lookup_imap, E.
Qed.

Lemma not_tracked t0 es c r : follows t0 es c → c.(indices) !! r = None ↔ r ∉ tracked es.
Proof.
  intros Hf. split.
  - intros Hn [i Hi]%list_elem_of_lookup_1. apply (fw_indices _ _ _ Hf) in Hi. congruence.
  - intros Hn. destruct (indices c !! r) as [i|] eqn:E; [|done]. destruct Hn.
    apply (fw_indices _ _ _ Hf) in E. by eapply list_elem_of_lookup_2.
Qed.

Lemma other_same r es e : r ∈ sent es → requestOf e.2 ≠ r →
  heard r (es ++ [e]) = heard r es ∧ ending r (es ++ [e]) = ending r es.
Proof.
  intros Hr Hne. rewrite heard_snoc, ending_snoc by done. unfold earlier.
  rewrite bool_decide_eq_false_2, andb_false_r by done.
  split; [|by destruct (ending r es)]. destruct (heard r es); [done|].
  destruct e.2; try done. cbn in Hne. by rewrite bool_decide_eq_false_2.
Qed.

Lemma records_same t0 es e :
  (∀ r, r ∈ tracked es → heard r (es ++ [e]) = heard r es ∧ ending r (es ++ [e]) = ending r es) →
  imap (recordFor t0 (es ++ [e])) (tracked es) = imap (recordFor t0 es) (tracked es).
Proof.
  intros Hs. apply imap_ext. intros i r Hi%list_elem_of_lookup_2. destruct (Hs r Hi).
  by apply recordFor_same; [apply tracked_sent|..].
Qed.

Lemma tracked_same es e : sends e.2 = false ∨ requestOf e.2 ∈ tracked es → tracked (es ++ [e]) = tracked es.
Proof.
  intros Hs. rewrite tracked_snoc. destruct Hs as [-> |Hr]; [done|].
  rewrite bool_decide_eq_false_2 by tauto. by rewrite andb_false_r.
Qed.

(** An event of a request with a record that changes no record. *)
Lemma account_quiet t0 es e t :
  accountOf t0 es t → requestOf e.2 ∈ tracked es →
  (∀ r, r ∈ tracked es → heard r (es ++ [e]) = heard r es ∧ ending r (es ++ [e]) = ending r es) →
  accountOf t0 (es ++ [e]) t.
Proof.
  intros Ha Hr Hs. pose proof (tracked_same es e (or_intror Hr)) as Ht.
  assert (∀ P, strays P (es ++ [e]) = strays P es) as Hstr.
  { intros P. rewrite strays_snoc, Ht, bool_decide_eq_false_2 by tauto. rewrite andb_false_r. lia. }
  destruct Ha. split; rewrite ?Hstr, ?Ht; try done. by rewrite records_same.
Qed.

Lemma follows_quiet t0 es e c :
  follows t0 es c → requestOf e.2 ∈ tracked es →
  (∀ r, r ∈ tracked es → heard r (es ++ [e]) = heard r es ∧ ending r (es ++ [e]) = ending r es) →
  follows t0 (es ++ [e]) c.
Proof.
  intros [Hs Hi Ha] Hr Hq. split; [done| |by apply account_quiet].
  intros r i. by rewrite (tracked_same es e (or_intror Hr)).
Qed.

(** An event of a request without a record changes no record, and is a stray. *)
Lemma stray_event t0 es e :
  tracked (es ++ [e]) = tracked es → requestOf e.2 ∉ tracked es →
  imap (recordFor t0 (es ++ [e])) (tracked (es ++ [e])) = imap (recordFor t0 es) (tracked es) ∧
  ∀ P, strays P (es ++ [e]) = strays P es + if P e.2 then 1 else 0.
Proof.
  intros Ht Hr. split.
  - rewrite Ht. apply records_same. intros r Hr'. apply other_same; [by apply tracked_sent|congruence].
  - intros P. by rewrite strays_snoc, Ht, bool_decide_eq_true_2, andb_true_r.
Qed.

Lemma request_follows t0 es now url r c :
  addsUp c.(totals) → follows t0 es c → follows t0 (es ++ [(now, OnRequest url r)]) (request now r c).
Proof.
  intros Hadd Hf. pose proof (not_tracked _ _ _ r Hf) as Hnot. unfold request.
  destruct (indices c !! r) as [i|] eqn:Ei; cbn [not_nil is_nil negb].
  { apply follows_quiet; [done|cbn; apply (fw_indices _ _ _ Hf) in Ei; by eapply list_elem_of_lookup_2|].
    intros r' Hr'%tracked_sent. rewrite heard_snoc, ending_snoc by done. unfold earlier. cbn.
    by destruct (heard r' es), (ending r' es). }
  assert (r ∉ tracked es) as Hr by by apply Hnot. destruct Hf as [Hs Hi Ha].
  assert (length (taRecords (totals c)) = length (tracked es)) as Hlen by (by rewrite (ac_records _ _ _ Ha), length_imap).
  pose proof (tracked_bound es) as Hb.
  cbn [taRecords taRequests eta_TimelineAccounting field_update]. rewrite Hlen.
  destruct (Z.leb_spec MaxTimelineRecords (Z.of_nat (length (tracked es)))) as [Hl|Hl];
    unfold MaxTimelineRecords in Hl.
  - assert (tracked (es ++ [(now, OnRequest url r)]) = tracked es) as Ht by (apply tracked_full; lia).
    destruct (stray_event t0 es (now, OnRequest url r) Ht Hr) as [Hrec Hstr]. destruct Ha.
    split; cbn; [done| |split; cbn; rewrite ?Hstr, ?Hrec, ?Ht; cbn; first [done|lia]].
    intros r' i. by rewrite Ht.
  - assert (tracked (es ++ [(now, OnRequest url r)]) = tracked es ++ [r]) as Ht.
    { rewrite tracked_snoc. cbn. rewrite bool_decide_eq_true_2 by done.
      by destruct (Nat.eqb_spec (length (tracked es)) 64) as [|]; [lia|]. }
    assert (r ∉ sent es) as Hns.
    { rewrite <-distinct_elem. unfold tracked in Hr, Hl. rewrite length_take in Hl. rewrite take_ge in Hr; [done|].
      change (Z.to_nat MaxTimelineRecords) with 64%nat in *. lia. }
    assert (∀ P, strays P (es ++ [(now, OnRequest url r)]) = strays P es) as Hstr.
    { intros P. rewrite strays_snoc, Ht, bool_decide_eq_false_2; [rewrite andb_false_r; lia|].
      cbn. intros Hn. apply Hn, elem_of_app. right. left. }
    assert (taDroppedRecords (totals c) = 0) as Hd0.
    { destruct (decide (taDroppedRecords (totals c) = 0)) as [|Hn%(proj2 (adds_dropped _ Hadd))]; [done|].
      unfold MaxTimelineRecords in Hn. lia. }
    assert (taRequests (totals c) = Z.of_nat (length (tracked es))) as Hreq.
    { rewrite (ac_requests _ _ _ Ha), <-(ac_dropped _ _ _ Ha). lia. }
    split; cbn; [done| |].
    + intros r' i. rewrite Ht. rewrite lookup_insert_Some, Hi, lookup_app_Some, list_lookup_singleton_Some. split.
      * intros [[<- <-]|[Hne Hi']]; [right; split; [lia|]; split; [lia|done]|by left].
      * intros [Hi'|(Hge & Hz & <-)]; [right|left; split; [done|lia]]. split; [|done].
        intros <-. destruct Hr. by eapply list_elem_of_lookup_2.
    + assert (imap (recordFor t0 (es ++ [(now, OnRequest url r)])) (tracked (es ++ [(now, OnRequest url r)])) =
        imap (recordFor t0 es) (tracked es) ++ [mkTimelineRequestRecord (1 + taRequests (totals c))
          (sinceStart c now) None None 0 false None None None]) as Hrec.
      { rewrite Ht, imap_app. f_equal.
        - apply records_same. intros r' Hr'. apply other_same; [by apply tracked_sent|]. cbn. congruence.
        - cbn [imap]. unfold compose. rewrite recordFor_fresh by done. unfold sinceStart, msFrom. rewrite Hs.
          do 2 f_equal. lia. }
      destruct Ha. split; cbn; rewrite ?Hstr, ?Hrec, ?Ht, ?howMany_snoc, ?length_app; cbn; first [congruence|lia].
Qed.

(** An event of a request with a record changes that record only. *)
Lemma matched_records t0 es e i :
  sends e.2 = false → tracked es !! i = Some (requestOf e.2) →
  imap (recordFor t0 (es ++ [e])) (tracked (es ++ [e])) =
    <[i := recordFor t0 (es ++ [e]) i (requestOf e.2)]> (imap (recordFor t0 es) (tracked es)).
Proof.
  intros He Hi. rewrite tracked_same by by left. apply list_eq. intros j. rewrite list_lookup_imap.
  destruct (decide (j = i)) as [->|Hne].
  - rewrite Hi, list_lookup_insert_eq; [done|]. rewrite length_imap. by eapply lookup_lt_Some.
  - rewrite list_lookup_insert_ne, list_lookup_imap by done.
    destruct (tracked es !! j) as [r|] eqn:Hj; [|done]. cbn. f_equal.
    assert (r ∈ sent es) as Hs by (by eapply tracked_sent, list_elem_of_lookup_2).
    assert (requestOf e.2 ≠ r) as Hr.
    { intros <-. apply Hne. eapply NoDup_lookup; [apply (tracked_NoDup es)|done..]. }
    destruct (other_same r es e Hs Hr). by apply recordFor_same.
Qed.

Lemma matched_strays es e i P :
  sends e.2 = false → tracked es !! i = Some (requestOf e.2) → strays P (es ++ [e]) = strays P es.
Proof.
  intros He Hi%list_elem_of_lookup_2. rewrite strays_snoc, tracked_same, bool_decide_eq_false_2 by first [by left|tauto].
  rewrite andb_false_r. lia.
Qed.

Lemma howMany_replaced {A} (P : A → bool) l i a b :
  l !! i = Some a → howMany P (<[i:=b]> l) = howMany P l + (if P b then 1 else 0) - (if P a then 1 else 0).
Proof. intros Hi. pose proof (howMany_insert P l i a b Hi). lia. Qed.

Lemma sent_sentAt r es : r ∈ sent es → ∃ t, sentAt r es = Some t.
Proof. intros Hr. destruct (sentAt r es) eqn:E; [by eexists|]. by apply sentAt_None in E. Qed.

Lemma response_follows t0 es now url r status headers c :
  follows t0 es c →
  follows t0 (es ++ [(now, OnResponse url r status headers)]) (response now r status headers c).
Proof.
  intros Hf. pose proof (not_tracked _ _ _ r Hf) as Hnot. unfold response. rewrite (follows_recordOf _ _ _ _ Hf).
  set (e := (now, OnResponse url r status headers)).
  assert (tracked (es ++ [e]) = tracked es) as Ht by (apply tracked_same; by left).
  destruct (indices c !! r) as [i|] eqn:Ei; cbn [mbind option_bind].
  - assert (tracked es !! i = Some r) as Hi by by apply (fw_indices _ _ _ Hf).
    assert (r ∈ sent es) as Hsent by (by eapply tracked_sent, list_elem_of_lookup_2).
    assert (heard r (es ++ [e]) = earlier (heard r es) (Some (now, status, headers))) as Hh.
    { rewrite heard_snoc by done. cbn. by rewrite bool_decide_eq_true_2. }
    assert (ending r (es ++ [e]) = ending r es) as Hd.
    { rewrite ending_snoc by done. cbn. by destruct (ending r es). }
    destruct (heard r es) as [h|] eqn:Eh.
    + unfold recordFor. rewrite Eh. cbn. apply follows_quiet; [done|by eapply list_elem_of_lookup_2|].
      intros r' Hr'. destruct (decide (r' = r)) as [->|Hne]; [by rewrite Hh, Hd, Eh|].
      apply other_same; [by apply tracked_sent|]. cbn. congruence.
    + unfold recordFor at 1. rewrite Eh. cbn [trResponseMS not_nil is_nil negb fmap option_fmap option_map].
      pose proof (matched_records t0 es e i eq_refl Hi) as Hrec.
      pose proof (λ P, matched_strays es e i P eq_refl Hi) as Hstr.
      assert (imap (recordFor t0 es) (tracked es) !! i = Some (recordFor t0 es i r)) as Hold.
      { by rewrite list_lookup_imap, Hi. }
      destruct (sent_sentAt _ _ Hsent) as [ts Hts]. destruct Hf as [Hs Hidx Ha].
      set (old := recordFor t0 es i r) in *. set (new := recordFor t0 (es ++ [e]) i r) in *.
      assert (new = old
          <| trResponseMS := Some (sinceStart c now) |> <| trStatus := status |>
          <| trRateLimitLimit := quotaInteger headers.(qhLimit) |>
          <| trRateLimitRemain := quotaInteger headers.(qhRemaining) |>
          <| trRateLimitReset := quotaInteger headers.(qhReset) |>) as Hnew.
      { unfold new, old, recordFor. rewrite Hh, Hd, sentAt_snoc, Hts. cbn. unfold sinceStart. by rewrite Hs. }
      rewrite <-Hnew. change (requestOf e.2) with r in Hrec. fold new in Hrec.
      assert (responded old = false) as Ho by (unfold old, responded, recordFor; by rewrite Eh).
      assert (responded new = true ∧ trStatus new = status ∧ ended new = ended old ∧ trFailed new = trFailed old)
        as (N1 & N2 & N3 & N4) by (by rewrite Hnew).
      clearbody old new. destruct Ha.
      split; cbn; [done|by rewrite Ht|].
      split; cbn; rewrite ?Hstr, ?Ht, ?ac_records0; try (rewrite Ht in Hrec; done); try (by rewrite <-Ht, Hrec);
        rewrite ?(howMany_replaced _ _ _ _ _ Hold), ?N1, ?N2, ?N3, ?N4, ?Ho, <-?ac_records0; cbn [andb];
        fold (limited status) (serverError status); try lia.
      all: destruct (limited status), (serverError status), (ended old), (trFailed old); cbn; lia.
  - assert (r ∉ tracked es) as Hr by by apply Hnot. destruct Hf as [Hs Hi Ha].
    destruct (stray_event t0 es e Ht Hr) as [Hrec Hstr]. rewrite Ht in Hrec. destruct Ha.
    split; cbn; [done|by rewrite Ht|]. split; cbn; rewrite ?Hstr, ?Ht, ?Hrec; cbn; fold (limited status) (serverError status); try first [done|lia].
    all: repeat case_match; lia.
Qed.

Lemma end_follows t0 es now e failed c :
  finishes e || fails e = true → fails e = failed → finishes e = negb failed →
  follows t0 es c → follows t0 (es ++ [(now, e)]) (end_ now (requestOf e) failed c).
Proof.
  intros Hend Hfail Hfin Hf. pose proof (not_tracked _ _ _ (requestOf e) Hf) as Hnot.
  unfold end_. rewrite (follows_recordOf _ _ _ _ Hf).
  assert (sends e = false ∧ answers e = false) as [Hse Han] by (by destruct e).
  set (r := requestOf e) in *.
  assert (tracked (es ++ [(now, e)]) = tracked es) as Ht by (apply tracked_same; by left).
  destruct (indices c !! r) as [i|] eqn:Ei; cbn [mbind option_bind].
  - assert (tracked es !! i = Some r) as Hi by by apply (fw_indices _ _ _ Hf).
    assert (r ∈ sent es) as Hsent by (by eapply tracked_sent, list_elem_of_lookup_2).
    assert (heard r (es ++ [(now, e)]) = heard r es) as Hh.
    { rewrite heard_snoc by done. destruct (heard r es), e; done. }
    assert (ending r (es ++ [(now, e)]) = earlier (ending r es) (Some (now, failed))) as Hd.
    { rewrite ending_snoc by done. cbn [fst snd]. by rewrite Hend, Hfail, bool_decide_eq_true_2. }
    destruct (ending r es) as [d|] eqn:Ed.
    + unfold recordFor. rewrite Ed. cbn. apply follows_quiet; [done|by eapply list_elem_of_lookup_2|].
      intros r' Hr'. destruct (decide (r' = r)) as [->|Hne]; [by rewrite Hh, Hd, Ed|].
      apply other_same; [by apply tracked_sent|]. by intros <-.
    + unfold recordFor at 1. rewrite Ed. cbn [trEndedMS not_nil is_nil negb fmap option_fmap option_map].
      pose proof (matched_records t0 es (now, e) i Hse Hi) as Hrec.
      pose proof (λ P, matched_strays es (now, e) i P Hse Hi) as Hstr.
      assert (imap (recordFor t0 es) (tracked es) !! i = Some (recordFor t0 es i r)) as Hold.
      { by rewrite list_lookup_imap, Hi. }
      destruct (sent_sentAt _ _ Hsent) as [ts Hts]. destruct Hf as [Hs Hidx Ha].
      set (old := recordFor t0 es i r) in *. set (new := recordFor t0 (es ++ [(now, e)]) i r) in *.
      assert (new = old <| trEndedMS := Some (sinceStart c now) |> <| trFailed := failed |>) as Hnew.
      { unfold new, old, recordFor. rewrite Hh, Hd, sentAt_snoc, Hts. cbn. unfold sinceStart. by rewrite Hs. }
      rewrite <-Hnew. change (requestOf (now, e).2) with r in Hrec. fold new in Hrec.
      assert (ended old = false) as Ho by (unfold old, ended, recordFor; by rewrite Ed).
      assert (ended new = true ∧ trFailed new = failed ∧ responded new = responded old ∧ trStatus new = trStatus old)
        as (N1 & N2 & N3 & N4) by (by rewrite Hnew).
      clearbody old new. destruct Ha.
      split; [destruct failed; done|intros r' j; rewrite Ht; destruct failed; apply Hidx|].
      destruct failed; (split; cbn; rewrite ?Hstr, ?Ht, ?ac_records0;
        try (rewrite Ht in Hrec; done); try (by rewrite <-Ht, Hrec);
        rewrite ?(howMany_replaced _ _ _ _ _ Hold), ?N1, ?N2, ?N3, ?N4, ?Ho, <-?ac_records0; cbn [andb negb];
        lia).
  - assert (r ∉ tracked es) as Hr by by apply Hnot. destruct Hf as [Hs Hi Ha].
    destruct (stray_event t0 es (now, e) Ht Hr) as [Hrec Hstr]. rewrite Ht in Hrec. destruct Ha.
    split; [destruct failed; done|intros r' j; rewrite Ht; destruct failed; apply Hi|].
    destruct failed; (split; cbn; rewrite ?Hstr, ?Ht, ?Hrec; cbn; rewrite ?Hse, ?Han, ?Hfail, ?Hfin; cbn; first [done|lia]).
Qed.

Lemma account_follows t0 es now e c :
  addsUp c.(totals) → follows t0 es c → follows t0 (es ++ [(now, e)]) (account now e c).
Proof.
  intros Ha Hf. destruct e; cbn [account].
  - by apply request_follows.
  - by apply response_follows.
  - by apply (end_follows _ _ _ (OnRequestFinished url r) false).
  - by apply (end_follows _ _ _ (OnRequestFailed url r failure) true).
Qed.

Lemma new_follows id t0 : follows t0 [] (newTimelineAccounting id t0).
Proof. by split; [..|split]. Qed.

(** ** The evidence of a scan *)

Lemma string_take_length n s : (String.length (gotime.string_take n s) <= n)%nat.
Proof. revert s. induction n as [|n IH]; intros [|c s]; cbn; [lia..|]. specialize (IH s). lia. Qed.

Lemma boundedEvidence_le value maximum : 0 ≤ maximum → str_len (boundedEvidence value maximum) ≤ maximum.
Proof.
  intros Hm. unfold boundedEvidence. destruct (Z.leb_spec (str_len (TrimSpace value)) maximum); [done|].
  unfold str_len. pose proof (string_take_length (Z.to_nat maximum) (TrimSpace value)). lia.
Qed.

(** The texts of an evidence stay short. *)
Definition bounded (e : SearchEvidence) : Prop :=
  str_len e.(seFinalURL) ≤ 512 ∧ str_len e.(sePageTitle) ≤ 160 ∧ str_len e.(seTimelineFailure) ≤ 160 ∧
  str_len e.(seRateLimitLimit) ≤ 160 ∧ str_len e.(seRateLimitRemain) ≤ 160 ∧
  str_len e.(seRateLimitReset) ≤ 160.

Lemma note_bounded e ev : bounded ev → bounded (note e ev).
Proof.
  intros (H1 & H2 & H3 & H4 & H5 & H6). destruct e as [|url r status headers|url r|url r failure]; [done| |done|].
  - unfold bounded. cbn. unfold maxEvidenceFailureLength.
    pose proof (boundedEvidence_le (qhLimit headers) 160). pose proof (boundedEvidence_le (qhRemaining headers) 160).
    pose proof (boundedEvidence_le (qhReset headers) 160). unfold str_len at 3. cbn. repeat split; first [done|lia].
  - unfold bounded. cbn. unfold maxEvidenceFailureLength.
    pose proof (boundedEvidence_le (default "request_failed" failure) 160). repeat split; first [done|lia].
Qed.

Definition observeAll (es : list (Time * pageEvent)) (c : searchEvidenceCollector)
    : searchEvidenceCollector := foldl (λ c e, observe e.1 e.2 c) c es.

Lemma observeAll_ok es : ∀ c, addsUp c.(accounting).(totals) ∧ bounded c.(evidence) →
  let c' := observeAll es c in addsUp c'.(accounting).(totals) ∧ bounded c'.(evidence).
Proof.
  induction es as [|[now e] es IH]; intros c Hc; [done|]. apply IH. unfold observe. cbn.
  destruct (isSearchTimelineURL (urlOf e)); [|done].
  destruct Hc. split; [by apply account_adds|by apply note_bounded].
Qed.

Lemma observeAll_follows id t0 es :
  follows t0 (timelineOf es) (observeAll es (newEvidence id t0)).(accounting).
Proof.
  induction es as [|[now e] es IH] using rev_ind; [apply new_follows|].
  unfold timelineOf in *. rewrite filter_app, filter_cons, filter_nil. unfold observeAll in *. rewrite foldl_app.
  cbn [foldl fst snd]. unfold observe at 1. destruct (isSearchTimelineURL (urlOf e)) eqn:Hu.
  - rewrite decide_True by done. apply account_follows; [|done].
    apply (observeAll_ok es (newEvidence id t0)). split; [apply new_adds|by repeat split].
  - rewrite decide_False, app_nil_r by done. exact IH.
Qed.

(** The statuses of the requests of the search timeline, the latest first. *)
Definition statuses (es : list (Time * pageEvent)) : list Z :=
  foldl (λ l e, match e.2 with
    | OnResponse url _ status _ => if isSearchTimelineURL url then status :: l else l
    | _ => l
    end) [] es.

Lemma observeAll_status es c :
  seTimelineStatus (evidence (observeAll es c)) = default (seTimelineStatus (evidence c)) (head (statuses es)).
Proof.
  unfold statuses, observeAll. induction es as [|[now e] es IH] using rev_ind; [done|].
  rewrite !foldl_app. cbn. set (c' := foldl _ c es) in *. unfold observe.
  destruct e as [url r|url r status headers|url r|url r failure]; cbn;
    destruct (isSearchTimelineURL url); cbn; done.
Qed.

Lemma account_scanID now e c : taScanID (account now e c).(totals) = taScanID c.(totals).
Proof.
  destruct e as [url r|url r status headers|url r|url r failure];
    unfold account, request, response, end_, countEnd; repeat case_match; done.
Qed.

Lemma observeAll_scanID es c :
  taScanID (totals (accounting (observeAll es c))) = taScanID (totals (accounting c)).
Proof.
  revert c. induction es as [|[now e] es IH]; intros c; [done|].
  change (observeAll ((now, e) :: es) c) with (observeAll es (observe now e c)). rewrite IH. unfold observe. cbn.
  destruct (isSearchTimelineURL _); [apply account_scanID|done].
Qed.

(** C39: Whatever a search page does, the evidence of the scan is bounded and its counts
    add up.  Of the events of the search timeline, the first 64 distinct requests have
    a record each, in the order they were sent, and the record says when the
    request was sent, and what its first response and its first end since then were
    and when.  The requests counted are those and the ones dropped at the bound;
    every count of responses, rate limits, server errors and ends is over the records
    and the events whose request has none, and those are the unmatched ones.  And a
    page without tweets is taken for an empty result only if it says so, shows no
    error, and the last response of its timeline, if there was one, was no error
    either. *)
Theorem scan_evidence_adds_up id t0 es now withoutQuery p :
  let e := pageSnapshot withoutQuery now p (observeAll es (newEvidence id t0)) in
  bounded e ∧ (∃ t, e.(seTimeline) = Some t ∧ t.(taScanID) = id ∧ addsUp t ∧ accountOf t0 (timelineOf es) t) ∧
  (classifyMissingFeed e = ResultExplicitEmpty →
     p.(psEmptyState) = true ∧ p.(psErrorState) = false ∧ e.(seTimelineFailure) = "" ∧
     ∀ status, head (statuses es) = Some status → ¬ (400 ≤ status ≤ 599)).
Proof.
  pose proof (observeAll_ok es (newEvidence id t0)) as Hok.
  pose proof (observeAll_status es (newEvidence id t0)) as Hs.
  pose proof (observeAll_scanID es (newEvidence id t0)) as Hid.
  pose proof (observeAll_follows id t0 es) as Hf.
  destruct Hok as [Ha Hb]; [split; [apply new_adds|by repeat split]|].
  set (c := observeAll es (newEvidence id t0)) in *. cbn. split; [|split].
  - destruct Hb as (_ & _ & H3 & H4 & H5 & H6). unfold bounded. cbn.
    pose proof (boundedEvidence_le (withoutQuery (psURL p)) 512). unfold maxEvidenceURLLength, maxEvidenceTitleLength.
    split; [lia|]. split; [|done]. destruct (psTitle p) as [title|]; [|done].
    by apply (boundedEvidence_le title 160).
  - eexists. split; [done|]. split; [exact Hid|]. split; [by destruct Ha|]. by destruct (fw_account _ _ _ Hf).
  - unfold classifyMissingFeed. cbn. cbn in Hs. rewrite Hs.
    destruct (psErrorState p || _) eqn:He; [done|]. apply orb_false_iff in He as [He _]. cbn.
    destruct (String.eqb_spec (seTimelineFailure (evidence c)) ""); [|done]. cbn.
    destruct (_ || _) eqn:Hst; [done|]. destruct (psEmptyState p); [|done]. intros _.
    split; [done|]. split; [done|]. split; [done|]. intros status Hh. rewrite Hh in Hst. cbn in Hst. lia.
Qed.
End timeline.
