(* ===== verification/Session.v ===== *)
(** internal/twitter/cookies_backup.go, service.go and auth.go: the session of the
    browser service.  The instances share the cookies of the session in one file;
    each reloads it when it is newer than what it has, verifies the session, and
    writes the cookies back when they changed.

    The browser and the file system are answers.  An operation takes place at one
    instant [now]; [sha256] is the digest of the JSON text of a list of cookies. *)
From S2P Require Import Prelude GoStrings Video GoTime Feed.
From Stdlib Require Import SpecFloat.
#[local] Open Scope string_scope.
#[local] Open Scope list_scope.
#[local] Open Scope Z_scope.

Module session.

(** ** Cookies (browser.go, cookies_backup.go) *)

Record Cookie := mkCookie {
  ckName : string;
  ckValue : string;
  ckDomain : string;
  ckPath : string;
  ckExpires : spec_float;
  ckHTTPOnly : bool;
  ckSecure : bool;
  ckSameSite : string }.

Definition authTokenName : string := "auth_token".

Definition hasAuthToken (cookies : list Cookie) : bool :=
  existsb (λ c, (c.(ckName) =? authTokenName)%string && negb (c.(ckValue) =? "")%string) cookies.

(** strings.HasSuffix *)
Fixpoint HasSuffix (s suffix : string) : bool :=
  (s =? suffix)%string ||
  match s with EmptyString => false | String _ s => HasSuffix s suffix end.

Definition isTwitterDomain (domain : string) : bool :=
  let domain := feed.TrimPrefix (ToLower (TrimSpace domain)) "." in
  (domain =? "x.com")%string || HasSuffix domain ".x.com" ||
  (domain =? "twitter.com")%string || HasSuffix domain ".twitter.com".

Definition filterToTwitterDomain (cookies : list Cookie) : list Cookie :=
  filter (λ c, isTwitterDomain c.(ckDomain) = true) cookies.

Definition cookieLess (a b : Cookie) : bool :=
  if negb (a.(ckName) =? b.(ckName))%string then video.str_lt a.(ckName) b.(ckName)
  else if negb (a.(ckDomain) =? b.(ckDomain))%string then video.str_lt a.(ckDomain) b.(ckDomain)
  else if negb (a.(ckPath) =? b.(ckPath))%string then video.str_lt a.(ckPath) b.(ckPath)
  else if negb (a.(ckValue) =? b.(ckValue))%string then video.str_lt a.(ckValue) b.(ckValue)
  else if negb (SFeqb a.(ckExpires) b.(ckExpires)) then SFltb a.(ckExpires) b.(ckExpires)
  else if negb (Bool.eqb a.(ckHTTPOnly) b.(ckHTTPOnly)) then negb a.(ckHTTPOnly)
  else if negb (Bool.eqb a.(ckSecure) b.(ckSecure)) then negb a.(ckSecure)
  else video.str_lt a.(ckSameSite) b.(ckSameSite).

Definition CookieFingerprint := string.

(** The fingerprint before any: 32 zero bytes. *)
Definition zeroFingerprint : CookieFingerprint :=
  foldr (λ _ s, String (Ascii.ascii_of_nat 0) s) EmptyString (seq 0 32).

Definition Fingerprint (sha256 : list Cookie → CookieFingerprint) (cookies : list Cookie)
    : CookieFingerprint :=
  match cookies with [] => zeroFingerprint | _ => sha256 (sort_by cookieLess cookies) end.

(** ** The shared file (cookies_backup.go)

    Its time and the cookies it parses to; [None] when it is not readable or not a
    cookie file.  Writing replaces it at once. *)
Record backupFile := mkBackupFile { bfMtime : Time; bfCookies : option (list Cookie) }.

Definition ReadBackup (f : backupFile) : string + list Cookie :=
  match f.(bfCookies) with
  | None => inl "twitter.ReadBackup: parse"
  | Some [] => inl "twitter.ReadBackup: empty cookie set"
  | Some cookies =>
      if hasAuthToken cookies then inr cookies
      else inl "twitter.ReadBackup: cookie set missing auth_token (untrusted)"
  end.

(** [io] is the error of the file system, if any; [at_] the time it gives the file. *)
Definition WriteBackup (cookies : list Cookie) (io : option string) (at_ : Time)
    : string + backupFile :=
  let filtered := filterToTwitterDomain cookies in
  match filtered with
  | [] => inl "twitter.WriteBackup: no x.com/twitter.com cookies to persist"
  | _ =>
      if negb (hasAuthToken filtered)
      then inl "twitter.WriteBackup: refusing to write cookie set without auth_token"
      else match io with
           | Some err => inl err
           | None => inr (mkBackupFile at_ (Some filtered))
           end
  end.

(** ** The service (service.go) *)

Definition State := string.
Definition StateStarting : State := "starting".
Definition StateLoading : State := "loading".
Definition StateHealthy : State := "healthy".
Definition StateDegraded : State := "degraded".
Definition StateUnauthenticated : State := "unauthenticated".
Definition StateFailed : State := "failed".

Definition defaultMaxAgeMinutes : Z := 3.

Record ServiceOptions := mkServiceOptions {
  soWarmPathTTL : Duration;
  soMaxScrolls : Z;
  soConsecutiveSeenStop : Z }.

(** The zero value of an option stands for its default. *)
Definition orDefault (value fallback : Z) : Z := if value =? 0 then fallback else value.

Definition withDefaults (o : ServiceOptions) : ServiceOptions :=
  mkServiceOptions (orDefault o.(soWarmPathTTL) (60 * time_Second)) (orDefault o.(soMaxScrolls) 10)
    (orDefault o.(soConsecutiveSeenStop) 3).

(** [audit]: the actions emitted, the latest last. *)
Record Service := mkService {
  state : State;
  stateReason : string;
  lastAuthCheck : Time;
  lastLoadedMtime : Time;
  lastFingerprint : CookieFingerprint;
  busyCount : Z;
  lastCookieBackupAttempt : Time;
  lastCookieBackupSuccess : Time;
  lastCookieBackupError : string;
  lastCookieReloadAttempt : Time;
  lastCookieReloadSuccess : Time;
  lastCookieReloadError : string;
  startedAt : Time;
  audit : list string }.

#[global] Instance eta_Service : Eta Service := λ s,
  mkService s.(state) s.(stateReason) s.(lastAuthCheck) s.(lastLoadedMtime) s.(lastFingerprint)
    s.(busyCount) s.(lastCookieBackupAttempt) s.(lastCookieBackupSuccess) s.(lastCookieBackupError)
    s.(lastCookieReloadAttempt) s.(lastCookieReloadSuccess) s.(lastCookieReloadError) s.(startedAt)
    s.(audit).

Definition NewService (now : Time) : Service :=
  mkService StateStarting "" zero_time zero_time zeroFingerprint 0 zero_time zero_time "" zero_time
    zero_time "" (UTC now) [].

Definition emit (action : string) (s : Service) : Service := s <| audit ::= λ l, l ++ [action] |>.

Definition SetState (now : Time) (newState : State) (reason : string) (s : Service) : Service :=
  if (s.(state) =? StateFailed)%string && negb (newState =? StateFailed)%string then s
  else
    let prevState := s.(state) in
    let s := s <| state := newState |> <| stateReason := reason |>
      <| lastAuthCheck ::= λ t,
           if one_of newState [StateHealthy; StateDegraded; StateUnauthenticated] then UTC now else t |> in
    if (newState =? StateUnauthenticated)%string && negb (prevState =? StateUnauthenticated)%string
    then emit "twitter.auth_expired" s
    else if (newState =? StateFailed)%string && negb (prevState =? StateFailed)%string
    then emit "twitter.browser_failed" s else s.

Definition MarkBrowserExited (now : Time) : Service → Service :=
  SetState now StateFailed "browser process exited".

(** The answer of /health is 200 exactly then. *)
Definition handleHealth (s : Service) : bool := (s.(state) =? StateHealthy)%string.

(** ** Authentication (auth.go) *)

Definition setBusy (v : bool) (s : Service) : Service :=
  s <| busyCount ::= λ n, if v then n + 1 else if 0 <? n then n - 1 else n |>.

(** The text of an error is reported once until it changes, and its end once. *)
Definition reported (failed recovered previous : string) (err : option string) (s : Service) : Service :=
  match err with
  | Some e => if (previous =? e)%string then s else emit failed s
  | None => if (previous =? "")%string then s else emit recovered s
  end.

Definition recordCookieBackup (now : Time) (err : option string) (s : Service) : Service :=
  let previous := s.(lastCookieBackupError) in
  let s := s <| lastCookieBackupAttempt := now |> <| lastCookieBackupError := default "" err |>
    <| lastCookieBackupSuccess ::= λ t, if is_nil err then now else t |> in
  reported "twitter.cookie_backup_failed" "twitter.cookie_backup_recovered" previous err s.

Definition recordCookieReload (now : Time) (err : option string) (s : Service) : Service :=
  let previous := s.(lastCookieReloadError) in
  let s := s <| lastCookieReloadAttempt := now |> <| lastCookieReloadError := default "" err |>
    <| lastCookieReloadSuccess ::= λ t, if is_nil err then now else t |> in
  reported "twitter.cookie_reload_failed" "twitter.cookie_reload_recovered" previous err s.

Section auth.
Context (sha256 : list Cookie → CookieFingerprint) (warmPathTTL : Duration).

(** [file] is the file as it is found, [None] when there is none, or the error of
    looking at it; [replaced] the error of the browser.  Returns whether cookies were
    loaded, or an error. *)
Definition maybeReloadCookies (now : Time) (file : string + option backupFile)
    (replaced : option string) (loaded : Time) (s : Service) : Service * (string + bool) :=
  match file with
  | inl err => (recordCookieReload now (Some err) s, inl err)
  | inr None => (s, inr false)
  | inr (Some f) =>
      if negb (After f.(bfMtime) loaded) then (s, inr false)
      else
        match ReadBackup f with
        | inl err => (recordCookieReload now (Some err) (s <| lastLoadedMtime := f.(bfMtime) |>), inr false)
        | inr cookies =>
            let s := SetState now StateLoading "reloading cookies from shared backup file" s in
            match replaced with
            | Some err =>
                (recordCookieReload now (Some err)
                   (SetState now StateFailed ("replace cookies failed: " +:+ err) s), inl err)
            | None =>
                (recordCookieReload now None (s <| lastLoadedMtime := f.(bfMtime) |>
                   <| lastFingerprint := Fingerprint sha256 cookies |>), inr true)
            end
        end
  end.

(** [cookies] is what the browser has; the file afterwards is the old one or [at_]
    new.  [others] is what other processes make of the file before its time is read
    back; [None] when it is gone by then. *)
Definition BackupCookies (now : Time) (cookies : string + list Cookie) (io : option string)
    (at_ : Time) (others : backupFile → option backupFile) (file : option backupFile) (s : Service)
    : Service * option backupFile * option string :=
  let done err s file := (recordCookieBackup now err s, file, err) in
  match cookies with
  | inl err => done (Some err) s file
  | inr cookies =>
      let filtered := filterToTwitterDomain cookies in
      match filtered with
      | [] => done None s file
      | _ =>
          let fp := Fingerprint sha256 filtered in
          if (fp =? s.(lastFingerprint))%string then done None s file
          else
            match WriteBackup cookies io at_ with
            | inl err => done (Some err) s file
            | inr written =>
                let s := s <| lastFingerprint := fp |> in
                match others written with
                | Some f => done None (s <| lastLoadedMtime := f.(bfMtime) |>) (Some f)
                | None => done None s None
                end
            end
      end
  end.

(** What VerifySession finds. *)
Inductive verdict :=
  | Verified
  | LoginRedirect (err : string)
  | Inconclusive (err : string).

(** The answers an operation gets; [anStat] is the error of looking at the file. *)
Record answers := mkAnswers {
  anStat : option string;
  anReplaced : option string;
  anVerified : verdict;
  anCookies : string + list Cookie;
  anWritten : option string;
  anWrittenAt : Time;
  anOthers : backupFile → option backupFile }.

Definition backup (now : Time) (a : answers) (file : option backupFile) (s : Service)
    : Service * option backupFile * option string :=
  BackupCookies now a.(anCookies) a.(anWritten) a.(anWrittenAt) a.(anOthers) file s.

Definition reload (now : Time) (a : answers) (file : option backupFile) (s : Service)
    : Service * (string + bool) :=
  maybeReloadCookies now (match a.(anStat) with Some err => inl err | None => inr file end)
    a.(anReplaced) s.(lastLoadedMtime) s.

(** The service, the file, and the error. *)
Definition ensureAuthenticated (forceVerify : bool) (now : Time) (a : answers)
    (file : option backupFile) (s : Service) : Service * option backupFile * option string :=
  let s := setBusy true s in
  let before := s.(state) in
  let '(s, reloaded) := reload now a file s in
  let '(s, file, err) :=
    match reloaded with
    | inl err => (s, file, Some err)
    | inr reloaded =>
        if negb forceVerify && negb reloaded && (before =? StateHealthy)%string &&
           (time_Sub now s.(lastAuthCheck) <? warmPathTTL)
        then (s, file, None)
        else
          match a.(anVerified) with
          | LoginRedirect err =>
              (SetState now StateUnauthenticated ("verify failed: " +:+ err) s, file, Some err)
          | Inconclusive err =>
              (SetState now StateDegraded ("verify failed: " +:+ err) s, file, Some err)
          | Verified => backup now a file (SetState now StateHealthy "verified" s)
          end
    end in
  (setBusy false s, file, err).

Definition EnsureAuthenticated := ensureAuthenticated false.
Definition VerifyAuthenticated := ensureAuthenticated true.

(** The status of the answer of /auth/verify. *)
Definition handleAuthVerify (now : Time) (a : answers) (file : option backupFile) (s : Service)
    : Service * option backupFile * Z :=
  let '(s, file, err) := VerifyAuthenticated now a file s in
  (s, file, if is_nil err && (s.(state) =? StateHealthy)%string then 200 else 503).

(** ** Sharing the file *)

(** A file the service may load: cookies of the two sites, one of them the token. *)
Definition trusted (f : backupFile) : Prop :=
  ∀ cookies, f.(bfCookies) = Some cookies →
    hasAuthToken cookies = true ∧ Forall (λ c, isTwitterDomain c.(ckDomain) = true) cookies.

Lemma filtered_all cookies :
  Forall (λ c, isTwitterDomain c.(ckDomain) = true) (filterToTwitterDomain cookies).
Proof. apply Forall_forall. by intros c [Hc _]%list_elem_of_filter. Qed.

Lemma WriteBackup_trusted cookies io at_ f : WriteBackup cookies io at_ = inr f →
  trusted f ∧ f = mkBackupFile at_ (Some (filterToTwitterDomain cookies)).
Proof.
  unfold WriteBackup. pose proof (filtered_all cookies) as Hall.
  destruct (filterToTwitterDomain cookies) as [|c l]; [done|].
  destruct (hasAuthToken (c :: l)) eqn:Ht; cbn [negb]; [|done]. destruct io; [done|].
  intros [= <-]. split; [|done]. by intros ? [= <-].
Qed.

(** An operation of a service keeps the file loadable, when the other processes do. *)
Theorem backup_keeps_trust now cookies io at_ others file s :
  (∀ f g, trusted f → others f = Some g → trusted g) →
  (∀ f, file = Some f → trusted f) →
  ∀ f, (BackupCookies now cookies io at_ others file s).1.2 = Some f → trusted f.
Proof.
  intros Ho Hf f. unfold BackupCookies. destruct cookies as [err|cookies]; [apply Hf|].
  destruct (filterToTwitterDomain cookies); [apply Hf|].
  destruct (_ =? _)%string; [apply Hf|].
  destruct (WriteBackup cookies io at_) as [err|written] eqn:Hw; [apply Hf|].
  apply WriteBackup_trusted in Hw as [Hw _]. destruct (others written) eqn:Hg; [|done].
  intros [= <-]. by eapply Ho.
Qed.

(** Instances do not wake each other: a service that has loaded the file, or has
    written it itself, and whose browser has the same cookies, leaves the file alone. *)
Theorem backup_settles now now' f cookies cookies' loaded s io at_ others :
  ReadBackup f = inr cookies → After f.(bfMtime) loaded = true →
  filterToTwitterDomain cookies' = cookies →
  let s' := (maybeReloadCookies now (inr (Some f)) None loaded s).1 in
  (BackupCookies now' (inr cookies') io at_ others (Some f) s').1.2 = Some f ∧
  (BackupCookies now' (inr cookies') io at_ others (Some f) s').2 = None.
Proof.
  intros Hr Ha Hc. cbn zeta. unfold maybeReloadCookies. rewrite Ha, Hr. cbn [negb fst].
  set (s1 := recordCookieReload _ _ _).
  assert (lastFingerprint s1 = Fingerprint sha256 cookies) as Hfp.
  { subst s1. unfold recordCookieReload, reported, emit. by repeat case_match. }
  unfold BackupCookies. rewrite Hc. destruct cookies; [done|].
  by rewrite Hfp, String.eqb_refl.
Qed.

(** But a file another instance writes just before its time is read back is taken for
    the instance's own, and its cookies are not loaded. *)
Theorem interleaved_write_is_missed now now' cookies io at_ theirs file s s' :
  BackupCookies now (inr cookies) io at_ (λ _, Some theirs) file s = (s', Some theirs, None) →
  file ≠ Some theirs →
  maybeReloadCookies now' (inr (Some theirs)) None s'.(lastLoadedMtime) s' = (s', inr false).
Proof.
  unfold BackupCookies. destruct (filterToTwitterDomain cookies); [intros [= <- ->]; done|].
  destruct (_ =? _)%string; [intros [= <- ->]; done|].
  destruct (WriteBackup cookies io at_); [intros [= <- ->]; done|].
  intros Heq _.
  assert (∀ err s, lastLoadedMtime (recordCookieBackup now err s) = lastLoadedMtime s) as Hr.
  { intros err s0. unfold recordCookieBackup, reported, emit. by repeat case_match. }
  apply (f_equal (λ r, lastLoadedMtime r.1.1)) in Heq. cbn [fst] in Heq. rewrite Hr in Heq.
  unfold maybeReloadCookies. rewrite <-Heq. unfold After. cbn. by rewrite Z.ltb_irrefl.
Qed.
End auth.
End session.
