(* ===== verification/Browser.v ===== *)
(** internal/twitter/search.go: the search of the browser service, from a request to
    its answer.  What the browser does on the page it is sent to is an input. *)
From S2P Require Import Prelude GoStrings Video GoTime Search Feed Timeline Session.
#[local] Open Scope string_scope.
#[local] Open Scope list_scope.
#[local] Open Scope Z_scope.
Import twittersearch feed timeline session.

Module browser.

(** contract/twittersearch/types.go *)
Record SearchErrorBody := mkSearchErrorBody {
  sbStatus : string;
  sbErrorClass : string;
  sbMessage : string;
  sbReauthURL : string;
  sbResultState : ResultState;
  sbEvidence : SearchEvidence }.

Definition errClassBadRequest : string := "bad_request".
Definition errClassEmptyQuery : string := "empty_query".
Definition errClassMethodNotAllowed : string := "method_not_allowed".
Definition errClassAuthExpired : string := "auth_expired".
Definition errClassNavigation : string := "navigation_failed".
Definition errClassInternal : string := "internal".

(** The answer to a request: a 200 with a response, or an error. *)
Inductive reply :=
  | searchOK (body : SearchResponse)
  | searchError (status : Z) (body : SearchErrorBody).

Definition writeSearchClassifiedError (status : Z) (class message : string) (resultState : ResultState)
    (evidence : SearchEvidence) : reply :=
  searchError status (mkSearchErrorBody "error" class message "" resultState evidence).

Definition writeSearchError (status : Z) (class message : string) : reply :=
  writeSearchClassifiedError status class message "" noSearchEvidence.

(** ** The page *)

Definition unreserved (c : ascii) : bool :=
  is_letter c || is_digit c || Ascii.eqb c "-"%char || Ascii.eqb c "_"%char || Ascii.eqb c "."%char ||
  Ascii.eqb c "~"%char.

Definition hexDigit (n : nat) : ascii :=
  Ascii.ascii_of_nat (if (n <? 10)%nat then 48 + n else 55 + n).

(** url.QueryEscape *)
Fixpoint QueryEscape (s : string) : string :=
  match s with
  | EmptyString => EmptyString
  | String c s =>
      let n := Ascii.nat_of_ascii c in
      if unreserved c then String c (QueryEscape s)
      else if Ascii.eqb c " "%char then String "+"%char (QueryEscape s)
      else String "%"%char (String (hexDigit (n / 16)) (String (hexDigit (n mod 16)) (QueryEscape s)))
  end.

Definition buildSearchURL (query : string) : string :=
  "https://x.com/search?q=" +:+ QueryEscape query +:+ "&src=typed_query&f=live".

(** How the wait for the first state of the feed ends. *)
Inductive feedWait :=
  | FeedShown
  | FeedTimeout
  | FeedFailed (err : string).

(** What the browser does at an address: the events of its requests up to the answer,
    the error of the navigation, the address before and after the wait for the shell
    of the application and whether that shows, the end of the wait for the feed, the
    number of tweets then, the page when it is read, and its scrolls. *)
Record visit := mkVisit {
  viScanID : string;
  viEvents : list (Time * pageEvent);
  viNavigated : option string;
  viURL : string;
  viShell : bool;
  viURLAfter : string;
  viFeed : feedWait;
  viArticles : Z;
  viPage : pageState;
  viViews : nat → view;
  viElapsed : string }.

Definition isLoginURL (raw : string) : bool := Contains raw "/login" || Contains raw "/flow/".

Definition verifyOnSearchPage (v : visit) : bool :=
  if isLoginURL v.(viURL) then false
  else if v.(viShell) then true
  else negb (isLoginURL v.(viURLAfter)).

(** ** The handler *)

Section handler.
Context (sha256 : list Cookie → CookieFingerprint) (withoutQuery : string → string)
  (options : ServiceOptions) (now : Time) (a : answers) (browse : string → visit).

Definition collector (v : visit) : searchEvidenceCollector :=
  observeAll v.(viEvents) (newEvidence v.(viScanID) now).

Definition network (v : visit) : SearchEvidence := networkSnapshot now (collector v).
Definition ofPage (v : visit) : SearchEvidence := pageSnapshot withoutQuery now v.(viPage) (collector v).

(** [_ = s.BackupCookies(ctx)] *)
Definition tryBackup (file : option backupFile) (s : Service) : Service * option backupFile :=
  let '(s, file, _) := backup sha256 now a file s in (s, file).

Definition maxAge (req : SearchRequest) : Z :=
  if req.(rqMaxAgeMinutes) <=? 0 then defaultMaxAgeMinutes else req.(rqMaxAgeMinutes).

Definition scanPage (req : SearchRequest) (v : visit) : scanResult :=
  scrollAndExtract options.(soMaxScrolls) options.(soConsecutiveSeenStop)
    (normalizeExcludeIDs req.(rqExcludeURLs)) (maxAge req) req.(rqWindow) v.(viViews).

(** A page without tweets. *)
Definition missingFeed (req : SearchRequest) (v : visit) (file : option backupFile) (s : Service)
    : Service * option backupFile * reply :=
  let '(s, file) := tryBackup file s in
  let resultState := classifyMissingFeed (ofPage v) in
  let answer status stop := searchOK (mkSearchResponse status resultState (ofPage v) [] 0 req.(rqQuery)
    stop 0 0 0 0 v.(viElapsed) req.(rqWindow)) in
  if (resultState =? ResultExplicitEmpty)%string
  then (SetState now StateHealthy "verified inline with explicit empty search" s, file,
        answer "success" stopExplicitEmpty)
  else (SetState now StateDegraded ("search feed unavailable: " +:+ resultState) s, file,
        answer "unavailable" stopFeedTimeout).

(** A page with tweets. *)
Definition renderedFeed (req : SearchRequest) (v : visit) (file : option backupFile) (s : Service)
    : Service * option backupFile * reply :=
  let s := SetState now StateHealthy "verified inline with rendered search" s in
  let r := scanPage req v in
  match r.(srErr) with
  | Some err => (s, file, writeSearchClassifiedError 500 errClassInternal ("extract: " +:+ err) "" (network v))
  | None =>
      let '(s, file) := tryBackup file s in
      (s, file, searchOK (mkSearchResponse "success" ResultRendered (ofPage v) r.(srVideos)
        (Z.of_nat (length r.(srVideos))) req.(rqQuery) r.(srStopReason) r.(srScrolls) v.(viArticles)
        r.(srTweetsParsed) r.(srVideoTweets) v.(viElapsed) req.(rqWindow)))
  end.

Definition searchPage (req : SearchRequest) (file : option backupFile) (s : Service)
    : Service * option backupFile * reply :=
  let v := browse (buildSearchURL req.(rqQuery)) in
  match v.(viNavigated) with
  | Some err =>
      (SetState now StateDegraded "search navigation failed" s, file,
       writeSearchClassifiedError 502 errClassNavigation ("navigate: " +:+ err) ResultUnknownTimeout
         ((network v) <| seTimelineFailure := "navigation_failed" |>))
  | None =>
      if negb (verifyOnSearchPage v)
      then (SetState now StateUnauthenticated "search navigation redirected to login/flow" s, file,
            writeSearchClassifiedError 503 errClassAuthExpired "session unauthenticated" ResultLogin (ofPage v))
      else
        match v.(viFeed) with
        | FeedFailed err =>
            (SetState now StateDegraded "search feed locator failed" s, file,
             writeSearchClassifiedError 500 errClassInternal ("wait for search state: " +:+ err) "" (network v))
        | _ => if v.(viArticles) =? 0 then missingFeed req v file s else renderedFeed req v file s
        end
  end.

(** The timeline of every scan is emitted. *)
Definition measured (r : Service * option backupFile * reply) : Service * option backupFile * reply :=
  let '(s, file, answer) := r in (emit "twitter_timeline_measured" s, file, answer).

(** An accepted request; its query is not blank. *)
Definition search (req : SearchRequest) (file : option backupFile) (s : Service)
    : Service * option backupFile * reply :=
  let s := setBusy true s in
  let '(s, reloaded) := reload sha256 now a file s in
  let '(s, file, answer) :=
    match reloaded with
    | inl err => (s, file, writeSearchError 500 errClassInternal ("reload cookies: " +:+ err))
    | inr _ => measured (searchPage req file s)
    end in
  (setBusy false s, file, answer).

(** [body] is the decoded request, or the error of decoding it. *)
Definition handleSearch (isPost : bool) (body : string + SearchRequest) (file : option backupFile)
    (s : Service) : Service * option backupFile * reply :=
  if negb isPost then (s, file, writeSearchError 405 errClassMethodNotAllowed "POST required")
  else
    match body with
    | inl err => (s, file, writeSearchError 400 errClassBadRequest ("invalid JSON: " +:+ err))
    | inr req =>
        let query := TrimSpace req.(rqQuery) in
        let req := mkSearchRequest query req.(rqExcludeURLs) req.(rqMaxAgeMinutes) req.(rqWindow) in
        if (query =? "")%string then (s, file, writeSearchError 400 errClassEmptyQuery "query is required")
        else if negb (SearchRequest_ValidateWindow req)
        then (s, file, writeSearchError 400 errClassBadRequest "search window")
        else search req file s
    end.

(** ** What an answer says *)

(** The session of the service after an operation. *)
Definition leaves (P : State → Prop) (r : Service * option backupFile * reply) : Prop :=
  P r.1.1.(state).

Lemma SetState_state new reason s :
  state (SetState now new reason s) =
  if (s.(state) =? StateFailed)%string && negb (new =? StateFailed)%string then s.(state) else new.
Proof. unfold SetState, emit. repeat case_match; done. Qed.

Lemma reported_state failed recovered previous err s :
  state (reported failed recovered previous err s) = state s.
Proof. unfold reported, emit. repeat case_match; done. Qed.

Lemma recordCookieBackup_state err s : state (recordCookieBackup now err s) = state s.
Proof. unfold recordCookieBackup. by rewrite reported_state. Qed.

Lemma recordCookieReload_state err s : state (recordCookieReload now err s) = state s.
Proof. unfold recordCookieReload. by rewrite reported_state. Qed.

Lemma tryBackup_state file s : state (tryBackup file s).1 = state s.
Proof.
  unfold tryBackup, backup, BackupCookies. destruct (anCookies a) as [err|cookies]; [apply recordCookieBackup_state|].
  destruct (filterToTwitterDomain cookies); [apply recordCookieBackup_state|].
  destruct (_ =? _)%string; [apply recordCookieBackup_state|].
  destruct (WriteBackup _ _ _); [apply recordCookieBackup_state|].
  destruct (anOthers a _); cbn -[recordCookieBackup]; by rewrite recordCookieBackup_state.
Qed.

(** What a search does to the state of a service that has not failed. *)
Lemma live_SetState new reason s :
  s.(state) ≠ StateFailed → state (SetState now new reason s) = new.
Proof. intros Hs. rewrite SetState_state. apply String.eqb_neq in Hs. by rewrite Hs. Qed.

Lemma failed_SetState new reason s :
  s.(state) = StateFailed → state (SetState now new reason s) = StateFailed.
Proof.
  intros Hs. rewrite SetState_state, Hs. cbn.
  destruct (String.eqb_spec new StateFailed); done.
Qed.

Lemma reload_state file s :
  let r := reload sha256 now a file s in
  (s.(state) = StateFailed → state r.1 = StateFailed) ∧
  (s.(state) ≠ StateFailed → r.2 ≠ inr true → is_nil a.(anReplaced) = true → state r.1 = state s) ∧
  (s.(state) ≠ StateFailed → is_nil a.(anReplaced) = true → state r.1 ≠ StateFailed).
Proof.
  cbn zeta. unfold reload, maybeReloadCookies.
  destruct (anStat a) as [err|]; cbn -[recordCookieReload]; [by rewrite recordCookieReload_state|].
  destruct file as [f|]; [|done]. destruct (negb _); [done|].
  destruct (ReadBackup f); cbn -[recordCookieReload]; [by rewrite recordCookieReload_state|].
  destruct (anReplaced a); cbn -[recordCookieReload]; rewrite recordCookieReload_state; cbn.
  - split; [intros Hs; by rewrite failed_SetState; [|apply failed_SetState]|]. done.
  - split; [intros Hs; by apply failed_SetState|]. split; [done|]. intros Hs _. by rewrite live_SetState.
Qed.

(** What a 200 says of the visit. *)
Definition faithful (req : SearchRequest) (v : visit) (r : SearchResponse) : Prop :=
  v.(viNavigated) = None ∧ isLoginURL v.(viURL) = false ∧ r.(rsWindow) = req.(rqWindow) ∧
  r.(rsCount) = Z.of_nat (length r.(rsVideos)) ∧
  if v.(viArticles) =? 0
  then r.(rsVideos) = [] ∧ r.(rsResultState) = classifyMissingFeed (ofPage v)
  else r.(rsResultState) = ResultRendered ∧
    let scan := scanPage req v in
    scan.(srErr) = None ∧ r.(rsVideos) = scan.(srVideos) ∧ r.(rsStopReason) = scan.(srStopReason) ∧
    r.(rsScrolls) = scan.(srScrolls) ∧ r.(rsTweetsParsed) = scan.(srTweetsParsed).

Definition sound (req : SearchRequest) (v : visit) (before : State) (r : Service * option backupFile * reply)
    : Prop :=
  (before = StateFailed → state r.1.1 = StateFailed) ∧
  match r.2 with
  | searchError status _ => 400 ≤ status ≤ 599
  | searchOK body => faithful req v body ∧
      (before ≠ StateFailed →
         state r.1.1 = if ResultState_Usable body.(rsResultState) then StateHealthy else StateDegraded)
  end.

Lemma missingFeed_sound req v file s :
  v.(viNavigated) = None → isLoginURL v.(viURL) = false → (v.(viArticles) =? 0) = true →
  sound req v s.(state) (missingFeed req v file s).
Proof.
  intros Hn Hl Ha. unfold missingFeed. pose proof (tryBackup_state file s) as Hb.
  destruct (tryBackup file s) as [s1 file1]. cbn in Hb. rewrite <-Hb.
  destruct (String.eqb_spec (classifyMissingFeed (ofPage v)) ResultExplicitEmpty) as [He|He].
  - split; [intros Hf; by apply failed_SetState|]. cbn [snd fst].
    split; [by repeat split; rewrite ?Ha|]. intros Hf. cbn. by rewrite live_SetState, He.
  - split; [intros Hf; by apply failed_SetState|]. cbn [snd fst].
    split; [by repeat split; rewrite ?Ha|]. intros Hf. cbn. rewrite live_SetState by done.
    revert He. unfold classifyMissingFeed. by repeat case_match.
Qed.

Lemma renderedFeed_sound req v file s :
  v.(viNavigated) = None → isLoginURL v.(viURL) = false → (v.(viArticles) =? 0) = false →
  sound req v s.(state) (renderedFeed req v file s).
Proof.
  intros Hn Hl Ha. unfold renderedFeed. set (s1 := SetState _ _ _ s).
  destruct (srErr (scanPage req v)) as [err|] eqn:He.
  { split; [intros Hf; by apply failed_SetState|]. cbn. lia. }
  pose proof (tryBackup_state file s1) as Hb. destruct (tryBackup file s1) as [s2 file2]. cbn in Hb.
  split; cbn [fst snd]; rewrite Hb; [intros Hf; by apply failed_SetState|].
  split; [|intros Hf; by apply live_SetState].
  by repeat split; rewrite ?Ha.
Qed.

Lemma searchPage_sound req file s :
  sound req (browse (buildSearchURL req.(rqQuery))) s.(state) (searchPage req file s).
Proof.
  unfold searchPage. set (v := browse _).
  assert (∀ new reason status body, 400 ≤ status ≤ 599 →
    sound req v s.(state) (SetState now new reason s, file, searchError status body)) as Herr.
  { intros new reason status body Hst. split; [intros Hf; by apply failed_SetState|done]. }
  destruct (viNavigated v) eqn:Hn; [apply Herr; lia|].
  destruct (verifyOnSearchPage v) eqn:Hv; cbn [negb]; [|apply Herr; lia].
  assert (isLoginURL (viURL v) = false) as Hl.
  { unfold verifyOnSearchPage in Hv. by destruct (isLoginURL (viURL v)). }
  destruct (viFeed v); [| |apply Herr; lia];
    (destruct (viArticles v =? 0) eqn:Ha; [by apply missingFeed_sound|by apply renderedFeed_sound]).
Qed.

Lemma handleSearch_sound req file s :
  let query := TrimSpace req.(rqQuery) in
  let req' := mkSearchRequest query req.(rqExcludeURLs) req.(rqMaxAgeMinutes) req.(rqWindow) in
  let r := handleSearch true (inr req) file s in
  (s.(state) = StateFailed → state r.1.1 = StateFailed) ∧
  match r.2 with
  | searchError status _ => 400 ≤ status ≤ 599
  | searchOK body =>
      query ≠ "" ∧ SearchRequest_ValidateWindow req = true ∧
      faithful req' (browse (buildSearchURL query)) body ∧
      (s.(state) ≠ StateFailed → is_nil a.(anReplaced) = true →
         state r.1.1 = if ResultState_Usable body.(rsResultState) then StateHealthy else StateDegraded)
  end.
Proof.
  cbn zeta. unfold handleSearch. cbn [negb].
  set (req' := mkSearchRequest _ _ _ _).
  destruct (String.eqb_spec (TrimSpace (rqQuery req)) "") as [Hq|Hq]; [split; [done|cbn; lia]|].
  destruct (SearchRequest_ValidateWindow req') eqn:Hw; cbn [negb]; [|split; [done|cbn; lia]].
  unfold search. set (s1 := setBusy true s). change (state s) with (state s1).
  destruct (reload_state file s1) as (Hf & _ & Hl).
  destruct (reload sha256 now a file s1) as [s2 [err|loaded]]; cbn in Hf, Hl; [split; [done|cbn; lia]|].
  pose proof (searchPage_sound req' file s2) as [Hfail Hs]. destruct (searchPage req' file s2) as [[s3 file3] answer].
  cbn in *. split; [auto|]. destruct answer as [body|status body]; [|done].
  destruct Hs as [Hs Hstate]. split; [done|]. split; [done|]. split; [done|]. auto.
Qed.

(** The answer of the service to a search.  An error is an error to its caller too.  A
    200 is given for a valid request, on a page that was reached and was no login, and
    echoes the window of the request: with tweets on it, the answer is rendered and
    holds what the scan of the page reads ([reads]); without, it holds no clip and the
    state the evidence supports.  The service is healthy afterwards exactly when the
    result is usable; but a service that has failed stays failed. *)
Theorem search_answers req file s :
  let query := TrimSpace req.(rqQuery) in
  let v := browse (buildSearchURL query) in
  let r := handleSearch true (inr req) file s in
  (s.(state) = StateFailed → state r.1.1 = StateFailed) ∧
  match r.2 with
  | searchError status _ => 400 ≤ status ≤ 599
  | searchOK body =>
      query ≠ "" ∧ SearchRequest_ValidateWindow req = true ∧ body.(rsWindow) = req.(rqWindow) ∧
      v.(viNavigated) = None ∧ isLoginURL v.(viURL) = false ∧
      (if v.(viArticles) =? 0
       then body.(rsVideos) = [] ∧ body.(rsResultState) = classifyMissingFeed (ofPage v)
       else body.(rsResultState) = ResultRendered ∧
         ∃ read scan, reads options.(soMaxScrolls) options.(soConsecutiveSeenStop)
             (normalizeExcludeIDs req.(rqExcludeURLs)) (maxAge req) req.(rqWindow) v.(viViews) read scan ∧
           body.(rsVideos) = scan.(srVideos) ∧ body.(rsStopReason) = scan.(srStopReason)) ∧
      (s.(state) ≠ StateFailed → is_nil a.(anReplaced) = true →
         state r.1.1 = if ResultState_Usable body.(rsResultState) then StateHealthy else StateDegraded)
  end.
Proof.
  destruct (handleSearch_sound req file s) as [Hf Hs]. cbn zeta. split; [done|].
  destruct (_.2) as [body|]; [|done]. destruct Hs as (Hq & Hw & (Hn & Hl & Hwin & _ & Hpage) & Hst).
  repeat (split; [done|]). split; [|done].
  destruct (viArticles _ =? 0); [done|]. destruct Hpage as (Hr & He & Hv & Hstop & _).
  split; [done|]. destruct (scan_reads _ _ _ _ _ _ He) as [read Hread].
  by exists read, (scanPage (mkSearchRequest (TrimSpace req.(rqQuery)) req.(rqExcludeURLs)
    req.(rqMaxAgeMinutes) req.(rqWindow)) (browse (buildSearchURL (TrimSpace req.(rqQuery))))).
Qed.
End handler.
End browser.
