(* ===== verification/Client.v ===== *)
(** internal/infra/twitter/client.go, internal/activity/twittermaintenance and
    internal/workflow/twitter_maintenance.go: the client of the browser service, and
    the probe of it that runs on a schedule.

    [dial] is the network: the answer of the service at an address, or the error of
    the transport.  The JSON text of an answer is what it decodes to. *)
From S2P Require Import Prelude GoStrings Event Discovery Video GoTime Search Wire Producer Feed Timeline Session Browser.
#[local] Open Scope string_scope.
#[local] Open Scope list_scope.
#[local] Open Scope Z_scope.
Import twittersearch discoveryactivity wire producer feed timeline session browser.

Module client.

(** An answer over HTTP: its status, and its body read as a response and as an error;
    [None] when it cannot be. *)
Record httpResponse := mkHttpResponse {
  hrStatus : Z;
  hrResponse : option SearchResponse;
  hrError : option SearchErrorBody }.

(** The answer of the browser service as it arrives. *)
Definition wireOf (r : reply) : httpResponse :=
  match r with
  | searchOK body => mkHttpResponse 200 (Some body) None
  | searchError status body => mkHttpResponse status None (Some body)
  end.

Section client.
Context (baseURL : string) (dial : string → SearchRequest → string + httpResponse).

Definition isSuccess (status : Z) : bool := (200 <=? status) && (status <? 300).

(** The instance of an event that cannot be reached is replaced by the shared service,
    once. *)
Definition dialOnce (base : string) (req : SearchRequest) : string + httpResponse :=
  match dial base req with
  | inl err => if (base =? baseURL)%string then inl err else dial baseURL req
  | inr resp => inr resp
  end.

(** An old browser does not know windows, and its answer is refused. *)
Definition windowApplied (req : SearchRequest) (out : SearchResponse) : bool :=
  match req.(rqWindow) with
  | None => true
  | Some w =>
      if ResultState_Usable out.(rsResultState) || (out.(rsResultState) =? "")%string
      then match out.(rsWindow) with Some w' => SearchWindow_Equal w w' | None => false end
      else true
  end.

Definition Search (addr : string) (req : SearchRequest) : clientError + SearchResponse :=
  if negb (SearchRequest_ValidateWindow req) then inl (otherError [plainError])
  else
    match dialOnce (if negb (addr =? "")%string then addr else baseURL) req with
    | inl _ => inl (otherError [plainError])
    | inr resp =>
        if negb (isSuccess resp.(hrStatus)) then
          match resp.(hrError) with
          | None => inl (otherError [plainError])
          | Some b => inl (SearchError b.(sbResultState) b.(sbEvidence))
          end
        else
          match resp.(hrResponse) with
          | None => inl (otherError [plainError])
          | Some out =>
              if negb (out.(rsResultState) =? "")%string && negb (ResultState_Known out.(rsResultState))
              then inl (otherError [plainError])
              else if negb (windowApplied req out) then inl (otherError [plainError])
              else inr out
          end
    end.

Lemma Search_response addr req out :
  Search addr req = inr out →
  SearchRequest_ValidateWindow req = true ∧ windowApplied req out = true ∧
  ∃ resp, dialOnce (if negb (addr =? "")%string then addr else baseURL) req = inr resp ∧
    hrResponse resp = Some out.
Proof.
  unfold Search. destruct (SearchRequest_ValidateWindow req); cbn [negb]; [|done].
  destruct (dialOnce _ req) as [err|resp]; [done|].
  destruct (isSuccess _); cbn [negb]; [|by destruct (hrError resp)].
  destruct (hrResponse resp) as [out'|] eqn:Ho; [|done].
  destruct (_ && _); [done|]. destruct (windowApplied req out') eqn:Hw; cbn [negb]; [|done].
  intros [= <-]. split; [done|]. split; [done|]. by exists resp.
Qed.

(** [posted] is the status of the answer to /auth/verify, or the error of the transport. *)
Definition Verify (posted : string + Z) : option string :=
  match posted with
  | inl err => Some ("twitter.Verify: " +:+ err)
  | inr status => if isSuccess status then None else Some ("twitter.Verify: " +:+ Itoa status)
  end.
End client.

(** ** A search from the activity to the page *)

(** A browser service at the moment of a request. *)
Record instance := mkInstance {
  inSha256 : list Cookie → CookieFingerprint;
  inWithoutQuery : string → string;
  inOptions : ServiceOptions;
  inNow : Time;
  inAnswers : answers;
  inBrowse : string → visit;
  inFile : option backupFile;
  inService : Service }.

Definition serve (i : instance) (req : SearchRequest) : httpResponse :=
  wireOf (handleSearch i.(inSha256) i.(inWithoutQuery) i.(inOptions) i.(inNow) i.(inAnswers)
    i.(inBrowse) true (inr req) i.(inFile) i.(inService)).2.

Section search.
(** The service that can be reached at an address. *)
Context (baseURL : string) (reachable : string → option instance).

Definition network (addr : string) (req : SearchRequest) : string + httpResponse :=
  match reachable addr with None => inl "connection refused" | Some inst => inr (serve inst req) end.

(** The service that answers a search for an address. *)
Definition answering (addr : string) : option instance :=
  match reachable (if negb (addr =? "")%string then addr else baseURL) with
  | Some inst => Some inst
  | None => reachable baseURL
  end.

(** The page a search is read from. *)
Definition pageOf (i : instance) (query : string) : visit := i.(inBrowse) (buildSearchURL (TrimSpace query)).

Lemma served_rendered i req out :
  hrResponse (serve i req) = Some out → out.(rsResultState) = ResultRendered →
  let scan := scrollAndExtract i.(inOptions).(soMaxScrolls) i.(inOptions).(soConsecutiveSeenStop)
    (normalizeExcludeIDs req.(rqExcludeURLs)) (maxAge req) req.(rqWindow)
    (pageOf i req.(rqQuery)).(viViews) in
  scan.(srErr) = None ∧ out.(rsVideos) = scan.(srVideos) ∧ out.(rsStopReason) = scan.(srStopReason).
Proof.
  unfold serve. pose proof (handleSearch_sound i.(inSha256) i.(inWithoutQuery) i.(inOptions) i.(inNow)
    i.(inAnswers) i.(inBrowse) req i.(inFile) i.(inService)) as [_ Hs].
  destruct (_.2) as [body|status body]; [|done]. cbn. intros [= <-] Hr.
  destruct Hs as (_ & _ & (_ & _ & _ & _ & Hpage) & _). unfold pageOf.
  destruct (viArticles _ =? 0).
  - destruct Hpage as [_ Hc]. rewrite Hr in Hc. unfold classifyMissingFeed in Hc. by repeat case_match.
  - destruct Hpage as (_ & He & Hv & Hstop & _). done.
Qed.

Lemma answered addr req out :
  Search baseURL network addr req = inr out →
  ∃ inst, answering addr = Some inst ∧ hrResponse (serve inst req) = Some out.
Proof.
  intros (_ & _ & resp & Hd & Hresp)%Search_response. unfold answering, dialOnce, network in *.
  set (base := if negb (addr =? "")%string then addr else baseURL) in *.
  destruct (reachable base) as [inst|] eqn:Hi; [injection Hd as <-; by exists inst|].
  destruct (base =? baseURL)%string; [done|].
  destruct (reachable baseURL) as [inst|]; [injection Hd as <-; by exists inst|done].
Qed.

(** C12: A search that says it reached the floor of its window returns the clips of the
    window.  Through the activity and the client: if the result is rendered and stopped
    by age, the service at the address, or else the shared one, has answered; and where
    the page it visits for the query shows the newest first, of all the tweets any
    number of scrolls would show - organic, with a video that can be downloaded, not
    excluded by the request and with a time that can be read - exactly those not older
    than the floor are returned. *)
Theorem search_covers_window i out w :
  SearchTweets (Some (Search baseURL network)) i = inr out →
  i.(stWindow) = Some w → out.(soResultState) = ResultRendered → out.(soStopReason) = stopAge →
  ∃ inst, answering i.(stInstanceAddr) = Some inst ∧
    let page := pageOf inst i.(stQuery) in
    newestFirst page.(viViews) →
    ∀ k u q, u ∈ feedUpTo page.(viViews) k →
      wanted (normalizeExcludeIDs i.(stExcludeURLs)) u = true →
      gotime.ParseRFC3339 u.(etDatetime) = Some q →
      (videoRef u ∈ out.(soVideos) ↔ w.(EarliestTweetAt) ≤ q).
Proof.
  intros Hout Hwin Hr Hage. unfold SearchTweets in Hout.
  destruct (stQuery i =? "")%string; [done|]. destruct (negb _); [done|].
  destruct (Search baseURL network (stInstanceAddr i) (searchRequest i)) as [[]|resp] eqn:Hs; [by case_match|done|].
  injection Hout as <-. cbn in Hr, Hage.
  destruct (answered _ _ _ Hs) as (inst & Hinst & Hresp). exists inst. split; [done|].
  intros page Hnew k u q Hu Hw Hq.
  destruct (served_rendered inst _ _ Hresp Hr) as (He & Hv & Hstop). cbn [soVideos]. rewrite Hv.
  rewrite Hstop in Hage.
  eapply scan_covers_window; [exact Hwin|exact Hnew|exact He|exact Hage|exact Hu|exact Hw|exact Hq].
Qed.
End search.

(** A browser that does not know windows is not believed: whatever answers, a usable
    result is returned only if it names the window that was asked for. *)
Theorem old_browser_is_refused baseURL dial addr req out w :
  Search baseURL dial addr req = inr out → req.(rqWindow) = Some w →
  ResultState_Usable out.(rsResultState) = true →
  ∃ w', out.(rsWindow) = Some w' ∧ SearchWindow_Equal w w' = true.
Proof.
  intros (_ & Hw & _)%Search_response Hwin Hu. unfold windowApplied in Hw. rewrite Hwin, Hu in Hw.
  cbn [orb] in Hw. destruct (rsWindow out) as [w'|]; [by exists w'|done].
Qed.

(** ** The maintenance probe *)

Record RunTwitterMaintenanceInput := mkRunTwitterMaintenanceInput {
  rmQuery : string;
  rmMaxAgeMinutes : Z;
  rmMinTweets : Z;
  rmMinVideos : Z }.

Record RunTwitterMaintenanceOutput := mkRunTwitterMaintenanceOutput {
  roResultState : ResultState;
  roEvidence : SearchEvidence;
  roStopReason : string;
  roInitialArticles : Z;
  roTweetsParsed : Z;
  roVideoTweets : Z;
  roVideosFound : Z }.

Definition noMaintenanceOutput : RunTwitterMaintenanceOutput :=
  mkRunTwitterMaintenanceOutput "" noSearchEvidence "" 0 0 0 0.

(** What the activity fails with: the evidence of the probe, not to be retried, or
    another error. *)
Inductive maintenanceError :=
  | canaryFailure (out : RunTwitterMaintenanceOutput) (message : string)
  | maintenanceFailed (message : string).

(** url.Parse: the scheme, the host name and the path of an address. *)
Record parsedURL := mkParsedURL { puScheme : string; puHostname : string; puPath : string }.

Section maintenance.
Context (parseURL : string → option parsedURL).

Definition validStatusURL (raw : string) : bool :=
  match parseURL raw with
  | None => false
  | Some u =>
      let host := ToLower u.(puHostname) in
      (u.(puScheme) =? "https")%string && Contains u.(puPath) "/status/" &&
      ((host =? "x.com")%string || HasSuffix host ".x.com" ||
       (host =? "twitter.com")%string || HasSuffix host ".twitter.com")
  end.

Definition outputOf (resp : SearchResponse) : RunTwitterMaintenanceOutput :=
  mkRunTwitterMaintenanceOutput resp.(rsResultState) resp.(rsEvidence) resp.(rsStopReason)
    resp.(rsInitialArticles) resp.(rsTweetsParsed) resp.(rsVideoTweets) resp.(rsCount).

(** The complaint about a response, if any. *)
Definition canaryComplaint (inp : RunTwitterMaintenanceInput) (resp : SearchResponse) : option string :=
  if ResultState_Known resp.(rsResultState) && negb (resp.(rsResultState) =? ResultRendered)%string
  then Some "search feed state"
  else if (resp.(rsStopReason) =? "feed_timeout")%string || (resp.(rsInitialArticles) =? 0)
  then Some "no search feed rendered"
  else if resp.(rsTweetsParsed) <? inp.(rmMinTweets) then Some "parsed tweets"
  else if (resp.(rsVideoTweets) <? inp.(rmMinVideos)) ||
          (Z.of_nat (length resp.(rsVideos)) <? inp.(rmMinVideos))
  then Some "found video tweets"
  else if forallb (λ v, validStatusURL v.(vrTweetURL)) resp.(rsVideos) then None
  else Some "malformed status URL".

(** [verified] and [searched] are the answers of the client; the output, and the
    error. *)
Definition RunTwitterMaintenance (verified : option string)
    (searched : SearchRequest → clientError + SearchResponse) (inp : RunTwitterMaintenanceInput)
    : RunTwitterMaintenanceOutput * option maintenanceError :=
  match verified with
  | Some err => (noMaintenanceOutput, Some (maintenanceFailed ("verify: " +:+ err)))
  | None =>
      match searched (mkSearchRequest inp.(rmQuery) [] inp.(rmMaxAgeMinutes) None) with
      | inl (SearchError state evidence) =>
          if ResultState_Known state then
            let out := mkRunTwitterMaintenanceOutput state evidence "" 0 0 0 0 in
            (out, Some (canaryFailure out "canary search"))
          else (noMaintenanceOutput, Some (maintenanceFailed "canary search"))
      | inl (otherError _) => (noMaintenanceOutput, Some (maintenanceFailed "canary search"))
      | inr resp =>
          let out := outputOf resp in
          match canaryComplaint inp resp with
          | Some message => (out, Some (canaryFailure out message))
          | None => (out, None)
          end
      end
  end.

Definition defaultTwitterCanaryQuery : string := "football goal filter:videos".
Definition defaultTwitterCanaryMaxAge : Z := 1440.
Definition defaultTwitterCanaryMinTweets : Z := 3.
Definition defaultTwitterCanaryMinVideos : Z := 3.

(** The workflow runs the activity once, with these inputs. *)
Definition maintenanceInput (inp : RunTwitterMaintenanceInput) : RunTwitterMaintenanceInput :=
  mkRunTwitterMaintenanceInput
    (if (inp.(rmQuery) =? "")%string then defaultTwitterCanaryQuery else inp.(rmQuery))
    (orDefault inp.(rmMaxAgeMinutes) defaultTwitterCanaryMaxAge)
    (orDefault inp.(rmMinTweets) defaultTwitterCanaryMinTweets)
    (orDefault inp.(rmMinVideos) defaultTwitterCanaryMinVideos).

Definition TwitterMaintenanceWorkflow (verified : option string)
    (searched : SearchRequest → clientError + SearchResponse) (inp : RunTwitterMaintenanceInput)
    : RunTwitterMaintenanceOutput * option maintenanceError :=
  match RunTwitterMaintenance verified searched (maintenanceInput inp) with
  | (_, Some err) => (noMaintenanceOutput, Some err)
  | (out, None) => (out, None)
  end.

(** The probe passes only on evidence: the session was verified, and the search showed
    tweets and as many videos as it should, each at the address of a status. *)
Theorem probe_needs_evidence verified searched inp out :
  RunTwitterMaintenance verified searched inp = (out, None) →
  verified = None ∧ ∃ resp, searched (mkSearchRequest inp.(rmQuery) [] inp.(rmMaxAgeMinutes) None) = inr resp ∧
    out = outputOf resp ∧ (ResultState_Known resp.(rsResultState) = true → resp.(rsResultState) = ResultRendered) ∧
    resp.(rsInitialArticles) ≠ 0 ∧ inp.(rmMinTweets) ≤ resp.(rsTweetsParsed) ∧
    inp.(rmMinVideos) ≤ resp.(rsVideoTweets) ∧ inp.(rmMinVideos) ≤ Z.of_nat (length resp.(rsVideos)) ∧
    Forall (λ v, validStatusURL v.(vrTweetURL) = true) resp.(rsVideos).
Proof.
  unfold RunTwitterMaintenance. destruct verified; [done|].
  destruct (searched _) as [[state evidence|]|resp]; [by case_match|done|].
  destruct (canaryComplaint inp resp) eqn:Hc; [done|]. intros [= <-]. split; [done|]. exists resp.
  unfold canaryComplaint in Hc.
  destruct (ResultState_Known (rsResultState resp) && negb (rsResultState resp =? ResultRendered)%string) eqn:H1; [done|].
  destruct ((rsStopReason resp =? "feed_timeout")%string || (rsInitialArticles resp =? 0)) eqn:H2; [done|].
  destruct (Z.ltb_spec (rsTweetsParsed resp) (rmMinTweets inp)); [done|].
  destruct ((rsVideoTweets resp <? rmMinVideos inp) || _) eqn:H3 in Hc; [done|].
  destruct (forallb _ _) eqn:H4 in Hc; [|done].
  apply orb_false_iff in H2 as [_ H2%Z.eqb_neq]. apply orb_false_iff in H3 as [H3%Z.ltb_ge H5%Z.ltb_ge].
  split; [done|]. split; [done|]. split; [|split; [done|split; [done|split; [done|split; [done|]]]]].
  - intros Hk. rewrite Hk in H1. cbn in H1. by apply negb_false_iff, String.eqb_eq in H1.
  - apply Forall_forall. intros v Hv. rewrite forallb_forall in H4. by apply H4, list_elem_of_In.
Qed.
End maintenance.
End client.
