(* ===== verification/Lookout.v ===== *)
(** A concrete search: a page that shows the newest tweets first, scanned down to the
    floor of a window, through the client and the activity. *)
From S2P Require Import Prelude GoStrings Event Discovery Vision Video GoTime Search Wire Producer Feed Timeline Session Browser Client.
From Stdlib Require Import SpecFloat.
#[local] Open Scope string_scope.
#[local] Open Scope list_scope.
#[local] Open Scope Z_scope.
Import twittersearch discoveryactivity wire producer feed timeline session browser client.

Module lookout.

Definition tweet (id datetime : string) (promoted hasVideo : bool) : extractedTweet :=
  mkExtractedTweet ("https://x.com/fan/status/" +:+ id) "Goal" datetime promoted hasVideo
    (S754_zero false) (S754_zero false).

Definition latest : extractedTweet := tweet "1900000000000000003" "2026-09-09T20:07:00.000Z" false true.
Definition advert : extractedTweet := tweet "1900000000000000009" "2026-09-01T08:00:00.000Z" true true.
Definition known : extractedTweet := tweet "1900000000000000002" "2026-09-09T20:05:00.000Z" false true.
Definition first_ : extractedTweet := tweet "1900000000000000001" "2026-09-09T20:00:00.000Z" false true.
Definition stale : extractedTweet := tweet "1900000000000000000" "2026-09-09T19:59:59.999Z" false true.

(** The second scroll shows two tweets again; the third shows nothing. *)
Definition views (i : nat) : view :=
  mkView None (inr (match i with
    | O => [latest; advert; known] | 1%nat => [known; latest; first_; stale] | _ => [] end)) 0 None None.

Definition floor : Time := default 0 (gotime.ParseRFC3339 "2026-09-09T20:00:00Z").
Definition window : SearchWindow := mkSearchWindow floor false.

Definition page (url : string) : visit :=
  mkVisit "scan" [] None "https://x.com/search" true "https://x.com/search" FeedShown 3
    (mkPageState "https://x.com/search" None true false false None) views "2s".

Definition service : instance :=
  mkInstance (λ _, "digest") (λ url, url) (withDefaults (mkServiceOptions 0 0 0)) 1000
    (mkAnswers None None Verified (inr []) None 0 Some) page None (NewService 0).

Definition asked : SearchTweetsInput :=
  mkSearchTweetsInput 1%positive 7 "(fan)" [etTweetURL known] 0 (Some window) "".

Definition reach (addr : string) : option instance :=
  if (addr =? "http://twitter:8888")%string then Some service else None.

(** What comes back. *)
Definition found : SearchTweetsOutput :=
  match SearchTweets (Some (Search "http://twitter:8888" (network reach))) asked with
  | inr out => out
  | inl _ => noSearchOutput
  end.

Lemma found_now : SearchTweets (Some (Search "http://twitter:8888" (network reach))) asked = inr found.
Proof. vm_compute. reflexivity. Qed.

(** The order of a page, decided. *)
Definition notNewer (t u : extractedTweet) : bool :=
  match gotime.ParseRFC3339 t.(etDatetime), gotime.ParseRFC3339 u.(etDatetime) with
  | Some p, Some q => q <=? p
  | _, _ => true
  end.

Fixpoint descending (l : list extractedTweet) : bool :=
  match l with [] => true | t :: l => forallb (notNewer t) l && descending l end.

Lemma descending_sorted l : descending l = true →
  StronglySorted (λ t u, ∀ p q, gotime.ParseRFC3339 t.(etDatetime) = Some p →
    gotime.ParseRFC3339 u.(etDatetime) = Some q → q ≤ p) l.
Proof.
  induction l as [|t l IH]; cbn [descending]; [constructor|]. intros [Ht Hl]%andb_true_iff.
  constructor; [by apply IH|]. apply Forall_forall. intros u Hu p q Hp Hq.
  rewrite forallb_forall in Ht. specialize (Ht u (proj1 (list_elem_of_In l u) Hu)).
  unfold notNewer in Ht. rewrite Hp, Hq in Ht. by apply Z.leb_le.
Qed.

Lemma views_newest : newestFirst views.
Proof.
  intros k. apply descending_sorted.
  assert (feedUpTo views k = feedUpTo views 0 ∨ feedUpTo views k = feedUpTo views 1 ∨
    feedUpTo views k = feedUpTo views 2) as Hk.
  { destruct k as [|[|k]]; [by left|right; by left|]. right; right.
    induction k as [|k IH]; [reflexivity|]. rewrite feedUpTo_S, IH. apply app_nil_r. }
  destruct Hk as [-> | [-> | ->]]; vm_compute; reflexivity.
Qed.

Lemma search_covers_window_witness :
  SearchTweets (Some (Search "http://twitter:8888" (network reach))) asked = inr found ∧
  videoRef (withAge 0 first_) ∈ soVideos found.
Proof.
  split; [exact found_now|].
  destruct (client.search_covers_window "http://twitter:8888" reach asked found window found_now
    eq_refl ltac:(vm_compute; reflexivity) ltac:(vm_compute; reflexivity)) as (inst & Hinst & Hall).
  vm_compute in Hinst. injection Hinst as <-.
  refine (proj2 (Hall views_newest 2%nat (withAge 0 first_) floor _ _ _) (Z.le_refl _)).
  - vm_compute. right; right; right; left.
  - vm_compute. reflexivity.
  - vm_compute. reflexivity.
Defined.

Definition scanned : scanResult := scrollAndExtract 10 3 ∅ 3 (Some window) views.

Lemma scan_reads_feed_witness :
  srErr scanned = None ∧ ∃ read, reads 10 3 ∅ 3 (Some window) views read scanned.
Proof.
  assert (srErr scanned = None) as He by (vm_compute; reflexivity).
  split; [exact He|]. exact (feed.scan_reads_feed 10 3 ∅ 3 (Some window) views He).
Defined.
End lookout.
